(* ===== verification/_CoqProject ===== *)
-Q . S2P
Prelude.v
Storage.v
Conversions.v
StepGen.v
Trajectory.v
StateMgr.v
CmdParser.v
Authority.v
Router.v
MqttDecode.v
ConfigStore.v
MqttLease.v
Authorization.v
SecurityRecords.v
DualSlot.v
SecurityStore.v
MachineDirectory.v
SecurityDirectory.v
Sessions.v
BrowserCommand.v
MqttWire.v
MqttInvalidation.v
MqttBroker.v
MqttAdmission.v
MqttRuntime.v
MachineAuth.v
MqttClient.v
MachineAdmin.v
MqttSecurity.v
NetLink.v
WifiTransaction.v
ServicePolicy.v
FactoryReset.v
NetManager.v
NetIsolation.v
AuthService.v
HttpAccess.v
HttpRoutes.v
UserAdmin.v
LocalRecovery.v
PasswordVerifier.v
Credentials.v
AuditLog.v
MqttService.v
MqttLifecycle.v
JsonBody.v
HttpCalls.v
SecurityHttp.v
BrowserEndpoint.v
HttpServer.v
HttpSurface.v
