(* ===== verification/Prelude.v ===== *)
(** * Argus V2 pump controller: a verification development

    The controller is an ESP32 firmware (C, [src/main/]) that drives a peristaltic pump
    through a stepper motor.  It takes commands from a console, from a browser on its own
    access point, from the plant network over its own MQTT broker, and keeps its identity,
    its accounts and its secrets in flash.  This development models that code function by
    function and proves the properties below about the model.

    ** How to read it

    A definition carries the name of the function, type or constant it models, and each
    file opens with the C file it follows.  Statics are records; a function that changes
    them takes the record and returns it; a function that can fail returns [esp_err_t],
    an [option] or a sum.  Machine integers are [Z] with their wrap-around written out
    ([u32], [u64], [i32] below); a C string is the list of its bytes.  What the firmware
    calls but the repository does not contain (FreeRTOS, ESP-IDF drivers, sockets, cJSON,
    mbedTLS) is an argument: the answers of those calls are parameters, and the theorems
    hold for every answer unless a hypothesis says otherwise.

    Code whose order of effects matters is a [prog] ([Storage]): a tree of calls, each with
    a continuation for every answer.  The same trees carry flash transactions (with a crash
    logic: power may go between any two calls, and a torn write leaves what NVS allows),
    request handlers and the task of a broker connection (with traces: what was called and
    answered, in order).  A [safe] or [obeys] predicate says that each call of a tree finds
    what it needs in the history before it; one rule per call, one theorem per surface.
    Tasks that share memory are interleavings of their critical sections: the [sg_step] of
    the step generator, whose calls the timer interrupt may cut anywhere between two
    sections, [broker_run], [schedule], the worker queue of [PasswordVerifier], the [others]
    of [NetManager], and [sys_run], in which tasks create tasks and [token]s say who holds
    what.

    ** Parts

    - Foundations.  This file: error codes, integers, byte strings, record update,
      tactics.  [Storage]: programs, executions, power cuts; [DualSlot]: the two-slot
      commit protocol and the register it refines.
    - Motion.  [Conversions] (argus_config.c, argus_conversions.c), [StepGen]
      (argus_step_gen.c, with the timer interrupt), [Trajectory] (argus_trajectory.c,
      written against the interface [StepGenerator]), [StateMgr] (argus_state_mgr.c).
    - Commands.  [CmdParser] (argus_cmd_parser.c), [Authority] (argus_authority_mgr.c),
      [Router] (argus_cmd_router.c and argus_restart_mgr.c), [BrowserCommand]
      (argus_browser_command.c).
    - MQTT.  [MqttDecode] and [MqttLease] (argus_mqtt_contract.c), [MqttAdmission] and
      [MqttRuntime] (argus_mqtt_runtime.c), [MqttWire], [MqttBroker] and [MqttClient]
      (argus_mqtt_broker.c: the packets, the memory under its lock, the task of a
      connection), [MqttInvalidation], [MqttSecurity], [MqttService] (the callbacks, the
      queue and the publications of argus_mqtt_runtime.c), [MqttLifecycle] (start, stop, the
      server task, and all tasks of the broker together).
    - Security records.  [Authorization], [SecurityRecords], [SecurityStore],
      [MachineDirectory], [SecurityDirectory], [Sessions], [AuditLog], and the services
      over them: [MachineAuth] and [MachineAdmin] (argus_machine_service.c), [AuthService]
      (argus_auth_service.c), [UserAdmin] (argus_security_admin.c), [PasswordVerifier],
      [LocalRecovery], [Credentials] (migration, factory default and provisioning).
    - Configuration and network.  [ConfigStore] (argus_nvs_config.c and
      argus_config_overlay.c), [NetLink], [WifiTransaction], [ServicePolicy],
      [FactoryReset], [NetManager] and [NetIsolation] (argus_net_mgr.c with its policy
      files).
    - Browser surface.  [HttpRoutes] (the route table), [HttpAccess] (the gate every
      handler passes), [JsonBody] (request bodies), [HttpCalls] (what handlers may call,
      and what each call needs), [SecurityHttp] and [HttpServer] (the handlers, their
      registration and the server), [BrowserEndpoint] (the command endpoint),
      [HttpSurface] (what holds of all of them).

    A command reaches the motor through [BrowserEndpoint] or [MqttClient] and
    [MqttRuntime], then [Router], [StateMgr], [Trajectory], [StepGen]; each file is proved
    against the definitions, or the interface, of the next.

    ** What the theorems show

    - The motor: no step without a settled driver, wherever the interrupt cuts the calls,
      none after a stop; the direction changes only in a tick that ends at standstill, ramps
      converge; an emergency stop latches until a reset is accepted and is dispatched by
      every source whatever the authority; the state core implements the permission
      matrix, a table ([permission_matrix]) that says for each command and state what is
      refused, what is kept and which layers are called.
    - Authority: the permission to move is the owner's alone and never changes hands under
      one generation, stale commands are refused, a lease names its owner, an MQTT command
      is executed at most once and only under a valid lease.
    - The broker: capacity of its pools whatever the interleaving, the gates of every
      publication and session in every trace of a connection's task, revocation that
      reaches a connection wherever it stands unless a stop took its socket first
      ([retired_escapes_fence]), and, with the callbacks the runtime installs, control only
      by a machine the policy lets control and the directory vouched for since its
      message was read, and a retained store that the controller's own topics never fill.
      Up to the first step that is not [orderly] - two the code can take are shown,
      [create_failure_closes_twice] and [start_timeout_leaves_connections] - descriptors are
      used only while they are open and a stop that succeeds has stopped everything.
    - Storage: each commit is atomic under power cuts ([config_commit_atomic],
      [store_refines_register], [audit_log_refines], [reset_destroys_last],
      [legacy_password_never_lost]); a boot whose reads fail closes the security store or
      finds what a boot without faults finds.
    - Accounts: [login_sound] and [authentication_sound] say whose principal a login gives,
      with which permissions; [gate_sound], [revocation_is_final], a bound on guesses,
      PBKDF2 as RFC 8018 states it, refinement of administration to finite maps.
    - The browser surface: every route's handler passes the gate its row names, records
      what it changes, proves a password where one is due, discloses a secret once or
      quarantines its machine, answers once, and dispatches only admitted commands, with an
      answer that says accepted just when the dispatcher did; the server starts whole or
      not at all.
    - Isolation: the network manager's transactions leave the local service isolated.

    ** Bounds and fuel

    Recursion is structural or on fuel that is enough by construction: the decoders of a
    text have fuel one more than its length and every step consumes a byte; reception
    ([recv_loop], [read_exact_loop], the factory-reset body) has the number of missing
    bytes and each arrival is not empty; a remaining length has four bytes, a decimal
    number twenty digits; the journal's search visits at most the 32 generations it keeps;
    polling loops have the attempt counts of the source (100 or 40 of 50 ms, 41 of the
    broker's shutdown); enrolment draws at most eight identifiers, a cool-down doubles four
    times.  A loop that a peer or a timer can prolong without bound (the rounds of a
    connection, waiting for a claim, the accept loop) takes the number of rounds as an
    argument, and its theorems hold for every number; where the code must come to an end that is a theorem
    of its own ([receive_terminates], [ramp_converges]).

    ** Not modelled

    - Allocation is assumed to succeed except where the source's failure path changes state
      or the answer ([MqttClient], [HttpServer]); zeroizing of temporaries is left out.
    - The functions behind an operations table that only forward to a driver are the
      storage boundary or the fields of the table: the [prod_*] functions over NVS, the
      locks, delays and restarts of [Router], [FactoryReset] and [NetManager].  Fields of an
      operations table are taken to be present, as the callers provide them.
    - The texts of pages and log lines, the names [esp_err_to_name] gives and the numbers
      of the Wi-Fi driver's reasons are parameters.
    - Statistics nothing depends on: stack margins, log throttling counters; socket options.
    - app_main.c (the wiring at boot, the diagnostic console and its menus), the console's
      line editor, the feedback stub, an unused JSON extractor, and the diagnostic test
      suites (argus_tests*.c), which exercise the modelled code; pages (.html), the HMI
      sketch, tools and documents are not C of the controller. *)

From Stdlib Require Export ZArith Lia.

From stdpp Require Export base option list gmap strings relations.

#[global] Open Scope Z_scope.

(** ** Error codes

    [esp_err_t] is an enumeration of ESP-IDF, which is not part of the
    repository.  The code only ever compares it with the constants named below
    and relies on [ESP_OK] being the one success code; every other value a
    library call may return is [ESP_ERR_OTHER]. *)
Inductive esp_err_t : Type :=
| ESP_OK
| ESP_FAIL
| ESP_ERR_NO_MEM
| ESP_ERR_INVALID_ARG
| ESP_ERR_INVALID_STATE
| ESP_ERR_INVALID_SIZE
| ESP_ERR_NOT_FOUND
| ESP_ERR_NVS_NOT_FOUND
| ESP_ERR_NOT_SUPPORTED
| ESP_ERR_TIMEOUT
| ESP_ERR_INVALID_CRC
| ESP_ERR_NOT_ALLOWED
| ESP_ERR_NOT_FINISHED
| ESP_ERR_INVALID_VERSION
| ESP_ERR_INVALID_RESPONSE
| ESP_ERR_WIFI_NOT_INIT
| ESP_ERR_WIFI_NOT_STARTED
| ESP_ERR_WIFI_CONN
| ESP_ERR_WIFI_NOT_CONNECT
| ESP_ERR_OTHER (code : Z).

#[export] Instance esp_err_eq_dec : EqDecision esp_err_t.
Proof. solve_decision. Defined.

Definition is_ok (e : esp_err_t) : bool := match e with ESP_OK => true | _ => false end.

(** ** Machine integers

    A C integer is a [Z] in its range; the conversions below are the
    wrap-around of the language. *)
Definition UINT16_MAX : Z := 65535.
Definition UINT32_MAX : Z := 4294967295.
Definition UINT64_MAX : Z := 18446744073709551615.
Definition INT32_MAX : Z := 2147483647.
Definition INT32_MIN : Z := -2147483648.

Definition u8 (z : Z) : Z := z mod 256.
Definition u16 (z : Z) : Z := z mod 65536.
Definition u32 (z : Z) : Z := z mod 4294967296.
Definition u64 (z : Z) : Z := z mod 18446744073709551616.
Definition i32 (z : Z) : Z := (z + 2147483648) mod 4294967296 - 2147483648.
Definition i64 (z : Z) : Z :=
  (z + 9223372036854775808) mod 18446744073709551616 - 9223372036854775808.

Definition is_u8 (z : Z) : Prop := 0 <= z < 256.
Definition is_u32 (z : Z) : Prop := 0 <= z < 4294967296.
Definition is_u64 (z : Z) : Prop := 0 <= z < 18446744073709551616.
Definition is_i32 (z : Z) : Prop := -2147483648 <= z < 2147483648.

Create HintDb argus.

Lemma u32_range z : is_u32 (u32 z).
Proof. unfold is_u32, u32. apply Z.mod_pos_bound. lia. Qed.

Lemma u64_range z : is_u64 (u64 z).
Proof. unfold is_u64, u64. apply Z.mod_pos_bound. lia. Qed.

Lemma u8_small z : is_u8 z -> u8 z = z.
Proof. apply Z.mod_small. Qed.

Lemma u32_small z : is_u32 z -> u32 z = z.
Proof. apply Z.mod_small. Qed.

Lemma u64_small z : is_u64 z -> u64 z = z.
Proof. apply Z.mod_small. Qed.

Lemma i32_small z : is_i32 z -> i32 z = z.
Proof. unfold is_i32, i32. intros. rewrite Z.mod_small; lia. Qed.

Lemma i32_range z : is_i32 (i32 z).
Proof.
  unfold is_i32, i32.
  pose proof (Z.mod_pos_bound (z + 2147483648) 4294967296). lia.
Qed.

(** Adding one to a 32-bit counter always changes it. *)
Lemma u32_succ_ne z : is_u32 z -> u32 (z + 1) <> z.
Proof.
  unfold is_u32, u32. intros H.
  destruct (decide (z = 4294967295)) as [->|]; [done|].
  rewrite Z.mod_small; lia.
Qed.

(** Counters whose zero means unused skip it when they wrap. *)
Definition nonzero_succ (z : Z) : Z := let z := u32 (z + 1) in if z =? 0 then 1 else z.

Lemma nonzero_succ_ne z : is_u32 z -> z <> 0 -> nonzero_succ z <> z.
Proof.
  intros Hz H0. unfold nonzero_succ. pose proof (u32_succ_ne z Hz). destruct (Z.eqb_spec (u32 (z + 1)) 0); [|done].
  intros <-. vm_compute in e. done.
Qed.

Lemma nonzero_succ_pos z : nonzero_succ z <> 0.
Proof. unfold nonzero_succ. by destruct (Z.eqb_spec (u32 (z + 1)) 0). Qed.

#[export] Hint Resolve u32_range u64_range i32_range u32_small u64_small i32_small u32_succ_ne : argus.

(** ** Byte strings

    A C string is the list of its bytes before the terminating NUL; a payload
    with a length is the list of its bytes.  [str] turns a literal of the source
    into its bytes. *)
Abbreviation bytes := (list Z).

Definition byte_of_ascii (a : Ascii.ascii) : Z := Z.of_N (Ascii.N_of_ascii a).

Definition str (s : string) : bytes :=
  byte_of_ascii <$> String.list_ascii_of_string s.

Arguments str s%_string : simpl never.

Declare Scope argus_scope.
Delimit Scope argus_scope with argus.
#[global] Open Scope argus_scope.

(** A NUL byte ends a C string: [cstring l] is what a C string function sees of
    a buffer that starts with [l]. *)
Fixpoint cstring (l : bytes) : bytes :=
  match l with
  | [] => []
  | c :: l' => if c =? 0 then [] else c :: cstring l'
  end.

(** [strlcpy(dst, src, size)] and [snprintf(dst, size, "%s", src)]: at most
    [size - 1] bytes are kept. *)
Definition strlcpy (src : bytes) (size : nat) : bytes := take (size - 1) src.

Lemma strlcpy_length s n : (length (strlcpy s n) <= n - 1)%nat.
Proof. unfold strlcpy. rewrite length_take. lia. Qed.

Lemma strlcpy_fits s n : (length s < n)%nat -> strlcpy s n = s.
Proof. intros. unfold strlcpy. apply take_ge. lia. Qed.

#[export] Hint Resolve strlcpy_length strlcpy_fits : argus.

(** ** Character classes of the "C" locale *)
Definition in_range (lo hi c : Z) : bool := (lo <=? c) && (c <=? hi).
Definition isdigit (c : Z) : bool := in_range 48 57 c.
Definition isupper (c : Z) : bool := in_range 65 90 c.
Definition islower (c : Z) : bool := in_range 97 122 c.
Definition isalpha (c : Z) : bool := isupper c || islower c.
Definition isalnum (c : Z) : bool := isdigit c || isalpha c.
Definition isprint (c : Z) : bool := in_range 32 126 c.
Definition isspace (c : Z) : bool := (c =? 32) || in_range 9 13 c.
Definition tolower (c : Z) : Z := if isupper c then c + 32 else c.

Lemma in_range_spec lo hi c : in_range lo hi c = true <-> lo <= c <= hi.
Proof. unfold in_range. rewrite andb_true_iff, !Z.leb_le. lia. Qed.

(** ** Record update

    [r <| f := v |>] is [r] with the field [f] set to [v].  A record type opts in
    with an [Eta] instance that rebuilds the record from its projections; the
    update of one field abstracts that projection out of it. *)
Class Eta (R : Type) : Type := eta : R -> R.
Class Update {R E : Type} (p : R -> E) : Type := { update : (E -> E) -> R -> R }.

Ltac build_update :=
  lazymatch goal with
  | |- @Update ?R ?E ?p =>
    let i := constr:(_ : Eta R) in
    let e := eval hnf in i in
    lazymatch (eval pattern p in e) with
    | ?F _ => exact {| update := fun (f : E -> E) (r : R) => F (fun x : R => f (p x)) r |}
    end
  end.

Arguments update {_ _} _ {_} _ _ /.

#[export] Hint Extern 1 (Update _) => build_update : typeclass_instances.

Notation "r <| p := v |>" := (update p (fun _ => v) r)
  (at level 1, left associativity, format "r  <| p  :=  v |>") : argus_scope.
Notation "r <| p ::= f |>" := (update p f r)
  (at level 1, left associativity, format "r  <| p  ::=  f |>") : argus_scope.

(** ** Tactics of the development *)

(** Split on the first boolean test or match of the goal or a hypothesis. *)
Ltac split_one :=
  match goal with
  | H : context [match ?x with _ => _ end] |- _ =>
      lazymatch x with context [match _ with _ => _ end] => fail | _ => destruct x eqn:? end
  | |- context [match ?x with _ => _ end] =>
      lazymatch x with context [match _ with _ => _ end] => fail | _ => destruct x eqn:? end
  end.

(** Turn boolean facts into the propositions they decide. *)
Ltac b2p :=
  repeat match goal with
  | H : (_ && _)%bool = true |- _ => apply andb_true_iff in H; destruct H
  | H : (_ || _)%bool = false |- _ => apply orb_false_iff in H; destruct H
  | H : negb _ = true |- _ => apply negb_true_iff in H
  | H : negb _ = false |- _ => apply negb_false_iff in H
  | H : (_ =? _) = true |- _ => apply Z.eqb_eq in H
  | H : (_ =? _) = false |- _ => apply Z.eqb_neq in H
  | H : (_ <? _) = true |- _ => apply Z.ltb_lt in H
  | H : (_ <? _) = false |- _ => apply Z.ltb_ge in H
  | H : (_ <=? _) = true |- _ => apply Z.leb_le in H
  | H : (_ <=? _) = false |- _ => apply Z.leb_gt in H
  | H : bool_decide _ = true |- _ => apply bool_decide_eq_true in H
  | H : bool_decide _ = false |- _ => apply bool_decide_eq_false in H
  end.

Ltac split_all := repeat (split_one; simplify_eq/=; try done).

Lemma is_ok_true e : is_ok e = true <-> e = ESP_OK.
Proof. by destruct e. Qed.

Lemma is_ok_false e : is_ok e = false <-> e <> ESP_OK.
Proof. by destruct e; split. Qed.

(** ** Decimal numbers

    What [printf("%lu")] writes: the digits of a number below [10 ^ fuel]. *)
Fixpoint decimal_digits (fuel : nat) (n : Z) (acc : bytes) : bytes :=
  match fuel with
  | O => acc
  | S fuel => if n <? 10 then (48 + n) :: acc else decimal_digits fuel (n / 10) ((48 + n mod 10) :: acc)
  end.

(** Enough for 64 bits. *)
Definition decimal (n : Z) : bytes := decimal_digits 20 n [].

(** The number a digit string denotes. *)
Definition digits_value (l : bytes) : Z := foldl (fun v c => 10 * v + (c - 48)) 0 l.

Definition all (p : Z -> bool) (l : bytes) : Prop := Forall (fun c => p c = true) l.

Lemma foldl_digits v l :
  foldl (fun v c => 10 * v + (c - 48)) v l = v * 10 ^ Z.of_nat (length l) + digits_value l.
Proof.
  unfold digits_value. revert v. induction l as [|c l IH] using rev_ind; intros v.
  - cbn. lia.
  - rewrite !foldl_app, length_app. cbn [foldl length]. rewrite IH, (IH 0).
    replace (Z.of_nat (length l + 1)) with (Z.of_nat (length l) + 1) by lia.
    rewrite Z.pow_add_r by lia. lia.
Qed.

Lemma decimal_digits_spec fuel n acc :
  0 <= n < 10 ^ Z.of_nat (S fuel) ->
  exists c ds, decimal_digits (S fuel) n acc = c :: ds ++ acc /\ all isdigit (c :: ds) /\
    digits_value (c :: ds) = n /\ (c = 48 -> n = 0 /\ ds = []).
Proof.
  assert (Hdig : forall k, 0 <= k < 10 -> isdigit (48 + k) = true).
  { intros k Hk. apply in_range_spec. lia. }
  revert n acc. induction fuel as [|fuel IH]; intros n acc Hn;
    [cbn [decimal_digits]|rewrite (eq_refl : decimal_digits (S (S fuel)) n acc =
       if n <? 10 then (48 + n) :: acc else decimal_digits (S fuel) (n / 10) ((48 + n mod 10) :: acc))];
    (destruct (Z.ltb_spec n 10) as [Hlt|Hge]; [|try (cbn in Hn; lia)]).
  { exists (48 + n), []. split; [done|]. split; [constructor; [apply Hdig; lia|constructor]|].
    split; [cbn; lia|]. split; [lia|done]. }
  - exists (48 + n), []. split; [done|]. split; [constructor; [apply Hdig; lia|constructor]|].
    split; [cbn; lia|]. split; [lia|done].
  - pose proof (Z.mod_pos_bound n 10 ltac:(lia)). pose proof (Z.div_mod n 10 ltac:(lia)).
    destruct (IH (n / 10) ((48 + n mod 10) :: acc)) as (c & ds & He & Ha & Hv & Hz).
    { replace (Z.of_nat (S (S fuel))) with (1 + Z.of_nat (S fuel)) in Hn by lia.
      rewrite Z.pow_add_r in Hn by lia. split; [apply Z.div_pos; lia|].
      apply Z.div_lt_upper_bound; lia. }
    exists c, (ds ++ [48 + n mod 10]). split; [|split; [|split]].
    + rewrite He, <- app_assoc. done.
    + change (c :: ds ++ [48 + n mod 10]) with ((c :: ds) ++ [48 + n mod 10]).
      apply Forall_app. split; [done|]. constructor; [apply Hdig; lia|constructor].
    + change (c :: ds ++ [48 + n mod 10]) with ((c :: ds) ++ [48 + n mod 10]).
      unfold digits_value. rewrite foldl_app. fold (digits_value (c :: ds)). rewrite Hv. cbn. lia.
    + intros Hc. destruct (Hz Hc). lia.
Qed.

Lemma decimal_spec n : 0 <= n < 18446744073709551616 ->
  exists c ds, decimal n = c :: ds /\ all isdigit (c :: ds) /\
    digits_value (c :: ds) = n /\ (c = 48 -> n = 0 /\ ds = []).
Proof.
  intros Hn. destruct (decimal_digits_spec 19 n []) as (c & ds & He & H); [cbn; lia|].
  rewrite app_nil_r in He. eauto.
Qed.

(** ** Scanning *)
Fixpoint skip_while (p : Z -> bool) (l : bytes) : bytes :=
  match l with
  | [] => []
  | c :: l' => if p c then skip_while p l' else l
  end.

Fixpoint take_while (p : Z -> bool) (l : bytes) : bytes :=
  match l with
  | [] => []
  | c :: l' => if p c then c :: take_while p l' else []
  end.

Lemma skip_take_while p l : take_while p l ++ skip_while p l = l.
Proof. induction l as [|c l IH]; cbn; [done|]. case_match; cbn; [by rewrite IH|done]. Qed.

Lemma take_while_all p l : all p (take_while p l).
Proof. induction l as [|c l IH]; cbn; [constructor|]. case_match; constructor; done. Qed.

Lemma skip_while_all p l l' : all p l -> skip_while p (l ++ l') = skip_while p l'.
Proof. induction 1 as [|c l Hc _ IH]; cbn; [done|]. by rewrite Hc. Qed.

Lemma skip_while_nil p l : skip_while p l = [] <-> all p l.
Proof.
  split.
  - intros H. rewrite <- (skip_take_while p l), H, app_nil_r. apply take_while_all.
  - intros H. rewrite <- (app_nil_r l). by apply skip_while_all.
Qed.

Lemma skip_while_stop p c l : p c = false -> skip_while p (c :: l) = c :: l.
Proof. intros H. cbn. by rewrite H. Qed.

Lemma skip_while_head p l c l' : skip_while p l = c :: l' -> p c = false.
Proof.
  induction l as [|d l IH]; cbn; [done|]. case_match; [done|]. by intros [= -> ->].
Qed.

(** A run of [p] followed by something [p] refuses is found exactly. *)
Lemma while_app p l l' :
  all p l -> match l' with [] => True | c :: _ => p c = false end ->
  take_while p (l ++ l') = l /\ skip_while p (l ++ l') = l'.
Proof.
  induction 1 as [|c l Hc _ IH]; cbn.
  - destruct l' as [|d l']; cbn; [done|]. intros H. by rewrite H.
  - intros H. rewrite Hc. destruct (IH H) as [-> ->]. done.
Qed.

Lemma digits_value_nonneg l : all isdigit l -> 0 <= digits_value l.
Proof.
  unfold digits_value. assert (forall v, 0 <= v -> all isdigit l ->
    0 <= foldl (fun v c => 10 * v + (c - 48)) v l) as H; [|intros; by apply H].
  induction l as [|c l IH]; intros v Hv Ha; [done|]. inversion Ha; subst. cbn.
  apply IH; [|done]. unfold isdigit in *. apply in_range_spec in H1. lia.
Qed.

Lemma decimal_length n : (length (decimal n) <= 20)%nat.
Proof.
  unfold decimal. enough (Hg : forall fuel k acc,
    (length (decimal_digits fuel k acc) <= fuel + length acc)%nat) by apply (Hg 20%nat n []).
  induction fuel as [|f IH]; intros k acc; cbn [decimal_digits]; [lia|]. case_match; cbn [length]; [lia|].
  specialize (IH (k / 10) ((48 + k mod 10) :: acc)). cbn [length] in IH. lia.
Qed.

(** A quoted text. *)
Definition quoted (s : bytes) : bytes := 34 :: s ++ [34].

(** Evaluate the lengths of the literals. *)
Ltac literal_lengths :=
  repeat match goal with
         | |- context [length (str ?s)] =>
             let n := eval vm_compute in (length (str s)) in change (length (str s)) with n
         end.

(** Decide the comparisons of literals. *)
Ltac literal_decisions :=
  repeat match goal with
         | |- context [bool_decide (str ?a = str ?b)] =>
             let v := eval vm_compute in (bool_decide (str a = str b)) in
             change (bool_decide (str a = str b)) with v
         end; cbv iota.
