(* ===== verification/Storage.v ===== *)
(** * Programs over persistent storage

    The dual-slot stores of [src/main/argus_security_store.c],
    [argus_machine_directory.c], [argus_security_directory.c] and
    [argus_nvs_config.c] are sequences of reads and writes of a flash that may fail and
    that a power cut may interrupt.  Such a sequence is a [prog] here: its executions are
    the steps of a relation, with every outcome the storage may give, and [run] is the
    execution without faults.  [wpc] is the proof rule: a postcondition for the
    executions that return, and a condition that holds of the flash wherever the power
    may be cut.  The second half is the flash of two slots and a selector all four stores
    use, and the byte-level CRC-32. *)

From S2P Require Import Prelude.

(** ** Programs *)

Inductive prog (E : Type -> Type) (A : Type) : Type :=
| Ret (a : A)
| Op (X : Type) (e : E X) (k : X -> prog E A).
Arguments Ret {E A} a.
Arguments Op {E A X} e k.

Fixpoint prog_bind {E A B} (k : A -> prog E B) (p : prog E A) : prog E B :=
  match p with
  | Ret a => k a
  | Op e k' => Op e (fun x => prog_bind k (k' x))
  end.

#[export] Instance prog_mbind E : MBind (prog E) := fun A B => @prog_bind E A B.
#[export] Instance prog_mret E : MRet (prog E) := fun A => @Ret E A.

Definition call {E X} (e : E X) : prog E X := Op e Ret.

(** What the operations [E] do to a storage of type [F]: the results and states an
    operation may leave, the states a power cut in the middle of it may leave, and what
    it does when nothing fails. *)
Class Storage (E : Type -> Type) (F : Type) := {
  outcome : forall X : Type, E X -> F -> X -> F -> Prop;
  torn : forall X : Type, E X -> F -> F -> Prop;
  perform : forall X : Type, E X -> F -> X * F;
  perform_outcome : forall (X : Type) (e : E X) f, outcome X e f (perform X e f).1 (perform X e f).2
}.
Arguments outcome {E F _ X}.
Arguments torn {E F _ X}.
Arguments perform {E F _ X}.
Arguments perform_outcome {E F _ X}.

Section Executions.
Context {E : Type -> Type} {F : Type} `{Storage E F} {A : Type}.

(** The execution in which nothing fails. *)
Fixpoint run (p : prog E A) (f : F) : A * F :=
  match p with
  | Ret a => (a, f)
  | Op e k => let '(x, f') := perform e f in run (k x) f'
  end.

Definition step (c c' : prog E A * F) : Prop :=
  match c.1 with
  | Ret _ => False
  | Op e k => exists x f', outcome e c.2 x f' /\ c' = (k x, f')
  end.

(** [p] started on [f] may return [a] and leave [f']. *)
Definition returns (p : prog E A) (f : F) (a : A) (f' : F) : Prop := rtc step (p, f) (Ret a, f').

(** The power may be cut while [p] runs, between two operations or inside one, and leave [f']. *)
Definition power_cut (p : prog E A) (f f' : F) : Prop :=
  exists c, rtc step (p, f) c /\
    (f' = c.2 \/ match c.1 with Ret _ => False | Op e _ => torn e c.2 f' end).

(** Every execution satisfies [post] if it returns and [crash] wherever it is cut. *)
Fixpoint wpc (p : prog E A) (post : A -> F -> Prop) (crash : F -> Prop) (f : F) : Prop :=
  crash f /\
  match p with
  | Ret a => post a f
  | Op e k =>
      (forall f', torn e f f' -> crash f') /\
      (forall x f', outcome e f x f' -> wpc (k x) post crash f')
  end.

Lemma wpc_step p post crash f c :
  wpc p post crash f -> rtc step (p, f) c -> wpc c.1 post crash c.2.
Proof.
  intros Hw Hs. remember (p, f) as c0 eqn:Hc. revert p f Hc Hw.
  induction Hs as [c|c c1 c2 H1 _ IH]; intros p f -> Hw; [done|].
  destruct p as [a|X e k]; [done|]. destruct H1 as (x & f' & Ho & ->).
  destruct Hw as (_ & _ & Hk). exact (IH (k x) f' eq_refl (Hk x f' Ho)).
Qed.

Lemma wpc_crash p post crash f : wpc p post crash f -> crash f.
Proof. destruct p; intros [Hc _]; exact Hc. Qed.

Lemma wpc_returns p post crash f a f' : wpc p post crash f -> returns p f a f' -> post a f'.
Proof. intros Hw Hr. exact (proj2 (wpc_step _ _ _ _ _ Hw Hr)). Qed.

Lemma wpc_power_cut p post crash f f' : wpc p post crash f -> power_cut p f f' -> crash f'.
Proof.
  intros Hw ((p' & f1) & Hs & Hf). pose proof (wpc_step _ _ _ _ _ Hw Hs) as Hw'. cbn [fst snd] in *.
  destruct Hf as [->|Ht]; [exact (wpc_crash _ _ _ _ Hw')|].
  destruct p' as [a|X e k]; [done|]. exact (proj1 (proj2 Hw') f' Ht).
Qed.

Lemma run_returns p f : returns p f (run p f).1 (run p f).2.
Proof.
  revert f. induction p as [a|X e k IH]; intros f; cbn [run]; [apply rtc_refl|].
  pose proof (perform_outcome e f) as Ho. destruct (perform e f) as [x f'].
  apply rtc_l with (k x, f'); [|exact (IH x f')]. exists x, f'. done.
Qed.

Lemma run_power_cut p f : power_cut p f (run p f).2.
Proof. exists (Ret (run p f).1, (run p f).2). split; [apply run_returns|by left]. Qed.

(** The first [n] operations of the execution without faults. *)
Fixpoint run_for (n : nat) (p : prog E A) (f : F) : prog E A * F :=
  match n, p with
  | O, _ | _, Ret _ => (p, f)
  | S n, Op e k => let '(x, f') := perform e f in run_for n (k x) f'
  end.

Lemma run_for_steps n p f : rtc step (p, f) (run_for n p f).
Proof.
  revert p f. induction n as [|n IH]; intros p f; [apply rtc_refl|]. destruct p as [a|X e k]; [apply rtc_refl|].
  cbn [run_for]. pose proof (perform_outcome e f) as Ho. destruct (perform e f) as [x f'].
  apply rtc_l with (k x, f'); [|apply IH]. exists x, f'. done.
Qed.

Lemma run_for_power_cut n p f : power_cut p f (run_for n p f).2.
Proof. exists (run_for n p f). split; [apply run_for_steps|by left]. Qed.

Lemma wpc_mono p (post post' : A -> F -> Prop) (crash crash' : F -> Prop) f :
  (forall a f', post a f' -> post' a f') -> (forall f', crash f' -> crash' f') ->
  wpc p post crash f -> wpc p post' crash' f.
Proof.
  intros Hp Hc. revert f. induction p as [a|X e k IH]; intros f [Hf Hw]; split; auto.
  destruct Hw as [Ht Hk]. split; [intros f' H'; auto|]. intros x f' Ho. exact (IH x f' (Hk x f' Ho)).
Qed.
End Executions.

Lemma wpc_bind {E F} `{Storage E F} {A B} (p : prog E A) (k : A -> prog E B) post crash f :
  wpc p (fun a => wpc (k a) post crash) crash f -> wpc (p ≫= k) post crash f.
Proof.
  revert f. induction p as [a|X e k' IH]; intros f Hw.
  - exact (proj2 Hw).
  - destruct Hw as (Hc & Ht & Hk). split; [exact Hc|]. split; [exact Ht|].
    intros x f' Ho. exact (IH x f' (Hk x f' Ho)).
Qed.

(** Whatever the operations answer, [p] returns a value that satisfies [post]. *)
Fixpoint always {E A} (post : A -> Prop) (p : prog E A) : Prop :=
  match p with
  | Ret a => post a
  | Op e k => forall x, always post (k x)
  end.

Lemma always_bind {E A B} (post : B -> Prop) (p : prog E A) (k : A -> prog E B) :
  always (fun a => always post (k a)) p -> always post (p ≫= k).
Proof. induction p as [a|X e k' IH]; intros H; [exact H|]. intros x. exact (IH x (H x)). Qed.

Lemma always_mono {E A} (post post' : A -> Prop) (p : prog E A) :
  (forall a, post a -> post' a) -> always post p -> always post' p.
Proof. intros Hp. induction p as [a|X e k IH]; cbn; auto. Qed.

Lemma always_true {E A} (p : prog E A) : always (fun _ => True) p.
Proof. by induction p. Qed.

(** [p] returns [a] for some answers of the operations. *)
Fixpoint possible {E A} (p : prog E A) (a : A) : Prop :=
  match p with
  | Ret b => a = b
  | Op e k => exists x, possible (k x) a
  end.

Lemma always_possible {E A} (post : A -> Prop) (p : prog E A) a : always post p -> possible p a -> post a.
Proof. induction p as [b|X e k IH]; cbn; [by intros ? ->|]. intros H [x Hx]. exact (IH x (H x) Hx). Qed.

Lemma run_possible {E F} `{Storage E F} {A} (p : prog E A) f : possible p (run p f).1.
Proof.
  revert f. induction p as [a|X e k IH]; intros f; [done|]. cbn [run]. destruct (perform e f) as [x f1].
  exists x. apply IH.
Qed.

Lemma always_returns {E F} `{Storage E F} {A} (post : A -> Prop) (p : prog E A) f a f' :
  always post p -> returns p f a f' -> post a.
Proof.
  intros Hp Hr. assert (Hw : wpc p (fun a _ => post a) (fun _ => True) f);
    [|exact (wpc_returns _ _ _ _ _ _ Hw Hr)].
  clear Hr. revert f. induction p as [b|X e k IH]; intros f; split; try done. split; [done|].
  intros x f1 _. exact (IH x (Hp x) f1).
Qed.

(** Every operation [p] may call, whatever the answers, is one of [C]. *)
Fixpoint ops_all {E A} (C : forall X : Type, E X -> Prop) (p : prog E A) : Prop :=
  match p with
  | Ret _ => True
  | @Op _ _ X e k => C X e /\ forall x, ops_all C (k x)
  end.

Lemma ops_all_bind {E A B} (C : forall X : Type, E X -> Prop) (p : prog E A) (k : A -> prog E B) :
  ops_all C p -> (forall a, ops_all C (k a)) -> ops_all C (p ≫= k).
Proof.
  induction p as [a|X e k' IH]; intros Hp Hk; [apply Hk|]. destruct Hp as [He Hp]. split; [exact He|].
  intros x. exact (IH x (Hp x) Hk).
Qed.

Lemma ops_all_mono {E A} (C C' : forall X : Type, E X -> Prop) (p : prog E A) :
  (forall X (e : E X), C X e -> C' X e) -> ops_all C p -> ops_all C' p.
Proof. intros H. induction p as [a|X e k IH]; cbn; [done|]. intros [He Hp]. split; auto. Qed.

(** A predicate the operations of [C] preserve holds throughout a program of them. *)
Lemma wpc_ops {E F} `{Storage E F} {A} (C : forall X : Type, E X -> Prop) (P crash : F -> Prop) (p : prog E A) f :
  (forall X (e : E X) f x f', C X e -> P f -> outcome e f x f' -> P f') ->
  (forall X (e : E X) f f', C X e -> P f -> torn e f f' -> crash f') ->
  (forall f, P f -> crash f) ->
  ops_all C p -> P f -> wpc p (fun _ => P) crash f.
Proof.
  intros Hs Ht Hc. revert f. induction p as [a|X e k IH]; intros f Hp Hf; split; auto.
  destruct Hp as [He Hp]. split; [eauto|]. intros x f' Ho. exact (IH x f' (Hp x) (Hs X e f x f' He Hf Ho)).
Qed.

(** Unfold the monad's operations on programs. *)
Ltac prog_simpl := cbn [mbind prog_mbind prog_bind mret prog_mret call negb].

(** ** The flash of a dual-slot store

    A read returns an error or the value.  [good] is the validity check of the store's
    records.  A write of a slot that is reported as done may still have stored something
    the check refuses, which the stores read back for; a write that failed or was cut
    leaves the old slot, the new one, or something the check refuses.  The selector is
    one byte: a write of it is done or not done. *)

Definition status {X} (r : esp_err_t + X) : esp_err_t := match r with inl e => e | inr _ => ESP_OK end.

Definition missing (e : esp_err_t) : bool :=
  match e with ESP_ERR_NOT_FOUND | ESP_ERR_NVS_NOT_FOUND => true | _ => false end.

Inductive slot_op (S : Type) : Type -> Type :=
| ReadSlot (index : Z) : slot_op S (esp_err_t + S)
| WriteSlot (index : Z) (s : S) : slot_op S esp_err_t
| ReadSelector : slot_op S (esp_err_t + Z)
| WriteSelector (v : Z) : slot_op S esp_err_t.
Arguments ReadSlot {S}.
Arguments WriteSlot {S}.
Arguments ReadSelector {S}.
Arguments WriteSelector {S}.

Record flash (S : Type) := Flash { fl_a : option S; fl_b : option S; fl_selector : option Z }.
Arguments Flash {S}.
Arguments fl_a {S}.
Arguments fl_b {S}.
Arguments fl_selector {S}.

Definition slot_at {S} (f : flash S) (index : Z) : option S := if index =? 0 then fl_a f else fl_b f.

Definition set_slot {S} (f : flash S) (index : Z) (s : S) : flash S :=
  if index =? 0 then Flash (Some s) (fl_b f) (fl_selector f) else Flash (fl_a f) (Some s) (fl_selector f).

Definition set_selector {S} (f : flash S) (v : Z) : flash S := Flash (fl_a f) (fl_b f) (Some v).

(** Something that is stored in place of a value: it, or what the check refuses. *)
Definition stored_for {S} (good : S -> bool) (f : flash S) (index : Z) (s : S) (f' : flash S) : Prop :=
  f' = set_slot f index s \/ exists g, good g = false /\ f' = set_slot f index g.

Definition read_outcome {X} (v : option X) (r : esp_err_t + X) : Prop :=
  match r with
  | inr x => v = Some x
  | inl e => e <> ESP_OK /\ (missing e = true -> v = None)
  end.

Definition slot_outcome {S} (good : S -> bool) {X} (e : slot_op S X) (f : flash S) : X -> flash S -> Prop :=
  match e with
  | ReadSlot i => fun r f' => f' = f /\ read_outcome (slot_at f i) r
  | WriteSlot i s => fun err f' =>
      (err <> ESP_OK /\ f' = f) \/ stored_for good f i s f'
  | ReadSelector => fun r f' => f' = f /\ read_outcome (fl_selector f) r
  | WriteSelector v => fun err f' => (err <> ESP_OK /\ f' = f) \/ f' = set_selector f v
  end.

Definition slot_torn {S} (good : S -> bool) {X} (e : slot_op S X) (f f' : flash S) : Prop :=
  match e with
  | ReadSlot _ | ReadSelector => f' = f
  | WriteSlot i s => f' = f \/ stored_for good f i s f'
  | WriteSelector v => f' = f \/ f' = set_selector f v
  end.

Definition read_value {X} (v : option X) : esp_err_t + X :=
  match v with Some x => inr x | None => inl ESP_ERR_NVS_NOT_FOUND end.

Definition slot_perform {S} {X} (e : slot_op S X) (f : flash S) : X * flash S :=
  match e with
  | ReadSlot i => (read_value (slot_at f i), f)
  | WriteSlot i s => (ESP_OK, set_slot f i s)
  | ReadSelector => (read_value (fl_selector f), f)
  | WriteSelector v => (ESP_OK, set_selector f v)
  end.

Lemma read_value_outcome {X} (v : option X) : read_outcome v (read_value v).
Proof. by destruct v. Qed.

Lemma slot_perform_outcome {S} (good : S -> bool) {X} (e : slot_op S X) f :
  slot_outcome good e f (slot_perform e f).1 (slot_perform e f).2.
Proof.
  destruct e; cbn; [split; [done|apply read_value_outcome]| |split; [done|apply read_value_outcome]|by right].
  right. by left.
Qed.

(** A store is given by the validity check of its records. *)
Class SlotCheck (S : Type) := slot_good : S -> bool.

#[export] Instance slot_storage {S} `{SlotCheck S} : Storage (slot_op S) (flash S) := {|
  outcome X := slot_outcome slot_good;
  torn X := slot_torn slot_good;
  perform X := slot_perform;
  perform_outcome X := slot_perform_outcome slot_good
|}.

(** A read leaves the flash as it is. *)
Lemma wpc_read_slot {S} `{SlotCheck S} {A} i (k : esp_err_t + S -> prog (slot_op S) A) post crash f :
  crash f -> (forall r, read_outcome (slot_at f i) r -> wpc (k r) post crash f) ->
  wpc (Op (ReadSlot i) k) post crash f.
Proof.
  intros Hc Hk. split; [done|]. split; [intros f' Ht; hnf in Ht; by subst f'|].
  intros r f' Ho. hnf in Ho. destruct Ho as [-> Hr]. auto.
Qed.

Lemma wpc_read_selector {S} `{SlotCheck S} {A} (k : esp_err_t + Z -> prog (slot_op S) A) post crash f :
  crash f -> (forall r, read_outcome (fl_selector f) r -> wpc (k r) post crash f) ->
  wpc (Op ReadSelector k) post crash f.
Proof.
  intros Hc Hk. split; [done|]. split; [intros f' Ht; hnf in Ht; by subst f'|].
  intros r f' Ho. hnf in Ho. destruct Ho as [-> Hr]. auto.
Qed.

Definition other_slot (i : Z) : Z := Z.lxor i 1.

Lemma other_slot_01 i : i = 0 \/ i = 1 -> (other_slot i = 1 /\ i = 0) \/ (other_slot i = 0 /\ i = 1).
Proof. by intros [->| ->]; [left|right]. Qed.

Lemma slot_at_set_same {S} (f : flash S) i s : slot_at (set_slot f i s) i = Some s.
Proof. unfold slot_at, set_slot. by destruct (i =? 0). Qed.

Lemma slot_at_set_other {S} (f : flash S) i s : i = 0 \/ i = 1 ->
  slot_at (set_slot f (other_slot i) s) i = slot_at f i.
Proof. by intros [->| ->]. Qed.

Lemma slot_at_set_selector {S} (f : flash S) i v : slot_at (set_selector f v) i = slot_at f i.
Proof. done. Qed.

(** ** CRC-32

    The reflected polynomial 0xEDB88320, bit by bit, as all four stores compute it. *)

Definition crc32_bit (crc : Z) : Z :=
  if negb (Z.land crc 1 =? 0) then Z.lxor (Z.shiftr crc 1) 3988292384 else Z.shiftr crc 1.

Definition crc32_byte (crc byte : Z) : Z := Nat.iter 8 crc32_bit (Z.lxor crc byte).

Definition crc32_bytes (data : bytes) : Z := Z.lxor (foldl crc32_byte UINT32_MAX data) UINT32_MAX.

(** The check value of the standard. *)
Example crc32_check : crc32_bytes (str "123456789") = 3421780262.
Proof. by vm_compute. Qed.

(** ** Packed records *)

Fixpoint le (n : nat) (z : Z) : bytes :=
  match n with O => [] | S n => z mod 256 :: le n (z / 256) end.

(** A character array of [n] bytes that holds the C string [s], zero behind it. *)
Definition chars (n : nat) (s : bytes) : bytes := take n (s ++ replicate n 0).

Lemma le_length n z : length (le n z) = n.
Proof. revert z. induction n as [|n IH]; intros z; cbn [le length]; [done|]. by rewrite IH. Qed.

Lemma chars_length n s : length (chars n s) = n.
Proof. unfold chars. rewrite length_take, length_app, length_replicate. lia. Qed.

Lemma lxor_bound n a b : 0 <= n -> 0 <= a < 2 ^ n -> 0 <= b < 2 ^ n -> 0 <= Z.lxor a b < 2 ^ n.
Proof.
  intros Hn Ha Hb. assert (Hx : 0 <= Z.lxor a b) by (apply Z.lxor_nonneg; lia). split; [done|].
  assert (Hlog : forall c, 0 <= c < 2 ^ n -> c <> 0 -> Z.log2 c < n) by (intros; apply Z.log2_lt_pow2; lia).
  destruct (Z.eq_dec (Z.lxor a b) 0) as [->|Hne]; [apply Z.pow_pos_nonneg; lia|].
  destruct (Z.eq_dec a 0) as [->|]; [rewrite Z.lxor_0_l; exact (proj2 Hb)|].
  destruct (Z.eq_dec b 0) as [->|]; [rewrite Z.lxor_0_r; exact (proj2 Ha)|].
  apply Z.log2_lt_pow2; [lia|]. eapply Z.le_lt_trans; [apply Z.log2_lxor; lia|].
  apply Z.max_lub_lt; auto.
Qed.

Lemma lxor_u32 a b : is_u32 a -> is_u32 b -> is_u32 (Z.lxor a b).
Proof. apply (lxor_bound 32). lia. Qed.

Lemma crc32_bit_range crc : is_u32 crc -> is_u32 (crc32_bit crc).
Proof.
  intros Hc. assert (H : is_u32 (Z.shiftr crc 1)).
  { unfold is_u32 in *. rewrite Z.shiftr_div_pow2 by lia.
    split; [apply Z.div_pos; lia|apply Z.div_lt_upper_bound; lia]. }
  unfold crc32_bit. destruct (negb _); [|done]. by apply lxor_u32.
Qed.

(** The CRC of bytes is a 32-bit word. *)
Lemma crc32_range data : Forall is_u8 data -> is_u32 (crc32_bytes data).
Proof.
  intros Hd. apply lxor_u32; [|by unfold is_u32].
  enough (Hg : forall c, is_u32 c -> is_u32 (foldl crc32_byte c data)) by (apply Hg; by unfold is_u32).
  induction Hd as [|x l Hx _ IH]; intros c Hc; cbn [foldl]; [done|]. apply IH.
  assert (H0 : is_u32 (Z.lxor c x)) by (apply lxor_u32; [done|unfold is_u8, is_u32 in *; lia]).
  unfold crc32_byte. cbn [Nat.iter nat_rect]. repeat apply crc32_bit_range. done.
Qed.
