(* ===== verification/Conversions.v ===== *)
(** * Configuration and unit conversions

    [src/main/argus_config.c] (the configuration record and its defaults) and
    [src/main/argus_conversions.c] (steps per revolution, milli-RPM to
    millihertz and back, volumetric flow to milli-RPM), with the widths of the
    C arithmetic written out. *)

From S2P Require Import Prelude.

(** ** The configuration record *)

Record argus_config_t := Config {
  motor_full_steps_per_rev : Z;
  microsteps : Z;
  gearbox_ratio_num : Z;
  gearbox_ratio_den : Z;
  min_output_milli_rpm : Z;
  max_output_milli_rpm : Z;
  min_step_pulse_width_us : Z;
  accel_milli_rpm_per_sec : Z;
  decel_milli_rpm_per_sec : Z;
  step_gpio : Z;
  dir_gpio : Z;
  en_gpio : Z;
  enable_active_low : bool;
  step_active_low : bool;
  dir_inverted : bool;
  client_name : bytes;
  cfg_unit_id : bytes
}.

(** What reading the NVS namespace "storage" gives: [None] when it does not
    open, otherwise the two strings ([None] where [nvs_get_str] fails and leaves
    the buffer alone). *)
Definition nvs_storage : Type := option (option bytes * option bytes).

(** [argus_config_init]: hardware defaults, then the Kconfig identity (when the
    macro is defined), then the NVS override.  The Kconfig strings and the NVS
    contents are inputs. *)
Definition argus_config_init (kconfig_client kconfig_unit : option bytes)
    (nvs : nvs_storage) : argus_config_t :=
  let client0 := strlcpy (default (str "dev_client") kconfig_client) 32 in
  let unit0 := strlcpy (default (str "pump_v2_001") kconfig_unit) 32 in
  {| motor_full_steps_per_rev := 200;
     microsteps := 4;
     gearbox_ratio_num := 10;
     gearbox_ratio_den := 1;
     min_output_milli_rpm := 500;
     max_output_milli_rpm := 200000;
     min_step_pulse_width_us := 4;
     accel_milli_rpm_per_sec := 10000;
     decel_milli_rpm_per_sec := 10000;
     step_gpio := 3;
     dir_gpio := 4;
     en_gpio := 5;
     enable_active_low := true;
     step_active_low := true;
     dir_inverted := true;
     client_name := match nvs with Some (Some s, _) => s | _ => client0 end;
     cfg_unit_id := match nvs with Some (_, Some s) => s | _ => unit0 end |}.

(** The ranges of the numeric fields (their C types). *)
Record config_wf (cfg : argus_config_t) : Prop := {
  wf_full_steps : is_u32 (motor_full_steps_per_rev cfg);
  wf_microsteps : is_u32 (microsteps cfg);
  wf_ratio_num : is_u32 (gearbox_ratio_num cfg);
  wf_ratio_den : is_u32 (gearbox_ratio_den cfg);
  wf_max_rpm : is_i32 (max_output_milli_rpm cfg);
  wf_accel : is_i32 (accel_milli_rpm_per_sec cfg);
  wf_decel : is_i32 (decel_milli_rpm_per_sec cfg)
}.

(** ** Conversions *)

(** [cfg == NULL] is [None]. *)
Definition argus_conversions_steps_per_rev (cfg : option argus_config_t) : Z :=
  match cfg with
  | None => 0
  | Some cfg =>
      if gearbox_ratio_den cfg =? 0 then 0
      else
        let base := u64 (motor_full_steps_per_rev cfg * microsteps cfg) in
        u64 (base * gearbox_ratio_num cfg) / gearbox_ratio_den cfg
  end.

(** [-milli_rpm] is computed in [int32_t] and then widened. *)
Definition argus_conversions_rpm_to_mhz (milli_rpm : Z) (cfg : option argus_config_t) : Z :=
  let spr := argus_conversions_steps_per_rev cfg in
  if spr =? 0 then 0
  else
    let abs_milli_rpm := if milli_rpm <? 0 then u64 (i32 (- milli_rpm)) else u64 milli_rpm in
    u64 (abs_milli_rpm * spr) / 60.

Definition argus_conversions_mhz_to_rpm (freq_mhz : Z) (forward : bool)
    (cfg : option argus_config_t) : Z :=
  let spr := argus_conversions_steps_per_rev cfg in
  if spr =? 0 then 0
  else
    let milli_rpm := u64 (freq_mhz * 60) / spr in
    let milli_rpm := if INT32_MAX <? milli_rpm then INT32_MAX else milli_rpm in
    if forward then milli_rpm else - milli_rpm.

(** The division is C's, which truncates toward zero. *)
Definition argus_conversions_flow_to_rpm
    (flow_microliters_per_min displacement_microliters_per_rev : Z) : Z :=
  if displacement_microliters_per_rev <=? 0 then 0
  else
    let milli_rpm :=
      Z.quot (i64 (flow_microliters_per_min * 1000)) displacement_microliters_per_rev in
    if INT32_MAX <? milli_rpm then INT32_MAX
    else if milli_rpm <? INT32_MIN then INT32_MIN
    else milli_rpm.

(** ** Properties *)

Lemma steps_per_rev_range cfg :
  config_wf cfg -> 0 <= argus_conversions_steps_per_rev (Some cfg) < 18446744073709551616.
Proof.
  intros []. unfold argus_conversions_steps_per_rev, is_u32 in *.
  destruct (Z.eqb_spec (gearbox_ratio_den cfg) 0); [lia|].
  pose proof (u64_range (u64 (motor_full_steps_per_rev cfg * microsteps cfg) * gearbox_ratio_num cfg)).
  unfold is_u64 in *. split; [apply Z.div_pos; lia|].
  apply Z.div_lt_upper_bound; nia.
Qed.

(** Every default configuration, whatever the identity strings, gives the 8000
    output steps per revolution of the hardware table in the README. *)
Lemma default_steps_per_rev kc ku nvs :
  argus_conversions_steps_per_rev (Some (argus_config_init kc ku nvs)) = 8000.
Proof. reflexivity. Qed.

Lemma default_config_wf kc ku nvs : config_wf (argus_config_init kc ku nvs).
Proof. split; cbn; unfold is_u32, is_i32; lia. Qed.

#[export] Hint Resolve default_config_wf : argus.

(** Flooring twice in opposite directions loses at most one unit. *)
Lemma floor_roundtrip r s :
  0 <= r -> 60 <= s -> r - 1 <= (r * s / 60 * 60) / s <= r.
Proof.
  intros Hr Hs.
  pose proof (Z.div_mod (r * s) 60 ltac:(lia)).
  pose proof (Z.mod_pos_bound (r * s) 60 ltac:(lia)).
  split.
  - apply Z.div_le_lower_bound; nia.
  - apply Z.div_le_upper_bound; nia.
Qed.

(** Converting a milli-RPM value to millihertz and back never gains speed and loses
    at most one milli-RPM; it is exact when the step rate is a whole number of
    millihertz, and the sign of the result is the requested direction.  (At least 60
    steps per revolution and no 64-bit overflow; the hardware has 8000 steps.) *)
Theorem rpm_mhz_roundtrip cfg r (forward : bool) :
  INT32_MIN < r <= INT32_MAX ->
  let spr := argus_conversions_steps_per_rev (Some cfg) in
  60 <= spr -> Z.abs r * spr <= UINT64_MAX ->
  let r' := argus_conversions_mhz_to_rpm
              (argus_conversions_rpm_to_mhz r (Some cfg)) forward (Some cfg) in
  Z.abs r - 1 <= Z.abs r' <= Z.abs r /\
  (Z.abs r * spr mod 60 = 0 -> Z.abs r' = Z.abs r) /\
  (if forward then 0 <= r' else r' <= 0).
Proof.
  intros Hr spr Hspr Hov r'.
  assert (Habs : (if r <? 0 then u64 (i32 (- r)) else u64 r) = Z.abs r).
  { unfold INT32_MIN, INT32_MAX in *.
    destruct (Z.ltb_spec r 0).
    - rewrite i32_small by (unfold is_i32; lia). rewrite u64_small; unfold is_u64; lia.
    - rewrite u64_small; unfold is_u64; lia. }
  assert (Hf : argus_conversions_rpm_to_mhz r (Some cfg) = Z.abs r * spr / 60).
  { unfold argus_conversions_rpm_to_mhz. fold spr.
    destruct (Z.eqb_spec spr 0); [lia|]. rewrite Habs, u64_small; [done|].
    unfold is_u64, UINT64_MAX in *. nia. }
  pose proof (floor_roundtrip (Z.abs r) spr ltac:(lia) Hspr) as Hrt.
  pose proof (Z.div_mod (Z.abs r * spr) 60 ltac:(lia)) as Hdm.
  pose proof (Z.mod_pos_bound (Z.abs r * spr) 60 ltac:(lia)).
  assert (Hr' : r' = let m := Z.abs r * spr / 60 * 60 / spr in if forward then m else - m).
  { unfold r', argus_conversions_mhz_to_rpm. fold spr. rewrite Hf.
    destruct (Z.eqb_spec spr 0); [lia|].
    rewrite (u64_small (_ * 60)) by (unfold is_u64, UINT64_MAX in *; lia).
    destruct (Z.ltb_spec INT32_MAX (Z.abs r * spr / 60 * 60 / spr)); [|done].
    unfold INT32_MAX, INT32_MIN in *; lia. }
  cbn zeta in Hr'. rewrite Hr'. clear r' Hr'.
  assert (0 <= Z.abs r * spr / 60 * 60 / spr) by (apply Z.div_pos; lia).
  split; [destruct forward; lia|]. split; [|destruct forward; lia].
  intros Hex. replace (Z.abs r * spr / 60 * 60) with (Z.abs r * spr) by lia.
  rewrite Z.div_mul by lia. destruct forward; lia.
Qed.

Lemma rpm_mhz_roundtrip_witness :
  argus_conversions_mhz_to_rpm
    (argus_conversions_rpm_to_mhz 1201 (Some (argus_config_init None None None)))
    true (Some (argus_config_init None None None)) = 1200 /\
  1200 <= Z.abs (argus_conversions_mhz_to_rpm
    (argus_conversions_rpm_to_mhz 1201 (Some (argus_config_init None None None)))
    true (Some (argus_config_init None None None))) <= 1201.
Proof.
  split; [vm_compute; reflexivity|].
  apply (rpm_mhz_roundtrip (argus_config_init None None None) 1201 true);
    [unfold INT32_MIN, INT32_MAX; lia | vm_compute; discriminate | vm_compute; discriminate].
Defined.

(** C's division rounds toward zero and keeps the sign of the dividend. *)
Lemma quot_bounds a b :
  0 < b -> Z.abs (Z.quot a b) * b <= Z.abs a < (Z.abs (Z.quot a b) + 1) * b /\
           0 <= Z.quot a b * a.
Proof.
  intros Hb. pose proof (Z.quot_rem a b ltac:(lia)).
  destruct (Z.le_gt_cases 0 a).
  - pose proof (Z.rem_bound_pos a b ltac:(lia) ltac:(lia)).
    pose proof (Z.quot_pos a b ltac:(lia) ltac:(lia)).
    rewrite !Z.abs_eq by lia. split; [lia|]. apply Z.mul_nonneg_nonneg; lia.
  - pose proof (Z.rem_bound_pos_neg a b ltac:(lia) ltac:(lia)).
    assert (0 <= Z.quot (- a) b) as Hq by (apply Z.quot_pos; lia).
    rewrite Z.quot_opp_l in Hq by lia.
    rewrite !Z.abs_neq by lia. split; [lia|].
    rewrite <- Z.mul_opp_opp. apply Z.mul_nonneg_nonneg; lia.
Qed.

(** The flow conversion is the quotient of 1000 * flow by the displacement, rounded
    toward zero with the sign of the flow, and saturates to the 32-bit limits exactly
    when the quotient is beyond them. *)
Theorem flow_to_rpm_exact flow disp :
  is_i32 flow -> 0 < disp <= INT32_MAX ->
  let m := argus_conversions_flow_to_rpm flow disp in
  is_i32 m /\
  (INT32_MIN < m < INT32_MAX ->
     Z.abs m * disp <= Z.abs flow * 1000 < (Z.abs m + 1) * disp /\ 0 <= m * flow) /\
  (m = INT32_MAX -> INT32_MAX * disp <= flow * 1000) /\
  (m = INT32_MIN -> flow * 1000 <= INT32_MIN * disp).
Proof.
  intros Hf Hd m. unfold is_i32, INT32_MAX in Hf, Hd.
  assert (Hi : i64 (flow * 1000) = flow * 1000) by (unfold i64; rewrite Z.mod_small; lia).
  subst m. unfold argus_conversions_flow_to_rpm. rewrite Hi.
  destruct (Z.leb_spec disp 0); [lia|].
  destruct (quot_bounds (flow * 1000) disp ltac:(lia)) as [Hb Hs].
  set (q := Z.quot (flow * 1000) disp) in *.
  clearbody q. clear Hi.
  unfold is_i32, INT32_MAX, INT32_MIN.
  destruct (Z.ltb_spec 2147483647 q); [|destruct (Z.ltb_spec q (-2147483648))];
    repeat split; intros; try lia; try (destruct Hb; nia).
Qed.

Lemma flow_to_rpm_exact_witness :
  argus_conversions_flow_to_rpm (-1000) 3 = -333333 /\
  is_i32 (argus_conversions_flow_to_rpm (-1000) 3).
Proof.
  split; [vm_compute; reflexivity|].
  refine (proj1 (flow_to_rpm_exact (-1000) 3 _ _)); unfold is_i32, INT32_MAX; lia.
Defined.
