(* ===== verification/StepGen.v ===== *)
(** * Step generator

    [src/main/argus_step_gen.c]: the statics of the file as one record, the
    timer alarm interrupt ([argus_timer_alarm_cb]) and every task-context
    operation.  The GPIO writes, delays and alarm programming the code performs
    are recorded, most recent first, in [sg_events]; the answers of the GPTimer,
    GPIO and semaphore calls are arguments of each operation. *)

From S2P Require Import Prelude Conversions.

(** ** State *)

Record argus_timing_settings_t := Timing {
  t_integer : Z;
  t_remainder : Z;
  t_denominator : Z;
  t_direction_forward : bool;
  t_immediate_stop : bool
}.
#[export] Instance eta_timing : Eta argus_timing_settings_t := fun t =>
  Timing (t_integer t) (t_remainder t) (t_denominator t)
    (t_direction_forward t) (t_immediate_stop t).

Definition timing_zero : argus_timing_settings_t := Timing 0 0 0 false false.

Inductive argus_step_gen_error_t :=
| ARGUS_STEP_GEN_ERROR_NONE
| ARGUS_STEP_GEN_ERROR_INIT_FAILED
| ARGUS_STEP_GEN_ERROR_TIMING_UPDATE_FAILED
| ARGUS_STEP_GEN_ERROR_UNVERIFIED_ENABLE.

#[export] Instance step_gen_error_eq_dec : EqDecision argus_step_gen_error_t.
Proof. solve_decision. Defined.

(** What the pins and the timer see. *)
Inductive hw_event :=
| EvStep (level : Z)
| EvDir (level : Z)
| EvEn (level : Z)
| EvDelayMs (ms : Z)
| EvDelayUs (us : Z)
| EvAlarm (count : Z).

Definition GPIO_NUM_NC : Z := -1.

Record sg_state := StepGenState {
  s_timer : bool;               (* s_timer != NULL *)
  s_lifecycle_mutex : bool;     (* s_lifecycle_mutex != NULL *)
  s_requested_rpm_milli : Z;
  s_generated_rpm_milli : Z;
  s_pending_timing : argus_timing_settings_t;
  s_active_timing : argus_timing_settings_t;
  s_rem_accumulator : Z;
  s_next_step_ticks : Z;
  s_step_count : Z;
  s_forward : bool;
  s_running : bool;
  s_driver_enabled : bool;
  s_last_deassertion_ticks : Z;
  s_error_state : argus_step_gen_error_t;
  s_step_gpio : Z;
  s_dir_gpio : Z;
  s_en_gpio : Z;
  s_step_active_level : Z;
  s_step_inactive_level : Z;
  s_dir_forward_level : Z;
  s_dir_reverse_level : Z;
  pin_asserted : bool;          (* the static of argus_timer_alarm_cb *)
  sg_events : list hw_event     (* most recent first *)
}.
#[export] Instance eta_sg_state : Eta sg_state := fun s =>
  StepGenState (s_timer s) (s_lifecycle_mutex s) (s_requested_rpm_milli s)
    (s_generated_rpm_milli s) (s_pending_timing s) (s_active_timing s)
    (s_rem_accumulator s) (s_next_step_ticks s) (s_step_count s) (s_forward s)
    (s_running s) (s_driver_enabled s) (s_last_deassertion_ticks s)
    (s_error_state s) (s_step_gpio s) (s_dir_gpio s) (s_en_gpio s)
    (s_step_active_level s) (s_step_inactive_level s) (s_dir_forward_level s)
    (s_dir_reverse_level s) (pin_asserted s) (sg_events s).

(** The statics before [argus_step_gen_init]. *)
Definition sg_boot : sg_state := {|
  s_timer := false; s_lifecycle_mutex := false;
  s_requested_rpm_milli := 0; s_generated_rpm_milli := 0;
  s_pending_timing := timing_zero; s_active_timing := timing_zero;
  s_rem_accumulator := 0; s_next_step_ticks := 0; s_step_count := 0;
  s_forward := true; s_running := false; s_driver_enabled := false;
  s_last_deassertion_ticks := 0; s_error_state := ARGUS_STEP_GEN_ERROR_NONE;
  s_step_gpio := GPIO_NUM_NC; s_dir_gpio := GPIO_NUM_NC; s_en_gpio := GPIO_NUM_NC;
  s_step_active_level := 0; s_step_inactive_level := 1;
  s_dir_forward_level := 0; s_dir_reverse_level := 1;
  pin_asserted := false; sg_events := [] |}.

Definition emit (ev : hw_event) (s : sg_state) : sg_state := s <| sg_events ::= cons ev |>.
Definition set_step (level : Z) (s : sg_state) : sg_state := emit (EvStep level) s.
Definition step_inactive (s : sg_state) : sg_state := set_step (s_step_inactive_level s) s.
Definition step_active (s : sg_state) : sg_state := set_step (s_step_active_level s) s.
Definition dir_level (forward : bool) (s : sg_state) : Z :=
  if forward then s_dir_forward_level s else s_dir_reverse_level s.
Definition count_step (s : sg_state) : sg_state :=
  s <| s_step_count ::= fun n => if s_forward s then i64 (n + 1) else i64 (n - 1) |>.
Definition set_error (e : argus_step_gen_error_t) (s : sg_state) : sg_state :=
  s <| s_error_state := e |>.

(** Clear the three numbers of the pending timing. *)
Definition pending_zero (s : sg_state) : sg_state :=
  s <| s_pending_timing ::= fun t =>
    t <| t_integer := 0 |> <| t_remainder := 0 |> <| t_denominator := 0 |> |>.

Definition timing_differs (x y : argus_timing_settings_t) : bool :=
  negb (t_integer x =? t_integer y) || negb (t_remainder x =? t_remainder y)
  || negb (t_denominator x =? t_denominator y).

(** ** The alarm interrupt

    [current] is [edata->alarm_value], [raw] the answer of
    [gptimer_get_raw_count] ([None] on error). *)

Definition program_alarm (raw : option Z) (next_alarm : Z) (s : sg_state) : sg_state :=
  let next_alarm :=
    match raw with
    | Some now => if next_alarm <=? u64 (now + 30) then u64 (now + 30) else next_alarm
    | None => next_alarm
    end in
  emit (EvAlarm next_alarm) s.

(** The phase with the static [pin_asserted] set. *)
Definition alarm_deassert (raw : option Z) (current : Z) (s : sg_state) : sg_state :=
  let s := step_inactive s in
  let s := s <| pin_asserted := false |> <| s_last_deassertion_ticks := current |> in
  let pf := t_direction_forward (s_pending_timing s) in
  let s := if Bool.eqb pf (s_forward s) then s
           else let s := s <| s_forward := pf |> in emit (EvDir (dir_level pf s)) s in
  let low_duration :=
    if 150 <? s_next_step_ticks s then u64 (s_next_step_ticks s - 150) else 1 in
  program_alarm raw (u64 (current + low_duration)) s.

(** Rate updates at the start of a step. *)
Definition alarm_accept_timing (s : sg_state) : sg_state :=
  if t_immediate_stop (s_pending_timing s) then
    s <| s_active_timing ::= fun t =>
           t <| t_integer := 0 |> <| t_remainder := 0 |> <| t_denominator := 0 |> |>
      <| s_generated_rpm_milli := 0 |>
      <| s_pending_timing ::= fun t => t <| t_immediate_stop := false |> |>
  else if timing_differs (s_active_timing s) (s_pending_timing s) then
    s <| s_active_timing := s_pending_timing s |>
      <| s_generated_rpm_milli := s_requested_rpm_milli s |>
      <| s_rem_accumulator := 0 |>
  else s.

(** The Bresenham accumulator: the length of this step, and the new accumulator. *)
Definition alarm_schedule (s : sg_state) : sg_state :=
  let acc := u64 (s_rem_accumulator s + t_remainder (s_active_timing s)) in
  let step_ticks := t_integer (s_active_timing s) in
  if t_denominator (s_active_timing s) <=? acc then
    s <| s_rem_accumulator := u64 (acc - t_denominator (s_active_timing s)) |>
      <| s_next_step_ticks := u64 (step_ticks + 1) |>
  else s <| s_rem_accumulator := acc |> <| s_next_step_ticks := step_ticks |>.

(** The phase with the static [pin_asserted] clear. *)
Definition alarm_assert (raw : option Z) (current : Z) (s : sg_state) : sg_state :=
  if negb (s_running s) || negb (s_driver_enabled s) then step_inactive s
  else
    let s := alarm_accept_timing s in
    if t_integer (s_active_timing s) =? 0 then step_inactive s
    else
      let s := step_active s in
      let s := s <| pin_asserted := true |> in
      let s := alarm_schedule s in
      let s := count_step s in
      program_alarm raw (u64 (current + 150)) s.

Definition argus_timer_alarm_cb (raw : option Z) (current : Z) (s : sg_state) : sg_state :=
  if pin_asserted s then alarm_deassert raw current s else alarm_assert raw current s.

(** ** Task-context operations *)

(** Answers of the ESP-IDF calls of [argus_step_gen_init]. *)
Record sg_init_env := {
  ie_mutex_created : bool;
  ie_gpio_config : esp_err_t;
  ie_gpio_config_en : esp_err_t;
  ie_new_timer : esp_err_t;
  ie_set_alarm : esp_err_t;
  ie_register : esp_err_t;
  ie_enable : esp_err_t
}.

(** Answers of the calls of the other operations: the lifecycle mutex,
    [gptimer_start], [gptimer_stop], [gptimer_get_raw_count]. *)
Record sg_env := {
  e_take : bool;
  e_start : esp_err_t;
  e_stop : esp_err_t;
  e_raw : option Z
}.

Definition init_failed (s : sg_state) : esp_err_t * sg_state :=
  (ESP_FAIL, set_error ARGUS_STEP_GEN_ERROR_INIT_FAILED (emit (EvEn 1) (step_inactive s))).

(** The statics [argus_step_gen_init] sets before it touches the pins. *)
Definition init_statics (cfg : argus_config_t) (s : sg_state) : sg_state :=
  s <| s_lifecycle_mutex := true |>
    <| s_step_gpio := step_gpio cfg |> <| s_dir_gpio := dir_gpio cfg |>
    <| s_en_gpio := en_gpio cfg |>
    <| s_step_active_level := if step_active_low cfg then 0 else 1 |>
    <| s_step_inactive_level := if step_active_low cfg then 1 else 0 |>
    <| s_dir_forward_level := if dir_inverted cfg then 0 else 1 |>
    <| s_dir_reverse_level := if dir_inverted cfg then 1 else 0 |>
    <| s_requested_rpm_milli := 0 |> <| s_generated_rpm_milli := 0 |>
    <| s_rem_accumulator := 0 |> <| s_next_step_ticks := 0 |> <| s_step_count := 0 |>
    <| s_forward := true |> <| s_running := false |> <| s_driver_enabled := false |>
    <| s_last_deassertion_ticks := 0 |>
    <| s_error_state := ARGUS_STEP_GEN_ERROR_NONE |>.

Definition argus_step_gen_init (cfg : option argus_config_t) (e : sg_init_env)
    (s : sg_state) : esp_err_t * sg_state :=
  match cfg with
  | None => (ESP_ERR_INVALID_ARG, set_error ARGUS_STEP_GEN_ERROR_INIT_FAILED s)
  | Some cfg =>
      if negb (s_lifecycle_mutex s) && negb (ie_mutex_created e) then
        (ESP_ERR_NO_MEM, set_error ARGUS_STEP_GEN_ERROR_INIT_FAILED s)
      else
        let s := init_statics cfg s in
        if negb (is_ok (ie_gpio_config e)) then
          (ESP_FAIL, set_error ARGUS_STEP_GEN_ERROR_INIT_FAILED s)
        else
          let s := step_inactive s in
          let s := emit (EvDir (s_dir_forward_level s)) s in
          let s := emit (EvEn 1) s in
          if negb (is_ok (ie_gpio_config_en e)) then init_failed s
          else
            let s := s <| s_driver_enabled := false |> in
            if negb (is_ok (ie_new_timer e)) then init_failed s
            else
              let s := s <| s_timer := true |> in
              if negb (is_ok (ie_set_alarm e)) then init_failed s
              else
                let s := emit (EvAlarm 10000) s in
                if negb (is_ok (ie_register e)) then init_failed s
                else if negb (is_ok (ie_enable e)) then init_failed s
                else (ESP_OK, s)
  end.

Definition argus_step_gen_arm (e : sg_env) (s : sg_state) : esp_err_t * sg_state :=
  if negb (s_timer s) then (ESP_ERR_INVALID_STATE, s)
  else if negb (e_take e) then (ESP_ERR_TIMEOUT, s)
  else
    let s := s <| s_requested_rpm_milli := 0 |> <| s_generated_rpm_milli := 0 |>
               <| s_running := false |> in
    let s := s <| s_pending_timing := Timing 0 0 0 (s_forward s) false |> in
    let s := s <| s_active_timing := s_pending_timing s |> in
    if bool_decide (e_start e = ESP_ERR_INVALID_STATE) then (ESP_OK, s)
    else if negb (is_ok (e_start e)) then
      (e_start e, set_error ARGUS_STEP_GEN_ERROR_TIMING_UPDATE_FAILED (step_inactive s))
    else (ESP_OK, s).

(** The first half of [argus_step_gen_enable_driver]: ENA is driven low.  The
    second half is the 20 ms delay, during which the interrupt may run. *)
Definition enable_driver_begin (s : sg_state) : sg_state :=
  (emit (EvEn 0) s) <| s_driver_enabled := true |>.
Definition enable_driver_settle (s : sg_state) : sg_state := emit (EvDelayMs 20) s.

Definition argus_step_gen_enable_driver (e : sg_env) (s : sg_state) : esp_err_t * sg_state :=
  if s_en_gpio s =? GPIO_NUM_NC then (ESP_ERR_INVALID_STATE, s)
  else if negb (e_take e) then (ESP_ERR_TIMEOUT, s)
  else if negb (s_driver_enabled s) then
    (ESP_OK, enable_driver_settle (enable_driver_begin s))
  else (ESP_OK, s).

(** The critical section shared by [stop_immediate] and [disable_driver]. *)
Definition halt_timing (s : sg_state) : sg_state :=
  let s := s <| s_running := false |> <| s_requested_rpm_milli := 0 |>
             <| s_generated_rpm_milli := 0 |> in
  let s := pending_zero s in
  s <| s_pending_timing ::= fun t => t <| t_immediate_stop := true |> |>
    <| s_active_timing := timing_zero |>.

Definition argus_step_gen_disable_driver (e : sg_env) (s : sg_state) : esp_err_t * sg_state :=
  if s_en_gpio s =? GPIO_NUM_NC then (ESP_ERR_INVALID_STATE, s)
  else if negb (e_take e) then (ESP_ERR_TIMEOUT, s)
  else
    let s := halt_timing s in
    let s := step_inactive s in
    let s := emit (EvEn 1) s in
    (ESP_OK, s <| s_driver_enabled := false |>
               <| s_error_state := ARGUS_STEP_GEN_ERROR_NONE |>).

Definition argus_step_gen_is_driver_enabled (s : sg_state) : bool := s_driver_enabled s.

Definition argus_step_gen_set_direction (e : sg_env) (forward : bool) (s : sg_state)
    : esp_err_t * sg_state :=
  if negb (e_take e) then (ESP_ERR_TIMEOUT, s)
  else if s_running s && (0 <? t_integer (s_active_timing s)) then (ESP_ERR_INVALID_STATE, s)
  else
    let s :=
      if s_timer s then
        match e_raw e with
        | Some count =>
            if u64 (count - s_last_deassertion_ticks s) <? 50 then emit (EvDelayUs 5) s else s
        | None => emit (EvDelayUs 5) s
        end
      else s in
    let s := s <| s_pending_timing ::= fun t => t <| t_direction_forward := forward |> |>
               <| s_forward := forward |> in
    let s := emit (EvDir (dir_level forward s)) s in
    (ESP_OK, emit (EvDelayUs 5) s).

(** The kickstart: the first pulse when moving from zero speed while running.
    [count] keeps its initial 0 when the raw count cannot be read. *)
Definition set_rate_kickstart (e : sg_env) (rpm_milli : Z) (s : sg_state)
    : esp_err_t * sg_state :=
  if negb (is_ok (e_start e)) && negb (bool_decide (e_start e = ESP_ERR_INVALID_STATE)) then
    (e_start e, set_error ARGUS_STEP_GEN_ERROR_TIMING_UPDATE_FAILED s)
  else
    let count := default 0 (e_raw e) in
    let s := s <| s_active_timing := s_pending_timing s |>
               <| s_generated_rpm_milli := rpm_milli |>
               <| s_rem_accumulator := 0 |>
               <| s_forward := t_direction_forward (s_pending_timing s) |> in
    let s := emit (EvDir (dir_level (s_forward s) s)) s in
    let s := emit (EvDelayUs 5) s in
    let s := step_active s in
    let s := s <| s_next_step_ticks := t_integer (s_active_timing s) |> in
    let s := count_step s in
    let s := emit (EvAlarm (u64 (count + 150))) s in
    (ESP_OK, set_error ARGUS_STEP_GEN_ERROR_NONE s).

(** [set_rate] from the period formula on, with the driver enabled. *)
Definition set_rate_commit (e : sg_env) (rpm_milli steps_per_rev : Z) (s : sg_state)
    : esp_err_t * sg_state :=
  let num := 600000000000 in
  let den := u64 (rpm_milli * steps_per_rev) in
  let integer := num / den in
  let remainder := num mod den in
  if integer <? 300 then
    (ESP_ERR_INVALID_ARG, set_error ARGUS_STEP_GEN_ERROR_TIMING_UPDATE_FAILED s)
  else
    let s := s <| s_requested_rpm_milli := rpm_milli |>
               <| s_pending_timing ::= fun t =>
                    Timing integer remainder den (t_direction_forward t) false |> in
    if (s_generated_rpm_milli s =? 0) && s_running s then set_rate_kickstart e rpm_milli s
    else (ESP_OK, set_error ARGUS_STEP_GEN_ERROR_NONE s).

Definition argus_step_gen_set_rate_rpm_milli (e : sg_env) (rpm_milli steps_per_rev : Z)
    (s : sg_state) : esp_err_t * sg_state :=
  if negb (s_timer s) then (ESP_ERR_INVALID_STATE, s)
  else if rpm_milli =? 0 then
    (ESP_OK, step_inactive (pending_zero (s <| s_requested_rpm_milli := 0 |>)))
  else if steps_per_rev =? 0 then
    (ESP_ERR_INVALID_ARG, set_error ARGUS_STEP_GEN_ERROR_TIMING_UPDATE_FAILED s)
  else if (rpm_milli <? 1) || (200000 <? rpm_milli) then
    (ESP_ERR_INVALID_ARG, set_error ARGUS_STEP_GEN_ERROR_TIMING_UPDATE_FAILED s)
  else if negb (s_driver_enabled s) then
    let '(err, s) := argus_step_gen_enable_driver e s in
    if negb (is_ok err) then (err, s) else set_rate_commit e rpm_milli steps_per_rev s
  else set_rate_commit e rpm_milli steps_per_rev s.

Definition argus_step_gen_start (e : sg_env) (s : sg_state) : esp_err_t * sg_state :=
  if negb (s_timer s) then (ESP_ERR_INVALID_STATE, s)
  else if negb (e_take e) then (ESP_ERR_TIMEOUT, s)
  else
    let s := s <| s_running := true |> in
    if bool_decide (e_start e = ESP_ERR_INVALID_STATE) then (ESP_OK, s) else (e_start e, s).

(** The error a failing [gptimer_stop] sets is overwritten at the end. *)
Definition argus_step_gen_stop_immediate (e : sg_env) (s : sg_state) : esp_err_t * sg_state :=
  if negb (s_timer s) then (ESP_ERR_INVALID_STATE, s)
  else if negb (e_take e) then (ESP_ERR_TIMEOUT, s)
  else
    let was_running := s_running s in
    let s := halt_timing s in
    let err := if was_running then e_stop e else ESP_OK in
    let s := if negb (is_ok err) && negb (bool_decide (err = ESP_ERR_INVALID_STATE))
             then set_error ARGUS_STEP_GEN_ERROR_TIMING_UPDATE_FAILED s else s in
    let s := step_inactive s in
    let s := match e_raw e with
             | Some count => s <| s_last_deassertion_ticks := count |>
             | None => s
             end in
    (err, set_error ARGUS_STEP_GEN_ERROR_NONE s).

Definition argus_step_gen_stop_profiled (s : sg_state) : esp_err_t * sg_state :=
  (ESP_OK, set_error ARGUS_STEP_GEN_ERROR_NONE
             (pending_zero (s <| s_requested_rpm_milli := 0 |>))).

Definition argus_step_gen_get_requested_rpm_milli (s : sg_state) : Z := s_requested_rpm_milli s.
Definition argus_step_gen_get_generated_rpm_milli (s : sg_state) : Z := s_generated_rpm_milli s.
Definition argus_step_gen_get_step_count (s : sg_state) : Z := s_step_count s.
Definition argus_step_gen_get_error (s : sg_state) : argus_step_gen_error_t := s_error_state s.
Definition argus_step_gen_clear_error (s : sg_state) : sg_state :=
  set_error ARGUS_STEP_GEN_ERROR_NONE s.
Definition argus_step_gen_reset_step_count (s : sg_state) : sg_state := s <| s_step_count := 0 |>.

Record argus_step_gen_snapshot_t := StepGenSnapshot {
  sgs_requested_rpm_milli : Z;
  sgs_generated_rpm_milli : Z;
  sgs_generated_step_count : Z;
  sgs_driver_enabled : bool;
  sgs_is_running : bool;
  sgs_is_forward : bool;
  sgs_error_state : argus_step_gen_error_t
}.

Definition argus_step_gen_get_snapshot (s : sg_state) : argus_step_gen_snapshot_t :=
  StepGenSnapshot (s_requested_rpm_milli s) (s_generated_rpm_milli s) (s_step_count s)
    (s_driver_enabled s) (s_running s) (s_forward s) (s_error_state s).

(** ** The trace the motor driver sees *)

(** ENA was last driven low. *)
Fixpoint en_low (l : list hw_event) : bool :=
  match l with
  | [] => false
  | EvEn v :: _ => v =? 0
  | _ :: l => en_low l
  end.

(** ENA is low and at least 20 ms have passed since it was driven low. *)
Fixpoint settled (l : list hw_event) : bool :=
  match l with
  | [] => false
  | EvEn _ :: _ => false
  | EvDelayMs ms :: l => if 20 <=? ms then en_low l else settled l
  | _ :: l => settled l
  end.

(** The level last written to STEP. *)
Fixpoint step_level (initial : Z) (l : list hw_event) : Z :=
  match l with
  | [] => initial
  | EvStep v :: _ => v
  | _ :: l => step_level initial l
  end.

(** Every assertion of STEP comes with a settled driver. *)
Fixpoint steps_settled (active : Z) (l : list hw_event) : bool :=
  match l with
  | [] => true
  | EvStep v :: l => (negb (v =? active) || settled l) && steps_settled active l
  | _ :: l => steps_settled active l
  end.

Definition timing_ok (t : argus_timing_settings_t) : Prop :=
  t_integer t = 0 \/
  (300 <= t_integer t <= 600000000000 /\ 0 <= t_remainder t < t_denominator t /\
   t_integer t * t_denominator t + t_remainder t = 600000000000).

Ltac sg_unfold :=
  unfold emit, set_step, step_inactive, step_active, set_error, count_step,
    pending_zero, halt_timing, enable_driver_begin, enable_driver_settle, dir_level,
    program_alarm, timing_zero, alarm_schedule.

(** ** Calls and interrupts as sequences of sections

    The operations above are what a call does when nothing comes between its
    statements.  On the machine the alarm interrupt may run between any two of them, on
    the same core or on the other one.  A [task] is a call cut into the sections another
    thread cannot enter: a critical section of [s_timing_mux], or one statement outside.
    The callers are serialised by the trajectory mutex, so there is one call at a time;
    the answers of the drivers are those of the call's environment. *)

Inductive task :=
| Done (err : esp_err_t)
| Sec (f : sg_state -> sg_state) (k : sg_state -> task).

Definition stmt (f : sg_state -> sg_state) (k : task) : task := Sec f (fun _ => k).
Definition ask {A} (g : sg_state -> A) (k : A -> task) : task := Sec id (fun s => k (g s)).
#[local] Notation "f ;; k" := (stmt f k) (at level 100, k at level 200, right associativity).

Fixpoint run_task (t : task) (s : sg_state) : esp_err_t * sg_state :=
  match t with
  | Done err => (err, s)
  | Sec f k => run_task (k s) (f s)
  end.

Definition fail_task (e : argus_step_gen_error_t) (err : esp_err_t) : task :=
  stmt (set_error e) (Done err).

Definition arm_task (e : sg_env) : task :=
  ask s_timer (fun timer =>
  if negb timer then Done ESP_ERR_INVALID_STATE
  else if negb (e_take e) then Done ESP_ERR_TIMEOUT
  else
    (fun s => s <| s_requested_rpm_milli := 0 |>) ;;
    (fun s => s <| s_generated_rpm_milli := 0 |>) ;;
    (fun s => s <| s_running := false |>) ;;
    (fun s => let s := s <| s_pending_timing := Timing 0 0 0 (s_forward s) false |> in
              s <| s_active_timing := s_pending_timing s |>) ;;
    if bool_decide (e_start e = ESP_ERR_INVALID_STATE) then Done ESP_OK
    else if negb (is_ok (e_start e)) then
      step_inactive ;; fail_task ARGUS_STEP_GEN_ERROR_TIMING_UPDATE_FAILED (e_start e)
    else Done ESP_OK).

(** [k] is the caller's continuation. *)
Definition enable_task (e : sg_env) (k : esp_err_t -> task) : task :=
  ask (fun s => s_en_gpio s =? GPIO_NUM_NC) (fun unset =>
  if (unset : bool) then k ESP_ERR_INVALID_STATE
  else if negb (e_take e) then k ESP_ERR_TIMEOUT
  else ask s_driver_enabled (fun enabled =>
    if negb enabled then
      emit (EvEn 0) ;;
      (fun s => s <| s_driver_enabled := true |>) ;;
      emit (EvDelayMs 20) ;;
      k ESP_OK
    else k ESP_OK)).

Definition disable_task (e : sg_env) : task :=
  ask (fun s => s_en_gpio s =? GPIO_NUM_NC) (fun unset =>
  if (unset : bool) then Done ESP_ERR_INVALID_STATE
  else if negb (e_take e) then Done ESP_ERR_TIMEOUT
  else
    halt_timing ;;
    step_inactive ;;
    emit (EvEn 1) ;;
    (fun s => s <| s_driver_enabled := false |>) ;;
    fail_task ARGUS_STEP_GEN_ERROR_NONE ESP_OK).

Definition set_direction_task (e : sg_env) (forward : bool) : task :=
  if negb (e_take e) then Done ESP_ERR_TIMEOUT
  else ask (fun s => (s_running s && (0 <? t_integer (s_active_timing s)),
                      s_last_deassertion_ticks s)) (fun '(active, last_deassertion) =>
  if (active : bool) then Done ESP_ERR_INVALID_STATE
  else
    (fun s => if s_timer s then
        match e_raw e with
        | Some count => if u64 (count - last_deassertion) <? 50 then emit (EvDelayUs 5) s else s
        | None => emit (EvDelayUs 5) s
        end
      else s) ;;
    (fun s =>
       let s := s <| s_pending_timing ::= fun t => t <| t_direction_forward := forward |> |>
                  <| s_forward := forward |> in
       emit (EvDir (dir_level forward s)) s) ;;
    emit (EvDelayUs 5) ;;
    Done ESP_OK).

Definition kickstart_task (e : sg_env) (rpm_milli : Z) : task :=
  if negb (is_ok (e_start e)) && negb (bool_decide (e_start e = ESP_ERR_INVALID_STATE)) then
    fail_task ARGUS_STEP_GEN_ERROR_TIMING_UPDATE_FAILED (e_start e)
  else
    (fun s => s <| s_active_timing := s_pending_timing s |>
                <| s_generated_rpm_milli := rpm_milli |>
                <| s_rem_accumulator := 0 |>
                <| s_forward := t_direction_forward (s_pending_timing s) |>) ;;
    (fun s => emit (EvDir (dir_level (s_forward s) s)) s) ;;
    emit (EvDelayUs 5) ;;
    step_active ;;
    (fun s => s <| s_next_step_ticks := t_integer (s_active_timing s) |>) ;;
    count_step ;;
    emit (EvAlarm (u64 (default 0 (e_raw e) + 150))) ;;
    fail_task ARGUS_STEP_GEN_ERROR_NONE ESP_OK.

Definition commit_task (e : sg_env) (rpm_milli steps_per_rev : Z) : task :=
  let den := u64 (rpm_milli * steps_per_rev) in
  let integer := 600000000000 / den in
  if integer <? 300 then
    fail_task ARGUS_STEP_GEN_ERROR_TIMING_UPDATE_FAILED ESP_ERR_INVALID_ARG
  else
    (fun s => s <| s_requested_rpm_milli := rpm_milli |>
                <| s_pending_timing ::= fun t =>
                     Timing integer (600000000000 mod den) den (t_direction_forward t) false |>) ;;
    ask (fun s => s_generated_rpm_milli s =? 0) (fun standing =>
    if (standing : bool) then
      ask s_running (fun running =>
      if running then kickstart_task e rpm_milli
      else fail_task ARGUS_STEP_GEN_ERROR_NONE ESP_OK)
    else fail_task ARGUS_STEP_GEN_ERROR_NONE ESP_OK).

Definition set_rate_task (e : sg_env) (rpm_milli steps_per_rev : Z) : task :=
  ask s_timer (fun timer =>
  if negb timer then Done ESP_ERR_INVALID_STATE
  else if rpm_milli =? 0 then
    (fun s => pending_zero (s <| s_requested_rpm_milli := 0 |>)) ;; step_inactive ;; Done ESP_OK
  else if steps_per_rev =? 0 then
    fail_task ARGUS_STEP_GEN_ERROR_TIMING_UPDATE_FAILED ESP_ERR_INVALID_ARG
  else if (rpm_milli <? 1) || (200000 <? rpm_milli) then
    fail_task ARGUS_STEP_GEN_ERROR_TIMING_UPDATE_FAILED ESP_ERR_INVALID_ARG
  else ask s_driver_enabled (fun enabled =>
    if negb enabled then
      enable_task e (fun err =>
        if negb (is_ok err) then Done err else commit_task e rpm_milli steps_per_rev)
    else commit_task e rpm_milli steps_per_rev)).

Definition start_task (e : sg_env) : task :=
  ask s_timer (fun timer =>
  if negb timer then Done ESP_ERR_INVALID_STATE
  else if negb (e_take e) then Done ESP_ERR_TIMEOUT
  else
    (fun s => s <| s_running := true |>) ;;
    Done (if bool_decide (e_start e = ESP_ERR_INVALID_STATE) then ESP_OK else e_start e)).

Definition stop_immediate_task (e : sg_env) : task :=
  ask s_timer (fun timer =>
  if negb timer then Done ESP_ERR_INVALID_STATE
  else if negb (e_take e) then Done ESP_ERR_TIMEOUT
  else Sec halt_timing (fun s =>
    let err := if s_running s then e_stop e else ESP_OK in
    (fun s => if negb (is_ok err) && negb (bool_decide (err = ESP_ERR_INVALID_STATE))
              then set_error ARGUS_STEP_GEN_ERROR_TIMING_UPDATE_FAILED s else s) ;;
    step_inactive ;;
    (fun s => match e_raw e with
              | Some count => s <| s_last_deassertion_ticks := count |>
              | None => s
              end) ;;
    fail_task ARGUS_STEP_GEN_ERROR_NONE err)).

Definition stop_profiled_task : task :=
  (fun s => pending_zero (s <| s_requested_rpm_milli := 0 |>)) ;;
  fail_task ARGUS_STEP_GEN_ERROR_NONE ESP_OK.

(** The alarm interrupt, cut the same way; its test of the active rate and the STEP
    write that follows it are one section. *)
Definition deassert_task (raw : option Z) (current : Z) : task :=
  step_inactive ;;
  (fun s => s <| pin_asserted := false |>) ;;
  (fun s => s <| s_last_deassertion_ticks := current |>) ;;
  (fun s => let pf := t_direction_forward (s_pending_timing s) in
            if Bool.eqb pf (s_forward s) then s
            else let s := s <| s_forward := pf |> in emit (EvDir (dir_level pf s)) s) ;;
  (fun s => program_alarm raw (u64 (current +
     if 150 <? s_next_step_ticks s then u64 (s_next_step_ticks s - 150) else 1)) s) ;;
  Done ESP_OK.

Definition assert_task (raw : option Z) (current : Z) : task :=
  ask s_running (fun running =>
  if negb running then step_inactive ;; Done ESP_OK
  else ask s_driver_enabled (fun enabled =>
  if negb enabled then step_inactive ;; Done ESP_OK
  else
    alarm_accept_timing ;;
    Sec (fun s => if t_integer (s_active_timing s) =? 0 then step_inactive s else step_active s)
        (fun s =>
      if t_integer (s_active_timing s) =? 0 then Done ESP_OK
      else
        (fun s => s <| pin_asserted := true |>) ;;
        alarm_schedule ;;
        count_step ;;
        program_alarm raw (u64 (current + 150)) ;;
        Done ESP_OK))).

Definition isr_task (raw : option Z) (current : Z) : task :=
  ask pin_asserted (fun pin =>
    if (pin : bool) then deassert_task raw current else assert_task raw current).

(** *** The task-context calls *)

Inductive sg_op :=
| OpArm (e : sg_env)
| OpEnable (e : sg_env)
| OpDisable (e : sg_env)
| OpSetDirection (e : sg_env) (forward : bool)
| OpSetRate (e : sg_env) (rpm_milli steps_per_rev : Z)
| OpStart (e : sg_env)
| OpStopImmediate (e : sg_env)
| OpStopProfiled
| OpClearError
| OpResetCount.

Definition sg_exec (op : sg_op) (s : sg_state) : esp_err_t * sg_state :=
  match op with
  | OpArm e => argus_step_gen_arm e s
  | OpEnable e => argus_step_gen_enable_driver e s
  | OpDisable e => argus_step_gen_disable_driver e s
  | OpSetDirection e f => argus_step_gen_set_direction e f s
  | OpSetRate e r spr => argus_step_gen_set_rate_rpm_milli e r spr s
  | OpStart e => argus_step_gen_start e s
  | OpStopImmediate e => argus_step_gen_stop_immediate e s
  | OpStopProfiled => argus_step_gen_stop_profiled s
  | OpClearError => (ESP_OK, argus_step_gen_clear_error s)
  | OpResetCount => (ESP_OK, argus_step_gen_reset_step_count s)
  end.

Definition op_task (op : sg_op) : task :=
  match op with
  | OpArm e => arm_task e
  | OpEnable e => enable_task e Done
  | OpDisable e => disable_task e
  | OpSetDirection e f => set_direction_task e f
  | OpSetRate e r spr => set_rate_task e r spr
  | OpStart e => start_task e
  | OpStopImmediate e => stop_immediate_task e
  | OpStopProfiled => stop_profiled_task
  | OpClearError => fail_task ARGUS_STEP_GEN_ERROR_NONE ESP_OK
  | OpResetCount => argus_step_gen_reset_step_count ;; Done ESP_OK
  end.

(** A call nothing interrupts is the operation. *)
Lemma kickstart_solo e rpm s :
  run_task (kickstart_task e rpm) s = set_rate_kickstart e rpm s.
Proof. unfold kickstart_task, set_rate_kickstart. by case_match. Qed.

Lemma commit_solo e rpm spr s :
  run_task (commit_task e rpm spr) s = set_rate_commit e rpm spr s.
Proof.
  unfold commit_task, set_rate_commit. case_match; [done|].
  cbn -[kickstart_task set_rate_kickstart].
  case_match; cbn -[kickstart_task set_rate_kickstart]; [|done].
  case_match; [apply kickstart_solo|done].
Qed.

(** Compute through the sections of a call. *)
Ltac solo_cases := repeat (case_match; simplify_eq/=; try done).

Lemma op_solo op s : run_task (op_task op) s = sg_exec op s.
Proof.
  destruct op; cbn [op_task sg_exec]; try done.
  - cbn. unfold argus_step_gen_arm. solo_cases.
  - cbn. unfold argus_step_gen_enable_driver. solo_cases.
  - cbn. unfold argus_step_gen_disable_driver. solo_cases.
  - unfold set_direction_task, argus_step_gen_set_direction. solo_cases.
  - cbn -[commit_task set_rate_commit].
    unfold argus_step_gen_set_rate_rpm_milli, argus_step_gen_enable_driver.
    repeat (case_match; cbn -[commit_task set_rate_commit] in *; simplify_eq; try done);
      apply commit_solo.
  - cbn. unfold argus_step_gen_start. solo_cases.
  - cbn. unfold argus_step_gen_stop_immediate. solo_cases.
Qed.

Lemma isr_solo raw current s :
  (run_task (isr_task raw current) s).2 = argus_timer_alarm_cb raw current s.
Proof.
  unfold isr_task, argus_timer_alarm_cb. cbn [run_task ask id].
  destruct (pin_asserted s).
  - unfold deassert_task, alarm_deassert. cbn -[program_alarm]. by case_match.
  - unfold assert_task, alarm_assert. cbn [run_task ask stmt id].
    destruct (s_running s); cbn [negb orb run_task stmt ask id snd]; [|done].
    destruct (s_driver_enabled s); cbn [negb orb run_task stmt ask id snd]; [|done].
    by case_match.
Qed.

(** *** Every interleaving *)

(** The call in progress, the interrupt in progress, the statics. *)
Definition sg_conf : Type := task * task * sg_state.

Inductive sg_step : relation sg_conf :=
| step_call op err i s : sg_step (Done err, i, s) (op_task op, i, s)
| step_alarm raw current err t s : sg_step (t, Done err, s) (t, isr_task raw current, s)
| step_task f k i s : sg_step (Sec f k, i, s) (k s, i, f s)
| step_isr f k t s : sg_step (t, Sec f k, s) (t, k s, f s).

(** A rate waits to be taken or is active. *)
Definition hot (s : sg_state) : Prop :=
  t_integer (s_pending_timing s) <> 0 \/ t_integer (s_active_timing s) <> 0.

(** What holds after every section of every thread. *)
Record sg_safe (lvl : Z) (s : sg_state) : Prop := {
  safe_polarity : lvl = 0 \/ lvl = 1;
  safe_act : s_step_active_level s = lvl;
  safe_inact : s_step_inactive_level s = 1 - lvl;
  safe_hot : hot s -> settled (sg_events s) = true;
  safe_steps : steps_settled lvl (sg_events s) = true
}.

(** What a section of the interrupt leaves a call to rely on. *)
Record isr_rely (s s' : sg_state) : Prop := {
  rely_enabled : s_driver_enabled s' = s_driver_enabled s;
  rely_hot : hot s' -> hot s;
  rely_settled : settled (sg_events s') = settled (sg_events s);
  rely_low : en_low (sg_events s') = en_low (sg_events s)
}.

(** What a call knows between two of its sections. *)
Inductive phase := PRest | POn | POff | PLow | PLowOn | PCold.

Definition phase_ok (p : phase) (s : sg_state) : Prop :=
  match p with
  | PRest => (s_driver_enabled s = true -> settled (sg_events s) = true) /\
             (s_driver_enabled s = false -> ~ hot s)
  | POn => s_driver_enabled s = true /\ settled (sg_events s) = true
  | POff => s_driver_enabled s = false /\ ~ hot s
  | PLow => ~ hot s /\ en_low (sg_events s) = true
  | PLowOn => s_driver_enabled s = true /\ ~ hot s /\ en_low (sg_events s) = true
  | PCold => ~ hot s
  end.

Lemma phase_stable p s s' : isr_rely s s' -> phase_ok p s -> phase_ok p s'.
Proof. intros [He Hh Hs Hl]. destruct p; cbn; rewrite ?He, ?Hs, ?Hl; tauto. Qed.

(** A call that keeps [sg_safe] and ends at rest, whatever interrupts come between its
    sections; an interrupt that keeps both. *)
Fixpoint task_ok (lvl : Z) (p : phase) (t : task) : Prop :=
  match t with
  | Done _ => forall s, phase_ok p s -> phase_ok PRest s
  | Sec f k => forall s, sg_safe lvl s -> phase_ok p s ->
      sg_safe lvl (f s) /\ exists p', phase_ok p' (f s) /\ task_ok lvl p' (k s)
  end.

Fixpoint isr_ok (lvl : Z) (t : task) : Prop :=
  match t with
  | Done _ => True
  | Sec f k => forall s, sg_safe lvl s ->
      sg_safe lvl (f s) /\ isr_rely s (f s) /\ isr_ok lvl (k s)
  end.

Create HintDb sg.

(** A section that keeps [sg_safe] and changes nothing a call relies on. *)
Definition quiet_section (f : sg_state -> sg_state) : Prop :=
  forall lvl s, sg_safe lvl s -> sg_safe lvl (f s) /\ isr_rely s (f s).

Lemma quiet_keep f :
  (forall s, s_driver_enabled (f s) = s_driver_enabled s /\
     s_step_active_level (f s) = s_step_active_level s /\
     s_step_inactive_level (f s) = s_step_inactive_level s /\ (hot (f s) -> hot s) /\
     settled (sg_events (f s)) = settled (sg_events s) /\
     en_low (sg_events (f s)) = en_low (sg_events s)) ->
  (forall lvl s, sg_safe lvl s -> steps_settled lvl (sg_events (f s)) = true) ->
  quiet_section f.
Proof.
  intros Hf Hs lvl s H. destruct (Hf s) as (He & Ha & Hi & Hh & Hst & Hl). split; [|by split].
  destruct (id H) as [Hp Ha' Hi' Hh' _]. split; [done|congruence|congruence| |by apply Hs].
  rewrite Hst. auto.
Qed.

(** Updates that write no pin, and alarm programming, DIR writes and short delays. *)
Ltac quiet_update :=
  apply quiet_keep;
  [intros ?; sg_unfold; unfold hot; cbn; repeat case_match; cbn; repeat split; tauto
  |intros ? ? [_ _ _ _ ?]; sg_unfold; cbn; repeat case_match; cbn; assumption].

Lemma quiet_id : quiet_section id.
Proof. quiet_update. Qed.
Lemma quiet_error e : quiet_section (set_error e).
Proof. quiet_update. Qed.
Lemma quiet_halt : quiet_section halt_timing.
Proof. quiet_update. Qed.
Lemma quiet_delay us : quiet_section (emit (EvDelayUs us)).
Proof. quiet_update. Qed.
Lemma quiet_alarm n : quiet_section (emit (EvAlarm n)).
Proof. quiet_update. Qed.
Lemma quiet_program raw n : quiet_section (fun s => program_alarm raw (n s) s).
Proof. quiet_update. Qed.
Lemma quiet_count : quiet_section count_step.
Proof. quiet_update. Qed.
Lemma quiet_schedule : quiet_section alarm_schedule.
Proof. quiet_update. Qed.

Lemma quiet_accept : quiet_section alarm_accept_timing.
Proof.
  apply quiet_keep; [intros s|intros lvl s [_ _ _ _ Hst]]; unfold alarm_accept_timing, hot;
    repeat case_match; cbn; try done; repeat split; tauto.
Qed.

Lemma quiet_step_inactive : quiet_section step_inactive.
Proof.
  apply quiet_keep; [intros s; by repeat split|].
  intros lvl s [Hp _ Hi _ Hst]. cbn. rewrite Hi, Hst.
  by destruct Hp as [->| ->].
Qed.

(** The interrupt asserts STEP only when a rate is active. *)
Lemma quiet_assert :
  quiet_section (fun s => if t_integer (s_active_timing s) =? 0 then step_inactive s else step_active s).
Proof.
  intros lvl s H. destruct (Z.eqb_spec (t_integer (s_active_timing s)) 0) as [_|Hn];
    [by apply quiet_step_inactive|].
  split; [|by split]. destruct H as [Hp Ha Hi Hh Hst].
  assert (Hset : settled (sg_events s) = true) by (apply Hh; by right).
  split; try done. cbn. by rewrite Hset, Hst, orb_true_r.
Qed.

#[local] Hint Resolve quiet_id quiet_error quiet_halt quiet_delay quiet_alarm quiet_program
  quiet_count quiet_schedule quiet_accept quiet_step_inactive quiet_assert : sg.

Lemma isr_quiet lvl f k :
  quiet_section f -> (forall s, isr_ok lvl (k s)) -> isr_ok lvl (Sec f k).
Proof. intros Hf Hk s Hs. destruct (Hf lvl s Hs). auto. Qed.

Lemma task_quiet lvl p f k :
  quiet_section f -> (forall s, task_ok lvl p (k s)) -> task_ok lvl p (Sec f k).
Proof.
  intros Hf Hk s Hs Hp. destruct (Hf lvl s Hs) as [Hs' Hr]. split; [done|].
  exists p. split; [by eapply phase_stable|done].
Qed.

Lemma isr_task_ok lvl raw current : isr_ok lvl (isr_task raw current).
Proof.
  unfold isr_task, ask. apply isr_quiet; [auto with sg|]. intros s0. case_match.
  - unfold deassert_task, stmt. repeat (apply isr_quiet; [auto with sg; quiet_update|intros _]). done.
  - unfold assert_task, ask, stmt.
    apply isr_quiet; [auto with sg|]. intros s1. case_match;
      [apply isr_quiet; auto with sg; done|].
    apply isr_quiet; [auto with sg|]. intros s2. case_match;
      [apply isr_quiet; auto with sg; done|].
    apply isr_quiet; [auto with sg|]. intros s3. apply isr_quiet; [auto with sg|]. intros s4.
    case_match; [done|]. repeat (apply isr_quiet; [auto with sg; quiet_update|intros _]). done.
Qed.

(** A call that learns a fact about the driver, or changes what it knows. *)
Lemma task_phase lvl p p' f k :
  (forall s, sg_safe lvl s -> phase_ok p s -> sg_safe lvl (f s) /\ phase_ok p' (f s)) ->
  (forall s, task_ok lvl p' (k s)) -> task_ok lvl p (Sec f k).
Proof. intros Hf Hk s Hs Hp. destruct (Hf s Hs Hp). eauto. Qed.

Lemma ask_enabled lvl k :
  task_ok lvl POn (k true) -> task_ok lvl POff (k false) -> task_ok lvl PRest (ask s_driver_enabled k).
Proof.
  intros Ht Hf s Hs [H1 H2]. split; [done|]. destruct (s_driver_enabled s) eqn:He.
  - exists POn. cbn. auto.
  - exists POff. cbn. auto.
Qed.

Lemma rest_of_on lvl s : sg_safe lvl s -> phase_ok POn s -> phase_ok PRest s.
Proof. intros _ [He Hs]. split; [done|congruence]. Qed.

(** Weakening at the next section. *)
Lemma task_on_rest lvl t : task_ok lvl PRest t -> task_ok lvl POn t.
Proof.
  destruct t as [err|f k]; cbn [task_ok]; intros H.
  - intros s [He Hs]. split; [done|congruence].
  - intros s Hs Hp. apply H; [done|]. by eapply rest_of_on.
Qed.
Lemma task_off_rest lvl t : task_ok lvl PRest t -> task_ok lvl POff t.
Proof.
  destruct t as [err|f k]; cbn [task_ok]; intros H.
  - intros s [He Hs]. split; [congruence|done].
  - intros s Hs [He Hh]. apply H; [done|]. split; [congruence|done].
Qed.

Lemma done_ok lvl err : task_ok lvl PRest (Done err).
Proof. intros s H. exact H. Qed.
Lemma fail_ok lvl e err : task_ok lvl PRest (fail_task e err).
Proof. apply task_quiet; [auto with sg|]. intros _. apply done_ok. Qed.
#[local] Hint Resolve done_ok fail_ok task_on_rest task_off_rest : sg.

Lemma emit_cold lvl ev s : sg_safe lvl s -> ~ hot s ->
  match ev with EvStep _ => False | _ => True end -> sg_safe lvl (emit ev s).
Proof. intros [Hp Ha Hi Hh Hst] Hc Hev. split; cbn; try done. by destruct ev. Qed.

(** From a disabled driver the continuation runs with the driver settled. *)
Lemma enable_ok lvl e k :
  task_ok lvl POn (k ESP_OK) -> (forall err, err <> ESP_OK -> task_ok lvl PRest (k err)) ->
  task_ok lvl PRest (enable_task e k).
Proof.
  intros Hk He. unfold enable_task. apply task_quiet; [auto with sg|]. intros s0.
  case_match; [by apply He|]. case_match; [by apply He|].
  apply ask_enabled; cbn -[task_ok commit_task enable_task]; [done|].
  unfold stmt. apply (task_phase _ _ PLow).
  { intros s Hs [_ Hc]. split; [by apply emit_cold|]. by split. }
  intros _. apply (task_phase _ _ PLowOn).
  { intros s [Hp Ha Hi Hh Hst] [Hc Hl]. split; [|by split]. by split. }
  intros _. apply (task_phase _ _ POn).
  { intros s Hs (Hon & Hc & Hl). split; [by apply emit_cold|]. by split. }
  by intros _.
Qed.

Lemma disable_ok lvl e : task_ok lvl PRest (disable_task e).
Proof.
  unfold disable_task. apply task_quiet; [auto with sg|]. intros s0.
  case_match; [apply done_ok|]. case_match; [apply done_ok|]. unfold stmt. apply (task_phase _ _ PCold).
  { intros s Hs _. split; [by apply quiet_halt|]. intros [H'|H']; by apply H'. }
  intros _. apply task_quiet; [auto with sg|]. intros _. apply (task_phase _ _ PCold).
  { intros s Hs Hc. split; [by apply emit_cold|done]. }
  intros _. apply (task_phase _ _ POff).
  { intros s [Hp Ha Hi Hh Hst] Hc. split; [|by split]. by split. }
  intros _. auto with sg.
Qed.

Lemma kickstart_ok lvl e rpm : task_ok lvl POn (kickstart_task e rpm).
Proof.
  unfold kickstart_task. case_match; [auto with sg|].
  unfold stmt. do 3 (apply task_quiet; [auto with sg; quiet_update|intros _]).
  apply (task_phase _ _ POn).
  { intros s [Hp Ha Hi Hh Hst] [Hon Hset]. split; [|by split].
    split; try done. cbn. by rewrite Hset, Hst, orb_true_r. }
  intros _. repeat (apply task_quiet; [auto with sg; quiet_update|intros _]).
  apply task_on_rest, done_ok.
Qed.

Lemma commit_ok lvl e rpm spr : task_ok lvl POn (commit_task e rpm spr).
Proof.
  unfold commit_task. cbn zeta. case_match; [auto with sg|].
  unfold stmt, ask. apply (task_phase _ _ POn).
  { intros s [Hp Ha Hi Hh Hst] [Hon Hset]. split; [|by split]. by split. }
  intros _. apply task_quiet; [auto with sg|]. intros s1. case_match; [|auto with sg].
  apply task_quiet; [auto with sg|]. intros s2. case_match; [apply kickstart_ok|auto with sg].
Qed.

Lemma set_rate_ok lvl e rpm spr : task_ok lvl PRest (set_rate_task e rpm spr).
Proof.
  unfold set_rate_task. apply task_quiet; [auto with sg|]. intros s0.
  case_match; [apply done_ok|]. case_match.
  { unfold stmt. apply task_quiet; [quiet_update|]. intros _. apply task_quiet; [auto with sg|]. intros _. apply done_ok. }
  case_match; [auto with sg|]. case_match; [auto with sg|].
  apply ask_enabled; cbn -[task_ok commit_task enable_task]; [apply commit_ok|]. apply task_off_rest, enable_ok.
  - cbn. apply commit_ok.
  - intros err He. apply is_ok_false in He. rewrite He. apply done_ok.
Qed.

Lemma op_ok lvl op : task_ok lvl PRest (op_task op).
Proof.
  destruct op; cbn [op_task].
  - unfold arm_task. apply task_quiet; [auto with sg|]. intros s0. do 2 (case_match; [apply done_ok|]).
    unfold stmt. do 4 (apply task_quiet; [quiet_update|intros _]).
    case_match; [apply done_ok|]. case_match; [|apply done_ok]. apply task_quiet; [auto with sg|]. intros _. apply fail_ok.
  - apply enable_ok; auto with sg.
  - apply disable_ok.
  - unfold set_direction_task. case_match; [apply done_ok|]. apply task_quiet; [auto with sg|]. intros s0.
    case_match; [apply done_ok|]. unfold stmt. repeat (apply task_quiet; [auto with sg; quiet_update|intros _]).
    apply done_ok.
  - apply set_rate_ok.
  - unfold start_task. apply task_quiet; [auto with sg|]. intros s0. do 2 (case_match; [apply done_ok|]).
    unfold stmt. apply task_quiet; [quiet_update|intros _; auto with sg].
  - unfold stop_immediate_task. apply task_quiet; [auto with sg|]. intros s0.
    do 2 (case_match; [apply done_ok|]). unfold stmt. apply task_quiet; [auto with sg|]. intros s1. cbn zeta.
    repeat (apply task_quiet; [auto with sg; quiet_update|intros _]). apply done_ok.
  - unfold stop_profiled_task, stmt. apply task_quiet; [quiet_update|intros _; auto with sg].
  - apply fail_ok.
  - unfold stmt. apply task_quiet; [quiet_update|intros _; auto with sg].
Qed.

Definition conf_ok (lvl : Z) (c : sg_conf) : Prop :=
  let '(t, i, s) := c in
  sg_safe lvl s /\ isr_ok lvl i /\ exists p, phase_ok p s /\ task_ok lvl p t.

Lemma conf_step lvl c c' : conf_ok lvl c -> sg_step c c' -> conf_ok lvl c'.
Proof.
  intros H Hs. destruct Hs as [op err i s|raw current err t s|f k i s|f k t s];
    destruct H as (Hsafe & Hi & p & Hp & Ht).
  - split; [done|]. split; [done|]. exists PRest. split; [by apply Ht|apply op_ok].
  - split; [done|]. split; [apply isr_task_ok|]. eauto.
  - destruct (Ht s Hsafe Hp) as (Hsafe' & p' & Hp' & Ht'). split; [done|]. eauto.
  - destruct (Hi s Hsafe) as (Hsafe' & Hr & Hi'). split; [done|]. split; [done|].
    exists p. split; [by eapply phase_stable|done].
Qed.

Lemma conf_reachable lvl c c' : conf_ok lvl c -> rtc sg_step c c' -> conf_ok lvl c'.
Proof. intros H Hr. induction Hr; eauto using conf_step. Qed.

Lemma conf_init cfg e s err err' :
  argus_step_gen_init (Some cfg) e sg_boot = (ESP_OK, s) ->
  conf_ok (if step_active_low cfg then 0 else 1) (Done err, Done err', s).
Proof.
  unfold argus_step_gen_init, init_failed. intros H. repeat case_match; simplify_eq/=.
  all: split; [|split; [done|exists PRest; split; [split; [done|by intros _ [|]]|done]]].
  all: split; unfold hot; cbn; try done; try (by left); try (by right); try (by intros [|]).
  all: repeat case_match; done.
Qed.


(** A call, or an interrupt, that nothing interrupts is a run of the relation. *)
Lemma task_run t i s : rtc sg_step (t, i, s) (Done (run_task t s).1, i, (run_task t s).2).
Proof.
  revert s. induction t as [err|f k IH]; intros s; [apply rtc_refl|].
  eapply rtc_l; [apply step_task|]. apply IH.
Qed.

Lemma isr_run t i s : rtc sg_step (t, i, s) (t, Done (run_task i s).1, (run_task i s).2).
Proof.
  revert s. induction i as [err|f k IH]; intros s; [apply rtc_refl|].
  eapply rtc_l; [apply step_isr|]. apply IH.
Qed.

(** ** Pulse timing

    [alarms lat n a s] runs [n] interrupts from the alarm at [a], each entered
    [lat i] ticks after its alarm; the result is the alarm programmed last. *)

Definition next_alarm (s : sg_state) : option Z :=
  match sg_events s with EvAlarm n :: _ => Some n | _ => None end.

Fixpoint alarms (lat : nat -> Z) (n : nat) (a : Z) (s : sg_state) : option (Z * sg_state) :=
  match n with
  | O => Some (a, s)
  | S n =>
      '(a', s') ← alarms lat n a s;
      let s'' := argus_timer_alarm_cb (Some (a' + lat n)) a' s' in
      a'' ← next_alarm s'';
      Some (a'', s'')
  end.

(** A constant rate: the pending timing is the active one, the pulse is about to
    be asserted. *)
Record steady (acc : Z) (s : sg_state) : Prop := {
  st_running : s_running s = true;
  st_enabled : s_driver_enabled s = true;
  st_pin : pin_asserted s = false;
  st_acc : s_rem_accumulator s = acc;
  st_same : timing_differs (s_active_timing s) (s_pending_timing s) = false;
  st_stop : t_immediate_stop (s_pending_timing s) = false;
  st_dir : t_direction_forward (s_pending_timing s) = s_forward s;
  st_ok : timing_ok (s_active_timing s);
  st_nz : t_integer (s_active_timing s) <> 0
}.

Definition signed (forward : bool) (n : Z) : Z := if forward then n else - n.

Lemma timing_ok_bounds t : timing_ok t -> t_integer t <> 0 ->
  300 <= t_integer t <= 600000000000 /\ 0 <= t_remainder t < t_denominator t /\
  t_denominator t <= 2000000000 /\
  t_integer t * t_denominator t + t_remainder t = 600000000000.
Proof. intros [|(? & ? & ?)]; [done|]. intros _. repeat split; try lia; nia. Qed.

(** One interrupt of a steady state: the pulse starts. *)
Lemma steady_assert acc s a l :
  steady acc s -> 0 <= acc < t_denominator (s_active_timing s) -> 0 <= l < 120 ->
  0 <= a -> a + 700000000000 < 18446744073709551616 ->
  -9223372036854775807 <= s_step_count s < 9223372036854775807 ->
  let t := s_active_timing s in
  let s1 := argus_timer_alarm_cb (Some (a + l)) a s in
  next_alarm s1 = Some (a + 150) /\ pin_asserted s1 = true /\
  s_next_step_ticks s1 = t_integer t + (acc + t_remainder t) / t_denominator t /\
  s_rem_accumulator s1 = (acc + t_remainder t) mod t_denominator t /\
  s_step_count s1 = s_step_count s + signed (s_forward s) 1 /\
  s_active_timing s1 = t /\ s_pending_timing s1 = s_pending_timing s /\
  s_forward s1 = s_forward s /\ s_running s1 = true /\ s_driver_enabled s1 = true.
Proof.
  intros [Hr He Hp Ha Hsm Hst Hd Hok Hnz] Hacc Hl Ha0 Ha1 Hc t. subst t.
  destruct (timing_ok_bounds _ Hok Hnz) as (Hi & Hrem & Hden & _).
  unfold argus_timer_alarm_cb, alarm_assert, alarm_accept_timing.
  rewrite Hp, Hr, He, Hst, Hsm. cbn [negb orb].
  rewrite (proj2 (Z.eqb_neq _ _) Hnz).
  destruct s as [? ? ? ? pt [ai ar ad af ais] acc0 ? cnt fwd ? ? ? ? ? ? ? ? ? ? ? pin ev].
  cbn in *. clear Hd. subst acc0.
  unfold alarm_schedule, count_step. cbn. rewrite (u64_small (acc + ar)) by (unfold is_u64; lia).
  rewrite (u64_small (a + 150)), (u64_small (a + l + 30)) by (unfold is_u64; lia).
  destruct (Z.leb_spec (a + 150) (a + l + 30)); [lia|].
  assert (Hw : (if fwd then i64 (cnt + 1) else i64 (cnt - 1)) = cnt + signed fwd 1).
  { unfold i64, signed. destruct fwd; rewrite Z.mod_small; lia. }
  assert (Hdm : (acc + ar) / ad = (if ad <=? acc + ar then 1 else 0) /\
                (acc + ar) mod ad = (if ad <=? acc + ar then acc + ar - ad else acc + ar)).
  { destruct (Z.leb_spec ad (acc + ar)).
    - split; symmetry; [apply (Z.div_unique_pos _ _ _ (acc + ar - ad))|
                        apply (Z.mod_unique_pos _ _ 1)]; lia.
    - split; [apply Z.div_small; lia|apply Z.mod_small; lia]. }
  destruct Hdm as [-> ->]. destruct (ad <=? acc + ar) eqn:Hle; b2p; cbn.
  - rewrite !u64_small by (unfold is_u64; lia). by rewrite Hw.
  - rewrite Z.add_0_r. by rewrite Hw.
Qed.

(** The next one: the pulse ends, and the period of the step is complete. *)
Lemma steady_deassert acc s a l :
  pin_asserted s = true -> 300 <= s_next_step_ticks s <= 600000000001 ->
  t_direction_forward (s_pending_timing s) = s_forward s -> 0 <= l < 120 -> 150 <= a ->
  a + 700000000000 < 18446744073709551616 ->
  steady acc (s <| pin_asserted := false |>) ->
  let s1 := argus_timer_alarm_cb (Some (a + l)) a s in
  next_alarm s1 = Some (a - 150 + s_next_step_ticks s) /\ steady acc s1 /\
  s_step_count s1 = s_step_count s /\ s_active_timing s1 = s_active_timing s /\
  s_forward s1 = s_forward s.
Proof.
  intros Hp Ht Hd Hl Ha Ha1 [] s1. subst s1.
  destruct s as [? ? ? ? pt at' acc0 nst cnt fwd ? ? ? ? ? ? ? ? ? ? ? pin ev]. cbn in *.
  unfold argus_timer_alarm_cb, alarm_deassert. cbn. rewrite Hp. cbn. rewrite Hd, eqb_reflx. cbn.
  destruct (Z.ltb_spec 150 nst); [|lia].
  rewrite (u64_small (nst - 150)), (u64_small (a + (nst - 150))), (u64_small (a + l + 30))
    by (unfold is_u64; lia).
  destruct (Z.leb_spec (a + (nst - 150)) (a + l + 30)); [lia|].
  split; [f_equal; lia|]. split; [|done]. by split.
Qed.

(** Bresenham: the floors of the multiples of a rational advance by the carries
    of the accumulated remainder. *)
Lemma bresenham_carry num int rem den n :
  0 < den -> 0 <= rem < den -> num = int * den + rem -> 0 <= n ->
  (n + 1) * num / den = n * num / den + (int + (n * rem mod den + rem) / den) /\
  ((n * rem mod den + rem) mod den = (n + 1) * rem mod den).
Proof.
  intros Hd Hr -> Hn.
  assert (Hq : forall k, k * (int * den + rem) / den = k * int + k * rem / den).
  { intros k. replace (k * (int * den + rem)) with (k * rem + k * int * den) by lia.
    rewrite Z.div_add by lia. lia. }
  rewrite !Hq.
  replace ((n + 1) * rem) with (n * rem mod den + rem + (n * rem / den) * den)
    by (pose proof (Z.div_mod (n * rem) den ltac:(lia)); lia).
  rewrite Z.div_add, Z_mod_plus_full by lia. split; [lia|done].
Qed.

(** Two interrupts: one period of the pulse train. *)
Lemma steady_period acc s a l l' :
  steady acc s -> 0 <= acc < t_denominator (s_active_timing s) ->
  0 <= l < 120 -> 0 <= l' < 120 -> 0 <= a -> a + 800000000000 < 18446744073709551616 ->
  -9223372036854775807 <= s_step_count s < 9223372036854775807 ->
  let t := s_active_timing s in
  let s1 := argus_timer_alarm_cb (Some (a + l)) a s in
  let s2 := argus_timer_alarm_cb (Some (a + 150 + l')) (a + 150) s1 in
  next_alarm s1 = Some (a + 150) /\
  next_alarm s2 = Some (a + (t_integer t + (acc + t_remainder t) / t_denominator t)) /\
  steady ((acc + t_remainder t) mod t_denominator t) s2 /\
  s_active_timing s2 = t /\ s_forward s2 = s_forward s /\
  s_step_count s2 = s_step_count s + signed (s_forward s) 1.
Proof.
  intros Hst Hacc Hl Hl' Ha Ha1 Hc t s1.
  destruct (timing_ok_bounds _ (st_ok _ _ Hst) (st_nz _ _ Hst)) as (Hi & Hrem & Hden & Hnum).
  fold t in Hi, Hrem, Hden, Hnum, Hacc.
  destruct (steady_assert acc s a l Hst) as (Hn1 & Hp1 & Hk1 & Hacc1 & Hc1 & Hat1 & Hpt1 & Hf1 & Hr1 & He1);
    try done; try lia. fold t s1 in Hn1, Hp1, Hk1, Hacc1, Hc1, Hat1, Hpt1, Hf1, Hr1, He1.
  assert (Hcar : 0 <= (acc + t_remainder t) / t_denominator t <= 1).
  { split; [apply Z.div_pos; lia|]. apply Z.lt_succ_r, Z.div_lt_upper_bound; lia. }
  destruct (steady_deassert ((acc + t_remainder t) mod t_denominator t) s1 (a + 150) l')
    as (Hn2 & Hst2 & Hc2 & Hat2 & Hf2); try done; try lia.
  - rewrite Hpt1, Hf1. apply (st_dir _ _ Hst).
  - destruct Hst. split; cbn; rewrite ?Hat1, ?Hpt1, ?Hf1; done.
  - intros s2. fold s2 in Hn2, Hst2, Hc2, Hat2, Hf2. rewrite Hn2, Hk1, Hat2, Hat1, Hf2, Hf1, Hc2, Hc1.
    split; [done|]. split; [f_equal; lia|]. done.
Qed.

Lemma alarms_period lat n a s :
  (forall i, 0 <= lat i < 120) -> steady 0 s -> 0 <= a ->
  a + Z.of_nat n * 600000000000 + 800000000000 < 18446744073709551616 ->
  Z.abs (s_step_count s) + Z.of_nat n < 9223372036854775807 ->
  let t := s_active_timing s in
  exists s', alarms lat (2 * n) a s =
               Some (a + Z.of_nat n * 600000000000 / t_denominator t, s') /\
    steady (Z.of_nat n * t_remainder t mod t_denominator t) s' /\
    s_active_timing s' = t /\ s_forward s' = s_forward s /\
    s_step_count s' = s_step_count s + signed (s_forward s) (Z.of_nat n).
Proof.
  intros Hlat Hs Ha Hmax Hcnt t.
  destruct (timing_ok_bounds _ (st_ok _ _ Hs) (st_nz _ _ Hs)) as (Hi & Hrem & Hden & Hnum).
  fold t in Hi, Hrem, Hden, Hnum.
  induction n as [|n IH].
  { exists s. rewrite !Z.mul_0_l, Z.mod_0_l, Z.div_0_l, Z.add_0_r by lia.
    repeat split; try apply Hs. unfold signed. destruct (s_forward s); lia. }
  destruct IH as (s' & Hal & Hst & Hat & Hf & Hc); [lia|lia|].
  replace (2 * S n)%nat with (S (S (2 * n))) by lia.
  assert (Hfl : 0 <= Z.of_nat n * 600000000000 / t_denominator t <= Z.of_nat n * 600000000000).
  { split; [apply Z.div_pos; lia|]. apply Z.div_le_upper_bound; nia. }
  set (f := Z.of_nat n * 600000000000 / t_denominator t) in *.
  pose proof (Z.mod_pos_bound (Z.of_nat n * t_remainder t) (t_denominator t) ltac:(lia)) as Hm.
  destruct (steady_period _ s' (a + f) (lat (2 * n)%nat) (lat (S (2 * n))) Hst)
    as (Hn1 & Hn2 & Hst2 & Hat2 & Hf2 & Hc2); rewrite ?Hat; try done; try lia.
  { rewrite Hc. unfold signed. destruct (s_forward s); lia. }
  rewrite Hat in Hn2, Hst2, Hat2.
  destruct (bresenham_carry 600000000000 (t_integer t) (t_remainder t) (t_denominator t)
              (Z.of_nat n)) as [Hb1 Hb2]; try lia.
  cbn [alarms]. rewrite Hal. cbn [mbind option_bind]. rewrite Hn1. cbn [mbind option_bind].
  rewrite Hn2. cbn [mbind option_bind].
  replace (Z.of_nat (S n)) with (Z.of_nat n + 1) by lia.
  eexists; split; [f_equal; f_equal; rewrite Hb1; fold f; lia|].
  rewrite <- Hb2, Hf2, Hc2, Hc, Hf. repeat split; try apply Hst2; try done.
  unfold signed. destruct (s_forward s); lia.
Qed.

(** At a constant rate the pulse train has no cumulative drift: whatever the interrupt
    latency below 12 us, the n-th pulse starts exactly floor(n * 6e11 / (rpm * steps))
    ticks after the first, is 150 ticks (15 us) wide, and the signed step count has
    moved by n. *)
Theorem pulse_train_exact lat n a s :
  (forall i, 0 <= lat i < 120) -> steady 0 s -> 0 <= a ->
  a + Z.of_nat n * 600000000000 + 800000000000 < 18446744073709551616 ->
  Z.abs (s_step_count s) + Z.of_nat n < 9223372036854775807 ->
  let start := a + Z.of_nat n * 600000000000 / t_denominator (s_active_timing s) in
  exists s' s'',
    alarms lat (2 * n) a s = Some (start, s') /\
    s_step_count s' = s_step_count s + signed (s_forward s) (Z.of_nat n) /\
    alarms lat (2 * n + 1) a s = Some (start + 150, s'') /\
    step_level (s_step_inactive_level s'') (sg_events s'') = s_step_active_level s''.
Proof.
  intros Hlat Hs Ha Hmax Hcnt start.
  destruct (alarms_period lat n a s Hlat Hs Ha Hmax Hcnt) as (s' & Hal & Hst & Hat & Hf & Hc).
  destruct (timing_ok_bounds _ (st_ok _ _ Hs) (st_nz _ _ Hs)) as (Hi & Hrem & Hden & Hnum).
  assert (Hfl : a <= start <= a + Z.of_nat n * 600000000000).
  { unfold start. pose proof (Z.div_pos (Z.of_nat n * 600000000000) (t_denominator (s_active_timing s))).
    pose proof (Z.div_le_upper_bound (Z.of_nat n * 600000000000) (t_denominator (s_active_timing s))
      (Z.of_nat n * 600000000000)). nia. }
  destruct (steady_assert _ s' start (lat (2 * n)%nat) Hst) as (Hn1 & _);
    rewrite ?Hat; try done; try lia.
  { apply Z.mod_pos_bound. lia. }
  { rewrite Hc. unfold signed. destruct (s_forward s); lia. }
  exists s', (argus_timer_alarm_cb (Some (start + lat (2 * n)%nat)) start s').
  split; [done|]. split; [done|].
  replace (2 * n + 1)%nat with (S (2 * n)) by lia.
  cbn [alarms]. rewrite Hal. cbn [mbind option_bind]. fold start. rewrite Hn1. split; [done|].
  destruct Hst. unfold argus_timer_alarm_cb, alarm_assert, alarm_accept_timing, alarm_schedule.
  rewrite st_pin0, st_running0, st_enabled0, st_stop0, st_same0. cbn.
  rewrite (proj2 (Z.eqb_neq _ _) st_nz0). by case_match.
Qed.

Lemma pulse_train_exact_witness :
  let t := Timing 1071 240000000 560000000 true false in
  let s := sg_boot <| s_running := true |> <| s_driver_enabled := true |>
             <| s_active_timing := t |> <| s_pending_timing := t |> in
  exists s' s'',
    alarms (fun _ => 17) 14 5000 s = Some (12500, s') /\
    alarms (fun _ => 17) 15 5000 s = Some (12650, s'') /\ s_step_count s' = 7.
Proof.
  intros t s.
  destruct (pulse_train_exact (fun _ => 17) 7 5000 s) as (s' & s'' & H1 & H2 & H3 & _).
  - lia.
  - split; try reflexivity; cbn; [right; cbn; lia | lia].
  - lia.
  - lia.
  - cbn. lia.
  - exists s', s''. split; [exact H1|]. split; [exact H3|]. exact H2.
Defined.

(** ** The first pulse after a standstill

    Inactive-to-active transitions of STEP in a trace. *)
Fixpoint step_edges (act : Z) (l : list hw_event) : Z :=
  match l with
  | [] => 0
  | EvStep v :: l =>
      (if (v =? act) && negb (step_level (1 - act) l =? act) then 1 else 0) + step_edges act l
  | _ :: l => step_edges act l
  end.

(** The kickstart of [set_rate] asserts STEP and counts a step without setting the
    static [pin_asserted] of the interrupt, so the alarm it programs asserts STEP again
    and counts a second step: one inactive-to-active edge moves the step count by two. *)
Theorem kickstart_counts_twice e rpm spr s c raw :
  s_timer s = true -> s_driver_enabled s = true -> s_running s = true ->
  s_generated_rpm_milli s = 0 -> pin_asserted s = false -> 
  1 <= rpm <= 200000 -> 0 < spr -> rpm * spr <= 2000000000 ->
  e_start e = ESP_OK -> e_raw e = Some c -> 0 <= c < 18446744073709551000 ->
  s_step_active_level s = 0 -> step_level 1 (sg_events s) = 1 ->
  Z.abs (s_step_count s) < 9223372036854775800 ->
  let s1 := (argus_step_gen_set_rate_rpm_milli e rpm spr s).2 in
  let s2 := argus_timer_alarm_cb raw (c + 150) s1 in
  (argus_step_gen_set_rate_rpm_milli e rpm spr s).1 = ESP_OK /\
  next_alarm s1 = Some (c + 150) /\
  s_step_count s2 = s_step_count s + signed (t_direction_forward (s_pending_timing s)) 2 /\
  step_edges 0 (sg_events s2) = step_edges 0 (sg_events s) + 1.
Proof.
  intros Ht Hd Hr Hg Hp Hrpm Hspr Hprod Hes Her Hc Hact Hlev Hcnt.
  assert (Hden : u64 (rpm * spr) = rpm * spr) by (apply u64_small; unfold is_u64; nia).
  assert (Hint : 300 <= 600000000000 / (rpm * spr)) by (apply Z.div_le_lower_bound; nia).
  assert (Hcb : forall raw s, s_running s = true -> s_driver_enabled s = true ->
    pin_asserted s = false -> t_immediate_stop (s_pending_timing s) = false ->
    s_active_timing s = s_pending_timing s -> t_integer (s_active_timing s) <> 0 ->
    argus_timer_alarm_cb raw (c + 150) s =
    program_alarm raw (u64 (c + 150 + 150))
      (count_step (alarm_schedule ((step_active s) <| pin_asserted := true |>)))).
  { clear. intros raw s Hr Hd Hp Hi Ha Hz. unfold argus_timer_alarm_cb, alarm_assert, alarm_accept_timing.
    rewrite Hp, Hr, Hd, Hi. cbn [negb orb]. unfold timing_differs. rewrite Ha in Hz |- *. rewrite !Z.eqb_refl.
    cbn [negb orb]. rewrite ?Ha. by rewrite (proj2 (Z.eqb_neq _ _) Hz). }
  unfold argus_step_gen_set_rate_rpm_milli. rewrite Ht, Hd. cbn [negb].
  destruct (Z.eqb_spec rpm 0); [lia|]. destruct (Z.eqb_spec spr 0); [lia|].
  destruct (Z.ltb_spec rpm 1); [lia|]. destruct (Z.ltb_spec 200000 rpm); [lia|]. cbn [orb].
  unfold set_rate_commit, set_rate_kickstart. rewrite Hden. cbn zeta.
  destruct (Z.ltb_spec (600000000000 / (rpm * spr)) 300); [lia|].
  cbn. rewrite Hg, Hr, Hes, Her. cbn.
  split; [done|]. split; [by rewrite u64_small by (unfold is_u64; lia)|].
  rewrite Hcb by (cbn; try done; lia).
  unfold alarm_schedule. set (acc := _ <=? _). 
  destruct s as [? ? ? ? pt at' acc0 nst cnt fwd ? ? ? ? ? ? ? ? ? ? ? pin ev].
  cbn in *. subst. split.
  - assert (Hi64 : forall z, Z.abs z < 9223372036854775807 -> i64 z = z)
      by (intros z Hz; unfold i64; rewrite Z.mod_small; lia).
    destruct acc; cbn; unfold signed; destruct (t_direction_forward pt);
      rewrite !Hi64; rewrite ?Hi64; lia.
  - destruct acc; cbn; change (1 - 0) with 1; rewrite Hlev; cbn; lia.
Qed.

Lemma kickstart_counts_twice_witness :
  let e := {| e_take := true; e_start := ESP_OK; e_stop := ESP_OK; e_raw := Some 1000 |} in
  let s := sg_boot <| s_timer := true |> <| s_running := true |> <| s_driver_enabled := true |>
             <| s_pending_timing := Timing 0 0 0 true false |> in
  s_step_count (argus_timer_alarm_cb None 1150
    (argus_step_gen_set_rate_rpm_milli e 5000 8000 s).2) = 2 /\
  step_edges 0 (sg_events (argus_timer_alarm_cb None 1150
    (argus_step_gen_set_rate_rpm_milli e 5000 8000 s).2)) = 1.
Proof.
  intros e s.
  destruct (kickstart_counts_twice e 5000 8000 s 1000 None) as (_ & _ & H1 & H2);
    try reflexivity; try lia.
  split; [exact H1 | exact H2].
Defined.

(** ** Stopping *)

(** Interrupts that still arrive, with their raw counts. *)
Definition late_alarms (l : list (option Z * Z)) (s : sg_state) : sg_state :=
  foldl (fun s '(raw, current) => argus_timer_alarm_cb raw current s) s l.

Lemma halted_alarm act raw current s :
  s_step_active_level s = act -> s_step_inactive_level s = 1 - act -> act = 0 \/ act = 1 ->
  s_running s = false -> step_level (1 - act) (sg_events s) = 1 - act ->
  let s' := argus_timer_alarm_cb raw current s in
  s_step_active_level s' = act /\ s_step_inactive_level s' = 1 - act /\
  s_running s' = false /\ step_level (1 - act) (sg_events s') = 1 - act /\
  step_edges act (sg_events s') = step_edges act (sg_events s) /\
  s_step_count s' = s_step_count s.
Proof.
  intros Ha Hi Hp Hr Hl.
  assert (Hne : (1 - act =? act) = false) by (apply Z.eqb_neq; lia).
  unfold argus_timer_alarm_cb, alarm_deassert, alarm_assert. rewrite Hr. cbn [negb orb].
  case_match; sg_unfold; cbn; repeat case_match; cbn; rewrite ?Hi, ?Hne; cbn; repeat split; auto; rewrite ?Hi, ?Hne; try done.
  b2p. lia.
Qed.

Lemma halted_alarms act l s :
  s_step_active_level s = act -> s_step_inactive_level s = 1 - act -> act = 0 \/ act = 1 ->
  s_running s = false -> step_level (1 - act) (sg_events s) = 1 - act ->
  let s' := late_alarms l s in
  step_level (1 - act) (sg_events s') = 1 - act /\
  step_edges act (sg_events s') = step_edges act (sg_events s) /\
  s_step_count s' = s_step_count s.
Proof.
  revert s. induction l as [|[raw cur] l IH]; intros s Ha Hi Hp Hr Hl; [done|].
  cbn [late_alarms foldl]. destruct (halted_alarm act raw cur s) as (? & ? & ? & ? & He & Hc); try done.
  rewrite <- He, <- Hc. by apply IH.
Qed.

(** C5: after [stop_immediate] or [disable_driver] no number of late interrupts produces
    another STEP edge or counts a step, and STEP stays inactive; [stop_immediate] leaves
    ENA as it was (holding torque), [disable_driver] drives ENA high. *)
Theorem stop_silences_step act e s l :
  s_step_active_level s = act -> s_step_inactive_level s = 1 - act -> act = 0 \/ act = 1 ->
  s_timer s = true -> s_en_gpio s <> GPIO_NUM_NC -> e_take e = true ->
  let stopped := (argus_step_gen_stop_immediate e s).2 in
  let disabled := (argus_step_gen_disable_driver e s).2 in
  (forall s1, s1 = stopped \/ s1 = disabled ->
     step_level (1 - act) (sg_events (late_alarms l s1)) = 1 - act /\
     step_edges act (sg_events (late_alarms l s1)) = step_edges act (sg_events s) /\
     s_step_count (late_alarms l s1) = s_step_count s) /\
  en_low (sg_events stopped) = en_low (sg_events s) /\
  s_driver_enabled stopped = s_driver_enabled s /\
  en_low (sg_events disabled) = false /\ s_driver_enabled disabled = false.
Proof.
  intros Ha Hi Hp Ht Hg He.
  assert (Hne : (1 - act =? act) = false) by (apply Z.eqb_neq; lia).
  unfold argus_step_gen_stop_immediate, argus_step_gen_disable_driver.
  rewrite Ht, He, (proj2 (Z.eqb_neq _ _) Hg). cbn [negb snd]. cbn zeta. split.
  - intros s1 Hs1.
    assert (Hf : s_step_active_level s1 = act /\ s_step_inactive_level s1 = 1 - act /\
      s_running s1 = false /\ step_level (1 - act) (sg_events s1) = 1 - act /\
      step_edges act (sg_events s1) = step_edges act (sg_events s) /\
      s_step_count s1 = s_step_count s).
    { destruct Hs1 as [->| ->]; sg_unfold; destruct (e_raw e); cbn; rewrite ?Hi;
        cbn; repeat case_match; b2p; cbn; rewrite ?Hi, ?Hne; cbn; repeat split; done || lia. }
    destruct Hf as (? & ? & ? & ? & <- & <-). by apply halted_alarms.
  - sg_unfold. cbn. destruct (e_raw e); repeat case_match; cbn; done.
Qed.

Lemma stop_silences_step_witness :
  let e := {| e_take := true; e_start := ESP_OK; e_stop := ESP_OK; e_raw := Some 1000 |} in
  let s := sg_boot <| s_timer := true |> <| s_en_gpio := 5 |> <| s_running := true |>
             <| s_driver_enabled := true |> <| pin_asserted := true |>
             <| sg_events := [EvStep 0; EvDelayMs 20; EvEn 0] |> in
  let s1 := (argus_step_gen_stop_immediate e s).2 in
  step_level 1 (sg_events (late_alarms [(None, 1010); (Some 1200, 1160)] s1)) = 1 /\
  s_driver_enabled s1 = true.
Proof.
  intros e s s1.
  destruct (stop_silences_step 0 e s [(None, 1010); (Some 1200, 1160)]) as (H & _ & H2 & _);
    try reflexivity; [by left|discriminate|].
  split; [|exact H2]. exact (proj1 (H s1 (or_introl eq_refl))).
Defined.

