(* ===== verification/Trajectory.v ===== *)
(** * Trajectory engine

    [src/main/argus_trajectory.c]: the ramp generator that runs every 20 ms, and
    the commands that steer it.  It is written against the interface
    [StepGenerator], which names the operations of the step generator it calls
    and what they promise; the step generator of [StepGen] is an instance. *)

From S2P Require Import Prelude Conversions StepGen.

(** ** The interface to the step generator

    [G] is the generator's state, [E] the answers of the hardware to one call.
    [gen_ok] is the generator's own invariant, [gen_forward] its direction, and
    [env_ok] says that the hardware answers let a call through. *)
Class StepGenerator (G E : Type) := {
  gen_stop_immediate : E -> G -> esp_err_t * G;
  gen_set_direction : E -> bool -> G -> esp_err_t * G;
  gen_is_driver_enabled : G -> bool;
  gen_enable_driver : E -> G -> esp_err_t * G;
  gen_disable_driver : E -> G -> esp_err_t * G;
  gen_start : E -> G -> esp_err_t * G;
  gen_set_rate : E -> Z -> Z -> G -> esp_err_t * G;
  gen_get_generated : G -> Z;
  gen_stop_profiled : G -> esp_err_t * G;
  gen_clear_error : G -> G;
  gen_error : G -> argus_step_gen_error_t;

  gen_ok : G -> Prop;
  gen_forward : G -> bool;
  env_ok : E -> Prop;

  gen_stop_ok e g : gen_ok g -> gen_ok (gen_stop_immediate e g).2;
  gen_direction_ok e f g : gen_ok g -> gen_ok (gen_set_direction e f g).2;
  gen_enable_ok e g : gen_ok g -> gen_ok (gen_enable_driver e g).2;
  gen_disable_ok e g : gen_ok g -> gen_ok (gen_disable_driver e g).2;
  gen_start_ok e g : gen_ok g -> gen_ok (gen_start e g).2;
  gen_rate_ok e r spr g : gen_ok g -> gen_ok (gen_set_rate e r spr g).2;
  gen_profiled_ok g : gen_ok g -> gen_ok (gen_stop_profiled g).2;
  gen_clear_ok g : gen_ok g -> gen_ok (gen_clear_error g);

  gen_stop_forward e g : gen_ok g -> gen_forward (gen_stop_immediate e g).2 = gen_forward g;
  gen_enable_forward e g : gen_ok g -> gen_forward (gen_enable_driver e g).2 = gen_forward g;
  gen_disable_forward e g : gen_ok g -> gen_forward (gen_disable_driver e g).2 = gen_forward g;
  gen_start_forward e g : gen_ok g -> gen_forward (gen_start e g).2 = gen_forward g;
  gen_rate_forward e r spr g : gen_ok g -> gen_forward (gen_set_rate e r spr g).2 = gen_forward g;
  gen_profiled_forward g : gen_ok g -> gen_forward (gen_stop_profiled g).2 = gen_forward g;
  gen_clear_forward g : gen_ok g -> gen_forward (gen_clear_error g) = gen_forward g;

  (** A direction change right after an immediate stop is accepted. *)
  gen_stop_direction e e' f g :
    gen_ok g -> env_ok e -> env_ok e' ->
    gen_forward (gen_set_direction e' f (gen_stop_immediate e g).2).2 = f
}.

(** ** State *)

Record traj_state := TrajState {
  tr_cfg : option argus_config_t;
  s_target_rpm_milli : Z;
  s_applied_rpm_milli : Z;
  s_target_forward : bool;
  s_current_forward : bool;
  s_ramp_active : bool;
  s_is_reversing : bool;
  s_latched_error : Z;
  s_accel_limit : Z;
  s_decel_limit : Z;
  s_update_interval_ms : Z
}.
#[export] Instance eta_traj_state : Eta traj_state := fun t =>
  TrajState (tr_cfg t) (s_target_rpm_milli t) (s_applied_rpm_milli t) (s_target_forward t)
    (s_current_forward t) (s_ramp_active t) (s_is_reversing t) (s_latched_error t)
    (s_accel_limit t) (s_decel_limit t) (s_update_interval_ms t).

Definition traj_boot : traj_state := TrajState None 0 0 true true false false 0 10000 10000 20.

(** [mutex_created] is the answer of [xSemaphoreCreateMutex] (or [true] when the
    mutex exists already). *)
Definition argus_trajectory_init (cfg : option argus_config_t) (mutex_created : bool)
    (t : traj_state) : esp_err_t * traj_state :=
  match cfg with
  | None => (ESP_ERR_INVALID_ARG, t)
  | Some c =>
      let t := t <| tr_cfg := Some c |> <| s_accel_limit := accel_milli_rpm_per_sec c |>
                 <| s_decel_limit := decel_milli_rpm_per_sec c |>
                 <| s_update_interval_ms := 20 |> in
      if negb mutex_created then (ESP_ERR_NO_MEM, t)
      else (ESP_OK, t <| s_target_rpm_milli := 0 |> <| s_applied_rpm_milli := 0 |>
                      <| s_target_forward := true |> <| s_current_forward := true |>
                      <| s_ramp_active := false |> <| s_is_reversing := false |>)
  end.

(** The change of speed of one 20 ms update. *)
Definition ramp_delta (limit : Z) (interval_ms : Z) : Z :=
  let d := Z.quot (i32 (limit * interval_ms)) 1000 in if d <? 1 then 1 else d.

Definition argus_trajectory_get_target_rpm_milli (t : traj_state) : Z := s_target_rpm_milli t.
Definition argus_trajectory_get_applied_rpm_milli (t : traj_state) : Z := s_applied_rpm_milli t.
Definition argus_trajectory_is_ramp_active (t : traj_state) : bool := s_ramp_active t.
Definition argus_trajectory_is_reversing (t : traj_state) : bool :=
  s_is_reversing t ||
  (negb (Bool.eqb (s_target_forward t) (s_current_forward t)) && (0 <? s_applied_rpm_milli t)).

Section Operations.
Context {G E : Type} `{!StepGenerator G E}.

(** The hardware answers of one tick, by the call that gets them. *)
Record tick_env := {
  te_stop : E; te_direction : E; te_enable : E; te_start : E; te_rate : E
}.

(** Complete a direction switch at standstill. *)
Definition switch_direction (e : tick_env) (fwd : bool) (t : traj_state) (g : G)
    : traj_state * G :=
  let g := (gen_stop_immediate (te_stop e) g).2 in
  let g := (gen_set_direction (te_direction e) fwd g).2 in
  (t <| s_current_forward := fwd |> <| s_is_reversing := false |>, g).

(** Step 1 and 2 of the tick: the new applied speed, which the code keeps in a
  local until it stores it. *)
Definition tick_ramp (e : tick_env) (t : traj_state) (g : G) : Z * traj_state * G :=
  let target := s_target_rpm_milli t in
  let applied := s_applied_rpm_milli t in
  let target_fwd := s_target_forward t in
  let delta_accel := ramp_delta (s_accel_limit t) (s_update_interval_ms t) in
  let delta_decel := ramp_delta (s_decel_limit t) (s_update_interval_ms t) in
  if negb (Bool.eqb target_fwd (s_current_forward t)) || s_is_reversing t then
    if 0 <? applied then
      let t := t <| s_is_reversing := true |> <| s_ramp_active := true |> in
      let applied := i32 (applied - delta_decel) in
      if applied <=? 0 then
        let '(t, g) := switch_direction e target_fwd t g in (0, t, g)
      else (applied, t, g)
    else
      let '(t, g) := switch_direction e target_fwd t g in (applied, t, g)
  else if applied <? target then
    let applied := i32 (applied + delta_accel) in
    if target <=? applied then (target, t <| s_ramp_active := false |>, g)
    else (applied, t <| s_ramp_active := true |>, g)
  else if target <? applied then
    let applied := i32 (applied - delta_decel) in
    if applied <=? target then (target, t <| s_ramp_active := false |>, g)
    else (applied, t <| s_ramp_active := true |>, g)
  else (applied, t <| s_ramp_active := false |>, g).

(** Step 3: the applied speed goes to the pulse engine. *)
Definition tick_apply (e : tick_env) (applied spr : Z) (g : G) : G :=
  if 0 <? applied then
    let g := if negb (gen_is_driver_enabled g) then (gen_enable_driver (te_enable e) g).2 else g in
    let g := (gen_start (te_start e) g).2 in
    (gen_set_rate (te_rate e) applied spr g).2
  else if applied =? 0 then
    if 0 <? gen_get_generated g then (gen_stop_profiled g).2 else g
  else g.

Definition argus_trajectory_step_tick_20ms (e : tick_env) (t : traj_state) (g : G)
    : traj_state * G :=
  match tr_cfg t with
  | None => (t, g)
  | Some _ =>
      let spr := u32 (argus_conversions_steps_per_rev (tr_cfg t)) in
      let '(applied, t, g) := tick_ramp e t g in
      let t := t <| s_applied_rpm_milli := applied |> in
      (t, tick_apply e applied spr g)
  end.

Definition argus_trajectory_set_target_rpm_milli (e : E) (rpm_milli : Z) (forward : bool)
    (t : traj_state) (g : G) : esp_err_t * traj_state * G :=
  match tr_cfg t with
  | None => (ESP_ERR_INVALID_STATE, t, g)
  | Some c =>
      let rpm := if rpm_milli <? 0 then 0 else rpm_milli in
      let rpm := if max_output_milli_rpm c <? rpm then max_output_milli_rpm c else rpm in
      let t := t <| s_target_rpm_milli := rpm |> <| s_target_forward := forward |> in
      let t := if negb (Bool.eqb forward (s_current_forward t)) && (0 <? s_applied_rpm_milli t)
               then t <| s_is_reversing := true |> else t in
      let g := if (s_applied_rpm_milli t =? 0) && (0 <? rpm) then
                 if negb (gen_is_driver_enabled g) then (gen_enable_driver e g).2 else g
               else g in
      (ESP_OK, t, g)
  end.

Definition argus_trajectory_stop_normal (e : E) (t : traj_state) (g : G)
    : esp_err_t * traj_state * G :=
  argus_trajectory_set_target_rpm_milli e 0 (s_target_forward t) t g.

(** The assignments shared by the three immediate stops. *)
Definition zero_motion (t : traj_state) : traj_state :=
  t <| s_target_rpm_milli := 0 |> <| s_applied_rpm_milli := 0 |>
    <| s_ramp_active := false |> <| s_is_reversing := false |>.

Definition argus_trajectory_stop_immediate (e : E) (t : traj_state) (g : G)
    : esp_err_t * traj_state * G :=
  (ESP_OK, zero_motion t, (gen_stop_immediate e g).2).

Definition argus_trajectory_unlock (e : E) (t : traj_state) (g : G)
    : esp_err_t * traj_state * G :=
  (ESP_OK, zero_motion t, (gen_disable_driver e g).2).

Definition clear_error_locked (t : traj_state) (g : G) : traj_state * G :=
  (t <| s_latched_error := 0 |>, gen_clear_error g).

(** [during] is what happens to the generator in the 500 ms recovery interval,
  when the trajectory mutex is free. *)
Definition argus_trajectory_recover (e_stop e_dis : E) (during : G -> G)
    (t : traj_state) (g : G) : esp_err_t * traj_state * G :=
  let t := zero_motion t in
  let '(err_stop, g) := gen_stop_immediate e_stop g in
  let '(err_dis, g) := gen_disable_driver e_dis g in
  let '(t, g) := clear_error_locked t g in
  if negb (is_ok err_stop) || negb (is_ok err_dis) then
    ((if negb (is_ok err_stop) then err_stop else err_dis), t, g)
  else
    let g := during g in
    if negb (bool_decide (gen_error g = ARGUS_STEP_GEN_ERROR_NONE)) then (ESP_FAIL, t, g)
    else (ESP_OK, t, g).

Definition argus_trajectory_clear_error (t : traj_state) (g : G) : traj_state * G :=
  clear_error_locked t g.

Definition argus_trajectory_enable_driver (e : E) (t : traj_state) (g : G)
    : esp_err_t * traj_state * G :=
  let '(err, g) := gen_enable_driver e g in (err, t, g).

Record argus_trajectory_snapshot_t := TrajSnapshot {
  trs_target_rpm_milli : Z;
  trs_applied_rpm_milli : Z;
  trs_generated_rpm_milli : Z;
  trs_target_forward : bool;
  trs_applied_forward : bool;
  trs_ramp_active : bool;
  trs_is_reversing : bool;
  trs_latched_error : argus_step_gen_error_t
}.

Definition argus_trajectory_get_snapshot (t : traj_state) (g : G)
    : argus_trajectory_snapshot_t :=
  TrajSnapshot (s_target_rpm_milli t) (s_applied_rpm_milli t) (gen_get_generated g)
    (s_target_forward t) (s_current_forward t) (s_ramp_active t) (s_is_reversing t)
    (gen_error g).
End Operations.

Arguments tick_env : clear implicits.

(** ** Well-formedness

    The ranges the configuration of the hardware gives: the sums and differences
    of the ramp stay inside 32 bits. *)
Record traj_wf (t : traj_state) : Prop := {
  wf_cfg : exists c, tr_cfg t = Some c /\ 0 <= max_output_milli_rpm c <= 1000000000 /\
    0 <= s_target_rpm_milli t <= max_output_milli_rpm c /\
    0 <= s_applied_rpm_milli t <= max_output_milli_rpm c;
  wf_accel_limit : 0 <= s_accel_limit t <= 100000000;
  wf_decel_limit : 0 <= s_decel_limit t <= 100000000;
  wf_interval : s_update_interval_ms t = 20
}.

Lemma ramp_delta_range limit : 0 <= limit <= 100000000 ->
  1 <= ramp_delta limit 20 <= 2000000.
Proof.
  intros H. unfold ramp_delta. rewrite i32_small by (unfold is_i32; lia).
  rewrite Z.quot_div_nonneg by lia.
  assert (limit * 20 / 1000 <= 2000000) by (apply Z.div_le_upper_bound; lia).
  case_match; b2p; lia.
Qed.

(** The speed part of the tick does not depend on the generator. *)
Definition ramp_speed (t : traj_state) : Z :=
  let target := s_target_rpm_milli t in
  let applied := s_applied_rpm_milli t in
  let da := ramp_delta (s_accel_limit t) 20 in
  let dd := ramp_delta (s_decel_limit t) 20 in
  if negb (Bool.eqb (s_target_forward t) (s_current_forward t)) || s_is_reversing t then
    Z.max 0 (applied - dd)
  else if applied <=? target then Z.min target (applied + da)
  else Z.max target (applied - dd).

(** The direction part. *)
Definition ramp_switches (t : traj_state) : bool :=
  (negb (Bool.eqb (s_target_forward t) (s_current_forward t)) || s_is_reversing t)
  && (ramp_speed t =? 0).

(** Ticks until the ramp is at its target: [cdiv] is division rounding up. *)
Definition cdiv (x d : Z) : Z := (x + d - 1) / d.

Definition ticks_to_settle (t : traj_state) : Z :=
  let da := ramp_delta (s_accel_limit t) 20 in
  let dd := ramp_delta (s_decel_limit t) 20 in
  let a := s_applied_rpm_milli t in
  let tg := s_target_rpm_milli t in
  if negb (Bool.eqb (s_target_forward t) (s_current_forward t)) || s_is_reversing t then
    Z.max 1 (cdiv a dd) + cdiv tg da
  else if a <=? tg then cdiv (tg - a) da else cdiv (a - tg) dd.

Section Properties.
Context {G E : Type} `{!StepGenerator G E}.

Lemma tick_ramp_spec (e : tick_env E) t (g : G) :
  traj_wf t ->
  let '(applied, t', g') := tick_ramp e t g in
  applied = ramp_speed t /\
  s_current_forward t' = (if ramp_switches t then s_target_forward t else s_current_forward t) /\
  s_is_reversing t' =
    (if negb (Bool.eqb (s_target_forward t) (s_current_forward t)) || s_is_reversing t
     then negb (ramp_switches t) else false) /\
  g' = (if ramp_switches t then (switch_direction e (s_target_forward t) t g).2 else g) /\
  t' = t <| s_current_forward := s_current_forward t' |> <| s_is_reversing := s_is_reversing t' |>
         <| s_ramp_active := s_ramp_active t' |>.
Proof.
  intros [(c & Hc & Hmax & Htg & Hap) Ha Hd Hi].
  pose proof (ramp_delta_range _ Ha). pose proof (ramp_delta_range _ Hd).
  unfold tick_ramp, ramp_switches, ramp_speed. rewrite Hi.
  set (da := ramp_delta (s_accel_limit t) 20) in *.
  set (dd := ramp_delta (s_decel_limit t) 20) in *.
  rewrite !i32_small by (unfold is_i32; lia).
  destruct t as [? tg ap tf cf ra rv ? ? ? ?]. cbn in *.
  destruct (negb (Bool.eqb tf cf) || rv) eqn:Hrv; cbn.
  - destruct (Z.ltb_spec 0 ap); [destruct (Z.leb_spec (ap - dd) 0)|]; cbn.
    all: destruct (Z.eqb_spec (Z.max 0 (ap - dd)) 0); cbn; repeat split; try lia.
  - apply orb_false_iff in Hrv as [Hrv ->].
    repeat match goal with |- context [?x <? ?y] => destruct (Z.ltb_spec x y)
      | |- context [?x <=? ?y] => destruct (Z.leb_spec x y) end; cbn; repeat split; try lia.
Qed.

Lemma tick_apply_spec (e : tick_env E) applied spr (g : G) :
  gen_ok g -> gen_ok (tick_apply e applied spr g) /\
              gen_forward (tick_apply e applied spr g) = gen_forward g.
Proof.
  intros H. unfold tick_apply. repeat case_match; [| |split..]; auto using gen_profiled_ok, gen_profiled_forward.
  - split; [auto using gen_rate_ok, gen_start_ok, gen_enable_ok|].
    by rewrite gen_rate_forward, gen_start_forward, gen_enable_forward
      by auto using gen_start_ok, gen_enable_ok.
  - split; [auto using gen_rate_ok, gen_start_ok|].
    by rewrite gen_rate_forward, gen_start_forward by auto using gen_start_ok.
Qed.

Definition tick_env_ok (e : tick_env E) : Prop := env_ok (te_stop e) /\ env_ok (te_direction e).

Lemma tick_spec (e : tick_env E) t (g : G) :
  traj_wf t ->
  let '(t', g') := argus_trajectory_step_tick_20ms e t g in
  traj_wf t' /\ s_applied_rpm_milli t' = ramp_speed t /\
  s_target_rpm_milli t' = s_target_rpm_milli t /\ s_target_forward t' = s_target_forward t /\
  s_accel_limit t' = s_accel_limit t /\ s_decel_limit t' = s_decel_limit t /\
  s_current_forward t' = (if ramp_switches t then s_target_forward t else s_current_forward t) /\
  s_is_reversing t' =
    (if negb (Bool.eqb (s_target_forward t) (s_current_forward t)) || s_is_reversing t
     then negb (ramp_switches t) else false) /\
  (gen_ok g -> gen_ok g' /\
     (tick_env_ok e ->
      gen_forward g' = if ramp_switches t then s_target_forward t else gen_forward g)).
Proof.
  intros Hwf. pose proof (tick_ramp_spec e t g Hwf) as Hs.
  destruct Hwf as [(c & Hc & Hmax & Htg & Hap) Ha Hd Hi].
  unfold argus_trajectory_step_tick_20ms. rewrite Hc.
  destruct (tick_ramp e t g) as [[applied t'] g'].
  destruct Hs as (-> & Hcf & Hrv & -> & Ht').
  pose proof (ramp_delta_range _ Ha). pose proof (ramp_delta_range _ Hd).
  assert (Hsp : 0 <= ramp_speed t <= max_output_milli_rpm c).
  { unfold ramp_speed. repeat case_match; b2p; lia. }
  rewrite Ht'. cbn. split.
  { split; cbn; auto. exists c. repeat split; auto; lia. }
  repeat (split; [done|]). intros Hg.
  set (gs := if ramp_switches t then _ else g).
  assert (Hgs : gen_ok gs).
  { unfold gs. destruct (ramp_switches t); [apply gen_direction_ok, gen_stop_ok|]; done. }
  destruct (tick_apply_spec e (ramp_speed t) (u32 (argus_conversions_steps_per_rev (Some c))) gs Hgs)
    as [Hok Hfw].
  split; [exact Hok|]. intros [He1 He2]. etrans; [exact Hfw|]. unfold gs.
  destruct (ramp_switches t); [by apply gen_stop_direction|done].
Qed.

(** One 20 ms tick of the ramp keeps every speed in range, changes the applied speed
    by at most the configured acceleration or deceleration step, never overshoots the
    target, and while a reversal is in progress only decelerates. *)
Theorem tick_slew_limited (e : tick_env E) t (g : G) :
  traj_wf t ->
  let t' := (argus_trajectory_step_tick_20ms e t g).1 in
  let a := s_applied_rpm_milli t in
  let a' := s_applied_rpm_milli t' in
  let tg := s_target_rpm_milli t in
  traj_wf t' /\
  - ramp_delta (s_decel_limit t) 20 <= a' - a <= ramp_delta (s_accel_limit t) 20 /\
  (if negb (Bool.eqb (s_target_forward t) (s_current_forward t)) || s_is_reversing t
   then 0 <= a' <= a /\ (0 < a -> a' < a)
   else (a <= tg -> a <= a' <= tg) /\ (tg <= a -> tg <= a' <= a) /\ (a <> tg -> a' <> a)).
Proof.
  intros Hwf. pose proof (tick_spec e t g Hwf) as Hs.
  destruct (argus_trajectory_step_tick_20ms e t g) as [t' g']. cbn.
  destruct Hs as (Hwf' & -> & _). split; [done|].
  destruct Hwf as [(c & Hc & Hmax & Htg & Hap) Ha Hd Hi].
  pose proof (ramp_delta_range _ Ha). pose proof (ramp_delta_range _ Hd).
  unfold ramp_speed. repeat case_match; b2p; lia.
Qed.

(** *** Every operation *)

Inductive traj_op :=
| TTick (e : tick_env E)
| TSetTarget (e : E) (rpm : Z) (forward : bool)
| TStopNormal (e : E)
| TStopImmediate (e : E)
| TUnlock (e : E)
| TRecover (e_stop e_dis : E)
| TClearError
| TEnableDriver (e : E).

Definition traj_exec (op : traj_op) (c : traj_state * G) : traj_state * G :=
  let '(t, g) := c in
  match op with
  | TTick e => argus_trajectory_step_tick_20ms e t g
  | TSetTarget e r f => let '(_, t, g) := argus_trajectory_set_target_rpm_milli e r f t g in (t, g)
  | TStopNormal e => let '(_, t, g) := argus_trajectory_stop_normal e t g in (t, g)
  | TStopImmediate e => let '(_, t, g) := argus_trajectory_stop_immediate e t g in (t, g)
  | TUnlock e => let '(_, t, g) := argus_trajectory_unlock e t g in (t, g)
  | TRecover e e' => let '(_, t, g) := argus_trajectory_recover e e' id t g in (t, g)
  | TClearError => argus_trajectory_clear_error t g
  | TEnableDriver e => let '(_, t, g) := argus_trajectory_enable_driver e t g in (t, g)
  end.

(** The hardware lets the direction switch of a tick through. *)
Definition traj_op_ok (op : traj_op) : Prop :=
  match op with TTick e => tick_env_ok e | _ => True end.

(** Well-formed, and the direction the trajectory believes in is the one the
    generator drives. *)
Record traj_inv (c : traj_state * G) : Prop := {
  ti_wf : traj_wf c.1;
  ti_gen : gen_ok c.2;
  ti_dir : gen_forward c.2 = s_current_forward c.1
}.

Lemma zero_motion_wf t : traj_wf t -> traj_wf (zero_motion t).
Proof. intros [(c & Hc & Hmax & Htg & Hap) ? ? ?]. split; cbn; auto. exists c. repeat split; auto; lia. Qed.

Lemma traj_set_target_inv e r f t g :
  traj_inv (t, g) ->
  let '(_, t', g') := argus_trajectory_set_target_rpm_milli e r f t g in traj_inv (t', g').
Proof.
  intros [[(c & Hc & Hmax & Htg & Hap) ? ? ?] Hg Hd]. cbn in *.
  unfold argus_trajectory_set_target_rpm_milli. rewrite Hc.
  set (rpm := if max_output_milli_rpm c <? _ then _ else _).
  assert (0 <= rpm <= max_output_milli_rpm c) by (unfold rpm; repeat case_match; b2p; lia).
  split; cbn.
  - case_match; split; cbn; auto; exists c; cbn; auto.
  - repeat case_match; auto using gen_enable_ok.
  - repeat case_match; rewrite ?gen_enable_forward; auto.
Qed.

Lemma traj_exec_inv op c : traj_inv c -> traj_op_ok op -> traj_inv (traj_exec op c).
Proof.
  destruct c as [t g]. intros Hinv Hop. pose proof Hinv as [Hwf Hg Hd]. cbn in *.
  pose proof (zero_motion_wf t Hwf).
  destruct op; cbn [traj_exec].
  - pose proof (tick_spec e t g Hwf) as Hs.
    destruct (argus_trajectory_step_tick_20ms e t g) as [t' g'].
    destruct Hs as (? & _ & _ & _ & _ & _ & Hcf & _ & Hgen). destruct (Hgen Hg) as [? Hf].
    split; cbn; auto. rewrite Hcf, (Hf Hop). by case_match.
  - pose proof (traj_set_target_inv e rpm forward t g Hinv). by repeat case_match.
  - pose proof (traj_set_target_inv e 0 (s_target_forward t) t g Hinv).
    unfold argus_trajectory_stop_normal. by repeat case_match.
  - split; cbn; auto using gen_stop_ok. by rewrite gen_stop_forward.
  - split; cbn; auto using gen_disable_ok. by rewrite gen_disable_forward.
  - unfold argus_trajectory_recover.
    pose proof (gen_stop_ok e_stop g Hg). pose proof (gen_stop_forward e_stop g Hg).
    destruct (gen_stop_immediate e_stop g) as [e1 g1]. cbn in *.
    pose proof (gen_disable_ok e_dis g1 H0). pose proof (gen_disable_forward e_dis g1 H0).
    destruct (gen_disable_driver e_dis g1) as [e2 g2]. cbn in *.
    assert (traj_inv ((zero_motion t) <| s_latched_error := 0 |>, gen_clear_error g2)).
    { split; cbn; auto using gen_clear_ok; [|rewrite gen_clear_forward by done; congruence].
      destruct H as [(c & ?) ? ? ?]. split; cbn; auto. by exists c. }
    by repeat case_match; simplify_eq.
  - destruct Hwf as [(c & ?) ? ? ?].
    split; cbn; auto using gen_clear_ok; [|by rewrite gen_clear_forward].
    split; cbn; auto. by exists c.
  - unfold argus_trajectory_enable_driver.
    pose proof (gen_enable_ok e g Hg). pose proof (gen_enable_forward e g Hg).
    destruct (gen_enable_driver e g) as [e1 g1]. cbn in *. split; cbn; auto. congruence.
Qed.

Lemma traj_run_inv ops c :
  traj_inv c -> Forall traj_op_ok ops -> traj_inv (foldl (fun c op => traj_exec op c) c ops).
Proof.
  intros H Hok. revert c H. induction Hok; intros c Hc; [done|]. cbn. auto using traj_exec_inv.
Qed.

(** C17: on every sequence of ticks and commands the direction the generator drives is the
    one the trajectory engine believes in, and an operation changes that direction only
    if it is a tick, which ends at standstill (applied speed 0), from an applied speed at
    most one deceleration step above zero, and the new direction is the requested one. *)
Theorem direction_changes_only_at_standstill ops op c :
  traj_inv c -> Forall traj_op_ok ops -> traj_op_ok op ->
  let c1 := foldl (fun c op => traj_exec op c) c ops in
  let c2 := traj_exec op c1 in
  gen_forward c2.2 = s_current_forward c2.1 /\
  (gen_forward c2.2 <> gen_forward c1.2 ->
     (exists e, op = TTick e) /\ gen_forward c2.2 = s_target_forward c1.1 /\
     s_applied_rpm_milli c2.1 = 0 /\
     0 <= s_applied_rpm_milli c1.1 <= ramp_delta (s_decel_limit c1.1) 20).
Proof.
  intros Hc Hops Hop c1 c2. pose proof (traj_run_inv ops c Hc Hops) as H1. fold c1 in H1.
  pose proof (traj_exec_inv op c1 H1 Hop) as H2. fold c2 in H2.
  split; [apply (ti_dir _ H2)|]. rewrite (ti_dir _ H1), (ti_dir _ H2).
  clearbody c1. subst c2. destruct c1 as [t g]. destruct op; cbn [traj_exec fst snd].
  - pose proof (tick_spec e t g (ti_wf _ H1)) as Hs.
    destruct (argus_trajectory_step_tick_20ms e t g) as [t' g']. cbn.
    destruct Hs as (_ & Hap & _ & _ & _ & _ & -> & _). rewrite Hap.
    destruct (ramp_switches t) eqn:Hsw; [|done]. intros _. split; [by exists e|]. split; [done|].
    revert Hsw. unfold ramp_switches.
    rewrite andb_true_iff, Z.eqb_eq. intros [Hr Hz]. split; [done|].
    destruct (wf_cfg _ (ti_wf _ H1)) as (cfg & _ & _ & _ & Hap0). cbn in Hap0.
    revert Hz. unfold ramp_speed. rewrite Hr. lia.
  - unfold argus_trajectory_set_target_rpm_milli. by repeat case_match; simplify_eq/=.
  - unfold argus_trajectory_stop_normal, argus_trajectory_set_target_rpm_milli.
    by repeat case_match; simplify_eq/=.
  - done.
  - done.
  - unfold argus_trajectory_recover, clear_error_locked. by repeat case_match; simplify_eq/=.
  - done.
  - unfold argus_trajectory_enable_driver. by repeat case_match; simplify_eq/=.
Qed.

(** *** Convergence *)

Fixpoint ticks (e : nat -> tick_env E) (n : nat) (t : traj_state) (g : G) : traj_state * G :=
  match n with
  | O => (t, g)
  | S n => let '(t, g) := ticks e n t g in argus_trajectory_step_tick_20ms (e n) t g
  end.

Lemma ticks_wf e n t g : traj_wf t ->
  traj_wf (ticks e n t g).1 /\ s_target_rpm_milli (ticks e n t g).1 = s_target_rpm_milli t /\
  s_target_forward (ticks e n t g).1 = s_target_forward t.
Proof.
  intros H. induction n as [|n IH]; [done|]. cbn.
  destruct (ticks e n t g) as [t1 g1]. cbn in *. destruct IH as (Hwf & Ht & Hf).
  pose proof (tick_spec (e n) t1 g1 Hwf) as Hs.
  destruct (argus_trajectory_step_tick_20ms (e n) t1 g1) as [t2 g2]. cbn.
  destruct Hs as (? & _ & ? & ? & _).
  split; [done|]. split; congruence.
Qed.

Lemma cdiv_step x d : 0 < d -> 0 < x -> cdiv (Z.max 0 (x - d)) d = cdiv x d - 1.
Proof.
  intros Hd Hx. unfold cdiv. destruct (Z.max_spec 0 (x - d)) as [[? ->]|[? ->]].
  - replace (x + d - 1) with (x - d + d - 1 + 1 * d) by lia. rewrite Z.div_add by lia. lia.
  - rewrite Z.div_small by lia. symmetry. apply Z.sub_move_r.
    symmetry. apply (Z.div_unique_pos _ _ _ (x - 1)); lia.
Qed.

Lemma cdiv_nonneg x d : 0 < d -> 0 <= x -> 0 <= cdiv x d.
Proof. intros. apply Z.div_pos; lia. Qed.

Lemma cdiv_pos x d : 0 < d -> 0 < x -> 1 <= cdiv x d.
Proof. intros. apply Z.div_le_lower_bound; lia. Qed.

Lemma cdiv_zero d : 0 < d -> cdiv 0 d = 0.
Proof. intros. apply Z.div_small. lia. Qed.

Lemma ticks_to_settle_nonneg t : traj_wf t -> 0 <= ticks_to_settle t.
Proof.
  intros [(c & Hc & Hmax & Htg & Hap) Ha Hd Hi].
  pose proof (ramp_delta_range _ Ha). pose proof (ramp_delta_range _ Hd).
  unfold ticks_to_settle. case_match; [|case_match]; b2p.
  - pose proof (cdiv_nonneg (s_target_rpm_milli t) (ramp_delta (s_accel_limit t) 20)). lia.
  - apply cdiv_nonneg; lia.
  - apply cdiv_nonneg; lia.
Qed.

(** Each tick brings the ramp one tick closer. *)
Lemma tick_progress (e : tick_env E) t (g : G) :
  traj_wf t ->
  ticks_to_settle (argus_trajectory_step_tick_20ms e t g).1 =
    Z.max 0 (ticks_to_settle t - 1).
Proof.
  intros Hwf. pose proof (tick_spec e t g Hwf) as Hs.
  pose proof (ticks_to_settle_nonneg t Hwf) as Hnn.
  destruct Hwf as [(c & Hc & Hmax & Htg & Hap) Ha Hd Hi].
  destruct (argus_trajectory_step_tick_20ms e t g) as [t' g']. cbn.
  destruct Hs as (_ & Hap' & Htg' & Htf' & Hac' & Hde' & Hcf' & Hrv' & _).
  revert Hnn. unfold ticks_to_settle. rewrite Hap', Htg', Htf', Hac', Hde', Hcf', Hrv'.
  pose proof (ramp_delta_range _ Ha). pose proof (ramp_delta_range _ Hd).
  unfold ramp_switches, ramp_speed.
  set (da := ramp_delta (s_accel_limit t) 20) in *.
  set (dd := ramp_delta (s_decel_limit t) 20) in *.
  set (a := s_applied_rpm_milli t) in *. set (tg := s_target_rpm_milli t) in *.
  destruct (negb (Bool.eqb (s_target_forward t) (s_current_forward t)) || s_is_reversing t) eqn:Hrev.
  - cbn [andb]. destruct (Z.eqb_spec (Z.max 0 (a - dd)) 0) as [Hz|Hz]; cbn [negb].
    + rewrite Bool.eqb_reflx. cbn [negb orb]. rewrite Hz.
      destruct (Z.leb_spec 0 tg); [|lia]. rewrite Z.sub_0_r. intros _.
      pose proof (cdiv_nonneg tg da).
      destruct (decide (a = 0)) as [->|]; [rewrite cdiv_zero by lia; lia|].
      pose proof (cdiv_step a dd). rewrite Hz, cdiv_zero in * by lia. lia.
    + rewrite orb_true_r. intros _.
      pose proof (cdiv_step a dd). pose proof (cdiv_pos (Z.max 0 (a - dd)) dd). 
      pose proof (cdiv_nonneg tg da). lia.
  - apply orb_false_iff in Hrev as [Hrev Hr]. cbn [andb]. rewrite Hrev. cbn [orb].
    destruct (Z.leb_spec a tg) as [Hle|Hgt]; intros Hnn.
    + destruct (Z.leb_spec (Z.min tg (a + da)) tg); [|lia].
      replace (tg - Z.min tg (a + da)) with (Z.max 0 (tg - a - da)) by lia.
      destruct (decide (tg = a)) as [->|].
      * rewrite Z.sub_diag, Z.max_l, cdiv_zero by lia. lia.
      * rewrite cdiv_step by lia. pose proof (cdiv_pos (tg - a) da). lia.
    + pose proof (cdiv_pos (a - tg) dd). pose proof (cdiv_step (a - tg) dd) as Hst.
      destruct (Z.leb_spec (Z.max tg (a - dd)) tg).
      * replace (tg - Z.max tg (a - dd)) with 0 by lia. rewrite cdiv_zero by lia.
        rewrite Z.max_l, cdiv_zero in Hst by lia. lia.
      * replace (Z.max tg (a - dd) - tg) with (Z.max 0 (a - tg - dd)) by lia. lia.
Qed.

(** C18: with no new command the ramp reaches its target: after exactly
    [ticks_to_settle] 20 ms ticks (deceleration to standstill when a reversal is
    pending, then the ramp to the target, each at its configured rate), and from then
    on, the applied speed is the target, in the requested direction. *)
Theorem ramp_converges e n t g :
  traj_wf t -> ticks_to_settle t <= Z.of_nat n ->
  let t' := (ticks e n t g).1 in
  s_applied_rpm_milli t' = s_target_rpm_milli t /\
  s_current_forward t' = s_target_forward t /\ s_is_reversing t' = false.
Proof.
  intros Hwf Hn t'. destruct (ticks_wf e n t g Hwf) as (Hwf' & Htg & Hfw). fold t' in Hwf', Htg, Hfw.
  assert (Hz : forall k, ticks_to_settle (ticks e k t g).1 = Z.max 0 (ticks_to_settle t - Z.of_nat k)).
  { pose proof (ticks_to_settle_nonneg t Hwf). induction k as [|k IH]; [cbn; lia|].
    cbn [ticks]. destruct (ticks_wf e k t g Hwf) as (Hk & _).
    destruct (ticks e k t g) as [t1 g1]. cbn in *. rewrite tick_progress by done. lia. }
  specialize (Hz n). fold t' in Hz. rewrite <- Htg, <- Hfw.
  rewrite Z.max_l in Hz by lia. revert Hz.
  destruct Hwf' as [(c & Hc & Hmax & Htg' & Hap') Ha Hd Hi].
  pose proof (ramp_delta_range _ Ha). pose proof (ramp_delta_range _ Hd).
  unfold ticks_to_settle. case_match eqn:Hrev.
  - pose proof (cdiv_nonneg (s_target_rpm_milli t') (ramp_delta (s_accel_limit t') 20)). lia.
  - apply orb_false_iff in Hrev as [Hd' Hr]. apply negb_false_iff, eqb_prop in Hd'.
    case_match; b2p; intros Hz; repeat split; try done.
    + destruct (decide (s_applied_rpm_milli t' = s_target_rpm_milli t')); [done|].
      pose proof (cdiv_pos (s_target_rpm_milli t' - s_applied_rpm_milli t')
        (ramp_delta (s_accel_limit t') 20)). lia.
    + pose proof (cdiv_pos (s_applied_rpm_milli t' - s_target_rpm_milli t')
        (ramp_delta (s_decel_limit t') 20)). lia.
Qed.
End Properties.

(** ** The step generator implements the interface *)

Definition sg_gen_ok (s : sg_state) : Prop :=
  s_timer s = true /\ t_direction_forward (s_pending_timing s) = s_forward s.

Ltac sg_cases :=
  unfold sg_gen_ok, argus_step_gen_stop_immediate, argus_step_gen_set_direction,
    argus_step_gen_enable_driver, argus_step_gen_disable_driver, argus_step_gen_start,
    argus_step_gen_stop_profiled, argus_step_gen_clear_error, set_rate_commit, set_rate_kickstart;
  intros; repeat case_match; simplify_eq/=; try tauto.

Lemma sg_rate_spec e r spr s :
  sg_gen_ok s -> sg_gen_ok (argus_step_gen_set_rate_rpm_milli e r spr s).2 /\
                 s_forward (argus_step_gen_set_rate_rpm_milli e r spr s).2 = s_forward s.
Proof.
  unfold argus_step_gen_set_rate_rpm_milli. sg_cases.
Qed.

Lemma sg_stop_direction e e' f s :
  sg_gen_ok s -> e_take e = true -> e_take e' = true ->
  s_forward (argus_step_gen_set_direction e' f (argus_step_gen_stop_immediate e s).2).2 = f.
Proof.
  intros [Ht _] He He'. unfold argus_step_gen_stop_immediate. rewrite Ht, He. cbn [negb snd].
  unfold argus_step_gen_set_direction. rewrite He'.
  destruct (e_raw e); repeat case_match; simplify_eq/=; done.
Qed.

#[export, refine] Instance step_generator : StepGenerator sg_state sg_env := {|
  gen_stop_immediate := argus_step_gen_stop_immediate;
  gen_set_direction := argus_step_gen_set_direction;
  gen_is_driver_enabled := argus_step_gen_is_driver_enabled;
  gen_enable_driver := argus_step_gen_enable_driver;
  gen_disable_driver := argus_step_gen_disable_driver;
  gen_start := argus_step_gen_start;
  gen_set_rate := argus_step_gen_set_rate_rpm_milli;
  gen_get_generated := argus_step_gen_get_generated_rpm_milli;
  gen_stop_profiled := argus_step_gen_stop_profiled;
  gen_clear_error := argus_step_gen_clear_error;
  gen_error := argus_step_gen_get_error;
  gen_ok := sg_gen_ok;
  gen_forward := s_forward;
  env_ok := fun e => e_take e = true
|}.
Proof.
  all: try (intros; apply sg_rate_spec; assumption).
  all: try exact sg_stop_direction.
  all: sg_cases. by destruct H.
Defined.

(** ** The composed system *)

Definition good_env : sg_env :=
  {| e_take := true; e_start := ESP_OK; e_stop := ESP_OK; e_raw := Some 100000 |}.
Definition good_tick : tick_env sg_env :=
  {| te_stop := good_env; te_direction := good_env; te_enable := good_env;
     te_start := good_env; te_rate := good_env |}.

(** The statics of both files after [app_main] has initialised them. *)
Definition example_gen : sg_state :=
  (argus_step_gen_arm good_env
    (argus_step_gen_init (Some (argus_config_init None None None))
       {| ie_mutex_created := true; ie_gpio_config := ESP_OK; ie_gpio_config_en := ESP_OK;
          ie_new_timer := ESP_OK; ie_set_alarm := ESP_OK; ie_register := ESP_OK;
          ie_enable := ESP_OK |} sg_boot).2).2.
Definition example_traj : traj_state :=
  (argus_trajectory_init (Some (argus_config_init None None None)) true traj_boot).2
    <| s_target_rpm_milli := 1000 |> <| s_applied_rpm_milli := 500 |>
    <| s_target_forward := false |>.

Lemma example_traj_wf : traj_wf example_traj.
Proof. split; cbn; try lia. eexists; split; [reflexivity|]. cbn. lia. Qed.

Lemma example_gen_ok : sg_gen_ok example_gen.
Proof. vm_compute. split; reflexivity. Qed.

Lemma example_inv : traj_inv (example_traj, example_gen).
Proof.
  constructor; [exact example_traj_wf|exact example_gen_ok|vm_compute; reflexivity].
Qed.

Lemma tick_slew_limited_witness :
  s_applied_rpm_milli (argus_trajectory_step_tick_20ms good_tick example_traj example_gen).1 = 300 /\
  traj_wf (argus_trajectory_step_tick_20ms good_tick example_traj example_gen).1.
Proof.
  split; [vm_compute; reflexivity|].
  exact (proj1 (tick_slew_limited good_tick example_traj example_gen example_traj_wf)).
Defined.

Lemma direction_changes_only_at_standstill_witness :
  let c1 := foldl (fun c op => traj_exec op c) (example_traj, example_gen)
              [TTick good_tick; TTick good_tick] in
  let c2 := traj_exec (TTick good_tick) c1 in
  s_forward c1.2 = true /\ s_forward c2.2 = false /\ s_applied_rpm_milli c2.1 = 0.
Proof.
  intros c1 c2. split; [vm_compute; reflexivity|]. split; [vm_compute; reflexivity|].
  destruct (direction_changes_only_at_standstill [TTick good_tick; TTick good_tick]
    (TTick good_tick) (example_traj, example_gen)) as [_ H]; [| | |destruct H as (_ & _ & H & _)].
  - exact example_inv.
  - repeat constructor.
  - repeat constructor.
  - vm_compute. discriminate.
  - exact H.
Defined.

Lemma ramp_converges_witness :
  ticks_to_settle example_traj = 8 /\
  s_applied_rpm_milli (ticks (fun _ => good_tick) 8 example_traj example_gen).1 = 1000 /\
  s_current_forward (ticks (fun _ => good_tick) 8 example_traj example_gen).1 = false.
Proof.
  split; [vm_compute; reflexivity|].
  destruct (ramp_converges (fun _ => good_tick) 8 example_traj example_gen example_traj_wf)
    as (H1 & H2 & _); [vm_compute; discriminate|].
  split; [exact H1|exact H2].
Defined.
