(* ===== verification/StateMgr.v ===== *)
(** * Machine state manager

    [src/main/argus_state_mgr.c]: the pure state core (one definition per
    [argus_state_core_*] function) and the mutex-guarded production wrappers.

    The lower layer is a table of operations [argus_motion_ops_t], as in the
    source.  An operation may take long, and the source revalidates the core
    after each call because it may have been changed meanwhile: an operation is
    therefore a function on the core together with the lower layer's own state
    [M]. *)

From S2P Require Import Prelude Conversions StepGen Trajectory.

(** ** Data *)

Inductive argus_machine_state_t :=
| ARGUS_STATE_BOOTING
| ARGUS_STATE_UNLOCKED
| ARGUS_STATE_STARTING
| ARGUS_STATE_RUNNING
| ARGUS_STATE_DECELERATING
| ARGUS_STATE_HOLDING
| ARGUS_STATE_EMERGENCY_STOPPED
| ARGUS_STATE_RECOVERING
| ARGUS_STATE_FAULTED.

#[export] Instance machine_state_eq_dec : EqDecision argus_machine_state_t.
Proof. solve_decision. Defined.

(** The values of the enumeration. *)
Definition machine_state_num (s : argus_machine_state_t) : Z :=
  match s with
  | ARGUS_STATE_BOOTING => 0
  | ARGUS_STATE_UNLOCKED => 1
  | ARGUS_STATE_STARTING => 2
  | ARGUS_STATE_RUNNING => 3
  | ARGUS_STATE_DECELERATING => 4
  | ARGUS_STATE_HOLDING => 5
  | ARGUS_STATE_EMERGENCY_STOPPED => 6
  | ARGUS_STATE_RECOVERING => 7
  | ARGUS_STATE_FAULTED => 8
  end.

Definition is_state (s s' : argus_machine_state_t) : bool :=
  machine_state_num s =? machine_state_num s'.

Lemma is_state_true s s' : is_state s s' = true <-> s = s'.
Proof. split; [destruct s, s'; done | intros ->; apply Z.eqb_refl]. Qed.

Lemma is_state_false s s' : is_state s s' = false <-> s <> s'.
Proof. rewrite <- not_true_iff_false, is_state_true. done. Qed.

Definition argus_state_mgr_get_state_name (state : argus_machine_state_t) : bytes :=
  match state with
  | ARGUS_STATE_BOOTING => str "BOOTING"
  | ARGUS_STATE_UNLOCKED => str "UNLOCKED"
  | ARGUS_STATE_STARTING => str "STARTING"
  | ARGUS_STATE_RUNNING => str "RUNNING"
  | ARGUS_STATE_DECELERATING => str "DECELERATING"
  | ARGUS_STATE_HOLDING => str "HOLDING"
  | ARGUS_STATE_EMERGENCY_STOPPED => str "EMERGENCY_STOPPED"
  | ARGUS_STATE_RECOVERING => str "RECOVERING"
  | ARGUS_STATE_FAULTED => str "FAULTED"
  end.

(** The operations table is not a field here but an argument of the operations. *)
Record argus_state_core_t := StateCore {
  machine_state : argus_machine_state_t;
  configured_target_rpm_milli : Z;
  trajectory_target_rpm_milli : Z;
  applied_rpm_milli : Z;
  generated_rpm_milli : Z;
  generated_step_count : Z;
  requested_forward : bool;
  applied_forward : bool;
  driver_enabled : bool;
  ramp_active : bool;
  estop_latched : bool;
  estop_reset_destination : argus_machine_state_t;
  fault_code : Z;
  command_generation : Z;
  last_rejection_reason : bytes
}.
#[export] Instance eta_state_core : Eta argus_state_core_t := fun c =>
  StateCore (machine_state c) (configured_target_rpm_milli c) (trajectory_target_rpm_milli c)
    (applied_rpm_milli c) (generated_rpm_milli c) (generated_step_count c)
    (requested_forward c) (applied_forward c) (driver_enabled c) (ramp_active c)
    (estop_latched c) (estop_reset_destination c) (fault_code c) (command_generation c)
    (last_rejection_reason c).

Record argus_state_snapshot_t := StateSnapshot {
  ss_machine_state : argus_machine_state_t;
  ss_configured_target_rpm_milli : Z;
  ss_trajectory_target_rpm_milli : Z;
  ss_applied_rpm_milli : Z;
  ss_generated_rpm_milli : Z;
  ss_generated_step_count : Z;
  ss_requested_forward : bool;
  ss_applied_forward : bool;
  ss_driver_enabled : bool;
  ss_ramp_active : bool;
  ss_estop_latched : bool;
  ss_fault_code : Z;
  ss_command_generation : Z;
  ss_feedback_available : bool;
  ss_last_rejection_reason : bytes
}.

Definition set_core_rejection_reason (reason : bytes) (core : argus_state_core_t)
    : argus_state_core_t := core <| last_rejection_reason := strlcpy reason 64 |>.

Definition argus_state_core_init : argus_state_core_t := {|
  machine_state := ARGUS_STATE_UNLOCKED;
  configured_target_rpm_milli := 0; trajectory_target_rpm_milli := 0;
  applied_rpm_milli := 0; generated_rpm_milli := 0; generated_step_count := 0;
  requested_forward := true; applied_forward := false; driver_enabled := false;
  ramp_active := false; estop_latched := false;
  estop_reset_destination := ARGUS_STATE_HOLDING;
  fault_code := 0; command_generation := 1;
  last_rejection_reason := str "None" |}.

(** ** The pure core *)

Section Core.
Context {M : Type}.
(** The number an [esp_err_t] has as [fault_code]. *)
Context (err_code : esp_err_t -> Z).

Definition lower_op : Type := argus_state_core_t * M -> esp_err_t * (argus_state_core_t * M).

(** A NULL entry of the table is [None]. *)
Record argus_motion_ops_t := MotionOps {
  op_enable_driver : option lower_op;
  op_disable_driver : option lower_op;
  op_set_direction : option (bool -> lower_op);
  op_set_target_rate : option (Z -> bool -> lower_op);
  op_stop_immediate : option lower_op;
  op_stop_normal : option lower_op;
  op_recover : option lower_op;
  op_get_error : option (argus_state_core_t * M -> Z * (argus_state_core_t * M))
}.

Context (ops : argus_motion_ops_t).

Definition core_op : Type := argus_state_core_t * M -> esp_err_t * (argus_state_core_t * M).

(** Call an entry of the table; a missing entry leaves [err] at [ESP_OK]. *)
Definition call (o : option lower_op) : core_op :=
  fun cm => match o with Some f => f cm | None => (ESP_OK, cm) end.

Definition reject (e : esp_err_t) (reason : bytes) : core_op :=
  fun '(c, x) => (e, (set_core_rejection_reason reason c, x)).

(** [machine_state = FAULTED; fault_code = err; reason]. *)
Definition fault (e : esp_err_t) (reason : bytes) : core_op :=
  fun '(c, x) =>
    (e, (set_core_rejection_reason reason
           (c <| machine_state := ARGUS_STATE_FAULTED |> <| fault_code := u32 (err_code e) |>), x)).

Definition argus_state_core_set_target (rpm_milli : Z) (forward : bool) : core_op :=
  fun '(c, x) =>
    if estop_latched c || is_state (machine_state c) ARGUS_STATE_EMERGENCY_STOPPED then
      reject ESP_ERR_INVALID_STATE (str "Cannot set target while EMERGENCY_STOPPED") (c, x)
    else if is_state (machine_state c) ARGUS_STATE_FAULTED then
      reject ESP_ERR_INVALID_STATE (str "Cannot set target while FAULTED") (c, x)
    else if is_state (machine_state c) ARGUS_STATE_DECELERATING then
      reject ESP_ERR_INVALID_STATE (str "Cannot set target while DECELERATING") (c, x)
    else if is_state (machine_state c) ARGUS_STATE_RECOVERING
            || is_state (machine_state c) ARGUS_STATE_BOOTING then
      reject ESP_ERR_INVALID_STATE (str "Cannot set target during BOOTING/RECOVERING") (c, x)
    else if (rpm_milli <? 0) || (200000 <? rpm_milli) then
      reject ESP_ERR_INVALID_ARG (str "Target RPM out of range [0, 200000]") (c, x)
    else
      let c := c <| configured_target_rpm_milli := rpm_milli |>
                 <| requested_forward := forward |> in
      if is_state (machine_state c) ARGUS_STATE_STARTING
         || is_state (machine_state c) ARGUS_STATE_RUNNING then
        match op_set_target_rate ops with
        | Some f =>
            let '(err, cm) := f rpm_milli forward (c, x) in
            if negb (is_ok err) then fault err (str "set_target_rate failed") cm else (ESP_OK, cm)
        | None => (ESP_OK, (c, x))
        end
      else (ESP_OK, (c, x)).

(** The revalidation after a lower-layer call. *)
Definition preempted (entry_gen : Z) (c : argus_state_core_t) : bool :=
  negb (command_generation c =? entry_gen) || estop_latched c
  || is_state (machine_state c) ARGUS_STATE_EMERGENCY_STOPPED.

Definition argus_state_core_start : core_op :=
  fun '(c, x) =>
    if estop_latched c || is_state (machine_state c) ARGUS_STATE_EMERGENCY_STOPPED then
      reject ESP_ERR_INVALID_STATE (str "Cannot start while EMERGENCY_STOPPED") (c, x)
    else if is_state (machine_state c) ARGUS_STATE_FAULTED then
      reject ESP_ERR_INVALID_STATE (str "Cannot start while FAULTED") (c, x)
    else if is_state (machine_state c) ARGUS_STATE_DECELERATING then
      reject ESP_ERR_INVALID_STATE (str "Cannot start while DECELERATING") (c, x)
    else if is_state (machine_state c) ARGUS_STATE_STARTING
            || is_state (machine_state c) ARGUS_STATE_RUNNING then (ESP_OK, (c, x))
    else if configured_target_rpm_milli c <=? 0 then
      reject ESP_ERR_INVALID_STATE (str "Cannot start with zero setpoint") (c, x)
    else
      let entry_gen := command_generation c in
      let target := configured_target_rpm_milli c in
      let fwd := requested_forward c in
      let c := c <| machine_state := ARGUS_STATE_STARTING |> in
      let '(err, cm) := call (op_enable_driver ops) (c, x) in
      if preempted entry_gen cm.1 then
        reject ESP_ERR_INVALID_STATE (str "Start aborted: E-stop latched during driver enable") cm
      else
        let '(err, cm) :=
          if is_ok err then
            match op_set_target_rate ops with Some f => f target fwd cm | None => (err, cm) end
          else (err, cm) in
        if preempted entry_gen cm.1 then
          reject ESP_ERR_INVALID_STATE (str "Start aborted: E-stop latched during rate set") cm
        else if negb (is_ok err) then
          fault err (str "Lower layer enable/rate call failed during start") cm
        else (err, cm).

Definition argus_state_core_stop_normal : core_op :=
  fun '(c, x) =>
    if is_state (machine_state c) ARGUS_STATE_EMERGENCY_STOPPED
       || is_state (machine_state c) ARGUS_STATE_FAULTED then
      reject ESP_ERR_INVALID_STATE (str "Cannot stop_normal while EMERGENCY_STOPPED/FAULTED") (c, x)
    else if is_state (machine_state c) ARGUS_STATE_UNLOCKED
            || is_state (machine_state c) ARGUS_STATE_HOLDING
            || is_state (machine_state c) ARGUS_STATE_DECELERATING then (ESP_OK, (c, x))
    else
      let c := c <| machine_state := ARGUS_STATE_DECELERATING |> in
      let '(err, cm) := call (op_stop_normal ops) (c, x) in
      if negb (is_ok err) then fault err (str "stop_normal lower-layer call failed") cm
      else (err, cm).

Definition argus_state_core_unlock : core_op :=
  fun '(c, x) =>
    if is_state (machine_state c) ARGUS_STATE_STARTING
       || is_state (machine_state c) ARGUS_STATE_RUNNING
       || is_state (machine_state c) ARGUS_STATE_DECELERATING then
      reject ESP_ERR_INVALID_STATE (str "Cannot unlock while motion is active/decelerating") (c, x)
    else if is_state (machine_state c) ARGUS_STATE_EMERGENCY_STOPPED
            || is_state (machine_state c) ARGUS_STATE_FAULTED then
      reject ESP_ERR_INVALID_STATE (str "Cannot unlock while EMERGENCY_STOPPED/FAULTED") (c, x)
    else if is_state (machine_state c) ARGUS_STATE_UNLOCKED then (ESP_OK, (c, x))
    else call (op_disable_driver ops) (c <| machine_state := ARGUS_STATE_UNLOCKED |>, x).

(** The assignments of an emergency stop before the lower layer is called. *)
Definition estop_latch (c : argus_state_core_t) : argus_state_core_t :=
  c <| estop_reset_destination :=
         if is_state (machine_state c) ARGUS_STATE_UNLOCKED
         then ARGUS_STATE_UNLOCKED else ARGUS_STATE_HOLDING |>
    <| estop_latched := true |>
    <| command_generation := u32 (command_generation c + 1) |>
    <| machine_state := ARGUS_STATE_EMERGENCY_STOPPED |>.

Definition argus_state_core_estop : core_op :=
  fun '(c, x) =>
    if is_state (machine_state c) ARGUS_STATE_EMERGENCY_STOPPED then (ESP_OK, (c, x))
    else let '(_, cm) := call (op_stop_immediate ops) (estop_latch c, x) in (ESP_OK, cm).

Definition argus_state_core_reset_estop : core_op :=
  fun '(c, x) =>
    if negb (is_state (machine_state c) ARGUS_STATE_EMERGENCY_STOPPED) then
      reject ESP_ERR_INVALID_STATE
        (str "Cannot reset E-stop when not in EMERGENCY_STOPPED state") (c, x)
    else (ESP_OK, (c <| estop_latched := false |>
                     <| machine_state := estop_reset_destination c |>, x)).

Definition argus_state_core_recover : core_op :=
  fun '(c, x) =>
    if is_state (machine_state c) ARGUS_STATE_STARTING
       || is_state (machine_state c) ARGUS_STATE_RUNNING
       || is_state (machine_state c) ARGUS_STATE_DECELERATING then
      reject ESP_ERR_INVALID_STATE (str "Cannot recover while motion active") (c, x)
    else
      let entry_gen := command_generation c in
      let c := c <| machine_state := ARGUS_STATE_RECOVERING |> in
      let '(rec_err, cm) := call (op_recover ops) (c, x) in
      if preempted entry_gen cm.1 then
        reject ESP_ERR_INVALID_STATE (str "Recovery aborted: E-stop latched during recovery") cm
      else
        let '(err_val, (c, x)) :=
          match op_get_error ops with Some f => f cm | None => (0, cm) end in
        if is_ok rec_err && (err_val =? 0) then
          (rec_err, (c <| fault_code := 0 |> <| machine_state := ARGUS_STATE_UNLOCKED |>, x))
        else
          let c := c <| machine_state := ARGUS_STATE_FAULTED |>
                     <| fault_code := if negb (err_val =? 0) then err_val
                                      else u32 (err_code rec_err) |> in
          (rec_err, (set_core_rejection_reason
                       (str "Recovery failed to clear lower-layer error") c, x)).

Definition argus_state_core_evaluate_periodic (applied_rpm generated_rpm : Z)
    (ramp : bool) (latched_error : Z) (c : argus_state_core_t) : argus_state_core_t :=
  let c :=
    if negb (latched_error =? 0) && negb (is_state (machine_state c) ARGUS_STATE_FAULTED)
       && negb (is_state (machine_state c) ARGUS_STATE_RECOVERING)
    then c <| fault_code := latched_error |> <| machine_state := ARGUS_STATE_FAULTED |>
    else c in
  let c :=
    if is_state (machine_state c) ARGUS_STATE_STARTING
       && (applied_rpm =? configured_target_rpm_milli c)
       && (generated_rpm =? configured_target_rpm_milli c) && negb ramp
    then c <| machine_state := ARGUS_STATE_RUNNING |> else c in
  if is_state (machine_state c) ARGUS_STATE_DECELERATING
     && (applied_rpm =? 0) && (generated_rpm =? 0)
  then c <| machine_state := ARGUS_STATE_HOLDING |> else c.

Definition argus_state_core_get_snapshot (c : argus_state_core_t) : argus_state_snapshot_t :=
  {| ss_machine_state := machine_state c;
     ss_configured_target_rpm_milli := configured_target_rpm_milli c;
     ss_trajectory_target_rpm_milli := trajectory_target_rpm_milli c;
     ss_applied_rpm_milli := applied_rpm_milli c;
     ss_generated_rpm_milli := generated_rpm_milli c;
     ss_generated_step_count := generated_step_count c;
     ss_requested_forward := requested_forward c;
     ss_applied_forward := applied_forward c;
     ss_driver_enabled := driver_enabled c;
     ss_ramp_active := ramp_active c;
     ss_estop_latched := estop_latched c;
     ss_fault_code := fault_code c;
     ss_command_generation := command_generation c;
     ss_feedback_available := false;
     ss_last_rejection_reason := strlcpy (last_rejection_reason c) 64 |}.

(** ** The production manager

    [take] is the answer of the 100 ms wait on [s_command_mutex]; the wait on
    [s_state_mutex] is unbounded. *)

Definition with_command_mutex (take : bool) (op : core_op) : core_op :=
  fun cm => if negb take then (ESP_ERR_TIMEOUT, cm) else op cm.

Definition argus_state_mgr_set_target (take : bool) (rpm_milli : Z) (forward : bool) : core_op :=
  with_command_mutex take (argus_state_core_set_target rpm_milli forward).
Definition argus_state_mgr_start (take : bool) : core_op :=
  with_command_mutex take argus_state_core_start.
Definition argus_state_mgr_stop_normal (take : bool) : core_op :=
  with_command_mutex take argus_state_core_stop_normal.
Definition argus_state_mgr_unlock (take : bool) : core_op :=
  with_command_mutex take argus_state_core_unlock.
Definition argus_state_mgr_estop : core_op := argus_state_core_estop.
Definition argus_state_mgr_reset_estop (take : bool) : core_op :=
  with_command_mutex take argus_state_core_reset_estop.
Definition argus_state_mgr_recover (take : bool) : core_op :=
  with_command_mutex take argus_state_core_recover.
End Core.

Arguments argus_motion_ops_t : clear implicits.
Arguments lower_op : clear implicits.
Arguments core_op : clear implicits.

(** ** The production table and snapshots *)

(** A lower-layer call that does not touch the core. *)
Definition aside {M : Type} (f : M -> esp_err_t * M) : lower_op M :=
  fun '(c, x) => let '(err, x) := f x in (err, (c, x)).

(** The numbers of [argus_step_gen_error_t]. *)
Definition step_gen_error_code (e : argus_step_gen_error_t) : Z :=
  match e with
  | ARGUS_STEP_GEN_ERROR_NONE => 0
  | ARGUS_STEP_GEN_ERROR_INIT_FAILED => 1
  | ARGUS_STEP_GEN_ERROR_TIMING_UPDATE_FAILED => 2
  | ARGUS_STEP_GEN_ERROR_UNVERIFIED_ENABLE => 3
  end.

Section Production.
Context {G E : Type} `{!StepGenerator G E}.

(** A trajectory operation as an entry of the table. *)
Definition prod_op (f : traj_state -> G -> esp_err_t * traj_state * G)
    : lower_op (traj_state * G) :=
  aside (fun '(t, g) => let '(err, t, g) := f t g in (err, (t, g))).

(** [e] and [e'] are the hardware answers of the call. *)
Definition prod_enable_driver (e : E) := prod_op (argus_trajectory_enable_driver e).
Definition prod_disable_driver (e : E) := prod_op (argus_trajectory_unlock e).
Definition prod_set_direction (e : E) (fwd : bool) :=
  prod_op (fun t g => let '(err, g) := gen_set_direction e fwd g in (err, t, g)).
Definition prod_set_target_rate (e : E) (rpm : Z) (fwd : bool) :=
  prod_op (argus_trajectory_set_target_rpm_milli e rpm fwd).
Definition prod_stop_immediate (e : E) := prod_op (argus_trajectory_stop_immediate e).
Definition prod_stop_normal (e : E) := prod_op (argus_trajectory_stop_normal e).
Definition prod_recover (e e' : E) (during : G -> G) :=
  prod_op (argus_trajectory_recover e e' during).
Definition prod_get_error (cm : argus_state_core_t * (traj_state * G))
    : Z * (argus_state_core_t * (traj_state * G)) :=
  (step_gen_error_code (trs_latched_error (argus_trajectory_get_snapshot cm.2.1 cm.2.2)), cm).

Definition s_production_ops (e e' : E) (during : G -> G) : argus_motion_ops_t (traj_state * G) := {|
  op_enable_driver := Some (prod_enable_driver e);
  op_disable_driver := Some (prod_disable_driver e);
  op_set_direction := Some (prod_set_direction e);
  op_set_target_rate := Some (prod_set_target_rate e);
  op_stop_immediate := Some (prod_stop_immediate e);
  op_stop_normal := Some (prod_stop_normal e);
  op_recover := Some (prod_recover e e' during);
  op_get_error := Some prod_get_error
|}.

(** One round of [argus_state_mgr_task]; [take] is the answer of the 10 ms wait. *)
Definition argus_state_mgr_task (take : bool) (cm : argus_state_core_t * (traj_state * G))
    : argus_state_core_t * (traj_state * G) :=
  if negb take then cm
  else
    let snap := argus_trajectory_get_snapshot cm.2.1 cm.2.2 in
    (argus_state_core_evaluate_periodic (trs_applied_rpm_milli snap) (trs_generated_rpm_milli snap)
       (trs_ramp_active snap) (step_gen_error_code (trs_latched_error snap)) cm.1, cm.2).
End Production.

Definition argus_state_mgr_get_snapshot (traj : argus_trajectory_snapshot_t)
    (step : argus_step_gen_snapshot_t) (c : argus_state_core_t) : argus_state_snapshot_t :=
  let s := argus_state_core_get_snapshot c in
  let latched := step_gen_error_code (trs_latched_error traj) in
  {| ss_machine_state := ss_machine_state s;
     ss_configured_target_rpm_milli := ss_configured_target_rpm_milli s;
     ss_trajectory_target_rpm_milli := trs_target_rpm_milli traj;
     ss_applied_rpm_milli := trs_applied_rpm_milli traj;
     ss_generated_rpm_milli := sgs_generated_rpm_milli step;
     ss_generated_step_count := sgs_generated_step_count step;
     ss_requested_forward := ss_requested_forward s;
     ss_applied_forward := trs_applied_forward traj;
     ss_driver_enabled := sgs_driver_enabled step;
     ss_ramp_active := trs_ramp_active traj;
     ss_estop_latched := ss_estop_latched s;
     ss_fault_code := if (ss_fault_code s =? 0) && negb (latched =? 0) then latched
                      else ss_fault_code s;
     ss_command_generation := ss_command_generation s;
     ss_feedback_available := ss_feedback_available s;
     ss_last_rejection_reason := ss_last_rejection_reason s |}.

(** ** Commands *)

Inductive sm_cmd :=
| CSetTarget (rpm_milli : Z) (forward : bool)
| CStart
| CStop
| CUnlock
| CEstop
| CResetEstop
| CRecover
| CEvaluate (applied generated : Z) (ramp : bool) (latched_error : Z).

Section Theorems.
Context {M : Type} (err_code : esp_err_t -> Z) (ops : argus_motion_ops_t M).

Definition sm_exec (cmd : sm_cmd) (cm : argus_state_core_t * M)
    : esp_err_t * (argus_state_core_t * M) :=
  match cmd with
  | CSetTarget r f => argus_state_core_set_target err_code ops r f cm
  | CStart => argus_state_core_start err_code ops cm
  | CStop => argus_state_core_stop_normal err_code ops cm
  | CUnlock => argus_state_core_unlock ops cm
  | CEstop => argus_state_core_estop ops cm
  | CResetEstop => argus_state_core_reset_estop cm
  | CRecover => argus_state_core_recover err_code ops cm
  | CEvaluate a g r e => (ESP_OK, (argus_state_core_evaluate_periodic a g r e cm.1, cm.2))
  end.

Definition sm_run (cmds : list sm_cmd) (cm : argus_state_core_t * M) : argus_state_core_t * M :=
  foldl (fun cm cmd => (sm_exec cmd cm).2) cm cmds.

(** What a lower-layer call may do to the core behind the caller's back: nothing,
    or an emergency stop. *)
Definition benign (f : lower_op M) : Prop :=
  forall c x, (f (c, x)).2.1 = c \/
    (machine_state c <> ARGUS_STATE_EMERGENCY_STOPPED /\ (f (c, x)).2.1 = estop_latch c).

Record benign_ops : Prop := {
  benign_enable f : op_enable_driver ops = Some f -> benign f;
  benign_disable f : op_disable_driver ops = Some f -> benign f;
  benign_rate f r d : op_set_target_rate ops = Some f -> benign (f r d);
  benign_stop_immediate f : op_stop_immediate ops = Some f -> benign f;
  benign_stop_normal f : op_stop_normal ops = Some f -> benign f;
  benign_recover f : op_recover ops = Some f -> benign f;
  benign_get_error f cm : op_get_error ops = Some f -> (f cm).2.1 = cm.1
}.

Context (Hops : benign_ops).

Record sm_inv (c : argus_state_core_t) : Prop := {
  si_latched : estop_latched c = true ->
    machine_state c <> ARGUS_STATE_STARTING /\ machine_state c <> ARGUS_STATE_RUNNING;
  si_estop : machine_state c = ARGUS_STATE_EMERGENCY_STOPPED -> estop_latched c = true;
  si_target : 0 <= configured_target_rpm_milli c <= 200000;
  si_dest : estop_reset_destination c = ARGUS_STATE_UNLOCKED \/
            estop_reset_destination c = ARGUS_STATE_HOLDING;
  si_gen : is_u32 (command_generation c)
}.

Lemma call_benign (o : option (lower_op M)) c x :
  (forall f, o = Some f -> benign f) ->
  (call o (c, x)).2.1 = c \/
  (machine_state c <> ARGUS_STATE_EMERGENCY_STOPPED /\ (call o (c, x)).2.1 = estop_latch c).
Proof. intros H. destruct o as [f|]; cbn; [by apply H|by left]. Qed.

Lemma estop_latch_inv c : sm_inv c -> sm_inv (estop_latch c).
Proof.
  intros []. split; cbn; auto with argus; try done. case_match; auto.
Qed.

Lemma preempted_latch c c' : is_u32 (command_generation c) ->
  c' = c \/ (machine_state c <> ARGUS_STATE_EMERGENCY_STOPPED /\ c' = estop_latch c) ->
  preempted (command_generation c) c' = false -> c' = c.
Proof.
  intros Hg [->|[_ ->]]; [done|]. unfold preempted. cbn.
  destruct (Z.eqb_spec (u32 (command_generation c + 1)) (command_generation c)) as [He|]; [|done].
  by apply u32_succ_ne in He.
Qed.

Ltac is_state_cases :=
  repeat match goal with
  | H : is_state _ _ = true |- _ => apply is_state_true in H
  | H : is_state _ _ = false |- _ => apply is_state_false in H
  | H : _ || _ = true |- _ => apply orb_true_iff in H
  end.

Lemma reason_inv r c : sm_inv c -> sm_inv (set_core_rejection_reason r c).
Proof. intros []. by split. Qed.

Lemma state_inv c s : sm_inv c -> s <> ARGUS_STATE_EMERGENCY_STOPPED ->
  s <> ARGUS_STATE_STARTING -> s <> ARGUS_STATE_RUNNING -> sm_inv (c <| machine_state := s |>).
Proof. intros []. by split. Qed.

Lemma fault_inv e r (cm : argus_state_core_t * M) : sm_inv cm.1 -> sm_inv (fault err_code e r cm).2.1.
Proof. destruct cm as [c x]. intros []. by split. Qed.

Lemma reject_inv e r (cm : argus_state_core_t * M) : sm_inv cm.1 -> sm_inv (reject e r cm).2.1.
Proof. destruct cm as [c x]. intros []. by split. Qed.

Lemma benign_inv c c' : sm_inv c ->
  c' = c \/ (machine_state c <> ARGUS_STATE_EMERGENCY_STOPPED /\ c' = estop_latch c) -> sm_inv c'.
Proof. intros H [->|[_ ->]]; auto using estop_latch_inv. Qed.

Lemma set_target_inv r f cm : sm_inv cm.1 -> sm_inv (argus_state_core_set_target err_code ops r f cm).2.1.
Proof.
  destruct cm as [c x]. intros H. unfold argus_state_core_set_target.
  repeat (case_match; [by apply (reject_inv _ _ (c, x))|]). b2p.
  set (c1 := c <| configured_target_rpm_milli := r |> <| requested_forward := f |>).
  assert (Hc1 : sm_inv c1) by (destruct H; split; cbn; auto).
  case_match; [|done]. case_match eqn:Hf; [|done].
  pose proof (benign_inv _ _ Hc1 (benign_rate Hops _ r f Hf c1 x)) as Hb.
  destruct (l r f (c1, x)) as [err cm']. case_match; [by apply fault_inv|done].
Qed.

Lemma start_inv cm : sm_inv cm.1 -> sm_inv (argus_state_core_start err_code ops cm).2.1.
Proof.
  destruct cm as [c x]. intros H. unfold argus_state_core_start.
  case_match eqn:Hl; [by apply (reject_inv _ _ (c, x))|].
  repeat (case_match; [first [by apply (reject_inv _ _ (c, x)) | done]|]).
  b2p.
  set (c1 := c <| machine_state := ARGUS_STATE_STARTING |>).
  assert (Hc1 : sm_inv c1) by (destruct H; split; cbn; auto; congruence).
  pose proof (call_benign (op_enable_driver ops) c1 x (benign_enable Hops)) as Hb.
  destruct (call (op_enable_driver ops) (c1, x)) as [err [c2 x2]]. cbn [fst snd] in Hb.
  case_match eqn:Hp; [apply reject_inv; by eapply benign_inv|].
  apply preempted_latch in Hb; [|apply Hc1|done]. subst c2.
  set (p := if is_ok err then _ else _).
  assert (Hp2 : sm_inv p.2.1).
  { unfold p. case_match; [|done]. case_match eqn:Hf; [|done].
    eapply benign_inv; [exact Hc1|]. by apply (benign_rate Hops). }
  destruct p as [err' cm']. cbn in Hp2.
  case_match; [by apply reject_inv|]. case_match; [by apply fault_inv|done].
Qed.

Lemma sm_exec_inv cmd cm : sm_inv cm.1 -> sm_inv (sm_exec cmd cm).2.1.
Proof.
  intros H. destruct cmd; cbn [sm_exec].
  - by apply set_target_inv.
  - by apply start_inv.
  - destruct cm as [c x]. unfold argus_state_core_stop_normal.
    repeat (case_match; [first [by apply (reject_inv _ _ (c, x)) | done]|]).
    pose proof (call_benign (op_stop_normal ops) (c <| machine_state := ARGUS_STATE_DECELERATING |>) x
      (benign_stop_normal Hops)) as Hb.
    apply benign_inv in Hb; [|by apply state_inv].
    destruct (call _ _) as [err cm']. case_match; [by apply fault_inv|done].
  - destruct cm as [c x]. unfold argus_state_core_unlock.
    repeat (case_match; [first [by apply (reject_inv _ _ (c, x)) | done]|]).
    eapply benign_inv; [|apply call_benign, (benign_disable Hops)]. by apply state_inv.
  - destruct cm as [c x]. unfold argus_state_core_estop. case_match; [done|].
    pose proof (call_benign (op_stop_immediate ops) (estop_latch c) x (benign_stop_immediate Hops)) as Hb.
    apply benign_inv in Hb; [|by apply estop_latch_inv]. by destruct (call _ _).
  - destruct cm as [c x]. unfold argus_state_core_reset_estop.
    case_match; [by apply (reject_inv _ _ (c, x))|]. cbn in *.
    destruct H. split; cbn; auto; intros He; destruct si_dest0; congruence.
  - destruct cm as [c x]. unfold argus_state_core_recover.
    case_match; [by apply (reject_inv _ _ (c, x))|].
    set (c1 := c <| machine_state := ARGUS_STATE_RECOVERING |>).
    assert (Hc1 : sm_inv c1) by (by apply state_inv).
    pose proof (call_benign (op_recover ops) c1 x (benign_recover Hops)) as Hb.
    destruct (call (op_recover ops) (c1, x)) as [err [c2 x2]]. cbn [fst snd] in Hb.
    case_match eqn:Hp; [apply reject_inv; by eapply benign_inv|].
    apply preempted_latch in Hb; [|apply Hc1|done]. subst c2.
    set (p := match op_get_error ops with Some _ => _ | None => _ end).
    assert (Hp2 : p.2.1 = c1).
    { unfold p. case_match eqn:Hf; [|done]. exact (benign_get_error Hops _ (c1, x2) Hf). }
    destruct p as [ev [c3 x3]]. cbn in Hp2. subst c3.
    destruct Hc1. case_match; split; cbn; auto; done.
  - destruct cm as [c x]. cbn in *. unfold argus_state_core_evaluate_periodic.
    destruct H. repeat case_match; b2p; is_state_cases; split; cbn in *; auto; try congruence.
    all: intros; intuition congruence.
Qed.

Lemma sm_run_inv cmds cm : sm_inv cm.1 -> sm_inv (sm_run cmds cm).1.
Proof.
  revert cm. induction cmds as [|cmd cmds IH]; intros cm H; [done|].
  apply IH. by apply sm_exec_inv.
Qed.

Lemma init_inv : sm_inv argus_state_core_init.
Proof. split; cbn; unfold is_u32; try done; try lia; by right. Qed.

Lemma call_latched (o : option (lower_op M)) c x :
  (forall f, o = Some f -> benign f) -> estop_latched c = true ->
  estop_latched (call o (c, x)).2.1 = true.
Proof. intros Hb H. by destruct (call_benign o c x Hb) as [->|[_ ->]]. Qed.

(** The latch is cleared by nothing but a reset in EMERGENCY_STOPPED. *)
Lemma latched_exec cmd cm :
  estop_latched cm.1 = true ->
  estop_latched (sm_exec cmd cm).2.1 = true \/
  (cmd = CResetEstop /\ machine_state cm.1 = ARGUS_STATE_EMERGENCY_STOPPED).
Proof.
  destruct cm as [c x]. cbn. intros H. destruct cmd; cbn [sm_exec].
  - left. unfold argus_state_core_set_target. by rewrite H.
  - left. unfold argus_state_core_start. by rewrite H.
  - left. unfold argus_state_core_stop_normal. repeat (case_match; [exact H|]).
    cbn zeta. pose proof (call_latched (op_stop_normal ops) (c <| machine_state := ARGUS_STATE_DECELERATING |>) x
      (benign_stop_normal Hops) H) as Hc.
    destruct (call _ _) as [err [c2 x2]]. cbn in Hc. case_match; exact Hc.
  - left. unfold argus_state_core_unlock. repeat (case_match; [exact H|]).
    by apply call_latched; [apply (benign_disable Hops)|].
  - left. unfold argus_state_core_estop. case_match; [exact H|].
    pose proof (call_latched (op_stop_immediate ops) (estop_latch c) x (benign_stop_immediate Hops) eq_refl).
    by destruct (call _ _).
  - unfold argus_state_core_reset_estop. case_match eqn:Hs; [by left|right]. b2p.
    is_state_cases. done.
  - left. unfold argus_state_core_recover. case_match; [exact H|].
    cbn zeta. pose proof (call_latched (op_recover ops) (c <| machine_state := ARGUS_STATE_RECOVERING |>) x
      (benign_recover Hops) H) as Hc.
    destruct (call _ _) as [err [c2 x2]]. cbn in *.
    unfold preempted. cbn. rewrite Hc, orb_true_r. done.
  - left. cbn. unfold argus_state_core_evaluate_periodic. by repeat case_match.
Qed.

(** No [reset_estop] of the sequence is accepted: every one that occurs, executed where
    it occurs, returns something other than [ESP_OK]. *)
Fixpoint resets_refused (cmds : list sm_cmd) (cm : argus_state_core_t * M) : Prop :=
  match cmds with
  | [] => True
  | cmd :: rest =>
      (cmd = CResetEstop -> (sm_exec cmd cm).1 <> ESP_OK) /\ resets_refused rest (sm_exec cmd cm).2
  end.

Lemma reset_accepted_iff cm :
  (sm_exec CResetEstop cm).1 = ESP_OK <-> machine_state cm.1 = ARGUS_STATE_EMERGENCY_STOPPED.
Proof.
  destruct cm as [c x]. cbn. unfold argus_state_core_reset_estop.
  split; [case_match eqn:He; [done|]; b2p; is_state_cases; done|intros ->; done].
Qed.

Lemma latched_run cmds cm :
  estop_latched cm.1 = true -> resets_refused cmds cm -> estop_latched (sm_run cmds cm).1 = true.
Proof.
  revert cm. induction cmds as [|cmd cmds IH]; intros cm H Hc; [done|]. destruct Hc as [Hr Hc].
  apply IH; [|done]. destruct (latched_exec cmd cm H) as [|[-> Hs]]; [done|].
  by destruct (Hr eq_refl); apply reset_accepted_iff.
Qed.

Lemma estop_run_latched cmds x : 
  estop_latched (sm_run (cmds ++ [CEstop]) (argus_state_core_init, x)).1 = true.
Proof.
  unfold sm_run. rewrite foldl_app. cbn [foldl].
  set (cm1 := foldl _ _ cmds).
  assert (H1 : sm_inv cm1.1) by (by apply (sm_run_inv cmds), init_inv).
  destruct cm1 as [c y]. cbn [sm_exec]. unfold argus_state_core_estop.
  case_match eqn:He; [is_state_cases; by apply (si_estop _ H1)|].
  pose proof (call_latched (op_stop_immediate ops) (estop_latch c) y (benign_stop_immediate Hops) eq_refl).
  by destruct (call _ _).
Qed.

(** C3: after an emergency stop, on every sequence of commands and telemetry rounds in
    which no [reset_estop] is accepted (each one that occurs is refused), whatever error
    codes the lower layer answers: the latch stays set, the machine is never STARTING or RUNNING, and
    [start] and [set_target] are refused without any call of the lower layer. *)
Theorem estop_latch_blocks_motion cmds0 cmds x0 :
  resets_refused cmds (sm_run (cmds0 ++ [CEstop]) (argus_state_core_init, x0)) ->
  let cm := sm_run cmds (sm_run (cmds0 ++ [CEstop]) (argus_state_core_init, x0)) in
  estop_latched cm.1 = true /\
  machine_state cm.1 <> ARGUS_STATE_STARTING /\ machine_state cm.1 <> ARGUS_STATE_RUNNING /\
  (forall r f, (sm_exec (CSetTarget r f) cm).1 = ESP_ERR_INVALID_STATE /\
               (sm_exec (CSetTarget r f) cm).2.2 = cm.2) /\
  (sm_exec CStart cm).1 = ESP_ERR_INVALID_STATE /\ (sm_exec CStart cm).2.2 = cm.2.
Proof.
  intros Hc cm.
  assert (Hinv : sm_inv cm.1) by (by apply sm_run_inv, sm_run_inv, init_inv).
  assert (Hl : estop_latched cm.1 = true) by (apply latched_run; [apply estop_run_latched|done]).
  split; [done|]. destruct (si_latched _ Hinv Hl). split; [done|]. split; [done|].
  destruct cm as [c x]. cbn in *.
  unfold argus_state_core_set_target, argus_state_core_start. by rewrite Hl.
Qed.

(** Lower-layer calls that leave the core alone, as those of the production table do. *)
Definition quiet (o : option (lower_op M)) : Prop :=
  forall f c x, o = Some f -> (f (c, x)).2.1 = c.

Lemma call_quiet o c x : quiet o -> (call o (c, x)).2.1 = c.
Proof. intros H. destruct o; cbn; [by apply (H _)|done]. Qed.

Definition stranded (c : argus_state_core_t) : Prop :=
  estop_latched c = true /\ machine_state c <> ARGUS_STATE_EMERGENCY_STOPPED.

Lemma stranded_exec cmd cm :
  quiet (op_recover ops) -> quiet (op_disable_driver ops) -> quiet (op_stop_normal ops) ->
  cmd <> CEstop -> stranded cm.1 -> stranded (sm_exec cmd cm).2.1.
Proof.
  destruct cm as [c x]. intros Hr Hd Hs Hne [Hl Hm]. split.
  { by destruct (latched_exec cmd (c, x) Hl) as [|[_ ?]]. }
  cbn in Hl, Hm. destruct cmd; cbn [sm_exec]; try done.
  - unfold argus_state_core_set_target. by rewrite Hl.
  - unfold argus_state_core_start. by rewrite Hl.
  - unfold argus_state_core_stop_normal. repeat (case_match; [exact Hm|]).
    cbn zeta. pose proof (call_quiet _ (c <| machine_state := ARGUS_STATE_DECELERATING |>) x Hs) as Hq.
    destruct (call _ _) as [err [c2 x2]]. cbn in Hq. subst c2. by case_match.
  - unfold argus_state_core_unlock. repeat (case_match; [exact Hm|]). by rewrite call_quiet.
  - unfold argus_state_core_reset_estop. case_match eqn:He; [exact Hm|]. b2p. is_state_cases. done.
  - unfold argus_state_core_recover. case_match; [exact Hm|].
    cbn zeta. pose proof (call_quiet _ (c <| machine_state := ARGUS_STATE_RECOVERING |>) x Hr) as Hq.
    destruct (call _ _) as [err [c2 x2]]. cbn in Hq. subst c2. cbn.
    unfold preempted. cbn. rewrite Hl, orb_true_r. done.
  - cbn. unfold argus_state_core_evaluate_periodic. by repeat case_match.
Qed.

(** C7: [recover] is not refused in EMERGENCY_STOPPED: over a lower layer that does not
    touch the core it calls the lower-layer recovery (which releases the driver), is then
    aborted by its own revalidation because the latch is set, and leaves the machine in
    RECOVERING; from there, on every sequence of commands and telemetry rounds without a
    new emergency stop, the latch stays set and every [reset_estop] is refused. *)
Theorem recover_strands_estop c x cmds :
  machine_state c = ARGUS_STATE_EMERGENCY_STOPPED -> estop_latched c = true ->
  quiet (op_recover ops) -> quiet (op_disable_driver ops) -> quiet (op_stop_normal ops) ->
  Forall (fun cmd => cmd <> CEstop) cmds ->
  let '(err, cm) := argus_state_core_recover err_code ops (c, x) in
  err = ESP_ERR_INVALID_STATE /\ machine_state cm.1 = ARGUS_STATE_RECOVERING /\
  cm.2 = (call (op_recover ops) (c <| machine_state := ARGUS_STATE_RECOVERING |>, x)).2.2 /\
  let cm' := sm_run cmds cm in
  estop_latched cm'.1 = true /\ (sm_exec CResetEstop cm').1 = ESP_ERR_INVALID_STATE.
Proof.
  intros Hm Hl Hr Hd Hs Hc. unfold argus_state_core_recover. rewrite Hm. cbn -[preempted].
  pose proof (call_quiet _ (c <| machine_state := ARGUS_STATE_RECOVERING |>) x Hr) as Hq.
  destruct (call _ _) as [err [c2 x2]]. cbn in Hq. subst c2. cbn -[preempted].
  replace (preempted _ _) with true by (unfold preempted; cbn; by rewrite Hl, orb_true_r).
  cbn. split; [done|]. split; [done|]. split; [done|].
  set (cm := (_, x2)). assert (Hst : stranded cm.1) by done.
  clearbody cm. revert cm Hst. induction Hc as [|cmd cmds Hne _ IH]; intros cm [Hl' Hm'].
  - split; [done|]. cbn. destruct cm as [c' x']. unfold argus_state_core_reset_estop.
    case_match eqn:He; [done|]. b2p. is_state_cases. done.
  - apply IH. by apply stranded_exec.
Qed.

End Theorems.


(** ** The permission matrix

    The nine states are the columns and the seven commands the rows of two tables, one
    for each value of the emergency-stop latch; a cell names what the command does. *)

(** The calls of the lower layer a command can make. *)
Inductive lower_call :=
| LEnable
| LDisable
| LDirection (forward : bool)
| LRate (rpm_milli : Z) (forward : bool)
| LStopImmediate
| LStopNormal
| LRecover.

(** A lower layer with state [M] that does not touch the core: [act] is the answer and
    the effect of a call, [latched] the error it reports. *)
Definition layer {M : Type} (act : lower_call -> M -> esp_err_t * M) (latched : M -> Z)
    : argus_motion_ops_t M :=
  let op call := aside (act call) in
  {| op_enable_driver := Some (op LEnable);
     op_disable_driver := Some (op LDisable);
     op_set_direction := Some (fun d => op (LDirection d));
     op_set_target_rate := Some (fun r d => op (LRate r d));
     op_stop_immediate := Some (op LStopImmediate);
     op_stop_normal := Some (op LStopNormal);
     op_recover := Some (op LRecover);
     op_get_error := Some (fun cm => (latched cm.2, cm)) |}.

Inductive cell :=
| Refused   (** an error; only the recorded reason changes *)
| Nothing   (** accepted with no effect *)
| Store     (** the target and direction are recorded, the motor is left alone *)
| Retarget  (** the same, and the running motor is given the new rate *)
| Launch    (** the driver is enabled, then the rate commanded: STARTING *)
| Brake     (** a controlled stop is commanded: DECELERATING *)
| Release   (** the driver is disabled: UNLOCKED *)
| Latch     (** the emergency stop *)
| Clear     (** the latch is cleared and the retained destination entered *)
| Repair    (** the lower layer recovers: UNLOCKED *)
| Strand.   (** the lower layer recovers, the command fails and leaves RECOVERING *)

(** BOOTING, UNLOCKED, STARTING, RUNNING, DECELERATING, HOLDING, EMERGENCY_STOPPED,
    RECOVERING, FAULTED; [None] for the telemetry round, which is not a command. *)
Definition matrix_row (latched : bool) (cmd : sm_cmd) : option (list cell) :=
  match latched, cmd with
  | false, CSetTarget _ _ =>
      Some [Refused; Store; Retarget; Retarget; Refused; Store; Refused; Refused; Refused]
  | true, CSetTarget _ _ =>
      Some [Refused; Refused; Refused; Refused; Refused; Refused; Refused; Refused; Refused]
  | false, CStart =>
      Some [Launch; Launch; Nothing; Nothing; Refused; Launch; Refused; Launch; Refused]
  | true, CStart =>
      Some [Refused; Refused; Refused; Refused; Refused; Refused; Refused; Refused; Refused]
  | _, CStop =>
      Some [Brake; Nothing; Brake; Brake; Nothing; Nothing; Refused; Brake; Refused]
  | _, CUnlock =>
      Some [Release; Nothing; Refused; Refused; Refused; Release; Refused; Release; Refused]
  | _, CEstop => Some [Latch; Latch; Latch; Latch; Latch; Latch; Nothing; Latch; Latch]
  | _, CResetEstop =>
      Some [Refused; Refused; Refused; Refused; Refused; Refused; Clear; Refused; Refused]
  | false, CRecover =>
      Some [Repair; Repair; Refused; Refused; Refused; Repair; Repair; Repair; Repair]
  | true, CRecover =>
      Some [Strand; Strand; Refused; Refused; Refused; Strand; Strand; Strand; Strand]
  | _, CEvaluate _ _ _ _ => None
  end.

Definition permission_matrix (latched : bool) (cmd : sm_cmd) (s : argus_machine_state_t)
    : option cell :=
  row ← matrix_row latched cmd; nth_error row (Z.to_nat (machine_state_num s)).

Section Matrix.
Context {M : Type} (err_code : esp_err_t -> Z) (act : lower_call -> M -> esp_err_t * M)
  (latched : M -> Z).

(** A lower-layer failure: FAULTED with the error's number. *)
Definition goes_faulted (e : esp_err_t) (c : argus_state_core_t) (x : M)
    (out : esp_err_t * (argus_state_core_t * M)) : Prop :=
  exists reason, out = (e, (c <| machine_state := ARGUS_STATE_FAULTED |>
    <| fault_code := u32 (err_code e) |> <| last_rejection_reason := reason |>, x)).

Definition is_refused (c : argus_state_core_t) (x : M)
    (out : esp_err_t * (argus_state_core_t * M)) : Prop :=
  exists e reason, e <> ESP_OK /\ out = (e, (c <| last_rejection_reason := reason |>, x)).

(** [e] decides between success, with core [c'], and the fault of [c]. *)
Definition settles (e : esp_err_t) (c : argus_state_core_t) (x : M)
    (out : esp_err_t * (argus_state_core_t * M)) : Prop :=
  (e = ESP_OK /\ out = (ESP_OK, (c, x))) \/ (e <> ESP_OK /\ goes_faulted e c x out).

(** What the whole core, the lower layer and the answer are after a command. *)
Definition cell_outcome (v : cell) (cmd : sm_cmd) (c : argus_state_core_t) (x : M)
    (out : esp_err_t * (argus_state_core_t * M)) : Prop :=
  match v with
  | Refused => is_refused c x out
  | Nothing => out = (ESP_OK, (c, x))
  | Store =>
      exists r d, cmd = CSetTarget r d /\
      if decide (0 <= r <= 200000)
      then out = (ESP_OK, (c <| configured_target_rpm_milli := r |> <| requested_forward := d |>, x))
      else is_refused c x out
  | Retarget =>
      exists r d, cmd = CSetTarget r d /\
      if decide (0 <= r <= 200000)
      then let '(e, x') := act (LRate r d) x in
           settles e (c <| configured_target_rpm_milli := r |> <| requested_forward := d |>) x' out
      else is_refused c x out
  | Launch =>
      if decide (0 < configured_target_rpm_milli c)
      then let '(e, x1) := act LEnable x in
           let '(e, x2) := if is_ok e
                           then act (LRate (configured_target_rpm_milli c) (requested_forward c)) x1
                           else (e, x1) in
           settles e (c <| machine_state := ARGUS_STATE_STARTING |>) x2 out
      else is_refused c x out
  | Brake => let '(e, x') := act LStopNormal x in
             settles e (c <| machine_state := ARGUS_STATE_DECELERATING |>) x' out
  | Release => let '(e, x') := act LDisable x in
               out = (e, (c <| machine_state := ARGUS_STATE_UNLOCKED |>, x'))
  | Latch =>
      let x' := (act LStopImmediate x).2 in
      out = (ESP_OK, (c <| machine_state := ARGUS_STATE_EMERGENCY_STOPPED |>
        <| estop_latched := true |>
        <| command_generation := (command_generation c + 1) mod 2 ^ 32 |>
        <| estop_reset_destination :=
             if decide (machine_state c = ARGUS_STATE_UNLOCKED)
             then ARGUS_STATE_UNLOCKED else ARGUS_STATE_HOLDING |>, x'))
  | Clear => out = (ESP_OK, (c <| estop_latched := false |>
                               <| machine_state := estop_reset_destination c |>, x))
  | Repair =>
      let '(e, x') := act LRecover x in
      if decide (e = ESP_OK /\ latched x' = 0)
      then out = (ESP_OK, (c <| fault_code := 0 |> <| machine_state := ARGUS_STATE_UNLOCKED |>, x'))
      else exists reason, out = (e, (c <| machine_state := ARGUS_STATE_FAULTED |>
             <| fault_code := if decide (latched x' = 0) then u32 (err_code e) else latched x' |>
             <| last_rejection_reason := reason |>, x'))
  | Strand =>
      exists reason, out = (ESP_ERR_INVALID_STATE,
        (c <| machine_state := ARGUS_STATE_RECOVERING |>
           <| last_rejection_reason := reason |>, (act LRecover x).2))
  end.

Lemma reject_refused e r c x : e <> ESP_OK -> is_refused c x (reject e r (c, x)).
Proof. intros He. exists e, (strlcpy r 64). by split. Qed.

Lemma settles_fault e r c x :
  settles e c x (if negb (is_ok e) then fault err_code e r (c, x) else (ESP_OK, (c, x))).
Proof.
  destruct (is_ok e) eqn:He; [left; by apply is_ok_true in He|right].
  split; [by intros ->|]. by exists (strlcpy r 64).
Qed.

(** The cell a row names in each state. *)
Definition row_spec (cmd : sm_cmd) (c : argus_state_core_t) (x : M)
    (out : esp_err_t * (argus_state_core_t * M)) : Prop :=
  match permission_matrix (estop_latched c) cmd (machine_state c) with
  | Some v => cell_outcome v cmd c x out
  | None => False
  end.

Lemma row_some cmd c x out (P : Prop) : row_spec cmd c x out ->
  match permission_matrix (estop_latched c) cmd (machine_state c) with
  | Some v => cell_outcome v cmd c x out
  | None => P
  end.
Proof. unfold row_spec. by case_match. Qed.

Ltac cell_cbn := cbn -[reject fault is_refused settles].

(** Unfold the row of the latch and the state at hand. *)
Ltac by_cell c :=
  destruct c as [st ? ? ? ? ? ? ? ? ? lt ? ? ? ?]; unfold row_spec; destruct lt, st;
  match goal with |- context [permission_matrix ?l ?cmd ?s] =>
    let v := eval vm_compute in (permission_matrix l cmd s) in
    change (permission_matrix l cmd s) with v end;
  cell_cbn.

Lemma matrix_set_target r d c x :
  row_spec (CSetTarget r d) c x
    (argus_state_core_set_target err_code (layer act latched) r d (c, x)).
Proof.
  unfold argus_state_core_set_target.
  assert (Hr : (r <? 0) || (200000 <? r) = negb (bool_decide (0 <= r <= 200000))).
  { destruct (Z.ltb_spec r 0), (Z.ltb_spec 200000 r), (bool_decide_reflect (0 <= r <= 200000));
      cell_cbn; try done; lia. }
  by_cell c; try (by apply reject_refused).
  all: exists r, d; split; [done|]; rewrite Hr.
  all: destruct (decide (0 <= r <= 200000)) as [H|H];
    [rewrite bool_decide_eq_true_2 by done|rewrite bool_decide_eq_false_2 by done];
    cell_cbn; try done; try (by apply reject_refused).
  all: destruct (act (LRate r d) x) as [e x1]; apply settles_fault.
Qed.

Lemma matrix_start c x :
  row_spec CStart c x (argus_state_core_start err_code (layer act latched) (c, x)).
Proof.
  unfold argus_state_core_start, preempted.
  by_cell c; try done; try (by apply reject_refused).
  all: destruct (decide (0 < configured_target_rpm_milli0)) as [H|H];
    [rewrite (proj2 (Z.leb_gt _ 0)) by lia|
     rewrite (proj2 (Z.leb_le _ 0)) by lia; by apply reject_refused].
  all: destruct (act LEnable x) as [e x1]; cell_cbn; rewrite Z.eqb_refl; cell_cbn.
  all: destruct (is_ok e) eqn:He; [destruct (act (LRate _ _) x1) as [e2 x2]|];
    cell_cbn; rewrite Z.eqb_refl; cell_cbn.
  all: match goal with |- settles ?e ?c' ?x' _ =>
    pose proof (settles_fault e (str "Lower layer enable/rate call failed during start") c' x') as Hf
    end; revert Hf; match goal with |- context [is_ok ?e] => destruct (is_ok e) eqn:He' end;
    cell_cbn; try done; apply is_ok_true in He'; by rewrite He'.
Qed.

Lemma matrix_stop c x :
  row_spec CStop c x (argus_state_core_stop_normal err_code (layer act latched) (c, x)).
Proof.
  unfold argus_state_core_stop_normal.
  by_cell c; try done; try (by apply reject_refused).
  all: destruct (act _ x) as [e x1]; cell_cbn.
  all: match goal with |- settles ?e ?c' ?x' _ =>
    pose proof (settles_fault e (str "stop_normal lower-layer call failed") c' x') as Hf
    end; revert Hf; match goal with |- context [is_ok ?e] => destruct (is_ok e) eqn:He' end;
    cell_cbn; try done; apply is_ok_true in He'; by rewrite He'.
Qed.

Lemma matrix_unlock c x :
  row_spec CUnlock c x (argus_state_core_unlock (layer act latched) (c, x)).
Proof.
  unfold argus_state_core_unlock.
  by_cell c; try done; try (by apply reject_refused).
  all: by destruct (act _ x).
Qed.

Lemma matrix_estop c x : row_spec CEstop c x (argus_state_core_estop (layer act latched) (c, x)).
Proof.
  unfold argus_state_core_estop, estop_latch.
  by_cell c; try done; by destruct (act _ x).
Qed.

Lemma matrix_reset c x : row_spec CResetEstop c x (argus_state_core_reset_estop (c, x)).
Proof.
  unfold argus_state_core_reset_estop.
  by_cell c; try done; by apply reject_refused.
Qed.

Lemma matrix_recover c x :
  row_spec CRecover c x (argus_state_core_recover err_code (layer act latched) (c, x)).
Proof.
  unfold argus_state_core_recover, preempted.
  by_cell c; try done; try (by apply reject_refused).
  all: destruct (act LRecover x) as [e x1]; cell_cbn; rewrite Z.eqb_refl; cell_cbn; try by eexists.
  all: destruct (decide (e = ESP_OK /\ latched x1 = 0)) as [[-> Hz]|Hn].
  all: try (rewrite Hz; done).
  all: destruct (is_ok e) eqn:He, (Z.eqb_spec (latched x1) 0) as [Hz|Hz]; cell_cbn;
    try (apply is_ok_true in He; by destruct Hn).
  all: eexists; by first [rewrite decide_True by done | rewrite decide_False by done].
Qed.

(** C6: the state core implements the permission matrix, for every command in every
    state and for either value of the emergency-stop latch, whatever the lower layer (one
    that does not touch the core, as the production table's does not) answers: the answer,
    every field of the core and every call of the lower layer are those of the cell. *)
Theorem core_implements_matrix cmd c x :
  match permission_matrix (estop_latched c) cmd (machine_state c) with
  | Some v => cell_outcome v cmd c x (sm_exec err_code (layer act latched) cmd (c, x))
  | None => exists a g r e, cmd = CEvaluate a g r e
  end.
Proof.
  destruct cmd; cbn [sm_exec].
  - apply row_some, matrix_set_target.
  - apply row_some, matrix_start.
  - apply row_some, matrix_stop.
  - apply row_some, matrix_unlock.
  - apply row_some, matrix_estop.
  - apply row_some, matrix_reset.
  - apply row_some, matrix_recover.
  - unfold permission_matrix. destruct (estop_latched c); cbn; eauto.
Qed.

End Matrix.

(** ** The production table *)

Section ProductionBenign.
Context {G E : Type} `{!StepGenerator G E}.

Lemma prod_op_quiet (f : traj_state -> G -> esp_err_t * traj_state * G) c x :
  (prod_op f (c, x)).2.1 = c.
Proof. destruct x as [t g]. cbn. by destruct (f t g) as [[err t'] g']. Qed.

Lemma production_benign (e e' : E) during : benign_ops (s_production_ops e e' during).
Proof.
  split; cbn; intros; simplify_eq; try (intros ? ?; left; apply prod_op_quiet). done.
Qed.
(** The production table is such a layer. *)
Definition production_act (e e' : E) (during : G -> G) (call : lower_call)
    : traj_state * G -> esp_err_t * (traj_state * G) :=
  let op f := fun '(t, g) => let '(err, t, g) := f t g in (err, (t, g)) in
  match call with
  | LEnable => op (argus_trajectory_enable_driver e)
  | LDisable => op (argus_trajectory_unlock e)
  | LDirection fwd => op (fun t g => let '(err, g) := gen_set_direction e fwd g in (err, t, g))
  | LRate rpm fwd => op (argus_trajectory_set_target_rpm_milli e rpm fwd)
  | LStopImmediate => op (argus_trajectory_stop_immediate e)
  | LStopNormal => op (argus_trajectory_stop_normal e)
  | LRecover => op (argus_trajectory_recover e e' during)
  end.

Lemma production_is_layer (e e' : E) during :
  s_production_ops e e' during =
  layer (production_act e e' during)
    (fun x => step_gen_error_code (trs_latched_error (argus_trajectory_get_snapshot x.1 x.2))).
Proof. reflexivity. Qed.
End ProductionBenign.

(** ** Witnesses *)

Definition example_ops : argus_motion_ops_t (traj_state * sg_state) :=
  s_production_ops good_env good_env id.
Definition example_x : traj_state * sg_state :=
  ((argus_trajectory_init (Some (argus_config_init None None None)) true traj_boot).2, example_gen).
Definition code_of (e : esp_err_t) : Z := if is_ok e then 0 else 259.

Lemma estop_latch_blocks_motion_witness :
  let cm := sm_run code_of example_ops [CSetTarget 60000 true; CStart; CEstop]
              (argus_state_core_init, example_x) in
  let cm' := sm_run code_of example_ops [CRecover; CUnlock; CResetEstop; CStart] cm in
  machine_state cm'.1 = ARGUS_STATE_UNLOCKED /\ estop_latched cm'.1 = true /\
  (sm_exec code_of example_ops CStart cm').1 = ESP_ERR_INVALID_STATE.
Proof.
  intros cm cm'. split; [vm_compute; reflexivity|].
  destruct (estop_latch_blocks_motion code_of example_ops (production_benign good_env good_env id)
    [CSetTarget 60000 true; CStart] [CRecover; CUnlock; CResetEstop; CStart] example_x)
    as (H1 & _ & _ & _ & H2 & _).
  - repeat split; vm_compute; congruence.
  - split; [exact H1|exact H2].
Defined.

(** A table whose recovery counts its calls. *)
Definition counting_ops : argus_motion_ops_t Z := {|
  op_enable_driver := None; op_disable_driver := None; op_set_direction := None;
  op_set_target_rate := None; op_stop_immediate := None; op_stop_normal := None;
  op_recover := Some (fun '(c, x) => (ESP_OK, (c, x + 1))); op_get_error := None
|}.

Lemma counting_benign : benign_ops counting_ops.
Proof. split; cbn; try discriminate. intros f [= <-] c x. by left. Qed.

Lemma recover_strands_estop_witness :
  let c := argus_state_core_init <| machine_state := ARGUS_STATE_EMERGENCY_STOPPED |>
             <| estop_latched := true |> in
  let '(err, cm) := argus_state_core_recover code_of counting_ops (c, 0) in
  cm.2 = 1 /\ (sm_exec code_of counting_ops CResetEstop
                 (sm_run code_of counting_ops [CUnlock] cm)).1 = ESP_ERR_INVALID_STATE.
Proof.
  intros c.
  pose proof (recover_strands_estop code_of counting_ops counting_benign c 0 [CUnlock]) as H.
  destruct (argus_state_core_recover code_of counting_ops (c, 0)) as [err cm].
  destruct H as (_ & _ & H1 & _ & H2); try reflexivity;
    [intros ? ? ? [= <-]; reflexivity|discriminate|discriminate|repeat constructor; discriminate|].
  split; [exact H1|exact H2].
Defined.
