(* ===== verification/CmdParser.v ===== *)
(** * Command payload parser and envelopes

    [src/main/argus_cmd_parser.c] and the types of [argus_cmd_parser.h]: the
    strict percentage and boolean parsers for MQTT payloads, and the policy that
    refuses retained control messages. *)

From S2P Require Import Prelude.

Inductive argus_cmd_source_t :=
| ARGUS_CMD_SRC_INTERNAL_SAFETY
| ARGUS_CMD_SRC_CLI_DIAGNOSTIC
| ARGUS_CMD_SRC_MQTT_SUPERVISORY
| ARGUS_CMD_SRC_LOCAL_SERVICE_PORTAL.

#[export] Instance cmd_source_eq_dec : EqDecision argus_cmd_source_t.
Proof. solve_decision. Defined.

Inductive argus_cmd_type_t :=
| ARGUS_CMD_TYPE_SET_TARGET
| ARGUS_CMD_TYPE_START
| ARGUS_CMD_TYPE_STOP_NORMAL
| ARGUS_CMD_TYPE_UNLOCK
| ARGUS_CMD_TYPE_ESTOP
| ARGUS_CMD_TYPE_RESET_ESTOP
| ARGUS_CMD_TYPE_RECOVER.

#[export] Instance cmd_type_eq_dec : EqDecision argus_cmd_type_t.
Proof. solve_decision. Defined.

Record argus_command_envelope_t := Envelope {
  env_source : argus_cmd_source_t;
  env_command_type : argus_cmd_type_t;
  env_authority_generation : Z;
  env_target_rpm_milli : Z;
  env_forward : bool
}.

(** ** Scanning

    A payload is the list of its bytes before the NUL. *)

(** [strtol(p, &endptr, 10)] on a string that starts with a digit: the digits, the
    result saturated to the 32-bit [LONG_MAX], and the rest. *)
Definition strtol (l : bytes) : Z * bytes :=
  (Z.min INT32_MAX (digits_value (take_while isdigit l)), skip_while isdigit l).

(** [None] stands for [ESP_ERR_INVALID_ARG]; a NULL payload is [None]. *)
Definition argus_cmd_parser_speed_pct (payload : option bytes) : option Z :=
  match payload with
  | None => None
  | Some payload =>
      let p := skip_while isspace payload in
      match p with
      | [] => None
      | c :: _ =>
          if negb (isdigit c) then None
          else
            let '(val, endptr) := strtol p in
            match skip_while isspace endptr with
            | [] => if (val <? 0) || (100 <? val) then None else Some val
            | _ => None
            end
      end
  end.

(** The copy into [buf[16]]: at most 15 lower-cased bytes that are not spaces; the
    word and the rest. *)
Fixpoint copy_word (room : nat) (l : bytes) {struct l} : bytes * bytes :=
  match room, l with
  | S room, c :: l' =>
      if isspace c then ([], l)
      else let '(w, rest) := copy_word room l' in (tolower c :: w, rest)
  | _, _ => ([], l)
  end.

Definition argus_cmd_parser_bool (payload : option bytes) : option bool :=
  match payload with
  | None => None
  | Some payload =>
      let p := skip_while isspace payload in
      let '(buf, p) := copy_word 15 p in
      match skip_while isspace p, buf with
      | _ :: _, _ | _, [] => None
      | [], _ =>
          if bool_decide (buf = str "true") || bool_decide (buf = str "1")
             || bool_decide (buf = str "on") then Some true
          else if bool_decide (buf = str "false") || bool_decide (buf = str "0")
                  || bool_decide (buf = str "off") then Some false
          else None
      end
  end.

(** [strstr(haystack, needle) != NULL]. *)
Fixpoint starts_with (needle l : bytes) : bool :=
  match needle, l with
  | [], _ => true
  | c :: needle, d :: l => (c =? d) && starts_with needle l
  | _ :: _, [] => false
  end.

Fixpoint strstr (l needle : bytes) : bool :=
  starts_with needle l || match l with [] => false | _ :: l => strstr l needle end.

Definition argus_cmd_parser_validate_control_message (topic : option bytes) (is_retained : bool)
    : esp_err_t :=
  match is_retained, topic with
  | true, Some topic =>
      if strstr topic (str "/cmd/") || strstr topic (str "/cmd") || strstr topic (str "/control/")
      then ESP_ERR_INVALID_STATE else ESP_OK
  | _, _ => ESP_OK
  end.

(** ** What the parsers accept *)

Lemma digit_not_space c : isdigit c = true -> isspace c = false.
Proof.
  unfold isdigit, isspace, in_range. rewrite andb_true_iff, !Z.leb_le. intros [? ?].
  apply orb_false_iff. rewrite Z.eqb_neq, andb_false_iff, !Z.leb_gt. lia.
Qed.

Lemma space_not_digit c : isspace c = true -> isdigit c = false.
Proof. intros H. destruct (isdigit c) eqn:Hd; [|done]. by rewrite digit_not_space in H. Qed.

(** The percentage parser accepts exactly the strings that are optional white space,
    a non-empty run of digits with value at most 100, and optional white space, and
    returns that value; a value too large for a [long] is refused, not wrapped. *)
Theorem speed_pct_spec s n :
  argus_cmd_parser_speed_pct (Some s) = Some n <->
  exists w1 ds w2, s = w1 ++ ds ++ w2 /\ all isspace w1 /\ all isspace w2 /\
    all isdigit ds /\ ds <> [] /\ digits_value ds = n /\ 0 <= n <= 100.
Proof.
  unfold argus_cmd_parser_speed_pct, strtol, INT32_MAX. split.
  - destruct (skip_while isspace s) as [|c p] eqn:Hp; [done|].
    case_match eqn:Hc; [done|]. apply negb_false_iff in Hc.
    destruct (skip_while isspace (skip_while isdigit (c :: p))) eqn:He; [|done].
    apply skip_while_nil in He.
    case_match eqn:Hv; [done|]. intros [= Hn]. b2p.
    exists (take_while isspace s), (take_while isdigit (c :: p)), (skip_while isdigit (c :: p)).
    split; [by rewrite skip_take_while, <- Hp, skip_take_while|].
    split; [apply take_while_all|]. split; [done|]. split; [apply take_while_all|].
    split; [cbn; by rewrite Hc|].
    change (if isdigit c then c :: take_while isdigit p else []) with (take_while isdigit (c :: p)) in Hn.
    lia.
  - intros (w1 & ds & w2 & -> & H1 & H2 & Hd & Hne & Hn & Hr).
    rewrite skip_while_all by done. destruct ds as [|c ds]; [done|]. inversion Hd; subst.
    cbn [app]. rewrite skip_while_stop by (by apply digit_not_space).
    rewrite H3. cbn [negb]. change (c :: ds ++ w2) with ((c :: ds) ++ w2).
    destruct (while_app isdigit (c :: ds) w2 Hd) as [-> ->].
    { destruct w2; [done|]. inversion H2; subst. by apply space_not_digit. }
    rewrite (proj2 (skip_while_nil isspace w2)) by done.
    rewrite Z.min_r by lia. destruct (Z.ltb_spec (digits_value (c :: ds)) 0); [lia|].
    destruct (Z.ltb_spec 100 (digits_value (c :: ds))); [lia|done].
Qed.

Lemma starts_with_spec needle l : starts_with needle l = true <-> exists post, l = needle ++ post.
Proof.
  revert l. induction needle as [|c needle IH]; intros l; cbn.
  - split; [eauto|done].
  - destruct l as [|d l]; [by split; [|intros [? ?]]|].
    rewrite andb_true_iff, Z.eqb_eq, IH. split.
    + intros [-> [post ->]]. by exists post.
    + intros [post [= -> ->]]. eauto.
Qed.

Lemma strstr_spec l needle : strstr l needle = true <-> exists pre post, l = pre ++ needle ++ post.
Proof.
  induction l as [|d l IH]; cbn; rewrite orb_true_iff, starts_with_spec.
  - split; [intros [[post ->]|]; [by exists [], post|done]|].
    intros (pre & post & H). left. exists post.
    by destruct pre; [|discriminate].
  - rewrite IH. split.
    + intros [[post ->]|(pre & post & ->)]; [by exists [], post|by exists (d :: pre), post].
    + intros ([|x pre] & post & H); [left; by exists post|right].
      injection H as -> ->. by exists pre, post.
Qed.

(** The control-message policy refuses exactly the retained messages whose topic
    contains "/cmd" or "/control/" anywhere. *)
Theorem retained_control_refused topic retained :
  argus_cmd_parser_validate_control_message topic retained = ESP_ERR_INVALID_STATE <->
  retained = true /\ exists pre post,
    topic = Some (pre ++ str "/cmd" ++ post) \/ topic = Some (pre ++ str "/control/" ++ post).
Proof.
  unfold argus_cmd_parser_validate_control_message.
  destruct retained; [|split; [done|by intros [? ?]]].
  destruct topic as [t|]; [|split; [done|intros [_ (? & ? & [?|?])]; done]].
  destruct (strstr t (str "/cmd/") || strstr t (str "/cmd") || strstr t (str "/control/")) eqn:Hs.
  - split; [intros _|done]. split; [done|].
    rewrite !orb_true_iff, !strstr_spec in Hs.
    destruct Hs as [[(pre & post & ->)|(pre & post & ->)]|(pre & post & ->)].
    + exists pre, (str "/" ++ post). by left.
    + exists pre, post. by left.
    + exists pre, post. by right.
  - split; [done|]. intros (_ & pre & post & Ht).
    apply orb_false_iff in Hs as [Hs H3]. apply orb_false_iff in Hs as [_ H2].
    destruct Ht as [[= ->]|[= ->]].
    + apply not_true_iff_false in H2. destruct H2. apply strstr_spec. eauto.
    + apply not_true_iff_false in H3. destruct H3. apply strstr_spec. eauto.
Qed.
