(* ===== verification/Authority.v ===== *)
(** * Control authority

    [src/main/argus_authority_mgr.c]: which source may command motion.  The pure
    core ([argus_authority_core_*]) and the production singleton
    ([argus_authority_mgr_*]) are both translated, and proved to agree. *)

From S2P Require Import Prelude CmdParser.

Inductive argus_control_authority_t :=
| ARGUS_AUTHORITY_NONE
| ARGUS_AUTHORITY_SUPERVISORY
| ARGUS_AUTHORITY_SERVICE_TRANSITION
| ARGUS_AUTHORITY_LOCAL_SERVICE.

Inductive argus_authority_owner_t :=
| ARGUS_AUTH_OWNER_NONE
| ARGUS_AUTH_OWNER_MQTT
| ARGUS_AUTH_OWNER_BROWSER
| ARGUS_AUTH_OWNER_DIAGNOSTIC_CLI.

#[export] Instance authority_eq_dec : EqDecision argus_control_authority_t.
Proof. solve_decision. Defined.
#[export] Instance owner_eq_dec : EqDecision argus_authority_owner_t.
Proof. solve_decision. Defined.

Record argus_authority_snapshot_t := AuthSnapshot {
  as_mode : argus_control_authority_t;
  as_owner : argus_authority_owner_t;
  as_generation : Z
}.

Record argus_authority_core_t := AuthCore {
  ac_mode : argus_control_authority_t;
  ac_owner : argus_authority_owner_t;
  ac_generation : Z;
  ac_last_error : esp_err_t
}.
#[export] Instance eta_auth_core : Eta argus_authority_core_t := fun c =>
  AuthCore (ac_mode c) (ac_owner c) (ac_generation c) (ac_last_error c).

Definition argus_authority_mgr_get_mode_name (mode : argus_control_authority_t) : bytes :=
  match mode with
  | ARGUS_AUTHORITY_NONE => str "NONE"
  | ARGUS_AUTHORITY_SUPERVISORY => str "SUPERVISORY"
  | ARGUS_AUTHORITY_SERVICE_TRANSITION => str "SERVICE_TRANSITION"
  | ARGUS_AUTHORITY_LOCAL_SERVICE => str "LOCAL_SERVICE"
  end.

Definition argus_authority_mgr_get_owner_name (owner : argus_authority_owner_t) : bytes :=
  match owner with
  | ARGUS_AUTH_OWNER_NONE => str "NONE"
  | ARGUS_AUTH_OWNER_MQTT => str "MQTT"
  | ARGUS_AUTH_OWNER_BROWSER => str "BROWSER"
  | ARGUS_AUTH_OWNER_DIAGNOSTIC_CLI => str "DIAGNOSTIC_CLI"
  end.

Definition argus_authority_validate_pair (mode : argus_control_authority_t)
    (owner : argus_authority_owner_t) : esp_err_t :=
  match mode, owner with
  | ARGUS_AUTHORITY_NONE, ARGUS_AUTH_OWNER_NONE => ESP_OK
  | ARGUS_AUTHORITY_SUPERVISORY, ARGUS_AUTH_OWNER_MQTT => ESP_OK
  | ARGUS_AUTHORITY_SERVICE_TRANSITION, ARGUS_AUTH_OWNER_NONE => ESP_OK
  | ARGUS_AUTHORITY_LOCAL_SERVICE,
    (ARGUS_AUTH_OWNER_BROWSER | ARGUS_AUTH_OWNER_DIAGNOSTIC_CLI) => ESP_OK
  | _, _ => ESP_ERR_INVALID_ARG
  end.

(** ** The pure core *)

Definition argus_authority_core_set_mode (new_mode : argus_control_authority_t)
    (new_owner : argus_authority_owner_t) (core : argus_authority_core_t)
    : esp_err_t * argus_authority_core_t :=
  let pair_err := argus_authority_validate_pair new_mode new_owner in
  if negb (is_ok pair_err) then (pair_err, core <| ac_last_error := pair_err |>)
  else (ESP_OK, core <| ac_mode := new_mode |> <| ac_owner := new_owner |>
                     <| ac_generation ::= fun g => u32 (g + 1) |>
                     <| ac_last_error := ESP_OK |>).

Definition argus_authority_core_prepare_service_transition (core : argus_authority_core_t)
    : esp_err_t * argus_authority_core_t :=
  argus_authority_core_set_mode ARGUS_AUTHORITY_SERVICE_TRANSITION ARGUS_AUTH_OWNER_NONE core.

Definition argus_authority_core_abort_service_transition (core : argus_authority_core_t)
    : argus_authority_core_t :=
  (argus_authority_core_set_mode ARGUS_AUTHORITY_NONE ARGUS_AUTH_OWNER_NONE core).2.

Definition local_owner (o : argus_authority_owner_t) : bool :=
  match o with ARGUS_AUTH_OWNER_BROWSER | ARGUS_AUTH_OWNER_DIAGNOSTIC_CLI => true | _ => false end.

Definition in_transition (m : argus_control_authority_t) : bool :=
  match m with ARGUS_AUTHORITY_SERVICE_TRANSITION => true | _ => false end.

Definition argus_authority_core_grant_local_service (requested_owner : argus_authority_owner_t)
    (core : argus_authority_core_t) : esp_err_t * argus_authority_core_t :=
  if negb (local_owner requested_owner) then
    (ESP_ERR_INVALID_ARG, argus_authority_core_abort_service_transition core)
  else if negb (in_transition (ac_mode core)) then
    (ESP_ERR_INVALID_STATE, argus_authority_core_abort_service_transition core)
  else argus_authority_core_set_mode ARGUS_AUTHORITY_LOCAL_SERVICE requested_owner core.

(** ** The production singleton [s_authority]

    The operations initialise the singleton on first use: [None] is
    [!s_initialized]. *)

Definition auth_initial : argus_authority_core_t :=
  AuthCore ARGUS_AUTHORITY_NONE ARGUS_AUTH_OWNER_NONE 1 ESP_OK.

Definition auth_static : Type := option argus_authority_core_t.

Definition argus_authority_mgr_init (s : auth_static) : argus_authority_core_t :=
  match s with None => auth_initial | Some c => c end.

Definition argus_authority_mgr_get_snapshot (s : auth_static)
    : argus_authority_snapshot_t * auth_static :=
  let c := argus_authority_mgr_init s in
  (AuthSnapshot (ac_mode c) (ac_owner c) (ac_generation c), Some c).

Definition argus_authority_mgr_set_mode (new_mode : argus_control_authority_t)
    (new_owner : argus_authority_owner_t) (s : auth_static) : esp_err_t * auth_static :=
  let c := argus_authority_mgr_init s in
  let pair_err := argus_authority_validate_pair new_mode new_owner in
  if negb (is_ok pair_err) then (pair_err, Some c)
  else (ESP_OK, Some (c <| ac_mode := new_mode |> <| ac_owner := new_owner |>
                        <| ac_generation ::= fun g => u32 (g + 1) |>)).

Definition argus_authority_abort_service_transition (s : auth_static) : auth_static :=
  (argus_authority_mgr_set_mode ARGUS_AUTHORITY_NONE ARGUS_AUTH_OWNER_NONE s).2.

Definition argus_authority_grant_local_service (requested_owner : argus_authority_owner_t)
    (s : auth_static) : esp_err_t * auth_static :=
  if negb (local_owner requested_owner) then
    (ESP_ERR_INVALID_ARG, argus_authority_abort_service_transition s)
  else
    let '(snap, s) := argus_authority_mgr_get_snapshot s in
    if negb (in_transition (as_mode snap)) then
      (ESP_ERR_INVALID_STATE, argus_authority_abort_service_transition s)
    else (ESP_OK, (argus_authority_mgr_set_mode ARGUS_AUTHORITY_LOCAL_SERVICE requested_owner s).2).

Definition prod_prepare_transition (s : auth_static) : esp_err_t * auth_static :=
  argus_authority_mgr_set_mode ARGUS_AUTHORITY_SERVICE_TRANSITION ARGUS_AUTH_OWNER_NONE s.
Definition prod_grant_local (owner : argus_authority_owner_t) (s : auth_static)
    : esp_err_t * auth_static := argus_authority_grant_local_service owner s.
Definition prod_abort_transition (s : auth_static) : auth_static :=
  argus_authority_abort_service_transition s.

(** ** Permission *)

Definition argus_authority_validate_permission (snap : option argus_authority_snapshot_t)
    (source : argus_cmd_source_t) (cmd_type : argus_cmd_type_t) : bool :=
  match snap with
  | None => false
  | Some snap =>
      match source, cmd_type with
      | ARGUS_CMD_SRC_INTERNAL_SAFETY, _ | _, ARGUS_CMD_TYPE_ESTOP => true
      | _, _ =>
          match as_mode snap with
          | ARGUS_AUTHORITY_NONE => false
          | ARGUS_AUTHORITY_SUPERVISORY =>
              match source, as_owner snap with
              | ARGUS_CMD_SRC_MQTT_SUPERVISORY, ARGUS_AUTH_OWNER_MQTT => true
              | _, _ => false
              end
          | ARGUS_AUTHORITY_SERVICE_TRANSITION => false
          | ARGUS_AUTHORITY_LOCAL_SERVICE =>
              match source, as_owner snap with
              | ARGUS_CMD_SRC_LOCAL_SERVICE_PORTAL, ARGUS_AUTH_OWNER_BROWSER => true
              | ARGUS_CMD_SRC_CLI_DIAGNOSTIC, ARGUS_AUTH_OWNER_DIAGNOSTIC_CLI => true
              | _, _ => false
              end
          end
      end
  end.

(** ** Properties *)

Inductive auth_op :=
| ASetMode (m : argus_control_authority_t) (o : argus_authority_owner_t)
| APrepare
| AGrant (o : argus_authority_owner_t)
| AAbort.

Definition core_exec (op : auth_op) (c : argus_authority_core_t) : esp_err_t * argus_authority_core_t :=
  match op with
  | ASetMode m o => argus_authority_core_set_mode m o c
  | APrepare => argus_authority_core_prepare_service_transition c
  | AGrant o => argus_authority_core_grant_local_service o c
  | AAbort => (ESP_OK, argus_authority_core_abort_service_transition c)
  end.

Definition prod_exec (op : auth_op) (s : auth_static) : esp_err_t * auth_static :=
  match op with
  | ASetMode m o => argus_authority_mgr_set_mode m o s
  | APrepare => prod_prepare_transition s
  | AGrant o => prod_grant_local o s
  | AAbort => (ESP_OK, prod_abort_transition s)
  end.

Definition auth_run {S : Type} (exec : auth_op -> S -> esp_err_t * S) (ops : list auth_op) (s : S) : S :=
  foldl (fun s op => (exec op s).2) s ops.

(** Everything but [last_error], which the production path does not keep. *)
Definition auth_view (c : argus_authority_core_t) : argus_authority_snapshot_t :=
  AuthSnapshot (ac_mode c) (ac_owner c) (ac_generation c).

Definition auth_inv (c : argus_authority_core_t) : Prop :=
  argus_authority_validate_pair (ac_mode c) (ac_owner c) = ESP_OK /\ is_u32 (ac_generation c).

Lemma core_exec_inv op c : auth_inv c -> auth_inv (core_exec op c).2.
Proof.
  intros [Hp Hg]. destruct op as [m o| |o|]; cbn.
  - unfold argus_authority_core_set_mode.
    destruct (argus_authority_validate_pair m o) eqn:E; split; cbn; auto with argus.
  - split; cbn; auto with argus.
  - unfold argus_authority_core_grant_local_service.
    destruct o, (ac_mode c); split; cbn; auto with argus.
  - split; cbn; auto with argus.
Qed.

(** The invariant and the generation after a run, for any start. *)
Lemma prod_core_step op c :
  (prod_exec op (Some c)).1 = (core_exec op c).1 /\
  forall c', auth_view c' = auth_view c ->
    auth_view <$> (prod_exec op (Some c)).2 = Some (auth_view (core_exec op c').2).
Proof.
  split.
  - destruct op as [m o| |o|]; cbn; try done.
    + unfold argus_authority_mgr_set_mode, argus_authority_core_set_mode.
      by destruct (argus_authority_validate_pair m o).
    + unfold prod_grant_local, argus_authority_grant_local_service, argus_authority_core_grant_local_service.
      destruct c as [m1 o1 g1 e1]. by destruct o; cbn; try done; destruct m1.
  - intros c' Hv. destruct c as [m1 o1 g1 e1], c' as [m2 o2 g2 e2].
    injection Hv as -> -> ->.
    destruct op as [m o| |o|]; cbn; try done.
    + unfold argus_authority_mgr_set_mode, argus_authority_core_set_mode.
      by destruct (argus_authority_validate_pair m o).
    + by destruct o; cbn; try done; destruct m1.
Qed.

(** The production singleton refines the pure core: after any sequence of authority
    operations the mode, owner and generation of the singleton are those of a core that
    ran the same operations. *)
Theorem production_refines_core ops :
  (auth_view ∘ argus_authority_mgr_init) (auth_run prod_exec ops None) =
  auth_view (auth_run core_exec ops auth_initial).
Proof.
  assert (H : forall ops c c', auth_view c' = auth_view c ->
    auth_view <$> auth_run prod_exec ops (Some c) = Some (auth_view (auth_run core_exec ops c'))).
  { clear. induction ops as [|op ops IH]; intros c c' Hv; cbn; [by rewrite Hv|].
    pose proof (proj2 (prod_core_step op c) c' Hv) as Hs.
    destruct (prod_exec op (Some c)).2 as [c1|]; [|done]. cbn in Hs.
    apply IH. congruence. }
  destruct ops as [|op ops]; [done|]. unfold compose.
  assert (Hn : prod_exec op None = prod_exec op (Some auth_initial)).
  { destruct op as [m o| |o|]; try done. }
  change (auth_run prod_exec (op :: ops) None) with
    (auth_run prod_exec ops (prod_exec op None).2).
  rewrite Hn. specialize (H (op :: ops) auth_initial auth_initial eq_refl).
  change (auth_run prod_exec (op :: ops) (Some auth_initial)) with
    (auth_run prod_exec ops (prod_exec op (Some auth_initial)).2) in H.
  destruct (auth_run prod_exec ops (prod_exec op (Some auth_initial)).2); [|done].
  cbn in H. cbn. congruence.
Qed.

Lemma auth_run_inv ops c : auth_inv c -> auth_inv (auth_run core_exec ops c).
Proof. revert c. induction ops as [|op ops IH]; intros c H; [done|]. apply IH. by apply core_exec_inv. Qed.

Lemma auth_initial_inv : auth_inv auth_initial.
Proof. split; [done|]. unfold is_u32. cbn. lia. Qed.

(** The source the owner stands for. *)
Definition owner_source (owner : argus_authority_owner_t) : option argus_cmd_source_t :=
  match owner with
  | ARGUS_AUTH_OWNER_NONE => None
  | ARGUS_AUTH_OWNER_MQTT => Some ARGUS_CMD_SRC_MQTT_SUPERVISORY
  | ARGUS_AUTH_OWNER_BROWSER => Some ARGUS_CMD_SRC_LOCAL_SERVICE_PORTAL
  | ARGUS_AUTH_OWNER_DIAGNOSTIC_CLI => Some ARGUS_CMD_SRC_CLI_DIAGNOSTIC
  end.

(** What the manager answers after [ops]. *)
Definition snapshot_after (ops : list auth_op) : argus_authority_snapshot_t :=
  (argus_authority_mgr_get_snapshot (auth_run prod_exec ops None)).1.

Lemma snapshot_view ops : snapshot_after ops = auth_view (auth_run core_exec ops auth_initial).
Proof. rewrite <- production_refines_core. done. Qed.

Lemma auth_run_snoc {S} (exec : auth_op -> S -> esp_err_t * S) ops op s :
  auth_run exec (ops ++ [op]) s = (exec op (auth_run exec ops s)).2.
Proof. unfold auth_run. by rewrite foldl_app. Qed.

(** An operation that changes the mode or the owner counts the generation on. *)
Lemma core_exec_generation op c : auth_inv c -> auth_view (core_exec op c).2 = auth_view c \/
  ac_generation (core_exec op c).2 <> ac_generation c.
Proof.
  intros [_ Hg]. assert (Hn : u32 (ac_generation c + 1) <> ac_generation c).
  { unfold is_u32 in Hg. unfold u32. destruct (Z.eq_dec (ac_generation c) 4294967295) as [->|]; [by vm_compute|].
    rewrite Z.mod_small; lia. }
  destruct op as [m o| |o|]; cbn; auto.
  - unfold argus_authority_core_set_mode. destruct (argus_authority_validate_pair m o); cbn; auto.
  - unfold argus_authority_core_grant_local_service. destruct o, (ac_mode c); cbn; auto.
Qed.

(** C25: the production authority manager, after any sequence of its operations from start-up,
    accepted or refused.  An emergency stop is permitted to every source and the internal safety
    source is permitted every command; of any other command, a source other than internal
    safety has the permission exactly when the owner names it.  So at most one of MQTT, the
    browser and the diagnostic console may move the pump at a time, and none of them while the
    authority is uncommissioned or in transition, when there is no owner.  And
    authority never changes hands under the same generation. *)
Theorem authority_exclusive ops :
  let snap := snapshot_after ops in
  (forall source, argus_authority_validate_permission (Some snap) source ARGUS_CMD_TYPE_ESTOP = true) /\
  (forall cmd, argus_authority_validate_permission (Some snap) ARGUS_CMD_SRC_INTERNAL_SAFETY cmd = true) /\
  (forall source cmd, source <> ARGUS_CMD_SRC_INTERNAL_SAFETY -> cmd <> ARGUS_CMD_TYPE_ESTOP ->
     argus_authority_validate_permission (Some snap) source cmd = true <-> owner_source (as_owner snap) = Some source) /\
  (as_mode snap = ARGUS_AUTHORITY_NONE \/ as_mode snap = ARGUS_AUTHORITY_SERVICE_TRANSITION -> as_owner snap = ARGUS_AUTH_OWNER_NONE) /\
  (forall op, as_owner (snapshot_after (ops ++ [op])) <> as_owner snap \/ as_mode (snapshot_after (ops ++ [op])) <> as_mode snap ->
     as_generation (snapshot_after (ops ++ [op])) <> as_generation snap).
Proof.
  intros snap. unfold snap. rewrite snapshot_view. pose proof (auth_run_inv ops _ auth_initial_inv) as Hinv.
  split; [by intros []|]. split; [by intros []|]. split_and!.
  - destruct Hinv as [Hp _]. set (c := auth_run core_exec ops auth_initial) in *. clearbody c.
    unfold argus_authority_validate_permission, auth_view. cbn. intros source cmd H1 H2.
    destruct (ac_mode c), (ac_owner c); try discriminate Hp; by destruct source, cmd.
  - destruct Hinv as [Hp _]. cbn. by destruct (ac_mode _), (ac_owner _); try discriminate Hp; intros [|].
  - intros op. rewrite snapshot_view, auth_run_snoc. destruct (core_exec_generation op _ Hinv) as [->|Hg]; [by intros [|]|done].
Qed.

(** MQTT in the supervisory mode, and a transition after it. *)
Definition supervisory_ops : list auth_op := [ASetMode ARGUS_AUTHORITY_SUPERVISORY ARGUS_AUTH_OWNER_MQTT].

Lemma authority_exclusive_witness :
  argus_authority_validate_permission (Some (snapshot_after supervisory_ops)) ARGUS_CMD_SRC_MQTT_SUPERVISORY ARGUS_CMD_TYPE_START = true /\
  argus_authority_validate_permission (Some (snapshot_after supervisory_ops)) ARGUS_CMD_SRC_CLI_DIAGNOSTIC ARGUS_CMD_TYPE_START <> true /\
  as_owner (snapshot_after (supervisory_ops ++ [APrepare])) = ARGUS_AUTH_OWNER_NONE /\
  as_generation (snapshot_after (supervisory_ops ++ [APrepare])) <> as_generation (snapshot_after supervisory_ops).
Proof.
  destruct (authority_exclusive supervisory_ops) as (_ & _ & H & _ & Hg).
  split_and!.
  - apply (H ARGUS_CMD_SRC_MQTT_SUPERVISORY ARGUS_CMD_TYPE_START ltac:(discriminate) ltac:(discriminate)). reflexivity.
  - intros Hc. apply (H ARGUS_CMD_SRC_CLI_DIAGNOSTIC ARGUS_CMD_TYPE_START ltac:(discriminate) ltac:(discriminate)) in Hc. discriminate Hc.
  - destruct (authority_exclusive (supervisory_ops ++ [APrepare])) as (_ & _ & _ & H' & _). apply H'. right. reflexivity.
  - apply Hg. left. discriminate.
Defined.
