(* ===== verification/Router.v ===== *)
(** * Command router and coordinated restart

    [src/main/argus_cmd_router.c]: the gate every command passes, from an
    envelope through the authority check to the state manager.
    [src/main/argus_restart_mgr.c]: the restart transaction that closes the gate
    before it reboots. *)

From S2P Require Import Prelude CmdParser Authority StateMgr.

(** ** Dispatch *)

Section Router.
Context {M : Type} (err_code : esp_err_t -> Z) (ops : argus_motion_ops_t M).

(** The authority singleton and the state core with the layers below it. *)
Definition system : Type := auth_static * (argus_state_core_t * M).

Definition bypasses_authority (env : argus_command_envelope_t) : bool :=
  match env_source env, env_command_type env with
  | ARGUS_CMD_SRC_INTERNAL_SAFETY, _ | _, ARGUS_CMD_TYPE_ESTOP => true
  | _, _ => false
  end.

(** [take] is the answer of the state manager's command mutex. *)
Definition argus_cmd_router_dispatch (take : bool) (env : option argus_command_envelope_t)
    (sys : system) : esp_err_t * system :=
  match env with
  | None => (ESP_ERR_INVALID_ARG, sys)
  | Some env =>
      let '(auth, cm) := sys in
      if bypasses_authority env then
        let '(err, cm) := argus_state_mgr_estop ops cm in (err, (auth, cm))
      else
        let '(snap, auth) := argus_authority_mgr_get_snapshot auth in
        if negb (env_authority_generation env =? as_generation snap) then
          (ESP_ERR_INVALID_STATE, (auth, cm))
        else if negb (argus_authority_validate_permission (Some snap) (env_source env)
                        (env_command_type env)) then
          (ESP_ERR_INVALID_STATE, (auth, cm))
        else
          let '(err, cm) :=
            match env_command_type env with
            | ARGUS_CMD_TYPE_SET_TARGET =>
                argus_state_mgr_set_target err_code ops take
                  (env_target_rpm_milli env) (env_forward env) cm
            | ARGUS_CMD_TYPE_START => argus_state_mgr_start err_code ops take cm
            | ARGUS_CMD_TYPE_STOP_NORMAL => argus_state_mgr_stop_normal err_code ops take cm
            | ARGUS_CMD_TYPE_UNLOCK => argus_state_mgr_unlock ops take cm
            | ARGUS_CMD_TYPE_RESET_ESTOP => argus_state_mgr_reset_estop take cm
            | ARGUS_CMD_TYPE_RECOVER => argus_state_mgr_recover err_code ops take cm
            | ARGUS_CMD_TYPE_ESTOP => (ESP_ERR_INVALID_ARG, cm)
            end in
          (err, (auth, cm))
  end.

Definition argus_cmd_router_check_authority (env : option argus_command_envelope_t)
    (auth : auth_static) : esp_err_t * auth_static :=
  match env with
  | None => (ESP_ERR_INVALID_ARG, auth)
  | Some env =>
      if bypasses_authority env then (ESP_OK, auth)
      else
        let '(snap, auth) := argus_authority_mgr_get_snapshot auth in
        if negb (env_authority_generation env =? as_generation snap) then (ESP_ERR_INVALID_STATE, auth)
        else if negb (argus_authority_validate_permission (Some snap) (env_source env)
                        (env_command_type env)) then (ESP_ERR_INVALID_STATE, auth)
        else (ESP_OK, auth)
  end.

(** The command an envelope stands for at the state manager. *)
Definition envelope_cmd (env : argus_command_envelope_t) : sm_cmd :=
  match env_command_type env with
  | ARGUS_CMD_TYPE_SET_TARGET => CSetTarget (env_target_rpm_milli env) (env_forward env)
  | ARGUS_CMD_TYPE_START => CStart
  | ARGUS_CMD_TYPE_STOP_NORMAL => CStop
  | ARGUS_CMD_TYPE_UNLOCK => CUnlock
  | ARGUS_CMD_TYPE_ESTOP => CEstop
  | ARGUS_CMD_TYPE_RESET_ESTOP => CResetEstop
  | ARGUS_CMD_TYPE_RECOVER => CRecover
  end.

(** The probe decides exactly what dispatch does: an envelope the probe accepts is
    executed by the state manager as its command (an emergency stop for an internal
    safety source), and one it refuses leaves the machine and the layers below it
    untouched and gets the probe's error; neither changes the authority. *)
Theorem probe_decides_dispatch env auth cm :
  let '(verdict, auth') := argus_cmd_router_check_authority (Some env) auth in
  argus_authority_mgr_init auth' = argus_authority_mgr_init auth /\
  argus_cmd_router_dispatch true (Some env) (auth, cm) =
    if is_ok verdict then
      let '(err, cm') :=
        sm_exec err_code ops
          (match env_source env with ARGUS_CMD_SRC_INTERNAL_SAFETY => CEstop | _ => envelope_cmd env end)
          cm in
      (err, (auth', cm'))
    else (verdict, (auth', cm)).
Proof.
  unfold argus_cmd_router_check_authority, argus_cmd_router_dispatch.
  destruct (bypasses_authority env) eqn:Hb.
  - split; [done|]. unfold bypasses_authority in Hb. unfold envelope_cmd.
    destruct (env_source env), (env_command_type env); try discriminate Hb; done.
  - unfold argus_authority_mgr_get_snapshot. cbn zeta beta iota.
    set (snap := AuthSnapshot _ _ _).
    destruct (negb (env_authority_generation env =? as_generation snap)); [done|].
    destruct (argus_authority_validate_permission (Some snap) _ _); cbn [negb]; [|done].
    split; [done|]. unfold bypasses_authority in Hb. unfold envelope_cmd.
    destruct (env_source env), (env_command_type env); try discriminate Hb; done.
Qed.

(** Reaching a generation again takes 2^32 transitions. *)
Lemma generation_after (auth_ops : list (argus_control_authority_t * argus_authority_owner_t)) c :
  auth_inv c ->
  Forall (fun '(m, o) => argus_authority_validate_pair m o = ESP_OK) auth_ops ->
  ac_generation (auth_run core_exec (uncurry ASetMode <$> auth_ops) c) =
    u32 (ac_generation c + Z.of_nat (length auth_ops)).
Proof.
  intros Hinv H. revert c Hinv. induction H as [|[m o] l Hp _ IH]; intros c Hinv.
  - cbn. rewrite Z.add_0_r. symmetry. apply u32_small, Hinv.
  - cbn [fmap list_fmap uncurry]. change (auth_run core_exec (ASetMode m o :: ?l) c) with
      (auth_run core_exec l (core_exec (ASetMode m o) c).2).
    rewrite IH by (by apply core_exec_inv). cbn. unfold argus_authority_core_set_mode. rewrite Hp. cbn.
    unfold u32. rewrite Zplus_mod_idemp_l. f_equal. lia.
Qed.

(** C22: an envelope stamped before an authority transition is dead: after any number of
    accepted transitions (short of wrapping the 32-bit counter) a non-emergency command
    carrying the earlier generation is refused with no effect, whatever source it names
    and whatever the authority has become. *)
Theorem stale_envelope_refused take env c transitions cm :
  auth_inv c -> env_authority_generation env = ac_generation c ->
  bypasses_authority env = false ->
  Forall (fun '(m, o) => argus_authority_validate_pair m o = ESP_OK) transitions ->
  (0 < length transitions)%nat -> Z.of_nat (length transitions) < 4294967296 ->
  let c' := auth_run core_exec (uncurry ASetMode <$> transitions) c in
  argus_cmd_router_dispatch take (Some env) (Some c', cm) = (ESP_ERR_INVALID_STATE, (Some c', cm)).
Proof.
  intros Hinv Hg Hb Hv Hl1 Hl2 c'. unfold argus_cmd_router_dispatch. rewrite Hb. cbn.
  assert (Hne : (env_authority_generation env =? ac_generation c') = false).
  { apply Z.eqb_neq. unfold c'. rewrite generation_after, Hg by done.
    destruct Hinv as [_ Hu]. unfold is_u32, u32 in *. intros Heq.
    assert (ac_generation c mod 4294967296 = ac_generation c) by (by apply Z.mod_small).
    assert (Hd : (ac_generation c + Z.of_nat (length transitions)) / 4294967296 = 0 \/
                 (ac_generation c + Z.of_nat (length transitions)) / 4294967296 = 1).
    { pose proof (Z.div_pos (ac_generation c + Z.of_nat (length transitions)) 4294967296).
      pose proof (Z.div_lt_upper_bound (ac_generation c + Z.of_nat (length transitions)) 4294967296 2).
      lia. }
    pose proof (Z.div_mod (ac_generation c + Z.of_nat (length transitions)) 4294967296). lia. }
  by rewrite Hne.
Qed.

(** C24: an emergency stop reaches the state manager whatever the authority, the
    generation in the envelope and the source: the machine is EMERGENCY_STOPPED and
    latched afterwards, if the lower-layer stop does not touch the core. *)
Theorem estop_always_dispatched take env sys :
  bypasses_authority env = true ->
  sm_inv sys.2.1 -> quiet (op_stop_immediate ops) ->
  let '(err, (auth', cm')) := argus_cmd_router_dispatch take (Some env) sys in
  err = ESP_OK /\ auth' = sys.1 /\
  machine_state cm'.1 = ARGUS_STATE_EMERGENCY_STOPPED /\ estop_latched cm'.1 = true.
Proof.
  intros Hb Hinv Hq. destruct sys as [auth [c x]]. cbn in Hinv.
  unfold argus_cmd_router_dispatch. rewrite Hb.
  unfold argus_state_mgr_estop, argus_state_core_estop.
  destruct (is_state (machine_state c) ARGUS_STATE_EMERGENCY_STOPPED) eqn:Hs.
  - apply is_state_true in Hs. cbn. repeat split; auto. by apply (si_estop _ Hinv).
  - pose proof (call_quiet _ (estop_latch c) x Hq) as Hc.
    destruct (call _ _) as [err [c' x']]. cbn in Hc. by subst c'.
Qed.
End Router.

(** ** The restart transaction *)

(** A NULL snapshot is [None]. *)
Definition argus_restart_is_safe (snap : option argus_state_snapshot_t) : bool :=
  match snap with
  | None => false
  | Some snap =>
      if ss_estop_latched snap then false
      else if is_state (ss_machine_state snap) ARGUS_STATE_EMERGENCY_STOPPED then false
      else if is_state (ss_machine_state snap) ARGUS_STATE_FAULTED then false
      else is_state (ss_machine_state snap) ARGUS_STATE_HOLDING
           || is_state (ss_machine_state snap) ARGUS_STATE_UNLOCKED
  end.

Inductive argus_restart_step_t :=
| ARGUS_RESTART_STEP_LOCK_DISPATCH
| ARGUS_RESTART_STEP_PREFLIGHT_SAFETY
| ARGUS_RESTART_STEP_REVOKE_AUTHORITY
| ARGUS_RESTART_STEP_UNLOCK_DISPATCH
| ARGUS_RESTART_STEP_RESPONSE_GRACE
| ARGUS_RESTART_STEP_STOP_HTTP
| ARGUS_RESTART_STEP_FINAL_SAFETY
| ARGUS_RESTART_STEP_REBOOT.

(** The operations act on a context [X]; a table with a NULL entry is [None] for
    [argus_restart_execute]. *)
Record argus_restart_ops_t (X : Type) := RestartOps {
  r_get_state_snapshot : X -> argus_state_snapshot_t * X;
  r_lock_dispatch : X -> X;
  r_unlock_dispatch : X -> X;
  r_revoke_authority : X -> esp_err_t * X;
  r_response_grace_delay : X -> X;
  r_stop_http : X -> esp_err_t * X;
  r_reboot : X -> X
}.
Arguments RestartOps {_} _ _ _ _ _ _ _.
Arguments r_get_state_snapshot {_} _ _.
Arguments r_lock_dispatch {_} _ _.
Arguments r_unlock_dispatch {_} _ _.
Arguments r_revoke_authority {_} _ _.
Arguments r_response_grace_delay {_} _ _.
Arguments r_stop_http {_} _ _.
Arguments r_reboot {_} _ _.

Record argus_restart_result_t := RestartResult {
  rr_accepted : bool;
  rr_failed_at_step : option argus_restart_step_t;
  rr_dispatch_locked : bool;
  rr_authority_revoked : bool;
  rr_http_stopped : bool;
  rr_reboot_called : bool
}.

Definition argus_restart_execute {X : Type} (ops : option (argus_restart_ops_t X)) (x : X)
    : argus_restart_result_t * X :=
  match ops with
  | None =>
      (RestartResult false (Some ARGUS_RESTART_STEP_PREFLIGHT_SAFETY) false false false false, x)
  | Some ops =>
      let x := r_lock_dispatch ops x in
      let '(snap, x) := r_get_state_snapshot ops x in
      if negb (argus_restart_is_safe (Some snap)) then
        (RestartResult false (Some ARGUS_RESTART_STEP_PREFLIGHT_SAFETY) false false false false,
         r_unlock_dispatch ops x)
      else
        let '(err, x) := r_revoke_authority ops x in
        if negb (is_ok err) then
          (RestartResult false (Some ARGUS_RESTART_STEP_REVOKE_AUTHORITY) false false false false,
           r_unlock_dispatch ops x)
        else
          let x := r_unlock_dispatch ops x in
          let x := r_response_grace_delay ops x in
          let '(err, x) := r_stop_http ops x in
          if negb (is_ok err) then
            (RestartResult false (Some ARGUS_RESTART_STEP_STOP_HTTP) false true false false, x)
          else
            let '(snap, x) := r_get_state_snapshot ops x in
            if negb (argus_restart_is_safe (Some snap)) then
              (RestartResult false (Some ARGUS_RESTART_STEP_FINAL_SAFETY) false true true false, x)
            else (RestartResult true None false true true true, r_reboot ops x)
  end.

(** The production table over the system: [during] is what other tasks do in the
    grace delay, [http] the answer of the server stop. *)
Definition prod_revoke_authority {M} (sys : system (M := M)) : esp_err_t * system (M := M) :=
  let '(err, auth) :=
    argus_authority_mgr_set_mode ARGUS_AUTHORITY_NONE ARGUS_AUTH_OWNER_NONE sys.1 in
  (err, (auth, sys.2)).

(** What the rest of the system may do while the transaction waits: dispatch any
    commands and run any telemetry round.  No operation that grants authority. *)
Inductive other_activity {M} (err_code : esp_err_t -> Z) (ops : argus_motion_ops_t M)
    : relation (system (M := M)) :=
| other_dispatch take env sys :
    other_activity err_code ops sys (argus_cmd_router_dispatch err_code ops take env sys).2
| other_evaluate a g r e auth c x :
    other_activity err_code ops (auth, (c, x))
      (auth, (argus_state_core_evaluate_periodic a g r e c, x)).

Definition revoked {M} (sys : system (M := M)) : Prop :=
  ac_mode (argus_authority_mgr_init sys.1) = ARGUS_AUTHORITY_NONE.

(** With the authority revoked, the only command that still reaches the machine
    is an emergency stop. *)
Lemma revoked_dispatch {M} err_code (ops : argus_motion_ops_t M) take env sys :
  revoked sys ->
  let out := argus_cmd_router_dispatch err_code ops take env sys in
  revoked out.2 /\
  (out.2.2 = sys.2 \/ out.2.2 = (argus_state_core_estop ops sys.2).2).
Proof.
  intros Hr. destruct env as [env|]; [|by split; [|left]].
  destruct sys as [auth cm]. unfold argus_cmd_router_dispatch. case_match eqn:Hb.
  - unfold argus_state_mgr_estop. destruct (argus_state_core_estop ops cm) eqn:He. cbn. split; [exact Hr|right; by rewrite He].
  - unfold argus_authority_mgr_get_snapshot. cbn zeta beta iota.
    case_match; [split; [done|by left]|].
    match goal with |- context [argus_authority_validate_permission ?a ?b ?c] =>
      replace (argus_authority_validate_permission a b c) with false end;
      [split; [exact Hr|by left]|].
    unfold revoked in Hr. unfold argus_authority_validate_permission. cbn in *. rewrite Hr.
    unfold bypasses_authority in Hb. by destruct (env_source env), (env_command_type env).
Qed.

(** What the machine can do while authority is revoked: stop, or be evaluated. *)
Inductive quiesced {M} (ops : argus_motion_ops_t M) : relation (argus_state_core_t * M) :=
| quiesced_refl cm : quiesced ops cm cm
| quiesced_estop cm cm' : quiesced ops (argus_state_core_estop ops cm).2 cm' -> quiesced ops cm cm'
| quiesced_evaluate a g r e c x cm' :
    quiesced ops (argus_state_core_evaluate_periodic a g r e c, x) cm' -> quiesced ops (c, x) cm'.

(** After the restart transaction has revoked the authority, whatever commands other
    tasks dispatch until the reboot, nothing reaches the machine but emergency stops and
    the periodic evaluation, and the authority stays revoked (also when the transaction
    then fails: it fails closed). *)
Theorem restart_closes_gate {M} err_code (ops : argus_motion_ops_t M) sys sys' :
  (prod_revoke_authority sys).1 = ESP_OK /\
  (rtc (other_activity err_code ops) (prod_revoke_authority sys).2 sys' ->
   revoked sys' /\ quiesced ops sys.2 sys'.2).
Proof.
  split; [done|]. intros H.
  assert (Hr : revoked (prod_revoke_authority sys).2) by done.
  assert (Hcm : (prod_revoke_authority sys).2.2 = sys.2) by done.
  rewrite <- Hcm. clear Hcm. set (s := (prod_revoke_authority sys).2) in *. clearbody s.
  induction H as [s|s s1 s2 Hs _ IH]; [split; [done|constructor]|].
  inversion Hs; subst.
  - destruct (revoked_dispatch err_code ops take env s Hr) as [Hr' Hd].
    destruct (IH Hr') as [? Hq]. split; [done|].
    destruct Hd as [Hd|Hd]; rewrite Hd in Hq; [done|by apply quiesced_estop].
  - destruct (IH Hr) as [? Hq]. split; [done|]. by apply quiesced_evaluate in Hq.
Qed.

(** A table that records its calls, with given answers. *)
Definition recorder (snap1 snap2 : argus_state_snapshot_t) (revoke http : esp_err_t)
    : argus_restart_ops_t (list argus_restart_step_t) := {|
  r_get_state_snapshot := fun l =>
    match l with
    | [_] => (snap1, l ++ [ARGUS_RESTART_STEP_PREFLIGHT_SAFETY])
    | _ => (snap2, l ++ [ARGUS_RESTART_STEP_FINAL_SAFETY])
    end;
  r_lock_dispatch := fun l => l ++ [ARGUS_RESTART_STEP_LOCK_DISPATCH];
  r_unlock_dispatch := fun l => l ++ [ARGUS_RESTART_STEP_UNLOCK_DISPATCH];
  r_revoke_authority := fun l => (revoke, l ++ [ARGUS_RESTART_STEP_REVOKE_AUTHORITY]);
  r_response_grace_delay := fun l => l ++ [ARGUS_RESTART_STEP_RESPONSE_GRACE];
  r_stop_http := fun l => (http, l ++ [ARGUS_RESTART_STEP_STOP_HTTP]);
  r_reboot := fun l => l ++ [ARGUS_RESTART_STEP_REBOOT]
|}.

Ltac restart_close := repeat split; auto 12; intros; intuition congruence.

(** The restart transaction performs its steps in the documented order and never
    reboots unless the machine was safe both before the authority was revoked and after
    the HTTP server stopped, the revocation succeeded and the server stopped; the
    dispatch gate is unlocked on every path, and every other path names the failing
    step. *)
Theorem restart_order snap1 snap2 revoke http :
  let '(r, trace) := argus_restart_execute (Some (recorder snap1 snap2 revoke http)) [] in
  let good := argus_restart_is_safe (Some snap1) && is_ok revoke && is_ok http
              && argus_restart_is_safe (Some snap2) in
  rr_reboot_called r = good /\ rr_accepted r = good /\ rr_dispatch_locked r = false /\
  (rr_failed_at_step r = None <-> good = true) /\
  In ARGUS_RESTART_STEP_LOCK_DISPATCH trace /\ In ARGUS_RESTART_STEP_UNLOCK_DISPATCH trace /\
  (In ARGUS_RESTART_STEP_REBOOT trace <-> good = true) /\
  (good = true -> trace =
     [ARGUS_RESTART_STEP_LOCK_DISPATCH; ARGUS_RESTART_STEP_PREFLIGHT_SAFETY;
      ARGUS_RESTART_STEP_REVOKE_AUTHORITY; ARGUS_RESTART_STEP_UNLOCK_DISPATCH;
      ARGUS_RESTART_STEP_RESPONSE_GRACE; ARGUS_RESTART_STEP_STOP_HTTP;
      ARGUS_RESTART_STEP_FINAL_SAFETY; ARGUS_RESTART_STEP_REBOOT]).
Proof.
  unfold argus_restart_execute. cbn -[argus_restart_is_safe].
  destruct (argus_restart_is_safe (Some snap1)); cbn -[argus_restart_is_safe]; [|restart_close].
  destruct (is_ok revoke); cbn -[argus_restart_is_safe]; [|restart_close].
  destruct (is_ok http); cbn -[argus_restart_is_safe]; [|restart_close].
  destruct (argus_restart_is_safe (Some snap2)); cbn; restart_close.
Qed.

(** ** Witnesses *)

Lemma stale_envelope_refused_witness :
  let c := AuthCore ARGUS_AUTHORITY_SUPERVISORY ARGUS_AUTH_OWNER_MQTT 4294967295 ESP_OK in
  let env := Envelope ARGUS_CMD_SRC_MQTT_SUPERVISORY ARGUS_CMD_TYPE_START 4294967295 0 true in
  let ts := [(ARGUS_AUTHORITY_NONE, ARGUS_AUTH_OWNER_NONE);
             (ARGUS_AUTHORITY_SUPERVISORY, ARGUS_AUTH_OWNER_MQTT)] in
  let c' := auth_run core_exec (uncurry ASetMode <$> ts) c in
  let cm := (argus_state_core_init, 0) in
  ac_generation c' = 1 /\
  argus_cmd_router_dispatch code_of counting_ops true (Some env) (Some c', cm) =
    (ESP_ERR_INVALID_STATE, (Some c', cm)).
Proof.
  intros c env ts c' cm. split; [reflexivity|].
  apply (stale_envelope_refused code_of counting_ops true env c ts cm).
  - split; [reflexivity|]. unfold is_u32. cbn. lia.
  - reflexivity.
  - reflexivity.
  - repeat constructor.
  - cbn. lia.
  - cbn. lia.
Defined.

Lemma estop_always_dispatched_witness :
  let env := Envelope ARGUS_CMD_SRC_LOCAL_SERVICE_PORTAL ARGUS_CMD_TYPE_ESTOP 77 0 true in
  let '(err, (_, cm')) := argus_cmd_router_dispatch code_of counting_ops false (Some env)
    (None, (argus_state_core_init, 0)) in
  err = ESP_OK /\ machine_state cm'.1 = ARGUS_STATE_EMERGENCY_STOPPED.
Proof.
  intros env.
  pose proof (estop_always_dispatched code_of counting_ops false env (None, (argus_state_core_init, 0))) as H.
  destruct (argus_cmd_router_dispatch code_of counting_ops false (Some env)
    (None, (argus_state_core_init, 0))) as [err [auth' cm']].
  destruct H as (H1 & _ & H2 & _); [reflexivity|apply init_inv|discriminate|].
  split; [exact H1|exact H2].
Defined.

Lemma restart_closes_gate_witness :
  let auth := Some (AuthCore ARGUS_AUTHORITY_SUPERVISORY ARGUS_AUTH_OWNER_MQTT 5 ESP_OK) in
  let env := Envelope ARGUS_CMD_SRC_MQTT_SUPERVISORY ARGUS_CMD_TYPE_START 6 0 true in
  let sys := (auth, (argus_state_core_init <| configured_target_rpm_milli := 60000 |>, 0)) in
  let sys1 := (prod_revoke_authority sys).2 in
  let sys2 := (argus_cmd_router_dispatch code_of counting_ops true (Some env) sys1).2 in
  machine_state sys2.2.1 = ARGUS_STATE_UNLOCKED /\ revoked sys2.
Proof.
  intros auth env sys sys1 sys2. split; [reflexivity|].
  apply (proj2 (restart_closes_gate code_of counting_ops sys sys2)).
  eapply rtc_l; [apply (other_dispatch code_of counting_ops true (Some env))|]. apply rtc_refl.
Defined.
