(* ===== verification/MqttDecode.v ===== *)
(** * MQTT topics and payload decoders

    The first half of [src/main/argus_mqtt_contract.c]: the topic table, the
    classification of incoming topics, and the strict JSON decoders for
    heartbeats, commands and authority requests; and the identifier validators of
    [src/main/argus_identity.c] they rest on. *)

From S2P Require Import Prelude.

(** ** Identifiers *)

Definition id_char (c : Z) : bool := isalnum c || (c =? 45) || (c =? 95).

(** A NULL string is [None]. *)
Definition argus_identity_validate_client_id (client_id : option bytes) : bool :=
  match client_id with
  | None => false
  | Some s => (1 <=? length s)%nat && (length s <=? 32)%nat && forallb id_char s
  end.

Definition argus_identity_validate_unit_id (unit_id : option bytes) : bool :=
  match unit_id with
  | None => false
  | Some s => (1 <=? length s)%nat && (length s <=? 32)%nat && forallb id_char s
  end.

Definition argus_identity_validate_device_name (device_name : option bytes) : bool :=
  match device_name with
  | None => false
  | Some s => (1 <=? length s)%nat && (length s <=? 64)%nat && forallb isprint s
  end.

(** ** Topics

    The fields of [argus_mqtt_topics_t], with the leaf each is built from. *)
Inductive topic_field :=
| command_set_target | command_start | command_stop | command_unlock | command_e_stop
| command_reset_e_stop | command_recover | heartbeat | command_request_authority
| command_release_authority | event_authority_result | status_control_owner
| status_authority_epoch | status_authority_profile | status_local_control
| status_core_lease_status | status_authority_reason | metadata_device_name | metadata_model
| metadata_firmware_version | metadata_hardware_uid | state_online | state_supervisor_link
| state_mode | state_driver | state_direction | state_estop | state_fault | status_wifi
| status_mqtt | status_network_mode | status_authority_mode | status_authority_owner
| status_uptime_s | status_command_session | status_last_accepted_sequence
| status_network_fault | status_network_fault_action | status_auth_throttle
| telemetry_configured_target | telemetry_trajectory_target | telemetry_applied
| telemetry_generated | telemetry_step_count | telemetry_feedback_available | command_result.

#[export] Instance topic_field_eq_dec : EqDecision topic_field.
Proof. solve_decision. Defined.

Definition topic_leaf (f : topic_field) : bytes :=
  match f with
  | command_set_target => str "command/pump1/set_target_rpm_milli"
  | command_start => str "command/pump1/start"
  | command_stop => str "command/pump1/stop"
  | command_unlock => str "command/pump1/unlock"
  | command_e_stop => str "command/pump1/e_stop"
  | command_reset_e_stop => str "command/pump1/reset_e_stop"
  | command_recover => str "command/pump1/recover"
  | heartbeat => str "status/supervisor/heartbeat"
  | command_request_authority => str "command/core/request_authority"
  | command_release_authority => str "command/core/release_authority"
  | event_authority_result => str "event/core/authority_result"
  | status_control_owner => str "status/core/control_owner"
  | status_authority_epoch => str "status/core/authority_epoch"
  | status_authority_profile => str "status/core/authority_profile"
  | status_local_control => str "status/core/local_control_status"
  | status_core_lease_status => str "status/core/core_lease_status"
  | status_authority_reason => str "status/core/authority_reason"
  | metadata_device_name => str "metadata/core/device_name"
  | metadata_model => str "metadata/core/model"
  | metadata_firmware_version => str "metadata/core/firmware_version"
  | metadata_hardware_uid => str "metadata/core/hardware_uid"
  | state_online => str "state/core/online"
  | state_supervisor_link => str "state/supervisor/link"
  | state_mode => str "state/pump1/mode"
  | state_driver => str "state/pump1/driver"
  | state_direction => str "state/pump1/direction"
  | state_estop => str "state/pump1/estop"
  | state_fault => str "state/pump1/fault"
  | status_wifi => str "status/core/wifi"
  | status_mqtt => str "status/core/mqtt"
  | status_network_mode => str "status/core/network_mode"
  | status_authority_mode => str "status/core/authority_mode"
  | status_authority_owner => str "status/core/authority_owner"
  | status_uptime_s => str "status/core/uptime_s"
  | status_command_session => str "status/core/command_session"
  | status_last_accepted_sequence => str "status/core/last_accepted_sequence"
  | status_network_fault => str "status/core/network_fault"
  | status_network_fault_action => str "status/core/network_fault_action"
  | status_auth_throttle => str "status/core/auth_throttle"
  | telemetry_configured_target => str "telemetry/pump1/configured_target_rpm_milli"
  | telemetry_trajectory_target => str "telemetry/pump1/trajectory_target_rpm_milli"
  | telemetry_applied => str "telemetry/pump1/applied_rpm_milli"
  | telemetry_generated => str "telemetry/pump1/generated_rpm_milli"
  | telemetry_step_count => str "telemetry/pump1/generated_step_count"
  | telemetry_feedback_available => str "telemetry/pump1/feedback_available"
  | command_result => str "event/pump1/command_result"
  end.

Definition all_topic_fields : list topic_field :=
  [command_set_target; command_start; command_stop; command_unlock; command_e_stop;
   command_reset_e_stop; command_recover; heartbeat; command_request_authority;
   command_release_authority; event_authority_result; status_control_owner;
   status_authority_epoch; status_authority_profile; status_local_control;
   status_core_lease_status; status_authority_reason; metadata_device_name; metadata_model;
   metadata_firmware_version; metadata_hardware_uid; state_online; state_supervisor_link;
   state_mode; state_driver; state_direction; state_estop; state_fault; status_wifi;
   status_mqtt; status_network_mode; status_authority_mode; status_authority_owner;
   status_uptime_s; status_command_session; status_last_accepted_sequence;
   status_network_fault; status_network_fault_action; status_auth_throttle;
   telemetry_configured_target; telemetry_trajectory_target; telemetry_applied;
   telemetry_generated; telemetry_step_count; telemetry_feedback_available; command_result].

Record argus_mqtt_topics_t := Topics {
  tp_root : bytes;
  tp_topic : topic_field -> bytes
}.

(** [snprintf(out, out_size, "%s/%s", root, leaf)] with the truncation check. *)
Definition make_topic (out_size : nat) (root leaf : bytes) : option bytes :=
  let s := root ++ str "/" ++ leaf in
  if (length s <? out_size)%nat then Some s else None.

Definition argus_mqtt_topics_build (client_id unit_id : option bytes)
    : esp_err_t * option argus_mqtt_topics_t :=
  if negb (argus_identity_validate_client_id client_id)
     || negb (argus_identity_validate_unit_id unit_id) then (ESP_ERR_INVALID_ARG, None)
  else
    let root := str "argus/" ++ default [] client_id ++ str "/" ++ default [] unit_id in
    if (72 <=? length root)%nat then (ESP_ERR_INVALID_SIZE, None)
    else if forallb (fun f => bool_decide (is_Some (make_topic 160 root (topic_leaf f))))
              all_topic_fields
    then (ESP_OK, Some (Topics root (fun f => default [] (make_topic 160 root (topic_leaf f)))))
    else (ESP_ERR_INVALID_SIZE, None).

Inductive argus_mqtt_action_t :=
| ARGUS_MQTT_ACTION_NONE
| ARGUS_MQTT_ACTION_SET_TARGET
| ARGUS_MQTT_ACTION_START
| ARGUS_MQTT_ACTION_STOP
| ARGUS_MQTT_ACTION_UNLOCK
| ARGUS_MQTT_ACTION_E_STOP
| ARGUS_MQTT_ACTION_RESET_E_STOP
| ARGUS_MQTT_ACTION_RECOVER
| ARGUS_MQTT_ACTION_HEARTBEAT
| ARGUS_MQTT_ACTION_REQUEST_AUTHORITY
| ARGUS_MQTT_ACTION_RELEASE_AUTHORITY.

#[export] Instance action_eq_dec : EqDecision argus_mqtt_action_t.
Proof. solve_decision. Defined.

(** The comparisons of [classify], in order. *)
Definition classify_table : list (topic_field * argus_mqtt_action_t) :=
  [(command_set_target, ARGUS_MQTT_ACTION_SET_TARGET);
   (command_start, ARGUS_MQTT_ACTION_START);
   (command_stop, ARGUS_MQTT_ACTION_STOP);
   (command_unlock, ARGUS_MQTT_ACTION_UNLOCK);
   (command_e_stop, ARGUS_MQTT_ACTION_E_STOP);
   (command_reset_e_stop, ARGUS_MQTT_ACTION_RESET_E_STOP);
   (command_recover, ARGUS_MQTT_ACTION_RECOVER);
   (heartbeat, ARGUS_MQTT_ACTION_HEARTBEAT);
   (command_request_authority, ARGUS_MQTT_ACTION_REQUEST_AUTHORITY);
   (command_release_authority, ARGUS_MQTT_ACTION_RELEASE_AUTHORITY)].

Fixpoint classify_in (table : list (topic_field * argus_mqtt_action_t))
    (topics : argus_mqtt_topics_t) (topic : bytes) : argus_mqtt_action_t :=
  match table with
  | [] => ARGUS_MQTT_ACTION_NONE
  | (f, a) :: table =>
      if bool_decide (topic = tp_topic topics f) then a else classify_in table topics topic
  end.

Definition argus_mqtt_topics_classify (topics : argus_mqtt_topics_t) (topic : bytes)
    : argus_mqtt_action_t := classify_in classify_table topics topic.

(** A broker message: topic, payload bytes, flags. *)
Definition argus_mqtt_topics_external_publish_allowed (topics : argus_mqtt_topics_t)
    (topic payload : bytes) (retain : bool) : bool :=
  if retain || (385 <=? length payload)%nat || existsb (Z.eqb 0) payload then false
  else negb (bool_decide (argus_mqtt_topics_classify topics topic = ARGUS_MQTT_ACTION_NONE)).

Definition argus_mqtt_action_name (action : argus_mqtt_action_t) : bytes :=
  match action with
  | ARGUS_MQTT_ACTION_SET_TARGET => str "set_target_rpm_milli"
  | ARGUS_MQTT_ACTION_START => str "start"
  | ARGUS_MQTT_ACTION_STOP => str "stop"
  | ARGUS_MQTT_ACTION_UNLOCK => str "unlock"
  | ARGUS_MQTT_ACTION_E_STOP => str "e_stop"
  | ARGUS_MQTT_ACTION_RESET_E_STOP => str "reset_e_stop"
  | ARGUS_MQTT_ACTION_RECOVER => str "recover"
  | ARGUS_MQTT_ACTION_HEARTBEAT => str "heartbeat"
  | ARGUS_MQTT_ACTION_REQUEST_AUTHORITY => str "request_authority"
  | ARGUS_MQTT_ACTION_RELEASE_AUTHORITY => str "release_authority"
  | ARGUS_MQTT_ACTION_NONE => str "unknown"
  end.

(** ** The JSON cursor

    The cursor is the list of the bytes from [p] to [end]. *)

Definition json_ws (c : Z) : bool := (c =? 32) || (c =? 9) || (c =? 13) || (c =? 10).
Definition skip_ws (l : bytes) : bytes := skip_while json_ws l.

Definition consume (expected : Z) (l : bytes) : option bytes :=
  match skip_ws l with
  | c :: l => if c =? expected then Some l else None
  | [] => None
  end.

(** The bytes of a string up to its closing quote; [room] is [out_size - 1 - len]. *)
Fixpoint string_body (room : nat) (l : bytes) {struct l} : option (bytes * bytes) :=
  match l with
  | [] => None
  | c :: l =>
      if c =? 34 then Some ([], l)
      else if (c <? 32) || (c =? 92) then None
      else match room with
           | O => None
           | S room => '(s, rest) ← string_body room l; Some (c :: s, rest)
           end
  end.

Definition parse_string (out_size : nat) (l : bytes) : option (bytes * bytes) :=
  match skip_ws l with
  | c :: l => if (c =? 34) && (0 <? out_size)%nat then string_body (out_size - 1) l else None
  | [] => None
  end.

(** The digit loop, with its overflow check. *)
Fixpoint u32_digits (v : Z) (l : bytes) : option (Z * bytes) :=
  match l with
  | c :: l' =>
      if isdigit c then
        let v := v * 10 + (c - 48) in
        if UINT32_MAX <? v then None else u32_digits v l'
      else Some (v, l)
  | [] => Some (v, [])
  end.

Definition parse_u32 (l : bytes) : option (Z * bytes) :=
  let l := skip_ws l in
  match l with
  | [] => None
  | c :: _ =>
      if negb (isdigit c) then None
      else
        '(v, rest) ← u32_digits 0 l;
        if (1 <? length l - length rest)%nat && (c =? 48) then None
        else match rest with
             | d :: _ => if (d =? 46) || (d =? 101) || (d =? 69) then None else Some (v, rest)
             | [] => Some (v, rest)
             end
  end.

Definition parse_true (l : bytes) : option bytes :=
  let l := skip_ws l in
  if (length l <? 4)%nat || negb (bool_decide (take 4 l = str "true")) then None
  else Some (drop 4 l).

Definition hex_char (c : Z) : bool := isdigit c || in_range 97 102 c.
Definition valid_session (s : bytes) : bool := (length s =? 16)%nat && forallb hex_char s.

Definition command_id_char (c : Z) : bool :=
  isalnum c || (c =? 45) || (c =? 95) || (c =? 46) || (c =? 58).
Definition valid_command_id (s : bytes) : bool :=
  negb (length s =? 0)%nat && (length s <=? 36)%nat && forallb command_id_char s.

Definition request_id_char (c : Z) : bool :=
  isalnum c || (c =? 46) || (c =? 95) || (c =? 45).
Definition valid_request_id (s : bytes) : bool :=
  negb (length s =? 0)%nat && (length s <=? 36)%nat && forallb request_id_char s.

Definition valid_intent (s : bytes) : bool :=
  bool_decide (s = str "OPERATOR_INTENT") || bool_decide (s = str "SUPERVISORY_START")
  || bool_decide (s = str "SERVICE") || bool_decide (s = str "FALLBACK").

Inductive argus_mqtt_decode_result_t :=
| ARGUS_MQTT_DECODE_INVALID_ARGUMENT
| ARGUS_MQTT_DECODE_MALFORMED
| ARGUS_MQTT_DECODE_UNKNOWN_FIELD
| ARGUS_MQTT_DECODE_DUPLICATE_FIELD
| ARGUS_MQTT_DECODE_MISSING_FIELD
| ARGUS_MQTT_DECODE_INVALID_VALUE
| ARGUS_MQTT_DECODE_TOO_LARGE
| ARGUS_MQTT_DECODE_SCHEMA_UNSUPPORTED
| ARGUS_MQTT_DECODE_INVALID_REQUEST_ID.

#[export] Instance decode_result_eq_dec : EqDecision argus_mqtt_decode_result_t.
Proof. solve_decision. Defined.

(** [DECODE_OK] with the decoded value, an error, or (never, see
    [decoders_terminate]) the loop's fuel spent. *)
Inductive decoded (A : Type) :=
| DecodeOk (a : A)
| DecodeErr (e : argus_mqtt_decode_result_t)
| DecodeFuel.
Arguments DecodeOk {_} _.
Arguments DecodeErr {_} _.
Arguments DecodeFuel {_}.

Definition validate_payload (payload : bytes) : option argus_mqtt_decode_result_t :=
  if (length payload =? 0)%nat then Some ARGUS_MQTT_DECODE_MALFORMED
  else if (385 <=? length payload)%nat then Some ARGUS_MQTT_DECODE_TOO_LARGE
  else if existsb (Z.eqb 0) payload then Some ARGUS_MQTT_DECODE_MALFORMED
  else None.

(** What a decoder does with one field: its bit, the parsed value with the rest
    ([None] where [valid] is false), and the error of an invalid value. *)
Inductive field_result (A : Type) :=
| FUnknown
| FField (bit : Z) (parsed : option (A * bytes)) (on_invalid : argus_mqtt_decode_result_t).
Arguments FUnknown {_}.
Arguments FField {_} _ _ _.

(** The [while (true)] loop shared by the three decoders. *)
Fixpoint decode_loop {A} (handle : bytes -> bytes -> A -> field_result A)
    (fuel : nat) (fields : Z) (after_comma : bool) (l : bytes) (a : A)
    : decoded (Z * A * bytes) :=
  match fuel with
  | O => DecodeFuel
  | S fuel =>
      let l := skip_ws l in
      if match l with c :: _ => c =? 125 | [] => false end then
        if after_comma then DecodeErr ARGUS_MQTT_DECODE_MALFORMED
        else DecodeOk (fields, a, drop 1 l)
      else
        match '(key, l) ← parse_string 24 l; l ← consume 58 l; Some (key, l) with
        | None => DecodeErr ARGUS_MQTT_DECODE_MALFORMED
        | Some (key, l) =>
            match handle key l a with
            | FUnknown => DecodeErr ARGUS_MQTT_DECODE_UNKNOWN_FIELD
            | FField bit parsed on_invalid =>
                if negb (Z.land fields bit =? 0) then DecodeErr ARGUS_MQTT_DECODE_DUPLICATE_FIELD
                else
                  match parsed with
                  | None => DecodeErr on_invalid
                  | Some (a, l) =>
                      let fields := Z.lor fields bit in
                      match skip_ws l with
                      | c :: l =>
                          if c =? 44 then decode_loop handle fuel fields true l a
                          else if c =? 125 then DecodeOk (fields, a, l)
                          else DecodeErr ARGUS_MQTT_DECODE_MALFORMED
                      | [] => DecodeErr ARGUS_MQTT_DECODE_MALFORMED
                      end
                  end
            end
        end
  end.

(** The frame of the decoders: payload checks, the object, no trailing content,
    and the required fields. *)
Definition decode_object {A} (handle : bytes -> bytes -> A -> field_result A)
    (required : Z -> bool) (a0 : A) (payload : option bytes) : decoded A :=
  match payload with
  | None => DecodeErr ARGUS_MQTT_DECODE_INVALID_ARGUMENT
  | Some payload =>
      match validate_payload payload with
      | Some e => DecodeErr e
      | None =>
          match consume 123 payload with
          | None => DecodeErr ARGUS_MQTT_DECODE_MALFORMED
          | Some l =>
              match decode_loop handle (S (length l)) 0 false l a0 with
              | DecodeOk (fields, a, rest) =>
                  match skip_ws rest with
                  | [] => if required fields then DecodeOk a
                          else DecodeErr ARGUS_MQTT_DECODE_MISSING_FIELD
                  | _ => DecodeErr ARGUS_MQTT_DECODE_MALFORMED
                  end
              | DecodeErr e => DecodeErr e
              | DecodeFuel => DecodeFuel
              end
          end
      end
  end.

(** A string or number field with its validity test. *)
Definition string_field {A} (cap : nat) (valid : bytes -> bool) (set : bytes -> A -> A)
    (l : bytes) (a : A) : option (A * bytes) :=
  '(s, rest) ← parse_string cap l;
  if valid s then Some (set s a, rest) else None.

Definition u32_field {A} (valid : Z -> bool) (set : Z -> A -> A)
    (l : bytes) (a : A) : option (A * bytes) :=
  '(v, rest) ← parse_u32 l;
  if valid v then Some (set v a, rest) else None.

Definition nonzero (v : Z) : bool := negb (v =? 0).

(** ** The decoders *)

Record argus_mqtt_heartbeat_t := Heartbeat { hb_session : bytes; hb_counter : Z }.
#[export] Instance eta_heartbeat : Eta argus_mqtt_heartbeat_t := fun h =>
  Heartbeat (hb_session h) (hb_counter h).

Definition heartbeat_field (key l : bytes) (a : argus_mqtt_heartbeat_t)
    : field_result argus_mqtt_heartbeat_t :=
  if bool_decide (key = str "session") then
    FField 1 (string_field 17 valid_session (fun s a => a <| hb_session := s |>) l a)
      ARGUS_MQTT_DECODE_INVALID_VALUE
  else if bool_decide (key = str "counter") then
    FField 2 (u32_field nonzero (fun v a => a <| hb_counter := v |>) l a)
      ARGUS_MQTT_DECODE_INVALID_VALUE
  else FUnknown.

Definition argus_mqtt_decode_heartbeat (payload : option bytes) : decoded argus_mqtt_heartbeat_t :=
  decode_object heartbeat_field (Z.eqb 3) (Heartbeat [] 0) payload.

Record argus_mqtt_command_t := Command {
  cd_session : bytes;
  cd_sequence : Z;
  cd_command_id : bytes;
  cd_authority_epoch : Z;
  cd_action : argus_mqtt_action_t;
  cd_target_rpm_milli : Z;
  cd_forward : bool
}.
#[export] Instance eta_command : Eta argus_mqtt_command_t := fun c =>
  Command (cd_session c) (cd_sequence c) (cd_command_id c) (cd_authority_epoch c)
    (cd_action c) (cd_target_rpm_milli c) (cd_forward c).

Definition is_set_target (a : argus_mqtt_action_t) : bool :=
  match a with ARGUS_MQTT_ACTION_SET_TARGET => true | _ => false end.

Definition command_field (action : argus_mqtt_action_t) (max_rpm_milli : Z)
    (key l : bytes) (a : argus_mqtt_command_t) : field_result argus_mqtt_command_t :=
  let inv := ARGUS_MQTT_DECODE_INVALID_VALUE in
  if bool_decide (key = str "session") then
    FField 1 (string_field 17 valid_session (fun s a => a <| cd_session := s |>) l a) inv
  else if bool_decide (key = str "sequence") then
    FField 2 (u32_field nonzero (fun v a => a <| cd_sequence := v |>) l a) inv
  else if bool_decide (key = str "command_id") then
    FField 4 (string_field 37 valid_command_id (fun s a => a <| cd_command_id := s |>) l a) inv
  else if bool_decide (key = str "value") then
    FField 8
      (if is_set_target action then
         u32_field (fun v => v <=? max_rpm_milli) (fun v a => a <| cd_target_rpm_milli := i32 v |>) l a
       else rest ← parse_true l; Some (a, rest)) inv
  else if bool_decide (key = str "authority_epoch") then
    FField 16 (u32_field (fun _ => true) (fun v a => a <| cd_authority_epoch := v |>) l a) inv
  else FUnknown.

(** SET_TARGET .. RECOVER. *)
Definition is_command_action (a : argus_mqtt_action_t) : bool :=
  match a with
  | ARGUS_MQTT_ACTION_SET_TARGET | ARGUS_MQTT_ACTION_START | ARGUS_MQTT_ACTION_STOP
  | ARGUS_MQTT_ACTION_UNLOCK | ARGUS_MQTT_ACTION_E_STOP | ARGUS_MQTT_ACTION_RESET_E_STOP
  | ARGUS_MQTT_ACTION_RECOVER => true
  | _ => false
  end.

Definition argus_mqtt_decode_command (payload : option bytes) (action : argus_mqtt_action_t)
    (max_rpm_milli : Z) : decoded argus_mqtt_command_t :=
  if negb (is_command_action action) || (max_rpm_milli <? 0) then
    DecodeErr ARGUS_MQTT_DECODE_INVALID_ARGUMENT
  else decode_object (command_field action max_rpm_milli) (Z.eqb 31)
         (Command [] 0 [] 0 action 0 true) payload.

Record argus_mqtt_authority_request_t := AuthorityRequest {
  ar_schema : Z;
  ar_request_id : bytes;
  ar_session : bytes;
  ar_authority_epoch : Z;
  ar_intent : bytes;
  ar_has_intent : bool
}.
#[export] Instance eta_authority_request : Eta argus_mqtt_authority_request_t := fun r =>
  AuthorityRequest (ar_schema r) (ar_request_id r) (ar_session r) (ar_authority_epoch r)
    (ar_intent r) (ar_has_intent r).

Definition authority_field (key l : bytes) (a : argus_mqtt_authority_request_t)
    : field_result argus_mqtt_authority_request_t :=
  if bool_decide (key = str "schema") then
    FField 1 (u32_field (Z.eqb 1) (fun v a => a <| ar_schema := v |>) l a)
      ARGUS_MQTT_DECODE_SCHEMA_UNSUPPORTED
  else if bool_decide (key = str "request_id") then
    FField 2 (string_field 37 valid_request_id (fun s a => a <| ar_request_id := s |>) l a)
      ARGUS_MQTT_DECODE_INVALID_REQUEST_ID
  else if bool_decide (key = str "session") then
    FField 4 (string_field 17 valid_session (fun s a => a <| ar_session := s |>) l a)
      ARGUS_MQTT_DECODE_INVALID_VALUE
  else if bool_decide (key = str "authority_epoch") then
    FField 8 (u32_field (fun _ => true) (fun v a => a <| ar_authority_epoch := v |>) l a)
      ARGUS_MQTT_DECODE_INVALID_VALUE
  else if bool_decide (key = str "intent") then
    FField 16 (string_field 25 valid_intent
                 (fun s a => a <| ar_intent := s |> <| ar_has_intent := true |>) l a)
      ARGUS_MQTT_DECODE_INVALID_VALUE
  else FUnknown.

Definition argus_mqtt_decode_authority_request (payload : option bytes) (is_release : bool)
    : decoded argus_mqtt_authority_request_t :=
  if (384 <? length (default [] payload))%nat then DecodeErr ARGUS_MQTT_DECODE_TOO_LARGE
  else
    match decode_object authority_field (fun fields => Z.land fields 15 =? 15)
            (AuthorityRequest 0 [] [] 0 [] false) payload with
    | DecodeOk a =>
        if is_release && (ar_authority_epoch a =? 0)
        then DecodeErr ARGUS_MQTT_DECODE_INVALID_VALUE else DecodeOk a
    | r => r
    end.

(** ** Termination: the fuel is always enough *)

Lemma skip_while_length p l : (length (skip_while p l) <= length l)%nat.
Proof. induction l as [|c l IH]; cbn; [lia|]. case_match; cbn; lia. Qed.

Lemma consume_length c l l' : consume c l = Some l' -> (length l' < length l)%nat.
Proof.
  unfold consume, skip_ws. pose proof (skip_while_length json_ws l).
  destruct (skip_while json_ws l); [done|]. case_match; intros; simplify_eq/=. lia.
Qed.

Lemma string_body_length room l s l' :
  string_body room l = Some (s, l') -> (length l' < length l)%nat.
Proof.
  revert room s. induction l as [|c l IH]; intros room s; [done|]. cbn.
  destruct (c =? 34); [intros [= <- <-]; lia|].
  destruct ((c <? 32) || (c =? 92)); [done|]. destruct room as [|n]; [done|].
  destruct (string_body n l) as [[s1 l1]|] eqn:Hs; [|done].
  intros [= _ <-]. apply IH in Hs. lia.
Qed.

Lemma parse_string_length cap l s l' :
  parse_string cap l = Some (s, l') -> (length l' < length l)%nat.
Proof.
  unfold parse_string, skip_ws. pose proof (skip_while_length json_ws l).
  destruct (skip_while json_ws l); [done|]. case_match; [|done].
  intros Hs. apply string_body_length in Hs. cbn in *. lia.
Qed.

Lemma u32_digits_length v l v' l' : u32_digits v l = Some (v', l') -> (length l' <= length l)%nat.
Proof.
  revert v. induction l as [|c l IH]; intros v; cbn; [by intros [= _ <-]|].
  destruct (isdigit c); [|by intros [= _ <-]].
  destruct (UINT32_MAX <? _); [done|]. intros H. apply IH in H. lia.
Qed.

Lemma parse_u32_length l v l' : parse_u32 l = Some (v, l') -> (length l' <= length l)%nat.
Proof.
  unfold parse_u32, skip_ws. pose proof (skip_while_length json_ws l).
  destruct (skip_while json_ws l) as [|c m] eqn:Hm; [done|]. case_match; [done|].
  destruct (u32_digits 0 (c :: m)) as [[v1 l1]|] eqn:Hd; [|done]. cbn [mbind option_bind].
  apply u32_digits_length in Hd. repeat case_match; intros; simplify_eq/=; lia.
Qed.

(** A field handler never gives back more than it got. *)
Definition shrinks {A} (handle : bytes -> bytes -> A -> field_result A) : Prop :=
  forall key l a bit a' l' e,
    handle key l a = FField bit (Some (a', l')) e -> (length l' <= length l)%nat.

Lemma decode_loop_fuel {A} (handle : bytes -> bytes -> A -> field_result A) fuel fields ac l a :
  shrinks handle -> (length l < fuel)%nat -> decode_loop handle fuel fields ac l a <> DecodeFuel.
Proof.
  intros Hh. revert fields ac l a. induction fuel as [|fuel IH]; intros fields ac l a Hf; [lia|].
  cbn [decode_loop]. unfold skip_ws at 1 2.
  pose proof (skip_while_length json_ws l) as Hl. set (l1 := skip_while json_ws l) in *.
  change (skip_ws l) with l1. clearbody l1.
  case_match; [by destruct ac|].
  destruct (parse_string 24 l1) as [[key l2]|] eqn:Hs; cbn [mbind option_bind]; [|done].
  destruct (consume 58 l2) as [l3|] eqn:Hc; cbn [mbind option_bind]; [|done].
  apply parse_string_length in Hs. apply consume_length in Hc.
  destruct (handle key l3 a) as [|bit parsed inv] eqn:Hk; [done|].
  destruct (negb (Z.land fields bit =? 0)); [done|]. destruct parsed as [[a' l4]|]; [|done].
  apply Hh in Hk. pose proof (skip_while_length json_ws l4). unfold skip_ws.
  destruct (skip_while json_ws l4) as [|c l5]; [done|]. cbn in *.
  destruct (c =? 44); [apply IH; lia|]. by destruct (c =? 125).
Qed.

Lemma string_field_shrinks {A} cap valid (set : bytes -> A -> A) l a a' l' :
  string_field cap valid set l a = Some (a', l') -> (length l' <= length l)%nat.
Proof.
  unfold string_field. destruct (parse_string cap l) as [[s r]|] eqn:H; [|done].
  apply parse_string_length in H. cbn. case_match; intros; simplify_eq. lia.
Qed.

Lemma u32_field_shrinks {A} valid (set : Z -> A -> A) l a a' l' :
  u32_field valid set l a = Some (a', l') -> (length l' <= length l)%nat.
Proof.
  unfold u32_field. destruct (parse_u32 l) as [[s r]|] eqn:H; [|done].
  apply parse_u32_length in H. cbn. case_match; intros; simplify_eq. lia.
Qed.

Lemma heartbeat_shrinks : shrinks heartbeat_field.
Proof.
  intros key l a bit a' l' e. unfold heartbeat_field.
  repeat case_match; intros [= <- Hf _];
    eauto using string_field_shrinks, u32_field_shrinks.
Qed.

Lemma command_shrinks action max : shrinks (command_field action max).
Proof.
  intros key l a bit a' l' e. unfold command_field.
  repeat case_match; intros [= <- Hf _]; eauto using string_field_shrinks, u32_field_shrinks.
  unfold parse_true, skip_ws in Hf. pose proof (skip_while_length json_ws l).
  case_match; [done|]. cbn in Hf. simplify_eq. rewrite length_drop. lia.
Qed.

Lemma authority_shrinks : shrinks authority_field.
Proof.
  intros key l a bit a' l' e. unfold authority_field.
  repeat case_match; intros [= <- Hf _]; eauto using string_field_shrinks, u32_field_shrinks.
Qed.

Lemma decode_object_total {A} (handle : bytes -> bytes -> A -> field_result A) req a0 p :
  shrinks handle -> decode_object handle req a0 p <> DecodeFuel.
Proof.
  intros Hh. unfold decode_object. destruct p as [p|]; [|done].
  destruct (validate_payload p); [done|]. destruct (consume 123 p) as [l|]; [|done].
  pose proof (decode_loop_fuel handle (S (length l)) 0 false l a0 Hh ltac:(lia)).
  repeat case_match; congruence.
Qed.

(** The three payload decoders return on every payload: their loops consume input
    on every round, so the fuel (one more than the remaining length) never runs out. *)
Theorem decoders_terminate payload action max rel :
  argus_mqtt_decode_heartbeat payload <> DecodeFuel /\
  argus_mqtt_decode_command payload action max <> DecodeFuel /\
  argus_mqtt_decode_authority_request payload rel <> DecodeFuel.
Proof.
  unfold argus_mqtt_decode_heartbeat, argus_mqtt_decode_command, argus_mqtt_decode_authority_request.
  split; [|split].
  - apply decode_object_total, heartbeat_shrinks.
  - case_match; [done|]. apply decode_object_total, command_shrinks.
  - case_match; [done|].
    pose proof (decode_object_total authority_field (fun fields => Z.land fields 15 =? 15)
      (AuthorityRequest 0 [] [] 0 [] false) payload authority_shrinks).
    repeat case_match; congruence.
Qed.

(** ** What is accepted is well formed *)

Lemma u32_digits_range v l v' l' :
  0 <= v <= UINT32_MAX -> u32_digits v l = Some (v', l') -> 0 <= v' <= UINT32_MAX.
Proof.
  revert v. induction l as [|c l IH]; intros v Hv; cbn; [by intros [= <- _]|].
  destruct (isdigit c) eqn:Hc; [|by intros [= <- _]]. apply in_range_spec in Hc.
  destruct (Z.ltb_spec UINT32_MAX (v * 10 + (c - 48))); [done|]. apply IH. lia.
Qed.

Lemma parse_u32_range l v l' : parse_u32 l = Some (v, l') -> 0 <= v <= UINT32_MAX.
Proof.
  unfold parse_u32. destruct (skip_ws l) as [|c m]; [done|].
  destruct (negb (isdigit c)); [done|].
  destruct (u32_digits 0 (c :: m)) as [[v1 l1]|] eqn:Hd; [|done].
  apply u32_digits_range in Hd; [|unfold UINT32_MAX; lia].
  cbn [mbind option_bind]. repeat case_match; intros; by simplify_eq.
Qed.

Lemma string_field_valid {A} cap valid (set : bytes -> A -> A) l a a' l' :
  string_field cap valid set l a = Some (a', l') -> exists s, valid s = true /\ a' = set s a.
Proof.
  unfold string_field. destruct (parse_string cap l) as [[s r]|]; [|done].
  cbn. destruct (valid s) eqn:?; [|done]. intros [= <- _]. eauto.
Qed.

Lemma u32_field_valid {A} valid (set : Z -> A -> A) l a a' l' :
  u32_field valid set l a = Some (a', l') ->
  exists v, valid v = true /\ 0 <= v <= UINT32_MAX /\ a' = set v a.
Proof.
  unfold u32_field. destruct (parse_u32 l) as [[v r]|] eqn:Hp; [|done].
  apply parse_u32_range in Hp. cbn. destruct (valid v) eqn:?; [|done]. intros [= <- _]. eauto.
Qed.

(** An invariant of the fields seen so far and the value built from them. *)
Lemma decode_loop_inv {A} (handle : bytes -> bytes -> A -> field_result A) (I : Z -> A -> Prop)
    fuel fields ac l a fields' a' rest :
  (forall key l a bit a' l' e fields,
     handle key l a = FField bit (Some (a', l')) e -> I fields a -> I (Z.lor fields bit) a') ->
  I fields a -> decode_loop handle fuel fields ac l a = DecodeOk (fields', a', rest) -> I fields' a'.
Proof.
  intros Hh. revert fields ac l a. induction fuel as [|fuel IH]; intros fields ac l a Hi; [done|].
  cbn [decode_loop].
  destruct (match skip_ws l with c :: _ => c =? 125 | [] => false end).
  { destruct ac; [done|]. by intros [= <- <- _]. }
  destruct (parse_string 24 (skip_ws l)) as [[key l2]|]; cbn [mbind option_bind]; [|done].
  destruct (consume 58 l2) as [l3|]; cbn [mbind option_bind]; [|done].
  destruct (handle key l3 a) as [|bit parsed inv] eqn:Hk; [done|].
  destruct (negb (Z.land fields bit =? 0)); [done|]. destruct parsed as [[a1 l4]|]; [|done].
  specialize (Hh _ _ _ _ _ _ _ fields Hk Hi).
  destruct (skip_ws l4) as [|c l5]; [done|].
  destruct (c =? 44); [by apply IH|]. destruct (c =? 125); [|done]. by intros [= <- <- _].
Qed.

Lemma decode_object_inv {A} (handle : bytes -> bytes -> A -> field_result A) (I : Z -> A -> Prop)
    req a0 p a :
  (forall key l a bit a' l' e fields,
     handle key l a = FField bit (Some (a', l')) e -> I fields a -> I (Z.lor fields bit) a') ->
  I 0 a0 -> decode_object handle req a0 p = DecodeOk a ->
  exists fields, req fields = true /\ I fields a.
Proof.
  intros Hh H0. unfold decode_object. destruct p as [p|]; [|done].
  destruct (validate_payload p); [done|]. destruct (consume 123 p) as [l|]; [|done].
  destruct (decode_loop handle (S (length l)) 0 false l a0) as [[[fields a1] rest]|e|] eqn:Hd; try done.
  apply (decode_loop_inv handle I) in Hd; [|done|done].
  destruct (skip_ws rest); [|done]. destruct (req fields) eqn:Hr; [|done].
  intros [= <-]. eauto.
Qed.

(** Bit [n] of [fields]. *)
Definition seen (fields n : Z) : bool := Z.testbit fields n.
Arguments seen : simpl never.

Lemma seen_lor fields b n : Z.testbit b n = false -> seen (Z.lor fields b) n = seen fields n.
Proof. intros Hb. unfold seen. by rewrite Z.lor_spec, Hb, orb_false_r. Qed.

(** The meaning of the bits of [fields] in the command decoder. *)
Record command_seen (action : argus_mqtt_action_t) (max : Z) (fields : Z)
    (c : argus_mqtt_command_t) : Prop := {
  seen_session : seen fields 0 = true -> valid_session (cd_session c) = true;
  seen_sequence : seen fields 1 = true -> 1 <= cd_sequence c <= UINT32_MAX;
  seen_command_id : seen fields 2 = true -> valid_command_id (cd_command_id c) = true;
  seen_value : 0 <= cd_target_rpm_milli c <= max;
  seen_value0 : is_set_target action = false -> cd_target_rpm_milli c = 0;
  seen_epoch : seen fields 4 = true -> 0 <= cd_authority_epoch c <= UINT32_MAX;
  seen_action : cd_action c = action;
  seen_forward : cd_forward c = true
}.

Lemma command_seen_step action max : max <= INT32_MAX ->
  forall key l a bit a' l' e fields,
    command_field action max key l a = FField bit (Some (a', l')) e ->
    command_seen action max fields a -> command_seen action max (Z.lor fields bit) a'.
Proof.
  intros Hmax key l a bit a' l' e fields. unfold command_field.
  repeat case_match; intros [= <- Hf _].
  - apply string_field_valid in Hf as (s & Hv & ->). intros []. by split; cbn; rewrite ?seen_lor by reflexivity.
  - apply u32_field_valid in Hf as (v & Hv & Hr & ->). intros []. split; cbn; rewrite ?seen_lor by reflexivity; try done.
    intros _. unfold nonzero in Hv. apply negb_true_iff, Z.eqb_neq in Hv. lia.
  - apply string_field_valid in Hf as (s & Hv & ->). intros []. by split; cbn; rewrite ?seen_lor by reflexivity.
  - apply u32_field_valid in Hf as (v & Hv & Hr & ->). intros []. apply Z.leb_le in Hv.
    unfold INT32_MAX, UINT32_MAX in *.
    split; cbn; rewrite ?seen_lor by reflexivity; rewrite ?i32_small by (unfold is_i32; lia); done || lia || congruence.
  - destruct (parse_true l); cbn in Hf; simplify_eq. intros []. by split; cbn; rewrite ?seen_lor by reflexivity.
  - apply u32_field_valid in Hf as (v & Hv & Hr & ->). intros []. by split; cbn; rewrite ?seen_lor by reflexivity.
Qed.

(** Every command the decoder accepts is well formed: its session is 16 lower-case
    hexadecimal digits, its sequence is a nonzero 32-bit number, its command id is 1 to
    36 permitted characters, its target is within the configured maximum (and 0 for any
    other action), and it carries the action of its topic. *)
Theorem decoded_command_valid payload action max c :
  max <= INT32_MAX ->
  argus_mqtt_decode_command payload action max = DecodeOk c ->
  valid_session (cd_session c) = true /\ 1 <= cd_sequence c <= UINT32_MAX /\
  valid_command_id (cd_command_id c) = true /\ 0 <= cd_target_rpm_milli c <= max /\
  (is_set_target action = false -> cd_target_rpm_milli c = 0) /\
  0 <= cd_authority_epoch c <= UINT32_MAX /\ cd_action c = action /\
  is_command_action action = true.
Proof.
  intros Hmax. unfold argus_mqtt_decode_command.
  destruct (is_command_action action) eqn:Ha; [|done]. cbn [negb orb].
  destruct (Z.ltb_spec max 0) as [|H0]; [done|]. intros Hd.
  apply (decode_object_inv _ (command_seen action max)) in Hd as (fields & Hr & []).
  - apply Z.eqb_eq in Hr. subst fields. repeat split; auto; try apply seen_value1.
    all: try (by apply seen_sequence0). all: try (by apply seen_epoch0); lia.
  - by apply command_seen_step.
  - split; cbn; try done; lia.
Qed.

(** ** Round trips *)

Lemma all_check p s : forallb p s = true -> all p s.
Proof.
  intros H. apply Forall_forall. intros c Hc.
  apply forallb_forall with (x := c) in H; [done|]. by apply list_elem_of_In.
Qed.

Definition plain_char (c : Z) : bool := (32 <=? c) && negb (c =? 34) && negb (c =? 92).

Lemma string_body_quoted s room rest :
  all plain_char s -> (length s <= room)%nat ->
  string_body room (s ++ 34 :: rest) = Some (s, rest).
Proof.
  intros H. revert room. induction H as [|c s Hc _ IH]; intros room Hr; [by destruct room|]. cbn in *.
  unfold plain_char in Hc. b2p. rewrite (proj2 (Z.eqb_neq c 34)) by done.
  rewrite (proj2 (Z.ltb_ge c 32)) by done. rewrite (proj2 (Z.eqb_neq c 92)) by done. cbn.
  destruct room as [|room]; [lia|]. by rewrite IH by lia.
Qed.

Lemma parse_string_quoted cap s rest :
  all plain_char s -> (length s < cap)%nat ->
  parse_string cap (quoted s ++ rest) = Some (s, rest).
Proof.
  intros Hs Hl. unfold parse_string, quoted, skip_ws. cbn.
  rewrite <- app_assoc. cbn. destruct cap as [|cap]; [lia|]. cbn. rewrite Nat.sub_0_r.
  apply string_body_quoted; [done|lia].
Qed.

Definition ends_number (rest : bytes) : bool :=
  match rest with
  | c :: _ => negb (isdigit c) && negb ((c =? 46) || (c =? 101) || (c =? 69))
  | [] => true
  end.

Lemma u32_digits_app v ds rest :
  all isdigit ds -> 0 <= v -> ends_number rest = true ->
  v * 10 ^ Z.of_nat (length ds) + digits_value ds <= UINT32_MAX ->
  u32_digits v (ds ++ rest) = Some (v * 10 ^ Z.of_nat (length ds) + digits_value ds, rest).
Proof.
  intros Hd. revert v. induction Hd as [|c ds Hc Hds IH]; intros v Hv He Hle.
  - replace (v * 10 ^ Z.of_nat (@length Z []) + digits_value []) with v by (unfold digits_value; cbn; lia).
    destruct rest as [|c rest]; [done|]. cbn in *.
    apply andb_true_iff in He as [He _]. apply negb_true_iff in He. by rewrite He.
  - cbn [app u32_digits]. rewrite Hc. apply in_range_spec in Hc.
    assert (Hp : digits_value (c :: ds) = (c - 48) * 10 ^ Z.of_nat (length ds) + digits_value ds).
    { unfold digits_value at 1. cbn [foldl]. rewrite foldl_digits. lia. }
    assert (0 <= digits_value ds) by (by apply digits_value_nonneg).
    assert (Hpow : 10 ^ Z.of_nat (length (c :: ds)) = 10 * 10 ^ Z.of_nat (length ds)).
    { cbn [length]. rewrite Nat2Z.inj_succ, Z.pow_succ_r by lia. done. }
    assert (1 <= 10 ^ Z.of_nat (length ds)) by (apply (Z.pow_le_mono_r 10 0); lia).
    rewrite Hp, Hpow in *.
    destruct (Z.ltb_spec UINT32_MAX (v * 10 + (c - 48))); [nia|].
    rewrite IH by (try done; nia). f_equal. f_equal. nia.
Qed.

Lemma skip_ws_digit c l : isdigit c = true -> skip_ws (c :: l) = c :: l.
Proof.
  intros Hc. apply in_range_spec in Hc. unfold skip_ws. cbn. unfold json_ws.
  repeat (rewrite (proj2 (Z.eqb_neq _ _)) by lia). done.
Qed.

Lemma parse_u32_decimal n rest :
  0 <= n <= UINT32_MAX -> ends_number rest = true ->
  parse_u32 (decimal n ++ rest) = Some (n, rest).
Proof.
  intros Hn He. unfold UINT32_MAX in Hn.
  destruct (decimal_spec n) as (c & ds & -> & Ha & Hv & Hz); [lia|].
  assert (Hc : isdigit c = true) by (by inversion Ha).
  unfold parse_u32. cbn [app]. rewrite skip_ws_digit by done. rewrite Hc. cbn [negb].
  change (c :: ds ++ rest) with ((c :: ds) ++ rest).
  rewrite u32_digits_app; [|done|lia|done|rewrite Hv; unfold UINT32_MAX; lia].
  cbn [mbind option_bind]. rewrite Hv. cbn [Z.mul Z.add].
  replace ((1 <? length ((c :: ds) ++ rest) - length rest)%nat && (c =? 48)) with false.
  - destruct rest as [|d rest]; [done|]. cbn in He. apply andb_true_iff in He as [_ He].
    apply negb_true_iff in He. by rewrite He.
  - symmetry. destruct (Z.eqb_spec c 48) as [Hc'|]; [|by rewrite andb_false_r].
    destruct (Hz Hc') as [_ ->].
    by replace (length ([c] ++ rest) - length rest)%nat with 1%nat by (rewrite length_app; cbn; lia).
Qed.

Lemma valid_chars_plain p s :
  (forall c, p c = true -> plain_char c = true) -> forallb p s = true -> all plain_char s.
Proof.
  intros Hp H. apply all_check in H. eapply Forall_impl; [exact H|]. apply Hp.
Qed.

Lemma hex_plain c : hex_char c = true -> plain_char c = true.
Proof.
  unfold hex_char, isdigit, plain_char. rewrite orb_true_iff, !in_range_spec. intros H.
  rewrite !andb_true_iff, !negb_true_iff, Z.leb_le, !Z.eqb_neq. lia.
Qed.

Lemma command_id_plain c : command_id_char c = true -> plain_char c = true.
Proof.
  unfold command_id_char, isalnum, isalpha, isdigit, isupper, islower, plain_char.
  rewrite !orb_true_iff, !in_range_spec, !Z.eqb_eq. intros H.
  rewrite !andb_true_iff, !negb_true_iff, Z.leb_le, !Z.eqb_neq. lia.
Qed.

(** One round of the loop on a field in canonical form. *)
Lemma decode_loop_field {A} (handle : bytes -> bytes -> A -> field_result A)
    fuel fields ac key l a bit a' rest inv sep :
  all plain_char key -> (length key < 24)%nat ->
  handle key l a = FField bit (Some (a', sep :: rest)) inv ->
  Z.land fields bit = 0 -> sep = 44 \/ sep = 125 ->
  decode_loop handle (S fuel) fields ac (quoted key ++ 58 :: l) a =
    if sep =? 44 then decode_loop handle fuel (Z.lor fields bit) true rest a'
    else DecodeOk (Z.lor fields bit, a', rest).
Proof.
  intros Hk Hl Hh Hb Hs. cbn [decode_loop].
  replace (match skip_ws (quoted key ++ 58 :: l) with c :: _ => c =? 125 | [] => false end)
    with false by done.
  replace (skip_ws (quoted key ++ 58 :: l)) with (quoted key ++ 58 :: l) by done.
  rewrite parse_string_quoted by done. cbn [mbind option_bind].
  change (consume 58 (58 :: l)) with (Some l). cbn [mbind option_bind].
  rewrite Hh, Hb. cbn [negb Z.eqb]. by destruct Hs as [-> | ->].
Qed.

(** A JSON object in canonical form: the fields in order, values as texts. *)
Fixpoint members (kvs : list (bytes * bytes)) : bytes :=
  match kvs with
  | [] => [125]
  | [(k, v)] => quoted k ++ 58 :: v ++ [125]
  | (k, v) :: kvs => quoted k ++ 58 :: v ++ 44 :: members kvs
  end.

Definition json_object (kvs : list (bytes * bytes)) : bytes := 123 :: members kvs.

(** The handler reads the fields [kvs] one after the other. *)
Inductive reads {A} (handle : bytes -> bytes -> A -> field_result A) :
    Z -> A -> list (bytes * bytes) -> Z -> A -> Prop :=
| reads_nil f a : reads handle f a [] f a
| reads_cons f a k v kvs bit a1 inv f' a' :
    (all plain_char k /\ (length k < 24)%nat) ->
    (forall sep rest, sep = 44 \/ sep = 125 ->
       handle k (v ++ sep :: rest) a = FField bit (Some (a1, sep :: rest)) inv) ->
    Z.land f bit = 0 ->
    reads handle (Z.lor f bit) a1 kvs f' a' ->
    reads handle f a ((k, v) :: kvs) f' a'.

Lemma decode_loop_members {A} (handle : bytes -> bytes -> A -> field_result A) f a kvs f' a' :
  reads handle f a kvs f' a' -> kvs <> [] -> forall fuel ac, (length kvs <= fuel)%nat ->
  decode_loop handle fuel f ac (members kvs) a = DecodeOk (f', a', []).
Proof.
  induction 1 as [|f a k v kvs bit a1 inv f' a' [Hk Hl] Hh Hb Hr IH]; [done|].
  intros _ fuel ac Hf. destruct fuel as [|fuel]; [cbn in Hf; lia|]. cbn [length] in Hf.
  destruct kvs as [|kv kvs].
  - change (members [(k, v)]) with (quoted k ++ 58 :: v ++ [125]).
    erewrite decode_loop_field; [|done|done|apply Hh; by right|done|by right].
    inversion Hr; subst. done.
  - change (members ((k, v) :: kv :: kvs)) with (quoted k ++ 58 :: v ++ 44 :: members (kv :: kvs)).
    erewrite decode_loop_field; [|done|done|apply Hh; by left|done|by left].
    cbn [Z.eqb Pos.eqb]. by apply IH; [|lia].
Qed.

Lemma members_length kvs : (length kvs <= length (members kvs))%nat.
Proof.
  induction kvs as [|[k v] [|kv kvs] IH]; [cbn; lia|cbn; lia|].
  change (members ((k, v) :: kv :: kvs)) with (quoted k ++ 58 :: v ++ 44 :: members (kv :: kvs)).
  rewrite length_app. cbn [length] in *. rewrite length_app. cbn [length]. lia.
Qed.

(** An object whose fields the handler reads decodes to the value they build. *)
Lemma decode_object_json {A} (handle : bytes -> bytes -> A -> field_result A) req a0 kvs f a :
  validate_payload (json_object kvs) = None -> kvs <> [] ->
  reads handle 0 a0 kvs f a -> req f = true ->
  decode_object handle req a0 (Some (json_object kvs)) = DecodeOk a.
Proof.
  intros Hv Hn Hr Hf. unfold decode_object. rewrite Hv.
  change (consume 123 (json_object kvs)) with (Some (members kvs)).
  cbv iota beta. pose proof (members_length kvs).
  rewrite (decode_loop_members _ _ _ _ _ _ Hr) by (done || lia). cbn. by rewrite Hf.
Qed.

(** The canonical JSON texts. *)
Definition heartbeat_json (h : argus_mqtt_heartbeat_t) : bytes :=
  json_object [(str "session", quoted (hb_session h)); (str "counter", decimal (hb_counter h))].

Definition command_json (c : argus_mqtt_command_t) : bytes :=
  json_object
    [(str "session", quoted (cd_session c)); (str "sequence", decimal (cd_sequence c));
     (str "command_id", quoted (cd_command_id c));
     (str "authority_epoch", decimal (cd_authority_epoch c));
     (str "value", if is_set_target (cd_action c) then decimal (cd_target_rpm_milli c)
                   else str "true")].

Lemma string_field_quoted {A} cap valid (set : bytes -> A -> A) s rest a :
  all plain_char s -> (length s < cap)%nat -> valid s = true ->
  string_field cap valid set (quoted s ++ rest) a = Some (set s a, rest).
Proof. intros Hs Hl Hv. unfold string_field. rewrite parse_string_quoted by done. cbn. by rewrite Hv. Qed.

Lemma u32_field_decimal {A} valid (set : Z -> A -> A) n rest a :
  0 <= n <= UINT32_MAX -> ends_number rest = true -> valid n = true ->
  u32_field valid set (decimal n ++ rest) a = Some (set n a, rest).
Proof. intros Hn He Hv. unfold u32_field. rewrite parse_u32_decimal by done. cbn. by rewrite Hv. Qed.

Arguments decimal : simpl never.

Lemma no_nul l : all (fun c => negb (c =? 0)) l -> existsb (Z.eqb 0) l = false.
Proof.
  intros H. induction H as [|c l Hc _ IH]; [done|]. cbn [existsb]. rewrite IH, orb_false_r.
  apply negb_true_iff in Hc. rewrite Z.eqb_sym. exact Hc.
Qed.

Lemma plain_no_nul s : all plain_char s -> all (fun c => negb (c =? 0)) s.
Proof.
  intros H. induction H as [|c s Hc _ IH]; constructor; [|done].
  unfold plain_char in Hc. b2p. apply negb_true_iff, Z.eqb_neq. lia.
Qed.

Lemma digits_no_nul s : all isdigit s -> all (fun c => negb (c =? 0)) s.
Proof.
  intros H. induction H as [|c s Hc _ IH]; constructor; [|done].
  apply in_range_spec in Hc. apply negb_true_iff, Z.eqb_neq. lia.
Qed.

Lemma decimal_no_nul n : 0 <= n <= UINT32_MAX -> all (fun c => negb (c =? 0)) (decimal n).
Proof.
  unfold UINT32_MAX. intros H. destruct (decimal_spec n) as (c & ds & -> & Ha & _); [lia|].
  by apply digits_no_nul.
Qed.

Lemma validate_payload_ok p :
  (0 < length p < 385)%nat -> all (fun c => negb (c =? 0)) p -> validate_payload p = None.
Proof.
  intros Hl Hn. unfold validate_payload. rewrite no_nul by done.
  rewrite (proj2 (Nat.eqb_neq _ _)) by lia. by rewrite (proj2 (Nat.leb_gt _ _)) by lia.
Qed.

(** The bytes of an object: per field its key, its value and four delimiters. *)
Fixpoint members_size (kvs : list (bytes * bytes)) : nat :=
  match kvs with [] => 0 | (k, v) :: kvs => length k + length v + 4 + members_size kvs end.

Lemma members_size_spec kvs : kvs <> [] -> length (members kvs) = members_size kvs.
Proof.
  induction kvs as [|[k v] [|kv kvs] IH]; [done|intros _|intros _].
  - cbn. unfold quoted. repeat (rewrite length_app; cbn [length]). lia.
  - change (members ((k, v) :: kv :: kvs)) with (quoted k ++ 58 :: v ++ 44 :: members (kv :: kvs)).
    rewrite length_app. cbn [length]. rewrite length_app. cbn [length]. rewrite IH by done.
    unfold quoted. cbn [length members_size]. rewrite length_app. cbn [length]. lia.
Qed.

Definition no_nul_text (s : bytes) : Prop := all (fun c => negb (c =? 0)) s.

Lemma quoted_no_nul s : no_nul_text s -> no_nul_text (quoted s).
Proof. intros H. constructor; [done|]. apply Forall_app. split; [done|]. by repeat constructor. Qed.

Lemma members_no_nul kvs :
  Forall (fun kv => no_nul_text kv.1 /\ no_nul_text kv.2) kvs -> no_nul_text (members kvs).
Proof.
  induction 1 as [|[k v] kvs [Hk Hv] Hf IH]; [by repeat constructor|]. cbn [fst snd] in *.
  apply quoted_no_nul in Hk. destruct kvs as [|kv kvs].
  - apply Forall_app. split; [done|]. constructor; [done|]. apply Forall_app. split; [done|].
    by repeat constructor.
  - change (members ((k, v) :: kv :: kvs)) with (quoted k ++ 58 :: v ++ 44 :: members (kv :: kvs)).
    apply Forall_app. split; [done|]. constructor; [done|]. apply Forall_app. split; [done|].
    by constructor.
Qed.

Lemma json_object_valid kvs :
  kvs <> [] -> Forall (fun kv => no_nul_text kv.1 /\ no_nul_text kv.2) kvs ->
  (members_size kvs < 384)%nat -> validate_payload (json_object kvs) = None.
Proof.
  intros Hn Hf Hs. apply validate_payload_ok.
  - cbn [json_object length]. rewrite members_size_spec by done. lia.
  - constructor; [done|]. by apply members_no_nul.
Qed.

(** One field of a [reads] derivation. *)
Ltac next_field b :=
  eapply reads_cons with (bit := b);
    [split; [by apply all_check|cbv; lia]
    |intros sep rest Hsep; literal_decisions
    |reflexivity|].

(** The fields of an object have no NUL: literals, quoted texts, numbers. *)
Ltac fields_clean :=
  repeat lazymatch goal with
         | |- Forall _ ((_, _) :: _) => apply Forall_cons; split; [split; cbn [fst snd]|]
         | |- Forall (A := bytes * bytes) _ [] => apply Forall_nil; exact I
         end;
  first [ apply quoted_no_nul, plain_no_nul; assumption
        | apply decimal_no_nul; lia
        | by apply all_check
        | idtac ].

Lemma valid_session_plain s :
  valid_session s = true -> all plain_char s /\ length s = 16%nat.
Proof.
  unfold valid_session. intros [Hl Hx]%andb_true_iff. apply Nat.eqb_eq in Hl. split; [|done].
  by eapply valid_chars_plain; [apply hex_plain|].
Qed.

(** A heartbeat in canonical JSON decodes to itself: every valid session and every
    nonzero 32-bit counter survives encoding and decoding. *)
Theorem heartbeat_roundtrip h :
  valid_session (hb_session h) = true -> 1 <= hb_counter h <= UINT32_MAX ->
  argus_mqtt_decode_heartbeat (Some (heartbeat_json h)) = DecodeOk h.
Proof.
  destruct h as [s n]. cbn [hb_session hb_counter]. intros Hs Hn.
  destruct (valid_session_plain s Hs) as [Hp Hl]. pose proof (decimal_length n) as Hd.
  unfold heartbeat_json. cbn [hb_session hb_counter].
  apply decode_object_json with (f := 3); [|done| |reflexivity].
  - apply json_object_valid; [done| |].
    + fields_clean.
    + unfold quoted. cbn [members_size length]. rewrite length_app. literal_lengths. cbn [length]. lia.
  - unfold heartbeat_field. next_field 1; [by rewrite string_field_quoted by (done || lia)|].
    next_field 2; [|apply reads_nil].
    rewrite u32_field_decimal; [done|lia|by destruct Hsep; subst|].
    unfold nonzero. apply negb_true_iff, Z.eqb_neq. lia.
Qed.

Lemma valid_command_id_plain s :
  valid_command_id s = true -> all plain_char s /\ (length s <= 36)%nat.
Proof.
  unfold valid_command_id. rewrite !andb_true_iff, Nat.leb_le. intros [[_ Hl] Hx].
  split; [|lia]. by eapply valid_chars_plain; [apply command_id_plain|].
Qed.

(** C40: a command in canonical JSON decodes to itself: for every action, session,
    sequence, command id, epoch and admissible target, the decoder returns exactly the
    command that was encoded. *)
Theorem command_roundtrip c max :
  valid_session (cd_session c) = true -> 1 <= cd_sequence c <= UINT32_MAX ->
  valid_command_id (cd_command_id c) = true -> 0 <= cd_authority_epoch c <= UINT32_MAX ->
  is_command_action (cd_action c) = true -> cd_forward c = true ->
  0 <= max <= INT32_MAX ->
  (if is_set_target (cd_action c) then 0 <= cd_target_rpm_milli c <= max
   else cd_target_rpm_milli c = 0) ->
  argus_mqtt_decode_command (Some (command_json c)) (cd_action c) max = DecodeOk c.
Proof.
  destruct c as [s n cid ep act tgt fwd].
  cbn [cd_session cd_sequence cd_command_id cd_authority_epoch cd_action cd_target_rpm_milli cd_forward].
  intros Hs Hn Hc He Ha -> Hm Ht.
  destruct (valid_session_plain s Hs) as [Hp Hl]. destruct (valid_command_id_plain cid Hc) as [Hcp Hcl].
  pose proof (decimal_length n). pose proof (decimal_length ep). pose proof (decimal_length tgt).
  unfold argus_mqtt_decode_command. rewrite Ha, (proj2 (Z.ltb_ge max 0)) by lia. cbn [negb orb].
  unfold command_json.
  cbn [cd_session cd_sequence cd_command_id cd_authority_epoch cd_action cd_target_rpm_milli cd_forward].
  apply decode_object_json with (f := 31); [|done| |reflexivity].
  - apply json_object_valid; [done| |].
    + fields_clean. destruct (is_set_target act); [apply decimal_no_nul; unfold INT32_MAX, UINT32_MAX in *; lia|by apply all_check].
    + unfold quoted. cbn [members_size length]. rewrite !length_app.
      destruct (is_set_target act); literal_lengths; cbn [length]; lia.
  - unfold command_field. next_field 1; [by rewrite string_field_quoted by (done || lia)|].
    next_field 2.
    { rewrite u32_field_decimal; [done|lia|by destruct Hsep; subst|].
      unfold nonzero. apply negb_true_iff, Z.eqb_neq. lia. }
    next_field 4; [by rewrite string_field_quoted by (done || lia)|].
    next_field 16; [by rewrite u32_field_decimal by (done || lia || by destruct Hsep; subst)|].
    next_field 8; [|apply reads_nil].
    destruct (is_set_target act).
    + rewrite u32_field_decimal; [|unfold INT32_MAX, UINT32_MAX in *; lia|by destruct Hsep; subst|lia].
      cbn. by rewrite i32_small by (unfold is_i32, INT32_MAX in *; lia).
    + subst tgt. by destruct Hsep; subst.
Qed.

(** ** Topics *)

Lemma topic_leaf_length f : (length (topic_leaf f) <= 45)%nat.
Proof. by destruct f; cbv; lia. Qed.

Lemma topic_leaf_inj f g : topic_leaf f = topic_leaf g -> f = g.
Proof. destruct f, g; first [reflexivity | intros H; exfalso; revert H; by vm_compute]. Qed.

(** The action a topic field stands for. *)
Definition field_action (f : topic_field) : argus_mqtt_action_t :=
  match f with
  | command_set_target => ARGUS_MQTT_ACTION_SET_TARGET
  | command_start => ARGUS_MQTT_ACTION_START
  | command_stop => ARGUS_MQTT_ACTION_STOP
  | command_unlock => ARGUS_MQTT_ACTION_UNLOCK
  | command_e_stop => ARGUS_MQTT_ACTION_E_STOP
  | command_reset_e_stop => ARGUS_MQTT_ACTION_RESET_E_STOP
  | command_recover => ARGUS_MQTT_ACTION_RECOVER
  | heartbeat => ARGUS_MQTT_ACTION_HEARTBEAT
  | command_request_authority => ARGUS_MQTT_ACTION_REQUEST_AUTHORITY
  | command_release_authority => ARGUS_MQTT_ACTION_RELEASE_AUTHORITY
  | _ => ARGUS_MQTT_ACTION_NONE
  end.

Lemma make_topic_fits root f :
  (length root <= 71)%nat -> make_topic 160 root (topic_leaf f) = Some (root ++ str "/" ++ topic_leaf f).
Proof.
  intros Hr. pose proof (topic_leaf_length f). unfold make_topic.
  rewrite (proj2 (Nat.ltb_lt _ _)); [done|]. rewrite !length_app. literal_lengths. lia.
Qed.

Lemma topics_build_ok c u :
  argus_identity_validate_client_id (Some c) = true ->
  argus_identity_validate_unit_id (Some u) = true ->
  exists t, argus_mqtt_topics_build (Some c) (Some u) = (ESP_OK, Some t) /\
    forall f, tp_topic t f = (str "argus/" ++ c ++ str "/" ++ u) ++ str "/" ++ topic_leaf f.
Proof.
  intros Hc Hu. unfold argus_mqtt_topics_build. rewrite Hc, Hu. cbn [negb orb].
  unfold argus_identity_validate_client_id, argus_identity_validate_unit_id in *.
  rewrite !andb_true_iff, !Nat.leb_le in *. destruct Hc as [[_ Hc] _], Hu as [[_ Hu] _].
  assert (Hr : (length (str "argus/" ++ c ++ str "/" ++ u) <= 71)%nat).
  { rewrite !length_app. literal_lengths. lia. }
  change (default [] (Some c)) with c. change (default [] (Some u)) with u. set (root := str "argus/" ++ c ++ str "/" ++ u) in *.
  rewrite (proj2 (Nat.leb_gt _ _)) by lia.
  rewrite (proj2 (forallb_forall _ _)).
  - eexists. split; [done|]. intros f. cbn [tp_topic]. by rewrite make_topic_fits.
  - intros f _. apply bool_decide_eq_true. rewrite make_topic_fits by done. by eexists.
Qed.

Lemma classify_in_spec table t topic :
  (exists f a, In (f, a) table /\ topic = tp_topic t f /\ classify_in table t topic = a) \/
  (classify_in table t topic = ARGUS_MQTT_ACTION_NONE /\
   forall f a, In (f, a) table -> topic <> tp_topic t f).
Proof.
  induction table as [|[f a] table IH]; [right; done|]. cbn [classify_in].
  destruct (bool_decide_reflect (topic = tp_topic t f)) as [Heq|Hne].
  - left. exists f, a. split; [by left|done].
  - destruct IH as [(g & b & Hi & Ht & Hc)|[Hn Hi]].
    + left. exists g, b. split; [by right|done].
    + right. split; [done|]. intros g b [[= <- <-]|Hg]; [done|by eapply Hi].
Qed.

Lemma classify_table_action f a : In (f, a) classify_table -> a = field_action f.
Proof. cbn. intros H. repeat destruct H as [H|H]; by inversion H. Qed.

(** The topic table is well formed and unambiguous: valid identifiers always give a
    complete table (no topic is truncated), each of its topics is classified as the
    action of its field, and every other topic as none, so a telemetry or status topic
    is never taken for a command. *)
Theorem topics_classify_exact c u :
  argus_identity_validate_client_id (Some c) = true ->
  argus_identity_validate_unit_id (Some u) = true ->
  exists t, argus_mqtt_topics_build (Some c) (Some u) = (ESP_OK, Some t) /\
    (forall f, argus_mqtt_topics_classify t (tp_topic t f) = field_action f) /\
    (forall topic, argus_mqtt_topics_classify t topic <> ARGUS_MQTT_ACTION_NONE ->
       exists f, topic = tp_topic t f).
Proof.
  intros Hc Hu. destruct (topics_build_ok c u Hc Hu) as (t & Hb & Ht). exists t. split; [done|].
  unfold argus_mqtt_topics_classify. split.
  - intros f. destruct (classify_in_spec classify_table t (tp_topic t f)) as [(g & a & Hi & He & ->)|[-> Hn]].
    + rewrite !Ht in He. apply app_inv_head, app_inv_head, topic_leaf_inj in He as ->.
      by apply classify_table_action.
    + destruct f; try done; exfalso; (eapply Hn; [|reflexivity]; cbn; tauto).
  - intros topic Ha. destruct (classify_in_spec classify_table t topic) as [(g & a & _ & -> & _)|[Hn _]];
      [eauto|done].
Qed.

(** ** Witnesses *)

Definition sample_command : argus_mqtt_command_t :=
  Command (str "0123456789abcdef") 7 (str "cmd-1") 3 ARGUS_MQTT_ACTION_SET_TARGET 60000 true.

Lemma decoded_command_valid_witness :
  argus_mqtt_decode_command (Some (command_json sample_command)) ARGUS_MQTT_ACTION_SET_TARGET 150000
    = DecodeOk sample_command /\ 0 <= cd_target_rpm_milli sample_command <= 150000.
Proof.
  assert (H : argus_mqtt_decode_command (Some (command_json sample_command))
      ARGUS_MQTT_ACTION_SET_TARGET 150000 = DecodeOk sample_command) by (vm_compute; reflexivity).
  split; [exact H|].
  exact (proj1 (proj2 (proj2 (proj2 (decoded_command_valid _ _ 150000 _ ltac:(vm_compute; discriminate) H))))).
Defined.

Lemma heartbeat_roundtrip_witness :
  argus_mqtt_decode_heartbeat (Some (heartbeat_json (Heartbeat (str "0123456789abcdef") 9)))
  = DecodeOk (Heartbeat (str "0123456789abcdef") 9).
Proof. apply heartbeat_roundtrip; [reflexivity|cbn; unfold UINT32_MAX; lia]. Defined.

Lemma command_roundtrip_witness :
  argus_mqtt_decode_command (Some (command_json sample_command)) ARGUS_MQTT_ACTION_SET_TARGET 150000
  = DecodeOk sample_command.
Proof.
  apply (command_roundtrip sample_command 150000); try reflexivity;
    unfold UINT32_MAX, INT32_MAX; cbn; lia.
Defined.

Lemma topics_classify_exact_witness :
  exists t, argus_mqtt_topics_build (Some (str "plant")) (Some (str "unit_1")) = (ESP_OK, Some t) /\
    argus_mqtt_topics_classify t (tp_topic t state_mode) = ARGUS_MQTT_ACTION_NONE.
Proof.
  destruct (topics_classify_exact (str "plant") (str "unit_1") eq_refl eq_refl) as (t & Hb & Hf & _).
  exists t. split; [exact Hb|apply (Hf state_mode)].
Defined.
