(* ===== verification/ConfigStore.v ===== *)
(** * The configuration store

    [src/main/argus_nvs_config.c]: the packed configuration, the validity check of a slot
    with its in-place migration of older schemas, the selection of a slot at boot with
    the durable provisioning mark, the commit, the factory reset with its recovery, and
    the overlay of [argus_config_overlay.c] that builds what is committed.  The storage
    driver is the boundary: its nine operations are those of [cfg_op]. *)

From S2P Require Import Prelude Storage MqttDecode.

Definition ARGUS_CONFIG_SCHEMA_VERSION : Z := 3.
Definition ARGUS_CONFIG_SCHEMA_V1 : Z := 1.
Definition ARGUS_CONFIG_SCHEMA_V2 : Z := 2.
Definition ARGUS_CONFIG_PAYLOAD_V1_SIZE : Z := 228.
Definition ARGUS_CONFIG_PAYLOAD_V2_SIZE : Z := 229.
Definition ARGUS_CONFIG_PAYLOAD_SIZE : Z := 230.
Definition ARGUS_CONFIG_VALID_MARKER : Z := 2779077210.
Definition ARGUS_CONFIG_MASK_STRING : bytes := str "********".
Definition ARGUS_CFG_STA_SSID_MAX : nat := 32.
Definition ARGUS_CFG_STA_PASS_MIN : nat := 8.
Definition ARGUS_CFG_STA_PASS_MAX : nat := 63.
Definition ARGUS_CFG_PROVISIONED_IDENTITY : Z := 1.
Definition ARGUS_AUTHORITY_PROFILE_STANDALONE_HMI : Z := 0.
Definition ARGUS_AUTHORITY_PROFILE_ARGUSCORE_PREFERRED : Z := 1.
Definition ARGUS_AUTHORITY_PROFILE_MAX : Z := ARGUS_AUTHORITY_PROFILE_ARGUSCORE_PREFERRED.

(** ** The payload

    The character arrays are kept whole, since the checksum covers the bytes behind the
    terminators: 33, 33, 65, 33 and 64 bytes. *)
Record argus_config_payload_t := ConfigPayload {
  cf_client_id : bytes;
  cf_unit_id : bytes;
  cf_device_name : bytes;
  cf_sta_ssid : bytes;
  cf_sta_pass : bytes;
  cf_provisioned_flags : Z;
  cf_authority_profile : Z
}.

#[export] Instance config_payload_eq_dec : EqDecision argus_config_payload_t.
Proof. solve_decision. Defined.
#[export] Instance eta_config_payload : Eta argus_config_payload_t := fun p =>
  ConfigPayload (cf_client_id p) (cf_unit_id p) (cf_device_name p) (cf_sta_ssid p) (cf_sta_pass p)
    (cf_provisioned_flags p) (cf_authority_profile p).

Definition zero_config : argus_config_payload_t :=
  ConfigPayload (replicate 33 0) (replicate 33 0) (replicate 65 0) (replicate 33 0) (replicate 64 0) 0 0.

Definition config_bytes (p : argus_config_payload_t) : bytes :=
  cf_client_id p ++ cf_unit_id p ++ cf_device_name p ++ cf_sta_ssid p ++ cf_sta_pass p
  ++ [cf_provisioned_flags p; cf_authority_profile p].

(** The strings the C functions see: from the start of the array to the first zero byte of
    the packed record. *)
Definition string_at (offset : nat) (p : argus_config_payload_t) : bytes := cstring (drop offset (config_bytes p)).
Definition client_id : argus_config_payload_t -> bytes := string_at 0.
Definition unit_id : argus_config_payload_t -> bytes := string_at 33.
Definition device_name : argus_config_payload_t -> bytes := string_at 66.
Definition sta_ssid : argus_config_payload_t -> bytes := string_at 131.
Definition sta_pass : argus_config_payload_t -> bytes := string_at 164.

(** [snprintf(buf, sizeof(buf), "%s", s)]: the bytes behind the terminator stay. *)
Definition snprintf_into (buf s : bytes) : bytes :=
  let s' := strlcpy s (length buf) in s' ++ 0 :: drop (S (length s')) buf.

Definition calc_crc32_raw (p : argus_config_payload_t) (len : Z) : Z :=
  crc32_bytes (take (Z.to_nat len) (config_bytes p)).

Definition argus_nvs_config_calc_crc32 (p : argus_config_payload_t) : Z :=
  calc_crc32_raw p ARGUS_CONFIG_PAYLOAD_SIZE.

Definition argus_nvs_config_gen_is_newer (gen_a gen_b : Z) : bool :=
  if gen_a =? 0 then false
  else if gen_b =? 0 then true
  else 0 <? i32 (gen_a - gen_b).

Definition argus_nvs_config_validate (cfg : argus_config_payload_t) : esp_err_t :=
  if negb (argus_identity_validate_client_id (Some (client_id cfg))) then ESP_ERR_INVALID_ARG
  else if negb (argus_identity_validate_unit_id (Some (unit_id cfg))) then ESP_ERR_INVALID_ARG
  else if negb (argus_identity_validate_device_name (Some (device_name cfg))) then ESP_ERR_INVALID_ARG
  else if (ARGUS_CFG_STA_SSID_MAX <? length (sta_ssid cfg))%nat then ESP_ERR_INVALID_ARG
  else if (0 <? length (sta_ssid cfg))%nat
          && ((length (sta_pass cfg) <? ARGUS_CFG_STA_PASS_MIN)%nat
              || (ARGUS_CFG_STA_PASS_MAX <? length (sta_pass cfg))%nat) then ESP_ERR_INVALID_ARG
  else if ARGUS_AUTHORITY_PROFILE_MAX <? cf_authority_profile cfg then ESP_ERR_INVALID_ARG
  else ESP_OK.

Inductive uncommissioned_reason :=
| Invalid_Client_ID
| Invalid_Unit_ID
| Invalid_Device_Name
| STA_SSID_is_empty
| STA_Pass_too_short
| STA_Pass_too_long
| Valid_Commissioned.

Definition argus_nvs_config_get_uncommissioned_reason (cfg : argus_config_payload_t) : uncommissioned_reason :=
  if negb (argus_identity_validate_client_id (Some (client_id cfg))) then Invalid_Client_ID
  else if negb (argus_identity_validate_unit_id (Some (unit_id cfg))) then Invalid_Unit_ID
  else if negb (argus_identity_validate_device_name (Some (device_name cfg))) then Invalid_Device_Name
  else if (length (sta_ssid cfg) =? 0)%nat then STA_SSID_is_empty
  else if (length (sta_pass cfg) <? ARGUS_CFG_STA_PASS_MIN)%nat then STA_Pass_too_short
  else if (ARGUS_CFG_STA_PASS_MAX <? length (sta_pass cfg))%nat then STA_Pass_too_long
  else Valid_Commissioned.

Definition argus_nvs_config_is_commissioned (cfg : argus_config_payload_t) : bool :=
  is_ok (argus_nvs_config_validate cfg)
  && negb (length (sta_ssid cfg) =? 0)%nat
  && negb (length (sta_pass cfg) <? ARGUS_CFG_STA_PASS_MIN)%nat.

Definition argus_nvs_config_mask (in_cfg : argus_config_payload_t) : argus_config_payload_t :=
  if (0 <? length (sta_pass in_cfg))%nat
  then in_cfg <| cf_sta_pass := snprintf_into (cf_sta_pass in_cfg) ARGUS_CONFIG_MASK_STRING |>
  else in_cfg.

(** ** Slots *)

Record argus_cfg_slot_t := CfgSlot {
  cs_schema_version : Z;
  cs_config_generation : Z;
  cs_payload_length : Z;
  cs_crc32 : Z;
  cs_valid_marker : Z;
  cs_payload : argus_config_payload_t
}.

#[export] Instance cfg_slot_eq_dec : EqDecision argus_cfg_slot_t.
Proof. solve_decision. Defined.
#[export] Instance eta_cfg_slot : Eta argus_cfg_slot_t := fun s =>
  CfgSlot (cs_schema_version s) (cs_config_generation s) (cs_payload_length s) (cs_crc32 s)
    (cs_valid_marker s) (cs_payload s).

(** The metadata of a migrated slot. *)
Definition upgraded (s : argus_cfg_slot_t) (p : argus_config_payload_t) : argus_cfg_slot_t :=
  CfgSlot ARGUS_CONFIG_SCHEMA_VERSION (cs_config_generation s) ARGUS_CONFIG_PAYLOAD_SIZE
    (calc_crc32_raw p ARGUS_CONFIG_PAYLOAD_SIZE) (cs_valid_marker s) p.

(** The verdict and the slot as the check leaves it, migrated in place. *)
Definition is_slot_valid (slot : argus_cfg_slot_t) : bool * argus_cfg_slot_t :=
  if negb (cs_valid_marker slot =? ARGUS_CONFIG_VALID_MARKER) then (false, slot)
  else if cs_config_generation slot =? 0 then (false, slot)
  else if (cs_schema_version slot =? ARGUS_CONFIG_SCHEMA_VERSION)
          && (cs_payload_length slot =? ARGUS_CONFIG_PAYLOAD_SIZE) then
    if negb (calc_crc32_raw (cs_payload slot) ARGUS_CONFIG_PAYLOAD_SIZE =? cs_crc32 slot) then (false, slot)
    else (is_ok (argus_nvs_config_validate (cs_payload slot)), slot)
  else if (cs_schema_version slot =? ARGUS_CONFIG_SCHEMA_V1)
          && (cs_payload_length slot =? ARGUS_CONFIG_PAYLOAD_V1_SIZE) then
    if negb (calc_crc32_raw (cs_payload slot) ARGUS_CONFIG_PAYLOAD_V1_SIZE =? cs_crc32 slot) then (false, slot)
    else
      let payload := (cs_payload slot) <| cf_provisioned_flags := 0 |>
                                       <| cf_authority_profile := ARGUS_AUTHORITY_PROFILE_STANDALONE_HMI |> in
      (is_ok (argus_nvs_config_validate payload), upgraded slot payload)
  else if (cs_schema_version slot =? ARGUS_CONFIG_SCHEMA_V2)
          && (cs_payload_length slot =? ARGUS_CONFIG_PAYLOAD_V2_SIZE) then
    if negb (calc_crc32_raw (cs_payload slot) ARGUS_CONFIG_PAYLOAD_V2_SIZE =? cs_crc32 slot) then (false, slot)
    else
      let payload := (cs_payload slot) <| cf_authority_profile := ARGUS_AUTHORITY_PROFILE_STANDALONE_HMI |> in
      (is_ok (argus_nvs_config_validate payload), upgraded slot payload)
  else (false, slot).

#[export] Instance cfg_slot_check : SlotCheck argus_cfg_slot_t := fun s => (is_slot_valid s).1.

(** ** The storage driver *)

Inductive cfg_op : Type -> Type :=
| Slots (X : Type) (e : slot_op argus_cfg_slot_t X) : cfg_op X
| ReadResetPending : cfg_op (esp_err_t + bool)
| WriteResetPending (pending : bool) : cfg_op esp_err_t
| ReadProvisionedHwm : cfg_op (esp_err_t + Z)
| WriteProvisionedHwm (flags : Z) : cfg_op esp_err_t
| EraseAll : cfg_op esp_err_t.
Arguments Slots {X}.

(** The two slots and the selector, the mark of a pending factory reset and the
    provisioning high-water mark. *)
Record cfg_flash := CfgFlash {
  cg_slots : flash argus_cfg_slot_t;
  cg_pending : bool;
  cg_hwm : option Z
}.

#[export] Instance eta_cfg_flash : Eta cfg_flash := fun f => CfgFlash (cg_slots f) (cg_pending f) (cg_hwm f).

Definition erased (f : cfg_flash) : cfg_flash := CfgFlash (Flash None None None) (cg_pending f) None.

(** An erasure that failed or was cut has removed some of the keys. *)
Definition partly_erased (f f' : cfg_flash) : Prop :=
  (fl_a (cg_slots f') = fl_a (cg_slots f) \/ fl_a (cg_slots f') = None) /\
  (fl_b (cg_slots f') = fl_b (cg_slots f) \/ fl_b (cg_slots f') = None) /\
  (fl_selector (cg_slots f') = fl_selector (cg_slots f) \/ fl_selector (cg_slots f') = None) /\
  (cg_hwm f' = cg_hwm f \/ cg_hwm f' = None) /\
  cg_pending f' = cg_pending f.

Definition cfg_outcome {X} (e : cfg_op X) (f : cfg_flash) : X -> cfg_flash -> Prop :=
  match e with
  | Slots e => fun x f' => slot_outcome slot_good e (cg_slots f) x (cg_slots f')
                           /\ cg_pending f' = cg_pending f /\ cg_hwm f' = cg_hwm f
  | ReadResetPending => fun r f' => f' = f /\ match r with inr v => cg_pending f = v | inl e => e <> ESP_OK end
  | WriteResetPending v => fun err f' => (err <> ESP_OK /\ f' = f) \/ f' = f <| cg_pending := v |>
  | ReadProvisionedHwm => fun r f' => f' = f /\
      match r with
      | inr v => cg_hwm f = Some v
      | inl e => e <> ESP_OK /\ (e = ESP_ERR_NVS_NOT_FOUND -> cg_hwm f = None)
      end
  | WriteProvisionedHwm v => fun err f' => (err <> ESP_OK /\ f' = f) \/ f' = f <| cg_hwm := Some v |>
  | EraseAll => fun err f' => (err = ESP_OK /\ f' = erased f) \/ (err <> ESP_OK /\ partly_erased f f')
  end.

Definition cfg_torn {X} (e : cfg_op X) (f f' : cfg_flash) : Prop :=
  match e with
  | Slots e => slot_torn slot_good e (cg_slots f) (cg_slots f') /\ cg_pending f' = cg_pending f /\ cg_hwm f' = cg_hwm f
  | ReadResetPending | ReadProvisionedHwm => f' = f
  | WriteResetPending v => f' = f \/ f' = f <| cg_pending := v |>
  | WriteProvisionedHwm v => f' = f \/ f' = f <| cg_hwm := Some v |>
  | EraseAll => partly_erased f f'
  end.

Definition cfg_perform {X} (e : cfg_op X) (f : cfg_flash) : X * cfg_flash :=
  match e with
  | Slots e => let '(x, s) := slot_perform e (cg_slots f) in (x, f <| cg_slots := s |>)
  | ReadResetPending => (inr (cg_pending f), f)
  | WriteResetPending v => (ESP_OK, f <| cg_pending := v |>)
  | ReadProvisionedHwm => (read_value (cg_hwm f), f)
  | WriteProvisionedHwm v => (ESP_OK, f <| cg_hwm := Some v |>)
  | EraseAll => (ESP_OK, erased f)
  end.

Lemma cfg_perform_outcome {X} (e : cfg_op X) f : cfg_outcome e f (cfg_perform e f).1 (cfg_perform e f).2.
Proof.
  destruct e as [X e| | | | |]; cbn; auto.
  - pose proof (slot_perform_outcome slot_good e (cg_slots f)) as H. by destruct (slot_perform e (cg_slots f)).
  - split; [done|]. by destruct (cg_hwm f).
Qed.

#[export] Instance cfg_storage : Storage cfg_op cfg_flash := {|
  outcome X := cfg_outcome; torn X := cfg_torn; perform X := cfg_perform; perform_outcome X := cfg_perform_outcome
|}.

(** ** The core *)

Record argus_nvs_core_t := NvsCore {
  nc_active_config : argus_config_payload_t;
  nc_active_generation : Z;
  nc_active_slot_index : Z;
  nc_has_valid_config : bool;
  nc_initialized : bool
}.

#[export] Instance eta_nvs_core : Eta argus_nvs_core_t := fun c =>
  NvsCore (nc_active_config c) (nc_active_generation c) (nc_active_slot_index c) (nc_has_valid_config c)
    (nc_initialized c).

Definition zero_core : argus_nvs_core_t := NvsCore zero_config 0 0 false false.

(** Take a slot as the active one. *)
Definition adopt (index : Z) (slot : argus_cfg_slot_t) (core : argus_nvs_core_t) : argus_nvs_core_t :=
  core <| nc_active_slot_index := index |> <| nc_active_config := cs_payload slot |>
       <| nc_active_generation := cs_config_generation slot |> <| nc_has_valid_config := true |>.

(** Phase 1: the slot the selector names, if it can be chosen. *)
Definition select_slot (a b : option argus_cfg_slot_t) (selector : Z) : argus_nvs_core_t :=
  match a, b with
  | Some slot_a, Some slot_b =>
      if selector =? 0 then adopt 0 slot_a zero_core
      else if selector =? 1 then adopt 1 slot_b zero_core
      else if argus_nvs_config_gen_is_newer (cs_config_generation slot_b) (cs_config_generation slot_a)
           then adopt 1 slot_b zero_core else adopt 0 slot_a zero_core
  | Some slot_a, None => adopt 0 slot_a zero_core
  | None, Some slot_b => adopt 1 slot_b zero_core
  | None, None => zero_core
  end.

Definition or_flags (flags : Z) (p : argus_config_payload_t) : argus_config_payload_t :=
  p <| cf_provisioned_flags ::= Z.lor flags |>.

Definition slot_flags (s : option argus_cfg_slot_t) : Z :=
  match s with Some s => cf_provisioned_flags (cs_payload s) | None => 0 end.

(** Phase 2: the durable mark and the flags of both slots stay set. *)
Definition merge_flags (a b : option argus_cfg_slot_t) (hwm_flags : Z) (core : argus_nvs_core_t) : argus_nvs_core_t :=
  if nc_has_valid_config core
  then core <| nc_active_config ::= or_flags (Z.lor (Z.lor hwm_flags (slot_flags a)) (slot_flags b)) |>
  else core.

Definition provisioned (flags : Z) : bool := negb (Z.land flags ARGUS_CFG_PROVISIONED_IDENTITY =? 0).

(** Phase 3: the slot to switch to, when the chosen one is not provisioned, the other one
    is, and the mark says that provisioning took place. *)
Definition recovery_slot (a b : option argus_cfg_slot_t) (hwm_flags : Z) (core : argus_nvs_core_t)
    : option (Z * argus_cfg_slot_t) :=
  match a, b with
  | Some slot_a, Some slot_b =>
      if nc_has_valid_config core && provisioned hwm_flags then
        if (nc_active_slot_index core =? 0) && negb (provisioned (slot_flags a)) && provisioned (slot_flags b)
        then Some (1, slot_b)
        else if (nc_active_slot_index core =? 1) && negb (provisioned (slot_flags b)) && provisioned (slot_flags a)
        then Some (0, slot_a)
        else None
      else None
  | _, _ => None
  end.

Definition read_checked (r : esp_err_t + argus_cfg_slot_t) : option argus_cfg_slot_t :=
  match r with
  | inr s => let '(valid, s') := is_slot_valid s in if valid then Some s' else None
  | inl _ => None
  end.

Definition argus_nvs_core_init : prog cfg_op (esp_err_t * argus_nvs_core_t) :=
  a ← call (Slots (ReadSlot 0));
  b ← call (Slots (ReadSlot 1));
  selector ← call (Slots ReadSelector);
  let slot_a := read_checked a in
  let slot_b := read_checked b in
  let core := select_slot slot_a slot_b (match selector with inr v => v | inl _ => 255 end) in
  hwm ← call ReadProvisionedHwm;
  let hwm_flags := match hwm with inr v => v | inl ESP_ERR_NVS_NOT_FOUND => 0 | inl _ => 255 end in
  let core := merge_flags slot_a slot_b hwm_flags core in
  match recovery_slot slot_a slot_b hwm_flags core with
  | Some (index, slot) =>
      let core := adopt index slot core in
      _ ← call (Slots (WriteSelector index));
      mret (ESP_OK, core <| nc_active_config ::= or_flags hwm_flags |> <| nc_initialized := true |>)
  | None => mret (ESP_OK, core <| nc_initialized := true |>)
  end.

Definition argus_nvs_core_get (core : argus_nvs_core_t) : esp_err_t + argus_config_payload_t :=
  if negb (nc_has_valid_config core) then inl ESP_ERR_NOT_FOUND else inr (nc_active_config core).

(** The slot a commit writes. *)
Definition new_slot (generation : Z) (in_cfg : argus_config_payload_t) : argus_cfg_slot_t :=
  CfgSlot ARGUS_CONFIG_SCHEMA_VERSION generation ARGUS_CONFIG_PAYLOAD_SIZE
    (argus_nvs_config_calc_crc32 in_cfg) ARGUS_CONFIG_VALID_MARKER in_cfg.

(** The slot a commit writes to. *)
Definition inactive_slot (selector : esp_err_t + Z) (core : argus_nvs_core_t) : Z :=
  match selector with
  | inr v => if v <=? 1 then (if v =? 0 then 1 else 0) else if nc_active_slot_index core =? 0 then 1 else 0
  | inl _ => if nc_active_slot_index core =? 0 then 1 else 0
  end.

(** The end of a commit: select the slot and take what it reads as the configuration. *)
Definition activate_slot (target next_gen : Z) (core : argus_nvs_core_t)
    : prog cfg_op (esp_err_t * argus_nvs_core_t) :=
  sel_err ← call (Slots (WriteSelector target));
  if negb (is_ok sel_err) then mret (sel_err, core)
  else
    final ← call (Slots (ReadSlot target));
    match read_checked final with
    | None => mret (ESP_ERR_INVALID_STATE, core)
    | Some final_slot =>
        mret (ESP_OK, core <| nc_active_slot_index := target |> <| nc_active_generation := next_gen |>
                           <| nc_active_config := cs_payload final_slot |> <| nc_has_valid_config := true |>)
    end.

Definition argus_nvs_core_commit (core : argus_nvs_core_t) (in_cfg : argus_config_payload_t)
    : prog cfg_op (esp_err_t * argus_nvs_core_t) :=
  if bool_decide (sta_pass in_cfg = ARGUS_CONFIG_MASK_STRING) then mret (ESP_ERR_INVALID_ARG, core)
  else if negb (is_ok (argus_nvs_config_validate in_cfg)) then mret (argus_nvs_config_validate in_cfg, core)
  else
    selector ← call (Slots ReadSelector);
    let target := inactive_slot selector core in
    let next_gen := u32 (nc_active_generation core + 1) in
    write_err ← call (Slots (WriteSlot target (new_slot next_gen in_cfg)));
    if negb (is_ok write_err) then mret (write_err, core)
    else
      readback ← call (Slots (ReadSlot target));
      match read_checked readback with
      | None => mret (ESP_ERR_INVALID_STATE, core)
      | Some verify_slot =>
          if negb (bool_decide (cs_payload verify_slot = in_cfg)) then mret (ESP_ERR_INVALID_STATE, core)
          else
            hwm_err ← (if provisioned (cf_provisioned_flags in_cfg)
                       then call (WriteProvisionedHwm (cf_provisioned_flags in_cfg)) else mret ESP_OK);
            if negb (is_ok hwm_err) then mret (hwm_err, core)
            else activate_slot target next_gen core
      end.

(** ** Factory reset *)

Definition argus_nvs_core_recovery_check : prog cfg_op esp_err_t :=
  pending ← call ReadResetPending;
  match pending with
  | inl e => mret e
  | inr false => mret ESP_OK
  | inr true =>
      erase_err ← call EraseAll;
      if negb (is_ok erase_err) then mret erase_err else call (WriteResetPending false)
  end.

Definition argus_nvs_core_factory_reset (core : argus_nvs_core_t) : prog cfg_op (esp_err_t * argus_nvs_core_t) :=
  pend_err ← call (WriteResetPending true);
  if negb (is_ok pend_err) then mret (pend_err, core)
  else
    erase_err ← call EraseAll;
    if negb (is_ok erase_err) then mret (erase_err, core)
    else
      clear_err ← call (WriteResetPending false);
      r ← argus_nvs_core_init;
      mret (if is_ok r.1 then clear_err else r.1, r.2).

(** What an uncommissioned unit calls itself. *)
Definition with_default_identity (core : argus_nvs_core_t) : argus_nvs_core_t :=
  if nc_has_valid_config core then core
  else core <| nc_active_config ::= fun p =>
    p <| cf_client_id ::= fun b => snprintf_into b (str "default_client") |>
      <| cf_unit_id ::= fun b => snprintf_into b (str "unit_01") |>
      <| cf_device_name ::= fun b => snprintf_into b (str "Argus Peristaltic Pump V2") |> |>.

(** With an injected driver; the production driver first initialises the flash partition.
    [None] when it fails before it has a core. *)
Definition argus_nvs_config_init : prog cfg_op (esp_err_t * option argus_nvs_core_t) :=
  recovery_err ← argus_nvs_core_recovery_check;
  if negb (is_ok recovery_err) then mret (recovery_err, None)
  else
    r ← argus_nvs_core_init;
    if negb (is_ok r.1) then mret (r.1, None) else mret (ESP_OK, Some (with_default_identity r.2)).

(** Of an initialised store: the configuration and whether it is a persisted one. *)
Definition argus_nvs_config_get_effective (core : argus_nvs_core_t) : argus_config_payload_t * bool :=
  (nc_active_config core, nc_has_valid_config core).

Definition argus_nvs_config_commit (core : argus_nvs_core_t) (in_cfg : argus_config_payload_t)
    : prog cfg_op (esp_err_t * argus_nvs_core_t) :=
  if (0 <? length (sta_pass in_cfg))%nat && bool_decide (sta_pass in_cfg = ARGUS_CONFIG_MASK_STRING) then
    mret (ESP_ERR_INVALID_ARG, core)
  else if negb (is_ok (argus_nvs_config_validate in_cfg)) then mret (argus_nvs_config_validate in_cfg, core)
  else argus_nvs_core_commit core in_cfg.

Definition argus_nvs_config_factory_reset (core : argus_nvs_core_t) : prog cfg_op (esp_err_t * argus_nvs_core_t) :=
  r ← argus_nvs_core_factory_reset core;
  mret (r.1, with_default_identity r.2).

(** The namespaces a factory reset erases. *)
Definition argus_nvs_config_namespace_in_factory_reset_scope (name : option bytes) : bool :=
  match name with
  | None => false
  | Some name => bool_decide (name = str "argus_cfg") || bool_decide (name = str "argus_sys")
  end.

(** The part of the observation that is a read of a slot: its status, the slot when it is
    present, migrated if the check could, and whether it is valid. *)
Record observed_slot := Observed { ob_status : esp_err_t; ob_slot : option argus_cfg_slot_t; ob_valid : bool }.

Definition observe (r : esp_err_t + argus_cfg_slot_t) : observed_slot :=
  match r with
  | inr s => let '(valid, s') := is_slot_valid s in Observed ESP_OK (Some s') valid
  | inl e => Observed e None false
  end.

Definition first_unexpected (l : list esp_err_t) : esp_err_t :=
  default ESP_OK (head (filter (fun e => negb (is_ok e || missing e)) l)).

Definition argus_nvs_core_get_observation_snapshot
    : prog cfg_op (esp_err_t * (esp_err_t + Z) * observed_slot * observed_slot) :=
  selector ← call (Slots ReadSelector);
  a ← call (Slots (ReadSlot 0));
  b ← call (Slots (ReadSlot 1));
  mret (first_unexpected [status selector; status a; status b], selector, observe a, observe b).

(** ** The overlay

    [argus_config_overlay.c]: what a portal request makes of the current configuration. *)

Inductive argus_config_scope_t := ARGUS_CONFIG_SCOPE_IDENTITY | ARGUS_CONFIG_SCOPE_WIFI | ARGUS_CONFIG_SCOPE_INVALID.

(** The fields a request carries. *)
Record argus_config_fields_t := ConfigFields {
  ff_client_id : option bytes;
  ff_unit_id : option bytes;
  ff_device_name : option bytes;
  ff_sta_ssid : option bytes;
  ff_sta_pass : option bytes
}.

Inductive overlay_error :=
| identity_locked
| all_identity_fields_required
| invalid_client_id
| invalid_unit_id
| invalid_device_name
| sta_ssid_required
| mask_string_not_accepted
| password_required_for_new_ssid
| invalid_scope.

Definition argus_config_overlay_parse_scope (scope_str : option bytes) : argus_config_scope_t :=
  match scope_str with
  | None => ARGUS_CONFIG_SCOPE_INVALID
  | Some s => if bool_decide (s = str "identity") then ARGUS_CONFIG_SCOPE_IDENTITY
              else if bool_decide (s = str "wifi") then ARGUS_CONFIG_SCOPE_WIFI
              else ARGUS_CONFIG_SCOPE_INVALID
  end.

Definition apply_identity (current : argus_config_payload_t) (fields : argus_config_fields_t)
    : overlay_error + argus_config_payload_t :=
  if provisioned (cf_provisioned_flags current) then inl identity_locked
  else
    match ff_client_id fields, ff_unit_id fields, ff_device_name fields with
    | Some c, Some u, Some d =>
        if negb (argus_identity_validate_client_id (Some c)) then inl invalid_client_id
        else if negb (argus_identity_validate_unit_id (Some u)) then inl invalid_unit_id
        else if negb (argus_identity_validate_device_name (Some d)) then inl invalid_device_name
        else inr (current <| cf_client_id ::= fun b => snprintf_into b c |>
                          <| cf_unit_id ::= fun b => snprintf_into b u |>
                          <| cf_device_name ::= fun b => snprintf_into b d |>
                          <| cf_provisioned_flags ::= Z.lor ARGUS_CFG_PROVISIONED_IDENTITY |>)
    | _, _, _ => inl all_identity_fields_required
    end.

Definition apply_wifi (current : argus_config_payload_t) (fields : argus_config_fields_t)
    : overlay_error + argus_config_payload_t :=
  match ff_sta_ssid fields with
  | None => inl sta_ssid_required
  | Some [] => inr (current <| cf_sta_ssid := replicate 33 0 |> <| cf_sta_pass := replicate 64 0 |>)
  | Some ssid =>
      if bool_decide (ff_sta_pass fields = Some ARGUS_CONFIG_MASK_STRING) then inl mask_string_not_accepted
      else
        match ff_sta_pass fields with
        | Some ((_ :: _) as pass) =>
            inr (current <| cf_sta_pass ::= fun b => snprintf_into b pass |>
                         <| cf_sta_ssid ::= fun b => snprintf_into b ssid |>)
        | _ =>
            if bool_decide (ssid = sta_ssid current)
            then inr (current <| cf_sta_ssid ::= fun b => snprintf_into b ssid |>)
            else inl password_required_for_new_ssid
        end
  end.

Definition argus_config_overlay_apply (current : argus_config_payload_t) (scope : argus_config_scope_t)
    (fields : argus_config_fields_t) : overlay_error + argus_config_payload_t :=
  match scope with
  | ARGUS_CONFIG_SCOPE_IDENTITY => apply_identity current fields
  | ARGUS_CONFIG_SCOPE_WIFI => apply_wifi current fields
  | ARGUS_CONFIG_SCOPE_INVALID => inl invalid_scope
  end.

(** ** The service console

    [app_main.c], menu entry A: the payload it commits starts from zero and takes the
    identity in effect and the staged network. *)
Definition console_staged_payload (client unit device staged_ssid staged_pass : bytes) : argus_config_payload_t :=
  ConfigPayload (chars 33 (strlcpy client 33)) (chars 33 (strlcpy unit 33)) (chars 65 (strlcpy device 65))
    (chars 33 (strlcpy staged_ssid 33)) (chars 64 (strlcpy staged_pass 64)) 0 0.

(** ** Boots *)

(** Two configurations that differ at most in the provisioning flags. *)
Definition same_settings (p q : argus_config_payload_t) : Prop :=
  p <| cf_provisioned_flags := 0 |> = q <| cf_provisioned_flags := 0 |>.

#[export] Instance same_settings_equiv : Equivalence same_settings.
Proof. unfold same_settings. split; [by intros p|by intros p q ->|by intros p q r -> ->]. Qed.

Lemma or_flags_settings flags p : same_settings (or_flags flags p) p.
Proof. by destruct p. Qed.

Lemma provisioned_lor a b : provisioned (Z.lor a b) = provisioned a || provisioned b.
Proof.
  unfold provisioned, ARGUS_CFG_PROVISIONED_IDENTITY. rewrite Z.land_lor_distr_l, <- negb_andb. f_equal.
  destruct (Z.eqb_spec (Z.lor (Z.land a 1) (Z.land b 1)) 0) as [E|E].
  - apply Z.lor_eq_0_iff in E as [-> ->]. done.
  - destruct (Z.eqb_spec (Z.land a 1) 0) as [Ea|], (Z.eqb_spec (Z.land b 1) 0) as [Eb|]; try done.
    by rewrite Ea, Eb in E.
Qed.

(** A boot without faults. *)
Definition config_boot (f : cfg_flash) : argus_nvs_core_t := (run argus_nvs_core_init f).1.2.

Definition valid_slot (f : cfg_flash) (i : Z) : option argus_cfg_slot_t :=
  read_checked (read_value (slot_at (cg_slots f) i)).

Definition hwm_of (f : cfg_flash) : Z := default 0 (cg_hwm f).

Definition locked (p : argus_config_payload_t) : bool := provisioned (cf_provisioned_flags p).

(** What a boot finds when the slot the selector names is valid: that slot, or the other
    one if provisioning took place there alone. *)
Lemma config_boot_selected f i s : i = 0 \/ i = 1 ->
  fl_selector (cg_slots f) = Some i -> valid_slot f i = Some s ->
  let c := config_boot f in
  nc_has_valid_config c = true /\ (provisioned (hwm_of f) = true -> locked (nc_active_config c) = true) /\
  ((nc_active_slot_index c = i /\ nc_active_generation c = cs_config_generation s
    /\ same_settings (nc_active_config c) (cs_payload s)) \/
   (exists s', valid_slot f (other_slot i) = Some s' /\ locked (cs_payload s') = true
      /\ locked (cs_payload s) = false /\ provisioned (hwm_of f) = true
      /\ nc_active_slot_index c = other_slot i /\ same_settings (nc_active_config c) (cs_payload s'))).
Proof.
  intros Hi Hsel Hs. unfold config_boot, argus_nvs_core_init, valid_slot, hwm_of in *.
  cbn -[select_slot merge_flags recovery_slot read_checked adopt or_flags slot_at provisioned].
  rewrite Hsel. cbn [read_value].
  set (h := match read_value (cg_hwm f) with inr v => v | inl ESP_ERR_NVS_NOT_FOUND => 0 | inl _ => 255 end).
  assert (Hh : h = default 0 (cg_hwm f)) by (subst h; by destruct (cg_hwm f)). clearbody h. subst h.
  set (h := default 0 (cg_hwm f)).
  destruct Hi as [->| ->]; change (other_slot 0) with 1; change (other_slot 1) with 0; rewrite Hs.
  - destruct (read_checked (read_value (slot_at (cg_slots f) 1))) as [s'|] eqn:Hb.
    + cbn -[provisioned or_flags]. destruct (provisioned h) eqn:Hp; cbn -[provisioned or_flags].
      * destruct (provisioned (cf_provisioned_flags (cs_payload s))) eqn:H1, (provisioned (cf_provisioned_flags (cs_payload s'))) eqn:H2;
          cbn -[provisioned]; unfold locked; cbn -[provisioned]; rewrite ?provisioned_lor, ?Hp, ?H1, ?H2; cbn [orb];
          (split_and!; [done|done|]); first [left; done | right; exists s'; done].
      * unfold locked; cbn -[provisioned]. split_and!; [done|done|left; done].
    + cbn -[provisioned]. unfold locked; cbn -[provisioned]. rewrite !provisioned_lor.
      split_and!; [done|by intros ->|left; done].
  - destruct (read_checked (read_value (slot_at (cg_slots f) 0))) as [s'|] eqn:Ha.
    + cbn -[provisioned or_flags]. destruct (provisioned h) eqn:Hp; cbn -[provisioned or_flags].
      * destruct (provisioned (cf_provisioned_flags (cs_payload s))) eqn:H1, (provisioned (cf_provisioned_flags (cs_payload s'))) eqn:H2;
          cbn -[provisioned]; unfold locked; cbn -[provisioned]; rewrite ?provisioned_lor, ?Hp, ?H1, ?H2; cbn [orb];
          (split_and!; [done|done|]); first [left; done | right; exists s'; done].
      * unfold locked; cbn -[provisioned]. split_and!; [done|done|left; done].
    + cbn -[provisioned]. unfold locked; cbn -[provisioned]. rewrite !provisioned_lor.
      split_and!; [done|by intros ->|left; done].
Qed.

(** ** Commits *)

Lemma wpc_slots {X A} (e : slot_op argus_cfg_slot_t X) (k : X -> prog cfg_op A) post crash f :
  crash f ->
  (forall g, slot_torn slot_good e (cg_slots f) g -> crash (f <| cg_slots := g |>)) ->
  (forall x g, slot_outcome slot_good e (cg_slots f) x g -> wpc (k x) post crash (f <| cg_slots := g |>)) ->
  wpc (Op (Slots e) k) post crash f.
Proof.
  intros Hc Ht Ho. split; [done|]. split.
  - intros [g p h] (H & Hp & Hh). cbn [cg_slots cg_pending cg_hwm] in *. subst. exact (Ht g H).
  - intros x [g p h] (H & Hp & Hh). cbn [cg_slots cg_pending cg_hwm] in *. subst. exact (Ho x g H).
Qed.

Lemma same_slots f : f <| cg_slots := cg_slots f |> = f.
Proof. by destruct f. Qed.

Lemma wpc_read_cfg {A} i (k : _ -> prog cfg_op A) post crash f :
  crash f -> (forall r, read_outcome (slot_at (cg_slots f) i) r -> wpc (k r) post crash f) ->
  wpc (Op (Slots (ReadSlot i)) k) post crash f.
Proof.
  intros Hc Hk. apply wpc_slots; [done|intros g ->; by rewrite same_slots|].
  intros r g [-> Hr]. rewrite same_slots. auto.
Qed.

Lemma wpc_read_sel {A} (k : _ -> prog cfg_op A) post crash f :
  crash f -> (forall r, read_outcome (fl_selector (cg_slots f)) r -> wpc (k r) post crash f) ->
  wpc (Op (Slots ReadSelector) k) post crash f.
Proof.
  intros Hc Hk. apply wpc_slots; [done|intros g ->; by rewrite same_slots|].
  intros r g [-> Hr]. rewrite same_slots. auto.
Qed.

(** Memory and flash agree on the slot [i], which holds [s], and the other slot would not
    take over at a boot. *)
Record config_in_sync (c : argus_nvs_core_t) (f : cfg_flash) (i : Z) (s : argus_cfg_slot_t) : Prop := {
  cy_index : i = 0 \/ i = 1;
  cy_slot : valid_slot f i = Some s;
  cy_selector : fl_selector (cg_slots f) = Some i;
  cy_active : nc_active_slot_index c = i;
  cy_config : same_settings (nc_active_config c) (cs_payload s);
  cy_other : provisioned (hwm_of f) = true -> locked (cs_payload s) = true \/
    forall s', valid_slot f (other_slot i) = Some s' -> locked (cs_payload s') = false
}.

(** What a boot of [f'] finds: the old settings or the new ones, with the identity as
    locked as it was. *)
Definition old_or_new (c : argus_nvs_core_t) (f : cfg_flash) (new : argus_config_payload_t) (f' : cfg_flash) : Prop :=
  let b := config_boot f' in
  nc_has_valid_config b = true /\
  (provisioned (hwm_of f) = true -> locked (nc_active_config b) = true) /\
  (same_settings (nc_active_config b) (nc_active_config c) \/ same_settings (nc_active_config b) new).

Lemma new_slot_valid g new : argus_nvs_config_validate new = ESP_OK ->
  is_slot_valid (new_slot g new) = (negb (g =? 0), new_slot g new).
Proof.
  intros Hv. unfold is_slot_valid, new_slot, argus_nvs_config_calc_crc32.
  cbn -[calc_crc32_raw argus_nvs_config_validate Z.eqb]. rewrite !Z.eqb_refl, Hv. by destruct (g =? 0).
Qed.

Lemma valid_slot_same f f' i : slot_at (cg_slots f') i = slot_at (cg_slots f) i -> valid_slot f' i = valid_slot f i.
Proof. unfold valid_slot. by intros ->. Qed.

(** The selector still names the old slot. *)
Lemma old_selected c f i s new f' :
  config_in_sync c f i s ->
  slot_at (cg_slots f') i = slot_at (cg_slots f) i -> fl_selector (cg_slots f') = Some i ->
  (provisioned (hwm_of f) = true -> provisioned (hwm_of f') = true) ->
  (valid_slot f' (other_slot i) = valid_slot f (other_slot i) /\ hwm_of f' = hwm_of f) \/
  (forall s', valid_slot f' (other_slot i) = Some s' -> cs_payload s' = new) ->
  old_or_new c f new f'.
Proof.
  intros [Hi Hs _ _ Hcfg Hoth] Hsame Hsel Hhwm Hother.
  pose proof (config_boot_selected f' i s Hi Hsel ltac:(by rewrite (valid_slot_same f))) as (H1 & H2 & H3).
  split; [done|]. split; [auto|]. destruct H3 as [(_ & _ & H3)|(s' & Hs' & Hl' & Hl & Hp & _ & H3)].
  - left. by rewrite H3, Hcfg.
  - destruct Hother as [[Ho Hh]|Hn].
    + rewrite Ho in Hs'. rewrite Hh in Hp. destruct (Hoth Hp) as [?|Hc]; [congruence|]. specialize (Hc s' Hs'). congruence.
    + right. by rewrite H3, (Hn s' Hs').
Qed.

(** The selector names the new slot. *)
Lemma new_selected c f i s new f' g :
  config_in_sync c f i s -> (provisioned (hwm_of f') = true -> locked new = true) ->
  (provisioned (hwm_of f) = true -> provisioned (hwm_of f') = true) ->
  valid_slot f' (other_slot i) = Some (new_slot g new) -> fl_selector (cg_slots f') = Some (other_slot i) ->
  old_or_new c f new f'.
Proof.
  intros [Hi Hs _ _ Hcfg Hoth] Hlock Hhwm Hnew Hsel.
  pose proof (config_boot_selected f' (other_slot i) (new_slot g new)
                ltac:(destruct Hi as [->| ->]; auto) Hsel Hnew) as (H1 & H2 & H3).
  split; [done|]. split; [auto|]. destruct H3 as [(_ & _ & H3)|(s' & _ & _ & Hl & Hp & _)].
  - by right.
  - change (locked new = false) in Hl. rewrite Hlock in Hl; done.
Qed.

Lemma inactive_slot_other c f i s r : config_in_sync c f i s -> read_outcome (fl_selector (cg_slots f)) r ->
  inactive_slot r c = other_slot i.
Proof.
  intros [Hi _ Hsel Hact _ _] Hr. unfold inactive_slot. rewrite Hact. destruct r as [e|v].
  - by destruct Hi as [->| ->].
  - cbn in Hr. rewrite Hsel in Hr. injection Hr as ->. by destruct Hi as [->| ->].
Qed.

Lemma set_slot_selector {S} (f : flash S) i x : fl_selector (set_slot f i x) = fl_selector f.
Proof. unfold set_slot. by destruct (i =? 0). Qed.

Section ConfigCommit.
Context (c : argus_nvs_core_t) (f : cfg_flash) (i : Z) (s : argus_cfg_slot_t) (new : argus_config_payload_t).
Context (Hsync : config_in_sync c f i s).
Context (Hlock : provisioned (hwm_of f) = true -> locked new = true).
Context (Hvalid : argus_nvs_config_validate new = ESP_OK).

(** What a write of the other slot leaves there. *)
Lemma slot_written g d : stored_for slot_good (cg_slots f) (other_slot i) (new_slot g new) d ->
  old_or_new c f new (f <| cg_slots := d |>) /\
  slot_at d i = slot_at (cg_slots f) i /\ fl_selector d = Some i /\
  (forall s', valid_slot (f <| cg_slots := d |>) (other_slot i) = Some s' -> s' = new_slot g new).
Proof.
  intros Hd. pose proof Hsync as [Hi _ Hsel _ _ _].
  assert (Hx : exists x, d = set_slot (cg_slots f) (other_slot i) x /\
        forall s', read_checked (inr x) = Some s' -> s' = new_slot g new).
  { destruct Hd as [->|(x & Hx & ->)]; eexists; (split; [done|]); intros s'; cbn [read_checked].
    - rewrite new_slot_valid by done. destruct (negb _); [by intros [= <-]|done].
    - unfold slot_good, cfg_slot_check in Hx. destruct (is_slot_valid x) as [v x']. cbn [fst] in Hx. by rewrite Hx. }
  destruct Hx as (x & -> & Hx). rewrite set_slot_selector, slot_at_set_other by done.
  assert (Hn : forall s', valid_slot (f <| cg_slots := set_slot (cg_slots f) (other_slot i) x |>) (other_slot i) = Some s' ->
    s' = new_slot g new).
  { intros s'. unfold valid_slot. cbn [cg_slots update eta eta_cfg_flash]. rewrite slot_at_set_same. apply Hx. }
  split_and!; [|done|done|done]. eapply (old_selected c f i s new); [done| | |done|].
  - cbn. by apply slot_at_set_other.
  - cbn. by rewrite set_slot_selector.
  - right. intros s' Hs'. by rewrite (Hn s' Hs').
Qed.

(** What a commit that returns has done. *)
Definition committed (r : esp_err_t * argus_nvs_core_t) (f' : cfg_flash) : Prop :=
  old_or_new c f new f' /\
  if is_ok r.1
  then nc_active_config r.2 = new /\ (locked new = true -> provisioned (hwm_of f') = true)
       /\ exists g, config_in_sync r.2 f' (other_slot i) (new_slot g new)
  else r.2 = c.

(** The new slot is written and marked, the selector still names the old one. *)
Definition prepared (g : Z) (f' : cfg_flash) : Prop :=
  valid_slot f' (other_slot i) = Some (new_slot g new) /\
  slot_at (cg_slots f') i = slot_at (cg_slots f) i /\ fl_selector (cg_slots f') = Some i /\
  (provisioned (hwm_of f') = true -> locked new = true) /\
  (provisioned (hwm_of f) = true -> provisioned (hwm_of f') = true).

Lemma prepared_boots g f' : prepared g f' -> old_or_new c f new f'.
Proof.
  intros (Hn & Hs & Hsel & _ & Hm). eapply (old_selected c f i s new); [done|done|done|done|].
  right. intros s' Hs'. rewrite Hn in Hs'. by injection Hs' as <-.
Qed.

Lemma activate_wpc g f' : prepared g f' -> (locked new = true -> provisioned (hwm_of f') = true) ->
  wpc (activate_slot (other_slot i) g c) committed (old_or_new c f new) f'.
Proof.
  intros Hp Hm3. pose proof (prepared_boots g f' Hp) as Hold. destruct Hp as (Hn & Hs & Hsel & Hm1 & Hm2).
  pose proof Hsync as [Hi _ _ _ _ _].
  assert (Hi' : other_slot i = 0 \/ other_slot i = 1) by (destruct Hi as [->| ->]; auto).
  set (f2 := f' <| cg_slots := set_selector (cg_slots f') (other_slot i) |>).
  assert (Hn2 : valid_slot f2 (other_slot i) = Some (new_slot g new)) by exact Hn.
  assert (Hnew : old_or_new c f new f2).
  { eapply (new_selected c f i s new _ g); [done|exact Hm1|exact Hm2|done|done]. }
  unfold activate_slot. prog_simpl. apply wpc_slots; [done| |].
  { intros d [->| ->]; [by rewrite same_slots|done]. }
  intros se d Ho. prog_simpl. destruct (is_ok se) eqn:Hse; prog_simpl.
  - apply is_ok_true in Hse. destruct Ho as [[? _]| ->]; [done|]. fold f2.
    apply wpc_read_cfg; [done|]. intros fr Hfr. prog_simpl.
    destruct (read_checked fr) as [fs|] eqn:Hfs; [|split; [done|]; split; done].
    assert (fs = new_slot g new) as ->.
    { destruct fr as [|fr]; [done|]. cbn [read_outcome] in Hfr. unfold valid_slot in Hn2.
      rewrite Hfr in Hn2. cbn [read_value] in Hn2. congruence. }
    split; [done|]. split; [done|]. cbn [fst snd is_ok]. split; [done|]. split; [exact Hm3|]. exists g.
    split; [done|done|done|done|done|]. intros Hp. left. exact (Hm1 Hp).
  - assert (Hc2 : old_or_new c f new (f' <| cg_slots := d |>)).
    { destruct Ho as [[_ ->]| ->]; [by rewrite same_slots|done]. }
    split; [done|]. split; [done|]. cbn [fst snd]. by rewrite Hse.
Qed.
End ConfigCommit.

(** Every execution of a commit from a flash that agrees with memory. *)
Lemma config_commit_wpc c f i s new :
  config_in_sync c f i s -> (provisioned (hwm_of f) = true -> locked new = true) ->
  wpc (argus_nvs_core_commit c new) (committed c f i new) (old_or_new c f new) f.
Proof.
  intros Hsync Hlock.
  assert (Hold : old_or_new c f new f) by (pose proof (cy_selector _ _ _ _ Hsync); eapply (old_selected c f i s new f); eauto).
  unfold argus_nvs_core_commit. destruct (bool_decide _); [done|].
  destruct (is_ok (argus_nvs_config_validate new)) eqn:Hv; cbn [negb];
    [|split; [done|]; split; [done|]; cbn [fst snd]; by rewrite Hv].
  apply is_ok_true in Hv. set (g := u32 (nc_active_generation c + 1)).
  prog_simpl. apply wpc_read_sel; [done|]. intros r Hr. prog_simpl.
  rewrite (inactive_slot_other c f i s r Hsync Hr). cbv zeta. fold g.
  apply wpc_slots; [done| |].
  { intros d [->|Hd]; [by rewrite same_slots|by eapply slot_written]. }
  intros err d Ho. prog_simpl.
  assert (Hc1 : old_or_new c f new (f <| cg_slots := d |>)).
  { destruct Ho as [[_ ->]|Hd]; [by rewrite same_slots|by eapply slot_written]. }
  destruct (is_ok err) eqn:Herr; prog_simpl; [|split; [done|]; split; [done|]; cbn [fst snd]; by rewrite Herr].
  apply is_ok_true in Herr. destruct Ho as [[? _]|Hd]; [done|].
  destruct (slot_written c f i s new Hsync Hv g d Hd) as (_ & Hdi & Hds & Hdn).
  apply wpc_read_cfg; [done|]. intros rb Hrb. prog_simpl.
  destruct (read_checked rb) as [vs|] eqn:Hvs; [|by split].
  assert (Hnew : valid_slot (f <| cg_slots := d |>) (other_slot i) = Some (new_slot g new)).
  { destruct rb as [|rb]; [done|]. cbn [cg_slots update eta eta_cfg_flash read_outcome] in Hrb.
    assert (E : valid_slot (f <| cg_slots := d |>) (other_slot i) = Some vs)
      by (unfold valid_slot; cbn [cg_slots update eta eta_cfg_flash]; by rewrite Hrb).
    by rewrite (Hdn vs E) in E. }
  destruct (bool_decide (cs_payload vs = new)); prog_simpl; [|by split].
  assert (Hp0 : prepared f i new g (f <| cg_slots := d |>)) by done.
  apply wpc_bind. destruct (provisioned (cf_provisioned_flags new)) eqn:Hpn; prog_simpl.
  - assert (Hp1 : prepared f i new g (f <| cg_slots := d |> <| cg_hwm := Some (cf_provisioned_flags new) |>)) by done.
    split; [done|]. split.
    { intros f' Ht. hnf in Ht. destruct Ht as [->| ->]; [done|]. by apply (prepared_boots c f i s new Hsync g). }
    intros he f' Ho'. hnf in Ho'. assert (Hcf : old_or_new c f new f').
    { destruct Ho' as [[_ ->]| ->]; [done|]. by apply (prepared_boots c f i s new Hsync g). }
    split; [done|]. destruct (is_ok he) eqn:Hhe; prog_simpl; [|split; [done|]; split; [done|]; cbn [fst snd]; by rewrite Hhe].
    apply is_ok_true in Hhe. destruct Ho' as [[? _]| ->]; [done|]. eapply activate_wpc; eauto.
  - split; [done|]. prog_simpl. eapply activate_wpc; eauto. unfold locked. by rewrite Hpn.
Qed.

(** C10: a commit of the configuration is atomic, provided that the payload keeps the
    provisioning mark when the unit is provisioned (as the portal's payloads do; for the
    console's see [console_apply_is_reverted]).  From a flash that agrees with memory,
    whatever writes and reads of the commit fail: if it returns [ESP_OK] the flash agrees
    with the new configuration and the durable provisioning mark is set when the payload
    is marked; otherwise memory is unchanged; and wherever it fails or the power is cut,
    a next boot whose reads succeed finds the old settings or the new ones, with a locked
    identity still locked. *)
Theorem config_commit_atomic c f i s new :
  config_in_sync c f i s -> (provisioned (hwm_of f) = true -> locked new = true) ->
  (forall e c' f', returns (argus_nvs_core_commit c new) f (e, c') f' ->
     old_or_new c f new f' /\
     if is_ok e
     then nc_active_config c' = new /\ (locked new = true -> provisioned (hwm_of f') = true)
          /\ exists g, config_in_sync c' f' (other_slot i) (new_slot g new)
     else c' = c) /\
  (forall f', power_cut (argus_nvs_core_commit c new) f f' -> old_or_new c f new f').
Proof.
  intros Hsync Hlock. pose proof (config_commit_wpc c f i s new Hsync Hlock) as Hw. split.
  - intros e c' f' Hr. exact (wpc_returns _ _ _ _ _ _ Hw Hr).
  - intros f' Hc. exact (wpc_power_cut _ _ _ _ _ Hw Hc).
Qed.

(** A provisioned unit, its flash and its memory. *)
Definition demo_config : argus_config_payload_t :=
  ConfigPayload (chars 33 (str "acme")) (chars 33 (str "pump-7")) (chars 65 (str "Bench pump"))
    (chars 33 (str "plant")) (chars 64 (str "correct-horse")) 1 1.

Definition demo_core : argus_nvs_core_t := NvsCore demo_config 4 1 true true.

Definition demo_store : cfg_flash :=
  CfgFlash (Flash (Some (new_slot 3 demo_config)) (Some (new_slot 4 demo_config)) (Some 1)) false (Some 1).

Lemma demo_in_sync : config_in_sync demo_core demo_store 1 (new_slot 4 demo_config).
Proof. split; [by right|by vm_compute|done|done|done|by left]. Qed.

Lemma config_commit_atomic_witness :
  let new := demo_config <| cf_sta_pass := chars 64 (str "battery-staple") |> in
  old_or_new demo_core demo_store new (run_for 4 (argus_nvs_core_commit demo_core new) demo_store).2.
Proof.
  intros new. exact (proj2 (config_commit_atomic demo_core demo_store 1 (new_slot 4 demo_config) new demo_in_sync
                              (fun _ => eq_refl)) _ (run_for_power_cut 4 _ _)).
Defined.

(** ** The service console reverts its own commit *)

(** A boot whose selector names an unprovisioned slot, next to a provisioned one. *)
Lemma config_boot_recovers f i s s' : i = 0 \/ i = 1 ->
  fl_selector (cg_slots f) = Some (other_slot i) ->
  valid_slot f i = Some s -> valid_slot f (other_slot i) = Some s' ->
  locked (cs_payload s) = true -> locked (cs_payload s') = false -> provisioned (hwm_of f) = true ->
  same_settings (nc_active_config (config_boot f)) (cs_payload s) /\
  fl_selector (cg_slots (run argus_nvs_core_init f).2) = Some i.
Proof.
  intros Hi Hsel Hs Hs' Hl Hl' Hp. unfold config_boot, argus_nvs_core_init, valid_slot, hwm_of, locked in *.
  cbn -[select_slot merge_flags recovery_slot read_checked adopt or_flags slot_at provisioned set_selector].
  rewrite Hsel. cbn [read_value].
  set (h := match read_value (cg_hwm f) with inr v => v | inl ESP_ERR_NVS_NOT_FOUND => 0 | inl _ => 255 end).
  assert (Hh : h = default 0 (cg_hwm f)) by (subst h; by destruct (cg_hwm f)). clearbody h. rewrite <- Hh in Hp.
  destruct Hi as [->| ->]; change (other_slot 0) with 1 in *; change (other_slot 1) with 0 in *; rewrite Hs, Hs';
    cbn -[provisioned or_flags set_selector]; rewrite Hp, Hl, Hl'; cbn -[provisioned or_flags]; split; done.
Qed.

(** The execution of a commit without faults. *)
Lemma config_commit_run c f i s new : config_in_sync c f i s ->
  sta_pass new <> ARGUS_CONFIG_MASK_STRING -> argus_nvs_config_validate new = ESP_OK ->
  u32 (nc_active_generation c + 1) <> 0 ->
  let slot := new_slot (u32 (nc_active_generation c + 1)) new in
  run (argus_nvs_core_commit c new) f =
    (ESP_OK, c <| nc_active_slot_index := other_slot i |> <| nc_active_generation := u32 (nc_active_generation c + 1) |>
               <| nc_active_config := new |> <| nc_has_valid_config := true |>,
     CfgFlash (set_selector (set_slot (cg_slots f) (other_slot i) slot) (other_slot i)) (cg_pending f)
       (if locked new then Some (cf_provisioned_flags new) else cg_hwm f)).
Proof.
  intros Hsync Hm Hv Hg slot. pose proof Hsync as [Hi _ Hsel _ _ _].
  unfold argus_nvs_core_commit, locked. rewrite bool_decide_eq_false_2, Hv by done. cbn [is_ok negb].
  assert (Hr : read_outcome (fl_selector (cg_slots f)) (read_value (fl_selector (cg_slots f)))) by apply read_value_outcome.
  pose proof (inactive_slot_other c f i s _ Hsync Hr) as Ht. clear Hr.
  assert (Hrc : forall d, read_checked (read_value (slot_at (set_slot d (other_slot i) slot) (other_slot i))) = Some slot).
  { intros d. rewrite slot_at_set_same. cbn [read_value read_checked]. unfold slot. rewrite new_slot_valid by done.
    apply Z.eqb_neq in Hg. by rewrite Hg. }
  cbn -[inactive_slot new_slot set_slot set_selector slot_at read_checked u32 provisioned]. rewrite Ht.
  cbn -[new_slot set_slot set_selector slot_at read_checked u32 provisioned]. fold slot. rewrite Hrc.
  cbn -[new_slot set_slot set_selector slot_at read_checked u32 provisioned]. rewrite bool_decide_eq_true_2 by done.
  cbn -[new_slot set_slot set_selector slot_at read_checked u32 provisioned].
  destruct (provisioned (cf_provisioned_flags new));
    cbn -[new_slot set_slot set_selector slot_at read_checked u32 provisioned];
    rewrite slot_at_set_selector, Hrc; reflexivity.
Qed.

Lemma console_payload_unlocked client unit device ssid pass :
  locked (console_staged_payload client unit device ssid pass) = false.
Proof. done. Qed.

(** On a provisioned unit the console entry that applies a staged network reports
    success and is undone: it commits a payload whose provisioning flag is clear, so the
    boot that follows takes the new slot for one whose selector was never switched, goes
    back to the old configuration and repairs the selector. *)
Theorem console_apply_is_reverted c f i s client unit device ssid pass :
  let new := console_staged_payload client unit device ssid pass in
  config_in_sync c f i s -> locked (cs_payload s) = true -> provisioned (hwm_of f) = true ->
  sta_pass new <> ARGUS_CONFIG_MASK_STRING -> argus_nvs_config_validate new = ESP_OK ->
  u32 (nc_active_generation c + 1) <> 0 ->
  let after := run (argus_nvs_core_commit c new) f in
  after.1.1 = ESP_OK /\ nc_active_config after.1.2 = new /\
  same_settings (nc_active_config (config_boot after.2)) (cs_payload s) /\
  fl_selector (cg_slots (run argus_nvs_core_init after.2).2) = Some i.
Proof.
  intros new Hsync Hl Hp Hm Hv Hg after.
  pose proof (config_commit_run c f i s new Hsync Hm Hv Hg) as Hrun. cbv zeta in Hrun. fold after in Hrun.
  change (locked new) with false in Hrun. cbv iota in Hrun. pose proof Hsync as [Hi Hs _ _ _ _].
  rewrite Hrun. split; [done|]. split; [done|]. cbn [snd].
  apply (config_boot_recovers _ i s (new_slot (u32 (nc_active_generation c + 1)) new)); [done|done| | |done|done|done].
  - rewrite <- Hs. apply valid_slot_same. cbn [cg_slots]. rewrite slot_at_set_selector. by apply slot_at_set_other.
  - unfold valid_slot. cbn [cg_slots]. rewrite slot_at_set_selector, slot_at_set_same. cbn [read_value read_checked].
    rewrite new_slot_valid by done. apply Z.eqb_neq in Hg. by rewrite Hg.
Qed.

Lemma console_apply_is_reverted_witness :
  let new := console_staged_payload (str "acme") (str "pump-7") (str "Bench pump") (str "plant-2") (str "battery-staple") in
  let after := run (argus_nvs_core_commit demo_core new) demo_store in
  after.1.1 = ESP_OK /\ same_settings (nc_active_config (config_boot after.2)) demo_config.
Proof.
  intros new after.
  destruct (console_apply_is_reverted demo_core demo_store 1 (new_slot 4 demo_config) (str "acme") (str "pump-7")
              (str "Bench pump") (str "plant-2") (str "battery-staple") demo_in_sync eq_refl eq_refl
              ltac:(by vm_compute) ltac:(by vm_compute) ltac:(by vm_compute)) as (H1 & _ & H2 & _).
  split; [exact H1|exact H2].
Defined.

(** ** Two ways to lose the configuration *)

(** Both slots corrupt, the identity provisioned. *)
Definition corrupt_slot : argus_cfg_slot_t := new_slot 0 demo_config.
Definition corrupt_store : cfg_flash :=
  CfgFlash (Flash (Some corrupt_slot) (Some corrupt_slot) (Some 0)) false (Some 1).

Definition new_owner : argus_config_fields_t :=
  ConfigFields (Some (str "mallory")) (Some (str "pump-8")) (Some (str "Mine")) None None.

Lemma config_boot_corrupt : forall f, valid_slot f 0 = None -> valid_slot f 1 = None ->
  nc_active_config (config_boot f) = zero_config /\ nc_has_valid_config (config_boot f) = false.
Proof.
  intros f H0 H1. unfold config_boot, argus_nvs_core_init, valid_slot in *.
  cbn -[select_slot merge_flags recovery_slot read_checked slot_at provisioned]. rewrite H0, H1. done.
Qed.

(** When both slots are unreadable the durable provisioning mark does not lock the
    identity: the boot takes no flags from it, and a portal request that sets a new
    identity is accepted, whatever the mark holds. *)
Theorem corrupt_slots_reopen_identity f fields c u d :
  valid_slot f 0 = None -> valid_slot f 1 = None ->
  ff_client_id fields = Some c -> ff_unit_id fields = Some u -> ff_device_name fields = Some d ->
  argus_identity_validate_client_id (Some c) = true -> argus_identity_validate_unit_id (Some u) = true ->
  argus_identity_validate_device_name (Some d) = true ->
  let core := with_default_identity (config_boot f) in
  locked (nc_active_config core) = false /\
  exists p, argus_config_overlay_apply (argus_nvs_config_get_effective core).1 ARGUS_CONFIG_SCOPE_IDENTITY fields = inr p.
Proof.
  intros H0 H1 Hc Hu Hd Hvc Hvu Hvd core. destruct (config_boot_corrupt f H0 H1) as [Hb Hh].
  assert (Hl : locked (nc_active_config core) = false).
  { unfold core, with_default_identity. rewrite Hh. cbn -[snprintf_into]. unfold locked. cbn. by rewrite Hb. }
  split; [done|]. unfold argus_config_overlay_apply, apply_identity. cbn [argus_nvs_config_get_effective fst].
  unfold locked in Hl. rewrite Hl, Hc, Hu, Hd, Hvc, Hvu, Hvd. cbn [negb]. eauto.
Qed.

Lemma corrupt_slots_reopen_identity_witness :
  hwm_of corrupt_store = 1 /\ locked (nc_active_config (with_default_identity (config_boot corrupt_store))) = false.
Proof.
  split; [done|]. exact (proj1 (corrupt_slots_reopen_identity corrupt_store new_owner (str "mallory") (str "pump-8")
    (str "Mine") ltac:(by vm_compute) ltac:(by vm_compute) eq_refl eq_refl eq_refl
    ltac:(by vm_compute) ltac:(by vm_compute) ltac:(by vm_compute))).
Defined.

(** A commit may overwrite the only valid slot: when the selector names a slot that is
    not valid and the boot has fallen back to the other one, the commit writes to that
    one, and power lost during the write, or a write that did not take, leaves a unit
    without a configuration. *)
Theorem commit_overwrites_only_copy c f i new x :
  i = 0 \/ i = 1 -> fl_selector (cg_slots f) = Some i -> valid_slot f i = None ->
  sta_pass new <> ARGUS_CONFIG_MASK_STRING -> argus_nvs_config_validate new = ESP_OK ->
  (is_slot_valid x).1 = false ->
  exists f', power_cut (argus_nvs_core_commit c new) f f' /\ nc_has_valid_config (config_boot f') = false.
Proof.
  intros Hi Hsel Hbad Hm Hv Hx. set (f' := f <| cg_slots := set_slot (cg_slots f) (other_slot i) x |>).
  assert (Hx' : valid_slot f' (other_slot i) = None).
  { unfold valid_slot, f'. cbn [cg_slots update eta eta_cfg_flash]. rewrite slot_at_set_same. cbn [read_value read_checked].
    destruct (is_slot_valid x). cbn [fst] in Hx. by rewrite Hx. }
  assert (Hi' : valid_slot f' i = None).
  { rewrite <- Hbad. apply valid_slot_same. unfold f'. cbn. by apply slot_at_set_other. }
  exists f'. split; [|by destruct Hi as [->| ->]; apply config_boot_corrupt].
  unfold argus_nvs_core_commit. rewrite bool_decide_eq_false_2, Hv by done. cbn [is_ok negb].
  eexists. split.
  - apply rtc_once. exists (inr i), f. split; [|reflexivity]. split; [|done]. split; [done|]. exact Hsel.
  - right. cbn [fst snd]. prog_simpl. split; [|done]. right. right. exists x. split; [exact Hx|].
    unfold f', inactive_slot. cbn [cg_slots update eta eta_cfg_flash]. by destruct Hi as [->| ->].
Qed.

Lemma commit_overwrites_only_copy_witness :
  let f := CfgFlash (Flash (Some corrupt_slot) (Some (new_slot 4 demo_config)) (Some 0)) false (Some 1) in
  nc_has_valid_config (config_boot f) = true /\
  exists f', power_cut (argus_nvs_core_commit (config_boot f) demo_config) f f' /\ nc_has_valid_config (config_boot f') = false.
Proof.
  intros f. split; [by vm_compute|].
  exact (commit_overwrites_only_copy (config_boot f) f 0 demo_config corrupt_slot ltac:(by left) eq_refl ltac:(by vm_compute)
    ltac:(by vm_compute) ltac:(by vm_compute) ltac:(by vm_compute)).
Defined.

(** ** Factory reset *)

(** Nothing of the configuration is left. *)
Definition all_erased (f : cfg_flash) : Prop := f = erased f.

Lemma erased_erased f : all_erased (erased f).
Proof. done. Qed.

(** A factory reset under way: nothing done yet, marked as pending, or erased. *)
Definition resetting (f f' : cfg_flash) : Prop := f' = f \/ cg_pending f' = true \/ all_erased f'.

Lemma init_on_erased f (Q : cfg_flash -> Prop) : all_erased f -> Q f ->
  wpc argus_nvs_core_init
    (fun r f' => is_ok r.1 = true /\ nc_has_valid_config r.2 = false /\ f' = f) Q f.
Proof.
  intros He HQ. unfold argus_nvs_core_init. prog_simpl.
  assert (Hslot : forall i, slot_at (cg_slots f) i = None) by (intros i; rewrite He; unfold slot_at; by destruct (i =? 0)).
  assert (Hr : forall i r, read_outcome (slot_at (cg_slots f) i) r -> read_checked r = None).
  { intros i r. rewrite Hslot. by destruct r. }
  apply wpc_read_cfg; [done|]. intros a Ha. prog_simpl. apply wpc_read_cfg; [done|]. intros b Hb. prog_simpl.
  apply wpc_read_sel; [done|]. intros sel _. prog_simpl.
  rewrite (Hr 0 a Ha), (Hr 1 b Hb). cbn [select_slot]. split; [done|].
  split; [intros f' Ht; hnf in Ht; by subst f'|]. intros h f' Ho. hnf in Ho. destruct Ho as [-> _].
  cbn. done.
Qed.

Lemma factory_reset_wpc c f :
  wpc (argus_nvs_config_factory_reset c)
    (fun r f' => resetting f f' /\ (is_ok r.1 = true -> all_erased f' /\ cg_pending f' = false
                                    /\ nc_has_valid_config r.2 = false)) (resetting f) f.
Proof.
  assert (Hf : resetting f f) by (by left).
  unfold argus_nvs_config_factory_reset, argus_nvs_core_factory_reset. prog_simpl. split; [done|]. split.
  { intros f' Ht. hnf in Ht. destruct Ht as [->| ->]; [done|]. right. by left. }
  intros pe f1 Ho. hnf in Ho.
  assert (Hf1 : resetting f f1) by (destruct Ho as [[_ ->]| ->]; [done|right; by left]).
  prog_simpl. destruct (is_ok pe) eqn:Hpe; prog_simpl; [|split; [done|]; cbn [fst]; by rewrite Hpe].
  apply is_ok_true in Hpe. destruct Ho as [[? _]| ->]; [done|]. split; [done|].
  assert (Hpart : forall f', partly_erased (f <| cg_pending := true |>) f' -> resetting f f')
    by (intros f' H; right; left; apply H). split; [exact Hpart|].
  intros ee f2 Ho. hnf in Ho. prog_simpl. assert (Hf2 : resetting f f2).
  { destruct Ho as [[_ ->]|[_ H]]; [right; by left|auto]. }
  destruct (is_ok ee) eqn:Hee; prog_simpl; [|split; [done|]; cbn [fst]; by rewrite Hee].
  apply is_ok_true in Hee. destruct Ho as [[_ ->]|[? _]]; [|done]. split; [done|].
  set (f2 := erased (f <| cg_pending := true |>)) in *.
  assert (Hdone : forall v, all_erased (f2 <| cg_pending := v |>)) by done.
  assert (Hdone' : forall v, resetting f (f2 <| cg_pending := v |>)) by (intros v; right; by right).
  split. { intros f' Ht. hnf in Ht. destruct Ht as [->| ->]; [done|apply Hdone']. }
  intros ce f3 Ho. hnf in Ho. prog_simpl. apply wpc_bind.
  assert (H3 : all_erased f3 /\ resetting f f3 /\ (ce = ESP_OK -> cg_pending f3 = false)).
  { destruct Ho as [[Hce ->]| ->]; [split_and!; done|split_and!; [done|apply Hdone'|done]]. }
  destruct H3 as (He3 & Hr3 & Hp3). apply wpc_bind. eapply wpc_mono; [| |apply (init_on_erased f3 (resetting f) He3 Hr3)].
  - cbv beta. intros r f' (Hok & Hhas & ->). prog_simpl. split; [done|]. prog_simpl. split; [done|].
    split; [done|]. cbn [fst snd]. rewrite Hok. unfold with_default_identity. rewrite Hhas. intros Hce.
    apply is_ok_true in Hce. auto.
  - done.
Qed.

Definition recovered (f : cfg_flash) : cfg_flash := (run argus_nvs_core_recovery_check f).2.

(** A factory reset is all or nothing across power cuts: one that reports success has
    erased both slots, the selector and the provisioning mark and leaves no mark of a
    pending reset; and wherever it fails or the power is cut, the flash is as it was or
    the recovery of the next boot leaves it erased. *)
Theorem factory_reset_completes c f :
  (forall e c' f', returns (argus_nvs_config_factory_reset c) f (e, c') f' ->
     (f' = f \/ all_erased (recovered f')) /\
     (e = ESP_OK -> all_erased f' /\ cg_pending f' = false /\ nc_has_valid_config c' = false)) /\
  (forall f', power_cut (argus_nvs_config_factory_reset c) f f' -> f' = f \/ all_erased (recovered f')).
Proof.
  assert (Hrec : forall f', resetting f f' -> f' = f \/ all_erased (recovered f')).
  { intros f' [->|H]; [by left|right]. unfold recovered, argus_nvs_core_recovery_check. cbn.
    destruct (cg_pending f') eqn:Hp; cbn; [done|]. by destruct H as [|H]. }
  pose proof (factory_reset_wpc c f) as Hw. split.
  - intros e c' f' Hr. pose proof (wpc_returns _ _ _ _ _ _ Hw Hr) as [H1 H2]. cbn [fst snd] in H2.
    split; [auto|]. intros ->. auto.
  - intros f' Hc. exact (Hrec f' (wpc_power_cut _ _ _ _ _ Hw Hc)).
Qed.

Lemma factory_reset_completes_witness :
  let cut := (run_for 2 (argus_nvs_config_factory_reset demo_core) demo_store).2 in
  cut = demo_store \/ all_erased (recovered cut).
Proof. exact (proj2 (factory_reset_completes demo_core demo_store) _ (run_for_power_cut 2 _ _)). Defined.

(** ** Migration *)

Lemma upgraded_valid s p : cs_valid_marker s = ARGUS_CONFIG_VALID_MARKER -> cs_config_generation s <> 0 ->
  argus_nvs_config_validate p = ESP_OK -> is_slot_valid (upgraded s p) = (true, upgraded s p).
Proof.
  intros Hm Hg Hv. unfold is_slot_valid, upgraded. cbn -[calc_crc32_raw argus_nvs_config_validate Z.eqb].
  rewrite Hm, !Z.eqb_refl, Hv. by apply Z.eqb_neq in Hg as ->.
Qed.

(** Two schema versions are different. *)
Ltac other_schema :=
  intros; exfalso; unfold ARGUS_CONFIG_SCHEMA_VERSION, ARGUS_CONFIG_SCHEMA_V1, ARGUS_CONFIG_SCHEMA_V2 in *; lia.

(** C32: what the validity check accepts it leaves as a slot of the current schema that it
    accepts again unchanged, with the same generation and strings; a slot of the second
    schema keeps its provisioning flags, one of the first becomes unprovisioned, and both
    get the standalone profile. *)
Theorem migration_stable s s' : is_slot_valid s = (true, s') ->
  is_slot_valid s' = (true, s') /\
  cs_schema_version s' = ARGUS_CONFIG_SCHEMA_VERSION /\ cs_config_generation s' = cs_config_generation s /\
  argus_nvs_config_validate (cs_payload s') = ESP_OK /\
  (cs_schema_version s = ARGUS_CONFIG_SCHEMA_VERSION -> s' = s) /\
  (cs_schema_version s = ARGUS_CONFIG_SCHEMA_V2 ->
     cs_payload s' = (cs_payload s) <| cf_authority_profile := ARGUS_AUTHORITY_PROFILE_STANDALONE_HMI |>) /\
  (cs_schema_version s = ARGUS_CONFIG_SCHEMA_V1 ->
     cs_payload s' = (cs_payload s) <| cf_provisioned_flags := 0 |>
                                    <| cf_authority_profile := ARGUS_AUTHORITY_PROFILE_STANDALONE_HMI |>).
Proof.
  intros H. pose proof H as H0. unfold is_slot_valid in H.
  destruct (negb (cs_valid_marker s =? _)) eqn:Hm; [done|]. destruct (cs_config_generation s =? 0) eqn:Hg; [done|].
  b2p. destruct ((cs_schema_version s =? ARGUS_CONFIG_SCHEMA_VERSION) && _) eqn:E3.
  { destruct (negb _); [done|]. injection H as Hv <-. apply is_ok_true in Hv. b2p.
    split_and!; [done|done|done|done|done|other_schema|other_schema]. }
  destruct ((cs_schema_version s =? ARGUS_CONFIG_SCHEMA_V1) && _) eqn:E1.
  { destruct (negb _); [done|]. injection H as Hv <-. apply is_ok_true in Hv. b2p.
    split_and!; [by apply upgraded_valid|done|done|done|other_schema|other_schema|done]. }
  destruct ((cs_schema_version s =? ARGUS_CONFIG_SCHEMA_V2) && _) eqn:E2; [|done].
  destruct (negb _); [done|]. injection H as Hv <-. apply is_ok_true in Hv. b2p.
  split_and!; [by apply upgraded_valid|done|done|done|other_schema|done|other_schema].
Qed.

Definition v2_slot : argus_cfg_slot_t :=
  CfgSlot 2 9 229 (calc_crc32_raw demo_config 229) ARGUS_CONFIG_VALID_MARKER demo_config.

Lemma migration_stable_witness : cf_provisioned_flags (cs_payload (is_slot_valid v2_slot).2) = 1.
Proof.
  destruct (migration_stable v2_slot (is_slot_valid v2_slot).2 ltac:(by vm_compute)) as (_ & _ & _ & _ & _ & H & _).
  rewrite (H eq_refl). done.
Defined.

(** ** Secrets and scopes *)

Lemma cstring_app a b : cstring a = a -> cstring (a ++ 0 :: b) = a.
Proof.
  induction a as [|x a IH]; cbn; [done|]. destruct (x =? 0) eqn:E; [done|]. intros [= H]. by rewrite IH.
Qed.

Lemma snprintf_into_length b s : (0 < length b)%nat -> length (snprintf_into b s) = length b.
Proof.
  intros Hb. unfold snprintf_into. rewrite length_app. cbn [length]. rewrite length_drop.
  pose proof (strlcpy_length s (length b)). lia.
Qed.

(** The arrays have their sizes. *)
Definition well_formed (p : argus_config_payload_t) : Prop :=
  length (cf_client_id p) = 33%nat /\ length (cf_unit_id p) = 33%nat /\ length (cf_device_name p) = 65%nat
  /\ length (cf_sta_ssid p) = 33%nat /\ length (cf_sta_pass p) = 64%nat.

Lemma string_after_snprintf b s r : (length s < length b)%nat -> cstring s = s ->
  cstring (snprintf_into b s ++ r) = s.
Proof.
  intros Hl Hs. unfold snprintf_into. rewrite strlcpy_fits by done. rewrite <- app_assoc. cbn [app].
  by apply cstring_app.
Qed.

Section Strings.
Context (p : argus_config_payload_t) (Hp : well_formed p).

Abbreviation last_two := [cf_provisioned_flags p; cf_authority_profile p].

(** The string at an offset starts with its array. *)
Lemma string_at_suffix front rest : config_bytes p = front ++ rest -> string_at (length front) p = cstring rest.
Proof. unfold string_at. intros ->. by rewrite drop_app_length. Qed.

Lemma unit_id_eq : unit_id p = cstring (cf_unit_id p ++ cf_device_name p ++ cf_sta_ssid p ++ cf_sta_pass p ++ last_two).
Proof.
  rewrite <- (string_at_suffix (cf_client_id p)) by done. unfold unit_id. f_equal. by destruct Hp as [-> _].
Qed.

Lemma device_name_eq : device_name p = cstring (cf_device_name p ++ cf_sta_ssid p ++ cf_sta_pass p ++ last_two).
Proof.
  rewrite <- (string_at_suffix (cf_client_id p ++ cf_unit_id p)) by (unfold config_bytes; by rewrite <- !app_assoc).
  unfold device_name. f_equal. rewrite !length_app. destruct Hp as (-> & -> & _). done.
Qed.

Lemma sta_ssid_eq : sta_ssid p = cstring (cf_sta_ssid p ++ cf_sta_pass p ++ last_two).
Proof.
  rewrite <- (string_at_suffix (cf_client_id p ++ cf_unit_id p ++ cf_device_name p))
    by (unfold config_bytes; by rewrite <- !app_assoc).
  unfold sta_ssid. f_equal. rewrite !length_app. destruct Hp as (-> & -> & -> & _). done.
Qed.

Lemma sta_pass_eq : sta_pass p = cstring (cf_sta_pass p ++ last_two).
Proof.
  rewrite <- (string_at_suffix (cf_client_id p ++ cf_unit_id p ++ cf_device_name p ++ cf_sta_ssid p))
    by (unfold config_bytes; by rewrite <- !app_assoc).
  unfold sta_pass. f_equal. rewrite !length_app. destruct Hp as (-> & -> & -> & -> & _). done.
Qed.
End Strings.

Lemma mask_well_formed p : well_formed p -> well_formed (argus_nvs_config_mask p).
Proof.
  intros Hp. unfold argus_nvs_config_mask. destruct (0 <? _)%nat; [|done].
  destruct Hp as (H1 & H2 & H3 & H4 & H5). split_and!; cbn [cf_client_id cf_unit_id cf_device_name cf_sta_ssid cf_sta_pass
    update eta eta_config_payload]; [done..|]. by rewrite snprintf_into_length; rewrite H5; [|lia].
Qed.

(** An exported configuration never carries the password and cannot be committed back:
    whenever one is set its string reads as the mask, the rest of the configuration is
    unchanged, and a commit of the result is refused without touching the flash. *)
Theorem mask_hides_and_is_refused p c f : well_formed p -> sta_pass p <> [] ->
  sta_pass (argus_nvs_config_mask p) = ARGUS_CONFIG_MASK_STRING /\
  (argus_nvs_config_mask p) <| cf_sta_pass := cf_sta_pass p |> = p /\
  run (argus_nvs_config_commit c (argus_nvs_config_mask p)) f = (ESP_ERR_INVALID_ARG, c, f) /\
  run (argus_nvs_core_commit c (argus_nvs_config_mask p)) f = (ESP_ERR_INVALID_ARG, c, f).
Proof.
  intros Hp Hs. assert (Hm : sta_pass (argus_nvs_config_mask p) = ARGUS_CONFIG_MASK_STRING).
  { rewrite sta_pass_eq by by apply mask_well_formed. unfold argus_nvs_config_mask.
    destruct (sta_pass p) as [|x l]; [done|]. cbn [length Nat.ltb Nat.leb cf_sta_pass update eta eta_config_payload].
    apply string_after_snprintf; [|done]. destruct Hp as (_ & _ & _ & _ & ->). by vm_compute; lia. }
  split_and!; [done| | |].
  - unfold argus_nvs_config_mask. destruct (0 <? _)%nat; by destruct p.
  - unfold argus_nvs_config_commit. rewrite Hm, bool_decide_eq_true_2 by done. done.
  - unfold argus_nvs_core_commit. rewrite Hm, bool_decide_eq_true_2 by done. done.
Qed.

Lemma mask_hides_and_is_refused_witness :
  run (argus_nvs_config_commit demo_core (argus_nvs_config_mask demo_config)) demo_store
    = (ESP_ERR_INVALID_ARG, demo_core, demo_store).
Proof.
  exact (proj1 (proj2 (proj2 (mask_hides_and_is_refused demo_config demo_core demo_store
    ltac:(by vm_compute) ltac:(by vm_compute))))).
Defined.

(** A request's field is a C string in an array of [n] bytes. *)
Definition in_array (n : nat) (s : option bytes) : Prop := forall b, s = Some b -> cstring b = b /\ (length b < n)%nat.

Definition fields_in_arrays (fields : argus_config_fields_t) : Prop :=
  in_array 33 (ff_client_id fields) /\ in_array 33 (ff_unit_id fields) /\ in_array 65 (ff_device_name fields)
  /\ in_array 33 (ff_sta_ssid fields) /\ in_array 64 (ff_sta_pass fields).

Lemma cstring_zeros n r : (0 < n)%nat -> cstring (replicate n 0 ++ r) = [].
Proof. by destruct n; [lia|]. Qed.

Lemma apply_identity_spec current fields p : well_formed current -> fields_in_arrays fields ->
  apply_identity current fields = inr p ->
  locked current = false /\ locked p = true /\
  ff_client_id fields = Some (client_id p) /\ ff_unit_id fields = Some (unit_id p)
  /\ ff_device_name fields = Some (device_name p) /\
  cf_sta_ssid p = cf_sta_ssid current /\ cf_sta_pass p = cf_sta_pass current
  /\ cf_authority_profile p = cf_authority_profile current.
Proof.
  intros Hw (Fc & Fu & Fd & _) H. pose proof Hw as (L1 & L2 & L3 & L4 & L5).
  unfold apply_identity in H. fold (locked current) in H.
  destruct (locked current) eqn:Hl; [done|].
  destruct (ff_client_id fields) as [c|]; [|done]. destruct (ff_unit_id fields) as [u|]; [|done].
  destruct (ff_device_name fields) as [d|]; [|done].
  destruct (negb _); [done|]. destruct (negb _); [done|]. destruct (negb _); [done|]. injection H as H.
  destruct (Fc c eq_refl) as [Hc1 Hc2], (Fu u eq_refl) as [Hu1 Hu2], (Fd d eq_refl) as [Hd1 Hd2].
  assert (Hp : well_formed p).
  { subst p. split_and!; cbn [cf_client_id cf_unit_id cf_device_name cf_sta_ssid cf_sta_pass update eta eta_config_payload];
      rewrite ?snprintf_into_length; lia. }
  rewrite unit_id_eq, device_name_eq by done. subst p.
  split_and!; [done| | | | |done|done|done].
  - unfold locked. cbn [cf_provisioned_flags update eta eta_config_payload]. by rewrite provisioned_lor.
  - unfold client_id, string_at. rewrite drop_0. unfold config_bytes. cbn [cf_client_id update eta eta_config_payload].
    rewrite string_after_snprintf; [done|lia|done].
  - cbn [cf_unit_id update eta eta_config_payload]. rewrite string_after_snprintf; [done|lia|done].
  - cbn [cf_device_name update eta eta_config_payload]. by rewrite string_after_snprintf; [|lia|].
Qed.

Lemma apply_wifi_spec current fields p : well_formed current -> fields_in_arrays fields ->
  apply_wifi current fields = inr p ->
  cf_client_id p = cf_client_id current /\ cf_unit_id p = cf_unit_id current
  /\ cf_device_name p = cf_device_name current
  /\ cf_provisioned_flags p = cf_provisioned_flags current
  /\ cf_authority_profile p = cf_authority_profile current /\
  ff_sta_ssid fields = Some (sta_ssid p) /\
  (sta_ssid p = [] -> sta_pass p = []) /\
  (sta_ssid p <> [] ->
     ff_sta_pass fields = Some (sta_pass p) \/ (sta_ssid p = sta_ssid current /\ sta_pass p = sta_pass current)).
Proof.
  intros Hw (_ & _ & _ & Fs & Fp) H. pose proof Hw as (L1 & L2 & L3 & L4 & L5). unfold apply_wifi in H.
  destruct (ff_sta_ssid fields) as [ssid|]; [|done]. destruct (Fs ssid eq_refl) as [Hs1 Hs2].
  destruct ssid as [|x l].
  { injection H as <-. rewrite sta_ssid_eq, sta_pass_eq by (split_and!; done). done. }
  destruct (bool_decide _); [done|].
  assert (Hset : forall b, length b = 64%nat ->
    p = current <| cf_sta_pass := b |> <| cf_sta_ssid ::= fun b => snprintf_into b (x :: l) |> ->
    well_formed p /\ sta_ssid p = x :: l /\ sta_pass p = cstring (b ++ [cf_provisioned_flags p; cf_authority_profile p])).
  { intros b Hb ->. assert (Hp : well_formed (current <| cf_sta_pass := b |> <| cf_sta_ssid ::= fun b => snprintf_into b (x :: l) |>)).
    { split_and!; cbn [cf_client_id cf_unit_id cf_device_name cf_sta_ssid cf_sta_pass update eta eta_config_payload];
        rewrite ?snprintf_into_length; lia. }
    split; [done|]. rewrite sta_ssid_eq, sta_pass_eq by done. split; [|done].
    cbn [cf_sta_ssid update eta eta_config_payload]. rewrite string_after_snprintf; [done|lia|done]. }
  destruct (ff_sta_pass fields) as [[|y k]|].
  - destruct (bool_decide_reflect (x :: l = sta_ssid current)) as [He|]; [|done]. injection H as H.
    destruct (Hset (cf_sta_pass current) L5 (eq_sym H)) as (Hp & H1 & H2). rewrite H1, H2, <- He, (sta_pass_eq current) by done.
    subst p. split_and!; try done. by right.
  - injection H as H. destruct (Fp (y :: k) eq_refl) as [Hp1 Hp2].
    destruct (Hset (snprintf_into (cf_sta_pass current) (y :: k)) ltac:(rewrite snprintf_into_length; lia) (eq_sym H)) as (Hp & H1 & H2).
    rewrite H1, H2, string_after_snprintf by (done || lia). subst p. split_and!; try done. by left.
  - destruct (bool_decide_reflect (x :: l = sta_ssid current)) as [He|]; [|done]. injection H as H.
    destruct (Hset (cf_sta_pass current) L5 (eq_sym H)) as (Hp & H1 & H2). rewrite H1, H2, <- He, (sta_pass_eq current) by done.
    subst p. split_and!; try done. by right.
Qed.

(** A portal request changes only what its scope names: an identity request succeeds
    only on an unlocked identity, sets exactly the three strings it carries, locks the
    identity and leaves network and profile alone; a network request leaves identity,
    lock and profile alone, sets the name it carries, clears the password with the name,
    and otherwise takes the password of the request or, for the same network, keeps the
    current one; no other scope changes anything. *)
Theorem overlay_respects_scope current scope fields p : well_formed current -> fields_in_arrays fields ->
  argus_config_overlay_apply current scope fields = inr p ->
  (scope = ARGUS_CONFIG_SCOPE_IDENTITY /\ locked current = false /\ locked p = true /\
   ff_client_id fields = Some (client_id p) /\ ff_unit_id fields = Some (unit_id p)
   /\ ff_device_name fields = Some (device_name p) /\
   cf_sta_ssid p = cf_sta_ssid current /\ cf_sta_pass p = cf_sta_pass current
   /\ cf_authority_profile p = cf_authority_profile current)
  \/
  (scope = ARGUS_CONFIG_SCOPE_WIFI /\
   cf_client_id p = cf_client_id current /\ cf_unit_id p = cf_unit_id current
   /\ cf_device_name p = cf_device_name current
   /\ cf_provisioned_flags p = cf_provisioned_flags current
   /\ cf_authority_profile p = cf_authority_profile current /\
   ff_sta_ssid fields = Some (sta_ssid p) /\
   (sta_ssid p = [] -> sta_pass p = []) /\
   (sta_ssid p <> [] ->
      ff_sta_pass fields = Some (sta_pass p) \/ (sta_ssid p = sta_ssid current /\ sta_pass p = sta_pass current))).
Proof.
  intros Hw Hf H. destruct scope; cbn [argus_config_overlay_apply] in H; [left|right|done]; (split; [done|]).
  - by apply apply_identity_spec.
  - by apply apply_wifi_spec.
Qed.

Lemma overlay_respects_scope_witness :
  exists p, argus_config_overlay_apply demo_config ARGUS_CONFIG_SCOPE_WIFI
              (ConfigFields None None None (Some (str "plant")) None) = inr p /\ sta_pass p = str "correct-horse".
Proof.
  eexists. split; [by vm_compute|].
  destruct (overlay_respects_scope demo_config ARGUS_CONFIG_SCOPE_WIFI (ConfigFields None None None (Some (str "plant")) None)
    (demo_config <| cf_sta_ssid ::= fun b => snprintf_into b (str "plant") |>)) as [H|H].
  - by vm_compute.
  - split_and!; intros b [= <-]; vm_compute; split; [done|lia].
  - by vm_compute.
  - destruct H as [? _]. done.
  - destruct H as (_ & _ & _ & _ & _ & _ & _ & _ & H). destruct H as [H|[_ H]]; [by vm_compute|done|].
    exact H.
Defined.
