(* ===== verification/MqttLease.v ===== *)
(** * The MQTT session core: command lease, heartbeats and sequence numbers

    The second half of [src/main/argus_mqtt_contract.c]: who holds the command
    lease and under which authority epoch, how heartbeats renew it, how it expires,
    and how command sequence numbers are judged.  The core is pure in the source;
    the clock ([now_ms]) is an argument. *)

From S2P Require Import Prelude MqttDecode.

(** ** Data *)

Inductive argus_mqtt_link_state_t :=
| ARGUS_MQTT_LINK_OFFLINE
| ARGUS_MQTT_LINK_ONLINE
| ARGUS_MQTT_LINK_STALE.

#[export] Instance link_eq_dec : EqDecision argus_mqtt_link_state_t.
Proof. solve_decision. Defined.

Definition link_is_online (l : argus_mqtt_link_state_t) : bool :=
  match l with ARGUS_MQTT_LINK_ONLINE => true | _ => false end.

Definition argus_mqtt_link_name (link : argus_mqtt_link_state_t) : bytes :=
  match link with
  | ARGUS_MQTT_LINK_ONLINE => str "ONLINE"
  | ARGUS_MQTT_LINK_STALE => str "STALE"
  | ARGUS_MQTT_LINK_OFFLINE => str "OFFLINE"
  end.

Inductive argus_mqtt_authority_result_t :=
| ARGUS_MQTT_AUTHORITY_GRANTED
| ARGUS_MQTT_AUTHORITY_ALREADY_HELD
| ARGUS_MQTT_AUTHORITY_DENIED_HELD
| ARGUS_MQTT_AUTHORITY_DENIED_PROFILE
| ARGUS_MQTT_AUTHORITY_DENIED_INVALID
| ARGUS_MQTT_AUTHORITY_TRANSFER_UNSUPPORTED_RUNNING
| ARGUS_MQTT_AUTHORITY_TRANSFER_EPOCH_REQUIRED
| ARGUS_MQTT_AUTHORITY_DENIED_WINDOW_OPEN.

#[export] Instance authority_result_eq_dec : EqDecision argus_mqtt_authority_result_t.
Proof. solve_decision. Defined.

Inductive argus_mqtt_sequence_result_t :=
| ARGUS_MQTT_SEQUENCE_FIRST
| ARGUS_MQTT_SEQUENCE_NEWER
| ARGUS_MQTT_SEQUENCE_DUPLICATE
| ARGUS_MQTT_SEQUENCE_CONFLICT
| ARGUS_MQTT_SEQUENCE_STALE.

Record argus_mqtt_session_core_t := SessionCore {
  sc_session : bytes;
  sc_link : argus_mqtt_link_state_t;
  sc_lease_machine_id : bytes;
  sc_lease_client_type : Z;
  sc_lease_connection_id : Z;
  sc_authority_epoch : Z;
  sc_heartbeat_connection_id : Z;
  sc_heartbeat_counter : Z;
  sc_last_heartbeat_ms : Z;
  sc_has_sequence : bool;
  sc_last_sequence : Z;
  sc_cached_action : argus_mqtt_action_t;
  sc_cached_command_id : bytes;
  sc_cached_payload : bytes;
  sc_cached_result : bytes
}.

#[export] Instance eta_session_core : Eta argus_mqtt_session_core_t := fun c =>
  SessionCore (sc_session c) (sc_link c) (sc_lease_machine_id c) (sc_lease_client_type c)
    (sc_lease_connection_id c) (sc_authority_epoch c) (sc_heartbeat_connection_id c)
    (sc_heartbeat_counter c) (sc_last_heartbeat_ms c) (sc_has_sequence c)
    (sc_last_sequence c) (sc_cached_action c) (sc_cached_command_id c)
    (sc_cached_payload c) (sc_cached_result c).

Definition ARGUS_MQTT_HEARTBEAT_TIMEOUT_MS : Z := 6000.

(** Machine client types and commissioned profiles. *)
Definition ARGUS_MACHINE_CLIENT_HMI : Z := 1.
Definition ARGUS_MACHINE_CLIENT_SERVICE_TOOL : Z := 3.
Definition ARGUS_MACHINE_CLIENT_ARGUS_COMMAND : Z := 5.
Definition ARGUS_AUTHORITY_PROFILE_STANDALONE_HMI : Z := 0.
Definition ARGUS_AUTHORITY_PROFILE_ARGUSCORE_PREFERRED : Z := 1.
Definition ARGUS_AUTHORITY_PROFILE_MAX : Z := 1.

(** ** Operations *)

Definition argus_mqtt_session_core_init (session : option bytes) : argus_mqtt_session_core_t :=
  SessionCore (match session with Some s => strlcpy s 17 | None => [] end)
    ARGUS_MQTT_LINK_OFFLINE [] 0 0 0 0 0 0 false 0 ARGUS_MQTT_ACTION_NONE [] [] [].

(** ["%0*lx"]: lower-case hexadecimal, padded with zeros to [width] digits. *)
Definition hex_digit (d : Z) : Z := if d <? 10 then 48 + d else 87 + d.

Fixpoint hex_padded (width : nat) (n : Z) : bytes :=
  match width with
  | O => []
  | S w => hex_padded w (n / 16) ++ [hex_digit (n mod 16)]
  end.

(** A 32-bit number never needs more than the eight padded digits. *)
Definition argus_mqtt_session_format (high low : Z) (out_size : nat) : esp_err_t * option bytes :=
  if (out_size <? 17)%nat || ((high =? 0) && (low =? 0)) then (ESP_ERR_INVALID_ARG, None)
  else
    let written := hex_padded 8 high ++ hex_padded 8 low in
    (if (length written =? 16)%nat then ESP_OK else ESP_ERR_INVALID_SIZE, Some (strlcpy written out_size)).

Definition argus_mqtt_session_is_newer (candidate reference : Z) : bool :=
  let delta := u32 (candidate - reference) in
  negb (delta =? 0) && (delta <? 2147483648).

Definition nonempty (s : bytes) : bool := match s with [] => false | _ => true end.

Definition lease_held_by (core : argus_mqtt_session_core_t) (machine_id : option bytes) : bool :=
  match machine_id with
  | Some id => nonempty id && nonempty (sc_lease_machine_id core)
               && bool_decide (sc_lease_machine_id core = id)
  | None => false
  end.

(** The identity buffer holds [ARGUS_SECURITY_ID_MAX + 1 = 37] bytes. *)
Definition lease_record_holder (core : argus_mqtt_session_core_t) (machine_id : option bytes)
    (client_type : Z) : argus_mqtt_session_core_t :=
  match machine_id with
  | Some ((_ :: _) as id) =>
      core <| sc_lease_machine_id := strlcpy id 37 |> <| sc_lease_client_type := client_type |>
  | _ => core <| sc_lease_machine_id := [] |> <| sc_lease_client_type := 0 |>
  end.

Definition local_client (client_type : Z) : bool :=
  (client_type =? ARGUS_MACHINE_CLIENT_HMI) || (client_type =? ARGUS_MACHINE_CLIENT_SERVICE_TOOL).

Definition profile_permits (authority_profile client_type : Z) (core_window_open : bool) : bool :=
  if authority_profile =? ARGUS_AUTHORITY_PROFILE_STANDALONE_HMI then local_client client_type
  else if client_type =? ARGUS_MACHINE_CLIENT_ARGUS_COMMAND then true
  else if local_client client_type then negb core_window_open
  else false.

Definition may_preempt (requester_type holder_type : Z) : bool :=
  (requester_type =? ARGUS_MACHINE_CLIENT_ARGUS_COMMAND) && local_client holder_type.

Definition next_epoch (e : Z) : Z := let e := u32 (e + 1) in if e =? 0 then 1 else e.

Definition advance_epoch (core : argus_mqtt_session_core_t) : argus_mqtt_session_core_t :=
  core <| sc_authority_epoch ::= next_epoch |>.

(** [now_ms - core->last_heartbeat_ms >= TIMEOUT], in 64-bit arithmetic. *)
Definition lease_expired (core : argus_mqtt_session_core_t) (now_ms : Z) : bool :=
  ARGUS_MQTT_HEARTBEAT_TIMEOUT_MS <=? u64 (now_ms - sc_last_heartbeat_ms core).

(** The lease has a recorded, unexpired owner. *)
Definition lease_held (core : argus_mqtt_session_core_t) (now_ms : Z) : bool :=
  nonempty (sc_lease_machine_id core) && negb (lease_expired core now_ms).

Definition argus_mqtt_session_request_authority (core : argus_mqtt_session_core_t)
    (connection_id : Z) (machine_id : option bytes) (client_type authority_profile : Z)
    (core_window_open : bool) (now_ms : Z)
    : argus_mqtt_authority_result_t * argus_mqtt_session_core_t :=
  let id := default [] machine_id in
  if (connection_id =? 0) || negb (nonempty id)
     || (ARGUS_AUTHORITY_PROFILE_MAX <? authority_profile) then
    (ARGUS_MQTT_AUTHORITY_DENIED_INVALID, core)
  else if negb (profile_permits authority_profile client_type core_window_open) then
    if core_window_open && (authority_profile =? ARGUS_AUTHORITY_PROFILE_ARGUSCORE_PREFERRED)
       && local_client client_type
    then (ARGUS_MQTT_AUTHORITY_DENIED_WINDOW_OPEN, core)
    else (ARGUS_MQTT_AUTHORITY_DENIED_PROFILE, core)
  else
    let held := lease_held core now_ms in
    if held && bool_decide (sc_lease_machine_id core = id) then
      let core := core <| sc_lease_connection_id := connection_id |> in
      let core :=
        if negb (sc_heartbeat_connection_id core =? connection_id)
        then core <| sc_heartbeat_connection_id := connection_id |> <| sc_heartbeat_counter := 0 |>
        else core in
      (ARGUS_MQTT_AUTHORITY_ALREADY_HELD,
       core <| sc_last_heartbeat_ms := now_ms |> <| sc_link := ARGUS_MQTT_LINK_ONLINE |>)
    else if held && negb (may_preempt client_type (sc_lease_client_type core)) then
      (ARGUS_MQTT_AUTHORITY_DENIED_HELD, core)
    else
      let core := lease_record_holder core machine_id client_type in
      let core := core <| sc_lease_connection_id := connection_id |>
                       <| sc_heartbeat_connection_id := connection_id |>
                       <| sc_heartbeat_counter := 0 |>
                       <| sc_last_heartbeat_ms := now_ms |>
                       <| sc_link := ARGUS_MQTT_LINK_ONLINE |> in
      (ARGUS_MQTT_AUTHORITY_GRANTED, advance_epoch core).

Definition argus_mqtt_session_request_authority_with_state (core : argus_mqtt_session_core_t)
    (connection_id : Z) (machine_id : option bytes) (client_type authority_profile : Z)
    (core_window_open machine_running : bool) (supplied_epoch now_ms : Z)
    : argus_mqtt_authority_result_t * argus_mqtt_session_core_t :=
  let held_by_other := lease_held core now_ms && negb (lease_held_by core machine_id) in
  let profile_would_permit := profile_permits authority_profile client_type core_window_open in
  let would_transfer :=
    profile_would_permit && held_by_other && may_preempt client_type (sc_lease_client_type core) in
  if would_transfer && (supplied_epoch =? 0) then (ARGUS_MQTT_AUTHORITY_TRANSFER_EPOCH_REQUIRED, core)
  else if would_transfer && machine_running then
    (ARGUS_MQTT_AUTHORITY_TRANSFER_UNSUPPORTED_RUNNING, core)
  else argus_mqtt_session_request_authority core connection_id machine_id client_type
         authority_profile core_window_open now_ms.

Definition argus_mqtt_session_release_authority (core : argus_mqtt_session_core_t)
    (machine_id : option bytes) : bool * argus_mqtt_session_core_t :=
  if negb (lease_held_by core machine_id) then (false, core)
  else
    let core := lease_record_holder core None 0 in
    let core := core <| sc_lease_connection_id := 0 |>
                     <| sc_heartbeat_connection_id := 0 |>
                     <| sc_heartbeat_counter := 0 |>
                     <| sc_link := ARGUS_MQTT_LINK_OFFLINE |> in
    (true, advance_epoch core).

Definition argus_mqtt_session_accept_heartbeat (core : argus_mqtt_session_core_t)
    (connection_id : Z) (machine_id : option bytes) (client_type : Z)
    (heartbeat : argus_mqtt_heartbeat_t) (now_ms : Z) : esp_err_t * argus_mqtt_session_core_t :=
  if (connection_id =? 0) || negb (bool_decide (sc_session core = hb_session heartbeat)) then
    (ESP_ERR_INVALID_ARG, core)
  else
    let same_principal := lease_held_by core machine_id in
    if negb (sc_lease_connection_id core =? 0) && negb (sc_lease_connection_id core =? connection_id)
       && link_is_online (sc_link core) && negb same_principal then
      (ESP_ERR_INVALID_STATE, core)
    else if (sc_heartbeat_connection_id core =? connection_id)
            && negb (sc_heartbeat_counter core =? 0)
            && negb (argus_mqtt_session_is_newer (hb_counter heartbeat) (sc_heartbeat_counter core)) then
      (ESP_ERR_INVALID_STATE, core)
    else
      let core := lease_record_holder core machine_id client_type in
      (ESP_OK, core <| sc_lease_connection_id := connection_id |>
                    <| sc_heartbeat_connection_id := connection_id |>
                    <| sc_heartbeat_counter := hb_counter heartbeat |>
                    <| sc_last_heartbeat_ms := now_ms |>
                    <| sc_link := ARGUS_MQTT_LINK_ONLINE |>).

Definition argus_mqtt_session_tick (core : argus_mqtt_session_core_t) (now_ms : Z)
    : bool * argus_mqtt_session_core_t :=
  let lease_exists := nonempty (sc_lease_machine_id core) || link_is_online (sc_link core) in
  if negb lease_exists || negb (lease_expired core now_ms) then (false, core)
  else
    let core := core <| sc_link := ARGUS_MQTT_LINK_STALE |> <| sc_lease_connection_id := 0 |> in
    (true, advance_epoch (lease_record_holder core None 0)).

Definition argus_mqtt_session_disconnect (core : argus_mqtt_session_core_t) (connection_id : Z)
    : bool * argus_mqtt_session_core_t :=
  if (connection_id =? 0)
     || (negb (sc_lease_connection_id core =? connection_id)
         && negb (sc_heartbeat_connection_id core =? connection_id)) then (false, core)
  else
    (true, core <| sc_lease_connection_id := 0 |>
                <| sc_heartbeat_connection_id := 0 |>
                <| sc_heartbeat_counter := 0 |>
                <| sc_link := ARGUS_MQTT_LINK_OFFLINE |>).

Definition argus_mqtt_session_check_sequence (core : argus_mqtt_session_core_t)
    (command : argus_mqtt_command_t) (payload : bytes) : argus_mqtt_sequence_result_t :=
  if negb (sc_has_sequence core) then ARGUS_MQTT_SEQUENCE_FIRST
  else if cd_sequence command =? sc_last_sequence core then
    if bool_decide (cd_action command = sc_cached_action core)
       && bool_decide (cd_command_id command = sc_cached_command_id core)
       && bool_decide (payload = sc_cached_payload core)
    then ARGUS_MQTT_SEQUENCE_DUPLICATE
    else ARGUS_MQTT_SEQUENCE_CONFLICT
  else if argus_mqtt_session_is_newer (cd_sequence command) (sc_last_sequence core)
  then ARGUS_MQTT_SEQUENCE_NEWER else ARGUS_MQTT_SEQUENCE_STALE.

Definition argus_mqtt_session_commit_result (core : argus_mqtt_session_core_t)
    (command : argus_mqtt_command_t) (payload result_json : bytes) : argus_mqtt_session_core_t :=
  core <| sc_has_sequence := true |>
       <| sc_last_sequence := cd_sequence command |>
       <| sc_cached_action := cd_action command |>
       <| sc_cached_command_id := strlcpy (cd_command_id command) 37 |>
       <| sc_cached_payload := strlcpy payload 385 |>
       <| sc_cached_result := strlcpy result_json 385 |>.

(** ** Runs of the session core *)

(** What the runtime does with a heartbeat: it reaches [accept_heartbeat] only when
    its sender is the recorded holder. *)
Definition holder_heartbeat (core : argus_mqtt_session_core_t) (connection_id : Z)
    (identifier : bytes) (client_type : Z) (heartbeat : argus_mqtt_heartbeat_t) (now_ms : Z)
    : esp_err_t * argus_mqtt_session_core_t :=
  if nonempty (sc_lease_machine_id core) && bool_decide (sc_lease_machine_id core = identifier)
  then argus_mqtt_session_accept_heartbeat core connection_id (Some identifier) client_type
         heartbeat now_ms
  else (ESP_ERR_INVALID_STATE, core).

Inductive lease_event :=
| EvRequest (connection_id : Z) (id : bytes) (client_type profile : Z) (window running : bool)
    (epoch now_ms : Z)
| EvRelease (id : bytes)
| EvHeartbeat (connection_id : Z) (id : bytes) (client_type : Z) (hb : argus_mqtt_heartbeat_t) (now_ms : Z)
| EvTick (now_ms : Z)
| EvDisconnect (connection_id : Z)
| EvCommit (command : argus_mqtt_command_t) (payload result : bytes).

Definition lease_step (core : argus_mqtt_session_core_t) (ev : lease_event)
    : argus_mqtt_session_core_t :=
  match ev with
  | EvRequest conn id ty prof win run ep now =>
      (argus_mqtt_session_request_authority_with_state core conn (Some id) ty prof win run ep now).2
  | EvRelease id => (argus_mqtt_session_release_authority core (Some id)).2
  | EvHeartbeat conn id ty hb now => (holder_heartbeat core conn id ty hb now).2
  | EvTick now => (argus_mqtt_session_tick core now).2
  | EvDisconnect conn => (argus_mqtt_session_disconnect core conn).2
  | EvCommit cmd p r => argus_mqtt_session_commit_result core cmd p r
  end.

Definition lease_run : argus_mqtt_session_core_t -> list lease_event -> argus_mqtt_session_core_t :=
  foldl lease_step.

(** The identity fits its buffer and the epoch is a 32-bit number. *)
Definition lease_wf (core : argus_mqtt_session_core_t) : Prop :=
  (length (sc_lease_machine_id core) <= 36)%nat /\ 0 <= sc_authority_epoch core <= UINT32_MAX.

Lemma next_epoch_spec e : 0 <= e <= UINT32_MAX ->
  next_epoch e = if e =? UINT32_MAX then 1 else e + 1.
Proof.
  unfold next_epoch, UINT32_MAX, u32. intros He. destruct (Z.eqb_spec e 4294967295) as [->|]; [done|].
  rewrite Z.mod_small by lia. destruct (Z.eqb_spec (e + 1) 0); lia.
Qed.

Lemma next_epoch_range e : 0 <= e <= UINT32_MAX -> 1 <= next_epoch e <= UINT32_MAX.
Proof.
  intros He. rewrite next_epoch_spec by done. unfold UINT32_MAX in *.
  destruct (Z.eqb_spec e 4294967295); lia.
Qed.

(** The outcomes of one step: ownership and epoch kept, or the epoch advanced. *)
Definition keeps (core core' : argus_mqtt_session_core_t) : Prop :=
  sc_lease_machine_id core' = sc_lease_machine_id core /\
  sc_authority_epoch core' = sc_authority_epoch core.

Lemma record_holder_fits core id ty :
  (length (sc_lease_machine_id (lease_record_holder core id ty)) <= 36)%nat.
Proof.
  unfold lease_record_holder. destruct id as [[|c id]|]; cbn [update sc_lease_machine_id]; cbn; try lia.
  rewrite length_take. lia.
Qed.

Lemma record_holder_epoch core id ty :
  sc_authority_epoch (lease_record_holder core id ty) = sc_authority_epoch core.
Proof. by destruct id as [[|c id]|]. Qed.

Lemma record_holder_id core id ty :
  nonempty id = true -> sc_lease_machine_id (lease_record_holder core (Some id) ty) = strlcpy id 37.
Proof. by destruct id. Qed.

Lemma request_outcome core conn id ty prof win now :
  let '(r, core') := argus_mqtt_session_request_authority core conn (Some id) ty prof win now in
  match r with
  | ARGUS_MQTT_AUTHORITY_GRANTED =>
      sc_authority_epoch core' = next_epoch (sc_authority_epoch core) /\
      sc_lease_machine_id core' = strlcpy id 37
  | ARGUS_MQTT_AUTHORITY_ALREADY_HELD => keeps core core'
  | _ => core' = core
  end.
Proof.
  unfold argus_mqtt_session_request_authority.
  change (default [] (Some id)) with id.
  destruct (nonempty id) eqn:Hid; cbn [negb orb]; rewrite ?orb_true_r; [|done].
  destruct ((conn =? 0) || false || (ARGUS_AUTHORITY_PROFILE_MAX <? prof)); [done|].
  destruct (negb (profile_permits prof ty win)).
  { by destruct (win && _ && _). }
  destruct (lease_held core now && bool_decide (sc_lease_machine_id core = id)); cbv beta iota zeta.
  { by destruct (negb _). }
  destruct (lease_held core now && negb _); [done|]. split.
  - exact (f_equal next_epoch (record_holder_epoch core (Some id) ty)).
  - exact (record_holder_id core id ty Hid).
Qed.

Lemma step_outcome core ev : lease_wf core ->
  keeps core (lease_step core ev) \/
  (sc_authority_epoch (lease_step core ev) = next_epoch (sc_authority_epoch core) /\
   (length (sc_lease_machine_id (lease_step core ev)) <= 36)%nat).
Proof.
  intros [Hl _]. destruct ev as [conn id ty prof win run ep now|id|conn id ty hb now|now|conn|cmd p r];
    cbn [lease_step].
  - unfold argus_mqtt_session_request_authority_with_state.
    destruct (_ && (ep =? 0)); [by left|]. destruct (_ && run); [by left|].
    pose proof (request_outcome core conn id ty prof win now) as H.
    destruct (argus_mqtt_session_request_authority core conn (Some id) ty prof win now) as [r core'].
    cbn [snd]. destruct r; try (by subst; left); try (by left).
    right. destruct H as [-> ->]. split; [done|]. pose proof (strlcpy_length id 37). lia.
  - unfold argus_mqtt_session_release_authority. destruct (negb _); [by left|].
    right. split; [reflexivity|exact (Nat.le_0_l 36)].
  - unfold holder_heartbeat, argus_mqtt_session_accept_heartbeat.
    destruct (_ && bool_decide (sc_lease_machine_id core = id)) eqn:Hh; [|by left].
    apply andb_true_iff in Hh as [Hn Hi%bool_decide_eq_true].
    destruct ((conn =? 0) || _); [by left|]. destruct (_ && _ && _ && _); [by left|].
    destruct (_ && _ && _); [by left|]. left. split; cbn [snd].
    + subst id. etransitivity; [exact (record_holder_id core _ ty Hn)|]. apply strlcpy_fits. lia.
    + exact (record_holder_epoch core (Some id) ty).
  - unfold argus_mqtt_session_tick. destruct (_ || _ : bool); [by left|].
    right. split; [reflexivity|exact (Nat.le_0_l 36)].
  - unfold argus_mqtt_session_disconnect. destruct (_ || _ : bool); by left.
  - by left.
Qed.

Lemma step_wf core ev : lease_wf core -> lease_wf (lease_step core ev).
Proof.
  intros Hwf. destruct (step_outcome core ev Hwf) as [[Hi He]|[He Hl]]; destruct Hwf as [Hl0 He0].
  - split; [by rewrite Hi|by rewrite He].
  - split; [done|]. rewrite He. pose proof (next_epoch_range _ He0). lia.
Qed.

(** After [k] advances the epoch is [k] places further on the cycle 1 .. 2^32-1. *)
Lemma epochs_cycle k e : 1 <= e <= UINT32_MAX ->
  Nat.iter k next_epoch e = (e - 1 + Z.of_nat k) mod UINT32_MAX + 1.
Proof.
  intros He. induction k as [|k IH].
  - cbn. rewrite Z.add_0_r, Z.mod_small by lia. lia.
  - cbn [Nat.iter]. unfold Nat.iter in *. cbn. rewrite IH. clear IH.
    pose proof (Z.mod_pos_bound (e - 1 + Z.of_nat k) UINT32_MAX ltac:(unfold UINT32_MAX; lia)) as Hb.
    rewrite next_epoch_spec by lia.
    pose proof (Z.div_mod (e - 1 + Z.of_nat k) UINT32_MAX ltac:(unfold UINT32_MAX; lia)) as Hd.
    set (q := (e - 1 + Z.of_nat k) / UINT32_MAX) in *. set (r := (e - 1 + Z.of_nat k) mod UINT32_MAX) in *.
    replace (e - 1 + Z.of_nat (S k)) with (e - 1 + Z.of_nat k + 1) by lia. rewrite Hd.
    destruct (Z.eqb_spec (r + 1) UINT32_MAX) as [Hr|Hr].
    + replace (UINT32_MAX * q + r + 1) with (0 + (q + 1) * UINT32_MAX) by lia.
      rewrite Z.mod_add by (unfold UINT32_MAX; lia). done.
    + replace (UINT32_MAX * q + r + 1) with (r + 1 + q * UINT32_MAX) by lia.
      rewrite Z.mod_add by (unfold UINT32_MAX; lia). rewrite Z.mod_small by lia. lia.
Qed.

Lemma epochs_distinct k e : 0 <= e <= UINT32_MAX -> Z.of_nat k < UINT32_MAX ->
  Nat.iter k next_epoch e = e -> k = 0%nat.
Proof.
  intros He Hk Heq. destruct (decide (e = 0)) as [->|Hne].
  - destruct k as [|k]; [done|]. rewrite Nat.iter_succ_r in Heq.
    rewrite epochs_cycle in Heq by (apply next_epoch_range; unfold UINT32_MAX; lia).
    pose proof (Z.mod_pos_bound (next_epoch 0 - 1 + Z.of_nat k) UINT32_MAX ltac:(unfold UINT32_MAX; lia)). lia.
  - rewrite epochs_cycle in Heq by lia.
    destruct (Z.lt_ge_cases (e - 1 + Z.of_nat k) UINT32_MAX) as [Hlt|Hge].
    + rewrite Z.mod_small in Heq by lia. lia.
    + replace (e - 1 + Z.of_nat k) with (e - 1 + Z.of_nat k - UINT32_MAX + 1 * UINT32_MAX) in Heq by lia.
      rewrite Z.mod_add, Z.mod_small in Heq by (unfold UINT32_MAX in *; lia). lia.
Qed.

Lemma run_epoch evs core : lease_wf core ->
  exists k, (k <= length evs)%nat /\
    sc_authority_epoch (lease_run core evs) = Nat.iter k next_epoch (sc_authority_epoch core) /\
    (k = 0%nat -> forall pre, pre `prefix_of` evs -> keeps core (lease_run core pre)).
Proof.
  revert core. induction evs as [|ev evs IH]; intros core Hwf.
  - exists 0%nat. split; [done|]. split; [done|]. intros _ pre [? Hp]. by destruct pre.
  - destruct (IH _ (step_wf core ev Hwf)) as (k & Hk & He & Hp). cbn [lease_run foldl].
    change (foldl lease_step (lease_step core ev) evs) with (lease_run (lease_step core ev) evs).
    destruct (step_outcome core ev Hwf) as [[Hi Hs]|[Hs _]].
    + exists k. split; [cbn; lia|]. split; [by rewrite He, Hs|]. intros -> pre Hpre.
      destruct pre as [|ev' pre]; [done|]. apply prefix_cons_inv_1 in Hpre as Heq. subst ev'.
      apply prefix_cons_inv_2 in Hpre. destruct (Hp eq_refl pre Hpre) as [H1 H2].
      split; [exact (eq_trans H1 Hi)|exact (eq_trans H2 Hs)].
    + exists (S k). split; [cbn; lia|]. split; [|done]. by rewrite He, Hs, <- Nat.iter_succ_r.
Qed.

(** C21: the authority epoch identifies an ownership: if the epoch is the same before and
    after any sequence of fewer than 2^32-1 requests, releases, heartbeats, ticks,
    disconnects and commits, then the holder never changed in between, so a command
    predicated on an epoch can only act for the owner it was sent under. *)
Theorem epoch_identifies_ownership core evs :
  lease_wf core -> Z.of_nat (length evs) < UINT32_MAX ->
  sc_authority_epoch (lease_run core evs) = sc_authority_epoch core ->
  forall pre, pre `prefix_of` evs ->
    sc_lease_machine_id (lease_run core pre) = sc_lease_machine_id core /\
    sc_authority_epoch (lease_run core pre) = sc_authority_epoch core.
Proof.
  intros Hwf Hlen Heq. destruct (run_epoch evs core Hwf) as (k & Hk & He & Hp).
  rewrite Heq in He. symmetry in He. apply epochs_distinct in He; [|apply Hwf|lia].
  by apply Hp.
Qed.

(** Who may take a lease from another: while a lease is held and unexpired, a request
    by a different principal is granted only to ArgusCore, only from a local panel or
    service tool, only under the ArgusCore-preferred profile, only while the machine is
    not driving and only if the request names an epoch, and the grant advances the
    epoch; every other request leaves the whole session core unchanged.  In particular a
    panel can never take a healthy ArgusCore lease. *)
Lemma transfer_outcome core conn id ty prof win run ep now r core' :
  0 <= prof -> lease_held core now = true -> sc_lease_machine_id core <> id ->
  argus_mqtt_session_request_authority_with_state core conn (Some id) ty prof win run ep now = (r, core') ->
  (r = ARGUS_MQTT_AUTHORITY_GRANTED /\
     ty = ARGUS_MACHINE_CLIENT_ARGUS_COMMAND /\ local_client (sc_lease_client_type core) = true /\
     prof = ARGUS_AUTHORITY_PROFILE_ARGUSCORE_PREFERRED /\ run = false /\ ep <> 0 /\
     sc_authority_epoch core' = next_epoch (sc_authority_epoch core)) \/
  (r <> ARGUS_MQTT_AUTHORITY_GRANTED /\ core' = core).
Proof.
  intros Hprof Hheld Hne. unfold argus_mqtt_session_request_authority_with_state.
  assert (Hby : lease_held_by core (Some id) = false).
  { unfold lease_held_by. rewrite bool_decide_eq_false_2 by done. by rewrite andb_false_r. }
  rewrite Hheld, Hby. cbn [negb andb]. rewrite andb_true_r.
  pose proof (request_outcome core conn id ty prof win now) as Hout.
  unfold argus_mqtt_session_request_authority in *. change (default [] (Some id)) with id in *.
  rewrite Hheld, (bool_decide_eq_false_2 _ Hne) in *. cbn [andb] in *.
  destruct ((conn =? 0) || negb (nonempty id) || (ARGUS_AUTHORITY_PROFILE_MAX <? prof)) eqn:Harg;
    destruct (profile_permits prof ty win) eqn:Hp; cbn [negb andb] in *;
    destruct (may_preempt ty (sc_lease_client_type core)) eqn:Hm; cbn [negb andb] in *;
    try (destruct (ep =? 0) eqn:Hep; [intros [= <- <-]; by right|]);
    try (destruct run; [intros [= <- <-]; by right|]);
    try (destruct (win && _ && _)); intros [= <- <-]; try (by right).
  left. unfold may_preempt in Hm. apply andb_true_iff in Hm as [Ht Hl]. apply Z.eqb_eq in Ht.
  split; [done|]. split; [done|]. split; [done|]. split; [|split; [done|split; [by apply Z.eqb_neq|apply Hout]]].
  subst ty. unfold profile_permits in Hp. b2p. apply Z.ltb_ge in H0.
  unfold ARGUS_AUTHORITY_PROFILE_MAX, ARGUS_AUTHORITY_PROFILE_ARGUSCORE_PREFERRED in *.
  destruct (Z.eqb_spec prof ARGUS_AUTHORITY_PROFILE_STANDALONE_HMI) as [->|Hs]; [by cbv in Hp|].
  unfold ARGUS_AUTHORITY_PROFILE_STANDALONE_HMI in Hs. lia.
Qed.

Lemma disconnect_keeps core conn : keeps core (argus_mqtt_session_disconnect core conn).2 /\
  sc_last_heartbeat_ms (argus_mqtt_session_disconnect core conn).2 = sc_last_heartbeat_ms core /\
  sc_lease_client_type (argus_mqtt_session_disconnect core conn).2 = sc_lease_client_type core.
Proof. unfold argus_mqtt_session_disconnect. by destruct (_ || _ : bool). Qed.

Lemma lease_held_ext core core' now :
  sc_lease_machine_id core' = sc_lease_machine_id core ->
  sc_last_heartbeat_ms core' = sc_last_heartbeat_ms core ->
  lease_held core' now = lease_held core now /\ lease_expired core' now = lease_expired core now.
Proof. unfold lease_held, lease_expired. by intros -> ->. Qed.

(** A disconnect ends the connection, not the lease.  After the holder's connection
    drops, owner and epoch are unchanged; before the deadline the same principal gets the
    lease back on any new connection with the epoch unchanged and the link online, and a
    principal that may not preempt is refused; once the deadline has passed the next tick
    expires the lease, clears the owner and advances the epoch. *)
Theorem lease_survives_disconnect core conn id ty prof win conn2 t :
  sc_lease_connection_id core = conn -> conn <> 0 -> conn2 <> 0 ->
  sc_lease_machine_id core = id -> id <> [] ->
  prof <= ARGUS_AUTHORITY_PROFILE_MAX -> profile_permits prof ty win = true ->
  let core1 := (argus_mqtt_session_disconnect core conn).2 in
  sc_lease_machine_id core1 = id /\ sc_authority_epoch core1 = sc_authority_epoch core /\
  sc_lease_connection_id core1 = 0 /\
  (lease_expired core t = false ->
     let '(r, core2) := argus_mqtt_session_request_authority core1 conn2 (Some id) ty prof win t in
     r = ARGUS_MQTT_AUTHORITY_ALREADY_HELD /\ keeps core core2 /\
     sc_link core2 = ARGUS_MQTT_LINK_ONLINE /\ sc_lease_connection_id core2 = conn2) /\
  (lease_expired core t = false -> forall other, other <> id -> other <> [] ->
     may_preempt ty (sc_lease_client_type core) = false ->
     argus_mqtt_session_request_authority core1 conn2 (Some other) ty prof win t
       = (ARGUS_MQTT_AUTHORITY_DENIED_HELD, core1)) /\
  (lease_expired core t = true ->
     let '(expired, core2) := argus_mqtt_session_tick core1 t in
     expired = true /\ sc_lease_machine_id core2 = [] /\
     sc_authority_epoch core2 = next_epoch (sc_authority_epoch core)).
Proof.
  intros Hc Hn Hn2 Hid Hne Hprof Hperm core1.
  assert (Hd : argus_mqtt_session_disconnect core conn = (true, core1)).
  { unfold core1, argus_mqtt_session_disconnect. rewrite Hc, Z.eqb_refl.
    by rewrite (proj2 (Z.eqb_neq conn 0)). }
  destruct (disconnect_keeps core conn) as [[Hk1 Hk2] [Hk3 Hk4]]. fold core1 in Hk1, Hk2, Hk3, Hk4.
  destruct (lease_held_ext core core1 t Hk1 Hk3) as [Hh He].
  assert (Hx : nonempty id = true) by (by destruct id).
  assert (Hz : sc_lease_connection_id core1 = 0).
  { unfold core1. revert Hd. unfold argus_mqtt_session_disconnect.
    destruct (_ || _ : bool); [done|]. reflexivity. }
  assert (Hq : lease_expired core t = false -> lease_held core1 t = true).
  { intros Ht. rewrite Hh. unfold lease_held. by rewrite Hid, Hx, Ht. }
  clearbody core1. rewrite Hid in Hk1. repeat split; try done.
  - intros Ht. specialize (Hq Ht). unfold argus_mqtt_session_request_authority.
    change (default [] (Some id)) with id. rewrite Hx, Hperm, Hq, Hk1.
    rewrite (proj2 (Z.eqb_neq conn2 0)) by done. rewrite (proj2 (Z.ltb_ge _ prof)) by done.
    rewrite bool_decide_eq_true_2 by done. cbn [negb orb andb].
    destruct (negb _); (split; [done|]; split; [split; [exact (eq_trans Hk1 (eq_sym Hid))|exact Hk2]|done]).
  - intros Ht other Ho Hoe Hm. specialize (Hq Ht). unfold argus_mqtt_session_request_authority.
    change (default [] (Some other)) with other.
    assert (Hoe' : nonempty other = true) by (by destruct other).
    rewrite Hoe', Hperm, Hq, Hk1, Hk4, Hm. rewrite (proj2 (Z.eqb_neq conn2 0)) by done.
    rewrite (proj2 (Z.ltb_ge _ prof)) by done. by rewrite bool_decide_eq_false_2 by congruence.
  - intros Ht. unfold argus_mqtt_session_tick. rewrite Hk1, Hx, He, Ht. cbn [orb negb].
    split; [done|]. split; [done|]. exact (f_equal next_epoch Hk2).
Qed.

(** ** Replays *)

Lemma is_newer_irrefl a : argus_mqtt_session_is_newer a a = false.
Proof. unfold argus_mqtt_session_is_newer. by rewrite Z.sub_diag. Qed.

(** Serial-number arithmetic: a number is never newer than one at most [2^31] ahead. *)
Lemma is_newer_behind a d : 0 <= d <= 2147483648 ->
  argus_mqtt_session_is_newer a (a + d) = false.
Proof.
  intros Hd. unfold argus_mqtt_session_is_newer, u32. replace (a - (a + d)) with (- d) by lia.
  destruct (decide (d = 0)) as [->|]; [done|].
  replace (- d) with (4294967296 - d + (-1) * 4294967296) by lia.
  rewrite Z.mod_add, Z.mod_small by lia.
  destruct (Z.ltb_spec (4294967296 - d) 2147483648); [lia|]. by rewrite andb_false_r.
Qed.

Lemma is_newer_u32 a b : argus_mqtt_session_is_newer a (u32 b) = argus_mqtt_session_is_newer a b.
Proof.
  unfold argus_mqtt_session_is_newer, u32. by rewrite Zminus_mod_idemp_r.
Qed.

(** What [accept_heartbeat] leaves when it accepts. *)
Lemma heartbeat_accepted core conn id ty hb now core1 :
  argus_mqtt_session_accept_heartbeat core conn id ty hb now = (ESP_OK, core1) ->
  conn <> 0 /\ sc_session core1 = hb_session hb /\
  sc_heartbeat_connection_id core1 = conn /\ sc_heartbeat_counter core1 = hb_counter hb.
Proof.
  unfold argus_mqtt_session_accept_heartbeat.
  destruct (Z.eqb_spec conn 0) as [|Hc]; [done|]. cbn [orb].
  destruct (bool_decide_reflect (sc_session core = hb_session hb)) as [Hs|]; [|done]. cbn [negb].
  destruct (_ && _ && _ && _); [done|]. destruct (_ && _ && _); [done|]. intros [= <-].
  split; [done|]. split; [|done]. rewrite <- Hs. by destruct id as [[|? ?]|].
Qed.

(** The connection and counter the replay guard compares with. *)
Definition guards (core : argus_mqtt_session_core_t) (conn counter : Z) : Prop :=
  sc_heartbeat_connection_id core = conn /\ sc_heartbeat_counter core = counter.

Lemma request_keeps_guard core conn id ty prof win now r core' counter :
  guards core conn counter ->
  argus_mqtt_session_request_authority core conn (Some id) ty prof win now = (r, core') ->
  r <> ARGUS_MQTT_AUTHORITY_GRANTED -> guards core' conn counter.
Proof.
  intros [Hg1 Hg2]. unfold argus_mqtt_session_request_authority.
  destruct (_ || _ : bool); [by intros [= <- <-]|].
  destruct (negb (profile_permits prof ty win)).
  { by destruct (win && _ && _); intros [= <- <-]. }
  destruct (lease_held core now && bool_decide _); cbv beta iota zeta.
  - change (sc_heartbeat_connection_id (core <| sc_lease_connection_id := conn |>))
      with (sc_heartbeat_connection_id core).
    rewrite Hg1, Z.eqb_refl. cbn [negb]. intros [= <- <-] _. by split.
  - destruct (lease_held core now && negb _); intros [= <- <-]; [by split|done].
Qed.

(** Requests by the holder on one connection, none of which moves the lease. *)
Inductive polls (conn : Z) (id : bytes) :
    argus_mqtt_session_core_t -> argus_mqtt_session_core_t -> Prop :=
| polls_refl core : polls conn id core core
| polls_step core ty prof win now r core1 core2 :
    argus_mqtt_session_request_authority core conn (Some id) ty prof win now = (r, core1) ->
    r <> ARGUS_MQTT_AUTHORITY_GRANTED -> polls conn id core1 core2 -> polls conn id core core2.

Lemma polls_guard conn id core core' counter :
  polls conn id core core' -> guards core conn counter -> guards core' conn counter.
Proof. induction 1; eauto using request_keeps_guard. Qed.

(** The replay guard survives polling: once a heartbeat with a nonzero counter was
    accepted on a connection, no number of the holder's own authority requests on that
    connection makes an equal or older counter acceptable again. *)
Theorem heartbeat_replay_refused core conn id ty hb now core1 core2 ty2 hb2 now2 :
  argus_mqtt_session_accept_heartbeat core conn (Some id) ty hb now = (ESP_OK, core1) ->
  hb_counter hb <> 0 -> polls conn id core1 core2 ->
  argus_mqtt_session_is_newer (hb_counter hb2) (hb_counter hb) = false ->
  exists e, argus_mqtt_session_accept_heartbeat core2 conn (Some id) ty2 hb2 now2 = (e, core2) /\
            e <> ESP_OK.
Proof.
  intros Ha Hn Hp Hold. apply heartbeat_accepted in Ha as (Hc & _ & Hg1 & Hg2).
  destruct (polls_guard _ _ _ _ _ Hp (conj Hg1 Hg2)) as [H1 H2].
  unfold argus_mqtt_session_accept_heartbeat. rewrite H1, H2, Hold, Z.eqb_refl.
  rewrite (proj2 (Z.eqb_neq (hb_counter hb) 0)) by done. cbn [andb negb].
  destruct (_ || _ : bool); [eexists; split; [done|done]|].
  destruct (_ && _ && _ && _); eexists; (split; [done|done]).
Qed.

(** The commands committed in order, with their payloads and results. *)
Definition commit_all (core : argus_mqtt_session_core_t)
    (cs : list (argus_mqtt_command_t * bytes * bytes)) : argus_mqtt_session_core_t :=
  foldl (fun core c => argus_mqtt_session_commit_result core c.1.1 c.1.2 c.2) core cs.

(** How far the sequence numbers move forward, from [last]. *)
Fixpoint span (last : Z) (cs : list (argus_mqtt_command_t * bytes * bytes)) : Z :=
  match cs with
  | [] => 0
  | c :: cs => u32 (cd_sequence c.1.1 - last) + span (cd_sequence c.1.1) cs
  end.

Lemma span_nonneg last cs : 0 <= span last cs.
Proof.
  revert last. induction cs as [|c cs IH]; intros last; [done|]. cbn [span].
  pose proof (u32_range (cd_sequence c.1.1 - last)). unfold is_u32 in *. specialize (IH (cd_sequence c.1.1)). lia.
Qed.

Definition seqs_u32 (cs : list (argus_mqtt_command_t * bytes * bytes)) : Prop :=
  Forall (fun c => is_u32 (cd_sequence c.1.1)) cs.

Lemma commit_all_last cs core last :
  sc_last_sequence core = last -> sc_has_sequence core = true -> is_u32 last -> seqs_u32 cs ->
  sc_has_sequence (commit_all core cs) = true /\
  sc_last_sequence (commit_all core cs) = u32 (last + span last cs).
Proof.
  intros Hl Hs Hu Hcs. revert core last Hl Hs Hu. induction Hcs as [|c cs Hc _ IH]; intros core last Hl Hs Hu.
  - cbn. rewrite Z.add_0_r, u32_small by done. done.
  - cbn [commit_all foldl span].
    change (foldl _ ?a cs) with (commit_all a cs).
    destruct (IH (argus_mqtt_session_commit_result core c.1.1 c.1.2 c.2) (cd_sequence c.1.1)
                eq_refl eq_refl Hc) as [H1 H2].
    split; [exact H1|]. rewrite H2. unfold u32.
    rewrite Z.add_assoc. rewrite <- (Z.add_mod_idemp_l (last + _)) by lia.
    rewrite Z.add_mod_idemp_r by lia. replace (last + (cd_sequence c.1.1 - last)) with (cd_sequence c.1.1) by lia.
    by rewrite Z.add_mod_idemp_l by lia.
Qed.

(** A command is executed at most once: after a series of committed commands whose
    sequence numbers advance by less than 2^31 in all, every command of the series that
    arrives again, with any payload, is judged duplicate, conflicting or stale, never new. *)
Theorem committed_never_new core c cs p :
  seqs_u32 (c :: cs) -> span (cd_sequence c.1.1) cs <= 2147483648 ->
  forall again, In again (c :: cs) ->
    match argus_mqtt_session_check_sequence (commit_all core (c :: cs)) again.1.1 p with
    | ARGUS_MQTT_SEQUENCE_FIRST | ARGUS_MQTT_SEQUENCE_NEWER => False
    | _ => True
    end.
Proof.
  intros Hu. cbn [commit_all foldl]. change (foldl _ ?a cs) with (commit_all a cs).
  set (core1 := argus_mqtt_session_commit_result core c.1.1 c.1.2 c.2).
  assert (H1 : sc_last_sequence core1 = cd_sequence c.1.1) by done.
  assert (H2 : sc_has_sequence core1 = true) by done. clearbody core1.
  revert core1 c H1 H2 Hu. induction cs as [|d cs IH]; intros core1 c H1 H2 Hu Hs again Hin.
  - destruct Hin as [<-|[]]. cbn [commit_all foldl]. unfold argus_mqtt_session_check_sequence.
    rewrite H1, H2, Z.eqb_refl. cbn [negb]. by destruct (_ && _ && _).
  - inversion Hu as [|? ? Hc Hcs]; subst. destruct Hin as [<-|Hin].
    + destruct (commit_all_last (d :: cs) core1 _ H1 H2 Hc Hcs) as [H3 H4].
      unfold argus_mqtt_session_check_sequence. rewrite H3, H4, is_newer_u32.
      rewrite is_newer_behind by (split; [apply span_nonneg|done]). cbn [negb].
      destruct (_ =? _); [|done]. by destruct (_ && _ && _).
    + cbn [commit_all foldl]. change (foldl _ ?a cs) with (commit_all a cs).
      apply (IH _ d); try done. cbn [span] in Hs.
      pose proof (u32_range (cd_sequence d.1.1 - cd_sequence c.1.1)). unfold is_u32 in *. lia.
Qed.

(** ** Session identifiers *)

Lemma hex_digit_spec d : 0 <= d < 16 ->
  hex_char (hex_digit d) = true /\ forall d', 0 <= d' < 16 -> hex_digit d = hex_digit d' -> d = d'.
Proof.
  intros Hd. unfold hex_digit, hex_char, isdigit. split.
  - rewrite orb_true_iff, !in_range_spec. destruct (Z.ltb_spec d 10); lia.
  - intros d' Hd'. destruct (Z.ltb_spec d 10), (Z.ltb_spec d' 10); lia.
Qed.

Lemma hex_padded_length w n : length (hex_padded w n) = w.
Proof. revert n. induction w as [|w IH]; intros n; [done|]. cbn. rewrite length_app, IH. cbn. lia. Qed.

Lemma hex_padded_hex w n : forallb hex_char (hex_padded w n) = true.
Proof.
  revert n. induction w as [|w IH]; intros n; [done|]. cbn [hex_padded]. rewrite forallb_app, IH. cbn.
  rewrite (proj1 (hex_digit_spec (n mod 16) (Z.mod_pos_bound n 16 ltac:(lia)))). done.
Qed.

Lemma hex_padded_inj w n m : 0 <= n < 16 ^ Z.of_nat w -> 0 <= m < 16 ^ Z.of_nat w ->
  hex_padded w n = hex_padded w m -> n = m.
Proof.
  revert n m. induction w as [|w IH]; intros n m Hn Hm; [cbn in *; lia|]. cbn [hex_padded].
  rewrite Nat2Z.inj_succ, Z.pow_succ_r in Hn, Hm by lia.
  intros [H1 [=H2]]%app_inj_2; [|done].
  apply IH in H1; [|split; [apply Z.div_pos; lia|apply Z.div_lt_upper_bound; lia]..].
  apply hex_digit_spec in H2; [|apply Z.mod_pos_bound; lia..].
  rewrite (Z.div_mod n 16), (Z.div_mod m 16) by lia. by rewrite H1, H2.
Qed.

(** A session identifier made from two random words is one every decoder accepts, and
    different words give different identifiers. *)
Theorem session_format_valid h l h' l' :
  is_u32 h -> is_u32 l -> is_u32 h' -> is_u32 l' -> h <> 0 \/ l <> 0 -> h' <> 0 \/ l' <> 0 ->
  exists s s', argus_mqtt_session_format h l 17 = (ESP_OK, Some s) /\ valid_session s = true /\
    argus_mqtt_session_format h' l' 17 = (ESP_OK, Some s') /\ (s = s' -> h = h' /\ l = l').
Proof.
  intros Hh Hl Hh' Hl' Hnz Hnz'.
  assert (Hf : forall a b, a <> 0 \/ b <> 0 ->
    argus_mqtt_session_format a b 17 = (ESP_OK, Some (hex_padded 8 a ++ hex_padded 8 b))).
  { intros a b Hab. unfold argus_mqtt_session_format.
    replace ((a =? 0) && (b =? 0)) with false.
    - cbn [orb Nat.ltb Nat.leb]. rewrite length_app, !hex_padded_length. cbn [Nat.add Nat.eqb].
      rewrite strlcpy_fits by (rewrite length_app, !hex_padded_length; lia). done.
    - symmetry. apply andb_false_iff. rewrite !Z.eqb_neq. done. }
  exists (hex_padded 8 h ++ hex_padded 8 l), (hex_padded 8 h' ++ hex_padded 8 l').
  split; [by apply Hf|]. split.
  { unfold valid_session. by rewrite length_app, !hex_padded_length, forallb_app, !hex_padded_hex. }
  split; [by apply Hf|]. intros [H1 H2]%app_inj_1; [|by rewrite !hex_padded_length].
  unfold is_u32 in *. split; eapply hex_padded_inj; try done; (cbn; lia).
Qed.

(** ** Witnesses *)

Definition sample_core : argus_mqtt_session_core_t :=
  (argus_mqtt_session_request_authority (argus_mqtt_session_core_init (Some (str "0123456789abcdef")))
     7 (Some (str "panel")) ARGUS_MACHINE_CLIENT_HMI ARGUS_AUTHORITY_PROFILE_ARGUSCORE_PREFERRED
     false 1000).2.

Definition sample_heartbeat (n : Z) : argus_mqtt_heartbeat_t := Heartbeat (str "0123456789abcdef") n.

Lemma epoch_identifies_ownership_witness :
  sc_lease_machine_id (lease_run sample_core [EvHeartbeat 7 (str "panel") 1 (sample_heartbeat 4) 2000])
  = str "panel".
Proof.
  assert (Hwf : lease_wf sample_core).
  { split; [apply Nat.leb_le; vm_compute; reflexivity|vm_compute; split; discriminate]. }
  exact (proj1 (epoch_identifies_ownership sample_core
    [EvHeartbeat 7 (str "panel") 1 (sample_heartbeat 4) 2000; EvTick 3000; EvDisconnect 7]
    Hwf eq_refl ltac:(vm_compute; reflexivity)
    [EvHeartbeat 7 (str "panel") 1 (sample_heartbeat 4) 2000]
    (ex_intro _ [EvTick 3000; EvDisconnect 7] eq_refl))).
Defined.

Lemma lease_survives_disconnect_witness :
  sc_authority_epoch (argus_mqtt_session_disconnect sample_core 7).2 = 1.
Proof.
  refine (eq_trans (proj1 (proj2 (lease_survives_disconnect sample_core 7 (str "panel")
    ARGUS_MACHINE_CLIENT_HMI 1 false 8 2000 _ _ _ _ _ _ _))) _);
    first [vm_compute; reflexivity | vm_compute; discriminate].
Defined.

Lemma heartbeat_replay_refused_witness :
  let core1 := (argus_mqtt_session_accept_heartbeat sample_core 7 (Some (str "panel")) 1
                  (sample_heartbeat 4) 2000).2 in
  let core2 := (argus_mqtt_session_request_authority core1 7 (Some (str "panel")) 1 1 false 2500).2 in
  exists e, argus_mqtt_session_accept_heartbeat core2 7 (Some (str "panel")) 1 (sample_heartbeat 4) 3000
    = (e, core2) /\ e <> ESP_OK.
Proof.
  intros core1 core2.
  apply (heartbeat_replay_refused sample_core 7 (str "panel") 1 (sample_heartbeat 4) 2000 core1).
  - vm_compute. reflexivity.
  - vm_compute. discriminate.
  - refine (polls_step 7 (str "panel") core1 1 1 false 2500 ARGUS_MQTT_AUTHORITY_ALREADY_HELD core2 core2
      _ _ (polls_refl _ _ _)); [vm_compute; reflexivity|discriminate].
  - vm_compute. reflexivity.
Defined.

Lemma committed_never_new_witness :
  match argus_mqtt_session_check_sequence
          (commit_all sample_core [(sample_command, [1], []); (sample_command <| cd_sequence := 9 |>, [2], [])])
          sample_command [3] with
  | ARGUS_MQTT_SEQUENCE_FIRST | ARGUS_MQTT_SEQUENCE_NEWER => False
  | _ => True
  end.
Proof.
  apply (committed_never_new sample_core (sample_command, [1], [])
    [(sample_command <| cd_sequence := 9 |>, [2], [])] [3]) with (again := (sample_command, [1], [])).
  - repeat constructor; vm_compute; discriminate.
  - vm_compute. discriminate.
  - left. reflexivity.
Defined.

Lemma session_format_valid_witness :
  exists s s', argus_mqtt_session_format 255 1 17 = (ESP_OK, Some s) /\ valid_session s = true /\
    argus_mqtt_session_format 255 2 17 = (ESP_OK, Some s') /\ (s = s' -> (255 : Z) = 255 /\ (1 : Z) = 2).
Proof. apply session_format_valid; unfold is_u32; lia. Defined.
