(* ===== verification/Authorization.v ===== *)
(** * Authorization of human principals

    [src/main/argus_authorization.c]: what a principal may do, whom it may manage and
    which permissions it may pass on.  Permission sets are 64-bit masks. *)

From S2P Require Import Prelude.

Definition ARGUS_PERMISSION_VIEW_STATUS : Z := 1.
Definition ARGUS_PERMISSION_REQUEST_AUTHORITY : Z := 2.
Definition ARGUS_PERMISSION_MOTION : Z := 4.
Definition ARGUS_PERMISSION_SOFTWARE_ESTOP : Z := 8.
Definition ARGUS_PERMISSION_RESET_SOFTWARE_ESTOP : Z := 16.
Definition ARGUS_PERMISSION_ACK_ALARMS : Z := 32.
Definition ARGUS_PERMISSION_MANAGE_USERS : Z := 64.
Definition ARGUS_PERMISSION_MANAGE_ROLES : Z := 128.
Definition ARGUS_PERMISSION_MANAGE_CLIENT_ADMINS : Z := 256.
Definition ARGUS_PERMISSION_ENROLL_MACHINES : Z := 512.
Definition ARGUS_PERMISSION_REVOKE_MACHINES : Z := 1024.
Definition ARGUS_PERMISSION_VIEW_AUDIT : Z := 2048.
Definition ARGUS_PERMISSION_MANAGE_NETWORK : Z := 4096.
Definition ARGUS_PERMISSION_CHANGE_AP_SECRET : Z := 8192.
Definition ARGUS_PERMISSION_MANAGE_CLIENT_NETWORK : Z := 16384.
Definition ARGUS_PERMISSION_MANAGE_MQTT : Z := 32768.
Definition ARGUS_PERMISSION_MODIFY_IDENTITY : Z := 65536.
Definition ARGUS_PERMISSION_MODIFY_PROTECTED_CONFIG : Z := 131072.
Definition ARGUS_PERMISSION_COMMISSION : Z := 262144.
Definition ARGUS_PERMISSION_CALIBRATE : Z := 524288.
Definition ARGUS_PERMISSION_MANAGE_FIRMWARE : Z := 1048576.
Definition ARGUS_PERMISSION_INVOKE_RECOVERY : Z := 2097152.
Definition ARGUS_PERMISSION_FULL_SECURITY_RESET : Z := 4194304.
Definition ARGUS_PERMISSION_DEFINED_MASK : Z := 8388607.

(** The levels are compared as numbers; 0 is the most privileged. *)
Definition ARGUS_SECURITY_LEVEL_ARGUS_PERSONNEL : Z := 0.
Definition ARGUS_SECURITY_LEVEL_CLIENT_ADMIN : Z := 1.
Definition ARGUS_SECURITY_LEVEL_SUPERVISOR : Z := 2.
Definition ARGUS_SECURITY_LEVEL_OPERATOR : Z := 3.
Definition ARGUS_SECURITY_LEVEL_VIEWER : Z := 4.
Definition ARGUS_SECURITY_LEVEL_MACHINE : Z := 5.
Definition ARGUS_SECURITY_LEVEL_COUNT : Z := 6.

Inductive argus_principal_type_t :=
| ARGUS_PRINCIPAL_NONE
| ARGUS_PRINCIPAL_CONSOLE
| ARGUS_PRINCIPAL_HUMAN
| ARGUS_PRINCIPAL_MACHINE.

#[export] Instance principal_type_eq_dec : EqDecision argus_principal_type_t.
Proof. solve_decision. Defined.

Record argus_principal_t := Principal {
  pr_type : argus_principal_type_t;
  pr_identifier : bytes;
  pr_scope : bytes;
  pr_level : Z;
  pr_permissions : Z;
  pr_delegable_permissions : Z;
  pr_credential_version : Z;
  pr_security_epoch : Z;
  pr_principal_revision : Z;
  pr_protected_identity : bool
}.

#[export] Instance principal_eq_dec : EqDecision argus_principal_t.
Proof. solve_decision. Defined.

Inductive argus_authorization_result_t :=
| ARGUS_AUTHZ_ALLOW
| ARGUS_AUTHZ_DENY_INVALID
| ARGUS_AUTHZ_DENY_CAPABILITY
| ARGUS_AUTHZ_DENY_SCOPE
| ARGUS_AUTHZ_DENY_LEVEL
| ARGUS_AUTHZ_DENY_DELEGATION
| ARGUS_AUTHZ_DENY_PROTECTED.

#[export] Instance authz_eq_dec : EqDecision argus_authorization_result_t.
Proof. solve_decision. Defined.

(** [(a & ~b) == 0] *)
Definition subset (a b : Z) : bool := Z.land a (Z.lnot b) =? 0.

Definition OPERATIONAL : Z :=
  Z.lor (Z.lor (Z.lor (Z.lor (Z.lor ARGUS_PERMISSION_VIEW_STATUS ARGUS_PERMISSION_REQUEST_AUTHORITY)
    ARGUS_PERMISSION_MOTION) ARGUS_PERMISSION_SOFTWARE_ESTOP)
    ARGUS_PERMISSION_RESET_SOFTWARE_ESTOP) ARGUS_PERMISSION_ACK_ALARMS.

Definition argus_authorization_level_permissions (level : Z) : Z :=
  if level =? ARGUS_SECURITY_LEVEL_ARGUS_PERSONNEL then ARGUS_PERMISSION_DEFINED_MASK
  else if level =? ARGUS_SECURITY_LEVEL_CLIENT_ADMIN then
    Z.lor (Z.lor (Z.lor (Z.lor (Z.lor OPERATIONAL ARGUS_PERMISSION_MANAGE_USERS)
      ARGUS_PERMISSION_MANAGE_ROLES) ARGUS_PERMISSION_ENROLL_MACHINES)
      ARGUS_PERMISSION_REVOKE_MACHINES) ARGUS_PERMISSION_VIEW_AUDIT
  else if (level =? ARGUS_SECURITY_LEVEL_SUPERVISOR) || (level =? ARGUS_SECURITY_LEVEL_OPERATOR)
  then OPERATIONAL
  else if level =? ARGUS_SECURITY_LEVEL_VIEWER then ARGUS_PERMISSION_VIEW_STATUS
  else 0.

Definition argus_authorization_level_delegable (level : Z) : Z :=
  Z.land (argus_authorization_level_permissions level)
    (Z.lnot (Z.lor (Z.lor (Z.lor (Z.lor (Z.lor (Z.lor ARGUS_PERMISSION_MANAGE_CLIENT_ADMINS
      ARGUS_PERMISSION_MODIFY_IDENTITY) ARGUS_PERMISSION_MODIFY_PROTECTED_CONFIG)
      ARGUS_PERMISSION_COMMISSION) ARGUS_PERMISSION_CALIBRATE)
      ARGUS_PERMISSION_MANAGE_FIRMWARE) ARGUS_PERMISSION_FULL_SECURITY_RESET)).

(** Both character arrays have 37 bytes; [strnlen] below 37 means terminated. *)
Definition argus_authorization_principal_valid (principal : option argus_principal_t) : bool :=
  match principal with
  | None => false
  | Some p =>
      (bool_decide (pr_type p = ARGUS_PRINCIPAL_CONSOLE)
       || bool_decide (pr_type p = ARGUS_PRINCIPAL_HUMAN))
      && (pr_level p <=? ARGUS_SECURITY_LEVEL_VIEWER)
      && negb (length (pr_identifier p) =? 0)%nat && negb (length (pr_scope p) =? 0)%nat
      && negb (pr_credential_version p =? 0)
      && negb (pr_security_epoch p =? 0)
      && negb (pr_principal_revision p =? 0)
      && subset (pr_permissions p) ARGUS_PERMISSION_DEFINED_MASK
      && subset (pr_delegable_permissions p) (pr_permissions p)
      && (Z.land (pr_delegable_permissions p) ARGUS_PERMISSION_MANAGE_CLIENT_ADMINS =? 0)
      && (length (pr_identifier p) <? 37)%nat && (length (pr_scope p) <? 37)%nat
  end.

Definition argus_authorization_require (principal : option argus_principal_t) (required : Z)
    : argus_authorization_result_t :=
  if negb (argus_authorization_principal_valid principal) || (required =? 0)
     || negb (subset required ARGUS_PERMISSION_DEFINED_MASK) then ARGUS_AUTHZ_DENY_INVALID
  else
    match principal with
    | Some p => if Z.land (pr_permissions p) required =? required
                then ARGUS_AUTHZ_ALLOW else ARGUS_AUTHZ_DENY_CAPABILITY
    | None => ARGUS_AUTHZ_DENY_INVALID
    end.

Definition scope_contains (actor target : bytes) : bool :=
  bool_decide (actor = str "*") || bool_decide (actor = target).

Definition argus_authorization_manage_target (actor : option argus_principal_t) (target_level : Z)
    (target_scope : option bytes) (target_protected : bool) : argus_authorization_result_t :=
  match argus_authorization_require actor ARGUS_PERMISSION_MANAGE_USERS, actor, target_scope with
  | ARGUS_AUTHZ_ALLOW, Some a, Some scope =>
      if ARGUS_SECURITY_LEVEL_VIEWER <? target_level then ARGUS_AUTHZ_DENY_INVALID
      else if target_protected || (target_level =? ARGUS_SECURITY_LEVEL_ARGUS_PERSONNEL) then
        if pr_level a =? ARGUS_SECURITY_LEVEL_ARGUS_PERSONNEL
        then ARGUS_AUTHZ_ALLOW else ARGUS_AUTHZ_DENY_PROTECTED
      else if negb (scope_contains (pr_scope a) scope) then ARGUS_AUTHZ_DENY_SCOPE
      else if target_level <? pr_level a then ARGUS_AUTHZ_DENY_LEVEL
      else if (target_level =? ARGUS_SECURITY_LEVEL_CLIENT_ADMIN)
              && (Z.land (pr_permissions a) ARGUS_PERMISSION_MANAGE_CLIENT_ADMINS =? 0)
      then ARGUS_AUTHZ_DENY_CAPABILITY
      else if (ARGUS_SECURITY_LEVEL_CLIENT_ADMIN <? pr_level a)
              && (target_level <? ARGUS_SECURITY_LEVEL_OPERATOR)
      then ARGUS_AUTHZ_DENY_LEVEL
      else ARGUS_AUTHZ_ALLOW
  | ARGUS_AUTHZ_ALLOW, _, _ => ARGUS_AUTHZ_DENY_INVALID
  | capability, _, _ => capability
  end.

Definition argus_authorization_delegate (actor : option argus_principal_t) (target_level : Z)
    (target_scope : option bytes) (requested : Z) : argus_authorization_result_t :=
  match argus_authorization_manage_target actor target_level target_scope false, actor with
  | ARGUS_AUTHZ_ALLOW, Some a =>
      if (requested =? 0) || negb (subset requested ARGUS_PERMISSION_DEFINED_MASK)
      then ARGUS_AUTHZ_DENY_INVALID
      else if negb (subset requested (pr_permissions a))
              || negb (subset requested (pr_delegable_permissions a))
              || negb (Z.land requested ARGUS_PERMISSION_MANAGE_CLIENT_ADMINS =? 0)
      then ARGUS_AUTHZ_DENY_DELEGATION
      else ARGUS_AUTHZ_ALLOW
  | target, _ => target
  end.

(** ** Permission sets *)

Lemma subset_spec a b : subset a b = true <-> forall n, 0 <= n -> Z.testbit a n = true -> Z.testbit b n = true.
Proof.
  unfold subset. rewrite Z.eqb_eq. split.
  - intros H n Hn Ha. assert (Hb : Z.testbit (Z.land a (Z.lnot b)) n = false) by (by rewrite H, Z.bits_0).
    rewrite Z.land_spec, Z.lnot_spec, Ha in Hb by done. by destruct (Z.testbit b n).
  - intros H. apply Z.bits_inj'. intros n Hn. rewrite Z.land_spec, Z.lnot_spec, Z.bits_0 by done.
    destruct (Z.testbit a n) eqn:Ha; [|done]. by rewrite (H n Hn Ha).
Qed.

Lemma subset_refl a : subset a a = true.
Proof. by apply subset_spec. Qed.

Lemma subset_trans a b c : subset a b = true -> subset b c = true -> subset a c = true.
Proof. rewrite !subset_spec. auto. Qed.

#[export] Hint Resolve subset_refl subset_trans : argus.

(** ** Delegation *)

(** What an allowed delegation grants: the scope rule does not apply between Argus
    personnel. *)
Lemma delegate_allowed actor level scope req :
  argus_authorization_delegate actor level scope req = ARGUS_AUTHZ_ALLOW ->
  exists a s, actor = Some a /\ scope = Some s /\
    argus_authorization_principal_valid actor = true /\
    Z.land (pr_permissions a) ARGUS_PERMISSION_MANAGE_USERS = ARGUS_PERMISSION_MANAGE_USERS /\
    subset req (pr_permissions a) = true /\ subset req (pr_delegable_permissions a) = true /\
    Z.land req ARGUS_PERMISSION_MANAGE_CLIENT_ADMINS = 0 /\ req <> 0 /\
    pr_level a <= level <= ARGUS_SECURITY_LEVEL_VIEWER /\
    (scope_contains (pr_scope a) s = true \/ pr_level a = ARGUS_SECURITY_LEVEL_ARGUS_PERSONNEL).
Proof.
  unfold argus_authorization_delegate, argus_authorization_manage_target, argus_authorization_require.
  destruct (argus_authorization_principal_valid actor) eqn:Hv; [|done]. destruct actor as [a|]; [|done].
  change (negb true || (ARGUS_PERMISSION_MANAGE_USERS =? 0)
          || negb (subset ARGUS_PERMISSION_MANAGE_USERS ARGUS_PERMISSION_DEFINED_MASK)) with false.
  cbv iota. destruct (Z.eqb_spec (Z.land (pr_permissions a) ARGUS_PERMISSION_MANAGE_USERS)
    ARGUS_PERMISSION_MANAGE_USERS) as [Hm|]; [|done].
  destruct scope as [s|]; [|done]. intros H. exists a, s.
  destruct (Z.ltb_spec ARGUS_SECURITY_LEVEL_VIEWER level) as [|Hl]; [done|]. cbn [orb] in H.
  assert (Hr : pr_level a <= level /\
    (scope_contains (pr_scope a) s = true \/ pr_level a = ARGUS_SECURITY_LEVEL_ARGUS_PERSONNEL)).
  { destruct (Z.eqb_spec level ARGUS_SECURITY_LEVEL_ARGUS_PERSONNEL) as [->|].
    - destruct (Z.eqb_spec (pr_level a) ARGUS_SECURITY_LEVEL_ARGUS_PERSONNEL) as [->|]; [|done].
      split; [done|by right].
    - destruct (scope_contains (pr_scope a) s); [|done]. cbn [negb] in H.
      destruct (Z.ltb_spec level (pr_level a)); [done|]. split; [done|by left]. }
  assert (Hd : ((req =? 0) || negb (subset req ARGUS_PERMISSION_DEFINED_MASK) = false) /\
    negb (subset req (pr_permissions a)) || negb (subset req (pr_delegable_permissions a))
      || negb (Z.land req ARGUS_PERMISSION_MANAGE_CLIENT_ADMINS =? 0) = false).
  { repeat case_match; done. }
  clear H. destruct Hd as [H1 H2]. b2p. repeat split; try done; try (by apply Hr).
Qed.

(** A delegation creates a principal: its permissions are the requested ones, its level
    and scope those of the request. *)
Definition delegated (a b : argus_principal_t) : Prop :=
  argus_authorization_delegate (Some a) (pr_level b) (Some (pr_scope b)) (pr_permissions b)
  = ARGUS_AUTHZ_ALLOW.

(** Delegation never escalates: along any chain of allowed delegations the last
    principal's permissions are a subset of the first one's delegable permissions, it is never more
    privileged in level, and it never gets the right to manage client administrators. *)
Theorem delegation_never_escalates a b :
  tc delegated a b ->
  subset (pr_permissions b) (pr_permissions a) = true /\
  subset (pr_permissions b) (pr_delegable_permissions a) = true /\
  pr_level a <= pr_level b <= ARGUS_SECURITY_LEVEL_VIEWER /\
  Z.land (pr_permissions b) ARGUS_PERMISSION_MANAGE_CLIENT_ADMINS = 0.
Proof.
  induction 1 as [a b Hd|a b c Hd _ IH]; apply delegate_allowed in Hd as
    (a' & s & [= <-] & [= <-] & _ & _ & Hp & Hq & Hm & _ & Hl & _).
  - done.
  - destruct IH as (Hp' & _ & Hl' & Hm'). split; [eauto with argus|]. split; [eauto with argus|].
    split; [lia|done].
Qed.

(** A client administrator can act only inside its own scope and below its own
    level: it can neither manage Argus personnel or protected identities, nor another
    scope, nor, without that permission, another client administrator. *)
Theorem client_admin_confined a level scope protected :
  pr_level a = ARGUS_SECURITY_LEVEL_CLIENT_ADMIN ->
  argus_authorization_manage_target (Some a) level (Some scope) protected = ARGUS_AUTHZ_ALLOW ->
  protected = false /\ level <> ARGUS_SECURITY_LEVEL_ARGUS_PERSONNEL /\
  scope_contains (pr_scope a) scope = true /\
  (level = ARGUS_SECURITY_LEVEL_CLIENT_ADMIN ->
   Z.land (pr_permissions a) ARGUS_PERMISSION_MANAGE_CLIENT_ADMINS <> 0).
Proof.
  intros Hl. unfold argus_authorization_manage_target. rewrite Hl.
  destruct (argus_authorization_require (Some a) ARGUS_PERMISSION_MANAGE_USERS); try done.
  destruct (ARGUS_SECURITY_LEVEL_VIEWER <? level); [done|]. destruct protected; [done|]. cbn [orb].
  destruct (Z.eqb_spec level ARGUS_SECURITY_LEVEL_ARGUS_PERSONNEL); [done|].
  destruct (scope_contains (pr_scope a) scope); [|done]. cbn [negb].
  destruct (level <? _); [done|]. intros H. repeat split; try done. intros -> Hz.
  by rewrite Hz in H.
Qed.

(** ** Witnesses *)

Definition sample_admin : argus_principal_t :=
  Principal ARGUS_PRINCIPAL_HUMAN (str "admin") (str "plant") ARGUS_SECURITY_LEVEL_CLIENT_ADMIN
    (argus_authorization_level_permissions 1) (argus_authorization_level_delegable 1) 1 1 1 false.

Definition sample_supervisor : argus_principal_t :=
  Principal ARGUS_PRINCIPAL_HUMAN (str "sup") (str "plant") ARGUS_SECURITY_LEVEL_SUPERVISOR 71 71 1 1 1 false.

Definition sample_operator : argus_principal_t :=
  Principal ARGUS_PRINCIPAL_HUMAN (str "op") (str "plant") ARGUS_SECURITY_LEVEL_OPERATOR 5 0 1 1 1 false.

Lemma delegation_never_escalates_witness :
  subset (pr_permissions sample_operator) (pr_permissions sample_admin) = true.
Proof.
  refine (proj1 (delegation_never_escalates sample_admin sample_operator _)).
  apply (tc_l _ _ sample_supervisor); [vm_compute; reflexivity|].
  apply tc_once. vm_compute. reflexivity.
Defined.

Lemma client_admin_confined_witness : scope_contains (pr_scope sample_admin) (str "plant") = true.
Proof.
  refine (proj1 (proj2 (proj2 (client_admin_confined sample_admin 3 (str "plant") false _ _))));
    vm_compute; reflexivity.
Defined.
