(* ===== verification/SecurityRecords.v ===== *)
(** * Security records

    The packed records of [src/main/argus_security_store.h] and
    [argus_password_verifier.h], their validity checks from [argus_security_store.c] and
    [argus_password_verifier.c], and their bytes.  A character array is the C string it
    holds; the arrays are zero behind the string, since every record is cleared before
    it is filled. *)

From S2P Require Import Prelude Storage Authorization.

Definition ARGUS_SECURITY_SCHEMA_VERSION : Z := 1.
Definition ARGUS_SECURITY_RECORD_VERSION : Z := 1.
Definition ARGUS_SECURITY_MAX_ROLES : Z := 16.
Definition ARGUS_SECURITY_BUILTIN_ROLE_COUNT : Z := 6.
Definition ARGUS_SECURITY_MAX_HUMANS : Z := 16.
Definition ARGUS_SECURITY_MAX_MACHINES : Z := 16.
Definition ARGUS_SECURITY_AP_SECRET_MIN : Z := 8.
Definition ARGUS_SECURITY_AP_SECRET_MAX : Z := 63.

(** ** The password verifier record *)

Definition ARGUS_PASSWORD_FORMAT_VERSION : Z := 1.
Definition ARGUS_PASSWORD_ALGORITHM_PBKDF2_HMAC_SHA256 : Z := 1.
Definition ARGUS_PASSWORD_SALT_SIZE : Z := 16.
Definition ARGUS_PASSWORD_VERIFIER_SIZE : Z := 32.
Definition ARGUS_PASSWORD_INPUT_MAX : nat := 128.
Definition ARGUS_PASSWORD_ITERATIONS_MIN : Z := 10000.
Definition ARGUS_PASSWORD_ITERATIONS_MAX : Z := 500000.
Definition ARGUS_PASSWORD_ITERATIONS_DEFAULT : Z := 25000.

Record argus_password_verifier_t := PasswordVerifier {
  pw_format_version : Z;
  pw_algorithm : Z;
  pw_salt_length : Z;
  pw_verifier_length : Z;
  pw_iterations : Z;
  pw_salt : bytes;
  pw_verifier : bytes
}.

#[export] Instance password_verifier_eq_dec : EqDecision argus_password_verifier_t.
Proof. solve_decision. Defined.

Definition zero_verifier : argus_password_verifier_t := PasswordVerifier 0 0 0 0 0 [] [].

Definition argus_password_verifier_record_valid (r : argus_password_verifier_t) : bool :=
  (pw_format_version r =? ARGUS_PASSWORD_FORMAT_VERSION)
  && (pw_algorithm r =? ARGUS_PASSWORD_ALGORITHM_PBKDF2_HMAC_SHA256)
  && (pw_salt_length r =? ARGUS_PASSWORD_SALT_SIZE)
  && (pw_verifier_length r =? ARGUS_PASSWORD_VERIFIER_SIZE)
  && (ARGUS_PASSWORD_ITERATIONS_MIN <=? pw_iterations r)
  && (pw_iterations r <=? ARGUS_PASSWORD_ITERATIONS_MAX).

Definition verifier_bytes (r : argus_password_verifier_t) : bytes :=
  le 1 (pw_format_version r) ++ le 1 (pw_algorithm r) ++ le 1 (pw_salt_length r)
  ++ le 1 (pw_verifier_length r) ++ le 4 (pw_iterations r)
  ++ chars 16 (pw_salt r) ++ chars 32 (pw_verifier r).

(** ** Text fields *)

Definition bounded_string_valid (value : bytes) (capacity : nat) (allow_empty : bool) : bool :=
  negb (capacity =? 0)%nat && (length value <? capacity)%nat && (allow_empty || negb (length value =? 0)%nat)
  && forallb (fun c => isalnum c || (c =? 95) || (c =? 45)) value.

Definition bounded_printable_valid (value : bytes) (capacity : nat) (allow_empty : bool) : bool :=
  negb (capacity =? 0)%nat && (length value <? capacity)%nat && (allow_empty || negb (length value =? 0)%nat)
  && forallb isprint value.

(** The segments of a scope.  [previous] is the byte before. *)
Fixpoint scope_segments (previous : option Z) (segment_has_character : bool) (l : bytes) : bool :=
  match l with
  | [] => segment_has_character
  | c :: l' =>
      if isalnum c || (c =? 95) || (c =? 45) || (c =? 46) then scope_segments (Some c) true l'
      else if c =? 47 then
        if negb segment_has_character || match l' with [] => true | _ => false end then false
        else scope_segments (Some c) false l'
      else if c =? 42 then
        match l', previous with [], Some p => p =? 47 | _, _ => false end
      else false
  end.

Definition argus_security_machine_scope_valid (value : bytes) (capacity : nat) : bool :=
  if (capacity =? 0)%nat then false
  else if (length value =? 0)%nat || (capacity <=? length value)%nat then false
  else if bool_decide (value = str "*") then true
  else scope_segments None false value.

(** ** Roles *)

Record argus_security_role_record_t := RoleRecord {
  ro_record_version : Z;
  ro_level : Z;
  ro_builtin : Z;
  ro_protected_role : Z;
  ro_identifier : bytes;
  ro_permissions : Z;
  ro_delegable_permissions : Z
}.

#[export] Instance role_record_eq_dec : EqDecision argus_security_role_record_t.
Proof. solve_decision. Defined.

Definition zero_role : argus_security_role_record_t := RoleRecord 0 0 0 0 [] 0 0.

Definition argus_security_role_record_valid (r : argus_security_role_record_t) : bool :=
  (ro_record_version r =? ARGUS_SECURITY_RECORD_VERSION)
  && (ro_level r <? ARGUS_SECURITY_LEVEL_COUNT)
  && (ro_builtin r <=? 1) && (ro_protected_role r <=? 1)
  && bounded_string_valid (ro_identifier r) 37 false
  && subset (ro_permissions r) ARGUS_PERMISSION_DEFINED_MASK
  && subset (ro_delegable_permissions r) (ro_permissions r)
  && (Z.land (ro_delegable_permissions r) ARGUS_PERMISSION_MANAGE_CLIENT_ADMINS =? 0).

Definition role_bytes (r : argus_security_role_record_t) : bytes :=
  le 1 (ro_record_version r) ++ le 1 (ro_level r) ++ le 1 (ro_builtin r) ++ le 1 (ro_protected_role r)
  ++ chars 37 (ro_identifier r) ++ le 8 (ro_permissions r) ++ le 8 (ro_delegable_permissions r).

(** ** Human users *)

Record argus_security_human_record_t := HumanRecord {
  hu_record_version : Z;
  hu_level : Z;
  hu_enabled : Z;
  hu_protected_identity : Z;
  hu_identifier : bytes;
  hu_login : bytes;
  hu_display_name : bytes;
  hu_scope : bytes;
  hu_role_mask : Z;
  hu_direct_permissions : Z;
  hu_credential_version : Z;
  hu_record_security_epoch : Z;
  hu_revoked : Z;
  hu_reserved : list Z;
  hu_verifier : argus_password_verifier_t
}.

#[export] Instance human_record_eq_dec : EqDecision argus_security_human_record_t.
Proof. solve_decision. Defined.
#[export] Instance eta_human : Eta argus_security_human_record_t := fun h =>
  HumanRecord (hu_record_version h) (hu_level h) (hu_enabled h) (hu_protected_identity h) (hu_identifier h)
    (hu_login h) (hu_display_name h) (hu_scope h) (hu_role_mask h) (hu_direct_permissions h)
    (hu_credential_version h) (hu_record_security_epoch h) (hu_revoked h) (hu_reserved h) (hu_verifier h).

Definition zero_human : argus_security_human_record_t :=
  HumanRecord 0 0 0 0 [] [] [] [] 0 0 0 0 0 [0; 0; 0] zero_verifier.

Definition argus_security_human_record_valid (r : argus_security_human_record_t) : bool :=
  (hu_record_version r =? ARGUS_SECURITY_RECORD_VERSION)
  && (hu_level r <=? ARGUS_SECURITY_LEVEL_VIEWER)
  && (hu_enabled r <=? 1) && (hu_protected_identity r <=? 1)
  && bounded_string_valid (hu_identifier r) 37 false
  && bounded_string_valid (hu_login r) 33 false
  && bounded_printable_valid (hu_display_name r) 49 false
  && bounded_string_valid (hu_scope r) 37 false
  && negb (hu_role_mask r =? 0) && negb (hu_credential_version r =? 0)
  && negb (hu_record_security_epoch r =? 0) && (hu_revoked r <=? 1)
  && forallb (fun b => b =? 0) (hu_reserved r)
  && negb (negb (hu_enabled r =? 0) && negb (hu_revoked r =? 0))
  && subset (hu_direct_permissions r) ARGUS_PERMISSION_DEFINED_MASK
  && argus_password_verifier_record_valid (hu_verifier r).

Definition human_bytes (r : argus_security_human_record_t) : bytes :=
  le 1 (hu_record_version r) ++ le 1 (hu_level r) ++ le 1 (hu_enabled r) ++ le 1 (hu_protected_identity r)
  ++ chars 37 (hu_identifier r) ++ chars 33 (hu_login r) ++ chars 49 (hu_display_name r)
  ++ chars 37 (hu_scope r) ++ le 2 (hu_role_mask r) ++ le 8 (hu_direct_permissions r)
  ++ le 4 (hu_credential_version r) ++ le 4 (hu_record_security_epoch r) ++ le 1 (hu_revoked r)
  ++ chars 3 (hu_reserved r) ++ verifier_bytes (hu_verifier r).

(** ** Machines *)

Definition ARGUS_MACHINE_CLIENT_HMI : Z := 1.
Definition ARGUS_MACHINE_CLIENT_TYPE_MAX : Z := 6.
Definition ARGUS_MACHINE_TRANSPORT_MQTT : Z := 2.
Definition ARGUS_MACHINE_TRANSPORT_DEFINED_MASK : Z := 7.
Definition ARGUS_MACHINE_INTERFACE_SOFTAP : Z := 1.
Definition ARGUS_MACHINE_INTERFACE_STA : Z := 2.
Definition ARGUS_MACHINE_INTERFACE_DEFINED_MASK : Z := 3.

Record argus_security_machine_record_t := MachineRecord {
  mr_record_version : Z;
  mr_enabled : Z;
  mr_client_type : Z;
  mr_allowed_transports : Z;
  mr_revoked : Z;
  mr_allowed_interfaces : Z;
  mr_role_mask : Z;
  mr_identifier : bytes;
  mr_display_name : bytes;
  mr_scope : bytes;
  mr_topic_scope : bytes;
  mr_api_scope : bytes;
  mr_enrollment_actor : bytes;
  mr_permissions : Z;
  mr_credential_version : Z;
  mr_record_security_epoch : Z;
  mr_principal_revision : Z;
  mr_verifier : argus_password_verifier_t
}.

#[export] Instance machine_record_eq_dec : EqDecision argus_security_machine_record_t.
Proof. solve_decision. Defined.
#[export] Instance eta_machine : Eta argus_security_machine_record_t := fun m =>
  MachineRecord (mr_record_version m) (mr_enabled m) (mr_client_type m) (mr_allowed_transports m) (mr_revoked m)
    (mr_allowed_interfaces m) (mr_role_mask m) (mr_identifier m) (mr_display_name m) (mr_scope m)
    (mr_topic_scope m) (mr_api_scope m) (mr_enrollment_actor m) (mr_permissions m) (mr_credential_version m)
    (mr_record_security_epoch m) (mr_principal_revision m) (mr_verifier m).

Definition zero_machine : argus_security_machine_record_t :=
  MachineRecord 0 0 0 0 0 0 0 [] [] [] [] [] [] 0 0 0 0 zero_verifier.

Definition argus_security_machine_record_valid (r : argus_security_machine_record_t) : bool :=
  (mr_record_version r =? ARGUS_SECURITY_RECORD_VERSION)
  && (mr_enabled r <=? 1) && (mr_revoked r <=? 1)
  && negb (negb (mr_enabled r =? 0) && negb (mr_revoked r =? 0))
  && (ARGUS_MACHINE_CLIENT_HMI <=? mr_client_type r)
  && (mr_client_type r <=? ARGUS_MACHINE_CLIENT_TYPE_MAX)
  && negb (mr_allowed_transports r =? 0)
  && subset (mr_allowed_transports r) ARGUS_MACHINE_TRANSPORT_DEFINED_MASK
  && negb (mr_allowed_interfaces r =? 0)
  && subset (mr_allowed_interfaces r) ARGUS_MACHINE_INTERFACE_DEFINED_MASK
  && bounded_string_valid (mr_identifier r) 37 false
  && bounded_printable_valid (mr_display_name r) 49 false
  && argus_security_machine_scope_valid (mr_scope r) 37
  && bounded_printable_valid (mr_topic_scope r) 97 true
  && bounded_printable_valid (mr_api_scope r) 65 true
  && bounded_string_valid (mr_enrollment_actor r) 37 false
  && subset (mr_permissions r) ARGUS_PERMISSION_DEFINED_MASK
  && negb (mr_credential_version r =? 0) && negb (mr_record_security_epoch r =? 0)
  && negb (mr_principal_revision r =? 0)
  && argus_password_verifier_record_valid (mr_verifier r).

Definition machine_bytes (r : argus_security_machine_record_t) : bytes :=
  le 1 (mr_record_version r) ++ le 1 (mr_enabled r) ++ le 1 (mr_client_type r)
  ++ le 1 (mr_allowed_transports r) ++ le 1 (mr_revoked r) ++ le 1 (mr_allowed_interfaces r)
  ++ le 2 (mr_role_mask r) ++ chars 37 (mr_identifier r) ++ chars 49 (mr_display_name r)
  ++ chars 37 (mr_scope r) ++ chars 97 (mr_topic_scope r) ++ chars 65 (mr_api_scope r)
  ++ chars 37 (mr_enrollment_actor r) ++ le 8 (mr_permissions r) ++ le 4 (mr_credential_version r)
  ++ le 4 (mr_record_security_epoch r) ++ le 4 (mr_principal_revision r)
  ++ verifier_bytes (mr_verifier r).

(** ** Secrets of the access point *)

Record argus_security_ap_secret_record_t := ApSecret {
  ap_record_version : Z;
  ap_provisioned : Z;
  ap_length : Z;
  ap_reserved : Z;
  ap_credential_version : Z;
  ap_value : bytes
}.

#[export] Instance ap_secret_eq_dec : EqDecision argus_security_ap_secret_record_t.
Proof. solve_decision. Defined.
#[export] Instance eta_ap_secret : Eta argus_security_ap_secret_record_t := fun a =>
  ApSecret (ap_record_version a) (ap_provisioned a) (ap_length a) (ap_reserved a) (ap_credential_version a)
    (ap_value a).

(** [value] is an array of 64 bytes; what lies behind the list is zero. *)
Definition ap_byte (a : argus_security_ap_secret_record_t) (i : nat) : Z := default 0 (ap_value a !! i).

Definition ap_secret_valid (a : argus_security_ap_secret_record_t) : bool :=
  if negb (ap_record_version a =? ARGUS_SECURITY_RECORD_VERSION) || (1 <? ap_provisioned a)
     || negb (ap_reserved a =? 0) then false
  else if ap_provisioned a =? 0 then (ap_length a =? 0) && (ap_credential_version a =? 0)
  else if (ap_length a <? ARGUS_SECURITY_AP_SECRET_MIN) || (ARGUS_SECURITY_AP_SECRET_MAX <? ap_length a)
          || (ap_credential_version a =? 0) || negb (ap_byte a (Z.to_nat (ap_length a)) =? 0) then false
  else forallb (fun i => isprint (ap_byte a i)) (seq 0 (Z.to_nat (ap_length a))).

Definition ap_bytes (a : argus_security_ap_secret_record_t) : bytes :=
  le 1 (ap_record_version a) ++ le 1 (ap_provisioned a) ++ le 1 (ap_length a) ++ le 1 (ap_reserved a)
  ++ le 4 (ap_credential_version a) ++ chars 64 (ap_value a).

(** ** The sizes the static assertions fix *)

Lemma verifier_bytes_length r : length (verifier_bytes r) = 56%nat.
Proof. unfold verifier_bytes. by rewrite !length_app, !le_length, !chars_length. Qed.

Lemma role_bytes_length r : length (role_bytes r) = 57%nat.
Proof. unfold role_bytes. by rewrite !length_app, !le_length, !chars_length. Qed.

Lemma human_bytes_length r : length (human_bytes r) = 238%nat.
Proof. unfold human_bytes. by rewrite !length_app, verifier_bytes_length, !le_length, !chars_length. Qed.

Lemma machine_bytes_length r : length (machine_bytes r) = 406%nat.
Proof. unfold machine_bytes. by rewrite !length_app, verifier_bytes_length, !le_length, !chars_length. Qed.

Lemma ap_bytes_length r : length (ap_bytes r) = 72%nat.
Proof. unfold ap_bytes. by rewrite !length_app, !le_length, !chars_length. Qed.

Create Rewrite HintDb sizes.
#[export] Hint Rewrite verifier_bytes_length role_bytes_length human_bytes_length machine_bytes_length
  ap_bytes_length le_length chars_length : sizes.
