(* ===== verification/DualSlot.v ===== *)
(** * Dual-slot stores

    What [argus_security_store.c], [argus_machine_directory.c] and
    [argus_security_directory.c] share: the slot record, its validity check, and the
    write, read-back, selector sequence of a commit.  The specification of such a store
    is a register: a commit that reports success is what every later boot finds until
    the next one, and a power cut leaves the old value or one whose commit was under way.
    [DualSlotStore] states what a store's commit and boot must do for that, and
    [dual_slot_simulates] proves the refinement once for all of them. *)

From S2P Require Import Prelude Storage.

(** ** Slots *)

Record slot_record (P : Type) := SlotRecord {
  sl_magic : Z;
  sl_schema_version : Z;
  sl_payload_length : Z;
  sl_generation : Z;
  sl_crc32 : Z;
  sl_valid_marker : Z;
  sl_payload : P
}.
Arguments SlotRecord {P}.
Arguments sl_magic {P}.
Arguments sl_schema_version {P}.
Arguments sl_payload_length {P}.
Arguments sl_generation {P}.
Arguments sl_crc32 {P}.
Arguments sl_valid_marker {P}.
Arguments sl_payload {P}.

#[export] Instance slot_record_eq_dec {P} `{EqDecision P} : EqDecision (slot_record P).
Proof. solve_decision. Defined.

(** The constants of a store's slots. *)
Class SlotFormat (P : Type) := {
  sf_magic : Z;
  sf_schema : Z;
  sf_length : Z;
  sf_marker : Z;
  sf_crc32 : P -> Z;
  sf_payload_valid : P -> bool
}.

Definition slot_valid {P} `{SlotFormat P} (s : slot_record P) : bool :=
  (sl_magic s =? sf_magic) && (sl_schema_version s =? sf_schema) && (sl_payload_length s =? sf_length)
  && negb (sl_generation s =? 0) && (sl_valid_marker s =? sf_marker)
  && (sl_crc32 s =? sf_crc32 (sl_payload s)) && sf_payload_valid (sl_payload s).

#[export] Instance slot_record_check {P} `{SlotFormat P} : SlotCheck (slot_record P) := slot_valid.

(** The slot a commit writes. *)
Definition fresh_slot {P} `{SlotFormat P} (generation : Z) (payload : P) : slot_record P :=
  SlotRecord sf_magic sf_schema sf_length generation (sf_crc32 payload) sf_marker payload.

Definition next_generation (generation : Z) : Z :=
  let g := u32 (generation + 1) in if g =? 0 then 1 else g.

Definition target_slot (generation active_slot : Z) : Z :=
  if generation =? 0 then 0 else other_slot active_slot.

Lemma next_generation_pos g : next_generation g <> 0.
Proof. unfold next_generation. destruct (Z.eqb_spec (u32 (g + 1)) 0); lia. Qed.

Lemma fresh_slot_valid {P} `{SlotFormat P} g (p : P) :
  g <> 0 -> sf_payload_valid p = true -> slot_valid (fresh_slot g p) = true.
Proof.
  intros Hg Hp. unfold slot_valid, fresh_slot. cbn. rewrite !Z.eqb_refl, Hp. by apply Z.eqb_neq in Hg as ->.
Qed.

(** Write the slot, read it back, and only then select it. *)
Definition commit_slot {P} `{SlotFormat P} `{EqDecision P} (target : Z) (slot : slot_record P)
    : prog (slot_op (slot_record P)) esp_err_t :=
  err ← call (WriteSlot target slot);
  if negb (is_ok err) then mret err
  else
    readback ← call (ReadSlot target);
    match readback with
    | inl e => mret e
    | inr r =>
        if negb (slot_valid r) || negb (bool_decide (r = slot)) then mret ESP_ERR_INVALID_CRC
        else call (WriteSelector target)
    end.

Section CommitSlot.
Context {P : Type} `{SlotFormat P} `{EqDecision P}.
Implicit Types (f : flash (slot_record P)) (s : slot_record P).

(** What is on flash when a commit is interrupted or fails: nothing new, the slot or
    something invalid in its place, or everything. *)
Definition commit_leaves f target s f' : Prop :=
  f' = f \/ stored_for slot_valid f target s f' \/ f' = set_selector (set_slot f target s) target.

Lemma commit_slot_wpc target s f : slot_valid s = true ->
  wpc (commit_slot target s)
    (fun err f' => if is_ok err then f' = set_selector (set_slot f target s) target
                   else commit_leaves f target s f')
    (commit_leaves f target s) f.
Proof.
  intros Hs. assert (Hl : forall f', stored_for slot_valid f target s f' -> commit_leaves f target s f')
    by (intros; by right; left).
  unfold commit_slot, call. split; [by left|]. split.
  { intros f' Ht. hnf in Ht. destruct Ht as [->|H']; [by left|auto]. }
  intros err f1 Ho. hnf in Ho. assert (Hf1 : commit_leaves f target s f1).
  { destruct Ho as [[_ ->]|Hst]; [by left|auto]. }
  prog_simpl. destruct (is_ok err) eqn:Herr; prog_simpl; [|split; [done|by rewrite Herr]].
  apply is_ok_true in Herr as ->. destruct Ho as [[Hne _]|Hst]; [done|].
  split; [done|]. split; [intros f' Ht; hnf in Ht; by subst f'|].
  intros r f2 Hrd. hnf in Hrd. destruct Hrd as [-> Hr]. destruct r as [e|r]; cbn [read_outcome] in Hr; prog_simpl.
  { split; [done|]. destruct Hr as [Hr _]. apply is_ok_false in Hr. by rewrite Hr. }
  destruct (slot_valid r) eqn:Hv; cbn [negb orb]; prog_simpl; [|split; done].
  destruct (bool_decide_reflect (r = s)) as [->|]; prog_simpl; [|split; done].
  assert (Hf : f1 = set_slot f target s).
  { destruct Hst as [->|(g & Hg & ->)]; [done|]. rewrite slot_at_set_same in Hr.
    injection Hr as ->. change (slot_valid s = false) in Hg. congruence. }
  subst f1. split; [done|]. split.
  { intros f' Ht. hnf in Ht. destruct Ht as [->| ->]; [done|by right; right]. }
  intros e f3 Ho. hnf in Ho. prog_simpl. assert (Hf3 : commit_leaves f target s f3).
  { destruct Ho as [[_ ->]| ->]; [done|by right; right]. }
  split; [done|]. destruct (is_ok e) eqn:He; [|done].
  apply is_ok_true in He as ->. by destruct Ho as [[? _]| ->].
Qed.

Lemma commit_slot_run target s f : slot_valid s = true ->
  run (commit_slot target s) f = (ESP_OK, set_selector (set_slot f target s) target).
Proof.
  intros Hs. unfold commit_slot, call. cbn -[slot_valid set_slot slot_at].
  rewrite slot_at_set_same. cbn -[slot_valid set_slot]. rewrite Hs, bool_decide_eq_true_2 by done. done.
Qed.
End CommitSlot.

(** ** The specification: a register *)

(** What happens to a store: a commit that succeeds, one that fails, one a power cut
    interrupts, and a restart. *)
Inductive store_event (P : Type) :=
| Committed (p : P)
| Failed (p : P)
| Cut (p : P)
| Restarted.
Arguments Committed {P}.
Arguments Failed {P}.
Arguments Cut {P}.
Arguments Restarted {P}.

(** The value and the values whose commits have failed since. *)
Inductive register_step {P} : P * list P -> store_event P -> P * list P -> Prop :=
| reg_committed v att p : register_step (v, att) (Committed p) (p, [])
| reg_failed v att p : register_step (v, att) (Failed p) (v, p :: att)
| reg_cut v att p v' : v' ∈ v :: p :: att -> register_step (v, att) (Cut p) (v', [])
| reg_restarted v att v' : v' ∈ v :: att -> register_step (v, att) Restarted (v', []).

(** ** The interface *)

Class DualSlotStore (P C : Type) `{SlotFormat P} `{EqDecision P} := {
  ds_value : C -> P;
  ds_slot : C -> Z;
  ds_generation : C -> Z;
  (** The operations of the store. *)
  ds_commit : C -> P -> prog (slot_op (slot_record P)) (esp_err_t * C);
  ds_boot : flash (slot_record P) -> option (C * flash (slot_record P));
  (** A commit is refused, or writes the other slot with the new value. *)
  ds_commit_spec : forall c p, ds_generation c <> 0 ->
    (exists e, e <> ESP_OK /\ ds_commit c p = Ret (e, c)) \/
    (exists g c', g <> 0 /\ sf_payload_valid p = true
       /\ ds_value c' = p /\ ds_slot c' = other_slot (ds_slot c) /\ ds_generation c' = g
       /\ ds_commit c p = (err ← commit_slot (other_slot (ds_slot c)) (fresh_slot g p);
                           mret (err, if is_ok err then c' else c)));
  (** A boot finds the selected slot if it is valid, else the other one. *)
  ds_boot_spec : forall f i s, i = 0 \/ i = 1 -> slot_at f i = Some s -> slot_valid s = true ->
    fl_selector f = Some i \/
    (fl_selector f = Some (other_slot i) /\ forall s', slot_at f (other_slot i) = Some s' -> slot_valid s' = false) ->
    exists c f', ds_boot f = Some (c, f') /\ ds_value c = sl_payload s /\ ds_slot c = i
      /\ ds_generation c = sl_generation s /\ fl_a f' = fl_a f /\ fl_b f' = fl_b f
      /\ (fl_selector f' = fl_selector f \/ fl_selector f' = Some i)
}.

Section Refinement.
Context {P C : Type} `{Hst : DualSlotStore P C}.
Implicit Types (c : C) (f : flash (slot_record P)).

(** The steps of a store in memory with its flash. *)
Inductive store_step : C * flash (slot_record P) -> store_event P -> C * flash (slot_record P) -> Prop :=
| step_committed c f p c' f' :
    returns (ds_commit c p) f (ESP_OK, c') f' -> store_step (c, f) (Committed p) (c', f')
| step_failed c f p e c' f' :
    returns (ds_commit c p) f (e, c') f' -> e <> ESP_OK -> store_step (c, f) (Failed p) (c', f')
| step_cut c f p f1 c' f' :
    power_cut (ds_commit c p) f f1 -> ds_boot f1 = Some (c', f') -> store_step (c, f) (Cut p) (c', f')
| step_restarted c f c' f' :
    ds_boot f = Some (c', f') -> store_step (c, f) Restarted (c', f').

(** The active slot holds the value; the selector names it, or the other slot, which is
    then invalid or holds a value whose commit failed. *)
Record represents (σ : C * flash (slot_record P)) (r : P * list P) : Prop := {
  rp_value : ds_value σ.1 = r.1;
  rp_generation : ds_generation σ.1 <> 0;
  rp_slot : ds_slot σ.1 = 0 \/ ds_slot σ.1 = 1;
  rp_active : exists s, slot_at σ.2 (ds_slot σ.1) = Some s /\ slot_valid s = true /\ sl_payload s = r.1;
  rp_selector : fl_selector σ.2 = Some (ds_slot σ.1) \/
    (fl_selector σ.2 = Some (other_slot (ds_slot σ.1)) /\
     forall s, slot_at σ.2 (other_slot (ds_slot σ.1)) = Some s -> slot_valid s = true -> sl_payload s ∈ r.2)
}.

Lemma slot_valid_generation (s : slot_record P) : slot_valid s = true -> sl_generation s <> 0.
Proof. unfold slot_valid. intros Hv. by b2p. Qed.

Lemma other_other i : i = 0 \/ i = 1 -> other_slot (other_slot i) = i.
Proof. by intros [->| ->]. Qed.

Lemma slot_at_same f f' i : fl_a f' = fl_a f -> fl_b f' = fl_b f -> slot_at f' i = slot_at f i.
Proof. intros Ha Hb. unfold slot_at. by rewrite Ha, Hb. Qed.

(** The slot a boot of such a flash finds. *)
Lemma represents_selected c f v att : represents (c, f) (v, att) ->
  exists j s, (j = 0 \/ j = 1) /\ slot_at f j = Some s /\ slot_valid s = true /\
    (fl_selector f = Some j \/
     (fl_selector f = Some (other_slot j) /\ forall s', slot_at f (other_slot j) = Some s' -> slot_valid s' = false)) /\
    sl_payload s ∈ v :: att.
Proof.
  intros [Hv Hg Hi (s & Hs & Hgood & Hp) Hsel]; cbn [fst snd] in *.
  assert (Hhere : sl_payload s ∈ v :: att) by (rewrite Hp; by left).
  destruct Hsel as [Hsel|[Hsel Hother]]; [exists (ds_slot c), s; auto 10|].
  destruct (slot_at f (other_slot (ds_slot c))) as [s'|] eqn:Hs'; [destruct (slot_valid s') eqn:Hv'|].
  - exists (other_slot (ds_slot c)), s'. split; [destruct Hi as [->| ->]; auto|]. split; [done|]. split; [done|].
    split; [by left|]. right. exact (Hother s' eq_refl Hv').
  - exists (ds_slot c), s. do 3 (split; [done|]). split; [right|done]. split; [done|].
    intros s'' Hs''. congruence.
  - exists (ds_slot c), s. do 3 (split; [done|]). split; [right|done]. split; [done|].
    intros s'' Hs''. congruence.
Qed.

(** A boot of a flash whose slots represent the register finds one of its values. *)
Lemma boot_represents c f v att : represents (c, f) (v, att) ->
  exists c' f', ds_boot f = Some (c', f') /\
    exists v', v' ∈ v :: att /\ represents (c', f') (v', []).
Proof.
  intros Hr. destruct (represents_selected _ _ _ _ Hr) as (j & s' & Hj & Hs' & Hgood' & Hsel' & Hin).
  destruct (ds_boot_spec f j s' Hj Hs' Hgood' Hsel') as (c' & f' & Hb & Hval & Hslot & Hgen & Ha & Hbb & Hse).
  exists c', f'. split; [done|]. exists (sl_payload s'). split; [done|].
  split; cbn [fst snd]; [done|rewrite Hgen; by apply slot_valid_generation|by rewrite Hslot| |].
  - exists s'. rewrite Hslot, (slot_at_same f f') by done. done.
  - rewrite Hslot. destruct Hse as [->| ->]; [|by left]. destruct Hsel' as [|[? Hbad]]; [by left|]. right.
    split; [done|]. intros s'' Hs''. rewrite (slot_at_same f f') in Hs'' by done.
    rewrite (Hbad s'' Hs''). done.
Qed.

(** What an interrupted commit leaves still represents the register, with its value among
    those whose commits have failed. *)
Lemma commit_leaves_represents c f v att g p f' :
  represents (c, f) (v, att) -> g <> 0 -> sf_payload_valid p = true ->
  commit_leaves f (other_slot (ds_slot c)) (fresh_slot g p) f' ->
  represents (c, f') (v, p :: att).
Proof.
  intros [Hv Hg Hi (s & Hs & Hgood & Hp) Hsel] Hg' Hvalid Hl; cbn [fst snd] in *.
  assert (Hact : forall x, slot_at (set_slot f (other_slot (ds_slot c)) x) (ds_slot c) = Some s)
    by (intros x; by rewrite slot_at_set_other).
  assert (Hsl : forall x, fl_selector (set_slot f (other_slot (ds_slot c)) x) = fl_selector f)
    by (intros x; unfold set_slot; by destruct (_ =? 0)).
  destruct Hl as [->|[[->|(x & Hbad & ->)]| ->]]; split; cbn [fst snd]; try done.
  - by exists s.
  - destruct Hsel as [?|[? Ho]]; [by left|right]. split; [done|]. intros s' H1 H2. right. eauto.
  - rewrite Hact. by exists s.
  - rewrite Hsl. destruct Hsel as [?|[? _]]; [by left|right]. split; [done|].
    intros s' H1 _. rewrite slot_at_set_same in H1. injection H1 as <-. cbn. by left.
  - rewrite Hact. by exists s.
  - rewrite Hsl. destruct Hsel as [?|[? _]]; [by left|right]. split; [done|].
    intros s' H1 H2. rewrite slot_at_set_same in H1. injection H1 as <-. congruence.
  - rewrite slot_at_set_selector, Hact. by exists s.
  - right. split; [done|]. intros s' H1 _. rewrite slot_at_set_selector, slot_at_set_same in H1.
    injection H1 as <-. cbn. by left.
Qed.

(** The executions of a commit. *)
Lemma commit_wpc c f v att p : represents (c, f) (v, att) ->
  wpc (ds_commit c p)
    (fun r f' => if is_ok r.1 then represents (r.2, f') (p, []) else r.2 = c /\ represents (c, f') (v, p :: att))
    (fun f' => represents (c, f') (v, p :: att)) f.
Proof.
  intros Hr. assert (Hr' : represents (c, f) (v, p :: att)).
  { destruct Hr as [? ? ? ? Hsel]. split; try done. cbn [fst snd] in *.
    destruct Hsel as [?|[? Ho]]; [by left|right]. split; [done|]. intros. right. eauto. }
  destruct (ds_commit_spec c p (rp_generation _ _ Hr)) as [(e & He & ->)|(g & c' & Hg & Hv & Hval & Hslot & Hgen & ->)].
  { split; [done|]. apply is_ok_false in He. cbn [fst snd]. rewrite He. done. }
  apply wpc_bind. eapply wpc_mono; [| |apply commit_slot_wpc, fresh_slot_valid; done]; cbv beta.
  - intros err f' Hp. assert (Hleft : represents (c, f') (v, p :: att)).
    { apply (commit_leaves_represents c f v att g p f' Hr Hg Hv).
      destruct (is_ok err); [right; by right|done]. }
    split; [done|]. cbn [fst snd]. destruct (is_ok err); [|done]. subst f'.
    split; cbn [fst snd].
    + done.
    + by rewrite Hgen.
    + rewrite Hslot. destruct (rp_slot _ _ Hr) as [Hi|Hi]; cbn [fst] in Hi; rewrite Hi; auto.
    + exists (fresh_slot g p). rewrite Hslot, slot_at_set_selector, slot_at_set_same.
      split; [done|]. split; [by apply fresh_slot_valid|done].
    + left. by rewrite Hslot.
  - intros f' Hl. exact (commit_leaves_represents c f v att g p f' Hr Hg Hv Hl).
Qed.

(** The store refines the register. *)
Lemma dual_slot_simulates σ r ev σ' :
  represents σ r -> store_step σ ev σ' -> exists r', register_step r ev r' /\ represents σ' r'.
Proof.
  destruct r as [v att]. intros Hr Hs. destruct Hs as [c f p c' f' Hret|c f p e c' f' Hret He|c f p f1 c' f' Hcut Hb|c f c' f' Hb].
  - pose proof (wpc_returns _ _ _ _ _ _ (commit_wpc c f v att p Hr) Hret) as H'.
    exists (p, []). split; [constructor|exact H'].
  - pose proof (wpc_returns _ _ _ _ _ _ (commit_wpc c f v att p Hr) Hret) as H'. cbn [fst snd] in H'.
    apply is_ok_false in He. rewrite He in H'. destruct H' as [-> H'].
    exists (v, p :: att). split; [constructor|exact H'].
  - pose proof (wpc_power_cut _ _ _ _ _ (commit_wpc c f v att p Hr) Hcut) as H'.
    destruct (boot_represents c f1 v (p :: att) H') as (c1 & f2 & Hb' & v' & Hin & Hrep).
    rewrite Hb in Hb'. injection Hb' as <- <-. exists (v', []). split; [by constructor|done].
  - destruct (boot_represents c f v att Hr) as (c1 & f2 & Hb' & v' & Hin & Hrep).
    rewrite Hb in Hb'. injection Hb' as <- <-. exists (v', []). split; [by constructor|done].
Qed.

(** Wherever the power is cut, the next boot finds the value or one whose commit did not
    succeed. *)
Lemma dual_slot_cut c f v att p f1 : represents (c, f) (v, att) ->
  power_cut (ds_commit c p) f f1 -> exists c' f', ds_boot f1 = Some (c', f') /\ ds_value c' ∈ v :: p :: att.
Proof.
  intros Hr Hcut. pose proof (wpc_power_cut _ _ _ _ _ (commit_wpc c f v att p Hr) Hcut) as H'.
  destruct (boot_represents c f1 v (p :: att) H') as (c1 & f2 & Hb' & v' & Hin & Hrep).
  exists c1, f2. split; [done|]. pose proof (rp_value _ _ Hrep) as Hv. cbn [fst] in Hv. by rewrite Hv.
Qed.
End Refinement.
