(* ===== verification/SecurityStore.v ===== *)
(** * The security store

    [src/main/argus_security_store.c]: the payload with the built-in roles, the secrets
    of the access point and the console verifier, the dual-slot core, the writer task and
    the updates its clients submit.  Flash, its faults and power cuts are those of
    [Storage]; the register the store refines is that of [DualSlot]. *)

From S2P Require Import Prelude Storage DualSlot Authorization SecurityRecords.

Definition ARGUS_SECURITY_SLOT_MAGIC : Z := 1095911251.
Definition ARGUS_SECURITY_VALID_MARKER : Z := 1397048149.

Definition ARGUS_SECURITY_MIGRATION_NOT_STARTED : Z := 0.
Definition ARGUS_SECURITY_MIGRATION_COMPLETE : Z := 2.
Definition ARGUS_SECURITY_MIGRATION_FAILED : Z := 4.
Definition ARGUS_SECURITY_RECOVERY_INACTIVE : Z := 0.
Definition ARGUS_SECURITY_RECOVERY_REQUESTED : Z := 1.

(** ** The payload *)

Record argus_security_payload_t := SecurityPayload {
  sp_schema_version : Z;
  sp_flags : Z;
  sp_security_epoch : Z;
  sp_role_count : Z;
  sp_human_count : Z;
  sp_machine_count : Z;
  sp_console_verifier_provisioned : Z;
  sp_console_credential_version : Z;
  sp_migration_state : Z;
  sp_recovery_state : Z;
  sp_reserved : Z;
  sp_builtin_roles : list argus_security_role_record_t;
  sp_factory_ap : argus_security_ap_secret_record_t;
  sp_active_ap : argus_security_ap_secret_record_t;
  sp_console_verifier : argus_password_verifier_t
}.

#[export] Instance payload_eq_dec : EqDecision argus_security_payload_t.
Proof. solve_decision. Defined.
#[export] Instance eta_payload : Eta argus_security_payload_t := fun p =>
  SecurityPayload (sp_schema_version p) (sp_flags p) (sp_security_epoch p) (sp_role_count p) (sp_human_count p)
    (sp_machine_count p) (sp_console_verifier_provisioned p) (sp_console_credential_version p)
    (sp_migration_state p) (sp_recovery_state p) (sp_reserved p) (sp_builtin_roles p) (sp_factory_ap p)
    (sp_active_ap p) (sp_console_verifier p).

Definition zero_ap : argus_security_ap_secret_record_t := ApSecret 0 0 0 0 0 [].

Definition zero_payload : argus_security_payload_t :=
  SecurityPayload 0 0 0 0 0 0 0 0 0 0 0 (replicate 6 zero_role) zero_ap zero_ap zero_verifier.

Definition payload_bytes (p : argus_security_payload_t) : bytes :=
  le 2 (sp_schema_version p) ++ le 2 (sp_flags p) ++ le 4 (sp_security_epoch p) ++ le 1 (sp_role_count p)
  ++ le 1 (sp_human_count p) ++ le 1 (sp_machine_count p) ++ le 1 (sp_console_verifier_provisioned p)
  ++ le 4 (sp_console_credential_version p) ++ le 1 (sp_migration_state p) ++ le 1 (sp_recovery_state p)
  ++ le 2 (sp_reserved p) ++ mjoin (role_bytes <$> sp_builtin_roles p) ++ ap_bytes (sp_factory_ap p)
  ++ ap_bytes (sp_active_ap p) ++ verifier_bytes (sp_console_verifier p).

(** [sizeof(argus_security_payload_t)] *)
Definition SECURITY_PAYLOAD_SIZE : Z := 562.

Definition argus_security_payload_crc32 (payload : argus_security_payload_t) : Z :=
  crc32_bytes (payload_bytes payload).

Definition permissions_for_level (level : Z) : Z :=
  if level =? ARGUS_SECURITY_LEVEL_ARGUS_PERSONNEL then ARGUS_PERMISSION_DEFINED_MASK
  else if level =? ARGUS_SECURITY_LEVEL_CLIENT_ADMIN then
    Z.lor (Z.lor (Z.lor (Z.lor (Z.lor OPERATIONAL ARGUS_PERMISSION_MANAGE_USERS)
      ARGUS_PERMISSION_MANAGE_ROLES) ARGUS_PERMISSION_ENROLL_MACHINES)
      ARGUS_PERMISSION_REVOKE_MACHINES) ARGUS_PERMISSION_VIEW_AUDIT
  else if (level =? ARGUS_SECURITY_LEVEL_SUPERVISOR) || (level =? ARGUS_SECURITY_LEVEL_OPERATOR)
  then OPERATIONAL
  else if level =? ARGUS_SECURITY_LEVEL_VIEWER then ARGUS_PERMISSION_VIEW_STATUS
  else 0.

Definition role_identifiers : list bytes :=
  [str "argus_personnel"; str "client_admin"; str "supervisor"; str "operator"; str "viewer";
   str "machine_identity"].

Definition default_role (i : nat) (identifier : bytes) : argus_security_role_record_t :=
  let permissions := permissions_for_level (Z.of_nat i) in
  RoleRecord ARGUS_SECURITY_RECORD_VERSION (Z.of_nat i) 1
    (if Z.of_nat i =? ARGUS_SECURITY_LEVEL_ARGUS_PERSONNEL then 1 else 0) (strlcpy identifier 37) permissions
    (Z.land permissions
      (Z.lnot (Z.lor (Z.lor (Z.lor (Z.lor (Z.lor (Z.lor ARGUS_PERMISSION_MANAGE_CLIENT_ADMINS
         ARGUS_PERMISSION_MODIFY_IDENTITY) ARGUS_PERMISSION_MODIFY_PROTECTED_CONFIG)
         ARGUS_PERMISSION_COMMISSION) ARGUS_PERMISSION_CALIBRATE)
         ARGUS_PERMISSION_MANAGE_FIRMWARE) ARGUS_PERMISSION_FULL_SECURITY_RESET))).

Definition argus_security_store_default_payload : argus_security_payload_t :=
  let ap := ApSecret ARGUS_SECURITY_RECORD_VERSION 0 0 0 0 [] in
  SecurityPayload ARGUS_SECURITY_SCHEMA_VERSION 0 1 ARGUS_SECURITY_BUILTIN_ROLE_COUNT 0 0 0 0
    ARGUS_SECURITY_MIGRATION_NOT_STARTED ARGUS_SECURITY_RECOVERY_INACTIVE 0
    (imap default_role role_identifiers) ap ap zero_verifier.

Definition builtin_role_valid (payload : argus_security_payload_t) (i : nat) : bool :=
  let role := default zero_role (sp_builtin_roles payload !! i) in
  argus_security_role_record_valid role && (ro_level role =? Z.of_nat i) && (ro_builtin role =? 1).

Definition argus_security_payload_valid (p : argus_security_payload_t) : bool :=
  if negb (sp_schema_version p =? ARGUS_SECURITY_SCHEMA_VERSION)
     || negb (sp_flags p =? 0) || (sp_security_epoch p =? 0)
     || (sp_role_count p <? ARGUS_SECURITY_BUILTIN_ROLE_COUNT)
     || (ARGUS_SECURITY_MAX_ROLES <? sp_role_count p)
     || (ARGUS_SECURITY_MAX_HUMANS <? sp_human_count p)
     || (ARGUS_SECURITY_MAX_MACHINES <? sp_machine_count p)
     || (1 <? sp_console_verifier_provisioned p)
     || (ARGUS_SECURITY_MIGRATION_FAILED <? sp_migration_state p)
     || (ARGUS_SECURITY_RECOVERY_REQUESTED <? sp_recovery_state p)
     || negb (sp_reserved p =? 0) || negb (ap_secret_valid (sp_factory_ap p))
     || negb (ap_secret_valid (sp_active_ap p)) then false
  else if negb (forallb (builtin_role_valid p) (seq 0 6)) then false
  else if negb (sp_console_verifier_provisioned p =? 0) then
    negb (sp_console_credential_version p =? 0)
    && argus_password_verifier_record_valid (sp_console_verifier p)
  else sp_console_credential_version p =? 0.

#[export] Instance security_slot_format : SlotFormat argus_security_payload_t := {|
  sf_magic := ARGUS_SECURITY_SLOT_MAGIC;
  sf_schema := ARGUS_SECURITY_SCHEMA_VERSION;
  sf_length := SECURITY_PAYLOAD_SIZE;
  sf_marker := ARGUS_SECURITY_VALID_MARKER;
  sf_crc32 := argus_security_payload_crc32;
  sf_payload_valid := argus_security_payload_valid
|}.

Abbreviation security_slot := (slot_record argus_security_payload_t).

Definition slot_current_valid (slot : security_slot) : bool := slot_valid slot.

Definition slot_unsupported (slot : security_slot) : bool :=
  (sl_magic slot =? ARGUS_SECURITY_SLOT_MAGIC)
  && negb (sl_schema_version slot =? ARGUS_SECURITY_SCHEMA_VERSION).

(** ** The core *)

Inductive argus_security_store_state_t :=
| ARGUS_SECURITY_STORE_MISSING
| ARGUS_SECURITY_STORE_UNPROVISIONED
| ARGUS_SECURITY_STORE_READY
| ARGUS_SECURITY_STORE_CORRUPT
| ARGUS_SECURITY_STORE_UNSUPPORTED_VERSION
| ARGUS_SECURITY_STORE_UNAVAILABLE.

Record argus_security_store_core_t := StoreCore {
  co_active : argus_security_payload_t;
  co_generation : Z;
  co_active_slot : Z;
  co_state : argus_security_store_state_t;
  co_redundancy_degraded : bool
}.

(** The core with nothing loaded. *)
Definition empty_core (active : argus_security_payload_t) (state : argus_security_store_state_t)
    : argus_security_store_core_t := StoreCore active 0 0 state false.

Definition provisioning_state (p : argus_security_payload_t) : argus_security_store_state_t :=
  if negb (ap_provisioned (sp_factory_ap p) =? 0) && negb (ap_provisioned (sp_active_ap p) =? 0)
  then ARGUS_SECURITY_STORE_READY else ARGUS_SECURITY_STORE_UNPROVISIONED.

(** A predicate of a slot that was read. *)
Definition read_and (p : security_slot -> bool) (r : esp_err_t + security_slot) : bool :=
  match r with inr s => p s | inl _ => false end.

Definition argus_security_store_core_init : prog (slot_op security_slot) argus_security_store_core_t :=
  a ← call (ReadSlot 0);
  b ← call (ReadSlot 1);
  let a_missing := missing (status a) in
  let b_missing := missing (status b) in
  if (negb a_missing && negb (is_ok (status a))) || (negb b_missing && negb (is_ok (status b))) then
    mret (empty_core zero_payload ARGUS_SECURITY_STORE_UNAVAILABLE)
  else
    let a_valid := read_and slot_current_valid a in
    let b_valid := read_and slot_current_valid b in
    if negb a_valid && negb b_valid then
      mret (empty_core argus_security_store_default_payload
        (if a_missing && b_missing then ARGUS_SECURITY_STORE_MISSING
         else if read_and slot_unsupported a || read_and slot_unsupported b
         then ARGUS_SECURITY_STORE_UNSUPPORTED_VERSION else ARGUS_SECURITY_STORE_CORRUPT))
    else
      selector ← call ReadSelector;
      match selector with
      | inl e =>
          mret (empty_core zero_payload
            (if missing e then ARGUS_SECURITY_STORE_CORRUPT else ARGUS_SECURITY_STORE_UNAVAILABLE))
      | inr selector =>
          if 1 <? selector then mret (empty_core zero_payload ARGUS_SECURITY_STORE_CORRUPT)
          else
            let selected_valid := ((selector =? 0) && a_valid) || ((selector =? 1) && b_valid) in
            let fallback := other_slot selector in
            if negb selected_valid && negb (if fallback =? 0 then a_valid else b_valid) then
              mret (empty_core zero_payload ARGUS_SECURITY_STORE_CORRUPT)
            else
              let chosen := if selected_valid then selector else fallback in
              match if chosen =? 0 then a else b with
              | inr selected =>
                  mret (StoreCore (sl_payload selected) (sl_generation selected) chosen
                          (provisioning_state (sl_payload selected)) (negb (a_valid && b_valid)))
              | inl _ => mret (empty_core zero_payload ARGUS_SECURITY_STORE_CORRUPT)
              end
      end.

Definition failed_closed (state : argus_security_store_state_t) : bool :=
  match state with
  | ARGUS_SECURITY_STORE_CORRUPT | ARGUS_SECURITY_STORE_UNSUPPORTED_VERSION
  | ARGUS_SECURITY_STORE_UNAVAILABLE => true
  | _ => false
  end.

Definition argus_security_store_core_commit (core : argus_security_store_core_t)
    (payload : argus_security_payload_t)
    : prog (slot_op security_slot) (esp_err_t * argus_security_store_core_t) :=
  if negb (argus_security_payload_valid payload) || failed_closed (co_state core) then
    mret (ESP_ERR_INVALID_STATE, core)
  else
    let target := target_slot (co_generation core) (co_active_slot core) in
    let generation := next_generation (co_generation core) in
    err ← commit_slot target (fresh_slot generation payload);
    mret (err, if is_ok err
               then StoreCore payload generation target (provisioning_state payload) (generation <? 2)
               else core).

(** What [argus_security_store_init] does with the core once the partition is open:
    [None] when it fails. *)
Definition argus_security_store_init
    : prog (slot_op security_slot) (esp_err_t * option argus_security_store_core_t) :=
  core ← argus_security_store_core_init;
  if failed_closed (co_state core) then mret (ESP_ERR_INVALID_STATE, None)
  else match co_state core with
       | ARGUS_SECURITY_STORE_MISSING =>
           r ← argus_security_store_core_commit core argus_security_store_default_payload;
           mret (r.1, if is_ok r.1 then Some r.2 else None)
       | _ => mret (ESP_OK, Some core)
       end.

(** ** The writer task and its clients *)

Record store_service := StoreService {
  sv_writer : argus_security_store_core_t;
  sv_snapshot : argus_security_store_core_t
}.

(** One request of the queue: the commit and the publication of the snapshot. *)
Definition writer_task (s : store_service) (payload : argus_security_payload_t) (expected_generation : Z)
    : prog (slot_op security_slot) (esp_err_t * store_service) :=
  if negb (expected_generation =? co_generation (sv_writer s)) then mret (ESP_ERR_INVALID_STATE, s)
  else
    r ← argus_security_store_core_commit (sv_writer s) payload;
    mret (r.1, if is_ok r.1 then StoreService r.2 r.2 else StoreService r.2 (sv_snapshot s)).

(** What an update does with the snapshot it took: an answer at once, or a payload for
    the writer with the generation of the snapshot. *)
Inductive submission :=
| Answer (e : esp_err_t)
| Submit (payload : argus_security_payload_t) (expected_generation : Z).

Definition secret_length_ok (secret : bytes) : bool :=
  (ARGUS_SECURITY_AP_SECRET_MIN <=? Z.of_nat (length secret))
  && (Z.of_nat (length secret) <=? ARGUS_SECURITY_AP_SECRET_MAX).

(** [memcpy(value, secret, len); value[len] = 0] *)
Definition copy_secret (value secret : bytes) : bytes := secret ++ 0 :: drop (S (length secret)) value.

Definition first_secret (a : argus_security_ap_secret_record_t) (secret : bytes)
    : argus_security_ap_secret_record_t :=
  ApSecret ARGUS_SECURITY_RECORD_VERSION 1 (u8 (Z.of_nat (length secret))) (ap_reserved a) 1
    (copy_secret (ap_value a) secret).

Definition bump_epoch (p : argus_security_payload_t) : argus_security_payload_t :=
  p <| sp_security_epoch ::= fun e => u32 (e + 1) |>.

Definition argus_security_store_bootstrap_ap_secrets (snapshot : argus_security_store_core_t) (secret : bytes)
    : submission :=
  if negb (secret_length_ok secret) then Answer ESP_ERR_INVALID_ARG
  else
    let p := co_active snapshot in
    if negb (ap_provisioned (sp_factory_ap p) =? 0) || negb (ap_provisioned (sp_active_ap p) =? 0)
    then Answer ESP_ERR_NOT_SUPPORTED
    else Submit (bump_epoch (p <| sp_factory_ap ::= fun a => first_secret a secret |>
                               <| sp_active_ap ::= fun a => first_secret a secret |>))
           (co_generation snapshot).

Definition argus_security_store_provision_initial (snapshot : argus_security_store_core_t)
    (factory_ap active_ap : bytes) (console_verifier : argus_password_verifier_t) : submission :=
  if negb (secret_length_ok factory_ap) || negb (secret_length_ok active_ap)
     || negb (argus_password_verifier_record_valid console_verifier) then Answer ESP_ERR_INVALID_ARG
  else
    let p := co_active snapshot in
    if negb (ap_provisioned (sp_factory_ap p) =? 0) || negb (ap_provisioned (sp_active_ap p) =? 0)
       || negb (sp_console_verifier_provisioned p =? 0) then Answer ESP_ERR_NOT_SUPPORTED
    else Submit (bump_epoch (p <| sp_factory_ap ::= fun a => first_secret a factory_ap |>
                               <| sp_active_ap ::= fun a => first_secret a active_ap |>
                               <| sp_console_verifier := console_verifier |>
                               <| sp_console_verifier_provisioned := 1 |>
                               <| sp_console_credential_version := 1 |>
                               <| sp_migration_state := ARGUS_SECURITY_MIGRATION_COMPLETE |>))
           (co_generation snapshot).

(** [inl] is the error; the buffer has [out_size] bytes. *)
Definition get_ap_secret (snapshot : argus_security_store_core_t) (factory : bool) (out_size : Z)
    : esp_err_t + bytes :=
  let r := if factory then sp_factory_ap (co_active snapshot) else sp_active_ap (co_active snapshot) in
  if ap_provisioned r =? 0 then inl ESP_ERR_NOT_FOUND
  else if out_size <=? ap_length r then inl ESP_ERR_INVALID_SIZE
  else inr (ap_byte r <$> seq 0 (Z.to_nat (ap_length r))).

(** The comparison without early exit. *)
Definition secret_mismatch (a : argus_security_ap_secret_record_t) (current : bytes) : Z :=
  foldl (fun m i => Z.lor m (Z.lxor (if Z.of_nat i <? ap_length a then ap_byte a i else 0)
                                     (default 0 (current !! i))))
    (u8 (Z.lxor (ap_length a) (Z.of_nat (length current))))
    (seq 0 (Nat.max (Z.to_nat (ap_length a)) (length current))).

Definition argus_security_store_replace_active_ap_secret (snapshot : argus_security_store_core_t)
    (current replacement : bytes) : submission :=
  if negb (secret_length_ok current) || (length replacement <? 12)%nat
     || (ARGUS_SECURITY_AP_SECRET_MAX <? Z.of_nat (length replacement))
     || (default 0 (head replacement) =? 32) || (default 0 (last replacement) =? 32) then
    Answer ESP_ERR_INVALID_ARG
  else if negb (forallb isprint replacement) then Answer ESP_ERR_INVALID_ARG
  else
    let p := co_active snapshot in
    let active := sp_active_ap p in
    if (ap_provisioned active =? 0) || negb (secret_mismatch active current =? 0)
    then Answer ESP_ERR_INVALID_STATE
    else Submit (p <| sp_active_ap := active <| ap_value := replacement |>
                                             <| ap_length := u8 (Z.of_nat (length replacement)) |>
                                             <| ap_credential_version ::= nonzero_succ |> |>
                   <| sp_security_epoch ::= nonzero_succ |>)
           (co_generation snapshot).

Definition argus_security_store_set_console_verifier (snapshot : argus_security_store_core_t)
    (record : argus_password_verifier_t) (allow_replace : bool) : submission :=
  if negb (argus_password_verifier_record_valid record) then Answer ESP_ERR_INVALID_ARG
  else
    let p := co_active snapshot in
    if negb (sp_console_verifier_provisioned p =? 0) && negb allow_replace then Answer ESP_ERR_NOT_SUPPORTED
    else Submit (bump_epoch (p <| sp_console_verifier := record |>
                               <| sp_console_verifier_provisioned := 1 |>
                               <| sp_console_credential_version ::= nonzero_succ |>))
           (co_generation snapshot).

(** [inl] is the error. *)
Definition argus_security_store_get_console_verifier (snapshot : argus_security_store_core_t)
    : esp_err_t + argus_password_verifier_t * Z :=
  let p := co_active snapshot in
  if sp_console_verifier_provisioned p =? 0 then inl ESP_ERR_NOT_FOUND
  else inr (sp_console_verifier p, sp_console_credential_version p).

Definition update_state (snapshot : argus_security_store_core_t) (migration recovery : Z)
    (change_migration change_recovery : bool) : submission :=
  let p := co_active snapshot in
  if (negb change_migration || (sp_migration_state p =? migration))
     && (negb change_recovery || (sp_recovery_state p =? recovery)) then Answer ESP_OK
  else
    let p := if change_migration then p <| sp_migration_state := migration |> else p in
    let p := if change_recovery then p <| sp_recovery_state := recovery |> else p in
    Submit (bump_epoch p) (co_generation snapshot).

Definition argus_security_store_set_migration_state (snapshot : argus_security_store_core_t) (state : Z)
    : submission :=
  if ARGUS_SECURITY_MIGRATION_FAILED <? state then Answer ESP_ERR_INVALID_ARG
  else update_state snapshot (u8 state) 0 true false.

Definition argus_security_store_set_recovery_state (snapshot : argus_security_store_core_t) (state : Z)
    : submission :=
  if ARGUS_SECURITY_RECOVERY_REQUESTED <? state then Answer ESP_ERR_INVALID_ARG
  else update_state snapshot 0 (u8 state) false true.

Definition argus_security_store_get_recovery_state (snapshot : argus_security_store_core_t) : Z :=
  sp_recovery_state (co_active snapshot).

(** ** The store refines the register *)

(** A boot without read faults. *)
Definition store_boot (f : flash security_slot) : option (argus_security_store_core_t * flash security_slot) :=
  let '(core, f') := run argus_security_store_core_init f in
  match co_state core with
  | ARGUS_SECURITY_STORE_READY | ARGUS_SECURITY_STORE_UNPROVISIONED => Some (core, f')
  | _ => None
  end.

Lemma provisioning_state_cases p :
  provisioning_state p = ARGUS_SECURITY_STORE_READY \/ provisioning_state p = ARGUS_SECURITY_STORE_UNPROVISIONED.
Proof. unfold provisioning_state. destruct (_ && _); auto. Qed.

(** What a boot makes of a selected slot, or of the other one. *)
Lemma store_boot_selected f i s : i = 0 \/ i = 1 -> slot_at f i = Some s -> slot_valid s = true ->
  fl_selector f = Some i \/
  (fl_selector f = Some (other_slot i) /\ forall s', slot_at f (other_slot i) = Some s' -> slot_valid s' = false) ->
  exists degraded, store_boot f = Some (StoreCore (sl_payload s) (sl_generation s) i
                                    (provisioning_state (sl_payload s)) degraded, f).
Proof.
  intros Hi Hs Hv Hsel. destruct f as [a b sel].
  assert (Hend : forall d, match provisioning_state (sl_payload s) with
      | ARGUS_SECURITY_STORE_READY | ARGUS_SECURITY_STORE_UNPROVISIONED =>
          Some (StoreCore (sl_payload s) (sl_generation s) i (provisioning_state (sl_payload s)) d, Flash a b sel)
      | _ => None end = Some (StoreCore (sl_payload s) (sl_generation s) i (provisioning_state (sl_payload s)) d, Flash a b sel))
    by (intros d; by destruct (provisioning_state_cases (sl_payload s)) as [->| ->]).
  unfold store_boot, argus_security_store_core_init, slot_current_valid in *.
  assert (E0 : other_slot 0 = 1) by done. assert (E1 : other_slot 1 = 0) by done.
  destruct Hi as [->| ->]; cbn [slot_at fl_a fl_b Z.eqb] in Hs; subst.
  - destruct b as [sb|]; [destruct (slot_valid sb) eqn:Hvb|];
      (destruct Hsel as [Hsel|[Hsel Hbad]]; [|rewrite E0 in Hsel, Hbad]); cbn in Hsel; subst sel;
      cbn -[slot_valid provisioning_state slot_unsupported other_slot];
      rewrite ?Hv, ?Hvb, ?E0, ?E1; cbn -[slot_valid provisioning_state slot_unsupported other_slot];
      rewrite ?E0, ?E1; cbn -[slot_valid provisioning_state slot_unsupported]; rewrite ?Hend; eauto;
      specialize (Hbad sb eq_refl); congruence.
  - destruct a as [sa|]; [destruct (slot_valid sa) eqn:Hva|];
      (destruct Hsel as [Hsel|[Hsel Hbad]]; [|rewrite E1 in Hsel, Hbad]); cbn in Hsel; subst sel;
      cbn -[slot_valid provisioning_state slot_unsupported other_slot];
      rewrite ?Hv, ?Hva, ?E0, ?E1; cbn -[slot_valid provisioning_state slot_unsupported other_slot];
      rewrite ?E0, ?E1; cbn -[slot_valid provisioning_state slot_unsupported]; rewrite ?Hend; eauto;
      specialize (Hbad sa eq_refl); congruence.
Qed.

#[export] Instance security_store : DualSlotStore argus_security_payload_t argus_security_store_core_t.
Proof.
  refine {| ds_value := co_active; ds_slot := co_active_slot; ds_generation := co_generation;
            ds_commit := argus_security_store_core_commit; ds_boot := store_boot |}.
  - intros c p Hg. unfold argus_security_store_core_commit, target_slot.
    destruct (argus_security_payload_valid p) eqn:Hv; cbn [negb orb]; [|by left; exists ESP_ERR_INVALID_STATE].
    destruct (failed_closed (co_state c)); [by left; exists ESP_ERR_INVALID_STATE|]. right.
    apply Z.eqb_neq in Hg. rewrite Hg. exists (next_generation (co_generation c)). eexists.
    split; [apply next_generation_pos|]. split; [done|]. split; [|split; [|split; [|reflexivity]]]; done.
  - intros f i s Hi Hs Hv Hsel. destruct (store_boot_selected f i s Hi Hs Hv Hsel) as [d Hb].
    eexists _, _. split; [exact Hb|]. cbn. auto 10.
Defined.

(** Case analysis on the test a program makes next. *)
Ltac wpc_if := match goal with |- wpc (if ?c then _ else _) _ _ _ => destruct c end.

(** With read faults the core fails closed or is the one of a boot without them. *)
Lemma core_init_faulty f i s : i = 0 \/ i = 1 -> slot_at f i = Some s -> slot_valid s = true ->
  wpc argus_security_store_core_init
    (fun core f' => f' = f /\ (failed_closed (co_state core) = true \/ run argus_security_store_core_init f = (core, f)))
    (fun f' => f' = f) f.
Proof.
  intros Hi Hs Hv. unfold argus_security_store_core_init at 1. prog_simpl.
  apply wpc_read_slot; [done|]. intros a Ha. prog_simpl. apply wpc_read_slot; [done|]. intros b Hb. prog_simpl.
  assert (Ea : (exists e, a = inl e /\ is_ok e = false /\ missing e = false) \/
    (missing (status a) = missing (status (read_value (slot_at f 0))) /\
     is_ok (status a) = is_ok (status (read_value (slot_at f 0))) /\
     forall p, read_and p a = read_and p (read_value (slot_at f 0)))).
  { destruct a as [e|x]; cbn [read_outcome] in Ha; [destruct Ha as [He Hm]; apply is_ok_false in He|rewrite Ha; by right].
    destruct (missing e) eqn:Em; [|left; eauto]. rewrite (Hm eq_refl). right. cbn. by rewrite Em, He. }
  assert (Eb : (exists e, b = inl e /\ is_ok e = false /\ missing e = false) \/
    (missing (status b) = missing (status (read_value (slot_at f 1))) /\
     is_ok (status b) = is_ok (status (read_value (slot_at f 1))) /\
     forall p, read_and p b = read_and p (read_value (slot_at f 1)))).
  { destruct b as [e|x]; cbn [read_outcome] in Hb; [destruct Hb as [He Hm]; apply is_ok_false in He|rewrite Hb; by right].
    destruct (missing e) eqn:Em; [|left; eauto]. rewrite (Hm eq_refl). right. cbn. by rewrite Em, He. }
  destruct Ea as [(e & -> & He & Hm)|(Ea1 & Ea2 & Ea3)].
  { cbn [status]. rewrite He, Hm. cbn [negb andb orb]. by split; [|split; [|left]]. }
  destruct Eb as [(e & -> & He & Hm)|(Eb1 & Eb2 & Eb3)].
  { cbn [status]. rewrite He, Hm, orb_true_r. cbn [negb andb orb]. by split; [|split; [|left]]. }
  unfold argus_security_store_core_init.
  cbn [run call prog_mbind mbind prog_bind perform slot_storage slot_perform].
  set (ra := read_value (slot_at f 0)) in *. set (rb := read_value (slot_at f 1)) in *.
  rewrite Ea1, Ea2, Eb1, Eb2, !Ea3, !Eb3.
  wpc_if; [prog_simpl; by split; [|split; [|left]]|].
  wpc_if.
  { prog_simpl. split; [done|]. split; [done|]. by right. }
  apply wpc_read_selector; [done|]. intros r Hr. destruct r as [e|sel].
  { prog_simpl. split; [done|]. split; [done|]. left. cbn. by destruct (missing e). }
  cbn in Hr. cbn [run call prog_mbind mbind prog_bind perform slot_storage slot_perform]. rewrite Hr. cbn [read_value].
  wpc_if; [prog_simpl; by split; [|split; [|left]]|].
  wpc_if; [prog_simpl; by split; [|split; [|left]]|].
  assert (Esame : forall x : security_slot, a = inr x -> ra = inr x).
  { intros x ->. cbn [read_outcome] in Ha. unfold ra. by rewrite Ha. }
  assert (Esame' : forall x : security_slot, b = inr x -> rb = inr x).
  { intros x ->. cbn [read_outcome] in Hb. unfold rb. by rewrite Hb. }
  match goal with |- wpc (match (if ?c then _ else _) with _ => _ end) _ _ _ => destruct c end.
  - destruct a as [e|x]; [prog_simpl; by split; [|split; [|left]]|]. rewrite (Esame x eq_refl).
    prog_simpl. split; [done|]. split; [done|]. by right.
  - destruct b as [e|x]; [prog_simpl; by split; [|split; [|left]]|]. rewrite (Esame' x eq_refl).
    prog_simpl. split; [done|]. split; [done|]. by right.
Qed.

(** The initialisation of a flash that holds a register, whatever the read faults. *)
Lemma init_faulty (core : argus_security_store_core_t) f v att : represents (core, f) (v, att) ->
  wpc argus_security_store_init
    (fun r f' => f' = f /\
       (r = (ESP_ERR_INVALID_STATE, None) \/
        exists core', r = (ESP_OK, Some core') /\ store_boot f = Some (core', f)))
    (fun f' => f' = f) f.
Proof.
  intros Hr. destruct (represents_selected _ _ _ _ Hr) as (j & s & Hj & Hs & Hv & Hsel & _).
  destruct (store_boot_selected f j s Hj Hs Hv Hsel) as [d Hboot].
  unfold argus_security_store_init. apply wpc_bind.
  eapply wpc_mono; [| |exact (core_init_faulty f j s Hj Hs Hv)]; [|done].
  cbv beta. intros c f' [-> [Hc|Hrun]]; [rewrite Hc; by split; [|split; [|left]]|].
  revert Hboot. unfold store_boot. rewrite Hrun.
  destruct (co_state c); try done; intros [= E]; cbn [failed_closed];
    (split; [done|]; split; [done|]; right; exists c; split; [done|]; by rewrite E).
Qed.

(** C8: the store is a register that survives power cuts, whatever the read faults,
    failed and unfaithful writes and power cuts during its commits: after a commit that
    reports success every boot that succeeds finds that payload until the next commit; a
    commit that fails or is cut leaves the old payload, its own, or that of a commit that
    failed since the last success; a boot in which reads fail either refuses to start and
    leaves the flash as it is, or starts with exactly what a boot without faults finds;
    and once the first commit is done no interruption of a commit leaves a flash that a
    boot without faults refuses. *)
Theorem store_refines_register core f v att :
  represents (core, f) (v, att) ->
  (forall ev σ', store_step (core, f) ev σ' -> exists r', register_step (v, att) ev r' /\ represents σ' r') /\
  (forall payload f', power_cut (argus_security_store_core_commit core payload) f f' ->
     exists core' f'', store_boot f' = Some (core', f'') /\ co_active core' ∈ v :: payload :: att) /\
  (forall r f', returns argus_security_store_init f r f' ->
     f' = f /\ (r = (ESP_ERR_INVALID_STATE, None) \/
                exists core', r = (ESP_OK, Some core') /\ store_boot f = Some (core', f))) /\
  (forall f', power_cut argus_security_store_init f f' -> f' = f).
Proof.
  intros Hr. split; [intros ev σ' Hs; exact (dual_slot_simulates _ _ _ _ Hr Hs)|]. split.
  - intros payload f'. exact (dual_slot_cut core f v att payload f' Hr).
  - pose proof (init_faulty core f v att Hr) as Hw. split.
    + intros r f' H. exact (wpc_returns _ _ _ _ _ _ Hw H).
    + intros f' H. exact (wpc_power_cut _ _ _ _ _ Hw H).
Qed.

(** A device with defaults committed. *)
Definition demo_flash : flash security_slot := (run argus_security_store_init (Flash None None None)).2.
Definition demo_store : argus_security_store_core_t :=
  default (empty_core zero_payload ARGUS_SECURITY_STORE_MISSING)
    (run argus_security_store_init (Flash None None None)).1.2.

Lemma demo_represents : represents (demo_store, demo_flash) (argus_security_store_default_payload, []).
Proof.
  split; cbn [fst snd]; [by vm_compute|by vm_compute|by left| |by left; vm_compute].
  exists (fresh_slot 1 argus_security_store_default_payload). split; [by vm_compute|]. split; [by vm_compute|done].
Qed.

Lemma demo_commit_valid : argus_security_payload_valid argus_security_store_default_payload = true.
Proof. by vm_compute. Qed.

Lemma demo_commit_open : failed_closed (co_state demo_store) = false.
Proof. by vm_compute. Qed.

Lemma demo_commit_target : target_slot (co_generation demo_store) (co_active_slot demo_store) = 1.
Proof. by vm_compute. Qed.

Lemma store_refines_register_witness :
  exists core' f'', store_boot (set_slot demo_flash 1 (fresh_slot 2 zero_payload)) = Some (core', f'')
    /\ co_active core' ∈ [argus_security_store_default_payload; argus_security_store_default_payload].
Proof.
  destruct (store_refines_register demo_store demo_flash argus_security_store_default_payload [] demo_represents)
    as (_ & H & _).
  apply (H argus_security_store_default_payload).
  exists (argus_security_store_core_commit demo_store argus_security_store_default_payload, demo_flash).
  split; [apply rtc_refl|]. right. cbn [fst snd]. unfold argus_security_store_core_commit.
  rewrite demo_commit_valid, demo_commit_open, demo_commit_target. cbn [negb orb].
  right. right. exists (fresh_slot 2 zero_payload). split; [by vm_compute|reflexivity].
Defined.

(** ** The first boot *)

Definition blank : flash security_slot := Flash None None None.

(** What a power cut between the two writes of the very first commit leaves. *)
Definition half_initialised : flash security_slot :=
  Flash (Some (fresh_slot 1 argus_security_store_default_payload)) None None.

Lemma default_slot_valid : slot_current_valid (fresh_slot 1 argus_security_store_default_payload) = true.
Proof. by vm_compute. Qed.

Lemma half_initialised_closed :
  wpc argus_security_store_core_init (fun core f' => failed_closed (co_state core) = true /\ f' = half_initialised)
    (fun _ => True) half_initialised.
Proof.
  unfold argus_security_store_core_init. prog_simpl.
  apply wpc_read_slot; [done|]. intros a Ha. prog_simpl. apply wpc_read_slot; [done|]. intros b Hb. prog_simpl.
  change (slot_at half_initialised 0) with (Some (fresh_slot 1 argus_security_store_default_payload)) in Ha.
  change (slot_at half_initialised 1) with (@None security_slot) in Hb.
  destruct b as [eb|sb]; [|done]. destruct Hb as [Hb _]. apply is_ok_false in Hb.
  destruct a as [ea|sa].
  - destruct Ha as [Ha Hm]. apply is_ok_false in Ha. cbn [status]. rewrite Ha.
    destruct (missing ea); [by specialize (Hm eq_refl)|]. split; done.
  - injection Ha as <-. cbn [status read_and is_ok negb andb]. rewrite Hb.
    rewrite default_slot_valid, andb_false_r. cbn [negb andb orb]. destruct (negb (missing eb) && true); [split; done|].
    apply wpc_read_selector; [done|]. intros r Hr. change (fl_selector half_initialised) with (@None Z) in Hr.
    destruct r as [e|]; [|done]. prog_simpl. split; [done|]. split; [|done]. by destruct (missing e).
Qed.

(** The first boot is not safe: a power cut between the slot write and the selector
    write of the first commit leaves a flash on which no later initialisation succeeds or
    repairs anything, whatever faults do or do not occur. *)
Theorem first_boot_power_cut_is_fatal :
  power_cut argus_security_store_init blank half_initialised /\
  forall r f', returns argus_security_store_init half_initialised r f' ->
    r.1 = ESP_ERR_INVALID_STATE /\ f' = half_initialised.
Proof.
  split.
  - assert (E : half_initialised = (run_for 4 argus_security_store_init blank).2) by (by vm_compute).
    rewrite E. apply run_for_power_cut.
  - intros r f' Hr. revert r f' Hr.
    enough (Hw : wpc argus_security_store_init
      (fun r f' => r.1 = ESP_ERR_INVALID_STATE /\ f' = half_initialised) (fun _ => True) half_initialised)
      by (intros r f' Hr; exact (wpc_returns _ _ _ _ _ _ Hw Hr)).
    unfold argus_security_store_init. apply wpc_bind. eapply wpc_mono; [|done|exact half_initialised_closed].
    cbv beta. intros core f' [-> ->]. split; done.
Qed.

(** ** Concurrent updates *)

Lemma next_generation_ne g : is_u32 g -> next_generation g <> g.
Proof.
  intros Hg. unfold next_generation. pose proof (u32_succ_ne g Hg) as Hne.
  destruct (Z.eqb_spec (u32 (g + 1)) 0) as [E|]; [|done]. intros <-. by rewrite u32_small in E.
Qed.

(** A refused request changes nothing; an accepted one moves the generation on. *)
Lemma writer_task_wpc s payload expected f :
  wpc (writer_task s payload expected)
    (fun r f' =>
       if is_ok r.1 then
         expected = co_generation (sv_writer s) /\ argus_security_payload_valid payload = true /\
         co_generation (sv_writer r.2) = next_generation (co_generation (sv_writer s)) /\
         co_active (sv_writer r.2) = payload /\ sv_snapshot r.2 = sv_writer r.2
       else r.2 = s)
    (fun _ => True) f.
Proof.
  unfold writer_task. destruct (Z.eqb_spec expected (co_generation (sv_writer s))) as [->|]; prog_simpl; [|done].
  apply wpc_bind. unfold argus_security_store_core_commit.
  destruct (argus_security_payload_valid payload) eqn:Hv; cbn [negb orb]; [|destruct s; done].
  destruct (failed_closed _); [destruct s; done|]. apply wpc_bind.
  eapply wpc_mono; [| |apply commit_slot_wpc, fresh_slot_valid; [apply next_generation_pos|done]]; [|done].
  cbv beta. intros err f' _. split; [done|]. split; [done|]. cbn [fst snd].
  destruct (is_ok err) eqn:He; cbn [is_ok fst snd]; rewrite ?He; [done|by destruct s].
Qed.

(** No update is lost: of two requests prepared from the same snapshot the second is
    refused, whatever the first one changed, and it leaves flash, core and snapshot as
    they are. *)
Theorem no_lost_update s s1 s2 p1 p2 g f f1 f2 e :
  is_u32 g ->
  returns (writer_task s p1 g) f (ESP_OK, s1) f1 ->
  returns (writer_task s1 p2 g) f1 (e, s2) f2 ->
  e = ESP_ERR_INVALID_STATE /\ s2 = s1 /\ f2 = f1.
Proof.
  intros Hg H1 H2. pose proof (wpc_returns _ _ _ _ _ _ (writer_task_wpc s p1 g f) H1) as H. cbn [is_ok fst snd] in H.
  destruct H as (Heq & _ & Hgen & _). subst g.
  assert (Hw : wpc (writer_task s1 p2 (co_generation (sv_writer s)))
    (fun r f' => r = (ESP_ERR_INVALID_STATE, s1) /\ f' = f1) (fun _ => True) f1).
  { unfold writer_task. rewrite Hgen. apply next_generation_ne, not_eq_sym, Z.eqb_neq in Hg. rewrite Hg. done. }
  pose proof (wpc_returns _ _ _ _ _ _ Hw H2) as [[= -> ->] ->]. done.
Qed.

Definition demo_service : store_service := StoreService demo_store demo_store.

Lemma no_lost_update_witness :
  let first := run (writer_task demo_service argus_security_store_default_payload 1) demo_flash in
  let second := run (writer_task first.1.2 argus_security_store_default_payload 1) first.2 in
  second.1.1 = ESP_ERR_INVALID_STATE /\ second.1.2 = first.1.2 /\ second.2 = first.2.
Proof.
  intros first second.
  pose proof (run_returns (writer_task demo_service argus_security_store_default_payload 1) demo_flash) as H1.
  pose proof (run_returns (writer_task first.1.2 argus_security_store_default_payload 1) first.2) as H2.
  fold first in H1. fold second in H2. rewrite (surjective_pairing first.1) in H1.
  rewrite (surjective_pairing second.1) in H2.
  assert (E : first.1.1 = ESP_OK) by (by vm_compute). rewrite E in H1.
  refine (no_lost_update _ _ _ _ _ 1 _ _ _ _ _ H1 H2). unfold is_u32. lia.
Defined.

(** ** Rotation of the access-point secret *)

Lemma foldl_lor_zero (g : nat -> Z) l m :
  foldl (fun m i => Z.lor m (g i)) m l = 0 <-> m = 0 /\ Forall (fun i => g i = 0) l.
Proof.
  revert m. induction l as [|i l IH]; intros m; cbn [foldl].
  - split; [intros ->; by split|by intros [-> _]].
  - rewrite IH, Z.lor_eq_0_iff, Forall_cons. tauto.
Qed.

(** The comparison finds a difference exactly when there is one. *)
Lemma secret_mismatch_spec a current :
  0 <= ap_length a < 256 -> (length current < 256)%nat -> 
  secret_mismatch a current = 0 <-> current = ap_byte a <$> seq 0 (Z.to_nat (ap_length a)).
Proof.
  intros Ha Hc. unfold secret_mismatch. rewrite foldl_lor_zero, Forall_forall.
  assert (Hlen : u8 (Z.lxor (ap_length a) (Z.of_nat (length current))) = 0 <-> ap_length a = Z.of_nat (length current)).
  { rewrite <- (Z.lxor_eq_0_iff (ap_length a)). unfold u8. rewrite Z.mod_small; [done|].
    apply (lxor_bound 8); lia. }
  rewrite Hlen. split.
  - intros [El Hall]. rewrite El, Nat2Z.id in *. apply list_eq. intros i. rewrite list_lookup_fmap.
    destruct (decide (i < length current)%nat) as [Hi|Hi].
    + specialize (Hall i). rewrite lookup_seq_lt by done. cbn [fmap option_fmap option_map].
      rewrite elem_of_seq in Hall. specialize (Hall ltac:(lia)).
      apply (proj1 (Z.lxor_eq_0_iff _ _)) in Hall. destruct (lookup_lt_is_Some_2 current i Hi) as [c Hcur].
      rewrite Hcur in Hall |- *. cbn in Hall. rewrite (proj2 (Z.ltb_lt _ _)) in Hall by lia. f_equal. symmetry. exact Hall.
    + rewrite lookup_ge_None_2 by lia. by rewrite lookup_seq_ge by lia.
  - intros E. assert (El : length current = Z.to_nat (ap_length a)) by (by rewrite E, length_fmap, length_seq).
    split; [lia|]. intros i Hi. apply elem_of_seq in Hi. apply Z.lxor_eq_0_iff.
    rewrite (proj2 (Z.ltb_lt _ _)) by lia. rewrite E, list_lookup_fmap, lookup_seq_lt by lia. done.
Qed.

Lemma replacement_bytes a (replacement : bytes) : ap_value a = replacement ->
  ap_byte a <$> seq 0 (length replacement) = replacement.
Proof.
  intros Hv. apply list_eq. intros i. rewrite list_lookup_fmap.
  destruct (decide (i < length replacement)%nat) as [Hi|Hi].
  - rewrite lookup_seq_lt by done. cbn. unfold ap_byte. rewrite Hv.
    destruct (lookup_lt_is_Some_2 replacement i Hi) as [c ->]. done.
  - rewrite lookup_seq_ge by lia. by rewrite lookup_ge_None_2 by lia.
Qed.

(** Another active secret and epoch leave the payload valid. *)
Lemma payload_valid_active p a e : argus_security_payload_valid p = true -> ap_secret_valid a = true -> e <> 0 ->
  argus_security_payload_valid (p <| sp_active_ap := a |> <| sp_security_epoch := e |>) = true.
Proof.
  intros Hv Ha He. destruct p. unfold argus_security_payload_valid in *.
  change (forallb (builtin_role_valid _) (seq 0 6)) with (forallb (builtin_role_valid
    (SecurityPayload sp_schema_version0 sp_flags0 sp_security_epoch0 sp_role_count0 sp_human_count0
       sp_machine_count0 sp_console_verifier_provisioned0 sp_console_credential_version0 sp_migration_state0
       sp_recovery_state0 sp_reserved0 sp_builtin_roles0 sp_factory_ap0 sp_active_ap0 sp_console_verifier0))
    (seq 0 6)).
  cbn -[forallb seq ap_secret_valid Z.ltb Z.eqb] in Hv |- *.
  destruct (_ || _ : bool) eqn:Hhead in Hv; [done|].
  repeat match goal with H : (_ || _)%bool = false |- _ => apply orb_false_iff in H; destruct H end.
  rewrite Ha, (proj2 (Z.eqb_neq e 0) He).
  repeat match goal with H : ?x = false |- context [?x] => rewrite H end. exact Hv.
Qed.

Lemma payload_valid_secret p : argus_security_payload_valid p = true -> ap_secret_valid (sp_active_ap p) = true.
Proof.
  unfold argus_security_payload_valid. destruct (_ || _ : bool) eqn:H; [done|]. intros _. by b2p.
Qed.

(** A provisioned valid secret has 8 to 63 bytes. *)
Lemma secret_valid_length a : ap_secret_valid a = true -> ap_provisioned a <> 0 ->
  ARGUS_SECURITY_AP_SECRET_MIN <= ap_length a <= ARGUS_SECURITY_AP_SECRET_MAX.
Proof.
  unfold ap_secret_valid. destruct (_ || _ : bool); [done|]. intros Hv Hp. apply Z.eqb_neq in Hp.
  rewrite Hp in Hv. destruct (_ || _ : bool) eqn:H in Hv; [done|]. b2p. lia.
Qed.

Lemma replaced_secret_valid a replacement : ap_secret_valid a = true -> ap_provisioned a <> 0 ->
  (8 <= length replacement <= 63)%nat -> forallb isprint replacement = true ->
  ap_secret_valid (a <| ap_value := replacement |> <| ap_length := u8 (Z.of_nat (length replacement)) |>
                     <| ap_credential_version ::= nonzero_succ |>) = true.
Proof.
  intros Hv Hp Hlen Hprint. destruct a as [rv pr len rs cv v].
  unfold ap_secret_valid in *. cbn -[forallb seq u8 Z.ltb Z.eqb] in *.
  destruct (_ || _ : bool); [done|]. apply Z.eqb_neq in Hp. rewrite Hp in *. clear Hv.
  assert (Hu : u8 (Z.of_nat (length replacement)) = Z.of_nat (length replacement))
    by (unfold u8; rewrite Z.mod_small; lia).
  rewrite Hu, Nat2Z.id. unfold ARGUS_SECURITY_AP_SECRET_MIN, ARGUS_SECURITY_AP_SECRET_MAX.
  rewrite (proj2 (Z.ltb_ge _ _)), (proj2 (Z.ltb_ge _ _)), (proj2 (Z.eqb_neq _ 0) (nonzero_succ_pos cv)) by lia.
  cbn [orb negb]. unfold ap_byte at 1. cbn [ap_value]. rewrite lookup_ge_None_2 by lia. cbn [default Z.eqb negb].
  rewrite <- (replacement_bytes (ApSecret rv pr 0 rs 0 replacement) replacement eq_refl) in Hprint.
  rewrite forallb_forall in *. intros i Hi. apply Hprint, list_elem_of_In, list_elem_of_fmap.
  exists i. split; [done|]. by apply list_elem_of_In.
Qed.

(** Replacing the access-point secret: on a valid store the request is submitted only
    if the caller's current secret is the stored one and the replacement is well formed;
    then the submitted payload is valid again, its active secret reads back as the
    replacement, its version and the security epoch have moved, and the factory secret is
    untouched. *)
Theorem ap_secret_rotation snapshot current replacement payload g :
  argus_security_payload_valid (co_active snapshot) = true ->
  argus_security_store_replace_active_ap_secret snapshot current replacement = Submit payload g ->
  get_ap_secret snapshot false (Z.of_nat (length current) + 1) = inr current /\
  g = co_generation snapshot /\
  argus_security_payload_valid payload = true /\
  (forall s, co_active s = payload -> get_ap_secret s false 64 = inr replacement) /\
  sp_factory_ap payload = sp_factory_ap (co_active snapshot) /\
  ap_credential_version (sp_active_ap payload) <> 0 /\ sp_security_epoch payload <> 0.
Proof.
  intros Hvalid. unfold argus_security_store_replace_active_ap_secret.
  destruct (_ || _ : bool) eqn:Hargs; [done|].
  repeat match goal with H : (_ || _)%bool = false |- _ => apply orb_false_iff in H; destruct H end.
  destruct (forallb isprint replacement) eqn:Hprint; cbn [negb]; [|done].
  destruct (_ || _ : bool) eqn:Hmatch; [done|]. apply orb_false_iff in Hmatch as [Hprov Hmis]. b2p.
  intros [= <- <-].
  set (active := sp_active_ap (co_active snapshot)) in *.
  pose proof (payload_valid_secret _ Hvalid) as Hsv. fold active in Hsv.
  pose proof (secret_valid_length active Hsv Hprov) as Hlen.
  unfold ARGUS_SECURITY_AP_SECRET_MIN, ARGUS_SECURITY_AP_SECRET_MAX in *.
  assert (Hr : (12 <= length replacement <= 63)%nat) by (apply Nat.ltb_ge in H3; lia).
  assert (Hc : (length current < 256)%nat).
  { unfold secret_length_ok, ARGUS_SECURITY_AP_SECRET_MAX in H. b2p. lia. }
  apply secret_mismatch_spec in Hmis; [|lia|done].
  assert (Hcl : length current = Z.to_nat (ap_length active)) by (by rewrite Hmis, length_fmap, length_seq).
  split; [|split; [done|]; split; [|split; [|split; [done|split; apply nonzero_succ_pos]]]].
  - unfold get_ap_secret. fold active. apply Z.eqb_neq in Hprov. rewrite Hprov, (proj2 (Z.leb_gt _ _)) by lia.
    by rewrite <- Hmis.
  - apply payload_valid_active; [done| |apply nonzero_succ_pos]. apply replaced_secret_valid; [done|done|lia|done].
  - intros s Hs. unfold get_ap_secret. rewrite Hs. cbn -[seq u8 ap_byte]. apply Z.eqb_neq in Hprov. rewrite Hprov.
    assert (Hu : u8 (Z.of_nat (length replacement)) = Z.of_nat (length replacement))
      by (unfold u8; rewrite Z.mod_small; lia).
    rewrite Hu, (proj2 (Z.leb_gt _ _)), Nat2Z.id by lia. by rewrite replacement_bytes.
Qed.

Definition demo_provisioned : argus_security_store_core_t :=
  match argus_security_store_bootstrap_ap_secrets demo_store (str "argus-ap-01") with
  | Submit p _ => StoreCore p 2 1 ARGUS_SECURITY_STORE_READY false
  | Answer _ => demo_store
  end.

Lemma ap_secret_rotation_witness :
  exists payload g,
    argus_security_store_replace_active_ap_secret demo_provisioned (str "argus-ap-01") (str "new-passphrase")
      = Submit payload g /\ argus_security_payload_valid payload = true.
Proof.
  destruct (argus_security_store_replace_active_ap_secret demo_provisioned (str "argus-ap-01")
              (str "new-passphrase")) as [e|payload g] eqn:E; [by vm_compute in E|].
  exists payload, g. split; [done|].
  exact (proj1 (proj2 (proj2 (ap_secret_rotation demo_provisioned (str "argus-ap-01") (str "new-passphrase")
    payload g ltac:(by vm_compute) E)))).
Defined.
