(* ===== verification/MachineDirectory.v ===== *)
(** * The machine directory

    [src/main/argus_machine_directory.c]: the dual-slot directory of machine records, its
    slot selection with selector repair, the commit of the writer task, and the lookups.
    Heap allocations are taken to succeed. *)

From S2P Require Import Prelude Storage DualSlot Authorization SecurityRecords.

Definition ARGUS_MACHINE_DIRECTORY_SCHEMA_VERSION : Z := 1.
Definition ARGUS_MACHINE_DIRECTORY_MAGIC : Z := 1095912756.
Definition ARGUS_MACHINE_DIRECTORY_VALID : Z := 1296256084.

(** ** The payload *)

(** [machines] is the array of [ARGUS_SECURITY_MAX_MACHINES] records. *)
Record argus_machine_directory_payload_t := MachinePayload {
  mp_schema_version : Z;
  mp_machine_count : Z;
  mp_reserved : Z;
  mp_machines : list argus_security_machine_record_t
}.

#[export] Instance machine_payload_eq_dec : EqDecision argus_machine_directory_payload_t.
Proof. solve_decision. Defined.
#[export] Instance eta_machine_payload : Eta argus_machine_directory_payload_t := fun p =>
  MachinePayload (mp_schema_version p) (mp_machine_count p) (mp_reserved p) (mp_machines p).

Definition machine_at (p : argus_machine_directory_payload_t) (i : nat) : argus_security_machine_record_t :=
  default zero_machine (mp_machines p !! i).

(** [sizeof(argus_machine_directory_payload_t)] *)
Definition MACHINE_PAYLOAD_SIZE : Z := 6500.

Definition machine_payload_bytes (p : argus_machine_directory_payload_t) : bytes :=
  le 2 (mp_schema_version p) ++ le 1 (mp_machine_count p) ++ le 1 (mp_reserved p)
  ++ mjoin (machine_bytes <$> mp_machines p).

Definition argus_machine_directory_crc32 (p : argus_machine_directory_payload_t) : Z :=
  crc32_bytes (machine_payload_bytes p).

(** One turn of the loop of the check. *)
Definition machine_entry_valid (p : argus_machine_directory_payload_t) (i : nat) : bool :=
  if mp_machine_count p <=? Z.of_nat i then bool_decide (machine_at p i = zero_machine)
  else
    argus_security_machine_record_valid (machine_at p i)
    && forallb (fun j => negb (bool_decide (mr_identifier (machine_at p i) = mr_identifier (machine_at p j))))
         (seq 0 i).

Definition argus_machine_directory_payload_valid (p : argus_machine_directory_payload_t) : bool :=
  if negb (mp_schema_version p =? ARGUS_MACHINE_DIRECTORY_SCHEMA_VERSION)
     || (ARGUS_SECURITY_MAX_MACHINES <? mp_machine_count p) || negb (mp_reserved p =? 0) then false
  else forallb (machine_entry_valid p) (seq 0 (Z.to_nat ARGUS_SECURITY_MAX_MACHINES)).

#[export] Instance machine_slot_format : SlotFormat argus_machine_directory_payload_t := {|
  sf_magic := ARGUS_MACHINE_DIRECTORY_MAGIC;
  sf_schema := ARGUS_MACHINE_DIRECTORY_SCHEMA_VERSION;
  sf_length := MACHINE_PAYLOAD_SIZE;
  sf_marker := ARGUS_MACHINE_DIRECTORY_VALID;
  sf_crc32 := argus_machine_directory_crc32;
  sf_payload_valid := argus_machine_directory_payload_valid
|}.

Abbreviation machine_slot := (slot_record argus_machine_directory_payload_t).

Definition argus_machine_directory_slot_valid (slot : machine_slot) : bool := slot_valid slot.

Definition argus_machine_directory_commit_precondition (payload : argus_machine_directory_payload_t)
    (expected_generation current_generation : Z) (directory_ready : bool) : bool :=
  directory_ready && argus_machine_directory_payload_valid payload
  && (expected_generation =? current_generation).

(** ** Slot selection *)

Definition read_and (p : machine_slot -> bool) (r : esp_err_t + machine_slot) : bool :=
  match r with inr s => p s | inl _ => false end.

Definition slot_unsupported (s : machine_slot) : bool :=
  (sl_magic s =? ARGUS_MACHINE_DIRECTORY_MAGIC)
  && negb (sl_schema_version s =? ARGUS_MACHINE_DIRECTORY_SCHEMA_VERSION).

(** [inl] is the error; [inr] the chosen slot, its index and whether the selector needs
    repair. *)
Definition argus_machine_directory_select (a b : esp_err_t + machine_slot) (selector : esp_err_t + Z)
    : esp_err_t + machine_slot * Z * bool :=
  let a_missing := missing (status a) in
  let b_missing := missing (status b) in
  let a_valid := read_and argus_machine_directory_slot_valid a in
  let b_valid := read_and argus_machine_directory_slot_valid b in
  if a_missing && b_missing then inl ESP_ERR_NOT_FOUND
  else if (negb a_missing && negb (is_ok (status a))) || (negb b_missing && negb (is_ok (status b))) then
    inl ESP_ERR_INVALID_STATE
  else if negb a_valid && negb b_valid then
    inl (if read_and slot_unsupported a || read_and slot_unsupported b
         then ESP_ERR_NOT_SUPPORTED else ESP_ERR_INVALID_CRC)
  else
    let selector_usable :=
      match selector with
      | inr v => (v <=? 1) && (((v =? 0) && a_valid) || ((v =? 1) && b_valid))
      | inl _ => false
      end in
    let newest :=
      if a_valid && b_valid then
        match a, b with inr sa, inr sb => if sl_generation sa <? sl_generation sb then 1 else 0 | _, _ => 0 end
      else if a_valid then 0 else 1 in
    let chosen := match selector with inr v => if selector_usable then v else newest | inl _ => newest end in
    match if chosen =? 0 then a else b with
    | inr selected => inr (selected, chosen, negb selector_usable)
    | inl e => inl e
    end.

(** ** The directory *)

Inductive argus_machine_directory_state_t :=
| ARGUS_MACHINE_DIRECTORY_MISSING
| ARGUS_MACHINE_DIRECTORY_READY
| ARGUS_MACHINE_DIRECTORY_CORRUPT
| ARGUS_MACHINE_DIRECTORY_UNSUPPORTED
| ARGUS_MACHINE_DIRECTORY_UNAVAILABLE.

(** [s_snapshot], [s_state], [s_active_slot] and [s_redundancy_degraded]. *)
Record machine_directory := MachineDirectory {
  md_payload : argus_machine_directory_payload_t;
  md_generation : Z;
  md_state : argus_machine_directory_state_t;
  md_active_slot : Z;
  md_redundancy_degraded : bool
}.

Definition machine_ready (d : machine_directory) : bool :=
  match md_state d with ARGUS_MACHINE_DIRECTORY_READY => true | _ => false end.

Definition empty_payload (schema_version : Z) : argus_machine_directory_payload_t :=
  MachinePayload schema_version 0 0 (replicate (Z.to_nat ARGUS_SECURITY_MAX_MACHINES) zero_machine).

Definition commit_locked (d : machine_directory) (payload : argus_machine_directory_payload_t)
    (expected_generation : Z) : prog (slot_op machine_slot) (esp_err_t * machine_directory) :=
  if negb (argus_machine_directory_commit_precondition payload expected_generation (md_generation d)
             (machine_ready d)) then mret (ESP_ERR_INVALID_STATE, d)
  else
    let target := target_slot (md_generation d) (md_active_slot d) in
    let generation := next_generation (md_generation d) in
    err ← commit_slot target (fresh_slot generation payload);
    mret (err, if is_ok err then MachineDirectory payload generation (md_state d) target false else d).

(** The request of the writer task is one commit under the mutex; this is also what the
    caller of [argus_machine_directory_commit] gets back. *)
Definition argus_machine_directory_commit (d : machine_directory)
    (payload : argus_machine_directory_payload_t) (expected_generation : Z)
    : prog (slot_op machine_slot) (esp_err_t * machine_directory) :=
  if negb (machine_ready d) then mret (ESP_ERR_INVALID_STATE, d)
  else commit_locked d payload expected_generation.

Definition argus_machine_directory_init : prog (slot_op machine_slot) (esp_err_t * machine_directory) :=
  a ← call (ReadSlot 0);
  b ← call (ReadSlot 1);
  selector ← call ReadSelector;
  match argus_machine_directory_select a b selector with
  | inr (selected, active_slot, repair) =>
      let d := MachineDirectory (sl_payload selected) (sl_generation selected) ARGUS_MACHINE_DIRECTORY_READY
                 active_slot (negb (read_and argus_machine_directory_slot_valid a
                                    && read_and argus_machine_directory_slot_valid b)) in
      if repair then
        err ← call (WriteSelector active_slot);
        mret (err, d)
      else mret (ESP_OK, d)
  | inl ESP_ERR_NOT_FOUND =>
      let payload := empty_payload ARGUS_MACHINE_DIRECTORY_SCHEMA_VERSION in
      commit_locked (MachineDirectory payload 0 ARGUS_MACHINE_DIRECTORY_READY 0 false) payload 0
  | inl e =>
      mret (e, MachineDirectory (empty_payload 0) 0
                 (if bool_decide (e = ESP_ERR_NOT_SUPPORTED) then ARGUS_MACHINE_DIRECTORY_UNSUPPORTED
                  else ARGUS_MACHINE_DIRECTORY_CORRUPT) 0 false)
  end.

Definition argus_machine_directory_get_snapshot (d : machine_directory)
    : esp_err_t + argus_machine_directory_payload_t * Z :=
  if negb (machine_ready d) then inl ESP_ERR_INVALID_STATE else inr (md_payload d, md_generation d).

(** The record, its index and the generation of the directory. *)
Definition argus_machine_directory_find (d : machine_directory) (identifier : bytes)
    : esp_err_t + argus_security_machine_record_t * nat * Z :=
  if negb (machine_ready d) then inl ESP_ERR_INVALID_ARG
  else
    match find (fun i => bool_decide (identifier = mr_identifier (machine_at (md_payload d) i)))
            (seq 0 (Z.to_nat (mp_machine_count (md_payload d)))) with
    | Some i => inr (machine_at (md_payload d) i, i, md_generation d)
    | None => inl ESP_ERR_NOT_FOUND
    end.

(** ** The directory refines the register *)

(** A boot without faults. *)
Definition directory_boot (f : flash machine_slot) : option (machine_directory * flash machine_slot) :=
  let '(err, d, f') := run argus_machine_directory_init f in
  if is_ok err then Some (d, f') else None.

Lemma directory_boot_selected f i s : i = 0 \/ i = 1 -> slot_at f i = Some s -> slot_valid s = true ->
  fl_selector f = Some i \/
  (fl_selector f = Some (other_slot i) /\ forall s', slot_at f (other_slot i) = Some s' -> slot_valid s' = false) ->
  exists degraded sel, directory_boot f = Some (MachineDirectory (sl_payload s) (sl_generation s)
                                    ARGUS_MACHINE_DIRECTORY_READY i degraded, Flash (fl_a f) (fl_b f) sel)
    /\ (sel = fl_selector f \/ sel = Some i).
Proof.
  intros Hi Hs Hv Hsel. destruct f as [a b sel].
  unfold directory_boot, argus_machine_directory_init, argus_machine_directory_select, argus_machine_directory_slot_valid.
  assert (E0 : other_slot 0 = 1) by done. assert (E1 : other_slot 1 = 0) by done.
  destruct Hi as [->| ->]; cbn [slot_at fl_a fl_b Z.eqb] in Hs; subst.
  - destruct b as [sb|]; [destruct (slot_valid sb) eqn:Hvb|];
      (destruct Hsel as [Hsel|[Hsel Hbad]]; [|rewrite E0 in Hsel, Hbad]); cbn in Hsel; subst sel;
      cbn -[slot_valid slot_unsupported]; rewrite ?Hv, ?Hvb; cbn -[slot_valid slot_unsupported]; eauto 10;
      specialize (Hbad sb eq_refl); congruence.
  - destruct a as [sa|]; [destruct (slot_valid sa) eqn:Hva|];
      (destruct Hsel as [Hsel|[Hsel Hbad]]; [|rewrite E1 in Hsel, Hbad]); cbn in Hsel; subst sel;
      cbn -[slot_valid slot_unsupported]; rewrite ?Hv, ?Hva; cbn -[slot_valid slot_unsupported]; eauto 10;
      specialize (Hbad sa eq_refl); congruence.
Qed.

#[export] Instance machine_store : DualSlotStore argus_machine_directory_payload_t machine_directory.
Proof.
  refine {| ds_value := md_payload; ds_slot := md_active_slot; ds_generation := md_generation;
            ds_commit := fun d p => argus_machine_directory_commit d p (md_generation d); ds_boot := directory_boot |}.
  - intros d p Hg. unfold argus_machine_directory_commit, commit_locked, target_slot,
      argus_machine_directory_commit_precondition.
    destruct (machine_ready d); cbn [negb andb]; [|by left; exists ESP_ERR_INVALID_STATE].
    destruct (argus_machine_directory_payload_valid p) eqn:Hv; cbn [negb andb];
      [|by left; exists ESP_ERR_INVALID_STATE].
    rewrite Z.eqb_refl. right. apply Z.eqb_neq in Hg. rewrite Hg.
    exists (next_generation (md_generation d)). eexists.
    split; [apply next_generation_pos|]. split; [done|]. split; [|split; [|split; [|reflexivity]]]; done.
  - intros f i s Hi Hs Hv Hsel. destruct (directory_boot_selected f i s Hi Hs Hv Hsel) as (d & sel & Hb & Hsel').
    eexists _, _. split; [exact Hb|]. cbn. auto 10.
Defined.

(** The machine directory is a register that survives power cuts, as the security store
    is: a successful commit is what every directory_boot finds until the next one, a failed or cut
    commit leaves the old directory or its own, and no interruption of a commit leaves a
    flash that does not boot. *)
Theorem machine_directory_refines_register d f v att :
  represents (d, f) (v, att) ->
  (forall ev σ', store_step (d, f) ev σ' -> exists r', register_step (v, att) ev r' /\ represents σ' r') /\
  (forall payload f', power_cut (argus_machine_directory_commit d payload (md_generation d)) f f' ->
     exists d' f'', directory_boot f' = Some (d', f'') /\ md_payload d' ∈ v :: payload :: att).
Proof.
  intros Hr. split; [intros ev σ' Hs; exact (dual_slot_simulates _ _ _ _ Hr Hs)|].
  intros payload f'. exact (dual_slot_cut d f v att payload f' Hr).
Qed.

(** ** The first boot *)

Definition no_machines : argus_machine_directory_payload_t := empty_payload ARGUS_MACHINE_DIRECTORY_SCHEMA_VERSION.

Definition blank : flash machine_slot := Flash None None None.

Lemma no_machines_slot_valid : slot_valid (fresh_slot 1 no_machines) = true.
Proof. by vm_compute. Qed.

(** The executions of the first initialisation. *)
Lemma first_init_wpc :
  wpc argus_machine_directory_init
    (fun r f' => is_ok r.1 = true ->
       md_payload r.2 = no_machines /\ f' = Flash (Some (fresh_slot 1 no_machines)) None (Some 0))
    (fun f' => commit_leaves blank 0 (fresh_slot 1 no_machines) f') blank.
Proof.
  assert (Hb : commit_leaves blank 0 (fresh_slot 1 no_machines) blank) by (by left).
  unfold argus_machine_directory_init. prog_simpl.
  apply wpc_read_slot; [done|]. intros a Ha. prog_simpl. apply wpc_read_slot; [done|]. intros b Hb'. prog_simpl.
  apply wpc_read_selector; [done|]. intros sel _. prog_simpl.
  destruct a as [ea|]; [|done]. destruct b as [eb|]; [|done]. destruct Ha as [Ha _], Hb' as [Hb' _].
  apply is_ok_false in Ha, Hb'. unfold argus_machine_directory_select. cbn [status read_and].
  destruct (missing ea) eqn:Hma, (missing eb) eqn:Hmb; rewrite ?Ha, ?Hb'; cbn [andb negb orb];
    [|split; [done|intros H; by cbn in H]..].
  unfold commit_locked.
  replace (argus_machine_directory_commit_precondition _ _ _ _) with true by (by vm_compute). cbn [negb].
  apply wpc_bind. eapply wpc_mono; [|intros f' H; exact H|exact (commit_slot_wpc 0 _ blank no_machines_slot_valid)].
  cbv beta. intros err f' Hp. cbn [md_generation md_active_slot]. cbv zeta. split.
  - destruct (is_ok err); [by right; right|done].
  - cbn [fst snd]. intros He. rewrite He in *. cbn [md_payload]. by subst f'.
Qed.

(** The first boot of the machine directory is safe, unlike that of the security store:
    wherever the power is cut during it, the next boot starts with an empty directory,
    unless the cut tore the very first slot write into something invalid. *)
Theorem directory_first_boot_safe f' :
  power_cut argus_machine_directory_init blank f' ->
  (exists d f'', directory_boot f' = Some (d, f'') /\ md_payload d = no_machines /\ md_state d = ARGUS_MACHINE_DIRECTORY_READY)
  \/ (exists g, slot_valid g = false /\ f' = Flash (Some g) None None).
Proof.
  intros Hcut. pose proof (wpc_power_cut _ _ _ _ _ first_init_wpc Hcut) as [->|[[->|(g & Hg & ->)]| ->]].
  - left. eexists _, _. by vm_compute.
  - left. eexists _, _. by vm_compute.
  - right. exists g. done.
  - left. eexists _, _. by vm_compute.
Qed.

Lemma directory_first_boot_safe_witness :
  (exists d f'', directory_boot (run_for 5 argus_machine_directory_init blank).2 = Some (d, f'')
     /\ md_payload d = no_machines /\ md_state d = ARGUS_MACHINE_DIRECTORY_READY)
  \/ (exists g, slot_valid g = false /\ (run_for 5 argus_machine_directory_init blank).2 = Flash (Some g) None None).
Proof. exact (directory_first_boot_safe _ (run_for_power_cut 5 argus_machine_directory_init blank)). Defined.

(** ** Lookups *)

(** The records in use. *)
Definition enrolled (p : argus_machine_directory_payload_t) : list argus_security_machine_record_t :=
  machine_at p <$> seq 0 (Z.to_nat (mp_machine_count p)).

Lemma payload_entry_valid p i : argus_machine_directory_payload_valid p = true ->
  (i < Z.to_nat (mp_machine_count p))%nat ->
  argus_security_machine_record_valid (machine_at p i) = true /\
  forall j, (j < i)%nat -> mr_identifier (machine_at p i) <> mr_identifier (machine_at p j).
Proof.
  unfold argus_machine_directory_payload_valid. destruct (_ || _ : bool) eqn:H; [done|]. b2p.
  rewrite forallb_forall. intros Hall Hi. specialize (Hall i).
  unfold ARGUS_SECURITY_MAX_MACHINES in *. rewrite in_seq in Hall. specialize (Hall ltac:(lia)).
  unfold machine_entry_valid in Hall. rewrite (proj2 (Z.leb_gt _ _)) in Hall by lia. b2p.
  split; [done|]. intros j Hj. rewrite forallb_forall in H3. specialize (H3 j).
  rewrite in_seq in H3. specialize (H3 ltac:(lia)). by b2p.
Qed.

Lemma enrolled_identifiers_distinct p : argus_machine_directory_payload_valid p = true ->
  NoDup (mr_identifier <$> enrolled p).
Proof.
  intros Hv. apply NoDup_alt. intros i j x Hi Hj. unfold enrolled in *. rewrite !list_lookup_fmap in Hi, Hj.
  assert (Hb : forall k y, mr_identifier <$> (machine_at p <$> seq 0 (Z.to_nat (mp_machine_count p)) !! k) = Some y ->
    (k < Z.to_nat (mp_machine_count p))%nat /\ y = mr_identifier (machine_at p k)).
  { intros k y Hk. destruct (seq 0 (Z.to_nat (mp_machine_count p)) !! k) as [k'|] eqn:E; [|done].
    apply lookup_seq in E as [-> ?]. cbn in Hk. simplify_eq. done. }
  apply Hb in Hi as [Hi ->], Hj as [Hj Hij].
  destruct (Nat.lt_trichotomy i j) as [Hlt|[->|Hlt]]; [|done|]; exfalso.
  - by apply (proj2 (payload_entry_valid p j Hv Hj) i Hlt).
  - by apply (proj2 (payload_entry_valid p i Hv Hi) j Hlt).
Qed.

(** The lookup of a valid directory is that of a finite map from identifiers. *)
Definition directory_map (p : argus_machine_directory_payload_t) : gmap bytes argus_security_machine_record_t :=
  list_to_map ((fun r => (mr_identifier r, r)) <$> enrolled p).

Lemma directory_map_lookup p identifier r : argus_machine_directory_payload_valid p = true ->
  directory_map p !! identifier = Some r <-> exists i, enrolled p !! i = Some r /\ mr_identifier r = identifier.
Proof.
  intros Hv. unfold directory_map. rewrite <- elem_of_list_to_map.
  - rewrite list_elem_of_fmap. split.
    + intros (r' & [= -> ->] & Hin). apply list_elem_of_lookup in Hin as [i Hi]. eauto.
    + intros (i & Hi & <-). exists r. split; [done|]. by eapply list_elem_of_lookup_2.
  - rewrite <- list_fmap_compose. exact (enrolled_identifiers_distinct p Hv).
Qed.

Lemma enrolled_lookup p i r : enrolled p !! i = Some r <-> (i < Z.to_nat (mp_machine_count p))%nat /\ r = machine_at p i.
Proof.
  unfold enrolled. rewrite list_lookup_fmap. split.
  - destruct (seq _ _ !! i) as [k|] eqn:E; [|done]. apply lookup_seq in E as [-> ?]. cbn. intros [= <-]. done.
  - intros [Hi ->]. by rewrite lookup_seq_lt.
Qed.

Lemma find_spec d identifier : machine_ready d = true ->
  match argus_machine_directory_find d identifier with
  | inr (r, i, g) => enrolled (md_payload d) !! i = Some r /\ mr_identifier r = identifier /\ g = md_generation d
  | inl e => e = ESP_ERR_NOT_FOUND /\ forall i r, enrolled (md_payload d) !! i = Some r -> mr_identifier r <> identifier
  end.
Proof.
  intros Hr. unfold argus_machine_directory_find. rewrite Hr. cbn [negb].
  destruct (find _ _) as [i|] eqn:E.
  - apply find_some in E as [Hi He]. apply in_seq in Hi. b2p. rewrite enrolled_lookup. split; [split; [lia|done]|done].
  - split; [done|]. intros i r Hi Hid. apply enrolled_lookup in Hi as [Hi ->].
    pose proof (find_none _ _ E i) as Hn. rewrite in_seq in Hn. specialize (Hn ltac:(lia)). by b2p.
Qed.

(** The linear scan of the directory is a map lookup: on a valid directory it finds
    exactly the record the map from identifiers has, and reports that there is none
    exactly when the map has none. *)
Theorem find_is_map_lookup d identifier : machine_ready d = true ->
  argus_machine_directory_payload_valid (md_payload d) = true ->
  match argus_machine_directory_find d identifier with
  | inr (r, _, _) => Some r
  | inl _ => None
  end = directory_map (md_payload d) !! identifier
  /\ (directory_map (md_payload d) !! identifier = None ->
      argus_machine_directory_find d identifier = inl ESP_ERR_NOT_FOUND).
Proof.
  intros Hr Hv. pose proof (find_spec d identifier Hr) as H.
  destruct (argus_machine_directory_find d identifier) as [e|[[r i] g]].
  - destruct H as [-> H].
    assert (E : directory_map (md_payload d) !! identifier = None).
    { destruct (_ !! identifier) as [r|] eqn:E; [|done]. exfalso.
      apply directory_map_lookup in E as (i & Hi & Hid); [|done]. by eapply H. }
    by rewrite E.
  - destruct H as (Hi & Hid & ->). assert (E : directory_map (md_payload d) !! identifier = Some r)
      by (apply directory_map_lookup; eauto). rewrite E. done.
Qed.

Definition demo_machine (identifier : bytes) : argus_security_machine_record_t :=
  MachineRecord 1 1 ARGUS_MACHINE_CLIENT_HMI ARGUS_MACHINE_TRANSPORT_MQTT 0 ARGUS_MACHINE_INTERFACE_STA 0
    identifier (str "Panel") (str "bench") (str "pump") [] (str "admin") 7 1 1 1
    (PasswordVerifier 1 1 16 32 25000 [] []).

Definition demo_payload : argus_machine_directory_payload_t :=
  MachinePayload 1 2 0 ([demo_machine (str "m-01"); demo_machine (str "m-02")] ++ replicate 14 zero_machine).

Definition demo_directory : machine_directory :=
  MachineDirectory demo_payload 3 ARGUS_MACHINE_DIRECTORY_READY 0 false.

Lemma find_is_map_lookup_witness :
  directory_map demo_payload !! str "m-02" = Some (demo_machine (str "m-02")).
Proof.
  pose proof (proj1 (find_is_map_lookup demo_directory (str "m-02") ltac:(by vm_compute) ltac:(by vm_compute))) as H.
  change (md_payload demo_directory) with demo_payload in H. rewrite <- H. by vm_compute.
Defined.

Definition demo_flash : flash machine_slot :=
  Flash (Some (fresh_slot 3 demo_payload)) (Some (fresh_slot 2 no_machines)) (Some 0).

Lemma demo_directory_represents : represents (demo_directory, demo_flash) (demo_payload, []).
Proof.
  split; cbn [fst snd]; [done|done|by left| |by left].
  exists (fresh_slot 3 demo_payload). split; [done|]. split; [by vm_compute|done].
Qed.

Lemma machine_directory_refines_register_witness :
  let after := run (argus_machine_directory_commit demo_directory no_machines 3) demo_flash in
  after.1.1 = ESP_OK /\
  exists r', register_step (demo_payload, []) (Committed no_machines) r' /\ represents (after.1.2, after.2) r'.
Proof.
  intros after. assert (E : after.1.1 = ESP_OK) by (by vm_compute). split; [exact E|].
  pose proof (run_returns (argus_machine_directory_commit demo_directory no_machines 3) demo_flash) as H.
  fold after in H. rewrite (surjective_pairing after.1), E in H.
  destruct (machine_directory_refines_register demo_directory demo_flash demo_payload [] demo_directory_represents) as [Hs _].
  exact (Hs (Committed no_machines) (after.1.2, after.2) (step_committed _ _ _ _ _ H)).
Defined.
