(* ===== verification/SecurityDirectory.v ===== *)
(** * The directory of humans and custom roles

    [src/main/argus_security_directory.c]: the dual-slot directory, whose boot takes the
    selected slot or nothing, the commit of its writer task, and the lookups by login and
    by identifier.  Heap allocations are taken to succeed. *)

From S2P Require Import Prelude Storage DualSlot Authorization SecurityRecords.

Definition ARGUS_SECURITY_DIRECTORY_SCHEMA_VERSION : Z := 1.
Definition DIRECTORY_MAGIC : Z := 1095910451.
Definition DIRECTORY_VALID : Z := 1447119940.
Definition ARGUS_SECURITY_CUSTOM_ROLE_CAPACITY : Z := ARGUS_SECURITY_MAX_ROLES - ARGUS_SECURITY_BUILTIN_ROLE_COUNT.

(** ** The payload *)

Record argus_security_directory_payload_t := DirectoryPayload {
  dp_schema_version : Z;
  dp_flags : Z;
  dp_custom_role_count : Z;
  dp_human_count : Z;
  dp_reserved : Z;
  dp_custom_roles : list argus_security_role_record_t;
  dp_humans : list argus_security_human_record_t
}.

#[export] Instance directory_payload_eq_dec : EqDecision argus_security_directory_payload_t.
Proof. solve_decision. Defined.
#[export] Instance eta_directory_payload : Eta argus_security_directory_payload_t := fun p =>
  DirectoryPayload (dp_schema_version p) (dp_flags p) (dp_custom_role_count p) (dp_human_count p) (dp_reserved p)
    (dp_custom_roles p) (dp_humans p).

Definition role_at (p : argus_security_directory_payload_t) (i : nat) : argus_security_role_record_t :=
  default zero_role (dp_custom_roles p !! i).
Definition human_at (p : argus_security_directory_payload_t) (i : nat) : argus_security_human_record_t :=
  default zero_human (dp_humans p !! i).

(** [sizeof(argus_security_directory_payload_t)] *)
Definition DIRECTORY_PAYLOAD_SIZE : Z := 4386.

Definition directory_payload_bytes (p : argus_security_directory_payload_t) : bytes :=
  le 2 (dp_schema_version p) ++ le 2 (dp_flags p) ++ le 1 (dp_custom_role_count p) ++ le 1 (dp_human_count p)
  ++ le 2 (dp_reserved p) ++ mjoin (role_bytes <$> dp_custom_roles p) ++ mjoin (human_bytes <$> dp_humans p).

Definition argus_security_directory_crc32 (p : argus_security_directory_payload_t) : Z :=
  crc32_bytes (directory_payload_bytes p).

(** One turn of the loop over the roles. *)
Definition role_entry_valid (p : argus_security_directory_payload_t) (i : nat) : bool :=
  if Z.of_nat i <? dp_custom_role_count p then
    let role := role_at p i in
    argus_security_role_record_valid role && (ro_builtin role =? 0)
    && negb (ro_level role =? ARGUS_SECURITY_LEVEL_ARGUS_PERSONNEL)
    && (Z.land (ro_permissions role) ARGUS_PERMISSION_MANAGE_CLIENT_ADMINS =? 0)
    && forallb (fun j => negb (bool_decide (ro_identifier role = ro_identifier (role_at p j)))) (seq 0 i)
  else bool_decide (role_at p i = zero_role).

(** The roles a mask may name. *)
Definition allowed_roles (p : argus_security_directory_payload_t) : Z :=
  let role_count := ARGUS_SECURITY_BUILTIN_ROLE_COUNT + dp_custom_role_count p in
  if 16 <=? role_count then UINT16_MAX else u16 (Z.shiftl 1 role_count - 1).

(** One turn of the loop over the humans. *)
Definition human_entry_valid (p : argus_security_directory_payload_t) (i : nat) : bool :=
  if Z.of_nat i <? dp_human_count p then
    let human := human_at p i in
    argus_security_human_record_valid human
    && subset (hu_role_mask human) (allowed_roles p)
    && negb (Z.land (hu_role_mask human) (u16 (Z.shiftl 1 (hu_level human))) =? 0)
    && forallb (fun j => negb (bool_decide (hu_identifier human = hu_identifier (human_at p j)))
                         && negb (bool_decide (hu_login human = hu_login (human_at p j)))) (seq 0 i)
  else bool_decide (human_at p i = zero_human).

Definition argus_security_directory_payload_valid (p : argus_security_directory_payload_t) : bool :=
  if negb (dp_schema_version p =? ARGUS_SECURITY_DIRECTORY_SCHEMA_VERSION)
     || negb (dp_flags p =? 0) || negb (dp_reserved p =? 0)
     || (ARGUS_SECURITY_CUSTOM_ROLE_CAPACITY <? dp_custom_role_count p)
     || (ARGUS_SECURITY_MAX_HUMANS <? dp_human_count p) then false
  else
    forallb (role_entry_valid p) (seq 0 (Z.to_nat ARGUS_SECURITY_CUSTOM_ROLE_CAPACITY))
    && forallb (human_entry_valid p) (seq 0 (Z.to_nat ARGUS_SECURITY_MAX_HUMANS)).

#[export] Instance directory_slot_format : SlotFormat argus_security_directory_payload_t := {|
  sf_magic := DIRECTORY_MAGIC;
  sf_schema := ARGUS_SECURITY_DIRECTORY_SCHEMA_VERSION;
  sf_length := DIRECTORY_PAYLOAD_SIZE;
  sf_marker := DIRECTORY_VALID;
  sf_crc32 := argus_security_directory_crc32;
  sf_payload_valid := argus_security_directory_payload_valid
|}.

Abbreviation directory_slot := (slot_record argus_security_directory_payload_t).

(** ** The directory *)

(** [s_snapshot] and [s_active_slot]. *)
Record security_directory := SecurityDirectory {
  sd_payload : argus_security_directory_payload_t;
  sd_generation : Z;
  sd_active_slot : Z
}.

Definition commit_locked (d : security_directory) (payload : argus_security_directory_payload_t)
    (expected_generation : Z) : prog (slot_op directory_slot) (esp_err_t * security_directory) :=
  if negb (argus_security_directory_payload_valid payload)
     || negb (expected_generation =? sd_generation d) then mret (ESP_ERR_INVALID_STATE, d)
  else
    let target := target_slot (sd_generation d) (sd_active_slot d) in
    let generation := next_generation (sd_generation d) in
    err ← commit_slot target (fresh_slot generation payload);
    mret (err, if is_ok err then SecurityDirectory payload generation target else d).

Definition no_users : argus_security_directory_payload_t :=
  DirectoryPayload ARGUS_SECURITY_DIRECTORY_SCHEMA_VERSION 0 0 0 0
    (replicate (Z.to_nat ARGUS_SECURITY_CUSTOM_ROLE_CAPACITY) zero_role)
    (replicate (Z.to_nat ARGUS_SECURITY_MAX_HUMANS) zero_human).

Definition read_valid (r : esp_err_t + directory_slot) : bool :=
  match r with inr s => slot_valid s | inl _ => false end.

(** [None] when it fails before it has a directory. *)
Definition argus_security_directory_init
    : prog (slot_op directory_slot) (esp_err_t * option security_directory) :=
  a ← call (ReadSlot 0);
  b ← call (ReadSlot 1);
  let a_missing := missing (status a) in
  let b_missing := missing (status b) in
  let a_valid := read_valid a in
  let b_valid := read_valid b in
  if (negb a_missing && negb (is_ok (status a))) || (negb b_missing && negb (is_ok (status b))) then
    mret (ESP_ERR_INVALID_STATE, None)
  else if negb a_valid && negb b_valid && negb (a_missing && b_missing) then
    mret (ESP_ERR_INVALID_STATE, None)
  else if a_missing && b_missing then
    r ← commit_locked (SecurityDirectory no_users 0 0) no_users 0;
    mret (r.1, if is_ok r.1 then Some r.2 else None)
  else
    selector ← call ReadSelector;
    match selector with
    | inl _ => mret (ESP_ERR_INVALID_STATE, None)
    | inr selector =>
        if (1 <? selector) || ((selector =? 0) && negb a_valid) || ((selector =? 1) && negb b_valid) then
          mret (ESP_ERR_INVALID_STATE, None)
        else
          match if selector =? 0 then a else b with
          | inr selected =>
              mret (ESP_OK, Some (SecurityDirectory (sl_payload selected) (sl_generation selected) selector))
          | inl _ => mret (ESP_ERR_INVALID_STATE, None)
          end
    end.

(** The request of the writer task is one commit under the mutex. *)
Definition argus_security_directory_commit := commit_locked.

Definition argus_security_directory_get_snapshot (d : security_directory)
    : argus_security_directory_payload_t * Z := (sd_payload d, sd_generation d).

Definition argus_security_directory_find_login (d : security_directory) (canonical_login : bytes)
    : esp_err_t + argus_security_human_record_t :=
  match find (fun i => bool_decide (hu_login (human_at (sd_payload d) i) = canonical_login))
          (seq 0 (Z.to_nat (dp_human_count (sd_payload d)))) with
  | Some i => inr (human_at (sd_payload d) i)
  | None => inl ESP_ERR_NOT_FOUND
  end.

Definition argus_security_directory_find_id (d : security_directory) (identifier : bytes)
    : esp_err_t + argus_security_human_record_t * nat :=
  match find (fun i => bool_decide (hu_identifier (human_at (sd_payload d) i) = identifier))
          (seq 0 (Z.to_nat (dp_human_count (sd_payload d)))) with
  | Some i => inr (human_at (sd_payload d) i, i)
  | None => inl ESP_ERR_NOT_FOUND
  end.

(** ** Power cuts *)

(** A boot without faults. *)
Definition users_boot (f : flash directory_slot) : option security_directory :=
  let '(err, d) := (run argus_security_directory_init f).1 in if is_ok err then d else None.

(** Memory and flash agree, and the selector names the active slot. *)
Record in_sync (d : security_directory) (f : flash directory_slot) : Prop := {
  sy_slot : sd_active_slot d = 0 \/ sd_active_slot d = 1;
  sy_generation : sd_generation d <> 0;
  sy_active : exists s, slot_at f (sd_active_slot d) = Some s /\ slot_valid s = true
    /\ sl_payload s = sd_payload d /\ sl_generation s = sd_generation d;
  sy_selector : fl_selector f = Some (sd_active_slot d)
}.

Lemma in_sync_boot d f : in_sync d f -> users_boot f = Some d.
Proof.
  intros [Hi Hg (s & Hs & Hv & Hp & Hgen) Hsel]. destruct f as [a b sel], d as [p g i].
  cbn [fl_a fl_b fl_selector sd_active_slot sd_payload sd_generation] in *. subst.
  unfold users_boot, argus_security_directory_init.
  destruct Hi as [->| ->]; cbn [slot_at fl_a fl_b Z.eqb] in Hs; subst.
  - destruct b as [sb|]; cbn -[slot_valid]; rewrite ?Hv; [|done]. by destruct (slot_valid sb).
  - destruct a as [sa|]; cbn -[slot_valid]; rewrite ?Hv; [|done]. by destruct (slot_valid sa).
Qed.

Lemma in_sync_set_other d f x : in_sync d f -> in_sync d (set_slot f (other_slot (sd_active_slot d)) x).
Proof.
  intros [Hi Hg (s & Hs & H) Hsel]. split; [done|done| |].
  - exists s. split; [|done]. by rewrite slot_at_set_other.
  - unfold set_slot. by destruct (_ =? 0).
Qed.

(** A commit of the user directory is atomic: from a flash that agrees with memory, a
    commit that reports success leaves one that agrees with the new directory, and after
    a failure or a power cut the next boot finds the old directory or the new one. *)
Theorem user_directory_commit_atomic d f payload expected :
  in_sync d f ->
  let new := SecurityDirectory payload (next_generation (sd_generation d)) (other_slot (sd_active_slot d)) in
  (forall d' f', returns (commit_locked d payload expected) f (ESP_OK, d') f' -> d' = new /\ in_sync d' f') /\
  (forall e d' f', returns (commit_locked d payload expected) f (e, d') f' -> e <> ESP_OK ->
     d' = d /\ (users_boot f' = Some d \/ users_boot f' = Some new)) /\
  (forall f', power_cut (commit_locked d payload expected) f f' ->
     users_boot f' = Some d \/ users_boot f' = Some new).
Proof.
  intros Hsync new.
  assert (Hw : wpc (commit_locked d payload expected)
    (fun r f' => if is_ok r.1 then r.2 = new /\ in_sync new f'
                 else r.2 = d /\ (users_boot f' = Some d \/ users_boot f' = Some new))
    (fun f' => users_boot f' = Some d \/ users_boot f' = Some new) f).
  { assert (Hold : users_boot f = Some d \/ users_boot f = Some new) by (left; by apply in_sync_boot).
    unfold commit_locked. destruct (_ || _ : bool) eqn:H; [split; [done|]; cbn [fst snd is_ok]; auto|]. b2p.
    assert (Ht : target_slot (sd_generation d) (sd_active_slot d) = other_slot (sd_active_slot d)).
    { unfold target_slot. pose proof (sy_generation _ _ Hsync) as Hg. apply Z.eqb_neq in Hg. by rewrite Hg. }
    cbv zeta. rewrite Ht. set (s := fresh_slot _ payload).
    assert (Hsv : slot_valid s = true) by (apply fresh_slot_valid; [apply next_generation_pos|done]).
    assert (Hnew : in_sync new (set_selector (set_slot f (other_slot (sd_active_slot d)) s) (other_slot (sd_active_slot d)))).
    { split; cbn [sd_active_slot sd_generation new].
      - destruct (sy_slot _ _ Hsync) as [->| ->]; auto.
      - apply next_generation_pos.
      - exists s. rewrite slot_at_set_selector, slot_at_set_same. done.
      - done. }
    assert (Hl : forall f', commit_leaves f (other_slot (sd_active_slot d)) s f' ->
      users_boot f' = Some d \/ users_boot f' = Some new).
    { intros f' [->|[[->|(g & _ & ->)]| ->]]; [done| | |right; by apply in_sync_boot];
        left; by apply in_sync_boot, in_sync_set_other. }
    apply wpc_bind. eapply wpc_mono; [|exact Hl|apply commit_slot_wpc; exact Hsv].
    cbv beta. intros err f' Hp. cbn [fst snd]. destruct (is_ok err) eqn:Herr.
    - split; [apply Hl; right; by right|]. cbn [fst snd]. rewrite Herr. by subst f'.
    - split; [by apply Hl|]. cbn [fst snd]. rewrite Herr. auto. }
  split; [|split].
  - intros d' f' Hr. pose proof (wpc_returns _ _ _ _ _ _ Hw Hr) as [H1 H2]. cbn [fst snd] in *. by subst d'.
  - intros e d' f' Hr He. pose proof (wpc_returns _ _ _ _ _ _ Hw Hr) as H. cbn [fst snd] in H.
    apply is_ok_false in He. by rewrite He in H.
  - intros f' Hc. exact (wpc_power_cut _ _ _ _ _ Hw Hc).
Qed.

Definition first_flash : flash directory_slot := Flash (Some (fresh_slot 1 no_users)) None (Some 0).

Lemma user_directory_commit_atomic_witness :
  let d := SecurityDirectory no_users 1 0 in
  let after := (run_for 2 (commit_locked d no_users 1) first_flash).2 in
  users_boot after = Some d \/ users_boot after = Some (SecurityDirectory no_users 2 1).
Proof.
  intros d after.
  assert (H : in_sync d first_flash).
  { split; [by left|done| |done]. exists (fresh_slot 1 no_users). split; [done|]. split; [by vm_compute|done]. }
  exact (proj2 (proj2 (user_directory_commit_atomic d first_flash no_users 1 H)) after (run_for_power_cut 2 _ _)).
Defined.

(** ** The first boot *)

Definition half_first : flash directory_slot := Flash (Some (fresh_slot 1 no_users)) None None.

Lemma first_slot_valid : slot_valid (fresh_slot 1 no_users) = true.
Proof. by vm_compute. Qed.

(** As for the security store, a power cut between the two writes of the first commit
    of the user directory leaves a flash on which no later initialisation succeeds or
    repairs anything. *)
Theorem user_directory_first_boot_fatal :
  power_cut argus_security_directory_init (Flash None None None) half_first /\
  forall r f', returns argus_security_directory_init half_first r f' ->
    r = (ESP_ERR_INVALID_STATE, None) /\ f' = half_first.
Proof.
  split.
  - assert (E : half_first = (run_for 4 argus_security_directory_init (Flash None None None)).2) by (by vm_compute).
    rewrite E. apply run_for_power_cut.
  - enough (Hw : wpc argus_security_directory_init
      (fun r f' => r = (ESP_ERR_INVALID_STATE, None) /\ f' = half_first) (fun _ => True) half_first)
      by (intros r f' Hr; exact (wpc_returns _ _ _ _ _ _ Hw Hr)).
    unfold argus_security_directory_init. prog_simpl.
    apply wpc_read_slot; [done|]. intros a Ha. prog_simpl. apply wpc_read_slot; [done|]. intros b Hb. prog_simpl.
    change (slot_at half_first 0) with (Some (fresh_slot 1 no_users)) in Ha.
    change (slot_at half_first 1) with (@None directory_slot) in Hb.
    destruct b as [eb|sb]; [|done]. destruct Hb as [Hb _]. apply is_ok_false in Hb.
    destruct a as [ea|sa].
    + destruct Ha as [Ha Hm]. apply is_ok_false in Ha. cbn [status]. rewrite Ha.
      destruct (missing ea); [by specialize (Hm eq_refl)|]. split; done.
    + injection Ha as <-. cbn [status read_valid is_ok negb andb]. rewrite Hb, first_slot_valid.
      cbn [negb andb orb]. destruct (missing eb); [|split; done]. cbn [missing negb andb].
      apply wpc_read_selector; [done|]. intros r Hr. change (fl_selector half_first) with (@None Z) in Hr.
      destruct r as [e|]; [|done]. split; done.
Qed.

(** ** Lookups *)

Lemma human_entry p i : argus_security_directory_payload_valid p = true ->
  (i < Z.to_nat (dp_human_count p))%nat ->
  argus_security_human_record_valid (human_at p i) = true /\
  subset (hu_role_mask (human_at p i)) (allowed_roles p) = true /\
  Z.land (hu_role_mask (human_at p i)) (u16 (Z.shiftl 1 (hu_level (human_at p i)))) <> 0 /\
  forall j, (j < i)%nat -> hu_identifier (human_at p i) <> hu_identifier (human_at p j)
    /\ hu_login (human_at p i) <> hu_login (human_at p j).
Proof.
  unfold argus_security_directory_payload_valid. destruct (_ || _ : bool) eqn:H; [done|]. b2p.
  intros Hall Hi. apply andb_true_iff in Hall as [_ Hall]. rewrite forallb_forall in Hall. specialize (Hall i).
  unfold ARGUS_SECURITY_MAX_HUMANS in *. rewrite in_seq in Hall. specialize (Hall ltac:(lia)).
  unfold human_entry_valid in Hall. rewrite (proj2 (Z.ltb_lt _ _)) in Hall by lia. b2p.
  split_and!; [done|done|done|]. intros j Hj.
  match goal with H : forallb _ (seq 0 i) = true |- _ => rewrite forallb_forall in H; specialize (H j) end.
  match goal with H : In j (seq 0 i) -> _ |- _ => rewrite in_seq in H; specialize (H ltac:(lia)); b2p end. done.
Qed.

Lemma humans_distinct p i j : argus_security_directory_payload_valid p = true ->
  (i < Z.to_nat (dp_human_count p))%nat -> (j < Z.to_nat (dp_human_count p))%nat ->
  hu_login (human_at p j) = hu_login (human_at p i) \/ hu_identifier (human_at p j) = hu_identifier (human_at p i) ->
  j = i.
Proof.
  intros Hv Hi Hj Heq. destruct (human_entry p i Hv Hi) as (_ & _ & _ & Hdi), (human_entry p j Hv Hj) as (_ & _ & _ & Hdj).
  destruct (Nat.lt_trichotomy i j) as [Hlt|[->|Hlt]]; [|done|]; exfalso.
  - destruct (Hdj i Hlt). by destruct Heq.
  - destruct (Hdi j Hlt). by destruct Heq.
Qed.

Lemma find_in_seq (g : nat -> bool) n i : (i < n)%nat -> g i = true ->
  (forall j, (j < n)%nat -> g j = true -> j = i) -> find g (seq 0 n) = Some i.
Proof.
  intros Hi Hg Hu. destruct (find g (seq 0 n)) as [j|] eqn:E.
  - apply find_some in E as [Hj Hgj]. apply in_seq in Hj. by rewrite (Hu j) by (done || lia).
  - pose proof (find_none _ _ E i) as Hn. rewrite in_seq in Hn. rewrite Hn in Hg by lia. done.
Qed.

(** Logins and identifiers of a valid user directory are unique: a login that is found
    names an enabled or disabled record whose fields are valid and whose role mask names
    only existing roles and includes the built-in role of its level, the lookup by its
    identifier finds the same entry, and no other entry has its login or identifier. *)
Theorem user_directory_unique d login r :
  argus_security_directory_payload_valid (sd_payload d) = true ->
  argus_security_directory_find_login d login = inr r ->
  hu_login r = login /\
  argus_security_human_record_valid r = true /\
  subset (hu_role_mask r) (allowed_roles (sd_payload d)) = true /\
  Z.land (hu_role_mask r) (u16 (Z.shiftl 1 (hu_level r))) <> 0 /\
  exists i, argus_security_directory_find_id d (hu_identifier r) = inr (r, i) /\
    forall j, (j < Z.to_nat (dp_human_count (sd_payload d)))%nat ->
      hu_login (human_at (sd_payload d) j) = login \/ hu_identifier (human_at (sd_payload d) j) = hu_identifier r ->
      j = i.
Proof.
  intros Hv. unfold argus_security_directory_find_login, argus_security_directory_find_id.
  set (p := sd_payload d) in *. destruct (find _ _) as [i|] eqn:E; [|done]. intros [= <-].
  apply find_some in E as [Hi Hl]. apply in_seq in Hi. destruct Hi as [_ Hi]. rewrite Nat.add_0_l in Hi. b2p. subst login.
  destruct (human_entry p i Hv Hi) as (H1 & H2 & H3 & _). split_and!; [done..|].
  exists i. split; [|intros j Hj; by apply humans_distinct].
  rewrite (find_in_seq _ _ i); [done|done|by apply bool_decide_eq_true|].
  intros j Hj Hid. b2p. apply (humans_distinct p); auto.
Qed.

Definition demo_human : argus_security_human_record_t :=
  HumanRecord 1 ARGUS_SECURITY_LEVEL_OPERATOR 1 0 (str "h-01") (str "operator") (str "Operator") (str "bench")
    8 0 1 1 0 [0; 0; 0] (PasswordVerifier 1 1 16 32 25000 [] []).

Definition demo_users : security_directory :=
  SecurityDirectory (no_users <| dp_human_count := 1 |> <| dp_humans := demo_human :: replicate 15 zero_human |>) 4 1.

Lemma user_directory_unique_witness :
  exists i, argus_security_directory_find_id demo_users (str "h-01") = inr (demo_human, i).
Proof.
  destruct (user_directory_unique demo_users (str "operator") demo_human ltac:(by vm_compute) ltac:(by vm_compute))
    as (_ & _ & _ & _ & i & H & _). exists i. exact H.
Defined.
