(* ===== verification/Sessions.v ===== *)
(** * Browser sessions

    [src/main/argus_session_manager.c]: the fixed table of authenticated browser
    sessions.  SHA-256 and the random number generator are not part of the repository:
    the hash is a variable of the section ([None] for a failing call), the generator an
    argument that gives the outcome of each successive call. *)

From S2P Require Import Prelude Authorization.

Definition ARGUS_SESSION_CAPACITY : nat := 8.
Definition ARGUS_SESSION_PER_PRINCIPAL : nat := 2.
Definition ARGUS_SESSION_SECRET_BYTES : nat := 32.
Definition ARGUS_SESSION_IDLE_US : Z := 900000000.
Definition ARGUS_SESSION_ABSOLUTE_US : Z := 28800000000.
Definition ARGUS_SESSION_REAUTH_US : Z := 300000000.

Record argus_session_record_t := SessionRecord {
  sr_occupied : bool;
  sr_token_digest : bytes;
  sr_csrf_digest : bytes;
  sr_csrf_secret : bytes;
  sr_principal : argus_principal_t;
  sr_created_us : Z;
  sr_last_activity_us : Z;
  sr_reauthenticated_us : Z
}.

#[export] Instance eta_session_record : Eta argus_session_record_t := fun r =>
  SessionRecord (sr_occupied r) (sr_token_digest r) (sr_csrf_digest r) (sr_csrf_secret r)
    (sr_principal r) (sr_created_us r) (sr_last_activity_us r) (sr_reauthenticated_us r).

Record argus_session_credentials_t := Credentials {
  cr_token : bytes;
  cr_csrf : bytes;
  cr_principal : argus_principal_t;
  cr_expires_us : Z
}.

Definition zeros (n : nat) : bytes := replicate n 0.

Definition zero_principal : argus_principal_t :=
  Principal ARGUS_PRINCIPAL_NONE [] [] 0 0 0 0 0 0 false.

Definition zero_record : argus_session_record_t :=
  SessionRecord false (zeros 32) (zeros 32) [] zero_principal 0 0 0.

Abbreviation argus_session_table_t := (list argus_session_record_t).

Definition argus_session_table_init : argus_session_table_t :=
  replicate ARGUS_SESSION_CAPACITY zero_record.

(** ** Hexadecimal secrets *)

Definition hex_nibble (c : Z) : option Z :=
  if in_range 48 57 c then Some (c - 48)
  else if in_range 97 102 c then Some (c - 97 + 10) else None.

Fixpoint hex_pairs (l : bytes) : option bytes :=
  match l with
  | hi :: lo :: l =>
      a ← hex_nibble hi; b ← hex_nibble lo; rest ← hex_pairs l;
      Some (Z.lor (Z.shiftl a 4) b :: rest)
  | _ => Some []
  end.

Definition hex_decode (hex : option bytes) (len : nat) : option bytes :=
  match hex with
  | Some h => if (length h =? len * 2)%nat then hex_pairs h else None
  | None => None
  end.

Definition HEX (d : Z) : Z := default 0 (str "0123456789abcdef" !! Z.to_nat d).

Fixpoint hex_encode (l : bytes) : bytes :=
  match l with
  | [] => []
  | c :: l => HEX (Z.shiftr c 4) :: HEX (Z.land c 15) :: hex_encode l
  end.

Definition expired (record : argus_session_record_t) (now_us : Z) : bool :=
  (now_us <? sr_created_us record) || (now_us <? sr_last_activity_us record)
  || (ARGUS_SESSION_ABSOLUTE_US <=? now_us - sr_created_us record)
  || (ARGUS_SESSION_IDLE_US <=? now_us - sr_last_activity_us record).

(** [if (record->occupied && expired(record, now_us)) zero_record(record)] *)
Definition purge (now_us : Z) (r : argus_session_record_t) : argus_session_record_t :=
  if sr_occupied r && expired r now_us then zero_record else r.

Definition owned_by (id : bytes) (r : argus_session_record_t) : bool :=
  sr_occupied r && bool_decide (pr_identifier (sr_principal r) = id).

Definition has_digest (d : bytes) (r : argus_session_record_t) : bool :=
  sr_occupied r && bool_decide (sr_token_digest r = d).

(** The first loop of [argus_session_create]: purge, first free slot, sessions of the
    principal. *)
Fixpoint create_scan (id : bytes) (now_us : Z) (i : nat) (t : argus_session_table_t)
    (free : option nat) (count : nat) : argus_session_table_t * option nat * nat :=
  match t with
  | [] => ([], free, count)
  | r :: t =>
      let r := purge now_us r in
      let '(free, count) :=
        if negb (sr_occupied r) then (match free with None => Some i | Some _ => free end, count)
        else (free, if owned_by id r then S count else count) in
      let '(t', free, count) := create_scan id now_us (S i) t free count in
      (r :: t', free, count)
  end.

(** The loop of [argus_session_authenticate]: purge, and the last slot that matches. *)
Fixpoint auth_scan (digest : bytes) (now_us : Z) (i : nat) (t : argus_session_table_t)
    (found : option nat) : argus_session_table_t * option nat :=
  match t with
  | [] => ([], found)
  | r :: t =>
      let r := purge now_us r in
      let found := if has_digest digest r then Some i else found in
      let '(t', found) := auth_scan digest now_us (S i) t found in
      (r :: t', found)
  end.

Definition all_zero (l : bytes) : bool := forallb (Z.eqb 0) l.

(** Zero the records that satisfy [p], and count them. *)
Fixpoint revoke_where (p : argus_session_record_t -> bool) (t : argus_session_table_t)
    : nat * argus_session_table_t :=
  match t with
  | [] => (0%nat, [])
  | r :: t =>
      let '(n, t') := revoke_where p t in
      if p r then (S n, zero_record :: t') else (n, r :: t')
  end.

(** Zero the first record that satisfies [p]. *)
Fixpoint revoke_first (p : argus_session_record_t -> bool) (t : argus_session_table_t)
    : bool * argus_session_table_t :=
  match t with
  | [] => (false, [])
  | r :: t =>
      if p r then (true, zero_record :: t)
      else let '(b, t') := revoke_first p t in (b, r :: t')
  end.

Section Sessions.
Variable sha256 : bytes -> option bytes.

Definition digest_secret (secret : option bytes) : option bytes :=
  decoded ← hex_decode secret ARGUS_SESSION_SECRET_BYTES; sha256 decoded.

(** The four attempts to draw a token that is not zero and not in use.  [call] counts
    the calls of the generator, [err] is the variable of the source. *)
Fixpoint draw_token (random : nat -> esp_err_t * bytes) (attempts call : nat) (err : esp_err_t)
    (t : argus_session_table_t) : esp_err_t * nat * option (bytes * bytes) :=
  match attempts with
  | O => (err, call, None)
  | S attempts =>
      let '(err, token) := random call in
      if negb (is_ok err) then (err, S call, None)
      else if all_zero token then draw_token random attempts (S call) err t
      else match sha256 token with
           | None => draw_token random attempts (S call) err t
           | Some d =>
               if existsb (has_digest d) t then draw_token random attempts (S call) err t
               else (err, S call, Some (token, d))
           end
  end.

Definition argus_session_create (table : argus_session_table_t)
    (principal : option argus_principal_t) (now_us : Z) (random : nat -> esp_err_t * bytes)
    : esp_err_t * argus_session_table_t * option argus_session_credentials_t :=
  match principal with
  | None => (ESP_ERR_INVALID_ARG, table, None)
  | Some p =>
      if negb (argus_authorization_principal_valid principal) || (now_us =? 0)
      then (ESP_ERR_INVALID_ARG, table, None)
      else
        let '(table, free_index, principal_count) :=
          create_scan (pr_identifier p) now_us 0 table None 0 in
        match free_index with
        | Some index =>
            if (ARGUS_SESSION_PER_PRINCIPAL <=? principal_count)%nat
            then (ESP_ERR_NO_MEM, table, None)
            else
              match draw_token random 4 0 ESP_ERR_INVALID_STATE table with
              | (err, _, None) =>
                  (if is_ok err then ESP_ERR_INVALID_STATE else err, table, None)
              | (_, call, Some (token, token_digest)) =>
                  let '(err, csrf) := random call in
                  if negb (is_ok err) || all_zero csrf
                  then (if is_ok err then ESP_ERR_INVALID_STATE else err, table, None)
                  else
                    let next := SessionRecord true token_digest
                                  (default (zeros 32) (sha256 csrf)) (hex_encode csrf) p
                                  now_us now_us now_us in
                    (ESP_OK, <[index := next]> table,
                     Some (Credentials (hex_encode token) (hex_encode csrf) p
                             (u64 (now_us + ARGUS_SESSION_IDLE_US))))
              end
        | None => (ESP_ERR_NO_MEM, table, None)
        end
  end.

Definition argus_session_authenticate (table : argus_session_table_t) (token : option bytes)
    (now_us : Z) : esp_err_t * argus_session_table_t * option (argus_principal_t * nat) :=
  match token with
  | None => (ESP_ERR_INVALID_ARG, table, None)
  | Some _ =>
      if now_us =? 0 then (ESP_ERR_INVALID_ARG, table, None)
      else
        match digest_secret token with
        | None => (ESP_ERR_NOT_FOUND, table, None)
        | Some digest =>
            let '(table, found) := auth_scan digest now_us 0 table None in
            match found with
            | None => (ESP_ERR_NOT_FOUND, table, None)
            | Some i =>
                match table !! i with
                | Some r =>
                    (ESP_OK, <[i := r <| sr_last_activity_us := now_us |>]> table,
                     Some (sr_principal r, i))
                | None => (ESP_ERR_NOT_FOUND, table, None)
                end
            end
        end
  end.

(** The occupied record at an index of the table. *)
Definition occupied_at (table : argus_session_table_t) (index : nat)
    : option argus_session_record_t :=
  r ← table !! index; if sr_occupied r then Some r else None.

Definition argus_session_csrf_valid (table : argus_session_table_t) (index : nat)
    (csrf : option bytes) : bool :=
  match occupied_at table index, digest_secret csrf with
  | Some r, Some d => bool_decide (sr_csrf_digest r = d)
  | _, _ => false
  end.

Definition argus_session_get_csrf (table : argus_session_table_t) (index : nat) : option bytes :=
  sr_csrf_secret <$> occupied_at table index.

Definition argus_session_recently_reauthenticated (table : argus_session_table_t) (index : nat)
    (now_us : Z) : bool :=
  match occupied_at table index with
  | Some r => (sr_reauthenticated_us r <=? now_us)
              && (now_us - sr_reauthenticated_us r <? ARGUS_SESSION_REAUTH_US)
  | None => false
  end.

Definition argus_session_mark_reauthenticated (table : argus_session_table_t) (index : nat)
    (now_us : Z) : argus_session_table_t :=
  match occupied_at table index with
  | Some r => <[index := r <| sr_reauthenticated_us := now_us |>]> table
  | None => table
  end.

Definition argus_session_revoke_principal (table : argus_session_table_t) (id : bytes)
    : nat * argus_session_table_t := revoke_where (owned_by id) table.

Definition argus_session_revoke_token (table : argus_session_table_t) (token : option bytes)
    : bool * argus_session_table_t :=
  match digest_secret token with
  | None => (false, table)
  | Some d => revoke_first (has_digest d) table
  end.

Definition argus_session_revoke_epoch (table : argus_session_table_t) (epoch : Z)
    : nat * argus_session_table_t :=
  if epoch =? 0 then (0%nat, table)
  else revoke_where (fun r => sr_occupied r && negb (pr_security_epoch (sr_principal r) =? epoch)) table.

Fixpoint argus_session_count (table : argus_session_table_t) : nat :=
  match table with
  | [] => 0
  | r :: table => (if sr_occupied r then 1 else 0) + argus_session_count table
  end.

Definition argus_session_revoke_all (table : argus_session_table_t) : nat * argus_session_table_t :=
  (argus_session_count table, replicate (length table) zero_record).

(** ** The production singleton

    [s_mutex] is NULL until [argus_session_manager_init]; every entry point holds the
    mutex for its one call of the pure core, so it is one atomic step. *)
Record session_manager := SessionManager { sm_mutex : bool; s_sessions : argus_session_table_t }.

Definition session_manager_boot : session_manager := SessionManager false argus_session_table_init.

Definition argus_session_manager_init (created : bool) (m : session_manager)
    : esp_err_t * session_manager :=
  if sm_mutex m then (ESP_OK, m)
  else (if created then ESP_OK else ESP_ERR_NO_MEM, SessionManager created argus_session_table_init).

Definition production_random (fill : nat -> bytes) (call : nat) : esp_err_t * bytes := (ESP_OK, fill call).

Definition argus_session_manager_create (m : session_manager) (principal : option argus_principal_t)
    (now_us : Z) (fill : nat -> bytes)
    : esp_err_t * session_manager * option argus_session_credentials_t :=
  if negb (sm_mutex m) then (ESP_ERR_INVALID_STATE, m, None)
  else let '(err, t, out) := argus_session_create (s_sessions m) principal now_us (production_random fill) in
       (err, SessionManager true t, out).

Definition argus_session_manager_authenticate (m : session_manager) (token : option bytes) (now_us : Z)
    : esp_err_t * session_manager * option (argus_principal_t * nat) :=
  if negb (sm_mutex m) then (ESP_ERR_INVALID_STATE, m, None)
  else let '(err, t, out) := argus_session_authenticate (s_sessions m) token now_us in
       (err, SessionManager true t, out).

Definition argus_session_manager_csrf_valid (m : session_manager) (index : nat) (csrf : option bytes) : bool :=
  sm_mutex m && argus_session_csrf_valid (s_sessions m) index csrf.

Definition argus_session_manager_get_csrf (m : session_manager) (index : nat) : option bytes :=
  if sm_mutex m then argus_session_get_csrf (s_sessions m) index else None.

Definition argus_session_manager_recently_reauthenticated (m : session_manager) (index : nat)
    (now_us : Z) : bool :=
  sm_mutex m && argus_session_recently_reauthenticated (s_sessions m) index now_us.

Definition argus_session_manager_mark_reauthenticated (m : session_manager) (index : nat) (now_us : Z)
    : session_manager :=
  if negb (sm_mutex m) then m
  else SessionManager true (argus_session_mark_reauthenticated (s_sessions m) index now_us).

Definition argus_session_manager_revoke_token (m : session_manager) (token : option bytes)
    : bool * session_manager :=
  if negb (sm_mutex m) then (false, m)
  else let '(b, t) := argus_session_revoke_token (s_sessions m) token in (b, SessionManager true t).

Definition argus_session_manager_revoke_principal (m : session_manager) (id : bytes)
    : nat * session_manager :=
  if negb (sm_mutex m) then (0%nat, m)
  else let '(n, t) := argus_session_revoke_principal (s_sessions m) id in (n, SessionManager true t).

Definition argus_session_manager_revoke_epoch (m : session_manager) (epoch : Z) : nat * session_manager :=
  if negb (sm_mutex m) then (0%nat, m)
  else let '(n, t) := argus_session_revoke_epoch (s_sessions m) epoch in (n, SessionManager true t).

Definition argus_session_manager_count (m : session_manager) : nat :=
  if negb (sm_mutex m) then 0%nat else argus_session_count (s_sessions m).

Definition argus_session_manager_revoke_all (m : session_manager) : nat * session_manager :=
  if negb (sm_mutex m) then (0%nat, m)
  else let '(n, t) := argus_session_revoke_all (s_sessions m) in (n, SessionManager true t).
End Sessions.

(** ** The table invariant *)

Fixpoint count_where (p : argus_session_record_t -> bool) (t : argus_session_table_t) : nat :=
  match t with
  | [] => 0
  | r :: t => (if p r then 1 else 0) + count_where p t
  end.

(** Eight records, no digest twice, at most two sessions of a principal. *)
Record table_inv (t : argus_session_table_t) : Prop := {
  inv_length : length t = ARGUS_SESSION_CAPACITY;
  inv_unique : forall d, (count_where (has_digest d) t <= 1)%nat;
  inv_quota : forall id, (count_where (owned_by id) t <= ARGUS_SESSION_PER_PRINCIPAL)%nat
}.

(** A record after an operation that creates no session: emptied, or the same session. *)
Definition sub_record (r' r : argus_session_record_t) : Prop :=
  sr_occupied r' = false \/
  (sr_occupied r = true /\ sr_token_digest r' = sr_token_digest r /\ sr_principal r' = sr_principal r).

Definition sub_table : relation argus_session_table_t := Forall2 sub_record.

Lemma sub_record_refl r : sub_record r r.
Proof. unfold sub_record. destruct (sr_occupied r); auto. Qed.

Lemma sub_record_trans r1 r2 r3 : sub_record r1 r2 -> sub_record r2 r3 -> sub_record r1 r3.
Proof.
  unfold sub_record. intros [?|(H1 & H2 & H3)]; [by left|]. rewrite H2, H3.
  intros [H4|?]; [congruence|by right].
Qed.

#[export] Instance sub_table_preorder : PreOrder sub_table.
Proof.
  split.
  - intros t. apply Forall_Forall2_diag, Forall_forall. intros r _. apply sub_record_refl.
  - intros t1 t2 t3. intros H12 H23. eapply Forall2_trans; [|exact H12|exact H23].
    intros r1 r2 r3. apply sub_record_trans.
Qed.

Lemma count_sub p t' t :
  (forall r' r, sub_record r' r -> p r' = true -> p r = true) ->
  sub_table t' t -> (count_where p t' <= count_where p t)%nat.
Proof.
  intros Hp. induction 1 as [|r' r t' t Hr _ IH]; [done|]. cbn.
  destruct (p r') eqn:Hr'; [|lia]. rewrite (Hp _ _ Hr Hr'). lia.
Qed.

Lemma sub_record_digest d r' r : sub_record r' r -> has_digest d r' = true -> has_digest d r = true.
Proof. unfold sub_record, has_digest. intros [->|(-> & -> & _)]; [done|]. by destruct (sr_occupied r'). Qed.

Lemma sub_record_owned id r' r : sub_record r' r -> owned_by id r' = true -> owned_by id r = true.
Proof. unfold sub_record, owned_by. intros [->|(-> & _ & ->)]; [done|]. by destruct (sr_occupied r'). Qed.

Lemma sub_table_inv t' t : sub_table t' t -> table_inv t -> table_inv t'.
Proof.
  intros Hs []. split.
  - by rewrite (Forall2_length _ _ _ Hs).
  - intros d. pose proof (count_sub (has_digest d) _ _ (sub_record_digest d) Hs). specialize (inv_unique0 d). lia.
  - intros id. pose proof (count_sub (owned_by id) _ _ (sub_record_owned id) Hs). specialize (inv_quota0 id). lia.
Qed.

Lemma purge_sub now r : sub_record (purge now r) r.
Proof. unfold purge. destruct (_ && _); [by left|apply sub_record_refl]. Qed.

Lemma map_purge_sub now t : sub_table (purge now <$> t) t.
Proof. apply Forall2_fmap_l, Forall_Forall2_diag, Forall_forall. intros r _. apply purge_sub. Qed.

Lemma revoke_where_sub p t : sub_table (revoke_where p t).2 t.
Proof.
  induction t as [|r t IH]; [by constructor|]. cbn. destruct (revoke_where p t) as [n t'].
  destruct (p r); constructor; try done; [by left|apply sub_record_refl].
Qed.

Lemma revoke_first_sub p t : sub_table (revoke_first p t).2 t.
Proof.
  induction t as [|r t IH]; [by constructor|]. cbn. destruct (p r).
  - constructor; [by left|]. apply sub_table_preorder.
  - destruct (revoke_first p t) as [b t']. constructor; [apply sub_record_refl|done].
Qed.

Lemma insert_sub t i r r' : t !! i = Some r -> sub_record r' r -> sub_table (<[i := r']> t) t.
Proof.
  intros Hi Hr. rewrite <- (list_insert_id t i r Hi) at 2.
  apply Forall2_insert; [apply sub_table_preorder|done].
Qed.

(** ** The scans *)

Lemma create_scan_spec id now t : forall i free count,
  exists free', create_scan id now i t free count
    = (purge now <$> t, free', (count + count_where (owned_by id) (purge now <$> t))%nat) /\
    (forall k, free = Some k -> free' = Some k) /\
    (free = None -> forall k, free' = Some k -> (i <= k)%nat /\
       exists r, (purge now <$> t) !! (k - i)%nat = Some r /\ sr_occupied r = false).
Proof.
  induction t as [|r t IH]; intros i free count.
  { exists free. cbn. rewrite Nat.add_0_r. split; [done|]. split; [done|]. intros ->. done. }
  cbn [create_scan fmap list_fmap count_where]. set (r' := purge now r).
  destruct (sr_occupied r') eqn:Ho; cbn [negb].
  - destruct (IH (S i) free (if owned_by id r' then S count else count)) as (free' & -> & Hk & Hn).
    exists free'. split; [|split; [done|]].
    { f_equal. destruct (owned_by id r'); cbn; lia. }
    intros Hf k Hk'. destruct (Hn Hf k Hk') as (Hle & q & Hq & Hqo). split; [lia|].
    exists q. split; [|done]. by replace (k - i)%nat with (S (k - S i)) by lia.
  - destruct (IH (S i) (match free with None => Some i | Some _ => free end) count) as (free' & -> & Hk & Hn).
    exists free'. split; [|split].
    { f_equal. unfold owned_by at 2. rewrite Ho. cbn. lia. }
    + intros k ->. by apply Hk.
    + intros -> k Hk'. specialize (Hk i eq_refl). simplify_eq. split; [lia|].
      exists r'. rewrite Nat.sub_diag. done.
Qed.

Lemma auth_scan_spec d now t : forall i found,
  exists found', auth_scan d now i t found = (purge now <$> t, found') /\
    (forall k, found' = Some k ->
       found = Some k \/ ((i <= k)%nat /\ exists r, (purge now <$> t) !! (k - i)%nat = Some r /\ has_digest d r = true)) /\
    (is_Some found -> is_Some found') /\
    (found' = None -> Forall (fun r => has_digest d r = false) (purge now <$> t)).
Proof.
  induction t as [|r t IH]; intros i found.
  { exists found. cbn. split; [done|]. split; [by left|done]. }
  cbn [auth_scan fmap list_fmap]. set (r' := purge now r).
  destruct (IH (S i) (if has_digest d r' then Some i else found)) as (found' & -> & Hk & Hs & Hn).
  exists found'. split; [done|]. split; [|split].
  - intros k Hf. destruct (Hk k Hf) as [Hl|(Hle & q & Hq & Hd)].
    + destruct (has_digest d r') eqn:Hd; [|by left]. simplify_eq. right. split; [lia|].
      exists r'. rewrite Nat.sub_diag. done.
    + right. split; [lia|]. exists q. split; [|done]. by replace (k - i)%nat with (S (k - S i)) by lia.
  - intros Hf. apply Hs. by destruct (has_digest d r').
  - intros ->. constructor; [|by apply Hn].
    destruct (has_digest d r') eqn:Hd; [|done]. destruct (Hs ltac:(by eexists)) as [? ?]. done.
Qed.

Lemma count_zero p t : count_where p t = 0%nat <-> Forall (fun r => p r = false) t.
Proof.
  induction t as [|r t IH]; cbn; [split; [by constructor|done]|]. rewrite Forall_cons, <- IH.
  destruct (p r); [split; [lia|by intros []]|]. split; [by intros|by intros []].
Qed.

Lemma count_insert p t i r0 r : t !! i = Some r0 -> p r0 = false ->
  count_where p (<[i := r]> t) = ((if p r then 1 else 0) + count_where p t)%nat.
Proof.
  revert i. induction t as [|q t IH]; intros i; [done|]. destruct i as [|i].
  - cbn. intros [= ->] ->. done.
  - change (<[S i := r]> (q :: t)) with (q :: <[i := r]> t). cbn [count_where lookup list_lookup].
    intros Hi Hr. rewrite (IH _ Hi Hr). lia.
Qed.

Lemma count_two p t i j r s : t !! i = Some r -> t !! j = Some s -> p r = true -> p s = true ->
  (count_where p t <= 1)%nat -> i = j.
Proof.
  revert i j. induction t as [|q t IH]; intros i j; [done|].
  assert (Hpos : forall k x, t !! k = Some x -> p x = true -> (1 <= count_where p t)%nat).
  { intros k x Hk Hx. destruct (count_where p t) eqn:Hc; [|lia]. apply count_zero in Hc.
    rewrite Forall_lookup in Hc. specialize (Hc _ _ Hk). congruence. }
  destruct i as [|i], j as [|j]; cbn; [done|..].
  - intros [= ->] Hj -> Hs Hc. specialize (Hpos _ _ Hj Hs). lia.
  - intros Hi [= ->] Hr -> Hc. specialize (Hpos _ _ Hi Hr). lia.
  - intros Hi Hj Hr Hs Hc. f_equal. apply IH; try done. destruct (p q); lia.
Qed.

Lemma existsb_count p t : existsb p t = false -> count_where p t = 0%nat.
Proof.
  induction t as [|r t IH]; cbn; [done|]. intros [H1 H2]%orb_false_iff. by rewrite H1, IH.
Qed.

Section Proofs.
Context (sha256 : bytes -> option bytes).

Lemma draw_token_fresh random n call err t err' call' token d :
  draw_token sha256 random n call err t = (err', call', Some (token, d)) ->
  sha256 token = Some d /\ count_where (has_digest d) t = 0%nat /\
  exists c, random c = (ESP_OK, token).
Proof.
  revert call err. induction n as [|n IH]; intros call err; [done|]. cbn [draw_token].
  destruct (random call) as [e tk] eqn:Hr. destruct (is_ok e) eqn:He; [|done]. cbn [negb].
  destruct (all_zero tk); [apply IH|]. destruct (sha256 tk) as [d'|] eqn:Hs; [|apply IH].
  destruct (existsb (has_digest d') t) eqn:Hx; [apply IH|]. intros [= <- <- <- <-].
  apply is_ok_true in He as ->. split; [done|]. split; [by apply existsb_count|eauto].
Qed.

(** What a successful or failed [create] leaves. *)
Lemma create_spec t p now random err t' out :
  argus_session_create sha256 t p now random = (err, t', out) ->
  (err <> ESP_OK /\ out = None /\ sub_table t' t) \/
  (err = ESP_OK /\ exists i r0 q token d csrf c1 c2,
     p = Some q /\ (purge now <$> t) !! i = Some r0 /\ sr_occupied r0 = false /\
     sha256 token = Some d /\ count_where (has_digest d) (purge now <$> t) = 0%nat /\
     (count_where (owned_by (pr_identifier q)) (purge now <$> t) < ARGUS_SESSION_PER_PRINCIPAL)%nat /\
     random c1 = (ESP_OK, token) /\ random c2 = (ESP_OK, csrf) /\
     t' = <[i := SessionRecord true d (default (zeros 32) (sha256 csrf)) (hex_encode csrf) q now now now]>
            (purge now <$> t) /\
     out = Some (Credentials (hex_encode token) (hex_encode csrf) q (u64 (now + ARGUS_SESSION_IDLE_US)))).
Proof.
  unfold argus_session_create. destruct p as [q|]; [|intros [= <- <- <-]; left; repeat split; try done; apply sub_table_preorder].
  destruct (_ || _ : bool); [intros [= <- <- <-]; left; repeat split; try done; apply sub_table_preorder|].
  destruct (create_scan_spec (pr_identifier q) now t 0 None 0) as (free & -> & _ & Hfree).
  specialize (Hfree eq_refl). pose proof (map_purge_sub now t) as Hsub.
  destruct free as [i|]; [|by intros [= <- <- <-]; left].
  destruct (Nat.leb_spec ARGUS_SESSION_PER_PRINCIPAL (0 + count_where (owned_by (pr_identifier q)) (purge now <$> t)));
    [by intros [= <- <- <-]; left|].
  destruct (draw_token _ _ _ _ _ _) as [[err1 call] [[token d]|]] eqn:Hd.
  - destruct (random call) as [err2 csrf] eqn:Hc.
    destruct (is_ok err2) eqn:He2; cbn [negb orb].
    + destruct (all_zero csrf); intros [= <- <- <-]; [by left|]. right. split; [done|].
      destruct (draw_token_fresh _ _ _ _ _ _ _ _ _ Hd) as (Hs & Hz & c & Hrc).
      destruct (Hfree i eq_refl) as (_ & r0 & Hr0 & Ho). rewrite Nat.sub_0_r in Hr0.
      apply is_ok_true in He2 as ->.
      exists i, r0, q, token, d, csrf, c, call. by repeat split.
    + intros [= <- <- <-]. left. split; [|done]. by apply is_ok_false.
  - intros [= <- <- <-]. left. split; [|done]. destruct (is_ok err1) eqn:He1; [done|by apply is_ok_false].
Qed.

Lemma create_inv t p now random :
  table_inv t -> table_inv (argus_session_create sha256 t p now random).1.2.
Proof.
  intros Hinv. destruct (argus_session_create sha256 t p now random) as [[err t'] out] eqn:Hc. cbn [fst snd].
  apply create_spec in Hc as [(_ & _ & Hs)|(_ & i & r0 & q & token & d & csrf & c1 & c2 & -> & Hi & Ho & _ & Hz & Hq & _ & _ & -> & _)].
  - by eapply sub_table_inv.
  - pose proof (sub_table_inv _ _ (map_purge_sub now t) Hinv) as []. split.
    + by rewrite length_insert.
    + intros d'. rewrite (count_insert _ _ _ _ _ Hi) by (unfold has_digest; by rewrite Ho).
      unfold has_digest at 1. cbn. destruct (bool_decide_reflect (d = d')) as [<-|]; [lia|].
      specialize (inv_unique0 d'). lia.
    + intros id. rewrite (count_insert _ _ _ _ _ Hi) by (unfold owned_by; by rewrite Ho).
      unfold owned_by at 1. cbn. destruct (bool_decide_reflect (pr_identifier q = id)) as [<-|]; [lia|].
      specialize (inv_quota0 id). lia.
Qed.

(** A successful authentication names a live, unexpired session of the table. *)
Lemma authenticate_spec t token now err t' out :
  argus_session_authenticate sha256 t token now = (err, t', out) ->
  sub_table t' t /\
  match out with
  | Some (p, i) => err = ESP_OK /\ exists d r, digest_secret sha256 token = Some d /\
      (purge now <$> t) !! i = Some r /\ has_digest d r = true /\ sr_principal r = p /\
      t' = <[i := r <| sr_last_activity_us := now |>]> (purge now <$> t)
  | None => err <> ESP_OK /\
      (now <> 0 -> forall d, token <> None -> digest_secret sha256 token = Some d ->
         Forall (fun r => has_digest d r = false) (purge now <$> t))
  end.
Proof.
  unfold argus_session_authenticate. destruct token as [tk|];
    [|intros [= <- <- <-]; split; [apply sub_table_preorder|done]].
  destruct (Z.eqb_spec now 0); [intros [= <- <- <-]; split; [apply sub_table_preorder|done]|].
  destruct (digest_secret sha256 (Some tk)) as [d|];
    [|intros [= <- <- <-]; split; [apply sub_table_preorder|done]].
  destruct (auth_scan_spec d now t 0 None) as (found & -> & Hk & _ & Hn).
  pose proof (map_purge_sub now t) as Hsub.
  destruct found as [i|]; [|intros [= <- <- <-]; split; [done|]; split; [done|]; intros _ ? _ [= <-]; by apply Hn].
  destruct (Hk i eq_refl) as [|(_ & r & Hr & Hd)]; [done|]. rewrite Nat.sub_0_r in Hr. rewrite Hr.
  intros [= <- <- <-]. split; [|split; [done|eauto 10]].
  etrans; [|exact Hsub]. eapply insert_sub; [exact Hr|].
  unfold has_digest in Hd. apply andb_true_iff in Hd as [Ho _]. by right.
Qed.
End Proofs.

(** ** Runs of the session manager *)

Inductive session_call :=
| CallInit (created : bool)
| CallCreate (principal : option argus_principal_t) (now_us : Z) (fill : nat -> bytes)
| CallAuthenticate (token : option bytes) (now_us : Z)
| CallMark (index : nat) (now_us : Z)
| CallRevokeToken (token : option bytes)
| CallRevokePrincipal (id : bytes)
| CallRevokeEpoch (epoch : Z)
| CallRevokeAll.

Definition creates (c : session_call) : bool :=
  match c with CallCreate _ _ _ => true | _ => false end.

Definition session_step (sha256 : bytes -> option bytes) (m : session_manager) (c : session_call)
    : session_manager :=
  match c with
  | CallInit created => (argus_session_manager_init created m).2
  | CallCreate p now fill => (argus_session_manager_create sha256 m p now fill).1.2
  | CallAuthenticate token now => (argus_session_manager_authenticate sha256 m token now).1.2
  | CallMark i now => argus_session_manager_mark_reauthenticated m i now
  | CallRevokeToken token => (argus_session_manager_revoke_token sha256 m token).2
  | CallRevokePrincipal id => (argus_session_manager_revoke_principal m id).2
  | CallRevokeEpoch e => (argus_session_manager_revoke_epoch m e).2
  | CallRevokeAll => (argus_session_manager_revoke_all m).2
  end.

Definition session_run (sha256 : bytes -> option bytes) : session_manager -> list session_call -> session_manager :=
  foldl (session_step sha256).

Section Runs.
Context (sha256 : bytes -> option bytes).

Lemma empty_sub t : sub_table (replicate (length t) zero_record) t.
Proof. induction t as [|r t IH]; constructor; [by left|done]. Qed.

Lemma mark_sub t i now : sub_table (argus_session_mark_reauthenticated t i now) t.
Proof.
  unfold argus_session_mark_reauthenticated, occupied_at.
  destruct (t !! i) as [r|] eqn:Hi; cbn [mbind option_bind]; [|apply sub_table_preorder].
  destruct (sr_occupied r) eqn:Ho; [|apply sub_table_preorder].
  eapply insert_sub; [exact Hi|]. by right.
Qed.

(** Every call but a create only removes or keeps sessions. *)
Lemma step_sub m c : creates c = false -> length (s_sessions m) = ARGUS_SESSION_CAPACITY ->
  sub_table (s_sessions (session_step sha256 m c)) (s_sessions m).
Proof.
  intros Hc Hl. destruct m as [mx t]. cbn in Hl. destruct c as [created|p now fill|tok now|i now|tok|id|e|];
    cbn [session_step]; [|done|..].
  - unfold argus_session_manager_init. destruct mx; [apply sub_table_preorder|].
    cbn [sm_mutex snd s_sessions]. unfold argus_session_table_init. rewrite <- Hl. apply empty_sub.
  - unfold argus_session_manager_authenticate. destruct mx; [|apply sub_table_preorder]. cbn [negb sm_mutex s_sessions].
    destruct (argus_session_authenticate sha256 t tok now) as [[e t'] o] eqn:Ha.
    by apply authenticate_spec in Ha as [Hs _].
  - unfold argus_session_manager_mark_reauthenticated. destruct mx; [apply mark_sub|apply sub_table_preorder].
  - unfold argus_session_manager_revoke_token, argus_session_revoke_token. destruct mx; [|apply sub_table_preorder].
    cbn [negb sm_mutex s_sessions]. destruct (digest_secret sha256 tok) as [d|]; [|apply sub_table_preorder].
    pose proof (revoke_first_sub (has_digest d) t). by destruct (revoke_first _ t).
  - unfold argus_session_manager_revoke_principal, argus_session_revoke_principal. destruct mx; [|apply sub_table_preorder].
    cbn [negb sm_mutex s_sessions]. pose proof (revoke_where_sub (owned_by id) t). by destruct (revoke_where _ t).
  - unfold argus_session_manager_revoke_epoch, argus_session_revoke_epoch. destruct mx; [|apply sub_table_preorder].
    cbn [negb sm_mutex s_sessions]. destruct (e =? 0); [apply sub_table_preorder|].
    match goal with |- context [revoke_where ?p t] => pose proof (revoke_where_sub p t); by destruct (revoke_where p t) end.
  - unfold argus_session_manager_revoke_all. destruct mx; [|apply sub_table_preorder]. apply empty_sub.
Qed.

Lemma step_inv m c : table_inv (s_sessions m) -> table_inv (s_sessions (session_step sha256 m c)).
Proof.
  intros Hinv. destruct (creates c) eqn:Hc.
  - destruct c as [|p now fill| | | | | |]; try done. cbn [session_step].
    unfold argus_session_manager_create. destruct (sm_mutex m); [|done]. cbn [negb].
    pose proof (create_inv sha256 (s_sessions m) p now (production_random fill) Hinv) as H.
    by destruct (argus_session_create sha256 (s_sessions m) p now (production_random fill)) as [[e t'] o].
  - eapply sub_table_inv; [|exact Hinv]. apply step_sub; [done|apply Hinv].
Qed.

Lemma run_inv calls m : table_inv (s_sessions m) -> table_inv (s_sessions (session_run sha256 m calls)).
Proof. revert m. induction calls as [|c calls IH]; intros m Hm; [done|]. apply IH, step_inv, Hm. Qed.

Lemma run_sub calls m : Forall (fun c => creates c = false) calls -> table_inv (s_sessions m) ->
  sub_table (s_sessions (session_run sha256 m calls)) (s_sessions m).
Proof.
  intros Hc. revert m. induction Hc as [|c calls Hc _ IH]; intros m Hm; [apply sub_table_preorder|].
  etrans; [apply IH, step_inv, Hm|]. by apply step_sub; [|apply Hm].
Qed.

Lemma boot_inv : table_inv (s_sessions session_manager_boot).
Proof.
  split; [done|..].
  - intros d. cbn. lia.
  - intros id. cbn. lia.
Qed.

(** In every run of the session manager from boot the table keeps eight records, no
    two live sessions share a token digest and no principal has more than two live
    sessions. *)
Theorem sessions_invariant calls :
  table_inv (s_sessions (session_run sha256 session_manager_boot calls)).
Proof. apply run_inv, boot_inv. Qed.

(** ** Revocation *)

(** No live session satisfies [P]. *)
Definition absent (P : bytes -> argus_principal_t -> bool) (t : argus_session_table_t) : Prop :=
  Forall (fun r => sr_occupied r = true -> P (sr_token_digest r) (sr_principal r) = false) t.

Lemma absent_sub P t' t : sub_table t' t -> absent P t -> absent P t'.
Proof.
  intros Hs. induction Hs as [|r' r t' t Hr _ IH]; intros Ha; [constructor|].
  inversion Ha as [|? ? H1 H2]; subst. constructor; [|by apply IH].
  intros Ho. destruct Hr as [Hr|(Hr & -> & ->)]; [congruence|auto].
Qed.

Lemma revoke_where_absent P p t :
  (forall r, p r = sr_occupied r && P (sr_token_digest r) (sr_principal r)) -> absent P (revoke_where p t).2.
Proof.
  intros Hp. induction t as [|r t IH]; [constructor|]. cbn. destruct (revoke_where p t) as [n t'].
  destruct (p r) eqn:Hr; (constructor; [|done]); [done|]. intros Ho. rewrite Hp, Ho in Hr. done.
Qed.

Lemma revoke_first_absent d t : (count_where (has_digest d) t <= 1)%nat ->
  absent (fun d' _ => bool_decide (d' = d)) (revoke_first (has_digest d) t).2.
Proof.
  assert (Hz : forall t, count_where (has_digest d) t = 0%nat -> absent (fun d' _ => bool_decide (d' = d)) t).
  { intros u Hu. apply count_zero in Hu. eapply Forall_impl; [exact Hu|]. intros r Hr Ho.
    unfold has_digest in Hr. by rewrite Ho in Hr. }
  induction t as [|r t IH]; [constructor|]. cbn. destruct (has_digest d r) eqn:Hd.
  - intros Hc. constructor; [done|]. apply Hz. lia.
  - intros Hc. destruct (revoke_first (has_digest d) t) as [b t']. constructor; [|by apply IH].
    intros Ho. unfold has_digest in Hd. by rewrite Ho in Hd.
Qed.

Lemma authenticate_absent P t token now t' p i :
  absent P t -> argus_session_authenticate sha256 t token now = (ESP_OK, t', Some (p, i)) ->
  exists d, digest_secret sha256 token = Some d /\ P d p = false.
Proof.
  intros Ha Hauth. apply authenticate_spec in Hauth as (_ & _ & d & r & Hd & Hr & Hh & <- & _).
  exists d. split; [done|]. apply (absent_sub P _ _ (map_purge_sub now t)) in Ha.
  pose proof (Forall_lookup_1 _ _ _ _ Ha Hr) as Hq. cbn beta in Hq. unfold has_digest in Hh.
  apply andb_true_iff in Hh as [Ho <-%bool_decide_eq_true]. exact (Hq Ho).
Qed.

(** C29: revocation is final: after revoking a principal, an outdated security epoch or a
    token, no later authentication succeeds for that principal, with a principal of
    another epoch, or with that token, whatever calls other than the creation of a new
    session come in between. *)
Theorem revocation_is_final m calls now :
  table_inv (s_sessions m) -> Forall (fun c => creates c = false) calls -> sm_mutex m = true ->
  (forall id tok t' p i,
     argus_session_authenticate sha256
       (s_sessions (session_run sha256 (session_step sha256 m (CallRevokePrincipal id)) calls)) tok now
       = (ESP_OK, t', Some (p, i)) -> pr_identifier p <> id) /\
  (forall e tok t' p i, e <> 0 ->
     argus_session_authenticate sha256
       (s_sessions (session_run sha256 (session_step sha256 m (CallRevokeEpoch e)) calls)) tok now
       = (ESP_OK, t', Some (p, i)) -> pr_security_epoch p = e) /\
  (forall tok, (argus_session_authenticate sha256
       (s_sessions (session_run sha256 (session_step sha256 m (CallRevokeToken tok)) calls)) tok now).1.1
       <> ESP_OK).
Proof.
  intros Hinv Hcalls Hm.
  assert (Hkeep : forall P c, absent P (s_sessions (session_step sha256 m c)) ->
    absent P (s_sessions (session_run sha256 (session_step sha256 m c) calls))).
  { intros P c. apply absent_sub, run_sub, step_inv, Hinv. done. }
  split; [|split].
  - intros id tok t' p i Ha.
    assert (Hab : absent (fun _ q => bool_decide (pr_identifier q = id))
      (s_sessions (session_step sha256 m (CallRevokePrincipal id)))).
    { cbn [session_step]. unfold argus_session_manager_revoke_principal, argus_session_revoke_principal.
      rewrite Hm. cbn [negb].
      pose proof (revoke_where_absent (fun _ q => bool_decide (pr_identifier q = id)) (owned_by id)
        (s_sessions m) ltac:(done)) as H. by destruct (revoke_where (owned_by id) (s_sessions m)). }
    eapply authenticate_absent in Ha as (d & _ & Hp); [|apply Hkeep, Hab].
    by apply bool_decide_eq_false in Hp.
  - intros e tok t' p i He Ha.
    assert (Hab : absent (fun _ q => negb (pr_security_epoch q =? e))
      (s_sessions (session_step sha256 m (CallRevokeEpoch e)))).
    { cbn [session_step]. unfold argus_session_manager_revoke_epoch, argus_session_revoke_epoch.
      rewrite Hm, (proj2 (Z.eqb_neq e 0)) by done. cbn [negb].
      pose proof (revoke_where_absent (fun _ q => negb (pr_security_epoch q =? e))
        (fun r => sr_occupied r && negb (pr_security_epoch (sr_principal r) =? e))
        (s_sessions m) ltac:(done)) as H. by destruct (revoke_where _ (s_sessions m)). }
    eapply authenticate_absent in Ha as (d & _ & Hp); [|apply Hkeep, Hab].
    by apply negb_false_iff, Z.eqb_eq in Hp.
  - intros tok. destruct (digest_secret sha256 tok) as [d|] eqn:Hd.
    + assert (Hab : absent (fun d' _ => bool_decide (d' = d))
        (s_sessions (session_step sha256 m (CallRevokeToken tok)))).
      { cbn [session_step]. unfold argus_session_manager_revoke_token, argus_session_revoke_token.
        rewrite Hm, Hd. cbn [negb].
        pose proof (revoke_first_absent d (s_sessions m) (inv_unique _ Hinv d)) as H.
        by destruct (revoke_first _ (s_sessions m)). }
      destruct (argus_session_authenticate sha256 _ tok now) as [[err t'] [[p i]|]] eqn:Ha.
      * pose proof Ha as Ha'. apply authenticate_spec in Ha' as (_ & -> & _).
        eapply authenticate_absent in Ha as (d' & Hd' & Hp); [|apply Hkeep, Hab].
        rewrite Hd in Hd'. simplify_eq. by apply bool_decide_eq_false in Hp.
      * by apply authenticate_spec in Ha as (_ & ? & _).
    + destruct (argus_session_authenticate sha256 _ tok now) as [[err t'] [[p i]|]] eqn:Ha.
      * apply authenticate_spec in Ha as (_ & _ & d & r & Hd' & _). congruence.
      * by apply authenticate_spec in Ha as (_ & ? & _).
Qed.
End Runs.

(** ** A created session authenticates *)

Lemma hex_byte_check :
  forallb (fun c => bool_decide (hex_pairs [HEX (Z.shiftr c 4); HEX (Z.land c 15)] = Some [c]))
    (seqZ 0 256) = true.
Proof. vm_compute. reflexivity. Qed.

Lemma hex_byte c : 0 <= c < 256 -> hex_pairs [HEX (Z.shiftr c 4); HEX (Z.land c 15)] = Some [c].
Proof.
  intros Hc. pose proof hex_byte_check as H. rewrite forallb_forall in H.
  specialize (H c). rewrite <- list_elem_of_In, elem_of_seqZ in H. eapply bool_decide_eq_true_1, H. lia.
Qed.

Lemma hex_pairs_cons2 hi lo c l :
  hex_pairs [hi; lo] = Some [c] -> hex_pairs (hi :: lo :: l) = (fun r => c :: r) <$> hex_pairs l.
Proof.
  cbn. destruct (hex_nibble hi); [|done]. destruct (hex_nibble lo); [|done]. cbn.
  intros [= ->]. by destruct (hex_pairs l).
Qed.

Lemma hex_roundtrip l n : length l = n -> Forall (fun c => 0 <= c < 256) l ->
  hex_decode (Some (hex_encode l)) n = Some l.
Proof.
  intros <- Hl. unfold hex_decode.
  assert (Hlen : length (hex_encode l) = (length l * 2)%nat).
  { clear Hl. induction l as [|c l IH]; cbn; lia. }
  rewrite Hlen, Nat.eqb_refl. induction Hl as [|c l Hc _ IH]; [done|]. cbn [hex_encode].
  rewrite (hex_pairs_cons2 _ _ c) by (by apply hex_byte). rewrite IH; [done|].
  cbn in Hlen. lia.
Qed.

(** The generator fills the buffer it is given: 32 bytes. *)
Definition fills (random : nat -> esp_err_t * bytes) : Prop :=
  forall c err l, random c = (err, l) ->
    length l = ARGUS_SESSION_SECRET_BYTES /\ Forall (fun c => 0 <= c < 256) l.

(** A session that was created can be used: its token authenticates as exactly its
    principal at any time within the idle period, the authentication refreshes the
    activity time, and its CSRF secret is accepted at the index it returns. *)
Theorem create_then_authenticate sha256 t p now random t' creds now' :
  (forall m, is_Some (sha256 m)) -> fills random -> table_inv t ->
  argus_session_create sha256 t (Some p) now random = (ESP_OK, t', Some creds) ->
  0 < now <= now' -> now' < now + ARGUS_SESSION_IDLE_US ->
  exists i t'', argus_session_authenticate sha256 t' (Some (cr_token creds)) now' = (ESP_OK, t'', Some (p, i)) /\
    argus_session_csrf_valid sha256 t'' i (Some (cr_csrf creds)) = true /\
    argus_session_get_csrf t'' i = Some (cr_csrf creds) /\
    (exists r, t'' !! i = Some r /\ sr_last_activity_us r = now').
Proof.
  intros Hsha Hfill Hinv Hc Hnow Hidle.
  assert (Hinv' : table_inv t').
  { pose proof (create_inv sha256 t (Some p) now random Hinv) as H. by rewrite Hc in H. }
  apply create_spec in Hc as [(? & _)|(_ & i & r0 & q & token & d & csrf & c1 & c2 & [= <-] & Hi & Ho &
    Hd & _ & _ & Hr1 & Hr2 & -> & [= ->])]; [done|]. cbn [cr_token cr_csrf].
  destruct (Hfill _ _ _ Hr1) as [Hl1 Hb1]. destruct (Hfill _ _ _ Hr2) as [Hl2 Hb2].
  destruct (Hsha csrf) as [cd Hcd].
  assert (Hdig : digest_secret sha256 (Some (hex_encode token)) = Some d).
  { unfold digest_secret. by rewrite hex_roundtrip by done. }
  assert (Hdig' : digest_secret sha256 (Some (hex_encode csrf)) = Some cd).
  { unfold digest_secret. by rewrite hex_roundtrip by done. }
  set (rec := SessionRecord true d (default (zeros 32) (sha256 csrf)) (hex_encode csrf) p now now now) in *.
  set (t' := <[i := rec]> (purge now <$> t)) in *.
  assert (Hti : t' !! i = Some rec) by (apply list_lookup_insert_eq; eauto using lookup_lt_Some).
  assert (Hpi : (purge now' <$> t') !! i = Some rec).
  { rewrite list_lookup_fmap, Hti. cbn. unfold purge, expired, rec. cbn.
    unfold ARGUS_SESSION_ABSOLUTE_US, ARGUS_SESSION_IDLE_US in *.
    rewrite !(proj2 (Z.ltb_ge _ _)) by lia. by rewrite !(proj2 (Z.leb_gt _ _)) by lia. }
  assert (Hrec : has_digest d rec = true) by (unfold has_digest; cbn; by apply bool_decide_eq_true).
  destruct (argus_session_authenticate sha256 t' (Some (hex_encode token)) now') as [[err t''] [[q j]|]] eqn:Ha.
  - apply authenticate_spec in Ha as (_ & -> & d' & r & Hd' & Hr & Hh & <- & ->).
    rewrite Hdig in Hd'. simplify_eq.
    pose proof (sub_table_inv _ _ (map_purge_sub now' t') Hinv') as Hinv''.
    assert (i = j) as <- by exact (count_two (has_digest d') _ i j _ _ Hpi Hr Hrec Hh (inv_unique _ Hinv'' d')).
    rewrite Hpi in Hr. simplify_eq. exists i.
    assert (Hlt : (i < length (purge now' <$> t'))%nat) by eauto using lookup_lt_Some.
    eexists. split; [done|].
    unfold argus_session_csrf_valid, argus_session_get_csrf, occupied_at.
    rewrite list_lookup_insert_eq by done. cbn [mbind option_bind]. rewrite Hdig'. cbn.
    rewrite Hcd. cbn. split; [by apply bool_decide_eq_true|]. split; [done|]. by eexists.
  - apply authenticate_spec in Ha as (_ & _ & Hn). exfalso.
    specialize (Hn ltac:(lia) d ltac:(done) Hdig). rewrite Forall_lookup in Hn.
    specialize (Hn _ _ Hpi). congruence.
Qed.

(** ** Witnesses *)

Definition toy_sha (m : bytes) : option bytes := Some m.
Definition toy_random (c : nat) : esp_err_t * bytes := (ESP_OK, replicate 32 (Z.of_nat (S c) mod 256)).

Definition sample_table : argus_session_table_t :=
  (argus_session_create toy_sha argus_session_table_init (Some sample_admin) 1000 toy_random).1.2.

Lemma create_then_authenticate_witness :
  exists i t'', argus_session_authenticate toy_sha sample_table (Some (hex_encode (replicate 32 1))) 2000
    = (ESP_OK, t'', Some (sample_admin, i)).
Proof.
  destruct (create_then_authenticate toy_sha argus_session_table_init sample_admin 1000 toy_random
    sample_table (Credentials (hex_encode (replicate 32 1)) (hex_encode (replicate 32 2)) sample_admin 900001000)
    2000) as (i & t'' & Ha & _).
  - intros m. exists m. reflexivity.
  - intros c err l [= _ <-]. split; [reflexivity|].
    apply (Forall_replicate (fun c => 0 <= c < 256) 32). apply Z.mod_pos_bound. lia.
  - apply boot_inv.
  - vm_compute. reflexivity.
  - lia.
  - vm_compute. reflexivity.
  - exists i, t''. exact Ha.
Defined.

Lemma revocation_is_final_witness :
  let m := SessionManager true sample_table in
  (argus_session_authenticate toy_sha
     (s_sessions (session_run toy_sha
        (session_step toy_sha m (CallRevokeToken (Some (hex_encode (replicate 32 1))))) [CallMark 0 7]))
     (Some (hex_encode (replicate 32 1))) 2000).1.1 <> ESP_OK.
Proof.
  intros m.
  refine (proj2 (proj2 (revocation_is_final toy_sha m [CallMark 0 7] 2000 _ _ eq_refl)) _).
  - apply (create_inv toy_sha argus_session_table_init), boot_inv.
  - repeat constructor.
Defined.
