(* ===== verification/BrowserCommand.v ===== *)
(** * The browser command decoder

    [src/main/argus_browser_command.c]: the strict, bounded decoder for the JSON body
    of a browser command request.  The parser is the list of the bytes from its
    position to the end of the body. *)

From S2P Require Import Prelude CmdParser.

Definition ARGUS_BROWSER_COMMAND_MAX_BODY_LEN : nat := 192.
Definition ARGUS_BROWSER_COMMAND_MAX_TARGET_RPM_MILLI : Z := 200000.

Inductive argus_browser_command_decode_result_t :=
| ARGUS_BROWSER_CMD_DECODE_OK
| ARGUS_BROWSER_CMD_DECODE_INVALID_ARGUMENT
| ARGUS_BROWSER_CMD_DECODE_EMPTY_BODY
| ARGUS_BROWSER_CMD_DECODE_BODY_TOO_LARGE
| ARGUS_BROWSER_CMD_DECODE_TOP_LEVEL_NOT_OBJECT
| ARGUS_BROWSER_CMD_DECODE_MALFORMED_JSON
| ARGUS_BROWSER_CMD_DECODE_DUPLICATE_FIELD
| ARGUS_BROWSER_CMD_DECODE_UNKNOWN_FIELD
| ARGUS_BROWSER_CMD_DECODE_MISSING_FIELD
| ARGUS_BROWSER_CMD_DECODE_INVALID_TYPE
| ARGUS_BROWSER_CMD_DECODE_UNSUPPORTED_COMMAND
| ARGUS_BROWSER_CMD_DECODE_VALUE_OUT_OF_RANGE
| ARGUS_BROWSER_CMD_DECODE_UNEXPECTED_FIELD.

#[export] Instance browser_result_eq_dec : EqDecision argus_browser_command_decode_result_t.
Proof. solve_decision. Defined.

(** The command type [(argus_cmd_type_t)-1] of an invalidated request is [None]. *)
Record argus_browser_command_request_t := BrowserRequest {
  br_is_valid : bool;
  br_command_type : option argus_cmd_type_t;
  br_target_rpm_milli : Z;
  br_forward : bool
}.

#[export] Instance eta_browser_request : Eta argus_browser_command_request_t := fun r =>
  BrowserRequest (br_is_valid r) (br_command_type r) (br_target_rpm_milli r) (br_forward r).

Definition invalidate_request : argus_browser_command_request_t := BrowserRequest false None 0 false.

(** A value with the rest of the input, or a decode error. *)
Inductive parsed (A : Type) :=
| POk (a : A) (rest : bytes)
| PErr (e : argus_browser_command_decode_result_t).
Arguments POk {_} _ _.
Arguments PErr {_} _.

Definition is_json_whitespace (c : Z) : bool := (c =? 32) || (c =? 9) || (c =? 13) || (c =? 10).

Definition skip_whitespace (l : bytes) : bytes := skip_while is_json_whitespace l.

Definition is_value_delimiter (l : bytes) : bool :=
  match l with
  | [] => true
  | c :: _ => is_json_whitespace c || (c =? 44) || (c =? 125)
  end.

(** ** Strings *)

(** -1 is [None]. *)
Definition hex_value (c : Z) : option Z :=
  if in_range 48 57 c then Some (c - 48)
  else if in_range 97 102 c then Some (c - 97 + 10)
  else if in_range 65 70 c then Some (c - 65 + 10) else None.

(** The four digits of a quad; the caller has matched that there are four. *)
Definition parse_hex_quad (a b c d : Z) : option Z :=
  a ← hex_value a; b ← hex_value b; c ← hex_value c; d ← hex_value d;
  Some (Z.lor (Z.shiftl (Z.lor (Z.shiftl (Z.lor (Z.shiftl a 4) b) 4) c) 4) d).

(** [out] is what the buffer holds so far. *)
Definition append_byte (out_size : nat) (out : bytes) (value : Z) : option bytes :=
  if (value =? 0) || (out_size <=? length out + 1)%nat then None else Some (out ++ [value]).

Definition append_codepoint (out_size : nat) (out : bytes) (cp : Z) : option bytes :=
  if (cp =? 0) || (1114111 <? cp) || in_range 55296 57343 cp then None
  else if cp <=? 127 then append_byte out_size out cp
  else if cp <=? 2047 then
    out ← append_byte out_size out (Z.lor 192 (Z.shiftr cp 6));
    append_byte out_size out (Z.lor 128 (Z.land cp 63))
  else if cp <=? 65535 then
    out ← append_byte out_size out (Z.lor 224 (Z.shiftr cp 12));
    out ← append_byte out_size out (Z.lor 128 (Z.land (Z.shiftr cp 6) 63));
    append_byte out_size out (Z.lor 128 (Z.land cp 63))
  else
    out ← append_byte out_size out (Z.lor 240 (Z.shiftr cp 18));
    out ← append_byte out_size out (Z.lor 128 (Z.land (Z.shiftr cp 12) 63));
    out ← append_byte out_size out (Z.lor 128 (Z.land (Z.shiftr cp 6) 63));
    append_byte out_size out (Z.lor 128 (Z.land cp 63)).

(** The single-character escapes. *)
Definition simple_escape (escape : Z) : option Z :=
  if (escape =? 34) || (escape =? 92) || (escape =? 47) then Some escape
  else if escape =? 98 then Some 8
  else if escape =? 102 then Some 12
  else if escape =? 110 then Some 10
  else if escape =? 114 then Some 13
  else if escape =? 116 then Some 9
  else None.

(** The loop of [parse_json_string] after the opening quote. *)
Fixpoint string_loop (out_size : nat) (out l : bytes) {struct l} : option (bytes * bytes) :=
  match l with
  | [] => None
  | ch :: l =>
      if ch =? 34 then Some (out, l)
      else if ch <? 32 then None
      else if negb (ch =? 92) then
        match append_byte out_size out ch with
        | Some out => string_loop out_size out l
        | None => None
        end
      else
        match l with
        | [] => None
        | escape :: l =>
            match simple_escape escape with
            | Some v =>
                match append_byte out_size out v with
                | Some out => string_loop out_size out l
                | None => None
                end
            | None =>
                if negb (escape =? 117) then None
                else
                  match l with
                  | a :: b :: c :: d :: l =>
                      match parse_hex_quad a b c d with
                      | None => None
                      | Some cp =>
                          if in_range 55296 56319 cp then
                            match l with
                            | s1 :: s2 :: e :: f :: g :: h :: l =>
                                if negb ((s1 =? 92) && (s2 =? 117)) then None
                                else
                                  match parse_hex_quad e f g h with
                                  | None => None
                                  | Some low =>
                                      if negb (in_range 56320 57343 low) then None
                                      else
                                        match append_codepoint out_size out
                                                (65536 + Z.shiftl (cp - 55296) 10 + (low - 56320)) with
                                        | Some out => string_loop out_size out l
                                        | None => None
                                        end
                                  end
                            | _ => None
                            end
                          else if in_range 56320 57343 cp then None
                          else
                            match append_codepoint out_size out cp with
                            | Some out => string_loop out_size out l
                            | None => None
                            end
                      end
                  | _ => None
                  end
            end
        end
  end.

Definition parse_json_string (out_size : nat) (l : bytes) : option (bytes * bytes) :=
  match l with
  | c :: l => if negb (c =? 34) || (out_size =? 0)%nat then None else string_loop out_size [] l
  | [] => None
  end.

(** ** Values *)

Inductive argus_browser_field_t := FIELD_COMMAND | FIELD_TARGET_RPM_MILLI | FIELD_FORWARD | FIELD_UNKNOWN.

Definition identify_field (key : bytes) : argus_browser_field_t :=
  if bool_decide (key = str "command") then FIELD_COMMAND
  else if bool_decide (key = str "target_rpm_milli") then FIELD_TARGET_RPM_MILLI
  else if bool_decide (key = str "forward") then FIELD_FORWARD
  else FIELD_UNKNOWN.

Definition mappings : list (bytes * argus_cmd_type_t) :=
  [(str "set_target", ARGUS_CMD_TYPE_SET_TARGET);
   (str "start", ARGUS_CMD_TYPE_START);
   (str "stop", ARGUS_CMD_TYPE_STOP_NORMAL);
   (str "unlock", ARGUS_CMD_TYPE_UNLOCK);
   (str "estop", ARGUS_CMD_TYPE_ESTOP);
   (str "reset_estop", ARGUS_CMD_TYPE_RESET_ESTOP);
   (str "recover", ARGUS_CMD_TYPE_RECOVER)].

Definition map_command (command : bytes) : option argus_cmd_type_t :=
  snd <$> find (fun e => bool_decide (command = e.1)) mappings.

Definition parse_command_value (l : bytes) : parsed argus_cmd_type_t :=
  match l with
  | [] => PErr ARGUS_BROWSER_CMD_DECODE_MALFORMED_JSON
  | c :: _ =>
      if negb (c =? 34) then PErr ARGUS_BROWSER_CMD_DECODE_INVALID_TYPE
      else
        match parse_json_string 20 l with
        | None => PErr ARGUS_BROWSER_CMD_DECODE_MALFORMED_JSON
        | Some (command, rest) =>
            match map_command command with
            | None => PErr ARGUS_BROWSER_CMD_DECODE_UNSUPPORTED_COMMAND
            | Some ty => POk ty rest
            end
        end
  end.

(** The digit loop; [None] when the 64-bit value would overflow. *)
Fixpoint target_digits (value : Z) (l : bytes) : option (Z * bytes) :=
  match l with
  | c :: l' =>
      if isdigit c then
        if (UINT64_MAX - (c - 48)) / 10 <? value then None
        else target_digits (value * 10 + (c - 48)) l'
      else Some (value, l)
  | [] => Some (value, [])
  end.

(** What follows the digits. *)
Definition target_end (negative : bool) (value : Z) (l : bytes) : parsed Z :=
  if match l with c :: _ => (c =? 46) || (c =? 101) || (c =? 69) | [] => false end
  then PErr ARGUS_BROWSER_CMD_DECODE_INVALID_TYPE
  else if negb (is_value_delimiter l) then PErr ARGUS_BROWSER_CMD_DECODE_MALFORMED_JSON
  else if negative || (ARGUS_BROWSER_COMMAND_MAX_TARGET_RPM_MILLI <? value)
  then PErr ARGUS_BROWSER_CMD_DECODE_VALUE_OUT_OF_RANGE
  else POk (i32 value) l.

Definition parse_target_value (l : bytes) : parsed Z :=
  match l with
  | [] => PErr ARGUS_BROWSER_CMD_DECODE_MALFORMED_JSON
  | c0 :: l0 =>
      let '(negative, l) := if c0 =? 45 then (true, l0) else (false, l) in
      match l with
      | [] => PErr ARGUS_BROWSER_CMD_DECODE_MALFORMED_JSON
      | c :: l' =>
          if negb (isdigit c) then PErr ARGUS_BROWSER_CMD_DECODE_INVALID_TYPE
          else if c =? 48 then
            if match l' with d :: _ => isdigit d | [] => false end
            then PErr ARGUS_BROWSER_CMD_DECODE_MALFORMED_JSON
            else target_end negative 0 l'
          else
            match target_digits 0 l with
            | None => PErr ARGUS_BROWSER_CMD_DECODE_VALUE_OUT_OF_RANGE
            | Some (value, rest) => target_end negative value rest
            end
      end
  end.

Definition parse_forward_value (l : bytes) : parsed bool :=
  match l with
  | [] => PErr ARGUS_BROWSER_CMD_DECODE_MALFORMED_JSON
  | _ =>
      if (4 <=? length l)%nat && bool_decide (take 4 l = str "true") then
        if negb (is_value_delimiter (drop 4 l)) then PErr ARGUS_BROWSER_CMD_DECODE_MALFORMED_JSON
        else POk true (drop 4 l)
      else if (5 <=? length l)%nat && bool_decide (take 5 l = str "false") then
        if negb (is_value_delimiter (drop 5 l)) then PErr ARGUS_BROWSER_CMD_DECODE_MALFORMED_JSON
        else POk false (drop 5 l)
      else PErr ARGUS_BROWSER_CMD_DECODE_INVALID_TYPE
  end.

(** ** The decoder *)

Definition SEEN_COMMAND : Z := 1.
Definition SEEN_TARGET : Z := 2.
Definition SEEN_FORWARD : Z := 4.

Definition field_bit (f : argus_browser_field_t) : Z :=
  match f with
  | FIELD_COMMAND => SEEN_COMMAND | FIELD_TARGET_RPM_MILLI => SEEN_TARGET
  | FIELD_FORWARD => SEEN_FORWARD | FIELD_UNKNOWN => 8
  end.

(** The [switch] on the field. *)
Definition parse_field (f : argus_browser_field_t) (l : bytes) (c : argus_browser_command_request_t)
    : parsed argus_browser_command_request_t :=
  match f with
  | FIELD_COMMAND =>
      match parse_command_value l with
      | POk ty rest => POk (c <| br_command_type := Some ty |>) rest
      | PErr e => PErr e
      end
  | FIELD_TARGET_RPM_MILLI =>
      match parse_target_value l with
      | POk v rest => POk (c <| br_target_rpm_milli := v |>) rest
      | PErr e => PErr e
      end
  | FIELD_FORWARD =>
      match parse_forward_value l with
      | POk b rest => POk (c <| br_forward := b |>) rest
      | PErr e => PErr e
      end
  | FIELD_UNKNOWN => PErr ARGUS_BROWSER_CMD_DECODE_UNKNOWN_FIELD
  end.

(** The [while (true)] loop; [None] only if the fuel were spent. *)
Fixpoint fields_loop (fuel : nat) (seen : Z) (l : bytes) (c : argus_browser_command_request_t)
    : option (parsed (Z * argus_browser_command_request_t)) :=
  match fuel with
  | O => None
  | S fuel =>
      match parse_json_string 24 l with
      | None => Some (PErr ARGUS_BROWSER_CMD_DECODE_MALFORMED_JSON)
      | Some (key, l) =>
          match skip_whitespace l with
          | colon :: l =>
              if negb (colon =? 58) then Some (PErr ARGUS_BROWSER_CMD_DECODE_MALFORMED_JSON)
              else
                let l := skip_whitespace l in
                let f := identify_field key in
                match f with
                | FIELD_UNKNOWN => Some (PErr ARGUS_BROWSER_CMD_DECODE_UNKNOWN_FIELD)
                | _ =>
                    if negb (Z.land seen (field_bit f) =? 0)
                    then Some (PErr ARGUS_BROWSER_CMD_DECODE_DUPLICATE_FIELD)
                    else
                      let seen := Z.lor seen (field_bit f) in
                      match parse_field f l c with
                      | PErr e => Some (PErr e)
                      | POk c l =>
                          match skip_whitespace l with
                          | [] => Some (PErr ARGUS_BROWSER_CMD_DECODE_MALFORMED_JSON)
                          | ch :: l =>
                              if ch =? 125 then Some (POk (seen, c) l)
                              else if negb (ch =? 44) then Some (PErr ARGUS_BROWSER_CMD_DECODE_MALFORMED_JSON)
                              else fields_loop fuel seen (skip_whitespace l) c
                          end
                      end
                end
          | [] => Some (PErr ARGUS_BROWSER_CMD_DECODE_MALFORMED_JSON)
          end
      end
  end.

(** The checks after the object. *)
Definition finish (seen : Z) (c : argus_browser_command_request_t) (rest : bytes)
    : argus_browser_command_decode_result_t * argus_browser_command_request_t :=
  match skip_whitespace rest with
  | _ :: _ => (ARGUS_BROWSER_CMD_DECODE_MALFORMED_JSON, invalidate_request)
  | [] =>
      if Z.land seen SEEN_COMMAND =? 0 then (ARGUS_BROWSER_CMD_DECODE_MISSING_FIELD, invalidate_request)
      else if bool_decide (br_command_type c = Some ARGUS_CMD_TYPE_SET_TARGET) then
        if negb (Z.land seen (Z.lor SEEN_TARGET SEEN_FORWARD) =? Z.lor SEEN_TARGET SEEN_FORWARD)
        then (ARGUS_BROWSER_CMD_DECODE_MISSING_FIELD, invalidate_request)
        else (ARGUS_BROWSER_CMD_DECODE_OK, c <| br_is_valid := true |>)
      else if negb (Z.land seen (Z.lor SEEN_TARGET SEEN_FORWARD) =? 0)
      then (ARGUS_BROWSER_CMD_DECODE_UNEXPECTED_FIELD, invalidate_request)
      else (ARGUS_BROWSER_CMD_DECODE_OK, c <| br_is_valid := true |>)
  end.

(** Four rounds are enough: there are three fields and a repeated one ends the loop.
    [None] is the spent fuel. *)
Definition argus_browser_command_decode (body : bytes)
    : option (argus_browser_command_decode_result_t * argus_browser_command_request_t) :=
  if (ARGUS_BROWSER_COMMAND_MAX_BODY_LEN <? length body)%nat
  then Some (ARGUS_BROWSER_CMD_DECODE_BODY_TOO_LARGE, invalidate_request)
  else
    match skip_whitespace body with
    | [] => Some (ARGUS_BROWSER_CMD_DECODE_EMPTY_BODY, invalidate_request)
    | c :: l =>
        if negb (c =? 123) then Some (ARGUS_BROWSER_CMD_DECODE_TOP_LEVEL_NOT_OBJECT, invalidate_request)
        else
          match skip_whitespace l with
          | [] => Some (ARGUS_BROWSER_CMD_DECODE_MALFORMED_JSON, invalidate_request)
          | ch :: l' =>
              if ch =? 125 then Some (finish 0 invalidate_request l')
              else
                match fields_loop 4 0 (ch :: l') invalidate_request with
                | None => None
                | Some (PErr e) => Some (e, invalidate_request)
                | Some (POk (seen, c) rest) => Some (finish seen c rest)
                end
          end
    end.

(** ** The loop ends *)

(** A mask with one bit tests that bit. *)
Lemma land_bit s k : 0 <= k -> (Z.land s (2 ^ k) =? 0) = negb (Z.testbit s k).
Proof.
  intros Hk. destruct (Z.testbit s k) eqn:Hs; cbn.
  - apply Z.eqb_neq. intros H. assert (Hb : Z.testbit (Z.land s (2 ^ k)) k = false) by (by rewrite H, Z.bits_0).
    rewrite Z.land_spec, Hs, Z.pow2_bits_true in Hb by done. done.
  - apply Z.eqb_eq, Z.bits_inj'. intros n Hn. rewrite Z.land_spec, Z.bits_0.
    destruct (decide (n = k)) as [->|]; [by rewrite Hs|]. rewrite Z.pow2_bits_false by done. apply andb_false_r.
Qed.

(** The bit number of a known field. *)
Definition field_index (f : argus_browser_field_t) : Z :=
  match f with FIELD_COMMAND => 0 | FIELD_TARGET_RPM_MILLI => 1 | FIELD_FORWARD => 2 | FIELD_UNKNOWN => 3 end.

Lemma field_bit_index f : field_bit f = 2 ^ field_index f.
Proof. by destruct f. Qed.

Lemma testbit_lor_field seen f n : 0 <= n ->
  Z.testbit (Z.lor seen (field_bit f)) n = Z.testbit seen n || (n =? field_index f).
Proof.
  intros Hn. rewrite Z.lor_spec, field_bit_index, Z.pow2_bits_eqb by (destruct f; cbn; lia).
  by rewrite Z.eqb_sym.
Qed.

Lemma unseen_field seen f : negb (Z.land seen (field_bit f) =? 0) = false ->
  Z.testbit seen (field_index f) = false.
Proof. rewrite field_bit_index, land_bit by (destruct f; cbn; lia). by destruct (Z.testbit _ _). Qed.

(** The fields not seen yet. *)
Definition unseen (seen : Z) : nat :=
  (if Z.testbit seen 0 then 0 else 1) + (if Z.testbit seen 1 then 0 else 1)
  + (if Z.testbit seen 2 then 0 else 1).

Lemma unseen_decreases seen f : f <> FIELD_UNKNOWN -> Z.testbit seen (field_index f) = false ->
  unseen seen = S (unseen (Z.lor seen (field_bit f))).
Proof.
  intros Hf Hs. unfold unseen. rewrite !testbit_lor_field by lia.
  destruct f; try done; cbn in *; rewrite Hs, ?orb_true_r, ?orb_false_r; lia.
Qed.

(** Errors are never the code for success. *)
Lemma parse_command_error l e : parse_command_value l = PErr e -> e <> ARGUS_BROWSER_CMD_DECODE_OK.
Proof. unfold parse_command_value. intros H ->. repeat case_match; done. Qed.

Lemma target_end_error neg v l e : target_end neg v l = PErr e -> e <> ARGUS_BROWSER_CMD_DECODE_OK.
Proof. unfold target_end. intros H ->. destruct (match l with [] => _ | _ => _ end); [done|].
  destruct (negb _); [done|]. by destruct (neg || _). Qed.

Lemma parse_target_error l e : parse_target_value l = PErr e -> e <> ARGUS_BROWSER_CMD_DECODE_OK.
Proof.
  unfold parse_target_value. destruct l as [|c0 l0]; [by intros [= <-]|].
  destruct (if c0 =? 45 then (true, l0) else (false, c0 :: l0)) as [neg [|c l']]; [by intros [= <-]|].
  destruct (negb (isdigit c)); [by intros [= <-]|]. destruct (c =? 48).
  - destruct (match l' with [] => _ | _ => _ end); [by intros [= <-]|]. apply target_end_error.
  - destruct (target_digits 0 (c :: l')) as [[v0 r0]|]; [apply target_end_error|by intros [= <-]].
Qed.

Lemma parse_forward_error l e : parse_forward_value l = PErr e -> e <> ARGUS_BROWSER_CMD_DECODE_OK.
Proof. unfold parse_forward_value. intros H ->. repeat case_match; done. Qed.

Lemma parse_field_error f l c e : parse_field f l c = PErr e -> e <> ARGUS_BROWSER_CMD_DECODE_OK.
Proof.
  destruct f; cbn [parse_field].
  - destruct (parse_command_value l) eqn:H; [done|]. intros [= <-]. by apply parse_command_error in H.
  - destruct (parse_target_value l) eqn:H; [done|]. intros [= <-]. by apply parse_target_error in H.
  - destruct (parse_forward_value l) eqn:H; [done|]. intros [= <-]. by apply parse_forward_error in H.
  - by intros [= <-].
Qed.

(** What a round of the loop that reads a known field does. *)
Lemma fields_loop_round fuel seen l c :
  (exists e, fields_loop (S fuel) seen l c = Some (PErr e) /\ e <> ARGUS_BROWSER_CMD_DECODE_OK) \/
  exists f l1 l2 c', f <> FIELD_UNKNOWN /\ Z.testbit seen (field_index f) = false /\
    parse_field f l1 c = POk c' l2 /\
    ((exists rest, fields_loop (S fuel) seen l c = Some (POk (Z.lor seen (field_bit f), c') rest)) \/
     (exists l3, fields_loop (S fuel) seen l c = fields_loop fuel (Z.lor seen (field_bit f)) l3 c')).
Proof.
  cbn [fields_loop]. destruct (parse_json_string 24 l) as [[key l1]|]; [|left; eexists; split; [reflexivity|discriminate]].
  destruct (skip_whitespace l1) as [|colon l2]; [left; eexists; split; [reflexivity|discriminate]|].
  destruct (negb (colon =? 58)); [left; eexists; split; [reflexivity|discriminate]|]. cbv zeta.
  assert (Hf : identify_field key = FIELD_UNKNOWN \/ identify_field key <> FIELD_UNKNOWN)
    by (destruct (identify_field key); auto).
  destruct Hf as [->|Hf]; [left; eexists; split; [reflexivity|discriminate]|].
  destruct (negb (Z.land seen (field_bit (identify_field key)) =? 0)) eqn:Hs.
  { left. eexists. split; [by destruct (identify_field key)|discriminate]. }
  destruct (parse_field (identify_field key) (skip_whitespace l2) c) as [c' l3|e] eqn:Hp.
  2: { left. exists e. split; [by destruct (identify_field key)|by eapply parse_field_error]. }
  destruct (skip_whitespace l3) as [|ch l4] eqn:Hl3.
  { left. eexists. split; [by destruct (identify_field key)|discriminate]. }
  destruct (ch =? 125) eqn:H125.
  { right. exists (identify_field key), (skip_whitespace l2), l3, c'.
    split; [done|]. split; [by apply unseen_field|]. split; [done|]. left. exists l4.
    by destruct (identify_field key). }
  destruct (negb (ch =? 44)).
  { left. eexists. split; [by destruct (identify_field key)|discriminate]. }
  right. exists (identify_field key), (skip_whitespace l2), l3, c'.
  split; [done|]. split; [by apply unseen_field|]. split; [done|]. right. exists (skip_whitespace l4).
  by destruct (identify_field key).
Qed.

Lemma fields_loop_total fuel seen l c : (unseen seen < fuel)%nat -> fields_loop fuel seen l c <> None.
Proof.
  revert seen l c. induction fuel as [|fuel IH]; intros seen l c Hu; [lia|].
  destruct (fields_loop_round fuel seen l c) as [(e & -> & _)|(f & l1 & l2 & c' & Hf & Hs & _ & [[rest ->]|[l3 ->]])];
    [done|done|].
  apply IH. rewrite (unseen_decreases seen f Hf Hs) in Hu. lia.
Qed.

(** ** What is accepted *)

(** The meaning of the seen bits. *)
Record request_inv (seen : Z) (c : argus_browser_command_request_t) : Prop := {
  ri_command : Z.testbit seen 0 = true -> is_Some (br_command_type c);
  ri_target : 0 <= br_target_rpm_milli c <= ARGUS_BROWSER_COMMAND_MAX_TARGET_RPM_MILLI;
  ri_target0 : Z.testbit seen 1 = false -> br_target_rpm_milli c = 0;
  ri_forward0 : Z.testbit seen 2 = false -> br_forward c = false
}.

Lemma target_digits_nonneg v l v' l' : 0 <= v -> target_digits v l = Some (v', l') -> 0 <= v'.
Proof.
  revert v. induction l as [|c l IH]; intros v Hv; cbn; [by intros [= <- _]|].
  destruct (isdigit c) eqn:Hc; [|by intros [= <- _]]. apply in_range_spec in Hc.
  destruct (_ <? v); [done|]. apply IH. lia.
Qed.

Lemma target_end_range neg v l v' l' : 0 <= v -> target_end neg v l = POk v' l' ->
  0 <= v' <= ARGUS_BROWSER_COMMAND_MAX_TARGET_RPM_MILLI.
Proof.
  intros Hv. unfold target_end. destruct (match l with [] => _ | _ => _ end); [done|].
  destruct (negb _); [done|]. destruct (neg || _) eqn:Hn; [done|].
  apply orb_false_iff in Hn as [_ Hn%Z.ltb_ge]. intros [= <- _].
  unfold ARGUS_BROWSER_COMMAND_MAX_TARGET_RPM_MILLI in *. rewrite i32_small by (unfold is_i32; lia). lia.
Qed.

Lemma parse_target_range l v rest : parse_target_value l = POk v rest ->
  0 <= v <= ARGUS_BROWSER_COMMAND_MAX_TARGET_RPM_MILLI.
Proof.
  unfold parse_target_value. destruct l as [|c0 l0]; [done|].
  destruct (if c0 =? 45 then (true, l0) else (false, c0 :: l0)) as [neg [|c l']]; [done|].
  destruct (negb (isdigit c)); [done|]. destruct (c =? 48).
  - destruct (match l' with [] => _ | _ => _ end); [done|]. by apply target_end_range.
  - destruct (target_digits 0 (c :: l')) as [[v0 r0]|] eqn:Hd; [|done].
    apply target_end_range. by apply target_digits_nonneg in Hd.
Qed.

Lemma parse_field_inv seen f l c c' rest : f <> FIELD_UNKNOWN ->
  parse_field f l c = POk c' rest -> request_inv seen c -> request_inv (Z.lor seen (field_bit f)) c'.
Proof.
  intros Hf Hp []. destruct f; [..|done]; cbn [parse_field] in Hp.
  - destruct (parse_command_value l); [|done]. simplify_eq.
    split; rewrite ?testbit_lor_field by lia; cbn; rewrite ?orb_false_r; eauto.
  - destruct (parse_target_value l) eqn:Ht; [|done]. simplify_eq. apply parse_target_range in Ht.
    split; rewrite ?testbit_lor_field by lia; cbn; rewrite ?orb_false_r, ?orb_true_r; done.
  - destruct (parse_forward_value l); [|done]. simplify_eq.
    split; rewrite ?testbit_lor_field by lia; cbn; rewrite ?orb_false_r, ?orb_true_r; done.
Qed.

Lemma fields_loop_inv fuel seen l c seen' c' rest :
  fields_loop fuel seen l c = Some (POk (seen', c') rest) -> request_inv seen c -> request_inv seen' c'.
Proof.
  revert seen l c. induction fuel as [|fuel IH]; intros seen l c; [done|].
  destruct (fields_loop_round fuel seen l c) as [(e & -> & _)|(f & l1 & l2 & c1 & Hf & _ & Hp & [[r ->]|[l3 ->]])]; [done|..];
    intros H Hi; pose proof (parse_field_inv seen f l1 c c1 l2 Hf Hp Hi) as Hi'.
  - by simplify_eq.
  - by eapply IH.
Qed.

Lemma fields_loop_error fuel seen l c e :
  fields_loop fuel seen l c = Some (PErr e) -> e <> ARGUS_BROWSER_CMD_DECODE_OK.
Proof.
  revert seen l c. induction fuel as [|fuel IH]; intros seen l c; [done|].
  destruct (fields_loop_round fuel seen l c) as [(e' & -> & He)|(f & l1 & l2 & c1 & _ & _ & _ & [[r ->]|[l3 ->]])];
    [by intros [= <-]|done|apply IH].
Qed.

Lemma land6 seen :
  (Z.land seen (Z.lor SEEN_TARGET SEEN_FORWARD) =? 0) = negb (Z.testbit seen 1) && negb (Z.testbit seen 2).
Proof.
  unfold SEEN_TARGET, SEEN_FORWARD. rewrite Z.land_lor_distr_r.
  rewrite <- (land_bit seen 1), <- (land_bit seen 2) by lia.
  change (2 ^ 1) with 2. change (2 ^ 2) with 4.
  destruct (Z.eqb_spec (Z.land seen 2) 0) as [->|H2]; cbn [andb]; [done|].
  apply Z.eqb_neq. intros [H _]%Z.lor_eq_0_iff. done.
Qed.

(** A request is dispatchable: a command, and a target only for SET_TARGET. *)
Definition dispatchable (r : argus_browser_command_request_t) : Prop :=
  br_is_valid r = true /\
  match br_command_type r with
  | None => False
  | Some ARGUS_CMD_TYPE_SET_TARGET => 0 <= br_target_rpm_milli r <= ARGUS_BROWSER_COMMAND_MAX_TARGET_RPM_MILLI
  | Some _ => br_target_rpm_milli r = 0 /\ br_forward r = false
  end.

Lemma finish_sound seen c rest : request_inv seen c ->
  let '(e, r) := finish seen c rest in
  (e = ARGUS_BROWSER_CMD_DECODE_OK /\ dispatchable r) \/
  (e <> ARGUS_BROWSER_CMD_DECODE_OK /\ r = invalidate_request).
Proof.
  intros []. unfold finish. destruct (skip_whitespace rest); [|by right].
  change SEEN_COMMAND with (2 ^ 0). rewrite land_bit by lia.
  destruct (Z.testbit seen 0); cbn [negb]; [|by right]. destruct (ri_command0 eq_refl) as [ty Hty].
  destruct (bool_decide_reflect (br_command_type c = Some ARGUS_CMD_TYPE_SET_TARGET)) as [Hs|Hs].
  - destruct (negb _); [by right|]. left. split; [done|]. split; [done|]. cbn. by rewrite Hs.
  - rewrite land6. destruct (Z.testbit seen 1) eqn:H1, (Z.testbit seen 2) eqn:H2; try (by right).
    left. split; [done|]. split; [done|]. cbn. rewrite Hty in *. destruct ty; auto.
Qed.

(** The browser decoder is total and fail-safe: on every body it returns, an accepted
    body gives a dispatchable request (a known command, with a target between 0 and
    200000 for SET_TARGET and no target or direction for any other), and on every
    failure the request is reset to the invalid one. *)
Theorem browser_decode_sound body :
  exists e r, argus_browser_command_decode body = Some (e, r) /\
    ((e = ARGUS_BROWSER_CMD_DECODE_OK /\ dispatchable r) \/
     (e <> ARGUS_BROWSER_CMD_DECODE_OK /\ r = invalidate_request)).
Proof.
  assert (H0 : request_inv 0 invalidate_request) by (split; cbn; done || lia).
  unfold argus_browser_command_decode.
  destruct (_ <? _)%nat; [by eexists _, _; split; [done|right]|].
  destruct (skip_whitespace body) as [|c l]; [by eexists _, _; split; [done|right]|].
  destruct (negb _); [by eexists _, _; split; [done|right]|].
  destruct (skip_whitespace l) as [|ch l']; [by eexists _, _; split; [done|right]|].
  destruct (ch =? 125).
  { pose proof (finish_sound 0 _ l' H0) as Hf. destruct (finish 0 invalidate_request l') as [e r]. eauto. }
  pose proof (fields_loop_total 4 0 (ch :: l') invalidate_request ltac:(cbn; lia)) as Ht.
  destruct (fields_loop 4 0 (ch :: l') invalidate_request) as [[[seen c'] rest|e]|] eqn:Hl; [..|done].
  - apply fields_loop_inv in Hl; [|done]. pose proof (finish_sound seen c' rest Hl) as Hf.
    destruct (finish seen c' rest) as [e r]. eauto.
  - apply fields_loop_error in Hl. eexists _, _. split; [done|by right].
Qed.

(** ** Round trip *)

Definition command_name (ty : argus_cmd_type_t) : bytes :=
  match ty with
  | ARGUS_CMD_TYPE_SET_TARGET => str "set_target"
  | ARGUS_CMD_TYPE_START => str "start"
  | ARGUS_CMD_TYPE_STOP_NORMAL => str "stop"
  | ARGUS_CMD_TYPE_UNLOCK => str "unlock"
  | ARGUS_CMD_TYPE_ESTOP => str "estop"
  | ARGUS_CMD_TYPE_RESET_ESTOP => str "reset_estop"
  | ARGUS_CMD_TYPE_RECOVER => str "recover"
  end.

(** The rest of a SET_TARGET body after the command. *)
Definition target_json (n : Z) (forward : bool) : bytes :=
  44 :: quoted (str "target_rpm_milli") ++ 58 :: decimal n ++ 44 ::
  quoted (str "forward") ++ 58 :: (if forward then str "true" else str "false") ++ [125].

(** The canonical body of a request. *)
Definition request_json (ty : argus_cmd_type_t) (n : Z) (forward : bool) : bytes :=
  123 :: quoted (str "command") ++ 58 :: quoted (command_name ty) ++
  match ty with ARGUS_CMD_TYPE_SET_TARGET => target_json n forward | _ => [125] end.

Lemma target_digits_app v ds rest :
  all isdigit ds -> 0 <= v -> match rest with c :: _ => isdigit c = false | [] => True end ->
  v * 10 ^ Z.of_nat (length ds) + digits_value ds <= ARGUS_BROWSER_COMMAND_MAX_TARGET_RPM_MILLI ->
  target_digits v (ds ++ rest) = Some (v * 10 ^ Z.of_nat (length ds) + digits_value ds, rest).
Proof.
  intros Hd. revert v. induction Hd as [|c ds Hc Hds IH]; intros v Hv He Hle.
  - replace (v * 10 ^ Z.of_nat (@length Z []) + digits_value []) with v by (unfold digits_value; cbn; lia).
    destruct rest as [|c rest]; [done|]. cbn. by rewrite He.
  - cbn [app target_digits]. rewrite Hc. apply in_range_spec in Hc.
    assert (Hp : digits_value (c :: ds) = (c - 48) * 10 ^ Z.of_nat (length ds) + digits_value ds).
    { unfold digits_value at 1. cbn [foldl]. rewrite foldl_digits. lia. }
    assert (0 <= digits_value ds) by (by apply digits_value_nonneg).
    assert (Hpow : 10 ^ Z.of_nat (length (c :: ds)) = 10 * 10 ^ Z.of_nat (length ds)).
    { cbn [length]. rewrite Nat2Z.inj_succ, Z.pow_succ_r by lia. done. }
    assert (1 <= 10 ^ Z.of_nat (length ds)) by (apply (Z.pow_le_mono_r 10 0); lia).
    unfold ARGUS_BROWSER_COMMAND_MAX_TARGET_RPM_MILLI in *. rewrite Hp, Hpow in *.
    assert (v <= 20000) by nia.
    destruct (Z.ltb_spec ((UINT64_MAX - (c - 48)) / 10) v) as [Hlt|_].
    { exfalso. assert (20000 <= (UINT64_MAX - (c - 48)) / 10); [|lia].
      apply Z.div_le_lower_bound; unfold UINT64_MAX; lia. }
    rewrite IH by (try done; nia). f_equal. f_equal. nia.
Qed.

Lemma target_end_ok v rest :
  0 <= v <= ARGUS_BROWSER_COMMAND_MAX_TARGET_RPM_MILLI -> target_end false v (44 :: rest) = POk v (44 :: rest).
Proof.
  intros Hv. unfold target_end. cbn. rewrite (proj2 (Z.ltb_ge _ v)) by lia.
  unfold ARGUS_BROWSER_COMMAND_MAX_TARGET_RPM_MILLI in *. by rewrite i32_small by (unfold is_i32; lia).
Qed.

Lemma parse_target_decimal n rest :
  0 <= n <= ARGUS_BROWSER_COMMAND_MAX_TARGET_RPM_MILLI ->
  parse_target_value (decimal n ++ 44 :: rest) = POk n (44 :: rest).
Proof.
  intros Hn. destruct (decimal_spec n) as (c & ds & -> & Ha & Hv & Hz).
  { unfold ARGUS_BROWSER_COMMAND_MAX_TARGET_RPM_MILLI in *. lia. }
  assert (Hc : isdigit c = true) by (by inversion Ha). pose proof Hc as Hr. apply in_range_spec in Hr.
  unfold parse_target_value. cbn [app]. rewrite (proj2 (Z.eqb_neq c 45)) by lia. rewrite Hc. cbn [negb].
  destruct (Z.eqb_spec c 48) as [H48|H48].
  - destruct (Hz H48) as [-> ->]. by vm_compute.
  - change (c :: ds ++ 44 :: rest) with ((c :: ds) ++ 44 :: rest).
    rewrite target_digits_app; [|done|lia|done|rewrite Hv; lia]. rewrite Hv. cbn [Z.mul Z.add].
    by apply target_end_ok.
Qed.

Lemma decimal_starts n rest : 0 <= n < 18446744073709551616 ->
  skip_whitespace (decimal n ++ rest) = decimal n ++ rest.
Proof.
  intros Hn. destruct (decimal_spec n Hn) as (c & ds & -> & Ha & _).
  assert (Hc : isdigit c = true) by (by inversion Ha). apply in_range_spec in Hc.
  unfold skip_whitespace. cbn. unfold is_json_whitespace.
  by repeat (rewrite (proj2 (Z.eqb_neq c _)) by lia).
Qed.

(** One field in canonical form. *)
Lemma fields_loop_field fuel seen key l c f c' sep rest :
  parse_json_string 24 (quoted key ++ 58 :: l) = Some (key, 58 :: l) ->
  skip_whitespace l = l -> identify_field key = f -> f <> FIELD_UNKNOWN ->
  Z.land seen (field_bit f) = 0 -> parse_field f l c = POk c' (sep :: rest) -> sep = 44 \/ sep = 125 ->
  fields_loop (S fuel) seen (quoted key ++ 58 :: l) c =
    if sep =? 125 then Some (POk (Z.lor seen (field_bit f), c') rest)
    else fields_loop fuel (Z.lor seen (field_bit f)) (skip_whitespace rest) c'.
Proof.
  intros Hk Hl Hf Hn Hs Hp Hsep. cbn [fields_loop]. rewrite Hk.
  change (skip_whitespace (58 :: l)) with (58 :: l). cbn [negb Z.eqb Pos.eqb].
  cbv zeta. rewrite Hl, Hf, Hs. cbn [negb Z.eqb]. rewrite Hp.
  replace (skip_whitespace (sep :: rest)) with (sep :: rest) by (destruct Hsep; by subst).
  destruct f; try done; destruct Hsep; by subst.
Qed.

(** The decoder on an object that starts with a string. *)
Lemma decode_object_body m seen c :
  (length (123%Z :: 34%Z :: m) <= ARGUS_BROWSER_COMMAND_MAX_BODY_LEN)%nat ->
  fields_loop 4 0 (34 :: m) invalidate_request = Some (POk (seen, c) []) ->
  argus_browser_command_decode (123 :: 34 :: m) = Some (finish seen c []).
Proof.
  intros Hl Hf. unfold argus_browser_command_decode. rewrite (proj2 (Nat.ltb_ge _ _)) by exact Hl.
  change (skip_whitespace (123 :: 34 :: m)) with (123 :: 34 :: m). cbn [negb Z.eqb Pos.eqb].
  change (skip_whitespace (34 :: m)) with (34 :: m). cbn [Z.eqb Pos.eqb]. by rewrite Hf.
Qed.

(** Every dispatchable request in canonical JSON decodes to itself: for each of the
    seven commands, every target from 0 to 200000 and both directions. *)
Theorem browser_roundtrip ty n forward :
  0 <= n <= ARGUS_BROWSER_COMMAND_MAX_TARGET_RPM_MILLI ->
  argus_browser_command_decode (request_json ty n forward) =
  Some (ARGUS_BROWSER_CMD_DECODE_OK,
        match ty with
        | ARGUS_CMD_TYPE_SET_TARGET => BrowserRequest true (Some ty) n forward
        | _ => BrowserRequest true (Some ty) 0 false
        end).
Proof.
  intros Hn. destruct ty; [|vm_compute; reflexivity..].
  pose proof (decimal_length n) as Hd.
  assert (Hn' : 0 <= n < 18446744073709551616).
  { unfold ARGUS_BROWSER_COMMAND_MAX_TARGET_RPM_MILLI in *. lia. }
  refine (decode_object_body ((str "command" ++ [34]) ++ 58 :: quoted (str "set_target") ++ target_json n forward)
    7 (BrowserRequest false (Some ARGUS_CMD_TYPE_SET_TARGET) n forward) _ _).
  { unfold target_json, quoted. repeat (rewrite ?length_app; cbn [length]).
    unfold ARGUS_BROWSER_COMMAND_MAX_BODY_LEN. destruct forward; literal_lengths; lia. }
  change (34 :: (str "command" ++ [34]) ++ 58 :: quoted (str "set_target") ++ target_json n forward)
    with (quoted (str "command") ++ 58 :: quoted (str "set_target") ++ target_json n forward).
  rewrite (fields_loop_field 3 0 (str "command") (quoted (str "set_target") ++ target_json n forward)
    invalidate_request FIELD_COMMAND (BrowserRequest false (Some ARGUS_CMD_TYPE_SET_TARGET) 0 false) 44
    (quoted (str "target_rpm_milli") ++ 58 :: decimal n ++ 44 ::
     quoted (str "forward") ++ 58 :: (if forward then str "true" else str "false") ++ [125]));
    [|reflexivity..|discriminate|reflexivity|reflexivity|by left].
  cbn [Z.eqb Pos.eqb].
  change (skip_whitespace (quoted (str "target_rpm_milli") ++ ?l)) with (quoted (str "target_rpm_milli") ++ l).
  rewrite (fields_loop_field 2 _ (str "target_rpm_milli") (decimal n ++ 44 ::
     quoted (str "forward") ++ 58 :: (if forward then str "true" else str "false") ++ [125])
    _ FIELD_TARGET_RPM_MILLI (BrowserRequest false (Some ARGUS_CMD_TYPE_SET_TARGET) n false) 44
    (quoted (str "forward") ++ 58 :: (if forward then str "true" else str "false") ++ [125]));
    [|reflexivity|by apply decimal_starts|reflexivity|discriminate|reflexivity| |by left].
  2: { cbn [parse_field]. by rewrite parse_target_decimal. }
  cbn [Z.eqb Pos.eqb]. by destruct forward.
Qed.

Lemma browser_roundtrip_witness :
  argus_browser_command_decode (request_json ARGUS_CMD_TYPE_SET_TARGET 60000 true)
  = Some (ARGUS_BROWSER_CMD_DECODE_OK, BrowserRequest true (Some ARGUS_CMD_TYPE_SET_TARGET) 60000 true).
Proof. apply (browser_roundtrip ARGUS_CMD_TYPE_SET_TARGET). unfold ARGUS_BROWSER_COMMAND_MAX_TARGET_RPM_MILLI. lia. Defined.
