(* ===== verification/MqttWire.v ===== *)
(** * The MQTT wire format of the broker

    The packet helpers of [src/main/argus_mqtt_broker.c]: the remaining-length codec,
    the field readers, the CONNECT parser, the topic filter, the PUBLISH packets the
    broker sends, and the retained store.  A packet is the list of its bytes; an offset
    into it is the list of the bytes from there on.  What a socket delivers is a list of
    bytes that may end early. *)

From S2P Require Import Prelude.

Definition ARGUS_MQTT_MAX_PACKET_LEN : nat := 1024.
Definition ARGUS_MQTT_MAX_TOPIC_LEN : nat := 160.
Definition ARGUS_MQTT_MAX_PAYLOAD_LEN : nat := 385.
Definition ARGUS_MQTT_MAX_RETAINED : nat := 40.

(** ** Remaining length *)

(** [None]: the stream ended, or the fourth byte still had the continuation bit. *)
Fixpoint decode_remaining_bytes (i : nat) (multiplier value : Z) (l : bytes) : option (Z * bytes) :=
  match i with
  | O => None
  | S i =>
      match l with
      | [] => None
      | encoded :: l =>
          let value := u32 (value + u32 (Z.land encoded 127 * multiplier)) in
          if Z.land encoded 128 =? 0 then Some (value, l)
          else decode_remaining_bytes i (u32 (multiplier * 128)) value l
      end
  end.

Definition argus_mqtt_decode_remaining_length (l : bytes) : option (Z * bytes) :=
  decode_remaining_bytes 4 1 0 l.

(** The [do ... while] loop; at most four bytes. *)
Fixpoint encode_remaining_bytes (room : nat) (len : Z) : bytes :=
  match room with
  | O => []
  | S room =>
      let encoded := len mod 128 in
      let len := len / 128 in
      if 0 <? len then Z.lor encoded 128 :: encode_remaining_bytes room len else [encoded]
  end.

Definition argus_mqtt_encode_remaining_length (len : Z) : bytes := encode_remaining_bytes 4 len.

(** ** Field readers *)

Definition argus_mqtt_read_u16 (l : bytes) : option (Z * bytes) :=
  match l with
  | hi :: lo :: l => Some (u16 (Z.lor (Z.shiftl hi 8) lo), l)
  | _ => None
  end.

(** A length-prefixed field of fewer than [out_len] bytes. *)
Definition argus_mqtt_read_string (l : bytes) (out_len : nat) : option (bytes * bytes) :=
  '(string_len, l) ← argus_mqtt_read_u16 l;
  if (length l <? Z.to_nat string_len)%nat || (out_len =? 0)%nat || (out_len <=? Z.to_nat string_len)%nat
  then None
  else Some (take (Z.to_nat string_len) l, drop (Z.to_nat string_len) l).

Definition argus_mqtt_read_binary (l : bytes) (capacity : nat) : option (bytes * bytes) :=
  match l with
  | hi :: lo :: l =>
      let field_length := Z.to_nat (Z.lor (Z.shiftl hi 8) lo) in
      if (capacity <=? field_length)%nat || (length l <? field_length)%nat then None
      else Some (take field_length l, drop field_length l)
  | _ => None
  end.

(** ** CONNECT *)

Record argus_mqtt_connect_request_t := ConnectRequest {
  rq_client_id : bytes;
  rq_username : bytes;
  rq_password : bytes;
  rq_keep_alive_s : Z
}.

Inductive argus_mqtt_connect_parse_result_t :=
| ARGUS_MQTT_CONNECT_PARSE_OK (request : argus_mqtt_connect_request_t)
| ARGUS_MQTT_CONNECT_PARSE_MALFORMED
| ARGUS_MQTT_CONNECT_PARSE_PROTOCOL
| ARGUS_MQTT_CONNECT_PARSE_FLAGS
| ARGUS_MQTT_CONNECT_PARSE_CLIENT_ID
| ARGUS_MQTT_CONNECT_PARSE_CREDENTIALS.

Definition has_nul (l : bytes) : bool := existsb (Z.eqb 0) l.

(** A field that must be present, not empty and free of NUL. *)
Definition read_text (l : bytes) (capacity : nat) : option (bytes * bytes) :=
  match argus_mqtt_read_binary l capacity with
  | Some (field, l) => if (length field =? 0)%nat || has_nul field then None else Some (field, l)
  | None => None
  end.

(** The flag byte: a clean session with user name and password, and nothing else. *)
Definition connect_flags_ok (flags : Z) : bool :=
  let username := negb (Z.land flags 128 =? 0) in
  let password := negb (Z.land flags 64 =? 0) in
  let will_retain := negb (Z.land flags 32 =? 0) in
  let will_qos := Z.land (Z.shiftr flags 3) 3 in
  let will := negb (Z.land flags 4 =? 0) in
  let clean_session := negb (Z.land flags 2 =? 0) in
  negb (negb (Z.land flags 1 =? 0) || negb clean_session || will || will_retain
        || negb (will_qos =? 0) || negb username || negb password).

Definition argus_mqtt_broker_parse_connect (packet : option bytes) : argus_mqtt_connect_parse_result_t :=
  match packet with
  | None => ARGUS_MQTT_CONNECT_PARSE_MALFORMED
  | Some p =>
      if (length p =? 0)%nat || (ARGUS_MQTT_MAX_PACKET_LEN <? length p)%nat
      then ARGUS_MQTT_CONNECT_PARSE_MALFORMED
      else
        match argus_mqtt_read_binary p 8 with
        | Some (protocol, level :: flags :: hi :: lo :: l) =>
            if negb (bool_decide (protocol = str "MQTT")) || negb (level =? 4)
            then ARGUS_MQTT_CONNECT_PARSE_PROTOCOL
            else if negb (connect_flags_ok flags) then ARGUS_MQTT_CONNECT_PARSE_FLAGS
            else
              match read_text l 33 with
              | None => ARGUS_MQTT_CONNECT_PARSE_CLIENT_ID
              | Some (client_id, l) =>
                  match read_text l 37 with
                  | None => ARGUS_MQTT_CONNECT_PARSE_CREDENTIALS
                  | Some (username, l) =>
                      match read_text l 129 with
                      | None => ARGUS_MQTT_CONNECT_PARSE_CREDENTIALS
                      | Some (password, l) =>
                          match l with
                          | [] => ARGUS_MQTT_CONNECT_PARSE_OK
                                    (ConnectRequest client_id username password
                                       (u16 (Z.lor (Z.shiftl hi 8) lo)))
                          | _ => ARGUS_MQTT_CONNECT_PARSE_MALFORMED
                          end
                      end
                  end
              end
        | _ => ARGUS_MQTT_CONNECT_PARSE_PROTOCOL
        end
  end.

(** ** Topic filters *)

Definition not_slash (c : Z) : bool := negb (c =? 47).

Fixpoint argus_mqtt_topic_matches (filter topic : bytes) : bool :=
  match filter with
  | [] => match topic with [] => true | _ => false end
  | f :: filter' =>
      match topic with
      | [] => match filter' with [] => f =? 35 | _ => false end
      | t :: topic' =>
          if f =? 35 then match filter' with [] => true | _ => false end
          else if f =? 43 then argus_mqtt_topic_matches filter' (skip_while not_slash topic)
          else if negb (f =? t) then false
          else argus_mqtt_topic_matches filter' topic'
      end
  end.

(** ** PUBLISH *)

(** [strnlen(s, cap - 1)] bytes of topic and payload; [None] is [ESP_ERR_INVALID_SIZE]. *)
Definition argus_mqtt_publish_packet (topic payload : bytes) (retain : bool) : option bytes :=
  let topic := take (ARGUS_MQTT_MAX_TOPIC_LEN - 1) topic in
  let payload := take (ARGUS_MQTT_MAX_PAYLOAD_LEN - 1) payload in
  let remaining_len := (2 + length topic + length payload)%nat in
  if (ARGUS_MQTT_MAX_PACKET_LEN <? remaining_len + 5)%nat then None
  else
    let n := Z.of_nat (length topic) in
    Some ((if retain then 49 else 48)
          :: argus_mqtt_encode_remaining_length (Z.of_nat remaining_len)
          ++ u8 (Z.shiftr n 8) :: Z.land n 255 :: topic ++ payload).

(** ** The retained store *)

Record argus_mqtt_retained_t := Retained { rt_in_use : bool; rt_topic : bytes; rt_payload : bytes }.

Definition retained_is (topic : bytes) (r : argus_mqtt_retained_t) : bool :=
  rt_in_use r && bool_decide (rt_topic r = topic).

(** The first index that satisfies [p]. *)
Fixpoint find_index {A} (p : A -> bool) (l : list A) : option nat :=
  match l with
  | [] => None
  | x :: l => if p x then Some 0%nat else S <$> find_index p l
  end.

Definition argus_mqtt_store_retained_locked (retained : list argus_mqtt_retained_t)
    (topic payload : bytes) : esp_err_t * list argus_mqtt_retained_t :=
  let slot := match find_index (retained_is topic) retained with
              | Some i => Some i
              | None => find_index (fun r => negb (rt_in_use r)) retained
              end in
  match slot with
  | None => (ESP_ERR_NO_MEM, retained)
  | Some i =>
      (ESP_OK, <[i := Retained true (strlcpy topic ARGUS_MQTT_MAX_TOPIC_LEN)
                        (strlcpy payload ARGUS_MQTT_MAX_PAYLOAD_LEN)]> retained)
  end.

Definition argus_mqtt_broker_get_retained (retained : list argus_mqtt_retained_t)
    (topic : bytes) (out_size : nat) : esp_err_t * bytes :=
  match find (retained_is topic) retained with
  | Some r => (ESP_OK, strlcpy (rt_payload r) out_size)
  | None => (ESP_ERR_NOT_FOUND, [])
  end.

(** ** Round trips *)

Lemma low_bits_check :
  forallb (fun a => (Z.land (Z.lor a 128) 127 =? a) && (Z.land a 127 =? a)
                    && negb (Z.land (Z.lor a 128) 128 =? 0) && (Z.land a 128 =? 0))
    (seqZ 0 128) = true.
Proof. vm_compute. reflexivity. Qed.

Lemma low_bits a : 0 <= a < 128 ->
  Z.land (Z.lor a 128) 127 = a /\ Z.land a 127 = a /\
  (Z.land (Z.lor a 128) 128 =? 0) = false /\ (Z.land a 128 =? 0) = true.
Proof.
  intros Ha. pose proof low_bits_check as H. rewrite forallb_forall in H.
  specialize (H a). rewrite <- list_elem_of_In, elem_of_seqZ in H. specialize (H ltac:(lia)). b2p.
  repeat split; try done; [by apply Z.eqb_neq|by apply Z.eqb_eq].
Qed.

Lemma decode_encode_bytes i m v n rest :
  (0 < i)%nat -> 0 < m -> 0 <= v -> 0 <= n < 128 ^ Z.of_nat i -> m * 128 ^ Z.of_nat i <= 268435456 ->
  v + n * m < 4294967296 ->
  decode_remaining_bytes i m v (encode_remaining_bytes i n ++ rest) = Some (v + n * m, rest).
Proof.
  revert m v n. induction i as [|i IH]; intros m v n Hi Hm Hv Hn Hb Hs; [lia|].
  rewrite Nat2Z.inj_succ, Z.pow_succ_r in Hn, Hb by lia.
  assert (Hp : 1 <= 128 ^ Z.of_nat i) by (apply (Z.pow_le_mono_r 128 0); lia).
  pose proof (Z.mod_pos_bound n 128 ltac:(lia)) as Hmod.
  pose proof (Z.div_mod n 128 ltac:(lia)) as Hdm.
  assert (Hq : 0 <= n / 128) by (apply Z.div_pos; lia).
  destruct (low_bits (n mod 128) Hmod) as (L1 & L2 & L3 & L4).
  cbn [encode_remaining_bytes]. destruct (Z.ltb_spec 0 (n / 128)) as [Hlt|Hge]; cbn [app decode_remaining_bytes].
  - rewrite L1, L3. rewrite (u32_small (n mod 128 * m)) by (unfold is_u32; nia).
    rewrite (u32_small (v + _)) by (unfold is_u32; nia).
    rewrite (u32_small (m * 128)) by (unfold is_u32; nia).
    assert (Hi' : (0 < i)%nat).
    { destruct i; [|lia]. cbn in Hn. assert (n / 128 < 1) by (apply Z.div_lt_upper_bound; lia). lia. }
    rewrite IH; [f_equal; f_equal; nia|done|nia|nia|split; [lia|apply Z.div_lt_upper_bound; lia]|nia|nia].
  - assert (Hz : n / 128 = 0) by lia. rewrite L2, L4.
    rewrite (u32_small (n mod 128 * m)) by (unfold is_u32; nia).
    rewrite (u32_small (v + _)) by (unfold is_u32; nia). f_equal. f_equal. nia.
Qed.

Lemma remaining_length_roundtrip n rest : 0 <= n < 268435456 ->
  argus_mqtt_decode_remaining_length (argus_mqtt_encode_remaining_length n ++ rest) = Some (n, rest).
Proof.
  intros Hn. unfold argus_mqtt_decode_remaining_length, argus_mqtt_encode_remaining_length.
  rewrite decode_encode_bytes by (try (change (128 ^ Z.of_nat 4) with 268435456); lia). f_equal. f_equal. lia.
Qed.

Lemma u16_check :
  forallb (fun n => bool_decide (argus_mqtt_read_u16 [u8 (Z.shiftr n 8); Z.land n 255] = Some (n, [])))
    (seqZ 0 1024) = true.
Proof. vm_compute. reflexivity. Qed.

Lemma read_u16_length n l : (n < 1024)%nat ->
  argus_mqtt_read_u16 (u8 (Z.shiftr (Z.of_nat n) 8) :: Z.land (Z.of_nat n) 255 :: l) = Some (Z.of_nat n, l).
Proof.
  intros Hn. pose proof u16_check as H. rewrite forallb_forall in H. specialize (H (Z.of_nat n)).
  rewrite <- list_elem_of_In, elem_of_seqZ in H. specialize (H ltac:(lia)).
  apply bool_decide_eq_true_1 in H. unfold argus_mqtt_read_u16 in *. by injection H as ->.
Qed.

(** A PUBLISH the broker sends is one it would itself read back: the fixed header has
    the retain flag, the remaining length decodes to the size of the rest, and the rest
    is the length-prefixed topic followed by the payload, for every topic of at most 159
    bytes and payload of at most 384. *)
Theorem publish_packet_roundtrip topic payload retain :
  (length topic < ARGUS_MQTT_MAX_TOPIC_LEN)%nat -> (length payload < ARGUS_MQTT_MAX_PAYLOAD_LEN)%nat ->
  exists header rest body,
    argus_mqtt_publish_packet topic payload retain = Some (header :: rest) /\
    (negb (Z.land header 1 =? 0) = retain /\ Z.shiftr header 4 = 3) /\
    argus_mqtt_decode_remaining_length rest = Some (Z.of_nat (length body), body) /\
    argus_mqtt_read_string body ARGUS_MQTT_MAX_TOPIC_LEN = Some (topic, payload).
Proof.
  unfold ARGUS_MQTT_MAX_TOPIC_LEN, ARGUS_MQTT_MAX_PAYLOAD_LEN. intros Ht Hp.
  set (body := u8 (Z.shiftr (Z.of_nat (length topic)) 8) :: Z.land (Z.of_nat (length topic)) 255
               :: topic ++ payload).
  assert (Hb : length body = (2 + length topic + length payload)%nat).
  { unfold body. cbn [length]. rewrite length_app. lia. }
  exists (if retain then 49 else 48),
    (argus_mqtt_encode_remaining_length (Z.of_nat (length body)) ++ body), body.
  split; [|split; [by destruct retain|split]].
  - unfold argus_mqtt_publish_packet, ARGUS_MQTT_MAX_TOPIC_LEN, ARGUS_MQTT_MAX_PAYLOAD_LEN, ARGUS_MQTT_MAX_PACKET_LEN.
    rewrite (take_ge topic), (take_ge payload) by lia.
    rewrite (proj2 (Nat.ltb_ge _ _)) by lia. rewrite Hb. reflexivity.
  - apply remaining_length_roundtrip. lia.
  - unfold argus_mqtt_read_string, body. rewrite read_u16_length by lia. cbn [mbind option_bind].
    rewrite Nat2Z.id, length_app. rewrite (proj2 (Nat.ltb_ge _ _)) by lia.
    rewrite (proj2 (Nat.leb_gt _ _)) by lia. cbn [orb Nat.eqb].
    by rewrite take_app_length, drop_app_length.
Qed.

(** ** Topic filters level by level *)

(** The levels of a topic. *)
Fixpoint levels (l : bytes) : list bytes :=
  match l with
  | [] => [[]]
  | c :: l => if c =? 47 then [] :: levels l
              else match levels l with t :: ts => (c :: t) :: ts | [] => [[c]] end
  end.

Fixpoint join (ls : list bytes) : bytes :=
  match ls with
  | [] => []
  | [x] => x
  | x :: ls => x ++ 47 :: join ls
  end.

Definition plain_level (f : bytes) : bool :=
  forallb (fun c => negb (c =? 35) && negb (c =? 43) && negb (c =? 47)) f.

(** A filter level: a plain text, [+], or as the last one [#]. *)
Fixpoint filter_levels (fs : list bytes) : bool :=
  match fs with
  | [] => false
  | [f] => bool_decide (f = [35]) || bool_decide (f = [43]) || plain_level f
  | f :: fs => (bool_decide (f = [43]) || plain_level f) && filter_levels fs
  end.

(** The meaning of a filter: [#] matches one or more levels, [+] exactly one (not an
    empty last one), a text itself. *)
Fixpoint match_levels (fs ts : list bytes) : bool :=
  match fs, ts with
  | [f], t :: ts =>
      bool_decide (f = [35])
      || match ts with
         | [] => if bool_decide (f = [43]) then negb (bool_decide (t = [])) else bool_decide (f = t)
         | _ => false
         end
  | f :: fs, t :: ts => (bool_decide (f = [43]) || bool_decide (f = t)) && match_levels fs ts
  | _, _ => false
  end.

Lemma levels_ne l : levels l <> [].
Proof. destruct l as [|c l]; [done|]. cbn. destruct (c =? 47); [done|]. by destruct (levels l). Qed.

Lemma join_levels l : join (levels l) = l.
Proof.
  induction l as [|c l IH]; [done|]. cbn [levels]. pose proof (levels_ne l) as Hne.
  destruct (Z.eqb_spec c 47) as [->|].
  - destruct (levels l) as [|t ts]; [done|]. cbn in *. by rewrite IH.
  - destruct (levels l) as [|t ts]; [done|]. destruct ts; cbn in *; by rewrite <- IH.
Qed.

Definition slash_free (t : bytes) : Prop := all not_slash t.

Lemma levels_slash_free l : Forall slash_free (levels l).
Proof.
  induction l as [|c l IH]; [repeat constructor|]. cbn [levels].
  destruct (c =? 47) eqn:Hc; [by constructor; [constructor|]|].
  destruct (levels l) as [|t ts]; inversion IH; subst;
    (constructor; [|done || constructor]); (constructor; [unfold not_slash; by rewrite Hc|done || constructor]).
Qed.

Lemma slash_mismatch F d t : not_slash d = true -> argus_mqtt_topic_matches (47 :: F) (d :: t) = false.
Proof.
  intros Hd%negb_true_iff. cbn [argus_mqtt_topic_matches].
  change (47 =? 35) with false. change (47 =? 43) with false. cbv iota. by rewrite Z.eqb_sym, Hd.
Qed.

(** One level followed by a separator on both sides. *)
Lemma matches_level f t F T : plain_level f = true -> slash_free t ->
  argus_mqtt_topic_matches (f ++ 47 :: F) (t ++ 47 :: T) = bool_decide (f = t) && argus_mqtt_topic_matches F T.
Proof.
  revert t. induction f as [|c f IH]; intros t Hf Ht.
  - destruct t as [|d t]; [reflexivity|]. inversion Ht as [|? ? Hd _]; subst.
    cbn [app]. by rewrite slash_mismatch, bool_decide_eq_false_2.
  - cbn in Hf. b2p. destruct t as [|d t].
    + cbn. rewrite !(proj2 (Z.eqb_neq c _)) by done. done.
    + cbn. rewrite !(proj2 (Z.eqb_neq c _)) by done. inversion Ht; subst.
      destruct (Z.eqb_spec c d) as [->|Hcd]; cbn [negb].
      * rewrite IH by done. f_equal. apply bool_decide_ext. split; [by intros ->|by intros [=]].
      * rewrite bool_decide_eq_false_2 by congruence. done.
Qed.

(** The last level on both sides. *)
Lemma matches_last f t : plain_level f = true -> argus_mqtt_topic_matches f t = bool_decide (f = t).
Proof.
  revert t. induction f as [|c f IH]; intros t Hf; [by destruct t|]. cbn in Hf. b2p.
  destruct t as [|d t]; cbn.
  - destruct f; [|done]. by rewrite (proj2 (Z.eqb_neq c 35)).
  - rewrite !(proj2 (Z.eqb_neq c _)) by done. destruct (Z.eqb_spec c d) as [->|Hcd]; cbn [negb].
    + rewrite IH by done. apply bool_decide_ext. split; [by intros ->|by intros [=]].
    + rewrite bool_decide_eq_false_2 by congruence. done.
Qed.

(** The filter has more levels than the topic. *)
Lemma matches_short f t F : plain_level f = true -> slash_free t ->
  argus_mqtt_topic_matches (f ++ 47 :: F) t = false.
Proof.
  revert t. induction f as [|c f IH]; intros t Hf Ht.
  - destruct t as [|d t]; [by destruct F|]. inversion Ht as [|? ? Hd _]; subst.
    by apply slash_mismatch.
  - cbn in Hf. b2p. destruct t as [|d t]; cbn.
    + destruct f; done.
    + rewrite !(proj2 (Z.eqb_neq c _)) by done. inversion Ht; subst. destruct (c =? d); [by apply IH|done].
Qed.

Lemma skip_not_slash t T : slash_free t -> skip_while not_slash (t ++ 47 :: T) = 47 :: T.
Proof. intros Ht. by rewrite skip_while_all by done. Qed.

Lemma skip_not_slash_end t : slash_free t -> skip_while not_slash t = [].
Proof. by intros Ht%skip_while_nil. Qed.

Lemma matches_plus t F T : slash_free t ->
  argus_mqtt_topic_matches (43 :: 47 :: F) (t ++ 47 :: T) = argus_mqtt_topic_matches F T.
Proof.
  intros Ht. destruct (t ++ 47 :: T) as [|d l] eqn:Hl; [by destruct t|].
  cbn -[skip_while]. rewrite <- Hl, skip_not_slash by done. done.
Qed.

Lemma matches_plus_short t F : slash_free t -> argus_mqtt_topic_matches (43 :: 47 :: F) t = false.
Proof.
  intros Ht. destruct t as [|d l] eqn:Hl; [done|]. rewrite <- Hl in *.
  rewrite Hl at 1. cbn -[skip_while]. rewrite <- Hl, skip_not_slash_end by done. by destruct F.
Qed.

Lemma topic_matches_join fs ts : filter_levels fs = true -> ts <> [] -> Forall slash_free ts ->
  argus_mqtt_topic_matches (join fs) (join ts) = match_levels fs ts.
Proof.
  revert ts. induction fs as [|f fs IH]; intros ts Hf Hne Hts; [done|].
  destruct ts as [|t ts]; [done|]. inversion Hts as [|? ? Ht Hts']; subst.
  destruct fs as [|g fs].
  - cbn [filter_levels match_levels] in *. change (join [f]) with f.
    destruct (bool_decide_reflect (f = [35])) as [->|H35]; cbn [orb] in *.
    { by destruct (join (t :: ts)). }
    destruct (bool_decide_reflect (f = [43])) as [->|H43]; cbn [orb] in *.
    + destruct ts as [|u ts].
      * cbn [join]. destruct t as [|c t]; [done|]. rewrite bool_decide_eq_false_2 by done.
        cbn -[skip_while]. by rewrite skip_not_slash_end.
      * change (join (t :: u :: ts)) with (t ++ 47 :: join (u :: ts)).
        destruct (t ++ 47 :: join (u :: ts)) as [|d l] eqn:Hl; [by destruct t|].
        cbn -[skip_while]. rewrite <- Hl, skip_not_slash by done. done.
    + destruct ts as [|u ts]; [by apply matches_last|].
      change (join (t :: u :: ts)) with (t ++ 47 :: join (u :: ts)). rewrite matches_last by done.
      apply bool_decide_eq_false_2. intros ->. unfold plain_level in Hf. rewrite forallb_app in Hf. cbn in Hf.
      by rewrite andb_false_r in Hf.
  - change (join (f :: g :: fs)) with (f ++ 47 :: join (g :: fs)).
    cbn [filter_levels] in Hf. apply andb_true_iff in Hf as [Hf Hfs].
    change (match_levels (f :: g :: fs) (t :: ts)) with
      ((bool_decide (f = [43]) || bool_decide (f = t)) && match_levels (g :: fs) ts).
    destruct ts as [|u ts].
    + rewrite (andb_comm (_ || _)). replace (match_levels (g :: fs) []) with false by (by destruct fs).
      cbn [join andb]. apply orb_true_iff in Hf as [->%bool_decide_eq_true|Hf]; [by apply matches_plus_short|by apply matches_short].
    + change (join (t :: u :: ts)) with (t ++ 47 :: join (u :: ts)).
      rewrite <- IH by done. apply orb_true_iff in Hf as [->%bool_decide_eq_true|Hf].
      * rewrite bool_decide_eq_true_2 by done. by apply matches_plus.
      * rewrite matches_level by done. rewrite (bool_decide_eq_false_2 (f = [43])); [done|]. by intros ->.
Qed.

(** The character loop of the topic filter implements the level-by-level rule: for
    every well-formed filter and every topic, it accepts exactly when [#] stands for one
    or more remaining levels, [+] for one level, and each other level equals the topic's. *)
Theorem topic_matches_levels fs topic : filter_levels fs = true ->
  argus_mqtt_topic_matches (join fs) topic = match_levels fs (levels topic).
Proof.
  intros Hf. rewrite <- (join_levels topic) at 1.
  apply topic_matches_join; [done|apply levels_ne|apply levels_slash_free].
Qed.

(** ** The retained store is a finite map *)

(** The map from topics to payloads a store holds. *)
Definition retained_map (l : list argus_mqtt_retained_t) (topic : bytes) : option bytes :=
  rt_payload <$> find (retained_is topic) l.

(** No topic is in two slots. *)
Definition retained_unique (l : list argus_mqtt_retained_t) : Prop :=
  forall i j r s topic, l !! i = Some r -> l !! j = Some s ->
    retained_is topic r = true -> retained_is topic s = true -> i = j.

Lemma find_index_some {A} (p : A -> bool) l i :
  find_index p l = Some i -> exists x, l !! i = Some x /\ p x = true.
Proof.
  revert i. induction l as [|x l IH]; intros i; [done|]. cbn. destruct (p x) eqn:Hp.
  - intros [= <-]. by exists x.
  - destruct (find_index p l) as [j|]; [|done]. intros [= <-]. by apply IH.
Qed.

Lemma find_index_none {A} (p : A -> bool) l :
  find_index p l = None <-> Forall (fun x => p x = false) l.
Proof.
  induction l as [|x l IH]; cbn; [split; [by constructor|done]|]. rewrite Forall_cons, <- IH.
  destruct (p x); [split; [done|by intros []]|]. destruct (find_index p l); cbn; intuition congruence.
Qed.

Lemma find_lookup {A} (p : A -> bool) l i x :
  l !! i = Some x -> p x = true ->
  (forall j y, l !! j = Some y -> p y = true -> j = i) -> find p l = Some x.
Proof.
  revert i. induction l as [|y l IH]; intros i; [done|]. cbn [find]. destruct i as [|i]; cbn.
  - intros [= ->] ->. done.
  - intros Hi Hx Hu. destruct (p y) eqn:Hy; [specialize (Hu 0%nat y eq_refl Hy); lia|].
    apply (IH i); try done. intros j z Hj Hz. specialize (Hu (S j) z Hj Hz). lia.
Qed.

Lemma find_none {A} (p : A -> bool) l : find p l = None <-> Forall (fun x => p x = false) l.
Proof.
  induction l as [|x l IH]; cbn; [split; [by constructor|done]|]. rewrite Forall_cons, <- IH.
  destruct (p x); [split; [done|by intros []]|]. split; [done|by intros []].
Qed.

Lemma find_insert_other {A} (p : A -> bool) l i x y :
  l !! i = Some x -> p x = false -> p y = false -> find p (<[i := y]> l) = find p l.
Proof.
  revert i. induction l as [|z l IH]; intros i; [done|]. destruct i as [|i].
  - cbn. intros [= ->] -> ->. done.
  - change (<[S i := y]> (z :: l)) with (z :: <[i := y]> l). cbn [find lookup list_lookup].
    intros Hi Hx Hy. destruct (p z); [done|]. by apply IH.
Qed.

Lemma retained_is_same t u r : retained_is t r = true -> retained_is u r = true -> t = u.
Proof.
  unfold retained_is. destruct (rt_in_use r); [|done]. cbn.
  by intros <-%bool_decide_eq_true <-%bool_decide_eq_true.
Qed.

(** Writing [new] for [topic] into a slot that holds no other topic, where no other slot
    holds this one. *)
Lemma write_slot l i r topic new :
  retained_unique l -> l !! i = Some r -> retained_is topic new = true ->
  (forall u, u <> topic -> retained_is u r = false) ->
  (forall j s, l !! j = Some s -> retained_is topic s = true -> j = i) ->
  retained_unique (<[i := new]> l) /\ find (retained_is topic) (<[i := new]> l) = Some new /\
  forall other, other <> topic -> retained_map (<[i := new]> l) other = retained_map l other.
Proof.
  intros Hu Hi Hin Hr Hothers. assert (Hlt : (i < length l)%nat) by eauto using lookup_lt_Some.
  split; [|split].
  - intros j k x y u Hj Hk Hx Hy. destruct (decide (i = j)) as [<-|Hij], (decide (i = k)) as [<-|Hik]; [done|..].
    + rewrite list_lookup_insert_eq in Hj by done. rewrite list_lookup_insert_ne in Hk by done. simplify_eq.
      rewrite (retained_is_same u topic _ Hx Hin) in Hy. symmetry. by apply Hothers in Hk.
    + rewrite list_lookup_insert_eq in Hk by done. rewrite list_lookup_insert_ne in Hj by done. simplify_eq.
      rewrite (retained_is_same u topic _ Hy Hin) in Hx. by apply Hothers in Hj.
    + rewrite list_lookup_insert_ne in Hj, Hk by done. by eapply Hu.
  - apply (find_lookup _ _ i); [by apply list_lookup_insert_eq|done|].
    intros j y Hj Hy. destruct (decide (i = j)) as [|Hij]; [done|].
    rewrite list_lookup_insert_ne in Hj by done. by eapply Hothers.
  - intros other Ho. unfold retained_map. erewrite find_insert_other; [done|exact Hi|by apply Hr|].
    destruct (retained_is other new) eqn:Hx; [|done]. by rewrite (retained_is_same _ _ _ Hx Hin) in Ho.
Qed.

(** The retained store is a finite map of bounded size that never evicts: storing a
    topic makes it readable with its payload and leaves every other topic as it was; it
    fails only when every slot holds another topic, and then changes nothing. *)
Theorem retained_store_map l topic payload :
  retained_unique l -> (length topic < ARGUS_MQTT_MAX_TOPIC_LEN)%nat ->
  (length payload < ARGUS_MQTT_MAX_PAYLOAD_LEN)%nat ->
  let '(err, l') := argus_mqtt_store_retained_locked l topic payload in
  retained_unique l' /\ length l' = length l /\
  ((err = ESP_OK /\ retained_map l' topic = Some payload /\
    argus_mqtt_broker_get_retained l' topic ARGUS_MQTT_MAX_PAYLOAD_LEN = (ESP_OK, payload) /\
    forall other, other <> topic -> retained_map l' other = retained_map l other) \/
   (err = ESP_ERR_NO_MEM /\ l' = l /\
    Forall (fun r => rt_in_use r = true /\ rt_topic r <> topic) l)).
Proof.
  intros Hu Ht Hp. unfold argus_mqtt_store_retained_locked.
  set (new := Retained true (strlcpy topic ARGUS_MQTT_MAX_TOPIC_LEN) (strlcpy payload ARGUS_MQTT_MAX_PAYLOAD_LEN)).
  assert (Hnew : new = Retained true topic payload) by (unfold new; by rewrite !strlcpy_fits).
  assert (Hin : retained_is topic new = true) by (rewrite Hnew; unfold retained_is; cbn; by apply bool_decide_eq_true).
  assert (Hdone : forall i r, l !! i = Some r ->
    (forall u, u <> topic -> retained_is u r = false) ->
    (forall j s, l !! j = Some s -> retained_is topic s = true -> j = i) ->
    retained_unique (<[i := new]> l) /\ length (<[i := new]> l) = length l /\
    (((ESP_OK = ESP_OK /\ retained_map (<[i := new]> l) topic = Some payload /\
    argus_mqtt_broker_get_retained (<[i := new]> l) topic ARGUS_MQTT_MAX_PAYLOAD_LEN = (ESP_OK, payload) /\
    forall other, other <> topic -> retained_map (<[i := new]> l) other = retained_map l other) \/
   (ESP_OK = ESP_ERR_NO_MEM /\ <[i := new]> l = l /\
    Forall (fun r => rt_in_use r = true /\ rt_topic r <> topic) l)))).
  { intros i r Hi Hr Ho. destruct (write_slot l i r topic new Hu Hi Hin Hr Ho) as (H1 & H2 & H3).
    split; [done|]. split; [by rewrite length_insert|]. left. split; [done|].
    unfold retained_map at 1, argus_mqtt_broker_get_retained. rewrite H2, Hnew. cbn [rt_payload fmap option_fmap option_map].
    split; [done|]. split; [by rewrite strlcpy_fits|]. rewrite <- Hnew. exact H3. }
  clearbody new. destruct (find_index (retained_is topic) l) as [i|] eqn:Hi.
  - apply find_index_some in Hi as (r & Hi & Hr). apply (Hdone i r Hi).
    + intros u Hne. destruct (retained_is u r) eqn:Hur; [|done]. by rewrite (retained_is_same _ _ _ Hur Hr) in Hne.
    + intros j s Hj Hs. by eapply Hu.
  - apply find_index_none in Hi. rewrite Forall_lookup in Hi.
    destruct (find_index (fun r => negb (rt_in_use r)) l) as [i|] eqn:Hf.
    + apply find_index_some in Hf as (r & Hf & Hr). apply negb_true_iff in Hr. apply (Hdone i r Hf).
      * intros u _. unfold retained_is. by rewrite Hr.
      * intros j s Hj Hs. specialize (Hi _ _ Hj). congruence.
    + split; [done|]. split; [done|]. right. split; [done|]. split; [done|].
      apply find_index_none in Hf. rewrite Forall_lookup in *. intros j s Hj.
      specialize (Hi _ _ Hj). specialize (Hf _ _ Hj). apply negb_false_iff in Hf.
      unfold retained_is in Hi. rewrite Hf in Hi. split; [done|]. by apply bool_decide_eq_false in Hi.
Qed.

(** ** Witnesses *)

Lemma publish_packet_roundtrip_witness :
  exists header rest body,
    argus_mqtt_publish_packet (str "argus/plant/unit/state") (str "RUNNING") true = Some (header :: rest) /\
    argus_mqtt_read_string body ARGUS_MQTT_MAX_TOPIC_LEN = Some (str "argus/plant/unit/state", str "RUNNING").
Proof.
  destruct (publish_packet_roundtrip (str "argus/plant/unit/state") (str "RUNNING") true)
    as (h & r & b & H1 & _ & _ & H2).
  - apply Nat.ltb_lt. vm_compute. reflexivity.
  - apply Nat.ltb_lt. vm_compute. reflexivity.
  - exists h, r, b. split; [exact H1|exact H2].
Defined.

Lemma topic_matches_levels_witness :
  argus_mqtt_topic_matches (join [str "argus"; [43]; str "state"; [35]]) (str "argus/u1/state/pump1/mode") = true.
Proof.
  refine (eq_trans (topic_matches_levels [str "argus"; [43]; str "state"; [35]] _ _) _); vm_compute; reflexivity.
Defined.

Lemma retained_store_map_witness :
  (argus_mqtt_store_retained_locked (replicate 2 (Retained false [] [])) (str "t") (str "p")).1 = ESP_OK.
Proof.
  assert (Hu : retained_unique (replicate 2 (Retained false [] []))).
  { intros i j r s t Hi _ Hr _. apply lookup_replicate in Hi as [-> _]. discriminate. }
  pose proof (retained_store_map (replicate 2 (Retained false [] [])) (str "t") (str "p") Hu
    ltac:(apply Nat.ltb_lt; vm_compute; reflexivity) ltac:(apply Nat.ltb_lt; vm_compute; reflexivity)) as H.
  destruct (argus_mqtt_store_retained_locked _ _ _) as [err l'].
  destruct H as (_ & _ & [[H _]|(_ & _ & H)]); [exact H|].
  inversion H as [|? ? [? _] _]. discriminate.
Defined.
