(* ===== verification/MqttInvalidation.v ===== *)
(** * The machine invalidation journal

    [src/main/argus_mqtt_invalidation.c]: the ring of the last 32 invalidated machine
    identifiers.  A login that started at some generation asks whether its machine was
    invalidated since; the journal answers exactly, and errs on the side of refusal once
    it has forgotten. *)

From S2P Require Import Prelude.

Definition ARGUS_MQTT_INVALIDATION_HISTORY_CAPACITY : Z := 32.

Record argus_mqtt_invalidation_event_t := InvEvent { ie_generation : Z; ie_identifier : bytes }.

Record argus_mqtt_invalidation_journal_t := Journal {
  jn_generation : Z;
  jn_events : list argus_mqtt_invalidation_event_t
}.

Definition identifier_valid (identifier : bytes) : bool :=
  (0 <? length identifier)%nat && (length identifier <=? 36)%nat.

Definition zero_events : list argus_mqtt_invalidation_event_t := replicate 32 (InvEvent 0 []).

Definition argus_mqtt_invalidation_init : argus_mqtt_invalidation_journal_t := Journal 0 zero_events.

Definition argus_mqtt_invalidation_capture (j : argus_mqtt_invalidation_journal_t) : Z := jn_generation j.

Definition ring_index (generation : Z) : nat :=
  Z.to_nat (u64 (generation - 1) mod ARGUS_MQTT_INVALIDATION_HISTORY_CAPACITY).

Definition argus_mqtt_invalidation_record (j : argus_mqtt_invalidation_journal_t) (identifier : bytes)
    : bool * argus_mqtt_invalidation_journal_t :=
  if negb (identifier_valid identifier) then (false, j)
  else
    let generation := u64 (jn_generation j + 1) in
    let '(generation, events) :=
      if generation =? 0 then (1, zero_events) else (generation, jn_events j) in
    (true, Journal generation
             (<[ring_index generation := InvEvent generation (strlcpy identifier 37)]> events)).

(** The loop over the generations after the captured one; the fuel is their number. *)
Fixpoint since_loop (fuel : nat) (j : argus_mqtt_invalidation_journal_t) (identifier : bytes)
    (generation : Z) : bool :=
  match fuel with
  | O => false
  | S fuel =>
      let event := default (InvEvent 0 []) (jn_events j !! ring_index generation) in
      if negb (ie_generation event =? generation) then true
      else if bool_decide (ie_identifier event = identifier) then true
      else since_loop fuel j identifier (generation + 1)
  end.

Definition argus_mqtt_invalidation_since (j : argus_mqtt_invalidation_journal_t) (identifier : bytes)
    (captured_generation : Z) : bool :=
  if negb (identifier_valid identifier) then true
  else
    let current := jn_generation j in
    if current =? captured_generation then false
    else if (current <? captured_generation)
            || (ARGUS_MQTT_INVALIDATION_HISTORY_CAPACITY <? current - captured_generation) then true
    else since_loop (Z.to_nat (current - captured_generation)) j identifier (captured_generation + 1).

(** ** The journal against the full log

    [log] is the list of every identifier recorded so far, oldest first. *)
Record journal_of (j : argus_mqtt_invalidation_journal_t) (log : list bytes) : Prop := {
  jo_generation : jn_generation j = Z.of_nat (length log);
  jo_small : Z.of_nat (length log) < 18446744073709551615;
  jo_length : length (jn_events j) = 32%nat;
  jo_events : forall k id, log !! k = Some id -> Z.of_nat (length log) - Z.of_nat k <= 32 ->
    jn_events j !! ring_index (Z.of_nat k + 1) = Some (InvEvent (Z.of_nat k + 1) id)
}.

Lemma ring_index_small k : 0 <= Z.of_nat k < 18446744073709551616 ->
  ring_index (Z.of_nat k + 1) = (k mod 32)%nat.
Proof.
  intros Hk. unfold ring_index, ARGUS_MQTT_INVALIDATION_HISTORY_CAPACITY.
  replace (Z.of_nat k + 1 - 1) with (Z.of_nat k) by lia. rewrite u64_small by (unfold is_u64; lia).
  change 32 with (Z.of_nat 32). rewrite <- Nat2Z.inj_mod. lia.
Qed.

Lemma journal_init : journal_of argus_mqtt_invalidation_init [].
Proof. by split. Qed.

Lemma journal_record j log id :
  journal_of j log -> identifier_valid id = true -> Z.of_nat (length log) + 1 < 18446744073709551615 ->
  exists j', argus_mqtt_invalidation_record j id = (true, j') /\ journal_of j' (log ++ [id]).
Proof.
  intros [Hg Hs Hl He] Hv Hb. unfold argus_mqtt_invalidation_record. rewrite Hv. cbn [negb].
  rewrite Hg, u64_small by (unfold is_u64; lia). rewrite (proj2 (Z.eqb_neq _ 0)) by lia.
  eexists. split; [done|]. unfold identifier_valid in Hv. apply andb_true_iff in Hv as [_ Hv%Nat.leb_le].
  assert (Hlen : Z.of_nat (length (log ++ [id])) = Z.of_nat (length log) + 1).
  { rewrite length_app. cbn. lia. }
  assert (Hmod : (length log mod 32 < 32)%nat) by (apply Nat.mod_upper_bound; lia).
  split; cbn [jn_generation jn_events]; rewrite ?Hlen; [done|lia|by rewrite length_insert|].
  intros k x Hk Hw. rewrite (ring_index_small (length log)) by lia.
  destruct (decide (k = length log)) as [->|Hne].
  - rewrite lookup_app_r, Nat.sub_diag in Hk by lia. cbn in Hk. simplify_eq.
    rewrite ring_index_small by lia. rewrite list_lookup_insert_eq by lia.
    by rewrite strlcpy_fits by lia.
  - assert (Hlt : (k < length log)%nat).
    { apply lookup_lt_Some in Hk. rewrite length_app in Hk. cbn in Hk. lia. }
    rewrite lookup_app_l in Hk by done. rewrite ring_index_small by lia.
    rewrite list_lookup_insert_ne.
    + rewrite <- (ring_index_small k) by lia. apply He; [done|lia].
    + intros Heq. pose proof (Nat.div_mod_eq k 32). pose proof (Nat.div_mod_eq (length log) 32). lia.
Qed.

Lemma since_loop_spec j log id : journal_of j log -> forall fuel k,
  (k + fuel = length log)%nat -> (fuel <= 32)%nat ->
  since_loop fuel j id (Z.of_nat k + 1) = bool_decide (id ∈ drop k log).
Proof.
  intros Hj. pose proof Hj as [Hg Hs Hl He]. induction fuel as [|fuel IH]; intros k Hk Hf.
  - cbn. rewrite drop_ge by lia. by rewrite bool_decide_eq_false_2 by (apply not_elem_of_nil).
  - destruct (lookup_lt_is_Some_2 log k ltac:(lia)) as [x Hx]. cbn [since_loop].
    rewrite (He k x Hx) by lia.
    change (default (InvEvent 0 []) (Some (InvEvent (Z.of_nat k + 1) x))) with (InvEvent (Z.of_nat k + 1) x).
    cbn [ie_generation ie_identifier]. rewrite Z.eqb_refl. cbn [negb].
    rewrite (drop_S log x k Hx).
    destruct (bool_decide_reflect (x = id)) as [->|Hne].
    + by rewrite bool_decide_eq_true_2 by (apply elem_of_cons; by left).
    + replace (Z.of_nat k + 1 + 1) with (Z.of_nat (S k) + 1) by lia. rewrite IH by lia.
      apply bool_decide_ext. rewrite elem_of_cons. split; [by right|]. intros [->|?]; [done|done].
Qed.

Lemma since_spec j log id captured :
  journal_of j log -> identifier_valid id = true -> (captured <= length log)%nat ->
  argus_mqtt_invalidation_since j id (Z.of_nat captured)
  = (32 <? length log - captured)%nat || bool_decide (id ∈ drop captured log).
Proof.
  intros Hj Hv Hc. pose proof Hj as [Hg Hs Hl He]. unfold argus_mqtt_invalidation_since.
  rewrite Hv, Hg. cbn [negb]. unfold ARGUS_MQTT_INVALIDATION_HISTORY_CAPACITY.
  destruct (Z.eqb_spec (Z.of_nat (length log)) (Z.of_nat captured)) as [Heq|Hne].
  { rewrite drop_ge by lia. rewrite (proj2 (Nat.ltb_ge _ _)) by lia.
    by rewrite bool_decide_eq_false_2 by (apply not_elem_of_nil). }
  rewrite (proj2 (Z.ltb_ge _ (Z.of_nat captured))) by lia. cbn [orb].
  destruct (Z.ltb_spec 32 (Z.of_nat (length log) - Z.of_nat captured)) as [Hlt|Hge].
  { by rewrite (proj2 (Nat.ltb_lt _ _)) by lia. }
  rewrite (proj2 (Nat.ltb_ge _ _)) by lia. by rewrite (since_loop_spec j log id Hj) by lia.
Qed.

(** An identifier recorded at or after the captured generation is reported. *)
Lemma since_recorded j log id captured k :
  journal_of j log -> identifier_valid id = true -> log !! k = Some id -> (captured <= k)%nat ->
  argus_mqtt_invalidation_since j id (Z.of_nat captured) = true.
Proof.
  intros Hj Hv Hk Hc. pose proof (lookup_lt_Some _ _ _ Hk). rewrite (since_spec j log) by (done || lia).
  rewrite (bool_decide_eq_true_2 (id ∈ _)); [apply orb_true_r|].
  apply list_elem_of_lookup. exists (k - captured)%nat. rewrite lookup_drop. by replace (captured + (k - captured))%nat with k by lia.
Qed.

(** The journal answers exactly: after any series of fewer than 2^64-1 invalidations,
    a machine counts as invalidated since an earlier generation exactly when it was
    recorded after it or when more than 32 records were made since, so a login that
    overlaps an invalidation of its machine is never admitted. *)
Theorem invalidation_since_exact j log id captured :
  journal_of j log -> identifier_valid id = true -> (captured <= length log)%nat ->
  argus_mqtt_invalidation_since j id (Z.of_nat captured) = true <->
  (32 < length log - captured)%nat \/ id ∈ drop captured log.
Proof.
  intros Hj Hv Hc. by rewrite (since_spec j log), orb_true_iff, Nat.ltb_lt, bool_decide_eq_true.
Qed.

Lemma invalidation_since_exact_witness :
  let j := (argus_mqtt_invalidation_record argus_mqtt_invalidation_init (str "m-1")).2 in
  argus_mqtt_invalidation_since j (str "m-1") 0 = true.
Proof.
  intros j.
  destruct (journal_record _ _ (str "m-1") journal_init eq_refl ltac:(cbn; lia)) as (j' & Hr & Hj).
  assert (Heq : j' = j) by (unfold j; rewrite Hr; reflexivity). rewrite <- Heq.
  apply (invalidation_since_exact j' [str "m-1"] (str "m-1") 0 Hj eq_refl ltac:(cbn; lia)).
  right. apply elem_of_cons. left. reflexivity.
Defined.
