(* ===== verification/MqttBroker.v ===== *)
(** * The broker's connection pools, login and revocation

    The connection records of [src/main/argus_mqtt_broker.c]: admission of sockets
    before login, the login handshake with its two critical sections, the authenticated
    session slots, subscriptions, and the fencing and disconnection of a machine.  Every
    definition below named [..._locked], and every event of [broker_step], is one
    critical section of [client_lock], so a run is an interleaving of the accept task,
    the client tasks and the administrative callers.  Sockets, [shutdown] and the
    verification of credentials are outside: their answers are arguments. *)

From S2P Require Import Prelude MqttWire MqttInvalidation.

Definition ARGUS_MQTT_MAX_CLIENTS : nat := 3.
Definition ARGUS_MQTT_MAX_PRECONNECT : nat := 3.
Definition ARGUS_MQTT_MAX_PRECONNECT_UNPROVEN : nat := 2.
Definition ARGUS_MQTT_MAX_PRECONNECT_PER_SOURCE : nat := 1.
Definition ARGUS_MQTT_MAX_CONNECTIONS : nat := 6.
Definition ARGUS_MQTT_MAX_SUBS_PER_CLIENT : nat := 8.

(** ** Data *)

Record argus_machine_principal_t := MachinePrincipal {
  mp_identifier : bytes;
  mp_scope : bytes;
  mp_topic_scope : bytes;
  mp_api_scope : bytes;
  mp_permissions : Z;
  mp_allowed_transports : Z;
  mp_allowed_interfaces : Z;
  mp_client_type : Z;
  mp_credential_version : Z;
  mp_principal_revision : Z;
  mp_record_security_epoch : Z;
  mp_directory_generation : Z
}.

Definition no_principal : argus_machine_principal_t := MachinePrincipal [] [] [] [] 0 0 0 0 0 0 0 0.

(** [session_slot] is [None] for -1. *)
Record argus_mqtt_client_t := Client {
  cl_in_use : bool;
  cl_connected : bool;
  cl_security_invalidated : bool;
  cl_shutdown_claimed : bool;
  cl_sock : Z;
  cl_connection_id : Z;
  cl_peer_key : Z;
  cl_receiving_interface : Z;
  cl_client_id : bytes;
  cl_principal : argus_machine_principal_t;
  cl_session_slot : option nat;
  cl_keep_alive_s : Z;
  cl_last_activity_us : Z
}.

#[export] Instance eta_client : Eta argus_mqtt_client_t := fun c =>
  Client (cl_in_use c) (cl_connected c) (cl_security_invalidated c) (cl_shutdown_claimed c)
    (cl_sock c) (cl_connection_id c) (cl_peer_key c) (cl_receiving_interface c) (cl_client_id c)
    (cl_principal c) (cl_session_slot c) (cl_keep_alive_s c) (cl_last_activity_us c).

Record argus_mqtt_session_t := Session { ss_in_use : bool; ss_subscriptions : list bytes }.

Record argus_mqtt_disconnect_target_t := Target { tg_slot : nat; tg_connection_id : Z; tg_socket_fd : Z }.

(** The local variables of [argus_mqtt_handle_connect] between its critical sections. *)
Record handshake := Handshake {
  hs_expected_connection_id : Z;
  hs_captured_generation : Z;
  hs_request : argus_mqtt_connect_request_t
}.

(** The fields of [s_broker] under [client_lock], the admission counters, and the
    handshake each client task is in. *)
Record broker := Broker {
  bk_clients : list argus_mqtt_client_t;
  bk_sessions : list argus_mqtt_session_t;
  bk_invalidations : argus_mqtt_invalidation_journal_t;
  bk_next_connection_id : Z;
  bk_peak_pending : Z;
  bk_peak_authenticated : Z;
  bk_refused_preconnect_pool : Z;
  bk_refused_preconnect_source : Z;
  bk_refused_preconnect_reserved : Z;
  bk_refused_session_pool : Z;
  bk_handshakes : list (option handshake)
}.

#[export] Instance eta_broker : Eta broker := fun b =>
  Broker (bk_clients b) (bk_sessions b) (bk_invalidations b) (bk_next_connection_id b)
    (bk_peak_pending b) (bk_peak_authenticated b) (bk_refused_preconnect_pool b)
    (bk_refused_preconnect_source b) (bk_refused_preconnect_reserved b)
    (bk_refused_session_pool b) (bk_handshakes b).

Definition zero_client : argus_mqtt_client_t :=
  Client false false false false 0 0 0 0 [] no_principal None 0 0.

(** What [argus_mqtt_broker_start] resets; [next] is the connection counter, which it
    keeps. *)
Definition broker_reset (next : Z) : broker :=
  Broker (replicate ARGUS_MQTT_MAX_CONNECTIONS zero_client)
    (replicate ARGUS_MQTT_MAX_CLIENTS (Session false [])) argus_mqtt_invalidation_init next
    0 0 0 0 0 0 (replicate ARGUS_MQTT_MAX_CONNECTIONS None).

(** ** Admission before login *)

Inductive argus_mqtt_preconnect_decision_t :=
| ARGUS_MQTT_PRECONNECT_ADMIT
| ARGUS_MQTT_PRECONNECT_REFUSE_POOL
| ARGUS_MQTT_PRECONNECT_REFUSE_RESERVED
| ARGUS_MQTT_PRECONNECT_REFUSE_SOURCE.

Definition argus_mqtt_broker_preconnect_decide (pending pending_from_source : nat) (source_proven : bool)
    : argus_mqtt_preconnect_decision_t :=
  if (ARGUS_MQTT_MAX_PRECONNECT <=? pending)%nat then ARGUS_MQTT_PRECONNECT_REFUSE_POOL
  else if (ARGUS_MQTT_MAX_PRECONNECT_UNPROVEN <=? pending)%nat && negb source_proven
  then ARGUS_MQTT_PRECONNECT_REFUSE_RESERVED
  else if (ARGUS_MQTT_MAX_PRECONNECT_PER_SOURCE <=? pending_from_source)%nat
  then ARGUS_MQTT_PRECONNECT_REFUSE_SOURCE
  else ARGUS_MQTT_PRECONNECT_ADMIT.

Definition count_clients (p : argus_mqtt_client_t -> bool) (l : list argus_mqtt_client_t) : nat :=
  length (List.filter p l).

Definition is_pending (c : argus_mqtt_client_t) : bool := cl_in_use c && negb (cl_connected c).
Definition is_authenticated (c : argus_mqtt_client_t) : bool := cl_in_use c && cl_connected c.
Definition pending_from (peer_key : Z) (c : argus_mqtt_client_t) : bool :=
  is_pending c && (cl_peer_key c =? peer_key).

Definition argus_mqtt_occupancy_locked (b : broker) : nat * nat :=
  (count_clients is_pending (bk_clients b), count_clients is_authenticated (bk_clients b)).

(** [source_is_proven] is [argus_machine_service_source_is_proven], asked only when the
    reserved share is in play. *)
Definition argus_mqtt_preconnect_admit_locked (b : broker) (peer_key : Z) (source_is_proven : Z -> bool)
    : bool * broker :=
  let pending := count_clients is_pending (bk_clients b) in
  let pending_from_source := count_clients (pending_from peer_key) (bk_clients b) in
  let proven := (ARGUS_MQTT_MAX_PRECONNECT_UNPROVEN <=? pending)%nat && source_is_proven peer_key in
  match argus_mqtt_broker_preconnect_decide pending pending_from_source proven with
  | ARGUS_MQTT_PRECONNECT_REFUSE_POOL =>
      (false, b <| bk_refused_preconnect_pool ::= fun n => u32 (n + 1) |>)
  | ARGUS_MQTT_PRECONNECT_REFUSE_RESERVED =>
      (false, b <| bk_refused_preconnect_reserved ::= fun n => u32 (n + 1) |>)
  | ARGUS_MQTT_PRECONNECT_REFUSE_SOURCE =>
      (false, b <| bk_refused_preconnect_source ::= fun n => u32 (n + 1) |>)
  | ARGUS_MQTT_PRECONNECT_ADMIT =>
      (true, b <| bk_peak_pending ::= fun n => Z.max n (Z.of_nat pending + 1) |>)
  end.

Inductive alloc_result := AllocOk (slot : nat) | AllocRefused | AllocInvariantViolated.

Definition new_client (sock connection_id peer_key receiving_interface : Z) : argus_mqtt_client_t :=
  Client true false false false sock connection_id peer_key receiving_interface [] no_principal None 0 0.

(** The accepted socket's task starts with no handshake. *)
Definition argus_mqtt_alloc_client_locked (b : broker) (sock peer_key receiving_interface : Z)
    (source_is_proven : Z -> bool) : alloc_result * broker :=
  let '(admitted, b) := argus_mqtt_preconnect_admit_locked b peer_key source_is_proven in
  if negb admitted then (AllocRefused, b)
  else
    match find_index (fun c => negb (cl_in_use c)) (bk_clients b) with
    | None => (AllocInvariantViolated, b)
    | Some i =>
        let id := u64 (bk_next_connection_id b + 1) in
        (AllocOk i,
         b <| bk_clients ::= <[i := new_client sock id peer_key receiving_interface]> |>
           <| bk_next_connection_id := id |>
           <| bk_handshakes ::= <[i := None]> |>)
    end.

(** ** Session slots *)

(** The slot a client that completes CONNECT gets: its own, or the first free one. *)
Definition argus_mqtt_session_claim_locked (sessions : list argus_mqtt_session_t)
    (c : argus_mqtt_client_t) : option (nat * list argus_mqtt_session_t) :=
  match cl_session_slot c with
  | Some s => Some (s, sessions)
  | None =>
      s ← find_index (fun s => negb (ss_in_use s)) sessions;
      Some (s, <[s := Session true []]> sessions)
  end.

Definition argus_mqtt_session_release_locked (sessions : list argus_mqtt_session_t)
    (c : argus_mqtt_client_t) : list argus_mqtt_session_t :=
  match cl_session_slot c with
  | None => sessions
  | Some s => <[s := Session false []]> sessions
  end.

(** ** Login *)

Definition argus_mqtt_duplicate_client_id_locked (clients : list argus_mqtt_client_t)
    (requester : nat) (client_id : bytes) : bool :=
  existsb (fun ic => negb (ic.1 =? requester)%nat && cl_in_use ic.2 && cl_connected ic.2
                     && bool_decide (cl_client_id ic.2 = client_id))
    (zip (seq 0 (length clients)) clients).

Definition argus_mqtt_client_admitted_locked (c : argus_mqtt_client_t) (expected_connection_id : Z) : bool :=
  cl_in_use c && cl_connected c && negb (cl_security_invalidated c)
  && (cl_connection_id c =? expected_connection_id).

Definition argus_mqtt_bind_allowed_locked (invalidations : argus_mqtt_invalidation_journal_t)
    (c : argus_mqtt_client_t) (expected_connection_id : Z) (identifier : bytes)
    (captured_invalidation_generation : Z) (duplicate_client_id : bool) : bool :=
  cl_in_use c && negb (cl_connected c) && negb (cl_security_invalidated c)
  && (cl_connection_id c =? expected_connection_id) && negb duplicate_client_id
  && negb (argus_mqtt_invalidation_since invalidations identifier captured_invalidation_generation).

(** The first critical section of [argus_mqtt_handle_connect]. *)
Definition connect_begin (b : broker) (i : nat) (request : argus_mqtt_connect_request_t)
    : bool * broker :=
  match bk_clients b !! i with
  | None => (false, b)
  | Some c =>
      let authentication_pending :=
        cl_in_use c && negb (cl_connected c) && negb (cl_security_invalidated c) in
      if authentication_pending then
        (true, b <| bk_handshakes ::=
                   <[i := Some (Handshake (cl_connection_id c)
                                  (argus_mqtt_invalidation_capture (bk_invalidations b)) request)]> |>)
      else (false, b)
  end.

Inductive bind_result := BindOk | BindNoCapacity | BindDenied.

(** The record of a client that is logged in. *)
Definition bound_client (c : argus_mqtt_client_t) (slot : nat) (request : argus_mqtt_connect_request_t)
    (principal : argus_machine_principal_t) (now_us : Z) : argus_mqtt_client_t :=
  Client (cl_in_use c) true (cl_security_invalidated c) (cl_shutdown_claimed c) (cl_sock c)
    (cl_connection_id c) (cl_peer_key c) (cl_receiving_interface c)
    (strlcpy (rq_client_id request) 33) principal (Some slot) (rq_keep_alive_s request) now_us.

(** The second critical section, after the credentials were accepted for [principal]. *)
Definition connect_bind (b : broker) (i : nat) (principal : argus_machine_principal_t) (now_us : Z)
    : bind_result * broker :=
  match bk_clients b !! i, bk_handshakes b !! i with
  | Some c, Some (Some h) =>
      let b := b <| bk_handshakes ::= <[i := None]> |> in
      let duplicate_client_id :=
        argus_mqtt_duplicate_client_id_locked (bk_clients b) i (rq_client_id (hs_request h)) in
      if argus_mqtt_bind_allowed_locked (bk_invalidations b) c (hs_expected_connection_id h)
           (mp_identifier principal) (hs_captured_generation h) duplicate_client_id
      then
        match argus_mqtt_session_claim_locked (bk_sessions b) c with
        | None => (BindNoCapacity, b <| bk_refused_session_pool ::= fun n => u32 (n + 1) |>)
        | Some (slot, sessions) =>
            let clients := <[i := bound_client c slot (hs_request h) principal now_us]> (bk_clients b) in
            (BindOk,
             b <| bk_clients := clients |> <| bk_sessions := sessions |>
               <| bk_peak_authenticated ::= fun n => Z.max n (Z.of_nat (count_clients is_authenticated clients)) |>)
        end
      else (BindDenied, b)
  | _, _ => (BindDenied, b)
  end.

(** ** Subscriptions *)

(** The last critical section of [argus_mqtt_handle_subscribe]. *)
Definition subscribe_commit (b : broker) (i : nat) (connection_id : Z) (filters : list bytes)
    : bool * broker :=
  match bk_clients b !! i with
  | None => (false, b)
  | Some c =>
      match cl_session_slot c with
      | None => (false, b)
      | Some s =>
          match bk_sessions b !! s with
          | None => (false, b)
          | Some session =>
              if argus_mqtt_client_admitted_locked c connection_id
                 && (length (ss_subscriptions session) + length filters
                     <=? ARGUS_MQTT_MAX_SUBS_PER_CLIENT)%nat
              then (true, b <| bk_sessions ::=
                            <[s := Session (ss_in_use session)
                                     (ss_subscriptions session
                                      ++ ((fun f => strlcpy f ARGUS_MQTT_MAX_TOPIC_LEN) <$> filters))]> |>)
              else (false, b)
          end
      end
  end.

(** The sockets a publication goes to, at most [capacity] of them. *)
Definition argus_mqtt_collect_subscribers_locked (b : broker) (topic : bytes) (capacity : nat) : list Z :=
  take capacity
    (omap (fun c =>
       if negb (cl_in_use c) || negb (cl_connected c) || (cl_sock c <? 0) then None
       else
         s ← cl_session_slot c;
         session ← bk_sessions b !! s;
         if existsb (fun f => argus_mqtt_topic_matches f topic) (ss_subscriptions session)
         then Some (cl_sock c) else None)
     (bk_clients b)).

(** ** Revocation of a machine *)

Definition argus_mqtt_disconnect_matches_locked (identifier : bytes) (c : argus_mqtt_client_t) : bool :=
  cl_in_use c && cl_connected c && (0 <=? cl_sock c)
  && bool_decide (mp_identifier (cl_principal c) = identifier).

Definition invalidated (c : argus_mqtt_client_t) : argus_mqtt_client_t :=
  Client (cl_in_use c) (cl_connected c) true (cl_shutdown_claimed c) (cl_sock c) (cl_connection_id c)
    (cl_peer_key c) (cl_receiving_interface c) (cl_client_id c) (cl_principal c) (cl_session_slot c)
    (cl_keep_alive_s c) (cl_last_activity_us c).

Definition set_claim (claimed : bool) (c : argus_mqtt_client_t) : argus_mqtt_client_t :=
  Client (cl_in_use c) (cl_connected c) (cl_security_invalidated c) claimed (cl_sock c) (cl_connection_id c)
    (cl_peer_key c) (cl_receiving_interface c) (cl_client_id c) (cl_principal c) (cl_session_slot c)
    (cl_keep_alive_s c) (cl_last_activity_us c).

Definition argus_mqtt_broker_fence_machine_authentication (b : broker) (identifier : bytes)
    : esp_err_t * broker :=
  match identifier with
  | [] => (ESP_ERR_INVALID_ARG, b)
  | _ =>
      let '(recorded, j) := argus_mqtt_invalidation_record (bk_invalidations b) identifier in
      if recorded then
        (ESP_OK, b <| bk_invalidations := j |>
                   <| bk_clients ::= fmap (fun c =>
                        if argus_mqtt_disconnect_matches_locked identifier c then invalidated c else c) |>)
      else (ESP_ERR_INVALID_ARG, b)
  end.

(** [None] when the record does not match or its shutdown is already claimed; the record
    is invalidated in the second case. *)
Definition argus_mqtt_claim_disconnect_locked (c : argus_mqtt_client_t) (slot : nat) (identifier : bytes)
    : argus_mqtt_client_t * option argus_mqtt_disconnect_target_t :=
  if negb (argus_mqtt_disconnect_matches_locked identifier c) then (c, None)
  else
    let c := invalidated c in
    if cl_shutdown_claimed c then (c, None)
    else (set_claim true c, Some (Target slot (cl_connection_id c) (cl_sock c))).

(** The claiming loop of [argus_mqtt_broker_disconnect_machine]. *)
Fixpoint claim_all (identifier : bytes) (slot : nat) (clients : list argus_mqtt_client_t)
    : list argus_mqtt_client_t * list argus_mqtt_disconnect_target_t :=
  match clients with
  | [] => ([], [])
  | c :: clients =>
      let '(c, target) := argus_mqtt_claim_disconnect_locked c slot identifier in
      let '(clients, targets) := claim_all identifier (S slot) clients in
      (c :: clients, match target with Some t => t :: targets | None => targets end)
  end.

Definition disconnect_claim (b : broker) (identifier : bytes) : list argus_mqtt_disconnect_target_t * broker :=
  let '(clients, targets) := claim_all identifier 0 (bk_clients b) in
  (targets, b <| bk_clients := clients |>).

Definition argus_mqtt_release_disconnect_claim_locked (c : argus_mqtt_client_t)
    (target : argus_mqtt_disconnect_target_t) : bool * argus_mqtt_client_t :=
  if negb (cl_shutdown_claimed c) || negb (cl_in_use c)
     || negb (cl_connection_id c =? tg_connection_id target) || negb (cl_sock c =? tg_socket_fd target)
  then (false, c)
  else (true, set_claim false c).

Definition disconnect_release (b : broker) (target : argus_mqtt_disconnect_target_t) : bool * broker :=
  match bk_clients b !! tg_slot target with
  | None => (false, b)
  | Some c =>
      let '(released, c) := argus_mqtt_release_disconnect_claim_locked c target in
      (released, b <| bk_clients ::= <[tg_slot target := c]> |>)
  end.

(** ** Closing *)

Definition argus_mqtt_client_close_allowed_locked (c : argus_mqtt_client_t) : bool :=
  negb (cl_shutdown_claimed c).

Definition closed_client (c : argus_mqtt_client_t) : argus_mqtt_client_t :=
  Client false false false false (-1) (cl_connection_id c) (cl_peer_key c) (cl_receiving_interface c)
    (cl_client_id c) no_principal None (cl_keep_alive_s c) (cl_last_activity_us c).

(** [false]: a revocation holds the descriptor and the task has to wait. *)
Definition argus_mqtt_close_client (b : broker) (i : nat) : bool * broker :=
  match bk_clients b !! i with
  | None => (false, b)
  | Some c =>
      if negb (argus_mqtt_client_close_allowed_locked c) then (false, b)
      else
        (true, b <| bk_sessions := argus_mqtt_session_release_locked (bk_sessions b) c |>
                 <| bk_clients ::= <[i := closed_client c]> |>
                 <| bk_handshakes ::= <[i := None]> |>)
  end.

(** ** Activity *)

Definition active_client (now_us : Z) (c : argus_mqtt_client_t) : argus_mqtt_client_t :=
  Client (cl_in_use c) (cl_connected c) (cl_security_invalidated c) (cl_shutdown_claimed c) (cl_sock c)
    (cl_connection_id c) (cl_peer_key c) (cl_receiving_interface c) (cl_client_id c) (cl_principal c)
    (cl_session_slot c) (cl_keep_alive_s c) now_us.

(** A packet begins to arrive: the critical section of the client task that notes it. *)
Definition note_activity (b : broker) (i : nat) (now_us : Z) : broker :=
  match bk_clients b !! i with
  | None => b
  | Some c => b <| bk_clients ::= <[i := active_client now_us c]> |>
  end.

(** ** Sections of the server's task and of a stop *)

Definition set_sock (sock : Z) (c : argus_mqtt_client_t) : argus_mqtt_client_t :=
  Client (cl_in_use c) (cl_connected c) (cl_security_invalidated c) (cl_shutdown_claimed c) sock
    (cl_connection_id c) (cl_peer_key c) (cl_receiving_interface c) (cl_client_id c) (cl_principal c)
    (cl_session_slot c) (cl_keep_alive_s c) (cl_last_activity_us c).

(** The record of a connection whose task could not be created. *)
Definition drop_client (slot : nat) (b : broker) : broker :=
  match bk_clients b !! slot with
  | None => b
  | Some c =>
      b <| bk_sessions := argus_mqtt_session_release_locked (bk_sessions b) c |>
        <| bk_clients ::= <[slot := Client false (cl_connected c) (cl_security_invalidated c) (cl_shutdown_claimed c) (-1)
             (cl_connection_id c) (cl_peer_key c) (cl_receiving_interface c) (cl_client_id c) (cl_principal c)
             None (cl_keep_alive_s c) (cl_last_activity_us c)]> |>
  end.

Definition has_socket (c : argus_mqtt_client_t) : bool := cl_in_use c && (0 <=? cl_sock c).

(** [argus_mqtt_broker_stop] takes every connection's socket; [None] while a shutdown is
    claimed. *)
Definition retire_sockets (b : broker) : option (list Z) * broker :=
  if existsb cl_shutdown_claimed (bk_clients b) then (None, b)
  else (Some (cl_sock <$> List.filter has_socket (bk_clients b)),
        b <| bk_clients ::= fmap (fun c => if has_socket c then set_sock (-1) c else c) |>).

(** ** Runs *)

Inductive broker_event :=
| EvAccept (sock peer_key receiving_interface : Z) (source_is_proven : Z -> bool)
| EvBegin (i : nat) (request : argus_mqtt_connect_request_t)
| EvBind (i : nat) (principal : argus_machine_principal_t) (now_us : Z)
| EvSubscribe (i : nat) (connection_id : Z) (filters : list bytes)
| EvFence (identifier : bytes)
| EvClaim (identifier : bytes)
| EvRelease (target : argus_mqtt_disconnect_target_t)
| EvClose (i : nat)
| EvActivity (i : nat) (now_us : Z)
| EvRetire
| EvDrop (i : nat).

(** A record is dropped for want of a task, so nothing has logged it in. *)
Definition broker_step (b : broker) (ev : broker_event) : broker :=
  match ev with
  | EvAccept sock peer iface proven => (argus_mqtt_alloc_client_locked b sock peer iface proven).2
  | EvBegin i request => (connect_begin b i request).2
  | EvBind i principal now => (connect_bind b i principal now).2
  | EvSubscribe i conn filters => (subscribe_commit b i conn filters).2
  | EvFence id => (argus_mqtt_broker_fence_machine_authentication b id).2
  | EvClaim id => (disconnect_claim b id).2
  | EvRelease target => (disconnect_release b target).2
  | EvClose i => (argus_mqtt_close_client b i).2
  | EvActivity i now => note_activity b i now
  | EvRetire => (retire_sockets b).2
  | EvDrop i => if from_option cl_connected true (bk_clients b !! i) then b else drop_client i b
  end.

Definition broker_run : broker -> list broker_event -> broker := foldl broker_step.

(** ** Capacity *)

Definition sessions_in_use (l : list argus_mqtt_session_t) : nat := length (List.filter ss_in_use l).

(** The well-formedness of the pools: a client is connected exactly when it owns a
    session slot, the slots in use are the owned ones, and no slot is shared. *)
Record pools_ok (b : broker) : Prop := {
  po_clients : length (bk_clients b) = ARGUS_MQTT_MAX_CONNECTIONS;
  po_sessions : length (bk_sessions b) = ARGUS_MQTT_MAX_CLIENTS;
  po_connected : forall i c, bk_clients b !! i = Some c ->
    (cl_connected c = true <-> is_Some (cl_session_slot c)) /\ (cl_connected c = true -> cl_in_use c = true);
  po_owned : forall i c s, bk_clients b !! i = Some c -> cl_session_slot c = Some s ->
    exists ss, bk_sessions b !! s = Some ss /\ ss_in_use ss = true;
  po_unshared : forall i j c d s, bk_clients b !! i = Some c -> bk_clients b !! j = Some d ->
    cl_session_slot c = Some s -> cl_session_slot d = Some s -> i = j;
  po_count : count_clients is_authenticated (bk_clients b) = sessions_in_use (bk_sessions b);
  po_pending : (count_clients is_pending (bk_clients b) <= ARGUS_MQTT_MAX_PRECONNECT)%nat;
  po_source : forall peer,
    (count_clients (pending_from peer) (bk_clients b) <= ARGUS_MQTT_MAX_PRECONNECT_PER_SOURCE)%nat
}.

Lemma filter_insert_count {A} (p : A -> bool) l i x y : l !! i = Some x ->
  (length (List.filter p (<[i := y]> l)) + (if p x then 1 else 0)
   = length (List.filter p l) + (if p y then 1 else 0))%nat.
Proof.
  revert i. induction l as [|z l IH]; intros [|i] Hi; simplify_eq/=.
  - destruct (p x), (p y); cbn; lia.
  - specialize (IH i Hi). destruct (p z); cbn; lia.
Qed.

Lemma filter_full {A} (p : A -> bool) l : find_index (fun x => negb (p x)) l = None ->
  length (List.filter p l) = length l.
Proof.
  induction l as [|x l IH]; [done|]. cbn. destruct (p x); cbn; [|done].
  destruct (find_index _ l); [done|]. intros _. by rewrite IH.
Qed.

Lemma filter_length_le {A} (p : A -> bool) l : (length (List.filter p l) <= length l)%nat.
Proof. induction l as [|x l IH]; cbn; [lia|]. destruct (p x); cbn; lia. Qed.

Lemma occupancy_split l :
  length (List.filter cl_in_use l) = (count_clients is_pending l + count_clients is_authenticated l)%nat.
Proof.
  unfold count_clients. induction l as [|c l IH]; [done|]. cbn. unfold is_pending at 1, is_authenticated at 1.
  destruct (cl_in_use c), (cl_connected c); cbn; lia.
Qed.

(** Changes that leave the pools alone: [d] is [c] up to the claim and the revocation
    mark, which may only be set. *)
Definition same_client (c d : argus_mqtt_client_t) : Prop :=
  cl_in_use d = cl_in_use c /\ cl_connected d = cl_connected c
  /\ cl_session_slot d = cl_session_slot c /\ cl_peer_key d = cl_peer_key c
  /\ cl_principal d = cl_principal c
  /\ (cl_security_invalidated c = true -> cl_security_invalidated d = true).

Definition same_session (s t : argus_mqtt_session_t) : Prop := ss_in_use t = ss_in_use s.

Lemma filter_same {A} (R : A -> A -> Prop) (p : A -> bool) l l' :
  (forall x y, R x y -> p y = p x) -> Forall2 R l l' ->
  length (List.filter p l') = length (List.filter p l).
Proof.
  intros Hp. induction 1 as [|x y l l' Hxy Hl IH]; [done|]. cbn. rewrite (Hp x y Hxy).
  destruct (p x); cbn; congruence.
Qed.

Lemma pools_same b b' : pools_ok b ->
  Forall2 same_client (bk_clients b) (bk_clients b') ->
  Forall2 same_session (bk_sessions b) (bk_sessions b') -> pools_ok b'.
Proof.
  intros [Hc Hs Hcn Ho Hu Hn Hp Hsrc] Fc Fs.
  assert (Hback : forall i d, bk_clients b' !! i = Some d -> exists c, bk_clients b !! i = Some c /\ same_client c d).
  { intros i d Hd. destruct (Forall2_lookup_r _ _ _ _ _ Fc Hd) as (c & ? & ?). eauto. }
  split.
  - by rewrite <- (Forall2_length _ _ _ Fc).
  - by rewrite <- (Forall2_length _ _ _ Fs).
  - intros i d Hd. destruct (Hback i d Hd) as (c & Hi & (-> & -> & -> & _)). eauto.
  - intros i d s Hd Hsl. destruct (Hback i d Hd) as (c & Hi & (_ & _ & Heq & _)). rewrite Heq in Hsl.
    destruct (Ho i c s Hi Hsl) as (ss & Hss & Huse).
    destruct (Forall2_lookup_l _ _ _ _ _ Fs Hss) as (ss' & ? & He). exists ss'. split; [done|].
    unfold same_session in He. congruence.
  - intros i j c d s Hi Hj Hci Hdj. destruct (Hback i c Hi) as (c0 & ? & (_ & _ & E1 & _)).
    destruct (Hback j d Hj) as (d0 & ? & (_ & _ & E2 & _)). apply (Hu i j c0 d0 s); congruence.
  - unfold count_clients, sessions_in_use in *.
    rewrite (filter_same same_client is_authenticated _ _ ltac:(unfold is_authenticated; intros x y (-> & -> & _); done) Fc).
    rewrite (filter_same same_session ss_in_use _ _ ltac:(done) Fs). done.
  - unfold count_clients in *.
    by rewrite (filter_same same_client is_pending _ _ ltac:(unfold is_pending; intros x y (-> & -> & _); done) Fc).
  - intros peer. specialize (Hsrc peer). unfold count_clients in *.
    rewrite (filter_same same_client (pending_from peer) _ _
      ltac:(unfold pending_from, is_pending; intros x y (-> & -> & _ & -> & _); done) Fc). done.
Qed.

Lemma same_client_refl c : same_client c c.
Proof. by repeat split. Qed.
Lemma same_clients_refl l : Forall2 same_client l l.
Proof. induction l; constructor; auto using same_client_refl. Qed.
Lemma same_sessions_refl l : Forall2 same_session l l.
Proof. induction l; by constructor. Qed.
Lemma same_clients_insert l i c d : l !! i = Some c -> same_client c d -> Forall2 same_client l (<[i := d]> l).
Proof.
  intros Hi Hs. apply Forall2_same_length_lookup. rewrite length_insert. split; [done|].
  intros j x y Hx Hy. destruct (decide (i = j)) as [<-|Hne].
  - rewrite list_lookup_insert_eq in Hy by eauto using lookup_lt_Some. by simplify_eq.
  - rewrite list_lookup_insert_ne in Hy by done. simplify_eq. apply same_client_refl.
Qed.
Lemma same_sessions_insert l i c d : l !! i = Some c -> same_session c d -> Forall2 same_session l (<[i := d]> l).
Proof.
  intros Hi Hs. apply Forall2_same_length_lookup. rewrite length_insert. split; [done|].
  intros j x y Hx Hy. destruct (decide (i = j)) as [<-|Hne].
  - rewrite list_lookup_insert_eq in Hy by eauto using lookup_lt_Some. by simplify_eq.
  - rewrite list_lookup_insert_ne in Hy by done. by simplify_eq.
Qed.

#[export] Hint Resolve same_client_refl same_clients_refl same_sessions_refl : argus.

Lemma claim_all_same id l : forall k, Forall2 same_client l (claim_all id k l).1.
Proof.
  induction l as [|c l IH]; intros k; [constructor|]. cbn [claim_all].
  specialize (IH (S k)). destruct (claim_all id (S k) l) as [l' ts] eqn:E.
  destruct (argus_mqtt_claim_disconnect_locked c k id) as [c' t] eqn:Ec. cbn [fst].
  constructor; [|done]. unfold argus_mqtt_claim_disconnect_locked in Ec.
  destruct (negb (argus_mqtt_disconnect_matches_locked id c)); simplify_eq; [auto with argus|].
  destruct (cl_shutdown_claimed (invalidated c)); simplify_eq; by repeat split.
Qed.

Lemma fmap_same (f : argus_mqtt_client_t -> argus_mqtt_client_t) l :
  (forall c, same_client c (f c)) -> Forall2 same_client l (f <$> l).
Proof. intros Hf. induction l; constructor; auto. Qed.

(** The events other than accept, bind, close and drop only mark records. *)
Definition marks_only (ev : broker_event) : bool :=
  match ev with EvAccept _ _ _ _ | EvBind _ _ _ | EvClose _ | EvDrop _ => false | _ => true end.

Lemma marks_same b ev : marks_only ev = true ->
  Forall2 same_client (bk_clients b) (bk_clients (broker_step b ev))
  /\ Forall2 same_session (bk_sessions b) (bk_sessions (broker_step b ev)).
Proof.
  destruct ev as [sock peer iface proven|i rq|i p now|i conn fs|id|id|t|i|i now| |i]; try done; intros _; cbn [broker_step].
  - unfold connect_begin. destruct (bk_clients b !! i); [|auto with argus]. destruct (_ && _); auto with argus.
  - unfold subscribe_commit. destruct (bk_clients b !! i) as [c|]; [|auto with argus].
    destruct (cl_session_slot c) as [s|]; [|auto with argus].
    destruct (bk_sessions b !! s) as [ss|] eqn:Hss; [|auto with argus]. destruct (_ && _); [|auto with argus].
    split; [apply same_clients_refl|]. by apply (same_sessions_insert _ _ ss).
  - unfold argus_mqtt_broker_fence_machine_authentication. destruct id as [|x id]; [auto with argus|].
    destruct (argus_mqtt_invalidation_record _ _) as [[] j]; [|auto with argus].
    split; [|apply same_sessions_refl].
    apply fmap_same. intros c. destruct (argus_mqtt_disconnect_matches_locked _ c); by repeat split.
  - pose proof (claim_all_same id (bk_clients b) 0) as Hs. unfold disconnect_claim.
    destruct (claim_all id 0 (bk_clients b)). split; [done|apply same_sessions_refl].
  - unfold disconnect_release. destruct (bk_clients b !! tg_slot t) as [c|] eqn:Hc; [|auto with argus].
    destruct (argus_mqtt_release_disconnect_claim_locked c t) as [ok c'] eqn:Hr.
    split; [|apply same_sessions_refl]. apply (same_clients_insert _ _ c); [done|].
    unfold argus_mqtt_release_disconnect_claim_locked in Hr. destruct (_ || _) in Hr; simplify_eq; by repeat split.
  - unfold note_activity. destruct (bk_clients b !! i) as [c|] eqn:Hc; [|auto with argus].
    split; [|apply same_sessions_refl]. by apply (same_clients_insert _ _ c).
  - unfold retire_sockets. destruct (existsb _ _); [auto with argus|]. split; [|apply same_sessions_refl].
    apply fmap_same. intros c. destruct (has_socket c); by repeat split.
Qed.

Lemma count_client_insert p l i c d : l !! i = Some c ->
  (count_clients p (<[i := d]> l) + (if p c then 1 else 0)
   = count_clients p l + (if p d then 1 else 0))%nat.
Proof. apply filter_insert_count. Qed.

(** What the replacement of one record has to satisfy. *)
Lemma pools_replace b b' i c d :
  pools_ok b -> bk_clients b !! i = Some c -> bk_clients b' = <[i := d]> (bk_clients b) ->
  length (bk_sessions b') = ARGUS_MQTT_MAX_CLIENTS ->
  (cl_connected d = true <-> is_Some (cl_session_slot d)) -> (cl_connected d = true -> cl_in_use d = true) ->
  (forall s, cl_session_slot d = Some s -> exists ss, bk_sessions b' !! s = Some ss /\ ss_in_use ss = true) ->
  (forall j e s, j <> i -> bk_clients b !! j = Some e -> cl_session_slot e = Some s ->
     cl_session_slot d <> Some s /\ exists ss, bk_sessions b' !! s = Some ss /\ ss_in_use ss = true) ->
  (sessions_in_use (bk_sessions b') + (if is_authenticated c then 1 else 0)
   = sessions_in_use (bk_sessions b) + (if is_authenticated d then 1 else 0))%nat ->
  (is_pending d = true -> is_pending c = false ->
     (count_clients is_pending (bk_clients b) < ARGUS_MQTT_MAX_PRECONNECT)%nat /\
     (count_clients (pending_from (cl_peer_key d)) (bk_clients b) < ARGUS_MQTT_MAX_PRECONNECT_PER_SOURCE)%nat) ->
  (is_pending d = true -> is_pending c = true -> cl_peer_key d = cl_peer_key c) ->
  pools_ok b'.
Proof.
  intros [Hc Hs Hcn Ho Hu Hn Hp Hsrc] Hi Heq Hls Hd1 Hd2 Hd3 Hoth Hcnt Hpend Hkey.
  assert (Hcase : forall j e, bk_clients b' !! j = Some e -> (j = i /\ e = d) \/ (j <> i /\ bk_clients b !! j = Some e)).
  { intros j e He. rewrite Heq in He. destruct (decide (i = j)) as [<-|Hne].
    - rewrite list_lookup_insert_eq in He by eauto using lookup_lt_Some. left. by simplify_eq.
    - rewrite list_lookup_insert_ne in He by done. by right. }
  pose proof (count_client_insert is_authenticated _ _ _ d Hi) as Ha.
  pose proof (count_client_insert is_pending _ _ _ d Hi) as Hq.
  split.
  - by rewrite Heq, length_insert.
  - done.
  - intros j e He. destruct (Hcase j e He) as [[-> ->]|[_ He']]; eauto.
  - intros j e s He Hsl. destruct (Hcase j e He) as [[-> ->]|[Hne He']]; [eauto|].
    by destruct (Hoth j e s Hne He' Hsl).
  - intros j k e f s He Hf Hes Hfs.
    destruct (Hcase j e He) as [[-> ->]|[Hne He']], (Hcase k f Hf) as [[-> ->]|[Hnf Hf']]; [done| | |eauto].
    + by destruct (Hoth k f s Hnf Hf' Hfs).
    + by destruct (Hoth j e s Hne He' Hes).
  - rewrite Heq. lia.
  - rewrite Heq. destruct (is_pending d) eqn:E1; [|destruct (is_pending c); lia].
    destruct (is_pending c) eqn:E2; [lia|]. destruct (Hpend eq_refl eq_refl). lia.
  - intros peer. rewrite Heq. pose proof (count_client_insert (pending_from peer) _ _ _ d Hi) as Hk.
    specialize (Hsrc peer). unfold pending_from at 2 4 in Hk.
    destruct (is_pending d) eqn:E1; cbn [andb] in Hk; [|destruct (is_pending c && _) in Hk; lia].
    destruct (Z.eqb_spec (cl_peer_key d) peer) as [<-|Hne]; [|destruct (is_pending c && _) in Hk; lia].
    destruct (is_pending c) eqn:E2; cbn [andb] in Hk.
    + rewrite <- (Hkey eq_refl eq_refl), Z.eqb_refl in Hk. lia.
    + destruct (Hpend eq_refl eq_refl). lia.
Qed.

(** The connection record an admitted socket takes is free, and there is one. *)
Lemma admit_room b peer proven b' : pools_ok b ->
  argus_mqtt_preconnect_admit_locked b peer proven = (true, b') ->
  bk_clients b' = bk_clients b /\ bk_sessions b' = bk_sessions b
  /\ (count_clients is_pending (bk_clients b) < ARGUS_MQTT_MAX_PRECONNECT)%nat
  /\ (count_clients (pending_from peer) (bk_clients b) < ARGUS_MQTT_MAX_PRECONNECT_PER_SOURCE)%nat.
Proof.
  intros Hb. unfold argus_mqtt_preconnect_admit_locked, argus_mqtt_broker_preconnect_decide.
  destruct (Nat.leb_spec ARGUS_MQTT_MAX_PRECONNECT (count_clients is_pending (bk_clients b))); [done|].
  destruct (_ && negb _); [done|].
  destruct (Nat.leb_spec ARGUS_MQTT_MAX_PRECONNECT_PER_SOURCE
    (count_clients (pending_from peer) (bk_clients b))); [done|].
  intros [= <-]. done.
Qed.

Lemma admit_refuse_same b peer proven : bk_clients (argus_mqtt_preconnect_admit_locked b peer proven).2 = bk_clients b
  /\ bk_sessions (argus_mqtt_preconnect_admit_locked b peer proven).2 = bk_sessions b
  /\ bk_invalidations (argus_mqtt_preconnect_admit_locked b peer proven).2 = bk_invalidations b
  /\ bk_handshakes (argus_mqtt_preconnect_admit_locked b peer proven).2 = bk_handshakes b.
Proof.
  unfold argus_mqtt_preconnect_admit_locked. by destruct (argus_mqtt_broker_preconnect_decide _ _ _).
Qed.

Lemma authenticated_bound b : pools_ok b ->
  (count_clients is_authenticated (bk_clients b) <= ARGUS_MQTT_MAX_CLIENTS)%nat.
Proof.
  intros Hb. rewrite (po_count _ Hb), <- (po_sessions _ Hb). apply filter_length_le.
Qed.

Lemma room_for_admitted b : pools_ok b ->
  (count_clients is_pending (bk_clients b) < ARGUS_MQTT_MAX_PRECONNECT)%nat ->
  find_index (fun c => negb (cl_in_use c)) (bk_clients b) <> None.
Proof.
  intros Hb Hp Hf. apply filter_full in Hf. rewrite occupancy_split, (po_clients _ Hb) in Hf.
  pose proof (authenticated_bound b Hb).
  unfold ARGUS_MQTT_MAX_CLIENTS, ARGUS_MQTT_MAX_PRECONNECT, ARGUS_MQTT_MAX_CONNECTIONS in *. lia.
Qed.

Lemma free_not_owner b i c : pools_ok b -> bk_clients b !! i = Some c -> cl_in_use c = false ->
  cl_connected c = false /\ cl_session_slot c = None.
Proof.
  intros Hb Hi Hu. destruct (po_connected _ Hb i c Hi) as [H1 H2].
  destruct (cl_connected c); [rewrite Hu in H2; discriminate (H2 eq_refl)|].
  split; [done|]. destruct (cl_session_slot c); [|done]. destruct H1 as [_ H1]. by discriminate H1.
Qed.

Lemma alloc_pools b sock peer iface proven : pools_ok b ->
  pools_ok (argus_mqtt_alloc_client_locked b sock peer iface proven).2.
Proof.
  intros Hb. unfold argus_mqtt_alloc_client_locked.
  pose proof (admit_refuse_same b peer proven) as (S1 & S2 & _).
  destruct (argus_mqtt_preconnect_admit_locked b peer proven) as [admitted b1] eqn:Ha.
  change (bk_clients b1 = bk_clients b) in S1. change (bk_sessions b1 = bk_sessions b) in S2.
  assert (Hb1 : pools_ok b1).
  { apply (pools_same b); [done| |]; rewrite ?S1, ?S2; auto with argus. }
  destruct admitted; [|exact Hb1]. change (negb true) with false. cbv iota.
  destruct (admit_room _ _ _ _ Hb Ha) as (_ & _ & Hp & Hsrc).
  destruct (find_index _ (bk_clients b1)) as [i|] eqn:Hf; [|exact Hb1].
  destruct (find_index_some _ _ _ Hf) as (c & Hi & Hfree%negb_true_iff).
  destruct (free_not_owner b1 i c Hb1 Hi Hfree) as [Hcn Hsl].
  assert (Hpc : is_pending c = false) by (unfold is_pending; by rewrite Hfree).
  assert (Hac : is_authenticated c = false) by (unfold is_authenticated; by rewrite Hfree).
  set (d := new_client sock (u64 (bk_next_connection_id b1 + 1)) peer iface).
  apply (pools_replace b1 _ i c d); try done.
  - exact (po_sessions _ Hb1).
  - split; [done|]. by intros [? ?].
  - intros j e s _ He Hes. split; [done|]. exact (po_owned _ Hb1 j e s He Hes).
  - rewrite Hac. reflexivity.
  - intros _ _. rewrite S1. done.
  - intros _ Hc. by rewrite Hpc in Hc.
Qed.

Lemma close_pools b i : pools_ok b -> pools_ok (argus_mqtt_close_client b i).2.
Proof.
  intros Hb. unfold argus_mqtt_close_client. destruct (bk_clients b !! i) as [c|] eqn:Hi; [|done].
  destruct (negb _); [done|].
  destruct (po_connected _ Hb i c Hi) as [H1 H2].
  apply (pools_replace b _ i c (closed_client c)); try done.
  - change (length (argus_mqtt_session_release_locked (bk_sessions b) c) = ARGUS_MQTT_MAX_CLIENTS).
    unfold argus_mqtt_session_release_locked. destruct (cl_session_slot c); [rewrite length_insert|];
      exact (po_sessions _ Hb).
  - split; [done|]. by intros [? ?].
  - intros j e s Hne He Hes. split; [done|].
    change (exists ss, argus_mqtt_session_release_locked (bk_sessions b) c !! s = Some ss /\ ss_in_use ss = true).
    unfold argus_mqtt_session_release_locked. destruct (cl_session_slot c) as [s'|] eqn:Hsl.
    + rewrite list_lookup_insert_ne; [exact (po_owned _ Hb j e s He Hes)|]. intros ->.
      by apply Hne, (po_unshared _ Hb j i e c s).
    + exact (po_owned _ Hb j e s He Hes).
  - change (sessions_in_use (argus_mqtt_session_release_locked (bk_sessions b) c)
      + (if is_authenticated c then 1 else 0) = sessions_in_use (bk_sessions b) + 0)%nat.
    unfold argus_mqtt_session_release_locked, is_authenticated.
    destruct (cl_session_slot c) as [s|] eqn:Hsl.
    + assert (Hc : cl_connected c = true) by (apply H1; eauto). rewrite Hc, (H2 Hc).
      destruct (po_owned _ Hb i c s Hi Hsl) as (ss & Hss & Huse).
      pose proof (filter_insert_count ss_in_use _ _ _ (Session false []) Hss) as Hk.
      rewrite Huse in Hk. unfold sessions_in_use. cbn [andb]. cbn [ss_in_use] in Hk. lia.
    + destruct (cl_connected c); [destruct (proj1 H1 eq_refl); congruence|].
      rewrite andb_false_r. lia.
Qed.

(** A record that is dropped was waiting for its login, or free. *)
Lemma drop_unowned b i c : pools_ok b -> bk_clients b !! i = Some c -> cl_connected c = false -> cl_session_slot c = None.
Proof.
  intros Hb Hi Hc. destruct (po_connected _ Hb i c Hi) as [H1 _]. destruct (cl_session_slot c); [|done].
  rewrite Hc in H1. by discriminate (proj2 H1 ltac:(eauto)).
Qed.

Lemma drop_pools b i : pools_ok b -> pools_ok (broker_step b (EvDrop i)).
Proof.
  intros Hb. cbn [broker_step]. unfold drop_client. destruct (bk_clients b !! i) as [c|] eqn:Hi; [|done].
  cbn [from_option]. destruct (cl_connected c) eqn:Hc; [done|]. pose proof (drop_unowned b i c Hb Hi Hc) as Hsl.
  unfold argus_mqtt_session_release_locked. rewrite Hsl.
  match goal with |- context [<[i := ?d]>] => apply (pools_replace b _ i c d) end; try done; cbn.
  - exact (po_sessions _ Hb).
  - split; [done|]. by intros [? ?].
  - intros j e s _ He Hes. split; [done|]. exact (po_owned _ Hb j e s He Hes).
  - unfold is_authenticated. cbn. by rewrite ?Hc, ?andb_false_r.
Qed.

Lemma bind_replaces b i c now h p s ss :
  pools_ok b -> bk_clients b !! i = Some c -> cl_in_use c = true -> cl_connected c = false ->
  bk_sessions b !! s = Some ss -> ss_in_use ss = false ->
  forall b', bk_clients b' = <[i := bound_client c s h p now]> (bk_clients b) ->
  bk_sessions b' = <[s := Session true []]> (bk_sessions b) -> pools_ok b'.
Proof.
  intros Hb Hi Hu Hcn Hss Hfree b' Ec Es.
  assert (Hlt : (s < length (bk_sessions b))%nat) by eauto using lookup_lt_Some.
  assert (Hown : forall j e s', bk_clients b !! j = Some e -> cl_session_slot e = Some s' -> s' <> s).
  { intros j e s' He Hes ->. destruct (po_owned _ Hb j e s He Hes) as (ss' & ? & ?). congruence. }
  assert (Hpend : is_pending c = true) by (unfold is_pending; by rewrite Hu, Hcn).
  assert (Hac : is_authenticated c = false) by (unfold is_authenticated; by rewrite Hcn, andb_false_r).
  assert (Hpd : is_pending (bound_client c s h p now) = false).
  { change (cl_in_use c && negb true = false). apply andb_false_r. }
  assert (Had : is_authenticated (bound_client c s h p now) = true).
  { change (cl_in_use c && true = true). by rewrite Hu. }
  apply (pools_replace b b' i c (bound_client c s h p now)); try done.
  - rewrite Es, length_insert. exact (po_sessions _ Hb).
  - intros s' [= <-]. rewrite Es, list_lookup_insert_eq by done. by eexists.
  - intros j e s' Hne He Hes. pose proof (Hown j e s' He Hes). split; [by intros [= ->]|].
    rewrite Es, list_lookup_insert_ne by done. exact (po_owned _ Hb j e s' He Hes).
  - rewrite Es, Hac, Had. pose proof (filter_insert_count ss_in_use _ _ _ (Session true []) Hss) as Hk.
    rewrite Hfree in Hk. unfold sessions_in_use. cbn [ss_in_use] in Hk. lia.
  - by rewrite Hpd.
Qed.

(** What a bind that is not refused did. *)
Lemma connect_bind_ok b i p now b' : connect_bind b i p now = (BindOk, b') -> pools_ok b ->
  exists c h s ss, bk_clients b !! i = Some c /\ bk_handshakes b !! i = Some (Some h)
    /\ argus_mqtt_bind_allowed_locked (bk_invalidations b) c (hs_expected_connection_id h)
         (mp_identifier p) (hs_captured_generation h)
         (argus_mqtt_duplicate_client_id_locked (bk_clients b) i (rq_client_id (hs_request h))) = true
    /\ cl_in_use c = true /\ cl_connected c = false
    /\ bk_sessions b !! s = Some ss /\ ss_in_use ss = false
    /\ bk_clients b' = <[i := bound_client c s (hs_request h) p now]> (bk_clients b)
    /\ bk_sessions b' = <[s := Session true []]> (bk_sessions b)
    /\ bk_invalidations b' = bk_invalidations b /\ bk_handshakes b' = <[i := None]> (bk_handshakes b).
Proof.
  unfold connect_bind. intros Hbind Hb. destruct (bk_clients b !! i) as [c|] eqn:Hi; [|done].
  destruct (bk_handshakes b !! i) as [[h|]|] eqn:Hh; [|done|done].
  cbv zeta in Hbind. match type of Hbind with (if ?x then _ else _) = _ => destruct x eqn:Hal; [|done] end.
  change (argus_mqtt_bind_allowed_locked (bk_invalidations b) c (hs_expected_connection_id h)
     (mp_identifier p) (hs_captured_generation h)
     (argus_mqtt_duplicate_client_id_locked (bk_clients b) i (rq_client_id (hs_request h))) = true) in Hal.
  pose proof Hal as Hal'. unfold argus_mqtt_bind_allowed_locked in Hal'.
  rewrite !andb_true_iff, !negb_true_iff in Hal'. destruct Hal' as (((((Hu & Hcn) & _) & _) & _) & _).
  assert (Hsl : cl_session_slot c = None).
  { destruct (po_connected _ Hb i c Hi) as [[_ H1] _]. destruct (cl_session_slot c); [|done].
    rewrite H1 in Hcn; [done|eauto]. }
  destruct (argus_mqtt_session_claim_locked _ c) as [[s sessions]|] eqn:Hcl; [|done].
  change (argus_mqtt_session_claim_locked (bk_sessions b) c = Some (s, sessions)) in Hcl.
  unfold argus_mqtt_session_claim_locked in Hcl. rewrite Hsl in Hcl.
  destruct (find_index _ (bk_sessions b)) as [s'|] eqn:Hf; [|done].
  injection Hcl as -> <-. destruct (find_index_some _ _ _ Hf) as (ss & Hss & Hfree%negb_true_iff).
  injection Hbind as <-. exists c, h, s, ss. repeat (split; [done|]). done.
Qed.

(** A bind that does not succeed only ends the handshake. *)
Lemma connect_bind_not_ok b i p now : (connect_bind b i p now).1 <> BindOk ->
  bk_clients (connect_bind b i p now).2 = bk_clients b
  /\ bk_sessions (connect_bind b i p now).2 = bk_sessions b
  /\ bk_invalidations (connect_bind b i p now).2 = bk_invalidations b
  /\ (bk_handshakes (connect_bind b i p now).2 = bk_handshakes b
      \/ bk_handshakes (connect_bind b i p now).2 = <[i := None]> (bk_handshakes b)).
Proof.
  unfold connect_bind. destruct (bk_clients b !! i) as [c|]; [|auto].
  destruct (bk_handshakes b !! i) as [[h|]|]; [|auto|auto].
  cbv zeta. match goal with |- (if ?x then _ else _).1 <> _ -> _ => destruct x end; [|auto].
  destruct (argus_mqtt_session_claim_locked _ c) as [[s sessions]|]; [|auto].
  intros H. by destruct H.
Qed.

(** Both outcomes as seen from the state. *)
Lemma connect_bind_cases b i p now : pools_ok b -> let b' := (connect_bind b i p now).2 in
  bk_invalidations b' = bk_invalidations b
  /\ (bk_handshakes b' = bk_handshakes b \/ bk_handshakes b' = <[i := None]> (bk_handshakes b))
  /\ (bk_clients b' = bk_clients b /\ bk_sessions b' = bk_sessions b \/
      exists c h s ss, bk_clients b !! i = Some c /\ bk_handshakes b !! i = Some (Some h)
        /\ argus_mqtt_bind_allowed_locked (bk_invalidations b) c (hs_expected_connection_id h)
             (mp_identifier p) (hs_captured_generation h)
             (argus_mqtt_duplicate_client_id_locked (bk_clients b) i (rq_client_id (hs_request h))) = true
        /\ cl_in_use c = true /\ cl_connected c = false
        /\ bk_sessions b !! s = Some ss /\ ss_in_use ss = false
        /\ bk_clients b' = <[i := bound_client c s (hs_request h) p now]> (bk_clients b)
        /\ bk_sessions b' = <[s := Session true []]> (bk_sessions b)).
Proof.
  intros Hb b'. pose proof (connect_bind_not_ok b i p now) as Hn. subst b'.
  destruct (connect_bind b i p now) as [r b'] eqn:E. cbn [fst snd] in *.
  assert (Hr : r = BindOk \/ r <> BindOk) by (destruct r; auto). destruct Hr as [->|Hr].
  - destruct (connect_bind_ok _ _ _ _ _ E Hb) as (c & h & s & ss & ? & ? & ? & ? & ? & ? & ? & ? & ? & ? & ?).
    split; [done|]. split; [by right|]. right. by exists c, h, s, ss.
  - destruct (Hn Hr) as (? & ? & ? & ?). auto.
Qed.

Lemma bind_pools b i p now : pools_ok b -> pools_ok (connect_bind b i p now).2.
Proof.
  intros Hb. destruct (connect_bind_cases b i p now Hb) as (_ & _ & [[H1 H2]|H]).
  - apply (pools_same b); [done| |]; rewrite ?H1, ?H2; auto with argus.
  - destruct H as (c & h & s & ss & ? & ? & _ & ? & ? & ? & ? & ? & ?). by eapply bind_replaces.
Qed.

Lemma step_pools b ev : pools_ok b -> pools_ok (broker_step b ev).
Proof.
  intros Hb. destruct (marks_only ev) eqn:Hm.
  - destruct (marks_same b ev Hm). by apply (pools_same b).
  - destruct ev; try done; cbn [broker_step]; auto using alloc_pools, bind_pools, close_pools.
    by apply drop_pools.
Qed.

Lemma reset_pools next : pools_ok (broker_reset next).
Proof.
  assert (Hz : forall i c, bk_clients (broker_reset next) !! i = Some c -> c = zero_client).
  { intros i c Hc. by apply lookup_replicate in Hc as [-> _]. }
  split; try done.
  - intros i c ->%Hz. split; [split; [done|by intros [? ?]]|done].
  - by intros i c s ->%Hz.
  - by intros i j c d s ->%Hz.
  - vm_compute. lia.
  - intros peer. change (0 <= 1)%nat. lia.
Qed.

Lemma run_pools evs : forall b, pools_ok b -> pools_ok (broker_run b evs).
Proof. induction evs as [|ev evs IH]; intros b Hb; [done|]. apply IH, step_pools, Hb. Qed.

(** C20: the pools never overrun and never leak: after any interleaving of accepts, logins,
    subscriptions, revocations, closes, dropped connections and stops, at most three sockets wait for login, at most
    one from each source, and at most three clients are logged in, each on a session slot
    of its own; a socket that admission lets in always finds a record, and a login with
    accepted credentials is refused for capacity only while three clients are logged in. *)
Theorem pool_capacity next evs : let b := broker_run (broker_reset next) evs in
  (count_clients is_pending (bk_clients b) <= 3)%nat
  /\ (forall peer, (count_clients (pending_from peer) (bk_clients b) <= 1)%nat)
  /\ (count_clients is_authenticated (bk_clients b) <= 3)%nat
  /\ (forall i j c d s, bk_clients b !! i = Some c -> bk_clients b !! j = Some d ->
        cl_session_slot c = Some s -> cl_session_slot d = Some s -> i = j)
  /\ (forall sock peer iface proven,
        (argus_mqtt_alloc_client_locked b sock peer iface proven).1 <> AllocInvariantViolated)
  /\ (forall i p now, (connect_bind b i p now).1 = BindNoCapacity ->
        count_clients is_authenticated (bk_clients b) = 3%nat).
Proof.
  intros b. assert (Hb : pools_ok b) by apply run_pools, reset_pools. clearbody b.
  split; [exact (po_pending _ Hb)|]. split; [exact (po_source _ Hb)|].
  split; [exact (authenticated_bound b Hb)|]. split; [exact (po_unshared _ Hb)|]. split.
  - intros sock peer iface proven. unfold argus_mqtt_alloc_client_locked.
    destruct (argus_mqtt_preconnect_admit_locked b peer proven) as [[] b1] eqn:Ha; [|done].
    destruct (admit_room _ _ _ _ Hb Ha) as (E & _ & Hp & _). cbn [negb]. rewrite E.
    pose proof (room_for_admitted b Hb Hp). by destruct (find_index _ (bk_clients b)).
  - intros i p now. rewrite (po_count _ Hb). unfold connect_bind.
    destruct (bk_clients b !! i) as [c|]; [|done]. destruct (bk_handshakes b !! i) as [[h|]|]; [|done|done].
    cbv zeta. match goal with |- (if ?x then _ else _).1 = _ -> _ => destruct x end; [|done].
    destruct (argus_mqtt_session_claim_locked _ c) as [[s ss]|] eqn:Hcl; [done|]. intros _.
    change (argus_mqtt_session_claim_locked (bk_sessions b) c = None) in Hcl.
    unfold argus_mqtt_session_claim_locked in Hcl. destruct (cl_session_slot c); [done|].
    destruct (find_index _ (bk_sessions b)) eqn:Hf; [done|].
    unfold sessions_in_use. rewrite (filter_full _ _ Hf). exact (po_sessions _ Hb).
Qed.

(** ** Revocation *)

Definition fence_log : list broker_event -> list bytes :=
  omap (fun ev => match ev with EvFence id => if identifier_valid id then Some id else None | _ => None end).

(** A client that is logged in and not revoked. *)
Definition live (c : argus_mqtt_client_t) : Prop :=
  argus_mqtt_client_admitted_locked c (cl_connection_id c) = true.

Lemma live_spec c : live c <-> cl_in_use c = true /\ cl_connected c = true /\ cl_security_invalidated c = false.
Proof.
  unfold live, argus_mqtt_client_admitted_locked.
  rewrite Z.eqb_refl, andb_true_r, !andb_true_iff, negb_true_iff. tauto.
Qed.

(** A record in use has its socket: [argus_mqtt_broker_stop] has not taken it. *)
Definition sock_ok (c : argus_mqtt_client_t) : Prop := cl_in_use c = true -> 0 <= cl_sock c.

(** The handshake of a slot captured a generation of at most [k] records. *)
Definition captured_by (k : nat) (h : option (option handshake)) : Prop :=
  forall x, h = Some (Some x) -> exists n, (n <= k)%nat /\ hs_captured_generation x = Z.of_nat n.

Lemma captured_none k : captured_by k (Some None).
Proof. by intros x. Qed.
#[export] Hint Resolve captured_none : argus.

Lemma step_journal b ev log : journal_of (bk_invalidations b) log -> pools_ok b ->
  Z.of_nat (length log) + 1 < 18446744073709551615 ->
  journal_of (bk_invalidations (broker_step b ev)) (log ++ fence_log [ev]).
Proof.
  intros Hj Hb Hlt. destruct ev as [sock peer iface proven|i rq|i p now|i conn fs|id|id|t|i|i now| |i];
    cbn [broker_step fence_log omap list_omap]; rewrite ?app_nil_r.
  - unfold argus_mqtt_alloc_client_locked.
    pose proof (admit_refuse_same b peer proven) as (_ & _ & E & _).
    destruct (argus_mqtt_preconnect_admit_locked b peer proven) as [[] b1]; cbn [negb snd] in *;
      [|by rewrite E]. destruct (find_index _ (bk_clients b1)); cbn [snd]; [|by rewrite E].
    change (journal_of (bk_invalidations b1) log). by rewrite E.
  - unfold connect_begin. destruct (bk_clients b !! i); [|done]. by destruct (_ && _).
  - destruct (connect_bind_cases b i p now Hb) as (-> & _). exact Hj.
  - unfold subscribe_commit. destruct (bk_clients b !! i) as [c|]; [|done].
    destruct (cl_session_slot c) as [s|]; [|done]. destruct (bk_sessions b !! s); [|done]. by destruct (_ && _).
  - unfold argus_mqtt_broker_fence_machine_authentication. destruct id as [|x id].
    { cbn [identifier_valid length Nat.ltb]. by rewrite app_nil_r. }
    destruct (identifier_valid (x :: id)) eqn:Hv.
    + destruct (journal_record _ _ _ Hj Hv Hlt) as (j' & -> & Hj'). exact Hj'.
    + rewrite app_nil_r. unfold argus_mqtt_invalidation_record. by rewrite Hv.
  - unfold disconnect_claim. by destruct (claim_all id 0 (bk_clients b)).
  - unfold disconnect_release. destruct (bk_clients b !! tg_slot t) as [c|]; [|done].
    by destruct (argus_mqtt_release_disconnect_claim_locked c t).
  - unfold argus_mqtt_close_client. destruct (bk_clients b !! i) as [c|]; [|done]. by destruct (negb _).
  - unfold note_activity. by destruct (bk_clients b !! i).
  - unfold retire_sockets. by destruct (existsb _ _).
  - unfold drop_client. destruct (bk_clients b !! i) as [c|]; [|done]. cbn [from_option]. by destruct (cl_connected c).
Qed.

Lemma lookup_insert_cases {A} (l : list A) i j x :
  (<[i := x]> l) !! j = l !! j \/ (i = j /\ (<[i := x]> l) !! j = Some x).
Proof.
  destruct (decide (i = j)) as [<-|Hne]; [|left; by apply list_lookup_insert_ne].
  destruct (decide (i < length l)%nat); [right; split; [done|]; by apply list_lookup_insert_eq|].
  left. by rewrite list_insert_ge by lia.
Qed.

(** A step leaves the handshake of a slot alone, ends it, or begins it. *)
Lemma step_handshake b ev i : pools_ok b ->
  bk_handshakes (broker_step b ev) !! i = bk_handshakes b !! i
  \/ bk_handshakes (broker_step b ev) !! i = Some None
  \/ exists rq h, ev = EvBegin i rq /\ bk_handshakes (broker_step b ev) !! i = Some (Some h)
       /\ hs_captured_generation h = jn_generation (bk_invalidations b).
Proof.
  intros Hb.
  assert (Hend : forall j (l : list (option handshake)), (<[j := None]> l) !! i = l !! i \/ (<[j := None]> l) !! i = Some None).
  { intros j l. destruct (lookup_insert_cases l j i None) as [?|[_ ?]]; auto. }
  destruct ev as [sock peer iface proven|j rq|j p now|j conn fs|id|id|t|j|j now| |j]; cbn [broker_step].
  - unfold argus_mqtt_alloc_client_locked.
    pose proof (admit_refuse_same b peer proven) as (_ & _ & _ & E).
    destruct (argus_mqtt_preconnect_admit_locked b peer proven) as [[] b1]; cbn [negb snd] in *;
      [|rewrite E; auto]. destruct (find_index _ (bk_clients b1)) as [k|]; cbn [snd]; [|rewrite E; auto].
    rewrite <- E. destruct (Hend k (bk_handshakes b1)); auto.
  - unfold connect_begin. destruct (bk_clients b !! j) as [c|]; [|auto]. destruct (_ && _); [|auto].
    match goal with |- context [<[j := Some ?h]>] => set (hh := h) end.
    destruct (lookup_insert_cases (bk_handshakes b) j i (Some hh)) as [?|[<- ?]]; [auto|].
    right; right. by exists rq, hh.
  - destruct (connect_bind_cases b j p now Hb) as (_ & [Hi|Hi] & _); rewrite Hi; [auto|].
    destruct (Hend j (bk_handshakes b)); auto.
  - left. unfold subscribe_commit. destruct (bk_clients b !! j) as [c|]; [|done].
    destruct (cl_session_slot c) as [s|]; [|done]. destruct (bk_sessions b !! s); [|done]. by destruct (_ && _).
  - left. unfold argus_mqtt_broker_fence_machine_authentication. destruct id; [done|].
    by destruct (argus_mqtt_invalidation_record _ _) as [[] ?].
  - left. unfold disconnect_claim. by destruct (claim_all id 0 (bk_clients b)).
  - left. unfold disconnect_release. destruct (bk_clients b !! tg_slot t) as [c|]; [|done].
    by destruct (argus_mqtt_release_disconnect_claim_locked c t).
  - unfold argus_mqtt_close_client. destruct (bk_clients b !! j) as [c|]; [|auto]. destruct (negb _); [auto|].
    destruct (Hend j (bk_handshakes b)); auto.
  - left. unfold note_activity. by destruct (bk_clients b !! j).
  - left. unfold retire_sockets. by destruct (existsb _ _).
  - left. unfold drop_client. destruct (bk_clients b !! j) as [c|]; [|done]. cbn [from_option]. by destruct (cl_connected c).
Qed.

Lemma same_live c d : same_client c d -> live d -> live c.
Proof.
  intros (E1 & E2 & _ & _ & _ & H). rewrite !live_spec. intros (? & ? & Hd).
  repeat split; [congruence|congruence|]. destruct (cl_security_invalidated c); [|done].
  rewrite H in Hd; done.
Qed.

(** Where a live client comes from. *)
Lemma step_live b ev i c' : pools_ok b -> bk_clients (broker_step b ev) !! i = Some c' -> live c' ->
  (exists c, bk_clients b !! i = Some c /\ live c /\ cl_principal c' = cl_principal c) \/
  (exists p now h, ev = EvBind i p now /\ cl_principal c' = p /\ bk_handshakes b !! i = Some (Some h)
     /\ argus_mqtt_invalidation_since (bk_invalidations b) (mp_identifier p) (hs_captured_generation h) = false).
Proof.
  intros Hb Hi Hl. destruct (marks_only ev) eqn:Hm.
  { destruct (marks_same b ev Hm) as [F _]. destruct (Forall2_lookup_r _ _ _ _ _ F Hi) as (c & Hc & Hs).
    left. exists c. split; [done|]. split; [by apply (same_live c c')|]. apply Hs. }
  assert (Hother : forall j (d : argus_mqtt_client_t), <[j := d]> (bk_clients b) !! i = Some c' ->
    (j = i /\ c' = d) \/ bk_clients b !! i = Some c').
  { intros j d Hd. destruct (lookup_insert_cases (bk_clients b) j i d) as [E|[-> E]]; rewrite E in Hd; [auto|].
    simplify_eq; auto. }
  destruct ev as [sock peer iface proven|j rq|j p now|j conn fs|id|id|t|j|j now| |j]; try done; cbn [broker_step] in Hi.
  - left. exists c'. split; [|done]. unfold argus_mqtt_alloc_client_locked in Hi.
    pose proof (admit_refuse_same b peer proven) as (E & _).
    destruct (argus_mqtt_preconnect_admit_locked b peer proven) as [[] b1]; cbn [negb snd] in *;
      [|by rewrite <- E]. destruct (find_index _ (bk_clients b1)) as [k|]; cbn [snd] in Hi; [|by rewrite <- E].
    change (<[k := new_client sock (u64 (bk_next_connection_id b1 + 1)) peer iface]> (bk_clients b1) !! i = Some c') in Hi.
    rewrite E in Hi. destruct (Hother _ _ Hi) as [[-> ->]|?]; [|done]. by apply live_spec in Hl as (_ & ? & _).
  - destruct (connect_bind_cases b j p now Hb) as (_ & _ & [[E _]|H]).
    { rewrite E in Hi. left. by exists c'. }
    destruct H as (c & h & s & ss & _ & Hh & Hal & _ & _ & _ & _ & E & _). rewrite E in Hi.
    destruct (Hother _ _ Hi) as [[-> ->]|?]; [|left; by exists c']. right. exists p, now, h.
    repeat (split; [done|]). unfold argus_mqtt_bind_allowed_locked in Hal.
    apply andb_true_iff in Hal as [_ Hal]. by apply negb_true_iff in Hal.
  - left. exists c'. split; [|done]. unfold argus_mqtt_close_client in Hi.
    destruct (bk_clients b !! j) as [c|]; [|done]. destruct (negb _); [done|].
    destruct (Hother j (closed_client c) Hi) as [[-> ->]|?]; [|done]. by apply live_spec in Hl as (? & _).
  - left. exists c'. split; [|done]. unfold drop_client in Hi. destruct (bk_clients b !! j) as [c|]; [|done].
    cbn [from_option] in Hi. destruct (cl_connected c); [done|].
    destruct (Hother j _ Hi) as [[-> ->]|?]; [|done]. by apply live_spec in Hl as (? & _).
Qed.

(** What a run keeps about the journal and the handshakes. *)
Record tracked (b : broker) (log : list bytes) : Prop := {
  tk_pools : pools_ok b;
  tk_journal : journal_of (bk_invalidations b) log;
  tk_captured : forall i, captured_by (length log) (bk_handshakes b !! i)
}.

Lemma captured_weaken k k' h : captured_by k h -> (k <= k')%nat -> captured_by k' h.
Proof. intros Hc Hk x Hx. destruct (Hc x Hx) as (n & ? & ?). exists n. split; [lia|done]. Qed.

Lemma step_tracked b ev log : tracked b log ->
  Z.of_nat (length log) + 1 < 18446744073709551615 -> tracked (broker_step b ev) (log ++ fence_log [ev]).
Proof.
  intros [Hb Hj Hc] Hlt. split.
  - by apply step_pools.
  - by apply step_journal.
  - intros i. assert (Hlen : (length log <= length (log ++ fence_log [ev]))%nat) by (rewrite length_app; lia).
    destruct (step_handshake b ev i Hb) as [E|[E|(rq & h & -> & E & Hcap)]]; rewrite E.
    + eapply captured_weaken; [apply Hc|done].
    + auto with argus.
    + intros x [= <-]. exists (length log). split; [done|]. by rewrite Hcap, (jo_generation _ _ Hj).
Qed.

Lemma fence_log_app evs evs' : fence_log (evs ++ evs') = fence_log evs ++ fence_log evs'.
Proof. apply omap_app. Qed.

Lemma fence_log_length evs : (length (fence_log evs) <= length evs)%nat.
Proof.
  induction evs as [|ev evs IH]; [done|]. change (ev :: evs) with ([ev] ++ evs). rewrite fence_log_app, !length_app.
  assert (length (fence_log [ev]) <= 1)%nat by (destruct ev; cbn; try lia; destruct (identifier_valid identifier); cbn; lia).
  cbn [length]. lia.
Qed.

Lemma run_tracked evs : forall b log, tracked b log ->
  Z.of_nat (length log + length evs) < 18446744073709551615 -> tracked (broker_run b evs) (log ++ fence_log evs).
Proof.
  induction evs as [|ev evs IH]; intros b log Hb Hlt; [by rewrite app_nil_r|]. cbn [length] in Hlt.
  change (ev :: evs) with ([ev] ++ evs). rewrite fence_log_app, app_assoc.
  apply (IH (broker_step b ev)); [apply step_tracked; [done|lia]|].
  pose proof (fence_log_length [ev]) as Hl. cbn [length] in Hl. rewrite length_app. lia.
Qed.

Lemma reset_tracked next : tracked (broker_reset next) [].
Proof.
  split; [apply reset_pools|apply journal_init|]. intros i x Hx. by apply lookup_replicate in Hx as [? _].
Qed.

(** After the record of [id] at position [k], slot [i] keeps its handshake old and its
    client another machine's, until it begins a new handshake. *)
Lemma run_fenced evs id i k : identifier_valid id = true -> (forall rq, EvBegin i rq ∉ evs) ->
  forall b log, tracked b log ->
  Z.of_nat (length log + length evs) < 18446744073709551615 ->
  log !! k = Some id -> captured_by k (bk_handshakes b !! i) ->
  (forall c, bk_clients b !! i = Some c -> live c -> mp_identifier (cl_principal c) <> id) ->
  forall c, bk_clients (broker_run b evs) !! i = Some c -> live c -> mp_identifier (cl_principal c) <> id.
Proof.
  intros Hv. induction evs as [|ev evs IH]; intros Hnb b log Hb Hlt Hk Hcap Hc; [exact Hc|]. cbn [length] in Hlt.
  pose proof (step_tracked b ev log Hb ltac:(lia)) as Hb'. destruct Hb as [Hp Hj Ht].
  pose proof (fence_log_length [ev]) as Hl. cbn [length] in Hl.
  apply (IH ltac:(intros rq Hin; apply (Hnb rq), elem_of_cons; auto) (broker_step b ev) (log ++ fence_log [ev])).
  - done.
  - rewrite length_app. lia.
  - apply lookup_app_l_Some, Hk.
  - destruct (step_handshake b ev i Hp) as [E|[E|(rq & h & -> & _)]].
    + by rewrite E.
    + rewrite E. auto with argus.
    + destruct (Hnb rq). apply elem_of_cons. auto.
  - intros c' Hi Hlive. destruct (step_live b ev i c' Hp Hi Hlive) as [(c & ? & ? & E)|(p & now & h & _ & E & Hh & Hsince)].
    + rewrite E. eauto.
    + rewrite E. intros Heq. destruct (Hcap h Hh) as (n & Hn & Hg). rewrite Hg, Heq in Hsince.
      by rewrite (since_recorded _ log id n k) in Hsince.
Qed.

Lemma fence_marks b log id i c : tracked b log -> identifier_valid id = true ->
  Z.of_nat (length log) + 1 < 18446744073709551615 ->
  (forall c, bk_clients b !! i = Some c -> sock_ok c) ->
  bk_clients (broker_step b (EvFence id)) !! i = Some c -> live c -> mp_identifier (cl_principal c) <> id.
Proof.
  intros Hb Hv Hlt Hsocks Hi Hl Heq. cbn [broker_step] in Hi.
  unfold argus_mqtt_broker_fence_machine_authentication in Hi. destruct id as [|x id]; [done|].
  destruct (journal_record _ _ _ (tk_journal _ _ Hb) Hv Hlt) as (j & Hj & _). rewrite Hj in Hi.
  change (((fun c => if argus_mqtt_disconnect_matches_locked (x :: id) c then invalidated c else c)
    <$> bk_clients b) !! i = Some c) in Hi.
  rewrite list_lookup_fmap in Hi. destruct (bk_clients b !! i) as [c0|] eqn:Hc0; [|done].
  injection Hi as Hc. destruct (argus_mqtt_disconnect_matches_locked (x :: id) c0) eqn:Hm; subst c.
  { by apply live_spec in Hl as (_ & _ & ?). }
  apply live_spec in Hl as (Hu & Hcn & _).
  pose proof (Hsocks c0 eq_refl Hu) as Hsock.
  unfold argus_mqtt_disconnect_matches_locked in Hm.
  rewrite Hu, Hcn, (proj2 (Z.leb_le 0 _) Hsock), bool_decide_eq_true_2 in Hm by done. done.
Qed.

(** Revocation is final: once a machine was fenced, no connection whose login began
    before the fence is, or ever becomes, a live connection of that machine, whatever the
    interleaving of its credential check, the other clients, the disconnections and a stop (for
    runs shorter than 2^64 - 2 steps); only a login begun after the fence can be.  The
    fence has to find the record with its socket, see [retired_escapes_fence]. *)
Theorem fence_is_final next evs id evs' i c :
  (forall c, bk_clients (broker_run (broker_reset next) evs) !! i = Some c -> sock_ok c) -> identifier_valid id = true ->
  Z.of_nat (length evs + length evs') < 18446744073709551614 ->
  (forall request, EvBegin i request ∉ evs') ->
  bk_clients (broker_run (broker_reset next) (evs ++ EvFence id :: evs')) !! i = Some c ->
  argus_mqtt_client_admitted_locked c (cl_connection_id c) = true ->
  mp_identifier (cl_principal c) <> id.
Proof.
  intros Hsock Hv Hlt Hnb Hi Hl. pose proof (fence_log_length evs) as Hlen.
  pose proof (run_tracked evs _ _ (reset_tracked next) ltac:(cbn [length]; lia)) as Hb.
  unfold broker_run in Hi. rewrite foldl_app in Hi. fold broker_run in Hi.
  set (b := broker_run (broker_reset next) evs) in *. cbn [app] in Hb.
  pose proof (step_tracked b (EvFence id) _ Hb ltac:(lia)) as Hb'.
  assert (Hone : fence_log [EvFence id] = [id]) by (cbn [fence_log omap list_omap]; by rewrite Hv).
  rewrite Hone in Hb'.
  refine (run_fenced evs' id i (length (fence_log evs)) Hv Hnb _ _ Hb' _ _ _ _ c Hi Hl).
  - rewrite length_app. cbn [length]. lia.
  - by rewrite lookup_app_r, Nat.sub_diag by lia.
  - destruct (step_handshake b (EvFence id) i (tk_pools _ _ Hb)) as [E|[E|(? & ? & ? & _)]]; [| |done].
    + rewrite E. apply (tk_captured _ _ Hb).
    + rewrite E. auto with argus.
  - intros c' Hi' Hl'. apply (fence_marks b (fence_log evs) id i c'); [done|done|lia|done|done|done].
Qed.

Definition demo_principal (identifier : bytes) : argus_machine_principal_t :=
  MachinePrincipal identifier [] [] [] 0 0 0 0 0 0 0 0.

Lemma fence_is_final_witness :
  let m1 := str "m-1" in let m2 := str "m-2" in
  let evs := [EvAccept 3 1 0 (fun _ => false); EvBegin 0 (ConnectRequest m1 m1 m1 60);
              EvAccept 4 2 0 (fun _ => false); EvBegin 1 (ConnectRequest m2 m2 m2 60)] in
  let evs' := [EvBind 0 (demo_principal m1) 0; EvBind 1 (demo_principal m2) 0] in
  let b := broker_run (broker_reset 0) (evs ++ EvFence m1 :: evs') in
  cl_connected <$> bk_clients b !! 0%nat = Some false /\
  exists c, bk_clients b !! 1%nat = Some c
    /\ argus_mqtt_client_admitted_locked c (cl_connection_id c) = true
    /\ mp_identifier (cl_principal c) <> m1.
Proof.
  intros m1 m2 evs evs' b. split; [by vm_compute|].
  destruct (bk_clients b !! 1%nat) as [c|] eqn:Hc; [|by vm_compute in Hc].
  exists c. split; [done|].
  assert (Ha : argus_mqtt_client_admitted_locked c (cl_connection_id c) = true).
  { enough (Hb : (fun c => argus_mqtt_client_admitted_locked c (cl_connection_id c)) <$> bk_clients b !! 1%nat
                 = Some true) by (rewrite Hc in Hb; by injection Hb).
    by vm_compute. }
  split; [done|].
  apply (fence_is_final 0 evs m1 evs' 1 c).
  - intros d Hd. revert Hd. vm_compute. by intros [= <-].
  - by vm_compute.
  - cbn. lia.
  - intros rq H. by repeat (apply elem_of_cons in H as [H|H]; [discriminate H|]); apply not_elem_of_nil in H.
  - exact Hc.
  - exact Ha.
Defined.

(** A stop takes the sockets of the connections before their tasks end, and the fence looks for
    connections with a socket: one it misses stays admitted, whoever it belongs to. *)
Lemma retired_escapes_fence :
  let m1 := str "m-1" in
  let b := broker_run (broker_reset 0)
    [EvAccept 3 1 0 (fun _ => false); EvBegin 0 (ConnectRequest m1 m1 m1 60); EvBind 0 (demo_principal m1) 0; EvRetire; EvFence m1] in
  exists c, bk_clients b !! 0%nat = Some c /\ argus_mqtt_client_admitted_locked c (cl_connection_id c) = true /\
    mp_identifier (cl_principal c) = m1.
Proof. eexists. split; [by vm_compute|]. by split; vm_compute. Qed.
