(* ===== verification/MqttAdmission.v ===== *)
(** * Admission of authority requests and of commands

    The pure half of [src/main/argus_mqtt_runtime.c]: the reasons and status words it
    publishes, the result document of an authority request, the cache that makes a
    redelivered request idempotent, [argus_mqtt_authority_admit] and
    [argus_mqtt_command_admission_check].  SHA-256 is an argument. *)

From S2P Require Import Prelude MqttDecode MqttLease MqttBroker.

(** ** Data *)

Record argus_mqtt_broker_message_t := BrokerMessage {
  msg_connection_id : Z;
  msg_topic : bytes;
  msg_payload : bytes;
  msg_qos : Z;
  msg_retain : bool;
  msg_policy_admitted : bool;
  msg_principal : argus_machine_principal_t
}.

Definition msg_identifier (m : argus_mqtt_broker_message_t) : bytes := mp_identifier (msg_principal m).
Definition msg_client_type (m : argus_mqtt_broker_message_t) : Z := mp_client_type (msg_principal m).

Definition ARGUS_MQTT_BROKER_PAYLOAD_CAP : nat := 385.
Definition ARGUS_MQTT_AUTH_DUP_CACHE_SIZE : nat := 16.
Definition AUTH_DUP_STATUS_CAP : nat := 16.

Inductive argus_mqtt_authority_admit_stage_t :=
| ARGUS_MQTT_AUTHORITY_ADMIT_RETAINED_REFUSED
| ARGUS_MQTT_AUTHORITY_ADMIT_QOS_REFUSED
| ARGUS_MQTT_AUTHORITY_ADMIT_DECODE_REJECTED
| ARGUS_MQTT_AUTHORITY_ADMIT_SESSION_MISMATCH
| ARGUS_MQTT_AUTHORITY_ADMIT_DUPLICATE_REPLAY
| ARGUS_MQTT_AUTHORITY_ADMIT_DUPLICATE_CONFLICT
| ARGUS_MQTT_AUTHORITY_ADMIT_RELEASE_STALE_EPOCH
| ARGUS_MQTT_AUTHORITY_ADMIT_RELEASE_NOT_OWNER
| ARGUS_MQTT_AUTHORITY_ADMIT_RELEASE_ACCEPTED
| ARGUS_MQTT_AUTHORITY_ADMIT_REQUEST_STALE_EPOCH
| ARGUS_MQTT_AUTHORITY_ADMIT_REQUEST_EVALUATED.

#[export] Instance admit_stage_eq_dec : EqDecision argus_mqtt_authority_admit_stage_t.
Proof. solve_decision. Defined.

(** [result_json] is [None] where the code leaves [published] false; [request_result] is
    [Some] in the stage that sets it. *)
Record argus_mqtt_authority_outcome_t := AuthorityOutcome {
  ao_stage : argus_mqtt_authority_admit_stage_t;
  ao_decode : option argus_mqtt_decode_result_t;
  ao_request_result : option argus_mqtt_authority_result_t;
  ao_result_json : option bytes;
  ao_state_changed : bool;
  ao_link_online : bool
}.

(** ** Reasons *)

Definition decode_reason (result : argus_mqtt_decode_result_t) : bytes :=
  match result with
  | ARGUS_MQTT_DECODE_UNKNOWN_FIELD => str "unknown_field"
  | ARGUS_MQTT_DECODE_DUPLICATE_FIELD => str "duplicate_field"
  | ARGUS_MQTT_DECODE_MISSING_FIELD => str "missing_field"
  | ARGUS_MQTT_DECODE_INVALID_VALUE => str "invalid_value"
  | ARGUS_MQTT_DECODE_TOO_LARGE => str "payload_too_large"
  | ARGUS_MQTT_DECODE_SCHEMA_UNSUPPORTED => str "schema_unsupported"
  | ARGUS_MQTT_DECODE_INVALID_REQUEST_ID => str "invalid_request_id"
  | _ => str "malformed_json"
  end.

Definition authority_result_reason (r : argus_mqtt_authority_result_t) : bytes :=
  match r with
  | ARGUS_MQTT_AUTHORITY_GRANTED => str "granted"
  | ARGUS_MQTT_AUTHORITY_ALREADY_HELD => str "already_held"
  | ARGUS_MQTT_AUTHORITY_DENIED_HELD => str "denied_held_by_other"
  | ARGUS_MQTT_AUTHORITY_DENIED_PROFILE => str "denied_by_profile"
  | ARGUS_MQTT_AUTHORITY_TRANSFER_UNSUPPORTED_RUNNING => str "transfer_unsupported_running"
  | ARGUS_MQTT_AUTHORITY_DENIED_WINDOW_OPEN => str "denied_window_open"
  | ARGUS_MQTT_AUTHORITY_TRANSFER_EPOCH_REQUIRED => str "stale_epoch"
  | ARGUS_MQTT_AUTHORITY_DENIED_INVALID => str "denied_invalid"
  end.

(** [None] is a NULL reason: keep the current one. *)
Definition argus_mqtt_authority_reason_for_request (result : argus_mqtt_authority_result_t)
    (was_online_before : bool) (requester_client_type authority_profile : Z) : option bytes :=
  match result with
  | ARGUS_MQTT_AUTHORITY_GRANTED =>
      if requester_client_type =? ARGUS_MACHINE_CLIENT_ARGUS_COMMAND then Some (str "CORE_ACQUISITION")
      else Some (if authority_profile =? ARGUS_AUTHORITY_PROFILE_STANDALONE_HMI
                 then str "STANDALONE_ACQUISITION" else str "OPERATOR_TRANSFER")
  | ARGUS_MQTT_AUTHORITY_ALREADY_HELD =>
      if negb was_online_before then Some (str "CORE_REACQUISITION") else None
  | _ => None
  end.

Definition argus_mqtt_authority_reason_for_release (released : bool) : option bytes :=
  if released then Some (str "RELEASED") else None.
Definition argus_mqtt_authority_reason_for_disconnect : bytes := str "TRANSPORT_LOST".
Definition argus_mqtt_authority_reason_for_expiry : bytes := str "CORE_LEASE_EXPIRED".

(** ** Status words *)

Definition owned (core : argus_mqtt_session_core_t) : bool := nonempty (sc_lease_machine_id core).

(** The lease status and the local control status. *)
Definition authority_status_from_core (core : argus_mqtt_session_core_t) (authority_profile : Z)
    (core_window_open : bool) (now_ms : Z) : bytes * bytes :=
  let lease_status :=
    if negb (owned core) then
      match sc_link core with ARGUS_MQTT_LINK_STALE => str "EXPIRED" | _ => str "NONE" end
    else if negb (link_is_online (sc_link core)) then str "EXPIRING"
    else
      let age := u64 (now_ms - sc_last_heartbeat_ms core) in
      if ARGUS_MQTT_HEARTBEAT_TIMEOUT_MS <=? u64 (age * 2) then str "EXPIRING" else str "ACTIVE" in
  let local_status :=
    if owned core && (sc_lease_client_type core =? ARGUS_MACHINE_CLIENT_HMI) then str "ACTIVE"
    else if owned core then str "UNAVAILABLE"
    else if (authority_profile =? ARGUS_AUTHORITY_PROFILE_ARGUSCORE_PREFERRED) && core_window_open
    then str "WAITING" else str "AVAILABLE" in
  (strlcpy lease_status AUTH_DUP_STATUS_CAP, strlcpy local_status AUTH_DUP_STATUS_CAP).

Definition owner_kind (core : argus_mqtt_session_core_t) : bytes :=
  if owned core then
    if sc_lease_client_type core =? ARGUS_MACHINE_CLIENT_HMI then str "LOCAL_HMI"
    else if sc_lease_client_type core =? ARGUS_MACHINE_CLIENT_ARGUS_COMMAND then str "ARGUSCORE"
    else if sc_lease_client_type core =? ARGUS_MACHINE_CLIENT_SERVICE_TOOL then str "SERVICE_TOOL"
    else str "OTHER"
  else str "NONE".

(** ** The result document *)

Definition result_overflow : bytes :=
  json_object [(str "outcome", quoted (str "REJECTED")); (str "reason", quoted (str "result_overflow"))].

(** [snprintf] into [cap] bytes with the overflow fallback. *)
Definition bounded_document (cap : nat) (document : bytes) : bytes :=
  if (cap <=? length document)%nat then strlcpy result_overflow cap else document.

Definition compose_authority_result_json (request_id session outcome reason owner_kind : bytes)
    (authority_epoch : Z) (lease_status local_status : bytes) : bytes :=
  bounded_document ARGUS_MQTT_BROKER_PAYLOAD_CAP
    (json_object
       [(str "schema", str "1"); (str "request_id", quoted request_id); (str "session", quoted session);
        (str "outcome", quoted outcome); (str "reason", quoted reason);
        (str "control_owner", quoted owner_kind); (str "authority_epoch", decimal authority_epoch);
        (str "core_lease_status", quoted lease_status); (str "local_control_status", quoted local_status)]).

(** ** The duplicate cache *)

Record auth_dup_entry_t := DupEntry {
  de_in_use : bool;
  de_ordinal : Z;
  de_session : bytes;
  de_request_id : bytes;
  de_release : bool;
  de_payload_hash : bytes;
  de_payload_len : nat;
  de_outcome : bytes;
  de_reason : bytes;
  de_owner_kind : bytes;
  de_authority_epoch : Z;
  de_lease_status : bytes;
  de_local_status : bytes
}.

Definition zero_entry : auth_dup_entry_t := DupEntry false 0 [] [] false [] 0 [] [] [] 0 [] [].

(** [s_auth_dup_cache], [s_auth_dup_next], [s_auth_dup_ordinal_next]. *)
Record dup_cache := DupCache {
  dc_entries : list auth_dup_entry_t;
  dc_next : nat;
  dc_ordinal_next : Z
}.

Definition argus_mqtt_runtime_reset_duplicate_cache : dup_cache :=
  DupCache (replicate ARGUS_MQTT_AUTH_DUP_CACHE_SIZE zero_entry) 0 0.

Definition argus_mqtt_runtime_duplicate_admission_count (cache : dup_cache) : Z := dc_ordinal_next cache.

Definition entry_matches (session request_id : bytes) (release : bool) (e : auth_dup_entry_t) : bool :=
  de_in_use e && Bool.eqb (de_release e) release && bool_decide (de_session e = session)
  && bool_decide (de_request_id e = request_id).

Definition auth_dup_find (cache : dup_cache) (session request_id : bytes) (release : bool)
    : option auth_dup_entry_t :=
  find (entry_matches session request_id release) (dc_entries cache).

(** [hash] is SHA-256, [None] where mbedTLS fails. *)
Definition auth_dup_hash (hash : bytes -> option bytes) (payload : bytes) : bytes :=
  match hash payload with Some digest => digest | None => replicate 32 0 end.

Definition auth_dup_store (cache : dup_cache) (entry : Z -> auth_dup_entry_t) : dup_cache :=
  DupCache (<[dc_next cache := entry (dc_ordinal_next cache)]> (dc_entries cache))
    ((dc_next cache + 1) mod ARGUS_MQTT_AUTH_DUP_CACHE_SIZE)
    (u32 (dc_ordinal_next cache + 1)).

Definition auth_dup_replay (e : auth_dup_entry_t) : bytes :=
  compose_authority_result_json (de_request_id e) (de_session e) (de_outcome e) (de_reason e)
    (de_owner_kind e) (de_authority_epoch e) (de_lease_status e) (de_local_status e).

(** ** Admission of an authority request or release *)

Section Admit.
Variable hash : bytes -> option bytes.

(** The document built from the live core. *)
Definition build_authority_result_json (req : option argus_mqtt_authority_request_t)
    (core : argus_mqtt_session_core_t) (authority_profile : Z) (core_window_open : bool) (now_ms : Z)
    (outcome reason : bytes) : bytes :=
  let '(lease_status, local_status) :=
    authority_status_from_core core authority_profile core_window_open now_ms in
  compose_authority_result_json (match req with Some r => ar_request_id r | None => [] end)
    (sc_session core) outcome reason (owner_kind core) (sc_authority_epoch core) lease_status local_status.

(** What [emit_authority_result] caches for [req]. *)
Definition cache_entry (req : argus_mqtt_authority_request_t) (payload : bytes)
    (core : argus_mqtt_session_core_t) (authority_profile : Z) (core_window_open : bool) (now_ms : Z)
    (outcome reason : bytes) (release : bool) (ordinal : Z) : auth_dup_entry_t :=
  let '(lease_status, local_status) :=
    authority_status_from_core core authority_profile core_window_open now_ms in
  DupEntry true ordinal (strlcpy (ar_session req) 17) (strlcpy (ar_request_id req) 37) release
    (auth_dup_hash hash payload) (length payload) outcome reason (owner_kind core)
    (sc_authority_epoch core) (strlcpy lease_status AUTH_DUP_STATUS_CAP)
    (strlcpy local_status AUTH_DUP_STATUS_CAP).

Definition argus_mqtt_authority_admit (core : argus_mqtt_session_core_t) (cache : dup_cache)
    (message : argus_mqtt_broker_message_t) (release : bool) (authority_profile : Z)
    (core_window_open machine_running : bool) (now_ms : Z)
    : argus_mqtt_authority_outcome_t * argus_mqtt_session_core_t * dup_cache :=
  let document req core outcome reason :=
    Some (build_authority_result_json req core authority_profile core_window_open now_ms outcome reason) in
  let refused stage decode req reason :=
    (AuthorityOutcome stage decode None (document req core (str "REJECTED") reason) false false, core, cache) in
  let store req core outcome reason :=
    auth_dup_store cache
      (cache_entry req (msg_payload message) core authority_profile core_window_open now_ms outcome reason release) in
  if msg_retain message then
    (AuthorityOutcome ARGUS_MQTT_AUTHORITY_ADMIT_RETAINED_REFUSED None None None false false, core, cache)
  else if negb (msg_qos message =? 1) then
    refused ARGUS_MQTT_AUTHORITY_ADMIT_QOS_REFUSED None None (str "qos_1_required")
  else
    match argus_mqtt_decode_authority_request (Some (msg_payload message)) release with
    | DecodeErr e => refused ARGUS_MQTT_AUTHORITY_ADMIT_DECODE_REJECTED (Some e) None (decode_reason e)
    | DecodeFuel =>
        refused ARGUS_MQTT_AUTHORITY_ADMIT_DECODE_REJECTED (Some ARGUS_MQTT_DECODE_MALFORMED) None
          (decode_reason ARGUS_MQTT_DECODE_MALFORMED)
    | DecodeOk req =>
        if negb (bool_decide (ar_session req = sc_session core)) then
          refused ARGUS_MQTT_AUTHORITY_ADMIT_SESSION_MISMATCH None (Some req) (str "session_mismatch")
        else
          match auth_dup_find cache (ar_session req) (ar_request_id req) release with
          | Some existing =>
              if (de_payload_len existing =? length (msg_payload message))%nat
                 && bool_decide (de_payload_hash existing = auth_dup_hash hash (msg_payload message))
              then (AuthorityOutcome ARGUS_MQTT_AUTHORITY_ADMIT_DUPLICATE_REPLAY None None
                      (Some (auth_dup_replay existing)) false false, core, cache)
              else refused ARGUS_MQTT_AUTHORITY_ADMIT_DUPLICATE_CONFLICT None (Some req) (str "duplicate_conflict")
          | None =>
              if release then
                if negb (ar_authority_epoch req =? sc_authority_epoch core) then
                  (AuthorityOutcome ARGUS_MQTT_AUTHORITY_ADMIT_RELEASE_STALE_EPOCH None None
                     (document (Some req) core (str "REJECTED") (str "stale_epoch")) false false,
                   core, store req core (str "REJECTED") (str "stale_epoch"))
                else
                  let '(released, core) :=
                    argus_mqtt_session_release_authority core (Some (msg_identifier message)) in
                  let outcome := if released then str "ACCEPTED" else str "REJECTED" in
                  let reason := if released then str "released" else str "not_owner" in
                  (AuthorityOutcome
                     (if released then ARGUS_MQTT_AUTHORITY_ADMIT_RELEASE_ACCEPTED
                      else ARGUS_MQTT_AUTHORITY_ADMIT_RELEASE_NOT_OWNER) None None
                     (document (Some req) core outcome reason) released false,
                   core, store req core outcome reason)
              else if negb (ar_authority_epoch req =? 0)
                      && negb (ar_authority_epoch req =? sc_authority_epoch core) then
                (AuthorityOutcome ARGUS_MQTT_AUTHORITY_ADMIT_REQUEST_STALE_EPOCH None None
                   (document (Some req) core (str "REJECTED") (str "stale_epoch")) false false,
                 core, store req core (str "REJECTED") (str "stale_epoch"))
              else
                let '(result, core) :=
                  argus_mqtt_session_request_authority_with_state core (msg_connection_id message)
                    (Some (msg_identifier message)) (msg_client_type message) authority_profile
                    core_window_open machine_running (ar_authority_epoch req) now_ms in
                let accepted :=
                  bool_decide (result = ARGUS_MQTT_AUTHORITY_GRANTED)
                  || bool_decide (result = ARGUS_MQTT_AUTHORITY_ALREADY_HELD) in
                let outcome := if accepted then str "ACCEPTED" else str "REJECTED" in
                (AuthorityOutcome ARGUS_MQTT_AUTHORITY_ADMIT_REQUEST_EVALUATED None (Some result)
                   (document (Some req) core outcome (authority_result_reason result)) accepted true,
                 core, store req core outcome (authority_result_reason result))
          end
    end.
End Admit.

(** ** Admission of a command *)

Inductive argus_mqtt_command_admission_t :=
| ARGUS_MQTT_COMMAND_ADMIT_OK
| ARGUS_MQTT_COMMAND_ADMIT_SESSION_MISMATCH
| ARGUS_MQTT_COMMAND_ADMIT_NOT_HOLDER
| ARGUS_MQTT_COMMAND_ADMIT_STALE_EPOCH.

Definition argus_mqtt_command_admission_check (core : argus_mqtt_session_core_t)
    (principal_identifier : bytes) (connection_id : Z) (command : argus_mqtt_command_t)
    : argus_mqtt_command_admission_t :=
  if negb (bool_decide (cd_session command = sc_session core)) then
    ARGUS_MQTT_COMMAND_ADMIT_SESSION_MISMATCH
  else if negb (link_is_online (sc_link core)) || negb (owned core)
          || negb (bool_decide (sc_lease_machine_id core = principal_identifier))
          || negb (sc_lease_connection_id core =? connection_id) then
    ARGUS_MQTT_COMMAND_ADMIT_NOT_HOLDER
  else if negb (cd_authority_epoch command =? sc_authority_epoch core) then
    ARGUS_MQTT_COMMAND_ADMIT_STALE_EPOCH
  else ARGUS_MQTT_COMMAND_ADMIT_OK.

(** ** The request decoder's bounds *)

Lemma authority_request_bounded payload release req :
  argus_mqtt_decode_authority_request payload release = DecodeOk req ->
  (length (ar_session req) <= 16)%nat /\ (length (ar_request_id req) <= 36)%nat.
Proof.
  unfold argus_mqtt_decode_authority_request. destruct (384 <? _)%nat; [done|].
  destruct (decode_object authority_field _ _ payload) as [a|e|] eqn:Hd; try done.
  intros H. assert (a = req) as ->.
  { destruct (release && (ar_authority_epoch a =? 0)); by simplify_eq. }
  apply (decode_object_inv _ (fun _ a => (length (ar_session a) <= 16)%nat
    /\ (length (ar_request_id a) <= 36)%nat)) in Hd as (_ & _ & Hb); [exact Hb| |cbn; lia].
  clear H. intros key l a bit a' l' e fields. unfold authority_field. repeat case_match; intros [= <- Hf _] [L1 L2].
  - apply u32_field_valid in Hf as (v & _ & _ & ->). done.
  - apply string_field_valid in Hf as (s & Hv & ->). split; [exact L1|].
    unfold valid_request_id in Hv. rewrite !andb_true_iff in Hv. destruct Hv as ((_ & Hv%Nat.leb_le) & _). exact Hv.
  - apply string_field_valid in Hf as (s & Hv & ->). split; [|exact L2].
    unfold valid_session in Hv. apply andb_true_iff in Hv as [Hv%Nat.eqb_eq _]. change (length s <= 16)%nat. lia.
  - apply u32_field_valid in Hf as (v & _ & _ & ->). done.
  - apply string_field_valid in Hf as (s & _ & ->). done.
Qed.

(** ** What admission may change *)

Lemma request_changes core conn id ty prof win run ep now :
  let '(r, core') :=
    argus_mqtt_session_request_authority_with_state core conn (Some id) ty prof win run ep now in
  r = ARGUS_MQTT_AUTHORITY_GRANTED \/ r = ARGUS_MQTT_AUTHORITY_ALREADY_HELD \/ core' = core.
Proof.
  unfold argus_mqtt_session_request_authority_with_state.
  destruct (_ && (ep =? 0)); [auto|]. destruct (_ && run); [auto|].
  pose proof (request_outcome core conn id ty prof win now) as H.
  destruct (argus_mqtt_session_request_authority core conn (Some id) ty prof win now) as [r core'].
  destruct r; auto.
Qed.

Lemma release_changes core id :
  let '(released, core') := argus_mqtt_session_release_authority core (Some id) in
  released = true \/ core' = core.
Proof. unfold argus_mqtt_session_release_authority. destruct (negb _); auto. Qed.

(** The stages whose result is cached. *)
Definition cached_stage (s : argus_mqtt_authority_admit_stage_t) : bool :=
  match s with
  | ARGUS_MQTT_AUTHORITY_ADMIT_RELEASE_STALE_EPOCH | ARGUS_MQTT_AUTHORITY_ADMIT_RELEASE_NOT_OWNER
  | ARGUS_MQTT_AUTHORITY_ADMIT_RELEASE_ACCEPTED | ARGUS_MQTT_AUTHORITY_ADMIT_REQUEST_STALE_EPOCH
  | ARGUS_MQTT_AUTHORITY_ADMIT_REQUEST_EVALUATED => true
  | _ => false
  end.

Section AdmitProofs.
Variable hash : bytes -> option bytes.

Definition stored_for (payload : bytes) (req : argus_mqtt_authority_request_t) (release : bool)
    (e : auth_dup_entry_t) : Prop :=
  de_in_use e = true /\ de_session e = ar_session req /\ de_request_id e = ar_request_id req
  /\ de_release e = release /\ de_payload_hash e = auth_dup_hash hash payload
  /\ de_payload_len e = length payload.

(** The two ways an admission ends: refused or replayed with nothing stored, or evaluated
    on a cache miss, with its result stored. *)
Lemma admit_cases core cache m release prof win run now :
  let '(out, core', cache') := argus_mqtt_authority_admit hash core cache m release prof win run now in
  (cached_stage (ao_stage out) = false /\ ao_state_changed out = false /\ core' = core /\ cache' = cache) \/
  (exists req entry, cached_stage (ao_stage out) = true /\ msg_retain m = false /\ msg_qos m = 1
     /\ argus_mqtt_decode_authority_request (Some (msg_payload m)) release = DecodeOk req
     /\ ar_session req = sc_session core
     /\ auth_dup_find cache (ar_session req) (ar_request_id req) release = None
     /\ cache' = auth_dup_store cache entry
     /\ (forall n, stored_for (msg_payload m) req release (entry n))
     /\ (forall n, sc_session core' = sc_session core -> ao_result_json out = Some (auth_dup_replay (entry n)))
     /\ (ao_state_changed out = false -> core' = core)).
Proof.
  unfold argus_mqtt_authority_admit. destruct (msg_retain m); [by left|].
  destruct (Z.eqb_spec (msg_qos m) 1) as [Hq|]; cbn [negb]; [|by left].
  destruct (argus_mqtt_decode_authority_request (Some (msg_payload m)) release) as [req|e|] eqn:Hd; [|by left|by left].
  destruct (authority_request_bounded _ _ _ Hd) as [B1 B2].
  destruct (bool_decide_reflect (ar_session req = sc_session core)) as [Hs|]; cbn [negb]; [|by left].
  destruct (auth_dup_find cache (ar_session req) (ar_request_id req) release) as [ex|] eqn:Hf.
  { destruct (_ && _); by left. }
  assert (Hstored : forall c o r n, stored_for (msg_payload m) req release
    (cache_entry hash req (msg_payload m) c prof win now o r release n)).
  { intros c o r n. unfold cache_entry. destruct (authority_status_from_core c prof win now).
    unfold stored_for. cbn [de_in_use de_session de_request_id de_release de_payload_hash de_payload_len].
    by rewrite !strlcpy_fits by lia. }
  assert (Hreplay : forall c o r n, sc_session c = sc_session core ->
    build_authority_result_json (Some req) c prof win now o r
    = auth_dup_replay (cache_entry hash req (msg_payload m) c prof win now o r release n)).
  { intros c o r n Hc. unfold cache_entry, build_authority_result_json, auth_dup_replay.
    destruct (authority_status_from_core c prof win now) as [ls lo] eqn:Hst.
    assert (Hl : strlcpy ls AUTH_DUP_STATUS_CAP = ls /\ strlcpy lo AUTH_DUP_STATUS_CAP = lo).
    { unfold authority_status_from_core in Hst. injection Hst as <- <-. unfold strlcpy. by rewrite !take_take. }
    destruct Hl as [H1 H2]. cbn [de_request_id de_session de_outcome de_reason de_owner_kind
      de_authority_epoch de_lease_status de_local_status].
    rewrite H1, H2, !strlcpy_fits by lia. by rewrite Hs, Hc. }
  destruct release.
  - destruct (negb (ar_authority_epoch req =? sc_authority_epoch core)).
    + right. exists req. eexists. repeat (split; [done|]).
      split; [|done]. intros n Hc. cbn [ao_result_json]. f_equal. by apply Hreplay.
    + pose proof (release_changes core (msg_identifier m)) as Hr.
      destruct (argus_mqtt_session_release_authority core (Some (msg_identifier m))) as [rel core'].
      right. exists req. eexists. split; [by destruct rel|]. repeat (split; [done|]).
      split; [intros n Hc; cbn [ao_result_json]; f_equal; by apply Hreplay|].
      cbn [ao_state_changed]. intros ->. by destruct Hr.
  - destruct (negb (ar_authority_epoch req =? 0) && negb (ar_authority_epoch req =? sc_authority_epoch core)).
    + right. exists req. eexists. repeat (split; [done|]).
      split; [|done]. intros n Hc. cbn [ao_result_json]. f_equal. by apply Hreplay.
    + pose proof (request_changes core (msg_connection_id m) (msg_identifier m) (msg_client_type m) prof win run
        (ar_authority_epoch req) now) as Hr.
      destruct (argus_mqtt_session_request_authority_with_state _ _ _ _ _ _ _ _ _) as [r core'].
      right. exists req. eexists. repeat (split; [done|]).
      split; [intros n Hc; cbn [ao_result_json]; f_equal; by apply Hreplay|].
      cbn [ao_state_changed]. intros [H1%bool_decide_eq_false H2%bool_decide_eq_false]%orb_false_iff. tauto.
Qed.
End AdmitProofs.

(** ** Redelivery *)

(** The part of the core that only a committed command changes. *)
Definition sequencing (core : argus_mqtt_session_core_t) :=
  (sc_session core, (sc_has_sequence core, sc_last_sequence core),
   (sc_cached_action core, sc_cached_command_id core, sc_cached_payload core, sc_cached_result core)).

Lemma record_holder_sequencing core id ty : sequencing (lease_record_holder core id ty) = sequencing core.
Proof. by destruct id as [[|c id]|]. Qed.

Lemma request_sequencing core conn id ty prof win run ep now :
  sequencing (argus_mqtt_session_request_authority_with_state core conn id ty prof win run ep now).2
  = sequencing core.
Proof.
  unfold argus_mqtt_session_request_authority_with_state, argus_mqtt_session_request_authority.
  destruct (_ && (ep =? 0)); [done|]. destruct (_ && run); [done|].
  destruct (_ || _ : bool); [done|]. destruct (negb (profile_permits prof ty win)); [by destruct (_ && _ && _)|].
  destruct (_ && bool_decide (sc_lease_machine_id core = default [] id)); [by destruct (negb _)|].
  destruct (_ && negb _); [done|]. exact (record_holder_sequencing core id ty).
Qed.

Lemma release_sequencing core id :
  sequencing (argus_mqtt_session_release_authority core id).2 = sequencing core.
Proof.
  unfold argus_mqtt_session_release_authority. destruct (negb _); [done|]. exact (record_holder_sequencing core None 0).
Qed.

Lemma heartbeat_sequencing core conn id ty hb now :
  sequencing (holder_heartbeat core conn id ty hb now).2 = sequencing core.
Proof.
  unfold holder_heartbeat, argus_mqtt_session_accept_heartbeat. destruct (_ && _); [|done].
  destruct (_ || _ : bool); [done|]. destruct (_ && _ && _ && _); [done|]. destruct (_ && _ && _); [done|].
  exact (record_holder_sequencing core (Some id) ty).
Qed.

Lemma tick_sequencing core now : sequencing (argus_mqtt_session_tick core now).2 = sequencing core.
Proof.
  unfold argus_mqtt_session_tick. destruct (_ || _ : bool); [done|]. exact (record_holder_sequencing _ None 0).
Qed.

Lemma disconnect_sequencing core conn : sequencing (argus_mqtt_session_disconnect core conn).2 = sequencing core.
Proof. unfold argus_mqtt_session_disconnect. by destruct (_ || _ : bool). Qed.

Lemma lease_step_session core ev : sc_session (lease_step core ev) = sc_session core.
Proof.
  destruct ev as [conn id ty prof win run ep now|id|conn id ty hb now|now|conn|cmd p r]; cbn [lease_step]; [..|done].
  - exact (f_equal (fun s => s.1.1) (request_sequencing core conn (Some id) ty prof win run ep now)).
  - exact (f_equal (fun s => s.1.1) (release_sequencing core (Some id))).
  - exact (f_equal (fun s => s.1.1) (heartbeat_sequencing core conn id ty hb now)).
  - exact (f_equal (fun s => s.1.1) (tick_sequencing core now)).
  - exact (f_equal (fun s => s.1.1) (disconnect_sequencing core conn)).
Qed.

Lemma admit_sequencing hash core cache m rel prof win run now :
  sequencing (argus_mqtt_authority_admit hash core cache m rel prof win run now).1.2 = sequencing core.
Proof.
  unfold argus_mqtt_authority_admit. destruct (msg_retain m); [done|]. destruct (negb _); [done|].
  destruct (argus_mqtt_decode_authority_request _ rel) as [req|e|]; [|done|done].
  destruct (negb _); [done|]. destruct (auth_dup_find _ _ _ _) as [e|]; [by destruct (_ && _)|].
  destruct rel.
  - destruct (negb _); [done|]. pose proof (release_sequencing core (Some (msg_identifier m))) as H.
    by destruct (argus_mqtt_session_release_authority core _).
  - destruct (_ && _); [done|].
    match goal with |- context [argus_mqtt_session_request_authority_with_state ?a ?b ?c ?d ?e ?f ?g ?h ?i] =>
      pose proof (request_sequencing a b c d e f g h i) as H;
      by destruct (argus_mqtt_session_request_authority_with_state a b c d e f g h i) end.
Qed.

Lemma admit_session hash core cache m rel prof win run now :
  sc_session (argus_mqtt_authority_admit hash core cache m rel prof win run now).1.2 = sc_session core.
Proof. exact (f_equal (fun s => s.1.1) (admit_sequencing hash core cache m rel prof win run now)). Qed.

(** Steps of the session between two deliveries: other admissions, and everything else
    that happens to the lease. *)
Inductive session_event :=
| EvAdmit (message : argus_mqtt_broker_message_t) (release : bool) (profile : Z)
    (window running : bool) (now_ms : Z)
| EvLease (ev : lease_event).

Definition is_admit (ev : session_event) : bool := match ev with EvAdmit _ _ _ _ _ _ => true | _ => false end.

Section Redelivery.
Variable hash : bytes -> option bytes.

Definition session_step (s : argus_mqtt_session_core_t * dup_cache) (ev : session_event)
    : argus_mqtt_session_core_t * dup_cache :=
  match ev with
  | EvAdmit m rel prof win run now =>
      let '(_, core, cache) := argus_mqtt_authority_admit hash s.1 s.2 m rel prof win run now in (core, cache)
  | EvLease ev => (lease_step s.1 ev, s.2)
  end.

Definition session_run : argus_mqtt_session_core_t * dup_cache -> list session_event ->
  argus_mqtt_session_core_t * dup_cache := foldl session_step.

Definition cache_wf (cache : dup_cache) : Prop :=
  length (dc_entries cache) = ARGUS_MQTT_AUTH_DUP_CACHE_SIZE /\ (dc_next cache < ARGUS_MQTT_AUTH_DUP_CACHE_SIZE)%nat.

Lemma store_wf cache entry : cache_wf cache -> cache_wf (auth_dup_store cache entry).
Proof.
  intros [H1 H2]. split; cbn [auth_dup_store dc_entries dc_next]; [by rewrite length_insert|].
  apply Nat.mod_upper_bound. done.
Qed.

(** The entry [e] sits alone at position [p], [k] stores ago. *)
Record resident (cache : dup_cache) (p k : nat) (e : auth_dup_entry_t) : Prop := {
  rs_wf : cache_wf cache;
  rs_entry : dc_entries cache !! p = Some e;
  rs_in_use : de_in_use e = true;
  rs_alone : forall q e', dc_entries cache !! q = Some e' ->
    entry_matches (de_session e) (de_request_id e) (de_release e) e' = true -> q = p;
  rs_next : dc_next cache = ((p + 1 + k) mod ARGUS_MQTT_AUTH_DUP_CACHE_SIZE)%nat
}.

Lemma entry_matches_spec s i r e :
  entry_matches s i r e = true <-> de_in_use e = true /\ de_release e = r /\ de_session e = s /\ de_request_id e = i.
Proof.
  unfold entry_matches. rewrite !andb_true_iff, !bool_decide_eq_true, Bool.eqb_true_iff. tauto.
Qed.

Lemma find_alone {A} (f : A -> bool) l p x : l !! p = Some x -> f x = true ->
  (forall q y, l !! q = Some y -> f y = true -> q = p) -> find f l = Some x.
Proof.
  revert p. induction l as [|y l IH]; intros p Hp Hf Ha; [done|]. cbn [find].
  destruct (f y) eqn:Hy.
  - pose proof (Ha 0%nat y eq_refl Hy) as <-. cbn in Hp. by simplify_eq.
  - destruct p as [|p]; [cbn in Hp; simplify_eq; congruence|].
    apply (IH p); [done|done|]. intros q z Hq Hz. specialize (Ha (S q) z Hq Hz). lia.
Qed.

Lemma find_none_lookup {A} (f : A -> bool) l q x : find f l = None -> l !! q = Some x -> f x = false.
Proof.
  intros Hf Hq. apply find_none with (x := x) in Hf; [done|].
  apply list_elem_of_In, list_elem_of_lookup. eauto.
Qed.

Lemma resident_find cache p k e : resident cache p k e ->
  auth_dup_find cache (de_session e) (de_request_id e) (de_release e) = Some e.
Proof.
  intros [_ He Hu Ha _]. apply (find_alone _ _ p); [done| |done]. by apply entry_matches_spec.
Qed.

Lemma store_resident cache entry : cache_wf cache ->
  de_in_use (entry (dc_ordinal_next cache)) = true ->
  auth_dup_find cache (de_session (entry (dc_ordinal_next cache))) (de_request_id (entry (dc_ordinal_next cache)))
    (de_release (entry (dc_ordinal_next cache))) = None ->
  resident (auth_dup_store cache entry) (dc_next cache) 0 (entry (dc_ordinal_next cache)).
Proof.
  intros Hwf Hu Hf. pose proof Hwf as [Hl Hn]. split.
  - by apply store_wf.
  - cbn [auth_dup_store dc_entries]. apply list_lookup_insert_eq. lia.
  - done.
  - intros q e' Hq Hm. cbn [auth_dup_store dc_entries] in Hq. destruct (decide (q = dc_next cache)) as [|Hne]; [done|].
    rewrite list_lookup_insert_ne in Hq by done.
    unfold auth_dup_find in Hf. rewrite (find_none_lookup _ _ _ _ Hf Hq) in Hm. done.
  - cbn [auth_dup_store dc_next]. f_equal. lia.
Qed.

Lemma store_keeps_resident cache p k e entry : resident cache p k e -> (k < 15)%nat ->
  (p < ARGUS_MQTT_AUTH_DUP_CACHE_SIZE)%nat ->
  auth_dup_find cache (de_session (entry (dc_ordinal_next cache))) (de_request_id (entry (dc_ordinal_next cache)))
    (de_release (entry (dc_ordinal_next cache))) = None ->
  resident (auth_dup_store cache entry) p (S k) e.
Proof.
  intros Hr Hk Hp Hf. pose proof Hr as [Hwf He Hu Ha Hn]. set (e' := entry (dc_ordinal_next cache)) in *.
  assert (Hne : dc_next cache <> p).
  { rewrite Hn. unfold ARGUS_MQTT_AUTH_DUP_CACHE_SIZE in *. intros Heq.
    pose proof (Nat.div_mod_eq (p + 1 + k) 16). lia. }
  split.
  - by apply store_wf.
  - cbn [auth_dup_store dc_entries]. by rewrite list_lookup_insert_ne.
  - done.
  - intros q f Hq Hm. cbn [auth_dup_store dc_entries] in Hq. fold e' in Hq.
    destruct (decide (dc_next cache = q)) as [<-|Hq'].
    + rewrite list_lookup_insert_eq in Hq by (destruct Hwf as [-> ?]; lia). injection Hq as <-.
      apply entry_matches_spec in Hm as (_ & H1 & H2 & H3). rewrite H1, H2, H3 in Hf.
      by rewrite (resident_find _ _ _ _ Hr) in Hf.
    + rewrite list_lookup_insert_ne in Hq by done. eauto.
  - cbn [auth_dup_store dc_next]. rewrite Hn. unfold ARGUS_MQTT_AUTH_DUP_CACHE_SIZE.
    rewrite Nat.Div0.add_mod_idemp_l. f_equal. lia.
Qed.

Lemma run_resident evs : forall core cache p k e,
  resident cache p k e -> (p < ARGUS_MQTT_AUTH_DUP_CACHE_SIZE)%nat ->
  (k + length (List.filter is_admit evs) <= 15)%nat ->
  sc_session (session_run (core, cache) evs).1 = sc_session core
  /\ exists k', resident (session_run (core, cache) evs).2 p k' e.
Proof.
  induction evs as [|ev evs IH]; intros core cache p k e Hr Hp Hk; [by split; [|exists k]|].
  destruct ev as [m rel prof win run now|ev]; cbn [List.filter is_admit length] in Hk.
  - change (session_run (core, cache) (EvAdmit m rel prof win run now :: evs))
      with (session_run (session_step (core, cache) (EvAdmit m rel prof win run now)) evs).
    cbn [session_step fst snd].
    pose proof (admit_cases hash core cache m rel prof win run now) as Hc.
    pose proof (admit_session hash core cache m rel prof win run now) as Hs.
    destruct (argus_mqtt_authority_admit hash core cache m rel prof win run now) as [[out core'] cache'].
    cbn [fst snd] in Hs. rewrite <- Hs. destruct Hc as [(_ & _ & _ & ->)|H].
    + apply (IH core' cache p k e Hr Hp). lia.
    + destruct H as (req & entry & _ & _ & _ & _ & _ & Hf & -> & Hst & _).
      apply (IH core' _ p (S k) e); [|done|lia].
      apply store_keeps_resident; [done|lia|done|].
      by destruct (Hst (dc_ordinal_next cache)) as (_ & -> & -> & -> & _).
  - change (session_run (core, cache) (EvLease ev :: evs))
      with (session_run (session_step (core, cache) (EvLease ev)) evs).
    cbn [session_step fst snd]. rewrite <- (lease_step_session core ev). by apply (IH _ cache p k e).
Qed.

(** Authority requests are idempotent: once a request or release was evaluated, its
    redelivery (same payload and kind, whoever holds the lease by then, whatever the
    clock, the profile and the machine) is answered with the byte-identical result and
    changes neither the lease nor the cache, as long as fewer than sixteen other
    admissions came between; heartbeats, expiries, disconnections and commands in
    between do not matter. *)
Theorem redelivery_replays core cache m rel prof win run now out core1 cache1 evs m' prof' win' run' now' :
  cache_wf cache ->
  argus_mqtt_authority_admit hash core cache m rel prof win run now = (out, core1, cache1) ->
  cached_stage (ao_stage out) = true ->
  (length (List.filter is_admit evs) < 16)%nat ->
  msg_payload m' = msg_payload m -> msg_qos m' = 1 -> msg_retain m' = false ->
  let s := session_run (core1, cache1) evs in
  argus_mqtt_authority_admit hash s.1 s.2 m' rel prof' win' run' now' =
    (AuthorityOutcome ARGUS_MQTT_AUTHORITY_ADMIT_DUPLICATE_REPLAY None None (ao_result_json out) false false,
     s.1, s.2).
Proof.
  intros Hwf Hadm Hstage Hcount Hpay Hqos Hret s.
  pose proof (admit_cases hash core cache m rel prof win run now) as Hc.
  pose proof (admit_session hash core cache m rel prof win run now) as Hsess. rewrite Hadm in Hc, Hsess.
  cbn [fst snd] in Hsess.
  destruct Hc as [(Hno & _)|(req & entry & _ & _ & _ & Hd & Hrs & Hf & -> & Hst & Hjson & _)]; [congruence|].
  destruct (Hst (dc_ordinal_next cache)) as (E1 & E2 & E3 & E4 & E5 & E6).
  pose proof (Hjson (dc_ordinal_next cache) Hsess) as ->.
  assert (Hr : resident (auth_dup_store cache entry) (dc_next cache) 0 (entry (dc_ordinal_next cache))).
  { apply store_resident; [done|done|]. by rewrite E2, E3, E4. }
  destruct (run_resident evs core1 _ _ _ _ Hr (proj2 Hwf) ltac:(lia)) as [Hs (k' & Hk')].
  fold s in Hs, Hk'. apply resident_find in Hk'. rewrite E2, E3, E4 in Hk'.
  unfold argus_mqtt_authority_admit. rewrite Hret, Hqos, Hpay, Hd. cbn [negb Z.eqb].
  change (1 =? 1) with true. cbn [negb].
  rewrite (bool_decide_eq_true_2 (ar_session req = _)) by congruence. cbn [negb].
  rewrite Hk', E6, Nat.eqb_refl, E5, bool_decide_eq_true_2 by done. done.
Qed.
End Redelivery.

(** A refused or replayed request changes nothing: unless the request is granted or
    renewed, or the release accepted, the whole session core stays as it was, and a
    request refused before evaluation (retained, QoS, payload, session, conflict) does
    not touch the duplicate cache either; a grant takes effect only for the current
    session and, if it names an epoch, only for the current epoch. *)
Theorem admission_frame hash core cache m rel prof win run now :
  let '(out, core', cache') := argus_mqtt_authority_admit hash core cache m rel prof win run now in
  (ao_state_changed out = false -> core' = core) /\
  (cached_stage (ao_stage out) = false -> cache' = cache) /\
  (ao_state_changed out = true ->
     msg_retain m = false /\ msg_qos m = 1 /\
     exists req, argus_mqtt_decode_authority_request (Some (msg_payload m)) rel = DecodeOk req
       /\ ar_session req = sc_session core
       /\ auth_dup_find cache (ar_session req) (ar_request_id req) rel = None).
Proof.
  pose proof (admit_cases hash core cache m rel prof win run now) as Hc.
  destruct (argus_mqtt_authority_admit hash core cache m rel prof win run now) as [[out core'] cache'].
  destruct Hc as [(H1 & H2 & -> & ->)|(req & entry & H1 & H2 & H3 & H4 & H5 & H6 & H7 & _ & _ & H8)].
  - repeat split; try done; congruence.
  - split; [done|]. split; [congruence|]. intros _. split; [done|]. split; [done|]. by exists req.
Qed.

(** Who may take a lease from another, from the wire: while a lease is held and
    unexpired, a message of another principal changes the session core only if it is an
    acquisition (never a release) by ArgusCore against a local panel or service tool
    under the ArgusCore-preferred profile, the machine is not driving, and the message
    names the controller's current session and its current, nonzero authority epoch; so
    a request delayed past any change of ownership never moves the lease. *)
Theorem takeover_needs_current_epoch hash core cache m rel prof win run now out core' cache' :
  0 <= prof -> lease_held core now = true -> sc_lease_machine_id core <> msg_identifier m ->
  argus_mqtt_authority_admit hash core cache m rel prof win run now = (out, core', cache') ->
  core' <> core ->
  rel = false /\ msg_client_type m = ARGUS_MACHINE_CLIENT_ARGUS_COMMAND
  /\ local_client (sc_lease_client_type core) = true
  /\ prof = ARGUS_AUTHORITY_PROFILE_ARGUSCORE_PREFERRED /\ run = false
  /\ exists req, argus_mqtt_decode_authority_request (Some (msg_payload m)) false = DecodeOk req
       /\ ar_session req = sc_session core
       /\ ar_authority_epoch req = sc_authority_epoch core /\ ar_authority_epoch req <> 0.
Proof.
  intros Hprof Hheld Hne. unfold argus_mqtt_authority_admit.
  destruct (msg_retain m); [by intros [= _ <- _]|]. destruct (negb (msg_qos m =? 1)); [by intros [= _ <- _]|].
  destruct (argus_mqtt_decode_authority_request _ rel) as [req|e|] eqn:Hd; [|by intros [= _ <- _]|by intros [= _ <- _]].
  destruct (bool_decide_reflect (ar_session req = sc_session core)) as [Hs|]; cbn [negb]; [|by intros [= _ <- _]].
  destruct (auth_dup_find _ _ _ _) as [e|]; [destruct (_ && _); by intros [= _ <- _]|].
  destruct rel.
  - destruct (negb _); [by intros [= _ <- _]|].
    assert (Hn : lease_held_by core (Some (msg_identifier m)) = false).
    { unfold lease_held_by. rewrite bool_decide_eq_false_2 by done. by rewrite andb_false_r. }
    unfold argus_mqtt_session_release_authority. rewrite Hn. cbn [negb]. by intros [= _ <- _].
  - destruct (negb (ar_authority_epoch req =? 0) && negb (ar_authority_epoch req =? sc_authority_epoch core)) eqn:He;
      [by intros [= _ <- _]|].
    destruct (argus_mqtt_session_request_authority_with_state core (msg_connection_id m) (Some (msg_identifier m))
      (msg_client_type m) prof win run (ar_authority_epoch req) now) as [r core1] eqn:Hr.
    intros [= _ <- _] Hchg.
    destruct (transfer_outcome _ _ _ _ _ _ _ _ _ _ _ Hprof Hheld Hne Hr) as [H|[_ H]]; [|done].
    destruct H as (_ & H1 & H2 & H3 & H4 & H5 & _). repeat (split; [done|]). exists req.
    rewrite (proj2 (Z.eqb_neq _ _) H5) in He. cbn [negb andb] in He.
    apply negb_false_iff, Z.eqb_eq in He. done.
Qed.

(** ** The result document fits *)

Lemma str_length_bound (r : argus_mqtt_authority_result_t) : (length (authority_result_reason r) <= 28)%nat.
Proof. destruct r; apply Nat.leb_le; reflexivity. Qed.

Lemma decode_reason_bound e : (length (decode_reason e) <= 28)%nat.
Proof. destruct e; apply Nat.leb_le; reflexivity. Qed.

(** The result document always fits its 385-byte buffer: with a decoded request, the
    reasons and outcomes the code uses and a 16-character session, the overflow fallback
    is unreachable and the document is the whole JSON object. *)
Theorem authority_result_fits core prof win now req outcome reason :
  (length (sc_session core) <= 16)%nat ->
  (exists payload rel, argus_mqtt_decode_authority_request payload rel = DecodeOk req) ->
  (length outcome <= 8)%nat -> (length reason <= 28)%nat ->
  build_authority_result_json (Some req) core prof win now outcome reason =
  let '(lease_status, local_status) := authority_status_from_core core prof win now in
  json_object
    [(str "schema", str "1"); (str "request_id", quoted (ar_request_id req));
     (str "session", quoted (sc_session core)); (str "outcome", quoted outcome); (str "reason", quoted reason);
     (str "control_owner", quoted (owner_kind core)); (str "authority_epoch", decimal (sc_authority_epoch core));
     (str "core_lease_status", quoted lease_status); (str "local_control_status", quoted local_status)].
Proof.
  intros Hs (payload & rel & Hd) Ho Hr. destruct (authority_request_bounded _ _ _ Hd) as [_ Hi].
  unfold build_authority_result_json, compose_authority_result_json, bounded_document.
  destruct (authority_status_from_core core prof win now) as [ls lo] eqn:Hst.
  assert (Hl : (length ls <= 15)%nat /\ (length lo <= 15)%nat).
  { unfold authority_status_from_core in Hst. injection Hst as <- <-.
    split; apply (strlcpy_length _ AUTH_DUP_STATUS_CAP). }
  assert (Hk : (length (owner_kind core) <= 12)%nat).
  { unfold owner_kind. repeat case_match; apply Nat.leb_le; reflexivity. }
  pose proof (decimal_length (sc_authority_epoch core)) as He.
  match goal with |- context [json_object ?l] =>
    assert (Hlen : (length (json_object l) < ARGUS_MQTT_BROKER_PAYLOAD_CAP)%nat) end.
  { unfold json_object. cbn [length]. rewrite members_size_spec by done. cbn [members_size].
    unfold quoted. cbn [length]. rewrite !length_app. literal_lengths. cbn [length].
    unfold ARGUS_MQTT_BROKER_PAYLOAD_CAP. lia. }
  apply Nat.leb_gt in Hlen. by rewrite Hlen.
Qed.

(** ** Witnesses *)

Definition demo_session : bytes := str "0123456789abcdef".

(** A panel holds the lease under epoch 1. *)
Definition demo_core : argus_mqtt_session_core_t :=
  SessionCore demo_session ARGUS_MQTT_LINK_ONLINE (str "panel") ARGUS_MACHINE_CLIENT_HMI 5 1 5 1 1000
    false 0 ARGUS_MQTT_ACTION_NONE [] [] [].

Definition demo_request_json (epoch : Z) : bytes :=
  json_object [(str "schema", str "1"); (str "request_id", quoted (str "r-1"));
               (str "session", quoted demo_session); (str "authority_epoch", decimal epoch)].

Definition demo_core_principal : argus_machine_principal_t :=
  MachinePrincipal (str "core") [] [] [] 2 0 0 ARGUS_MACHINE_CLIENT_ARGUS_COMMAND 0 0 0 0.

Definition demo_message (epoch : Z) : argus_mqtt_broker_message_t :=
  BrokerMessage 9 [] (demo_request_json epoch) 1 false true demo_core_principal.

Definition demo_hash (payload : bytes) : option bytes := Some (take 32 payload).

Definition demo_admit (epoch : Z) :=
  argus_mqtt_authority_admit demo_hash demo_core argus_mqtt_runtime_reset_duplicate_cache (demo_message epoch)
    false 1 false false 2000.

Lemma redelivery_replays_witness :
  let r := demo_admit 1 in
  let s := session_run demo_hash (r.1.2, r.2) [EvLease (EvTick 20000)] in
  sc_lease_machine_id r.1.2 = str "core" /\ sc_lease_machine_id s.1 = [] /\
  argus_mqtt_authority_admit demo_hash s.1 s.2 (demo_message 1) false 0 true true 30000 =
    (AuthorityOutcome ARGUS_MQTT_AUTHORITY_ADMIT_DUPLICATE_REPLAY None None (ao_result_json r.1.1) false false,
     s.1, s.2).
Proof.
  intros r s. split; [by vm_compute|]. split; [by vm_compute|].
  apply (redelivery_replays demo_hash demo_core argus_mqtt_runtime_reset_duplicate_cache (demo_message 1)
    false 1 false false 2000 r.1.1 r.1.2 r.2 [EvLease (EvTick 20000)] (demo_message 1) 0 true true 30000).
  - split; [reflexivity|apply Nat.leb_le; reflexivity].
  - unfold r, demo_admit. by destruct (argus_mqtt_authority_admit _ _ _ _ _ _ _ _ _) as [[? ?] ?].
  - by vm_compute.
  - apply Nat.leb_le. reflexivity.
  - reflexivity.
  - reflexivity.
  - reflexivity.
Defined.

Lemma takeover_needs_current_epoch_witness :
  let r := demo_admit 1 in
  sc_lease_machine_id r.1.2 = str "core" /\
  msg_client_type (demo_message 1) = ARGUS_MACHINE_CLIENT_ARGUS_COMMAND /\
  exists req, argus_mqtt_decode_authority_request (Some (demo_request_json 1)) false = DecodeOk req
    /\ ar_authority_epoch req = 1.
Proof.
  intros r. split; [by vm_compute|].
  destruct (takeover_needs_current_epoch demo_hash demo_core argus_mqtt_runtime_reset_duplicate_cache
    (demo_message 1) false 1 false false 2000 r.1.1 r.1.2 r.2) as (_ & Ht & _ & _ & _ & req & Hd & _ & He & _).
  - lia.
  - by vm_compute.
  - by vm_compute.
  - unfold r, demo_admit. by destruct (argus_mqtt_authority_admit _ _ _ _ _ _ _ _ _) as [[? ?] ?].
  - intros Heq. apply (f_equal sc_lease_machine_id) in Heq. by vm_compute in Heq.
  - split; [exact Ht|]. exists req. split; [exact Hd|exact He].
Defined.

Lemma authority_result_fits_witness :
  exists req, argus_mqtt_decode_authority_request (Some (demo_request_json 1)) false = DecodeOk req /\
  build_authority_result_json (Some req) demo_core 1 false 2000 (str "ACCEPTED") (str "granted") <> result_overflow.
Proof.
  destruct (argus_mqtt_decode_authority_request (Some (demo_request_json 1)) false) as [req|e|] eqn:Hd;
    [|by vm_compute in Hd|by vm_compute in Hd].
  exists req. split; [reflexivity|].
  rewrite (authority_result_fits demo_core 1 false 2000 req (str "ACCEPTED") (str "granted")).
  - by vm_compute.
  - apply Nat.leb_le. reflexivity.
  - eauto.
  - apply Nat.leb_le. reflexivity.
  - apply Nat.leb_le. reflexivity.
Defined.
