(* ===== verification/MqttRuntime.v ===== *)
(** * The MQTT protocol runtime

    The handlers of [src/main/argus_mqtt_runtime.c]: what the protocol task does with a
    heartbeat, an authority request and a command, what the disconnect callback and the
    periodic tick do, and what each publishes.  The runtime's state is explicit; the
    machine below it is the [system] of [Router]; the clock, the commissioned profile
    and the interleaving with other tasks are arguments.  A handler publishes the session
    it left behind: a step of another task between its last critical section and the
    publication is not among the interleavings. *)

From S2P Require Import Prelude CmdParser Authority StateMgr Router MqttDecode MqttLease Authorization.
From S2P Require Import MqttBroker MqttAdmission.

Definition ARGUS_MQTT_CORE_ACQUISITION_WINDOW_MS : Z := 45000.

(** ** State and output *)

(** The fields of [s_runtime] and the file statics the handlers use. *)
Record runtime_state_t := Runtime {
  rn_session : argus_mqtt_session_core_t;
  rn_cache : dup_cache;
  rn_authority_ready_ms : Z;
  rn_fallback_window_was_open : bool;
  rn_authority_reason : bytes;
  rn_prepared : bool
}.

#[export] Instance eta_runtime : Eta runtime_state_t := fun r =>
  Runtime (rn_session r) (rn_cache r) (rn_authority_ready_ms r) (rn_fallback_window_was_open r)
    (rn_authority_reason r) (rn_prepared r).

(** A publication on a topic of the topic table, or a call of
    [publish_operational_snapshot]. *)
Inductive emission :=
| Publish (topic : topic_field) (payload : bytes) (retain : bool)
| OperationalSnapshot.

(** What a handler reads of the clock and of the configuration store, in the order it
    reads them: for the decision, and again for the published state. *)
Record observations := Observations {
  ob_profile : option Z;
  ob_window_now : Z;
  ob_now : Z;
  ob_publish_profile : option Z;
  ob_publish_window_now : Z;
  ob_publish_now : Z
}.

(** [stored] is the effective configuration's profile, [None] when it is unreadable. *)
Definition commissioned_authority_profile (stored : option Z) : Z :=
  match stored with
  | None => ARGUS_AUTHORITY_PROFILE_STANDALONE_HMI
  | Some p => if ARGUS_AUTHORITY_PROFILE_MAX <? p then ARGUS_AUTHORITY_PROFILE_STANDALONE_HMI else p
  end.

Definition core_acquisition_window_open (anchor now_ms : Z) : bool :=
  if anchor =? 0 then true else u64 (now_ms - anchor) <? ARGUS_MQTT_CORE_ACQUISITION_WINDOW_MS.

Definition set_authority_reason (reason : option bytes) (rt : runtime_state_t) : runtime_state_t :=
  match reason with Some r => rt <| rn_authority_reason := r |> | None => rt end.

Definition publish_authority_state (rt : runtime_state_t) (stored : option Z) (window_now now_ms : Z)
    : list emission :=
  let snapshot := rn_session rt in
  let profile := commissioned_authority_profile stored in
  let window_open := core_acquisition_window_open (rn_authority_ready_ms rt) window_now in
  let '(lease_status, local_status) := authority_status_from_core snapshot profile window_open now_ms in
  [Publish status_core_lease_status lease_status true;
   Publish status_authority_reason (rn_authority_reason rt) true;
   Publish status_authority_profile
     (if profile =? ARGUS_AUTHORITY_PROFILE_ARGUSCORE_PREFERRED
      then str "ARGUSCORE_PREFERRED" else str "STANDALONE_HMI") true;
   Publish status_control_owner (owner_kind snapshot) true;
   Publish status_authority_epoch (decimal (sc_authority_epoch snapshot)) true;
   Publish status_local_control local_status true].

Definition publish_authority_state_at (rt : runtime_state_t) (ob : observations) : list emission :=
  publish_authority_state rt (ob_publish_profile ob) (ob_publish_window_now ob) (ob_publish_now ob).

(** ** Heartbeats *)

Definition handle_heartbeat (rt : runtime_state_t) (message : argus_mqtt_broker_message_t) (ob : observations)
    : runtime_state_t * list emission :=
  if negb (msg_policy_admitted message) then (rt, [])
  else
    match argus_mqtt_decode_heartbeat (Some (msg_payload message)) with
    | DecodeOk hb =>
        let core := rn_session rt in
        let was_online := link_is_online (sc_link core) in
        let '(err, core) :=
          holder_heartbeat core (msg_connection_id message) (msg_identifier message)
            (msg_client_type message) hb (ob_now ob) in
        let rt := rt <| rn_session := core |> in
        if is_ok err then
          let online := Publish state_supervisor_link (str "ONLINE") true in
          if negb was_online then
            let rt := set_authority_reason (Some (str "CORE_REACQUISITION")) rt in
            (rt, online :: publish_authority_state_at rt ob)
          else (rt, [online])
        else (rt, [])
    | _ => (rt, [])
    end.

(** ** Authority requests *)

(** "The motor is actively being driven." *)
Definition machine_running (s : argus_machine_state_t) : bool :=
  is_state s ARGUS_STATE_STARTING || is_state s ARGUS_STATE_RUNNING || is_state s ARGUS_STATE_DECELERATING.

(** The reason the stage leaves behind. *)
Definition stage_reason (out : argus_mqtt_authority_outcome_t) (was_online_before : bool)
    (client_type profile : Z) : option bytes :=
  match ao_stage out, ao_request_result out with
  | ARGUS_MQTT_AUTHORITY_ADMIT_RELEASE_ACCEPTED, _ => argus_mqtt_authority_reason_for_release true
  | ARGUS_MQTT_AUTHORITY_ADMIT_RELEASE_NOT_OWNER, _ => argus_mqtt_authority_reason_for_release false
  | ARGUS_MQTT_AUTHORITY_ADMIT_REQUEST_EVALUATED, Some result =>
      argus_mqtt_authority_reason_for_request result was_online_before client_type profile
  | _, _ => None
  end.

(** The stages after which the handler returns at once. *)
Definition silent_stage (s : argus_mqtt_authority_admit_stage_t) : bool :=
  match s with
  | ARGUS_MQTT_AUTHORITY_ADMIT_RETAINED_REFUSED | ARGUS_MQTT_AUTHORITY_ADMIT_QOS_REFUSED => true
  | _ => false
  end.

Definition handle_authority_request (hash : bytes -> option bytes) (rt : runtime_state_t)
    (message : argus_mqtt_broker_message_t) (release : bool) (machine_state : argus_machine_state_t)
    (ob : observations) : runtime_state_t * list emission :=
  if negb (msg_policy_admitted message) then (rt, [])
  else if Z.land (mp_permissions (msg_principal message)) ARGUS_PERMISSION_REQUEST_AUTHORITY =? 0 then (rt, [])
  else
    let profile := commissioned_authority_profile (ob_profile ob) in
    let window_open := core_acquisition_window_open (rn_authority_ready_ms rt) (ob_window_now ob) in
    let was_online_before := link_is_online (sc_link (rn_session rt)) in
    let '(out, core, cache) :=
      argus_mqtt_authority_admit hash (rn_session rt) (rn_cache rt) message release profile window_open
        (machine_running machine_state) (ob_now ob) in
    let rt := rt <| rn_session := core |> <| rn_cache := cache |> in
    if silent_stage (ao_stage out) then (rt, [])
    else
      let rt := set_authority_reason (stage_reason out was_online_before (msg_client_type message) profile) rt in
      let result := match ao_result_json out with
                    | Some json => [Publish event_authority_result json false]
                    | None => []
                    end in
      let state :=
        if ao_state_changed out then
          Publish state_supervisor_link (if ao_link_online out then str "ONLINE" else str "OFFLINE") true
          :: publish_authority_state_at rt ob
        else [] in
      (rt, result ++ state).

(** ** Commands *)

Definition command_type (action : argus_mqtt_action_t) : argus_cmd_type_t :=
  match action with
  | ARGUS_MQTT_ACTION_SET_TARGET => ARGUS_CMD_TYPE_SET_TARGET
  | ARGUS_MQTT_ACTION_START => ARGUS_CMD_TYPE_START
  | ARGUS_MQTT_ACTION_STOP => ARGUS_CMD_TYPE_STOP_NORMAL
  | ARGUS_MQTT_ACTION_UNLOCK => ARGUS_CMD_TYPE_UNLOCK
  | ARGUS_MQTT_ACTION_E_STOP => ARGUS_CMD_TYPE_ESTOP
  | ARGUS_MQTT_ACTION_RESET_E_STOP => ARGUS_CMD_TYPE_RESET_ESTOP
  | ARGUS_MQTT_ACTION_RECOVER => ARGUS_CMD_TYPE_RECOVER
  | _ => ARGUS_CMD_TYPE_STOP_NORMAL
  end.

(** What the tick and the disconnect callback, in other tasks, do to the session between
    two critical sections of the protocol task. *)
Inductive other_task := OtherTick (now_ms : Z) | OtherDisconnect (connection_id : Z).

Definition other_session (core : argus_mqtt_session_core_t) (o : other_task) : argus_mqtt_session_core_t :=
  match o with
  | OtherTick now => (argus_mqtt_session_tick core now).2
  | OtherDisconnect conn => (argus_mqtt_session_disconnect core conn).2
  end.

Section Commands.
Context {M : Type} (err_code : esp_err_t -> Z) (ops : argus_motion_ops_t M).

(** The result document and the authority singleton its snapshot initialises. *)
Definition build_result (command : argus_mqtt_command_t) (outcome reason : bytes) (sys : system (M := M))
    : bytes * system (M := M) :=
  let '(authority, auth) := argus_authority_mgr_get_snapshot sys.1 in
  let state := sys.2.1 in
  (bounded_document ARGUS_MQTT_BROKER_PAYLOAD_CAP
     (json_object
        [(str "session", quoted (cd_session command)); (str "sequence", decimal (cd_sequence command));
         (str "command_id", quoted (cd_command_id command));
         (str "action", quoted (argus_mqtt_action_name (cd_action command)));
         (str "outcome", quoted outcome); (str "reason", quoted reason);
         (str "authority_generation", decimal (as_generation authority));
         (str "command_generation", decimal (command_generation state));
         (str "machine_state", quoted (argus_state_mgr_get_state_name (machine_state state)))]),
   (auth, sys.2)).

(** [co_dispatched] is what the router answered, [None] when the command did not get there. *)
Record command_outcome := CommandOutcome {
  co_runtime : runtime_state_t;
  co_system : system (M := M);
  co_output : list emission;
  co_dispatched : option esp_err_t
}.

Definition reject_decoded (rt : runtime_state_t) (sys : system (M := M)) (command : argus_mqtt_command_t)
    (reason : bytes) : command_outcome :=
  let '(result, sys) := build_result command (str "REJECTED") reason sys in
  CommandOutcome rt sys [Publish command_result result false] None.

(** [others] are the steps of other tasks on the session between its two critical
    sections, [meanwhile] what they do to the machine and the authority between the
    probe and the dispatch, [take] the state manager's mutex. *)
Definition handle_command (max_output_milli_rpm : Z) (take : bool) (rt : runtime_state_t)
    (message : argus_mqtt_broker_message_t) (action : argus_mqtt_action_t) (others : list other_task)
    (meanwhile : system (M := M) -> system (M := M)) (sys : system (M := M)) : command_outcome :=
  match argus_mqtt_decode_command (Some (msg_payload message)) action max_output_milli_rpm with
  | DecodeOk command =>
      if negb (msg_policy_admitted message) then
        reject_decoded rt sys command
          (if msg_retain message then str "retained_forbidden" else str "topic_forbidden")
      else if negb (msg_qos message =? 1) then reject_decoded rt sys command (str "qos_1_required")
      else
        match argus_mqtt_command_admission_check (rn_session rt) (msg_identifier message)
                (msg_connection_id message) command with
        | ARGUS_MQTT_COMMAND_ADMIT_SESSION_MISMATCH => reject_decoded rt sys command (str "session_mismatch")
        | ARGUS_MQTT_COMMAND_ADMIT_NOT_HOLDER => reject_decoded rt sys command (str "not_authority_holder")
        | ARGUS_MQTT_COMMAND_ADMIT_STALE_EPOCH => reject_decoded rt sys command (str "stale_epoch")
        | ARGUS_MQTT_COMMAND_ADMIT_OK =>
            match argus_mqtt_session_check_sequence (rn_session rt) command (msg_payload message) with
            | ARGUS_MQTT_SEQUENCE_DUPLICATE =>
                CommandOutcome rt sys
                  [Publish command_result
                     (strlcpy (sc_cached_result (rn_session rt)) ARGUS_MQTT_BROKER_PAYLOAD_CAP) false] None
            | ARGUS_MQTT_SEQUENCE_CONFLICT => reject_decoded rt sys command (str "sequence_conflict")
            | ARGUS_MQTT_SEQUENCE_STALE => reject_decoded rt sys command (str "stale_sequence")
            | ARGUS_MQTT_SEQUENCE_FIRST | ARGUS_MQTT_SEQUENCE_NEWER =>
                let '(authority, auth) := argus_authority_mgr_get_snapshot sys.1 in
                let envelope :=
                  Envelope ARGUS_CMD_SRC_MQTT_SUPERVISORY (command_type action) (as_generation authority)
                    (cd_target_rpm_milli command) (cd_forward command) in
                let '(verdict, auth) := argus_cmd_router_check_authority (Some envelope) auth in
                let sys := (auth, sys.2) in
                if negb (is_ok verdict) then reject_decoded rt sys command (str "authority_rejected")
                else
                  let '(dispatch, sys) :=
                    argus_cmd_router_dispatch err_code ops take (Some envelope) (meanwhile sys) in
                  let '(result, sys) :=
                    build_result command (if is_ok dispatch then str "ACCEPTED" else str "REJECTED")
                      (if is_ok dispatch then str "accepted" else str "state_rejected") sys in
                  let rt := rt <| rn_session ::= fun core =>
                    argus_mqtt_session_commit_result (foldl other_session core others) command
                      (msg_payload message) result |> in
                  CommandOutcome rt sys [Publish command_result result false; OperationalSnapshot] (Some dispatch)
            end
        end
  | _ => CommandOutcome rt sys [] None
  end.

(** ** The protocol task *)

Definition handle_message (hash : bytes -> option bytes) (topics : argus_mqtt_topics_t)
    (max_output_milli_rpm : Z) (take : bool) (rt : runtime_state_t) (message : argus_mqtt_broker_message_t)
    (ob : observations) (others : list other_task) (meanwhile : system (M := M) -> system (M := M))
    (sys : system (M := M)) : command_outcome :=
  let quiet '(rt, out) := CommandOutcome rt sys out None in
  match argus_mqtt_topics_classify topics (msg_topic message) with
  | ARGUS_MQTT_ACTION_HEARTBEAT => quiet (handle_heartbeat rt message ob)
  | ARGUS_MQTT_ACTION_REQUEST_AUTHORITY =>
      quiet (handle_authority_request hash rt message false (machine_state sys.2.1) ob)
  | ARGUS_MQTT_ACTION_RELEASE_AUTHORITY =>
      quiet (handle_authority_request hash rt message true (machine_state sys.2.1) ob)
  | ARGUS_MQTT_ACTION_NONE => CommandOutcome rt sys [] None
  | action => handle_command max_output_milli_rpm take rt message action others meanwhile sys
  end.
End Commands.

Arguments CommandOutcome {M}.
Arguments co_runtime {M}.
Arguments co_system {M}.
Arguments co_output {M}.
Arguments co_dispatched {M}.

(** ** The disconnect callback, the tick and the life cycle *)

(** [broker_client_cb] for a disconnected client. *)
Definition broker_client_disconnected (rt : runtime_state_t) (connection_id : Z) (ob : observations)
    : runtime_state_t * list emission :=
  let '(changed, core) := argus_mqtt_session_disconnect (rn_session rt) connection_id in
  let still_owned := owned core in
  let rt := rt <| rn_session := core |> in
  if changed then
    let rt := if still_owned
              then set_authority_reason (Some argus_mqtt_authority_reason_for_disconnect) rt else rt in
    (rt, Publish state_supervisor_link (str "OFFLINE") true :: publish_authority_state_at rt ob)
  else (rt, []).

(** [ob_now] times the expiry, [ob_window_now] the window poll; the published state is
    read at the other times for both publications. *)
Definition argus_mqtt_runtime_tick (rt : runtime_state_t) (broker_running : bool) (ob : observations)
    : runtime_state_t * list emission :=
  if negb (rn_prepared rt) || negb broker_running then (rt, [])
  else
    let '(stale, core) := argus_mqtt_session_tick (rn_session rt) (ob_now ob) in
    let rt := rt <| rn_session := core |> in
    let '(rt, expiry) :=
      if stale then
        let rt := set_authority_reason (Some argus_mqtt_authority_reason_for_expiry) rt in
        (rt, publish_authority_state_at rt ob)
      else (rt, []) in
    let window_open_now := core_acquisition_window_open (rn_authority_ready_ms rt) (ob_window_now ob) in
    let unowned := negb (owned (rn_session rt)) in
    let fallback :=
      if rn_fallback_window_was_open rt && negb window_open_now && unowned
      then publish_authority_state_at rt ob else [] in
    (rt <| rn_fallback_window_was_open := window_open_now |>, expiry ++ fallback ++ [OperationalSnapshot]).

Definition argus_mqtt_runtime_mark_authority_ready (rt : runtime_state_t) (now_ms : Z) : runtime_state_t :=
  if owned (rn_session rt) && link_is_online (sc_link (rn_session rt)) then rt
  else rt <| rn_authority_ready_ms := now_ms |>.

(** [draws] are the pairs of random words, drawn until one is not zero; [None] while every
    drawn pair was zero.  The topic table is [argus_mqtt_topics_build] of the identity. *)
Definition argus_mqtt_runtime_prepare_start (rt : runtime_state_t) (broker_running : bool)
    (client_id unit_id : option bytes) (draws : list (Z * Z))
    : option (esp_err_t * runtime_state_t * option argus_mqtt_topics_t) :=
  if broker_running then Some (ESP_ERR_INVALID_STATE, rt, None)
  else
    '(high, low) ← find (fun d => negb ((d.1 =? 0) && (d.2 =? 0))) draws;
    let '(err, session) := argus_mqtt_session_format high low 17 in
    if negb (is_ok err) then Some (err, rt, None)
    else
      let '(err, topics) := argus_mqtt_topics_build client_id unit_id in
      if negb (is_ok err) then Some (err, rt <| rn_prepared := false |>, None)
      else
        Some (ESP_OK,
              rt <| rn_session := argus_mqtt_session_core_init session |>
                 <| rn_prepared := true |>
                 <| rn_cache := argus_mqtt_runtime_reset_duplicate_cache |>
                 <| rn_authority_ready_ms := 0 |>
                 <| rn_fallback_window_was_open := true |>,
              topics).

(** ** The command path *)

Section CommandProofs.
Context {M : Type} (err_code : esp_err_t -> Z) (ops : argus_motion_ops_t M).

Lemma build_result_keeps command outcome reason (sys : system (M := M)) :
  (build_result command outcome reason sys).2.2 = sys.2
  /\ argus_authority_mgr_init (build_result command outcome reason sys).2.1 = argus_authority_mgr_init sys.1.
Proof. done. Qed.

Lemma build_result_fits command outcome reason (sys : system (M := M)) :
  (length (build_result command outcome reason sys).1 < ARGUS_MQTT_BROKER_PAYLOAD_CAP)%nat.
Proof.
  unfold build_result, argus_authority_mgr_get_snapshot, bounded_document. cbn [fst].
  match goal with |- context [(?a <=? ?b)%nat] => destruct (Nat.leb_spec a b) as [Hle|Hlt] end; [|exact Hlt].
  pose proof (strlcpy_length result_overflow ARGUS_MQTT_BROKER_PAYLOAD_CAP).
  unfold ARGUS_MQTT_BROKER_PAYLOAD_CAP in *. lia.
Qed.

(** The conditions under which a command reaches the router. *)
Record command_admitted (rt : runtime_state_t) (m : argus_mqtt_broker_message_t) (command : argus_mqtt_command_t)
    : Prop := {
  ca_policy : msg_policy_admitted m = true;
  ca_qos : msg_qos m = 1;
  ca_session : cd_session command = sc_session (rn_session rt);
  ca_online : sc_link (rn_session rt) = ARGUS_MQTT_LINK_ONLINE;
  ca_owned : owned (rn_session rt) = true;
  ca_holder : sc_lease_machine_id (rn_session rt) = msg_identifier m;
  ca_connection : sc_lease_connection_id (rn_session rt) = msg_connection_id m;
  ca_epoch : cd_authority_epoch command = sc_authority_epoch (rn_session rt)
}.

Lemma admission_check_ok core id conn command :
  argus_mqtt_command_admission_check core id conn command = ARGUS_MQTT_COMMAND_ADMIT_OK <->
  cd_session command = sc_session core /\ sc_link core = ARGUS_MQTT_LINK_ONLINE /\ owned core = true
  /\ sc_lease_machine_id core = id /\ sc_lease_connection_id core = conn
  /\ cd_authority_epoch command = sc_authority_epoch core.
Proof.
  unfold argus_mqtt_command_admission_check.
  destruct (bool_decide_reflect (cd_session command = sc_session core)); cbn [negb]; [|split; [done|tauto]].
  destruct (sc_link core) eqn:Hl; cbn [link_is_online negb orb]; try (split; [done|intros (_ & ? & _); done]).
  destruct (owned core); cbn [negb orb]; [|split; [done|intros (_ & _ & ? & _); done]].
  destruct (bool_decide_reflect (sc_lease_machine_id core = id)); cbn [negb orb]; [|split; [done|tauto]].
  destruct (Z.eqb_spec (sc_lease_connection_id core) conn); cbn [negb]; [|split; [done|tauto]].
  destruct (Z.eqb_spec (cd_authority_epoch command) (sc_authority_epoch core)); cbn [negb]; [|split; [done|tauto]].
  tauto.
Qed.

Lemma check_authority_init env auth :
  argus_authority_mgr_init (argus_cmd_router_check_authority env auth).2 = argus_authority_mgr_init auth.
Proof.
  unfold argus_cmd_router_check_authority. destruct env as [env|]; [|done].
  destruct (bypasses_authority env); [done|]. unfold argus_authority_mgr_get_snapshot.
  destruct (negb (_ =? _)); [done|]. by destruct (negb _).
Qed.

(** The envelope the handler builds, from the generation of its snapshot. *)
Definition command_envelope (action : argus_mqtt_action_t) (command : argus_mqtt_command_t) (auth : auth_static)
    : argus_command_envelope_t :=
  Envelope ARGUS_CMD_SRC_MQTT_SUPERVISORY (command_type action)
    (ac_generation (argus_authority_mgr_init auth)) (cd_target_rpm_milli command) (cd_forward command).

(** What a command that reached the router did. *)
Record command_effect max take rt m action others (meanwhile : system (M := M) -> system (M := M))
    (sys : system (M := M)) (o : command_outcome (M := M)) (command : argus_mqtt_command_t) (e : esp_err_t)
    (result : bytes) : Prop := {
  ce_decoded : argus_mqtt_decode_command (Some (msg_payload m)) action max = DecodeOk command;
  ce_admitted : command_admitted rt m command;
  ce_newer : sc_has_sequence (rn_session rt) = true ->
    argus_mqtt_session_is_newer (cd_sequence command) (sc_last_sequence (rn_session rt)) = true;
  ce_probe : exists auth,
    argus_cmd_router_check_authority (Some (command_envelope action command sys.1))
      (Some (argus_authority_mgr_init sys.1)) = (ESP_OK, auth)
    /\ let '(err, sys') := argus_cmd_router_dispatch err_code ops take
                             (Some (command_envelope action command sys.1)) (meanwhile (auth, sys.2)) in
       err = e /\ (co_system o).2 = sys'.2;
  ce_dispatched : co_dispatched o = Some e;
  ce_result : (length result < ARGUS_MQTT_BROKER_PAYLOAD_CAP)%nat;
  ce_output : co_output o = [Publish command_result result false; OperationalSnapshot];
  ce_runtime : co_runtime o = rt <| rn_session ::= fun core =>
    argus_mqtt_session_commit_result (foldl other_session core others) command (msg_payload m) result |>
}.

Lemma handle_command_cases max take rt m action others meanwhile sys :
  let o := handle_command err_code ops max take rt m action others meanwhile sys in
  (co_dispatched o = None /\ co_runtime o = rt /\ (co_system o).2 = sys.2
     /\ argus_authority_mgr_init (co_system o).1 = argus_authority_mgr_init sys.1) \/
  (exists command e result, command_effect max take rt m action others meanwhile sys o command e result).
Proof.
  intros o. subst o. unfold handle_command, reject_decoded.
  destruct (argus_mqtt_decode_command (Some (msg_payload m)) action max) as [command|e|] eqn:Hd; [|by left|by left].
  destruct (msg_policy_admitted m) eqn:Hp; cbn [negb]; [|by left].
  destruct (Z.eqb_spec (msg_qos m) 1) as [Hq|]; cbn [negb]; [|by left].
  destruct (argus_mqtt_command_admission_check _ _ _ command) eqn:Hadm; [|by left|by left|by left].
  apply admission_check_ok in Hadm as (H1 & H2 & H3 & H4 & H5 & H6).
  assert (Hca : command_admitted rt m command) by (by split).
  assert (Hnew : match argus_mqtt_session_check_sequence (rn_session rt) command (msg_payload m) with
    | ARGUS_MQTT_SEQUENCE_FIRST | ARGUS_MQTT_SEQUENCE_NEWER => sc_has_sequence (rn_session rt) = true ->
        argus_mqtt_session_is_newer (cd_sequence command) (sc_last_sequence (rn_session rt)) = true
    | _ => True end).
  { unfold argus_mqtt_session_check_sequence. destruct (sc_has_sequence (rn_session rt)); cbn [negb]; [|done].
    destruct (_ =? _); [by destruct (_ && _ && _)|]. by destruct (argus_mqtt_session_is_newer _ _). }
  destruct (argus_mqtt_session_check_sequence (rn_session rt) command (msg_payload m));
    [| |by left|by left|by left].
  all: unfold argus_authority_mgr_get_snapshot; cbn [as_generation];
    fold (command_envelope action command sys.1);
    pose proof (check_authority_init (Some (command_envelope action command sys.1))
      (Some (argus_authority_mgr_init sys.1))) as Hinit;
    destruct (argus_cmd_router_check_authority _ _) as [verdict auth] eqn:Hprobe; cbn [snd] in Hinit;
    destruct verdict; cbn [is_ok negb]; try (left; repeat split; try done; exact Hinit).
  all: destruct (argus_cmd_router_dispatch _ _ _ _ _) as [err sys'] eqn:Hdisp; right; exists command, err; eexists;
    split; [done|done|done|exists auth; split; [done|by rewrite Hdisp]|done| |reflexivity|reflexivity];
    apply build_result_fits.
Qed.
End CommandProofs.

Section CommandTheorems.
Context {M : Type} (err_code : esp_err_t -> Z) (ops : argus_motion_ops_t M).

Lemma dispatch_effect take env (sys : system (M := M)) :
  (argus_cmd_router_dispatch err_code ops take (Some env) sys).2.2 <> sys.2 ->
  bypasses_authority env = true \/
  (env_authority_generation env = ac_generation (argus_authority_mgr_init sys.1) /\
   argus_authority_validate_permission (Some (argus_authority_mgr_get_snapshot sys.1).1)
     (env_source env) (env_command_type env) = true).
Proof.
  destruct sys as [auth cm]. unfold argus_cmd_router_dispatch. cbn [fst].
  destruct (bypasses_authority env); [by left|].
  destruct (argus_authority_mgr_get_snapshot auth) as [snap auth'] eqn:Hs.
  assert (Hg : as_generation snap = ac_generation (argus_authority_mgr_init auth)).
  { unfold argus_authority_mgr_get_snapshot in Hs. by injection Hs as <- _. }
  destruct (Z.eqb_spec (env_authority_generation env) (as_generation snap)) as [He|]; cbn [negb]; [|done].
  destruct (argus_authority_validate_permission (Some snap) _ _) eqn:Hv; cbn [negb]; [|done].
  intros _. right. split; [congruence|done].
Qed.

Lemma mqtt_permission auth ty :
  argus_authority_validate_permission (Some (argus_authority_mgr_get_snapshot auth).1)
    ARGUS_CMD_SRC_MQTT_SUPERVISORY ty = true ->
  ty = ARGUS_CMD_TYPE_ESTOP \/
  (ac_mode (argus_authority_mgr_init auth) = ARGUS_AUTHORITY_SUPERVISORY
   /\ ac_owner (argus_authority_mgr_init auth) = ARGUS_AUTH_OWNER_MQTT).
Proof.
  unfold argus_authority_validate_permission, argus_authority_mgr_get_snapshot. cbn [fst as_mode as_owner].
  destruct (argus_authority_mgr_init auth) as [mode owner gen err]. cbn [ac_mode ac_owner].
  destruct mode, owner, ty; cbn; auto; discriminate.
Qed.

(** C28: what lets an MQTT command reach the machine: a command is dispatched only if the
    broker admitted it at QoS 1, its sender holds the command lease on this very
    connection with the link online, it names the current session and authority epoch,
    and its sequence number is newer than the last one executed; whatever other tasks
    did meanwhile, the dispatch then moves the machine only for an emergency stop or
    while the authority is still SUPERVISORY/MQTT in the generation the command was
    probed under; and a command that is not dispatched changes neither the machine, the
    authority nor the protocol state. *)
Theorem command_needs_lease max take rt m action others meanwhile sys :
  let o := handle_command err_code ops max take rt m action others meanwhile sys in
  (co_dispatched o = None -> co_runtime o = rt /\ (co_system o).2 = sys.2
     /\ argus_authority_mgr_init (co_system o).1 = argus_authority_mgr_init sys.1) /\
  (forall e, co_dispatched o = Some e ->
     exists command auth,
       argus_mqtt_decode_command (Some (msg_payload m)) action max = DecodeOk command
       /\ command_admitted rt m command
       /\ (sc_has_sequence (rn_session rt) = true ->
           argus_mqtt_session_is_newer (cd_sequence command) (sc_last_sequence (rn_session rt)) = true)
       /\ ((co_system o).2 <> (meanwhile (auth, sys.2)).2 ->
           command_type action = ARGUS_CMD_TYPE_ESTOP \/
           (let now := argus_authority_mgr_init (meanwhile (auth, sys.2)).1 in
            ac_mode now = ARGUS_AUTHORITY_SUPERVISORY /\ ac_owner now = ARGUS_AUTH_OWNER_MQTT
            /\ ac_generation now = ac_generation (argus_authority_mgr_init sys.1)))).
Proof.
  intros o. destruct (handle_command_cases err_code ops max take rt m action others meanwhile sys)
    as [(H1 & H2 & H3 & H4)|(command & e & result & [Hd Ha Hn (auth & Hp & Hx) Hdisp _ _ _])];
    fold o in H1, H2, H3, H4 || fold o in Hdisp, Hx.
  - split; [done|]. intros e He. congruence.
  - split; [intros Hno; congruence|]. intros e' _. exists command, auth. repeat (split; [done|]). intros Hchg.
    pose proof (dispatch_effect take (command_envelope action command sys.1) (meanwhile (auth, sys.2))) as Heff.
    destruct (argus_cmd_router_dispatch err_code ops take _ _) as [err sys']. destruct Hx as [_ Hx].
    cbn [snd] in Heff. rewrite Hx in Hchg. destruct (Heff Hchg) as [Hb|[Hg Hv]].
    + left. unfold bypasses_authority in Hb. cbn in Hb. by destruct (command_type action).
    + apply mqtt_permission in Hv as [?|[? ?]]; [by left|]. right. repeat (split; [done|]). done.
Qed.
End CommandTheorems.

(** A QoS refusal is composed but never published: an authority request at another QoS
    than 1 is refused with a [qos_1_required] result, and the handler returns before it
    publishes anything, so its sender gets no answer. *)
Theorem qos_refusal_unpublished hash rt m release state ob :
  msg_policy_admitted m = true -> msg_retain m = false -> msg_qos m <> 1 ->
  Z.land (mp_permissions (msg_principal m)) ARGUS_PERMISSION_REQUEST_AUTHORITY <> 0 ->
  let profile := commissioned_authority_profile (ob_profile ob) in
  let window := core_acquisition_window_open (rn_authority_ready_ms rt) (ob_window_now ob) in
  ao_result_json (argus_mqtt_authority_admit hash (rn_session rt) (rn_cache rt) m release profile window
                    (machine_running state) (ob_now ob)).1.1
    = Some (build_authority_result_json None (rn_session rt) profile window (ob_now ob)
              (str "REJECTED") (str "qos_1_required"))
  /\ (handle_authority_request hash rt m release state ob).2 = [].
Proof.
  intros Hp Hr Hq Hperm profile window. unfold handle_authority_request. fold profile window.
  rewrite Hp, (proj2 (Z.eqb_neq _ 0) Hperm). cbn [negb].
  assert (Hadm : argus_mqtt_authority_admit hash (rn_session rt) (rn_cache rt) m release profile window
                   (machine_running state) (ob_now ob) =
    (AuthorityOutcome ARGUS_MQTT_AUTHORITY_ADMIT_QOS_REFUSED None None
       (Some (build_authority_result_json None (rn_session rt) profile window (ob_now ob)
                (str "REJECTED") (str "qos_1_required"))) false false, rn_session rt, rn_cache rt)).
  { unfold argus_mqtt_authority_admit. by rewrite Hr, (proj2 (Z.eqb_neq _ 1) Hq). }
  by rewrite Hadm.
Qed.

Lemma qos_refusal_unpublished_witness :
  let m := BrokerMessage 9 [] (demo_request_json 1) 0 false true demo_core_principal in
  let rt := Runtime demo_core argus_mqtt_runtime_reset_duplicate_cache 1 false [] true in
  let ob := Observations (Some 1) 2000 2000 (Some 1) 2000 2000 in
  msg_qos m = 0 /\ (handle_authority_request demo_hash rt m false ARGUS_STATE_HOLDING ob).2 = [].
Proof.
  intros m rt ob. split; [reflexivity|].
  refine (proj2 (qos_refusal_unpublished demo_hash rt m false ARGUS_STATE_HOLDING ob _ _ _ _)); vm_compute;
    [reflexivity|reflexivity|discriminate|discriminate].
Defined.

(** ** Runs *)

Section Runs.
Context {M : Type} (err_code : esp_err_t -> Z) (ops : argus_motion_ops_t M).
Context (hash : bytes -> option bytes) (topics : argus_mqtt_topics_t) (max_output_milli_rpm : Z).

(** One broker life time: messages, the tick, disconnections, the readiness call, and
    whatever else moves the machine and the authority. *)
Inductive runtime_event :=
| RtMessage (take : bool) (message : argus_mqtt_broker_message_t) (ob : observations)
    (others : list other_task) (meanwhile : system (M := M) -> system (M := M))
| RtTick (broker_running : bool) (ob : observations)
| RtDisconnect (connection_id : Z) (ob : observations)
| RtReady (now_ms : Z)
| RtMachine (f : system (M := M) -> system (M := M)).

Definition runtime_step (s : runtime_state_t * system (M := M)) (ev : runtime_event)
    : runtime_state_t * system (M := M) :=
  match ev with
  | RtMessage take m ob others meanwhile =>
      let o := handle_message err_code ops hash topics max_output_milli_rpm take s.1 m ob others meanwhile s.2 in
      (co_runtime o, co_system o)
  | RtTick running ob => ((argus_mqtt_runtime_tick s.1 running ob).1, s.2)
  | RtDisconnect conn ob => ((broker_client_disconnected s.1 conn ob).1, s.2)
  | RtReady now => (argus_mqtt_runtime_mark_authority_ready s.1 now, s.2)
  | RtMachine f => (s.1, f s.2)
  end.

(** The sequence number of the command an event dispatches to the router. *)
Definition dispatched_sequence (s : runtime_state_t * system (M := M)) (ev : runtime_event) : option Z :=
  match ev with
  | RtMessage take m ob others meanwhile =>
      match co_dispatched (handle_message err_code ops hash topics max_output_milli_rpm take s.1 m ob others
                             meanwhile s.2),
            argus_mqtt_decode_command (Some (msg_payload m))
              (argus_mqtt_topics_classify topics (msg_topic m)) max_output_milli_rpm with
      | Some _, DecodeOk command => Some (cd_sequence command)
      | _, _ => None
      end
  | _ => None
  end.

Fixpoint dispatched (s : runtime_state_t * system (M := M)) (evs : list runtime_event) : list Z :=
  match evs with
  | [] => []
  | ev :: evs =>
      match dispatched_sequence s ev with
      | Some n => n :: dispatched (runtime_step s ev) evs
      | None => dispatched (runtime_step s ev) evs
      end
  end.

Definition runtime_run : runtime_state_t * system (M := M) -> list runtime_event ->
  runtime_state_t * system (M := M) := foldl runtime_step.

(** How far the sequence numbers advance in all, each step counted modulo 2^32. *)
Fixpoint advance (last : Z) (ds : list Z) : Z :=
  match ds with [] => 0 | d :: ds => u32 (d - last) + advance d ds end.

Definition rt_sequencing (s : runtime_state_t * system (M := M)) := sequencing (rn_session s.1).

Lemma others_sequencing others core : sequencing (foldl other_session core others) = sequencing core.
Proof.
  revert core. induction others as [|o others IH]; intros core; [done|]. cbn [foldl]. rewrite IH.
  destruct o; cbn [other_session]; [apply tick_sequencing|apply disconnect_sequencing].
Qed.

Lemma set_reason_session r rt : rn_session (set_authority_reason r rt) = rn_session rt.
Proof. by destruct r. Qed.

Lemma heartbeat_handler_sequencing rt m ob :
  sequencing (rn_session (handle_heartbeat rt m ob).1) = sequencing (rn_session rt).
Proof.
  unfold handle_heartbeat. destruct (negb (msg_policy_admitted m)); [done|].
  destruct (argus_mqtt_decode_heartbeat _) as [hb|e|]; [|done|done].
  pose proof (heartbeat_sequencing (rn_session rt) (msg_connection_id m) (msg_identifier m) (msg_client_type m) hb (ob_now ob)) as H.
  destruct (holder_heartbeat _ _ _ _ hb _) as [err core]. destruct (is_ok err); [|exact H].
  destruct (negb (link_is_online _)); exact H.
Qed.

Lemma authority_handler_sequencing rt m rel state ob :
  sequencing (rn_session (handle_authority_request hash rt m rel state ob).1) = sequencing (rn_session rt).
Proof.
  unfold handle_authority_request. destruct (negb (msg_policy_admitted m)); [done|]. destruct (_ =? 0); [done|].
  match goal with |- context [argus_mqtt_authority_admit ?a ?b ?c ?d ?e ?f ?g ?h ?i] =>
    pose proof (admit_sequencing a b c d e f g h i) as H; destruct (argus_mqtt_authority_admit a b c d e f g h i) as [[out core] cache] end.
  destruct (silent_stage _); [exact H|]. cbn [fst]. rewrite set_reason_session. exact H.
Qed.

Lemma tick_handler_sequencing rt running ob :
  sequencing (rn_session (argus_mqtt_runtime_tick rt running ob).1) = sequencing (rn_session rt).
Proof.
  unfold argus_mqtt_runtime_tick. destruct (_ || _ : bool); [done|].
  pose proof (tick_sequencing (rn_session rt) (ob_now ob)) as H.
  destruct (argus_mqtt_session_tick (rn_session rt) (ob_now ob)) as [[] core]; exact H.
Qed.

Lemma disconnect_handler_sequencing rt conn ob :
  sequencing (rn_session (broker_client_disconnected rt conn ob).1) = sequencing (rn_session rt).
Proof.
  unfold broker_client_disconnected. pose proof (disconnect_sequencing (rn_session rt) conn) as H.
  destruct (argus_mqtt_session_disconnect (rn_session rt) conn) as [[] core]; [|exact H].
  destruct (owned core); exact H.
Qed.

(** The handler of a message, by its topic: a command, or a step that dispatches nothing
    and keeps the sequencing. *)
Lemma handle_message_cases take rt m ob others meanwhile sys :
  let action := argus_mqtt_topics_classify topics (msg_topic m) in
  let o := handle_message err_code ops hash topics max_output_milli_rpm take rt m ob others meanwhile sys in
  o = handle_command err_code ops max_output_milli_rpm take rt m action others meanwhile sys \/
  (co_dispatched o = None /\ co_system o = sys
     /\ sequencing (rn_session (co_runtime o)) = sequencing (rn_session rt)).
Proof.
  intros action o. subst o. unfold handle_message. fold action.
  destruct action; try (by left); right; cbv beta iota zeta.
  - pose proof (heartbeat_handler_sequencing rt m ob) as H. by destruct (handle_heartbeat rt m ob).
  - pose proof (authority_handler_sequencing rt m false (machine_state sys.2.1) ob) as H.
    by destruct (handle_authority_request hash rt m false _ ob).
  - pose proof (authority_handler_sequencing rt m true (machine_state sys.2.1) ob) as H.
    by destruct (handle_authority_request hash rt m true _ ob).
Qed.

(** A step dispatches nothing and keeps the sequencing, or dispatches a newer sequence
    number and commits it. *)
Lemma step_sequence s ev :
  (dispatched_sequence s ev = None /\ rt_sequencing (runtime_step s ev) = rt_sequencing s) \/
  (exists n, dispatched_sequence s ev = Some n
     /\ ((rt_sequencing s).1.2.1 = true -> argus_mqtt_session_is_newer n (rt_sequencing s).1.2.2 = true)
     /\ (rt_sequencing (runtime_step s ev)).1.2 = (true, n)).
Proof.
  destruct s as [rt sys]. destruct ev as [take m ob others meanwhile|running ob|conn ob|now|f];
    cbn [dispatched_sequence runtime_step fst snd].
  - pose proof (handle_message_cases take rt m ob others meanwhile sys) as Hm. cbv zeta in Hm.
    destruct Hm as [E|(E & _ & Hs)].
    + rewrite E. clear E.
      destruct (handle_command_cases err_code ops max_output_milli_rpm take rt m
        (argus_mqtt_topics_classify topics (msg_topic m)) others meanwhile sys)
        as [(H1 & H2 & _)|(command & e & result & [Hd Ha Hn _ Hdisp _ _ Hrt])].
      * left. rewrite H1. split; [done|]. unfold rt_sequencing. cbn [fst]. by rewrite H2.
      * right. exists (cd_sequence command). rewrite Hdisp, Hd. split; [done|]. split; [exact Hn|].
        unfold rt_sequencing. cbn [fst]. by rewrite Hrt.
    + left. rewrite E. split; [done|exact Hs].
  - left. split; [done|apply tick_handler_sequencing].
  - left. split; [done|apply disconnect_handler_sequencing].
  - left. split; [done|]. unfold rt_sequencing, argus_mqtt_runtime_mark_authority_ready. cbn [fst].
    by destruct (owned (rn_session rt) && _).
  - left. done.
Qed.

(** The dispatched sequence numbers form a chain of newer ones. *)
Fixpoint chain (last : Z) (ds : list Z) : Prop :=
  match ds with [] => True | d :: ds => argus_mqtt_session_is_newer d last = true /\ chain d ds end.

Lemma dispatched_chain evs : forall s last, (rt_sequencing s).1.2 = (true, last) -> chain last (dispatched s evs).
Proof.
  induction evs as [|ev evs IH]; intros s last Hs; [done|]. cbn [dispatched].
  destruct (step_sequence s ev) as [[E H]|(n & E & Hn & H)]; rewrite E.
  - apply IH. by rewrite H.
  - rewrite Hs in Hn. split; [by apply Hn|]. by apply IH.
Qed.

Lemma advance_nonneg ds : forall last, 0 <= advance last ds.
Proof.
  induction ds as [|d ds IH]; intros last; cbn [advance]; [lia|].
  specialize (IH d). pose proof (u32_range (d - last)) as [? _]. lia.
Qed.

(** Later numbers differ from an earlier one modulo 2^32. *)
Lemma chain_fresh ds : forall last x k, chain last ds -> 0 <= k -> u32 (last - x) = u32 k ->
  k + advance last ds < 4294967296 -> x ∉ ds.
Proof.
  induction ds as [|d ds IH]; intros last x k Hc Hk Hx Hlt; [apply not_elem_of_nil|].
  cbn [chain advance] in Hc, Hlt. destruct Hc as [Hn Hc].
  pose proof (advance_nonneg ds d). pose proof (u32_range (d - last)) as Hr. unfold is_u32 in Hr.
  assert (Hpos : 0 < u32 (d - last)).
  { unfold argus_mqtt_session_is_newer in Hn. apply andb_true_iff in Hn as [Hn _].
    apply negb_true_iff, Z.eqb_neq in Hn. lia. }
  assert (Hdx : u32 (d - x) = u32 (k + u32 (d - last))).
  { unfold u32 in *. rewrite Z.add_mod_idemp_r by lia. rewrite <- (Z.add_mod_idemp_l k) by lia. rewrite <- Hx.
    rewrite Z.add_mod_idemp_l by lia. f_equal. lia. }
  apply not_elem_of_cons. split.
  - intros ->. rewrite Z.sub_diag in Hdx. change (u32 0) with 0 in Hdx.
    rewrite u32_small in Hdx by (unfold is_u32; lia). lia.
  - apply (IH d x (k + u32 (d - last))); [done|lia|done|lia].
Qed.

Lemma chain_distinct ds : forall last, chain last ds -> advance last ds < 4294967296 -> NoDup ds.
Proof.
  induction ds as [|d ds IH]; intros last Hc Hlt; [constructor|].
  cbn [chain advance] in Hc, Hlt. destruct Hc as [_ Hc]. pose proof (u32_range (d - last)) as [? _].
  constructor; [|apply (IH d); [done|lia]].
  apply (chain_fresh ds d d 0); [done|lia|by rewrite Z.sub_diag|lia].
Qed.

(** C11: exactly-once execution: in one broker life time, however messages, redeliveries,
    heartbeats, ownership changes, expiries, disconnections and machine activity
    interleave, no command sequence number is dispatched to the machine twice, as long
    as the dispatched numbers advance by less than 2^32 in all. *)
Theorem command_at_most_once evs s n ds :
  dispatched s evs = n :: ds -> advance n ds < 4294967296 -> NoDup (dispatched s evs).
Proof.
  intros Hd Hlt. rewrite Hd.
  assert (Hc : chain n ds).
  { clear Hlt. revert s Hd. induction evs as [|ev evs IH]; intros s Hd; [done|]. cbn [dispatched] in Hd.
    destruct (step_sequence s ev) as [[E _]|(n' & E & _ & H)]; rewrite E in Hd; [by apply (IH _ Hd)|].
    injection Hd as -> <-. by apply dispatched_chain. }
  constructor; [|by apply (chain_distinct ds n)].
  apply (chain_fresh ds n n 0); [done|lia|by rewrite Z.sub_diag|lia].
Qed.

(** ** Redelivery of a command *)

Lemma run_sequencing evs : forall s, dispatched s evs = [] -> rt_sequencing (runtime_run s evs) = rt_sequencing s.
Proof.
  induction evs as [|ev evs IH]; intros s Hd; [done|]. cbn [dispatched] in Hd.
  destruct (step_sequence s ev) as [[E H]|(n & E & _ & _)]; rewrite E in Hd; [|done].
  change (runtime_run s (ev :: evs)) with (runtime_run (runtime_step s ev) evs). rewrite IH by done. exact H.
Qed.

Lemma decoded_command_bounds payload action max command :
  argus_mqtt_decode_command (Some payload) action max = DecodeOk command ->
  (length (cd_command_id command) <= 36)%nat /\ (length payload <= 384)%nat.
Proof.
  unfold argus_mqtt_decode_command. destruct (_ || _); [done|]. intros Hd. split.
  - apply (decode_object_inv _ (fun _ c => (length (cd_command_id c) <= 36)%nat)) in Hd as (_ & _ & Hb);
      [exact Hb| |cbn; lia].
    intros key l a bit a' l' e fields. unfold command_field. repeat case_match; intros [= <- Hf _] L.
    + apply string_field_valid in Hf as (x & _ & ->). exact L.
    + apply u32_field_valid in Hf as (x & _ & _ & ->). exact L.
    + apply string_field_valid in Hf as (x & Hv & ->). unfold valid_command_id in Hv.
      rewrite !andb_true_iff in Hv. destruct Hv as ((_ & Hv%Nat.leb_le) & _). exact Hv.
    + apply u32_field_valid in Hf as (x & _ & _ & ->). exact L.
    + destruct (parse_true l); cbn in Hf; simplify_eq. exact L.
    + apply u32_field_valid in Hf as (x & _ & _ & ->). exact L.
  - unfold decode_object in Hd. destruct (validate_payload payload) eqn:Hv; [done|].
    unfold validate_payload in Hv. destruct (length payload =? 0)%nat; [done|].
    destruct (Nat.leb_spec 385 (length payload)); [done|]. lia.
Qed.

(** The state a command leaves behind recognises its redelivery. *)
Lemma redelivered_duplicate take m action others meanwhile rt sys o command e result core :
  command_effect err_code ops max_output_milli_rpm take rt m action others meanwhile sys o command e result ->
  sequencing core = sequencing (rn_session (co_runtime o)) ->
  argus_mqtt_session_check_sequence core command (msg_payload m) = ARGUS_MQTT_SEQUENCE_DUPLICATE
  /\ sc_cached_result core = result.
Proof.
  intros [Hd _ _ _ _ Hres _ Hrt] Hs. destruct (decoded_command_bounds _ _ _ _ Hd) as [B1 B2].
  rewrite Hrt in Hs. unfold ARGUS_MQTT_BROKER_PAYLOAD_CAP in Hres.
  assert (Hlast : (sc_has_sequence core, sc_last_sequence core) = (true, cd_sequence command))
    by exact (f_equal (fun x => x.1.2) Hs).
  assert (Hcache : (sc_cached_action core, sc_cached_command_id core, sc_cached_payload core, sc_cached_result core)
    = (cd_action command, cd_command_id command, msg_payload m, result)).
  { refine (eq_trans (f_equal (fun x => x.2) Hs) _).
    change ((cd_action command, strlcpy (cd_command_id command) 37, strlcpy (msg_payload m) 385, strlcpy result 385)
      = (cd_action command, cd_command_id command, msg_payload m, result)).
    by rewrite !strlcpy_fits by lia. }
  injection Hlast as E1 E2. injection Hcache as E3 E4 E5 E6. split; [|done].
  unfold argus_mqtt_session_check_sequence. rewrite E1, E2, E3, E4, E5, Z.eqb_refl. cbn [negb].
  by rewrite !bool_decide_eq_true_2 by done.
Qed.

Lemma admitted_ok rt m command : command_admitted rt m command ->
  argus_mqtt_command_admission_check (rn_session rt) (msg_identifier m) (msg_connection_id m) command
  = ARGUS_MQTT_COMMAND_ADMIT_OK.
Proof. intros []. by apply admission_check_ok. Qed.

(** An executed command is idempotent: while nothing newer is executed, its redelivery
    never reaches the machine again, and to the holder it is answered with the
    byte-identical result that was published the first time. *)
Theorem command_redelivery take m action others meanwhile rt sys e evs take' others' meanwhile' :
  let o := handle_command err_code ops max_output_milli_rpm take rt m action others meanwhile sys in
  co_dispatched o = Some e -> dispatched (co_runtime o, co_system o) evs = [] ->
  let s := runtime_run (co_runtime o, co_system o) evs in
  let o' := handle_command err_code ops max_output_milli_rpm take' s.1 m action others' meanwhile' s.2 in
  co_dispatched o' = None /\ co_runtime o' = s.1 /\ (co_system o').2 = s.2.2 /\
  (forall command, argus_mqtt_decode_command (Some (msg_payload m)) action max_output_milli_rpm = DecodeOk command ->
     command_admitted s.1 m command -> exists result, co_output o = [Publish command_result result false; OperationalSnapshot]
       /\ co_output o' = [Publish command_result result false]).
Proof.
  intros o Hdisp Hevs s o'.
  pose proof (handle_command_cases err_code ops max_output_milli_rpm take rt m action others meanwhile sys) as Hc.
  cbv zeta in Hc. fold o in Hc. destruct Hc as [(Hno & _)|(command & e' & result & Heff)]; [congruence|].
  pose proof (run_sequencing evs _ Hevs) as Hs. fold s in Hs.
  destruct (redelivered_duplicate _ _ _ _ _ _ _ _ _ _ _ (rn_session s.1) Heff Hs) as [Hdup Hcached].
  destruct Heff as [Hd Ha _ _ _ Hres Hout _].
  unfold o', handle_command, reject_decoded. rewrite Hd, (ca_policy _ _ _ Ha), (ca_qos _ _ _ Ha).
  change (negb true) with false. change (negb (1 =? 1)) with false. cbv iota. rewrite Hdup, Hcached.
  destruct (argus_mqtt_command_admission_check (rn_session s.1) (msg_identifier m) (msg_connection_id m) command) eqn:Hadm;
    repeat (split; [done|]).
  1: { intros c Hc' _. exists result. split; [exact Hout|]. cbn [co_output]. by rewrite strlcpy_fits by done. }
  all: intros c [= <-] Hca; rewrite (admitted_ok _ _ _ Hca) in Hadm; discriminate Hadm.
Qed.
End Runs.

(** ** Witnesses *)

Definition demo_topics : argus_mqtt_topics_t :=
  default (Topics [] (fun _ => [])) (argus_mqtt_topics_build (Some (str "plant")) (Some (str "pump1"))).2.

Definition demo_system : system (M := Z) :=
  (Some (AuthCore ARGUS_AUTHORITY_SUPERVISORY ARGUS_AUTH_OWNER_MQTT 3 ESP_OK), (argus_state_core_init, 0)).

Definition demo_runtime : runtime_state_t :=
  Runtime demo_core argus_mqtt_runtime_reset_duplicate_cache 1 false [] true.

Definition demo_panel : argus_machine_principal_t :=
  MachinePrincipal (str "panel") [] [] [] 2 0 0 ARGUS_MACHINE_CLIENT_HMI 0 0 0 0.

Definition demo_command (sequence : Z) : argus_mqtt_broker_message_t :=
  BrokerMessage 5 (tp_topic demo_topics command_stop)
    (command_json (Command demo_session sequence (str "c-1") 1 ARGUS_MQTT_ACTION_STOP 0 true))
    1 false true demo_panel.

Definition demo_observations : observations := Observations (Some 0) 2000 2000 (Some 0) 2000 2000.

Definition demo_delivery (sequence : Z) : runtime_event (M := Z) :=
  RtMessage true (demo_command sequence) demo_observations [] id.

Lemma command_at_most_once_witness :
  let evs := [demo_delivery 1; demo_delivery 1; demo_delivery 2; demo_delivery 1] in
  let ds := dispatched code_of counting_ops demo_hash demo_topics 1000 (demo_runtime, demo_system) evs in
  ds = [1; 2] /\ NoDup ds.
Proof.
  intros evs ds. assert (Hd : ds = [1; 2]) by (vm_compute; reflexivity). split; [exact Hd|].
  apply (command_at_most_once code_of counting_ops demo_hash demo_topics 1000 evs (demo_runtime, demo_system) 1 [2] Hd).
  vm_compute. reflexivity.
Defined.

Lemma command_redelivery_witness :
  let o := handle_command code_of counting_ops 1000 true demo_runtime (demo_command 1) ARGUS_MQTT_ACTION_STOP
             [] id demo_system in
  let evs := [RtTick true demo_observations] in
  let s := runtime_run code_of counting_ops demo_hash demo_topics 1000 (co_runtime o, co_system o) evs in
  let o' := handle_command code_of counting_ops 1000 true s.1 (demo_command 1) ARGUS_MQTT_ACTION_STOP [] id s.2 in
  is_Some (co_dispatched o) /\ co_dispatched o' = None.
Proof.
  intros o evs s o'. destruct (co_dispatched o) as [e|] eqn:He; [|by vm_compute in He].
  split; [by eexists|].
  apply (command_redelivery code_of counting_ops demo_hash demo_topics 1000 true (demo_command 1)
    ARGUS_MQTT_ACTION_STOP [] id demo_runtime demo_system e evs true [] id He).
  vm_compute. reflexivity.
Defined.
