(* ===== verification/MachineAuth.v ===== *)
(** * Machine authentication

    The authentication half of [src/main/argus_machine_service.c]: scopes, the failure
    lockout per source, the global budget of key derivations with its reserve for proven
    sources, the authentication transaction and revalidation.  The password derivation
    and the machine directory are arguments; each function that the code runs under
    [s_mutex] is one step on the explicit state. *)

From Stdlib Require Import Sorted.
From S2P Require Import Prelude Authorization SecurityRecords MqttWire MqttBroker.

Definition ARGUS_MACHINE_SECRET_LENGTH : nat := 43.
Definition ARGUS_MACHINE_AUTH_BUCKETS : nat := 8.
Definition ARGUS_MACHINE_AUTH_FAILURE_LIMIT : Z := 5.
Definition ARGUS_MACHINE_AUTH_WINDOW_US : Z := 60000000.
Definition ARGUS_MACHINE_AUTH_COOLDOWN_US : Z := 30000000.
Definition ARGUS_MACHINE_AUTH_KDF_ADMISSION_MAX : Z := 1.
Definition ARGUS_MACHINE_AUTH_KDF_GLOBAL_BURST : Z := 8.
Definition ARGUS_MACHINE_AUTH_KDF_GLOBAL_WINDOW_US : Z := 10000000.
Definition ARGUS_MACHINE_AUTH_PROVEN_SOURCES : nat := 2.
Definition ARGUS_MACHINE_AUTH_PROVEN_TTL_US : Z := 600000000.
Definition ARGUS_MACHINE_AUTH_KDF_UNPROVEN_BURST : Z := 5.

(** ** Scopes *)

(** A C string: [None] is NULL. *)
Definition bounded_text (value : option bytes) (capacity : nat) (empty_ok : bool) : bool :=
  match value with
  | None => false
  | Some v =>
      negb (capacity =? 0)%nat && (length v <? capacity)%nat && (empty_ok || negb (length v =? 0)%nat)
      && forallb isprint v
  end.

Fixpoint prefix_of (p l : bytes) : bool :=
  match p, l with
  | [], _ => true
  | x :: p, y :: l => (x =? y) && prefix_of p l
  | _ :: _, [] => false
  end.

Definition argus_machine_service_scope_contains (actor_scope target_scope : option bytes) : bool :=
  match actor_scope, target_scope with
  | Some a, Some t =>
      if bool_decide (a = str "*") then negb (length t =? 0)%nat
      else if bool_decide (a = t) then true
      else match last a with
           | Some c => (c =? 42) && prefix_of (take (length a - 1) a) t
           | None => false
           end
  | _, _ => false
  end.

Definition argus_machine_service_topic_scope_contains (semantic_scope topic : option bytes) : bool :=
  if negb (bounded_text semantic_scope 97 false) || negb (bounded_text topic 160 false) then false
  else
    let s := default [] semantic_scope in
    let t := default [] topic in
    if bool_decide (s = str "*") then true
    else prefix_of s t && match drop (length s) t with [] => true | c :: _ => c =? 47 end.

(** ** State *)

Record auth_bucket_t := Bucket {
  bu_peer_key : Z;
  bu_window_started_us : Z;
  bu_blocked_until_us : Z;
  bu_failures : Z;
  bu_in_use : bool
}.
#[export] Instance eta_bucket : Eta auth_bucket_t := fun b =>
  Bucket (bu_peer_key b) (bu_window_started_us b) (bu_blocked_until_us b) (bu_failures b) (bu_in_use b).

Definition zero_bucket : auth_bucket_t := Bucket 0 0 0 0 false.

Record proven_source_t := ProvenSource { pv_peer_key : Z; pv_last_success_us : Z; pv_in_use : bool }.

(** The budget of key derivations. *)
Record kdf_budget := KdfBudget {
  kb_window_us : Z;
  kb_spent : Z;
  kb_refusals : Z;
  kb_window_refusals : Z
}.

Record machine_service := MachineService {
  ms_buckets : list auth_bucket_t;
  ms_proven : list proven_source_t;
  ms_budget : kdf_budget;
  ms_throttle_refusals : Z;
  ms_kdf_admitted : Z
}.
#[export] Instance eta_machine_service : Eta machine_service := fun s =>
  MachineService (ms_buckets s) (ms_proven s) (ms_budget s) (ms_throttle_refusals s) (ms_kdf_admitted s).

(** ** The failure lockout *)

(** The scan of [bucket_for] from index [i] on: a bucket to use as it is, or the oldest
    one of a full table. *)
Fixpoint bucket_scan (peer_key : Z) (i oldest : nat) (oldest_started : Z) (l : list auth_bucket_t)
    : nat * bool :=
  match l with
  | [] => (oldest, true)
  | b :: l =>
      if bu_in_use b && (bu_peer_key b =? peer_key) then (i, false)
      else if negb (bu_in_use b) then (i, false)
      else if bu_window_started_us b <? oldest_started
      then bucket_scan peer_key (S i) i (bu_window_started_us b) l
      else bucket_scan peer_key (S i) oldest oldest_started l
  end.

Definition bucket_for (buckets : list auth_bucket_t) (peer_key now_us : Z) : nat * list auth_bucket_t :=
  let '(i, evict) :=
    bucket_scan peer_key 0 0 (bu_window_started_us (default zero_bucket (head buckets))) buckets in
  (i, if evict then <[i := Bucket 0 now_us 0 0 false]> buckets else buckets).

Definition seconds_up (us : Z) : Z := u32 (u64 (us + 999999) / 1000000).

(** [inl] is the retry delay of a refusal. *)
Definition throttle_admit (buckets : list auth_bucket_t) (peer_key now_us : Z)
    : (Z + unit) * list auth_bucket_t :=
  let '(i, buckets) := bucket_for buckets peer_key now_us in
  let b := default zero_bucket (buckets !! i) in
  let b := if negb (bu_in_use b)
           then b <| bu_in_use := true |> <| bu_peer_key := peer_key |> <| bu_window_started_us := now_us |>
           else b in
  if now_us <? bu_blocked_until_us b then
    (inl (seconds_up (u64 (bu_blocked_until_us b - now_us))), <[i := b]> buckets)
  else
    let b := if ARGUS_MACHINE_AUTH_WINDOW_US <? u64 (now_us - bu_window_started_us b)
             then b <| bu_window_started_us := now_us |> <| bu_failures := 0 |> else b in
    (inr (), <[i := b]> buckets).

Definition record_auth_result (buckets : list auth_bucket_t) (peer_key now_us : Z) (success : bool)
    : list auth_bucket_t :=
  let '(i, buckets) := bucket_for buckets peer_key now_us in
  let b := default zero_bucket (buckets !! i) in
  if success then <[i := zero_bucket]> buckets
  else
    let b := b <| bu_failures ::= fun f => u8 (f + 1) |> in
    <[i := if ARGUS_MACHINE_AUTH_FAILURE_LIMIT <=? bu_failures b
           then b <| bu_blocked_until_us := u64 (now_us + ARGUS_MACHINE_AUTH_COOLDOWN_US) |>
                  <| bu_failures := 0 |>
           else b]> buckets.

(** ** Proven sources *)

Definition proven_entry_live (e : proven_source_t) (now_us : Z) : bool :=
  pv_in_use e && (u64 (now_us - pv_last_success_us e) <? ARGUS_MACHINE_AUTH_PROVEN_TTL_US).

Definition source_is_proven_locked (proven : list proven_source_t) (peer_key now_us : Z) : bool :=
  existsb (fun e => (pv_peer_key e =? peer_key) && proven_entry_live e now_us) proven.

(** The entry a new success takes: the first that is not live, else the least recent. *)
Fixpoint proven_target (now_us : Z) (i target : nat) (target_success : Z) (l : list proven_source_t) : nat :=
  match l with
  | [] => target
  | e :: l =>
      if negb (proven_entry_live e now_us) then i
      else if pv_last_success_us e <? target_success then proven_target now_us (S i) i (pv_last_success_us e) l
      else proven_target now_us (S i) target target_success l
  end.

Definition mark_source_proven_locked (proven : list proven_source_t) (peer_key now_us : Z)
    : list proven_source_t :=
  let target :=
    match find_index (fun e => pv_in_use e && (pv_peer_key e =? peer_key)) proven with
    | Some i => i
    | None => proven_target now_us 0 0
                (pv_last_success_us (default (ProvenSource 0 0 false) (head proven))) proven
    end in
  <[target := ProvenSource peer_key now_us true]> proven.

(** ** The budget of key derivations *)

Definition kdf_global_admit (budget : kdf_budget) (proven : list proven_source_t) (peer_key now_us : Z)
    : (Z + unit) * kdf_budget :=
  let budget :=
    if (kb_window_us budget =? 0)
       || (ARGUS_MACHINE_AUTH_KDF_GLOBAL_WINDOW_US <=? u64 (now_us - kb_window_us budget))
    then KdfBudget now_us 0 (kb_refusals budget) 0 else budget in
  let allowance := if source_is_proven_locked proven peer_key now_us
                   then ARGUS_MACHINE_AUTH_KDF_GLOBAL_BURST else ARGUS_MACHINE_AUTH_KDF_UNPROVEN_BURST in
  if allowance <=? kb_spent budget then
    let remaining := u64 (ARGUS_MACHINE_AUTH_KDF_GLOBAL_WINDOW_US - u64 (now_us - kb_window_us budget)) in
    (inl (seconds_up remaining),
     KdfBudget (kb_window_us budget) (kb_spent budget) (u32 (kb_refusals budget + 1))
       (u32 (kb_window_refusals budget + 1)))
  else
    (inr (), KdfBudget (kb_window_us budget) (u32 (kb_spent budget + 1)) (kb_refusals budget)
               (kb_window_refusals budget)).

(** ** Authentication *)

Inductive argus_machine_auth_result_t :=
| ARGUS_MACHINE_AUTH_SUCCESS
| ARGUS_MACHINE_AUTH_INVALID_CREDENTIALS
| ARGUS_MACHINE_AUTH_THROTTLED
| ARGUS_MACHINE_AUTH_BUSY
| ARGUS_MACHINE_AUTH_DIRECTORY_UNAVAILABLE
| ARGUS_MACHINE_AUTH_TRANSPORT_REJECTED
| ARGUS_MACHINE_AUTH_INTERFACE_REJECTED
| ARGUS_MACHINE_AUTH_CLIENT_ID_REJECTED
| ARGUS_MACHINE_AUTH_INVALID_REQUEST.

#[export] Instance machine_auth_result_eq_dec : EqDecision argus_machine_auth_result_t.
Proof. solve_decision. Defined.

Definition principal_from_record (r : argus_security_machine_record_t) (directory_generation : Z)
    : argus_machine_principal_t :=
  MachinePrincipal (strlcpy (mr_identifier r) 37) (strlcpy (mr_scope r) 37) (strlcpy (mr_topic_scope r) 97)
    (strlcpy (mr_api_scope r) 65) (mr_permissions r) (mr_allowed_transports r) (mr_allowed_interfaces r)
    (mr_client_type r) (mr_credential_version r) (mr_principal_revision r) (mr_record_security_epoch r)
    directory_generation.

(** The checks before any state is touched; [None] lets the request through. *)
Definition authenticate_precheck (client_id username password : bytes) (receiving_interface : Z)
    : option argus_machine_auth_result_t :=
  if (length username =? 0)%nat || (36 <? length username)%nat
     || negb (length password =? ARGUS_MACHINE_SECRET_LENGTH)%nat
     || (negb (receiving_interface =? ARGUS_MACHINE_INTERFACE_SOFTAP)
         && negb (receiving_interface =? ARGUS_MACHINE_INTERFACE_STA))
  then Some ARGUS_MACHINE_AUTH_INVALID_REQUEST
  else if has_nul username || has_nul password || negb (bool_decide (client_id = username))
  then Some ARGUS_MACHINE_AUTH_CLIENT_ID_REJECTED
  else None.

(** The first critical section: [inl] is a refusal with its retry delay. *)
Definition authenticate_admit (s : machine_service) (peer_key now_us : Z)
    : (argus_machine_auth_result_t * Z + unit) * machine_service :=
  let throttled retry s :=
    (inl (ARGUS_MACHINE_AUTH_THROTTLED, retry), s <| ms_throttle_refusals ::= fun n => u32 (n + 1) |>) in
  let '(lockout, buckets) := throttle_admit (ms_buckets s) peer_key now_us in
  let s := s <| ms_buckets := buckets |> in
  match lockout with
  | inl retry => throttled retry s
  | inr _ =>
      let '(rate, budget) := kdf_global_admit (ms_budget s) (ms_proven s) peer_key now_us in
      let s := s <| ms_budget := budget |> in
      match rate with
      | inl retry => throttled retry s
      | inr _ =>
          if ARGUS_MACHINE_AUTH_KDF_ADMISSION_MAX <=? ms_kdf_admitted s
          then (inl (ARGUS_MACHINE_AUTH_BUSY, 0), s)
          else (inr (), s <| ms_kdf_admitted ::= fun n => n + 1 |>)
      end
  end.

(** The decision between the critical sections.  [found] is the directory's answer,
    [verify] the derivation's: its error and whether the password matches. *)
Definition authenticate_decide (find : esp_err_t) (record : argus_security_machine_record_t)
    (generation : Z) (verify : esp_err_t) (password_matches : bool) (receiving_interface : Z)
    : argus_machine_auth_result_t * argus_machine_principal_t :=
  if negb (is_ok verify) then
    (if bool_decide (verify = ESP_ERR_TIMEOUT) then ARGUS_MACHINE_AUTH_BUSY
     else ARGUS_MACHINE_AUTH_DIRECTORY_UNAVAILABLE, no_principal)
  else if negb (is_ok find) && negb (bool_decide (find = ESP_ERR_NOT_FOUND)) then
    (ARGUS_MACHINE_AUTH_DIRECTORY_UNAVAILABLE, no_principal)
  else if negb (is_ok find) || negb password_matches || (mr_enabled record =? 0)
          || negb (mr_revoked record =? 0) then (ARGUS_MACHINE_AUTH_INVALID_CREDENTIALS, no_principal)
  else if Z.land (mr_allowed_transports record) ARGUS_MACHINE_TRANSPORT_MQTT =? 0 then
    (ARGUS_MACHINE_AUTH_TRANSPORT_REJECTED, no_principal)
  else if Z.land (mr_allowed_interfaces record) receiving_interface =? 0 then
    (ARGUS_MACHINE_AUTH_INTERFACE_REJECTED, no_principal)
  else (ARGUS_MACHINE_AUTH_SUCCESS, principal_from_record record generation).

(** The last critical section. *)
Definition authenticate_finish (s : machine_service) (peer_key now_us : Z)
    (result : argus_machine_auth_result_t) : machine_service :=
  let succeeded := bool_decide (result = ARGUS_MACHINE_AUTH_SUCCESS) in
  s <| ms_kdf_admitted ::= fun n => n - 1 |>
    <| ms_buckets := record_auth_result (ms_buckets s) peer_key now_us succeeded |>
    <| ms_proven ::= fun p => if succeeded then mark_source_proven_locked p peer_key now_us else p |>.

(** The whole transaction; [verify] is the derivation with the record's verifier, or with
    the synthetic one of an unknown machine, and [meanwhile] what other tasks do while
    it runs. *)
Definition argus_machine_service_authenticate (synthetic : argus_password_verifier_t)
    (directory_find : bytes -> esp_err_t * argus_security_machine_record_t * Z)
    (verify : bytes -> argus_password_verifier_t -> esp_err_t * bool) (meanwhile : machine_service -> machine_service)
    (s : machine_service) (peer_key : Z) (client_id username password : bytes) (receiving_interface now_us : Z)
    : argus_machine_auth_result_t * argus_machine_principal_t * machine_service :=
  match authenticate_precheck client_id username password receiving_interface with
  | Some r => (r, no_principal, s)
  | None =>
      let '(admission, s) := authenticate_admit s peer_key now_us in
      match admission with
      | inl (r, _) => (r, no_principal, s)
      | inr _ =>
          let '(find, record, generation) := directory_find username in
          let '(err, password_matches) := verify password (if is_ok find then mr_verifier record else synthetic) in
          let '(r, principal) :=
            authenticate_decide find record generation err password_matches receiving_interface in
          (r, principal, authenticate_finish (meanwhile s) peer_key now_us r)
      end
  end.

Definition argus_machine_service_revalidate
    (directory_find : bytes -> esp_err_t * argus_security_machine_record_t * Z)
    (principal : argus_machine_principal_t) (receiving_interface : Z) : esp_err_t :=
  match mp_identifier principal with
  | [] => ESP_ERR_INVALID_ARG
  | _ =>
      let '(err, current, _) := directory_find (mp_identifier principal) in
      if is_ok err && negb (mr_enabled current =? 0) && (mr_revoked current =? 0)
         && (mr_credential_version current =? mp_credential_version principal)
         && (mr_principal_revision current =? mp_principal_revision principal)
         && (mr_record_security_epoch current =? mp_record_security_epoch principal)
         && negb (Z.land (mr_allowed_transports current) ARGUS_MACHINE_TRANSPORT_MQTT =? 0)
         && negb (Z.land (mr_allowed_interfaces current) receiving_interface =? 0)
         && (mr_permissions current =? mp_permissions principal)
         && bool_decide (mr_scope current = mp_scope principal)
         && bool_decide (mr_topic_scope current = mp_topic_scope principal)
      then ESP_OK else ESP_ERR_INVALID_STATE
  end.

(** [throttle_active] and the number of blocked sources of [get_throttle_status]. *)
Definition throttle_condition (s : machine_service) (now_us : Z) : bool * Z :=
  let b := ms_budget s in
  let elapsed := if kb_window_us b =? 0 then ARGUS_MACHINE_AUTH_KDF_GLOBAL_WINDOW_US
                 else u64 (now_us - kb_window_us b) in
  let window_open := elapsed <? ARGUS_MACHINE_AUTH_KDF_GLOBAL_WINDOW_US in
  let blocked := Z.of_nat (length (List.filter
    (fun b => bu_in_use b && (now_us <? bu_blocked_until_us b)) (ms_buckets s))) in
  ((window_open && (0 <? kb_window_refusals b)) || (0 <? blocked), blocked).

(** ** The lockout and how it is lost *)

(** The scan stops at the first bucket that is free or the peer's own. *)
Lemma bucket_scan_stop peer l : forall k i oldest started,
  (forall j b, (j < k)%nat -> l !! j = Some b -> bu_in_use b = true /\ bu_peer_key b <> peer) ->
  (exists b, l !! k = Some b /\ (bu_in_use b = false \/ bu_peer_key b = peer)) ->
  bucket_scan peer i oldest started l = ((i + k)%nat, false).
Proof.
  induction l as [|b l IH]; intros k i oldest started Hbefore (bk & Hk & Hstop); [done|].
  cbn [bucket_scan]. destruct k as [|k].
  - cbn in Hk. simplify_eq. rewrite Nat.add_0_r. destruct Hstop as [Hf|Hp].
    + by rewrite Hf.
    + rewrite Hp, Z.eqb_refl, andb_true_r. by destruct (bu_in_use bk).
  - destruct (Hbefore 0%nat b ltac:(lia) eq_refl) as [Hu Hp].
    rewrite Hu, (proj2 (Z.eqb_neq _ _) Hp). cbn [andb negb].
    replace (i + S k)%nat with (S i + k)%nat by lia.
    destruct (bu_window_started_us b <? started); apply IH; eauto;
      intros j b' Hj Hb'; apply (Hbefore (S j) b'); [lia|done|lia|done].
Qed.

Lemma bucket_for_stop peer now l k b :
  (forall j b, (j < k)%nat -> l !! j = Some b -> bu_in_use b = true /\ bu_peer_key b <> peer) ->
  l !! k = Some b -> bu_in_use b = false \/ bu_peer_key b = peer ->
  bucket_for l peer now = (k, l).
Proof.
  intros Hb Hk Hs. unfold bucket_for.
  by rewrite (bucket_scan_stop peer l k 0 0 _ Hb (ex_intro _ b (conj Hk Hs))).
Qed.

Lemma throttle_admit_at buckets peer now k b :
  bucket_for buckets peer now = (k, buckets) -> buckets !! k = Some b ->
  (throttle_admit buckets peer now).1 =
    if now <? bu_blocked_until_us b then inl (seconds_up (u64 (bu_blocked_until_us b - now))) else inr ().
Proof.
  intros Hf Hk. unfold throttle_admit. rewrite Hf, Hk. cbv zeta.
  change (default zero_bucket (Some b)) with b.
  set (b' := if negb (bu_in_use b) then _ else b).
  assert (E : bu_blocked_until_us b' = bu_blocked_until_us b) by (unfold b'; by destruct (negb (bu_in_use b))).
  rewrite E. by destruct (now <? bu_blocked_until_us b).
Qed.

(** The failure lockout of one source is lifted by the success of another: a source
    that is blocked is refused while every earlier bucket is taken; but when the source
    of an earlier bucket authenticates successfully, its bucket is freed, the scan stops
    at it, and the blocked source is admitted at once with a fresh bucket. *)
Theorem lockout_lost_on_foreign_success buckets i j ba bb now now' :
  (i < j)%nat -> buckets !! i = Some ba -> buckets !! j = Some bb ->
  bu_peer_key ba <> bu_peer_key bb ->
  (forall k b, (k < j)%nat -> buckets !! k = Some b -> bu_in_use b = true /\ bu_peer_key b <> bu_peer_key bb) ->
  (forall k b, (k < i)%nat -> buckets !! k = Some b -> bu_peer_key b <> bu_peer_key ba) ->
  now' < bu_blocked_until_us bb -> 0 <= now' ->
  (exists retry, (throttle_admit buckets (bu_peer_key bb) now').1 = inl retry) /\
  (throttle_admit (record_auth_result buckets (bu_peer_key ba) now true) (bu_peer_key bb) now').1 = inr ().
Proof.
  intros Hij Ha Hb Hne Hbusy Hfirst Hblk Hpos. split.
  - rewrite (throttle_admit_at buckets _ _ j bb); [|apply (bucket_for_stop _ _ _ _ bb); auto|done].
    rewrite (proj2 (Z.ltb_lt _ _) Hblk). eauto.
  - assert (Hrec : record_auth_result buckets (bu_peer_key ba) now true = <[i := zero_bucket]> buckets).
    { unfold record_auth_result. rewrite (bucket_for_stop _ _ _ i ba); [done| |done|by right].
      intros k b Hk Hkb. split; [apply (Hbusy k b); [lia|done]|by apply (Hfirst k b)]. }
    rewrite Hrec. assert (Hlt : (i < length buckets)%nat) by eauto using lookup_lt_Some.
    rewrite (throttle_admit_at _ _ _ i zero_bucket).
    + by rewrite (proj2 (Z.ltb_ge now' (bu_blocked_until_us zero_bucket)) Hpos).
    + apply (bucket_for_stop _ _ _ _ zero_bucket); [|by apply list_lookup_insert_eq|by left].
      intros k b Hk Hkb. rewrite list_lookup_insert_ne in Hkb by lia. apply (Hbusy k b); [lia|done].
    + by apply list_lookup_insert_eq.
Qed.

Lemma lockout_lost_on_foreign_success_witness :
  let buckets := [Bucket 1 1000000 0 0 true; Bucket 2 1000000 31000000 0 true] in
  (throttle_admit buckets 2 2000000).1 = inl 29 /\
  (throttle_admit (record_auth_result buckets 1 1500000 true) 2 2000000).1 = inr ().
Proof.
  intros buckets. split; [by vm_compute|].
  apply (lockout_lost_on_foreign_success buckets 0 1 (Bucket 1 1000000 0 0 true)
    (Bucket 2 1000000 31000000 0 true) 1500000 2000000); [lia|done|done|done| | |cbn; lia|lia].
  - intros k b Hk Hb. destruct k as [|k]; [|lia]. injection Hb as <-. done.
  - intros k b Hk. lia.
Defined.

(** ** The budget *)

(** One step of the budget's history: a derivation asked for, or a source proven. *)
Inductive budget_event :=
| EvDerive (peer_key now_us : Z)
| EvProven (peer_key now_us : Z).

Definition event_time (ev : budget_event) : Z := match ev with EvDerive _ t | EvProven _ t => t end.

Definition budget_step (s : kdf_budget * list proven_source_t) (ev : budget_event)
    : kdf_budget * list proven_source_t :=
  match ev with
  | EvDerive peer now => ((kdf_global_admit s.1 s.2 peer now).2, s.2)
  | EvProven peer now => (s.1, mark_source_proven_locked s.2 peer now)
  end.

(** The derivations admitted in a run. *)
Fixpoint admitted (s : kdf_budget * list proven_source_t) (evs : list budget_event) : Z :=
  match evs with
  | [] => 0
  | ev :: evs =>
      match ev with
      | EvDerive peer now => match (kdf_global_admit s.1 s.2 peer now).1 with inr _ => 1 | inl _ => 0 end
      | _ => 0
      end + admitted (budget_step s ev) evs
  end.

Definition budget_wf (b : kdf_budget) : Prop := 0 <= kb_spent b <= ARGUS_MACHINE_AUTH_KDF_GLOBAL_BURST.

(** What one request does to the budget: a fresh window or the current one, and one
    derivation spent if it is admitted. *)
Lemma kdf_admit_outcome b proven peer now : budget_wf b ->
  let fresh := (kb_window_us b =? 0)
               || (ARGUS_MACHINE_AUTH_KDF_GLOBAL_WINDOW_US <=? u64 (now - kb_window_us b)) in
  let spent := if fresh then 0 else kb_spent b in
  let allowance := if source_is_proven_locked proven peer now
                   then ARGUS_MACHINE_AUTH_KDF_GLOBAL_BURST else ARGUS_MACHINE_AUTH_KDF_UNPROVEN_BURST in
  kb_window_us (kdf_global_admit b proven peer now).2 = (if fresh then now else kb_window_us b) /\
  match (kdf_global_admit b proven peer now).1 with
  | inr _ => spent < allowance /\ kb_spent (kdf_global_admit b proven peer now).2 = spent + 1
  | inl _ => allowance <= spent /\ kb_spent (kdf_global_admit b proven peer now).2 = spent
  end.
Proof.
  intros Hwf fresh spent allowance. unfold kdf_global_admit. fold fresh.
  assert (Hs : 0 <= spent <= ARGUS_MACHINE_AUTH_KDF_GLOBAL_BURST).
  { unfold spent, budget_wf, ARGUS_MACHINE_AUTH_KDF_GLOBAL_BURST in *. destruct fresh; lia. }
  set (b' := if fresh then _ else b).
  assert (E1 : kb_window_us b' = if fresh then now else kb_window_us b) by (unfold b'; by destruct fresh).
  assert (E2 : kb_spent b' = spent) by (unfold b', spent; by destruct fresh).
  clearbody b'. fold allowance. rewrite E2.
  destruct (Z.leb_spec allowance spent); cbn [fst snd kb_window_us kb_spent]; [done|].
  split; [done|]. split; [done|]. rewrite u32_small; [done|].
  unfold is_u32, ARGUS_MACHINE_AUTH_KDF_GLOBAL_BURST in *. lia.
Qed.

Lemma allowance_bound proven peer now :
  (if source_is_proven_locked proven peer now
   then ARGUS_MACHINE_AUTH_KDF_GLOBAL_BURST else ARGUS_MACHINE_AUTH_KDF_UNPROVEN_BURST)
  <= ARGUS_MACHINE_AUTH_KDF_GLOBAL_BURST.
Proof. by destruct (source_is_proven_locked proven peer now). Qed.

Lemma kdf_admit_wf b proven peer now : budget_wf b -> budget_wf (kdf_global_admit b proven peer now).2.
Proof.
  intros Hwf. destruct (kdf_admit_outcome b proven peer now Hwf) as [_ H].
  pose proof (allowance_bound proven peer now). unfold budget_wf, ARGUS_MACHINE_AUTH_KDF_GLOBAL_BURST in *.
  destruct (kdf_global_admit b proven peer now).1; destruct H as [? ->]; destruct (_ || _); lia.
Qed.

(** Events of one window, [T] its end: what is left of the burst bounds them. *)
Lemma admitted_in_window evs : forall s, budget_wf s.1 -> 0 < kb_window_us s.1 ->
  Forall (fun ev => kb_window_us s.1 <= event_time ev < kb_window_us s.1 + ARGUS_MACHINE_AUTH_KDF_GLOBAL_WINDOW_US
                    /\ event_time ev < 18446744073709551616) evs ->
  admitted s evs <= ARGUS_MACHINE_AUTH_KDF_GLOBAL_BURST - kb_spent s.1.
Proof.
  induction evs as [|ev evs IH]; intros [b proven] Hwf Hw Hevs; cbn [admitted fst snd] in *.
  { unfold budget_wf in Hwf. lia. }
  apply Forall_cons in Hevs as [[Ht Hb] Hevs]. destruct ev as [peer now|peer now]; cbn [event_time] in Ht, Hb.
  - pose proof (kdf_admit_outcome b proven peer now Hwf) as [Hwin H].
    pose proof (allowance_bound proven peer now). pose proof (kdf_admit_wf b proven peer now Hwf).
    rewrite (proj2 (Z.eqb_neq (kb_window_us b) 0)), u64_small in Hwin, H
      by (unfold is_u64, ARGUS_MACHINE_AUTH_KDF_GLOBAL_WINDOW_US in *; lia).
    rewrite (proj2 (Z.leb_gt _ _)) in Hwin, H by lia. cbn [orb] in Hwin, H.
    assert (IH' := IH (budget_step (b, proven) (EvDerive peer now))).
    cbn [budget_step fst snd] in IH'. rewrite Hwin in IH'. specialize (IH' ltac:(done) Hw Hevs).
    cbn [budget_step fst snd].
    destruct (kdf_global_admit b proven peer now).1; destruct H as [? Hsp]; rewrite Hsp in IH'; lia.
  - specialize (IH (budget_step (b, proven) (EvProven peer now)) Hwf Hw Hevs). cbn [budget_step fst snd] in *. lia.
Qed.

(** The rate of password derivations is bounded whatever the sources: in any ten
    seconds, over any number of source addresses and any changes of the proven table, at
    most sixteen derivations (two bursts) are admitted. *)
Theorem kdf_rate_bounded evs b proven t :
  budget_wf b -> 0 <= kb_window_us b <= t -> 0 < t ->
  t + ARGUS_MACHINE_AUTH_KDF_GLOBAL_WINDOW_US <= 18446744073709551616 ->
  StronglySorted Z.le (event_time <$> evs) ->
  Forall (fun ev => t <= event_time ev < t + ARGUS_MACHINE_AUTH_KDF_GLOBAL_WINDOW_US) evs ->
  admitted (b, proven) evs <= 16.
Proof.
  intros Hwf Hw Ht Hmax Hsort Hevs.
  enough (H : admitted (b, proven) evs <= 16 - kb_spent b) by (unfold budget_wf in Hwf; lia).
  revert b proven Hwf Hw. induction evs as [|ev evs IH]; intros b proven Hwf Hw; cbn [admitted fst snd].
  { unfold budget_wf, ARGUS_MACHINE_AUTH_KDF_GLOBAL_BURST in Hwf. lia. }
  apply Forall_cons in Hevs as [Hev Hevs]. cbn [fmap list_fmap] in Hsort.
  apply StronglySorted_inv in Hsort as [Hsort Hle]. specialize (IH Hsort Hevs).
  destruct ev as [peer now|peer now]; cbn [event_time] in Hev, Hle; [|exact (IH b _ Hwf Hw)].
  pose proof (kdf_admit_outcome b proven peer now Hwf) as [Hwin H].
  pose proof (allowance_bound proven peer now) as Hal. pose proof (kdf_admit_wf b proven peer now Hwf) as Hwf'.
  cbn [budget_step fst snd].
  destruct ((kb_window_us b =? 0) || (ARGUS_MACHINE_AUTH_KDF_GLOBAL_WINDOW_US <=? u64 (now - kb_window_us b))).
  - assert (Hrest : admitted ((kdf_global_admit b proven peer now).2, proven) evs
      <= ARGUS_MACHINE_AUTH_KDF_GLOBAL_BURST - kb_spent (kdf_global_admit b proven peer now).2).
    { apply admitted_in_window; cbn [fst]; [done|lia|]. rewrite Hwin. rewrite Forall_fmap in Hle.
      pose proof (conj Hevs Hle) as Hboth. rewrite <- Forall_and in Hboth.
      apply (Forall_impl _ _ _ Hboth). unfold compose. intros ev [Hev' Hnow]. lia. }
    unfold budget_wf, ARGUS_MACHINE_AUTH_KDF_GLOBAL_BURST in *.
    destruct (kdf_global_admit b proven peer now).1; destruct H as [? Hsp]; rewrite Hsp in Hrest; lia.
  - specialize (IH (kdf_global_admit b proven peer now).2 proven Hwf' ltac:(rewrite Hwin; lia)).
    destruct (kdf_global_admit b proven peer now).1; destruct H as [? Hsp]; rewrite Hsp in IH; lia.
Qed.

Definition demo_burst : list budget_event := replicate 20 (EvDerive 7 5000000).

Lemma kdf_rate_bounded_witness :
  admitted (KdfBudget 0 0 0 0, []) demo_burst = 5 /\ admitted (KdfBudget 0 0 0 0, []) demo_burst <= 16.
Proof.
  split; [by vm_compute|].
  apply (kdf_rate_bounded demo_burst (KdfBudget 0 0 0 0) [] 5000000);
    [done|cbn; lia|lia|unfold ARGUS_MACHINE_AUTH_KDF_GLOBAL_WINDOW_US; lia| |].
  - unfold demo_burst. cbn [replicate fmap list_fmap event_time]. repeat constructor; lia.
  - unfold demo_burst, ARGUS_MACHINE_AUTH_KDF_GLOBAL_WINDOW_US. apply Forall_replicate. cbn [event_time]. lia.
Defined.

(** The admissions that went to sources proven at the time. *)
Fixpoint admitted_proven (s : kdf_budget * list proven_source_t) (evs : list budget_event) : Z :=
  match evs with
  | [] => 0
  | ev :: evs =>
      match ev with
      | EvDerive peer now =>
          match (kdf_global_admit s.1 s.2 peer now).1 with
          | inr _ => if source_is_proven_locked s.2 peer now then 1 else 0
          | inl _ => 0
          end
      | _ => 0
      end + admitted_proven (budget_step s ev) evs
  end.

Definition budget_run : kdf_budget * list proven_source_t -> list budget_event ->
  kdf_budget * list proven_source_t := foldl budget_step.

(** The part of the window's spending that is not the proven sources' stays within the
    unproven share. *)
Lemma unproven_share evs : forall s, budget_wf s.1 -> 0 < kb_window_us s.1 ->
  Forall (fun ev => kb_window_us s.1 <= event_time ev < kb_window_us s.1 + ARGUS_MACHINE_AUTH_KDF_GLOBAL_WINDOW_US
                    /\ event_time ev < 18446744073709551616) evs ->
  budget_wf (budget_run s evs).1 /\ kb_window_us (budget_run s evs).1 = kb_window_us s.1 /\
  kb_spent (budget_run s evs).1
    <= Z.max ARGUS_MACHINE_AUTH_KDF_UNPROVEN_BURST (kb_spent s.1) + admitted_proven s evs.
Proof.
  induction evs as [|ev evs IH]; intros [b proven] Hwf Hw Hevs; cbn [admitted_proven fst snd budget_run foldl] in *.
  { split; [done|]. split; [done|]. lia. }
  apply Forall_cons in Hevs as [[Ht Hb] Hevs]. destruct ev as [peer now|peer now]; cbn [event_time] in Ht, Hb.
  - pose proof (kdf_admit_outcome b proven peer now Hwf) as [Hwin H].
    pose proof (kdf_admit_wf b proven peer now Hwf) as Hwf'.
    rewrite (proj2 (Z.eqb_neq (kb_window_us b) 0)), u64_small in Hwin, H
      by (unfold is_u64, ARGUS_MACHINE_AUTH_KDF_GLOBAL_WINDOW_US in *; lia).
    rewrite (proj2 (Z.leb_gt _ _)) in Hwin, H by lia. cbn [orb] in Hwin, H.
    assert (IH' := IH (budget_step (b, proven) (EvDerive peer now))).
    cbn [budget_step fst snd] in IH'. rewrite Hwin in IH'. destruct (IH' Hwf' Hw Hevs) as (H1 & H2 & H3).
    cbn [budget_step fst snd]. split; [exact H1|]. split; [exact H2|].
    unfold ARGUS_MACHINE_AUTH_KDF_UNPROVEN_BURST, ARGUS_MACHINE_AUTH_KDF_GLOBAL_BURST in *.
    destruct (kdf_global_admit b proven peer now).1; destruct H as [? Hsp]; rewrite Hsp in H3;
      destruct (source_is_proven_locked proven peer now); lia.
  - destruct (IH (budget_step (b, proven) (EvProven peer now)) Hwf Hw Hevs) as (H1 & H2 & H3).
    cbn [budget_step fst snd] in *. split; [exact H1|]. split; [exact H2|]. lia.
Qed.

(** Unproven sources cannot exhaust the reserve: inside a window in which fewer than
    three derivations went to proven sources, a source that authenticated recently is
    admitted, however many attempts other sources made. *)
Theorem reserve_for_proven evs b proven peer now :
  budget_wf b -> 0 < kb_window_us b -> kb_spent b <= ARGUS_MACHINE_AUTH_KDF_UNPROVEN_BURST ->
  Forall (fun ev => kb_window_us b <= event_time ev < kb_window_us b + ARGUS_MACHINE_AUTH_KDF_GLOBAL_WINDOW_US
                    /\ event_time ev < 18446744073709551616) (evs ++ [EvDerive peer now]) ->
  admitted_proven (b, proven) evs < 3 ->
  let s := budget_run (b, proven) evs in
  source_is_proven_locked s.2 peer now = true ->
  (kdf_global_admit s.1 s.2 peer now).1 = inr ().
Proof.
  intros Hwf Hw Hs Hevs Hp s Hproven. apply Forall_app in Hevs as [Hevs Hlast].
  apply Forall_singleton in Hlast as [Ht Hb]. cbn [event_time] in Ht, Hb.
  destruct (unproven_share evs (b, proven) Hwf Hw Hevs) as (Hwf' & Hwin & Hsp). fold s in Hwf', Hwin, Hsp.
  cbn [fst] in Hwin, Hsp. pose proof (kdf_admit_outcome s.1 s.2 peer now Hwf') as [_ H].
  rewrite Hproven, Hwin, (proj2 (Z.eqb_neq (kb_window_us b) 0)), u64_small in H
    by (unfold is_u64, ARGUS_MACHINE_AUTH_KDF_GLOBAL_WINDOW_US in *; lia).
  rewrite (proj2 (Z.leb_gt _ _)) in H by lia. cbn [orb] in H.
  unfold ARGUS_MACHINE_AUTH_KDF_UNPROVEN_BURST, ARGUS_MACHINE_AUTH_KDF_GLOBAL_BURST in *.
  destruct (kdf_global_admit s.1 s.2 peer now).1 as [r|[]]; [lia|done].
Qed.

Lemma reserve_for_proven_witness :
  let proven := [ProvenSource 9 4000000 true; ProvenSource 0 0 false] in
  let s := budget_run (KdfBudget 5000000 0 0 0, proven) demo_burst in
  (kdf_global_admit s.1 s.2 7 6000000).1 = inl 9 /\ (kdf_global_admit s.1 s.2 9 6000000).1 = inr ().
Proof.
  intros proven s. split; [by vm_compute|].
  apply (reserve_for_proven demo_burst (KdfBudget 5000000 0 0 0) proven 9 6000000).
  - done.
  - cbn. lia.
  - done.
  - cbn [kb_window_us]. unfold demo_burst, ARGUS_MACHINE_AUTH_KDF_GLOBAL_WINDOW_US.
    apply Forall_app. split; [apply Forall_replicate|apply Forall_singleton]; cbn [event_time]; lia.
  - by vm_compute.
  - by vm_compute.
Defined.

(** The bucket the scan for a source stops at: the source's own, or a free one before it. *)
Definition stops_at (buckets : list auth_bucket_t) (peer : Z) (k : nat) (b : auth_bucket_t) : Prop :=
  buckets !! k = Some b /\ (bu_in_use b = false \/ bu_peer_key b = peer) /\
  (forall j c, (j < k)%nat -> buckets !! j = Some c -> bu_in_use c = true /\ bu_peer_key c <> peer).

(** Derivations of a window are left for a source: 8 for one that authenticated recently, 5
    for any other. *)
Definition derivation_left (budget : kdf_budget) (proven : list proven_source_t) (peer now : Z) : Prop :=
  kb_window_us budget <> 0 -> u64 (now - kb_window_us budget) < ARGUS_MACHINE_AUTH_KDF_GLOBAL_WINDOW_US ->
  kb_spent budget < ARGUS_MACHINE_AUTH_KDF_UNPROVEN_BURST \/
  (kb_spent budget < ARGUS_MACHINE_AUTH_KDF_GLOBAL_BURST /\
   exists e, e ∈ proven /\ pv_peer_key e = peer /\ pv_in_use e = true /\
     u64 (now - pv_last_success_us e) < ARGUS_MACHINE_AUTH_PROVEN_TTL_US).

Lemma throttle_open buckets peer now k b : (throttle_admit buckets peer now).1 = inr () -> stops_at buckets peer k b ->
  bu_blocked_until_us b <= now.
Proof.
  intros H (Hk & Hs & Hb). rewrite (throttle_admit_at buckets peer now k b) in H; [|by apply (bucket_for_stop _ _ _ _ b)|done].
  by destruct (Z.ltb_spec now (bu_blocked_until_us b)).
Qed.

Lemma budget_open budget proven peer now : (kdf_global_admit budget proven peer now).1 = inr () ->
  derivation_left budget proven peer now.
Proof.
  intros H Hw He. unfold kdf_global_admit in H. rewrite (proj2 (Z.eqb_neq _ _) Hw), (proj2 (Z.leb_gt _ _) He) in H. cbn [orb] in H.
  destruct (source_is_proven_locked proven peer now) eqn:Hp.
  - right. split; [by destruct (Z.leb_spec ARGUS_MACHINE_AUTH_KDF_GLOBAL_BURST (kb_spent budget))|].
    apply existsb_exists in Hp as (e & He1%list_elem_of_In & He2). unfold proven_entry_live in He2.
    rewrite !andb_true_iff, Z.eqb_eq, Z.ltb_lt in He2. exists e. tauto.
  - left. by destruct (Z.leb_spec ARGUS_MACHINE_AUTH_KDF_UNPROVEN_BURST (kb_spent budget)).
Qed.

Lemma precheck_passed client_id username password iface : authenticate_precheck client_id username password iface = None ->
  client_id = username /\ length password = ARGUS_MACHINE_SECRET_LENGTH /\ (0 < length username <= 36)%nat /\
  has_nul username = false /\ has_nul password = false /\
  (iface = ARGUS_MACHINE_INTERFACE_SOFTAP \/ iface = ARGUS_MACHINE_INTERFACE_STA).
Proof.
  unfold authenticate_precheck. destruct (Nat.eqb_spec (length username) 0); [done|].
  destruct (Nat.ltb_spec 36 (length username)); [done|]. destruct (Nat.eqb_spec (length password) ARGUS_MACHINE_SECRET_LENGTH); [|done].
  destruct (Z.eqb_spec iface ARGUS_MACHINE_INTERFACE_SOFTAP), (Z.eqb_spec iface ARGUS_MACHINE_INTERFACE_STA); cbn [negb orb andb];
    destruct (has_nul username), (has_nul password), (bool_decide_reflect (client_id = username)); try done; intros _; split_and!; auto; lia.
Qed.

(** The decision is a success only for a password that matches a record in force. *)
Lemma decide_success find record generation err matches iface principal :
  authenticate_decide find record generation err matches iface = (ARGUS_MACHINE_AUTH_SUCCESS, principal) ->
  find = ESP_OK /\ (err, matches) = (ESP_OK, true) /\ mr_enabled record <> 0 /\ mr_revoked record = 0 /\
  Z.land (mr_allowed_transports record) ARGUS_MACHINE_TRANSPORT_MQTT <> 0 /\ Z.land (mr_allowed_interfaces record) iface <> 0 /\
  principal = principal_from_record record generation.
Proof.
  unfold authenticate_decide. destruct (is_ok err) eqn:Herr; cbn [negb]; [|by destruct (bool_decide (err = ESP_ERR_TIMEOUT))].
  destruct (negb (is_ok find) && _); [done|].
  destruct (is_ok find) eqn:Hok; cbn [negb orb]; [|done]. apply is_ok_true in Hok, Herr. subst.
  destruct matches; cbn [negb orb]; [|done].
  destruct (Z.eqb_spec (mr_enabled record) 0); cbn [orb]; [done|].
  destruct (Z.eqb_spec (mr_revoked record) 0); cbn [negb]; [|done].
  destruct (Z.eqb_spec (Z.land (mr_allowed_transports record) ARGUS_MACHINE_TRANSPORT_MQTT) 0); [done|].
  destruct (Z.eqb_spec (Z.land (mr_allowed_interfaces record) iface) 0); [done|].
  by intros [= <-].
Qed.

(** C27: what a successful authentication of a machine proves.  The request is well formed,
    for one of the two interfaces, with the client identifier equal to the user name.  The
    failure record where the scan of the table stops for this source - its own, unless a
    free one comes first, which is how a lockout can be lost
    (lockout_lost_on_foreign_success) - was not blocked.  When the window of the derivation
    budget was open, fewer than 5 derivations had been spent in it, or fewer than 8 and
    the source is listed with a success of the recent past; and no other derivation was under
    way.  The directory holds, under the user name, an enabled record that is not revoked,
    the password verifies against that record's verifier, and it allows MQTT and the
    receiving interface; and the principal is that record's.  An authentication that does not
    succeed adds nothing to the list of proven sources. *)
Theorem authentication_sound (synthetic : argus_password_verifier_t) directory_find verify meanwhile s peer client_id username
    password iface now r principal s' :
  argus_machine_service_authenticate synthetic directory_find verify meanwhile s peer client_id username
    password iface now = (r, principal, s') ->
  (r = ARGUS_MACHINE_AUTH_SUCCESS ->
   (client_id = username /\ length password = ARGUS_MACHINE_SECRET_LENGTH /\ (0 < length username <= 36)%nat /\
    has_nul username = false /\ has_nul password = false /\
    (iface = ARGUS_MACHINE_INTERFACE_SOFTAP \/ iface = ARGUS_MACHINE_INTERFACE_STA)) /\
   (forall k b, stops_at (ms_buckets s) peer k b -> bu_blocked_until_us b <= now) /\
   derivation_left (ms_budget s) (ms_proven s) peer now /\
   ms_kdf_admitted s < ARGUS_MACHINE_AUTH_KDF_ADMISSION_MAX /\
   exists record generation, directory_find username = (ESP_OK, record, generation)
     /\ verify password (mr_verifier record) = (ESP_OK, true)
     /\ mr_enabled record <> 0 /\ mr_revoked record = 0
     /\ Z.land (mr_allowed_transports record) ARGUS_MACHINE_TRANSPORT_MQTT <> 0
     /\ Z.land (mr_allowed_interfaces record) iface <> 0
     /\ principal = principal_from_record record generation) /\
  (r <> ARGUS_MACHINE_AUTH_SUCCESS -> ms_proven s' = ms_proven s \/
     exists s1, ms_proven s' = ms_proven (meanwhile s1) /\ ms_proven s1 = ms_proven s).
Proof.
  unfold argus_machine_service_authenticate.
  destruct (authenticate_precheck client_id username password iface) as [e|] eqn:Hpre.
  { intros [= <- <- <-]. split; [|by left]. intros ->. exfalso. unfold authenticate_precheck in Hpre.
    destruct (_ || _ : bool) in Hpre; [done|]. by destruct (_ || _ : bool) in Hpre. }
  apply precheck_passed in Hpre.
  unfold authenticate_admit. pose proof (throttle_open (ms_buckets s) peer now) as Hthrottle.
  destruct (throttle_admit (ms_buckets s) peer now) as [[retry|[]] buckets].
  { intros [= <- <- <-]. split; [done|by left]. }
  change (ms_budget (s <| ms_buckets := buckets |>)) with (ms_budget s).
  change (ms_proven (s <| ms_buckets := buckets |>)) with (ms_proven s).
  pose proof (budget_open (ms_budget s) (ms_proven s) peer now) as Hbudget.
  destruct (kdf_global_admit (ms_budget s) (ms_proven s) peer now) as [[retry|[]] budget].
  { intros [= <- <- <-]. split; [done|by left]. }
  match goal with |- context [if ?x then (inl (ARGUS_MACHINE_AUTH_BUSY, 0), _) else _] => destruct x eqn:Hbusy end.
  { intros [= <- <- <-]. split; [done|by left]. }
  destruct (directory_find username) as [[find record] generation] eqn:Hfind.
  destruct (verify password _) as [err matches] eqn:Hver.
  destruct (authenticate_decide find record generation err matches iface) as [r' p'] eqn:Hdec.
  intros [= <- <- <-]. split.
  - intros ->. apply decide_success in Hdec as (-> & Hm & Hdec). split; [exact Hpre|]. split; [intros k b; by apply Hthrottle|].
    split; [by apply Hbudget|]. split; [by apply Z.leb_gt in Hbusy|].
    cbn [is_ok] in Hver. rewrite Hm in Hver. by exists record, generation.
  - intros Hr. right. unfold authenticate_finish. rewrite (bool_decide_eq_false_2 _ Hr).
    eexists. split; reflexivity.
Qed.

Definition demo_machine_record (secret : bytes) : argus_security_machine_record_t :=
  MachineRecord 1 1 ARGUS_MACHINE_CLIENT_HMI ARGUS_MACHINE_TRANSPORT_MQTT 0 ARGUS_MACHINE_INTERFACE_STA 0
    (str "pump-hmi") (str "Panel") (str "bench") (str "pump") [] (str "admin") 7 1 1 1
    (PasswordVerifier 1 1 16 32 25000 [] secret).

Definition demo_service : machine_service :=
  MachineService (replicate ARGUS_MACHINE_AUTH_BUCKETS zero_bucket)
    (replicate ARGUS_MACHINE_AUTH_PROVEN_SOURCES (ProvenSource 0 0 false)) (KdfBudget 0 0 0 0) 0 0.

Lemma authentication_sound_witness :
  let secret := replicate ARGUS_MACHINE_SECRET_LENGTH 65 in
  let run := argus_machine_service_authenticate zero_verifier (fun _ => (ESP_OK, demo_machine_record secret, 4))
    (fun password v => (ESP_OK, bool_decide (password = pw_verifier v))) (fun s => s) demo_service 77
    (str "pump-hmi") (str "pump-hmi") secret ARGUS_MACHINE_INTERFACE_STA 9000000 in
  run.1.1 = ARGUS_MACHINE_AUTH_SUCCESS /\
  run.1.2 = principal_from_record (demo_machine_record secret) 4.
Proof.
  intros secret run. split; [by vm_compute|].
  destruct (authentication_sound zero_verifier (fun _ => (ESP_OK, demo_machine_record secret, 4))
    (fun password v => (ESP_OK, bool_decide (password = pw_verifier v))) (fun s => s) demo_service 77
    (str "pump-hmi") (str "pump-hmi") secret ARGUS_MACHINE_INTERFACE_STA 9000000
    run.1.1 run.1.2 run.2 ltac:(by vm_compute)) as [H _].
  destruct (H ltac:(by vm_compute)) as (_ & _ & _ & _ & record & generation & Hfind & _ & _ & _ & _ & _ & Hp).
  injection Hfind as <- <-. exact Hp.
Defined.
