(* ===== verification/MqttClient.v ===== *)
(** * A client of the broker

    The task [src/main/argus_mqtt_broker.c] runs for every socket it accepts: the reception
    of a packet, the keep-alive deadline, the gate before a packet is handled, CONNECT,
    SUBSCRIBE and PUBLISH, and the end of the connection.  The task is a program over
    [client_call]: the socket, the clock, the callbacks of the broker's configuration, and
    the critical sections of [client_lock], each of which [enter] carries out on the memory
    of [MqttBroker] and [MqttWire].  Other tasks come in between any two of its calls. *)

From S2P Require Import Prelude MqttDecode MqttInvalidation MqttWire MqttBroker MqttAdmission MachineAuth Storage.

(** ** Calls *)

(** What [recv] gives: nothing within the poll time, a closed or broken socket, or data. *)
Inductive received := Idle | Gone | Arrived (data : bytes).

Record argus_mqtt_broker_client_info_t := ClientInfo {
  ci_connection_id : Z;
  ci_receiving_interface : Z;
  ci_client_id : bytes;
  ci_principal : argus_machine_principal_t
}.

(** The critical sections of the client's own record. *)
Inductive section : Type -> Type :=
| NoteActivity (now_us : Z) : section unit
| Liveness : section (bool * Z * Z)
| PacketState : section (bool * bool)
| InfoIfAdmitted : section (option argus_mqtt_broker_client_info_t)
| ConnectBegin (request : argus_mqtt_connect_request_t) : section (option Z)
| ConnectBind (principal : argus_machine_principal_t) (now_us : Z) : section bind_result
| StillAdmitted (expected_connection_id : Z) : section bool
| SubscribeCommit (connection_id : Z) (filters : list bytes) : section bool
| RetainedAt (filter : bytes) (index : nat) : section (option argus_mqtt_retained_t)
| StoreRetained (connection_id : Z) (topic payload : bytes) : section esp_err_t
| CollectSubscribers (connection_id : Z) (topic : bytes) : section (option (list Z))
| TryClose : section (option (argus_mqtt_broker_client_info_t * Z * bool)).

Inductive client_call : Type -> Type :=
| Recv (len : nat) : client_call received
| Send (data : bytes) : client_call Z
| SendTo (sock : Z) (data : bytes) : client_call Z
| CloseSocket (sock : Z) : client_call unit
| Clock : client_call Z
| Alloc : client_call bool
| Locked {X} (s : section X) : client_call X
| Authenticate (request : argus_mqtt_connect_request_t)
    : client_call (argus_machine_auth_result_t * argus_machine_principal_t)
| Revalidate (info : argus_mqtt_broker_client_info_t) : client_call esp_err_t
| SubscribePolicy (info : argus_mqtt_broker_client_info_t) (filter : bytes) : client_call esp_err_t
| PublishAuthorize (message : argus_mqtt_broker_message_t) : client_call esp_err_t
| PolicyCheck (message : argus_mqtt_broker_message_t) : client_call esp_err_t
| OnMessage (message : argus_mqtt_broker_message_t) : client_call unit
| OnConnected (info : argus_mqtt_broker_client_info_t) : client_call unit
| OnDisconnected (info : argus_mqtt_broker_client_info_t) : client_call unit
| CountDown : client_call Z
| SignalClientsExited : client_call unit
| Tick : client_call unit.

Abbreviation client := (prog client_call).

(** ** The critical sections *)

(** What [client_lock] protects, as far as the client tasks see it. *)
Record broker_memory := Memory { bm_broker : broker; bm_retained : list argus_mqtt_retained_t }.

Definition argus_mqtt_client_info_locked (c : argus_mqtt_client_t) : argus_mqtt_broker_client_info_t :=
  ClientInfo (cl_connection_id c) (cl_receiving_interface c) (cl_client_id c) (cl_principal c).

Definition argus_mqtt_client_info_if_admitted (c : argus_mqtt_client_t) : option argus_mqtt_broker_client_info_t :=
  if argus_mqtt_client_admitted_locked c (cl_connection_id c) then Some (argus_mqtt_client_info_locked c) else None.

(** The section [s] of the task whose record is [i]. *)
Definition enter (i : nat) {X} (s : section X) (m : broker_memory) : X * broker_memory :=
  let b := bm_broker m in
  let c := default zero_client (bk_clients b !! i) in
  let with_broker b := Memory b (bm_retained m) in
  match s in section X return X * broker_memory with
  | NoteActivity now => (tt, with_broker (note_activity b i now))
  | Liveness => ((cl_connected c, cl_keep_alive_s c, cl_last_activity_us c), m)
  | PacketState => ((cl_connected c, negb (cl_in_use c) || cl_security_invalidated c), m)
  | InfoIfAdmitted => (argus_mqtt_client_info_if_admitted c, m)
  | ConnectBegin request =>
      let '(pending, b) := connect_begin b i request in
      (if pending then Some (cl_connection_id c) else None, with_broker b)
  | ConnectBind principal now => let '(result, b) := connect_bind b i principal now in (result, with_broker b)
  | StillAdmitted expected => (argus_mqtt_client_admitted_locked c expected, m)
  | SubscribeCommit conn filters => let '(ok, b) := subscribe_commit b i conn filters in (ok, with_broker b)
  | RetainedAt filter index =>
      (match bm_retained m !! index with
       | Some r => if rt_in_use r && argus_mqtt_topic_matches filter (rt_topic r) then Some r else None
       | None => None
       end, m)
  | StoreRetained conn topic payload =>
      if argus_mqtt_client_admitted_locked c conn then
        let '(err, retained) := argus_mqtt_store_retained_locked (bm_retained m) topic payload in
        (err, Memory b retained)
      else (ESP_ERR_NOT_ALLOWED, m)
  | CollectSubscribers conn topic =>
      (if argus_mqtt_client_admitted_locked c conn
       then Some (argus_mqtt_collect_subscribers_locked b topic ARGUS_MQTT_MAX_CLIENTS) else None, m)
  | TryClose =>
      let '(closed, b) := argus_mqtt_close_client b i in
      (if closed then Some (argus_mqtt_client_info_locked c, cl_sock c, cl_connected c) else None, with_broker b)
  end.

Definition locked {X} (s : section X) : client X := call (Locked s).

(** ** Reception *)

Definition ARGUS_MQTT_PARTIAL_READ_POLLS : nat := 8.

(** One read of the loop of [argus_mqtt_read_exact]: a peer that stalls in the middle of a
    packet is given up after [polls] more idle polls. *)
Fixpoint recv_patiently (polls len : nat) : client (option bytes) :=
  got ← call (Recv len);
  match got with
  | Idle => match polls with O => mret None | S polls => recv_patiently polls len end
  | Gone | Arrived [] => mret None
  | Arrived data => mret (Some (take len data))
  end.

(** The loop, at most once round for every byte still missing. *)
Fixpoint read_exact_loop (missing len : nat) (buffer : bytes) : client (option bytes) :=
  match missing with
  | O => mret (Some buffer)
  | S missing =>
      if (len <=? length buffer)%nat then mret (Some buffer)
      else
        got ← recv_patiently ARGUS_MQTT_PARTIAL_READ_POLLS (len - length buffer);
        match got with None => mret None | Some data => read_exact_loop missing len (buffer ++ data) end
  end.

Definition argus_mqtt_read_exact (len : nat) : client (option bytes) := read_exact_loop len len [].

(** [argus_mqtt_decode_remaining_length] on the socket, from the [i]th byte. *)
Fixpoint read_remaining_bytes (i : nat) (multiplier value : Z) : client (option Z) :=
  match i with
  | O => mret None
  | S i =>
      got ← argus_mqtt_read_exact 1;
      match got with
      | Some (encoded :: _) =>
          let value := u32 (value + u32 (Z.land encoded 127 * multiplier)) in
          if Z.land encoded 128 =? 0 then mret (Some value) else read_remaining_bytes i (u32 (multiplier * 128)) value
      | _ => mret None
      end
  end.

Definition read_remaining_length : client (option Z) := read_remaining_bytes 4 1 0.

(** ** CONNECT *)

Definition connack (code : Z) : bytes := [32; 2; 0; code].

(** [send] on the client's own socket, its result dropped. *)
Definition reply (data : bytes) (err : esp_err_t) : client esp_err_t := call (Send data) ;; mret err.

(** The time is taken in the critical section of [ConnectBind]. *)
Definition argus_mqtt_handle_connect (packet : bytes) : client esp_err_t :=
  match argus_mqtt_broker_parse_connect (Some packet) with
  | ARGUS_MQTT_CONNECT_PARSE_OK request =>
      pending ← locked (ConnectBegin request);
      match pending with
      | None => mret ESP_ERR_INVALID_STATE
      | Some expected_connection_id =>
          auth ← call (Authenticate request);
          let '(result, principal) := auth in
          if negb (bool_decide (result = ARGUS_MACHINE_AUTH_SUCCESS)) then reply (connack 4) ESP_ERR_NOT_ALLOWED
          else
            now ← call Clock;
            bound ← locked (ConnectBind principal now);
            match bound with
            | BindNoCapacity => reply (connack 3) ESP_ERR_NO_MEM
            | BindDenied => reply (connack 2) ESP_ERR_INVALID_STATE
            | BindOk =>
                sent ← call (Send (connack 0));
                if negb (sent =? 4) then mret ESP_FAIL
                else
                  admission_still_valid ← locked (StillAdmitted expected_connection_id);
                  mret (if (admission_still_valid : bool) then ESP_OK else ESP_ERR_NOT_ALLOWED)
            end
      end
  | ARGUS_MQTT_CONNECT_PARSE_PROTOCOL => reply (connack 1) ESP_ERR_INVALID_ARG
  | _ => reply (connack 2) ESP_ERR_INVALID_ARG
  end.

(** ** SUBSCRIBE *)

(** The topic filters of the payload, at most [room] of them. *)
Fixpoint subscribe_filters (room : nat) (l : bytes) : esp_err_t + list bytes :=
  match l with
  | [] => inr []
  | _ =>
      match room with
      | O => inl ESP_ERR_INVALID_ARG
      | S room =>
          match argus_mqtt_read_string l ARGUS_MQTT_MAX_TOPIC_LEN with
          | Some (filter, requested_qos :: l) =>
              match cstring filter with
              | [] => inl ESP_ERR_INVALID_ARG
              | filter =>
                  if 1 <? requested_qos then inl ESP_ERR_NOT_SUPPORTED
                  else match subscribe_filters room l with inl err => inl err | inr filters => inr (filter :: filters) end
              end
          | _ => inl ESP_ERR_INVALID_ARG
          end
      end
  end.

(** The packet identifier and the filters, of which there is one at least. *)
Definition subscribe_request (packet : bytes) : esp_err_t + Z * list bytes :=
  match argus_mqtt_read_u16 packet with
  | None => inl ESP_ERR_INVALID_ARG
  | Some (packet_id, l) =>
      match subscribe_filters ARGUS_MQTT_MAX_SUBS_PER_CLIENT l with
      | inl err => inl err
      | inr [] => inl ESP_ERR_INVALID_ARG
      | inr filters => inr (packet_id, filters)
      end
  end.

(** SUBACK with the same code for every filter. *)
Definition suback (packet_id : Z) (filters : list bytes) (code : Z) : bytes :=
  144 :: u8 (2 + Z.of_nat (length filters)) :: u8 (Z.shiftr packet_id 8) :: Z.land packet_id 255 :: ((fun _ => code) <$> filters).

(** The policy is asked filter by filter, up to the first refusal. *)
Fixpoint filters_allowed (info : argus_mqtt_broker_client_info_t) (filters : list bytes) : client bool :=
  match filters with
  | [] => mret true
  | filter :: filters =>
      err ← call (SubscribePolicy info filter);
      if is_ok err then filters_allowed info filters else mret false
  end.

(** The retained messages of one filter, from [index] on; false: the client is no longer
    admitted. *)
Fixpoint replay_filter (connection_id : Z) (filter : bytes) (indices : list nat) : client bool :=
  match indices with
  | [] => mret true
  | index :: indices =>
      copy ← locked (RetainedAt filter index);
      match copy with
      | None => replay_filter connection_id filter indices
      | Some r =>
          current ← locked InfoIfAdmitted;
          match current with
          | Some current =>
              if negb (ci_connection_id current =? connection_id) then mret false
              else
                match argus_mqtt_publish_packet (rt_topic r) (rt_payload r) true with
                | Some packet => call (Send packet) ;; replay_filter connection_id filter indices
                | None => replay_filter connection_id filter indices
                end
          | None => mret false
          end
      end
  end.

Fixpoint replay_retained (connection_id : Z) (filters : list bytes) : client bool :=
  match filters with
  | [] => mret true
  | filter :: filters =>
      admitted ← replay_filter connection_id filter (seq 0 ARGUS_MQTT_MAX_RETAINED);
      if (admitted : bool) then replay_retained connection_id filters else mret false
  end.

Definition argus_mqtt_handle_subscribe (packet : bytes) : client esp_err_t :=
  allocated ← call Alloc;
  if negb allocated then mret ESP_ERR_NO_MEM
  else
    match subscribe_request packet with
    | inl err => mret err
    | inr (packet_id, filters) =>
        admitted ← locked InfoIfAdmitted;
        match admitted with
        | None => mret ESP_ERR_NOT_ALLOWED
        | Some info =>
            allowed ← filters_allowed info filters;
            if negb allowed then reply (suback packet_id filters 128) ESP_OK
            else
              admitted ← locked InfoIfAdmitted;
              match admitted with
              | None => mret ESP_ERR_NOT_ALLOWED
              | Some info =>
                  valid ← call (Revalidate info);
                  if negb (is_ok valid) then mret ESP_ERR_NOT_ALLOWED
                  else
                    capacity ← locked (SubscribeCommit (ci_connection_id info) filters);
                    if negb capacity then mret ESP_ERR_NO_MEM
                    else
                      let answer := suback packet_id filters 0 in
                      sent ← call (Send answer);
                      if negb (sent =? Z.of_nat (length answer)) then mret ESP_FAIL
                      else
                        replayed ← replay_retained (ci_connection_id info) filters;
                        mret (if (replayed : bool) then ESP_OK else ESP_ERR_NOT_ALLOWED)
              end
        end
    end.

(** ** PUBLISH *)

Definition puback (packet_id : Z) : bytes := [64; 2; u8 (Z.shiftr packet_id 8); Z.land packet_id 255].

(** The topic, the packet identifier and the payload. *)
Definition publish_request (qos : Z) (packet : bytes) : esp_err_t + bytes * Z * bytes :=
  if 1 <? qos then inl ESP_ERR_NOT_SUPPORTED
  else
    match argus_mqtt_read_string packet ARGUS_MQTT_MAX_TOPIC_LEN with
    | None => inl ESP_ERR_INVALID_ARG
    | Some (topic, l) =>
        match (if 0 <? qos then argus_mqtt_read_u16 l else Some (0, l)) with
        | None => inl ESP_ERR_INVALID_ARG
        | Some (packet_id, payload) =>
            if (ARGUS_MQTT_MAX_PAYLOAD_LEN <=? length payload)%nat then inl ESP_ERR_INVALID_SIZE
            else inr (cstring topic, packet_id, payload)
        end
    end.

(** The connection [connection_id] is still admitted. *)
Definition still_the_same (connection_id : Z) : client bool :=
  info ← locked InfoIfAdmitted;
  mret (match info with Some info => ci_connection_id info =? connection_id | None => false end).

(** Admitted, and its machine still valid in the directory, and still admitted. *)
Definition revalidated (connection_id : Z) : client bool :=
  info ← locked InfoIfAdmitted;
  match info with
  | None => mret false
  | Some info =>
      if negb (ci_connection_id info =? connection_id) then mret false
      else
        valid ← call (Revalidate info);
        if negb (is_ok valid) then mret false else still_the_same connection_id
  end.

Fixpoint argus_mqtt_deliver_to_sockets (sockets : list Z) (topic payload : bytes) (retain : bool) : client unit :=
  match sockets with
  | [] => mret tt
  | sock :: sockets =>
      match argus_mqtt_publish_packet topic payload retain with
      | Some packet => call (SendTo sock packet) ;; argus_mqtt_deliver_to_sockets sockets topic payload retain
      | None => argus_mqtt_deliver_to_sockets sockets topic payload retain
      end
  end.

(** The end of [argus_mqtt_handle_publish]: the retained store, the subscribers, and the
    message for the callback. *)
Definition publish_admitted (message : argus_mqtt_broker_message_t) (on_message : bool) (acknowledge : client unit)
    : client (esp_err_t * option argus_mqtt_broker_message_t) :=
  let conn := msg_connection_id message in
  let payload := cstring (msg_payload message) in
  retain_err ← (if msg_retain message then locked (StoreRetained conn (msg_topic message) payload) else mret ESP_OK);
  if negb (is_ok retain_err) then mret (retain_err, None)
  else
    sockets ← locked (CollectSubscribers conn (msg_topic message));
    match sockets with
    | None => mret (ESP_ERR_NOT_ALLOWED, None)
    | Some sockets =>
        argus_mqtt_deliver_to_sockets sockets (msg_topic message) payload (msg_retain message) ;;
        acknowledge ;;
        mret (ESP_OK, if on_message then Some message else None)
    end.

(** The error, and the message the callback is to get.  [on_message] tells whether the
    configuration has that callback. *)
Definition argus_mqtt_handle_publish (on_message : bool) (fixed_header : Z) (packet : bytes)
    : client (esp_err_t * option argus_mqtt_broker_message_t) :=
  let qos := Z.land (Z.shiftr fixed_header 1) 3 in
  let retain := negb (Z.land fixed_header 1 =? 0) in
  match publish_request qos packet with
  | inl err => mret (err, None)
  | inr (topic, packet_id, payload) =>
      let acknowledge : client unit := if qos =? 1 then call (Send (puback packet_id)) ;; mret tt else mret tt in
      admitted ← locked InfoIfAdmitted;
      match admitted with
      | None => mret (ESP_ERR_NOT_ALLOWED, None)
      | Some info =>
          let conn := ci_connection_id info in
          let message := BrokerMessage conn topic payload qos retain true (ci_principal info) in
          valid ← call (Revalidate info);
          same ← (if is_ok valid then still_the_same conn else mret false);
          if negb same then mret (ESP_ERR_NOT_ALLOWED, None)
          else
            authorized ← call (PublishAuthorize message);
            if negb (is_ok authorized) then acknowledge ;; mret (ESP_OK, None)
            else
              same ← still_the_same conn;
              if negb same then mret (ESP_ERR_NOT_ALLOWED, None)
              else
                policy ← call (PolicyCheck message);
                if negb (is_ok policy) then
                  let refused := BrokerMessage conn topic payload qos retain false (ci_principal info) in
                  acknowledge ;; mret (ESP_OK, if on_message then Some refused else None)
                else
                  same ← revalidated conn;
                  if negb same then mret (ESP_ERR_NOT_ALLOWED, None)
                  else publish_admitted message on_message acknowledge
      end
  end.

(** ** The task *)

Definition ARGUS_MQTT_CONNECT_GRACE_US : Z := 3000000.

(** The deadline of a silent client; [None]: it asked for no timeout. *)
Definition idle_deadline (connected : bool) (keep_alive_s : Z) : option Z :=
  if negb connected then Some ARGUS_MQTT_CONNECT_GRACE_US
  else if keep_alive_s =? 0 then None
  else Some (u64 (keep_alive_s * 1500000)).

(** An idle poll: true to go on waiting. *)
Definition idle_poll : client bool :=
  live ← locked Liveness;
  let '(connected, keep_alive_s, last_activity_us) := live in
  now ← call Clock;
  mret (match idle_deadline connected keep_alive_s with
        | None => true
        | Some deadline_us => u64 (now - last_activity_us) <? deadline_us
        end).

(** The rest of a packet after its first byte. *)
Definition receive_packet : client (option bytes) :=
  remaining_len ← read_remaining_length;
  match remaining_len with
  | None => mret None
  | Some remaining_len =>
      if Z.of_nat ARGUS_MQTT_MAX_PACKET_LEN <? remaining_len then mret None
      else if 0 <? remaining_len then argus_mqtt_read_exact (Z.to_nat remaining_len) else mret (Some [])
  end.

(** The gate before a packet is handled. *)
Definition packet_gate (packet_type : Z) : client esp_err_t :=
  state ← locked PacketState;
  let '(client_connected, client_invalidated) := (state : bool * bool) in
  if client_invalidated then mret ESP_ERR_NOT_ALLOWED
  else if negb client_connected && negb (packet_type =? 1) then mret ESP_ERR_INVALID_STATE
  else if client_connected && (packet_type =? 1) then mret ESP_ERR_INVALID_STATE
  else if client_connected && ((packet_type =? 3) || (packet_type =? 8)) then
    info ← locked InfoIfAdmitted;
    match info with
    | None => mret ESP_ERR_NOT_ALLOWED
    | Some info => valid ← call (Revalidate info); mret (if is_ok valid then ESP_OK else ESP_ERR_NOT_ALLOWED)
    end
  else mret ESP_OK.

(** What the handling of a packet leaves to do: the error, whether a connection is to be
    announced, and the message for the callback. *)
Definition dispatch_packet (on_message : bool) (fixed_header : Z) (packet : bytes)
    : client (esp_err_t * bool * option argus_mqtt_broker_message_t) :=
  let packet_type := Z.shiftr fixed_header 4 in
  if packet_type =? 1 then
    err ← (if Z.land fixed_header 15 =? 0 then argus_mqtt_handle_connect packet else mret ESP_ERR_INVALID_ARG);
    mret (err, is_ok err, None)
  else if packet_type =? 3 then
    r ← argus_mqtt_handle_publish on_message fixed_header packet; mret (r.1, false, r.2)
  else if packet_type =? 8 then err ← argus_mqtt_handle_subscribe packet; mret (err, false, None)
  else if packet_type =? 12 then call (Send [208; 0]) ;; mret (ESP_OK, false, None)
  else mret (ESP_OK, false, None).

(** The callbacks of a packet, each asked for only while the connection is admitted. *)
Definition announce (notify_connect : bool) : client unit :=
  if negb notify_connect then mret tt
  else
    info ← locked InfoIfAdmitted;
    match info with Some info => call (OnConnected info) | None => mret tt end.

Definition pass_on (message : option argus_mqtt_broker_message_t) : client unit :=
  match message with
  | None => mret tt
  | Some message =>
      info ← locked InfoIfAdmitted;
      match info with
      | Some info => if ci_connection_id info =? msg_connection_id message then call (OnMessage message) else mret tt
      | None => mret tt
      end
  end.

(** A packet that arrived: true to go on.  DISCONNECT ends the task. *)
Definition handle_packet (on_message on_client_event : bool) (fixed_header : Z) (packet : bytes) : client bool :=
  err ← packet_gate (Z.shiftr fixed_header 4);
  if is_ok err && (Z.shiftr fixed_header 4 =? 14) then mret false
  else
    r ← (if is_ok err then dispatch_packet on_message fixed_header packet else mret (err, false, None));
    let '(err, notify_connect, message) := r in
    announce (notify_connect && on_client_event) ;;
    pass_on message ;;
    mret (is_ok err).

(** One round of the task's loop: true to go on. *)
Definition client_round (on_message on_client_event : bool) : client bool :=
  got ← call (Recv 1);
  match got with
  | Idle => idle_poll
  | Gone | Arrived [] => mret false
  | Arrived (fixed_header :: _) =>
      now ← call Clock;
      locked (NoteActivity now) ;;
      packet ← receive_packet;
      match packet with
      | None => mret false
      | Some packet => handle_packet on_message on_client_event fixed_header packet
      end
  end.

(** The first [rounds] rounds: true when the loop has not ended. *)
Fixpoint client_loop (on_message on_client_event : bool) (rounds : nat) : client bool :=
  match rounds with
  | O => mret true
  | S rounds =>
      go_on ← client_round on_message on_client_event;
      if (go_on : bool) then client_loop on_message on_client_event rounds else mret false
  end.

(** The record is given back once no revocation holds its descriptor; [None] after [waits]
    ticks of waiting. *)
Fixpoint close_record (waits : nat) : client (option (argus_mqtt_broker_client_info_t * Z * bool)) :=
  closed ← locked TryClose;
  match closed, waits with
  | Some closed, _ => mret (Some closed)
  | None, O => mret None
  | None, S waits => call Tick ;; close_record waits
  end.

(** [argus_mqtt_close_client] to the end: false while it waits. *)
Definition close_connection (on_client_event : bool) (waits : nat) : client bool :=
  closed ← close_record waits;
  match closed with
  | None => mret false
  | Some (info, sock, notify_disconnect) =>
      (if 0 <=? sock then call (CloseSocket sock) else mret tt) ;;
      (if notify_disconnect && on_client_event then call (OnDisconnected info) else mret tt) ;;
      prev ← call CountDown;
      (if prev =? 1 then call SignalClientsExited else mret tt) ;;
      mret true
  end.

(** The task up to [rounds] rounds of its loop and [waits] ticks of the end: true when it
    is over.  The first time stamp is written without the lock; no other task reads or
    writes that field. *)
Definition argus_mqtt_client_task (on_message on_client_event : bool) (rounds waits : nat) : client bool :=
  now ← call Clock;
  locked (NoteActivity now) ;;
  running ← client_loop on_message on_client_event rounds;
  if (running : bool) then mret false else close_connection on_client_event waits.

(** ** Traces *)

Record client_event := Did { dv_type : Type; dv_call : client_call dv_type; dv_answer : dv_type }.
Arguments Did {_}.

(** What a program called, and what was answered, first call first. *)
Inductive trace_of {A} : client A -> list client_event -> A -> Prop :=
| TraceRet a : trace_of (Ret a) [] a
| TraceOp X (e : client_call X) k x t a : trace_of (k x) t a -> trace_of (Op e k) (Did e x :: t) a.

(** Pasts are lists of events, latest first. *)
Definition stands (info : argus_mqtt_broker_client_info_t) : client_event := Did (Locked InfoIfAdmitted) (Some info).

(** The identity a message carries is what the broker knows of its connection. *)
Definition vouched (m : argus_mqtt_broker_message_t) (info : argus_mqtt_broker_client_info_t) : Prop :=
  ci_connection_id info = msg_connection_id m /\ ci_principal info = msg_principal m.

(** The gates of a message up to its authorization: the connection is admitted, its machine
    valid, the connection admitted still, the publication authorized, the connection
    admitted still. *)
Definition authorization_gates (m : argus_mqtt_broker_message_t) (i0 i1 i2 : argus_mqtt_broker_client_info_t) : list client_event :=
  [stands i2; Did (PublishAuthorize m) ESP_OK; stands i1; Did (Revalidate i0) ESP_OK; stands i0].

(** And of a message the policy admits: the same machine is valid once more. *)
Definition policy_gates (m : argus_mqtt_broker_message_t) (i3 i4 : argus_mqtt_broker_client_info_t) : list client_event :=
  [stands i4; Did (Revalidate i3) ESP_OK; stands i3; Did (PolicyCheck m) ESP_OK].

(** Nothing is read from the client's socket. *)
Definition quiet (v : client_event) : Prop := match dv_call v with Recv _ => False | _ => True end.

(** The gates [m] has passed since it was read, with [since] after them. *)
Definition cleared (since : list client_event) (m : argus_mqtt_broker_message_t) (past : list client_event) : Prop :=
  msg_policy_admitted m = true /\
  exists i0 i1 i2 i3 i4, vouched m i0 /\ Forall (fun i => ci_connection_id i = msg_connection_id m) [i1; i2; i3; i4] /\
    exists recent older, past = recent ++ older /\ Forall quiet recent /\
      (since ++ policy_gates m i3 i4 ++ authorization_gates m i0 i1 i2) `sublist_of` recent.

(** A message the policy refused: its authorization gates, and the refusal. *)
Definition refused (m : argus_mqtt_broker_message_t) (past : list client_event) : Prop :=
  msg_policy_admitted m = false /\
  exists asked err i0 i1 i2, err <> ESP_OK /\
    asked = BrokerMessage (msg_connection_id m) (msg_topic m) (msg_payload m) (msg_qos m) (msg_retain m) true (msg_principal m) /\
    vouched m i0 /\ Forall (fun i => ci_connection_id i = msg_connection_id m) [i1; i2] /\
    (Did (PolicyCheck asked) err :: authorization_gates asked i0 i1 i2) `sublist_of` past.

(** The retained store took [m] when it asks for that. *)
Definition stored (m : argus_mqtt_broker_message_t) : list client_event :=
  if msg_retain m
  then [Did (Locked (StoreRetained (msg_connection_id m) (msg_topic m) (cstring (msg_payload m)))) ESP_OK] else [].

(** Its subscribers were collected while its connection was admitted. *)
Definition collected (m : argus_mqtt_broker_message_t) (sockets : list Z) : client_event :=
  Did (Locked (CollectSubscribers (msg_connection_id m) (msg_topic m))) (Some sockets).

(** What a call that concerns a publication needs in its past. *)
Definition publication_due {X} (e : client_call X) (past : list client_event) : Prop :=
  match e with
  | Locked (StoreRetained conn topic payload) => exists m, msg_connection_id m = conn /\ msg_topic m = topic /\
      payload = cstring (msg_payload m) /\ msg_retain m = true /\ cleared [] m past
  | SendTo sock data => exists m sockets, sock ∈ sockets /\
      argus_mqtt_publish_packet (msg_topic m) (cstring (msg_payload m)) (msg_retain m) = Some data /\
      cleared (collected m sockets :: stored m) m past
  | OnMessage m => exists info past', past = stands info :: past' /\ ci_connection_id info = msg_connection_id m /\
      (refused m past' \/ exists sockets, cleared (collected m sockets :: stored m) m past')
  | _ => True
  end.

(** CONNECT was accepted: the record waited for a login, the credentials were right, and
    the record took the principal they stand for. *)
Definition login (request : argus_mqtt_connect_request_t) (conn : Z) (principal : argus_machine_principal_t) (now_us : Z)
    : list client_event :=
  [Did (Locked (ConnectBind principal now_us)) BindOk; Did Clock now_us;
   Did (Authenticate request) (ARGUS_MACHINE_AUTH_SUCCESS, principal); Did (Locked (ConnectBegin request)) (Some conn)].

(** A packet that carries a publication. *)
Definition is_publish_packet (data : bytes) : bool := match data with b :: _ => Z.shiftr b 4 =? 3 | [] => false end.

(** What a call that concerns the session needs. *)
Definition session_due {X} (e : client_call X) (past : list client_event) : Prop :=
  match e with
  | Send data =>
      (data = connack 0 -> exists request conn principal now past', past = login request conn principal now ++ past') /\
      (is_publish_packet data = true -> exists info filters filter index r past',
         past = stands info :: Did (Locked (RetainedAt filter index)) (Some r) :: past' /\ filter ∈ filters /\
         argus_mqtt_publish_packet (rt_topic r) (rt_payload r) true = Some data /\
         Did (Locked (SubscribeCommit (ci_connection_id info) filters)) true ∈ past')
  | Locked (SubscribeCommit conn filters) => exists asked info past',
      past = Did (Revalidate info) ESP_OK :: stands info :: past' /\ conn = ci_connection_id info /\
      filters <> [] /\ (length filters <= ARGUS_MQTT_MAX_SUBS_PER_CLIENT)%nat /\
      stands asked ∈ past' /\ Forall (fun filter => Did (SubscribePolicy asked filter) ESP_OK ∈ past') filters
  | OnConnected info => exists request conn principal now past',
      past = stands info :: Did (Locked (StillAdmitted conn)) true :: Did (Send (connack 0)) 4 :: login request conn principal now ++ past'
  | _ => True
  end.

Definition due {X} (e : client_call X) (past : list client_event) : Prop := publication_due e past /\ session_due e past.

(** ** The rules *)

(** Every call of [p] has what it needs, after [past], and [p] ends as [post]. *)
Fixpoint obeys {A} (past : list client_event) (p : client A) (post : list client_event -> A -> Prop) : Prop :=
  match p with
  | Ret a => post past a
  | Op e k => due e past /\ forall x, obeys (Did e x :: past) (k x) post
  end.

Lemma obeys_trace {A} (p : client A) past post t a : obeys past p post -> trace_of p t a ->
  forall t1 v t2, t = t1 ++ v :: t2 -> due (dv_call v) (reverse t1 ++ past).
Proof.
  intros Hp Ht. revert past Hp. induction Ht as [a|X e k x t a Ht IH]; intros past Hp t1 v t2 He.
  - by destruct t1.
  - destruct Hp as [Hd Hk]. destruct t1 as [|v' t1]; injection He as <- He; [exact Hd|].
    rewrite reverse_cons, <- app_assoc. exact (IH _ (Hk x) t1 v t2 He).
Qed.

Lemma obeys_bind {A B} (p : client A) (k : A -> client B) past post :
  obeys past p (fun past a => obeys past (k a) post) -> obeys past (p ≫= k) post.
Proof.
  revert past. induction p as [a|X e k' IH]; intros past Hp; [exact Hp|]. destruct Hp as [Hd Hk].
  split; [exact Hd|]. intros x. exact (IH x _ (Hk x)).
Qed.

Lemma obeys_mono {A} (p : client A) past (post post' : list client_event -> A -> Prop) :
  (forall past a, post past a -> post' past a) -> obeys past p post -> obeys past p post'.
Proof.
  intros Hp. revert past. induction p as [a|X e k IH]; intros past Ho; [by apply Hp|]. destruct Ho as [Hd Hk].
  split; [exact Hd|]. intros x. exact (IH x _ (Hk x)).
Qed.

Lemma obeys_use {A B} (p : client A) (k : A -> client B) past (mid : list client_event -> A -> Prop) post :
  obeys past p mid -> (forall past a, mid past a -> obeys past (k a) post) -> obeys past (p ≫= k) post.
Proof. intros Hp Hk. apply obeys_bind. exact (obeys_mono p past mid _ Hk Hp). Qed.

Lemma obeys_call {X B} (e : client_call X) (k : X -> client B) past post :
  due e past -> (forall x, obeys (Did e x :: past) (k x) post) -> obeys past (call e ≫= k) post.
Proof. done. Qed.

(** A part whose calls need nothing. *)
Definition free_call (X : Type) (e : client_call X) : Prop := forall past, due e past.

Lemma obeys_free {A} (p : client A) past (post : list client_event -> A -> Prop) :
  ops_all free_call p -> (forall l a, post (l ++ past) a) -> obeys past p post.
Proof.
  revert past. induction p as [a|X e k IH]; intros past Hc Hp; [exact (Hp [] a)|]. destruct Hc as [He Hk].
  split; [apply He|]. intros x. apply IH; [apply Hk|]. intros l a. change (Did e x :: past) with ([Did e x] ++ past).
  rewrite app_assoc. apply Hp.
Qed.

(** What once holds of the past and does not depend on what comes later is kept. *)
Lemma obeys_keeps (P : list client_event -> Prop) {A} (p : client A) past (post : list client_event -> A -> Prop) :
  (forall v past, P past -> P (v :: past)) -> P past -> obeys past p post -> obeys past p (fun past a => P past /\ post past a).
Proof.
  intros Hk. revert past. induction p as [a|X e k IH]; intros past HP Ho; [done|]. destruct Ho as [Hd Ho].
  split; [exact Hd|]. intros x. exact (IH x _ (Hk _ _ HP) (Ho x)).
Qed.

Lemma publish_packet_head topic payload retain data :
  argus_mqtt_publish_packet topic payload retain = Some data -> is_publish_packet data = true /\ data <> connack 0.
Proof.
  unfold argus_mqtt_publish_packet. destruct (_ <? _)%nat; [done|]. intros [=]; subst.
  by destruct retain.
Qed.

Ltac free := solve [by split | by split; split; intros [=]].

(** One step of the execution of a program: a call, a bind, a return or a case. *)
Ltac walk :=
  lazy beta;
  lazymatch goal with
  | |- obeys _ (mret _) _ => cbn [obeys mret prog_mret]
  | |- obeys _ (call _ ≫= _) _ => apply obeys_call; [try free|intros ?]
  | |- obeys _ (locked _ ≫= _) _ => apply obeys_call; [try free|intros ?]
  | |- obeys _ ((_ ≫= _) ≫= _) _ => apply obeys_bind
  | |- obeys _ (mret _ ≫= _) _ => apply obeys_bind; cbn [obeys mret prog_mret]
  | |- obeys _ (let '(_, _) := ?x in _) _ => destruct x
  | |- obeys _ (match ?x with _ => _ end) _ => destruct x eqn:?
  | |- obeys _ (match ?x with _ => _ end ≫= _) _ => destruct x eqn:?
  end.

(** ** The free parts *)

Lemma free_bind {A B} (p : client A) (k : A -> client B) :
  ops_all free_call p -> (forall a, ops_all free_call (k a)) -> ops_all free_call (p ≫= k).
Proof. apply ops_all_bind. Qed.

Ltac free_walk :=
  repeat first
    [ done
    | match goal with
      | |- ops_all _ (mret _) => exact I
      | |- ops_all _ (call _) => split; [intros ?; free|intros ?; exact I]
      | |- ops_all _ (locked _) => split; [intros ?; free|intros ?; exact I]
      | |- ops_all _ (_ ≫= _) => apply free_bind; [|intros ?]
      | |- ops_all _ (let '(_, _) := ?x in _) => destruct x
      | |- ops_all _ (match ?x with _ => _ end) => destruct x
      end ].

Lemma recv_free polls len : ops_all free_call (recv_patiently polls len).
Proof. induction polls; cbn [recv_patiently]; free_walk. Qed.

Lemma read_exact_free missing len : forall buffer, ops_all free_call (read_exact_loop missing len buffer).
Proof. induction missing; intros buffer; cbn [read_exact_loop]; free_walk; auto using recv_free. Qed.

Lemma remaining_free i : forall multiplier value, ops_all free_call (read_remaining_bytes i multiplier value).
Proof. induction i; intros; cbn [read_remaining_bytes]; free_walk; apply read_exact_free. Qed.

Lemma receive_free : ops_all free_call receive_packet.
Proof. unfold receive_packet. free_walk; [apply remaining_free|apply read_exact_free]. Qed.

Lemma idle_free : ops_all free_call idle_poll.
Proof. unfold idle_poll. free_walk. Qed.

Lemma gate_free packet_type : ops_all free_call (packet_gate packet_type).
Proof. unfold packet_gate. free_walk. Qed.

Lemma close_free on_client_event waits : ops_all free_call (close_connection on_client_event waits).
Proof.
  assert (Hr : forall waits, ops_all free_call (close_record waits)) by (intros n; induction n; cbn [close_record]; free_walk).
  unfold close_connection. free_walk.
Qed.

(** ** The parts with obligations *)

Lemma reply_obeys data err past (post : list client_event -> esp_err_t -> Prop) :
  data <> connack 0 -> is_publish_packet data = false -> (forall n, post (Did (Send data) n :: past) err) -> obeys past (reply data err) post.
Proof. intros H1 H2 Hp. unfold reply. walk; [|walk; apply Hp]. split; [done|]. split; [done|]. by rewrite H2. Qed.

(** The past of a connection to be announced. *)
Definition connected (past : list client_event) : Prop := exists request conn principal now past',
  past = Did (Locked (StillAdmitted conn)) true :: Did (Send (connack 0)) 4 :: login request conn principal now ++ past'.

Lemma connect_obeys packet past :
  obeys past (argus_mqtt_handle_connect packet) (fun past err => is_ok err = true -> connected past).
Proof.
  unfold argus_mqtt_handle_connect. walk; try (apply reply_obeys; done).
  walk. walk; [|by walk]. walk. walk. walk; [by apply reply_obeys|].
  walk. walk. walk; [|by apply reply_obeys..]. apply negb_false_iff, bool_decide_eq_true in Heqb as ->. subst.
  unfold locked. walk.
  { split; [done|]. split; [|done]. intros _. by eexists _, _, _, _, _. }
  walk; [by walk|]. apply obeys_call; [by split|]. intros valid. walk. intros Hok. apply negb_false_iff, Z.eqb_eq in Heqb as ->.
  destruct valid; [|done]. by eexists _, _, _, _, _.
Qed.

Lemma announce_obeys notify past : (notify = true -> connected past) -> obeys past (announce notify) (fun _ _ => True).
Proof.
  intros Hc. unfold announce. walk; [by walk|]. walk. walk; [|by walk]. split; [|done]. split; [done|]. subst.
  destruct notify; [|done]. destruct (Hc eq_refl) as (rq & conn & p & now & past' & ->). by exists rq, conn, p, now, past'.
Qed.

(** What a publication leaves for the callback. *)
Definition to_pass_on (past : list client_event) (message : option argus_mqtt_broker_message_t) : Prop :=
  match message with
  | None => True
  | Some m => refused m past \/ exists sockets, cleared (collected m sockets :: stored m) m past
  end.

Lemma pass_on_obeys message past : to_pass_on past message -> obeys past (pass_on message) (fun _ _ => True).
Proof.
  intros Hm. unfold pass_on. walk; [|by walk]. walk. walk; [|by walk]. walk; [|by walk]. split; [|done]. split; [|done].
  subst. apply Z.eqb_eq in Heqb. by exists a0, past.
Qed.

Ltac in_order := repeat first [apply sublist_skip | apply sublist_cons]; try apply sublist_nil_l.

Lemma cleared_later v since m past : quiet v -> cleared since m past -> cleared since m (v :: past).
Proof.
  intros Hq (Hp & i0 & i1 & i2 & i3 & i4 & Hv & Hi & recent & older & -> & Hr & Hs). split; [done|]. exists i0, i1, i2, i3, i4.
  do 2 (split; [done|]). exists (v :: recent), older. split; [done|]. split; [by constructor|]. by apply sublist_cons.
Qed.

Lemma cleared_since v since m past : quiet v -> cleared since m past -> cleared (v :: since) m (v :: past).
Proof.
  intros Hq (Hp & i0 & i1 & i2 & i3 & i4 & Hv & Hi & recent & older & -> & Hr & Hs). split; [done|]. exists i0, i1, i2, i3, i4.
  do 2 (split; [done|]). exists (v :: recent), older. split; [done|]. split; [by constructor|]. by apply sublist_skip.
Qed.

Lemma refused_weaken m past past' : refused m past -> past `sublist_of` past' -> refused m past'.
Proof.
  intros (Hp & asked & err & i0 & i1 & i2 & He & Ha & Hv & Hi & Hs) Hsub. split; [done|]. exists asked, err, i0, i1, i2.
  do 4 (split; [done|]). by etrans.
Qed.

Lemma deliver_obeys m sockets listed past : listed ⊆ sockets -> cleared (collected m sockets :: stored m) m past ->
  obeys past (argus_mqtt_deliver_to_sockets listed (msg_topic m) (cstring (msg_payload m)) (msg_retain m))
    (fun past _ => cleared (collected m sockets :: stored m) m past).
Proof.
  revert past. induction listed as [|sock listed IH]; intros past Hl Hc; cbn [argus_mqtt_deliver_to_sockets]; [by walk|].
  walk; [|apply IH; [set_solver|done]]. walk.
  - split; [|done]. exists m, sockets. split; [set_solver|done].
  - apply IH; [set_solver|]. by apply cleared_later.
Qed.

Lemma acknowledge_obeys (qos packet_id : Z) past (post : list client_event -> unit -> Prop) :
  (forall n, post (Did (Send (puback packet_id)) n :: past) tt) -> post past tt ->
  obeys past (if qos =? 1 then call (Send (puback packet_id)) ;; mret tt else mret tt) post.
Proof. intros H1 H2. walk; [|by walk]. walk. walk. apply H1. Qed.

Lemma admitted_obeys m on_message qos packet_id past : cleared [] m past ->
  obeys past (publish_admitted m on_message (if qos =? 1 then call (Send (puback packet_id)) ;; mret tt else mret tt))
    (fun past r => to_pass_on past r.2).
Proof.
  intros Hc. unfold publish_admitted.
  eapply (obeys_use _ _ _ (fun past err => is_ok err = true -> cleared (stored m) m past)).
  - unfold stored. walk; [|by walk]. apply obeys_call.
    + split; [|done]. by exists m.
    + intros err Hok. destruct err; try done. by apply cleared_since.
  - clear past Hc. intros past err Hc. walk; [by walk|]. apply negb_false_iff in Heqb. specialize (Hc Heqb).
    walk. walk; [|by walk]. subst. eapply obeys_use; [eapply deliver_obeys; [done|by apply cleared_since]|].
    clear Hc. intros past' [] Hc. eapply (obeys_use _ _ _ (fun past _ => cleared (collected m l :: stored m) m past)).
    + apply acknowledge_obeys; [|done]. intros n. by apply cleared_later.
    + intros past2 [] Hc2. walk. destruct on_message; cbn; eauto.
Qed.

Lemma same_obeys conn past (post : list client_event -> bool -> Prop) :
  (forall info, ci_connection_id info = conn -> post (stands info :: past) true) ->
  (forall past, post past false) -> obeys past (still_the_same conn) post.
Proof.
  intros Ht Hf. unfold still_the_same. unfold locked. apply obeys_call; [by split|]. intros [info|]; walk; [|apply Hf].
  destruct (Z.eqb_spec (ci_connection_id info) conn) as [He|]; [|apply Hf]. by apply Ht.
Qed.

Lemma revalidated_obeys conn past (post : list client_event -> bool -> Prop) :
  (forall i3 i4, ci_connection_id i3 = conn -> ci_connection_id i4 = conn ->
     post (stands i4 :: Did (Revalidate i3) ESP_OK :: stands i3 :: past) true) ->
  (forall past, post past false) -> obeys past (revalidated conn) post.
Proof.
  intros Ht Hf. unfold revalidated, locked. apply obeys_call; [by split|]. intros [i3|]; [|walk; apply Hf].
  walk; [walk; apply Hf|]. apply negb_false_iff, Z.eqb_eq in Heqb. apply obeys_call; [by split|]. intros err.
  walk; [walk; apply Hf|]. destruct err; try done. apply same_obeys; [|done]. intros i4 Hi. by apply Ht.
Qed.

Lemma publish_obeys on_message fixed_header packet past :
  obeys past (argus_mqtt_handle_publish on_message fixed_header packet) (fun past r => to_pass_on past r.2).
Proof.
  unfold argus_mqtt_handle_publish. destruct (publish_request _ packet) as [err|[[topic packet_id] payload]]; [by walk|].
  set (qos := Z.land _ 3). set (retain := negb _). unfold locked. apply obeys_call; [by split|]. intros [i0|]; [|by walk].
  set (m := BrokerMessage _ topic payload qos retain true _). apply obeys_call; [by split|]. intros err.
  eapply (obeys_use _ _ _ (fun past' same => same = true -> exists i1, ci_connection_id i1 = msg_connection_id m /\
    past' = stands i1 :: Did (Revalidate i0) ESP_OK :: stands i0 :: past)).
  { walk; [|by walk]. destruct err; try done. apply same_obeys; [|done]. eauto. }
  intros past1 same Hs. walk; [by walk|]. apply negb_false_iff in Heqb. destruct (Hs Heqb) as (i1 & Hi1 & ->).
  apply obeys_call; [by split|]. clear Hs Heqb. intros err1. walk; [apply obeys_bind, acknowledge_obeys; intros; by walk|].
  destruct err1; try done. apply obeys_bind, same_obeys; [|by intros; walk]. intros i2 Hi2. cbn [negb].
  apply obeys_call; [by split|]. intros err2. walk.
  - apply obeys_bind, acknowledge_obeys; intros; walk; (destruct on_message; [|done]); left;
      (split; [done|]); exists m, err2, i0, i1, i2; (split; [by intros ->|]); do 2 (split; [done|]); (split; [by repeat constructor|]); in_order.
  - destruct err2; try done. apply obeys_bind, revalidated_obeys; [|by intros; walk]. intros i3 i4 Hi3 Hi4. cbn [negb].
    apply admitted_obeys. split; [done|]. exists i0, i1, i2, i3, i4. split; [done|]. split; [by repeat constructor|].
    eexists [_; _; _; _; _; _; _; _; _], past. split; [reflexivity|]. split; [by repeat constructor|]. done.
Qed.

Lemma subscribe_filters_room room l filters : subscribe_filters room l = inr filters -> (length filters <= room)%nat.
Proof.
  revert l filters. induction room as [|room IH]; intros [|b l] filters; cbn [subscribe_filters]; try (intros [=]; subst; cbn; lia).
  destruct (argus_mqtt_read_string _ _) as [[filter [|qos rest]]|]; [done| |done].
  destruct (cstring filter) as [|f fs]; [done|]. destruct (1 <? qos); [done|].
  destruct (subscribe_filters room rest) as [err|filters'] eqn:E; [done|]. intros [=]; subst. apply IH in E. cbn. lia.
Qed.

Lemma subscribe_request_room packet packet_id filters : subscribe_request packet = inr (packet_id, filters) ->
  filters <> [] /\ (length filters <= ARGUS_MQTT_MAX_SUBS_PER_CLIENT)%nat.
Proof.
  unfold subscribe_request. destruct (argus_mqtt_read_u16 packet) as [[pid l]|]; [|done].
  destruct (subscribe_filters _ l) as [err|[|f fs]] eqn:E; try done. intros [=]; subst.
  split; [done|]. exact (subscribe_filters_room _ _ _ E).
Qed.

(** The policy let every filter pass, for [asked]. *)
Definition filters_passed (asked : argus_mqtt_broker_client_info_t) (filters : list bytes) (past : list client_event) : Prop :=
  stands asked ∈ past /\ Forall (fun filter => Did (SubscribePolicy asked filter) ESP_OK ∈ past) filters.

Lemma filters_passed_later asked filters past v : filters_passed asked filters past -> filters_passed asked filters (v :: past).
Proof. intros [Ha Hf]. split; [by right|]. eapply Forall_impl; [exact Hf|]. intros f ?. by right. Qed.

Lemma filters_obeys asked filters : forall past, stands asked ∈ past ->
  obeys past (filters_allowed asked filters) (fun past ok => ok = true -> filters_passed asked filters past).
Proof.
  induction filters as [|filter filters IH]; intros past Ha; cbn [filters_allowed]; [by walk|].
  apply obeys_call; [by split|]. intros err. walk; [|by walk]. destruct err; try done.
  eapply obeys_mono, (obeys_keeps (fun past => Did (SubscribePolicy asked filter) ESP_OK ∈ past)), IH; [|by right|by left|by right].
  intros past' ok [Hd Hp] Hok. destruct (Hp Hok). split; [done|]. by constructor.
Qed.

Lemma replay_filter_obeys info filters filter indices : filter ∈ filters -> forall past,
  Did (Locked (SubscribeCommit (ci_connection_id info) filters)) true ∈ past ->
  obeys past (replay_filter (ci_connection_id info) filter indices) (fun _ _ => True).
Proof.
  intros Hf. induction indices as [|index indices IH]; intros past Hc; cbn [replay_filter]; [by walk|].
  unfold locked. apply obeys_call; [by split|]. intros [r|]; [|apply IH; by right].
  apply obeys_call; [by split|]. intros [current|]; [|by walk]. walk; [by walk|]. apply negb_false_iff, Z.eqb_eq in Heqb.
  walk; [|apply IH; by do 2 right]. walk; [|apply IH; by do 3 right]. split; [done|]. split.
  - intros ->. apply publish_packet_head in Heqo. by destruct Heqo.
  - intros _. exists current, filters, filter, index, r, past. by rewrite Heqb.
Qed.

Lemma replay_obeys info filters listed : listed ⊆ filters -> forall past,
  Did (Locked (SubscribeCommit (ci_connection_id info) filters)) true ∈ past ->
  obeys past (replay_retained (ci_connection_id info) listed) (fun _ _ => True).
Proof.
  induction listed as [|filter listed IH]; intros Hl past Hc; cbn [replay_retained]; [by walk|].
  eapply obeys_use; [eapply (obeys_keeps (fun past => Did (Locked (SubscribeCommit (ci_connection_id info) filters)) true ∈ past));
    [by right|exact Hc|apply (replay_filter_obeys info filters); [set_solver|done]]|].
  intros past' admitted [Hc' _]. walk; [|by walk]. apply IH; [set_solver|done].
Qed.

Lemma subscribe_obeys packet past : obeys past (argus_mqtt_handle_subscribe packet) (fun _ _ => True).
Proof.
  unfold argus_mqtt_handle_subscribe. walk. walk; [by walk|].
  destruct (subscribe_request packet) as [err|[packet_id filters]] eqn:Hrq; [by walk|].
  apply subscribe_request_room in Hrq as [Hne Hroom]. unfold locked. apply obeys_call; [by split|].
  intros [asked|]; [|by walk]. eapply obeys_use; [apply filters_obeys; by left|]. intros past1 allowed Hp.
  walk; [by apply reply_obeys|]. apply negb_false_iff in Heqb0. specialize (Hp Heqb0).
  apply obeys_call; [by split|]. intros [info|]; [|by walk]. apply obeys_call; [by split|]. intros err.
  walk; [by walk|]. destruct err; try done. apply obeys_call.
  { split; [done|]. exists asked, info, past1. destruct Hp. by repeat split. }
  intros capacity. walk; [by walk|]. apply negb_false_iff in Heqb2. subst. walk. walk; [by walk|].
  eapply obeys_use; [apply (replay_obeys info filters); [done|by right; left]|]. by intros; walk.
Qed.

Lemma dispatch_obeys on_message fixed_header packet past :
  obeys past (dispatch_packet on_message fixed_header packet)
    (fun past r => if r.1.2 then connected past /\ r.2 = None else to_pass_on past r.2).
Proof.
  unfold dispatch_packet. walk; [|walk; [|walk; [|walk]]].
  - eapply (obeys_use _ _ _ (fun past err => is_ok err = true -> connected past)); [walk; [apply connect_obeys|by walk]|].
    intros past' err Hc. walk. cbn. destruct (is_ok err); auto.
  - eapply obeys_use; [apply publish_obeys|]. intros past' [err message] Hm. by walk.
  - eapply obeys_use; [apply subscribe_obeys|]. intros past' err _. by walk.
  - walk. by walk.
  - by walk.
Qed.

Lemma handle_obeys on_message on_client_event fixed_header packet past :
  obeys past (handle_packet on_message on_client_event fixed_header packet) (fun _ _ => True).
Proof.
  unfold handle_packet. eapply obeys_use; [apply (obeys_free _ _ (fun _ _ => True)); [apply gate_free|done]|].
  intros past1 err _. walk; [by walk|].
  eapply (obeys_use _ _ _ (fun past r => if r.1.2 : bool then connected past /\ r.2 = None else to_pass_on past r.2)).
  { walk; [apply dispatch_obeys|by walk]. }
  intros past2 [[err' notify] message] Hr. cbn in Hr.
  destruct notify.
  - destruct Hr as [Hc ->]. eapply obeys_use; [by apply announce_obeys|]. intros past3 [] _. eapply obeys_use; [by apply pass_on_obeys|].
    intros past4 [] _. by walk.
  - apply obeys_bind. cbn [andb announce negb obeys mret prog_mret].
    eapply obeys_use; [by apply pass_on_obeys|]. intros past4 [] _. by walk.
Qed.

Lemma round_obeys on_message on_client_event past : obeys past (client_round on_message on_client_event) (fun _ _ => True).
Proof.
  unfold client_round. walk. walk; [apply obeys_free; [apply idle_free|done]|by walk|]. walk; [by walk|]. walk. walk.
  eapply obeys_use; [apply (obeys_free _ _ (fun _ _ => True)); [apply receive_free|done]|]. intros past1 packet _.
  walk; [apply handle_obeys|by walk].
Qed.

Lemma task_obeys on_message on_client_event rounds waits past :
  obeys past (argus_mqtt_client_task on_message on_client_event rounds waits) (fun _ _ => True).
Proof.
  assert (Hl : forall rounds past, obeys past (client_loop on_message on_client_event rounds) (fun _ _ => True)).
  { clear. intros n. induction n as [|n IH]; intros past; cbn [client_loop]; [by walk|].
    eapply obeys_use; [apply round_obeys|]. intros past' go_on _. walk; [apply IH|by walk]. }
  unfold argus_mqtt_client_task. walk. walk. eapply obeys_use; [apply Hl|]. intros past' running _. walk; [by walk|].
  apply obeys_free; [apply close_free|done].
Qed.

(** ** The gates *)

Lemma task_due on_message on_client_event rounds waits t over t1 v t2 :
  trace_of (argus_mqtt_client_task on_message on_client_event rounds waits) t over -> t = t1 ++ v :: t2 -> due (dv_call v) (reverse t1).
Proof.
  intros Ht He. pose proof (obeys_trace _ [] _ t over (task_obeys on_message on_client_event rounds waits []) Ht t1 v t2 He) as Hd.
  by rewrite app_nil_r in Hd.
Qed.

(** C14: whatever a client's socket, the clock and the callbacks answer and whatever the other
    tasks do, its task keeps the gates of a publication.  It hands a message to the
    application only after, in this order: the connection was admitted, the machine was valid
    in the directory, the connection admitted again, the publication authorized, admitted
    again; then either the policy refused it, and the message says so, or the policy passed
    it, the same machine was valid once more, the retained store took it when it asked for
    that, its subscribers were collected under the lock - and in both cases the
    connection is admitted in the very last call before.  Nothing is stored, and nothing sent
    to a subscriber, that did not pass the policy and the second validation; and the message
    carries the identity the broker holds for the connection, not one the packet names. *)
Theorem publications_pass_the_gates on_message on_client_event rounds waits t over t1 v t2 :
  trace_of (argus_mqtt_client_task on_message on_client_event rounds waits) t over -> t = t1 ++ v :: t2 ->
  publication_due (dv_call v) (reverse t1).
Proof. intros Ht He. apply (task_due on_message on_client_event rounds waits t over t1 v t2 Ht He). Qed.

(** Nor does a session open without its gates.  CONNACK 0 follows only the login of this
    record with the right credentials and the acceptance of the principal they stand for; the
    connection is announced only when it is still admitted after CONNACK was sent whole.
    Subscriptions, eight at most, are entered only when the policy passed every one of
    the filters for the connection, and the machine is valid in the last call before; and a
    retained message is replayed only for a filter that was entered, to a connection
    admitted in the very last call. *)
Theorem sessions_pass_the_gates on_message on_client_event rounds waits t over t1 v t2 :
  trace_of (argus_mqtt_client_task on_message on_client_event rounds waits) t over -> t = t1 ++ v :: t2 ->
  session_due (dv_call v) (reverse t1).
Proof. intros Ht He. apply (task_due on_message on_client_event rounds waits t over t1 v t2 Ht He). Qed.

(** ** The task among the others *)

(** A step of the execution: a call of the task, with its record as the call found it, or
    a critical section of another task, which may change the retained messages too. *)
Inductive label :=
| Own (v : client_event) (c : argus_mqtt_client_t)
| Other (ev : broker_event) (retained : list argus_mqtt_retained_t).

(** The section is another record's, or of no record. *)
Definition of_others (i : nat) (ev : broker_event) : Prop :=
  match ev with
  | EvBegin j _ | EvBind j _ _ | EvSubscribe j _ _ | EvClose j | EvActivity j _ | EvDrop j => j <> i
  | _ => True
  end.

(** The answers a call of the task of record [i] may get, and the memory it leaves: the
    critical sections are those of [enter], the rest leaves the memory alone. *)
Definition answered {X} (i : nat) (e : client_call X) (m : broker_memory) : X -> broker_memory -> Prop :=
  match e with
  | Locked s => fun x m' => enter i s m = (x, m')
  | _ => fun _ m' => m' = m
  end.

Definition record_of (i : nat) (m : broker_memory) : argus_mqtt_client_t := default zero_client (bk_clients (bm_broker m) !! i).

Inductive schedule (i : nat) {A} : client A * broker_memory -> list label -> client A * broker_memory -> Prop :=
| SchedNil c : schedule i c [] c
| SchedOwn X (e : client_call X) k m x m' ls c' : answered i e m x m' -> schedule i (k x, m') ls c' ->
    schedule i (Op e k, m) (Own (Did e x) (record_of i m) :: ls) c'
| SchedOther p m ev retained ls c' : of_others i ev ->
    schedule i (p, Memory (broker_step (bm_broker m) ev) retained) ls c' -> schedule i (p, m) (Other ev retained :: ls) c'.

(** The calls of the task. *)
Definition own : list label -> list client_event := omap (fun l => match l with Own v _ => Some v | Other _ _ => None end).

(** The event of the broker a critical section is. *)
Definition section_event (i : nat) {X} (s : section X) : list broker_event :=
  match s with
  | NoteActivity now => [EvActivity i now]
  | ConnectBegin request => [EvBegin i request]
  | ConnectBind principal now => [EvBind i principal now]
  | SubscribeCommit conn filters => [EvSubscribe i conn filters]
  | TryClose => [EvClose i]
  | _ => []
  end.

Definition label_events (i : nat) (l : label) : list broker_event :=
  match l with
  | Other ev _ => [ev]
  | Own v _ => match dv_call v with Locked s => section_event i s | _ => [] end
  end.

Definition events (i : nat) (ls : list label) : list broker_event := ls ≫= label_events i.

(** The connection was found admitted, under the lock. *)
Definition admits (v : client_event) : bool :=
  match dv_call v in client_call X return X -> bool with
  | Locked s =>
      match s in section X return X -> bool with
      | InfoIfAdmitted => fun info => bool_decide (is_Some info)
      | StillAdmitted _ => fun ok => ok
      | SubscribeCommit _ _ => fun ok => ok
      | StoreRetained _ _ _ => is_ok
      | CollectSubscribers _ _ => fun sockets => bool_decide (is_Some sockets)
      | _ => fun _ => false
      end
  | _ => fun _ => false
  end (dv_answer v).

Lemma enter_events i {X} (s : section X) m : bm_broker (enter i s m).2 = broker_run (bm_broker m) (section_event i s).
Proof.
  destruct s; cbn [enter section_event broker_run foldl broker_step]; try done;
    try (by destruct (connect_begin _ _ _)); try (by destruct (connect_bind _ _ _ _));
    try (by destruct (subscribe_commit _ _ _ _)); try (by destruct (argus_mqtt_close_client _ _)).
  destruct (argus_mqtt_client_admitted_locked _ _); [|done]. by destruct (argus_mqtt_store_retained_locked _ _ _).
Qed.

Lemma admitted_live c conn : argus_mqtt_client_admitted_locked c conn = true -> live c.
Proof. intros Ha. apply live_spec. unfold argus_mqtt_client_admitted_locked in Ha. rewrite !andb_true_iff, negb_true_iff in Ha. tauto. Qed.

Lemma subscribe_commit_live b i conn filters : (subscribe_commit b i conn filters).1 = true -> live (default zero_client (bk_clients b !! i)).
Proof.
  unfold subscribe_commit. destruct (bk_clients b !! i) as [c|]; [|done]. destruct (cl_session_slot c); [|done].
  destruct (bk_sessions b !! _); [|done]. destruct (_ && _) eqn:E; [|done]. apply andb_true_iff in E as [E _]. intros _. exact (admitted_live _ _ E).
Qed.

Lemma admits_live i {X} (e : client_call X) m x m' : answered i e m x m' -> admits (Did e x) = true -> live (record_of i m).
Proof.
  destruct e; cbn; try done. intros He. unfold record_of. set (c := default _ _) in *.
  destruct s; cbn in *; try done; try (injection He as <- <-); unfold argus_mqtt_client_info_if_admitted in *.
  - destruct (argus_mqtt_client_admitted_locked _ _) eqn:Ea; [intros _; exact (admitted_live _ _ Ea)|done].
  - intros Ha. exact (admitted_live _ _ Ha).
  - destruct (subscribe_commit _ _ _ _) as [ok b] eqn:Es. injection He as <- <-. intros ->.
    apply (subscribe_commit_live _ i connection_id filters). by rewrite Es.
  - destruct (argus_mqtt_client_admitted_locked _ _) eqn:Ea; [intros _; exact (admitted_live _ _ Ea)|]. by injection He as <- <-.
  - destruct (argus_mqtt_client_admitted_locked _ _) eqn:Ea; [intros _; exact (admitted_live _ _ Ea)|done].
Qed.

Section Schedules.
Context (i : nat) {A : Type}.
Implicit Types c : client A * broker_memory.

Lemma schedule_app l1 l2 c c' : schedule i c (l1 ++ l2) c' -> exists c1, schedule i c l1 c1 /\ schedule i c1 l2 c'.
Proof.
  revert c. induction l1 as [|l l1 IH]; intros c Hs; [exists c; split; [constructor|done]|].
  inversion Hs; subst; edestruct IH as (c1 & ? & ?); eauto using SchedOwn, SchedOther.
Qed.

Lemma schedule_join l1 l2 c c1 c' : schedule i c l1 c1 -> schedule i c1 l2 c' -> schedule i c (l1 ++ l2) c'.
Proof. induction 1; intros H2; [done| |]; cbn; eauto using SchedOwn, SchedOther. Qed.

Lemma schedule_run c ls c' : schedule i c ls c' -> bm_broker c'.2 = broker_run (bm_broker c.2) (events i ls).
Proof.
  induction 1 as [c|X e k m x m' ls c' Ha Hs IH|p m ev retained ls c' Ho Hs IH]; [done| |exact IH].
  rewrite IH. cbn [events mbind list_bind label_events dv_call snd]. unfold broker_run. rewrite foldl_app. f_equal.
  destruct e; cbn in Ha |- *; try (by subst). pose proof (enter_events i s m) as He. by rewrite Ha in He.
Qed.

Lemma schedule_begins c ls c' rq : schedule i c ls c' -> EvBegin i rq ∈ events i ls ->
  exists x record, Own (Did (Locked (ConnectBegin rq)) x) record ∈ ls.
Proof.
  induction 1 as [c|X e k m x m' ls c' Ha Hs IH|p m ev retained ls c' Ho Hs IH]; cbn [events mbind list_bind].
  - intros H. by apply elem_of_nil in H.
  - intros [Hi|Hi]%elem_of_app; [|destruct (IH Hi) as (y & r & ?); exists y, r; by right].
    destruct e; try by apply elem_of_nil in Hi. destruct s; try (by apply elem_of_nil in Hi); apply list_elem_of_singleton in Hi; try done.
    injection Hi as ->. eexists _, _. left.
  - intros [<-%list_elem_of_singleton|Hi]%elem_of_app; [done|destruct (IH Hi) as (y & r & ?); exists y, r; by right].
Qed.

Lemma events_length ls : (length (events i ls) <= length ls)%nat.
Proof.
  induction ls as [|l ls IH]; [done|]. unfold events in *. cbn [mbind list_bind length]. rewrite length_app.
  enough (length (label_events i l) <= 1)%nat by lia. destruct l as [[X e x] c|ev r]; [|done].
  destruct e; cbn; try lia. destruct s; cbn; lia.
Qed.

Lemma schedule_obeys c ls c' past post : schedule i c ls c' -> obeys past c.1 post -> obeys (reverse (own ls) ++ past) c'.1 post.
Proof.
  intros Hs. revert past. induction Hs as [c|X e k m x m' ls c' Ha Hs IH|p m ev retained ls c' Ho Hs IH]; intros past Hp; [done| |exact (IH past Hp)].
  destruct Hp as [_ Hp]. cbn [own omap list_omap]. fold (own ls). rewrite reverse_cons, <- app_assoc. exact (IH _ (Hp x)).
Qed.

(** A call of the task in a schedule, with what was before it. *)
Lemma schedule_at c l1 v record l2 c' : schedule i c (l1 ++ Own v record :: l2) c' ->
  exists X (e : client_call X) k m x m', schedule i c l1 (Op e k, m) /\ v = Did e x /\ answered i e m x m' /\ record = record_of i m.
Proof.
  intros (c1 & H1 & H2)%schedule_app. inversion H2 as [|X e k m x m' ls c2 Ha Hs|]; subst. by exists X, e, k, m, x, m'.
Qed.

(** An answer of the check of admission is the record itself. *)
Lemma schedule_stands c ls c' info record : schedule i c ls c' -> Own (stands info) record ∈ ls ->
  info = argus_mqtt_client_info_locked record.
Proof.
  intros Hs (l1 & l2 & ->)%list_elem_of_split. apply schedule_at in Hs as (X & e & k & m & x & m' & _ & He & Ha & ->).
  assert (Hi : answered i (dv_call (Did e x)) m (dv_answer (Did e x)) m') by exact Ha. rewrite <- He in Hi. cbn in Hi.
  unfold record_of, argus_mqtt_client_info_if_admitted in *. destruct (argus_mqtt_client_admitted_locked _ _); [|done]. by injection Hi as <- _.
Qed.
End Schedules.

(** C13: revocation reaches the task wherever it stands.  Take the task of any record, its
    calls interleaved in any way with the critical sections of the other tasks - accepts,
    logins, subscriptions, disconnections, connections dropped for want of a task and a stop of
    the broker among them - from any state the broker can be in since it was started, and a
    fence of a machine at any point of it that finds the record with its socket, which only a
    stop takes (see retired_escapes_fence), with no login of this record begun after that (for
    schedules shorter than 2^64 - 2 steps).  From then
    on the lock never finds the record admitted for that machine: every check of admission,
    storing of a retained message, collection of subscribers and entry of subscriptions
    that succeeds is another machine's.  So of all the messages the task still hands to the
    application only one can be of the fenced machine's connection: one whose last check was the
    very last call before the fence. *)
Theorem fence_silences_the_task next evs i retained on_message on_client_event rounds waits l1 p m0 id r l2 c' :
  identifier_valid id = true -> Z.of_nat (length evs + length l1 + length l2) < 18446744073709551614 ->
  schedule i (argus_mqtt_client_task on_message on_client_event rounds waits, Memory (broker_run (broker_reset next) evs) retained)
    l1 (p, m0) ->
  sock_ok (record_of i m0) ->
  schedule i (p, m0) (Other (EvFence id) r :: l2) c' ->
  (forall request x c, Own (Did (Locked (ConnectBegin request)) x) c ∉ l2) ->
  (forall v c, Own v c ∈ l2 -> admits v = true -> mp_identifier (cl_principal c) <> id) /\
  (forall l3 m c l4, l2 = l3 ++ Own (Did (OnMessage m) tt) c :: l4 -> own l3 <> [] ->
     exists info, stands info ∈ own l3 /\ ci_connection_id info = msg_connection_id m /\ mp_identifier (ci_principal info) <> id).
Proof.
  intros Hid Hlt H1 Hsock H2 Hnb. pose proof (schedule_run i _ _ _ H1) as Hr1. cbn [snd bm_broker] in Hr1.
  assert (E : broker_run (broker_reset next) (evs ++ events i l1) = bm_broker m0) by (rewrite Hr1; unfold broker_run; by rewrite foldl_app).
  assert (Hfinal : forall v c, Own v c ∈ l2 -> admits v = true -> mp_identifier (cl_principal c) <> id).
  { intros v c (l3 & l4 & ->)%list_elem_of_split Hv. pose proof H2 as Hs. rewrite app_comm_cons in Hs.
    apply schedule_at in Hs as (X & e & k & m & x & m' & Hs & -> & Ha & ->).
    pose proof (admits_live i e m x m' Ha Hv) as Hl. pose proof (schedule_run i _ _ _ Hs) as Hr. cbn [snd bm_broker] in Hr.
    unfold record_of in *. destruct (bk_clients (bm_broker m) !! i) as [c|] eqn:Hc; cbn [default] in *; [|done].
    inversion Hs as [| |q m2 ev r2 ls c3 _ H3]; subst. rewrite Hr, Hr1 in Hc. unfold broker_run in Hc. rewrite <- !foldl_app in Hc.
    fold broker_run in Hc. change (events i (Other (EvFence id) r :: l3)) with (EvFence id :: events i l3) in Hc.
    apply (fence_is_final next (evs ++ events i l1) id (events i l3) i c); try done.
    - intros d Hd. rewrite E in Hd. by rewrite Hd in Hsock.
    - pose proof (events_length i l1). pose proof (events_length i l3). rewrite !length_app in *. cbn [length] in Hlt. lia.
    - intros rq Hin. destruct (schedule_begins i _ _ _ rq H3 Hin) as (x' & rc & Hin'). apply (Hnb rq x' rc).
      apply elem_of_app. by left.
    - by rewrite <- app_assoc. }
  split; [exact Hfinal|]. intros l3 m c l4 -> Hne. pose proof (schedule_join i _ _ _ _ _ H1 H2) as Hs. rewrite app_comm_cons, app_assoc in Hs.
  pose proof Hs as Hs0. apply schedule_at in Hs0 as (X & e & k & m1 & x & m' & Hs0 & He & _ & _).
  pose proof (schedule_obeys i _ _ _ [] _ Hs0 (task_obeys on_message on_client_event rounds waits [])) as [[Hd _] _].
  rewrite app_nil_r in Hd. assert (Hdue : publication_due (OnMessage m) (reverse (own (l1 ++ Other (EvFence id) r :: l3)))).
  { change (publication_due (dv_call (Did (OnMessage m) tt)) (reverse (own (l1 ++ Other (EvFence id) r :: l3)))). by rewrite He. }
  destruct Hdue as (info & past' & Hp & Hci & _). exists info.
  assert (Hin : stands info ∈ own l3).
  { unfold own in Hp. rewrite omap_app in Hp. cbn [omap list_omap] in Hp. fold (own l1) (own l3) in Hp.
    destruct (own l3) as [|v l _] using rev_ind; [done|]. rewrite app_assoc, reverse_snoc in Hp. injection Hp as <- _.
    apply elem_of_app. right. by apply list_elem_of_singleton. }
  split; [exact Hin|]. split; [exact Hci|].
  apply list_elem_of_omap in Hin as ([v rc|] & Hin & Hv); [|done]. injection Hv as ->.
  assert (Hin' : Own (stands info) rc ∈ l3 ++ Own (Did (OnMessage m) tt) c :: l4) by (apply elem_of_app; by left).
  rewrite (schedule_stands i _ _ _ info rc Hs0) by (apply elem_of_app; right; by right).
  exact (Hfinal _ rc Hin' eq_refl).
Qed.

(** ** A session *)

(** A peer whose input is [inputs], and callbacks that let everything pass for [principal]. *)
Definition demo_answer (principal : argus_machine_principal_t) (i : nat) {X} (e : client_call X) (inputs : list received) (m : broker_memory)
    : X * list received * broker_memory :=
  match e in client_call X return X * list received * broker_memory with
  | Recv _ => (default Gone (head inputs), tail inputs, m)
  | Send data | SendTo _ data => (Z.of_nat (length data), inputs, m)
  | CloseSocket _ | OnMessage _ | OnConnected _ | OnDisconnected _ | SignalClientsExited | Tick => (tt, inputs, m)
  | Clock => (0, inputs, m)
  | Alloc => (true, inputs, m)
  | Authenticate _ => (ARGUS_MACHINE_AUTH_SUCCESS, principal, inputs, m)
  | Revalidate _ | SubscribePolicy _ _ | PublishAuthorize _ | PolicyCheck _ => (ESP_OK, inputs, m)
  | CountDown => (1, inputs, m)
  | Locked s => let '(x, m) := enter i s m in (x, inputs, m)
  end.

(** The session of record [i], with a fence of [id] before the call number [fence]. *)
Fixpoint demo_drive (principal : argus_machine_principal_t) (i : nat) (id : bytes) {A} (p : client A) (fence : option nat)
    (inputs : list received) (m : broker_memory) : list label * (client A * broker_memory) :=
  match p with
  | Ret a => ([], (Ret a, m))
  | Op e k =>
      let '(fenced, m) :=
        match fence with
        | Some O => ([Other (EvFence id) (bm_retained m)], Memory (broker_step (bm_broker m) (EvFence id)) (bm_retained m))
        | _ => ([], m)
        end in
      let '(x, inputs, m') := demo_answer principal i e inputs m in
      let '(ls, c) := demo_drive principal i id (k x) (match fence with Some (S n) => Some n | _ => None end) inputs m' in
      (fenced ++ Own (Did e x) (record_of i m) :: ls, c)
  end.

Lemma demo_answered principal i {X} (e : client_call X) inputs m :
  answered i e m (demo_answer principal i e inputs m).1.1 (demo_answer principal i e inputs m).2.
Proof. destruct e; try done. cbn. by destruct (enter i s m). Qed.

Lemma demo_schedule principal i id {A} (p : client A) : forall fence inputs m,
  schedule i (p, m) (demo_drive principal i id p fence inputs m).1 (demo_drive principal i id p fence inputs m).2.
Proof.
  induction p as [a|X e k IH]; intros fence inputs m; [constructor|]. cbn [demo_drive].
  assert (Hop : forall n inputs m, let '(x, inputs', m') := demo_answer principal i e inputs m in
    let '(ls, c) := demo_drive principal i id (k x) n inputs' m' in schedule i (Op e k, m) (Own (Did e x) (record_of i m) :: ls) c).
  { intros n inputs' m1. pose proof (demo_answered principal i e inputs' m1) as Ha.
    destruct (demo_answer principal i e inputs' m1) as [[x inputs2] m2]. specialize (IH x n inputs2 m2).
    destruct (demo_drive principal i id (k x) n inputs2 m2) as [ls c]. exact (SchedOwn i X e k m1 x m2 ls c Ha IH). }
  destruct fence as [[|n]|].
  - set (m1 := Memory _ (bm_retained m)). specialize (Hop None inputs m1).
    destruct (demo_answer principal i e inputs m1) as [[x inputs2] m2]. destruct (demo_drive principal i id (k x) _ inputs2 m2) as [ls c].
    by apply SchedOther.
  - specialize (Hop (Some n) inputs m).
    destruct (demo_answer principal i e inputs m) as [[x inputs2] m2]. by destruct (demo_drive principal i id (k x) _ inputs2 m2) as [ls c].
  - specialize (Hop None inputs m).
    destruct (demo_answer principal i e inputs m) as [[x inputs2] m2]. by destruct (demo_drive principal i id (k x) _ inputs2 m2) as [ls c].
Qed.

Lemma schedule_trace i {A} (p : client A) m ls a m' : schedule i (p, m) ls (Ret a, m') -> trace_of p (own ls) a.
Proof.
  remember (p, m) as c. remember (Ret a, m') as c'. intros Hs. revert p m Heqc.
  induction Hs as [c|X e k m x m1 ls c' Ha Hs IH|p m ev retained ls c' Ho Hs IH]; intros p0 m0 Heqc; simplify_eq.
  - constructor.
  - cbn. constructor. by eapply IH.
  - cbn. by eapply IH.
Qed.

Definition demo_packet (header : Z) (body : bytes) : list received := [Arrived [header]; Arrived [Z.of_nat (length body)]; Arrived body].
Definition demo_text (s : bytes) : bytes := 0 :: Z.of_nat (length s) :: s.

(** CONNECT, SUBSCRIBE to a topic, and a retained PUBLISH on it. *)
Definition demo_inputs : list received :=
  demo_packet 16 (demo_text (str "MQTT") ++ [4; 194; 0; 60] ++ demo_text (str "m-1") ++ demo_text (str "m-1") ++ demo_text (str "secret"))
  ++ demo_packet 130 ([0; 1] ++ demo_text (str "t") ++ [0])
  ++ demo_packet 49 (demo_text (str "t") ++ str "v").

Definition demo_memory : broker_memory :=
  Memory (broker_run (broker_reset 0) [EvAccept 3 1 0 (fun _ => false)]) (replicate ARGUS_MQTT_MAX_RETAINED (Retained false [] [])).

Definition demo_session (fence : option nat) : list label * (client bool * broker_memory) :=
  demo_drive (demo_principal (str "m-1")) 0 (str "m-2") (argus_mqtt_client_task true true 9 0) fence demo_inputs demo_memory.

(** The call number [n] of the undisturbed session. *)
Definition demo_event (n : nat) : client_event := default (Did Tick tt) (own (demo_session None).1 !! n).

Lemma demo_trace : trace_of (argus_mqtt_client_task true true 9 0) (own (demo_session None).1) true.
Proof.
  refine (schedule_trace 0 _ _ _ true (demo_session None).2.2 _). pose proof (demo_schedule (demo_principal (str "m-1")) 0 (str "m-2")
    (argus_mqtt_client_task true true 9 0) None demo_inputs demo_memory) as Hs.
  replace (Ret true, (demo_session None).2.2) with (demo_session None).2; [exact Hs|]. by vm_compute.
Qed.

Lemma demo_split n : (n < 99)%nat -> own (demo_session None).1 = take n (own (demo_session None).1) ++ demo_event n :: drop (S n) (own (demo_session None).1).
Proof.
  intros Hn. symmetry. apply take_drop_middle. unfold demo_event.
  destruct (lookup_lt_is_Some_2 (own (demo_session None).1) n) as [v Hv]; [|by rewrite Hv].
  enough (length (own (demo_session None).1) = 99%nat) by lia. by vm_compute.
Qed.

Lemma publications_pass_the_gates_witness :
  exists m, demo_event 92 = Did (OnMessage m) tt /\ msg_retain m = true /\ msg_payload m = str "v" /\
    publication_due (dv_call (demo_event 92)) (reverse (take 92 (own (demo_session None).1))).
Proof.
  eexists. split; [by vm_compute|]. do 2 (split; [reflexivity|]).
  apply (publications_pass_the_gates true true 9 0 (own (demo_session None).1) true _ (demo_event 92) (drop 93 (own (demo_session None).1))).
  - exact demo_trace.
  - apply demo_split. lia.
Defined.

Lemma sessions_pass_the_gates_witness :
  demo_event 29 = Did (Locked (SubscribeCommit 1 [str "t"])) true /\
  session_due (dv_call (demo_event 29)) (reverse (take 29 (own (demo_session None).1))).
Proof.
  split; [by vm_compute|].
  apply (sessions_pass_the_gates true true 9 0 (own (demo_session None).1) true _ (demo_event 29) (drop 30 (own (demo_session None).1))).
  - exact demo_trace.
  - apply demo_split. lia.
Defined.

Definition is_begin (l : label) : bool :=
  match l with Own v _ => match dv_call v with Locked (ConnectBegin _) => true | _ => false end | Other _ _ => false end.

Lemma no_begins ls : forallb (negb ∘ is_begin) ls = true -> forall request x c, Own (Did (Locked (ConnectBegin request)) x) c ∉ ls.
Proof. intros Hf request x c Hin. rewrite forallb_forall in Hf. by specialize (Hf _ (proj1 (list_elem_of_In _ _) Hin)). Qed.

(** Another machine is fenced in the middle of the session: the message still goes out, on a
    check made after the fence. *)
Lemma fence_silences_the_task_witness :
  let ls := (demo_session (Some 40%nat)).1 in
  exists l3 m c l4, drop 41 ls = l3 ++ Own (Did (OnMessage m) tt) c :: l4 /\
    exists info, stands info ∈ own l3 /\ ci_connection_id info = msg_connection_id m /\ mp_identifier (ci_principal info) <> str "m-2".
Proof.
  intros ls. exists (take 52 (drop 41 ls)). eexists _, _, (drop 53 (drop 41 ls)).
  assert (Hl : ls = take 40 ls ++ Other (EvFence (str "m-2")) (replicate ARGUS_MQTT_MAX_RETAINED (Retained false [] [])) :: drop 41 ls)
    by by vm_compute.
  match goal with |- ?P /\ _ => assert (Hsplit : P) by by vm_compute end. split; [exact Hsplit|].
  assert (Hs : schedule 0 (argus_mqtt_client_task true true 9 0, demo_memory)
      (take 40 ls ++ Other (EvFence (str "m-2")) (replicate ARGUS_MQTT_MAX_RETAINED (Retained false [] [])) :: drop 41 ls)
      (demo_session (Some 40%nat)).2).
  { rewrite <- Hl. exact (demo_schedule (demo_principal (str "m-1")) 0 (str "m-2")
      (argus_mqtt_client_task true true 9 0) (Some 40%nat) demo_inputs demo_memory). }
  apply schedule_app in Hs as ([p m0] & H1 & H2).
  refine (proj2 (fence_silences_the_task 0 [EvAccept 3 1 0 (fun _ => false)] 0
    (replicate ARGUS_MQTT_MAX_RETAINED (Retained false [] [])) true true 9 0 (take 40 ls) p m0 (str "m-2") _ (drop 41 ls) (demo_session (Some 40%nat)).2 _ _ H1 _ H2 _) _ _ _ _ Hsplit _).
  - by vm_compute.
  - by vm_compute.
  - unfold record_of. pose proof (schedule_run 0 _ _ _ H1) as Hr. cbn [snd] in Hr. rewrite Hr.
    enough (He : option_map (fun c => bool_decide (0 <= cl_sock c)) (bk_clients (broker_run (bm_broker demo_memory) (events 0 (take 40 ls))) !! 0%nat) = Some true).
    { destruct (_ !! 0%nat) as [c1|]; [|done]. injection He as He. intros _. by apply bool_decide_eq_true in He. }
    by vm_compute.
  - apply no_begins. by vm_compute.
  - by vm_compute.
Defined.

(** The fence of the machine itself, at the same point: its message does not. *)
Example own_fence_silences :
  existsb (fun v => match dv_call v with OnMessage _ | SendTo _ _ => true | _ => false end)
    (own (demo_drive (demo_principal (str "m-1")) 0 (str "m-1") (argus_mqtt_client_task true true 9 0) (Some 40%nat) demo_inputs demo_memory).1)
  = false.
Proof. by vm_compute. Qed.
