(* ===== verification/MachineAdmin.v ===== *)
(** * Machine administration

    The enrolment half of [src/main/argus_machine_service.c]: who may manage machines,
    the credentials, and the operations that read a snapshot of the machine directory,
    change one record and submit the result for a commit that fails if the directory has
    moved on.  The random bytes and the derivation of a verifier are arguments. *)

From S2P Require Import Prelude Storage DualSlot Authorization SecurityRecords MachineDirectory MqttWire MqttBroker MachineAuth.

Definition ARGUS_MACHINE_ID_LENGTH : nat := 32.
Definition ARGUS_MACHINE_SECRET_BYTES : nat := 32.

(** ** Requests *)

Record argus_machine_enrollment_request_t := EnrollmentRequest {
  er_display_name : bytes;
  er_client_type : Z;
  er_allowed_transports : Z;
  er_allowed_interfaces : Z;
  er_scope : bytes;
  er_topic_scope : bytes;
  er_api_scope : bytes;
  er_permissions : Z
}.

(** A credential that is shown once. *)
Record argus_machine_credential_once_t := CredentialOnce {
  co_identifier : bytes;
  co_secret : bytes;
  co_credential_version : Z;
  co_principal_revision : Z
}.

Definition zero_credential : argus_machine_credential_once_t := CredentialOnce [] [] 0 0.

Definition enrollment_request_valid (r : argus_machine_enrollment_request_t) : bool :=
  bounded_text (Some (er_display_name r)) 49 false
  && (ARGUS_MACHINE_CLIENT_HMI <=? er_client_type r) && (er_client_type r <=? ARGUS_MACHINE_CLIENT_TYPE_MAX)
  && negb (er_allowed_transports r =? 0)
  && subset (er_allowed_transports r) ARGUS_MACHINE_TRANSPORT_DEFINED_MASK
  && negb (er_allowed_interfaces r =? 0)
  && subset (er_allowed_interfaces r) ARGUS_MACHINE_INTERFACE_DEFINED_MASK
  && argus_security_machine_scope_valid (er_scope r) 37
  && bounded_text (Some (er_topic_scope r)) 97 false
  && negb (existsb (fun c => (c =? 43) || (c =? 35)) (er_topic_scope r))
  && bounded_text (Some (er_api_scope r)) 65 true
  && subset (er_permissions r) ARGUS_PERMISSION_DEFINED_MASK.

(** What no machine may be given. *)
Definition administrative : Z :=
  fold_right Z.lor 0
    [ARGUS_PERMISSION_MANAGE_USERS; ARGUS_PERMISSION_MANAGE_ROLES; ARGUS_PERMISSION_MANAGE_CLIENT_ADMINS;
     ARGUS_PERMISSION_ENROLL_MACHINES; ARGUS_PERMISSION_REVOKE_MACHINES; ARGUS_PERMISSION_VIEW_AUDIT;
     ARGUS_PERMISSION_MANAGE_NETWORK; ARGUS_PERMISSION_CHANGE_AP_SECRET; ARGUS_PERMISSION_MANAGE_CLIENT_NETWORK;
     ARGUS_PERMISSION_MANAGE_MQTT; ARGUS_PERMISSION_MODIFY_IDENTITY; ARGUS_PERMISSION_MODIFY_PROTECTED_CONFIG;
     ARGUS_PERMISSION_COMMISSION; ARGUS_PERMISSION_CALIBRATE; ARGUS_PERMISSION_MANAGE_FIRMWARE;
     ARGUS_PERMISSION_INVOKE_RECOVERY; ARGUS_PERMISSION_FULL_SECURITY_RESET].

Definition allows (r : argus_authorization_result_t) : bool :=
  match r with ARGUS_AUTHZ_ALLOW => true | _ => false end.

Definition actor_can_manage (actor : option argus_principal_t) (required : Z) (scope : bytes) (requested : Z) : bool :=
  match actor with
  | None => false
  | Some a =>
      argus_authorization_principal_valid actor
      && allows (argus_authorization_require actor required)
      && argus_machine_service_scope_contains (Some (pr_scope a)) (Some scope)
      && subset requested (pr_delegable_permissions a)
      && (Z.land requested administrative =? 0)
  end.

Definition argus_machine_service_enrollment_allowed (actor : option argus_principal_t)
    (request : argus_machine_enrollment_request_t) : bool :=
  enrollment_request_valid request
  && actor_can_manage actor ARGUS_PERMISSION_ENROLL_MACHINES (er_scope request) (er_permissions request).

(** ** Credentials *)

Definition hex_digit (n : Z) : Z := if n <? 10 then 48 + n else 87 + n.

(** From fifteen random bytes. *)
Definition random_identifier (random : bytes) : bytes :=
  109 :: 45 :: flat_map (fun b => [hex_digit (Z.shiftr b 4); hex_digit (Z.land b 15)]) (take 15 random).

Definition alphabet (n : Z) : Z :=
  if n <? 26 then 65 + n
  else if n <? 52 then 97 + (n - 26)
  else if n <? 62 then 48 + (n - 52)
  else if n =? 62 then 45 else 95.

Definition sextet (value shift : Z) : Z := alphabet (Z.land (Z.shiftr value shift) 63).

(** Three bytes give four characters, the two that remain give three. *)
Fixpoint base64url_secret (input : bytes) : bytes :=
  match input with
  | a :: b :: c :: l =>
      let value := Z.lor (Z.lor (Z.shiftl a 16) (Z.shiftl b 8)) c in
      sextet value 18 :: sextet value 12 :: sextet value 6 :: sextet value 0 :: base64url_secret l
  | [a; b] =>
      let value := Z.lor (Z.shiftl a 16) (Z.shiftl b 8) in
      [sextet value 18; sextet value 12; sextet value 6]
  | _ => []
  end.

Section Service.

(** [argus_password_verifier_create] with the default number of iterations. *)
Variable verifier_create : bytes -> esp_err_t * argus_password_verifier_t.

(** From thirty-two random bytes; [inl] is the error. *)
Definition generate_credential (random : bytes) : esp_err_t + bytes * argus_password_verifier_t :=
  let secret := base64url_secret random in
  let '(err, verifier) := verifier_create secret in
  if is_ok err then inr (secret, verifier) else inl err.

(** What an operation makes of a snapshot: its answer, or the payload to commit with what
    it returns once the commit has succeeded. *)
Definition update_of (R : Type) : Type := esp_err_t + argus_machine_directory_payload_t * R.

Definition identifier_taken (p : argus_machine_directory_payload_t) (identifier : bytes) : bool :=
  existsb (fun i => bool_decide (identifier = mr_identifier (machine_at p i)))
    (seq 0 (Z.to_nat (mp_machine_count p))).

(** The attempts to find a new identifier. *)
Definition unique_identifier (p : argus_machine_directory_payload_t) (randoms : list bytes) : option bytes :=
  find (fun identifier => negb (identifier_taken p identifier)) (random_identifier <$> take 8 randoms).

Definition set_machine (p : argus_machine_directory_payload_t) (i : nat) (r : argus_security_machine_record_t)
    : argus_machine_directory_payload_t := p <| mp_machines ::= fun l => <[i := r]> l |>.

Definition argus_machine_service_enroll (initialized : bool) (actor : option argus_principal_t)
    (request : argus_machine_enrollment_request_t) (randoms : list bytes) (secret_random : bytes)
    (d : machine_directory) : update_of argus_machine_credential_once_t :=
  if negb initialized || negb (argus_machine_service_enrollment_allowed actor request) then inl ESP_ERR_NOT_ALLOWED
  else
    match argus_machine_directory_get_snapshot d with
    | inl e => inl e
    | inr (p, generation) =>
        if ARGUS_SECURITY_MAX_MACHINES <=? mp_machine_count p then inl ESP_ERR_NO_MEM
        else
          match unique_identifier p randoms with
          | None => inl ESP_ERR_INVALID_STATE
          | Some identifier =>
              match generate_credential secret_random with
              | inl e => inl e
              | inr (secret, verifier) =>
                  let record := MachineRecord ARGUS_SECURITY_RECORD_VERSION 1 (u8 (er_client_type request))
                    (er_allowed_transports request) 0 (er_allowed_interfaces request) 0
                    (strlcpy identifier 37) (strlcpy (er_display_name request) 49) (strlcpy (er_scope request) 37)
                    (strlcpy (er_topic_scope request) 97) (strlcpy (er_api_scope request) 65)
                    (strlcpy (from_option pr_identifier [] actor) 37) (er_permissions request)
                    1 (u32 (generation + 1)) 1 verifier in
                  inr ((set_machine p (Z.to_nat (mp_machine_count p)) record)
                         <| mp_machine_count ::= fun n => u8 (n + 1) |>,
                       CredentialOnce (strlcpy (mr_identifier record) 37) secret 1 1)
              end
          end
    end.

(** The snapshot, its generation and the index of the record. *)
Definition mutable_target (initialized : bool) (actor : option argus_principal_t) (identifier : bytes)
    (required : Z) (d : machine_directory) : esp_err_t + argus_machine_directory_payload_t * Z * nat :=
  if negb initialized || negb (argus_authorization_principal_valid actor)
     || negb (allows (argus_authorization_require actor required)) then inl ESP_ERR_NOT_ALLOWED
  else
    match argus_machine_directory_get_snapshot d with
    | inl e => inl e
    | inr (p, generation) =>
        match find (fun i => bool_decide (identifier = mr_identifier (machine_at p i)))
                (seq 0 (Z.to_nat (mp_machine_count p))) with
        | None => inl ESP_ERR_NOT_FOUND
        | Some i =>
            if negb (argus_machine_service_scope_contains (pr_scope <$> actor) (Some (mr_scope (machine_at p i))))
            then inl ESP_ERR_NOT_ALLOWED else inr (p, generation, i)
        end
    end.

(** The end of every change: a new revision, and the epoch of the next generation. *)
Definition touch (generation : Z) (r : argus_security_machine_record_t) : argus_security_machine_record_t :=
  r <| mr_principal_revision ::= nonzero_succ |> <| mr_record_security_epoch := u32 (generation + 1) |>.

Definition argus_machine_service_rotate (initialized : bool) (actor : option argus_principal_t) (identifier : bytes)
    (secret_random : bytes) (d : machine_directory) : update_of argus_machine_credential_once_t :=
  match mutable_target initialized actor identifier ARGUS_PERMISSION_ENROLL_MACHINES d with
  | inl e => inl e
  | inr (p, generation, i) =>
      match generate_credential secret_random with
      | inl e => inl e
      | inr (secret, verifier) =>
          let record := touch generation ((machine_at p i) <| mr_verifier := verifier |>
                                                           <| mr_credential_version ::= nonzero_succ |>) in
          inr (set_machine p i record,
               CredentialOnce (strlcpy (mr_identifier record) 37) secret (mr_credential_version record)
                 (mr_principal_revision record))
      end
  end.

Definition argus_machine_service_set_enabled (initialized : bool) (actor : option argus_principal_t)
    (identifier : bytes) (enabled : bool) (d : machine_directory) : update_of unit :=
  match mutable_target initialized actor identifier ARGUS_PERMISSION_REVOKE_MACHINES d with
  | inl e => inl e
  | inr (p, generation, i) =>
      let record := machine_at p i in
      if enabled && negb (mr_revoked record =? 0) then inl ESP_ERR_INVALID_STATE
      else inr (set_machine p i (touch generation (record <| mr_enabled := if enabled then 1 else 0 |>)), tt)
  end.

(** It returns the permissions the record had. *)
Definition argus_machine_service_set_permissions (initialized : bool) (actor : option argus_principal_t)
    (identifier : bytes) (permissions : Z) (d : machine_directory) : update_of Z :=
  if negb (subset permissions ARGUS_PERMISSION_DEFINED_MASK) then inl ESP_ERR_INVALID_ARG
  else
    match mutable_target initialized actor identifier ARGUS_PERMISSION_ENROLL_MACHINES d with
    | inl e => inl e
    | inr (p, generation, i) =>
        let record := machine_at p i in
        if negb (actor_can_manage actor ARGUS_PERMISSION_ENROLL_MACHINES (mr_scope record) permissions)
        then inl ESP_ERR_NOT_ALLOWED
        else if negb (mr_revoked record =? 0) then inl ESP_ERR_INVALID_STATE
        else inr (set_machine p i (touch generation (record <| mr_permissions := permissions |>)),
                  mr_permissions record)
    end.

Definition argus_machine_service_revoke (initialized : bool) (actor : option argus_principal_t)
    (identifier : bytes) (d : machine_directory) : update_of unit :=
  match mutable_target initialized actor identifier ARGUS_PERMISSION_REVOKE_MACHINES d with
  | inl e => inl e
  | inr (p, generation, i) =>
      inr (set_machine p i (touch generation ((machine_at p i) <| mr_enabled := 0 |> <| mr_revoked := 1 |>
                                                               <| mr_credential_version ::= nonzero_succ |>)), tt)
  end.

Definition argus_machine_service_delete (initialized : bool) (actor : option argus_principal_t)
    (identifier : bytes) (d : machine_directory) : update_of unit :=
  match mutable_target initialized actor identifier ARGUS_PERMISSION_REVOKE_MACHINES d with
  | inl e => inl e
  | inr (p, generation, i) =>
      if mr_revoked (machine_at p i) =? 0 then inl ESP_ERR_INVALID_STATE
      else
        let last := Z.to_nat (mp_machine_count p - 1) in
        let p := if (i =? last)%nat then set_machine p i zero_machine
                 else set_machine (set_machine p i (machine_at p last)) last zero_machine in
        inr (p <| mp_machine_count ::= fun n => u8 (n - 1) |>, tt)
  end.

Definition argus_machine_service_quarantine_undisclosed (initialized : bool) (identifier : bytes)
    (d : machine_directory) : update_of unit :=
  if negb initialized then inl ESP_ERR_INVALID_ARG
  else
    match argus_machine_directory_get_snapshot d with
    | inl e => inl e
    | inr (p, generation) =>
        match find (fun i => bool_decide (identifier = mr_identifier (machine_at p i)))
                (seq 0 (Z.to_nat (mp_machine_count p))) with
        | None => inl ESP_ERR_NOT_FOUND
        | Some i => inr (set_machine p i (touch generation ((machine_at p i) <| mr_enabled := 0 |>)), tt)
        end
    end.

(** The end of each operation: the update prepared from the directory [snapshot] is
    committed to the directory as it is now. *)
Definition commit_update {R} (snapshot : machine_directory) (u : update_of R) (d : machine_directory)
    : prog (slot_op machine_slot) (esp_err_t * machine_directory * option R) :=
  match u with
  | inl e => mret (e, d, None)
  | inr (p, r) =>
      c ← argus_machine_directory_commit d p (md_generation snapshot);
      mret (c.1, c.2, if is_ok c.1 then Some r else None)
  end.
End Service.

(** ** Operations on the directory map *)

(** A directory that is ready and valid. *)
Definition directory_ok (d : machine_directory) : Prop :=
  machine_ready d = true /\ argus_machine_directory_payload_valid (md_payload d) = true
  /\ length (mp_machines (md_payload d)) = 16%nat /\ is_u8 (mp_machine_count (md_payload d)).

Abbreviation map_of d := (directory_map (md_payload d)).

Lemma count_bound p : argus_machine_directory_payload_valid p = true ->
  (Z.to_nat (mp_machine_count p) <= 16)%nat.
Proof.
  unfold argus_machine_directory_payload_valid, ARGUS_SECURITY_MAX_MACHINES. destruct (_ || _ : bool) eqn:H; [done|].
  b2p. lia.
Qed.

Lemma machine_at_set p i j r : (i < length (mp_machines p))%nat ->
  machine_at (set_machine p i r) j = if decide (i = j) then r else machine_at p j.
Proof.
  intros Hi. unfold machine_at, set_machine. cbn [mp_machines update eta eta_machine_payload].
  destruct (decide (i = j)) as [->|Hne]; [by rewrite list_lookup_insert_eq by done|by rewrite list_lookup_insert_ne].
Qed.

Lemma enrolled_set p i r : (i < length (mp_machines p))%nat ->
  enrolled (set_machine p i r) = <[i := r]> (enrolled p).
Proof.
  intros Hi. apply list_eq. intros j. unfold enrolled. change (mp_machine_count (set_machine p i r)) with (mp_machine_count p).
  set (n := Z.to_nat (mp_machine_count p)).
  destruct (decide (i = j)) as [->|Hne].
  - destruct (decide (j < n)%nat) as [Hj|Hj].
    + rewrite list_lookup_insert_eq by (by rewrite length_fmap, length_seq).
      rewrite list_lookup_fmap, lookup_seq_lt by done. cbn [fmap option_fmap option_map].
      by rewrite machine_at_set, decide_True.
    + rewrite !lookup_ge_None_2; [done|rewrite length_insert| ]; rewrite length_fmap, length_seq; lia.
  - rewrite list_lookup_insert_ne, !list_lookup_fmap by done. destruct (seq 0 n !! j) as [k|] eqn:E; [|done].
    apply lookup_seq in E as [-> _]. cbn [fmap option_fmap option_map].
    by rewrite machine_at_set, decide_False by done.
Qed.

(** The search of the operations is the lookup of the map. *)
Lemma target_lookup p identifier i : argus_machine_directory_payload_valid p = true ->
  find (fun i => bool_decide (identifier = mr_identifier (machine_at p i)))
    (seq 0 (Z.to_nat (mp_machine_count p))) = Some i ->
  (i < Z.to_nat (mp_machine_count p))%nat /\ mr_identifier (machine_at p i) = identifier
  /\ directory_map p !! identifier = Some (machine_at p i).
Proof.
  intros Hv H. apply find_some in H as [Hi Hb]. apply in_seq in Hi. b2p. split; [lia|]. split; [done|].
  apply directory_map_lookup; [done|]. exists i. split; [|done]. apply enrolled_lookup. split; [lia|done].
Qed.

(** Writing a record under its identifier is an insertion. *)
Lemma map_set_machine p i r : argus_machine_directory_payload_valid p = true ->
  length (mp_machines p) = 16%nat -> (i < Z.to_nat (mp_machine_count p))%nat ->
  mr_identifier r = mr_identifier (machine_at p i) ->
  argus_machine_directory_payload_valid (set_machine p i r) = true ->
  directory_map (set_machine p i r) = <[mr_identifier r := r]> (directory_map p).
Proof.
  intros Hv Hl Hi Hid Hv'. pose proof (count_bound p Hv). apply map_eq. intros k. apply option_eq. intros x.
  rewrite directory_map_lookup, lookup_insert_Some by done. rewrite directory_map_lookup by done.
  rewrite enrolled_set by lia.
  assert (Hlen : (i < length (enrolled p))%nat) by (unfold enrolled; by rewrite length_fmap, length_seq).
  assert (Hold : enrolled p !! i = Some (machine_at p i)) by (apply enrolled_lookup; done).
  split.
  - intros (j & Hj & <-). destruct (decide (i = j)) as [->|Hne].
    + rewrite list_lookup_insert_eq in Hj by done. injection Hj as <-. by left.
    + rewrite list_lookup_insert_ne in Hj by done. right. split; [|by exists j].
      rewrite Hid. intros E. pose proof (enrolled_identifiers_distinct p Hv) as Hnd.
      apply Hne. eapply (NoDup_lookup _ i j _ Hnd); rewrite list_lookup_fmap; [by rewrite Hold|by rewrite Hj, E].
  - intros [[<- ->]|[Hne (j & Hj & <-)]].
    + exists i. by rewrite list_lookup_insert_eq by done.
    + exists j. rewrite list_lookup_insert_ne; [done|]. intros ->. rewrite Hold in Hj. injection Hj as <-. by rewrite Hid in Hne.
Qed.

(** A new record at the end is an insertion. *)
Lemma map_append_machine p r : argus_machine_directory_payload_valid p = true ->
  length (mp_machines p) = 16%nat -> 0 <= mp_machine_count p < 16 ->
  identifier_taken p (mr_identifier r) = false ->
  let p' := (set_machine p (Z.to_nat (mp_machine_count p)) r) <| mp_machine_count ::= fun n => u8 (n + 1) |> in
  argus_machine_directory_payload_valid p' = true ->
  directory_map p !! mr_identifier r = None /\
  directory_map p' = <[mr_identifier r := r]> (directory_map p).
Proof.
  intros Hv Hl Hn Hfree p' Hv'. set (n := Z.to_nat (mp_machine_count p)) in *.
  assert (Hnone : forall i x, enrolled p !! i = Some x -> mr_identifier x <> mr_identifier r).
  { intros i x Hi E. apply enrolled_lookup in Hi as [Hi ->]. unfold identifier_taken in Hfree.
    rewrite (proj2 (existsb_exists _ _)) in Hfree; [done|]. exists i. rewrite in_seq, bool_decide_eq_true. split; [lia|done]. }
  assert (Hcount : Z.to_nat (mp_machine_count p') = S n).
  { unfold p', n. cbn [mp_machine_count set_machine update eta eta_machine_payload].
    rewrite u8_small by (unfold is_u8; lia). lia. }
  assert (Hat : forall i x, enrolled p' !! i = Some x <-> enrolled p !! i = Some x \/ (i = n /\ x = r)).
  { intros i x. rewrite !enrolled_lookup, Hcount. change (machine_at p' i) with (machine_at (set_machine p n r) i).
    rewrite machine_at_set by lia. fold n.
    destruct (decide (n = i)) as [E|Hne]; [subst i|]; split.
    - intros [_ ->]. by right.
    - intros [[? _]|[_ ->]]; [lia|split; [lia|done]].
    - intros [? ->]. left. split; [lia|done].
    - intros [[? ->]|[? _]]; [split; [lia|done]|congruence]. }
  assert (Hm : directory_map p !! mr_identifier r = None).
  { destruct (_ !! _) as [x|] eqn:E; [|done]. apply directory_map_lookup in E as (i & Hi & Hid); [|done]. by apply Hnone in Hi. }
  split; [done|]. apply map_eq. intros k. apply option_eq. intros x.
  rewrite directory_map_lookup, lookup_insert_Some, directory_map_lookup by done. split.
  - intros (i & Hi & <-). apply Hat in Hi as [Hi|[_ ->]]; [right|by left]. split; [|by exists i].
    intros E. by apply (Hnone i x Hi).
  - intros [[<- ->]|[_ (i & Hi & <-)]]; [exists n|exists i]; rewrite Hat; auto.
Qed.

(** Moving the last record into the place of one is a deletion. *)
Lemma map_delete_machine p i : argus_machine_directory_payload_valid p = true ->
  length (mp_machines p) = 16%nat -> (i < Z.to_nat (mp_machine_count p))%nat ->
  let last := Z.to_nat (mp_machine_count p - 1) in
  let p1 := if (i =? last)%nat then set_machine p i zero_machine
            else set_machine (set_machine p i (machine_at p last)) last zero_machine in
  let p' := p1 <| mp_machine_count ::= fun n => u8 (n - 1) |> in
  argus_machine_directory_payload_valid p' = true ->
  directory_map p' = delete (mr_identifier (machine_at p i)) (directory_map p).
Proof.
  intros Hv Hl Hi last p1 p' Hv'. pose proof (count_bound p Hv) as Hb. set (n := Z.to_nat (mp_machine_count p)) in *.
  assert (Hlast : last = (n - 1)%nat) by (unfold last, n; lia).
  assert (Hcount : Z.to_nat (mp_machine_count p') = last).
  { unfold p', p1, last. destruct (i =? _)%nat; cbn [mp_machine_count set_machine update eta eta_machine_payload];
      rewrite u8_small by (unfold is_u8; lia); done. }
  assert (Hat : forall j, (j < last)%nat -> machine_at p' j = machine_at p (if decide (i = j) then last else j)).
  { intros j Hj. change (machine_at p' j) with (machine_at p1 j). unfold p1.
    destruct (Nat.eqb_spec i last) as [->|Hne].
    - rewrite machine_at_set by lia. by rewrite !decide_False by lia.
    - rewrite machine_at_set by (cbn [mp_machines set_machine update eta eta_machine_payload]; rewrite length_insert; lia).
      rewrite decide_False by lia. rewrite machine_at_set by lia. by destruct (decide (i = j)). }
  assert (Hinj : forall j k, (j < n)%nat -> (k < n)%nat -> mr_identifier (machine_at p j) = mr_identifier (machine_at p k) -> j = k).
  { intros j k Hj Hk E. pose proof (enrolled_identifiers_distinct p Hv) as Hnd.
    apply (NoDup_lookup _ j k (mr_identifier (machine_at p k)) Hnd); rewrite list_lookup_fmap.
    - rewrite (proj2 (enrolled_lookup p j (machine_at p j))) by done. cbn. by rewrite E.
    - by rewrite (proj2 (enrolled_lookup p k (machine_at p k))) by done. }
  apply map_eq. intros k. apply option_eq. intros x. rewrite lookup_delete_Some, !directory_map_lookup by done. split.
  - intros (j & Hj & <-). apply enrolled_lookup in Hj as [Hj ->]. rewrite Hcount in Hj. rewrite Hat by done.
    set (m := if decide (i = j) then last else j). assert (Hm : (m < n)%nat /\ m <> i) by (subst m; destruct (decide (i = j)); lia).
    split; [intros E; by apply Hinj in E; lia|]. exists m. rewrite enrolled_lookup. split; [|done]. split; [apply Hm|done].
  - intros [Hne (j & Hj & <-)]. apply enrolled_lookup in Hj as [Hj ->]. fold n in Hj.
    assert (Hij : i <> j) by (by intros ->).
    destruct (decide (j = last)) as [->|Hjl].
    + exists i. rewrite enrolled_lookup, Hcount, Hat by lia. rewrite decide_True by done. split; [|done]. split; [lia|done].
    + exists j. rewrite enrolled_lookup, Hcount, Hat by lia. rewrite decide_False by done. split; [|done]. split; [lia|done].
Qed.

(** ** Commits *)

(** A commit that succeeds installs a valid payload over the generation it was prepared
    for, and one that fails leaves the directory. *)
Lemma machine_commit_wpc d p g f :
  wpc (argus_machine_directory_commit d p g)
    (fun r _ => if is_ok r.1 then md_payload r.2 = p /\ machine_ready r.2 = true /\ g = md_generation d
                                  /\ argus_machine_directory_payload_valid p = true
                else r.2 = d) (fun _ => True) f.
Proof.
  unfold argus_machine_directory_commit. destruct (machine_ready d) eqn:Hr; cbn [negb]; [|done].
  unfold commit_locked, argus_machine_directory_commit_precondition. rewrite Hr.
  destruct (argus_machine_directory_payload_valid p) eqn:Hv; cbn [andb negb]; [|done].
  destruct (g =? md_generation d) eqn:Hg; cbn [negb]; [|done]. b2p.
  apply wpc_bind. eapply wpc_mono; [|intros f' _; exact I|apply (commit_slot_wpc (P := argus_machine_directory_payload_t))].
  - cbv beta. intros err f' _. split; [done|]. cbn [fst snd]. destruct (is_ok err); [|done].
    split; [done|]. split; [|done]. unfold machine_ready in *. cbn [md_state]. done.
  - apply fresh_slot_valid; [apply next_generation_pos|done].
Qed.

(** ** The operations as updates of a map *)

Section Operations.
Context (verifier_create : bytes -> esp_err_t * argus_password_verifier_t) (initialized : bool).

Inductive machine_op :=
| Enroll (request : argus_machine_enrollment_request_t) (randoms : list bytes) (secret_random : bytes)
| Rotate (identifier secret_random : bytes)
| SetEnabled (identifier : bytes) (enabled : bool)
| SetPermissions (identifier : bytes) (permissions : Z)
| Revoke (identifier : bytes)
| Delete (identifier : bytes)
| Quarantine (identifier : bytes).

Definition without_result {R} (u : update_of R) : update_of unit :=
  match u with inl e => inl e | inr (p, _) => inr (p, tt) end.

Definition prepare (actor : option argus_principal_t) (op : machine_op) (d : machine_directory) : update_of unit :=
  match op with
  | Enroll request randoms secret_random =>
      without_result (argus_machine_service_enroll verifier_create initialized actor request randoms secret_random d)
  | Rotate identifier secret_random =>
      without_result (argus_machine_service_rotate verifier_create initialized actor identifier secret_random d)
  | SetEnabled identifier enabled => argus_machine_service_set_enabled initialized actor identifier enabled d
  | SetPermissions identifier permissions =>
      without_result (argus_machine_service_set_permissions initialized actor identifier permissions d)
  | Revoke identifier => argus_machine_service_revoke initialized actor identifier d
  | Delete identifier => argus_machine_service_delete initialized actor identifier d
  | Quarantine identifier => argus_machine_service_quarantine_undisclosed initialized identifier d
  end.

Abbreviation machines := (gmap bytes argus_security_machine_record_t).

(** The record under [identifier] becomes [change r], touched. *)
Definition updates (m : machines) (g : Z) (identifier : bytes)
    (change : argus_security_machine_record_t -> argus_security_machine_record_t -> Prop) (m' : machines) : Prop :=
  exists r r', m !! identifier = Some r /\ change r r' /\ m' = <[identifier := touch g r']> m.

(** What each operation promises. *)
Definition map_effect (actor : option argus_principal_t) (op : machine_op) (m : machines) (g : Z) (m' : machines)
    : Prop :=
  match op with
  | Enroll request _ _ =>
      exists r, m !! mr_identifier r = None /\ m' = <[mr_identifier r := r]> m /\
        mr_permissions r = er_permissions request /\ mr_scope r = er_scope request /\ mr_revoked r = 0 /\
        actor_can_manage actor ARGUS_PERMISSION_ENROLL_MACHINES (mr_scope r) (mr_permissions r) = true
  | Rotate identifier _ =>
      updates m g identifier (fun r r' => exists v, r' = r <| mr_verifier := v |>
                                                           <| mr_credential_version ::= nonzero_succ |>) m'
  | SetEnabled identifier enabled =>
      updates m g identifier (fun r r' => (enabled = true -> mr_revoked r = 0) /\
                                          r' = r <| mr_enabled := if enabled then 1 else 0 |>) m'
  | SetPermissions identifier permissions =>
      updates m g identifier (fun r r' => mr_revoked r = 0 /\ r' = r <| mr_permissions := permissions |> /\
        actor_can_manage actor ARGUS_PERMISSION_ENROLL_MACHINES (mr_scope r) permissions = true) m'
  | Revoke identifier =>
      updates m g identifier (fun r r' => r' = r <| mr_enabled := 0 |> <| mr_revoked := 1 |>
                                                 <| mr_credential_version ::= nonzero_succ |>) m'
  | Delete identifier => exists r, m !! identifier = Some r /\ mr_revoked r <> 0 /\ m' = delete identifier m
  | Quarantine identifier => updates m g identifier (fun r r' => r' = r <| mr_enabled := 0 |>) m'
  end.

Lemma mutable_target_spec actor identifier required d p g i : directory_ok d ->
  mutable_target initialized actor identifier required d = inr (p, g, i) ->
  p = md_payload d /\ g = md_generation d /\ (i < Z.to_nat (mp_machine_count p))%nat
  /\ mr_identifier (machine_at p i) = identifier /\ directory_map p !! identifier = Some (machine_at p i).
Proof.
  intros (Hr & Hv & Hl & _). unfold mutable_target, argus_machine_directory_get_snapshot. rewrite Hr. cbn [negb].
  destruct (_ || _ : bool); [done|]. destruct (find _ _) as [k|] eqn:E; [|done]. destruct (negb _); [done|].
  intros [= <- <- <-]. apply target_lookup in E as (H1 & H2 & H3); done.
Qed.

(** A payload prepared by replacing the record at an index. *)
Lemma set_machine_updates p i identifier r' g : argus_machine_directory_payload_valid p = true ->
  length (mp_machines p) = 16%nat -> (i < Z.to_nat (mp_machine_count p))%nat ->
  mr_identifier (machine_at p i) = identifier -> mr_identifier r' = identifier ->
  argus_machine_directory_payload_valid (set_machine p i (touch g r')) = true ->
  directory_map (set_machine p i (touch g r')) = <[identifier := touch g r']> (directory_map p).
Proof.
  intros Hv Hl Hi Hid Hid' Hv'. rewrite (map_set_machine p i (touch g r')); try done; cbn; by rewrite Hid'.
Qed.

Lemma updates_intro d i identifier r' change p :
  directory_ok d -> p = set_machine (md_payload d) i (touch (md_generation d) r') ->
  (i < Z.to_nat (mp_machine_count (md_payload d)))%nat ->
  mr_identifier (machine_at (md_payload d) i) = identifier -> mr_identifier r' = identifier ->
  map_of d !! identifier = Some (machine_at (md_payload d) i) ->
  change (machine_at (md_payload d) i) r' ->
  argus_machine_directory_payload_valid p = true ->
  (length (mp_machines p) = 16%nat /\ is_u8 (mp_machine_count p)) /\
  updates (map_of d) (md_generation d) identifier change (directory_map p).
Proof.
  intros (Hr & Hv & Hl & Hu) -> Hi Hid Hid' Hm Hc Hv'. split.
  - cbn [mp_machines mp_machine_count set_machine update eta eta_machine_payload]. by rewrite length_insert.
  - exists (machine_at (md_payload d) i), r'. split; [done|]. split; [done|]. by apply set_machine_updates.
Qed.

Lemma random_identifier_length random : (length (random_identifier random) <= 32)%nat.
Proof.
  unfold random_identifier. cbn [length]. assert (H : forall l : bytes,
    length (flat_map (fun b => [hex_digit (Z.shiftr b 4); hex_digit (Z.land b 15)]) l) = (2 * length l)%nat).
  { induction l as [|x l IH]; [done|]. cbn [flat_map app length]. rewrite IH. lia. }
  rewrite H, length_take. lia.
Qed.

Lemma machine_scope_length s : argus_security_machine_scope_valid s 37 = true -> (length s < 37)%nat.
Proof.
  unfold argus_security_machine_scope_valid. cbn [Nat.eqb]. destruct (_ || _) eqn:E; [done|]. intros _. b2p.
  by apply Nat.leb_gt.
Qed.

Lemma enroll_effect actor request randoms secret d p cred : directory_ok d ->
  argus_machine_service_enroll verifier_create initialized actor request randoms secret d = inr (p, cred) ->
  argus_machine_directory_payload_valid p = true ->
  (length (mp_machines p) = 16%nat /\ is_u8 (mp_machine_count p)) /\
  map_effect actor (Enroll request randoms secret) (map_of d) (md_generation d) (directory_map p).
Proof.
  intros (Hr & Hv & Hl & Hu8) Hp Hvalid.
  unfold argus_machine_service_enroll, argus_machine_directory_get_snapshot in Hp. rewrite Hr in Hp. cbn [negb] in Hp.
  destruct (_ || _ : bool) eqn:Ha; [done|]. b2p. destruct (ARGUS_SECURITY_MAX_MACHINES <=? _) eqn:Hc; [done|]. b2p.
  destruct (unique_identifier _ _) as [identifier|] eqn:Hu; [|done].
  destruct (generate_credential _ _) as [e|[sec v]]; [done|].
  set (r := MachineRecord _ _ _ _ _ _ _ _ _ _ _ _ _ _ _ _ _ _) in Hp. injection Hp as Hp _.
  assert (Hid : identifier_taken (md_payload d) (mr_identifier r) = false).
  { unfold unique_identifier in Hu. apply find_some in Hu as [Hin Hfree]. b2p.
    apply in_map_iff in Hin as (x & <- & _). cbn [r mr_identifier].
    rewrite strlcpy_fits; [done|]. pose proof (random_identifier_length x). lia. }
  assert (Hn : 0 <= mp_machine_count (md_payload d) < 16)
    by (unfold is_u8, ARGUS_SECURITY_MAX_MACHINES in *; lia).
  subst p. split.
  { cbn [mp_machines mp_machine_count set_machine update eta eta_machine_payload]. rewrite length_insert.
    split; [done|]. apply Z.mod_pos_bound. lia. }
  destruct (map_append_machine (md_payload d) r Hv Hl Hn Hid Hvalid) as [Hnone Hm].
  exists r. split; [done|]. split; [done|]. split; [done|].
  match goal with H : argus_machine_service_enrollment_allowed _ _ = true |- _ =>
    unfold argus_machine_service_enrollment_allowed in H; apply andb_true_iff in H as [Hreq Hact] end.
  assert (Hsc : mr_scope r = er_scope request).
  { cbn [r mr_scope]. apply strlcpy_fits, machine_scope_length. unfold enrollment_request_valid in Hreq. by b2p. }
  split; [done|]. split; [done|]. by rewrite Hsc.
Qed.

(** What is prepared from a valid directory and passes the check of the commit has the
    effect of the operation. *)
Lemma prepare_effect actor op d p : directory_ok d -> prepare actor op d = inr (p, tt) ->
  argus_machine_directory_payload_valid p = true ->
  (length (mp_machines p) = 16%nat /\ is_u8 (mp_machine_count p)) /\
  map_effect actor op (map_of d) (md_generation d) (directory_map p).
Proof.
  intros Hok Hp Hvalid.
  destruct op as [request randoms secret|id secret|id enabled|id permissions|id|id|id]; cbn [prepare] in Hp.
  - destruct (argus_machine_service_enroll _ _ _ _ _ _ _) as [e|[p' c]] eqn:E; [done|]. injection Hp as ->.
    by apply enroll_effect with c.
  - unfold argus_machine_service_rotate in Hp. destruct (mutable_target _ _ _ _ _) as [e|[[q g] i]] eqn:E; [done|].
    apply mutable_target_spec in E as (-> & -> & Hi & Hid & Hm); [|done].
    destruct (generate_credential _ _) as [e|[sec v]]; [done|]. injection Hp as Hp.
    eapply updates_intro; try done. by exists v.
  - unfold argus_machine_service_set_enabled in Hp. destruct (mutable_target _ _ _ _ _) as [e|[[q g] i]] eqn:E; [done|].
    apply mutable_target_spec in E as (-> & -> & Hi & Hid & Hm); [|done].
    destruct (enabled && _) eqn:Hen; [done|]. injection Hp as Hp.
    eapply updates_intro; try done. split; [|done]. intros ->. cbn [andb] in Hen. by b2p.
  - unfold argus_machine_service_set_permissions in Hp. destruct (negb (subset _ _)); [done|].
    destruct (mutable_target _ _ _ _ _) as [e|[[q g] i]] eqn:E; [done|].
    apply mutable_target_spec in E as (-> & -> & Hi & Hid & Hm); [|done].
    destruct (negb (actor_can_manage _ _ _ _)) eqn:Hact; [done|]. destruct (negb (_ =? 0)) eqn:Hrev; [done|].
    injection Hp as Hp. b2p. eapply updates_intro; done.
  - unfold argus_machine_service_revoke in Hp. destruct (mutable_target _ _ _ _ _) as [e|[[q g] i]] eqn:E; [done|].
    apply mutable_target_spec in E as (-> & -> & Hi & Hid & Hm); [|done]. injection Hp as Hp.
    eapply updates_intro; done.
  - unfold argus_machine_service_delete in Hp. destruct (mutable_target _ _ _ _ _) as [e|[[q g] i]] eqn:E; [done|].
    apply mutable_target_spec in E as (-> & -> & Hi & Hid & Hm); [|done].
    destruct (_ =? 0) eqn:Hrev; [done|]. b2p. destruct Hok as (Hr & Hv & Hl & Hu). injection Hp as <-. split.
    + destruct (i =? _)%nat; cbn [mp_machines mp_machine_count set_machine update eta eta_machine_payload];
        rewrite ?length_insert; (split; [done|]; apply Z.mod_pos_bound; lia).
    + exists (machine_at (md_payload d) i). split; [done|]. split; [done|]. rewrite <- Hid. by apply map_delete_machine.
  - unfold argus_machine_service_quarantine_undisclosed, argus_machine_directory_get_snapshot in Hp.
    destruct (negb initialized); [done|]. destruct Hok as (Hr & Hv & Hl & Hu). rewrite Hr in Hp. cbn [negb] in Hp.
    destruct (find _ _) as [i|] eqn:E; [|done]. injection Hp as Hp.
    apply target_lookup in E as (Hi & Hid & Hm); [|done]. eapply updates_intro; done.
Qed.

(** A run of an operation that reports success. *)
Definition performs (actor : option argus_principal_t) (op : machine_op) (snapshot d : machine_directory)
    (f : flash machine_slot) (d' : machine_directory) (f' : flash machine_slot) : Prop :=
  returns (commit_update snapshot (prepare actor op snapshot) d) f (ESP_OK, d', Some tt) f'.

Lemma performs_effect actor op snapshot d f d' f' : directory_ok snapshot ->
  performs actor op snapshot d f d' f' ->
  directory_ok d' /\ md_generation d = md_generation snapshot /\
  map_effect actor op (map_of snapshot) (md_generation snapshot) (map_of d').
Proof.
  intros Hok Hp. unfold performs, commit_update in Hp. destruct (prepare actor op snapshot) as [e|[p []]] eqn:E.
  - assert (Hw : wpc (mret (e, d, None) : prog (slot_op machine_slot) _)
      (fun (r : esp_err_t * machine_directory * option unit) _ => r.2 = None) (fun _ => True) f) by done.
    pose proof (wpc_returns _ _ _ _ _ _ Hw Hp) as H. done.
  - assert (Hw : wpc (c ← argus_machine_directory_commit d p (md_generation snapshot);
                      mret (c.1, c.2, if is_ok c.1 then Some tt else None))
      (fun r _ => r.1.1 = ESP_OK -> md_payload r.1.2 = p /\ machine_ready r.1.2 = true
         /\ md_generation snapshot = md_generation d /\ argus_machine_directory_payload_valid p = true) (fun _ => True) f).
    { apply wpc_bind. eapply wpc_mono; [|intros f1 H; exact H|apply machine_commit_wpc].
      cbv beta. intros c f1 Hc. split; [done|]. cbn [fst snd]. intros He. rewrite He in Hc. exact Hc. }
    pose proof (wpc_returns _ _ _ _ _ _ Hw Hp) as H. cbn [fst snd] in H. destruct (H eq_refl) as (H1 & H2 & H3 & H4).
    destruct (prepare_effect actor op snapshot p Hok E H4) as [[Hl Hu] Hm]. rewrite <- H1 in *.
    split; [done|]. by split.
Qed.
End Operations.

(** C30: every administrative operation on machines is one update of a finite map from
    identifiers to records: enrolment inserts a record under a new identifier with the
    permissions asked for, deletion removes a revoked record, and every other operation
    changes exactly the fields it is for in the one record it names, gives that record a
    new revision and epoch, and leaves all others.  It succeeds only if the directory has
    not changed since its snapshot, and leaves a valid directory. *)
Theorem machine_admin_refines_map verifier_create initialized actor op snapshot d f d' f' :
  directory_ok snapshot -> performs verifier_create initialized actor op snapshot d f d' f' ->
  directory_ok d' /\ md_generation d = md_generation snapshot /\
  map_effect actor op (map_of snapshot) (md_generation snapshot) (map_of d').
Proof. apply performs_effect. Qed.

(** ** Sessions *)

(** The directory as revalidation sees it. *)
Definition find_in (d : machine_directory) (identifier : bytes) : esp_err_t * argus_security_machine_record_t * Z :=
  match argus_machine_directory_find d identifier with
  | inr (r, _, g) => (ESP_OK, r, g)
  | inl e => (e, zero_machine, 0)
  end.

Lemma find_in_lookup d identifier : directory_ok d ->
  match find_in d identifier with
  | (ESP_OK, r, _) => map_of d !! identifier = Some r
  | _ => map_of d !! identifier = None
  end.
Proof.
  intros (Hr & Hv & _). unfold find_in. pose proof (find_spec d identifier Hr) as H.
  destruct (argus_machine_directory_find d identifier) as [e|[[r i] g]].
  - destruct H as [-> H]. destruct (_ !! identifier) as [r|] eqn:E; [|done]. exfalso.
    apply directory_map_lookup in E as (i & Hi & Hid); [|done]. by eapply H.
  - destruct H as (Hi & Hid & _). apply directory_map_lookup; eauto.
Qed.

(** The operations on an existing machine and the machine they name. *)
Definition names (op : machine_op) : option bytes :=
  match op with
  | Enroll _ _ _ => None
  | Rotate id _ | SetEnabled id _ | SetPermissions id _ | Revoke id | Delete id | Quarantine id => Some id
  end.

(** The record an operation leaves under the identifier it names has another revision. *)
Lemma effect_changes_revision actor op id m g m' r r' : map_effect actor op m g m' -> names op = Some id ->
  m !! id = Some r -> is_u32 (mr_principal_revision r) -> mr_principal_revision r <> 0 ->
  m' !! id = Some r' -> mr_principal_revision r' <> mr_principal_revision r.
Proof.
  intros He Hn Hr Hu H0 Hr'.
  assert (Hup : forall change, updates m g id change m' ->
    (forall a b, change a b -> mr_principal_revision b = mr_principal_revision a) ->
    mr_principal_revision r' <> mr_principal_revision r).
  { intros change (a & b & Ha & Hab & ->) Hrev. rewrite lookup_insert_eq in Hr'. injection Hr' as <-.
    rewrite Hr in Ha. injection Ha as <-. cbn. rewrite (Hrev _ _ Hab). by apply nonzero_succ_ne. }
  destruct op; cbn [names] in Hn; try done; injection Hn as ->; cbn [map_effect] in He.
  - apply (Hup _ He). by intros a b (v & ->).
  - apply (Hup _ He). by intros a b (_ & ->).
  - apply (Hup _ He). by intros a b (_ & -> & _).
  - apply (Hup _ He). by intros a b ->.
  - destruct He as (x & _ & _ & ->). by rewrite lookup_delete_eq in Hr'.
  - apply (Hup _ He). by intros a b ->.
Qed.

(** An administrative change ends the sessions of the machine: after any successful
    rotation, enabling, disabling, permission change, revocation, deletion or quarantine,
    a principal that was made from the machine's previous record no longer revalidates,
    on either interface. *)
Theorem machine_change_ends_sessions verifier_create initialized actor op snapshot d f d' f' id r g interface :
  directory_ok snapshot -> performs verifier_create initialized actor op snapshot d f d' f' ->
  names op = Some id -> map_of snapshot !! id = Some r -> is_u32 (mr_principal_revision r) ->
  argus_machine_service_revalidate (find_in d') (principal_from_record r g) interface <> ESP_OK.
Proof.
  intros Hok Hp Hn Hr Hu. destruct (performs_effect _ _ _ _ _ _ _ _ _ Hok Hp) as (Hok' & _ & He).
  assert (Hrec : argus_security_machine_record_valid r = true /\ mr_identifier r = id).
  { apply directory_map_lookup in Hr as (i & Hi & Hid); [|apply Hok]. apply enrolled_lookup in Hi as [Hi ->].
    split; [|done]. by apply payload_entry_valid; [apply Hok|]. }
  destruct Hrec as [Hrv Hid].
  assert (Hl : strlcpy (mr_identifier r) 37 = id).
  { rewrite Hid. apply strlcpy_fits. unfold argus_security_machine_record_valid, bounded_string_valid in Hrv. b2p.
    subst id. match goal with H : (length (mr_identifier r) <? 37)%nat = true |- _ => by apply Nat.ltb_lt in H end. }
  assert (H0 : mr_principal_revision r <> 0) by (unfold argus_security_machine_record_valid in Hrv; by b2p).
  unfold argus_machine_service_revalidate. cbn [mp_identifier principal_from_record]. rewrite Hl.
  destruct id as [|c id]; [done|]. pose proof (find_in_lookup d' (c :: id) Hok') as Hf.
  destruct (find_in d' (c :: id)) as [[e r'] g']. destruct (is_ok e) eqn:E; [|done]. apply is_ok_true in E as ->.
  pose proof (effect_changes_revision actor op _ _ _ _ r r' He Hn Hr Hu H0 Hf) as Hrev.
  cbn [mp_principal_revision principal_from_record]. apply Z.eqb_neq in Hrev. rewrite Hrev.
  rewrite !andb_false_r, !andb_false_l. done.
Qed.

(** ** What machines may do *)

(** A step of administration: some operation by some actor succeeds. *)
Definition admin_step verifier_create (d d' : machine_directory) : Prop :=
  exists initialized actor op f f', performs verifier_create initialized actor op d d f d' f'.

(** No machine may administer. *)
Definition machines_bounded (d : machine_directory) : Prop :=
  map_Forall (fun _ r => Z.land (mr_permissions r) administrative = 0) (map_of d).

Lemma can_manage_bounded actor required scope requested :
  actor_can_manage actor required scope requested = true ->
  Z.land requested administrative = 0 /\ exists a, actor = Some a /\ subset requested (pr_delegable_permissions a) = true.
Proof. destruct actor as [a|]; [|done]. unfold actor_can_manage. intros H. b2p. eauto. Qed.

Lemma admin_step_bounded verifier_create d d' : directory_ok d -> machines_bounded d ->
  admin_step verifier_create d d' -> directory_ok d' /\ machines_bounded d'.
Proof.
  intros Hok Hb (initialized & actor & op & f & f' & Hp).
  destruct (performs_effect _ _ _ _ _ _ _ _ _ Hok Hp) as (Hok' & _ & He). split; [done|].
  assert (Hup : forall id change, updates (map_of d) (md_generation d) id change (map_of d') ->
    (forall a b, change a b -> Z.land (mr_permissions a) administrative = 0 -> Z.land (mr_permissions b) administrative = 0) ->
    machines_bounded d').
  { intros id change (a & b & Ha & Hab & Hm) Hc. unfold machines_bounded. rewrite Hm. apply map_Forall_insert_2; [|done].
    cbn. apply (Hc a b Hab). exact (Hb id a Ha). }
  destruct op; cbn [map_effect] in He.
  - destruct He as (r & _ & Hm & _ & _ & _ & Hact). unfold machines_bounded. rewrite Hm.
    apply map_Forall_insert_2; [|done]. by apply can_manage_bounded in Hact as [? _].
  - apply (Hup _ _ He). by intros a b (v & ->).
  - apply (Hup _ _ He). by intros a b (_ & ->).
  - apply (Hup _ _ He). intros a b (_ & -> & Hact) _. by apply can_manage_bounded in Hact as [? _].
  - apply (Hup _ _ He). by intros a b ->.
  - destruct He as (r & _ & _ & Hm). unfold machines_bounded. rewrite Hm. by apply map_Forall_delete.
  - apply (Hup _ _ He). by intros a b ->.
Qed.

(** No sequence of administrative operations, by whatever actors, gives a machine an
    administrative permission, and each grant is within what its actor may delegate:
    starting from a directory without such machines, every directory that can be reached
    has none. *)
Theorem machine_privilege_bounded verifier_create d d' :
  directory_ok d -> machines_bounded d -> rtc (admin_step verifier_create) d d' ->
  directory_ok d' /\ machines_bounded d' /\
  forall initialized actor op f f' d'', performs verifier_create initialized actor op d' d' f d'' f' ->
    match op with
    | Enroll request _ _ => exists a, actor = Some a /\ subset (er_permissions request) (pr_delegable_permissions a) = true
    | SetPermissions _ permissions => exists a, actor = Some a /\ subset permissions (pr_delegable_permissions a) = true
    | _ => True
    end.
Proof.
  intros Hok Hb Hs. assert (H : directory_ok d' /\ machines_bounded d').
  { induction Hs as [x|x y z Hxy _ IH]; [done|]. destruct (admin_step_bounded _ x y Hok Hb Hxy). auto. }
  destruct H as [Hok' Hb']. split; [done|]. split; [done|]. intros initialized actor op f f' d'' Hp.
  destruct (performs_effect _ _ _ _ _ _ _ _ _ Hok' Hp) as (_ & _ & He). destruct op; try done; cbn [map_effect] in He.
  - destruct He as (r & _ & _ & Hperm & _ & _ & Hact). rewrite Hperm in Hact. by apply can_manage_bounded in Hact as [_ ?].
  - destruct He as (a & b & _ & (_ & _ & Hact) & _). by apply can_manage_bounded in Hact as [_ ?].
Qed.

(** Revoked as before, and not enabled. *)
Definition still_revoked (r r' : argus_security_machine_record_t) : Prop :=
  mr_revoked r' <> 0 /\ mr_permissions r' = mr_permissions r /\ (mr_enabled r = 0 -> mr_enabled r' = 0).

(** Revocation of a machine is final: whatever operation succeeds next, a revoked
    record is gone, or still revoked, with the same permissions and still disabled if it
    was; in particular no operation enables it or changes its permissions. *)
Theorem machine_revocation_final verifier_create initialized actor op snapshot d f d' f' id r :
  directory_ok snapshot -> performs verifier_create initialized actor op snapshot d f d' f' ->
  map_of snapshot !! id = Some r -> mr_revoked r <> 0 ->
  match map_of d' !! id with
  | None => op = Delete id
  | Some r' => still_revoked r r'
  end.
Proof.
  intros Hok Hp Hr Hrev. destruct (performs_effect _ _ _ _ _ _ _ _ _ Hok Hp) as (_ & _ & He).
  assert (Hup : forall id' change, updates (map_of snapshot) (md_generation snapshot) id' change (map_of d') ->
    (forall b, change r b -> still_revoked r b) ->
    match map_of d' !! id with None => op = Delete id | Some r' => still_revoked r r' end).
  { intros id' change (a & b & Ha & Hab & ->) Hc. destruct (decide (id' = id)) as [->|Hne].
    - rewrite lookup_insert_eq. rewrite Hr in Ha. injection Ha as <-. apply (Hc b Hab).
    - rewrite lookup_insert_ne, Hr by done. done. }
  destruct op as [request randoms secret|i secret|i enabled|i permissions|i|i|i]; cbn [map_effect] in He.
  - destruct He as (x & Hx & -> & _). rewrite lookup_insert_ne, Hr by congruence. done.
  - apply (Hup _ _ He). by intros b (v & ->).
  - apply (Hup _ _ He). intros b (Hen & ->). destruct enabled; [|done]. by specialize (Hen eq_refl).
  - apply (Hup _ _ He). by intros b (? & _).
  - apply (Hup _ _ He). by intros b ->.
  - destruct He as (x & Hx & _ & ->). destruct (decide (i = id)) as [->|Hne].
    + by rewrite lookup_delete_eq.
    + by rewrite lookup_delete_ne, Hr.
  - apply (Hup _ _ He). by intros b ->.
Qed.

(** ** Concrete operations *)

Definition demo_actor : argus_principal_t :=
  Principal ARGUS_PRINCIPAL_HUMAN (str "admin") (str "bench") ARGUS_SECURITY_LEVEL_CLIENT_ADMIN
    (argus_authorization_level_permissions 1) (argus_authorization_level_delegable 1) 1 1 1 false.

(** Every derivation succeeds. *)
Definition demo_create (secret : bytes) : esp_err_t * argus_password_verifier_t :=
  (ESP_OK, PasswordVerifier 1 1 16 32 25000 [] (take 32 secret)).

Definition demo_run (op : machine_op) : esp_err_t * machine_directory * option unit * flash machine_slot :=
  run (commit_update demo_directory (prepare demo_create true (Some demo_actor) op demo_directory) demo_directory) demo_flash.

Lemma demo_ok : directory_ok demo_directory.
Proof. split_and!; by vm_compute. Qed.

Lemma demo_performs op : (demo_run op).1.1.1 = ESP_OK -> (demo_run op).1.2 = Some tt ->
  performs demo_create true (Some demo_actor) op demo_directory demo_directory demo_flash
    (demo_run op).1.1.2 (demo_run op).2.
Proof.
  intros H1 H2. unfold performs.
  pose proof (run_returns (commit_update demo_directory (prepare demo_create true (Some demo_actor) op demo_directory)
                             demo_directory) demo_flash) as H. fold (demo_run op) in H.
  rewrite (surjective_pairing (demo_run op).1), (surjective_pairing (demo_run op).1.1), H1, H2 in H. exact H.
Qed.

Definition demo_enroll : machine_op :=
  Enroll (EnrollmentRequest (str "Panel") 1 2 2 (str "bench") (str "pump") [] 7) [replicate 15 0] (replicate 32 0).

Lemma machine_admin_refines_map_witness :
  (map_of (demo_run demo_enroll).1.1.2) !! str "m-000000000000000000000000000000" <> None.
Proof.
  assert (H1 : (demo_run demo_enroll).1.1.1 = ESP_OK) by (by vm_compute).
  assert (H2 : (demo_run demo_enroll).1.2 = Some tt) by (by vm_compute).
  destruct (machine_admin_refines_map demo_create true (Some demo_actor) demo_enroll demo_directory demo_directory demo_flash
              (demo_run demo_enroll).1.1.2 (demo_run demo_enroll).2 demo_ok (demo_performs _ H1 H2)) as (_ & _ & r & H).
  clear H1 H2 H. by vm_compute.
Defined.

Lemma demo_lookup : map_of demo_directory !! str "m-01" = Some (demo_machine (str "m-01")).
Proof. by vm_compute. Qed.

Lemma machine_change_ends_sessions_witness :
  argus_machine_service_revalidate (find_in demo_directory) (principal_from_record (demo_machine (str "m-01")) 3) 2 = ESP_OK /\
  argus_machine_service_revalidate (find_in (demo_run (SetPermissions (str "m-01") 1)).1.1.2)
    (principal_from_record (demo_machine (str "m-01")) 3) 2 <> ESP_OK.
Proof.
  split; [by vm_compute|].
  assert (H1 : (demo_run (SetPermissions (str "m-01") 1)).1.1.1 = ESP_OK) by (by vm_compute).
  assert (H2 : (demo_run (SetPermissions (str "m-01") 1)).1.2 = Some tt) by (by vm_compute).
  refine (machine_change_ends_sessions demo_create true (Some demo_actor) (SetPermissions (str "m-01") 1) demo_directory
    demo_directory demo_flash (demo_run (SetPermissions (str "m-01") 1)).1.1.2 (demo_run (SetPermissions (str "m-01") 1)).2
    (str "m-01") (demo_machine (str "m-01")) 3 2 demo_ok (demo_performs _ H1 H2) eq_refl demo_lookup _).
  clear H1 H2. by vm_compute.
Defined.

Lemma demo_bounded : machines_bounded demo_directory.
Proof. unfold machines_bounded. apply (bool_decide_unpack _). by vm_compute. Qed.

Lemma machine_privilege_bounded_witness :
  machines_bounded (demo_run (Revoke (str "m-02"))).1.1.2.
Proof.
  assert (H1 : (demo_run (Revoke (str "m-02"))).1.1.1 = ESP_OK) by (by vm_compute).
  assert (H2 : (demo_run (Revoke (str "m-02"))).1.2 = Some tt) by (by vm_compute).
  refine (proj1 (proj2 (machine_privilege_bounded demo_create demo_directory (demo_run (Revoke (str "m-02"))).1.1.2
                          demo_ok demo_bounded (rtc_once _ _ _)))).
  exists true, (Some demo_actor), (Revoke (str "m-02")), demo_flash, (demo_run (Revoke (str "m-02"))).2.
  exact (demo_performs _ H1 H2).
Defined.

(** A directory whose first machine is revoked. *)
Definition revoked_directory : machine_directory :=
  MachineDirectory (set_machine demo_payload 0 ((demo_machine (str "m-01")) <| mr_enabled := 0 |> <| mr_revoked := 1 |>))
    3 ARGUS_MACHINE_DIRECTORY_READY 0 false.

Lemma machine_revocation_final_witness :
  let op := Rotate (str "m-01") (replicate 32 7) in
  let after := run (commit_update revoked_directory (prepare demo_create true (Some demo_actor) op revoked_directory)
                      revoked_directory) demo_flash in
  match map_of after.1.1.2 !! str "m-01" with
  | None => op = Delete (str "m-01")
  | Some r' => still_revoked ((demo_machine (str "m-01")) <| mr_enabled := 0 |> <| mr_revoked := 1 |>) r'
  end.
Proof.
  intros op after. assert (H1 : after.1.1.1 = ESP_OK) by (by vm_compute).
  assert (H2 : after.1.2 = Some tt) by (by vm_compute).
  apply (machine_revocation_final demo_create true (Some demo_actor) op revoked_directory revoked_directory demo_flash
           after.1.1.2 after.2).
  - clear. split_and!; by vm_compute.
  - unfold performs. pose proof (run_returns (commit_update revoked_directory
      (prepare demo_create true (Some demo_actor) op revoked_directory) revoked_directory) demo_flash) as H.
    fold after in H. rewrite (surjective_pairing after.1), (surjective_pairing after.1.1), H1, H2 in H. exact H.
  - clear. by vm_compute.
  - clear. by vm_compute.
Defined.
