(* ===== verification/MqttSecurity.v ===== *)
(** * What a machine may publish and subscribe to

    [src/main/argus_mqtt_security.c]: the permission each topic needs, the filters that
    may be subscribed to, and both decisions for an authenticated machine. *)

From S2P Require Import Prelude Authorization MqttDecode MqttWire MqttBroker MachineAuth.

Definition categories : list bytes := [str "metadata"; str "state"; str "status"; str "telemetry"; str "event"].

(** [strncmp(s, p, strlen(p)) == 0 && s[strlen(p)] == '/'], and what follows. *)
Definition after_segment (p s : bytes) : option bytes :=
  if prefix_of p s then match drop (length p) s with c :: rest => if c =? 47 then Some rest else None | [] => None end
  else None.

(** What follows the first category the leaf starts with. *)
Fixpoint after_category (l : list bytes) (leaf : bytes) : option bytes :=
  match l with
  | [] => None
  | c :: l => match after_segment c leaf with Some r => Some r | None => after_category l leaf end
  end.

Definition wildcard (c : Z) : bool := (c =? 35) || (c =? 43).

Definition approved_read_filter (topics : argus_mqtt_topics_t) (filter : bytes) : bool :=
  match after_segment (tp_root topics) filter with
  | None => false
  | Some leaf =>
      match after_category categories leaf with
      | None => false
      | Some remainder =>
          if bool_decide (remainder = str "#") then true
          else negb (existsb wildcard remainder) && match remainder with [] => false | _ => true end
      end
  end.

Definition argus_mqtt_security_subscription_allowed (topics : argus_mqtt_topics_t)
    (principal : argus_machine_principal_t) (filter : bytes) : bool :=
  negb (Z.land (mp_permissions principal) ARGUS_PERMISSION_VIEW_STATUS =? 0)
  && approved_read_filter topics filter
  && argus_machine_service_topic_scope_contains (Some (mp_topic_scope principal)) (Some filter).

(** The permission of an action. *)
Definition action_permission (action : argus_mqtt_action_t) : Z :=
  match action with
  | ARGUS_MQTT_ACTION_HEARTBEAT
  | ARGUS_MQTT_ACTION_REQUEST_AUTHORITY
  | ARGUS_MQTT_ACTION_RELEASE_AUTHORITY => ARGUS_PERMISSION_REQUEST_AUTHORITY
  | ARGUS_MQTT_ACTION_E_STOP => ARGUS_PERMISSION_SOFTWARE_ESTOP
  | ARGUS_MQTT_ACTION_RESET_E_STOP => ARGUS_PERMISSION_RESET_SOFTWARE_ESTOP
  | ARGUS_MQTT_ACTION_SET_TARGET
  | ARGUS_MQTT_ACTION_START
  | ARGUS_MQTT_ACTION_STOP
  | ARGUS_MQTT_ACTION_UNLOCK
  | ARGUS_MQTT_ACTION_RECOVER => ARGUS_PERMISSION_MOTION
  | ARGUS_MQTT_ACTION_NONE => 0
  end.

Definition argus_mqtt_security_required_permission (topics : argus_mqtt_topics_t) (topic : bytes) : Z :=
  action_permission (argus_mqtt_topics_classify topics topic).

Definition argus_mqtt_security_publish_allowed (topics : argus_mqtt_topics_t)
    (principal : argus_machine_principal_t) (topic : bytes) : bool :=
  if negb (argus_machine_service_topic_scope_contains (Some (mp_topic_scope principal)) (Some topic)) then false
  else
    let required := argus_mqtt_security_required_permission topics topic in
    negb (required =? 0) && (Z.land (mp_permissions principal) required =? required).

(** ** Filters *)

Lemma prefix_of_spec p l : prefix_of p l = true <-> exists r, l = p ++ r.
Proof.
  revert l. induction p as [|x p IH]; intros l; cbn; [split; [by exists l|done]|].
  destruct l as [|y l]; [split; [done|by intros (r & ?)]|]. rewrite andb_true_iff, IH. split.
  - intros [H (r & ->)]. b2p. subst. by exists r.
  - intros (r & [= -> ->]). rewrite Z.eqb_refl. eauto.
Qed.

Lemma after_segment_spec p s r : after_segment p s = Some r <-> s = p ++ 47 :: r.
Proof.
  unfold after_segment. destruct (prefix_of p s) eqn:E.
  - apply prefix_of_spec in E as (t & ->). rewrite drop_app_length. split.
    + destruct t as [|c t]; [done|]. destruct (c =? 47) eqn:Hc; [|done]. intros [= ->]. b2p. by subst.
    + intros ->%app_inv_head. done.
  - split; [done|]. intros ->. rewrite (proj2 (prefix_of_spec _ _)) in E; [done|eauto].
Qed.

Lemma after_category_spec l leaf r : after_category l leaf = Some r -> exists c, c ∈ l /\ leaf = c ++ 47 :: r.
Proof.
  induction l as [|c l IH]; cbn; [done|]. destruct (after_segment c leaf) as [r'|] eqn:E.
  - intros [= ->]. apply after_segment_spec in E. exists c. split; [by left|done].
  - intros H. destruct (IH H) as (c' & Hc & ?). exists c'. split; [by right|done].
Qed.

(** A filter without wildcards matches itself; with a final [#], what starts with it. *)
Lemma plain_filter F T : existsb wildcard F = false -> argus_mqtt_topic_matches F T = bool_decide (F = T).
Proof.
  revert T. induction F as [|x F IH]; intros T; cbn [existsb argus_mqtt_topic_matches]; [by destruct T|].
  intros H. apply orb_false_iff in H as [Hx HF]. unfold wildcard in Hx. apply orb_false_iff in Hx as [H1 H2].
  destruct T as [|y T]; [rewrite H1; by destruct F|]. rewrite H1, H2.
  destruct (x =? y) eqn:E; cbn [negb].
  - apply Z.eqb_eq in E as ->. rewrite IH by done. apply bool_decide_ext. naive_solver.
  - symmetry. apply bool_decide_eq_false. b2p. naive_solver.
Qed.

Lemma hash_filter P T : existsb wildcard P = false -> argus_mqtt_topic_matches (P ++ [35]) T = prefix_of P T.
Proof.
  revert T. induction P as [|x P IH]; intros T; cbn [existsb app argus_mqtt_topic_matches prefix_of]; [by destruct T|].
  intros H. apply orb_false_iff in H as [Hx HP]. unfold wildcard in Hx. apply orb_false_iff in Hx as [H1 H2].
  destruct T as [|y T]; [by destruct P|]. rewrite H1, H2, <- IH by done. by destruct (x =? y).
Qed.

Lemma existsb_app_false {A} (f : A -> bool) l k : existsb f (l ++ k) = false <-> existsb f l = false /\ existsb f k = false.
Proof. rewrite existsb_app, orb_false_iff. done. Qed.

Lemma categories_plain c : c ∈ categories -> existsb wildcard c = false.
Proof. unfold categories. intros H. repeat (apply elem_of_cons in H as [->|H]; [by vm_compute|]). by apply elem_of_nil in H. Qed.

(** What an approved filter is. *)
Lemma approved_shape topics filter : approved_read_filter topics filter = true ->
  exists c, c ∈ categories /\
    (filter = tp_root topics ++ 47 :: c ++ 47 :: [35] \/
     exists r, r <> [] /\ existsb wildcard r = false /\ filter = tp_root topics ++ 47 :: c ++ 47 :: r).
Proof.
  unfold approved_read_filter. destruct (after_segment _ _) as [leaf|] eqn:E; [|done].
  apply after_segment_spec in E as ->. destruct (after_category _ _) as [r|] eqn:E; [|done].
  apply after_category_spec in E as (c & Hc & ->). exists c. split; [done|].
  destruct (bool_decide_reflect (r = str "#")) as [->|]; [by left|]. right. exists r. b2p. by destruct r.
Qed.

(** Scopes and what they cover. *)
Lemma topic_scope_spec scope topic : argus_machine_service_topic_scope_contains (Some scope) (Some topic) = true ->
  scope = str "*" \/ exists r, topic = scope ++ r /\ (r = [] \/ exists r', r = 47 :: r').
Proof.
  unfold argus_machine_service_topic_scope_contains. destruct (_ || _ : bool); [done|]. unfold default, from_option, id.
  destruct (bool_decide_reflect (scope = str "*")); [by left|]. intros H. right. apply andb_true_iff in H as [Hp Hr].
  apply prefix_of_spec in Hp as (r & ->). rewrite drop_app_length in Hr. exists r. split; [done|].
  destruct r as [|c r]; [by left|right]. b2p. subst. by exists r.
Qed.

Lemma in_scope scope topic r : bounded_text (Some scope) 97 false = true -> bounded_text (Some topic) 160 false = true ->
  topic = scope ++ r -> (r = [] \/ exists r', r = 47 :: r') ->
  argus_machine_service_topic_scope_contains (Some scope) (Some topic) = true.
Proof.
  intros Hs Ht -> Hr. unfold argus_machine_service_topic_scope_contains. rewrite Hs, Ht. cbn [negb orb]. unfold default, from_option, id.
  destruct (bool_decide _); [done|]. rewrite (proj2 (prefix_of_spec _ _)) by eauto. rewrite drop_app_length.
  by destruct Hr as [->|(r' & ->)].
Qed.

(** The topics a plain scope shares with an approved filter's matches. *)
Lemma scope_covers_matches scope P T : existsb wildcard P = false -> existsb wildcard scope = false ->
  (exists r, P ++ [35] = scope ++ r /\ (r = [] \/ exists r', r = 47 :: r')) ->
  prefix_of P T = true -> exists r, T = scope ++ r /\ (r = [] \/ exists r', r = 47 :: r').
Proof.
  intros HP Hs (r & He & Hr) HT. apply prefix_of_spec in HT as (t & ->).
  destruct Hr as [->|(r' & ->)].
  - rewrite app_nil_r in He. subst scope. rewrite existsb_app in Hs. by rewrite orb_true_r in Hs.
  - assert (Hx : exists q, P = scope ++ 47 :: q).
    { destruct r' as [|c r'] using rev_ind.
      - change (scope ++ [47]) with (scope ++ [47]) in He. apply app_inj_2 in He as [_ [= ?]]; done.
      - clear IHr'. rewrite app_comm_cons, app_assoc in He. apply app_inj_2 in He as [-> _]; [|done]. by exists r'. }
    destruct Hx as (q & ->). exists (47 :: q ++ t). rewrite <- app_assoc. split; [done|]. right. by eexists.
Qed.

(** The root of the topics of valid identifiers has no wildcard. *)
Lemma topics_root client unit topics : argus_mqtt_topics_build (Some client) (Some unit) = (ESP_OK, Some topics) ->
  existsb wildcard (tp_root topics) = false /\
  forall f, tp_topic topics f = tp_root topics ++ 47 :: topic_leaf f.
Proof.
  intros Hb. pose proof Hb as Hb'. unfold argus_mqtt_topics_build in Hb'.
  destruct (argus_identity_validate_client_id (Some client)) eqn:Hc; [|done].
  destruct (argus_identity_validate_unit_id (Some unit)) eqn:Hu; [|done].
  destruct (topics_build_ok client unit Hc Hu) as (t & Ht & Hf). rewrite Hb in Ht. injection Ht as <-.
  cbn [negb orb] in Hb'. destruct (72 <=? _)%nat; [done|]. destruct (forallb _ _); [|done]. injection Hb' as Hb'.
  assert (Hr : tp_root topics = str "argus/" ++ client ++ str "/" ++ unit) by (by rewrite <- Hb').
  split; [|intros f; by rewrite Hf, Hr]. rewrite Hr.
  assert (Hid : forall l : bytes, forallb id_char l = true -> existsb wildcard l = false).
  { intros l Hl. apply not_true_is_false. intros E. apply existsb_exists in E as (x & Hx & Hw).
    rewrite forallb_forall in Hl. specialize (Hl x Hx). unfold wildcard in Hw. apply orb_true_iff in Hw.
    destruct Hw as [Hw|Hw]; apply Z.eqb_eq in Hw as ->; by vm_compute in Hl. }
  unfold argus_identity_validate_client_id, argus_identity_validate_unit_id in Hc, Hu.
  apply andb_true_iff in Hc as [_ Hc], Hu as [_ Hu]. rewrite !existsb_app, (Hid _ Hc), (Hid _ Hu). by vm_compute.
Qed.

Lemma read_side_action f c r : c ∈ categories -> c ++ 47 :: r = topic_leaf f ->
  field_action f = ARGUS_MQTT_ACTION_NONE \/ field_action f = ARGUS_MQTT_ACTION_HEARTBEAT.
Proof.
  intros Hc He. destruct f; cbn [field_action]; try (by auto); exfalso; unfold categories in Hc;
    repeat (apply elem_of_cons in Hc as [->|Hc]; [discriminate He|]); by apply elem_of_nil in Hc.
Qed.

(** A subscription never reaches past the read side of the unit or the machine's
    topic scope: for the topics of valid identifiers, whatever filter is allowed, each
    topic it matches lies below one of the five read categories of this unit, is within
    the machine's scope, and is neither a command nor an authority request. *)
Theorem subscriptions_read_only client unit topics principal filter topic :
  argus_mqtt_topics_build (Some client) (Some unit) = (ESP_OK, Some topics) ->
  argus_mqtt_security_subscription_allowed topics principal filter = true ->
  existsb wildcard (mp_topic_scope principal) = false -> bounded_text (Some topic) 160 false = true ->
  argus_mqtt_topic_matches filter topic = true ->
  (exists c r, c ∈ categories /\ topic = tp_root topics ++ 47 :: c ++ 47 :: r) /\
  argus_machine_service_topic_scope_contains (Some (mp_topic_scope principal)) (Some topic) = true /\
  (argus_mqtt_topics_classify topics topic = ARGUS_MQTT_ACTION_NONE \/
   argus_mqtt_topics_classify topics topic = ARGUS_MQTT_ACTION_HEARTBEAT).
Proof.
  intros Hb Ha Hs Ht Hm. destruct (topics_root client unit topics Hb) as (Hplain & Htopic).
  unfold argus_mqtt_security_subscription_allowed in Ha. rewrite !andb_true_iff in Ha. destruct Ha as [[_ Hf] Hsc].
  destruct (approved_shape topics filter Hf) as (c & Hc & Hshape). pose proof (categories_plain c Hc) as Hcp.
  assert (Hpre : existsb wildcard (tp_root topics ++ 47 :: c ++ [47]) = false).
  { apply existsb_app_false. split; [done|]. cbn. by apply existsb_app_false. }
  assert (Hx : exists r, topic = tp_root topics ++ 47 :: c ++ 47 :: r).
  { destruct Hshape as [->|(r & _ & Hr & ->)].
    - replace (tp_root topics ++ 47 :: c ++ 47 :: [35]) with ((tp_root topics ++ 47 :: c ++ [47]) ++ [35]) in Hm
        by (by rewrite <- app_assoc, <- app_comm_cons, <- app_assoc).
      rewrite hash_filter in Hm by done. apply prefix_of_spec in Hm as (t & ->). exists t.
      by rewrite <- app_assoc, <- app_comm_cons, <- app_assoc.
    - rewrite plain_filter in Hm; [apply bool_decide_eq_true in Hm as <-; by exists r|].
      apply existsb_app_false. split; [done|]. cbn. apply existsb_app_false. split; [done|]. cbn. done. }
  destruct Hx as (r & Hx). split; [by exists c, r|]. split.
  - assert (Hbs : bounded_text (Some (mp_topic_scope principal)) 97 false = true).
    { unfold argus_machine_service_topic_scope_contains in Hsc. destruct (bounded_text _ 97 _); [done|]. done. }
    destruct (topic_scope_spec _ _ Hsc) as [He|(q & Hq & Hq')].
    + unfold argus_machine_service_topic_scope_contains. rewrite Hbs, Ht. cbn [negb orb].
      unfold default, from_option, id. by rewrite bool_decide_eq_true_2.
    + destruct Hshape as [Hfil|(r' & _ & Hr & Hfil)].
      * destruct (scope_covers_matches (mp_topic_scope principal) (tp_root topics ++ 47 :: c ++ [47]) topic Hpre Hs)
          as (u & Hu & Hu').
        -- exists q. split; [|done]. rewrite <- Hq, Hfil. by rewrite <- app_assoc, <- app_comm_cons, <- app_assoc.
        -- apply prefix_of_spec. exists r. rewrite Hx. by rewrite <- app_assoc, <- app_comm_cons, <- app_assoc.
        -- by eapply in_scope.
      * rewrite plain_filter in Hm; [apply bool_decide_eq_true in Hm as <-; by eapply in_scope|].
        rewrite Hfil. apply existsb_app_false. split; [done|]. cbn. apply existsb_app_false. by split.
  - unfold argus_mqtt_topics_classify.
    destruct (classify_in_spec classify_table topics topic) as [(f & a & Hi & He & ->)|[-> _]]; [|by left].
    rewrite Htopic, Hx in He. apply app_inv_head in He. injection He as He.
    apply classify_table_action in Hi as ->. by apply read_side_action with c r.
Qed.

Lemma topic_field_classified client unit topics f :
  argus_mqtt_topics_build (Some client) (Some unit) = (ESP_OK, Some topics) ->
  argus_mqtt_topics_classify topics (tp_topic topics f) = field_action f.
Proof.
  intros Hb. destruct (topics_root client unit topics Hb) as (_ & Ht). unfold argus_mqtt_topics_classify.
  destruct (classify_in_spec classify_table topics (tp_topic topics f)) as [(g & a & Hi & He & ->)|[-> Hn]].
  - rewrite !Ht in He. apply app_inv_head in He. injection He as He. apply topic_leaf_inj in He as ->.
    by apply classify_table_action.
  - destruct f; try done; exfalso; (eapply Hn; [|reflexivity]; cbn; tauto).
Qed.

Lemma action_permission_zero a : action_permission a = 0 <-> a = ARGUS_MQTT_ACTION_NONE.
Proof. by destruct a. Qed.

(** A machine can publish exactly to the command, heartbeat and authority topics of
    this unit that are in its topic scope and whose permission it has: motion commands
    need MOTION, the emergency stop and its reset each need their own permission, and
    heartbeat and authority requests need REQUEST_AUTHORITY, so none of these follows
    from another. *)
Theorem publish_needs_permission client unit topics principal topic :
  argus_mqtt_topics_build (Some client) (Some unit) = (ESP_OK, Some topics) ->
  argus_mqtt_security_publish_allowed topics principal topic = true <->
  argus_machine_service_topic_scope_contains (Some (mp_topic_scope principal)) (Some topic) = true /\
  exists f, topic = tp_topic topics f /\ field_action f <> ARGUS_MQTT_ACTION_NONE /\
    Z.land (mp_permissions principal) (action_permission (field_action f)) = action_permission (field_action f).
Proof.
  intros Hb. unfold argus_mqtt_security_publish_allowed, argus_mqtt_security_required_permission.
  destruct (argus_machine_service_topic_scope_contains _ _); cbn [negb]; [|split; [done|by intros [? _]]]. split.
  - intros H. b2p. split; [done|].
    destruct (classify_in_spec classify_table topics topic) as [(f & a & Hi & -> & _)|[Hn _]].
    + exists f. rewrite (topic_field_classified client unit) in * by done. split; [done|]. split; [|done].
      by rewrite <- action_permission_zero.
    + unfold argus_mqtt_topics_classify in *. by rewrite Hn in *.
  - intros (_ & f & -> & Hf & Hp). rewrite (topic_field_classified client unit) by done.
    apply andb_true_iff. split; [|by apply Z.eqb_eq]. apply negb_true_iff, Z.eqb_neq. by rewrite action_permission_zero.
Qed.

(** ** A panel that may stop the pump but not move it *)

Definition demo_principal : argus_machine_principal_t :=
  MachinePrincipal (str "m-01") (str "bench") (str "argus/acme/pump-7") [] 9 2 2 1 1 1 1 1.

Definition demo_topics : argus_mqtt_topics_t :=
  default (Topics [] (fun _ => [])) (argus_mqtt_topics_build (Some (str "acme")) (Some (str "pump-7"))).2.

Lemma demo_topics_built : argus_mqtt_topics_build (Some (str "acme")) (Some (str "pump-7")) = (ESP_OK, Some demo_topics).
Proof. by vm_compute. Qed.

Lemma publish_needs_permission_witness :
  argus_mqtt_security_publish_allowed demo_topics demo_principal (str "argus/acme/pump-7/command/pump1/e_stop") = true /\
  argus_mqtt_security_publish_allowed demo_topics demo_principal (str "argus/acme/pump-7/command/pump1/start") = false.
Proof.
  split; [|by vm_compute].
  apply (publish_needs_permission (str "acme") (str "pump-7") demo_topics demo_principal _ demo_topics_built).
  split; [by vm_compute|]. exists command_e_stop. split_and!; by vm_compute.
Defined.

Lemma subscriptions_read_only_witness :
  argus_machine_service_topic_scope_contains (Some (str "argus/acme/pump-7")) (Some (str "argus/acme/pump-7/state/pump1/mode")) = true.
Proof.
  exact (proj1 (proj2 (subscriptions_read_only (str "acme") (str "pump-7") demo_topics demo_principal
    (str "argus/acme/pump-7/state/#") (str "argus/acme/pump-7/state/pump1/mode") demo_topics_built
    ltac:(by vm_compute) ltac:(by vm_compute) ltac:(by vm_compute) ltac:(by vm_compute)))).
Defined.
