(* ===== verification/NetLink.v ===== *)
(** * The station link

    The part of [src/main/argus_net_mgr.c] that decides without touching the driver: the
    classification of disconnects, the gate for station events, the retry countdown, and
    the interface a socket belongs to with its conflict latch. *)

From S2P Require Import Prelude Storage Authority.

Inductive argus_network_mode_t :=
| ARGUS_NET_MODE_BOOTSTRAP
| ARGUS_NET_MODE_UNCOMMISSIONED_AP
| ARGUS_NET_MODE_COMMISSIONED_STA
| ARGUS_NET_MODE_AP_DISCOVERABLE
| ARGUS_NET_MODE_SERVICE_TRANSITION
| ARGUS_NET_MODE_SERVICE_AP_ONLY
| ARGUS_NET_MODE_SECURITY_RECOVERY_TRANSITION
| ARGUS_NET_MODE_SECURITY_RECOVERY_AP_ONLY
| ARGUS_NET_MODE_NETWORK_FAULT.

Inductive argus_sta_state_t :=
| ARGUS_STA_DISABLED
| ARGUS_STA_IDLE
| ARGUS_STA_CONNECTING
| ARGUS_STA_ASSOCIATED_WAITING_IP
| ARGUS_STA_CONNECTED
| ARGUS_STA_RETRY_WAIT
| ARGUS_STA_ACTION_REQUIRED.

Inductive argus_wifi_apply_state_t :=
| ARGUS_WIFI_APPLY_IDLE
| ARGUS_WIFI_APPLY_PREPARING
| ARGUS_WIFI_APPLY_WAITING_DISCONNECT
| ARGUS_WIFI_APPLY_APPLYING_CONFIG
| ARGUS_WIFI_APPLY_CONNECTING
| ARGUS_WIFI_APPLY_COMPLETE
| ARGUS_WIFI_APPLY_FAILED
| ARGUS_WIFI_APPLY_CANCELLED.

Inductive argus_wifi_transaction_kind_t :=
| ARGUS_WIFI_TXN_NONE
| ARGUS_WIFI_TXN_APPLY_CONFIG
| ARGUS_WIFI_TXN_MANUAL_RECONNECT.

Inductive argus_disconnect_category_t :=
| ARGUS_DISCONNECT_CAT_NONE
| ARGUS_DISCONNECT_CAT_AUTHENTICATION
| ARGUS_DISCONNECT_CAT_AP_UNAVAILABLE
| ARGUS_DISCONNECT_CAT_IP_TIMEOUT
| ARGUS_DISCONNECT_CAT_UNKNOWN.

Inductive argus_sta_lifecycle_event_t :=
| ARGUS_STA_EVENT_ASSOCIATED
| ARGUS_STA_EVENT_IP_ACQUIRED
| ARGUS_STA_EVENT_DISCONNECTED
| ARGUS_STA_EVENT_IP_TIMEOUT
| ARGUS_STA_EVENT_STOPPED.

Inductive argus_sta_event_action_t :=
| ARGUS_STA_EVENT_IGNORE
| ARGUS_STA_EVENT_PROCESS
| ARGUS_STA_EVENT_CONFIRM_DISABLED.

(** The disconnect reasons of the Wi-Fi driver the code names; reason 0 is the manager's
    own mark of an IP timeout. *)
Inductive wifi_reason_t :=
| REASON_NONE
| WIFI_REASON_AUTH_EXPIRE
| WIFI_REASON_AUTH_LEAVE
| WIFI_REASON_NOT_AUTHED
| WIFI_REASON_ASSOC_NOT_AUTHED
| WIFI_REASON_MIC_FAILURE
| WIFI_REASON_4WAY_HANDSHAKE_TIMEOUT
| WIFI_REASON_GROUP_KEY_UPDATE_TIMEOUT
| WIFI_REASON_IE_IN_4WAY_DIFFERS
| WIFI_REASON_GROUP_CIPHER_INVALID
| WIFI_REASON_PAIRWISE_CIPHER_INVALID
| WIFI_REASON_AKMP_INVALID
| WIFI_REASON_UNSUPP_RSN_IE_VERSION
| WIFI_REASON_INVALID_RSN_IE_CAP
| WIFI_REASON_802_1X_AUTH_FAILED
| WIFI_REASON_CIPHER_SUITE_REJECTED
| WIFI_REASON_INVALID_PMKID
| WIFI_REASON_AUTH_FAIL
| WIFI_REASON_HANDSHAKE_TIMEOUT
| WIFI_REASON_NO_AP_FOUND_W_COMPATIBLE_SECURITY
| WIFI_REASON_NO_AP_FOUND_IN_AUTHMODE_THRESHOLD
| WIFI_REASON_ASSOC_EXPIRE
| WIFI_REASON_ASSOC_TOOMANY
| WIFI_REASON_NOT_ASSOCED
| WIFI_REASON_ASSOC_LEAVE
| WIFI_REASON_BSS_TRANSITION_DISASSOC
| WIFI_REASON_BEACON_TIMEOUT
| WIFI_REASON_NO_AP_FOUND
| WIFI_REASON_ASSOC_FAIL
| WIFI_REASON_CONNECTION_FAIL
| WIFI_REASON_NO_AP_FOUND_IN_RSSI_THRESHOLD
| REASON_OTHER (code : Z).

#[export] Instance net_mode_eq_dec : EqDecision argus_network_mode_t.
Proof. solve_decision. Defined.
#[export] Instance sta_state_eq_dec : EqDecision argus_sta_state_t.
Proof. solve_decision. Defined.
#[export] Instance apply_state_eq_dec : EqDecision argus_wifi_apply_state_t.
Proof. solve_decision. Defined.
#[export] Instance txn_kind_eq_dec : EqDecision argus_wifi_transaction_kind_t.
Proof. solve_decision. Defined.
#[export] Instance category_eq_dec : EqDecision argus_disconnect_category_t.
Proof. solve_decision. Defined.
#[export] Instance sta_event_eq_dec : EqDecision argus_sta_lifecycle_event_t.
Proof. solve_decision. Defined.
#[export] Instance sta_action_eq_dec : EqDecision argus_sta_event_action_t.
Proof. solve_decision. Defined.
#[export] Instance reason_eq_dec : EqDecision wifi_reason_t.
Proof. solve_decision. Defined.

(** ** Disconnects *)

(** The name the code reports and the category. *)
Definition argus_net_classify_disconnect (reason : wifi_reason_t) : bytes * argus_disconnect_category_t :=
  let auth name := (str name, ARGUS_DISCONNECT_CAT_AUTHENTICATION) in
  let unavailable name := (str name, ARGUS_DISCONNECT_CAT_AP_UNAVAILABLE) in
  match reason with
  | WIFI_REASON_AUTH_EXPIRE => auth "AUTH_EXPIRE"
  | WIFI_REASON_AUTH_LEAVE => auth "AUTH_LEAVE"
  | WIFI_REASON_NOT_AUTHED => auth "NOT_AUTHED"
  | WIFI_REASON_ASSOC_NOT_AUTHED => auth "ASSOC_NOT_AUTHED"
  | WIFI_REASON_MIC_FAILURE => auth "MIC_FAILURE"
  | WIFI_REASON_4WAY_HANDSHAKE_TIMEOUT => auth "4WAY_HANDSHAKE_TIMEOUT"
  | WIFI_REASON_GROUP_KEY_UPDATE_TIMEOUT => auth "GROUP_KEY_UPDATE_TIMEOUT"
  | WIFI_REASON_IE_IN_4WAY_DIFFERS => auth "IE_IN_4WAY_DIFFERS"
  | WIFI_REASON_GROUP_CIPHER_INVALID => auth "GROUP_CIPHER_INVALID"
  | WIFI_REASON_PAIRWISE_CIPHER_INVALID => auth "PAIRWISE_CIPHER_INVALID"
  | WIFI_REASON_AKMP_INVALID => auth "AKMP_INVALID"
  | WIFI_REASON_UNSUPP_RSN_IE_VERSION => auth "UNSUPP_RSN_IE_VERSION"
  | WIFI_REASON_INVALID_RSN_IE_CAP => auth "INVALID_RSN_IE_CAP"
  | WIFI_REASON_802_1X_AUTH_FAILED => auth "802_1X_AUTH_FAILED"
  | WIFI_REASON_CIPHER_SUITE_REJECTED => auth "CIPHER_SUITE_REJECTED"
  | WIFI_REASON_INVALID_PMKID => auth "INVALID_PMKID"
  | WIFI_REASON_AUTH_FAIL => auth "AUTH_FAIL"
  | WIFI_REASON_HANDSHAKE_TIMEOUT => auth "HANDSHAKE_TIMEOUT"
  | WIFI_REASON_NO_AP_FOUND_W_COMPATIBLE_SECURITY => auth "NO_AP_FOUND_W_COMPATIBLE_SECURITY"
  | WIFI_REASON_NO_AP_FOUND_IN_AUTHMODE_THRESHOLD => auth "NO_AP_FOUND_IN_AUTHMODE_THRESHOLD"
  | WIFI_REASON_ASSOC_EXPIRE => unavailable "ASSOC_EXPIRE"
  | WIFI_REASON_ASSOC_TOOMANY => unavailable "ASSOC_TOOMANY"
  | WIFI_REASON_NOT_ASSOCED => unavailable "NOT_ASSOCED"
  | WIFI_REASON_ASSOC_LEAVE => unavailable "ASSOC_LEAVE"
  | WIFI_REASON_BSS_TRANSITION_DISASSOC => unavailable "BSS_TRANSITION_DISASSOC"
  | WIFI_REASON_BEACON_TIMEOUT => unavailable "BEACON_TIMEOUT"
  | WIFI_REASON_NO_AP_FOUND => unavailable "NO_AP_FOUND"
  | WIFI_REASON_ASSOC_FAIL => unavailable "ASSOC_FAIL"
  | WIFI_REASON_CONNECTION_FAIL => unavailable "CONNECTION_FAIL"
  | WIFI_REASON_NO_AP_FOUND_IN_RSSI_THRESHOLD => unavailable "NO_AP_FOUND_IN_RSSI_THRESHOLD"
  | REASON_NONE | REASON_OTHER _ => (str "UNKNOWN", ARGUS_DISCONNECT_CAT_UNKNOWN)
  end.

Definition argus_net_evaluate_retry (cat : argus_disconnect_category_t) (auth_failures : Z) : argus_sta_state_t :=
  if bool_decide (cat = ARGUS_DISCONNECT_CAT_AUTHENTICATION) && (3 <=? auth_failures)
  then ARGUS_STA_ACTION_REQUIRED
  else ARGUS_STA_RETRY_WAIT.

(** The modes in which the station interface is used. *)
Definition sta_operational (mode : argus_network_mode_t) : bool :=
  match mode with
  | ARGUS_NET_MODE_UNCOMMISSIONED_AP | ARGUS_NET_MODE_COMMISSIONED_STA
  | ARGUS_NET_MODE_AP_DISCOVERABLE | ARGUS_NET_MODE_NETWORK_FAULT => true
  | _ => false
  end.

Definition argus_net_can_manual_reconnect (net_mode : argus_network_mode_t) (sta_state : argus_sta_state_t)
    (has_valid_commissioned_config : bool) : bool :=
  if negb has_valid_commissioned_config
     || (negb (bool_decide (net_mode = ARGUS_NET_MODE_COMMISSIONED_STA))
         && negb (bool_decide (net_mode = ARGUS_NET_MODE_AP_DISCOVERABLE))
         && negb (bool_decide (net_mode = ARGUS_NET_MODE_NETWORK_FAULT)))
  then false
  else match sta_state with
       | ARGUS_STA_ACTION_REQUIRED | ARGUS_STA_RETRY_WAIT | ARGUS_STA_IDLE => true
       | _ => false
       end.

Definition argus_net_event_post_status (queued : bool) : esp_err_t := if queued then ESP_OK else ESP_ERR_NO_MEM.

Definition argus_net_timer_generation_is_current (event_generation active_generation : Z) : bool :=
  event_generation =? active_generation.

Definition argus_net_timer_command_status (command_queued : bool) : esp_err_t :=
  if command_queued then ESP_OK else ESP_FAIL.

(** ** Station events *)

Definition argus_net_decide_sta_event (mode : argus_network_mode_t) (event : argus_sta_lifecycle_event_t)
    (event_generation active_transaction_generation : Z)
    (sta_started sta_connected sta_ip_acquired : bool) : argus_sta_event_action_t :=
  match mode with
  | ARGUS_NET_MODE_SERVICE_AP_ONLY | ARGUS_NET_MODE_SECURITY_RECOVERY_AP_ONLY =>
      match event with
      | ARGUS_STA_EVENT_DISCONNECTED | ARGUS_STA_EVENT_STOPPED => ARGUS_STA_EVENT_CONFIRM_DISABLED
      | _ => ARGUS_STA_EVENT_IGNORE
      end
  | ARGUS_NET_MODE_SERVICE_TRANSITION | ARGUS_NET_MODE_SECURITY_RECOVERY_TRANSITION
  | ARGUS_NET_MODE_BOOTSTRAP => ARGUS_STA_EVENT_IGNORE
  | _ =>
      if negb (sta_operational mode) then ARGUS_STA_EVENT_IGNORE
      else if negb (event_generation =? active_transaction_generation)
              && (negb (event_generation =? 0) || negb (active_transaction_generation =? 0))
      then ARGUS_STA_EVENT_IGNORE
      else
        let process :=
          match event with
          | ARGUS_STA_EVENT_ASSOCIATED => sta_started && sta_connected
          | ARGUS_STA_EVENT_IP_ACQUIRED => sta_started && sta_connected && sta_ip_acquired
          | ARGUS_STA_EVENT_DISCONNECTED => sta_started && negb sta_connected && negb sta_ip_acquired
          | ARGUS_STA_EVENT_IP_TIMEOUT => sta_started && negb sta_ip_acquired
          | ARGUS_STA_EVENT_STOPPED => negb sta_started && negb sta_connected && negb sta_ip_acquired
          end in
        if process then ARGUS_STA_EVENT_PROCESS else ARGUS_STA_EVENT_IGNORE
  end.

Definition service_mode (mode : argus_network_mode_t) : bool :=
  match mode with
  | ARGUS_NET_MODE_SERVICE_TRANSITION | ARGUS_NET_MODE_SERVICE_AP_ONLY
  | ARGUS_NET_MODE_SECURITY_RECOVERY_TRANSITION | ARGUS_NET_MODE_SECURITY_RECOVERY_AP_ONLY => true
  | _ => false
  end.

(** The station flags: started, connected, IP acquired. *)
Record sta_flags := StaFlags { f_started : bool; f_connected : bool; f_ip_acquired : bool }.

Definition no_flags : sta_flags := StaFlags false false false.

Definition argus_net_apply_sta_event_action (mode : argus_network_mode_t) (event : argus_sta_lifecycle_event_t)
    (action : argus_sta_event_action_t) (sta_state : argus_sta_state_t) (flags : sta_flags)
    : argus_sta_state_t * sta_flags :=
  let process := bool_decide (action = ARGUS_STA_EVENT_PROCESS) in
  let flags :=
    if service_mode mode && negb process then no_flags
    else if process && bool_decide (event = ARGUS_STA_EVENT_STOPPED) then no_flags
    else if process && (bool_decide (event = ARGUS_STA_EVENT_DISCONNECTED)
                        || bool_decide (event = ARGUS_STA_EVENT_IP_TIMEOUT))
    then StaFlags (f_started flags) false false
    else flags in
  let sta_state :=
    if (bool_decide (mode = ARGUS_NET_MODE_SERVICE_AP_ONLY)
        || bool_decide (mode = ARGUS_NET_MODE_SECURITY_RECOVERY_AP_ONLY))
       && bool_decide (action = ARGUS_STA_EVENT_CONFIRM_DISABLED)
    then ARGUS_STA_DISABLED
    else sta_state in
  (sta_state, flags).

(** ** Failure evidence and the retry countdown *)

Record argus_wifi_failure_evidence_t := FailureEvidence {
  fe_reason : wifi_reason_t;
  fe_category : argus_disconnect_category_t;
  fe_consecutive_failures : Z;
  fe_authentication_streak : Z
}.

Definition argus_net_failure_evidence_record (evidence : argus_wifi_failure_evidence_t) (reason : wifi_reason_t)
    (category : argus_disconnect_category_t) : argus_wifi_failure_evidence_t :=
  FailureEvidence reason category (u32 (fe_consecutive_failures evidence + 1))
    (if bool_decide (category = ARGUS_DISCONNECT_CAT_AUTHENTICATION)
     then u32 (fe_authentication_streak evidence + 1) else 0).

Definition argus_net_failure_evidence_clear : argus_wifi_failure_evidence_t :=
  FailureEvidence REASON_NONE ARGUS_DISCONNECT_CAT_NONE 0 0.

Definition argus_net_retry_countdown_seconds (remaining_ms : Z) : Z :=
  if remaining_ms =? 0 then 0 else (remaining_ms - 1) / 1000 + 1.

Definition argus_net_retry_remaining_ms (current_tick expiry_tick : Z) (timer_active : bool)
    (timer_generation current_generation : Z) (sta_state : argus_sta_state_t) (tick_period_ms : Z) : Z :=
  if negb timer_active || negb (timer_generation =? current_generation)
     || negb (bool_decide (sta_state = ARGUS_STA_RETRY_WAIT)) || (tick_period_ms =? 0)
  then 0
  else
    let modular_delta := u32 (expiry_tick - current_tick) in
    if (modular_delta =? 0) || (UINT32_MAX / 2 <? modular_delta) then 0
    else
      let remaining_ms := u64 (modular_delta * tick_period_ms) in
      if UINT32_MAX <? remaining_ms then UINT32_MAX else u32 remaining_ms.

(** ** The interface of a socket *)

Inductive argus_net_iface_t :=
| ARGUS_NET_IFACE_UNKNOWN
| ARGUS_NET_IFACE_SOFTAP
| ARGUS_NET_IFACE_STA
| ARGUS_NET_IFACE_AMBIGUOUS.

(** The conflict latch with the times it is published with. *)
Record iface_conflict := IfaceConflict {
  ic_active : bool;
  ic_observations : Z;
  ic_first_us : Z;
  ic_last_us : Z;
  ic_last_log_us : Z
}.
#[export] Instance eta_iface_conflict : Eta iface_conflict := fun c =>
  IfaceConflict (ic_active c) (ic_observations c) (ic_first_us c) (ic_last_us c) (ic_last_log_us c).

Definition ARGUS_NET_IFACE_CONFLICT_LOG_INTERVAL_US : Z := 60000000.

Definition iface_conflict_assert (now_us : Z) (c : iface_conflict) : iface_conflict :=
  let c := if ic_active c then c
           else c <| ic_active := true |> <| ic_first_us := now_us |> <| ic_last_log_us := 0 |> in
  c <| ic_last_us := now_us |> <| ic_observations ::= fun n => u32 (n + 1) |>.

Definition argus_net_mgr_classify_interface (now_us : Z) (local_addr : Z) (ap_valid : bool) (ap_addr : Z)
    (sta_valid : bool) (sta_addr : Z) (c : iface_conflict) : argus_net_iface_t * iface_conflict :=
  let c :=
    if ap_valid && sta_valid && negb (ap_addr =? 0) && negb (sta_addr =? 0) && negb (ap_addr =? sta_addr)
    then c <| ic_active := false |> else c in
  if local_addr =? 0 then (ARGUS_NET_IFACE_UNKNOWN, c)
  else if ap_valid && sta_valid && (ap_addr =? sta_addr) && negb (ap_addr =? 0) then
    (ARGUS_NET_IFACE_AMBIGUOUS, iface_conflict_assert now_us c)
  else
    let matches_ap := ap_valid && negb (ap_addr =? 0) && (local_addr =? ap_addr) in
    let matches_sta := sta_valid && negb (sta_addr =? 0) && (local_addr =? sta_addr) in
    if matches_ap && matches_sta then (ARGUS_NET_IFACE_AMBIGUOUS, iface_conflict_assert now_us c)
    else if matches_ap then (ARGUS_NET_IFACE_SOFTAP, c)
    else if matches_sta then (ARGUS_NET_IFACE_STA, c)
    else (ARGUS_NET_IFACE_UNKNOWN, c).

Definition argus_net_mgr_interface_conflict_detected (c : iface_conflict) : bool := ic_active c.

Definition argus_net_mgr_clear_interface_conflict (c : iface_conflict) : iface_conflict :=
  c <| ic_active := false |>.

(** What [argus_net_mgr_get_interface_conflict] publishes: active, observations, first and last. *)
Definition argus_net_mgr_get_interface_conflict (c : iface_conflict) : bool * Z * Z * Z :=
  (ic_active c, ic_observations c, ic_first_us c, ic_last_us c).

(** The compare-and-exchange succeeds when no other task logs in between. *)
Definition argus_net_mgr_interface_conflict_log_due (now_us : Z) (c : iface_conflict) : bool * iface_conflict :=
  if negb (ic_active c) then (false, c)
  else if negb (ic_last_log_us c =? 0)
          && (u64 (now_us - ic_last_log_us c) <? ARGUS_NET_IFACE_CONFLICT_LOG_INTERVAL_US)
  then (false, c)
  else (true, c <| ic_last_log_us := now_us |>).

(** ** The need to disconnect the station *)

Inductive wifi_mode_t := WIFI_MODE_NULL | WIFI_MODE_STA | WIFI_MODE_AP | WIFI_MODE_APSTA | WIFI_MODE_OTHER.
#[export] Instance wifi_mode_eq_dec : EqDecision wifi_mode_t.
Proof. solve_decision. Defined.

(** The status and, where it is [ESP_OK], whether a disconnect is needed. *)
Definition argus_net_mgr_eval_sta_disconnect_req (wifi_mode : wifi_mode_t) (wifi_mode_err : esp_err_t)
    (sta_connected sta_ip_acquired : bool) : esp_err_t * bool :=
  if is_ok wifi_mode_err && bool_decide (wifi_mode = WIFI_MODE_AP) then
    if sta_connected || sta_ip_acquired then (ESP_ERR_INVALID_STATE, true) else (ESP_OK, false)
  else if negb sta_connected && negb sta_ip_acquired then (ESP_OK, false)
  else (ESP_OK, true).
