(* ===== verification/WifiTransaction.v ===== *)
(** * The Wi-Fi transaction

    The transaction of [src/main/argus_net_mgr.c] that applies a configuration or
    reconnects: prepare, disconnect if connected, wait for the disconnect event, apply,
    connect, wait for an address.  Its table of operations is a record of programs over
    any set of operations [E]; the transaction and the station state, which the C code
    updates through pointers, are passed and returned. *)

From S2P Require Import Prelude Storage Authority NetLink.

(** The station half of [wifi_config_t]: the texts in its two arrays and the required
    authentication mode, set or not. *)
Record wifi_sta_config_t := WifiStaConfig {
  ws_ssid : bytes;
  ws_password : bytes;
  ws_require_wpa2 : bool
}.

Definition zero_sta_config : wifi_sta_config_t := WifiStaConfig [] [] false.

Record argus_wifi_transaction_t := WifiTxn {
  wt_state : argus_wifi_apply_state_t;
  wt_kind : argus_wifi_transaction_kind_t;
  wt_generation : Z;
  wt_active : bool;
  wt_intentional_disconnect_requested : bool;
  wt_config_staged : bool;
  wt_authority_revoked : bool;
  wt_broker_stopped : bool;
  wt_config_applied : bool;
  wt_last_error : esp_err_t;
  wt_pending_config : wifi_sta_config_t
}.
#[export] Instance eta_wifi_txn : Eta argus_wifi_transaction_t := fun t =>
  WifiTxn (wt_state t) (wt_kind t) (wt_generation t) (wt_active t) (wt_intentional_disconnect_requested t)
    (wt_config_staged t) (wt_authority_revoked t) (wt_broker_stopped t) (wt_config_applied t)
    (wt_last_error t) (wt_pending_config t).

Definition argus_wifi_transaction_init : argus_wifi_transaction_t :=
  WifiTxn ARGUS_WIFI_APPLY_IDLE ARGUS_WIFI_TXN_NONE 0 false false false false false false ESP_OK zero_sta_config.

Definition wifi_transaction_scrub_config (txn : argus_wifi_transaction_t) : argus_wifi_transaction_t :=
  txn <| wt_pending_config := zero_sta_config |> <| wt_config_staged := false |>.

Definition wifi_transaction_finish_error (txn : argus_wifi_transaction_t) (err : esp_err_t)
    : esp_err_t * argus_wifi_transaction_t :=
  (err, (wifi_transaction_scrub_config txn) <| wt_active := false |>
          <| wt_intentional_disconnect_requested := false |>
          <| wt_state := ARGUS_WIFI_APPLY_FAILED |> <| wt_last_error := err |>).

Definition argus_wifi_transaction_event_matches (txn : argus_wifi_transaction_t) (event_generation : Z) : bool :=
  wt_active txn && negb (wt_generation txn =? 0) && (wt_generation txn =? event_generation).

Definition argus_wifi_transaction_handle_got_ip (txn : argus_wifi_transaction_t) (event_generation : Z)
    : bool * argus_wifi_transaction_t :=
  if negb (argus_wifi_transaction_event_matches txn event_generation)
     || negb (bool_decide (wt_state txn = ARGUS_WIFI_APPLY_CONNECTING))
  then (false, txn)
  else (true, (wifi_transaction_scrub_config txn) <| wt_active := false |>
                <| wt_state := ARGUS_WIFI_APPLY_COMPLETE |> <| wt_last_error := ESP_OK |>).

(** Whether the transaction failed, the status, and the transaction. *)
Definition argus_wifi_transaction_handle_connection_failure (txn : argus_wifi_transaction_t) (event_generation : Z)
    (connection_error : esp_err_t) : bool * esp_err_t * argus_wifi_transaction_t :=
  if negb (argus_wifi_transaction_event_matches txn event_generation)
     || negb (bool_decide (wt_state txn = ARGUS_WIFI_APPLY_CONNECTING))
  then (false, ESP_OK, txn)
  else let '(err, txn) := wifi_transaction_finish_error txn connection_error in (true, err, txn).

Definition argus_wifi_transaction_cancel (txn : argus_wifi_transaction_t) : argus_wifi_transaction_t :=
  (wifi_transaction_scrub_config txn) <| wt_active := false |>
    <| wt_intentional_disconnect_requested := false |>
    <| wt_state := ARGUS_WIFI_APPLY_CANCELLED |> <| wt_last_error := ESP_ERR_INVALID_STATE |>.

Section Transaction.
Context {E : Type -> Type}.

(** [load_config] is given what [out_cfg] holds and returns the status, what it holds
    then, and [has_cfg]. *)
Record argus_wifi_apply_ops_t := WifiApplyOps {
  wa_stop_timers : prog E esp_err_t;
  wa_revoke_supervisory : prog E esp_err_t;
  wa_stop_broker : prog E esp_err_t;
  wa_verify_broker_stopped : prog E esp_err_t;
  wa_load_config : wifi_sta_config_t -> prog E (esp_err_t * wifi_sta_config_t * bool);
  wa_validate_config : wifi_sta_config_t -> bool -> prog E esp_err_t;
  wa_disconnect_sta : prog E esp_err_t;
  wa_apply_sta_config : wifi_sta_config_t -> prog E esp_err_t;
  wa_connect_sta : prog E esp_err_t
}.

(** [err = op(); if (err != ESP_OK) return fail(err); next] *)
Definition checked {A} (op : prog E esp_err_t) (fail : esp_err_t -> A) (next : prog E A) : prog E A :=
  err ← op; if is_ok err then next else mret (fail err).

(** A table that is NULL or has a NULL entry is [None]. *)
Definition wifi_transaction_validate_inputs (txn : argus_wifi_transaction_t) (net_mode : argus_network_mode_t)
    (ops : option argus_wifi_apply_ops_t) : esp_err_t :=
  match ops with
  | None => ESP_ERR_INVALID_ARG
  | Some _ =>
      if wt_active txn then ESP_ERR_INVALID_STATE
      else if negb (sta_operational net_mode) then ESP_ERR_INVALID_STATE
      else ESP_OK
  end.

Definition wifi_transaction_prepare (txn : argus_wifi_transaction_t) (generation : Z)
    (kind : argus_wifi_transaction_kind_t) (net_mode : argus_network_mode_t)
    (ops : option argus_wifi_apply_ops_t) : prog E (esp_err_t * argus_wifi_transaction_t) :=
  let err := wifi_transaction_validate_inputs txn net_mode ops in
  match ops with
  | None => mret (err, txn)
  | Some ops =>
      if negb (is_ok err) then mret (err, txn)
      else if generation =? 0 then mret (ESP_ERR_INVALID_ARG, txn)
      else
        let txn := argus_wifi_transaction_init <| wt_active := true |> <| wt_kind := kind |>
                     <| wt_generation := generation |> <| wt_state := ARGUS_WIFI_APPLY_PREPARING |> in
        checked (wa_stop_timers ops) (wifi_transaction_finish_error txn) (
        checked (wa_revoke_supervisory ops) (wifi_transaction_finish_error txn) (
        let txn := txn <| wt_authority_revoked := true |> in
        checked (wa_stop_broker ops) (wifi_transaction_finish_error txn) (
        checked (wa_verify_broker_stopped ops) (wifi_transaction_finish_error txn) (
        let txn := txn <| wt_broker_stopped := true |> in
        '(err, cfg, has_cfg) ← wa_load_config ops (wt_pending_config txn);
        let txn := txn <| wt_pending_config := cfg |> in
        if negb (is_ok err) then mret (wifi_transaction_finish_error txn err)
        else
          let txn := txn <| wt_config_staged := has_cfg |> in
          checked (wa_validate_config ops cfg has_cfg) (wifi_transaction_finish_error txn) (
          mret (ESP_OK, txn))))))
  end.

Definition wifi_transaction_connect (txn : argus_wifi_transaction_t) (sta_state : argus_sta_state_t)
    (ops : argus_wifi_apply_ops_t) : prog E (esp_err_t * argus_wifi_transaction_t * argus_sta_state_t) :=
  let connect txn :=
    let txn := wifi_transaction_scrub_config txn in
    checked (wa_connect_sta ops) (fun err => (wifi_transaction_finish_error txn err, ARGUS_STA_IDLE)) (
    mret (ESP_OK, txn <| wt_state := ARGUS_WIFI_APPLY_CONNECTING |>, ARGUS_STA_CONNECTING)) in
  if bool_decide (wt_kind txn = ARGUS_WIFI_TXN_APPLY_CONFIG) then
    let txn := txn <| wt_state := ARGUS_WIFI_APPLY_APPLYING_CONFIG |> in
    checked (wa_apply_sta_config ops (wt_pending_config txn))
      (fun err => (wifi_transaction_finish_error txn err, sta_state)) (
    connect (txn <| wt_config_applied := true |>))
  else connect txn.

Definition wifi_transaction_begin (txn : argus_wifi_transaction_t) (generation : Z)
    (kind : argus_wifi_transaction_kind_t) (net_mode : argus_network_mode_t) (sta_state : argus_sta_state_t)
    (sta_connected : bool) (ops : option argus_wifi_apply_ops_t)
    : prog E (esp_err_t * argus_wifi_transaction_t * argus_sta_state_t) :=
  '(err, txn) ← wifi_transaction_prepare txn generation kind net_mode ops;
  match ops with
  | None => mret (err, txn, sta_state)
  | Some ops =>
      if negb (is_ok err) then mret (err, txn, sta_state)
      else if sta_connected then
        let txn := txn <| wt_state := ARGUS_WIFI_APPLY_WAITING_DISCONNECT |>
                       <| wt_intentional_disconnect_requested := true |> in
        checked (wa_disconnect_sta ops) (fun err => (wifi_transaction_finish_error txn err, sta_state)) (
        mret (ESP_OK, txn, sta_state))
      else wifi_transaction_connect txn sta_state ops
  end.

Definition argus_wifi_transaction_begin_apply (txn : argus_wifi_transaction_t) (generation : Z)
    (net_mode : argus_network_mode_t) (sta_state : argus_sta_state_t) (sta_connected : bool)
    (ops : option argus_wifi_apply_ops_t) :=
  wifi_transaction_begin txn generation ARGUS_WIFI_TXN_APPLY_CONFIG net_mode sta_state sta_connected ops.

Definition argus_wifi_transaction_begin_reconnect (txn : argus_wifi_transaction_t) (generation : Z)
    (net_mode : argus_network_mode_t) (sta_state : argus_sta_state_t) (sta_connected : bool)
    (ops : option argus_wifi_apply_ops_t) :=
  wifi_transaction_begin txn generation ARGUS_WIFI_TXN_MANUAL_RECONNECT net_mode sta_state sta_connected ops.

(** Whether the event was handled, the status, the transaction and the station state. *)
Definition argus_wifi_transaction_handle_disconnect (txn : argus_wifi_transaction_t) (event_generation : Z)
    (sta_state : argus_sta_state_t) (ops : argus_wifi_apply_ops_t)
    : prog E (bool * esp_err_t * argus_wifi_transaction_t * argus_sta_state_t) :=
  if negb (argus_wifi_transaction_event_matches txn event_generation)
     || negb (bool_decide (wt_state txn = ARGUS_WIFI_APPLY_WAITING_DISCONNECT))
     || negb (wt_intentional_disconnect_requested txn)
  then mret (false, ESP_OK, txn, sta_state)
  else
    '(err, txn, sta_state) ←
      wifi_transaction_connect (txn <| wt_intentional_disconnect_requested := false |>) sta_state ops;
    mret (true, err, txn, sta_state).

Definition argus_net_mgr_orchestrate_wifi_apply (net_mode : argus_network_mode_t) (sta_state : argus_sta_state_t)
    (sta_connected : bool) (ops : option argus_wifi_apply_ops_t) : prog E (esp_err_t * argus_sta_state_t) :=
  '(err, _, sta_state) ←
    argus_wifi_transaction_begin_apply argus_wifi_transaction_init 1 net_mode sta_state sta_connected ops;
  mret (err, sta_state).
End Transaction.
Arguments argus_wifi_apply_ops_t : clear implicits.
Lemma always_checked {E A} (post : A -> Prop) (op : prog E esp_err_t) fail next :
  (forall err, err <> ESP_OK -> post (fail err)) -> always post next -> always post (checked op fail next).
Proof.
  intros Hf Hn. apply always_bind. apply (always_mono (fun _ => True)); [|apply always_true].
  intros err _. destruct (is_ok err) eqn:He; [exact Hn|]. apply Hf. by apply is_ok_false.
Qed.

(** ** Credentials in memory *)

(** A password is in memory only while the transaction waits for the disconnect it asked for. *)
Definition txn_scrubbed (t : argus_wifi_transaction_t) : Prop :=
  (wt_pending_config t = zero_sta_config /\ wt_config_staged t = false) \/
  (wt_active t = true /\ wt_state t = ARGUS_WIFI_APPLY_WAITING_DISCONNECT).

(** What the manager does to its transaction. *)
Inductive txn_step {E} (ops : argus_wifi_apply_ops_t E) : relation argus_wifi_transaction_t :=
| txn_begin t generation kind mode sta connected err t' sta' :
    possible (wifi_transaction_begin t generation kind mode sta connected (Some ops)) (err, t', sta') ->
    txn_step ops t t'
| txn_disconnect t generation sta handled err t' sta' :
    possible (argus_wifi_transaction_handle_disconnect t generation sta ops) (handled, err, t', sta') ->
    txn_step ops t t'
| txn_got_ip t generation : txn_step ops t (argus_wifi_transaction_handle_got_ip t generation).2
| txn_failure t generation err :
    txn_step ops t (argus_wifi_transaction_handle_connection_failure t generation err).2
| txn_cancel t : txn_step ops t (argus_wifi_transaction_cancel t)
| txn_init t : txn_step ops t argus_wifi_transaction_init.

Section Scrubbing.
Context {E : Type -> Type} (ops : argus_wifi_apply_ops_t E).

Lemma prepare_scrubbed t generation kind mode :
  txn_scrubbed t ->
  always (fun r => if is_ok r.1 then wt_active r.2 = true else txn_scrubbed r.2)
    (wifi_transaction_prepare t generation kind mode (Some ops)).
Proof.
  intros Ht. unfold wifi_transaction_prepare. cbv beta iota zeta.
  set (v := wifi_transaction_validate_inputs _ _ _). destruct (is_ok v) eqn:Hv; cbn [negb]; [|by cbn [always mret prog_mret fst snd]; rewrite Hv].
  destruct (generation =? 0); [done|].
  do 4 (apply always_checked; [intros [] ?; (done || by left)|]).
  apply always_bind. apply (always_mono (fun _ => True)); [|apply always_true].
  intros [[err cfg] has_cfg] _. destruct (is_ok err) eqn:He; cbn [negb]; [|cbn [always mret prog_mret fst snd wifi_transaction_finish_error]; rewrite He; by left].
  apply always_checked; [intros [] ?; (done || by left)|done].
Qed.

Lemma connect_scrubbed t sta :
  always (fun r => txn_scrubbed r.1.2) (wifi_transaction_connect t sta ops).
Proof.
  unfold wifi_transaction_connect. cbv zeta. case_bool_decide.
  - apply always_checked; [intros; by left|]. apply always_checked; [intros; by left|by left].
  - apply always_checked; [intros; by left|by left].
Qed.

Lemma begin_scrubbed t generation kind mode sta connected :
  txn_scrubbed t ->
  always (fun r => txn_scrubbed r.1.2) (wifi_transaction_begin t generation kind mode sta connected (Some ops)).
Proof.
  intros Ht. apply always_bind. eapply always_mono; [|exact (prepare_scrubbed t generation kind mode Ht)].
  intros [err t'] H. cbn [fst snd] in H. destruct (is_ok err); cbn [negb]; [|exact H].
  destruct connected; [|apply connect_scrubbed].
  cbv zeta. apply always_checked; [intros; by left|by right].
Qed.

Lemma disconnect_scrubbed t generation sta :
  txn_scrubbed t ->
  always (fun r => txn_scrubbed r.1.2) (argus_wifi_transaction_handle_disconnect t generation sta ops).
Proof.
  intros Ht. unfold argus_wifi_transaction_handle_disconnect. case_match; [exact Ht|].
  apply always_bind. eapply always_mono; [|apply connect_scrubbed]. by intros [[err t'] sta'].
Qed.

(** The transaction never keeps Wi-Fi credentials in memory longer than it needs them:
    from its initial state, whatever sequence of applies, reconnects, disconnect events,
    address events, failures and cancellations the manager runs and whatever its
    operations answer, the staged configuration is zero except while the transaction is
    active and waits for the disconnect it requested. *)
Theorem credentials_scrubbed t : rtc (txn_step ops) argus_wifi_transaction_init t -> txn_scrubbed t.
Proof.
  assert (Hi : txn_scrubbed argus_wifi_transaction_init) by by left.
  apply (rtc_ind_r txn_scrubbed _ Hi). intros t1 t2 _ Hs IH.
  destruct Hs as [t1 generation kind mode sta connected err t2 sta' Hp|t1 generation sta handled err t2 sta' Hp
                 |t1 generation|t1 generation err|t1|t1].
  - exact (always_possible _ _ _ (begin_scrubbed _ _ _ _ _ _ IH) Hp).
  - exact (always_possible _ _ _ (disconnect_scrubbed _ _ _ IH) Hp).
  - unfold argus_wifi_transaction_handle_got_ip. case_match; [exact IH|by left].
  - unfold argus_wifi_transaction_handle_connection_failure. case_match; [exact IH|by left].
  - by left.
  - by left.
Qed.
End Scrubbing.

(** ** The order of the operations *)

Inductive txn_op :=
| OpStopTimers | OpRevokeSupervisory | OpStopBroker | OpVerifyBrokerStopped | OpLoadConfig
| OpValidateConfig | OpDisconnectSta | OpApplySta | OpConnectSta.

(** A table whose operations are only recorded, with any answer. *)
Inductive txn_call : Type -> Type :=
| Plain (op : txn_op) : txn_call esp_err_t
| LoadConfig : txn_call (esp_err_t * wifi_sta_config_t * bool).

Definition recorded_ops : argus_wifi_apply_ops_t txn_call := {|
  wa_stop_timers := call (Plain OpStopTimers);
  wa_revoke_supervisory := call (Plain OpRevokeSupervisory);
  wa_stop_broker := call (Plain OpStopBroker);
  wa_verify_broker_stopped := call (Plain OpVerifyBrokerStopped);
  wa_load_config := fun _ => call LoadConfig;
  wa_validate_config := fun _ _ => call (Plain OpValidateConfig);
  wa_disconnect_sta := call (Plain OpDisconnectSta);
  wa_apply_sta_config := fun _ => call (Plain OpApplySta);
  wa_connect_sta := call (Plain OpConnectSta)
|}.

(** The log: each operation called and whether it succeeded. *)
Definition txn_log : Type := list (txn_op * bool).

Definition txn_label {X} (e : txn_call X) : X -> txn_op * bool :=
  match e with
  | Plain op => fun err => (op, is_ok err)
  | LoadConfig => fun r => (OpLoadConfig, is_ok r.1.1)
  end.

Definition txn_answer {X} (e : txn_call X) : X :=
  match e with
  | Plain _ => ESP_OK
  | LoadConfig => (ESP_OK, WifiStaConfig (str "plant") (str "secret-1") true, true)
  end.

#[export] Instance txn_storage : Storage txn_call txn_log := {
  outcome X e log x log' := log' = log ++ [txn_label e x];
  torn X e log log' := False;
  perform X e log := (txn_answer e, log ++ [txn_label e (txn_answer e)]);
  perform_outcome X e log := eq_refl
}.

(** What a transaction that succeeds calls, in order. *)
Definition prepare_script : list txn_op :=
  [OpStopTimers; OpRevokeSupervisory; OpStopBroker; OpVerifyBrokerStopped; OpLoadConfig; OpValidateConfig].

Definition txn_script (kind : argus_wifi_transaction_kind_t) (connected : bool) : list txn_op :=
  prepare_script ++
  (if connected then [OpDisconnectSta]
   else if bool_decide (kind = ARGUS_WIFI_TXN_APPLY_CONFIG) then [OpApplySta; OpConnectSta] else [OpConnectSta]).

(** A prefix of the script that ends with an operation that failed. *)
Definition stopped_at (script : list txn_op) (n : nat) (err : esp_err_t) (t : argus_wifi_transaction_t) (log : txn_log) : Prop :=
  exists op, script !! n = Some op /\ log = ((fun op => (op, true)) <$> take n script) ++ [(op, false)] /\
    err <> ESP_OK /\ wt_active t = false /\ wt_state t = ARGUS_WIFI_APPLY_FAILED.

Definition follows_script (script : list txn_op) (r : esp_err_t * argus_wifi_transaction_t * argus_sta_state_t)
    (log : txn_log) : Prop :=
  (r.1.1 = ESP_OK /\ wt_active r.1.2 = true /\ log = (fun op => (op, true)) <$> script) \/
  (exists n, stopped_at script n r.1.1 r.1.2 log).

Lemma wpc_recorded {A} op (fail : esp_err_t -> A) next post log :
  (forall err, err <> ESP_OK -> post (fail err) (log ++ [(op, false)])) ->
  wpc next post (fun _ => True) (log ++ [(op, true)]) ->
  wpc (checked (call (Plain op)) fail next) post (fun _ => True) log.
Proof.
  intros Hf Hn. split; [done|]. split; [done|]. intros err log' Hl. cbn in Hl. subst log'.
  cbn [mbind prog_mbind prog_bind call txn_label]. destruct (is_ok err) eqn:He; [exact Hn|].
  split; [done|]. apply Hf. by apply is_ok_false.
Qed.

Lemma prepare_order t generation kind mode :
  wt_active t = false -> sta_operational mode = true -> generation <> 0 ->
  wpc (wifi_transaction_prepare t generation kind mode (Some recorded_ops))
    (fun r log =>
      (r.1 = ESP_OK /\ wt_active r.2 = true /\ wt_kind r.2 = kind /\ log = (fun op => (op, true)) <$> prepare_script) \/
      (exists n, stopped_at prepare_script n r.1 r.2 log))
    (fun _ => True) [].
Proof.
  intros Ha Hm Hg. unfold wifi_transaction_prepare, wifi_transaction_validate_inputs.
  rewrite Ha, Hm, (proj2 (Z.eqb_neq _ _) Hg). cbv beta iota zeta. cbn [negb is_ok].
  cbn [recorded_ops wa_stop_timers wa_revoke_supervisory wa_stop_broker wa_verify_broker_stopped wa_load_config wa_validate_config].
  apply wpc_recorded; [intros err Herr; right; by exists 0%nat, OpStopTimers|cbn [app]].
  apply wpc_recorded; [intros err Herr; right; by exists 1%nat, OpRevokeSupervisory|cbn [app]].
  apply wpc_recorded; [intros err Herr; right; by exists 2%nat, OpStopBroker|cbn [app]].
  apply wpc_recorded; [intros err Herr; right; by exists 3%nat, OpVerifyBrokerStopped|cbn [app]].
  split; [done|]. split; [done|]. intros [[err cfg] has] log' Hl. cbn in Hl. subst log'.
  cbn [mbind prog_mbind prog_bind call txn_label fst].
  destruct (is_ok err) eqn:He; cbn [negb].
  - apply wpc_recorded; [intros err' Herr; right; by exists 5%nat, OpValidateConfig|cbn [app]]. split; [done|by left].
  - apply is_ok_false in He. split; [done|]. right. by exists 4%nat, OpLoadConfig.
Qed.
(** A Wi-Fi transaction touches the network only in the prescribed order: it stops the
    timers, revokes the supervisory authority, stops the broker and verifies it, loads and
    validates the configuration, and only then disconnects, or applies and connects. At
    the first operation that fails it stops and ends inactive and failed; it reports
    success exactly when the whole sequence succeeded. *)
Theorem transaction_order t generation kind mode sta connected r log :
  wt_active t = false -> sta_operational mode = true -> generation <> 0 ->
  returns (wifi_transaction_begin t generation kind mode sta connected (Some recorded_ops)) [] r log ->
  follows_script (txn_script kind connected) r log.
Proof.
  intros Ha Hm Hg. apply (wpc_returns _ _ (fun _ => True)). apply wpc_bind.
  eapply wpc_mono; [| |exact (prepare_order t generation kind mode Ha Hm Hg)]; [|done].
  clear. intros [err t] log. cbn [fst snd]. intros [(-> & Ht & Hk & ->)|(n & op & Hn & -> & He & Ht & Hs)].
  - cbn [negb is_ok]. destruct connected.
    + apply wpc_recorded; [intros err Herr; right; by exists 6%nat, OpDisconnectSta|]. split; [done|by left].
    + unfold wifi_transaction_connect, txn_script. rewrite Hk. case_bool_decide; cbv zeta.
      * apply wpc_recorded; [intros err Herr; right; by exists 6%nat, OpApplySta|].
        apply wpc_recorded; [intros err Herr; right; by exists 7%nat, OpConnectSta|]. split; [done|by left].
      * apply wpc_recorded; [intros err Herr; right; by exists 6%nat, OpConnectSta|]. split; [done|by left].
  - rewrite (proj2 (is_ok_false err) He). cbn [negb]. split; [done|]. right. exists n, op.
    pose proof (lookup_lt_Some _ _ _ Hn) as Hl. unfold txn_script.
    rewrite lookup_app_l, take_app_le by (unfold prepare_script in *; cbn in *; lia). done.
Qed.

Lemma transaction_order_witness :
  let r := run (wifi_transaction_begin argus_wifi_transaction_init 1 ARGUS_WIFI_TXN_APPLY_CONFIG
                  ARGUS_NET_MODE_AP_DISCOVERABLE ARGUS_STA_IDLE false (Some recorded_ops)) [] in
  wt_state r.1.1.2 = ARGUS_WIFI_APPLY_CONNECTING /\ follows_script (txn_script ARGUS_WIFI_TXN_APPLY_CONFIG false) r.1 r.2.
Proof.
  split; [done|]. refine (transaction_order argus_wifi_transaction_init 1 ARGUS_WIFI_TXN_APPLY_CONFIG
    ARGUS_NET_MODE_AP_DISCOVERABLE ARGUS_STA_IDLE false _ _ eq_refl eq_refl _ _); [done|apply run_returns].
Defined.

(** A reconnect while connected stops in the one state that may hold credentials. *)
Definition demo_waiting : argus_wifi_transaction_t :=
  (run (wifi_transaction_begin argus_wifi_transaction_init 1 ARGUS_WIFI_TXN_APPLY_CONFIG
          ARGUS_NET_MODE_AP_DISCOVERABLE ARGUS_STA_CONNECTED true (Some recorded_ops)) []).1.1.2.

Lemma credentials_scrubbed_witness :
  wt_config_staged demo_waiting = true /\ txn_scrubbed demo_waiting.
Proof.
  split; [done|]. apply (credentials_scrubbed recorded_ops). apply rtc_once.
  apply (txn_begin recorded_ops _ 1 ARGUS_WIFI_TXN_APPLY_CONFIG ARGUS_NET_MODE_AP_DISCOVERABLE ARGUS_STA_CONNECTED true
           ESP_OK _ ARGUS_STA_CONNECTED).
  exact (run_possible (F := txn_log) (wifi_transaction_begin argus_wifi_transaction_init 1 ARGUS_WIFI_TXN_APPLY_CONFIG
    ARGUS_NET_MODE_AP_DISCOVERABLE ARGUS_STA_CONNECTED true (Some recorded_ops)) []).
Defined.
