(* ===== verification/ServicePolicy.v ===== *)
(** * Entry to and exit from local service: the policy

    [src/main/argus_service_policy.c] with the snapshot, event and error types of
    [argus_net_mgr.h] it works on: when a request for local service is admitted, the
    fingerprint an admitted request carries, and when the exit is admitted. *)

From S2P Require Import Prelude Storage Authority NetLink WifiTransaction.

Inductive argus_net_err_t :=
| ARGUS_NET_ERR_NONE
| ARGUS_NET_ERR_NVS_CORRUPT
| ARGUS_NET_ERR_SLOT_CRC_FAILED
| ARGUS_NET_ERR_UNSUPPORTED_SCHEMA
| ARGUS_NET_ERR_COMMIT_FAILED
| ARGUS_NET_ERR_READBACK_FAILED
| ARGUS_NET_ERR_STA_CONNECT_TIMEOUT
| ARGUS_NET_ERR_AP_START_FAILED
| ARGUS_NET_ERR_STOP_TIMEOUT
| ARGUS_NET_ERR_STA_SHUTDOWN_FAILED
| ARGUS_NET_ERR_SERVICE_CRED_MISSING
| ARGUS_NET_ERR_QUEUE_OVERFLOW
| ARGUS_NET_ERR_AUTHORITY_VIOLATION
| ARGUS_NET_ERR_OWNER_VIOLATION
| ARGUS_NET_ERR_RESET_FAILED
| ARGUS_NET_ERR_REBOOT_PREP_FAILED
| ARGUS_NET_ERR_TIMER_COMMAND_FAILED
| ARGUS_NET_ERR_WIFI_TRANSACTION_FAILED
| ARGUS_NET_ERR_SECURITY_RECOVERY_FAILED.

Inductive argus_service_cancel_failure_t :=
| ARGUS_SERVICE_CANCEL_FAILURE_NONE
| ARGUS_SERVICE_CANCEL_FAILURE_RETRY_TIMER
| ARGUS_SERVICE_CANCEL_FAILURE_IP_TIMER.
#[export] Instance cancel_failure_eq_dec : EqDecision argus_service_cancel_failure_t.
Proof. solve_decision. Defined.

Inductive argus_svc_policy_result_t :=
| ARGUS_SVC_POLICY_OK
| ARGUS_SVC_POLICY_IDEMPOTENT
| ARGUS_SVC_POLICY_REJECT_MODE
| ARGUS_SVC_POLICY_REJECT_AUTHORITY
| ARGUS_SVC_POLICY_TRANSITION_IN_PROGRESS.
#[export] Instance svc_policy_eq_dec : EqDecision argus_svc_policy_result_t.
Proof. solve_decision. Defined.

Record argus_net_snapshot_t := NetSnapshot {
  sn_mode : argus_network_mode_t;
  sn_last_error : argus_net_err_t;
  sn_sta_connected : bool;
  sn_sta_ip_acquired : bool;
  sn_ap_started : bool;
  sn_mqtt_broker_running : bool;
  sn_mqtt_broker_stopped : bool;
  sn_mqtt_broker_observable : bool;
  sn_commissioned : bool;
  sn_sta_state : argus_sta_state_t;
  sn_last_disconnect_category : argus_disconnect_category_t;
  sn_last_disconnect_reason : wifi_reason_t;
  sn_consecutive_failures : Z;
  sn_seconds_until_retry : Z;
  sn_action_required : bool;
  sn_manual_reconnect_permitted : bool;
  sn_sta_ip_address : bytes;
  sn_apply_state : argus_wifi_apply_state_t;
  sn_timer_generation : Z;
  sn_wifi_transaction_active : bool;
  sn_factory_reset_pending : bool;
  sn_transaction_generation : Z;
  sn_auto_retry_timer_active : bool;
  sn_auto_retry_timer_generation : Z;
  sn_ip_timeout_timer_active : bool;
  sn_ip_timeout_timer_generation : Z;
  sn_last_service_cancel_failure : argus_service_cancel_failure_t;
  sn_last_service_cancel_error : esp_err_t
}.

Record argus_service_entry_fingerprint_t := Fingerprint {
  fp_mode : argus_network_mode_t;
  fp_sta_state : argus_sta_state_t;
  fp_apply_state : argus_wifi_apply_state_t;
  fp_authority_mode : argus_control_authority_t;
  fp_authority_owner : argus_authority_owner_t;
  fp_authority_generation : Z;
  fp_timer_generation : Z;
  fp_transaction_generation : Z;
  fp_auto_retry_timer_generation : Z;
  fp_ip_timeout_timer_generation : Z;
  fp_consecutive_failures : Z;
  fp_last_disconnect_reason : wifi_reason_t;
  fp_last_disconnect_category : argus_disconnect_category_t;
  fp_sta_connected : bool;
  fp_sta_ip_acquired : bool;
  fp_ap_started : bool;
  fp_mqtt_broker_running : bool;
  fp_mqtt_broker_stopped : bool;
  fp_mqtt_broker_observable : bool;
  fp_commissioned : bool;
  fp_wifi_transaction_active : bool;
  fp_auto_retry_timer_active : bool;
  fp_ip_timeout_timer_active : bool
}.

Inductive argus_net_event_type_t :=
| ARGUS_NET_EVT_SERVICE_REQUEST
| ARGUS_NET_EVT_SERVICE_EXIT
| ARGUS_NET_EVT_STA_ASSOCIATED
| ARGUS_NET_EVT_STA_CONNECTED
| ARGUS_NET_EVT_STA_DISCONNECTED
| ARGUS_NET_EVT_AP_CLIENT_CONNECTED
| ARGUS_NET_EVT_AP_CLIENT_DISCONNECTED
| ARGUS_NET_EVT_RESTART_REQUEST
| ARGUS_NET_EVT_FACTORY_RESET_REQUEST
| ARGUS_NET_EVT_MANUAL_RECONNECT_REQUEST
| ARGUS_NET_EVT_AUTO_RECONNECT_WAKEUP
| ARGUS_NET_EVT_APPLY_WIFI_CONFIG
| ARGUS_NET_EVT_APPLY_ACTIVE_AP_SECRET
| ARGUS_NET_EVT_STA_STOPPED
| ARGUS_NET_EVT_SECURITY_RECOVERY_REQUEST.

(** [service_preflight_required] and [service_preflight] together are an option. *)
Record argus_net_event_t := NetEvent {
  ev_type : argus_net_event_type_t;
  ev_requested_owner : argus_authority_owner_t;
  ev_disconnect_reason : wifi_reason_t;
  ev_timer_generation : Z;
  ev_transaction_generation : Z;
  ev_service_preflight : option argus_service_entry_fingerprint_t
}.

(** The designated initialisers of the code: every other member is zero. *)
Definition plain_event (type : argus_net_event_type_t) : argus_net_event_t :=
  NetEvent type ARGUS_AUTH_OWNER_NONE REASON_NONE 0 0 None.

Definition recovery_state_is_eligible (net : argus_net_snapshot_t) : bool :=
  if sn_wifi_transaction_active net then
    match sn_apply_state net with
    | ARGUS_WIFI_APPLY_PREPARING | ARGUS_WIFI_APPLY_WAITING_DISCONNECT
    | ARGUS_WIFI_APPLY_APPLYING_CONFIG | ARGUS_WIFI_APPLY_CONNECTING => true
    | _ => false
    end
  else
    match sn_sta_state net with
    | ARGUS_STA_RETRY_WAIT | ARGUS_STA_ACTION_REQUIRED | ARGUS_STA_IDLE => true
    | _ => false
    end.

Definition capture_entry_fingerprint (net : argus_net_snapshot_t) (auth : argus_authority_snapshot_t)
    : argus_service_entry_fingerprint_t :=
  Fingerprint (sn_mode net) (sn_sta_state net) (sn_apply_state net) (as_mode auth) (as_owner auth)
    (as_generation auth) (sn_timer_generation net) (sn_transaction_generation net)
    (sn_auto_retry_timer_generation net) (sn_ip_timeout_timer_generation net) (sn_consecutive_failures net)
    (sn_last_disconnect_reason net) (sn_last_disconnect_category net) (sn_sta_connected net)
    (sn_sta_ip_acquired net) (sn_ap_started net) (sn_mqtt_broker_running net) (sn_mqtt_broker_stopped net)
    (sn_mqtt_broker_observable net) (sn_commissioned net) (sn_wifi_transaction_active net)
    (sn_auto_retry_timer_active net) (sn_ip_timeout_timer_active net).

Definition argus_service_entry_fingerprint_matches (expected actual : argus_service_entry_fingerprint_t) : bool :=
  bool_decide (fp_mode expected = fp_mode actual)
  && bool_decide (fp_sta_state expected = fp_sta_state actual)
  && bool_decide (fp_apply_state expected = fp_apply_state actual)
  && bool_decide (fp_authority_mode expected = fp_authority_mode actual)
  && bool_decide (fp_authority_owner expected = fp_authority_owner actual)
  && (fp_authority_generation expected =? fp_authority_generation actual)
  && (fp_timer_generation expected =? fp_timer_generation actual)
  && (fp_transaction_generation expected =? fp_transaction_generation actual)
  && (fp_auto_retry_timer_generation expected =? fp_auto_retry_timer_generation actual)
  && (fp_ip_timeout_timer_generation expected =? fp_ip_timeout_timer_generation actual)
  && (fp_consecutive_failures expected =? fp_consecutive_failures actual)
  && bool_decide (fp_last_disconnect_reason expected = fp_last_disconnect_reason actual)
  && bool_decide (fp_last_disconnect_category expected = fp_last_disconnect_category actual)
  && bool_decide (fp_sta_connected expected = fp_sta_connected actual)
  && bool_decide (fp_sta_ip_acquired expected = fp_sta_ip_acquired actual)
  && bool_decide (fp_ap_started expected = fp_ap_started actual)
  && bool_decide (fp_mqtt_broker_running expected = fp_mqtt_broker_running actual)
  && bool_decide (fp_mqtt_broker_stopped expected = fp_mqtt_broker_stopped actual)
  && bool_decide (fp_mqtt_broker_observable expected = fp_mqtt_broker_observable actual)
  && bool_decide (fp_commissioned expected = fp_commissioned actual)
  && bool_decide (fp_wifi_transaction_active expected = fp_wifi_transaction_active actual)
  && bool_decide (fp_auto_retry_timer_active expected = fp_auto_retry_timer_active actual)
  && bool_decide (fp_ip_timeout_timer_active expected = fp_ip_timeout_timer_active actual).

(** The recovery combination: no authority, no station link, the broker observed stopped. *)
Definition recovery_entry (net : argus_net_snapshot_t) (auth : argus_authority_snapshot_t) : bool :=
  bool_decide (as_mode auth = ARGUS_AUTHORITY_NONE) && bool_decide (as_owner auth = ARGUS_AUTH_OWNER_NONE)
  && sn_commissioned net && negb (sn_sta_connected net) && negb (sn_sta_ip_acquired net)
  && sn_mqtt_broker_observable net && sn_mqtt_broker_stopped net && negb (sn_mqtt_broker_running net)
  && recovery_state_is_eligible net.

Definition normal_entry (auth : argus_authority_snapshot_t) : bool :=
  bool_decide (as_mode auth = ARGUS_AUTHORITY_SUPERVISORY) && bool_decide (as_owner auth = ARGUS_AUTH_OWNER_MQTT).

(** The verdict, with the event of an admitted request. *)
Definition argus_service_policy_evaluate_entry_for_owner (net : argus_net_snapshot_t)
    (auth : argus_authority_snapshot_t) (requested_owner : argus_authority_owner_t)
    : argus_svc_policy_result_t * option argus_net_event_t :=
  if negb (local_owner requested_owner) then (ARGUS_SVC_POLICY_REJECT_AUTHORITY, None)
  else if bool_decide (sn_mode net = ARGUS_NET_MODE_SERVICE_AP_ONLY)
          && bool_decide (as_mode auth = ARGUS_AUTHORITY_LOCAL_SERVICE)
          && bool_decide (as_owner auth = ARGUS_AUTH_OWNER_BROWSER) then (ARGUS_SVC_POLICY_IDEMPOTENT, None)
  else if bool_decide (sn_mode net = ARGUS_NET_MODE_SERVICE_TRANSITION) then
    (ARGUS_SVC_POLICY_TRANSITION_IN_PROGRESS, None)
  else if negb (sn_ap_started net) then (ARGUS_SVC_POLICY_REJECT_MODE, None)
  else
    let admitted :=
      (ARGUS_SVC_POLICY_OK,
       Some (NetEvent ARGUS_NET_EVT_SERVICE_REQUEST requested_owner REASON_NONE 0 0
               (Some (capture_entry_fingerprint net auth)))) in
    match sn_mode net with
    | ARGUS_NET_MODE_AP_DISCOVERABLE =>
        if negb (normal_entry auth) && negb (recovery_entry net auth)
        then (ARGUS_SVC_POLICY_REJECT_AUTHORITY, None) else admitted
    | ARGUS_NET_MODE_UNCOMMISSIONED_AP =>
        if negb (bool_decide (as_mode auth = ARGUS_AUTHORITY_NONE))
           || negb (bool_decide (as_owner auth = ARGUS_AUTH_OWNER_NONE))
        then (ARGUS_SVC_POLICY_REJECT_AUTHORITY, None) else admitted
    | _ => (ARGUS_SVC_POLICY_REJECT_MODE, None)
    end.

Definition argus_service_policy_evaluate_entry (net : argus_net_snapshot_t) (auth : argus_authority_snapshot_t) :=
  argus_service_policy_evaluate_entry_for_owner net auth ARGUS_AUTH_OWNER_BROWSER.

Definition argus_service_policy_entry_permitted (net : argus_net_snapshot_t) (auth : argus_authority_snapshot_t) : bool :=
  bool_decide ((argus_service_policy_evaluate_entry net auth).1 = ARGUS_SVC_POLICY_OK).

Definition argus_service_policy_evaluate_exit (net : argus_net_snapshot_t) (auth : argus_authority_snapshot_t)
    : argus_svc_policy_result_t * option argus_net_event_t :=
  if negb (bool_decide (sn_mode net = ARGUS_NET_MODE_SERVICE_AP_ONLY)) then (ARGUS_SVC_POLICY_REJECT_MODE, None)
  else if negb (bool_decide (as_mode auth = ARGUS_AUTHORITY_LOCAL_SERVICE))
          || negb (bool_decide (as_owner auth = ARGUS_AUTH_OWNER_BROWSER))
  then (ARGUS_SVC_POLICY_REJECT_AUTHORITY, None)
  else (ARGUS_SVC_POLICY_OK,
        Some (NetEvent ARGUS_NET_EVT_SERVICE_EXIT ARGUS_AUTH_OWNER_BROWSER REASON_NONE 0 0 None)).

(** ** Cancelling the recovery a request interrupts *)

Record argus_service_cancel_state_t := CancelState {
  cn_sta_state : argus_sta_state_t;
  cn_net_error : argus_net_err_t;
  cn_cancel_failure : argus_service_cancel_failure_t;
  cn_cancel_error : esp_err_t
}.

Definition argus_net_record_service_cancel_failure (state : argus_service_cancel_state_t)
    (failure : argus_service_cancel_failure_t) (error : esp_err_t) : argus_service_cancel_state_t :=
  if bool_decide (failure = ARGUS_SERVICE_CANCEL_FAILURE_NONE) || is_ok error then state
  else CancelState ARGUS_STA_ACTION_REQUIRED ARGUS_NET_ERR_TIMER_COMMAND_FAILED failure error.

Definition argus_net_service_cancel_guidance (failure : argus_service_cancel_failure_t) : bytes :=
  match failure with
  | ARGUS_SERVICE_CANCEL_FAILURE_RETRY_TIMER =>
      str "Auto-retry timer stop failed. Use Reconnect Wi-Fi or Enter Local Service."
  | ARGUS_SERVICE_CANCEL_FAILURE_IP_TIMER =>
      str "IP-timeout timer stop failed. Use Reconnect Wi-Fi or Enter Local Service."
  | ARGUS_SERVICE_CANCEL_FAILURE_NONE => []
  end.

(** The status and which timer failed to stop. *)
Definition cancel_result : Type := esp_err_t * argus_service_cancel_failure_t.

Definition argus_net_service_commit_recovery {E} (policy : argus_svc_policy_result_t)
    (expected : option argus_service_entry_fingerprint_t) (actual : argus_service_entry_fingerprint_t)
    (cancel_recovery : prog E cancel_result) : prog E cancel_result :=
  if negb (bool_decide (policy = ARGUS_SVC_POLICY_OK))
     || match expected with
        | Some expected => negb (argus_service_entry_fingerprint_matches expected actual)
        | None => false
        end
  then mret (ESP_ERR_INVALID_STATE, ARGUS_SERVICE_CANCEL_FAILURE_NONE)
  else cancel_recovery.
