(* ===== verification/FactoryReset.v ===== *)
(** * The configuration factory reset

    [src/main/argus_factory_reset.c]: the strict decoder of the request body, the bounded
    reception of it, the policy, and the transaction that revalidates, revokes, erases
    and reboots through a table of operations. *)

From S2P Require Import Prelude StateMgr Authority Storage NetLink WifiTransaction ServicePolicy.

Definition ARGUS_FACTORY_RESET_MAX_BODY_LEN : nat := 96.
Definition ARGUS_FACTORY_RESET_CONFIRMATION : bytes := str "FACTORY_RESET".
Definition ARGUS_FACTORY_RESET_BODY_RECV_TIMEOUT : Z := -1000.

Inductive argus_factory_reset_decode_result_t :=
| ARGUS_FACTORY_RESET_DECODE_OK
| ARGUS_FACTORY_RESET_DECODE_INVALID_ARGUMENT
| ARGUS_FACTORY_RESET_DECODE_EMPTY
| ARGUS_FACTORY_RESET_DECODE_TOO_LARGE
| ARGUS_FACTORY_RESET_DECODE_MALFORMED
| ARGUS_FACTORY_RESET_DECODE_MISSING_CONFIRMATION
| ARGUS_FACTORY_RESET_DECODE_DUPLICATE_FIELD
| ARGUS_FACTORY_RESET_DECODE_UNKNOWN_FIELD
| ARGUS_FACTORY_RESET_DECODE_WRONG_CONFIRMATION.

Inductive argus_factory_reset_receive_result_t :=
| ARGUS_FACTORY_RESET_RECEIVE_OK
| ARGUS_FACTORY_RESET_RECEIVE_INVALID_ARGUMENT
| ARGUS_FACTORY_RESET_RECEIVE_EMPTY
| ARGUS_FACTORY_RESET_RECEIVE_TOO_LARGE
| ARGUS_FACTORY_RESET_RECEIVE_TRUNCATED
| ARGUS_FACTORY_RESET_RECEIVE_TIMEOUT
| ARGUS_FACTORY_RESET_RECEIVE_ERROR.

(** ** The decoder

    The parser's position is the rest of the body. *)

Definition is_ws (ch : Z) : bool := (ch =? 32) || (ch =? 9) || (ch =? 13) || (ch =? 10).
Definition skip_ws (p : bytes) : bytes := skip_while is_ws p.

(** The loop of [parse_ascii_string]: what is read into [out], and the rest. *)
Fixpoint string_body (out_size used : nat) (p : bytes) : option (bytes * bytes) :=
  match p with
  | [] => None
  | ch :: p =>
      if ch =? 34 then Some ([], p)
      else if (ch <? 32) || (126 <? ch) || (ch =? 92) || (out_size <=? used + 1)%nat then None
      else match string_body out_size (S used) p with
           | Some (out, p) => Some (ch :: out, p)
           | None => None
           end
  end.

Definition parse_ascii_string (out_size : nat) (p : bytes) : option (bytes * bytes) :=
  match p with
  | ch :: p => if negb (ch =? 34) || (out_size =? 0)%nat then None else string_body out_size 0 p
  | [] => None
  end.

(** [p.pos >= p.len || p.body[p.pos++] != c] *)
Definition expect (c : Z) (p : bytes) : option bytes :=
  match p with ch :: p => if ch =? c then Some p else None | [] => None end.

(** After the confirmation: a second member, or the end. *)
Definition decode_tail (p : bytes) : argus_factory_reset_decode_result_t :=
  match expect 44 p with
  | Some p =>
      match parse_ascii_string 16 (skip_ws p) with
      | None => ARGUS_FACTORY_RESET_DECODE_MALFORMED
      | Some (second_key, _) =>
          if bool_decide (second_key = str "confirm") then ARGUS_FACTORY_RESET_DECODE_DUPLICATE_FIELD
          else ARGUS_FACTORY_RESET_DECODE_UNKNOWN_FIELD
      end
  | None =>
      match expect 125 p with
      | None => ARGUS_FACTORY_RESET_DECODE_MALFORMED
      | Some p =>
          match skip_ws p with [] => ARGUS_FACTORY_RESET_DECODE_OK | _ => ARGUS_FACTORY_RESET_DECODE_MALFORMED end
      end
  end.

Definition decode_confirmation (p : bytes) : argus_factory_reset_decode_result_t :=
  match expect 58 (skip_ws p) with
  | None => ARGUS_FACTORY_RESET_DECODE_MALFORMED
  | Some p =>
      match parse_ascii_string 24 (skip_ws p) with
      | None => ARGUS_FACTORY_RESET_DECODE_MALFORMED
      | Some (confirmation, p) =>
          if negb (bool_decide (confirmation = ARGUS_FACTORY_RESET_CONFIRMATION))
          then ARGUS_FACTORY_RESET_DECODE_WRONG_CONFIRMATION
          else decode_tail (skip_ws p)
      end
  end.

(** A NULL body is [None]. *)
Definition argus_factory_reset_decode (body : option bytes) (body_len : nat) : argus_factory_reset_decode_result_t :=
  match body with
  | None => if (body_len =? 0)%nat then ARGUS_FACTORY_RESET_DECODE_EMPTY
            else ARGUS_FACTORY_RESET_DECODE_INVALID_ARGUMENT
  | Some body =>
      if (body_len =? 0)%nat then ARGUS_FACTORY_RESET_DECODE_EMPTY
      else if (ARGUS_FACTORY_RESET_MAX_BODY_LEN <? body_len)%nat then ARGUS_FACTORY_RESET_DECODE_TOO_LARGE
      else
        match expect 123 (skip_ws (take body_len body)) with
        | None => ARGUS_FACTORY_RESET_DECODE_MALFORMED
        | Some p =>
            match expect 125 (skip_ws p) with
            | Some _ => ARGUS_FACTORY_RESET_DECODE_MISSING_CONFIRMATION
            | None =>
                match parse_ascii_string 16 (skip_ws p) with
                | None => ARGUS_FACTORY_RESET_DECODE_MALFORMED
                | Some (key, p) =>
                    if negb (bool_decide (key = str "confirm")) then ARGUS_FACTORY_RESET_DECODE_UNKNOWN_FIELD
                    else decode_confirmation p
                end
            end
        end
  end.

(** The header is compared without case, then an optional [charset=utf-8]. *)
Fixpoint after_caseless (expected l : bytes) : option bytes :=
  match expected, l with
  | [], l => Some l
  | e :: expected, c :: l => if tolower c =? e then after_caseless expected l else None
  | _ :: _, [] => None
  end.

Definition is_blank (c : Z) : bool := (c =? 32) || (c =? 9).

Definition argus_factory_reset_content_type_valid (content_type : option bytes) : bool :=
  match content_type with
  | None => false
  | Some content_type =>
      match after_caseless (str "application/json") content_type with
      | None => false
      | Some rest =>
          match skip_while is_blank rest with
          | [] => true
          | c :: rest =>
              if negb (c =? 59) then false
              else match after_caseless (str "charset=utf-8") (skip_while is_blank rest) with
                   | None => false
                   | Some rest => bool_decide (skip_while is_blank rest = [])
                   end
          end
      end
  end.

(** ** Reception

    [recv ctx max_len] returns the count (negative for an error), the bytes it stored
    and the context.  [fuel] bounds the loop: every chunk has at least one byte. *)
Section Receive.
Context {X : Type} (recv : X -> nat -> Z * bytes * X).

Fixpoint receive_loop (fuel : nat) (ctx : X) (received : bytes) (content_len : nat)
    : option (argus_factory_reset_receive_result_t * bytes) :=
  if negb (length received <? content_len)%nat then Some (ARGUS_FACTORY_RESET_RECEIVE_OK, received)
  else
    match fuel with
    | O => None
    | S fuel =>
        let '(chunk, data, ctx) := recv ctx (content_len - length received)%nat in
        if chunk =? ARGUS_FACTORY_RESET_BODY_RECV_TIMEOUT then Some (ARGUS_FACTORY_RESET_RECEIVE_TIMEOUT, [])
        else if chunk =? 0 then Some (ARGUS_FACTORY_RESET_RECEIVE_TRUNCATED, [])
        else if (chunk <? 0) || (Z.of_nat (content_len - length received) <? chunk)
        then Some (ARGUS_FACTORY_RESET_RECEIVE_ERROR, [])
        else receive_loop fuel ctx (received ++ take (Z.to_nat chunk) data) content_len
    end.

(** The verdict and the body, whose length is [*out_len]. *)
Definition argus_factory_reset_receive_body (content_len : nat) (ctx : X) (out_capacity : nat)
    : option (argus_factory_reset_receive_result_t * bytes) :=
  if (content_len =? 0)%nat then Some (ARGUS_FACTORY_RESET_RECEIVE_EMPTY, [])
  else if (ARGUS_FACTORY_RESET_MAX_BODY_LEN <? content_len)%nat then Some (ARGUS_FACTORY_RESET_RECEIVE_TOO_LARGE, [])
  else if (out_capacity <? content_len)%nat then Some (ARGUS_FACTORY_RESET_RECEIVE_INVALID_ARGUMENT, [])
  else receive_loop content_len ctx [] content_len.
End Receive.

Record argus_factory_reset_receive_disposition_t := Disposition {
  dp_continue_request : bool;
  dp_close_session : bool;
  dp_status_code : Z;
  dp_handler_result_after_response : esp_err_t
}.

Definition argus_factory_reset_receive_disposition (result : argus_factory_reset_receive_result_t)
    : argus_factory_reset_receive_disposition_t :=
  match result with
  | ARGUS_FACTORY_RESET_RECEIVE_OK => Disposition true false 202 ESP_OK
  | ARGUS_FACTORY_RESET_RECEIVE_EMPTY => Disposition false false 400 ESP_OK
  | ARGUS_FACTORY_RESET_RECEIVE_TOO_LARGE
  | ARGUS_FACTORY_RESET_RECEIVE_TRUNCATED
  | ARGUS_FACTORY_RESET_RECEIVE_TIMEOUT
  | ARGUS_FACTORY_RESET_RECEIVE_ERROR => Disposition false true 400 ESP_FAIL
  | ARGUS_FACTORY_RESET_RECEIVE_INVALID_ARGUMENT => Disposition false true 500 ESP_FAIL
  end.

(** ** The policy *)

Inductive argus_factory_reset_policy_result_t :=
| ARGUS_FACTORY_RESET_POLICY_OK
| ARGUS_FACTORY_RESET_POLICY_WRONG_NETWORK
| ARGUS_FACTORY_RESET_POLICY_WRONG_AUTHORITY
| ARGUS_FACTORY_RESET_POLICY_LIFECYCLE_CONFLICT
| ARGUS_FACTORY_RESET_POLICY_UNSAFE_MACHINE
| ARGUS_FACTORY_RESET_POLICY_NETWORK_NOT_CONVERGED.
#[export] Instance reset_policy_eq_dec : EqDecision argus_factory_reset_policy_result_t.
Proof. solve_decision. Defined.

Definition state_is_stationary_safe (state : argus_state_snapshot_t) : bool :=
  negb (ss_estop_latched state) && (ss_fault_code state =? 0)
  && (is_state (ss_machine_state state) ARGUS_STATE_UNLOCKED
      || is_state (ss_machine_state state) ARGUS_STATE_HOLDING)
  && (ss_applied_rpm_milli state =? 0) && (ss_generated_rpm_milli state =? 0)
  && negb (ss_ramp_active state).

Definition service_network_is_converged (net : argus_net_snapshot_t) : bool :=
  negb (sn_sta_connected net) && negb (sn_sta_ip_acquired net)
  && bool_decide (sn_sta_state net = ARGUS_STA_DISABLED) && sn_ap_started net
  && negb (sn_mqtt_broker_running net) && sn_mqtt_broker_stopped net.

Definition argus_factory_reset_evaluate_policy (net : argus_net_snapshot_t) (authority : argus_authority_snapshot_t)
    (state : argus_state_snapshot_t) (lifecycle_conflict : bool) : argus_factory_reset_policy_result_t :=
  if lifecycle_conflict || sn_wifi_transaction_active net then ARGUS_FACTORY_RESET_POLICY_LIFECYCLE_CONFLICT
  else if negb (bool_decide (sn_mode net = ARGUS_NET_MODE_SERVICE_AP_ONLY)) then
    ARGUS_FACTORY_RESET_POLICY_WRONG_NETWORK
  else if negb (bool_decide (as_mode authority = ARGUS_AUTHORITY_LOCAL_SERVICE))
          || negb (bool_decide (as_owner authority = ARGUS_AUTH_OWNER_BROWSER)) then
    ARGUS_FACTORY_RESET_POLICY_WRONG_AUTHORITY
  else if negb (state_is_stationary_safe state) then ARGUS_FACTORY_RESET_POLICY_UNSAFE_MACHINE
  else if negb (service_network_is_converged net) then ARGUS_FACTORY_RESET_POLICY_NETWORK_NOT_CONVERGED
  else ARGUS_FACTORY_RESET_POLICY_OK.

(** ** The transaction *)

Inductive argus_factory_reset_step_t :=
| ARGUS_FACTORY_RESET_STEP_LOCK_LIFECYCLE
| ARGUS_FACTORY_RESET_STEP_LOCK_DISPATCH
| ARGUS_FACTORY_RESET_STEP_PREFLIGHT
| ARGUS_FACTORY_RESET_STEP_BEGIN_TRANSITION
| ARGUS_FACTORY_RESET_STEP_RESPONSE_GRACE
| ARGUS_FACTORY_RESET_STEP_STOP_HTTP
| ARGUS_FACTORY_RESET_STEP_FINAL_REVALIDATION
| ARGUS_FACTORY_RESET_STEP_REVOKE_AUTHORITY
| ARGUS_FACTORY_RESET_STEP_ERASE_CONFIG
| ARGUS_FACTORY_RESET_STEP_REBOOT.

(** [failed_at_step] 0 is [None]. *)
Record argus_factory_reset_result_t := ResetResult {
  rs_accepted : bool;
  rs_failed_at_step : option argus_factory_reset_step_t;
  rs_authority_revoked : bool;
  rs_http_stopped : bool;
  rs_configuration_erased : bool;
  rs_reboot_called : bool;
  rs_error : esp_err_t
}.
#[export] Instance eta_reset_result : Eta argus_factory_reset_result_t := fun r =>
  ResetResult (rs_accepted r) (rs_failed_at_step r) (rs_authority_revoked r) (rs_http_stopped r)
    (rs_configuration_erased r) (rs_reboot_called r) (rs_error r).

Section Execute.
Context {E : Type -> Type}.

Record argus_factory_reset_ops_t := FactoryResetOps {
  fr_lock_lifecycle : prog E esp_err_t;
  fr_unlock_lifecycle : prog E unit;
  fr_lock_dispatch : prog E unit;
  fr_unlock_dispatch : prog E unit;
  fr_get_network_snapshot : prog E (esp_err_t * argus_net_snapshot_t);
  fr_get_authority_snapshot : prog E (esp_err_t * argus_authority_snapshot_t);
  fr_get_state_snapshot : prog E argus_state_snapshot_t;
  fr_begin_transition : prog E esp_err_t;
  fr_response_grace_delay : prog E unit;
  fr_stop_http : prog E esp_err_t;
  fr_revoke_authority : prog E esp_err_t;
  fr_erase_configuration : prog E esp_err_t;
  fr_reboot : prog E unit
}.

Definition reset_failed (step : argus_factory_reset_step_t) (err : esp_err_t) : argus_factory_reset_result_t :=
  ResetResult false (Some step) false false false false err.

(** The three snapshots, or the first error. *)
Definition reset_snapshots (ops : argus_factory_reset_ops_t)
    : prog E (esp_err_t + argus_net_snapshot_t * argus_authority_snapshot_t * argus_state_snapshot_t) :=
  '(err, net) ← fr_get_network_snapshot ops;
  if negb (is_ok err) then mret (inl err)
  else
    '(err, authority) ← fr_get_authority_snapshot ops;
    if negb (is_ok err) then mret (inl err)
    else
      state ← fr_get_state_snapshot ops;
      mret (inr (net, authority, state)).

Definition release_locks (ops : argus_factory_reset_ops_t) : prog E unit :=
  fr_unlock_dispatch ops ;; fr_unlock_lifecycle ops.

Definition preflight_ok (s : esp_err_t + argus_net_snapshot_t * argus_authority_snapshot_t * argus_state_snapshot_t) : bool :=
  match s with
  | inl _ => false
  | inr (net, authority, state) =>
      bool_decide (argus_factory_reset_evaluate_policy net authority state false = ARGUS_FACTORY_RESET_POLICY_OK)
  end.

Definition transition_valid (s : esp_err_t + argus_net_snapshot_t * argus_authority_snapshot_t * argus_state_snapshot_t) : bool :=
  match s with
  | inl _ => false
  | inr (net, authority, state) =>
      bool_decide (sn_mode net = ARGUS_NET_MODE_SERVICE_TRANSITION) && service_network_is_converged net
      && bool_decide (as_mode authority = ARGUS_AUTHORITY_SERVICE_TRANSITION)
      && bool_decide (as_owner authority = ARGUS_AUTH_OWNER_NONE) && state_is_stationary_safe state
  end.

(** The error of snapshots that do not permit the step. *)
Definition snapshot_error {Y} (s : esp_err_t + Y) : esp_err_t :=
  match s with inl err => err | inr _ => ESP_ERR_INVALID_STATE end.

(** From the final revalidation on; the server is stopped. *)
Definition reset_finish (ops : argus_factory_reset_ops_t) (result : argus_factory_reset_result_t)
    : prog E argus_factory_reset_result_t :=
  let at_step step (result : argus_factory_reset_result_t) := result <| rs_failed_at_step := Some step |> in
  let result := at_step ARGUS_FACTORY_RESET_STEP_FINAL_REVALIDATION result in
  err ← fr_lock_lifecycle ops;
  if negb (is_ok err) then mret (result <| rs_error := err |>)
  else
    fr_lock_dispatch ops ;;
    s ← reset_snapshots ops;
    if negb (transition_valid s) then
      fr_revoke_authority ops ;; release_locks ops ;;
      mret (result <| rs_error := snapshot_error s |>)
    else
      let result := at_step ARGUS_FACTORY_RESET_STEP_REVOKE_AUTHORITY result in
      err ← fr_revoke_authority ops;
      release_locks ops ;;
      if negb (is_ok err) then mret (result <| rs_error := err |>)
      else
        let result := at_step ARGUS_FACTORY_RESET_STEP_ERASE_CONFIG (result <| rs_authority_revoked := true |>) in
        err ← fr_erase_configuration ops;
        if negb (is_ok err) then mret (result <| rs_error := err |>)
        else
          let result := result <| rs_configuration_erased := true |> <| rs_accepted := true |>
                          <| rs_reboot_called := true |> <| rs_failed_at_step := None |> <| rs_error := ESP_OK |> in
          fr_reboot ops ;; mret result.

Definition argus_factory_reset_execute (ops : option argus_factory_reset_ops_t)
    : prog E argus_factory_reset_result_t :=
  match ops with
  | None => mret (reset_failed ARGUS_FACTORY_RESET_STEP_PREFLIGHT ESP_ERR_INVALID_ARG)
  | Some ops =>
      err ← fr_lock_lifecycle ops;
      if negb (is_ok err) then mret (reset_failed ARGUS_FACTORY_RESET_STEP_LOCK_LIFECYCLE err)
      else
        fr_lock_dispatch ops ;;
        s ← reset_snapshots ops;
        if negb (preflight_ok s) then
          release_locks ops ;; mret (reset_failed ARGUS_FACTORY_RESET_STEP_PREFLIGHT (snapshot_error s))
        else
          err ← fr_begin_transition ops;
          release_locks ops ;;
          if negb (is_ok err) then mret (reset_failed ARGUS_FACTORY_RESET_STEP_BEGIN_TRANSITION err)
          else
            fr_response_grace_delay ops ;;
            err ← fr_stop_http ops;
            if negb (is_ok err) then
              lock_err ← fr_lock_lifecycle ops;
              let result := reset_failed ARGUS_FACTORY_RESET_STEP_STOP_HTTP err in
              if negb (is_ok lock_err) then mret result
              else
                fr_lock_dispatch ops ;;
                revoke_err ← fr_revoke_authority ops;
                release_locks ops ;;
                mret (if is_ok revoke_err then result <| rs_authority_revoked := true |> else result)
            else
              reset_finish ops (ResetResult false None false true false false ESP_OK)
  end.
End Execute.
Arguments argus_factory_reset_ops_t : clear implicits.

(** ** Properties of the decoder *)

Definition json_key (key : bytes) : bytes := 34 :: key ++ [34].

(** The one document that is accepted, with white space where JSON allows it. *)
Definition confirmation_document (w0 w1 w2 w3 w4 w5 : bytes) : bytes :=
  w0 ++ 123 :: w1 ++ json_key (str "confirm") ++ w2 ++ 58 :: w3
  ++ json_key ARGUS_FACTORY_RESET_CONFIRMATION ++ w4 ++ 125 :: w5.

Lemma expect_inv c p p' : expect c p = Some p' -> p = c :: p'.
Proof. destruct p as [|d p]; [done|]. cbn. destruct (d =? c) eqn:H; [|done]. apply Z.eqb_eq in H as ->. by intros [= ->]. Qed.

Lemma expect_cons c p : expect c (c :: p) = Some p.
Proof. cbn. by rewrite Z.eqb_refl. Qed.

Definition plain_char (c : Z) : bool := negb (c =? 34) && negb ((c <? 32) || (126 <? c) || (c =? 92)).

Lemma string_body_sound size used p out rest : string_body size used p = Some (out, rest) -> p = out ++ 34 :: rest.
Proof.
  revert used out. induction p as [|c p IH]; intros used out; cbn [string_body]; [done|].
  destruct (c =? 34) eqn:Hq; [apply Z.eqb_eq in Hq as ->; by intros [= <- <-]|]. case_match; [done|].
  destruct (string_body size (S used) p) as [[out' rest']|] eqn:He; [|done]. intros [= <- <-].
  by rewrite (IH _ _ He).
Qed.

Lemma string_body_complete size out rest used :
  all plain_char out -> (used + length out < size)%nat -> string_body size used (out ++ 34 :: rest) = Some (out, rest).
Proof.
  intros Ho. revert used. induction Ho as [|c out Hc _ IH]; intros used Hl; [done|]. cbn [app string_body length] in *.
  apply andb_true_iff in Hc as [Hq Hc]. apply negb_true_iff in Hq as ->. apply negb_true_iff in Hc as ->.
  destruct (Nat.leb_spec size (used + 1)); [lia|]. cbn [orb]. rewrite IH; [done|lia].
Qed.

Lemma parse_string_sound size p out rest :
  parse_ascii_string size p = Some (out, rest) -> p = json_key out ++ rest.
Proof.
  destruct p as [|c p]; [done|]. cbn [parse_ascii_string]. destruct (c =? 34) eqn:Hc; cbn [negb orb]; [|done].
  case_match; [done|]. intros Hs. apply Z.eqb_eq in Hc as ->. apply string_body_sound in Hs as ->.
  unfold json_key. by rewrite <- app_comm_cons, <- app_assoc.
Qed.

Lemma parse_string_complete size out rest :
  all plain_char out -> (length out < size)%nat -> parse_ascii_string size (json_key out ++ rest) = Some (out, rest).
Proof.
  intros Ho Hl. unfold json_key. rewrite <- app_comm_cons, <- app_assoc. cbn [parse_ascii_string app].
  destruct (Nat.eqb_spec size 0); [lia|]. by apply string_body_complete.
Qed.

Lemma skip_split p : exists w, all is_ws w /\ p = w ++ skip_ws p.
Proof. exists (take_while is_ws p). split; [apply take_while_all|symmetry; apply skip_take_while]. Qed.

Lemma skip_to w c p : all is_ws w -> is_ws c = false -> skip_ws (w ++ c :: p) = c :: p.
Proof. intros Hw Hc. unfold skip_ws. rewrite skip_while_all by done. by apply skip_while_stop. Qed.

Lemma decode_tail_ok p :
  decode_tail p = ARGUS_FACTORY_RESET_DECODE_OK <-> exists w, all is_ws w /\ p = 125 :: w.
Proof.
  unfold decode_tail. split.
  - destruct (expect 44 p) as [q|]; [repeat case_match; done|].
    destruct (expect 125 p) as [q|] eqn:H; [|done]. apply expect_inv in H as ->.
    destruct (skip_ws q) eqn:Hs; [|done]. intros _. exists q. split; [|done]. by apply skip_while_nil.
  - intros (w & Hw & ->). cbn [expect]. replace (125 =? 44) with false by done. rewrite Z.eqb_refl.
    unfold skip_ws. by rewrite (proj2 (skip_while_nil is_ws w) Hw).
Qed.

Lemma plain_confirmation : all plain_char ARGUS_FACTORY_RESET_CONFIRMATION.
Proof. apply Forall_forall. intros c Hc. by repeat (apply elem_of_cons in Hc as [->|Hc]; [done|]); apply elem_of_nil in Hc. Qed.

Lemma decode_confirmation_ok p :
  decode_confirmation p = ARGUS_FACTORY_RESET_DECODE_OK <->
  exists w2 w3 w4 w5, all is_ws w2 /\ all is_ws w3 /\ all is_ws w4 /\ all is_ws w5 /\
    p = w2 ++ 58 :: w3 ++ json_key ARGUS_FACTORY_RESET_CONFIRMATION ++ w4 ++ 125 :: w5.
Proof.
  unfold decode_confirmation. split.
  - destruct (expect 58 (skip_ws p)) as [q|] eqn:Hc; [|done]. apply expect_inv in Hc.
    destruct (parse_ascii_string 24 (skip_ws q)) as [[confirmation r]|] eqn:Hp; [|done]. apply parse_string_sound in Hp.
    case_bool_decide as He; cbn [negb]; [|done]. subst confirmation. intros (w5 & Hw5 & Hr)%decode_tail_ok.
    destruct (skip_split p) as (w2 & Hw2 & Ep), (skip_split q) as (w3 & Hw3 & Eq), (skip_split r) as (w4 & Hw4 & Er).
    exists w2, w3, w4, w5. repeat (split; [done|]). by rewrite Ep, Hc, Eq, Hp, Er, Hr.
  - intros (w2 & w3 & w4 & w5 & H2 & H3 & H4 & H5 & ->). rewrite skip_to, expect_cons by done.
    unfold json_key at 1. rewrite <- app_comm_cons, skip_to by done.
    change (34 :: (ARGUS_FACTORY_RESET_CONFIRMATION ++ [34]) ++ w4 ++ 125 :: w5)
      with (json_key ARGUS_FACTORY_RESET_CONFIRMATION ++ w4 ++ 125 :: w5).
    rewrite parse_string_complete; [|exact plain_confirmation|vm_compute; lia].
    rewrite bool_decide_eq_true_2 by done. cbn [negb]. apply decode_tail_ok. exists w5.
    by rewrite skip_to.
Qed.

Lemma plain_key : all plain_char (str "confirm").
Proof. apply Forall_forall. intros c Hc. by repeat (apply elem_of_cons in Hc as [->|Hc]; [done|]); apply elem_of_nil in Hc. Qed.

(** The reset decoder accepts exactly the confirmation: a body is accepted if and only
    if it is at most 96 bytes, not empty, and the single JSON object that confirms the
    reset, with nothing but white space around its tokens; any other member, a second
    member, an escape, other text or a truncated body is refused. *)
Theorem reset_decoder_grammar body n :
  argus_factory_reset_decode (Some body) n = ARGUS_FACTORY_RESET_DECODE_OK <->
  (0 < n <= ARGUS_FACTORY_RESET_MAX_BODY_LEN)%nat /\
  exists w0 w1 w2 w3 w4 w5, Forall (all is_ws) [w0; w1; w2; w3; w4; w5] /\
    take n body = confirmation_document w0 w1 w2 w3 w4 w5.
Proof.
  unfold argus_factory_reset_decode, confirmation_document.
  destruct (Nat.eqb_spec n 0); [split; [done|intros [H _]; lia]|].
  destruct (Nat.ltb_spec ARGUS_FACTORY_RESET_MAX_BODY_LEN n); [split; [done|intros [H' _]; lia]|].
  generalize (take n body) as p. clear body. intros p. split.
  - destruct (expect 123 (skip_ws p)) as [q|] eqn:Ho; [|done]. apply expect_inv in Ho.
    destruct (expect 125 (skip_ws q)); [done|].
    destruct (parse_ascii_string 16 (skip_ws q)) as [[key r]|] eqn:Hk; [|done]. apply parse_string_sound in Hk.
    case_bool_decide as He; cbn [negb]; [|done]. subst key.
    intros (w2 & w3 & w4 & w5 & H2 & H3 & H4 & H5 & Hr)%decode_confirmation_ok. split; [lia|].
    destruct (skip_split p) as (w0 & Hw0 & Ep), (skip_split q) as (w1 & Hw1 & Eq).
    exists w0, w1, w2, w3, w4, w5. split; [by repeat constructor|]. by rewrite Ep, Ho, Eq, Hk, Hr.
  - intros (_ & w0 & w1 & w2 & w3 & w4 & w5 & Hw & ->).
    repeat (apply Forall_cons in Hw as [? Hw]). rewrite skip_to, expect_cons by done.
    unfold json_key at 1 3. rewrite <- app_comm_cons, skip_to by done.
    cbn [expect]. replace (34 =? 125) with false by done.
    change (34 :: (str "confirm" ++ [34]) ++ ?l) with (json_key (str "confirm") ++ l).
    rewrite parse_string_complete; [|exact plain_key|vm_compute; lia].
    rewrite bool_decide_eq_true_2 by done. cbn [negb]. apply decode_confirmation_ok.
    by exists w2, w3, w4, w5.
Qed.

(** ** The reception ends *)

Section ReceiveProperties.
Context {X : Type} (recv : X -> nat -> Z * bytes * X).

(** What a [recv] that succeeds promises: it stores as many bytes as it says. *)
Definition recv_stores : Prop :=
  forall ctx n chunk data ctx', recv ctx n = (chunk, data, ctx') -> 0 < chunk -> length data = Z.to_nat chunk.

Lemma receive_loop_ends fuel ctx received content_len :
  recv_stores -> (length received <= content_len)%nat -> (content_len - length received <= fuel)%nat ->
  exists verdict body, receive_loop recv fuel ctx received content_len = Some (verdict, body) /\
    (verdict = ARGUS_FACTORY_RESET_RECEIVE_OK -> length body = content_len) /\
    (verdict <> ARGUS_FACTORY_RESET_RECEIVE_OK -> body = []).
Proof.
  intros Hr. revert ctx received. induction fuel as [|fuel IH]; intros ctx received Hl Hf; cbn [receive_loop].
  - destruct (Nat.ltb_spec (length received) content_len); [lia|]. cbn [negb]. eexists _, _. split; [done|]. split; [lia|done].
  - destruct (Nat.ltb_spec (length received) content_len); cbn [negb];
      [|eexists _, _; split; [done|]; split; [lia|done]].
    destruct (recv ctx (content_len - length received)) as [[chunk data] ctx'] eqn:Hc.
    destruct (chunk =? ARGUS_FACTORY_RESET_BODY_RECV_TIMEOUT); [by eexists _, _|].
    destruct (Z.eqb_spec chunk 0); [by eexists _, _|].
    destruct ((chunk <? 0) || (Z.of_nat (content_len - length received) <? chunk)) eqn:Hb; [by eexists _, _|].
    apply orb_false_iff in Hb as [Hb1%Z.ltb_ge Hb2%Z.ltb_ge].
    pose proof (Hr _ _ _ _ _ Hc ltac:(lia)) as Hd.
    apply IH; rewrite length_app, length_take, Hd; lia.
Qed.

(** C35: Receiving the reset body always ends, after at most as many calls of the receive
    callback as the body has bytes, whatever the peer sends: the handler gets the whole
    declared body, which fits its buffer, or an error and nothing at all. *)
Theorem receive_terminates content_len ctx capacity : recv_stores ->
  exists verdict body, argus_factory_reset_receive_body recv content_len ctx capacity = Some (verdict, body) /\
    (verdict = ARGUS_FACTORY_RESET_RECEIVE_OK ->
     length body = content_len /\ (0 < content_len <= capacity)%nat /\ (content_len <= ARGUS_FACTORY_RESET_MAX_BODY_LEN)%nat) /\
    (verdict <> ARGUS_FACTORY_RESET_RECEIVE_OK -> body = []).
Proof.
  intros Hr. unfold argus_factory_reset_receive_body.
  destruct (Nat.eqb_spec content_len 0); [by eexists _, _|].
  destruct (Nat.ltb_spec ARGUS_FACTORY_RESET_MAX_BODY_LEN content_len); [by eexists _, _|].
  destruct (Nat.ltb_spec capacity content_len); [by eexists _, _|].
  destruct (receive_loop_ends content_len ctx [] content_len Hr) as (verdict & body & H1 & H2 & H3); [cbn; lia..|].
  exists verdict, body. split; [exact H1|]. split; [|exact H3]. intros Hv. split; [exact (H2 Hv)|]. lia.
Qed.
End ReceiveProperties.

(** A peer that sends at most seven bytes at a time. *)
Definition demo_recv (data : bytes) (n : nat) : Z * bytes * bytes :=
  let chunk := take (Nat.min 7 n) data in (Z.of_nat (length chunk), chunk, drop (Nat.min 7 n) data).

Definition demo_body : bytes :=
  confirmation_document [] [32] [] [32] [] [].

Lemma receive_terminates_witness :
  recv_stores demo_recv /\
  exists verdict body,
    argus_factory_reset_receive_body demo_recv (length demo_body) demo_body 96 = Some (verdict, body) /\
    (verdict <> ARGUS_FACTORY_RESET_RECEIVE_OK -> body = []).
Proof.
  assert (Hr : recv_stores demo_recv).
  { intros ctx n chunk data ctx' [= <- <- _] _. lia. }
  split; [exact Hr|].
  destruct (receive_terminates demo_recv (length demo_body) demo_body 96 Hr) as (verdict & body & H1 & _ & H2).
  by exists verdict, body.
Defined.

(** ** The order of the reset *)

(** A table whose operations are only recorded, with any answer. *)
Inductive reset_call : Type -> Type :=
| RcLock : reset_call esp_err_t
| RcUnlock : reset_call unit
| RcLockDispatch : reset_call unit
| RcUnlockDispatch : reset_call unit
| RcNetwork : reset_call (esp_err_t * argus_net_snapshot_t)
| RcAuthority : reset_call (esp_err_t * argus_authority_snapshot_t)
| RcMachine : reset_call argus_state_snapshot_t
| RcBegin : reset_call esp_err_t
| RcGrace : reset_call unit
| RcStopHttp : reset_call esp_err_t
| RcRevoke : reset_call esp_err_t
| RcErase : reset_call esp_err_t
| RcReboot : reset_call unit.

Definition recorded_reset : argus_factory_reset_ops_t reset_call := {|
  fr_lock_lifecycle := call RcLock;
  fr_unlock_lifecycle := call RcUnlock;
  fr_lock_dispatch := call RcLockDispatch;
  fr_unlock_dispatch := call RcUnlockDispatch;
  fr_get_network_snapshot := call RcNetwork;
  fr_get_authority_snapshot := call RcAuthority;
  fr_get_state_snapshot := call RcMachine;
  fr_begin_transition := call RcBegin;
  fr_response_grace_delay := call RcGrace;
  fr_stop_http := call RcStopHttp;
  fr_revoke_authority := call RcRevoke;
  fr_erase_configuration := call RcErase;
  fr_reboot := call RcReboot
|}.

Inductive reset_event : Type :=
| ResetEvent (X : Type) (e : reset_call X) (answer : X).
Arguments ResetEvent {X}.
Definition reset_log : Type := list reset_event.

Definition demo_reset_net (mode : argus_network_mode_t) : argus_net_snapshot_t :=
  NetSnapshot mode ARGUS_NET_ERR_NONE false false true false true true true ARGUS_STA_DISABLED
    ARGUS_DISCONNECT_CAT_NONE REASON_NONE 0 0 false false [] ARGUS_WIFI_APPLY_IDLE 0 false true 0 false 0 false 0
    ARGUS_SERVICE_CANCEL_FAILURE_NONE ESP_OK.

Definition reset_answer {X} (e : reset_call X) (log : reset_log) : X :=
  let again := (3 <? length log)%nat in
  match e with
  | RcUnlock | RcLockDispatch | RcUnlockDispatch | RcGrace | RcReboot => tt
  | RcLock | RcBegin | RcStopHttp | RcRevoke | RcErase => ESP_OK
  | RcNetwork => (ESP_OK, demo_reset_net (if again then ARGUS_NET_MODE_SERVICE_TRANSITION else ARGUS_NET_MODE_SERVICE_AP_ONLY))
  | RcAuthority =>
      (ESP_OK, if again && (5 <? length log)%nat then AuthSnapshot ARGUS_AUTHORITY_SERVICE_TRANSITION ARGUS_AUTH_OWNER_NONE 2
               else AuthSnapshot ARGUS_AUTHORITY_LOCAL_SERVICE ARGUS_AUTH_OWNER_BROWSER 1)
  | RcMachine => StateSnapshot ARGUS_STATE_HOLDING 0 0 0 0 0 true true true false false 0 0 false []
  end.

#[export] Instance reset_storage : Storage reset_call reset_log := {
  outcome X e log x log' := log' = log ++ [ResetEvent e x];
  torn X e log log' := False;
  perform X e log := (reset_answer e log, log ++ [ResetEvent e (reset_answer e log)]);
  perform_outcome X e log := eq_refl
}.

Definition snapshot_events (net : argus_net_snapshot_t) (authority : argus_authority_snapshot_t)
    (state : argus_state_snapshot_t) : reset_log :=
  [ResetEvent RcNetwork (ESP_OK, net); ResetEvent RcAuthority (ESP_OK, authority); ResetEvent RcMachine state].

(** All that comes before the erasure, with the snapshots of the two gates. *)
Definition reset_script (s s' : argus_net_snapshot_t * argus_authority_snapshot_t * argus_state_snapshot_t) : reset_log :=
  [ResetEvent RcLock ESP_OK; ResetEvent RcLockDispatch tt] ++ snapshot_events s.1.1 s.1.2 s.2 ++
  [ResetEvent RcBegin ESP_OK; ResetEvent RcUnlockDispatch tt; ResetEvent RcUnlock tt; ResetEvent RcGrace tt;
   ResetEvent RcStopHttp ESP_OK; ResetEvent RcLock ESP_OK; ResetEvent RcLockDispatch tt] ++
  snapshot_events s'.1.1 s'.1.2 s'.2 ++
  [ResetEvent RcRevoke ESP_OK; ResetEvent RcUnlockDispatch tt; ResetEvent RcUnlock tt].

Definition destructive (e : reset_event) : bool :=
  match e with ResetEvent RcErase _ | ResetEvent RcReboot _ => true | _ => false end.

(** Both gates passed before the erasure, and the erasure succeeded before the restart. *)
Definition reset_in_order (r : argus_factory_reset_result_t) (log : reset_log) : Prop :=
  (rs_accepted r = false /\ Forall (fun e => destructive e = false) log) \/
  exists s s' err,
    argus_factory_reset_evaluate_policy s.1.1 s.1.2 s.2 false = ARGUS_FACTORY_RESET_POLICY_OK /\
    transition_valid (inr s') = true /\
    if is_ok err
    then rs_accepted r = true /\ log = reset_script s s' ++ [ResetEvent RcErase ESP_OK; ResetEvent RcReboot tt]
    else rs_accepted r = false /\ log = reset_script s s' ++ [ResetEvent RcErase err].

Lemma wpc_record {X A} (e : reset_call X) (k : X -> prog reset_call A) post log :
  (forall x, wpc (k x) post (fun _ => True) (log ++ [ResetEvent e x])) ->
  wpc (call e ≫= k) post (fun _ => True) log.
Proof. intros H. split; [done|]. split; [done|]. intros x log' Hl. cbn in Hl. subst log'. apply H. Qed.

Lemma wpc_snapshots {A} (k : _ -> prog reset_call A) post log :
  (forall s log',
     match s with
     | inl _ => Forall (fun e => destructive e = false) log'
     | inr s => log' = snapshot_events s.1.1 s.1.2 s.2
     end -> wpc (k s) post (fun _ => True) (log ++ log')) ->
  wpc (reset_snapshots recorded_reset ≫= k) post (fun _ => True) log.
Proof.
  intros H. unfold reset_snapshots.
  cbn [recorded_reset fr_get_network_snapshot fr_get_authority_snapshot fr_get_state_snapshot].
  apply wpc_bind. apply wpc_record. intros [err net]. destruct (is_ok err) eqn:He; cbn [negb].
  - apply is_ok_true in He as ->. apply wpc_record. intros [err authority]. destruct (is_ok err) eqn:He; cbn [negb].
    + apply is_ok_true in He as ->. apply wpc_record. intros state. split; [done|].
      rewrite <- !app_assoc. by apply H.
    + split; [done|]. rewrite <- app_assoc. apply H. by repeat constructor.
  - split; [done|]. apply H. by repeat constructor.
Qed.

(** Nothing destructive so far, and the reset is given up. *)
Ltac given_up := split; [done|left; split; [done|rewrite ?Forall_app; repeat split; first [assumption | by repeat constructor]]].

Lemma finish_in_order log s result :
  argus_factory_reset_evaluate_policy s.1.1 s.1.2 s.2 false = ARGUS_FACTORY_RESET_POLICY_OK ->
  log = [ResetEvent RcLock ESP_OK; ResetEvent RcLockDispatch tt] ++ snapshot_events s.1.1 s.1.2 s.2 ++
        [ResetEvent RcBegin ESP_OK; ResetEvent RcUnlockDispatch tt; ResetEvent RcUnlock tt; ResetEvent RcGrace tt;
         ResetEvent RcStopHttp ESP_OK] ->
  rs_accepted result = false ->
  wpc (reset_finish recorded_reset result) reset_in_order (fun _ => True) log.
Proof.
  intros Hs Hlog Hr. assert (Hsafe : Forall (fun e => destructive e = false) log).
  { subst log. destruct s as [[net authority] state]. by repeat constructor. }
  unfold reset_finish. cbv zeta.
  apply wpc_record. intros err. destruct (is_ok err) eqn:He; cbn [negb]; [apply is_ok_true in He as ->|given_up].
  apply wpc_record. intros []. apply wpc_snapshots. intros s' log' Hl.
  destruct (transition_valid s') eqn:Ht; cbn [negb].
  - destruct s' as [e|s']; [done|]. subst log'. apply wpc_record. intros rerr. unfold release_locks.
    apply wpc_record. intros []. apply wpc_record. intros [].
    assert (Hsnap : Forall (fun e => destructive e = false) (snapshot_events s'.1.1 s'.1.2 s'.2)) by by repeat constructor.
    destruct (is_ok rerr) eqn:Hre; cbn [negb]; [apply is_ok_true in Hre as ->|given_up].
    apply wpc_record. intros eerr. destruct (is_ok eerr) eqn:Hee; cbn [negb].
    + apply is_ok_true in Hee as ->. apply wpc_record. intros []. split; [done|]. right. exists s, s', ESP_OK.
      repeat (split; [done|]). subst log. unfold reset_script. by rewrite <- !app_assoc.
    + split; [done|]. right. exists s, s', eerr. split; [done|]. split; [done|]. rewrite Hee. split; [exact Hr|].
      subst log. unfold reset_script. by rewrite <- !app_assoc.
  - assert (Hsnap : Forall (fun e => destructive e = false) log').
    { destruct s' as [e|s']; [done|]. subst log'. by repeat constructor. }
    apply wpc_record. intros rerr. unfold release_locks. apply wpc_record. intros []. apply wpc_record. intros []. given_up.
Qed.

Lemma execute_in_order :
  wpc (argus_factory_reset_execute (Some recorded_reset)) reset_in_order (fun _ => True) [].
Proof.
  unfold argus_factory_reset_execute.
  apply wpc_record. intros err. destruct (is_ok err) eqn:He; cbn [negb]; [apply is_ok_true in He as ->|given_up].
  apply wpc_record. intros []. apply wpc_snapshots. intros s log' Hl.
  assert (Hsnap : Forall (fun e => destructive e = false) log').
  { destruct s as [e|s]; [done|]. subst log'. by repeat constructor. }
  unfold release_locks. destruct (preflight_ok s) eqn:Hp; cbn [negb];
    [|apply wpc_record; intros []; apply wpc_record; intros []; given_up].
  destruct s as [e|s]; [done|]. subst log'.
  assert (Hpol : argus_factory_reset_evaluate_policy s.1.1 s.1.2 s.2 false = ARGUS_FACTORY_RESET_POLICY_OK).
  { destruct s as [[net authority] state]. by apply bool_decide_eq_true in Hp. }
  apply wpc_record. intros berr. apply wpc_record. intros []. apply wpc_record. intros [].
  destruct (is_ok berr) eqn:Hb; cbn [negb]; [apply is_ok_true in Hb as ->|given_up].
  apply wpc_record. intros []. apply wpc_record. intros herr. destruct (is_ok herr) eqn:Hh; cbn [negb].
  - apply is_ok_true in Hh as ->. apply (finish_in_order _ s); [exact Hpol|by rewrite <- !app_assoc|done].
  - cbv zeta. apply wpc_record. intros lerr. destruct (is_ok lerr); cbn [negb]; [|given_up].
    apply wpc_record. intros []. apply wpc_record. intros rerr. apply wpc_record. intros []. apply wpc_record. intros [].
    destruct (is_ok rerr); given_up.
Qed.

(** C19: The reset destroys nothing early: whatever its operations answer, the configuration
    is erased only after the service, authority and machine were checked under both locks,
    the web server was stopped, they were checked again under both locks and the authority
    was revoked; the unit restarts only if the erasure succeeded, which is exactly when
    the reset reports that it was accepted; and wherever else it gives up the erasure was not
    even asked for.  (An erasure that fails may have removed part of the configuration.) *)
Theorem reset_destroys_last r log :
  returns (argus_factory_reset_execute (Some recorded_reset)) [] r log -> reset_in_order r log.
Proof. exact (wpc_returns _ _ _ _ _ _ execute_in_order). Qed.

Lemma reset_destroys_last_witness :
  let r := run (argus_factory_reset_execute (Some recorded_reset)) [] in
  rs_accepted r.1 = true /\ reset_in_order r.1 r.2.
Proof.
  split; [by vm_compute|].
  exact (reset_destroys_last _ _ (run_returns (argus_factory_reset_execute (Some recorded_reset)) [])).
Defined.
