(* ===== verification/NetManager.v ===== *)
(** * The network manager

    [src/main/argus_net_mgr.c]: the module's statics, the handlers of its event task, the
    coordinated service entry and exit, the physical security recovery, the requests
    other tasks make, and the start-up.  Everything the code calls outside the module is
    an operation of [net_op]; [net_world] is the part of the system the operations act
    on, and between any two operations other tasks may act ([NetIsolation]). *)

From S2P Require Import Prelude CmdParser StateMgr Authority Router ConfigStore Storage NetLink WifiTransaction ServicePolicy FactoryReset.

(** ** State *)

(** The statics of the module.  [s_broker_start_cb] is whether a callback is registered. *)
Record net_mgr := NetMgr {
  s_initialized : bool;
  s_net_mode : argus_network_mode_t;
  s_last_error : argus_net_err_t;
  s_sta_started : bool;
  s_sta_connected : bool;
  s_sta_ip_acquired : bool;
  s_ap_started : bool;
  s_factory_reset_pending : bool;
  s_sta_state : argus_sta_state_t;
  s_last_disconnect_reason : wifi_reason_t;
  s_last_disconnect_category : argus_disconnect_category_t;
  s_consecutive_failures : Z;
  s_wifi_transaction : argus_wifi_transaction_t;
  s_timer_generation : Z;
  s_active_transaction_generation : Z;
  s_auto_retry_timer_generation : Z;
  s_ip_timeout_timer_generation : Z;
  s_auth_failures : Z;
  s_last_service_cancel_failure : argus_service_cancel_failure_t;
  s_last_service_cancel_error : esp_err_t;
  s_broker_start_cb : bool
}.
#[export] Instance eta_net_mgr : Eta net_mgr := fun m =>
  NetMgr (s_initialized m) (s_net_mode m) (s_last_error m) (s_sta_started m) (s_sta_connected m)
    (s_sta_ip_acquired m) (s_ap_started m) (s_factory_reset_pending m) (s_sta_state m)
    (s_last_disconnect_reason m) (s_last_disconnect_category m) (s_consecutive_failures m)
    (s_wifi_transaction m) (s_timer_generation m) (s_active_transaction_generation m)
    (s_auto_retry_timer_generation m) (s_ip_timeout_timer_generation m) (s_auth_failures m)
    (s_last_service_cancel_failure m) (s_last_service_cancel_error m) (s_broker_start_cb m).

Definition net_initial (callback : bool) : net_mgr :=
  NetMgr false ARGUS_NET_MODE_BOOTSTRAP ARGUS_NET_ERR_NONE false false false false false ARGUS_STA_DISABLED
    REASON_NONE ARGUS_DISCONNECT_CAT_NONE 0 argus_wifi_transaction_init 0 0 0 0 0
    ARGUS_SERVICE_CANCEL_FAILURE_NONE ESP_OK callback.

(** The life of the broker, as [argus_mqtt_broker.c] reports it. *)
Inductive argus_broker_state_t :=
| BROKER_STATE_STOPPED | BROKER_STATE_STARTING | BROKER_STATE_RUNNING | BROKER_STATE_STOPPING.
#[export] Instance broker_state_eq_dec : EqDecision argus_broker_state_t.
Proof. solve_decision. Defined.

Record argus_mqtt_broker_lifecycle_obs_t := BrokerObs {
  bo_state : argus_broker_state_t;
  bo_active_client_count : Z;
  bo_has_server_task : bool;
  bo_has_listener : bool
}.

Definition argus_mqtt_broker_observation_is_stopped (obs : argus_mqtt_broker_lifecycle_obs_t) : bool :=
  bool_decide (bo_state obs = BROKER_STATE_STOPPED) && negb (bo_has_server_task obs)
  && negb (bo_has_listener obs) && (bo_active_client_count obs =? 0).

Definition argus_mqtt_broker_observation_is_running (obs : argus_mqtt_broker_lifecycle_obs_t) : bool :=
  bool_decide (bo_state obs = BROKER_STATE_RUNNING) && bo_has_server_task obs && bo_has_listener obs.

(** The AP half of [wifi_config_t], with WPA2 set. *)
Record wifi_ap_config_t := WifiApConfig {
  wp_ssid : bytes;
  wp_password : bytes;
  wp_ssid_len : nat;
  wp_max_connection : Z
}.

(** ** Operations *)

Inductive net_lock := NetMutex | DispatchLock.
Inductive net_timer := AutoRetry | IpTimeout.

Inductive net_op : Type -> Type :=
(* the module's statics, and the locks *)
| Statics : net_op net_mgr
| Assign (f : net_mgr -> net_mgr) : net_op unit
| Lock (l : net_lock) : net_op unit
| Unlock (l : net_lock) : net_op unit
| ClaimFactoryReset : net_op bool   (* the compare-and-exchange of [s_factory_reset_pending] *)
(* other modules of the program *)
| AuthoritySetMode (m : argus_control_authority_t) (o : argus_authority_owner_t) : net_op esp_err_t
| AuthorityGrant (o : argus_authority_owner_t) : net_op esp_err_t
| AuthorityAbort : net_op unit
| AuthoritySnapshot : net_op (esp_err_t * argus_authority_snapshot_t)
| MachineSnapshot : net_op argus_state_snapshot_t
| MachineStopNormal : net_op esp_err_t
| EffectiveConfig : net_op (esp_err_t * argus_config_payload_t * bool)
| EraseConfig : net_op esp_err_t
| ServiceSsid : net_op bytes
| ApSecret (factory : bool) : net_op (esp_err_t + bytes)
| RecoveryRequested : net_op bool
| RestartExecute : net_op unit      (* [argus_restart_execute], modelled in [Router] *)
| BrokerObserve : net_op (esp_err_t * argus_mqtt_broker_lifecycle_obs_t)
| BrokerStop : net_op esp_err_t
| BrokerStart : net_op unit
| HttpStart : net_op esp_err_t
| HttpStop : net_op esp_err_t
(* the platform *)
| WifiGetMode : net_op (esp_err_t * wifi_mode_t)
| WifiSetMode (m : wifi_mode_t) : net_op esp_err_t
| WifiSetStaConfig (c : wifi_sta_config_t) : net_op esp_err_t
| WifiSetApConfig (c : wifi_ap_config_t) : net_op esp_err_t
| WifiStart : net_op esp_err_t
| WifiConnect : net_op esp_err_t
| WifiDisconnect : net_op esp_err_t
| StaIpText : net_op bytes
| TimerStart (t : net_timer) : net_op bool
| TimerStop (t : net_timer) : net_op bool
| TimerActive (t : net_timer) : net_op bool
| TimerExpiry (t : net_timer) : net_op Z
| TickCount : net_op Z
| QueueSend (e : argus_net_event_t) : net_op bool
| Delay (ms : Z) : net_op unit
| PlatformInit : net_op esp_err_t
| TaskCreate : net_op bool
| Reboot : net_op unit.

Abbreviation net := (prog net_op).

Definition gets {X} (f : net_mgr -> X) : net X := m ← call Statics; mret (f m).
Definition assign (f : net_mgr -> net_mgr) : net unit := call (Assign f).
Definition set_error (e : argus_net_err_t) : net unit := assign (fun m => m <| s_last_error := e |>).
Definition set_sta_state (s : argus_sta_state_t) : net unit := assign (fun m => m <| s_sta_state := s |>).
Definition set_active_generation (g : Z) : net unit := assign (fun m => m <| s_active_transaction_generation := g |>).

(** [++s_timer_generation] *)
Definition next_timer_generation : net Z :=
  g ← gets s_timer_generation;
  assign (fun m => m <| s_timer_generation := u32 (g + 1) |>) ;;
  mret (u32 (g + 1)).

Definition has_valid_commissioned_config : net bool :=
  '(err, cfg, has_cfg) ← call EffectiveConfig;
  mret (is_ok err && has_cfg && argus_nvs_config_is_commissioned cfg
        && negb (bool_decide (sta_pass cfg = ARGUS_CONFIG_MASK_STRING))).

Definition argus_net_mgr_post_event (evt : argus_net_event_t) : net esp_err_t :=
  queued ← call (QueueSend evt);
  let post_status := argus_net_event_post_status queued in
  if negb (is_ok post_status) then set_error ARGUS_NET_ERR_QUEUE_OVERFLOW ;; mret post_status
  else mret ESP_OK.

(** ** Timer and driver callbacks *)

Definition auto_retry_timer_cb : net unit :=
  g ← gets s_auto_retry_timer_generation;
  argus_net_mgr_post_event
    (NetEvent ARGUS_NET_EVT_AUTO_RECONNECT_WAKEUP ARGUS_AUTH_OWNER_NONE REASON_NONE g 0 None) ;;
  mret tt.

Definition ip_timeout_timer_cb : net unit :=
  g ← gets s_ip_timeout_timer_generation;
  argus_net_mgr_post_event
    (NetEvent ARGUS_NET_EVT_STA_DISCONNECTED ARGUS_AUTH_OWNER_NONE REASON_NONE g 0 None) ;;
  mret tt.

Inductive driver_event :=
| WIFI_EVENT_STA_START
| WIFI_EVENT_STA_STOP
| WIFI_EVENT_STA_CONNECTED
| WIFI_EVENT_STA_DISCONNECTED (reason : wifi_reason_t)
| WIFI_EVENT_AP_START
| WIFI_EVENT_AP_STOP
| WIFI_EVENT_AP_STACONNECTED
| WIFI_EVENT_AP_STADISCONNECTED
| IP_EVENT_STA_GOT_IP.

(** Post an event of the station, with the transaction it belongs to. *)
Definition post_sta_event (type : argus_net_event_type_t) (reason : wifi_reason_t) : net unit :=
  g ← gets s_active_transaction_generation;
  argus_net_mgr_post_event (NetEvent type ARGUS_AUTH_OWNER_NONE reason 0 g None) ;;
  mret tt.

Definition wifi_event_handler (event : driver_event) : net unit :=
  match event with
  | WIFI_EVENT_STA_START => assign (fun m => m <| s_sta_started := true |>)
  | WIFI_EVENT_STA_STOP =>
      assign (fun m => m <| s_sta_started := false |>) ;;
      assign (fun m => m <| s_sta_connected := false |>) ;;
      assign (fun m => m <| s_sta_ip_acquired := false |>) ;;
      post_sta_event ARGUS_NET_EVT_STA_STOPPED REASON_NONE
  | WIFI_EVENT_STA_CONNECTED =>
      assign (fun m => m <| s_sta_connected := true |>) ;;
      post_sta_event ARGUS_NET_EVT_STA_ASSOCIATED REASON_NONE
  | WIFI_EVENT_STA_DISCONNECTED reason =>
      assign (fun m => m <| s_sta_connected := false |>) ;;
      assign (fun m => m <| s_sta_ip_acquired := false |>) ;;
      post_sta_event ARGUS_NET_EVT_STA_DISCONNECTED reason
  | WIFI_EVENT_AP_START => assign (fun m => m <| s_ap_started := true |>)
  | WIFI_EVENT_AP_STOP => assign (fun m => m <| s_ap_started := false |>)
  | WIFI_EVENT_AP_STACONNECTED =>
      argus_net_mgr_post_event (plain_event ARGUS_NET_EVT_AP_CLIENT_CONNECTED) ;; mret tt
  | WIFI_EVENT_AP_STADISCONNECTED =>
      argus_net_mgr_post_event (plain_event ARGUS_NET_EVT_AP_CLIENT_DISCONNECTED) ;; mret tt
  | IP_EVENT_STA_GOT_IP =>
      assign (fun m => m <| s_sta_ip_acquired := true |>) ;;
      post_sta_event ARGUS_NET_EVT_STA_CONNECTED REASON_NONE
  end.

(** ** The mode, the access point and the broker *)

(** The two timer stops of [a != pdPASS || b != pdPASS]: the second runs if the first passed. *)
Definition stop_timers_in_turn (first second : net_timer) : net bool :=
  ok ← call (TimerStop first);
  if (ok : bool) then call (TimerStop second) else mret false.

Definition set_net_mode (new_mode : argus_network_mode_t) : net unit :=
  mode ← gets s_net_mode;
  if bool_decide (mode = new_mode) then mret tt
  else
    assign (fun m => m <| s_net_mode := new_mode |>) ;;
    if service_mode new_mode then
      next_timer_generation ;;
      set_active_generation 0 ;;
      assign (fun m => m <| s_wifi_transaction ::= argus_wifi_transaction_cancel |>) ;;
      stopped ← stop_timers_in_turn AutoRetry IpTimeout;
      if (stopped : bool) then mret tt else set_error ARGUS_NET_ERR_TIMER_COMMAND_FAILED
    else mret tt.

(** The status and the configuration that is written where it is [ESP_OK]. *)
Definition populate_service_ap_config (factory : bool) : net (esp_err_t + wifi_ap_config_t) :=
  ssid ← call ServiceSsid;
  secret ← call (ApSecret factory);
  mret (match secret with
        | inl err => inl err
        | inr secret => inr (WifiApConfig (strlcpy ssid 32) secret (length ssid) 4)
        end).

Definition argus_mqtt_broker_is_running : net bool :=
  '(err, obs) ← call BrokerObserve;
  mret (is_ok err && argus_mqtt_broker_observation_is_running obs).

(** The convergence helpers of [argus_mqtt_broker.c] over the production table. *)
Definition argus_mqtt_broker_request_stop_converged : net esp_err_t :=
  '(err, obs) ← call BrokerObserve;
  if negb (is_ok err) then mret err
  else if argus_mqtt_broker_observation_is_stopped obs then mret ESP_OK
  else call BrokerStop.

Fixpoint verify_stopped_loop (attempts : nat) (delay_ms : Z) : net esp_err_t :=
  match attempts with
  | O => mret ESP_ERR_TIMEOUT
  | S rest =>
      '(err, obs) ← call BrokerObserve;
      if negb (is_ok err) then mret err
      else if argus_mqtt_broker_observation_is_stopped obs then mret ESP_OK
      else
        (if (0 <? rest)%nat && (0 <? delay_ms) then call (Delay delay_ms) else mret tt) ;;
        verify_stopped_loop rest delay_ms
  end.

Definition argus_mqtt_broker_verify_stopped_converged (observation_attempts : nat) (delay_ms : Z) : net esp_err_t :=
  if (observation_attempts =? 0)%nat then mret ESP_ERR_INVALID_ARG
  else verify_stopped_loop observation_attempts delay_ms.

(** [while (timeout_ms > 0) { if (test) return; delay(50); timeout_ms -= 50; }]: [test]
    answers with what to return. *)
Fixpoint poll {A} (attempts : nat) (test : net (option A)) (expired : net A) : net A :=
  match attempts with
  | O => expired
  | S attempts =>
      r ← test;
      match r with
      | Some a => mret a
      | None => call (Delay 50) ;; poll attempts test expired
      end
  end.

(** ** The coordinated service entry *)

Section ServiceEntry.
Context {E : Type -> Type}.

Record argus_service_authority_ops_t := ServiceAuthorityOps {
  sa_prepare_transition : prog E esp_err_t;
  sa_grant_local : argus_authority_owner_t -> prog E esp_err_t;
  sa_abort_transition : prog E unit
}.

(** The hooks that may be NULL are options. *)
Record argus_service_transition_ops_t := ServiceTransitionOps {
  st_request_normal_stop : prog E esp_err_t;
  st_verify_stopped : prog E esp_err_t;
  st_stop_broker : prog E esp_err_t;
  st_verify_broker_stopped : prog E esp_err_t;
  st_disconnect_sta : prog E esp_err_t;
  st_verify_sta_disconnected : prog E esp_err_t;
  st_verify_sta_ip_released : prog E esp_err_t;
  st_set_wifi_ap_only : prog E esp_err_t;
  st_verify_ap_active : prog E esp_err_t;
  st_set_sta_disabled : prog E esp_err_t;
  st_verify_machine_safe : prog E esp_err_t;
  st_stop_http : option (prog E esp_err_t);
  st_start_http : option (prog E esp_err_t);
  st_unlock_net : option (prog E unit);
  st_lock_net : option (prog E unit);
  st_lock_dispatch : option (prog E unit);
  st_unlock_dispatch : option (prog E unit);
  st_revalidate_network : option (prog E esp_err_t)
}.

(** [if (hook) hook(ctx);] *)
Definition hook {X} (h : option (prog E X)) : prog E unit :=
  match h with Some p => p ;; mret tt | None => mret tt end.

(** A hook whose absence counts as success. *)
Definition hook_err (h : option (prog E esp_err_t)) : prog E esp_err_t :=
  match h with Some p => p | None => mret ESP_OK end.

(** The first of the steps that fails, or [ESP_OK]. *)
Fixpoint in_sequence (steps : list (prog E esp_err_t)) : prog E esp_err_t :=
  match steps with
  | [] => mret ESP_OK
  | step :: steps => err ← step; if is_ok err then in_sequence steps else mret err
  end.

Variable store_mode : argus_network_mode_t -> prog E unit.   (* [*net_mode = mode] *)

(** The labels [abort_restore_http] and what follows. *)
Definition abort_restore_http (ops : argus_service_transition_ops_t) (http_stop_err op_err : esp_err_t) : prog E esp_err_t :=
  if is_ok http_stop_err then
    hook (st_unlock_net ops) ;; hook (st_start_http ops) ;; mret op_err
  else hook (st_unlock_net ops) ;; mret op_err.

(** The steps between the isolation of the HTTP server and the grant. *)
Definition isolation_steps (ops : argus_service_transition_ops_t) : list (prog E esp_err_t) :=
  [st_request_normal_stop ops; st_verify_stopped ops; st_stop_broker ops; st_verify_broker_stopped ops;
   st_disconnect_sta ops; st_verify_sta_disconnected ops; st_verify_sta_ip_released ops;
   st_set_wifi_ap_only ops; st_verify_ap_active ops; st_set_sta_disabled ops; st_verify_machine_safe ops].

Definition argus_net_mgr_orchestrate_service_entry (requested_owner : argus_authority_owner_t)
    (tables : option (argus_service_authority_ops_t * argus_service_transition_ops_t)) : prog E esp_err_t :=
  match tables with
  | None => mret ESP_ERR_INVALID_ARG
  | Some (auth_ops, ops) =>
      if negb (local_owner requested_owner) then mret ESP_ERR_INVALID_ARG
      else
        prep_err ← sa_prepare_transition auth_ops;
        if negb (is_ok prep_err) then
          sa_abort_transition auth_ops ;; store_mode ARGUS_NET_MODE_NETWORK_FAULT ;; mret prep_err
        else
          store_mode ARGUS_NET_MODE_SERVICE_TRANSITION ;;
          hook (st_unlock_dispatch ops) ;;
          hook (st_unlock_net ops) ;;
          http_stop_err ← hook_err (st_stop_http ops);
          hook (st_lock_net ops) ;;
          op_err ← in_sequence (isolation_steps ops);
          if negb (is_ok op_err) then
            sa_abort_transition auth_ops ;; store_mode ARGUS_NET_MODE_NETWORK_FAULT ;;
            abort_restore_http ops http_stop_err op_err
          else
            hook (st_lock_dispatch ops) ;;
            op_err ← in_sequence [hook_err (st_revalidate_network ops); sa_grant_local auth_ops requested_owner];
            if negb (is_ok op_err) then
              sa_abort_transition auth_ops ;; store_mode ARGUS_NET_MODE_NETWORK_FAULT ;;
              hook (st_unlock_dispatch ops) ;;
              abort_restore_http ops http_stop_err op_err
            else
              store_mode ARGUS_NET_MODE_SERVICE_AP_ONLY ;;
              hook (st_unlock_dispatch ops) ;;
              hook (st_unlock_net ops) ;;
              hook (st_start_http ops) ;;
              mret ESP_OK
  end.
End ServiceEntry.
Arguments argus_service_authority_ops_t : clear implicits.
Arguments argus_service_transition_ops_t : clear implicits.

(** ** The production operations of the service entry *)

Definition stationary (state : argus_state_snapshot_t) : bool :=
  is_state (ss_machine_state state) ARGUS_STATE_HOLDING || is_state (ss_machine_state state) ARGUS_STATE_UNLOCKED.

Definition latched_or_faulted (state : argus_state_snapshot_t) : bool :=
  is_state (ss_machine_state state) ARGUS_STATE_EMERGENCY_STOPPED
  || is_state (ss_machine_state state) ARGUS_STATE_FAULTED || ss_estop_latched state.

Definition prod_request_normal_stop : net esp_err_t :=
  state ← call MachineSnapshot;
  if stationary state then mret ESP_OK else call MachineStopNormal.

Definition prod_verify_stopped : net esp_err_t :=
  poll 100
    (state ← call MachineSnapshot;
     mret (if stationary state then Some ESP_OK
           else if latched_or_faulted state then Some ESP_ERR_INVALID_STATE
           else None))
    (mret ESP_ERR_TIMEOUT).

Definition prod_stop_broker : net esp_err_t := argus_mqtt_broker_request_stop_converged.
Definition prod_verify_broker_stopped : net esp_err_t := argus_mqtt_broker_verify_stopped_converged 41 50.

Definition prod_disconnect_sta : net esp_err_t :=
  '(wifi_err, wifi_mode) ← call WifiGetMode;
  sta_connected ← gets s_sta_connected;
  sta_ip_acquired ← gets s_sta_ip_acquired;
  let '(eval_err, disconnect_needed) :=
    argus_net_mgr_eval_sta_disconnect_req wifi_mode wifi_err sta_connected sta_ip_acquired in
  if negb (is_ok eval_err) then mret eval_err
  else if negb disconnect_needed then mret ESP_OK
  else
    err ← call WifiDisconnect;
    mret (match err with
          | ESP_ERR_WIFI_NOT_STARTED | ESP_ERR_WIFI_NOT_INIT => ESP_OK
          | _ => err
          end).

(** Wait up to two seconds for a flag to be clear. *)
Definition verify_clear (flag : net_mgr -> bool) : net esp_err_t :=
  poll 40
    (f ← gets flag; mret (if (f : bool) then None else Some ESP_OK))
    (f ← gets flag; mret (if (f : bool) then ESP_ERR_TIMEOUT else ESP_OK)).

Definition prod_verify_sta_disconnected : net esp_err_t := verify_clear s_sta_connected.
Definition prod_verify_sta_ip_released : net esp_err_t := verify_clear s_sta_ip_acquired.

Definition prod_set_wifi_ap_only : net esp_err_t :=
  '(err, mode) ← call WifiGetMode;
  if is_ok err && bool_decide (mode = WIFI_MODE_AP) then mret ESP_OK else call (WifiSetMode WIFI_MODE_AP).

(** [!a && !b && !c] over the flags, which stops at the first that is set. *)
Definition sta_gone : net bool :=
  started ← gets s_sta_started;
  if (started : bool) then mret false
  else
    connected ← gets s_sta_connected;
    if (connected : bool) then mret false
    else ip ← gets s_sta_ip_acquired; mret (negb ip).

Definition prod_verify_ap_active : net esp_err_t :=
  poll 40
    ('(err, mode) ← call WifiGetMode;
     ap_ok ← gets s_ap_started;
     gone ← sta_gone;
     mret (if is_ok err && bool_decide (mode = WIFI_MODE_AP) && ap_ok && gone then Some ESP_OK else None))
    (mret ESP_ERR_TIMEOUT).

Definition prod_set_sta_disabled : net esp_err_t :=
  gone ← sta_gone;
  if negb gone then mret ESP_ERR_INVALID_STATE
  else set_sta_state ARGUS_STA_DISABLED ;; mret ESP_OK.

Definition prod_verify_machine_safe : net esp_err_t :=
  state ← call MachineSnapshot;
  if latched_or_faulted state then mret ESP_ERR_INVALID_STATE
  else if negb (stationary state) then mret ESP_ERR_INVALID_STATE
  else mret ESP_OK.

Definition prod_revalidate_network : net esp_err_t :=
  '(wifi_err, wifi_mode) ← call WifiGetMode;
  if negb (is_ok wifi_err) || negb (bool_decide (wifi_mode = WIFI_MODE_AP)) then mret ESP_ERR_INVALID_STATE
  else
    ap_started ← gets s_ap_started;
    gone ← (if (ap_started : bool) then sta_gone else mret false);
    if negb gone then mret ESP_ERR_INVALID_STATE
    else
      state ← call MachineSnapshot;
      if latched_or_faulted state || negb (stationary state) then mret ESP_ERR_INVALID_STATE
      else mret ESP_OK.

Definition prod_authority_ops : argus_service_authority_ops_t net_op := {|
  sa_prepare_transition := call (AuthoritySetMode ARGUS_AUTHORITY_SERVICE_TRANSITION ARGUS_AUTH_OWNER_NONE);
  sa_grant_local := fun owner => call (AuthorityGrant owner);
  sa_abort_transition := call AuthorityAbort
|}.

Definition prod_transition_ops : argus_service_transition_ops_t net_op := {|
  st_request_normal_stop := prod_request_normal_stop;
  st_verify_stopped := prod_verify_stopped;
  st_stop_broker := prod_stop_broker;
  st_verify_broker_stopped := prod_verify_broker_stopped;
  st_disconnect_sta := prod_disconnect_sta;
  st_verify_sta_disconnected := prod_verify_sta_disconnected;
  st_verify_sta_ip_released := prod_verify_sta_ip_released;
  st_set_wifi_ap_only := prod_set_wifi_ap_only;
  st_verify_ap_active := prod_verify_ap_active;
  st_set_sta_disabled := prod_set_sta_disabled;
  st_verify_machine_safe := prod_verify_machine_safe;
  st_stop_http := Some (call HttpStop);
  st_start_http := Some (call HttpStart);
  st_unlock_net := Some (call (Unlock NetMutex));
  st_lock_net := Some (call (Lock NetMutex));
  st_lock_dispatch := Some (call (Lock DispatchLock));
  st_unlock_dispatch := Some (call (Unlock DispatchLock));
  st_revalidate_network := Some prod_revalidate_network
|}.

(** [*net_mode = mode] for [net_mode == &s_net_mode]. *)
Definition store_net_mode (mode : argus_network_mode_t) : net unit := assign (fun m => m <| s_net_mode := mode |>).

(** ** The snapshot *)

Definition argus_net_mgr_get_retry_seconds : net Z :=
  active ← call (TimerActive AutoRetry);
  expiry ← (if (active : bool) then call (TimerExpiry AutoRetry) else mret 0);
  now ← call TickCount;
  retry_generation ← gets s_auto_retry_timer_generation;
  timer_generation ← gets s_timer_generation;
  sta_state ← gets s_sta_state;
  mret (argus_net_retry_countdown_seconds
          (argus_net_retry_remaining_ms now expiry active retry_generation timer_generation sta_state 1)).

Definition argus_net_mgr_is_action_required : net bool :=
  s ← gets s_sta_state; mret (bool_decide (s = ARGUS_STA_ACTION_REQUIRED)).

Definition populate_net_snapshot_locked : net argus_net_snapshot_t :=
  m ← call Statics;
  connected ← gets s_sta_connected;
  ip_acquired ← gets s_sta_ip_acquired;
  ap_started ← gets s_ap_started;
  '(broker_err, obs) ← call BrokerObserve;
  let observable := is_ok broker_err in
  commissioned ← has_valid_commissioned_config;
  seconds ← argus_net_mgr_get_retry_seconds;
  action ← argus_net_mgr_is_action_required;
  reset_pending ← gets s_factory_reset_pending;
  retry_active ← call (TimerActive AutoRetry);
  retry_generation ← gets s_auto_retry_timer_generation;
  ip_active ← call (TimerActive IpTimeout);
  ip_generation ← gets s_ip_timeout_timer_generation;
  address ← (if ip_acquired : bool then call StaIpText else mret []);
  mret (NetSnapshot (s_net_mode m) (s_last_error m) connected ip_acquired ap_started
    (observable && argus_mqtt_broker_observation_is_running obs)
    (observable && argus_mqtt_broker_observation_is_stopped obs) observable commissioned
    (s_sta_state m) (s_last_disconnect_category m) (s_last_disconnect_reason m) (s_consecutive_failures m)
    seconds action (argus_net_can_manual_reconnect (s_net_mode m) (s_sta_state m) commissioned)
    address (wt_state (s_wifi_transaction m)) (s_timer_generation m) (wt_active (s_wifi_transaction m))
    reset_pending (wt_generation (s_wifi_transaction m)) retry_active retry_generation ip_active ip_generation
    (s_last_service_cancel_failure m) (s_last_service_cancel_error m)).

Definition argus_net_mgr_get_snapshot : net argus_net_snapshot_t :=
  call (Lock NetMutex) ;;
  snap ← populate_net_snapshot_locked;
  call (Unlock NetMutex) ;;
  mret snap.

(** ** Requests for local service *)

(** [argus_net_cancel_recovery_for_service] over the production pointers and timers. *)
Definition argus_net_cancel_recovery_for_service : net cancel_result :=
  next_timer_generation ;;
  set_active_generation 0 ;;
  assign (fun m => m <| s_auto_retry_timer_generation := 0 |>) ;;
  assign (fun m => m <| s_ip_timeout_timer_generation := 0 |>) ;;
  assign (fun m => m <| s_wifi_transaction ::= argus_wifi_transaction_cancel |>) ;;
  retry_ok ← call (TimerStop AutoRetry);
  ip_ok ← call (TimerStop IpTimeout);
  mret (if negb retry_ok then (ESP_FAIL, ARGUS_SERVICE_CANCEL_FAILURE_RETRY_TIMER)
        else if negb ip_ok then (ESP_FAIL, ARGUS_SERVICE_CANCEL_FAILURE_IP_TIMER)
        else (ESP_OK, ARGUS_SERVICE_CANCEL_FAILURE_NONE)).

(** A snapshot of the network, then the authority, then the policy. *)
Definition evaluate_entry (requested_owner : argus_authority_owner_t)
    : net (esp_err_t + argus_svc_policy_result_t * option argus_net_event_t) :=
  snap ← populate_net_snapshot_locked;
  '(err, auth) ← call AuthoritySnapshot;
  mret (if is_ok err then inr (argus_service_policy_evaluate_entry_for_owner snap auth requested_owner) else inl err).

Definition event_fingerprint (evt : option argus_net_event_t) : option argus_service_entry_fingerprint_t :=
  evt ← evt; ev_service_preflight evt.

(** The request still admits the entry, and the fingerprint it was made with still holds.
    The event of a refused request stays zero; its fingerprint is not looked at. *)
Definition preflight_holds (expected : option argus_service_entry_fingerprint_t)
    (verdict : argus_svc_policy_result_t * option argus_net_event_t) : bool :=
  bool_decide (verdict.1 = ARGUS_SVC_POLICY_OK)
  && match expected, event_fingerprint verdict.2 with
     | Some expected, Some actual => argus_service_entry_fingerprint_matches expected actual
     | Some _, None => false
     | None, _ => true
     end.

(** The commit under both locks. *)
Definition commit_recovery (expected : option argus_service_entry_fingerprint_t)
    (verdict : argus_svc_policy_result_t * option argus_net_event_t) : net cancel_result :=
  match event_fingerprint verdict.2 with
  | Some actual => argus_net_service_commit_recovery verdict.1 expected actual argus_net_cancel_recovery_for_service
  | None => mret (ESP_ERR_INVALID_STATE, ARGUS_SERVICE_CANCEL_FAILURE_NONE)
  end.

Definition record_cancel_failure (failure : argus_service_cancel_failure_t) (err : esp_err_t) : net unit :=
  m ← call Statics;
  let state := argus_net_record_service_cancel_failure
    (CancelState (s_sta_state m) (s_last_error m) (s_last_service_cancel_failure m) (s_last_service_cancel_error m))
    failure err in
  assign (fun m => m <| s_sta_state := cn_sta_state state |> <| s_last_error := cn_net_error state |>
                     <| s_last_service_cancel_failure := cn_cancel_failure state |>
                     <| s_last_service_cancel_error := cn_cancel_error state |>).

Definition unlock_both : net unit := call (Unlock DispatchLock) ;; call (Unlock NetMutex).

(** After the commit: the orchestrated entry, which returns with both locks dropped. *)
Definition enter_service (requested_owner : argus_authority_owner_t) : net esp_err_t :=
  assign (fun m => m <| s_last_service_cancel_failure := ARGUS_SERVICE_CANCEL_FAILURE_NONE |>
                     <| s_last_service_cancel_error := ESP_OK |>) ;;
  res ← argus_net_mgr_orchestrate_service_entry store_net_mode requested_owner
          (Some (prod_authority_ops, prod_transition_ops));
  (if negb (is_ok res) then set_error ARGUS_NET_ERR_STA_SHUTDOWN_FAILED else mret tt) ;;
  mret res.

Definition argus_net_mgr_request_service_internal (requested_owner : argus_authority_owner_t)
    (expected_preflight : option argus_service_entry_fingerprint_t) : net esp_err_t :=
  initialized ← gets s_initialized;
  if negb initialized then mret ESP_ERR_INVALID_STATE
  else if negb (local_owner requested_owner) then mret ESP_ERR_INVALID_ARG
  else
    call (Lock NetMutex) ;;
    v ← evaluate_entry requested_owner;
    match v with
    | inl auth_err => call (Unlock NetMutex) ;; mret auth_err
    | inr verdict =>
        if negb (preflight_holds expected_preflight verdict) then
          call (Unlock NetMutex) ;; mret ESP_ERR_INVALID_STATE
        else
          call (Lock DispatchLock) ;;
          v ← evaluate_entry requested_owner;
          match v with
          | inl auth_err => unlock_both ;; mret auth_err
          | inr verdict =>
              '(commit_err, cancel_failure) ← commit_recovery expected_preflight verdict;
              if is_ok commit_err then enter_service requested_owner
              else if bool_decide (cancel_failure = ARGUS_SERVICE_CANCEL_FAILURE_NONE) then
                unlock_both ;; mret commit_err
              else
                record_cancel_failure cancel_failure commit_err ;;
                unlock_both ;; mret commit_err
          end
    end.

Definition argus_net_mgr_request_service (requested_owner : argus_authority_owner_t) : net esp_err_t :=
  argus_net_mgr_request_service_internal requested_owner None.

Definition argus_net_mgr_evaluate_service_entry (requested_owner : argus_authority_owner_t)
    : net (esp_err_t + argus_svc_policy_result_t * option argus_net_event_t) :=
  call (Lock NetMutex) ;;
  v ← evaluate_entry requested_owner;
  call (Unlock NetMutex) ;;
  mret v.

(** ** The service exit *)

Definition revoke_authority : net esp_err_t :=
  call (AuthoritySetMode ARGUS_AUTHORITY_NONE ARGUS_AUTH_OWNER_NONE).

(** [exit_fail_closed]: no reboot. *)
Definition exit_fail_closed (err : esp_err_t) : net esp_err_t :=
  revoke_authority ;;
  store_net_mode ARGUS_NET_MODE_NETWORK_FAULT ;;
  set_error ARGUS_NET_ERR_STA_SHUTDOWN_FAILED ;;
  call (Unlock NetMutex) ;;
  mret err.

(** A refusal at the second dispatch gate. *)
Definition exit_gate_failed : net esp_err_t :=
  revoke_authority ;;
  store_net_mode ARGUS_NET_MODE_NETWORK_FAULT ;;
  unlock_both ;;
  mret ESP_ERR_INVALID_STATE.

(** The second dispatch gate: revalidate, revoke, release, reboot. *)
Definition exit_second_gate (exit_transition_gen : Z) : net esp_err_t :=
  call (Lock DispatchLock) ;;
  '(_, recheck) ← call AuthoritySnapshot;
  if negb (bool_decide (as_mode recheck = ARGUS_AUTHORITY_SERVICE_TRANSITION))
     || negb (bool_decide (as_owner recheck = ARGUS_AUTH_OWNER_NONE))
     || negb (as_generation recheck =? exit_transition_gen)
  then exit_gate_failed
  else
    state ← call MachineSnapshot;
    if latched_or_faulted state || negb (stationary state) then exit_gate_failed
    else
      revoke_authority ;;
      unlock_both ;;
      call (Delay 100) ;;
      call Reboot ;;
      mret ESP_OK.

Definition argus_net_mgr_request_service_exit (requested_owner : argus_authority_owner_t) : net esp_err_t :=
  initialized ← gets s_initialized;
  if negb initialized then mret ESP_ERR_INVALID_STATE
  else
    call (Lock NetMutex) ;;
    mode ← gets s_net_mode;
    if negb (bool_decide (mode = ARGUS_NET_MODE_SERVICE_AP_ONLY)) then
      call (Unlock NetMutex) ;; mret ESP_ERR_INVALID_STATE
    else
      call (Lock DispatchLock) ;;
      '(_, auth) ← call AuthoritySnapshot;
      if negb (bool_decide (as_mode auth = ARGUS_AUTHORITY_LOCAL_SERVICE))
         || negb (bool_decide (as_owner auth = requested_owner)) then
        unlock_both ;; mret ESP_ERR_INVALID_STATE
      else
        set_net_mode ARGUS_NET_MODE_SERVICE_TRANSITION ;;
        call (AuthoritySetMode ARGUS_AUTHORITY_SERVICE_TRANSITION ARGUS_AUTH_OWNER_NONE) ;;
        '(_, post) ← call AuthoritySnapshot;
        call (Unlock DispatchLock) ;;
        stop_err ← call MachineStopNormal;
        if negb (is_ok stop_err) then exit_fail_closed stop_err
        else
          stop_err ← prod_verify_stopped;
          if negb (is_ok stop_err) then exit_fail_closed stop_err
          else exit_second_gate (as_generation post).

(** ** Physical security recovery *)

Definition argus_net_security_recovery_request_is_idempotent (mode : argus_network_mode_t) : bool :=
  bool_decide (mode = ARGUS_NET_MODE_SECURITY_RECOVERY_AP_ONLY).

(** The end of the recovery, under the mutex: the mode it reached, or a fault. *)
Definition recovery_result (err : esp_err_t) : net esp_err_t :=
  call (Lock NetMutex) ;;
  (if is_ok err then
     set_net_mode ARGUS_NET_MODE_SECURITY_RECOVERY_AP_ONLY ;; set_error ARGUS_NET_ERR_NONE
   else
     set_net_mode ARGUS_NET_MODE_NETWORK_FAULT ;; set_error ARGUS_NET_ERR_SECURITY_RECOVERY_FAILED) ;;
  call (Unlock NetMutex) ;;
  mret err.

Definition enter_security_recovery_network : net esp_err_t :=
  call (Lock NetMutex) ;;
  mode ← gets s_net_mode;
  call (Unlock NetMutex) ;;
  if argus_net_security_recovery_request_is_idempotent mode then mret ESP_OK
  else
    ap ← populate_service_ap_config true;
    match ap with
    | inl err => mret err
    | inr ap_config =>
        call (Lock NetMutex) ;;
        set_net_mode ARGUS_NET_MODE_SECURITY_RECOVERY_TRANSITION ;;
        assign (fun m => m <| s_sta_state := ARGUS_STA_DISABLED |> <| s_consecutive_failures := 0 |>
                           <| s_auth_failures := 0 |>) ;;
        call (Unlock NetMutex) ;;
        broker_err ← prod_stop_broker;
        if negb (is_ok broker_err) then recovery_result broker_err
        else
          disconnect_err ← call WifiDisconnect;
          let err := match disconnect_err with ESP_ERR_WIFI_NOT_CONNECT => ESP_OK | e => e end in
          err ← in_sequence [mret err; call (WifiSetMode WIFI_MODE_AP); call (WifiSetApConfig ap_config)];
          recovery_result err
    end.

(** ** The production operations of the Wi-Fi transaction *)

Definition wifi_apply_stop_timers : net esp_err_t :=
  retry_result ← call (TimerStop AutoRetry);
  ip_result ← call (TimerStop IpTimeout);
  mret (if retry_result && ip_result then ESP_OK else ESP_FAIL).

(** [sizeof] of the two arrays of [wifi_sta_config_t]. *)
Definition WIFI_SSID_SIZE : nat := 32.
Definition WIFI_PASSWORD_SIZE : nat := 64.

Definition wifi_apply_load_config (out_cfg : wifi_sta_config_t) : net (esp_err_t * wifi_sta_config_t * bool) :=
  '(err, cfg, has_cfg) ← call EffectiveConfig;
  mret (if is_ok err && has_cfg && argus_nvs_config_is_commissioned cfg
           && negb (bool_decide (sta_pass cfg = ARGUS_CONFIG_MASK_STRING))
        then (err, WifiStaConfig (strlcpy (sta_ssid cfg) WIFI_SSID_SIZE)
                     (strlcpy (sta_pass cfg) WIFI_PASSWORD_SIZE) true, has_cfg)
        else if is_ok err then (err, out_cfg, false)
        else (err, out_cfg, has_cfg)).

Definition wifi_apply_validate_config (cfg : wifi_sta_config_t) (has_cfg : bool) : esp_err_t :=
  if negb has_cfg then ESP_ERR_NOT_FOUND
  else if (length (ws_ssid cfg) =? 0)%nat || (WIFI_SSID_SIZE <=? length (ws_ssid cfg))%nat
          || (length (ws_password cfg) <? ARGUS_CFG_STA_PASS_MIN)%nat
          || (ARGUS_CFG_STA_PASS_MAX <? length (ws_password cfg))%nat
          || bool_decide (ws_password cfg = ARGUS_CONFIG_MASK_STRING)
  then ESP_ERR_INVALID_ARG
  else ESP_OK.

Definition wifi_apply_apply_sta_config (cfg : wifi_sta_config_t) : net esp_err_t :=
  '(err, mode) ← call WifiGetMode;
  if negb (is_ok err) then mret err
  else
    err ← (match mode with
           | WIFI_MODE_AP => call (WifiSetMode WIFI_MODE_APSTA)
           | WIFI_MODE_STA | WIFI_MODE_APSTA => mret ESP_OK
           | _ => mret ESP_ERR_INVALID_STATE
           end);
    if negb (is_ok err) then mret err else call (WifiSetStaConfig cfg).

Definition argus_wifi_apply_get_production_ops : argus_wifi_apply_ops_t net_op := {|
  wa_stop_timers := wifi_apply_stop_timers;
  wa_revoke_supervisory := revoke_authority;
  wa_stop_broker := argus_mqtt_broker_request_stop_converged;
  wa_verify_broker_stopped := argus_mqtt_broker_verify_stopped_converged 41 50;
  wa_load_config := wifi_apply_load_config;
  wa_validate_config := fun cfg has_cfg => mret (wifi_apply_validate_config cfg has_cfg);
  wa_disconnect_sta := call WifiDisconnect;
  wa_apply_sta_config := wifi_apply_apply_sta_config;
  wa_connect_sta := call WifiConnect
|}.

(** ** The events of the task *)

(** Begin a transaction with a fresh generation. *)
Definition begin_transaction (kind : argus_wifi_transaction_kind_t) : net unit :=
  generation ← next_timer_generation;
  set_active_generation generation ;;
  txn ← gets s_wifi_transaction;
  mode ← gets s_net_mode;
  sta_state ← gets s_sta_state;
  connected ← gets s_sta_connected;
  '(err, txn, sta_state) ← wifi_transaction_begin txn generation kind mode sta_state connected
                             (Some argus_wifi_apply_get_production_ops);
  assign (fun m => m <| s_wifi_transaction := txn |> <| s_sta_state := sta_state |>) ;;
  if negb (is_ok err) then
    set_active_generation 0 ;; set_error ARGUS_NET_ERR_WIFI_TRANSACTION_FAILED
  else mret tt.

Definition on_manual_reconnect : net unit :=
  call (Lock NetMutex) ;;
  mode ← gets s_net_mode;
  sta_state ← gets s_sta_state;
  valid ← has_valid_commissioned_config;
  (if argus_net_can_manual_reconnect mode sta_state valid then
     txn ← gets s_wifi_transaction;
     if wt_active txn then mret tt else begin_transaction ARGUS_WIFI_TXN_MANUAL_RECONNECT
   else mret tt) ;;
  call (Unlock NetMutex).

Definition on_apply_wifi_config : net unit :=
  call (Lock NetMutex) ;;
  txn ← gets s_wifi_transaction;
  (if wt_active txn then mret tt else begin_transaction ARGUS_WIFI_TXN_APPLY_CONFIG) ;;
  call (Unlock NetMutex).

Definition on_auto_reconnect (evt : argus_net_event_t) : net unit :=
  call (Lock NetMutex) ;;
  timer_generation ← gets s_timer_generation;
  sta_state ← gets s_sta_state;
  (if argus_net_timer_generation_is_current (ev_timer_generation evt) timer_generation
      && bool_decide (sta_state = ARGUS_STA_RETRY_WAIT) then
     err ← call WifiConnect;
     set_sta_state (if is_ok err then ARGUS_STA_CONNECTING else ARGUS_STA_IDLE)
   else mret tt) ;;
  call (Unlock NetMutex).

(** The gate for a station event. *)
Definition decide_sta_event (event : argus_sta_lifecycle_event_t) (event_generation : Z)
    (active : net_mgr -> Z) : net argus_sta_event_action_t :=
  mode ← gets s_net_mode;
  active_generation ← gets active;
  started ← gets s_sta_started;
  connected ← gets s_sta_connected;
  ip_acquired ← gets s_sta_ip_acquired;
  mret (argus_net_decide_sta_event mode event event_generation active_generation started connected ip_acquired).

Definition apply_sta_event_action_locked (event : argus_sta_lifecycle_event_t)
    (action : argus_sta_event_action_t) : net unit :=
  state ← gets s_sta_state;
  started ← gets s_sta_started;
  connected ← gets s_sta_connected;
  ip_acquired ← gets s_sta_ip_acquired;
  mode ← gets s_net_mode;
  let '(state, flags) := argus_net_apply_sta_event_action mode event action state (StaFlags started connected ip_acquired) in
  set_sta_state state ;;
  assign (fun m => m <| s_sta_started := f_started flags |>) ;;
  assign (fun m => m <| s_sta_connected := f_connected flags |>) ;;
  assign (fun m => m <| s_sta_ip_acquired := f_ip_acquired flags |>).

(** Start a timer; if the command fails the station idles. *)
Definition start_timer_or_idle (t : net_timer) : net unit :=
  queued ← call (TimerStart t);
  if is_ok (argus_net_timer_command_status queued) then mret tt
  else set_sta_state ARGUS_STA_IDLE ;; set_error ARGUS_NET_ERR_TIMER_COMMAND_FAILED.

Definition on_sta_associated (evt : argus_net_event_t) : net unit :=
  call (Lock NetMutex) ;;
  action ← decide_sta_event ARGUS_STA_EVENT_ASSOCIATED (ev_transaction_generation evt) s_active_transaction_generation;
  (if bool_decide (action = ARGUS_STA_EVENT_PROCESS) then
     set_sta_state ARGUS_STA_ASSOCIATED_WAITING_IP ;;
     assign (fun m => m <| s_ip_timeout_timer_generation := s_timer_generation m |>) ;;
     start_timer_or_idle IpTimeout
   else apply_sta_event_action_locked ARGUS_STA_EVENT_ASSOCIATED action) ;;
  call (Unlock NetMutex).

(** The broker follows: started if there is a callback, and supervisory authority if it runs. *)
Definition start_broker_and_grant : net unit :=
  callback ← gets s_broker_start_cb;
  (if (callback : bool) then call BrokerStart else mret tt) ;;
  running ← argus_mqtt_broker_is_running;
  if (running : bool) then
    call (AuthoritySetMode ARGUS_AUTHORITY_SUPERVISORY ARGUS_AUTH_OWNER_MQTT) ;; mret tt
  else mret tt.

Definition process_ip_acquired (evt : argus_net_event_t) : net unit :=
  next_timer_generation ;;
  stopped ← stop_timers_in_turn IpTimeout AutoRetry;
  (if (stopped : bool) then mret tt else set_error ARGUS_NET_ERR_TIMER_COMMAND_FAILED) ;;
  txn ← gets s_wifi_transaction;
  let '(completed, txn) := argus_wifi_transaction_handle_got_ip txn (ev_transaction_generation evt) in
  assign (fun m => m <| s_wifi_transaction := txn |>) ;;
  (if (completed : bool) then set_active_generation 0
   else if negb (wt_active txn) && bool_decide (wt_state txn = ARGUS_WIFI_APPLY_FAILED)
   then assign (fun m => m <| s_wifi_transaction := argus_wifi_transaction_init |>)
   else mret tt) ;;
  assign (fun m => m <| s_sta_state := ARGUS_STA_CONNECTED |> <| s_consecutive_failures := 0 |>
                     <| s_auth_failures := 0 |> <| s_last_disconnect_category := ARGUS_DISCONNECT_CAT_NONE |>
                     <| s_last_disconnect_reason := REASON_NONE |> <| s_last_error := ARGUS_NET_ERR_NONE |>
                     <| s_last_service_cancel_failure := ARGUS_SERVICE_CANCEL_FAILURE_NONE |>
                     <| s_last_service_cancel_error := ESP_OK |>) ;;
  mode ← gets s_net_mode;
  if sta_operational mode then
    (match mode with
     | ARGUS_NET_MODE_NETWORK_FAULT | ARGUS_NET_MODE_UNCOMMISSIONED_AP => set_net_mode ARGUS_NET_MODE_AP_DISCOVERABLE
     | _ => mret tt
     end) ;;
    start_broker_and_grant
  else mret tt.

Definition on_sta_connected (evt : argus_net_event_t) : net unit :=
  call (Lock NetMutex) ;;
  action ← decide_sta_event ARGUS_STA_EVENT_IP_ACQUIRED (ev_transaction_generation evt) s_active_transaction_generation;
  (if bool_decide (action = ARGUS_STA_EVENT_PROCESS) then process_ip_acquired evt
   else apply_sta_event_action_locked ARGUS_STA_EVENT_IP_ACQUIRED action) ;;
  call (Unlock NetMutex).

(** A lost link outside a transaction's own disconnect: evidence and retry. *)
Definition record_link_loss (evt : argus_net_event_t) : net unit :=
  let reason := ev_disconnect_reason evt in
  assign (fun m => m <| s_last_disconnect_reason := reason |>) ;;
  timer_generation ← gets s_timer_generation;
  let is_timeout := bool_decide (reason = REASON_NONE) in
  if is_timeout && negb (argus_net_timer_generation_is_current (ev_timer_generation evt) timer_generation)
  then mret tt
  else
    let category := if is_timeout then ARGUS_DISCONNECT_CAT_IP_TIMEOUT
                    else (argus_net_classify_disconnect reason).2 in
    assign (fun m => m <| s_last_disconnect_category := category |>
                       <| s_consecutive_failures ::= fun n => u32 (n + 1) |>
                       <| s_auth_failures ::= fun n =>
                            if bool_decide (category = ARGUS_DISCONNECT_CAT_AUTHENTICATION) then u32 (n + 1) else 0 |>) ;;
    auth_failures ← gets s_auth_failures;
    let state := argus_net_evaluate_retry category auth_failures in
    set_sta_state state ;;
    if bool_decide (state = ARGUS_STA_ACTION_REQUIRED) then mret tt
    else
      retry_generation ← next_timer_generation;
      assign (fun m => m <| s_auto_retry_timer_generation := retry_generation |>) ;;
      start_timer_or_idle AutoRetry.

(** The transaction's part in a disconnect: whether it was the one it asked for. *)
Definition transaction_disconnect (evt : argus_net_event_t) : net bool :=
  txn ← gets s_wifi_transaction;
  sta_state ← gets s_sta_state;
  '(handled, err, txn, sta_state) ←
    argus_wifi_transaction_handle_disconnect txn (ev_transaction_generation evt) sta_state
      argus_wifi_apply_get_production_ops;
  assign (fun m => m <| s_wifi_transaction := txn |> <| s_sta_state := sta_state |>) ;;
  if (handled : bool) then
    (if negb (is_ok err) then
       set_active_generation 0 ;; set_error ARGUS_NET_ERR_WIFI_TRANSACTION_FAILED
     else mret tt) ;;
    mret true
  else
    let '(failed, _, txn) :=
      argus_wifi_transaction_handle_connection_failure txn (ev_transaction_generation evt) ESP_ERR_WIFI_CONN in
    assign (fun m => m <| s_wifi_transaction := txn |>) ;;
    (if (failed : bool) then
       set_active_generation 0 ;; set_error ARGUS_NET_ERR_WIFI_TRANSACTION_FAILED
     else mret tt) ;;
    mret false.

Definition process_disconnect (evt : argus_net_event_t) : net unit :=
  stopped ← call (TimerStop IpTimeout);
  (if (stopped : bool) then mret tt else set_error ARGUS_NET_ERR_TIMER_COMMAND_FAILED) ;;
  handled ← (if bool_decide (ev_disconnect_reason evt = REASON_NONE) then mret false else transaction_disconnect evt);
  if (handled : bool) then mret tt
  else
    mode ← gets s_net_mode;
    if sta_operational mode then record_link_loss evt else set_sta_state ARGUS_STA_IDLE.

Definition on_sta_disconnected (evt : argus_net_event_t) : net unit :=
  call (Lock NetMutex) ;;
  let is_ip_timeout := bool_decide (ev_disconnect_reason evt = REASON_NONE) in
  let event := if is_ip_timeout then ARGUS_STA_EVENT_IP_TIMEOUT else ARGUS_STA_EVENT_DISCONNECTED in
  action ← decide_sta_event event
             (if is_ip_timeout then ev_timer_generation evt else ev_transaction_generation evt)
             (if is_ip_timeout then s_timer_generation else s_active_transaction_generation);
  (if bool_decide (action = ARGUS_STA_EVENT_PROCESS) then process_disconnect evt
   else apply_sta_event_action_locked event action) ;;
  call (Unlock NetMutex).

Definition on_sta_stopped (evt : argus_net_event_t) : net unit :=
  call (Lock NetMutex) ;;
  action ← decide_sta_event ARGUS_STA_EVENT_STOPPED (ev_transaction_generation evt) s_active_transaction_generation;
  (match action with
   | ARGUS_STA_EVENT_CONFIRM_DISABLED => apply_sta_event_action_locked ARGUS_STA_EVENT_STOPPED action
   | ARGUS_STA_EVENT_PROCESS =>
       set_sta_state ARGUS_STA_DISABLED ;;
       set_net_mode ARGUS_NET_MODE_NETWORK_FAULT ;;
       set_error ARGUS_NET_ERR_STA_SHUTDOWN_FAILED
   | ARGUS_STA_EVENT_IGNORE => mret tt
   end) ;;
  call (Unlock NetMutex).

Definition on_apply_active_ap_secret : net unit :=
  call (Lock NetMutex) ;;
  mode ← gets s_net_mode;
  ap_started ← gets s_ap_started;
  ap ← (if negb (bool_decide (mode = ARGUS_NET_MODE_SECURITY_RECOVERY_AP_ONLY)) && ap_started
        then populate_service_ap_config false else mret (inl ESP_ERR_INVALID_STATE));
  err ← (match ap with inl err => mret err | inr ap_config => call (WifiSetApConfig ap_config) end);
  (if negb (is_ok err) then set_error ARGUS_NET_ERR_SECURITY_RECOVERY_FAILED else mret tt) ;;
  call (Unlock NetMutex).

(** *** The factory reset *)

Definition factory_reset_begin_transition : net esp_err_t :=
  err ← call (AuthoritySetMode ARGUS_AUTHORITY_SERVICE_TRANSITION ARGUS_AUTH_OWNER_NONE);
  (if is_ok err then set_net_mode ARGUS_NET_MODE_SERVICE_TRANSITION else mret tt) ;;
  mret err.

Definition argus_factory_reset_get_production_ops : argus_factory_reset_ops_t net_op := {|
  fr_lock_lifecycle := call (Lock NetMutex) ;; mret ESP_OK;
  fr_unlock_lifecycle := call (Unlock NetMutex);
  fr_lock_dispatch := call (Lock DispatchLock);
  fr_unlock_dispatch := call (Unlock DispatchLock);
  fr_get_network_snapshot := snap ← populate_net_snapshot_locked; mret (ESP_OK, snap);
  fr_get_authority_snapshot := call AuthoritySnapshot;
  fr_get_state_snapshot := call MachineSnapshot;
  fr_begin_transition := factory_reset_begin_transition;
  fr_response_grace_delay := call (Delay 500);
  fr_stop_http := call HttpStop;
  fr_revoke_authority := revoke_authority;
  fr_erase_configuration := call EraseConfig;
  fr_reboot := call Reboot
|}.

Definition on_factory_reset : net unit :=
  result ← argus_factory_reset_execute (Some argus_factory_reset_get_production_ops);
  if negb (rs_accepted result) then
    assign (fun m => m <| s_factory_reset_pending := false |>) ;;
    set_error ARGUS_NET_ERR_RESET_FAILED
  else mret tt.

(** One turn of [net_mgr_task]. *)
Definition net_mgr_task (evt : argus_net_event_t) : net unit :=
  match ev_type evt with
  | ARGUS_NET_EVT_SERVICE_REQUEST =>
      argus_net_mgr_request_service_internal (ev_requested_owner evt) (ev_service_preflight evt) ;; mret tt
  | ARGUS_NET_EVT_SERVICE_EXIT => argus_net_mgr_request_service_exit (ev_requested_owner evt) ;; mret tt
  | ARGUS_NET_EVT_SECURITY_RECOVERY_REQUEST => enter_security_recovery_network ;; mret tt
  | ARGUS_NET_EVT_MANUAL_RECONNECT_REQUEST => on_manual_reconnect
  | ARGUS_NET_EVT_AUTO_RECONNECT_WAKEUP => on_auto_reconnect evt
  | ARGUS_NET_EVT_STA_ASSOCIATED => on_sta_associated evt
  | ARGUS_NET_EVT_STA_CONNECTED => on_sta_connected evt
  | ARGUS_NET_EVT_STA_DISCONNECTED => on_sta_disconnected evt
  | ARGUS_NET_EVT_AP_CLIENT_CONNECTED | ARGUS_NET_EVT_AP_CLIENT_DISCONNECTED => mret tt
  | ARGUS_NET_EVT_APPLY_WIFI_CONFIG => on_apply_wifi_config
  | ARGUS_NET_EVT_APPLY_ACTIVE_AP_SECRET => on_apply_active_ap_secret
  | ARGUS_NET_EVT_STA_STOPPED => on_sta_stopped evt
  | ARGUS_NET_EVT_RESTART_REQUEST => call RestartExecute
  | ARGUS_NET_EVT_FACTORY_RESET_REQUEST => on_factory_reset
  end.

(** ** Requests of other tasks *)

Definition argus_net_mgr_enable_ap_discoverable : net esp_err_t :=
  initialized ← gets s_initialized;
  if negb initialized then mret ESP_ERR_INVALID_STATE
  else
    call (Lock NetMutex) ;;
    mode ← gets s_net_mode;
    if bool_decide (mode = ARGUS_NET_MODE_AP_DISCOVERABLE) then call (Unlock NetMutex) ;; mret ESP_OK
    else if negb (bool_decide (mode = ARGUS_NET_MODE_COMMISSIONED_STA)) then
      call (Unlock NetMutex) ;; mret ESP_ERR_INVALID_STATE
    else
      ap ← populate_service_ap_config false;
      match ap with
      | inl err => set_error ARGUS_NET_ERR_SERVICE_CRED_MISSING ;; call (Unlock NetMutex) ;; mret err
      | inr ap_config =>
          err ← in_sequence [call (WifiSetMode WIFI_MODE_APSTA); call (WifiSetApConfig ap_config); call WifiStart];
          (if is_ok err then set_net_mode ARGUS_NET_MODE_AP_DISCOVERABLE else mret tt) ;;
          call (Unlock NetMutex) ;;
          (if is_ok err then call HttpStart ;; mret tt else mret tt) ;;
          mret err
      end.

Definition argus_net_mgr_request_manual_reconnect : net esp_err_t :=
  initialized ← gets s_initialized;
  if negb initialized then mret ESP_ERR_INVALID_STATE
  else
    call (Lock NetMutex) ;;
    mode ← gets s_net_mode;
    if bool_decide (mode = ARGUS_NET_MODE_UNCOMMISSIONED_AP) then
      call (Unlock NetMutex) ;; mret ESP_ERR_INVALID_STATE
    else
      sta_state ← gets s_sta_state;
      valid ← has_valid_commissioned_config;
      call (Unlock NetMutex) ;;
      if negb (argus_net_can_manual_reconnect mode sta_state valid) then mret ESP_ERR_NOT_SUPPORTED
      else argus_net_mgr_post_event (plain_event ARGUS_NET_EVT_MANUAL_RECONNECT_REQUEST).

(** The requests that only post an event, once the module is initialised. *)
Definition post_when_initialized (type : argus_net_event_type_t) : net esp_err_t :=
  initialized ← gets s_initialized;
  if negb initialized then mret ESP_ERR_INVALID_STATE else argus_net_mgr_post_event (plain_event type).

Definition argus_net_mgr_request_security_recovery : net esp_err_t :=
  post_when_initialized ARGUS_NET_EVT_SECURITY_RECOVERY_REQUEST.
Definition argus_net_mgr_request_active_ap_secret_apply : net esp_err_t :=
  post_when_initialized ARGUS_NET_EVT_APPLY_ACTIVE_AP_SECRET.

Definition argus_net_mgr_request_restart : net esp_err_t :=
  initialized ← gets s_initialized;
  if negb initialized then mret ESP_ERR_INVALID_STATE
  else
    state ← call MachineSnapshot;
    if latched_or_faulted state then mret ESP_ERR_INVALID_STATE
    else if negb (stationary state) then mret ESP_ERR_INVALID_STATE
    else argus_net_mgr_post_event (plain_event ARGUS_NET_EVT_RESTART_REQUEST).

Definition argus_net_mgr_request_factory_reset : net esp_err_t :=
  initialized ← gets s_initialized;
  if negb initialized then mret ESP_ERR_INVALID_STATE
  else
    snap ← argus_net_mgr_get_snapshot;
    '(err, authority) ← call AuthoritySnapshot;
    if negb (is_ok err) then mret ESP_FAIL
    else
      state ← call MachineSnapshot;
      if negb (bool_decide (argus_factory_reset_evaluate_policy snap authority state (sn_factory_reset_pending snap)
                            = ARGUS_FACTORY_RESET_POLICY_OK))
      then mret (if sn_factory_reset_pending snap then ESP_ERR_NOT_SUPPORTED else ESP_ERR_INVALID_STATE)
      else
        claimed ← call ClaimFactoryReset;
        if negb claimed then mret ESP_ERR_NOT_SUPPORTED
        else
          err ← argus_net_mgr_post_event (plain_event ARGUS_NET_EVT_FACTORY_RESET_REQUEST);
          (if negb (is_ok err) then assign (fun m => m <| s_factory_reset_pending := false |>) else mret tt) ;;
          mret err.

(** ** Start-up *)

Definition start_mode (mode : argus_network_mode_t) (sta_state : argus_sta_state_t) : net unit :=
  assign (fun m => m <| s_net_mode := mode |> <| s_sta_state := sta_state |>) ;;
  revoke_authority ;; mret tt.

(** The three ways the module starts; [ESP_OK] is the way on to the task. *)
Definition start_security_recovery : net esp_err_t :=
  start_mode ARGUS_NET_MODE_SECURITY_RECOVERY_AP_ONLY ARGUS_STA_DISABLED ;;
  ap ← populate_service_ap_config true;
  match ap with
  | inl err => set_error ARGUS_NET_ERR_SERVICE_CRED_MISSING ;; mret err
  | inr ap_config =>
      err ← in_sequence [call (WifiSetMode WIFI_MODE_AP); call (WifiSetApConfig ap_config); call WifiStart];
      if negb (is_ok err) then set_error ARGUS_NET_ERR_SECURITY_RECOVERY_FAILED ;; mret err
      else call HttpStart ;; mret ESP_OK
  end.

Definition start_uncommissioned : net esp_err_t :=
  start_mode ARGUS_NET_MODE_UNCOMMISSIONED_AP ARGUS_STA_DISABLED ;;
  ap ← populate_service_ap_config false;
  match ap with
  | inl err => set_error ARGUS_NET_ERR_SERVICE_CRED_MISSING ;; mret err
  | inr ap_config =>
      call (WifiSetMode WIFI_MODE_AP) ;; call (WifiSetApConfig ap_config) ;; call WifiStart ;;
      call HttpStart ;; mret ESP_OK
  end.

Definition start_commissioned (cfg : argus_config_payload_t) : net esp_err_t :=
  assign (fun m => m <| s_net_mode := ARGUS_NET_MODE_AP_DISCOVERABLE |>) ;;
  revoke_authority ;;
  ap ← populate_service_ap_config false;
  match ap with
  | inl err => set_error ARGUS_NET_ERR_SERVICE_CRED_MISSING ;; mret err
  | inr ap_config =>
      let sta_config := WifiStaConfig (strlcpy (sta_ssid cfg) WIFI_SSID_SIZE)
                          (strlcpy (sta_pass cfg) WIFI_PASSWORD_SIZE) false in
      call (WifiSetMode WIFI_MODE_APSTA) ;; call (WifiSetApConfig ap_config) ;;
      call (WifiSetStaConfig sta_config) ;; call WifiStart ;;
      set_sta_state ARGUS_STA_CONNECTING ;;
      connect_err ← call WifiConnect;
      (if negb (is_ok connect_err) then set_sta_state ARGUS_STA_IDLE else mret tt) ;;
      call HttpStart ;;
      start_broker_and_grant ;;
      mret ESP_OK
  end.

Definition argus_net_mgr_init : net esp_err_t :=
  initialized ← gets s_initialized;
  if (initialized : bool) then mret ESP_OK
  else
    err ← call PlatformInit;
    if negb (is_ok err) then mret err
    else
      assign (fun m => m <| s_wifi_transaction := argus_wifi_transaction_init |>) ;;
      '(cfg_err, cfg, has_cfg) ← call EffectiveConfig;
      let commissioned := is_ok cfg_err && has_cfg && argus_nvs_config_is_commissioned cfg in
      security_recovery ← call RecoveryRequested;
      err ← (if (security_recovery : bool) then start_security_recovery
             else if negb commissioned then start_uncommissioned
             else start_commissioned cfg);
      if negb (is_ok err) then mret err
      else
        created ← call TaskCreate;
        if negb created then mret ESP_ERR_NO_MEM
        else assign (fun m => m <| s_initialized := true |>) ;; mret ESP_OK.

Definition argus_net_mgr_register_broker_start_cb (cb : bool) : net unit :=
  assign (fun m => m <| s_broker_start_cb := cb |>).

(** ** Names and guidance *)

Definition argus_net_mgr_get_mode_name (mode : argus_network_mode_t) : bytes :=
  match mode with
  | ARGUS_NET_MODE_BOOTSTRAP => str "BOOTSTRAP"
  | ARGUS_NET_MODE_UNCOMMISSIONED_AP => str "UNCOMMISSIONED_AP"
  | ARGUS_NET_MODE_COMMISSIONED_STA => str "COMMISSIONED_STA"
  | ARGUS_NET_MODE_AP_DISCOVERABLE => str "AP_DISCOVERABLE"
  | ARGUS_NET_MODE_SERVICE_TRANSITION => str "SERVICE_TRANSITION"
  | ARGUS_NET_MODE_SERVICE_AP_ONLY => str "SERVICE_AP_ONLY"
  | ARGUS_NET_MODE_SECURITY_RECOVERY_TRANSITION => str "SECURITY_RECOVERY_TRANSITION"
  | ARGUS_NET_MODE_SECURITY_RECOVERY_AP_ONLY => str "SECURITY_RECOVERY_AP_ONLY"
  | ARGUS_NET_MODE_NETWORK_FAULT => str "NETWORK_FAULT"
  end.

Definition argus_net_mgr_get_sta_state_name (state : argus_sta_state_t) : bytes :=
  match state with
  | ARGUS_STA_DISABLED => str "DISABLED"
  | ARGUS_STA_IDLE => str "IDLE"
  | ARGUS_STA_CONNECTING => str "CONNECTING"
  | ARGUS_STA_ASSOCIATED_WAITING_IP => str "ASSOCIATED_WAITING_IP"
  | ARGUS_STA_CONNECTED => str "CONNECTED"
  | ARGUS_STA_RETRY_WAIT => str "RETRY_WAIT"
  | ARGUS_STA_ACTION_REQUIRED => str "ACTION_REQUIRED"
  end.

Definition argus_net_mgr_get_last_disconnect_reason_name (m : net_mgr) : bytes :=
  if bool_decide (s_last_disconnect_reason m = REASON_NONE)
     && bool_decide (s_last_disconnect_category m = ARGUS_DISCONNECT_CAT_IP_TIMEOUT)
  then str "IP_ACQUISITION_TIMEOUT"
  else (argus_net_classify_disconnect (s_last_disconnect_reason m)).1.

Definition argus_net_mgr_get_last_disconnect_category_name (m : net_mgr) : bytes :=
  match s_last_disconnect_category m with
  | ARGUS_DISCONNECT_CAT_NONE => str "NONE"
  | ARGUS_DISCONNECT_CAT_AUTHENTICATION => str "AUTHENTICATION"
  | ARGUS_DISCONNECT_CAT_AP_UNAVAILABLE => str "AP_UNAVAILABLE"
  | ARGUS_DISCONNECT_CAT_IP_TIMEOUT => str "IP_TIMEOUT"
  | ARGUS_DISCONNECT_CAT_UNKNOWN => str "UNKNOWN"
  end.

Definition argus_net_mgr_get_wifi_apply_state_name (state : argus_wifi_apply_state_t) : bytes :=
  match state with
  | ARGUS_WIFI_APPLY_IDLE => str "IDLE"
  | ARGUS_WIFI_APPLY_PREPARING => str "PREPARING"
  | ARGUS_WIFI_APPLY_WAITING_DISCONNECT => str "WAITING_DISCONNECT"
  | ARGUS_WIFI_APPLY_APPLYING_CONFIG => str "APPLYING_CONFIG"
  | ARGUS_WIFI_APPLY_CONNECTING => str "CONNECTING"
  | ARGUS_WIFI_APPLY_COMPLETE => str "COMPLETE"
  | ARGUS_WIFI_APPLY_FAILED => str "FAILED"
  | ARGUS_WIFI_APPLY_CANCELLED => str "CANCELLED"
  end.

Definition argus_net_mgr_get_operator_guidance (m : net_mgr) : bytes :=
  if negb (bool_decide (s_last_service_cancel_failure m = ARGUS_SERVICE_CANCEL_FAILURE_NONE)) then
    argus_net_service_cancel_guidance (s_last_service_cancel_failure m)
  else if wt_active (s_wifi_transaction m) then
    if bool_decide (wt_kind (s_wifi_transaction m) = ARGUS_WIFI_TXN_APPLY_CONFIG) then
      str "Applying saved Wi-Fi configuration; previous failure remains visible until recovery"
    else str "Manual Wi-Fi recovery in progress; previous failure remains visible until recovery"
  else
    match s_sta_state m with
    | ARGUS_STA_ACTION_REQUIRED =>
        if bool_decide (s_last_disconnect_category m = ARGUS_DISCONNECT_CAT_AUTHENTICATION)
        then str "Check Wi-Fi SSID/password, then Save or Reconnect"
        else str "Manual intervention required. Check Wi-Fi configuration."
    | ARGUS_STA_RETRY_WAIT => str "Automatic retry scheduled"
    | _ => str "Normal operation"
    end.

(** The name of the driver's mode, where it can be read. *)
Definition argus_net_mgr_get_wifi_driver_mode_name : net bytes :=
  '(err, mode) ← call WifiGetMode;
  mret (if negb (is_ok err) then str "UNKNOWN"
        else match mode with
             | WIFI_MODE_NULL => str "NULL"
             | WIFI_MODE_STA => str "STA"
             | WIFI_MODE_AP => str "AP"
             | WIFI_MODE_APSTA => str "APSTA"
             | WIFI_MODE_OTHER => str "UNKNOWN"
             end).
