(* ===== verification/NetIsolation.v ===== *)
(** * Local service is isolated

    The operations of [NetManager] on the part of the system they share, with the other
    tasks acting in between, and the invariant the whole module keeps: whoever holds the
    local-service authority, the driver is in access-point mode, the station is down and
    the broker is stopped.

    What other tasks may do is constrained by the two locks: while this task holds the
    network mutex nobody else writes what it protects, takes the driver out of
    access-point mode, starts the broker or grants an authority; while it holds the
    dispatch lock too, the authority does not change at all.  The constraint is not only
    assumed: an operation that breaks it (a protected static assigned, a mode set, an
    authority granted without the locks, a lock taken twice or released without being
    held) may leave any state whatever, so that a theorem about every execution also shows
    that the module keeps to the locks. *)

From S2P Require Import Prelude CmdParser StateMgr Authority Router ConfigStore Storage NetLink WifiTransaction ServicePolicy FactoryReset NetManager.

(** ** The world *)

Record net_world := NetWorld {
  nw_mgr : net_mgr;
  nw_auth : auth_static;
  nw_wifi_mode : wifi_mode_t;
  nw_broker : argus_mqtt_broker_lifecycle_obs_t;
  nw_net_held : bool;
  nw_dispatch_held : bool;
  nw_machine : argus_state_snapshot_t;
  nw_config : argus_config_payload_t * bool
}.
#[export] Instance eta_net_world : Eta net_world := fun w =>
  NetWorld (nw_mgr w) (nw_auth w) (nw_wifi_mode w) (nw_broker w) (nw_net_held w) (nw_dispatch_held w)
    (nw_machine w) (nw_config w).

Definition auth_mode (w : net_world) : argus_control_authority_t := ac_mode (argus_authority_mgr_init (nw_auth w)).
Definition is_local (w : net_world) : Prop := auth_mode w = ARGUS_AUTHORITY_LOCAL_SERVICE.
Definition broker_stopped (w : net_world) : bool := argus_mqtt_broker_observation_is_stopped (nw_broker w).

(** What the network mutex protects: all but the driver's flags, the last error and the
    mark of a pending reset. *)
Definition guarded (m : net_mgr) : net_mgr :=
  m <| s_last_error := ARGUS_NET_ERR_NONE |> <| s_factory_reset_pending := false |> <| s_sta_started := false |>
    <| s_sta_connected := false |> <| s_sta_ip_acquired := false |> <| s_ap_started := false |>.

(** The station is down. *)
Definition sta_down (m : net_mgr) : Prop :=
  s_sta_started m = false /\ s_sta_connected m = false /\ s_sta_ip_acquired m = false.

(** Between a stop and the next start the driver reports no event of the station. *)
Definition flags_quiet (m m' : net_mgr) : Prop :=
  s_sta_started m = false ->
  s_sta_started m' = false /\
  (s_sta_connected m = false -> s_sta_connected m' = false) /\
  (s_sta_ip_acquired m = false -> s_sta_ip_acquired m' = false).

Definition isolated (w : net_world) : Prop :=
  nw_wifi_mode w = WIFI_MODE_AP /\ sta_down (nw_mgr w) /\ broker_stopped w = true.

(** The modes in which the local-service authority may exist. *)
Definition local_mode (mode : argus_network_mode_t) : bool :=
  service_mode mode || bool_decide (mode = ARGUS_NET_MODE_NETWORK_FAULT).

(** The invariant.  The mode is exempt while this task is about to change it. *)
Definition service_isolated (w : net_world) : Prop :=
  is_local w -> isolated w /\ (nw_net_held w = true \/ local_mode (s_net_mode (nw_mgr w)) = true).

(** ** What other tasks may do *)

Record others (w w' : net_world) : Prop := {
  others_net_held : nw_net_held w' = nw_net_held w;
  others_dispatch_held : nw_dispatch_held w' = nw_dispatch_held w;
  others_guarded : nw_net_held w = true -> guarded (nw_mgr w') = guarded (nw_mgr w);
  others_wifi_mode : nw_net_held w = true -> nw_wifi_mode w' = nw_wifi_mode w \/ nw_wifi_mode w' = WIFI_MODE_AP;
  others_broker : nw_net_held w = true -> broker_stopped w = true -> broker_stopped w' = true;
  others_auth : nw_net_held w = true -> nw_auth w' = nw_auth w \/ auth_mode w' = ARGUS_AUTHORITY_NONE;
  others_auth_both : nw_net_held w = true -> nw_dispatch_held w = true -> nw_auth w' = nw_auth w;
  others_flags : nw_net_held w = true -> nw_wifi_mode w = WIFI_MODE_AP -> flags_quiet (nw_mgr w) (nw_mgr w');
  others_invariant : nw_net_held w = false -> service_isolated w -> service_isolated w'
}.

Lemma others_refl w : others w w.
Proof. by split; auto. Qed.

(** ** The operations *)

(** A result that holds if the operation was lawful; an unlawful one may do anything. *)
Definition lawful (rule result : Prop) : Prop := rule -> result.

Definition held (l : net_lock) (w : net_world) : bool :=
  match l with NetMutex => nw_net_held w | DispatchLock => nw_dispatch_held w end.

Definition set_held (l : net_lock) (b : bool) (w : net_world) : net_world :=
  match l with NetMutex => w <| nw_net_held := b |> | DispatchLock => w <| nw_dispatch_held := b |> end.

Definition demo_obs : argus_mqtt_broker_lifecycle_obs_t := BrokerObs BROKER_STATE_STOPPED 0 false false.

(** The broker after a stop or a start: anything, but a stop does not start it. *)
Definition broker_changed (w w' : net_world) : Prop := exists b, w' = w <| nw_broker := b |>.

(** A read of the platform that may fail. *)
Definition may_fail {X} (r : esp_err_t * X) (x : X) : Prop := r.1 = ESP_OK -> r.2 = x.

Definition net_effect {X} (e : net_op X) (w : net_world) : X -> net_world -> Prop :=
  match e with
  | Statics => fun m w' => m = nw_mgr w /\ w' = w
  | Assign f => fun _ w' =>
      lawful (nw_net_held w = true \/ guarded (f (nw_mgr w)) = guarded (nw_mgr w)) (w' = w <| nw_mgr := f (nw_mgr w) |>)
  | Lock l => fun _ w' => lawful (held l w = false) (w' = set_held l true w)
  | Unlock l => fun _ w' => lawful (held l w = true) (w' = set_held l false w)
  | ClaimFactoryReset => fun x w' =>
      if s_factory_reset_pending (nw_mgr w) then x = false /\ w' = w
      else x = true /\ w' = w <| nw_mgr := (nw_mgr w) <| s_factory_reset_pending := true |> |>
  | AuthoritySetMode m o => fun x w' =>
      lawful (m <> ARGUS_AUTHORITY_LOCAL_SERVICE /\
              (nw_net_held w = true \/ m = ARGUS_AUTHORITY_NONE /\ nw_dispatch_held w = true))
        (let r := argus_authority_mgr_set_mode m o (nw_auth w) in x = r.1 /\ w' = w <| nw_auth := r.2 |>)
  | AuthorityGrant o => fun x w' =>
      lawful (nw_net_held w = true /\ nw_dispatch_held w = true)
        (let r := prod_grant_local o (nw_auth w) in x = r.1 /\ w' = w <| nw_auth := r.2 |>)
  | AuthorityAbort => fun _ w' =>
      lawful (nw_net_held w = true) (w' = w <| nw_auth := prod_abort_transition (nw_auth w) |>)
  | AuthoritySnapshot => fun x w' =>
      let r := argus_authority_mgr_get_snapshot (nw_auth w) in x = (ESP_OK, r.1) /\ w' = w <| nw_auth := r.2 |>
  | MachineSnapshot => fun x w' => x = nw_machine w /\ w' = w
  | RestartExecute => fun _ w' =>
      lawful (nw_dispatch_held w = false)
        (w' = w \/ w' = w <| nw_auth := (argus_authority_mgr_set_mode ARGUS_AUTHORITY_NONE ARGUS_AUTH_OWNER_NONE (nw_auth w)).2 |>)
  | BrokerObserve => fun r w' => may_fail r (nw_broker w) /\ w' = w
  | BrokerStop => fun _ w' => broker_changed w w' /\ (broker_stopped w = true -> broker_stopped w' = true)
  | BrokerStart => fun _ w' => lawful (nw_net_held w = true) (broker_changed w w')
  | WifiGetMode => fun r w' => may_fail r (nw_wifi_mode w) /\ w' = w
  | WifiSetMode m => fun err w' =>
      lawful (m = WIFI_MODE_AP \/ nw_net_held w = true)
        ((err <> ESP_OK /\ w' = w) \/ w' = w <| nw_wifi_mode := m |>)
  | MachineStopNormal | EffectiveConfig | EraseConfig | ServiceSsid | ApSecret _ | RecoveryRequested
  | HttpStart | HttpStop | WifiSetStaConfig _ | WifiSetApConfig _ | WifiStart | WifiConnect | WifiDisconnect
  | StaIpText | TimerStart _ | TimerStop _ | TimerActive _ | TimerExpiry _ | TickCount | QueueSend _
  | Delay _ | PlatformInit | TaskCreate | Reboot => fun _ w' => w' = w
  end.

(** The answers when nothing fails and nobody interferes. *)
Definition net_perform {X} (e : net_op X) (w : net_world) : X * net_world :=
  match e with
  | Statics => (nw_mgr w, w)
  | Assign f => (tt, w <| nw_mgr := f (nw_mgr w) |>)
  | Lock l => (tt, set_held l true w)
  | Unlock l => (tt, set_held l false w)
  | ClaimFactoryReset =>
      if s_factory_reset_pending (nw_mgr w) then (false, w)
      else (true, w <| nw_mgr := (nw_mgr w) <| s_factory_reset_pending := true |> |>)
  | AuthoritySetMode m o =>
      let r := argus_authority_mgr_set_mode m o (nw_auth w) in (r.1, w <| nw_auth := r.2 |>)
  | AuthorityGrant o => let r := prod_grant_local o (nw_auth w) in (r.1, w <| nw_auth := r.2 |>)
  | AuthorityAbort => (tt, w <| nw_auth := prod_abort_transition (nw_auth w) |>)
  | AuthoritySnapshot =>
      let r := argus_authority_mgr_get_snapshot (nw_auth w) in ((ESP_OK, r.1), w <| nw_auth := r.2 |>)
  | MachineSnapshot => (nw_machine w, w)
  | RestartExecute => (tt, w)
  | BrokerObserve => ((ESP_OK, nw_broker w), w)
  | BrokerStop => (ESP_OK, w <| nw_broker := demo_obs |>)
  | BrokerStart => (tt, w <| nw_broker := BrokerObs BROKER_STATE_RUNNING 0 true true |>)
  | WifiGetMode => ((ESP_OK, nw_wifi_mode w), w)
  | WifiSetMode m => (ESP_OK, w <| nw_wifi_mode := m |>)
  | EffectiveConfig => ((ESP_OK, (nw_config w).1, (nw_config w).2), w)
  | ServiceSsid => (str "Argus-Service-A1B2C3", w)
  | ApSecret _ => (inr (str "0123456789"), w)
  | RecoveryRequested => (false, w)
  | StaIpText => (str "10.0.0.7", w)
  | TimerStart _ | TimerStop _ | TaskCreate | QueueSend _ => (true, w)
  | TimerActive _ => (false, w)
  | TimerExpiry _ | TickCount => (0, w)
  | MachineStopNormal | EraseConfig | HttpStart | HttpStop | WifiSetStaConfig _ | WifiSetApConfig _
  | WifiStart | WifiConnect | WifiDisconnect | PlatformInit => (ESP_OK, w)
  | Delay _ | Reboot => (tt, w)
  end.

Lemma net_perform_effect {X} (e : net_op X) w : net_effect e w (net_perform e w).1 (net_perform e w).2.
Proof.
  destruct e; cbn [net_effect net_perform fst snd]; try (intros _); try done; try (by split).
  - by destruct (s_factory_reset_pending (nw_mgr w)).
  - by left.
  - split; [by exists demo_obs|done].
  - by eexists.
  - by right.
Qed.

(** Other tasks act before every operation. *)
#[export] Instance net_storage : Storage net_op net_world := {
  outcome X e w x w' := exists w1, others w w1 /\ net_effect e w1 x w';
  torn X e w w' := False;
  perform X e w := net_perform e w;
  perform_outcome X e w := ex_intro _ w (conj (others_refl w) (net_perform_effect e w))
}.

(** ** Three kinds of program *)

(** Under the mutex, the authority possibly local. *)
Definition calm (d : bool) (w : net_world) : Prop :=
  nw_net_held w = true /\ nw_dispatch_held w = d /\ service_isolated w /\
  (is_local w -> local_mode (s_net_mode (nw_mgr w)) = true).

(** Under the mutex, the authority not local: anything may be done to the network. *)
Definition working (d : bool) (w : net_world) : Prop :=
  nw_net_held w = true /\ nw_dispatch_held w = d /\ ~ is_local w.

(** No lock held. *)
Definition free (w : net_world) : Prop :=
  nw_net_held w = false /\ nw_dispatch_held w = false /\ service_isolated w.

Lemma calm_isolated d w : calm d w -> service_isolated w.
Proof. by intros (_ & _ & H & _). Qed.
Lemma working_isolated d w : working d w -> service_isolated w.
Proof. intros (_ & _ & H) Hl. done. Qed.
Lemma free_isolated w : free w -> service_isolated w.
Proof. by intros (_ & _ & H). Qed.
Lemma working_calm d w : working d w -> calm d w.
Proof. intros (Hn & Hd & H). repeat split; try done; intros ?; done. Qed.

(** Operations that preserve [calm]: they leave the station down, and the mode one in
    which the local authority may exist. *)
Definition quiet (X : Type) (e : net_op X) : Prop :=
  match e with
  | Assign f => forall m, (sta_down m -> sta_down (f m)) /\
                          (local_mode (s_net_mode m) = true -> local_mode (s_net_mode (f m)) = true)
  | Lock _ | Unlock _ | AuthorityGrant _ | BrokerStart | RestartExecute => False
  | AuthoritySetMode m _ => m <> ARGUS_AUTHORITY_LOCAL_SERVICE
  | WifiSetMode m => m = WIFI_MODE_AP
  | _ => True
  end.

(** Operations that preserve [working]. *)
Definition busy (X : Type) (e : net_op X) : Prop :=
  match e with
  | Lock _ | Unlock _ | AuthorityGrant _ | RestartExecute => False
  | AuthoritySetMode m _ => m <> ARGUS_AUTHORITY_LOCAL_SERVICE
  | _ => True
  end.

(** Operations that need no lock. *)
Definition unlocked (X : Type) (e : net_op X) : Prop :=
  match e with
  | Assign f => forall m, guarded (f m) = guarded m /\ (sta_down m -> sta_down (f m))
  | Lock _ | Unlock _ | AuthorityGrant _ | AuthoritySetMode _ _ | AuthorityAbort | BrokerStart => False
  | WifiSetMode m => m = WIFI_MODE_AP
  | _ => True
  end.

Lemma set_mode_local m o w : m <> ARGUS_AUTHORITY_LOCAL_SERVICE ->
  is_local (w <| nw_auth := (argus_authority_mgr_set_mode m o (nw_auth w)).2 |>) -> is_local w.
Proof.
  intros Hm. unfold is_local, auth_mode, argus_authority_mgr_set_mode. cbn.
  destruct (is_ok (argus_authority_validate_pair m o)); cbn; [by intros ->|done].
Qed.

(** The parts of the world an operation leaves alone decide [calm]. *)
Lemma guarded_mode m m' : guarded m' = guarded m -> s_net_mode m' = s_net_mode m.
Proof. intros H. exact (f_equal s_net_mode H). Qed.

Lemma flags_quiet_down m m' : flags_quiet m m' -> sta_down m -> sta_down m'.
Proof. intros Hq (Hs & Hc & Hi). destruct (Hq Hs) as (? & ? & ?). by repeat split; auto. Qed.

Lemma others_isolated w w' : nw_net_held w = true -> others w w' -> isolated w -> isolated w'.
Proof.
  intros Hn Ho (Hm & Hf & Hb). split; [|split].
  - destruct (others_wifi_mode _ _ Ho Hn); congruence.
  - exact (flags_quiet_down _ _ (others_flags _ _ Ho Hn Hm) Hf).
  - exact (others_broker _ _ Ho Hn Hb).
Qed.

Lemma others_local w w' : nw_net_held w = true -> others w w' -> is_local w' -> is_local w.
Proof.
  intros Hn Ho Hl. unfold is_local, auth_mode in *.
  destruct (others_auth _ _ Ho Hn) as [He|He]; [by rewrite He in Hl|]. unfold auth_mode in He. congruence.
Qed.

Lemma others_calm d w w' : others w w' -> calm d w -> calm d w'.
Proof.
  intros Ho (Hn & Hd & Hi & Hm). pose proof (others_net_held _ _ Ho). pose proof (others_dispatch_held _ _ Ho).
  split; [congruence|]. split; [congruence|].
  assert (Hl : is_local w' -> is_local w) by exact (others_local _ _ Hn Ho).
  split.
  - intros Hl'. split; [|left; congruence]. exact (others_isolated _ _ Hn Ho (proj1 (Hi (Hl Hl')))).
  - intros Hl'. rewrite (guarded_mode _ _ (others_guarded _ _ Ho Hn)). exact (Hm (Hl Hl')).
Qed.

Lemma others_working d w w' : others w w' -> working d w -> working d w'.
Proof.
  intros Ho (Hn & Hd & Hl). pose proof (others_net_held _ _ Ho). pose proof (others_dispatch_held _ _ Ho).
  split; [congruence|]. split; [congruence|]. intros Hl'. exact (Hl (others_local _ _ Hn Ho Hl')).
Qed.

Lemma others_free w w' : others w w' -> free w -> free w'.
Proof.
  intros Ho (Hn & Hd & Hi). pose proof (others_net_held _ _ Ho). pose proof (others_dispatch_held _ _ Ho).
  split; [congruence|]. split; [congruence|]. exact (others_invariant _ _ Ho Hn Hi).
Qed.

(** An operation that leaves the authority no more local, and the rest as isolated. *)
Lemma calm_step d w w' :
  calm d w -> nw_net_held w' = true -> nw_dispatch_held w' = d -> (is_local w' -> is_local w) ->
  (isolated w -> isolated w') ->
  (local_mode (s_net_mode (nw_mgr w)) = true -> local_mode (s_net_mode (nw_mgr w')) = true) -> calm d w'.
Proof.
  intros (Hn & Hd & Hi & Hm) Hn' Hd' Hl Hs Hm'. split; [done|]. split; [done|]. split; [|auto].
  intros Hl'. split; [|by left]. exact (Hs (proj1 (Hi (Hl Hl')))).
Qed.

Lemma snapshot_local w :
  is_local (w <| nw_auth := (argus_authority_mgr_get_snapshot (nw_auth w)).2 |>) -> is_local w.
Proof. done. Qed.

Lemma quiet_effect X (e : net_op X) d w x w' : quiet X e -> calm d w -> net_effect e w x w' -> calm d w'.
Proof.
  intros Hq Hc He. pose proof Hc as (Hn & Hd & Hi & Hm).
  destruct e; cbn [quiet net_effect] in *; try done; try (by subst w'); try (by destruct He; subst w').
  - rewrite (He (or_introl Hn)). apply (calm_step d w); try done; [|exact (proj2 (Hq _))].
    intros (Hw & Hf & Hb). split; [exact Hw|]. split; [exact (proj1 (Hq _) Hf)|exact Hb].
  - destruct (s_factory_reset_pending (nw_mgr w)); destruct He as [_ ->]; done.
  - destruct (He (conj Hq (or_introl Hn))) as [_ ->]. apply (calm_step d w); try done. by apply set_mode_local.
  - rewrite (He Hn). by apply (calm_step d w).
  - destruct He as [[b ->] Hb]. apply (calm_step d w); try done. intros (Hw & Hf & Hs). by repeat split; try apply Hf; auto.
  - destruct (He (or_introl Hq)) as [[_ ->]| ->]; [done|]. apply (calm_step d w); try done.
    subst m. intros (Hw & Hf & Hs). by repeat split; try apply Hf.
Qed.

Lemma busy_effect X (e : net_op X) d w x w' : busy X e -> working d w -> net_effect e w x w' -> working d w'.
Proof.
  intros Hq Hc He. pose proof Hc as (Hn & Hd & Hl).
  destruct e; cbn [busy net_effect] in *; try done; try (by subst w'); try (by destruct He; subst w').
  - by rewrite (He (or_introl Hn)).
  - destruct (s_factory_reset_pending (nw_mgr w)); destruct He as [_ ->]; done.
  - destruct (He (conj Hq (or_introl Hn))) as [_ ->]. split; [done|]. split; [done|].
    intros Hl'. by apply set_mode_local in Hl'.
  - rewrite (He Hn). split; [done|]. split; [done|]. by intros Hl'%(set_mode_local ARGUS_AUTHORITY_NONE).
  - by destruct He as [[b ->] _].
  - by destruct (He Hn) as [b ->].
  - by destruct (He (or_intror Hn)) as [[_ ->]| ->].
Qed.

Lemma free_step w w' :
  free w -> nw_net_held w' = false -> nw_dispatch_held w' = false -> (is_local w' -> is_local w) ->
  (isolated w -> isolated w') ->
  (local_mode (s_net_mode (nw_mgr w)) = true -> local_mode (s_net_mode (nw_mgr w')) = true) -> free w'.
Proof.
  intros (Hn & Hd & Hi) Hn' Hd' Hl Hs Hm. split; [done|]. split; [done|].
  intros Hl'. destruct (Hi (Hl Hl')) as [H1 [H2|H2]]; [congruence|]. split; auto.
Qed.

Lemma unlocked_effect X (e : net_op X) w x w' : unlocked X e -> free w -> net_effect e w x w' -> free w'.
Proof.
  intros Hq Hc He. pose proof Hc as (Hn & Hd & Hi).
  destruct e; cbn [unlocked net_effect] in *; try done; try (by subst w'); try (by destruct He; subst w').
  - destruct (Hq (nw_mgr w)) as [Hg Hf]. rewrite (He (or_intror Hg)). apply (free_step w); try done.
    + intros (Hw & Hs & Hb). split; [exact Hw|]. split; [exact (Hf Hs)|exact Hb].
    + cbn. by rewrite (guarded_mode _ _ Hg).
  - destruct (s_factory_reset_pending (nw_mgr w)); destruct He as [_ ->]; done.
  - destruct (He Hd) as [-> | ->]; [done|]. by apply (free_step w).
  - destruct He as [[b ->] Hb]. apply (free_step w); try done. intros (Hw & Hf & Hs). by repeat split; try apply Hf; auto.
  - destruct (He (or_introl Hq)) as [[_ ->]| ->]; [done|]. apply (free_step w); try done.
    subst m. intros (Hw & Hf & Hs). by repeat split; try apply Hf.
Qed.

(** ** Triples *)

(** From any state of [P], every execution of [p] keeps the invariant at every point, and
    ends in a state of [Q]. *)
Definition triple {A} (P : net_world -> Prop) (p : net A) (Q : A -> net_world -> Prop) : Prop :=
  forall w, P w -> wpc p Q service_isolated w.

Lemma triple_ret {A} (a : A) P (Q : A -> net_world -> Prop) :
  (forall w, P w -> service_isolated w) -> (forall w, P w -> Q a w) -> triple P (mret a) Q.
Proof. intros Hi H w Hw. split; auto. Qed.

Lemma triple_bind {A B} (p : net A) (k : A -> net B) P R Q :
  triple P p R -> (forall a, triple (R a) (k a) Q) -> triple P (p ≫= k) Q.
Proof.
  intros Hp Hk w Hw. apply wpc_bind. eapply wpc_mono; [| |exact (Hp w Hw)]; [|done].
  intros a w' Hr. exact (Hk a w' Hr).
Qed.

Lemma triple_conseq {A} (p : net A) (P P' : net_world -> Prop) (Q Q' : A -> net_world -> Prop) :
  (forall w, P w -> P' w) -> (forall a w, Q' a w -> Q a w) -> triple P' p Q' -> triple P p Q.
Proof. intros HP HQ Hp w Hw. eapply wpc_mono; [exact HQ| |exact (Hp w (HP w Hw))]. done. Qed.

Lemma triple_call {X} (e : net_op X) (P : net_world -> Prop) (Q : X -> net_world -> Prop) :
  (forall w, P w -> service_isolated w) ->
  (forall w w' , others w w' -> P w -> P w') ->
  (forall w x w', P w -> net_effect e w x w' -> Q x w' /\ service_isolated w') ->
  triple P (call e) Q.
Proof.
  intros Hi Ho He w Hw. split; [auto|]. split; [done|]. intros x w' (w1 & H1 & H2).
  destruct (He w1 x w' (Ho _ _ H1 Hw) H2). by split.
Qed.

Lemma triple_quiet {A} (p : net A) d : ops_all quiet p -> triple (calm d) p (fun _ => calm d).
Proof.
  intros Hp w Hw. refine (wpc_ops quiet (calm d) _ p w _ _ (calm_isolated d) Hp Hw); [|done].
  intros X e f x f' He Hc (w1 & H1 & H2). exact (quiet_effect X e d w1 x f' He (others_calm d f w1 H1 Hc) H2).
Qed.

Lemma triple_busy {A} (p : net A) d : ops_all busy p -> triple (working d) p (fun _ => working d).
Proof.
  intros Hp w Hw. refine (wpc_ops busy (working d) _ p w _ _ (working_isolated d) Hp Hw); [|done].
  intros X e f x f' He Hc (w1 & H1 & H2). exact (busy_effect X e d w1 x f' He (others_working d f w1 H1 Hc) H2).
Qed.

Lemma triple_unlocked {A} (p : net A) : ops_all unlocked p -> triple free p (fun _ => free).
Proof.
  intros Hp w Hw. refine (wpc_ops unlocked free _ p w _ _ free_isolated Hp Hw); [|done].
  intros X e f x f' He Hc (w1 & H1 & H2). exact (unlocked_effect X e w1 x f' He (others_free f w1 H1 Hc) H2).
Qed.

Lemma triple_lock_net : triple free (call (Lock NetMutex)) (fun _ => calm false).
Proof.
  apply triple_call; [exact free_isolated|exact others_free|]. intros w x w' (Hn & Hd & Hi) He.
  rewrite (He Hn). assert (Hc : calm false (set_held NetMutex true w)); [|split; [exact Hc|exact (calm_isolated _ _ Hc)]].
  split; [done|]. split; [done|]. split.
  - intros Hl. split; [exact (proj1 (Hi Hl))|by left].
  - intros Hl. destruct (Hi Hl) as [_ [H|H]]; [congruence|exact H].
Qed.

Lemma triple_unlock_net : triple (calm false) (call (Unlock NetMutex)) (fun _ => free).
Proof.
  apply triple_call; [exact (calm_isolated false)|exact (others_calm false)|]. intros w x w' (Hn & Hd & Hi & Hm) He.
  rewrite (He Hn). assert (Hf : free (set_held NetMutex false w)); [|split; [exact Hf|exact (free_isolated _ Hf)]].
  split; [done|]. split; [done|]. intros Hl. split; [exact (proj1 (Hi Hl))|right; exact (Hm Hl)].
Qed.

Lemma triple_lock_dispatch : triple (calm false) (call (Lock DispatchLock)) (fun _ => calm true).
Proof.
  apply triple_call; [exact (calm_isolated false)|exact (others_calm false)|]. intros w x w' Hc He.
  pose proof Hc as (Hn & Hd & Hi & Hm). rewrite (He Hd).
  assert (Hf : calm true (set_held DispatchLock true w)); [|split; [exact Hf|exact (calm_isolated _ _ Hf)]].
  by repeat split; try done; apply Hi.
Qed.

Lemma triple_unlock_dispatch : triple (calm true) (call (Unlock DispatchLock)) (fun _ => calm false).
Proof.
  apply triple_call; [exact (calm_isolated true)|exact (others_calm true)|]. intros w x w' Hc He.
  pose proof Hc as (Hn & Hd & Hi & Hm). rewrite (He Hd).
  assert (Hf : calm false (set_held DispatchLock false w)); [|split; [exact Hf|exact (calm_isolated _ _ Hf)]].
  by repeat split; try done; apply Hi.
Qed.

(** ** The operations of each part *)

Lemma ops_call {E : Type -> Type} (C : forall X : Type, E X -> Prop) {X} (e : E X) : C X e -> ops_all C (call e).
Proof. by split. Qed.

Lemma ops_poll {A} (C : forall X : Type, net_op X -> Prop) n (test : net (option A)) expired :
  (forall ms, C _ (Delay ms)) -> ops_all C test -> ops_all C expired -> ops_all C (poll n test expired).
Proof.
  intros Hd Ht He. induction n as [|n IH]; [exact He|]. apply ops_all_bind; [exact Ht|].
  intros [a|]; [done|]. apply ops_all_bind; [by apply ops_call|]. by intros [].
Qed.

Lemma ops_verify_loop (C : forall X : Type, net_op X -> Prop) n ms :
  (forall ms, C _ (Delay ms)) -> C _ BrokerObserve -> ops_all C (verify_stopped_loop n ms).
Proof.
  intros Hd Ho. induction n as [|n IH]; [done|]. apply ops_all_bind; [by apply ops_call|].
  intros [err obs]. destruct (negb (is_ok err)); [done|]. destruct (argus_mqtt_broker_observation_is_stopped obs); [done|].
  apply ops_all_bind; [|by intros []]. destruct (_ && _); [by apply ops_call|done].
Qed.

Lemma quiet_busy X (e : net_op X) : quiet X e -> busy X e.
Proof. by destruct e. Qed.

Lemma busy_of_quiet {A} (p : net A) : ops_all quiet p -> ops_all busy p.
Proof. apply ops_all_mono. exact quiet_busy. Qed.

Create HintDb netops discriminated.

(** Decompose a program into its operations; the lemmas of [netops] cover the named parts. *)
Ltac ops :=
  repeat first
    [ progress intros
    | progress unfold assign, set_error, set_sta_state, set_active_generation, store_net_mode, prod_stop_broker
    | solve [eauto 3 with netops]
    | lazymatch goal with
      | |- ops_all _ (_ ≫= _) => apply ops_all_bind
      | |- ops_all _ (mret _) => exact I
      | |- ops_all _ (call _) => apply ops_call; cbn [quiet busy unlocked]; try (done || (intros; split; done)
             || (intros; split; [intros (? & ? & ?); repeat split; done|done]))
      | |- ops_all _ (poll _ _ _) => apply ops_poll; [done| |]
      | |- ops_all _ (match ?x with _ => _ end) => destruct x
      | |- ops_all _ (let _ := _ in _) => cbv zeta
      end ].

Lemma quiet_assign f : (forall m, (sta_down m -> sta_down (f m)) /\
    (local_mode (s_net_mode m) = true -> local_mode (s_net_mode (f m)) = true)) -> ops_all quiet (assign f).
Proof. intros H. by apply ops_call. Qed.

Lemma quiet_gets {X} (f : net_mgr -> X) : ops_all quiet (gets f).
Proof. unfold gets. ops. Qed.
#[export] Hint Resolve quiet_gets : netops.

Lemma unlocked_gets {X} (f : net_mgr -> X) : ops_all unlocked (gets f).
Proof. unfold gets. ops. Qed.
#[export] Hint Resolve unlocked_gets : netops.

Lemma quiet_next_generation : ops_all quiet next_timer_generation.
Proof. unfold next_timer_generation. ops. Qed.
#[export] Hint Resolve quiet_next_generation : netops.

Lemma quiet_commissioned_config : ops_all quiet has_valid_commissioned_config.
Proof. unfold has_valid_commissioned_config. ops. Qed.
#[export] Hint Resolve quiet_commissioned_config : netops.

Lemma unlocked_post evt : ops_all unlocked (argus_net_mgr_post_event evt).
Proof. unfold argus_net_mgr_post_event. ops. Qed.
#[export] Hint Resolve unlocked_post : netops.

Lemma quiet_stop_timers a b : ops_all quiet (stop_timers_in_turn a b).
Proof. unfold stop_timers_in_turn. ops. Qed.
#[export] Hint Resolve quiet_stop_timers : netops.

Lemma quiet_set_net_mode mode : local_mode mode = true -> ops_all quiet (set_net_mode mode).
Proof. intros Hm. unfold set_net_mode. ops. Qed.
#[export] Hint Resolve quiet_set_net_mode : netops.

Lemma quiet_ap_config factory : ops_all quiet (populate_service_ap_config factory).
Proof. unfold populate_service_ap_config. ops. Qed.
#[export] Hint Resolve quiet_ap_config : netops.

Lemma unlocked_ap_config factory : ops_all unlocked (populate_service_ap_config factory).
Proof. unfold populate_service_ap_config. ops. Qed.
#[export] Hint Resolve unlocked_ap_config : netops.

Lemma quiet_broker_running : ops_all quiet argus_mqtt_broker_is_running.
Proof. unfold argus_mqtt_broker_is_running. ops. Qed.
#[export] Hint Resolve quiet_broker_running : netops.

Lemma quiet_stop_broker : ops_all quiet argus_mqtt_broker_request_stop_converged.
Proof. unfold argus_mqtt_broker_request_stop_converged. ops. Qed.
#[export] Hint Resolve quiet_stop_broker : netops.

Lemma unlocked_stop_broker : ops_all unlocked argus_mqtt_broker_request_stop_converged.
Proof. unfold argus_mqtt_broker_request_stop_converged. ops. Qed.
#[export] Hint Resolve unlocked_stop_broker : netops.

Lemma quiet_verify_broker n ms : ops_all quiet (argus_mqtt_broker_verify_stopped_converged n ms).
Proof. unfold argus_mqtt_broker_verify_stopped_converged. case_match; [done|]. by apply ops_verify_loop. Qed.
#[export] Hint Resolve quiet_verify_broker : netops.

Lemma quiet_retry_seconds : ops_all quiet argus_net_mgr_get_retry_seconds.
Proof. unfold argus_net_mgr_get_retry_seconds. ops. Qed.
#[export] Hint Resolve quiet_retry_seconds : netops.

Lemma quiet_snapshot : ops_all quiet populate_net_snapshot_locked.
Proof. unfold populate_net_snapshot_locked, argus_net_mgr_is_action_required. ops. Qed.
#[export] Hint Resolve quiet_snapshot : netops.

Lemma quiet_evaluate owner : ops_all quiet (evaluate_entry owner).
Proof. unfold evaluate_entry. ops. Qed.
#[export] Hint Resolve quiet_evaluate : netops.

Lemma quiet_commit expected verdict : ops_all quiet (commit_recovery expected verdict).
Proof.
  unfold commit_recovery, argus_net_service_commit_recovery, argus_net_cancel_recovery_for_service. ops.
Qed.
#[export] Hint Resolve quiet_commit : netops.

Lemma quiet_record failure err : ops_all quiet (record_cancel_failure failure err).
Proof. unfold record_cancel_failure. ops. Qed.
#[export] Hint Resolve quiet_record : netops.

Lemma quiet_revoke : ops_all quiet revoke_authority.
Proof. unfold revoke_authority. ops. Qed.
#[export] Hint Resolve quiet_revoke : netops.

Lemma quiet_sta_gone : ops_all quiet sta_gone.
Proof. unfold sta_gone. ops. Qed.
#[export] Hint Resolve quiet_sta_gone : netops.

Lemma quiet_verify_stopped : ops_all quiet prod_verify_stopped.
Proof. unfold prod_verify_stopped. ops. Qed.
#[export] Hint Resolve quiet_verify_stopped : netops.

Lemma quiet_verify_clear flag : ops_all quiet (verify_clear flag).
Proof. unfold verify_clear. ops. Qed.
#[export] Hint Resolve quiet_verify_clear : netops.

Lemma quiet_isolation_steps : Forall (ops_all quiet) (isolation_steps prod_transition_ops).
Proof.
  unfold isolation_steps, prod_transition_ops.
  cbn [st_request_normal_stop st_verify_stopped st_stop_broker st_verify_broker_stopped st_disconnect_sta
       st_verify_sta_disconnected st_verify_sta_ip_released st_set_wifi_ap_only st_verify_ap_active
       st_set_sta_disabled st_verify_machine_safe].
  repeat (apply Forall_cons; split); [..|by apply Forall_nil];
    unfold prod_request_normal_stop, prod_verify_broker_stopped, prod_disconnect_sta, prod_verify_sta_disconnected,
      prod_verify_sta_ip_released, prod_set_wifi_ap_only, prod_verify_ap_active, prod_set_sta_disabled,
      prod_verify_machine_safe; ops.
Qed.

Lemma quiet_start_timer t : ops_all quiet (start_timer_or_idle t).
Proof. unfold start_timer_or_idle. ops. Qed.
#[export] Hint Resolve quiet_start_timer : netops.

Lemma quiet_link_loss evt : ops_all quiet (record_link_loss evt).
Proof. unfold record_link_loss. ops. Qed.
#[export] Hint Resolve quiet_link_loss : netops.

(** ** Facts that hold under the mutex *)

(** [calm], and not local if [b], and the broker stopped if [s]. *)
Definition phase (b s : Prop) (d : bool) (w : net_world) : Prop :=
  calm d w /\ (b -> working d w) /\ (s -> broker_stopped w = true).

Lemma phase_isolated b s d w : phase b s d w -> service_isolated w.
Proof. intros [H _]. exact (calm_isolated d w H). Qed.

Lemma others_phase b s d w w' : others w w' -> phase b s d w -> phase b s d w'.
Proof.
  intros Ho (Hc & Hw & Hs). split; [exact (others_calm _ _ _ Ho Hc)|]. split.
  - intros Hb. exact (others_working _ _ _ Ho (Hw Hb)).
  - intros Hb. exact (others_broker _ _ Ho (proj1 Hc) (Hs Hb)).
Qed.

Lemma quiet_broker X (e : net_op X) w x w' :
  quiet X e -> nw_net_held w = true -> net_effect e w x w' -> broker_stopped w = true -> broker_stopped w' = true.
Proof.
  intros Hq Hn He Hb. destruct e; cbn [quiet net_effect] in *; try done; try (by subst w'); try (by destruct He; subst w').
  - by rewrite (He (or_introl Hn)).
  - destruct (s_factory_reset_pending (nw_mgr w)); by destruct He; subst w'.
  - by destruct (He (conj Hq (or_introl Hn))) as [_ ->].
  - by rewrite (He Hn).
  - by apply He.
  - by destruct (He (or_introl Hq)) as [[_ ->]| ->].
Qed.

Lemma triple_phase {A} (p : net A) b s d : ops_all quiet p -> triple (phase b s d) p (fun _ => phase b s d).
Proof.
  intros Hp w Hw. refine (wpc_ops quiet (phase b s d) _ p w _ _ (phase_isolated b s d) Hp Hw); [|done].
  intros X e f x f' He Hc (w1 & H1 & H2). destruct (others_phase _ _ _ _ _ H1 Hc) as (Hc' & Hw' & Hs').
  split; [exact (quiet_effect X e d w1 x f' He Hc' H2)|]. split.
  - intros Hb. exact (busy_effect X e d w1 x f' (quiet_busy X e He) (Hw' Hb) H2).
  - intros Hb. exact (quiet_broker X e w1 x f' He (proj1 Hc') H2 (Hs' Hb)).
Qed.

Lemma calm_phase d w : calm d w -> phase False False d w.
Proof. by intros H. Qed.

(** A flag of the station that reads set: the authority is not local. *)
Class StaFlag (flag : net_mgr -> bool) : Prop := sta_flag : forall m, sta_down m -> flag m = false.
#[export] Instance started_flag : StaFlag s_sta_started.
Proof. by intros m (H & _ & _). Qed.
#[export] Instance connected_flag : StaFlag s_sta_connected.
Proof. by intros m (_ & H & _). Qed.
#[export] Instance ip_flag : StaFlag s_sta_ip_acquired.
Proof. by intros m (_ & _ & H). Qed.

Lemma flag_working flag `{StaFlag flag} d w : calm d w -> flag (nw_mgr w) = true -> working d w.
Proof.
  intros (Hn & Hd & Hi & _) Hf. split; [done|]. split; [done|]. intros Hl.
  destruct (proj1 (Hi Hl)) as (_ & Hs & _). rewrite (sta_flag _ Hs) in Hf. done.
Qed.

Lemma triple_gets {X} (f : net_mgr -> X) (P : net_world -> Prop) :
  (forall w, P w -> service_isolated w) -> (forall w w', others w w' -> P w -> P w') ->
  triple P (gets f) (fun x w => P w /\ x = f (nw_mgr w)).
Proof.
  intros Hi Ho. apply (triple_bind _ _ _ (fun m w => P w /\ m = nw_mgr w)).
  - apply triple_call; [exact Hi|exact Ho|]. intros w m w' Hp [-> ->]. by split; [|apply Hi].
  - intros m. apply triple_ret; [intros w [H _]; exact (Hi w H)|]. by intros w [H ->].
Qed.

Lemma triple_flag flag `{StaFlag flag} b s d :
  triple (phase b s d) (gets flag) (fun x => phase (b \/ x = true) s d).
Proof.
  eapply triple_conseq; [done| |exact (triple_gets flag _ (phase_isolated b s d) (fun w w' => others_phase b s d w w'))].
  intros x w [(Hc & Hw & Hs) ->]. split; [done|]. split; [|done].
  intros [Hb|Hx]; [exact (Hw Hb)|exact (flag_working flag d w Hc Hx)].
Qed.

(** An event that is processed, other than a stop, is one of a station that is up. *)
Lemma triple_decide event generation active :
  triple (calm false) (decide_sta_event event generation active)
    (fun a w => phase (a = ARGUS_STA_EVENT_PROCESS /\ event <> ARGUS_STA_EVENT_STOPPED) False false w).
Proof.
  unfold decide_sta_event.
  apply (triple_bind _ _ _ (fun _ => calm false)); [apply triple_quiet; ops|intros mode].
  apply (triple_bind _ _ _ (fun _ => calm false)); [apply triple_quiet; ops|intros g].
  apply (triple_bind _ _ _ (fun x w => phase (False \/ x = true) False false w)).
  - eapply triple_conseq; [apply calm_phase| |apply triple_flag; exact _]. done.
  - intros started. set (b := False \/ started = true).
    apply (triple_bind _ _ _ (fun _ => phase b False false)); [apply triple_phase; ops|intros connected].
    apply (triple_bind _ _ _ (fun _ => phase b False false)); [apply triple_phase; ops|intros ip].
    apply triple_ret; [apply phase_isolated|]. intros w (Hc & Hw & _). split; [done|]. split; [|done].
    intros [Hp He]. apply Hw. right. destruct started; [done|]. exfalso. revert Hp He. clear.
    unfold argus_net_decide_sta_event, sta_operational.
    destruct mode, event; cbn; try done; by case_match.
Qed.


(** Under the mutex, from [calm] to [calm]. *)
Lemma triple_locked (p : net unit) :
  triple (calm false) p (fun _ => calm false) ->
  triple free (call (Lock NetMutex) ;; p ;; call (Unlock NetMutex)) (fun _ => free).
Proof.
  intros Hp. apply (triple_bind _ _ _ (fun _ => calm false)); [exact triple_lock_net|intros []].
  apply (triple_bind _ _ _ (fun _ => calm false)); [exact Hp|intros []]. exact triple_unlock_net.
Qed.

(** The action is stored back over flags that were read: a station that is down stays down. *)
Lemma apply_action_down mode event action sta flags :
  flags = no_flags -> (argus_net_apply_sta_event_action mode event action sta flags).2 = no_flags.
Proof.
  intros Hf. unfold argus_net_apply_sta_event_action. cbn [snd]. rewrite Hf. by repeat case_match.
Qed.

Lemma working_phase d w : working d w -> phase True False d w.
Proof. intros H. split; [exact (working_calm d w H)|]. by split. Qed.

Lemma triple_working {A} (p : net A) d : ops_all busy p -> triple (phase True False d) p (fun _ => calm d).
Proof.
  intros Hp. eapply triple_conseq; [| |exact (triple_busy p d Hp)].
  - intros w (_ & H & _). exact (H I).
  - intros a w. apply working_calm.
Qed.

Lemma phase_mono (b b' s s' : Prop) d w : (b' -> b) -> (s' -> s) -> phase b s d w -> phase b' s' d w.
Proof. intros Hb Hs (Hc & Hw & Hk). split; [exact Hc|]. split; auto. Qed.

Lemma phase_calm b s d w : phase b s d w -> calm d w.
Proof. by intros [H _]. Qed.

(** Flags read one after the other while the authority is local are all clear. *)
Lemma triple_apply_action event action :
  triple (calm false) (apply_sta_event_action_locked event action) (fun _ => calm false).
Proof.
  unfold apply_sta_event_action_locked.
  apply (triple_bind _ _ _ (fun _ => phase False False false));
    [eapply triple_conseq; [apply calm_phase| |apply triple_phase; ops]; done|intros state].
  apply (triple_bind _ _ _ (fun a => phase (False \/ a = true) False false)); [apply triple_flag; exact _|intros a].
  apply (triple_bind _ _ _ (fun b => phase ((False \/ a = true) \/ b = true) False false)); [apply triple_flag; exact _|intros b].
  apply (triple_bind _ _ _ (fun c => phase (((False \/ a = true) \/ b = true) \/ c = true) False false));
    [apply triple_flag; exact _|intros c].
  apply (triple_bind _ _ _ (fun _ => phase (((False \/ a = true) \/ b = true) \/ c = true) False false));
    [apply triple_phase; ops|intros mode].
  pose proof (apply_action_down mode event action state (StaFlags a b c)) as Hdown.
  destruct (argus_net_apply_sta_event_action mode event action state (StaFlags a b c)) as [state' flags].
  destruct (decide (((False \/ a = true) \/ b = true) \/ c = true)) as [Hup|Hclear].
  - eapply triple_conseq; [| |apply (triple_working _ false); ops]; [|done]. intros w. by apply phase_mono.
  - assert (flags = no_flags) as ->; [apply Hdown; destruct a, b, c; naive_solver|].
    eapply triple_conseq; [apply phase_calm| |apply triple_quiet; ops]. done.
Qed.

(** ** The handlers *)

Ltac lock_net := apply (triple_bind _ _ _ (fun _ => calm false)); [exact triple_lock_net|intros []].
Ltac calmly d := apply (triple_bind _ _ _ (fun _ => calm d)); [apply triple_quiet; solve [ops]|intros ?].

#[export] Hint Resolve busy_of_quiet : netops.

Lemma ops_checked {A} (C : forall X : Type, net_op X -> Prop) (op : net esp_err_t) (fail : esp_err_t -> A) next :
  ops_all C op -> ops_all C next -> ops_all C (checked op fail next).
Proof. intros Ho Hn. apply ops_all_bind; [exact Ho|]. intros err. by destruct (is_ok err). Qed.

Lemma quiet_load cfg : ops_all quiet (wifi_apply_load_config cfg).
Proof. unfold wifi_apply_load_config. ops. Qed.
#[export] Hint Resolve quiet_load : netops.

Lemma quiet_apply_stop_timers : ops_all quiet wifi_apply_stop_timers.
Proof. unfold wifi_apply_stop_timers. ops. Qed.
#[export] Hint Resolve quiet_apply_stop_timers : netops.

Lemma busy_apply_sta cfg : ops_all busy (wifi_apply_apply_sta_config cfg).
Proof. unfold wifi_apply_apply_sta_config. ops. Qed.
#[export] Hint Resolve busy_apply_sta : netops.

Abbreviation prod_ops := argus_wifi_apply_get_production_ops.

Lemma busy_connect txn sta : ops_all busy (wifi_transaction_connect txn sta prod_ops).
Proof.
  unfold wifi_transaction_connect. cbv zeta. case_match.
  - apply ops_checked; [exact (busy_apply_sta _)|]. apply ops_checked; [by apply ops_call|done].
  - apply ops_checked; [by apply ops_call|done].
Qed.
#[export] Hint Resolve busy_connect : netops.

Lemma triple_revoke d : triple (calm d) revoke_authority (fun err => working d).
Proof.
  apply triple_call; [exact (calm_isolated d)|exact (others_calm d)|]. intros w x w' (Hn & Hd & _) He.
  assert (Hm : ARGUS_AUTHORITY_NONE <> ARGUS_AUTHORITY_LOCAL_SERVICE) by done.
  destruct (He (conj Hm (or_introl Hn))) as [_ ->].
  assert (Hw : working d (w <| nw_auth := (argus_authority_mgr_set_mode ARGUS_AUTHORITY_NONE ARGUS_AUTH_OWNER_NONE (nw_auth w)).2 |>)) by done.
  split; [exact Hw|exact (working_isolated d _ Hw)].
Qed.

Lemma triple_checked {A} (op : net esp_err_t) (fail : esp_err_t -> A) next P R (Q : A -> net_world -> Prop) :
  triple P op (fun _ => R) -> (forall w, R w -> service_isolated w) ->
  (forall err w, err <> ESP_OK -> R w -> Q (fail err) w) -> triple R next Q -> triple P (checked op fail next) Q.
Proof.
  intros Ho Hi Hf Hn. apply (triple_bind _ _ _ (fun _ => R)); [exact Ho|]. intros err.
  destruct (is_ok err) eqn:He; [exact Hn|]. apply triple_ret; [exact Hi|]. apply is_ok_false in He. auto.
Qed.

(** Preparing a transaction revokes the authority before anything the local one must not see. *)
Lemma triple_prepare txn generation kind mode :
  triple (calm false) (wifi_transaction_prepare txn generation kind mode (Some prod_ops))
    (fun r => if is_ok r.1 then working false else calm false).
Proof.
  assert (Hcalm : forall w, working false w -> calm false w) by apply working_calm.
  assert (Hf : forall t err w, err <> ESP_OK -> working false w ->
    (if is_ok (wifi_transaction_finish_error t err).1 then working false else calm false) w).
  { intros t err w He Hw. cbn [fst wifi_transaction_finish_error]. rewrite (proj2 (is_ok_false err) He). auto. }
  unfold wifi_transaction_prepare. cbv beta iota zeta.
  set (v := wifi_transaction_validate_inputs _ _ _).
  destruct (is_ok v) eqn:Hv; cbn [negb]; [|apply triple_ret; [apply calm_isolated|cbn [fst]; by rewrite Hv]].
  destruct (generation =? 0); [apply triple_ret; [apply calm_isolated|done]|].
  apply (triple_checked _ _ _ _ (calm false)); [apply triple_quiet; exact quiet_apply_stop_timers|apply calm_isolated| |].
  { intros err w He Hw. cbn [fst wifi_transaction_finish_error]. by rewrite (proj2 (is_ok_false err) He). }
  apply (triple_checked _ _ _ _ (working false)); [apply triple_revoke|apply working_isolated|exact (Hf _)|].
  apply (triple_checked _ _ _ _ (working false)); [exact (triple_busy _ _ (busy_of_quiet _ quiet_stop_broker))|apply working_isolated|exact (Hf _)|].
  apply (triple_checked _ _ _ _ (working false)); [exact (triple_busy _ _ (busy_of_quiet _ (quiet_verify_broker 41 50)))|apply working_isolated|exact (Hf _)|].
  apply (triple_bind _ _ _ (fun _ => working false)); [exact (triple_busy _ _ (busy_of_quiet _ (quiet_load _)))|].
  intros [[err cfg] has_cfg]. destruct (is_ok err) eqn:He; cbn [negb].
  - apply (triple_checked _ _ _ _ (working false)); [by apply triple_busy|apply working_isolated|exact (Hf _)|].
    apply triple_ret; [apply working_isolated|done].
  - apply triple_ret; [apply working_isolated|]. intros w Hw. apply is_ok_false in He. exact (Hf _ _ w He Hw).
Qed.

Lemma triple_begin txn generation kind mode sta connected :
  triple (calm false) (wifi_transaction_begin txn generation kind mode sta connected (Some prod_ops)) (fun _ => calm false).
Proof.
  apply (triple_bind _ _ _ (fun r => if is_ok r.1 then working false else calm false)); [apply triple_prepare|].
  intros [err txn']. cbn [fst]. destruct (is_ok err) eqn:He; cbn [negb]; [|apply triple_ret; [apply calm_isolated|done]].
  eapply triple_conseq; [| |apply (triple_busy _ false)].
  - done.
  - intros r w. apply working_calm.
  - destruct connected; [|apply busy_connect]. cbv zeta. apply ops_checked; [by apply ops_call|done].
Qed.

Lemma triple_begin_transaction kind : triple (calm false) (begin_transaction kind) (fun _ => calm false).
Proof.
  unfold begin_transaction. do 6 calmly false.
  apply (triple_bind _ _ _ (fun _ => calm false)); [apply triple_begin|]. intros [[err txn] sta]. apply triple_quiet. ops.
Qed.

Lemma free_manual_reconnect : triple free on_manual_reconnect (fun _ => free).
Proof.
  unfold on_manual_reconnect. lock_net. do 3 calmly false.
  apply (triple_bind _ _ _ (fun _ => calm false)); [|intros []; exact triple_unlock_net].
  case_match; [|apply triple_quiet; ops]. calmly false. case_match; [apply triple_quiet; ops|apply triple_begin_transaction].
Qed.

Lemma free_apply_wifi_config : triple free on_apply_wifi_config (fun _ => free).
Proof.
  unfold on_apply_wifi_config. lock_net. calmly false.
  apply (triple_bind _ _ _ (fun _ => calm false)); [|intros []; exact triple_unlock_net].
  case_match; [apply triple_quiet; ops|apply triple_begin_transaction].
Qed.

Lemma free_auto_reconnect evt : triple free (on_auto_reconnect evt) (fun _ => free).
Proof. unfold on_auto_reconnect. lock_net. do 3 calmly false. exact triple_unlock_net. Qed.

(** A handler of a station event: processed under the mutex, or its action applied. *)
Lemma free_station_event event generation active (process : net unit) otherwise :
  triple (phase (event <> ARGUS_STA_EVENT_STOPPED) False false) process (fun _ => calm false) ->
  (forall action, triple (calm false) (otherwise action) (fun _ => calm false)) ->
  triple free
    (call (Lock NetMutex) ;;
     action ← decide_sta_event event generation active;
     (if bool_decide (action = ARGUS_STA_EVENT_PROCESS) then process else otherwise action) ;;
     call (Unlock NetMutex)) (fun _ => free).
Proof.
  intros Hp Ho. lock_net. eapply triple_bind; [apply triple_decide|]. intros action. cbv beta.
  apply (triple_bind _ _ _ (fun _ => calm false)); [|intros []; exact triple_unlock_net]. case_bool_decide as Ha.
  - eapply triple_conseq; [| |exact Hp]; [|done]. intros w. by apply phase_mono.
  - eapply triple_conseq; [apply phase_calm| |exact (Ho action)]. done.
Qed.

Lemma free_sta_associated evt : triple free (on_sta_associated evt) (fun _ => free).
Proof.
  refine (free_station_event ARGUS_STA_EVENT_ASSOCIATED (ev_transaction_generation evt) s_active_transaction_generation
    _ (apply_sta_event_action_locked ARGUS_STA_EVENT_ASSOCIATED) _ (triple_apply_action _)).
  eapply triple_conseq; [apply phase_calm| |apply triple_quiet; ops]. done.
Qed.

Lemma busy_set_net_mode mode : ops_all busy (set_net_mode mode).
Proof. unfold set_net_mode. ops. Qed.
#[export] Hint Resolve busy_set_net_mode : netops.

Lemma busy_ip_acquired evt : ops_all busy (process_ip_acquired evt).
Proof. unfold process_ip_acquired, start_broker_and_grant. ops. Qed.

Lemma busy_process_disconnect evt : ops_all busy (process_disconnect evt).
Proof. unfold process_disconnect, transaction_disconnect, argus_wifi_transaction_handle_disconnect. ops. Qed.

Lemma triple_up (p : net unit) event : event <> ARGUS_STA_EVENT_STOPPED -> ops_all busy p ->
  triple (phase (event <> ARGUS_STA_EVENT_STOPPED) False false) p (fun _ => calm false).
Proof.
  intros He Hp. eapply triple_conseq; [| |exact (triple_working p false Hp)]; [|done]. intros w. by apply phase_mono.
Qed.

Lemma free_sta_connected evt : triple free (on_sta_connected evt) (fun _ => free).
Proof.
  refine (free_station_event ARGUS_STA_EVENT_IP_ACQUIRED (ev_transaction_generation evt) s_active_transaction_generation
    _ (apply_sta_event_action_locked ARGUS_STA_EVENT_IP_ACQUIRED) _ (triple_apply_action _)).
  apply triple_up; [done|apply busy_ip_acquired].
Qed.

Lemma free_sta_disconnected evt : triple free (on_sta_disconnected evt) (fun _ => free).
Proof.
  unfold on_sta_disconnected. cbv zeta.
  refine (free_station_event _ _ _ _ (apply_sta_event_action_locked _) _ (triple_apply_action _)).
  apply triple_up; [by case_bool_decide|apply busy_process_disconnect].
Qed.

Lemma free_sta_stopped evt : triple free (on_sta_stopped evt) (fun _ => free).
Proof.
  unfold on_sta_stopped. lock_net. eapply triple_bind; [apply triple_decide|]. intros action. cbv beta.
  apply (triple_bind _ _ _ (fun _ => calm false)); [|intros []; exact triple_unlock_net].
  eapply triple_conseq; [apply phase_calm| |].
  2: destruct action; [apply triple_quiet; ops|apply triple_quiet; ops|apply triple_apply_action]. done.
Qed.

Lemma free_apply_secret : triple free on_apply_active_ap_secret (fun _ => free).
Proof. unfold on_apply_active_ap_secret. lock_net. do 5 calmly false. exact triple_unlock_net. Qed.

(** ** The service entry *)

Lemma triple_seq_quiet l b s d : Forall (ops_all quiet) l -> triple (phase b s d) (in_sequence l) (fun _ => phase b s d).
Proof.
  induction 1 as [|p l Hp _ IH]; [apply triple_ret; [apply phase_isolated|done]|].
  apply (triple_bind _ _ _ (fun _ => phase b s d)); [by apply triple_phase|]. intros err.
  destruct (is_ok err); [exact IH|apply triple_ret; [apply phase_isolated|done]].
Qed.

(** One step of a sequence, which stops where it fails. *)
Lemma triple_seq_cons p l P R (F : net_world -> Prop) (Q : esp_err_t -> net_world -> Prop) :
  (forall w, F w -> service_isolated w) -> (forall err w, err <> ESP_OK -> F w -> Q err w) ->
  triple P p (fun err => if is_ok err then R else F) -> triple R (in_sequence l) Q -> triple P (in_sequence (p :: l)) Q.
Proof.
  intros Hi Hf Hp Hl. apply (triple_bind _ _ _ _ _ Hp). intros err. cbv beta. destruct (is_ok err) eqn:He; [exact Hl|].
  apply triple_ret; [exact Hi|]. apply is_ok_false in He. auto.
Qed.

(** The broker that is observed stopped stays so while the mutex is held. *)
Lemma triple_observe b s d :
  triple (phase b s d) (call BrokerObserve)
    (fun r => phase b (s \/ r.1 = ESP_OK /\ argus_mqtt_broker_observation_is_stopped r.2 = true) d).
Proof.
  apply triple_call; [apply phase_isolated|apply others_phase|]. intros w r w' Hp [Hr ->].
  split; [|exact (phase_isolated _ _ _ _ Hp)]. destruct Hp as (Hc & Hw & Hs). split; [done|]. split; [done|].
  intros [H|[H1 H2]]; [exact (Hs H)|]. unfold broker_stopped. by rewrite <- (Hr H1).
Qed.

Lemma triple_verify_broker n ms :
  triple (calm false) (verify_stopped_loop n ms)
    (fun err => if is_ok err then phase False True false else calm false).
Proof.
  induction n as [|n IH]; [apply triple_ret; [apply calm_isolated|done]|].
  eapply triple_bind; [eapply triple_conseq; [apply calm_phase| |apply triple_observe]; done|].
  intros [err obs]. cbn [fst snd]. destruct (is_ok err) eqn:He; cbn [negb].
  - apply is_ok_true in He. destruct (argus_mqtt_broker_observation_is_stopped obs) eqn:Hs.
    + apply triple_ret; [apply phase_isolated|]. intros w. apply phase_mono; [done|]. intros _. by right.
    + apply (triple_bind _ _ _ (fun _ => calm false)); [|intros []; exact IH].
      eapply triple_conseq; [apply phase_calm| |apply triple_quiet; destruct (_ && _); ops]. done.
  - apply triple_ret; [apply phase_isolated|]. intros w Hw. rewrite He. exact (phase_calm _ _ _ _ Hw).
Qed.

Lemma triple_isolation_steps :
  triple (calm false) (in_sequence (isolation_steps prod_transition_ops))
    (fun err => if is_ok err then phase False True false else calm false).
Proof.
  pose proof quiet_isolation_steps as Hq. unfold isolation_steps in *.
  apply Forall_cons in Hq as [H1 Hq]. apply Forall_cons in Hq as [H2 Hq]. apply Forall_cons in Hq as [H3 Hq].
  apply Forall_cons in Hq as [_ Hq].
  assert (Hi : forall w, calm false w -> service_isolated w) by apply calm_isolated.
  assert (Hf : forall err w, err <> ESP_OK -> calm false w -> (if is_ok err then phase False True false else calm false) w).
  { intros err w He Hw. by rewrite (proj2 (is_ok_false err) He). }
  do 3 (apply (triple_seq_cons _ _ _ (calm false) (calm false)); [exact Hi|exact Hf| |];
    [eapply triple_conseq; [| |apply (triple_quiet _ false); eassumption]; [done|by intros []]|]).
  apply (triple_seq_cons _ _ _ (phase False True false) (calm false)); [exact Hi|exact Hf|exact (triple_verify_broker 41 50)|].
  eapply triple_conseq; [| |apply (triple_seq_quiet _ False True false Hq)]; [done|].
  intros err w Hw. cbv beta. destruct (is_ok err); [exact Hw|exact (phase_calm _ _ _ _ Hw)].
Qed.

(** The revalidation under both locks: so many of the station's flags have read clear. *)
Definition ready (n : nat) (w : net_world) : Prop :=
  phase False True true w /\ nw_wifi_mode w = WIFI_MODE_AP /\
  ((0 < n)%nat -> s_sta_started (nw_mgr w) = false) /\
  ((1 < n)%nat -> s_sta_connected (nw_mgr w) = false) /\
  ((2 < n)%nat -> s_sta_ip_acquired (nw_mgr w) = false).

Lemma ready_isolated n w : ready n w -> service_isolated w.
Proof. intros [H _]. exact (phase_isolated _ _ _ _ H). Qed.

Lemma others_ready n w w' : others w w' -> ready n w -> ready n w'.
Proof.
  intros Ho (Hp & Hm & H1 & H2 & H3). pose proof (proj1 Hp) as (Hn & _).
  split; [exact (others_phase _ _ _ _ _ Ho Hp)|].
  split; [destruct (others_wifi_mode _ _ Ho Hn); congruence|].
  pose proof (others_flags _ _ Ho Hn Hm) as Hq.
  repeat split; intros H; destruct (Hq (H1 ltac:(lia))) as (Ha & Hb & Hc); auto.
Qed.

Lemma triple_sta_gone : triple (ready 0) sta_gone (fun gone w => if gone then ready 3 w else phase False True true w).
Proof.
  assert (Hw : forall n (w : net_world), ready n w -> phase False True true w) by (intros n w [H _]; exact H).
  unfold sta_gone.
  eapply triple_bind; [exact (triple_gets s_sta_started _ (ready_isolated 0) (others_ready 0))|].
  intros started. destruct started; [apply triple_ret; [intros w [H _]; exact (ready_isolated _ _ H)|intros w [H _]; exact (Hw _ _ H)]|].
  eapply triple_bind.
  { eapply triple_conseq; [| |exact (triple_gets s_sta_connected _ (ready_isolated 1) (others_ready 1))]; [|done].
    intros w [(Hp & Hm & _) Hs]. split; [done|]. split; [done|]. repeat split; intros H; [done|lia|lia]. }
  intros connected. destruct connected; [apply triple_ret; [intros w [H _]; exact (ready_isolated _ _ H)|intros w [H _]; exact (Hw _ _ H)]|].
  eapply triple_bind.
  { eapply triple_conseq; [| |exact (triple_gets s_sta_ip_acquired _ (ready_isolated 2) (others_ready 2))]; [|done].
    intros w [(Hp & Hm & H1 & _) Hs]. split; [done|]. split; [done|]. repeat split; intros H; [apply H1; lia|done|lia]. }
  intros ip. apply triple_ret; [intros w [H _]; exact (ready_isolated _ _ H)|].
  intros w [(Hp & Hm & H1 & H2 & H3) Hs]. destruct ip; [exact Hp|]. split; [done|]. split; [done|].
  repeat split; intros H; [apply H1; lia|apply H2; lia|done].
Qed.

Lemma triple_read {X} (e : net_op X) (P : net_world -> Prop) (Q : X -> net_world -> Prop) :
  (forall w, P w -> service_isolated w) -> (forall w w', others w w' -> P w -> P w') ->
  (forall w x w', net_effect e w x w' -> w' = w) ->
  (forall w x, P w -> net_effect e w x w -> Q x w) -> triple P (call e) Q.
Proof.
  intros Hi Ho He Hq. apply triple_call; [exact Hi|exact Ho|]. intros w x w' Hp Heff.
  pose proof (He _ _ _ Heff) as ->. split; [exact (Hq w x Hp Heff)|exact (Hi w Hp)].
Qed.

Lemma triple_revalidate :
  triple (phase False True true) prod_revalidate_network
    (fun err => if is_ok err then ready 3 else phase False True true).
Proof.
  unfold prod_revalidate_network.
  apply (triple_bind _ _ _ (fun r w => phase False True true w /\ (r.1 = ESP_OK -> nw_wifi_mode w = r.2))).
  { apply triple_read; [apply phase_isolated|apply others_phase|by intros w x w' []|]. intros w r Hp [Hr _].
    split; [exact Hp|]. intros He. symmetry. exact (Hr He). }
  intros [err mode]. cbn [fst snd].
  destruct (is_ok err) eqn:He; cbn [negb orb]; [|apply triple_ret; [intros w [H _]; exact (phase_isolated _ _ _ _ H)|by intros w [H _]]].
  apply is_ok_true in He. subst err. case_bool_decide as Hm; cbn [negb]; [|apply triple_ret; [intros w [H _]; exact (phase_isolated _ _ _ _ H)|by intros w [H _]]].
  subst mode. apply (triple_bind _ _ _ (fun _ => ready 0)).
  { eapply triple_conseq; [| |exact (triple_gets s_ap_started _ (ready_isolated 0) (others_ready 0))].
    - intros w [Hp Hm]. split; [done|]. split; [auto|]. repeat split; lia.
    - by intros x w [H _]. }
  intros ap. apply (triple_bind _ _ _ (fun (gone : bool) w => if gone then ready 3 w else phase False True true w)).
  { destruct ap; [exact triple_sta_gone|]. apply triple_ret; [apply ready_isolated|by intros w [H _]]. }
  intros gone. destruct gone; cbn [negb]; [|apply triple_ret; [apply phase_isolated|done]].
  apply (triple_bind _ _ _ (fun _ => ready 3)).
  { apply triple_read; [apply ready_isolated|apply others_ready|by intros w x w' []|done]. }
  intros state. destruct (latched_or_faulted state || negb (stationary state));
    (apply triple_ret; [apply ready_isolated|]); [by intros w [H _]|done].
Qed.

(** The grant has been tried: both locks held, and local only if isolated. *)
Definition granted (w : net_world) : Prop :=
  nw_net_held w = true /\ nw_dispatch_held w = true /\ service_isolated w.

Lemma others_granted w w' : others w w' -> granted w -> granted w'.
Proof.
  intros Ho (Hn & Hd & Hi). pose proof (others_net_held _ _ Ho). pose proof (others_dispatch_held _ _ Ho).
  split; [congruence|]. split; [congruence|]. intros Hl'. split; [|left; congruence].
  exact (others_isolated _ _ Hn Ho (proj1 (Hi (others_local _ _ Hn Ho Hl')))).
Qed.

Lemma granted_isolated w : granted w -> service_isolated w.
Proof. by intros (_ & _ & H). Qed.

Lemma triple_grant owner : triple (ready 3) (call (AuthorityGrant owner)) (fun _ => granted).
Proof.
  apply triple_call; [apply ready_isolated|apply others_ready|]. intros w err w' (Hp & Hm & H1 & H2 & H3) He.
  pose proof Hp as ((Hn & Hd & _) & _ & Hs). destruct (He (conj Hn Hd)) as [_ ->].
  assert (Hg : granted (w <| nw_auth := (prod_grant_local owner (nw_auth w)).2 |>)); [|split; [exact Hg|exact (granted_isolated _ Hg)]].
  split; [done|]. split; [done|]. intros _. split; [|by left]. split; [exact Hm|].
  split; [|exact (Hs I)]. repeat split; [apply H1|apply H2|apply H3]; lia.
Qed.

Lemma triple_revalidate_grant owner :
  triple (phase False True true) (in_sequence [prod_revalidate_network; call (AuthorityGrant owner)]) (fun _ => granted).
Proof.
  assert (Hg : forall w, phase False True true w -> granted w).
  { intros w ((Hn & Hd & Hi & _) & _). by split. }
  apply (triple_seq_cons _ _ _ (ready 3) (phase False True true)); [apply phase_isolated|auto|exact triple_revalidate|].
  apply (triple_seq_cons _ _ _ granted granted); [apply granted_isolated|auto| |apply triple_ret; [apply granted_isolated|done]].
  eapply triple_conseq; [| |exact (triple_grant owner)]; [done|]. by intros [] w.
Qed.

(** After the grant: aborted, or in the service mode. *)
Lemma triple_abort : triple granted (call AuthorityAbort) (fun _ => calm true).
Proof.
  apply triple_call; [apply granted_isolated|apply others_granted|]. intros w x w' (Hn & Hd & Hi) He. rewrite (He Hn).
  assert (Hw : working true (w <| nw_auth := prod_abort_transition (nw_auth w) |>)) by done.
  split; [exact (working_calm _ _ Hw)|exact (working_isolated _ _ Hw)].
Qed.

Lemma triple_enter_mode : triple granted (store_net_mode ARGUS_NET_MODE_SERVICE_AP_ONLY) (fun _ => calm true).
Proof.
  apply triple_call; [apply granted_isolated|apply others_granted|]. intros w x w' (Hn & Hd & Hi) He.
  rewrite (He (or_introl Hn)).
  assert (Hc : calm true (w <| nw_mgr := (nw_mgr w) <| s_net_mode := ARGUS_NET_MODE_SERVICE_AP_ONLY |> |>));
    [|split; [exact Hc|exact (calm_isolated _ _ Hc)]].
  split; [done|]. split; [done|]. split; [|done]. intros Hl. split; [|by left]. exact (proj1 (Hi Hl)).
Qed.

Lemma triple_lock_dispatch_stopped : triple (phase False True false) (call (Lock DispatchLock)) (fun _ => phase False True true).
Proof.
  apply triple_call; [apply phase_isolated|apply others_phase|]. intros w x w' (Hc & _ & Hs) He.
  pose proof Hc as (Hn & Hd & Hi & Hm). rewrite (He Hd).
  assert (Hf : calm true (set_held DispatchLock true w)) by (by repeat split; try done; apply Hi).
  split; [|exact (calm_isolated _ _ Hf)]. split; [exact Hf|]. split; [done|exact Hs].
Qed.

(** A hook does what it names, whatever it answers. *)
Lemma triple_hook {X} (p : net X) P (Q : net_world -> Prop) :
  (forall w, Q w -> service_isolated w) -> triple P p (fun _ => Q) -> triple P (hook (Some p)) (fun _ => Q).
Proof. intros Hi Hp. apply (triple_bind _ _ _ (fun _ => Q) _ Hp). intros x. by apply triple_ret. Qed.

Lemma triple_http {X} (e : net_op X) : unlocked X e -> triple free (call e) (fun _ => free).
Proof. intros He. apply triple_unlocked. by apply ops_call. Qed.

Lemma triple_restore_http http_err op_err :
  triple (calm false) (abort_restore_http prod_transition_ops http_err op_err) (fun _ => free).
Proof.
  assert (Hu : triple (calm false) (hook (st_unlock_net prod_transition_ops)) (fun _ => free)).
  { apply triple_hook; [apply free_isolated|exact triple_unlock_net]. }
  unfold abort_restore_http. destruct (is_ok http_err); apply (triple_bind _ _ _ (fun _ => free) _ Hu); intros [];
    [|apply triple_ret; [apply free_isolated|done]].
  apply triple_unlocked. cbn [st_start_http prod_transition_ops hook]. ops.
Qed.

(** Aborted: the authority revoked and the mode a fault. *)
Lemma triple_abort_fault {A} d P (k : net A) (Q : A -> net_world -> Prop) :
  (forall w, P w -> granted w \/ calm d w) -> (forall w, P w -> nw_dispatch_held w = d) ->
  triple (calm d) k Q ->
  triple P (call AuthorityAbort ;; store_net_mode ARGUS_NET_MODE_NETWORK_FAULT ;; k) Q.
Proof.
  intros HP Hd Hk. apply (triple_bind _ _ _ (fun _ => calm d)).
  - intros w Hw. pose proof (Hd w Hw) as Hdw. destruct (HP w Hw) as [Hg|Hc].
    + replace d with true; [exact (triple_abort w Hg)|]. rewrite <- Hdw. symmetry. apply Hg.
    + assert (Hq : ops_all quiet (call AuthorityAbort)) by by apply ops_call. exact (triple_quiet _ d Hq w Hc).
  - intros []. apply (triple_bind _ _ _ (fun _ => calm d)); [|intros []; exact Hk]. apply triple_quiet. ops.
Qed.

(** The second half, from the isolation on. *)
Definition grant_and_open (owner : argus_authority_owner_t) (http_err op_err : esp_err_t) : net esp_err_t :=
  if negb (is_ok op_err) then
    call AuthorityAbort ;; store_net_mode ARGUS_NET_MODE_NETWORK_FAULT ;; hook (st_unlock_dispatch prod_transition_ops) ;;
    abort_restore_http prod_transition_ops http_err op_err
  else
    store_net_mode ARGUS_NET_MODE_SERVICE_AP_ONLY ;; hook (st_unlock_dispatch prod_transition_ops) ;;
    hook (st_unlock_net prod_transition_ops) ;; hook (st_start_http prod_transition_ops) ;; mret ESP_OK.

Lemma triple_unlock_hook : triple (calm true) (hook (st_unlock_dispatch prod_transition_ops)) (fun _ => calm false).
Proof. apply triple_hook; [apply calm_isolated|exact triple_unlock_dispatch]. Qed.

Lemma triple_unlock_net_hook : triple (calm false) (hook (st_unlock_net prod_transition_ops)) (fun _ => free).
Proof. apply triple_hook; [apply free_isolated|exact triple_unlock_net]. Qed.

Lemma triple_grant_and_open owner http_err op_err :
  triple granted (grant_and_open owner http_err op_err) (fun _ => free).
Proof.
  unfold grant_and_open. destruct (is_ok op_err); cbn [negb].
  - apply (triple_bind _ _ _ (fun _ => calm true)); [exact triple_enter_mode|intros []].
    apply (triple_bind _ _ _ (fun _ => calm false)); [exact triple_unlock_hook|intros []].
    apply (triple_bind _ _ _ (fun _ => free)); [exact triple_unlock_net_hook|intros []].
    apply triple_unlocked. cbn [st_start_http prod_transition_ops hook]. ops.
  - apply (triple_abort_fault true); [by left|by intros w (_ & H & _)|].
    apply (triple_bind _ _ _ (fun _ => calm false)); [exact triple_unlock_hook|intros []].
    apply triple_restore_http.
Qed.

Lemma triple_prepare_transition :
  triple (calm true) (sa_prepare_transition prod_authority_ops) (fun err w => err = ESP_OK /\ calm true w).
Proof.
  apply triple_call; [apply calm_isolated|apply others_calm|]. intros w x w' Hc He. pose proof Hc as (Hn & _).
  assert (Hm : ARGUS_AUTHORITY_SERVICE_TRANSITION <> ARGUS_AUTHORITY_LOCAL_SERVICE) by done.
  assert (Hq : calm true w') by (refine (quiet_effect _ (AuthoritySetMode ARGUS_AUTHORITY_SERVICE_TRANSITION ARGUS_AUTH_OWNER_NONE) true w x w' _ Hc He); done).
  destruct (He (conj Hm (or_introl Hn))) as [Hx _]. split; [split; [exact Hx|exact Hq]|exact (calm_isolated _ _ Hq)].
Qed.

Lemma triple_orchestrate owner :
  triple (calm true)
    (argus_net_mgr_orchestrate_service_entry store_net_mode owner (Some (prod_authority_ops, prod_transition_ops)))
    (fun err => if local_owner owner then free else calm true).
Proof.
  unfold argus_net_mgr_orchestrate_service_entry. destruct (local_owner owner); cbn [negb];
    [|apply triple_ret; [apply calm_isolated|done]].
  apply (triple_bind _ _ _ _ _ triple_prepare_transition). intros err. cbv beta.
  destruct (is_ok err) eqn:He; cbn [negb]; [|intros w [-> _]; done].
  apply (triple_bind _ _ _ (fun _ => calm true)).
  { eapply triple_conseq; [| |apply (triple_quiet _ true); ops]; [by intros w [_ H]|done]. }
  intros [].
  apply (triple_bind _ _ _ (fun _ => calm false)); [exact triple_unlock_hook|intros []].
  apply (triple_bind _ _ _ (fun _ => free)); [exact triple_unlock_net_hook|intros []].
  apply (triple_bind _ _ _ (fun _ => free)); [by apply triple_http|intros http_err].
  apply (triple_bind _ _ _ (fun _ => calm false)); [apply triple_hook; [apply calm_isolated|exact triple_lock_net]|intros []].
  apply (triple_bind _ _ _ _ _ triple_isolation_steps). intros op_err. cbv beta.
  destruct (is_ok op_err) eqn:Ho; cbn [negb].
  - apply (triple_bind _ _ _ (fun _ => phase False True true));
      [apply triple_hook; [apply phase_isolated|exact triple_lock_dispatch_stopped]|intros []].
    apply (triple_bind _ _ _ _ _ (triple_revalidate_grant owner)). intros grant_err.
    exact (triple_grant_and_open owner http_err grant_err).
  - apply (triple_abort_fault false); [by right|by intros w (_ & H & _)|]. apply triple_restore_http.
Qed.

Lemma free_enter_service owner : local_owner owner = true -> triple (calm true) (enter_service owner) (fun _ => free).
Proof.
  intros Ho. unfold enter_service. apply (triple_bind _ _ _ (fun _ => calm true)); [apply triple_quiet; ops|intros []].
  apply (triple_bind _ _ _ (fun _ => free)).
  - eapply triple_conseq; [| |exact (triple_orchestrate owner)]; [done|]. by rewrite Ho.
  - intros res. apply triple_unlocked. ops.
Qed.

(** Whatever is done between, both locks are dropped. *)
Lemma triple_unlock_both {A} (a : A) : triple (calm true) (unlock_both ;; mret a) (fun _ => free).
Proof.
  apply (triple_bind _ _ _ (fun _ => free)); [|intros []; apply triple_ret; [apply free_isolated|done]].
  apply (triple_bind _ _ _ (fun _ => calm false)); [exact triple_unlock_dispatch|intros []; exact triple_unlock_net].
Qed.

Lemma triple_unlock_ret {A} (a : A) : triple (calm false) (call (Unlock NetMutex) ;; mret a) (fun _ => free).
Proof.
  apply (triple_bind _ _ _ (fun _ => free)); [exact triple_unlock_net|]. intros []. apply triple_ret; [apply free_isolated|done].
Qed.

Ltac lock_dispatch := apply (triple_bind _ _ _ (fun _ => calm true)); [exact triple_lock_dispatch|intros []].
Ltac freely := apply (triple_bind _ _ _ (fun _ => free)); [apply triple_unlocked; solve [ops]|intros ?].
Ltac return_free := apply triple_ret; [apply free_isolated|done].

Lemma free_request_internal owner expected :
  triple free (argus_net_mgr_request_service_internal owner expected) (fun _ => free).
Proof.
  unfold argus_net_mgr_request_service_internal. freely. case_match; [return_free|].
  destruct (local_owner owner) eqn:Ho; cbn [negb]; [|return_free].
  lock_net. apply (triple_bind _ _ _ (fun _ => calm false)); [apply triple_quiet; ops|].
  intros [err|verdict]; [apply triple_unlock_ret|]. case_match; [apply triple_unlock_ret|].
  lock_dispatch. apply (triple_bind _ _ _ (fun _ => calm true)); [apply triple_quiet; ops|].
  clear verdict H0. intros [err|verdict]; [apply triple_unlock_both|].
  apply (triple_bind _ _ _ (fun _ => calm true)); [apply triple_quiet; ops|]. intros [err failure].
  destruct (is_ok err); [by apply free_enter_service|]. case_bool_decide; [apply triple_unlock_both|].
  calmly true. apply triple_unlock_both.
Qed.

Lemma free_exit_fail_closed err : triple (calm false) (exit_fail_closed err) (fun _ => free).
Proof. unfold exit_fail_closed. do 3 calmly false. apply triple_unlock_ret. Qed.

Lemma free_exit_gate_failed : triple (calm true) exit_gate_failed (fun _ => free).
Proof. unfold exit_gate_failed. do 2 calmly true. apply triple_unlock_both. Qed.

Lemma free_exit_second_gate generation : triple (calm false) (exit_second_gate generation) (fun _ => free).
Proof.
  unfold exit_second_gate. lock_dispatch. apply (triple_bind _ _ _ (fun _ => calm true)); [apply triple_quiet; ops|].
  intros [err recheck]. case_match; [exact free_exit_gate_failed|]. calmly true.
  case_match; [exact free_exit_gate_failed|]. calmly true.
  apply (triple_bind _ _ _ (fun _ => free)); [|intros []; do 2 freely; return_free].
  apply (triple_bind _ _ _ (fun _ => calm false)); [exact triple_unlock_dispatch|intros []; exact triple_unlock_net].
Qed.

Lemma free_request_exit owner : triple free (argus_net_mgr_request_service_exit owner) (fun _ => free).
Proof.
  unfold argus_net_mgr_request_service_exit. freely. case_match; [return_free|]. lock_net. calmly false.
  case_match; [apply triple_unlock_ret|]. lock_dispatch.
  apply (triple_bind _ _ _ (fun _ => calm true)); [apply triple_quiet; ops|]. intros [err auth].
  case_match; [apply triple_unlock_both|]. do 2 calmly true.
  apply (triple_bind _ _ _ (fun _ => calm true)); [apply triple_quiet; ops|]. intros [err2 post].
  apply (triple_bind _ _ _ (fun _ => calm false)); [exact triple_unlock_dispatch|intros []].
  calmly false. case_match; [apply free_exit_fail_closed|].
  apply (triple_bind _ _ _ (fun _ => calm false)); [exact (triple_quiet _ _ quiet_verify_stopped)|intros stop_err].
  case_match; [apply free_exit_fail_closed|apply free_exit_second_gate].
Qed.

Lemma free_recovery_result err : triple free (recovery_result err) (fun _ => free).
Proof.
  unfold recovery_result. lock_net. apply (triple_bind _ _ _ (fun _ => calm false)).
  - apply triple_quiet. destruct (is_ok err); ops; by apply quiet_set_net_mode.
  - intros []. apply triple_unlock_ret.
Qed.

Lemma unlocked_in_sequence l : Forall (ops_all unlocked) l -> ops_all unlocked (in_sequence l).
Proof.
  induction 1 as [|p l Hp _ IH]; [done|]. apply ops_all_bind; [exact Hp|]. intros err. by destruct (is_ok err).
Qed.

Lemma free_security_recovery : triple free enter_security_recovery_network (fun _ => free).
Proof.
  unfold enter_security_recovery_network. lock_net. calmly false.
  apply (triple_bind _ _ _ (fun _ => free)); [exact triple_unlock_net|intros []].
  case_match; [return_free|]. apply (triple_bind _ _ _ (fun _ => free)); [apply triple_unlocked; ops|].
  intros [err|ap]; [return_free|]. lock_net.
  apply (triple_bind _ _ _ (fun _ => calm false)); [apply triple_quiet; by apply quiet_set_net_mode|intros []].
  calmly false. apply (triple_bind _ _ _ (fun _ => free)); [exact triple_unlock_net|intros []].
  apply (triple_bind _ _ _ (fun _ => free)); [exact (triple_unlocked _ unlocked_stop_broker)|intros err].
  case_match; [apply free_recovery_result|]. freely. cbv zeta.
  apply (triple_bind _ _ _ (fun _ => free)); [|intros ?; apply free_recovery_result].
  apply triple_unlocked, unlocked_in_sequence. repeat constructor.
Qed.

(** *** The factory reset *)

Abbreviation reset_ops := argus_factory_reset_get_production_ops.

Lemma triple_reset_lock : triple free (fr_lock_lifecycle reset_ops) (fun err w => err = ESP_OK /\ calm false w).
Proof.
  apply (triple_bind _ _ _ (fun _ => calm false)); [exact triple_lock_net|intros []].
  apply triple_ret; [apply calm_isolated|done].
Qed.

Lemma quiet_reset_snapshots : ops_all quiet (reset_snapshots reset_ops).
Proof.
  unfold reset_snapshots.
  cbn [fr_get_network_snapshot fr_get_authority_snapshot fr_get_state_snapshot argus_factory_reset_get_production_ops]. ops.
Qed.

Lemma quiet_begin_reset : ops_all quiet (fr_begin_transition reset_ops).
Proof. cbn [fr_begin_transition argus_factory_reset_get_production_ops]. unfold factory_reset_begin_transition. ops; by apply quiet_set_net_mode. Qed.

Lemma triple_release : triple (calm true) (release_locks reset_ops) (fun _ => free).
Proof.
  apply (triple_bind _ _ _ (fun _ => calm false)); [exact triple_unlock_dispatch|intros []; exact triple_unlock_net].
Qed.

(** The lifecycle lock of the production table is always taken. *)
Lemma triple_after_lock {A} (fail : esp_err_t -> net A) (k : net A) (Q : A -> net_world -> Prop) :
  triple (calm true) k Q ->
  triple free (err ← fr_lock_lifecycle reset_ops;
               if negb (is_ok err) then fail err else fr_lock_dispatch reset_ops ;; k) Q.
Proof.
  intros Hk. apply (triple_bind _ _ _ _ _ triple_reset_lock). intros err w [-> Hc]. revert w Hc.
  apply (triple_bind _ _ _ (fun _ => calm true)); [exact triple_lock_dispatch|]. by intros [].
Qed.

Lemma free_reset_finish result : triple free (reset_finish reset_ops result) (fun _ => free).
Proof.
  unfold reset_finish. cbv zeta. apply triple_after_lock.
  apply (triple_bind _ _ _ (fun _ => calm true)); [exact (triple_quiet _ _ quiet_reset_snapshots)|intros s].
  case_match.
  - apply (triple_bind _ _ _ (fun _ => calm true)); [exact (triple_quiet _ _ quiet_revoke)|intros _].
    apply (triple_bind _ _ _ (fun _ => free)); [exact triple_release|intros []]. return_free.
  - apply (triple_bind _ _ _ (fun _ => calm true)); [exact (triple_quiet _ _ quiet_revoke)|intros err].
    apply (triple_bind _ _ _ (fun _ => free)); [exact triple_release|intros []]. case_match; [return_free|].
    apply (triple_bind _ _ _ (fun _ => free)); [by apply triple_http|intros err']. case_match; [return_free|].
    apply (triple_bind _ _ _ (fun _ => free)); [by apply triple_http|intros []]. return_free.
Qed.

Lemma free_reset_execute : triple free (argus_factory_reset_execute (Some reset_ops)) (fun _ => free).
Proof.
  unfold argus_factory_reset_execute. apply triple_after_lock.
  apply (triple_bind _ _ _ (fun _ => calm true)); [exact (triple_quiet _ _ quiet_reset_snapshots)|intros s].
  case_match; [apply (triple_bind _ _ _ (fun _ => free)); [exact triple_release|intros []; return_free]|].
  apply (triple_bind _ _ _ (fun _ => calm true)); [exact (triple_quiet _ _ quiet_begin_reset)|intros err].
  apply (triple_bind _ _ _ (fun _ => free)); [exact triple_release|intros []]. case_match; [return_free|].
  apply (triple_bind _ _ _ (fun _ => free)); [by apply triple_http|intros []].
  apply (triple_bind _ _ _ (fun _ => free)); [by apply triple_http|intros stop_err].
  case_match; [|apply free_reset_finish]. cbv zeta. apply triple_after_lock.
  apply (triple_bind _ _ _ (fun _ => calm true)); [exact (triple_quiet _ _ quiet_revoke)|intros revoke_err].
  apply (triple_bind _ _ _ (fun _ => free)); [exact triple_release|intros []; return_free].
Qed.

Lemma free_factory_reset : triple free on_factory_reset (fun _ => free).
Proof.
  unfold on_factory_reset. apply (triple_bind _ _ _ (fun _ => free)); [exact free_reset_execute|intros r].
  case_match; [|return_free]. apply triple_unlocked. ops.
Qed.

(** *** The task, and the requests of other tasks *)

Lemma triple_discard {A} (p : net A) P (Q : net_world -> Prop) :
  (forall w, Q w -> service_isolated w) -> triple P p (fun _ => Q) -> triple P (p ;; mret tt) (fun _ => Q).
Proof. intros Hi Hp. apply (triple_bind _ _ _ _ _ Hp). intros a. by apply triple_ret. Qed.

Lemma free_task evt : triple free (net_mgr_task evt) (fun _ => free).
Proof.
  unfold net_mgr_task.
  destruct (ev_type evt);
    [ apply triple_discard; [apply free_isolated|apply free_request_internal]
    | apply triple_discard; [apply free_isolated|apply free_request_exit]
    | apply free_sta_associated | apply free_sta_connected | apply free_sta_disconnected | return_free | return_free
    | by apply triple_http | apply free_factory_reset | apply free_manual_reconnect | apply free_auto_reconnect
    | apply free_apply_wifi_config | apply free_apply_secret | apply free_sta_stopped
    | apply triple_discard; [apply free_isolated|apply free_security_recovery] ].
Qed.

(** The mode read under the mutex, if no local authority can exist in it. *)
Lemma triple_mode :
  triple (calm false) (gets s_net_mode) (fun mode => phase (local_mode mode = false) False false).
Proof.
  eapply triple_conseq; [| |exact (triple_gets s_net_mode _ (calm_isolated false) (others_calm false))]; [done|].
  intros mode w [Hc ->]. split; [exact Hc|]. split; [|done]. intros Hm. destruct Hc as (Hn & Hd & Hi & Hl).
  split; [done|]. split; [done|]. intros H. rewrite (Hl H) in Hm. done.
Qed.

Lemma busy_in_sequence l : Forall (ops_all busy) l -> ops_all busy (in_sequence l).
Proof.
  induction 1 as [|p l Hp _ IH]; [done|]. apply ops_all_bind; [exact Hp|]. intros err. by destruct (is_ok err).
Qed.

Lemma free_enable_ap_discoverable : triple free argus_net_mgr_enable_ap_discoverable (fun _ => free).
Proof.
  unfold argus_net_mgr_enable_ap_discoverable. freely. case_match; [return_free|]. lock_net.
  apply (triple_bind _ _ _ _ _ triple_mode). intros mode. cbv beta.
  case_bool_decide; [eapply triple_conseq; [apply phase_calm| |apply triple_unlock_ret]; done|].
  case_bool_decide as Hm; cbn [negb]; [|eapply triple_conseq; [apply phase_calm| |apply triple_unlock_ret]; done].
  subst mode. apply (triple_conseq _ _ (working false) _ (fun _ => free)); [intros w (_ & Hw & _); exact (Hw eq_refl)|done|].
  apply (triple_bind _ _ _ (fun _ => working false)); [apply triple_busy; ops|]. intros [err|ap].
  - apply (triple_bind _ _ _ (fun _ => calm false)); [|intros []; apply triple_unlock_ret].
    eapply triple_conseq; [| |apply (triple_busy _ false); ops]; [done|]. intros ? w. apply working_calm.
  - apply (triple_bind _ _ _ (fun _ => working false)).
    { apply (triple_busy _ false), busy_in_sequence. repeat constructor. }
    intros err. apply (triple_bind _ _ _ (fun _ => calm false)).
    { eapply triple_conseq; [| |apply (triple_busy _ false); ops]; [done|]. intros ? w. apply working_calm. }
    intros []. apply (triple_bind _ _ _ (fun _ => free)); [exact triple_unlock_net|intros []].
    apply triple_unlocked. ops.
Qed.

Lemma free_snapshot : triple free argus_net_mgr_get_snapshot (fun _ => free).
Proof.
  unfold argus_net_mgr_get_snapshot. lock_net.
  apply (triple_bind _ _ _ (fun _ => calm false)); [exact (triple_quiet _ _ quiet_snapshot)|intros snap].
  apply triple_unlock_ret.
Qed.

Lemma free_evaluate_entry owner : triple free (argus_net_mgr_evaluate_service_entry owner) (fun _ => free).
Proof.
  unfold argus_net_mgr_evaluate_service_entry. lock_net.
  apply (triple_bind _ _ _ (fun _ => calm false)); [exact (triple_quiet _ _ (quiet_evaluate owner))|intros v].
  apply triple_unlock_ret.
Qed.

Lemma free_request_manual_reconnect : triple free argus_net_mgr_request_manual_reconnect (fun _ => free).
Proof.
  unfold argus_net_mgr_request_manual_reconnect. freely. case_match; [return_free|]. lock_net. calmly false.
  case_match; [apply triple_unlock_ret|]. do 2 calmly false.
  apply (triple_bind _ _ _ (fun _ => free)); [exact triple_unlock_net|intros []]. apply triple_unlocked. ops.
Qed.

Lemma free_request_factory_reset : triple free argus_net_mgr_request_factory_reset (fun _ => free).
Proof.
  unfold argus_net_mgr_request_factory_reset. freely. case_match; [return_free|].
  apply (triple_bind _ _ _ (fun _ => free)); [exact free_snapshot|intros snap]. apply triple_unlocked. ops.
Qed.

(** ** The calls other tasks and the event task make *)

Inductive manager_call :=
| TaskTurn (evt : argus_net_event_t)
| RequestService (owner : argus_authority_owner_t)
| RequestServiceExit (owner : argus_authority_owner_t)
| EvaluateServiceEntry (owner : argus_authority_owner_t)
| EnableApDiscoverable
| RequestManualReconnect
| RequestSecurityRecovery
| RequestActiveApSecretApply
| RequestRestart
| RequestFactoryReset
| GetSnapshot
| AutoRetryTimer
| IpTimeoutTimer.

Definition perform_call (c : manager_call) : net unit :=
  match c with
  | TaskTurn evt => net_mgr_task evt
  | RequestService owner => argus_net_mgr_request_service owner ;; mret tt
  | RequestServiceExit owner => argus_net_mgr_request_service_exit owner ;; mret tt
  | EvaluateServiceEntry owner => argus_net_mgr_evaluate_service_entry owner ;; mret tt
  | EnableApDiscoverable => argus_net_mgr_enable_ap_discoverable ;; mret tt
  | RequestManualReconnect => argus_net_mgr_request_manual_reconnect ;; mret tt
  | RequestSecurityRecovery => argus_net_mgr_request_security_recovery ;; mret tt
  | RequestActiveApSecretApply => argus_net_mgr_request_active_ap_secret_apply ;; mret tt
  | RequestRestart => argus_net_mgr_request_restart ;; mret tt
  | RequestFactoryReset => argus_net_mgr_request_factory_reset ;; mret tt
  | GetSnapshot => argus_net_mgr_get_snapshot ;; mret tt
  | AutoRetryTimer => auto_retry_timer_cb
  | IpTimeoutTimer => ip_timeout_timer_cb
  end.

Fixpoint perform_calls (calls : list manager_call) : net unit :=
  match calls with
  | [] => mret tt
  | c :: calls => perform_call c ;; perform_calls calls
  end.

Lemma free_call c : triple free (perform_call c) (fun _ => free).
Proof.
  destruct c; cbn [perform_call]; try (apply triple_discard; [apply free_isolated|]).
  - apply free_task.
  - apply free_request_internal.
  - apply free_request_exit.
  - apply free_evaluate_entry.
  - apply free_enable_ap_discoverable.
  - apply free_request_manual_reconnect.
  - apply triple_unlocked. unfold argus_net_mgr_request_security_recovery, post_when_initialized. ops.
  - apply triple_unlocked. unfold argus_net_mgr_request_active_ap_secret_apply, post_when_initialized. ops.
  - apply triple_unlocked. unfold argus_net_mgr_request_restart. ops.
  - apply free_request_factory_reset.
  - apply free_snapshot.
  - apply triple_unlocked. unfold auto_retry_timer_cb. ops.
  - apply triple_unlocked. unfold ip_timeout_timer_cb. ops.
Qed.

Lemma free_calls calls : triple free (perform_calls calls) (fun _ => free).
Proof.
  induction calls as [|c calls IH]; [return_free|].
  apply (triple_bind _ _ _ (fun _ => free)); [apply free_call|intros []; exact IH].
Qed.

(** The start-up, before other tasks exist: the mutex counts as held. *)
Lemma working_init : triple (working false) argus_net_mgr_init (fun _ => working false).
Proof.
  apply triple_busy. unfold argus_net_mgr_init, start_security_recovery, start_uncommissioned, start_commissioned,
    start_mode, start_broker_and_grant, revoke_authority. ops; apply busy_in_sequence; repeat constructor.
Qed.

(** ** The isolation of the local service *)

(** C1: While the local-service authority is held the machine is isolated: at every point
    of every execution of any calls of the module, with the other tasks acting between
    any two of its operations, a local authority means that the driver is in access-point
    mode, the station is down and the broker is stopped; and every call that returns has
    released both locks. *)
Theorem local_service_isolated calls w : free w ->
  (forall w', power_cut (perform_calls calls) w w' -> is_local w' -> isolated w') /\
  (forall w', returns (perform_calls calls) w tt w' -> free w').
Proof.
  intros Hw. pose proof (free_calls calls w Hw) as H. split.
  - intros w' Hc Hl. exact (proj1 (wpc_power_cut _ _ _ _ _ H Hc Hl)).
  - intros w' Hr. exact (wpc_returns _ _ _ _ _ _ H Hr).
Qed.

(** A unit without a configuration, its access point up and its machine at rest. *)
Definition demo_machine : argus_state_snapshot_t :=
  StateSnapshot ARGUS_STATE_HOLDING 0 0 0 0 0 true true true false false 0 0 false [].

Definition demo_world : net_world :=
  NetWorld
    ((net_initial true) <| s_initialized := true |> <| s_net_mode := ARGUS_NET_MODE_UNCOMMISSIONED_AP |>
       <| s_ap_started := true |>)
    None WIFI_MODE_AP demo_obs false false demo_machine (zero_config, false).

(** Local service is requested, taken, and left. *)
Definition demo_entry : list manager_call :=
  [EvaluateServiceEntry ARGUS_AUTH_OWNER_BROWSER; RequestService ARGUS_AUTH_OWNER_BROWSER; GetSnapshot].

Lemma demo_world_free : free demo_world.
Proof. by repeat split. Qed.

(** The request is granted. *)
Lemma demo_entry_local : is_local (run (perform_calls demo_entry) demo_world).2.
Proof. by vm_compute. Qed.

Definition demo_exit : list manager_call := demo_entry ++ [RequestServiceExit ARGUS_AUTH_OWNER_BROWSER].

Lemma unit_returns (p : net unit) w : returns p w tt (run p w).2.
Proof. pose proof (run_returns p w) as H. by destruct (run p w).1. Qed.

Lemma local_service_isolated_witness :
  isolated (run (perform_calls demo_entry) demo_world).2 /\ free (run (perform_calls demo_exit) demo_world).2.
Proof.
  split.
  - exact (proj1 (local_service_isolated demo_entry demo_world demo_world_free) _
             (run_power_cut (perform_calls demo_entry) demo_world) demo_entry_local).
  - exact (proj2 (local_service_isolated demo_exit demo_world demo_world_free) _
             (unit_returns (perform_calls demo_exit) demo_world)).
Defined.

(** ** A stored network name of the full length *)

(** The manager joins a network whose name has the greatest length the configuration
    admits under another name: the store, the console and the commissioning check accept
    names of 32 bytes, but the staged driver configuration keeps 31 of them, and the
    check before the connection, which would refuse 32, sees only those. *)
Theorem full_length_name_truncated cfg out w :
  nw_config w = (cfg, true) -> argus_nvs_config_is_commissioned cfg = true ->
  sta_pass cfg <> ARGUS_CONFIG_MASK_STRING -> length (sta_ssid cfg) = ARGUS_CFG_STA_SSID_MAX ->
  let r := (run (wifi_apply_load_config out) w).1 in
  r.1.1 = ESP_OK /\ r.2 = true /\ wifi_apply_validate_config r.1.2 r.2 = ESP_OK /\
  ws_ssid r.1.2 = take 31 (sta_ssid cfg) /\ ws_ssid r.1.2 <> sta_ssid cfg.
Proof.
  intros Hw Hc Hp Hl. unfold wifi_apply_load_config. cbn [run mbind prog_mbind prog_bind call perform net_storage net_perform fst snd].
  rewrite Hw. cbn [fst snd is_ok andb]. rewrite Hc, bool_decide_eq_false_2 by done. cbn [negb andb run mret prog_mret fst snd].
  assert (Hpass : (ARGUS_CFG_STA_PASS_MIN <= length (sta_pass cfg) <= ARGUS_CFG_STA_PASS_MAX)%nat).
  { unfold argus_nvs_config_is_commissioned, argus_nvs_config_validate in Hc. rewrite Hl in Hc.
    apply andb_true_iff in Hc as [Hc _]. apply andb_true_iff in Hc as [Hc _].
    change (ARGUS_CFG_STA_SSID_MAX <? ARGUS_CFG_STA_SSID_MAX)%nat with false in Hc.
    change (0 <? ARGUS_CFG_STA_SSID_MAX)%nat with true in Hc. cbn [andb] in Hc.
    destruct (negb (MqttDecode.argus_identity_validate_client_id _)); [done|].
    destruct (negb (MqttDecode.argus_identity_validate_unit_id _)); [done|].
    destruct (negb (MqttDecode.argus_identity_validate_device_name _)); [done|].
    destruct (Nat.ltb_spec (length (sta_pass cfg)) ARGUS_CFG_STA_PASS_MIN); [done|].
    destruct (Nat.ltb_spec ARGUS_CFG_STA_PASS_MAX (length (sta_pass cfg))); [done|]. lia. }
  assert (Hfit : strlcpy (sta_pass cfg) WIFI_PASSWORD_SIZE = sta_pass cfg).
  { apply strlcpy_fits. unfold ARGUS_CFG_STA_PASS_MAX, WIFI_PASSWORD_SIZE in *. lia. }
  assert (Hs : length (strlcpy (sta_ssid cfg) WIFI_SSID_SIZE) = 31%nat).
  { unfold strlcpy, WIFI_SSID_SIZE, ARGUS_CFG_STA_SSID_MAX in *. rewrite length_take. lia. }
  split; [done|]. split; [done|]. split; [|split; [done|]].
  - unfold wifi_apply_validate_config. cbn [negb ws_ssid ws_password]. rewrite Hfit, Hs. cbn [Nat.eqb orb].
    unfold WIFI_SSID_SIZE. cbn [Nat.leb orb]. rewrite bool_decide_eq_false_2 by done.
    destruct (Nat.ltb_spec (length (sta_pass cfg)) ARGUS_CFG_STA_PASS_MIN); [lia|].
    destruct (Nat.ltb_spec ARGUS_CFG_STA_PASS_MAX (length (sta_pass cfg))); [lia|]. done.
  - cbn [ws_ssid]. intros H. rewrite H, Hl in Hs. done.
Qed.

Definition long_name_config : argus_config_payload_t :=
  demo_config <| cf_sta_ssid := chars 33 (str "plant-hall-two-north-access-2.4G") |>.

Lemma full_length_name_truncated_witness :
  ws_ssid (run (wifi_apply_load_config zero_sta_config) (demo_world <| nw_config := (long_name_config, true) |>)).1.1.2
  <> sta_ssid long_name_config.
Proof.
  refine (proj2 (proj2 (proj2 (proj2 (full_length_name_truncated long_name_config zero_sta_config
    (demo_world <| nw_config := (long_name_config, true) |>) eq_refl _ _ _))))); by vm_compute.
Defined.
