(* ===== verification/AuthService.v ===== *)
(** * Login of human principals

    [src/main/argus_auth_service.c]: the canonical login names, the failure throttle with
    its peer, principal and global buckets, the bound on concurrent key derivations, the
    principal a directory record gives, and the login itself, whose two critical sections
    are each one step on the explicit state.  The password derivation, and what the store
    and the directory answer, are arguments. *)

From Stdlib Require Import Sorted.
From S2P Require Import Prelude Authorization SecurityRecords SecurityDirectory.

Definition ARGUS_LOGIN_NAME_MAX : nat := 32.
Definition ARGUS_LOGIN_BUCKET_CAPACITY : nat := 8.
Definition ARGUS_LOGIN_FAILURE_LIMIT : Z := 5.
Definition ARGUS_LOGIN_WINDOW_US : Z := 60000000.
Definition ARGUS_LOGIN_COOLDOWN_INITIAL_US : Z := 30000000.
Definition ARGUS_LOGIN_COOLDOWN_MAX_US : Z := 300000000.
Definition ARGUS_LOGIN_KDF_ADMISSION_MAX : Z := 2.

Inductive argus_login_result_t :=
| ARGUS_LOGIN_SUCCESS
| ARGUS_LOGIN_INVALID_CREDENTIALS
| ARGUS_LOGIN_THROTTLED
| ARGUS_LOGIN_BUSY
| ARGUS_LOGIN_STORE_UNAVAILABLE
| ARGUS_LOGIN_INVALID_REQUEST.
#[export] Instance login_result_eq_dec : EqDecision argus_login_result_t.
Proof. solve_decision. Defined.

(** The principal is [None] while the code leaves it zero. *)
Record argus_login_outcome_t := LoginOutcome {
  lo_result : argus_login_result_t;
  lo_principal : option argus_principal_t;
  lo_retry_after_s : Z;
  lo_kdf_invoked : bool
}.

(** ** State *)

Record throttle_bucket_t := ThrottleBucket {
  tb_occupied : bool;
  tb_key : Z;
  tb_failures : Z;
  tb_cooldown_level : Z;
  tb_window_started_us : Z;
  tb_cooldown_until_us : Z;
  tb_last_seen_us : Z
}.
#[export] Instance eta_throttle_bucket : Eta throttle_bucket_t := fun b =>
  ThrottleBucket (tb_occupied b) (tb_key b) (tb_failures b) (tb_cooldown_level b) (tb_window_started_us b)
    (tb_cooldown_until_us b) (tb_last_seen_us b).

Definition zero_throttle : throttle_bucket_t := ThrottleBucket false 0 0 0 0 0 0.

(** [s_inflight_peers] and [s_inflight_principals] are one list of pairs; [as_ready] is
    [s_mutex != NULL]. *)
Record auth_service := AuthService {
  as_peer_buckets : list throttle_bucket_t;
  as_principal_buckets : list throttle_bucket_t;
  as_global_bucket : throttle_bucket_t;
  as_ready : bool;
  as_kdf_admitted : Z;
  as_kdf_invocations : Z;
  as_inflight : list (Z * Z)
}.
#[export] Instance eta_auth_service : Eta auth_service := fun s =>
  AuthService (as_peer_buckets s) (as_principal_buckets s) (as_global_bucket s) (as_ready s) (as_kdf_admitted s)
    (as_kdf_invocations s) (as_inflight s).

Definition auth_service_boot : auth_service :=
  AuthService (replicate ARGUS_LOGIN_BUCKET_CAPACITY zero_throttle)
    (replicate ARGUS_LOGIN_BUCKET_CAPACITY zero_throttle) (ThrottleBucket true 1 0 0 0 0 0) false 0 0
    (replicate (Z.to_nat ARGUS_LOGIN_KDF_ADMISSION_MAX) (0, 0)).

Definition SYNTHETIC_VERIFIER : argus_password_verifier_t :=
  PasswordVerifier ARGUS_PASSWORD_FORMAT_VERSION ARGUS_PASSWORD_ALGORITHM_PBKDF2_HMAC_SHA256
    ARGUS_PASSWORD_SALT_SIZE ARGUS_PASSWORD_VERIFIER_SIZE ARGUS_PASSWORD_ITERATIONS_DEFAULT
    [0x61; 0x72; 0x67; 0x75; 0x73; 0x2d; 0x34; 0x64; 0x33; 0x2d; 0x66; 0x61; 0x6b; 0x65; 0x21; 0x21]
    [0xb3; 0xd6; 0xe7; 0x62; 0x80; 0xa7; 0x7e; 0x96; 0x4c; 0x34; 0x78; 0x08; 0x31; 0x4e; 0x6e; 0x79;
     0x08; 0x0c; 0x18; 0xfc; 0x22; 0x8d; 0x78; 0xe2; 0x21; 0xd8; 0xf9; 0x4d; 0x08; 0xad; 0xea; 0x06].

(** ** Concurrent derivations *)

Definition duplicate_inflight_locked (inflight : list (Z * Z)) (peer_key principal_key : Z) : bool :=
  existsb (fun s => (s.1 =? peer_key) || (s.2 =? principal_key)) inflight.

(** The first free pair, or [None]. *)
Fixpoint reserve_inflight_locked (inflight : list (Z * Z)) (peer_key principal_key : Z) : option (list (Z * Z)) :=
  match inflight with
  | [] => None
  | s :: rest =>
      if (s.1 =? 0) && (s.2 =? 0) then Some ((peer_key, principal_key) :: rest)
      else rest ← reserve_inflight_locked rest peer_key principal_key; Some (s :: rest)
  end.

Fixpoint release_inflight_locked (inflight : list (Z * Z)) (peer_key principal_key : Z) : list (Z * Z) :=
  match inflight with
  | [] => []
  | s :: rest =>
      if (s.1 =? peer_key) && (s.2 =? principal_key) then (0, 0) :: rest
      else s :: release_inflight_locked rest peer_key principal_key
  end.

(** ** Names and passwords *)

(** The canonical name, or [None] where the code returns false. *)
Definition argus_auth_canonicalize_login (input : option bytes) : option bytes :=
  match input with
  | None => None
  | Some input =>
      if (length input =? 0)%nat || (ARGUS_LOGIN_NAME_MAX <? length input)%nat
         || (default 0 (head input) =? 32) || (default 0 (last input) =? 32) then None
      else if forallb (fun c => negb ((c <? 33) || (126 <? c))) input then Some (map tolower input)
      else None
  end.

Definition argus_auth_new_password_valid (password : option bytes) : bool :=
  match password with
  | None => false
  | Some p =>
      negb ((length p <? 12)%nat || (ARGUS_PASSWORD_INPUT_MAX <? length p)%nat)
      && forallb (fun c => negb ((c <? 32) || (126 <? c))) p
  end.

Definition hash_login (login : bytes) : Z :=
  let hash := foldl (fun hash c => u32 (Z.lxor hash c * 16777619)) 2166136261 login in
  if hash =? 0 then 1 else hash.

(** ** The throttle *)

(** The scan of [bucket_for] from index [i] on: the bucket of the key, or else the first
    free one, or else the one seen least recently. *)
Fixpoint throttle_scan (key : Z) (i : nat) (free : option nat) (oldest : nat) (oldest_seen : Z)
    (l : list throttle_bucket_t) : nat * bool :=
  match l with
  | [] => (default oldest free, false)
  | b :: l =>
      if tb_occupied b && (tb_key b =? key) then (i, true)
      else
        let free := if negb (tb_occupied b) && match free with None => true | _ => false end then Some i else free in
        if tb_last_seen_us b <? oldest_seen then throttle_scan key (S i) free i (tb_last_seen_us b) l
        else throttle_scan key (S i) free oldest oldest_seen l
  end.

(** The index, and the table with the bucket's entry. *)
Definition throttle_bucket_for (buckets : list throttle_bucket_t) (key now_us : Z) : nat * list throttle_bucket_t :=
  let '(i, found) := throttle_scan key 0 None 0 (tb_last_seen_us (default zero_throttle (head buckets))) buckets in
  if found then (i, alter (fun b => b <| tb_last_seen_us := now_us |>) i buckets)
  else (i, <[i := ThrottleBucket true key 0 0 0 0 now_us]> buckets).

Definition cooldown_remaining (bucket : throttle_bucket_t) (now_us : Z) : Z :=
  if tb_cooldown_until_us bucket <=? now_us then 0 else u64 (tb_cooldown_until_us bucket - now_us).

(** The seconds to wait, rounded up; 0 admits. *)
Definition preflight_locked (s : auth_service) (peer_key principal_key now_us : Z) : Z * auth_service :=
  let '(i, peers) := throttle_bucket_for (as_peer_buckets s) peer_key now_us in
  let '(j, principals) := throttle_bucket_for (as_principal_buckets s) principal_key now_us in
  let remaining := cooldown_remaining (default zero_throttle (peers !! i)) now_us in
  let principal_remaining := cooldown_remaining (default zero_throttle (principals !! j)) now_us in
  let remaining := if remaining <? principal_remaining then principal_remaining else remaining in
  let global_remaining := cooldown_remaining (as_global_bucket s) now_us in
  let remaining := if remaining <? global_remaining then global_remaining else remaining in
  (if remaining =? 0 then 0 else u32 (u64 (remaining + 999999) / 1000000),
   s <| as_peer_buckets := peers |> <| as_principal_buckets := principals |>).

Fixpoint cooldown_doubled (level : nat) (duration : Z) : Z :=
  match level with
  | O => duration
  | S level =>
      if ARGUS_LOGIN_COOLDOWN_MAX_US / 2 <=? duration then ARGUS_LOGIN_COOLDOWN_MAX_US
      else cooldown_doubled level (u64 (duration * 2))
  end.

Definition cooldown_duration (level : Z) : Z :=
  let duration := cooldown_doubled (Z.to_nat level) ARGUS_LOGIN_COOLDOWN_INITIAL_US in
  if ARGUS_LOGIN_COOLDOWN_MAX_US <? duration then ARGUS_LOGIN_COOLDOWN_MAX_US else duration.

Definition record_failure_bucket (bucket : throttle_bucket_t) (now_us : Z) : throttle_bucket_t :=
  if (tb_window_started_us bucket =? 0)
     || (ARGUS_LOGIN_WINDOW_US <? u64 (now_us - tb_window_started_us bucket))
  then bucket <| tb_window_started_us := now_us |> <| tb_failures := 1 |>
  else
    let bucket := bucket <| tb_failures ::= fun f => u32 (f + 1) |> in
    if tb_failures bucket <? ARGUS_LOGIN_FAILURE_LIMIT then bucket
    else bucket <| tb_cooldown_until_us := u64 (now_us + cooldown_duration (tb_cooldown_level bucket)) |>
                <| tb_cooldown_level ::= fun l => if l <? 4 then l + 1 else l |>
                <| tb_failures := 0 |> <| tb_window_started_us := now_us |>.

Definition clear_failures (b : throttle_bucket_t) : throttle_bucket_t :=
  b <| tb_failures := 0 |> <| tb_window_started_us := 0 |>.

Definition record_result_locked (s : auth_service) (peer_key principal_key now_us : Z) (success : bool) : auth_service :=
  let '(i, peers) := throttle_bucket_for (as_peer_buckets s) peer_key now_us in
  let '(j, principals) := throttle_bucket_for (as_principal_buckets s) principal_key now_us in
  let update := if success then clear_failures else fun b => record_failure_bucket b now_us in
  s <| as_peer_buckets := alter update i peers |> <| as_principal_buckets := alter update j principals |>
    <| as_global_bucket ::= fun b => if success then b else record_failure_bucket b now_us |>.

(** ** The principal of a directory record *)

(** What one role adds to the permissions and the delegable ones; [None] is a refusal. *)
Definition role_grant (directory : argus_security_directory_payload_t) (bit : Z) : option (Z * Z) :=
  if bit <? ARGUS_SECURITY_BUILTIN_ROLE_COUNT then
    Some (argus_authorization_level_permissions bit, argus_authorization_level_delegable bit)
  else
    let index := bit - ARGUS_SECURITY_BUILTIN_ROLE_COUNT in
    if dp_custom_role_count directory <=? index then None
    else let r := role_at directory (Z.to_nat index) in Some (ro_permissions r, ro_delegable_permissions r).

Fixpoint add_roles (directory : argus_security_directory_payload_t) (role_mask : Z) (bits : list Z)
    (permissions delegable : Z) : option (Z * Z) :=
  match bits with
  | [] => Some (permissions, delegable)
  | bit :: bits =>
      if Z.testbit role_mask bit then
        '(p, d) ← role_grant directory bit;
        add_roles directory role_mask bits (Z.lor permissions p) (Z.lor delegable d)
      else add_roles directory role_mask bits permissions delegable
  end.

Definition role_bits : list Z := seqZ 0 ARGUS_SECURITY_MAX_ROLES.

(** Whether it is usable, and what is written to [*out]. *)
Definition build_human_principal (human : argus_security_human_record_t)
    (directory : argus_security_directory_payload_t) (security_epoch : Z) : bool * option argus_principal_t :=
  if negb (argus_security_human_record_valid human) || (hu_enabled human =? 0) || negb (hu_revoked human =? 0)
  then (false, None)
  else
    match add_roles directory (hu_role_mask human) role_bits (hu_direct_permissions human) 0 with
    | None => (false, None)
    | Some (permissions, delegable) =>
    let permissions := Z.land permissions ARGUS_PERMISSION_DEFINED_MASK in
    let delegable := Z.land (Z.land delegable permissions) (Z.lnot ARGUS_PERMISSION_MANAGE_CLIENT_ADMINS) in
    let p := Principal ARGUS_PRINCIPAL_HUMAN (strlcpy (hu_identifier human) 37) (strlcpy (hu_scope human) 37)
               (hu_level human) permissions delegable (hu_credential_version human) security_epoch
               (hu_record_security_epoch human) (negb (hu_protected_identity human =? 0)) in
    (argus_authorization_principal_valid (Some p), Some p)
    end.

(** ** Login *)

Definition argus_auth_service_init (s : auth_service) : esp_err_t * auth_service :=
  if as_ready s then (ESP_OK, s)
  else if negb (argus_password_verifier_record_valid SYNTHETIC_VERIFIER) then (ESP_ERR_INVALID_STATE, s)
  else (ESP_OK, s <| as_ready := true |>).

Definition plain_outcome (result : argus_login_result_t) : argus_login_outcome_t := LoginOutcome result None 0 false.

(** The checks before any state is touched: the canonical name. *)
Definition login_precheck (s : auth_service) (peer_key : Z) (username password : option bytes) : option bytes :=
  if negb (as_ready s) || (peer_key =? 0) then None
  else
    canonical ← argus_auth_canonicalize_login username;
    match password with
    | None => None
    | Some p => if (length p =? 0)%nat || (ARGUS_PASSWORD_INPUT_MAX <? length p)%nat then None else Some canonical
    end.

(** The first critical section: [inl] is the outcome of a refusal. *)
Definition login_admit (s : auth_service) (peer_key principal_key now_us : Z)
    : (argus_login_outcome_t + unit) * auth_service :=
  let '(retry_after_s, s) := preflight_locked s peer_key principal_key now_us in
  if negb (retry_after_s =? 0) then (inl (LoginOutcome ARGUS_LOGIN_THROTTLED None retry_after_s false), s)
  else if (ARGUS_LOGIN_KDF_ADMISSION_MAX <=? as_kdf_admitted s)
          || duplicate_inflight_locked (as_inflight s) peer_key principal_key
  then (inl (plain_outcome ARGUS_LOGIN_BUSY), s)
  else match reserve_inflight_locked (as_inflight s) peer_key principal_key with
       | None => (inl (plain_outcome ARGUS_LOGIN_BUSY), s)
       | Some inflight => (inr (), s <| as_inflight := inflight |> <| as_kdf_admitted ::= fun n => u8 (n + 1) |>)
       end.

(** What the store and the directory answer; an error, or a failed allocation, is [inl]
    or [None]. *)
Record login_sources := LoginSources {
  ls_console : esp_err_t + argus_password_verifier_t * Z;   (* [..._get_console_verifier] *)
  ls_security_epoch : esp_err_t + Z;                        (* [..._get_status] *)
  ls_directory : option argus_security_directory_payload_t  (* [..._get_snapshot] *)
}.

Definition CONSOLE_LOGIN : bytes := str "argus".

Definition find_human (directory : argus_security_directory_payload_t) (canonical : bytes)
    : option argus_security_human_record_t :=
  find (fun h => argus_security_human_record_valid h && bool_decide (hu_login h = canonical))
    (map (human_at directory) (seq 0 (Z.to_nat ARGUS_SECURITY_MAX_HUMANS))).

(** The verifier to derive against, whether the store could be read, whether the login may
    be used, and its human record. *)
Definition login_lookup (sources : login_sources) (canonical : bytes)
    : argus_password_verifier_t * bool * bool * option argus_security_human_record_t :=
  let has_status := match ls_security_epoch sources with inl _ => false | inr _ => true end in
  if bool_decide (canonical = CONSOLE_LOGIN) then
    match ls_console sources with
    | inl _ => (SYNTHETIC_VERIFIER, false, false, None)
    | inr (verifier, _) => (verifier, has_status, has_status, None)
    end
  else
    match ls_directory sources with
    | None => (SYNTHETIC_VERIFIER, false, false, None)
    | Some directory =>
        if negb has_status then (SYNTHETIC_VERIFIER, false, false, None)
        else
          match find_human directory canonical with
          | None => (SYNTHETIC_VERIFIER, true, false, None)
          | Some h => (hu_verifier h, true, negb (hu_enabled h =? 0) && (hu_revoked h =? 0), Some h)
          end
    end.

Definition console_principal (console_version security_epoch : Z) : argus_principal_t :=
  Principal ARGUS_PRINCIPAL_CONSOLE (str "argus_console") (str "*") ARGUS_SECURITY_LEVEL_ARGUS_PERSONNEL
    ARGUS_PERMISSION_DEFINED_MASK (argus_authorization_level_delegable ARGUS_SECURITY_LEVEL_ARGUS_PERSONNEL)
    console_version security_epoch security_epoch true.

(** Success, and what is written to the outcome's principal. *)
Definition login_principal (sources : login_sources) (canonical : bytes) (human : option argus_security_human_record_t)
    (matched : bool) : bool * option argus_principal_t :=
  let security_epoch := match ls_security_epoch sources with inl _ => 0 | inr e => e end in
  if negb matched then (false, None)
  else if bool_decide (canonical = CONSOLE_LOGIN) then
    (true, Some (console_principal (match ls_console sources with inl _ => 0 | inr (_, v) => v end) security_epoch))
  else match human, ls_directory sources with
       | Some h, Some directory => build_human_principal h directory security_epoch
       | _, _ => (false, None)
       end.

(** Between the critical sections: the outcome, the error of the derivation with that of
    the store, and whether the login succeeded. *)
Definition login_decide (sources : login_sources) (verify : argus_password_verifier_t -> esp_err_t * bool)
    (canonical : bytes) : argus_login_outcome_t * esp_err_t * bool :=
  let '(verifier, store_available, usable, human) := login_lookup sources canonical in
  let '(verify_err, matches) := verify verifier in
  let kdf_invoked := negb (bool_decide (verify_err = ESP_ERR_TIMEOUT)) && negb (bool_decide (verify_err = ESP_ERR_INVALID_STATE)) in
  let verify_err := if is_ok verify_err && negb store_available then ESP_ERR_INVALID_STATE else verify_err in
  let '(success, principal) := login_principal sources canonical human (is_ok verify_err && matches && usable) in
  let result :=
    if (success : bool) then ARGUS_LOGIN_SUCCESS
    else if bool_decide (verify_err = ESP_ERR_TIMEOUT) then ARGUS_LOGIN_BUSY
    else if is_ok verify_err then ARGUS_LOGIN_INVALID_CREDENTIALS else ARGUS_LOGIN_STORE_UNAVAILABLE in
  (LoginOutcome result principal 0 kdf_invoked, verify_err, success).

(** The last critical section. *)
Definition login_finish (s : auth_service) (peer_key principal_key now_us : Z) (kdf_invoked : bool)
    (verify_err : esp_err_t) (success : bool) : auth_service :=
  let s := s <| as_kdf_admitted ::= fun n => u8 (n - 1) |>
             <| as_inflight := release_inflight_locked (as_inflight s) peer_key principal_key |>
             <| as_kdf_invocations ::= fun n => if kdf_invoked then u32 (n + 1) else n |> in
  if is_ok verify_err then record_result_locked s peer_key principal_key now_us success else s.

(** [meanwhile] is what other tasks do while the derivation runs. *)
Definition argus_auth_service_authenticate (sources : login_sources)
    (verify : bytes -> argus_password_verifier_t -> esp_err_t * bool) (meanwhile : auth_service -> auth_service)
    (s : auth_service) (peer_key : Z) (username password : option bytes) (now_us : Z)
    : argus_login_outcome_t * auth_service :=
  match login_precheck s peer_key username password with
  | None => (plain_outcome ARGUS_LOGIN_INVALID_REQUEST, s)
  | Some canonical =>
      let principal_key := hash_login canonical in
      let '(admission, s) := login_admit s peer_key principal_key now_us in
      match admission with
      | inl outcome => (outcome, s)
      | inr _ =>
          let '(outcome, verify_err, success) := login_decide sources (verify (default [] password)) canonical in
          (outcome, login_finish (meanwhile s) peer_key principal_key now_us (lo_kdf_invoked outcome) verify_err success)
      end
  end.

Definition argus_auth_service_kdf_admitted (s : auth_service) : Z := if as_ready s then as_kdf_admitted s else 0.
Definition argus_auth_service_kdf_invocations (s : auth_service) : Z := if as_ready s then as_kdf_invocations s else 0.

(** A new verifier takes a derivation too: its two critical sections, and the whole. *)
Definition create_admit (s : auth_service) : esp_err_t * auth_service :=
  if ARGUS_LOGIN_KDF_ADMISSION_MAX <=? as_kdf_admitted s then (ESP_ERR_NO_MEM, s)
  else (ESP_OK, s <| as_kdf_admitted ::= fun n => u8 (n + 1) |>).

Definition create_finish (s : auth_service) (err : esp_err_t) : auth_service :=
  let invoked := negb (bool_decide (err = ESP_ERR_TIMEOUT)) && negb (bool_decide (err = ESP_ERR_INVALID_STATE)) in
  s <| as_kdf_admitted ::= fun n => u8 (n - 1) |>
    <| as_kdf_invocations ::= fun n => if invoked then u32 (n + 1) else n |>.

Definition argus_auth_service_create_verifier (create : bytes -> esp_err_t * argus_password_verifier_t)
    (meanwhile : auth_service -> auth_service) (s : auth_service) (password : option bytes)
    : esp_err_t * option argus_password_verifier_t * auth_service :=
  if negb (as_ready s) || negb (argus_auth_new_password_valid password) then (ESP_ERR_INVALID_ARG, None, s)
  else
    let '(admission, s) := create_admit s in
    if negb (is_ok admission) then (admission, None, s)
    else
      let '(err, verifier) := create (default [] password) in
      (err, Some verifier, create_finish (meanwhile s) err).

(** ** What a successful login means *)

Lemma find_human_spec directory canonical h :
  find_human directory canonical = Some h ->
  argus_security_human_record_valid h = true /\ hu_login h = canonical /\
  exists i, (i < 16)%nat /\ h = human_at directory i.
Proof.
  unfold find_human. intros H. apply find_some in H as [Hin Hp]. apply andb_true_iff in Hp as [Hv Hl]. b2p.
  split; [done|]. split; [done|]. apply in_map_iff in Hin as (i & <- & Hi). apply in_seq in Hi.
  exists i. split; [|done]. unfold ARGUS_SECURITY_MAX_HUMANS in Hi. lia.
Qed.

(** The role of bit [bit] of a role mask is there: built in, or in the directory. *)
Definition role_exists (directory : argus_security_directory_payload_t) (bit : Z) : Prop :=
  bit < ARGUS_SECURITY_BUILTIN_ROLE_COUNT \/ bit < ARGUS_SECURITY_BUILTIN_ROLE_COUNT + dp_custom_role_count directory.

(** The bits a role grants, and those it lets its holder delegate. *)
Definition role_permissions (directory : argus_security_directory_payload_t) (bit : Z) : Z :=
  if bit <? ARGUS_SECURITY_BUILTIN_ROLE_COUNT then argus_authorization_level_permissions bit
  else ro_permissions (role_at directory (Z.to_nat (bit - ARGUS_SECURITY_BUILTIN_ROLE_COUNT))).
Definition role_delegable (directory : argus_security_directory_payload_t) (bit : Z) : Z :=
  if bit <? ARGUS_SECURITY_BUILTIN_ROLE_COUNT then argus_authorization_level_delegable bit
  else ro_delegable_permissions (role_at directory (Z.to_nat (bit - ARGUS_SECURITY_BUILTIN_ROLE_COUNT))).

(** One of the roles of the mask grants the bit [x]. *)
Definition role_gives (grant : Z -> Z) (mask x : Z) : Prop :=
  exists bit, 0 <= bit < ARGUS_SECURITY_MAX_ROLES /\ Z.testbit mask bit = true /\ Z.testbit (grant bit) x = true.

(** The principal of a login is that of the account: a valid, enabled record that was not
    revoked, whose roles all exist.  The principal has its name, scope, level and versions; a
    permission exactly when it is defined and granted to the account directly or by one of
    its roles; and it may delegate exactly the permissions it has and one of its roles lets
    it delegate, other than to manage client administrators. *)
Record principal_of (directory : argus_security_directory_payload_t) (human : argus_security_human_record_t) (epoch : Z)
    (p : argus_principal_t) : Prop := {
  po_valid : argus_security_human_record_valid human = true;
  po_enabled : hu_enabled human <> 0;
  po_not_revoked : hu_revoked human = 0;
  po_type : pr_type p = ARGUS_PRINCIPAL_HUMAN;
  po_identifier : pr_identifier p = strlcpy (hu_identifier human) 37;
  po_scope : pr_scope p = strlcpy (hu_scope human) 37;
  po_level : pr_level p = hu_level human;
  po_credential_version : pr_credential_version p = hu_credential_version human;
  po_security_epoch : pr_security_epoch p = epoch;
  po_revision : pr_principal_revision p = hu_record_security_epoch human;
  po_protected : pr_protected_identity p = negb (hu_protected_identity human =? 0);
  po_roles : forall bit, 0 <= bit < ARGUS_SECURITY_MAX_ROLES -> Z.testbit (hu_role_mask human) bit = true -> role_exists directory bit;
  po_permissions : forall x, Z.testbit (pr_permissions p) x = true <->
    Z.testbit ARGUS_PERMISSION_DEFINED_MASK x = true /\
    (Z.testbit (hu_direct_permissions human) x = true \/ role_gives (role_permissions directory) (hu_role_mask human) x);
  po_delegable : forall x, Z.testbit (pr_delegable_permissions p) x = true <->
    Z.testbit (pr_permissions p) x = true /\ Z.testbit ARGUS_PERMISSION_MANAGE_CLIENT_ADMINS x = false /\
    role_gives (role_delegable directory) (hu_role_mask human) x;
  po_authorized : argus_authorization_principal_valid (Some p) = true
}.

Lemma role_grant_spec directory bit g : role_grant directory bit = Some g ->
  role_exists directory bit /\ g = (role_permissions directory bit, role_delegable directory bit).
Proof.
  unfold role_grant, role_exists, role_permissions, role_delegable.
  destruct (Z.ltb_spec bit ARGUS_SECURITY_BUILTIN_ROLE_COUNT) as [Hb|Hb].
  - intros [= <-]. split; [by left|done].
  - cbv zeta. destruct (Z.leb_spec (dp_custom_role_count directory) (bit - ARGUS_SECURITY_BUILTIN_ROLE_COUNT)); [done|].
    intros [= <-]. split; [right; lia|done].
Qed.

Lemma role_cons (grant : Z -> Z) mask b bits x :
  (exists bit, bit ∈ b :: bits /\ Z.testbit mask bit = true /\ Z.testbit (grant bit) x = true) <->
  (Z.testbit mask b = true /\ Z.testbit (grant b) x = true) \/
  exists bit, bit ∈ bits /\ Z.testbit mask bit = true /\ Z.testbit (grant bit) x = true.
Proof.
  split.
  - intros (bit & [->|Hin]%elem_of_cons & H); [by left|right; by exists bit].
  - intros [H|(bit & Hin & H)]; [exists b|exists bit]; (split; [|done]); apply elem_of_cons; auto.
Qed.

Lemma add_roles_spec directory mask bits : forall P D P' D', add_roles directory mask bits P D = Some (P', D') ->
  (forall bit, bit ∈ bits -> Z.testbit mask bit = true -> role_exists directory bit) /\
  (forall x, Z.testbit P' x = true <-> Z.testbit P x = true \/
     exists bit, bit ∈ bits /\ Z.testbit mask bit = true /\ Z.testbit (role_permissions directory bit) x = true) /\
  (forall x, Z.testbit D' x = true <-> Z.testbit D x = true \/
     exists bit, bit ∈ bits /\ Z.testbit mask bit = true /\ Z.testbit (role_delegable directory bit) x = true).
Proof.
  induction bits as [|b bits IH]; intros P D P' D'; cbn [add_roles].
  - intros [= <- <-]. split; [by intros bit H%elem_of_nil|]. split; intros x; (split; [by left|]); intros [?|(bit & H%elem_of_nil & _)]; done.
  - destruct (Z.testbit mask b) eqn:Hb.
    + destruct (role_grant directory b) as [[p d]|] eqn:Hg; [|done]. cbn [mbind option_bind].
      apply role_grant_spec in Hg as [Hex [= -> ->]]. intros H. apply IH in H as (H1 & H2 & H3). split.
      { intros bit [->|Hin]%elem_of_cons Hm; [done|by apply H1]. }
      split; intros x; [rewrite H2|rewrite H3]; rewrite role_cons, Hb, Z.lor_spec, orb_true_iff; tauto.
    + intros H. apply IH in H as (H1 & H2 & H3). split.
      { intros bit [->|Hin]%elem_of_cons Hm; [congruence|by apply H1]. }
      split; intros x; [rewrite H2|rewrite H3]; rewrite role_cons, Hb; intuition discriminate.
Qed.

Lemma build_principal_spec human directory epoch p :
  build_human_principal human directory epoch = (true, Some p) -> principal_of directory human epoch p.
Proof.
  unfold build_human_principal.
  destruct (argus_security_human_record_valid human) eqn:Hvalid; cbn [negb orb]; [|done].
  destruct (Z.eqb_spec (hu_enabled human) 0); cbn [orb]; [done|].
  destruct (Z.eqb_spec (hu_revoked human) 0); cbn [negb]; [|done].
  destruct (add_roles _ _ _ _ _) as [[P D]|] eqn:Hr; [|done]. cbv zeta.
  apply add_roles_spec in Hr as (Hroles & HP & HD). intros [= Hv <-].
  assert (Hin : forall bit, bit ∈ role_bits <-> 0 <= bit < ARGUS_SECURITY_MAX_ROLES)
    by (intros bit; unfold role_bits; rewrite elem_of_seqZ; unfold ARGUS_SECURITY_MAX_ROLES; lia).
  split; cbn [pr_type pr_identifier pr_scope pr_level pr_credential_version pr_security_epoch pr_principal_revision pr_permissions
    pr_delegable_permissions]; try done.
  - intros bit Hb. by apply Hroles, Hin.
  - intros x. rewrite Z.land_spec, andb_true_iff, HP. unfold role_gives. setoid_rewrite Hin. tauto.
  - intros x. rewrite !Z.land_spec, !andb_true_iff, HD, Z.bits_0. unfold role_gives. setoid_rewrite Hin.
    destruct (Z.ltb_spec x 0) as [Hx|Hx]; [rewrite !(Z.testbit_neg_r _ x Hx); split; intros H; destruct_and! H; done|].
    rewrite Z.lnot_spec, negb_true_iff by done. split; [intros [[[?|?] ?] ?]; [done|tauto]|tauto].
Qed.

(** The account that was proven: the console's, or that of an enabled human. *)
Definition proven_account (sources : login_sources) (canonical : bytes) (verifier : argus_password_verifier_t)
    (p : argus_principal_t) : Prop :=
  (canonical = CONSOLE_LOGIN /\ exists version epoch, ls_console sources = inr (verifier, version) /\
     ls_security_epoch sources = inr epoch /\ p = console_principal version epoch) \/
  (canonical <> CONSOLE_LOGIN /\ exists directory h i, ls_directory sources = Some directory /\
     (i < 16)%nat /\ h = human_at directory i /\ hu_login h = canonical /\ verifier = hu_verifier h /\
     exists epoch, ls_security_epoch sources = inr epoch /\ principal_of directory h epoch p).

Lemma precheck_canonical s peer_key username password canonical :
  login_precheck s peer_key username password = Some canonical -> argus_auth_canonicalize_login username = Some canonical.
Proof.
  unfold login_precheck. destruct (_ || _); [done|]. destruct (argus_auth_canonicalize_login username) as [c|]; [|done].
  cbn [mbind option_bind]. destruct password; [|done]. by destruct (_ || _).
Qed.

Lemma login_decide_success sources verify canonical outcome err success :
  login_decide sources verify canonical = (outcome, err, success) -> lo_result outcome = ARGUS_LOGIN_SUCCESS ->
  exists verifier human, login_lookup sources canonical = (verifier, true, true, human) /\
    verify verifier = (ESP_OK, true) /\ login_principal sources canonical human true = (true, lo_principal outcome).
Proof.
  unfold login_decide. destruct (login_lookup sources canonical) as [[[verifier available] usable] human].
  destruct (verify verifier) as [e matches] eqn:Hv. cbv zeta.
  set (e' := if is_ok e && negb available then _ else _).
  destruct (login_principal sources canonical human (is_ok e' && matches && usable)) as [ok p] eqn:Hp.
  intros [= <- <- <-]. cbn [lo_result lo_principal]. destruct ok; [intros _|by repeat case_match].
  assert (Hm : is_ok e' && matches && usable = true).
  { destruct (is_ok e' && matches && usable); [done|]. cbn [login_principal negb] in Hp. by unfold login_principal in Hp. }
  rewrite Hm in Hp. apply andb_true_iff in Hm as [Hm ->]. apply andb_true_iff in Hm as [He ->].
  exists verifier, human. unfold e' in He. destruct (is_ok e) eqn:Ho; [|cbn [andb] in He; congruence].
  apply is_ok_true in Ho as ->. destruct available; [|done]. done.
Qed.

Lemma login_decide_sound sources verify canonical outcome err success :
  login_decide sources verify canonical = (outcome, err, success) -> lo_result outcome = ARGUS_LOGIN_SUCCESS ->
  exists verifier p, verify verifier = (ESP_OK, true) /\ lo_principal outcome = Some p /\
    proven_account sources canonical verifier p.
Proof.
  intros Hd Hr. destruct (login_decide_success _ _ _ _ _ _ Hd Hr) as (verifier & human & Hl & Hv & Hp).
  exists verifier. unfold login_lookup, login_principal in *. cbn [negb] in Hp. unfold proven_account.
  case_bool_decide as Hc.
  - destruct (ls_console sources) as [e|[v version]]; [done|]. injection Hl as -> Hs _ _.
    destruct (ls_security_epoch sources) as [e|epoch]; [done|]. injection Hp as Hp.
    eexists. split; [done|]. split; [by rewrite <- Hp|]. left. split; [done|]. by exists version, epoch.
  - destruct (ls_directory sources) as [directory|]; [|done].
    destruct (ls_security_epoch sources) as [e|epoch]; [done|]. cbn [negb] in Hl.
    destruct (find_human directory canonical) as [h|] eqn:Hf; [|done]. injection Hl as <- _ <-.
    apply find_human_spec in Hf as (_ & Hlogin & i & Hi & ->).
    destruct (lo_principal outcome) as [p|] eqn:Hlo.
    + apply build_principal_spec in Hp. exists p. split; [done|]. split; [done|]. right. split; [done|].
      exists directory, (human_at directory i), i. do 5 (split; [done|]). by exists epoch.
    + unfold build_human_principal in Hp. repeat case_match; done.
Qed.

(** C33: A successful login proves the account it names: the password derivation was run
    against the stored verifier of exactly that account and matched; and the account is the
    console's provisioned one, which gets the console's principal, or a valid, enabled and
    unrevoked human record of the directory under that login name, all of whose roles exist.
    The principal of a human is that record's: its name, scope, level and versions, the store's
    security epoch, and exactly the defined permissions that the record has directly or by one
    of its roles; it may delegate exactly those of them that one of its roles lets it
    delegate, and never to manage client administrators. *)
Theorem login_sound sources verify meanwhile s peer_key username password now_us outcome s' :
  argus_auth_service_authenticate sources verify meanwhile s peer_key username password now_us = (outcome, s') ->
  lo_result outcome = ARGUS_LOGIN_SUCCESS ->
  exists canonical verifier p, argus_auth_canonicalize_login username = Some canonical /\
    verify (default [] password) verifier = (ESP_OK, true) /\ lo_principal outcome = Some p /\
    proven_account sources canonical verifier p.
Proof.
  unfold argus_auth_service_authenticate. destruct (login_precheck s peer_key username password) as [canonical|] eqn:Hc;
    [|by intros [= <- <-]].
  pose proof (precheck_canonical _ _ _ _ _ Hc) as Hcan.
  destruct (login_admit s peer_key (hash_login canonical) now_us) as [[refused|[]] s1] eqn:Ha.
  - intros [= <- <-] Hr. exfalso. revert Ha Hr. unfold login_admit.
    destruct (preflight_locked s peer_key (hash_login canonical) now_us) as [retry s2].
    destruct (negb (retry =? 0)); [by intros [= <- _]|]. destruct (_ || _); [by intros [= <- _]|].
    destruct (reserve_inflight_locked _ _ _); [done|by intros [= <- _]].
  - destruct (login_decide sources (verify (default [] password)) canonical) as [[out err] success] eqn:Hd.
    intros [= <- _] Hr. destruct (login_decide_sound _ _ _ _ _ _ Hd Hr) as (verifier & p & Hv & Hp & Hacc).
    by exists canonical, verifier, p.
Qed.

(** A failed login tells nothing about the account: with the store readable and a
    password that matches nothing, the outcome and everything the service remembers are
    the same whatever the directory holds under the name, a user, a disabled one or none,
    and a key derivation is run either way. *)
Theorem wrong_password_uniform sources sources' verify meanwhile s peer_key username password now_us :
  (forall name, argus_auth_canonicalize_login username = Some name ->
     (login_lookup sources name).1.1.2 = true /\ (login_lookup sources' name).1.1.2 = true) ->
  (forall verifier, verify (default [] password) verifier = (ESP_OK, false)) ->
  argus_auth_service_authenticate sources verify meanwhile s peer_key username password now_us =
  argus_auth_service_authenticate sources' verify meanwhile s peer_key username password now_us.
Proof.
  intros Hav Hno. unfold argus_auth_service_authenticate.
  destruct (login_precheck s peer_key username password) as [canonical|] eqn:Hc; [|done].
  pose proof (precheck_canonical _ _ _ _ _ Hc) as Hcan.
  assert (Hd : forall src, (login_lookup src canonical).1.1.2 = true ->
    login_decide src (verify (default [] password)) canonical =
      (LoginOutcome ARGUS_LOGIN_INVALID_CREDENTIALS None 0 true, ESP_OK, false)).
  { intros src Hs. unfold login_decide. destruct (login_lookup src canonical) as [[[verifier available] usable] human].
    cbn [fst snd] in Hs. subst available. by rewrite Hno. }
  destruct (Hav canonical Hcan) as [H1 H2]. by rewrite (Hd sources H1), (Hd sources' H2).
Qed.

(** ** The rate of wrong guesses *)

(** One attempt, with nothing else running meanwhile. *)
Record login_attempt := LoginAttempt {
  la_sources : login_sources;
  la_verify : bytes -> argus_password_verifier_t -> esp_err_t * bool;
  la_peer : Z;
  la_username : option bytes;
  la_password : option bytes;
  la_time : Z
}.

Definition attempt (s : auth_service) (a : login_attempt) : argus_login_outcome_t * auth_service :=
  argus_auth_service_authenticate (la_sources a) (la_verify a) (fun s => s) s (la_peer a) (la_username a)
    (la_password a) (la_time a).

Fixpoint attempts (s : auth_service) (l : list login_attempt) : list argus_login_outcome_t * auth_service :=
  match l with
  | [] => ([], s)
  | a :: l => let '(o, s) := attempt s a in let '(os, s) := attempts s l in (o :: os, s)
  end.

Definition wrong (o : argus_login_outcome_t) : bool := bool_decide (lo_result o = ARGUS_LOGIN_INVALID_CREDENTIALS).
Definition wrong_guesses (os : list argus_login_outcome_t) : nat := length (List.filter wrong os).

(** 35 years of microseconds. *)
Definition HORIZON : Z := 2 ^ 50.

Definition bucket_wf (b : throttle_bucket_t) : Prop := 0 <= tb_cooldown_until_us b <= 2 * HORIZON.

(** The state at [t]. *)
Record service_wf (s : auth_service) (t : Z) : Prop := {
  wf_peers : Forall bucket_wf (as_peer_buckets s);
  wf_principals : Forall bucket_wf (as_principal_buckets s);
  wf_global : bucket_wf (as_global_bucket s);
  wf_failures : 0 <= tb_failures (as_global_bucket s) <= 4;
  wf_window : 0 <= tb_window_started_us (as_global_bucket s) <= t
}.

Lemma cooldown_doubled_range n d :
  ARGUS_LOGIN_COOLDOWN_INITIAL_US <= d <= ARGUS_LOGIN_COOLDOWN_MAX_US ->
  ARGUS_LOGIN_COOLDOWN_INITIAL_US <= cooldown_doubled n d <= ARGUS_LOGIN_COOLDOWN_MAX_US.
Proof.
  revert d. induction n as [|n IH]; intros d Hd; [exact Hd|]. cbn [cooldown_doubled].
  change (ARGUS_LOGIN_COOLDOWN_MAX_US / 2) with 150000000.
  unfold ARGUS_LOGIN_COOLDOWN_MAX_US, ARGUS_LOGIN_COOLDOWN_INITIAL_US in *.
  destruct (Z.leb_spec 150000000 d); [lia|]. apply IH. rewrite u64_small by (unfold is_u64; lia); lia.
Qed.

Lemma cooldown_duration_range level :
  ARGUS_LOGIN_COOLDOWN_INITIAL_US <= cooldown_duration level <= ARGUS_LOGIN_COOLDOWN_MAX_US.
Proof.
  unfold cooldown_duration.
  pose proof (cooldown_doubled_range (Z.to_nat level) ARGUS_LOGIN_COOLDOWN_INITIAL_US ltac:(by split)) as H.
  cbv zeta. case_match; [by split|exact H].
Qed.

Lemma bucket_for_wf buckets key now_us : Forall bucket_wf buckets -> Forall bucket_wf (throttle_bucket_for buckets key now_us).2.
Proof.
  intros H. unfold throttle_bucket_for. destruct (throttle_scan _ _ _ _ _ _) as [i found]. destruct found; cbn [snd].
  - apply Forall_alter; [exact H|]. done.
  - apply Forall_insert; [exact H|]. by unfold bucket_wf, HORIZON.
Qed.

(** What a failure does to a bucket: a new window, one more failure, or a cooldown. *)
Definition window_over (b : throttle_bucket_t) (now_us : Z) : bool :=
  (tb_window_started_us b =? 0) || (ARGUS_LOGIN_WINDOW_US <? u64 (now_us - tb_window_started_us b)).

Lemma failure_cases b now_us :
  let b' := record_failure_bucket b now_us in
  (window_over b now_us = true /\ tb_window_started_us b' = now_us /\ tb_failures b' = 1 /\
     tb_cooldown_until_us b' = tb_cooldown_until_us b) \/
  (window_over b now_us = false /\ u32 (tb_failures b + 1) < ARGUS_LOGIN_FAILURE_LIMIT /\
     tb_window_started_us b' = tb_window_started_us b /\ tb_failures b' = u32 (tb_failures b + 1) /\
     tb_cooldown_until_us b' = tb_cooldown_until_us b) \/
  (window_over b now_us = false /\ ARGUS_LOGIN_FAILURE_LIMIT <= u32 (tb_failures b + 1) /\
     tb_window_started_us b' = now_us /\ tb_failures b' = 0 /\
     tb_cooldown_until_us b' = u64 (now_us + cooldown_duration (tb_cooldown_level b))).
Proof.
  unfold window_over, record_failure_bucket. destruct (_ || _); [by left|right]. cbv zeta.
  change (tb_failures (b <| tb_failures ::= fun f => u32 (f + 1) |>)) with (u32 (tb_failures b + 1)).
  destruct (Z.ltb_spec (u32 (tb_failures b + 1)) ARGUS_LOGIN_FAILURE_LIMIT); [by left|by right].
Qed.

Lemma failure_wf b now_us : 0 <= now_us <= HORIZON -> bucket_wf b -> bucket_wf (record_failure_bucket b now_us).
Proof.
  intros Ht Hb. unfold bucket_wf in *.
  destruct (failure_cases b now_us) as [(_ & _ & _ & ->)|[(_ & _ & _ & _ & ->)|(_ & _ & _ & _ & ->)]]; [exact Hb..|].
  pose proof (cooldown_duration_range (tb_cooldown_level b)) as Hd.
  unfold HORIZON, ARGUS_LOGIN_COOLDOWN_INITIAL_US, ARGUS_LOGIN_COOLDOWN_MAX_US in *.
  rewrite u64_small by (unfold is_u64; lia). lia.
Qed.

Lemma remaining_range b now_us : bucket_wf b -> 0 <= now_us -> 0 <= cooldown_remaining b now_us <= 2 * HORIZON.
Proof.
  intros Hb Ht. unfold cooldown_remaining, bucket_wf, HORIZON in *. destruct (Z.leb_spec (tb_cooldown_until_us b) now_us); [lia|].
  rewrite u64_small by (unfold is_u64; lia); lia.
Qed.

Lemma remaining_zero b now_us :
  bucket_wf b -> 0 <= now_us -> cooldown_remaining b now_us <= 0 -> tb_cooldown_until_us b <= now_us.
Proof.
  unfold cooldown_remaining, bucket_wf, HORIZON. intros Hb Ht. destruct (Z.leb_spec (tb_cooldown_until_us b) now_us); [done|].
  rewrite u64_small by (unfold is_u64; lia). lia.
Qed.

(** An admitted request finds no cooldown, in particular not the global one. *)
Lemma preflight_admits s peer_key principal_key now_us t retry s' :
  service_wf s t -> 0 <= now_us -> preflight_locked s peer_key principal_key now_us = (retry, s') ->
  service_wf s' t /\ as_global_bucket s' = as_global_bucket s /\
  (retry = 0 -> tb_cooldown_until_us (as_global_bucket s) <= now_us).
Proof.
  intros [Hp Hq Hg Hf Hw] Ht. unfold preflight_locked.
  pose proof (bucket_for_wf _ peer_key now_us Hp) as Hp'. pose proof (bucket_for_wf _ principal_key now_us Hq) as Hq'.
  destruct (throttle_bucket_for (as_peer_buckets s) peer_key now_us) as [i peers].
  destruct (throttle_bucket_for (as_principal_buckets s) principal_key now_us) as [j principals]. cbn [snd] in *.
  assert (Hd : forall l k, Forall bucket_wf l -> bucket_wf (default zero_throttle (l !! k))).
  { intros l k Hl. destruct (l !! k) as [b|] eqn:He; [exact (Forall_lookup_1 _ _ _ _ Hl He)|by unfold bucket_wf, HORIZON]. }
  pose proof (remaining_range _ now_us (Hd _ i Hp') Ht) as R1. pose proof (remaining_range _ now_us (Hd _ j Hq') Ht) as R2.
  pose proof (remaining_range _ now_us Hg Ht) as R3.
  cbv zeta. intros [= <- <-]. split; [by split|]. split; [done|].
  set (r1 := cooldown_remaining (default zero_throttle (peers !! i)) now_us) in *.
  set (r2 := cooldown_remaining (default zero_throttle (principals !! j)) now_us) in *.
  set (r := if r1 <? r2 then r2 else r1). assert (Hr : 0 <= r <= 2 * HORIZON) by (unfold r; case_match; lia).
  assert (Hz : forall x, 0 < x <= 2 * HORIZON -> u32 (u64 (x + 999999) / 1000000) <> 0).
  { intros x Hx. unfold HORIZON in Hx. rewrite u64_small by (unfold is_u64; lia).
    assert (1 <= (x + 999999) / 1000000 <= 2 ^ 32 - 1) by (split; [apply Z.div_le_lower_bound; lia|apply Z.div_le_upper_bound; lia]).
    rewrite u32_small by (unfold is_u32; lia); lia. }
  destruct (Z.ltb_spec r (cooldown_remaining (as_global_bucket s) now_us)) as [Hl|Hl].
  - destruct (Z.eqb_spec (cooldown_remaining (as_global_bucket s) now_us) 0); [lia|]. intros H. exfalso. revert H. apply Hz. lia.
  - destruct (Z.eqb_spec r 0) as [H0|H0]; intros H; [|exfalso; revert H; apply Hz; lia].
    apply remaining_zero; [done|done|lia].
Qed.

Lemma record_wf s peer_key principal_key now_us success :
  service_wf s now_us -> now_us <= HORIZON ->
  let s' := record_result_locked s peer_key principal_key now_us success in
  service_wf s' now_us /\
  as_global_bucket s' = if success then as_global_bucket s else record_failure_bucket (as_global_bucket s) now_us.
Proof.
  intros [Hp Hq Hg Hf Hw] Ht. unfold record_result_locked.
  pose proof (bucket_for_wf _ peer_key now_us Hp) as Hp'. pose proof (bucket_for_wf _ principal_key now_us Hq) as Hq'.
  destruct (throttle_bucket_for (as_peer_buckets s) peer_key now_us) as [i peers].
  destruct (throttle_bucket_for (as_principal_buckets s) principal_key now_us) as [j principals]. cbn [snd] in *.
  cbv zeta. split; [|done].
  assert (Hb : forall b, bucket_wf b -> bucket_wf ((if success then clear_failures else fun b => record_failure_bucket b now_us) b)).
  { intros b Hb. destruct success; [exact Hb|]. apply failure_wf; [lia|exact Hb]. }
  split; [apply Forall_alter; auto..| | |].
  - destruct success; [exact Hg|apply failure_wf; [lia|exact Hg]].
  - destruct success; [exact Hf|]. cbn [as_global_bucket].
    change (as_global_bucket _) with (record_failure_bucket (as_global_bucket s) now_us).
    destruct (failure_cases (as_global_bucket s) now_us) as [(_ & _ & -> & _)|[(_ & Hl & _ & -> & _)|(_ & _ & _ & -> & _)]]; [lia| |lia].
    pose proof (u32_range (tb_failures (as_global_bucket s) + 1)) as Hr. unfold is_u32, ARGUS_LOGIN_FAILURE_LIMIT in *. lia.
  - destruct success; [exact Hw|].
    change (as_global_bucket _) with (record_failure_bucket (as_global_bucket s) now_us).
    destruct (failure_cases (as_global_bucket s) now_us) as [(_ & -> & _)|[(_ & _ & -> & _)|(_ & _ & -> & _)]]; lia.
Qed.

Lemma finish_wf s peer_key principal_key now_us invoked err success :
  service_wf s now_us -> now_us <= HORIZON ->
  let s' := login_finish s peer_key principal_key now_us invoked err success in
  service_wf s' now_us /\
  as_global_bucket s' =
    if is_ok err && negb success then record_failure_bucket (as_global_bucket s) now_us else as_global_bucket s.
Proof.
  intros H Ht. unfold login_finish. cbv zeta.
  match goal with |- context [if is_ok _ then record_result_locked ?x _ _ _ _ else _] =>
    assert (Hx : service_wf x now_us) by (by destruct H; split); pose proof (record_wf x peer_key principal_key now_us success Hx Ht) as Hr
  end.
  destruct (is_ok err); [|by split]. destruct success; exact Hr.
Qed.

(** One attempt: only a wrong guess that was admitted touches the global bucket. *)
Lemma attempt_effect s a t o s' :
  service_wf s t -> t <= la_time a <= HORIZON -> 0 <= t -> attempt s a = (o, s') ->
  let g := as_global_bucket s in
  service_wf s' (la_time a) /\
  (if wrong o then tb_cooldown_until_us g <= la_time a /\ as_global_bucket s' = record_failure_bucket g (la_time a)
   else as_global_bucket s' = g).
Proof.
  intros Hs Ht Ht0 Ha g.
  assert (Hlater : forall s2, service_wf s2 t -> as_global_bucket s2 = g -> service_wf s2 (la_time a)).
  { intros s2 [H1 H2 H3 H4 H5] _. split; try done. lia. }
  unfold attempt, argus_auth_service_authenticate in Ha.
  destruct (login_precheck s (la_peer a) (la_username a) (la_password a)) as [canonical|]; [|injection Ha as <- <-; split; [by apply Hlater|done]].
  set (key := hash_login canonical) in *.
  unfold login_admit in Ha. destruct (preflight_locked s (la_peer a) key (la_time a)) as [retry s1] eqn:Hp.
  destruct (preflight_admits s (la_peer a) key (la_time a) t retry s1 Hs ltac:(lia) Hp) as (Hs1 & Hg1 & Hz).
  destruct (Z.eqb_spec retry 0) as [Hr|]; cbn [negb] in Ha; [|injection Ha as <- <-; split; [by apply Hlater|done]].
  specialize (Hz Hr). destruct (_ || _) in Ha; [injection Ha as <- <-; split; [by apply Hlater|done]|].
  destruct (reserve_inflight_locked _ _ _) as [inflight|] in Ha; [|injection Ha as <- <-; split; [by apply Hlater|done]].
  unfold login_decide in Ha. destruct (login_lookup (la_sources a) canonical) as [[[verifier available] usable] human].
  destruct (la_verify a (default [] (la_password a)) verifier) as [err matches]. cbv zeta in Ha.
  set (e := if is_ok err && negb available then _ else _) in Ha.
  destruct (login_principal _ _ _ _) as [success p] in Ha. injection Ha as <- <-.
  destruct (finish_wf (s1 <| as_inflight := inflight |> <| as_kdf_admitted ::= fun n => u8 (n + 1) |>) (la_peer a) key
    (la_time a) (negb (bool_decide (err = ESP_ERR_TIMEOUT)) && negb (bool_decide (err = ESP_ERR_INVALID_STATE))) e success)
    as [H4 H5]; [by destruct (Hlater s1 Hs1 Hg1); split|lia|]. split; [exact H4|].
  change (as_global_bucket (s1 <| as_inflight := inflight |> <| as_kdf_admitted ::= _ |>)) with (as_global_bucket s1) in H5.
  rewrite Hg1 in H5.
  unfold wrong. cbn [lo_result lo_kdf_invoked]. cbn [lo_kdf_invoked] in H5. destruct success.
  - rewrite bool_decide_eq_false_2 by done. rewrite andb_false_r in H5. exact H5.
  - rewrite andb_true_r in H5. destruct (bool_decide_reflect (e = ESP_ERR_TIMEOUT)) as [He|].
    + rewrite bool_decide_eq_false_2 by done. assert (Hie : is_ok e = false) by by rewrite He. rewrite Hie in H5. exact H5.
    + destruct (is_ok e); [rewrite bool_decide_eq_true_2 by done; split; [by rewrite Hg1 in Hz || exact Hz|exact H5]|by rewrite bool_decide_eq_false_2].
Qed.

(** How many more wrong guesses the global bucket lets through until [hi]: five to the
    cooldown, and four more if its window may still be restarted. *)
Definition allowance (lo hi : Z) (g : throttle_bucket_t) : Z :=
  if hi <? tb_cooldown_until_us g then 0
  else if lo <=? tb_window_started_us g then 5 - tb_failures g else 9 - tb_failures g.

Lemma failure_spends lo hi g now_us :
  0 < lo -> hi < lo + ARGUS_LOGIN_COOLDOWN_INITIAL_US -> hi <= HORIZON -> lo <= now_us <= hi ->
  0 <= tb_failures g <= 4 -> 0 <= tb_window_started_us g <= now_us -> tb_cooldown_until_us g <= now_us ->
  allowance lo hi (record_failure_bucket g now_us) + 1 <= allowance lo hi g.
Proof.
  intros H0 Hspan Hh Hn Hf Hw Hc. unfold allowance at 2. destruct (Z.ltb_spec hi (tb_cooldown_until_us g)); [lia|].
  unfold allowance, HORIZON, ARGUS_LOGIN_COOLDOWN_INITIAL_US in *.
  pose proof (cooldown_duration_range (tb_cooldown_level g)) as Hd.
  unfold ARGUS_LOGIN_COOLDOWN_INITIAL_US, ARGUS_LOGIN_COOLDOWN_MAX_US in Hd.
  destruct (failure_cases g now_us) as [(Hover & -> & -> & ->)|[(Hover & Hl & -> & -> & ->)|(Hover & Hl & -> & -> & ->)]].
  - destruct (Z.ltb_spec hi (tb_cooldown_until_us g)); [lia|]. destruct (Z.leb_spec lo now_us); [|lia].
    destruct (Z.leb_spec lo (tb_window_started_us g)); [|lia]. exfalso. unfold window_over in Hover.
    apply orb_true_iff in Hover as [He|He]; b2p; [lia|]. unfold ARGUS_LOGIN_WINDOW_US in He.
    rewrite u64_small in He by (unfold is_u64; lia). lia.
  - destruct (Z.ltb_spec hi (tb_cooldown_until_us g)); [lia|].
    rewrite u32_small by (unfold is_u32; lia). destruct (Z.leb_spec lo (tb_window_started_us g)); lia.
  - rewrite u64_small by (unfold is_u64; lia). destruct (Z.ltb_spec hi (now_us + cooldown_duration (tb_cooldown_level g))); [|lia].
    destruct (Z.leb_spec lo (tb_window_started_us g)); lia.
Qed.

(** The times of a list of attempts do not decrease, and are from [t] on. *)
Fixpoint in_order (t : Z) (l : list login_attempt) : Prop :=
  match l with [] => True | a :: l => t <= la_time a <= HORIZON /\ in_order (la_time a) l end.

Lemma guesses_bounded lo hi l s t :
  0 < lo -> hi < lo + ARGUS_LOGIN_COOLDOWN_INITIAL_US -> hi <= HORIZON ->
  service_wf s t -> 0 <= t -> in_order t l -> Forall (fun a => lo <= la_time a <= hi) l ->
  Z.of_nat (wrong_guesses (attempts s l).1) <= allowance lo hi (as_global_bucket s).
Proof.
  intros H0 Hspan Hh. revert s t. induction l as [|a l IH]; intros s t Hs Ht Ho Hl.
  - destruct Hs as [_ _ _ Hf _]. cbn. unfold allowance. repeat case_match; lia.
  - destruct Ho as [Ha Ho]. apply Forall_cons in Hl as [Hal Hl]. cbn [attempts].
    destruct (attempt s a) as [o s1] eqn:He. destruct (attempt_effect s a t o s1 Hs Ha Ht He) as [Hs1 Hg].
    pose proof (IH s1 (la_time a) Hs1 ltac:(lia) Ho Hl) as Hrest. destruct (attempts s1 l) as [os s2].
    cbn [fst] in *. unfold wrong_guesses in *. cbn [List.filter]. destruct (wrong o).
    + destruct Hg as [Hc Hg]. rewrite Hg in Hrest. destruct Hs as [_ _ _ Hf Hw].
      pose proof (failure_spends lo hi (as_global_bucket s) (la_time a) H0 Hspan Hh Hal Hf ltac:(lia) Hc). cbn [length]. lia.
    + by rewrite Hg in Hrest.
Qed.

Definition service_ready : auth_service := auth_service_boot <| as_ready := true |>.

Lemma ready_wf : service_wf service_ready 0.
Proof. by split; [repeat constructor; by unfold bucket_wf, HORIZON|repeat constructor; by unfold bucket_wf, HORIZON|by unfold bucket_wf, HORIZON|..]. Qed.

Lemma guesses_after_history lo hi history l s t :
  0 < lo -> hi < lo + ARGUS_LOGIN_COOLDOWN_INITIAL_US -> hi <= HORIZON ->
  service_wf s t -> 0 <= t -> in_order t (history ++ l) -> Forall (fun a => lo <= la_time a <= hi) l ->
  (wrong_guesses (attempts (attempts s history).2 l).1 <= 9)%nat.
Proof.
  intros H0 Hspan Hh. revert s t. induction history as [|a history IH]; intros s t Hs Ht Ho Hl.
  - pose proof (guesses_bounded lo hi l s t H0 Hspan Hh Hs Ht Ho Hl) as H. cbn [attempts snd].
    assert (allowance lo hi (as_global_bucket s) <= 9) by (destruct Hs as [_ _ _ Hf _]; unfold allowance; repeat case_match; lia).
    lia.
  - destruct Ho as [Ha Ho]. cbn [attempts]. destruct (attempt s a) as [o s1] eqn:He.
    destruct (attempt_effect s a t o s1 Hs Ha Ht He) as [Hs1 _].
    pose proof (IH s1 (la_time a) Hs1 ltac:(lia) Ho Hl) as H. by destruct (attempts s1 history).
Qed.

(** Guessing passwords is slow whoever guesses: after any history of logins since the
    start, at most nine logins in any 30 seconds are told that their credentials were
    wrong, over all peers and all names together; every other one is refused before the
    password is looked at, or is right. *)
Theorem login_guess_rate history l lo hi :
  in_order 0 (history ++ l) -> Forall (fun a => lo <= la_time a <= hi) l ->
  0 < lo -> hi < lo + ARGUS_LOGIN_COOLDOWN_INITIAL_US -> hi <= HORIZON ->
  (wrong_guesses (attempts (attempts service_ready history).2 l).1 <= 9)%nat.
Proof.
  intros Ho Hl H0 Hspan Hhi. by apply (guesses_after_history lo hi history l service_ready 0 H0 Hspan Hhi ready_wf).
Qed.

(** A directory with one user, and a derivation that knows one password. *)
Definition demo_sources : login_sources :=
  LoginSources (inl ESP_ERR_NOT_FOUND) (inr 7) (Some (sd_payload demo_users)).

Definition demo_verify (password : bytes) (verifier : argus_password_verifier_t) : esp_err_t * bool :=
  (ESP_OK, bool_decide (password = str "correct horse") && bool_decide (verifier = hu_verifier demo_human)).

Definition demo_guess (t : Z) : login_attempt :=
  LoginAttempt demo_sources demo_verify (1000 + t) (Some (str "operator")) (Some (str "a guess")) t.

(** Six wrong guesses from six peers: five are heard, the sixth is throttled. *)
Definition demo_guesses : list login_attempt := demo_guess <$> [90000000; 90000001; 90000002; 90000003; 90000004; 90000005].

Lemma login_guess_rate_witness :
  wrong_guesses (attempts (attempts service_ready [demo_guess 20000000]).2 demo_guesses).1 = 5%nat /\
  (wrong_guesses (attempts (attempts service_ready [demo_guess 20000000]).2 demo_guesses).1 <= 9)%nat.
Proof.
  split; [by vm_compute|].
  apply (login_guess_rate [demo_guess 20000000] demo_guesses 90000000 90000005); [|by repeat constructor|done..].
  cbn. unfold HORIZON. lia.
Defined.

Lemma login_sound_witness :
  exists p, lo_principal (argus_auth_service_authenticate demo_sources demo_verify (fun s => s) service_ready 5
    (Some (str "Operator")) (Some (str "correct horse")) 1000).1 = Some p /\ pr_identifier p = str "h-01".
Proof.
  destruct (login_sound demo_sources demo_verify (fun s => s) service_ready 5 (Some (str "Operator"))
    (Some (str "correct horse")) 1000 _ _ (surjective_pairing _) ltac:(by vm_compute))
    as (canonical & verifier & p & Hc & _ & Hp & [(Hcon & _)|(_ & directory & h & i & Hd & _ & -> & Hl & _)]).
  - exfalso. subst canonical. by vm_compute in Hc.
  - exists p. split; [exact Hp|]. by vm_compute in Hp; injection Hp as <-.
Defined.

Lemma wrong_password_uniform_witness :
  argus_auth_service_authenticate demo_sources (fun _ _ => (ESP_OK, false)) (fun s => s) service_ready 5
    (Some (str "operator")) (Some (str "a guess")) 1000 =
  argus_auth_service_authenticate (LoginSources (inl ESP_ERR_NOT_FOUND) (inr 7) (Some no_users)) (fun _ _ => (ESP_OK, false))
    (fun s => s) service_ready 5 (Some (str "operator")) (Some (str "a guess")) 1000.
Proof.
  apply (wrong_password_uniform demo_sources (LoginSources (inl ESP_ERR_NOT_FOUND) (inr 7) (Some no_users))); [|done].
  intros name Hn. assert (name = str "operator") as -> by (by vm_compute in Hn; injection Hn as <-). by split; vm_compute.
Defined.

(** ** Concurrent derivations *)

(** A derivation that runs: a login's, with its keys, or that of a new verifier. *)
Inductive derivation := LoginDerivation (peer_key principal_key : Z) | CreateDerivation.
#[export] Instance derivation_eq_dec : EqDecision derivation.
Proof. solve_decision. Defined.

(** The critical sections of any number of tasks, in any order. *)
Inductive service_step : auth_service * list derivation -> auth_service * list derivation -> Prop :=
| step_login_admitted s running peer_key principal_key now_us s' :
    peer_key <> 0 -> principal_key <> 0 -> login_admit s peer_key principal_key now_us = (inr (), s') ->
    service_step (s, running) (s', LoginDerivation peer_key principal_key :: running)
| step_login_refused s running peer_key principal_key now_us refused s' :
    login_admit s peer_key principal_key now_us = (inl refused, s') -> service_step (s, running) (s', running)
| step_login_finished s before after peer_key principal_key now_us invoked err success :
    service_step (s, before ++ LoginDerivation peer_key principal_key :: after)
      (login_finish s peer_key principal_key now_us invoked err success, before ++ after)
| step_create_admitted s running s' :
    create_admit s = (ESP_OK, s') -> service_step (s, running) (s', CreateDerivation :: running)
| step_create_finished s before after err :
    service_step (s, before ++ CreateDerivation :: after) (create_finish s err, before ++ after).

Definition slot_of (d : derivation) : list (Z * Z) :=
  match d with LoginDerivation p q => [(p, q)] | CreateDerivation => [] end.

Definition taken (slots : list (Z * Z)) : list (Z * Z) := List.filter (fun s => negb (s.1 =? 0)) slots.

(** What the counters and the table of running logins say. *)
Record derivations_inv (c : auth_service * list derivation) : Prop := {
  di_count : as_kdf_admitted c.1 = Z.of_nat (length c.2);
  di_bound : (length c.2 <= 2)%nat;
  di_pairs : Forall (fun s => s.1 = 0 <-> s.2 = 0) (as_inflight c.1);
  di_taken : (taken (as_inflight c.1)) ≡ₚ (concat (map slot_of c.2));
  di_peers : NoDup (map fst (taken (as_inflight c.1)));
  di_principals : NoDup (map snd (taken (as_inflight c.1)))
}.

Lemma reserve_taken slots peer_key principal_key slots' :
  Forall (fun s => s.1 = 0 <-> s.2 = 0) slots -> peer_key <> 0 -> principal_key <> 0 ->
  reserve_inflight_locked slots peer_key principal_key = Some slots' ->
  Forall (fun s => s.1 = 0 <-> s.2 = 0) slots' /\ taken slots' ≡ₚ (peer_key, principal_key) :: taken slots.
Proof.
  intros Hf Hp Hq. revert slots'. induction Hf as [|s slots Hs Hf IH]; intros slots'; [done|]. cbn [reserve_inflight_locked].
  destruct ((s.1 =? 0) && (s.2 =? 0)) eqn:Hz.
  - intros [= <-]. apply andb_true_iff in Hz as [H1%Z.eqb_eq H2%Z.eqb_eq]. split; [by constructor|].
    unfold taken. cbn [List.filter fst]. rewrite H1, (proj2 (Z.eqb_neq _ _) Hp). done.
  - destruct (reserve_inflight_locked slots peer_key principal_key) as [rest|]; [|done]. cbn [mbind option_bind].
    intros [= <-]. destruct (IH rest eq_refl) as [H1 H2]. split; [by constructor|].
    unfold taken in *. cbn [List.filter]. destruct (negb (s.1 =? 0)); [rewrite H2; apply Permutation_swap|exact H2].
Qed.

Lemma release_taken slots peer_key principal_key :
  Forall (fun s => s.1 = 0 <-> s.2 = 0) slots -> peer_key <> 0 ->
  (peer_key, principal_key) ∈ taken slots ->
  let slots' := release_inflight_locked slots peer_key principal_key in
  Forall (fun s => s.1 = 0 <-> s.2 = 0) slots' /\ taken slots ≡ₚ (peer_key, principal_key) :: taken slots'.
Proof.
  intros Hf Hp. induction Hf as [|s slots Hs Hf IH]; cbn zeta; [intros H; by apply elem_of_nil in H|].
  cbn [release_inflight_locked]. intros Hin.
  destruct ((s.1 =? peer_key) && (s.2 =? principal_key)) eqn:He.
  - apply andb_true_iff in He as [H1%Z.eqb_eq H2%Z.eqb_eq]. split; [by constructor|]. unfold taken. cbn [List.filter fst].
    rewrite H1, (proj2 (Z.eqb_neq _ _) Hp). cbn [negb Z.eqb]. destruct s as [a b]; cbn [fst snd] in *; by subst.
  - assert (Hin' : (peer_key, principal_key) ∈ taken slots).
    { unfold taken in Hin |- *. cbn [List.filter] in Hin. destruct (negb (s.1 =? 0)); [|done].
      apply elem_of_cons in Hin as [<-|Hin]; [|done]. cbn in He. by rewrite !Z.eqb_refl in He. }
    destruct (IH Hin') as [H1 H2]. split; [by constructor|].
    unfold taken in *. cbn [List.filter]. destruct (negb (s.1 =? 0)); [rewrite H2; apply Permutation_swap|exact H2].
Qed.

Lemma duplicate_spec slots peer_key principal_key :
  duplicate_inflight_locked slots peer_key principal_key = false ->
  (peer_key ∉ map fst (taken slots)) /\ (principal_key ∉ map snd (taken slots)).
Proof.
  unfold duplicate_inflight_locked. intros H.
  assert (Hn : forall s, s ∈ taken slots -> s.1 <> peer_key /\ s.2 <> principal_key).
  { intros s Hs. apply list_elem_of_In, filter_In in Hs as [Hs _].
    assert (Hb : (s.1 =? peer_key) || (s.2 =? principal_key) = false); [|apply orb_false_iff in Hb as [H1%Z.eqb_neq H2%Z.eqb_neq]; done].
    destruct ((s.1 =? peer_key) || (s.2 =? principal_key)) eqn:Hb; [|done].
    rewrite <- H. symmetry. apply existsb_exists. by exists s. }
  split; intros Hin; apply list_elem_of_fmap in Hin as (s & -> & Hs); by destruct (Hn s Hs).
Qed.

Lemma preflight_frame s peer_key principal_key now_us retry s' :
  preflight_locked s peer_key principal_key now_us = (retry, s') ->
  as_kdf_admitted s' = as_kdf_admitted s /\ as_inflight s' = as_inflight s.
Proof.
  unfold preflight_locked. destruct (throttle_bucket_for _ _ _) as [i peers], (throttle_bucket_for _ _ _) as [j principals].
  by intros [= _ <-].
Qed.

Lemma record_frame s peer_key principal_key now_us success :
  let s' := record_result_locked s peer_key principal_key now_us success in
  as_kdf_admitted s' = as_kdf_admitted s /\ as_inflight s' = as_inflight s.
Proof.
  unfold record_result_locked. by destruct (throttle_bucket_for _ _ _) as [i peers], (throttle_bucket_for _ _ _) as [j principals].
Qed.

Lemma finish_frame s peer_key principal_key now_us invoked err success :
  let s' := login_finish s peer_key principal_key now_us invoked err success in
  as_kdf_admitted s' = u8 (as_kdf_admitted s - 1) /\
  as_inflight s' = release_inflight_locked (as_inflight s) peer_key principal_key.
Proof.
  unfold login_finish. cbv zeta. destruct (is_ok err); [|done].
  match goal with |- context [record_result_locked ?x _ _ _ _] => exact (record_frame x peer_key principal_key now_us success) end.
Qed.

Lemma slots_middle before d after :
  concat (map slot_of (before ++ d :: after)) ≡ₚ slot_of d ++ concat (map slot_of (before ++ after)).
Proof.
  rewrite !map_app, !concat_app. cbn [map concat]. rewrite !app_assoc. by rewrite (Permutation_app_comm (concat (map slot_of before)) (slot_of d)).
Qed.

Lemma derivations_preserved c c' : derivations_inv c -> service_step c c' -> derivations_inv c'.
Proof.
  intros [Hn Hb Hp Ht H1 H2] Hs. destruct Hs as [s running p q t s' Hp0 Hq0 Ha|s running p q t refused s' Ha
    |s before after p q t invoked err success|s running s' Ha|s before after err]; cbn [fst snd] in *.
  - unfold login_admit in Ha. destruct (preflight_locked s p q t) as [retry s1] eqn:Hf.
    destruct (preflight_frame _ _ _ _ _ _ Hf) as [F1 F2]. rewrite F1, F2 in Ha.
    destruct (negb (retry =? 0)); [done|].
    destruct ((ARGUS_LOGIN_KDF_ADMISSION_MAX <=? as_kdf_admitted s) || duplicate_inflight_locked (as_inflight s) p q) eqn:Hd; [done|].
    apply orb_false_iff in Hd as [Hmax Hdup]. apply Z.leb_gt in Hmax. unfold ARGUS_LOGIN_KDF_ADMISSION_MAX in Hmax.
    destruct (reserve_inflight_locked (as_inflight s) p q) as [slots|] eqn:Hr; [|done]. injection Ha as <-.
    destruct (reserve_taken _ _ _ _ Hp Hp0 Hq0 Hr) as [R1 R2]. destruct (duplicate_spec _ _ _ Hdup) as [D1 D2].
    split; cbn [fst snd].
    + change (as_kdf_admitted _) with (u8 (as_kdf_admitted s1 + 1)). cbn [length]. rewrite F1, u8_small; [|unfold is_u8]; lia.
    + cbn [length]. lia.
    + exact R1.
    + change (as_inflight _) with slots. rewrite R2, Ht. done.
    + change (as_inflight _) with slots. rewrite R2. by apply NoDup_cons.
    + change (as_inflight _) with slots. rewrite R2. by apply NoDup_cons.
  - unfold login_admit in Ha. destruct (preflight_locked s p q t) as [retry s1] eqn:Hf.
    destruct (preflight_frame _ _ _ _ _ _ Hf) as [F1 F2].
    assert (s' = s1) as ->.
    { destruct (negb (retry =? 0)); [by injection Ha|]. destruct (_ || _); [by injection Ha|].
      destruct (reserve_inflight_locked _ _ _); [done|by injection Ha]. }
    split; cbn [fst snd]; rewrite ?F1, ?F2; done.
  - destruct (finish_frame s p q t invoked err success) as [F1 F2].
    rewrite slots_middle in Ht. cbn [slot_of app] in Ht. rewrite length_app in Hn, Hb. cbn [length] in Hn, Hb.
    assert (Hin : (p, q) ∈ taken (as_inflight s)) by (rewrite Ht; left).
    assert (Hp0 : p <> 0).
    { unfold taken in Hin. apply list_elem_of_In, filter_In in Hin as [_ Hz]. cbn [fst] in Hz. by b2p. }
    destruct (release_taken _ _ _ Hp Hp0 Hin) as [R1 R2]. rewrite R2 in Ht, H1, H2. cbn [map] in H1, H2.
    split; cbn [fst snd]; rewrite ?F1, ?F2, ?length_app.
    + rewrite u8_small; [|unfold is_u8]; lia.
    + lia.
    + exact R1.
    + exact (Permutation_cons_inv Ht).
    + by apply NoDup_cons in H1 as [_ H1].
    + by apply NoDup_cons in H2 as [_ H2].
  - unfold create_admit in Ha. destruct (Z.leb_spec ARGUS_LOGIN_KDF_ADMISSION_MAX (as_kdf_admitted s)); [done|].
    unfold ARGUS_LOGIN_KDF_ADMISSION_MAX in *. injection Ha as <-. split; cbn [fst snd]; try done.
    + change (as_kdf_admitted _) with (u8 (as_kdf_admitted s + 1)). cbn [length]. rewrite u8_small; [|unfold is_u8]; lia.
    + cbn [length]. lia.
  - rewrite slots_middle in Ht. cbn [slot_of app] in Ht. rewrite length_app in Hn, Hb. cbn [length] in Hn, Hb.
    split; cbn [fst snd]; try done; rewrite ?length_app.
    + change (as_kdf_admitted _) with (u8 (as_kdf_admitted s - 1)). rewrite u8_small; [|unfold is_u8]; lia.
    + lia.
Qed.

Definition login_peers (running : list derivation) : list Z := map fst (concat (map slot_of running)).
Definition login_principals (running : list derivation) : list Z := map snd (concat (map slot_of running)).

(** At most two key derivations run at a time, and never two for the same peer or the
    same name: whatever tasks log in or create verifiers, in whatever order their critical
    sections interleave, the counter is the number of derivations that run, it never
    passes two, and the running logins are of different peers and different names. *)
Theorem kdf_concurrency_bounded s running :
  rtc service_step (service_ready, []) (s, running) ->
  (length running <= 2)%nat /\ as_kdf_admitted s = Z.of_nat (length running) /\
  NoDup (login_peers running) /\ NoDup (login_principals running).
Proof.
  intros Hr. assert (Hi : derivations_inv (s, running)).
  { refine (rtc_ind_r (R := service_step) derivations_inv (service_ready, []) _ _ _ Hr).
    - split; cbn [fst snd]; try done; [cbn; lia|by repeat constructor|by constructor|by constructor].
    - intros c c' _ Hs Hc. exact (derivations_preserved _ _ Hc Hs). }
  destruct Hi as [Hn Hb Hp Ht H1 H2]. cbn [fst snd] in *. split; [exact Hb|]. split; [exact Hn|].
  unfold login_peers, login_principals. rewrite <- Ht. done.
Qed.

Lemma kdf_concurrency_bounded_witness :
  let s := (login_admit service_ready 5 9 1000).2 in
  as_kdf_admitted s = 1 /\ NoDup (login_peers [LoginDerivation 5 9]).
Proof.
  assert (H : rtc service_step (service_ready, []) ((login_admit service_ready 5 9 1000).2, [LoginDerivation 5 9])).
  { apply rtc_once. apply (step_login_admitted _ _ 5 9 1000); [done|done|by vm_compute]. }
  destruct (kdf_concurrency_bounded _ _ H) as (_ & Hn & Hd & _). split; [exact Hn|exact Hd].
Defined.
