(* ===== verification/HttpAccess.v ===== *)
(** * Access to the browser surface

    [src/main/argus_http_security.c]: the SoftAP test of a socket, the exact reading of a
    header, the session cookie, the origin test, whether the principal of a session is still
    current, the gate every handler passes and the error responses.  What the HTTP server,
    the network interfaces and [inet_ntop] answer are fields of the request; the session
    table is [Sessions]' and the user directory [SecurityDirectory]'s. *)

From S2P Require Import Prelude Authorization Sessions SecurityRecords SecurityDirectory NetLink.

(** ** The request *)

Definition COOKIE_HEADER_MAX : nat := 256.
Definition HOST_HEADER_MAX : nat := 64.
Definition ORIGIN_HEADER_MAX : nat := 80.
Definition ARGUS_SESSION_TOKEN_HEX_LEN : nat := 64.
Definition ARGUS_SESSION_COOKIE_NAME : bytes := str "argus_session".
Definition ARGUS_CSRF_HEADER : bytes := str "X-Argus-CSRF".

(** An address as the socket layer gives it; the address of [AF_INET] is the 32-bit word of
    the structure, in network byte order. *)
Inductive sockaddr_t :=
| AF_INET (s_addr : Z)
| AF_INET6 (s6_addr : bytes)
| AF_OTHER.

(** What one call of [socket_is_softap] sees: the addresses of both ends ([None] when the
    descriptor or either call fails), address and mask of the access point, the address of
    the station, the time and what [inet_ntop] prints for the local address. *)
Record socket_view := SocketView {
  sv_ends : option (sockaddr_t * sockaddr_t);
  sv_ap : option (Z * Z);
  sv_sta : option Z;
  sv_now_us : Z;
  sv_printed : option bytes
}.

(** A header as the server answers: its length, and the C string it copies out. *)
Record http_request := HttpRequest {
  rq_view : socket_view;                          (* in [argus_http_security_ap_only] *)
  rq_view_again : socket_view;                    (* in [expected_origin] *)
  rq_header : bytes -> nat * (esp_err_t + bytes);
  rq_session_us : Z                               (* the clock of the session manager *)
}.

Inductive argus_http_access_result_t :=
| ARGUS_HTTP_ACCESS_OK
| ARGUS_HTTP_ACCESS_NOT_AP
| ARGUS_HTTP_ACCESS_UNAUTHENTICATED
| ARGUS_HTTP_ACCESS_FORBIDDEN
| ARGUS_HTTP_ACCESS_CSRF
| ARGUS_HTTP_ACCESS_ORIGIN
| ARGUS_HTTP_ACCESS_CONTENT_TYPE
| ARGUS_HTTP_ACCESS_INTERNAL.
#[export] Instance http_access_eq_dec : EqDecision argus_http_access_result_t.
Proof. solve_decision. Defined.

Record argus_http_security_context_t := HttpContext {
  hc_principal : argus_principal_t;
  hc_session_index : nat;
  hc_peer_key : Z;
  hc_session_token : bytes
}.
#[export] Instance eta_http_context : Eta argus_http_security_context_t := fun c =>
  HttpContext (hc_principal c) (hc_session_index c) (hc_peer_key c) (hc_session_token c).

Definition zero_context : argus_http_security_context_t := HttpContext zero_principal 0 0 [].

(** The state a request meets: the interface latch of the network manager, the time of the
    last audited rejection, the sessions, and the security epochs of the audit records
    appended for rejections. *)
Record http_access := HttpAccess {
  ha_conflict : iface_conflict;
  ha_last_sta_rejection_audit_us : Z;
  ha_sessions : session_manager;
  ha_audits : list Z
}.
#[export] Instance eta_http_access : Eta http_access := fun s =>
  HttpAccess (ha_conflict s) (ha_last_sta_rejection_audit_us s) (ha_sessions s) (ha_audits s).

(** ** The SoftAP *)

Definition IN6_IS_ADDR_V4MAPPED (a : bytes) : bool := bool_decide (take 12 a = replicate 10 0 ++ [255; 255]).

(** A word of four bytes in memory. *)
Definition word (l : bytes) : Z := foldr (fun c w => c + 256 * w) 0 l.

Definition socket_address_ipv4 (address : sockaddr_t) : option Z :=
  match address with
  | AF_INET a => Some a
  | AF_INET6 a => if IN6_IS_ADDR_V4MAPPED a then Some (word (take 4 (drop 12 a))) else None
  | AF_OTHER => None
  end.

(** The key of the peer with the printed local address. *)
Definition socket_is_softap (v : socket_view) (c : iface_conflict) : option (Z * bytes) * iface_conflict :=
  match sv_ends v with
  | None => (None, c)
  | Some (local, peer) =>
      match socket_address_ipv4 local, socket_address_ipv4 peer with
      | Some local_addr, Some peer_addr =>
          let ap_valid := match sv_ap v with Some _ => true | None => false end in
          let sta_valid := match sv_sta v with Some _ => true | None => false end in
          let '(ap_addr, netmask) := default (0, 0) (sv_ap v) in
          let '(iface, c) := argus_net_mgr_classify_interface (sv_now_us v) local_addr ap_valid ap_addr
                               sta_valid (default 0 (sv_sta v)) c in
          match iface with
          | ARGUS_NET_IFACE_SOFTAP =>
              if negb (Z.land peer_addr netmask =? Z.land ap_addr netmask) || (peer_addr =? ap_addr)
                 || (peer_addr =? 0) then (None, c)
              else match sv_printed v with
                   | Some local_ip => (Some (peer_addr, local_ip), c)
                   | None => (None, c)
                   end
          | _ => (None, c)
          end
      | _, _ => (None, c)
      end
  end.

(** [now_us] is the clock of the rejection and [epoch] the store's status (0 when it
    cannot be read).  The peer key is [None] unless the access is allowed. *)
Definition argus_http_security_ap_only (now_us epoch : Z) (v : socket_view) (s : http_access)
    : argus_http_access_result_t * option Z * http_access :=
  let '(softap, c) := socket_is_softap v (ha_conflict s) in
  let s := s <| ha_conflict := c |> in
  match softap with
  | Some (peer_key, _) => (ARGUS_HTTP_ACCESS_OK, Some peer_key, s)
  | None =>
      (ARGUS_HTTP_ACCESS_NOT_AP, None,
       if (ha_last_sta_rejection_audit_us s =? 0)
          || (60000000 <=? u64 (now_us - ha_last_sta_rejection_audit_us s))
       then s <| ha_audits ::= fun l => l ++ [epoch] |> <| ha_last_sta_rejection_audit_us := now_us |>
       else s)
  end.

(** ** Headers *)

Definition header_exact (rq : http_request) (name : bytes) (capacity : nat) : option bytes :=
  let '(len, value) := rq_header rq name in
  if (0 <? len)%nat && (len <? capacity)%nat then
    match value with
    | inr out => if (length out =? len)%nat then Some out else None
    | inl _ => None
    end
  else None.

Definition argus_http_security_json_content_type (rq : http_request) : bool :=
  match header_exact rq (str "Content-Type") 48 with
  | Some value => bool_decide (value = str "application/json")
  | None => false
  end.

(** A text that does not fit its buffer is refused. *)
Definition printed_whole (capacity : nat) (text : bytes) : option bytes :=
  if (0 <? length text)%nat && (length text <? capacity)%nat then Some text else None.

Definition expected_origin (v : socket_view) (capacity : nat) (c : iface_conflict) : option bytes * iface_conflict :=
  let '(softap, c) := socket_is_softap v c in
  match softap with
  | None => (None, c)
  | Some (_, local_ip) => (printed_whole capacity (str "http://" ++ local_ip), c)
  end.

Definition argus_http_security_origin (rq : http_request) (s : http_access) : argus_http_access_result_t * http_access :=
  let '(expected, c) := expected_origin (rq_view_again rq) 32 (ha_conflict s) in
  let s := s <| ha_conflict := c |> in
  match expected, header_exact rq (str "Origin") ORIGIN_HEADER_MAX, header_exact rq (str "Host") HOST_HEADER_MAX with
  | Some expected, Some origin, Some host =>
      if negb (bool_decide (origin = expected)) then (ARGUS_HTTP_ACCESS_ORIGIN, s)
      else
        let expected_host := drop (length (str "http://")) expected in
        if bool_decide (host = expected_host) then (ARGUS_HTTP_ACCESS_OK, s)
        else match printed_whole 32 (expected_host ++ str ":80") with
             | Some with_port =>
                 if bool_decide (host = with_port) then (ARGUS_HTTP_ACCESS_OK, s) else (ARGUS_HTTP_ACCESS_ORIGIN, s)
             | None => (ARGUS_HTTP_ACCESS_ORIGIN, s)
             end
  | _, _, _ => (ARGUS_HTTP_ACCESS_ORIGIN, s)
  end.

(** ** The session cookie *)

Definition blank (c : Z) : bool := (c =? 32) || (c =? 59).
Definition not_char (d c : Z) : bool := negb (c =? d).

(** The loop, with the text from [cursor] on; every round consumes a byte. *)
Fixpoint parse_cookies (fuel : nat) (cursor : bytes) (found : option bytes) : option bytes :=
  match fuel, cursor with
  | O, _ => None
  | _, [] => found
  | S fuel, _ =>
      let cursor := skip_while blank cursor in
      let field := take_while (not_char 59) cursor in
      let rest := skip_while (not_char 59) cursor in
      match skip_while (not_char 61) field with
      | [] => None
      | _ :: value =>
          let continue_with found :=
            match rest with
            | [] => found
            | _ :: cursor => parse_cookies fuel cursor found
            end in
          if bool_decide (take_while (not_char 61) field = ARGUS_SESSION_COOKIE_NAME) then
            match found with
            | Some _ => None
            | None =>
                if (length value =? ARGUS_SESSION_TOKEN_HEX_LEN)%nat then continue_with (Some value) else None
            end
          else continue_with found
      end
  end.

Definition parse_cookie_header (header : bytes) : option bytes := parse_cookies (S (length header)) header None.

Definition argus_http_security_cookie (rq : http_request) : option bytes :=
  header ← header_exact rq (str "Cookie") COOKIE_HEADER_MAX; parse_cookie_header header.

(** The diagnostic build's entry points. *)
Definition argus_http_security_test_parse_cookie (input : option bytes) : option bytes :=
  match input with
  | Some input => if (COOKIE_HEADER_MAX <=? length input)%nat then None else parse_cookie_header input
  | None => None
  end.

Definition argus_http_security_test_normalize_address (ipv6 : bool) (address : option bytes) : option Z :=
  match address with
  | Some a =>
      if negb (length a =? if ipv6 then 16 else 4)%nat then None
      else socket_address_ipv4 (if ipv6 then AF_INET6 a else AF_INET (word a))
  | None => None
  end.

(** ** The gate *)

(** What the store answers: its status (the security epoch) and the console's verifier with
    its version; and the user directory, [None] before it is initialised. *)
Record security_answers := SecurityAnswers {
  sa_security_epoch : esp_err_t + Z;
  sa_console : esp_err_t + argus_password_verifier_t * Z;
  sa_directory : option security_directory
}.

Definition directory_find_id (a : security_answers) (identifier : bytes) : option argus_security_human_record_t :=
  directory ← sa_directory a;
  match argus_security_directory_find_id directory identifier with
  | inr (human, _) => Some human
  | inl _ => None
  end.

Definition principal_current (a : security_answers) (principal : argus_principal_t) : bool :=
  match pr_type principal with
  | ARGUS_PRINCIPAL_CONSOLE =>
      match sa_security_epoch a, sa_console a with
      | inr epoch, inr (_, version) =>
          (version =? pr_credential_version principal) && (epoch =? pr_security_epoch principal)
          && (epoch =? pr_principal_revision principal)
      | _, _ => false
      end
  | ARGUS_PRINCIPAL_HUMAN =>
      match directory_find_id a (pr_identifier principal), sa_security_epoch a with
      | Some human, inr epoch =>
          negb (hu_enabled human =? 0) && (hu_revoked human =? 0)
          && (hu_credential_version human =? pr_credential_version principal)
          && (hu_record_security_epoch human =? pr_principal_revision principal)
          && (epoch =? pr_security_epoch principal)
      | _, _ => false
      end
  | _ => false
  end.

Section Gate.
Variable sha256 : bytes -> option bytes.

(** The principal with its index when the cookie names a current session; the token is
    revoked otherwise. *)
Definition authenticate_request (a : security_answers) (rq : http_request) (m : session_manager)
    : option (bytes * argus_principal_t * nat) * session_manager :=
  match argus_http_security_cookie rq with
  | None => (None, m)
  | Some token =>
      let '(err, m, out) := argus_session_manager_authenticate sha256 m (Some token) (rq_session_us rq) in
      match err, out with
      | ESP_OK, Some (principal, index) =>
          if principal_current a principal then (Some (token, principal, index), m)
          else (None, (argus_session_manager_revoke_token sha256 m (Some token)).2)
      | _, _ => (None, (argus_session_manager_revoke_token sha256 m (Some token)).2)
      end
  end.

(** The tests a mutation passes after authentication and authorization. *)
Definition mutation_gate (rq : http_request) (index : nat) (s : http_access)
    : argus_http_access_result_t * http_access :=
  if negb (argus_http_security_json_content_type rq) then (ARGUS_HTTP_ACCESS_CONTENT_TYPE, s)
  else
    let '(result, s) := argus_http_security_origin rq s in
    match result with
    | ARGUS_HTTP_ACCESS_OK =>
        match header_exact rq ARGUS_CSRF_HEADER (S ARGUS_SESSION_TOKEN_HEX_LEN) with
        | Some csrf =>
            if argus_session_manager_csrf_valid sha256 (ha_sessions s) index (Some csrf)
            then (ARGUS_HTTP_ACCESS_OK, s) else (ARGUS_HTTP_ACCESS_CSRF, s)
        | None => (ARGUS_HTTP_ACCESS_CSRF, s)
        end
    | _ => (result, s)
    end.

(** A null request or context is [None]. *)
Definition argus_http_security_require (a : security_answers) (now_us : Z) (rq : option http_request)
    (required : Z) (mutation : bool) (s : http_access)
    : argus_http_access_result_t * argus_http_security_context_t * http_access :=
  match rq with
  | None => (ARGUS_HTTP_ACCESS_INTERNAL, zero_context, s)
  | Some rq =>
      let epoch := match sa_security_epoch a with inr e => e | inl _ => 0 end in
      let '(result, peer, s) := argus_http_security_ap_only now_us epoch (rq_view rq) s in
      match result with
      | ARGUS_HTTP_ACCESS_OK =>
          let '(who, m) := authenticate_request a rq (ha_sessions s) in
          let s := s <| ha_sessions := m |> in
          match who with
          | None => (ARGUS_HTTP_ACCESS_UNAUTHENTICATED, zero_context, s)
          | Some (token, principal, index) =>
              let out := HttpContext principal index (default 0 peer) token in
              if negb (required =? 0)
                 && negb (bool_decide (argus_authorization_require (Some principal) required = ARGUS_AUTHZ_ALLOW))
              then (ARGUS_HTTP_ACCESS_FORBIDDEN, out, s)
              else if negb mutation then (ARGUS_HTTP_ACCESS_OK, out, s)
              else let '(result, s) := mutation_gate rq index s in (result, out, s)
          end
      | _ => (result, zero_context, s)
      end
  end.
End Gate.

(** ** Responses *)

Record http_response := HttpResponse {
  rs_status : bytes;
  rs_type : bytes;
  rs_headers : list (bytes * bytes);
  rs_body : bytes
}.

(** The type and the headers every response carries. *)
Definition argus_http_security_headers (html : bool) : bytes * list (bytes * bytes) :=
  (if html then str "text/html; charset=utf-8" else str "application/json",
   [(str "Cache-Control", str "no-store"); (str "Pragma", str "no-cache");
    (str "X-Content-Type-Options", str "nosniff"); (str "X-Frame-Options", str "DENY");
    (str "Referrer-Policy", str "no-referrer");
    (str "Content-Security-Policy",
     str "default-src 'self'; script-src 'self' 'unsafe-inline'; style-src 'self' 'unsafe-inline'; connect-src 'self'; img-src 'self' data:; frame-ancestors 'none'; base-uri 'none'; form-action 'self'")]).

Definition error_body (error : bytes) : bytes :=
  str "{" ++ quoted (str "ok") ++ str ":false," ++ quoted (str "error") ++ str ":" ++ quoted error ++ str "}".

Definition argus_http_security_send_error (result : argus_http_access_result_t) : http_response :=
  let '(type, headers) := argus_http_security_headers false in
  let '(status, error) :=
    match result with
    | ARGUS_HTTP_ACCESS_NOT_AP => (str "403 Forbidden", str "local_ap_required")
    | ARGUS_HTTP_ACCESS_UNAUTHENTICATED => (str "401 Unauthorized", str "authentication_required")
    | ARGUS_HTTP_ACCESS_FORBIDDEN => (str "403 Forbidden", str "forbidden")
    | ARGUS_HTTP_ACCESS_CSRF | ARGUS_HTTP_ACCESS_ORIGIN => (str "403 Forbidden", str "request_protection_failed")
    | ARGUS_HTTP_ACCESS_CONTENT_TYPE => (str "415 Unsupported Media Type", str "unsupported_media_type")
    | _ => (str "500 Internal Server Error", str "internal_error")
    end in
  HttpResponse status type headers (error_body error).

(** ** The cookie header *)

(** A cookie as a browser prints it: no separator in its name, no semicolon in its value,
    and not blank in front. *)
Definition cookie_wf (c : bytes * bytes) : Prop :=
  all (fun d => not_char 61 d && not_char 59 d) c.1 /\ all (not_char 59) c.2 /\
  match c.1 with [] => True | d :: _ => d <> 32 end.

Definition print_cookie (c : bytes * bytes) : bytes := c.1 ++ 61 :: c.2.

(** [n1=v1; n2=v2; ...] *)
Fixpoint print_jar (jar : list (bytes * bytes)) : bytes :=
  match jar with
  | [] => []
  | c :: jar => match jar with [] => print_cookie c | _ => print_cookie c ++ [59; 32] ++ print_jar jar end
  end.

Definition is_session (c : bytes * bytes) : bool := bool_decide (c.1 = ARGUS_SESSION_COOKIE_NAME).

(** The session token of a jar: that of its one session cookie. *)
Definition jar_token (jar : list (bytes * bytes)) : option bytes :=
  match List.filter is_session jar with
  | [(_, token)] => if (length token =? ARGUS_SESSION_TOKEN_HEX_LEN)%nat then Some token else None
  | _ => None
  end.

(** The same with a token already found. *)
Definition jar_token_after (found : option bytes) (jar : list (bytes * bytes)) : option bytes :=
  match found with
  | None => jar_token jar
  | Some token => match List.filter is_session jar with [] => Some token | _ => None end
  end.

Lemma cookie_field c rest : cookie_wf c -> match rest with [] => True | d :: _ => d = 59 end ->
  let text := print_cookie c ++ rest in
  skip_while blank text = text /\ take_while (not_char 59) text = print_cookie c /\
  skip_while (not_char 59) text = rest /\
  take_while (not_char 61) (print_cookie c) = c.1 /\ skip_while (not_char 61) (print_cookie c) = 61 :: c.2.
Proof.
  destruct c as [name value]. intros (Hn & Hv & Hh) Hrest text. cbn [fst snd] in *.
  assert (Hall : all (not_char 59) (print_cookie (name, value))).
  { unfold print_cookie. cbn [fst snd]. apply Forall_app. split; [|by constructor].
    eapply Forall_impl; [exact Hn|]. intros d Hd. by apply andb_true_iff in Hd as [_ ?]. }
  assert (Hname : all (not_char 61) name).
  { eapply Forall_impl; [exact Hn|]. intros d Hd. by apply andb_true_iff in Hd as [? _]. }
  split; [|split; [|split]].
  - unfold text, print_cookie. cbn [fst snd]. destruct name as [|d name]; [done|]. cbn [app]. apply skip_while_stop.
    apply Forall_inv in Hn. cbn beta in Hn. unfold not_char in Hn. unfold blank. b2p. by apply orb_false_iff; split; apply Z.eqb_neq.
  - apply while_app; [done|]. destruct rest; [done|]. by subst.
  - apply while_app; [done|]. destruct rest; [done|]. by subst.
  - unfold print_cookie. cbn [fst snd]. by apply while_app.
Qed.

Lemma jar_token_cons c jar found : jar_token_after found (c :: jar) =
  if is_session c then
    match found with
    | Some _ => None
    | None => if (length c.2 =? ARGUS_SESSION_TOKEN_HEX_LEN)%nat then jar_token_after (Some c.2) jar else None
    end
  else jar_token_after found jar.
Proof.
  unfold jar_token_after, jar_token. cbn [List.filter]. destruct (is_session c) eqn:Hc; [|done].
  destruct found; [done|]. destruct c as [n t]. cbn [snd]. destruct (List.filter is_session jar); by destruct (_ =? _)%nat.
Qed.

Lemma parse_jar jar : forall fuel found, jar <> [] -> Forall cookie_wf jar -> (length (print_jar jar) < fuel)%nat ->
  parse_cookies fuel (print_jar jar) found = jar_token_after found jar /\
  parse_cookies (S fuel) (32 :: print_jar jar) found = jar_token_after found jar.
Proof.
  induction jar as [|c jar IH]; [done|]. intros fuel found _ Hwf Hf. inversion Hwf as [|? ? Hc Hjar]; subst.
  set (rest := match jar with [] => [] | _ => [59; 32] ++ print_jar jar end).
  assert (Hp : print_jar (c :: jar) = print_cookie c ++ rest) by (destruct jar; [by rewrite app_nil_r|done]).
  assert (Hr : match rest with [] => True | d :: _ => d = 59 end) by (unfold rest; by destruct jar).
  rewrite Hp in *. rewrite jar_token_cons.
  destruct (cookie_field c rest Hc Hr) as (H1 & H2 & H3 & H4 & H5).
  assert (Hstep : forall fuel' text, (length rest <= fuel')%nat -> text <> [] -> skip_while blank text = print_cookie c ++ rest ->
    parse_cookies (S fuel') text found =
      if is_session c then
        match found with
        | Some _ => None
        | None => if (length c.2 =? ARGUS_SESSION_TOKEN_HEX_LEN)%nat then jar_token_after (Some c.2) jar else None
        end
      else jar_token_after found jar).
  { intros fuel' text Hf' Hne Hs. destruct text as [|d text]; [done|]. cbn [parse_cookies]. rewrite Hs, H2, H3, H5, H4.
    assert (Hk : forall found', match rest with [] => found' | _ :: cursor => parse_cookies fuel' cursor found' end
      = jar_token_after found' jar).
    { intros found'. destruct jar as [|c' jar]; [by destruct found'|]. unfold rest in *. cbn [app].
      cbn [app length] in Hf'. destruct fuel' as [|f]; [lia|].
      apply (IH f found'); [done|done|lia]. }
    unfold is_session. rewrite !Hk. by case_bool_decide. }
  assert (Hlen : (length rest < length (print_cookie c ++ rest))%nat).
  { rewrite length_app. unfold print_cookie. rewrite length_app. cbn [length]. lia. }
  destruct fuel as [|fuel]; [lia|]. split.
  - apply Hstep; [lia| |done]. unfold print_cookie. by destruct c.1.
  - apply Hstep; [lia|done|exact H1].
Qed.

(** The session token is read from the cookie header as a browser prints it, whatever
    other cookies stand around it: it is the value of the one cookie with the session's
    name, provided it has exactly 64 bytes; without that cookie, with two of them, or with
    a value of another length there is none. *)
Theorem cookie_reads_jar jar : Forall cookie_wf jar ->
  parse_cookie_header (print_jar jar) = jar_token jar.
Proof.
  intros Hwf. destruct (decide (jar = [])) as [->|Hne]; [done|].
  apply (parse_jar jar (S (length (print_jar jar))) None Hne Hwf). lia.
Qed.

Lemma cookie_reads_jar_witness :
  let token := replicate 64 97 in
  parse_cookie_header (print_jar [(str "theme", str "dark"); (ARGUS_SESSION_COOKIE_NAME, token); (str "lang", str "a=b")])
    = Some token.
Proof.
  intros token. rewrite (cookie_reads_jar [(str "theme", str "dark"); (ARGUS_SESSION_COOKIE_NAME, token); (str "lang", str "a=b")]).
  - vm_compute. reflexivity.
  - repeat constructor; vm_compute; done.
Defined.

(** ** What the gate lets through *)

(** The socket's local end is the access point, unambiguously, and the peer another host
    of its network. *)
Definition on_softap (v : socket_view) (peer_addr : Z) (local_ip : bytes) : Prop :=
  exists local peer ap_addr netmask, sv_ends v = Some (local, peer) /\ sv_ap v = Some (ap_addr, netmask) /\
    socket_address_ipv4 local = Some ap_addr /\ ap_addr <> 0 /\ sv_sta v <> Some ap_addr /\
    socket_address_ipv4 peer = Some peer_addr /\ peer_addr <> ap_addr /\ peer_addr <> 0 /\
    Z.land peer_addr netmask = Z.land ap_addr netmask /\ sv_printed v = Some local_ip.

Lemma classify_softap now local ap_valid ap sta_valid sta c c' :
  argus_net_mgr_classify_interface now local ap_valid ap sta_valid sta c = (ARGUS_NET_IFACE_SOFTAP, c') ->
  ap_valid = true /\ ap <> 0 /\ local = ap /\ (sta_valid = true -> sta <> ap).
Proof.
  unfold argus_net_mgr_classify_interface. destruct (Z.eqb_spec local 0); [done|].
  destruct ap_valid; cbn [andb].
  2: { intros H. destruct (_ && _ && _); done. }
  destruct (Z.eqb_spec ap 0) as [->|Hz].
  { rewrite andb_false_r. cbn [negb andb]. destruct (_ && _); done. }
  rewrite !andb_true_r. destruct (Z.eqb_spec local ap) as [->|]; cbn [negb andb].
  2: { destruct (_ && _); [done|]. by destruct (_ && _). }
  destruct sta_valid; cbn [andb]; [|done].
  destruct (Z.eqb_spec ap sta) as [|Hne]; [done|]. intros _. split_and!; [done|done|done|]. intros _ ->. done.
Qed.

Lemma softap_spec v c peer_addr local_ip c' :
  socket_is_softap v c = (Some (peer_addr, local_ip), c') -> on_softap v peer_addr local_ip.
Proof.
  unfold socket_is_softap. destruct (sv_ends v) as [[local peer]|] eqn:He; [|done].
  destruct (socket_address_ipv4 local) as [la|] eqn:Hl; [|done].
  destruct (socket_address_ipv4 peer) as [pa|] eqn:Hp; [|done].
  destruct (default (0, 0) (sv_ap v)) as [ap mask] eqn:Ha.
  destruct (argus_net_mgr_classify_interface _ _ _ _ _ _ _) as [iface c1] eqn:Hc. destruct iface; [done| |done|done].
  destruct (_ || _) eqn:Ho; [done|]. destruct (sv_printed v) as [ip|] eqn:Hi; [|done]. intros [= <- <- <-]. b2p.
  apply classify_softap in Hc as (Hv & Hz & -> & Hs). destruct (sv_ap v) as [a|] eqn:Hap; [|done].
  cbn [from_option id] in Ha. subst a. exists local, peer, ap, mask. split_and!; try done.
  intros Hsta. rewrite Hsta in Hs. by apply Hs.
Qed.

(** The session a token names, alive at a time. *)
Definition live_session (sha256 : bytes -> option bytes) (m : session_manager) (token : bytes) (now_us : Z)
    (index : nat) (r : argus_session_record_t) : Prop :=
  s_sessions m !! index = Some r /\ sr_occupied r = true /\ expired r now_us = false /\
  digest_secret sha256 (Some token) = Some (sr_token_digest r).

Section Soundness.
Context (sha256 : bytes -> option bytes).

Lemma authenticate_request_sound a rq m token p index m' :
  authenticate_request sha256 a rq m = (Some (token, p, index), m') ->
  argus_http_security_cookie rq = Some token /\ principal_current a p = true /\
  exists r, live_session sha256 m token (rq_session_us rq) index r /\ sr_principal r = p /\
    sm_mutex m' = true /\ occupied_at (s_sessions m') index = Some (r <| sr_last_activity_us := rq_session_us rq |>).
Proof.
  unfold authenticate_request. destruct (argus_http_security_cookie rq) as [tk|]; [|done].
  unfold argus_session_manager_authenticate. destruct (sm_mutex m) eqn:Hm; [|done]. cbn [negb].
  destruct (argus_session_authenticate sha256 (s_sessions m) (Some tk) (rq_session_us rq)) as [[err t] out] eqn:Ha.
  apply authenticate_spec in Ha as [_ Ha]. destruct out as [[q i]|].
  2: { destruct Ha as [Hne _]. by destruct err. }
  destruct Ha as (-> & d & r & Hd & Hr & Hh & Hq & Ht). destruct (principal_current a q) eqn:Hcur; [|done].
  intros [= -> -> -> <-]. split; [done|]. split; [done|]. exists r.
  unfold has_digest in Hh. b2p. subst d. rewrite list_lookup_fmap in Hr. destruct (s_sessions m !! index) as [r0|] eqn:H0; [|done].
  cbn [fmap option_fmap option_map] in Hr. injection Hr as Hr. unfold purge in Hr.
  destruct (sr_occupied r0 && expired r0 (rq_session_us rq)) eqn:He; [by subst r|]. subst r0.
  assert (Ho : sr_occupied r = true) by done. rewrite Ho in He. cbn [andb] in He.
  split; [by split_and!|]. split; [done|]. split; [done|]. cbn [s_sessions]. rewrite Ht. unfold occupied_at.
  rewrite list_lookup_insert_eq; [cbn; by rewrite Ho|].
  rewrite length_fmap. by eapply lookup_lt_Some.
Qed.

(** What a request that changes state has shown: JSON, a page of this device, and the
    session's CSRF secret. *)
Definition protected_mutation (rq : http_request) (r : argus_session_record_t) : Prop :=
  header_exact rq (str "Content-Type") 48 = Some (str "application/json") /\
  (exists peer ip, on_softap (rq_view_again rq) peer ip /\
     header_exact rq (str "Origin") ORIGIN_HEADER_MAX = Some (str "http://" ++ ip) /\
     (header_exact rq (str "Host") HOST_HEADER_MAX = Some ip \/
      header_exact rq (str "Host") HOST_HEADER_MAX = Some (ip ++ str ":80"))) /\
  exists csrf, header_exact rq ARGUS_CSRF_HEADER 65 = Some csrf /\
    digest_secret sha256 (Some csrf) = Some (sr_csrf_digest r).

Lemma printed_whole_spec n text out : printed_whole n text = Some out -> out = text.
Proof. unfold printed_whole. case_match; [by intros [= <-]|done]. Qed.

Lemma origin_sound rq s s' : argus_http_security_origin rq s = (ARGUS_HTTP_ACCESS_OK, s') ->
  ha_sessions s' = ha_sessions s /\
  exists peer ip, on_softap (rq_view_again rq) peer ip /\
     header_exact rq (str "Origin") ORIGIN_HEADER_MAX = Some (str "http://" ++ ip) /\
     (header_exact rq (str "Host") HOST_HEADER_MAX = Some ip \/
      header_exact rq (str "Host") HOST_HEADER_MAX = Some (ip ++ str ":80")).
Proof.
  unfold argus_http_security_origin, expected_origin. destruct (socket_is_softap _ _) as [softap c] eqn:Hs.
  destruct softap as [[peer ip]|]; [|done].
  destruct (printed_whole 32 (str "http://" ++ ip)) as [expected|] eqn:He; [|done]. apply printed_whole_spec in He as ->.
  destruct (header_exact rq (str "Origin") ORIGIN_HEADER_MAX) as [origin|]; [|done].
  destruct (header_exact rq (str "Host") HOST_HEADER_MAX) as [host|]; [|done].
  case_bool_decide as Ho; cbn [negb]; [subst origin|done]. rewrite drop_app_length.
  intros H. assert (ha_sessions s' = ha_sessions s).
  { revert H. case_bool_decide; [by intros [= <-]|]. destruct (printed_whole _ _); [|done]. case_bool_decide; [by intros [= <-]|done]. }
  split; [done|]. exists peer, ip. split; [by eapply softap_spec|]. split; [done|]. revert H.
  case_bool_decide as Hh; [by left; subst|]. destruct (printed_whole 32 (ip ++ str ":80")) as [w|] eqn:Hw; [|done].
  apply printed_whole_spec in Hw as ->. case_bool_decide; [|done]. by right; subst.
Qed.

Lemma mutation_gate_sound rq index s s' r :
  mutation_gate sha256 rq index s = (ARGUS_HTTP_ACCESS_OK, s') ->
  occupied_at (s_sessions (ha_sessions s)) index = Some r -> protected_mutation rq r.
Proof.
  unfold mutation_gate. destruct (argus_http_security_json_content_type rq) eqn:Hj; cbn [negb]; [|done].
  destruct (argus_http_security_origin rq s) as [result s1] eqn:Ho. destruct result; try done.
  destruct (header_exact rq ARGUS_CSRF_HEADER (S ARGUS_SESSION_TOKEN_HEX_LEN)) as [csrf|] eqn:Hx; [|done].
  destruct (argus_session_manager_csrf_valid _ _ _ _) eqn:Hv; [|done]. intros [= <-] Hr.
  apply origin_sound in Ho as (Hs & Ho). split; [|split; [done|]].
  - unfold argus_http_security_json_content_type in Hj. destruct (header_exact rq (str "Content-Type") 48); [|done]. b2p. by subst.
  - exists csrf. split; [done|]. unfold argus_session_manager_csrf_valid in Hv. b2p. rewrite Hs in *.
    unfold argus_session_csrf_valid in *. rewrite Hr in *. destruct (digest_secret sha256 (Some csrf)); [|done]. b2p. by subst.
Qed.

Lemma ap_only_ok now_us epoch v s peer s' :
  argus_http_security_ap_only now_us epoch v s = (ARGUS_HTTP_ACCESS_OK, peer, s') ->
  ha_sessions s' = ha_sessions s /\ exists key ip, peer = Some key /\ on_softap v key ip.
Proof.
  unfold argus_http_security_ap_only. destruct (socket_is_softap v (ha_conflict s)) as [[[key ip]|] c] eqn:Hs; [|done].
  intros [= <- <-]. split; [done|]. exists key, ip. split; [done|]. by eapply softap_spec.
Qed.

(** The gate of the browser surface is sound: a request is let through only when it
    arrived on the access point itself, from another host of its network, and not on an
    address the station interface also holds; its cookie names a session that is alive; the
    account behind the session is still current, with the credential version and security
    epoch it was opened with, and, if a human's, enabled and not revoked; the session's
    principal holds every permission the handler requires; and a request that changes state
    is JSON, comes from a page of this device, and carries the session's own CSRF secret. *)
Theorem gate_sound a now_us rq required mutation s ctx s' :
  argus_http_security_require sha256 a now_us (Some rq) required mutation s = (ARGUS_HTTP_ACCESS_OK, ctx, s') ->
  (exists ip, on_softap (rq_view rq) (hc_peer_key ctx) ip) /\
  argus_http_security_cookie rq = Some (hc_session_token ctx) /\
  principal_current a (hc_principal ctx) = true /\
  (required <> 0 -> argus_authorization_principal_valid (Some (hc_principal ctx)) = true /\
     Z.land (pr_permissions (hc_principal ctx)) required = required) /\
  exists r, live_session sha256 (ha_sessions s) (hc_session_token ctx) (rq_session_us rq) (hc_session_index ctx) r /\
    sr_principal r = hc_principal ctx /\ (mutation = true -> protected_mutation rq r).
Proof.
  unfold argus_http_security_require.
  destruct (argus_http_security_ap_only _ _ _ _) as [[result peer] s1] eqn:Hap. destruct result; try done.
  apply ap_only_ok in Hap as (Hs1 & key & ip & -> & Hsoft).
  destruct (authenticate_request sha256 a rq (ha_sessions s1)) as [[[[token p] index]|] m] eqn:Hau; [|done].
  apply authenticate_request_sound in Hau as (Hck & Hcur & r & Hlive & Hp & _ & Hocc).
  destruct (negb (required =? 0) && _) eqn:Hreq; [done|].
  assert (Hperm : required <> 0 -> argus_authorization_principal_valid (Some p) = true /\ Z.land (pr_permissions p) required = required).
  { intros Hz. rewrite (proj2 (Z.eqb_neq required 0) Hz) in Hreq. cbn [negb andb] in Hreq.
    apply negb_false_iff, bool_decide_eq_true in Hreq. revert Hreq. unfold argus_authorization_require.
    destruct (argus_authorization_principal_valid (Some p)); [|done].
    destruct (_ || _); [done|]. by destruct (Z.eqb_spec (Z.land (pr_permissions p) required) required). }
  assert (Hend : (mutation = true -> protected_mutation (rq) r) -> ctx = HttpContext p index key token ->
    (exists ip, on_softap (rq_view rq) (hc_peer_key ctx) ip) /\
    argus_http_security_cookie rq = Some (hc_session_token ctx) /\
    principal_current a (hc_principal ctx) = true /\
    (required <> 0 -> argus_authorization_principal_valid (Some (hc_principal ctx)) = true /\
       Z.land (pr_permissions (hc_principal ctx)) required = required) /\
    exists r, live_session sha256 (ha_sessions s) (hc_session_token ctx) (rq_session_us rq) (hc_session_index ctx) r /\
      sr_principal r = hc_principal ctx /\ (mutation = true -> protected_mutation rq r)).
  { intros Hm ->. cbn. rewrite Hs1 in Hlive. split; [by exists ip|]. split; [done|]. split; [done|]. split; [done|]. by exists r. }
  destruct mutation; cbn [negb].
  - destruct (mutation_gate sha256 rq index _) as [result s2] eqn:Hm. intros [= -> <- _]. apply Hend; [|done].
    intros _. exact (mutation_gate_sound _ _ _ _ _ Hm Hocc).
  - intros [= <- _]. by apply Hend.
Qed.

Lemma revoked_token_absent m token d : table_inv (s_sessions m) -> sm_mutex m = true ->
  digest_secret sha256 (Some token) = Some d ->
  absent (fun d' _ => bool_decide (d' = d)) (s_sessions (argus_session_manager_revoke_token sha256 m (Some token)).2).
Proof.
  intros Hinv Hm Hd. unfold argus_session_manager_revoke_token, argus_session_revoke_token. rewrite Hm, Hd. cbn [negb].
  pose proof (revoke_first_absent d (s_sessions m) (inv_unique _ Hinv d)) as H. by destruct (revoke_first _ _).
Qed.

Lemma absent_never_authenticates t token d now : digest_secret sha256 (Some token) = Some d ->
  absent (fun d' _ => bool_decide (d' = d)) t -> (argus_session_authenticate sha256 t (Some token) now).1.1 <> ESP_OK.
Proof.
  intros Hd Hab. destruct (argus_session_authenticate sha256 t (Some token) now) as [[err t'] [[p i]|]] eqn:Ha.
  - pose proof Ha as Ha'. apply authenticate_spec in Ha' as (_ & -> & _).
    eapply authenticate_absent in Ha as (d' & Hd' & Hp); [|exact Hab]. rewrite Hd in Hd'. simplify_eq.
    by apply bool_decide_eq_false in Hp.
  - by apply authenticate_spec in Ha as (_ & ? & _).
Qed.

(** A request refused as unauthenticated ends the session it came with: when the
    account was disabled, revoked or given another password, or the security epoch moved
    on, the first request on the old session is refused, and from then on its token is
    never accepted again, not even if the account is enabled anew. *)
Theorem refused_session_ends a now_us rq required mutation s ctx s' token calls now :
  table_inv (s_sessions (ha_sessions s)) -> sm_mutex (ha_sessions s) = true ->
  argus_http_security_require sha256 a now_us (Some rq) required mutation s
    = (ARGUS_HTTP_ACCESS_UNAUTHENTICATED, ctx, s') ->
  argus_http_security_cookie rq = Some token -> Forall (fun c => creates c = false) calls ->
  (argus_session_authenticate sha256 (s_sessions (session_run sha256 (ha_sessions s') calls)) (Some token) now).1.1
    <> ESP_OK.
Proof.
  intros Hinv Hm Hr Hck Hcalls.
  destruct (digest_secret sha256 (Some token)) as [d|] eqn:Hd.
  2: { unfold argus_session_authenticate. by destruct (now =? 0); [|rewrite Hd]. }
  enough (Hab : absent (fun d' _ => bool_decide (d' = d)) (s_sessions (ha_sessions s')) /\ table_inv (s_sessions (ha_sessions s'))).
  { destruct Hab as [Hab Hinv']. apply (absent_never_authenticates _ _ d); [done|].
    eapply absent_sub; [by apply run_sub|done]. }
  revert Hr. unfold argus_http_security_require.
  destruct (argus_http_security_ap_only _ _ _ _) as [[result peer] s1] eqn:Hap.
  destruct result; try done.
  2: { unfold argus_http_security_ap_only in Hap. by destruct (socket_is_softap _ _) as [[[]|] ]. }
  apply ap_only_ok in Hap as (Hs1 & _). destruct (authenticate_request sha256 a rq (ha_sessions s1)) as [who m] eqn:Hau.
  destruct who as [[[tk p] index]|].
  { destruct (negb (required =? 0) && _); [done|]. destruct mutation; cbn [negb]; [|done].
    unfold mutation_gate. destruct (negb _); [done|]. unfold argus_http_security_origin, expected_origin.
    destruct (socket_is_softap _ _) as [[[]|] ]; repeat case_match; simplify_eq/=; done. }
  intros [= _ <-]. cbn [ha_sessions]. change (ha_sessions (_ <| ha_sessions := m |>)) with m.
  revert Hau. unfold authenticate_request. rewrite Hck, Hs1. clear Hs1.
  unfold argus_session_manager_authenticate. rewrite Hm. cbn [negb].
  destruct (argus_session_authenticate sha256 (s_sessions (ha_sessions s)) (Some token) (rq_session_us rq)) as [[err t] out] eqn:Ha.
  apply authenticate_spec in Ha as [Hsub _].
  assert (Hinv1 : table_inv t) by (by eapply sub_table_inv).
  assert (Hgoal : forall m', (None : option (bytes * argus_principal_t * nat),
      (argus_session_manager_revoke_token sha256 (SessionManager true t) (Some token)).2) = (None, m') ->
    absent (fun d' _ => bool_decide (d' = d)) (s_sessions m') /\ table_inv (s_sessions m')).
  { intros m' [= <-]. split; [by apply revoked_token_absent|]. exact (step_inv sha256 (SessionManager true t) (CallRevokeToken (Some token)) Hinv1). }
  destruct err; try apply Hgoal. destruct out as [[q i]|]; [|apply Hgoal]. destruct (principal_current a q); [done|apply Hgoal].
Qed.
End Soundness.

(** ** Witnesses *)

Definition demo_console : argus_principal_t :=
  Principal ARGUS_PRINCIPAL_CONSOLE (str "argus_console") (str "*") 0 ARGUS_PERMISSION_DEFINED_MASK 0 3 1 1 true.

Definition demo_answers (version : Z) : security_answers := SecurityAnswers (inr 1) (inr (zero_verifier, version)) None.

Definition demo_softap : socket_view :=
  SocketView (Some (AF_INET 0x0104a8c0, AF_INET 0x0204a8c0)) (Some (0x0104a8c0, 0x00ffffff)) None 5000 (Some (str "192.168.4.1")).

Definition demo_token : bytes := hex_encode (replicate 32 1).

Definition demo_request : http_request :=
  let header name value (rest : bytes -> nat * (esp_err_t + bytes)) n :=
    if bool_decide (n = str name) then (length value, inr value) else rest n in
  HttpRequest demo_softap demo_softap
    (header "Content-Type"%string (str "application/json")
      (header "Origin"%string (str "http://192.168.4.1")
        (header "Host"%string (str "192.168.4.1")
          (header "Cookie"%string (str "argus_session=" ++ demo_token)
            (header "X-Argus-CSRF"%string (hex_encode (replicate 32 2)) (fun _ => (0%nat, inl ESP_ERR_NOT_FOUND)))))))
    2000.

Definition demo_session_table : argus_session_table_t :=
  (argus_session_create toy_sha argus_session_table_init (Some demo_console) 1000 toy_random).1.2.

Definition demo_access : http_access :=
  HttpAccess (IfaceConflict false 0 0 0 0) 0 (SessionManager true demo_session_table) [].

Lemma gate_sound_witness :
  let '(result, ctx, _) := argus_http_security_require toy_sha (demo_answers 3) 5000 (Some demo_request)
                             ARGUS_PERMISSION_MANAGE_NETWORK true demo_access in
  result = ARGUS_HTTP_ACCESS_OK /\ principal_current (demo_answers 3) (hc_principal ctx) = true.
Proof.
  destruct (argus_http_security_require toy_sha (demo_answers 3) 5000 (Some demo_request)
    ARGUS_PERMISSION_MANAGE_NETWORK true demo_access) as [[result ctx] s'] eqn:Hr.
  assert (Hok : result = ARGUS_HTTP_ACCESS_OK).
  { change result with (result, ctx, s').1.1. rewrite <- Hr. vm_compute. reflexivity. }
  split; [done|]. subst result. exact (proj1 (proj2 (proj2 (gate_sound toy_sha _ _ _ _ _ _ _ _ Hr)))).
Defined.

(** The console's password was changed: its version is 4, the session's 3. *)
Lemma refused_session_ends_witness :
  let '(result, _, s') := argus_http_security_require toy_sha (demo_answers 4) 5000 (Some demo_request)
                            ARGUS_PERMISSION_VIEW_STATUS false demo_access in
  result = ARGUS_HTTP_ACCESS_UNAUTHENTICATED /\
  (argus_session_authenticate toy_sha (s_sessions (session_run toy_sha (ha_sessions s') [])) (Some demo_token) 3000).1.1
    <> ESP_OK.
Proof.
  destruct (argus_http_security_require toy_sha (demo_answers 4) 5000 (Some demo_request)
    ARGUS_PERMISSION_VIEW_STATUS false demo_access) as [[result ctx] s'] eqn:Hr.
  assert (Hno : result = ARGUS_HTTP_ACCESS_UNAUTHENTICATED).
  { change result with (result, ctx, s').1.1. rewrite <- Hr. vm_compute. reflexivity. }
  split; [done|]. subst result.
  refine (refused_session_ends toy_sha _ _ _ _ _ demo_access ctx s' demo_token [] 3000 _ eq_refl Hr _ _).
  - apply (create_inv toy_sha argus_session_table_init), boot_inv.
  - vm_compute. reflexivity.
  - constructor.
Defined.
