(* ===== verification/HttpRoutes.v ===== *)
(** * The routes of the browser surface

    [src/main/argus_http_route_inventory.c]: the table of every HTTP route with the
    protection it requires, and the test that the table is consistent. *)

From S2P Require Import Prelude Authorization.

(** [httpd_method_t] of the server; the table uses these three. *)
Inductive httpd_method_t := HTTP_GET | HTTP_HEAD | HTTP_POST | HTTP_OTHER (code : Z).
#[export] Instance httpd_method_eq_dec : EqDecision httpd_method_t.
Proof. solve_decision. Defined.

Inductive argus_http_route_class_t :=
| ARGUS_HTTP_ROUTE_PUBLIC
| ARGUS_HTTP_ROUTE_AUTHENTICATED
| ARGUS_HTTP_ROUTE_ADMINISTRATIVE
| ARGUS_HTTP_ROUTE_BROWSER_COMMAND
| ARGUS_HTTP_ROUTE_RETIRED.
#[export] Instance route_class_eq_dec : EqDecision argus_http_route_class_t.
Proof. solve_decision. Defined.

Record argus_http_route_inventory_entry_t := Route {
  rt_path : option bytes;
  rt_method : httpd_method_t;
  rt_class : argus_http_route_class_t;
  rt_capabilities : Z;
  rt_capability_any : bool;
  rt_registered : bool;
  rt_ap_only : bool;
  rt_authentication : bool;
  rt_csrf : bool;
  rt_strict_json : bool;
  rt_security_mutation : bool;
  rt_browser_command_adapter : bool;
  rt_no_store : bool
}.

Definition ROUTE (path : string) (method : httpd_method_t) (class : argus_http_route_class_t) (caps : Z)
    (any registered auth csrf json security_mutation command : bool) : argus_http_route_inventory_entry_t :=
  Route (Some (str path)) method class caps any registered true auth csrf json security_mutation command true.

Definition ADMIN_PAGE_CAPABILITIES : Z :=
  foldl Z.lor 0
    [ARGUS_PERMISSION_MANAGE_USERS; ARGUS_PERMISSION_MANAGE_ROLES; ARGUS_PERMISSION_ENROLL_MACHINES; ARGUS_PERMISSION_REVOKE_MACHINES; ARGUS_PERMISSION_VIEW_AUDIT; ARGUS_PERMISSION_MANAGE_NETWORK; ARGUS_PERMISSION_CHANGE_AP_SECRET; ARGUS_PERMISSION_MANAGE_CLIENT_NETWORK; ARGUS_PERMISSION_MODIFY_IDENTITY; ARGUS_PERMISSION_MODIFY_PROTECTED_CONFIG; ARGUS_PERMISSION_COMMISSION; ARGUS_PERMISSION_CALIBRATE; ARGUS_PERMISSION_MANAGE_FIRMWARE; ARGUS_PERMISSION_INVOKE_RECOVERY; ARGUS_PERMISSION_FULL_SECURITY_RESET].

Definition BROWSER_COMMAND_CAPABILITIES : Z :=
  foldl Z.lor 0 [ARGUS_PERMISSION_MOTION; ARGUS_PERMISSION_SOFTWARE_ESTOP; ARGUS_PERMISSION_RESET_SOFTWARE_ESTOP].

#[local] Arguments ROUTE path%_string.

Definition ROUTES : list argus_http_route_inventory_entry_t :=
  [
   ROUTE "/login" HTTP_GET ARGUS_HTTP_ROUTE_PUBLIC 0 false true false false false false false;
   ROUTE "/api/auth/login" HTTP_POST ARGUS_HTTP_ROUTE_PUBLIC 0 false true false false true false false;
   ROUTE "/api/auth/session" HTTP_GET ARGUS_HTTP_ROUTE_AUTHENTICATED 0 false true true false false false false;
   ROUTE "/api/auth/logout" HTTP_POST ARGUS_HTTP_ROUTE_AUTHENTICATED 0 false true true true true true false;
   ROUTE "/api/auth/reauth" HTTP_POST ARGUS_HTTP_ROUTE_AUTHENTICATED 0 false true true true true true false;
   ROUTE "/api/auth/change-password" HTTP_POST ARGUS_HTTP_ROUTE_AUTHENTICATED 0 false true true true true true false;
   ROUTE "/operate" HTTP_GET ARGUS_HTTP_ROUTE_AUTHENTICATED ARGUS_PERMISSION_VIEW_STATUS false true true false false false false;
   ROUTE "/commission" HTTP_GET ARGUS_HTTP_ROUTE_ADMINISTRATIVE ADMIN_PAGE_CAPABILITIES true true true false false false false;
   ROUTE "/api/status" HTTP_GET ARGUS_HTTP_ROUTE_AUTHENTICATED ARGUS_PERMISSION_VIEW_STATUS false true true false false false false;
   ROUTE "/api/identity" HTTP_GET ARGUS_HTTP_ROUTE_AUTHENTICATED ARGUS_PERMISSION_VIEW_STATUS false true true false false false false;
   ROUTE "/" HTTP_GET ARGUS_HTTP_ROUTE_PUBLIC 0 false true false false false false false;
   ROUTE "/controls" HTTP_GET ARGUS_HTTP_ROUTE_AUTHENTICATED ARGUS_PERMISSION_VIEW_STATUS false true true false false false false;
   ROUTE "/change-password" HTTP_GET ARGUS_HTTP_ROUTE_AUTHENTICATED 0 false true true false false false false;
   ROUTE "/api/config" HTTP_GET ARGUS_HTTP_ROUTE_ADMINISTRATIVE (Z.lor (Z.lor ARGUS_PERMISSION_MODIFY_IDENTITY ARGUS_PERMISSION_MANAGE_CLIENT_NETWORK) ARGUS_PERMISSION_MODIFY_PROTECTED_CONFIG) true true true false false false false;
   ROUTE "/api/config/save" HTTP_POST ARGUS_HTTP_ROUTE_ADMINISTRATIVE (Z.lor ARGUS_PERMISSION_MODIFY_IDENTITY ARGUS_PERMISSION_MANAGE_CLIENT_NETWORK) true true true true true true false;
   ROUTE "/config/identity" HTTP_GET ARGUS_HTTP_ROUTE_ADMINISTRATIVE ARGUS_PERMISSION_MODIFY_IDENTITY false true true false false false false;
   ROUTE "/config/wifi" HTTP_GET ARGUS_HTTP_ROUTE_ADMINISTRATIVE ARGUS_PERMISSION_MANAGE_CLIENT_NETWORK false true true false false false false;
   ROUTE "/api/network/reconnect" HTTP_POST ARGUS_HTTP_ROUTE_ADMINISTRATIVE ARGUS_PERMISSION_MANAGE_CLIENT_NETWORK false true true true true false false;
   ROUTE "/api/restart" HTTP_POST ARGUS_HTTP_ROUTE_ADMINISTRATIVE ARGUS_PERMISSION_MANAGE_FIRMWARE false true true true true false false;
   ROUTE "/api/service/enter" HTTP_POST ARGUS_HTTP_ROUTE_ADMINISTRATIVE ARGUS_PERMISSION_REQUEST_AUTHORITY false true true true true false false;
   ROUTE "/api/service/exit" HTTP_POST ARGUS_HTTP_ROUTE_ADMINISTRATIVE ARGUS_PERMISSION_REQUEST_AUTHORITY false true true true true false false;
   ROUTE "/api/command" HTTP_POST ARGUS_HTTP_ROUTE_BROWSER_COMMAND BROWSER_COMMAND_CAPABILITIES true true true true true false true;
   ROUTE "/api/factory-reset" HTTP_POST ARGUS_HTTP_ROUTE_ADMINISTRATIVE ARGUS_PERMISSION_COMMISSION false true true true true true false;
   ROUTE "/api/security/accounts" HTTP_GET ARGUS_HTTP_ROUTE_ADMINISTRATIVE ARGUS_PERMISSION_MANAGE_USERS false true true false false false false;
   ROUTE "/api/security/accounts" HTTP_POST ARGUS_HTTP_ROUTE_ADMINISTRATIVE ARGUS_PERMISSION_MANAGE_USERS false true true true true true false;
   ROUTE "/api/security/accounts/action" HTTP_POST ARGUS_HTTP_ROUTE_ADMINISTRATIVE ARGUS_PERMISSION_MANAGE_USERS false true true true true true false;
   ROUTE "/api/security/roles" HTTP_GET ARGUS_HTTP_ROUTE_ADMINISTRATIVE ARGUS_PERMISSION_MANAGE_ROLES false true true false false false false;
   ROUTE "/api/security/roles" HTTP_POST ARGUS_HTTP_ROUTE_ADMINISTRATIVE ARGUS_PERMISSION_MANAGE_ROLES false true true true true true false;
   ROUTE "/api/security/audit" HTTP_GET ARGUS_HTTP_ROUTE_ADMINISTRATIVE ARGUS_PERMISSION_VIEW_AUDIT false true true false false false false;
   ROUTE "/api/security/ap-password" HTTP_POST ARGUS_HTTP_ROUTE_ADMINISTRATIVE (Z.lor ARGUS_PERMISSION_MANAGE_NETWORK ARGUS_PERMISSION_CHANGE_AP_SECRET) false true true true true true false;
   ROUTE "/api/security/recovery/exit" HTTP_POST ARGUS_HTTP_ROUTE_ADMINISTRATIVE ARGUS_PERMISSION_INVOKE_RECOVERY false true true true true true false;
   ROUTE "/api/security/machines" HTTP_GET ARGUS_HTTP_ROUTE_ADMINISTRATIVE (Z.lor ARGUS_PERMISSION_ENROLL_MACHINES ARGUS_PERMISSION_REVOKE_MACHINES) true true true false false false false;
   ROUTE "/api/security/machines" HTTP_POST ARGUS_HTTP_ROUTE_ADMINISTRATIVE ARGUS_PERMISSION_ENROLL_MACHINES false true true true true true false;
   ROUTE "/api/security/machines/action" HTTP_POST ARGUS_HTTP_ROUTE_ADMINISTRATIVE (Z.lor ARGUS_PERMISSION_ENROLL_MACHINES ARGUS_PERMISSION_REVOKE_MACHINES) true true true true true true false;
   ROUTE "/api/logout" HTTP_GET ARGUS_HTTP_ROUTE_RETIRED 0 false false false false false false false
  ].

Definition argus_http_route_inventory : list argus_http_route_inventory_entry_t * nat := (ROUTES, length ROUTES).

(** ** Validation *)

Definition starts_with_slash (path : option bytes) : bool :=
  match path with Some (c :: _) => c =? 47 | _ => false end.

Definition is_class (class : argus_http_route_class_t) (route : argus_http_route_inventory_entry_t) : bool :=
  bool_decide (rt_class route = class).

(** The tests on one entry. *)
Definition route_entry_valid (route : argus_http_route_inventory_entry_t) : bool :=
  if negb (starts_with_slash (rt_path route)) || negb (rt_ap_only route) || negb (rt_no_store route) then false
  else if eqb (rt_registered route) (is_class ARGUS_HTTP_ROUTE_RETIRED route) then false
  else if rt_security_mutation route
          && (bool_decide (rt_method route = HTTP_GET) || bool_decide (rt_method route = HTTP_HEAD)
              || negb (rt_authentication route) || negb (rt_csrf route) || negb (rt_strict_json route)) then false
  else if (is_class ARGUS_HTTP_ROUTE_ADMINISTRATIVE route || is_class ARGUS_HTTP_ROUTE_BROWSER_COMMAND route)
          && (rt_capabilities route =? 0) then false
  else eqb (rt_browser_command_adapter route) (is_class ARGUS_HTTP_ROUTE_BROWSER_COMMAND route).

(** The inner loop: an entry with the method and the path of a later one. *)
Definition same_route (a b : argus_http_route_inventory_entry_t) : bool :=
  bool_decide (rt_method a = rt_method b) && bool_decide (rt_path a = rt_path b).

Fixpoint validate_routes (routes : list argus_http_route_inventory_entry_t) : bool :=
  match routes with
  | [] => true
  | route :: later => route_entry_valid route && negb (existsb (same_route route) later) && validate_routes later
  end.

Definition argus_http_route_inventory_validate : bool := validate_routes ROUTES.

(** ** What validation promises *)

(** Every route is reachable on the access point only and not cached; one that changes
    security state is not a GET or HEAD and asks for a session, the CSRF secret and JSON;
    administrative and command routes ask for a permission; exactly the retired ones are
    not registered, and exactly the command route has the command adapter. *)
Record route_protected (r : argus_http_route_inventory_entry_t) : Prop := {
  rp_path : exists rest, rt_path r = Some (47 :: rest);
  rp_ap_only : rt_ap_only r = true;
  rp_no_store : rt_no_store r = true;
  rp_retired : rt_registered r = true <-> rt_class r <> ARGUS_HTTP_ROUTE_RETIRED;
  rp_mutation : rt_security_mutation r = true -> rt_method r <> HTTP_GET /\ rt_method r <> HTTP_HEAD /\
    rt_authentication r = true /\ rt_csrf r = true /\ rt_strict_json r = true;
  rp_permission : rt_class r = ARGUS_HTTP_ROUTE_ADMINISTRATIVE \/ rt_class r = ARGUS_HTTP_ROUTE_BROWSER_COMMAND ->
    rt_capabilities r <> 0;
  rp_command : rt_browser_command_adapter r = true <-> rt_class r = ARGUS_HTTP_ROUTE_BROWSER_COMMAND
}.

Lemma entry_valid_spec r : route_entry_valid r = true <-> route_protected r.
Proof.
  unfold route_entry_valid, is_class.
  assert (Hslash : starts_with_slash (rt_path r) = true <-> exists rest, rt_path r = Some (47 :: rest)).
  { destruct (rt_path r) as [[|c rest]|]; cbn; [by split; [|intros [? ?]]| |by split; [|intros [? ?]]].
    rewrite Z.eqb_eq. split; [intros ->; by eexists|by intros [? [= -> _]]]. }
  split.
  - intros H. destruct (negb (starts_with_slash _) || _ || _) eqn:H1; [done|]. destruct (eqb _ _) eqn:H2 in H; [done|].
    destruct (rt_security_mutation r && _) eqn:H3; [done|]. destruct (_ && (rt_capabilities r =? 0)) eqn:H4; [done|].
    apply eqb_prop in H. b2p. split.
    + by apply Hslash.
    + done.
    + done.
    + destruct (rt_registered r), (bool_decide_reflect (rt_class r = ARGUS_HTTP_ROUTE_RETIRED)); cbn in *; by split.
    + intros Hm. rewrite Hm in H3. cbn [andb] in H3. b2p. done.
    + intros Hc Hz. rewrite Hz, andb_true_r in H4. b2p. by destruct Hc.
    + rewrite H, bool_decide_eq_true. done.
  - intros [Hp Ha Hn Hr Hm Hc Hb]. apply Hslash in Hp. rewrite Hp, Ha, Hn. cbn [negb orb].
    assert (E1 : eqb (rt_registered r) (bool_decide (rt_class r = ARGUS_HTTP_ROUTE_RETIRED)) = false).
    { destruct (rt_registered r), (bool_decide_reflect (rt_class r = ARGUS_HTTP_ROUTE_RETIRED)); cbn; try done;
        [by destruct (proj1 Hr eq_refl)|by destruct Hr as [_ Hr]; specialize (Hr n)]. }
    assert (E2 : rt_security_mutation r && (bool_decide (rt_method r = HTTP_GET) || bool_decide (rt_method r = HTTP_HEAD)
      || negb (rt_authentication r) || negb (rt_csrf r) || negb (rt_strict_json r)) = false).
    { destruct (rt_security_mutation r); [|done]. destruct (Hm eq_refl) as (H1 & H2 & -> & -> & ->).
      by rewrite !bool_decide_eq_false_2. }
    assert (E3 : (bool_decide (rt_class r = ARGUS_HTTP_ROUTE_ADMINISTRATIVE)
      || bool_decide (rt_class r = ARGUS_HTTP_ROUTE_BROWSER_COMMAND)) && (rt_capabilities r =? 0) = false).
    { repeat case_bool_decide; cbn [orb andb]; try done; apply Z.eqb_neq, Hc; auto. }
    rewrite E1, E2, E3.
    destruct (rt_browser_command_adapter r), (bool_decide_reflect (rt_class r = ARGUS_HTTP_ROUTE_BROWSER_COMMAND));
      cbn; try done; [by destruct (n (proj1 Hb eq_refl))|by destruct Hb as [_ Hb]; specialize (Hb e)].
Qed.

Lemma same_route_spec a b : same_route a b = true <-> (rt_method a, rt_path a) = (rt_method b, rt_path b).
Proof. unfold same_route. rewrite andb_true_iff, !bool_decide_eq_true. split; [by intros [-> ->]|by intros [= -> ->]]. Qed.

Lemma validate_routes_iff routes :
  validate_routes routes = true <->
  Forall route_protected routes /\ NoDup (map (fun r => (rt_method r, rt_path r)) routes).
Proof.
  induction routes as [|r routes IH]; cbn [validate_routes map]; [split; [by repeat constructor|done]|].
  rewrite !andb_true_iff, IH, entry_valid_spec, negb_true_iff, Forall_cons, NoDup_cons, <- not_true_iff_false, existsb_exists.
  setoid_rewrite same_route_spec. rewrite list_elem_of_In, in_map_iff.
  assert (Hsym : (exists x, In x routes /\ (rt_method r, rt_path r) = (rt_method x, rt_path x)) <->
                 (exists x, (rt_method x, rt_path x) = (rt_method r, rt_path r) /\ In x routes)).
  { split; intros (x & ? & ?); exists x; by split. }
  rewrite Hsym. tauto.
Qed.

(** The validation of the route table decides its specification: a table is accepted
    exactly when every entry is protected as its class requires and no two entries have the
    same method and path, so that no route is shadowed by another; and the table of the
    source is accepted, with all 35 of its routes. *)
Theorem inventory_sound :
  (forall routes, validate_routes routes = true <->
     Forall route_protected routes /\ NoDup (map (fun r => (rt_method r, rt_path r)) routes)) /\
  argus_http_route_inventory_validate = true /\ length ROUTES = 35%nat.
Proof. split; [exact validate_routes_iff|]. split; vm_compute; reflexivity. Qed.
