(* ===== verification/UserAdmin.v ===== *)
(** * Administration of human accounts and roles

    [src/main/argus_security_admin.c]: the operations that read a snapshot of the user
    directory, change one account or role, commit the result if the directory has not
    moved on, and end the sessions of the account.  The snapshot and the derivation of a
    verifier are arguments. *)

From S2P Require Import Prelude Storage DualSlot Authorization SecurityRecords SecurityDirectory Sessions AuthService HttpAccess.

Abbreviation payload_t := argus_security_directory_payload_t.

Definition set_human (p : payload_t) (i : nat) (h : argus_security_human_record_t) : payload_t :=
  p <| dp_humans ::= fun l => <[i := h]> l |>.
Definition set_role (p : payload_t) (i : nat) (r : argus_security_role_record_t) : payload_t :=
  p <| dp_custom_roles ::= fun l => <[i := r]> l |>.

Definition indices (count : Z) : list nat := seq 0 (Z.to_nat count).

(** ** Permissions of an account *)

Definition unique_human (p : payload_t) (identifier login : bytes) : bool :=
  negb (existsb (fun i => bool_decide (hu_identifier (human_at p i) = identifier)
                          || bool_decide (hu_login (human_at p i) = login)) (indices (dp_human_count p))).

Definition requested_permissions (level direct : Z) : Z := Z.lor (argus_authorization_level_permissions level) direct.

(** The loop over the bits of the role mask; [UINT64_MAX] for a role that does not exist. *)
Fixpoint mask_permissions (p : payload_t) (role_mask : Z) (bits : list Z) (result : Z) : Z :=
  match bits with
  | [] => result
  | bit :: bits =>
      if Z.land role_mask (Z.shiftl 1 bit) =? 0 then mask_permissions p role_mask bits result
      else if bit <? ARGUS_SECURITY_BUILTIN_ROLE_COUNT then
        mask_permissions p role_mask bits (Z.lor result (argus_authorization_level_permissions bit))
      else
        let custom := bit - ARGUS_SECURITY_BUILTIN_ROLE_COUNT in
        if dp_custom_role_count p <=? custom then UINT64_MAX
        else mask_permissions p role_mask bits (Z.lor result (ro_permissions (role_at p (Z.to_nat custom))))
  end.

Definition human_permissions (p : payload_t) (human : argus_security_human_record_t) : Z :=
  mask_permissions p (hu_role_mask human) role_bits (hu_direct_permissions human).

Definition is_enabled_human_admin (p : payload_t) (human : argus_security_human_record_t) : bool :=
  negb (hu_enabled human =? 0) && (hu_revoked human =? 0)
  && negb (Z.land (human_permissions p human) ARGUS_PERMISSION_MANAGE_USERS =? 0).

Definition enabled_admins (p : payload_t) : nat :=
  length (List.filter (fun i => is_enabled_human_admin p (human_at p i)) (indices (dp_human_count p))).

Definition argus_security_admin_removal_would_lock_out (p : option payload_t) (target_index : nat) : bool :=
  match p with
  | None => true
  | Some p =>
      if (Z.to_nat (dp_human_count p) <=? target_index)%nat
         || negb (is_enabled_human_admin p (human_at p target_index)) then false
      else (enabled_admins p =? 1)%nat
  end.

(** [actor] is a valid principal wherever this is called. *)
Definition target_authorized (actor : argus_principal_t) (level : Z) (scope : bytes) (protected_identity : bool)
    (requested : Z) : esp_err_t :=
  if negb (bool_decide (argus_authorization_manage_target (Some actor) level (Some scope) protected_identity
                        = ARGUS_AUTHZ_ALLOW)) then ESP_ERR_NOT_ALLOWED
  else
    let special := Z.land requested ARGUS_PERMISSION_MANAGE_CLIENT_ADMINS in
    let requested := Z.land requested (Z.lnot ARGUS_PERMISSION_MANAGE_CLIENT_ADMINS) in
    if negb (requested =? 0)
       && negb (bool_decide (argus_authorization_delegate (Some actor) level (Some scope) requested = ARGUS_AUTHZ_ALLOW))
    then ESP_ERR_NOT_ALLOWED
    else if negb (special =? 0)
            && (negb (pr_level actor =? ARGUS_SECURITY_LEVEL_ARGUS_PERSONNEL)
                || negb (level =? ARGUS_SECURITY_LEVEL_CLIENT_ADMIN))
    then ESP_ERR_NOT_ALLOWED
    else ESP_OK.

(** ** The operations, up to their commit

    Each gives the payload to commit, or the error; the snapshot is the result of
    [directory_snapshot_alloc]. *)

Abbreviation snapshot_t := (esp_err_t + payload_t * Z)%type.

Section Operations.
Variable create_verifier : option bytes -> esp_err_t + argus_password_verifier_t.
Variable snapshot : snapshot_t.

Definition argus_security_admin_create_human (actor : option argus_principal_t)
    (identifier canonical_login display_name scope : bytes) (level direct_permissions : Z) (password : option bytes)
    : esp_err_t + payload_t :=
  match actor, argus_auth_canonicalize_login (Some canonical_login) with
  | Some a, Some normalized =>
      if negb (argus_authorization_principal_valid actor) || (ARGUS_SECURITY_LEVEL_VIEWER <? level)
         || negb (argus_auth_new_password_valid password) then inl ESP_ERR_INVALID_ARG
      else
        match target_authorized a level scope false (requested_permissions level direct_permissions), snapshot with
        | ESP_OK, inr (p, generation) =>
            if (ARGUS_SECURITY_MAX_HUMANS <=? dp_human_count p) || negb (unique_human p identifier normalized)
            then inl ESP_ERR_INVALID_STATE
            else
              match create_verifier password with
              | inl e => inl e
              | inr verifier =>
                  let human :=
                    HumanRecord ARGUS_SECURITY_RECORD_VERSION level 1 0 (strlcpy identifier 37) (strlcpy normalized 33)
                      (strlcpy display_name 49) (strlcpy scope 37) (u16 (Z.shiftl 1 level)) direct_permissions 1
                      (u32 (generation + 1)) 0 [0; 0; 0] verifier in
                  inr ((set_human p (Z.to_nat (dp_human_count p)) human) <| dp_human_count ::= fun n => u8 (n + 1) |>)
              end
        | ESP_OK, inl e => inl e
        | e, _ => inl e
        end
  | _, _ => inl ESP_ERR_INVALID_ARG
  end.

Definition find_identifier (p : payload_t) (identifier : bytes) : option nat :=
  find (fun i => bool_decide (hu_identifier (human_at p i) = identifier)) (indices (dp_human_count p)).

(** The actor, the payload, its generation and the index of the account. *)
Definition snapshot_target (actor : option argus_principal_t) (identifier : bytes)
    : esp_err_t + argus_principal_t * payload_t * Z * nat :=
  match actor with
  | Some a =>
      if negb (argus_authorization_principal_valid actor) then inl ESP_ERR_INVALID_ARG
      else
        match snapshot with
        | inl e => inl e
        | inr (p, generation) =>
            match find_identifier p identifier with
            | None => inl ESP_ERR_NOT_FOUND
            | Some i =>
                let human := human_at p i in
                match target_authorized a (hu_level human) (hu_scope human) (negb (hu_protected_identity human =? 0))
                        (human_permissions p human) with
                | ESP_OK => inr (a, p, generation, i)
                | e => inl e
                end
            end
        end
  | None => inl ESP_ERR_INVALID_ARG
  end.

Definition bump_record_epoch (h : argus_security_human_record_t) : argus_security_human_record_t :=
  h <| hu_record_security_epoch ::= nonzero_succ |>.

Definition argus_security_admin_set_enabled (actor : option argus_principal_t) (identifier : bytes) (enabled : bool)
    : esp_err_t + payload_t :=
  match snapshot_target actor identifier with
  | inl e => inl e
  | inr (_, p, _, i) =>
      if negb enabled && argus_security_admin_removal_would_lock_out (Some p) i then inl ESP_ERR_INVALID_STATE
      else inr (set_human p i (bump_record_epoch
             ((human_at p i) <| hu_enabled := if enabled then 1 else 0 |> <| hu_revoked := if enabled then 0 else 1 |>)))
  end.

Definition with_password (verifier : argus_password_verifier_t) (h : argus_security_human_record_t)
    : argus_security_human_record_t :=
  bump_record_epoch (h <| hu_verifier := verifier |> <| hu_credential_version ::= nonzero_succ |>).

Definition argus_security_admin_replace_password (actor : option argus_principal_t) (identifier : bytes)
    (password : option bytes) : esp_err_t + payload_t :=
  if negb (argus_auth_new_password_valid password) then inl ESP_ERR_INVALID_ARG
  else
    match snapshot_target actor identifier with
    | inl e => inl e
    | inr (_, p, _, i) =>
        match create_verifier password with
        | inl e => inl e
        | inr verifier => inr (set_human p i (with_password verifier (human_at p i)))
        end
    end.

Definition argus_security_admin_replace_own_password (actor : option argus_principal_t) (password : option bytes)
    : esp_err_t + payload_t :=
  match actor with
  | Some a =>
      if negb (argus_authorization_principal_valid actor) || negb (bool_decide (pr_type a = ARGUS_PRINCIPAL_HUMAN))
         || negb (argus_auth_new_password_valid password) then inl ESP_ERR_INVALID_ARG
      else
        match snapshot with
        | inl e => inl e
        | inr (p, _) =>
            match find_identifier p (pr_identifier a) with
            | None => inl ESP_ERR_NOT_FOUND
            | Some i =>
                match create_verifier password with
                | inl e => inl e
                | inr verifier => inr (set_human p i (with_password verifier (human_at p i)))
                end
            end
        end
  | None => inl ESP_ERR_INVALID_ARG
  end.

Definition argus_security_admin_update_display_name (actor : option argus_principal_t) (identifier : bytes)
    (display_name : option bytes) : esp_err_t + payload_t :=
  match display_name with
  | None => inl ESP_ERR_INVALID_ARG
  | Some name =>
      if (length name =? 0)%nat || (48 <? length name)%nat then inl ESP_ERR_INVALID_ARG
      else
        match snapshot_target actor identifier with
        | inl e => inl e
        | inr (_, p, _, i) => inr (set_human p i ((human_at p i) <| hu_display_name := strlcpy name 49 |>))
        end
  end.

(** The permissions of the custom roles a mask names. *)
Definition custom_permissions (p : payload_t) (custom_role_mask : Z) : Z :=
  foldl (fun permissions i =>
           if Z.land custom_role_mask (Z.shiftl 1 (Z.of_nat i)) =? 0 then permissions
           else Z.lor permissions (ro_permissions (role_at p i))) 0 (indices (dp_custom_role_count p)).

Definition argus_security_admin_assign_custom_roles (actor : option argus_principal_t) (identifier : bytes)
    (custom_role_mask : Z) : esp_err_t + payload_t :=
  match snapshot_target actor identifier with
  | inl e => inl e
  | inr (a, p, _, i) =>
      let valid_mask := if dp_custom_role_count p =? 0 then 0 else u16 (Z.shiftl 1 (dp_custom_role_count p) - 1) in
      if negb (subset custom_role_mask valid_mask) then inl ESP_ERR_INVALID_ARG
      else
        let permissions := custom_permissions p custom_role_mask in
        let human := human_at p i in
        if negb (permissions =? 0)
           && negb (bool_decide (argus_authorization_delegate (Some a) (hu_level human) (Some (hu_scope human)) permissions
                                 = ARGUS_AUTHZ_ALLOW)) then inl ESP_ERR_NOT_ALLOWED
        else
          let builtin := u16 (Z.shiftl 1 (hu_level human)) in
          inr (set_human p i (bump_record_epoch
                 (human <| hu_role_mask := Z.lor builtin
                             (u16 (Z.shiftl custom_role_mask ARGUS_SECURITY_BUILTIN_ROLE_COUNT)) |>)))
  end.

(** The records behind the removed one move down; the last becomes zero. *)
Definition remove_at {A} (zero : A) (index count : nat) (l : list A) : list A :=
  <[(count - 1)%nat := zero]> (foldl (fun l i => match l !! i with Some x => <[(i - 1)%nat := x]> l | None => l end) l
                                (seq (S index) (count - S index))).

Definition argus_security_admin_delete_human (actor : option argus_principal_t) (identifier : bytes)
    : esp_err_t + payload_t :=
  match snapshot_target actor identifier with
  | inl e => inl e
  | inr (_, p, _, i) =>
      if argus_security_admin_removal_would_lock_out (Some p) i then inl ESP_ERR_INVALID_STATE
      else inr (p <| dp_humans ::= remove_at zero_human i (Z.to_nat (dp_human_count p)) |>
                  <| dp_human_count ::= fun n => u8 (n - 1) |>)
  end.

Definition may_manage_roles (actor : option argus_principal_t) : bool :=
  argus_authorization_principal_valid actor
  && bool_decide (argus_authorization_require actor ARGUS_PERMISSION_MANAGE_ROLES = ARGUS_AUTHZ_ALLOW).

Definition find_role (p : payload_t) (identifier : bytes) : option nat :=
  find (fun i => bool_decide (ro_identifier (role_at p i) = identifier)) (indices (dp_custom_role_count p)).

Definition argus_security_admin_create_role (actor : option argus_principal_t) (identifier : option bytes)
    (level permissions delegable_permissions : Z) : esp_err_t + payload_t :=
  match actor, identifier with
  | Some a, Some identifier =>
      if negb (may_manage_roles actor)
         || (level <? ARGUS_SECURITY_LEVEL_CLIENT_ADMIN) || (ARGUS_SECURITY_LEVEL_VIEWER <? level)
         || negb (subset delegable_permissions permissions)
         || negb (bool_decide (argus_authorization_delegate actor level (Some (pr_scope a)) permissions = ARGUS_AUTHZ_ALLOW))
         || negb (subset delegable_permissions (pr_delegable_permissions a)) then inl ESP_ERR_NOT_ALLOWED
      else
        match snapshot with
        | inl e => inl e
        | inr (p, _) =>
            if ARGUS_SECURITY_CUSTOM_ROLE_CAPACITY <=? dp_custom_role_count p then inl ESP_ERR_NO_MEM
            else
              match find_role p identifier with
              | Some _ => inl ESP_ERR_INVALID_STATE
              | None =>
                  inr ((set_role p (Z.to_nat (dp_custom_role_count p))
                          (RoleRecord ARGUS_SECURITY_RECORD_VERSION level 0 0 (strlcpy identifier 37) permissions
                             delegable_permissions))
                         <| dp_custom_role_count ::= fun n => u8 (n + 1) |>)
              end
        end
  | _, _ => inl ESP_ERR_NOT_ALLOWED
  end.

(** A role mask without the bit of a removed role: the bits above it move down. *)
Definition squeeze_mask (role_bit mask : Z) : Z :=
  let lower := u16 (role_bit - 1) in
  let below := Z.land mask lower in
  let above := Z.land mask (u16 (Z.lnot (Z.lor lower role_bit))) in
  Z.lor below (u16 (Z.shiftr above 1)).

Definition squeeze_humans (role_bit : Z) (p : payload_t) : payload_t :=
  foldl (fun p i => set_human p i ((human_at p i) <| hu_role_mask ::= squeeze_mask role_bit |>)) p
    (indices (dp_human_count p)).

Definition argus_security_admin_delete_role (actor : option argus_principal_t) (identifier : option bytes)
    : esp_err_t + payload_t :=
  match identifier with
  | Some identifier =>
      if negb (may_manage_roles actor) then inl ESP_ERR_NOT_ALLOWED
      else
        match snapshot with
        | inl e => inl e
        | inr (p, _) =>
            match find_role p identifier with
            | None => inl ESP_ERR_NOT_FOUND
            | Some index =>
                let role_bit := u16 (Z.shiftl 1 (Z.of_nat index + ARGUS_SECURITY_BUILTIN_ROLE_COUNT)) in
                if existsb (fun i => negb (Z.land (hu_role_mask (human_at p i)) role_bit =? 0)) (indices (dp_human_count p))
                then inl ESP_ERR_INVALID_STATE
                else inr (squeeze_humans role_bit
                       (p <| dp_custom_roles ::= remove_at zero_role index (Z.to_nat (dp_custom_role_count p)) |>
                          <| dp_custom_role_count ::= fun n => u8 (n - 1) |>))
            end
        end
  | None => inl ESP_ERR_NOT_ALLOWED
  end.
End Operations.

(** ** The whole operation *)

Inductive admin_op :=
| CreateHuman (identifier login display_name scope : bytes) (level direct_permissions : Z) (password : option bytes)
| SetHumanEnabled (identifier : bytes) (enabled : bool)
| ReplacePassword (identifier : bytes) (password : option bytes)
| ReplaceOwnPassword (password : option bytes)
| UpdateDisplayName (identifier : bytes) (display_name : option bytes)
| AssignCustomRoles (identifier : bytes) (custom_role_mask : Z)
| DeleteHuman (identifier : bytes)
| CreateRole (identifier : option bytes) (level permissions delegable_permissions : Z)
| DeleteRole (identifier : option bytes).

Definition admin_update create_verifier (snapshot : snapshot_t) (actor : option argus_principal_t) (op : admin_op)
    : esp_err_t + payload_t :=
  match op with
  | CreateHuman identifier login display_name scope level direct password =>
      argus_security_admin_create_human create_verifier snapshot actor identifier login display_name scope level direct password
  | SetHumanEnabled identifier enabled => argus_security_admin_set_enabled snapshot actor identifier enabled
  | ReplacePassword identifier password => argus_security_admin_replace_password create_verifier snapshot actor identifier password
  | ReplaceOwnPassword password => argus_security_admin_replace_own_password create_verifier snapshot actor password
  | UpdateDisplayName identifier name => argus_security_admin_update_display_name snapshot actor identifier name
  | AssignCustomRoles identifier mask => argus_security_admin_assign_custom_roles snapshot actor identifier mask
  | DeleteHuman identifier => argus_security_admin_delete_human snapshot actor identifier
  | CreateRole identifier level permissions delegable =>
      argus_security_admin_create_role snapshot actor identifier level permissions delegable
  | DeleteRole identifier => argus_security_admin_delete_role snapshot actor identifier
  end.

(** The account whose sessions end when the commit succeeds. *)
Definition ends_sessions_of (actor : option argus_principal_t) (op : admin_op) : option bytes :=
  match op with
  | SetHumanEnabled identifier _ | ReplacePassword identifier _ | AssignCustomRoles identifier _ | DeleteHuman identifier =>
      Some identifier
  | ReplaceOwnPassword _ => pr_identifier <$> actor
  | _ => None
  end.

Definition admin_perform create_verifier (snapshot : snapshot_t) (actor : option argus_principal_t) (op : admin_op)
    (d : security_directory) (m : session_manager)
    : prog (slot_op directory_slot) (esp_err_t * security_directory * session_manager) :=
  match admin_update create_verifier snapshot actor op, snapshot with
  | inr p, inr (_, generation) =>
      c ← argus_security_directory_commit d p generation;
      mret (c.1, c.2,
        if is_ok c.1 then
          match ends_sessions_of actor op with
          | Some identifier => (argus_session_manager_revoke_principal m identifier).2
          | None => m
          end
        else m)
  | inl e, _ | _, inl e => mret (e, d, m)
  end.

(** ** Removing an entry *)

Lemma shift_down_length {A} (s : list nat) (l : list A) :
  length (foldl (fun l i => match l !! i with Some x => <[(i - 1)%nat := x]> l | None => l end) l s) = length l.
Proof. induction s as [|x s IH] in l |- *; [done|]. cbn [foldl]. rewrite IH. destruct (l !! x); [|done]. by rewrite length_insert. Qed.

Lemma shift_down_lookup {A} (l : list A) i k j : (i + k < length l)%nat ->
  foldl (fun l i => match l !! i with Some x => <[(i - 1)%nat := x]> l | None => l end) l (seq (S i) k) !! j
  = if bool_decide (i <= j < i + k)%nat then l !! S j else l !! j.
Proof.
  induction k as [|k IH] in j |- *; intros Hl; [by rewrite bool_decide_eq_false_2 by lia|].
  rewrite seq_S, foldl_app. cbn [foldl]. set (lk := foldl _ l (seq (S i) k)) in *.
  rewrite (IH (S i + k)%nat) by lia. rewrite bool_decide_eq_false_2 by lia.
  assert (Hlen : length lk = length l) by apply shift_down_length.
  destruct (lookup_lt_is_Some_2 l (S i + k) ltac:(lia)) as [x Hx]. rewrite Hx.
  destruct (decide (j = i + k)%nat) as [->|Hne].
  - rewrite bool_decide_eq_true_2 by lia. replace (S i + k - 1)%nat with (i + k)%nat by lia.
    rewrite list_lookup_insert_eq by lia. by rewrite <- Hx.
  - rewrite list_lookup_insert_ne by lia. rewrite IH by lia.
    destruct (decide (i <= j < i + k)%nat) as [H|H].
    + by rewrite !bool_decide_eq_true_2 by lia.
    + by rewrite !bool_decide_eq_false_2 by lia.
Qed.

Lemma remove_at_lookup {A} (zero : A) i n l j : (i < n)%nat -> (n <= length l)%nat -> (j < n - 1)%nat ->
  remove_at zero i n l !! j = if bool_decide (j < i)%nat then l !! j else l !! S j.
Proof.
  intros Hi Hn Hj. unfold remove_at. rewrite list_lookup_insert_ne by lia. rewrite shift_down_lookup by lia.
  destruct (decide (j < i)%nat).
  - by rewrite bool_decide_eq_false_2, bool_decide_eq_true_2 by lia.
  - by rewrite bool_decide_eq_true_2, bool_decide_eq_false_2 by lia.
Qed.

(** ** Masks *)

Lemma testbit_mod_2 a n i : 0 <= n -> Z.testbit (a mod 2 ^ n) i = (i <? n) && Z.testbit a i.
Proof.
  intros Hn. destruct (Z.ltb_spec i n).
  - destruct (Z.neg_nonneg_cases i); [by rewrite !Z.testbit_neg_r|]. by rewrite Z.mod_pow2_bits_low.
  - by rewrite Z.mod_pow2_bits_high by lia.
Qed.

Lemma squeeze_bits k mask b : 0 <= k < 16 -> 0 <= mask < 65536 -> 0 <= b ->
  Z.testbit (squeeze_mask (u16 (Z.shiftl 1 k)) mask) b = if b <? k then Z.testbit mask b else Z.testbit mask (b + 1).
Proof.
  intros Hk Hm Hb. assert (Hp : u16 (Z.shiftl 1 k) = 2 ^ k).
  { rewrite Z.shiftl_1_l. unfold u16. apply Z.mod_small. split; [lia|]. change 65536 with (2 ^ 16). apply Z.pow_lt_mono_r; lia. }
  rewrite Hp. assert (Hlow : u16 (2 ^ k - 1) = Z.ones k).
  { rewrite Z.ones_equiv, <- Z.sub_1_r. unfold u16. apply Z.mod_small.
    assert (0 < 2 ^ k) by lia. assert (2 ^ k < 65536) by (change 65536 with (2 ^ 16); apply Z.pow_lt_mono_r; lia). lia. }
  unfold squeeze_mask. rewrite Hlow. unfold u16. change 65536 with (2 ^ 16).
  assert (Hhigh : forall i, 16 <= i -> Z.testbit mask i = false).
  { intros i Hi. rewrite <- (Z.mod_small mask (2 ^ 16)) by (change (2 ^ 16) with 65536; lia). by rewrite Z.mod_pow2_bits_high by lia. }
  assert (Hpb : forall i, Z.testbit (2 ^ k) i = (i =? k)).
  { intros i. rewrite Z.pow2_bits_eqb by lia. apply Z.eqb_sym. }
  rewrite Z.lor_spec, Z.land_spec, testbit_mod_2, Z.shiftr_spec, Z.land_spec, testbit_mod_2, Z.lnot_spec, Z.lor_spec by lia.
  rewrite !Z.testbit_ones_nonneg by lia. rewrite Hpb.
  destruct (Z.ltb_spec b k).
  - rewrite andb_true_r. rewrite (proj2 (Z.ltb_lt b 16)) by lia. cbn [andb].
    destruct (Z.ltb_spec (b + 1) k); [cbn [orb negb]; by rewrite !andb_false_r, orb_false_r|].
    rewrite (proj2 (Z.eqb_eq (b + 1) k)) by lia. cbn [orb negb]. by rewrite !andb_false_r, orb_false_r.
  - rewrite andb_false_r. cbn [orb]. rewrite (proj2 (Z.ltb_ge (b + 1) k)) by lia. rewrite (proj2 (Z.eqb_neq (b + 1) k)) by lia.
    cbn [orb negb]. rewrite andb_true_r. destruct (Z.ltb_spec (b + 1) 16).
    + rewrite (proj2 (Z.ltb_lt b 16)) by lia. by rewrite andb_true_r.
    + rewrite (Hhigh (b + 1)) by lia. by rewrite !andb_false_r.
Qed.

Lemma squeeze_zero k mask : 0 <= k < 16 -> 0 <= mask < 65536 -> Z.testbit mask k = false ->
  squeeze_mask (u16 (Z.shiftl 1 k)) mask = 0 <-> mask = 0.
Proof.
  intros Hk Hm Hclear. split.
  - intros H. apply Z.bits_inj_0. intros b. destruct (Z.neg_nonneg_cases b); [by rewrite Z.testbit_neg_r|].
    destruct (Z.lt_trichotomy b k) as [Hlt|[->|Hgt]]; [|done|].
    + pose proof (squeeze_bits k mask b Hk Hm ltac:(lia)) as Hb. rewrite H, Z.bits_0, (proj2 (Z.ltb_lt b k)) in Hb by lia. done.
    + pose proof (squeeze_bits k mask (b - 1) Hk Hm ltac:(lia)) as Hb.
      rewrite H, Z.bits_0, (proj2 (Z.ltb_ge _ k)) in Hb by lia. by replace (b - 1 + 1) with b in Hb by lia.
  - intros ->. apply Z.bits_inj_0. intros b. destruct (Z.neg_nonneg_cases b); [by rewrite Z.testbit_neg_r|].
    rewrite squeeze_bits by lia. rewrite !Z.bits_0. by destruct (b <? k).
Qed.

(** ** A removed role takes nothing from anybody *)

Lemma set_human_at p i h j : (i < length (dp_humans p))%nat ->
  human_at (set_human p i h) j = if decide (i = j) then h else human_at p j.
Proof.
  intros Hi. unfold human_at, set_human. cbn [dp_humans update eta eta_directory_payload].
  destruct (decide (i = j)) as [->|]; [by rewrite list_lookup_insert_eq|by rewrite list_lookup_insert_ne].
Qed.

Lemma squeeze_fold role_bit p n j : (n <= length (dp_humans p))%nat ->
  let p' := foldl (fun p i => set_human p i ((human_at p i) <| hu_role_mask ::= squeeze_mask role_bit |>)) p (seq 0 n) in
  length (dp_humans p') = length (dp_humans p) /\ dp_custom_roles p' = dp_custom_roles p /\
  dp_custom_role_count p' = dp_custom_role_count p /\ dp_human_count p' = dp_human_count p /\
  human_at p' j = if bool_decide (j < n)%nat then (human_at p j) <| hu_role_mask ::= squeeze_mask role_bit |> else human_at p j.
Proof.
  induction n as [|n IH] in j |- *; intros Hn; [by rewrite bool_decide_eq_false_2 by lia|].
  cbv zeta. rewrite seq_S, foldl_app. cbn [foldl Nat.add].
  set (pn := foldl _ p (seq 0 n)) in *.
  destruct (IH n ltac:(lia)) as (Hl & Hr & Hc & Hh & Hn').
  assert (Hat : human_at pn n = human_at p n) by (rewrite Hn'; by rewrite bool_decide_eq_false_2 by lia).
  split; [unfold set_human; cbn [dp_humans update eta eta_directory_payload]; by rewrite length_insert|].
  split; [done|]. split; [done|]. split; [done|].
  rewrite set_human_at by lia. rewrite Hat. destruct (decide (n = j)) as [->|].
  - by rewrite bool_decide_eq_true_2 by lia.
  - destruct (IH j ltac:(lia)) as (_ & _ & _ & _ & ->). destruct (decide (j < n)%nat).
    + by rewrite !bool_decide_eq_true_2 by lia.
    + by rewrite !bool_decide_eq_false_2 by lia.
Qed.

Lemma add_roles_app directory mask bits bits' p d :
  add_roles directory mask (bits ++ bits') p d =
  '(p, d) ← add_roles directory mask bits p d; add_roles directory mask bits' p d.
Proof.
  induction bits as [|b bits IH] in p, d |- *; [done|]. cbn [app add_roles]. destruct (Z.testbit mask b); [|apply IH].
  destruct (role_grant directory b) as [[p' d']|]; [apply IH|done].
Qed.

(** Two directories and masks that agree bit by bit, up to a renaming of the bits, grant
    the same. *)
Lemma add_roles_renamed directory directory' mask mask' (f : Z -> Z) bits p d :
  (forall b, In b bits -> Z.testbit mask' b = Z.testbit mask (f b) /\ role_grant directory' b = role_grant directory (f b)) ->
  add_roles directory' mask' bits p d = add_roles directory mask (map f bits) p d.
Proof.
  induction bits as [|b bits IH] in p, d |- *; intros H; [done|]. cbn [add_roles map].
  destruct (H b (or_introl eq_refl)) as [-> ->]. destruct (Z.testbit mask (f b)).
  - destruct (role_grant directory (f b)) as [[p' d']|]; [|done]. cbn [mbind option_bind]. apply IH. intros b' Hb'. by apply H; right.
  - apply IH. intros b' Hb'. by apply H; right.
Qed.

Lemma mask_range p i : argus_security_directory_payload_valid p = true -> (i < Z.to_nat (dp_human_count p))%nat ->
  0 <= hu_role_mask (human_at p i) < 65536.
Proof.
  intros Hv Hi. destruct (human_entry p i Hv Hi) as (_ & Hs & _).
  assert (Ha : 0 <= allowed_roles p < 65536).
  { unfold allowed_roles. destruct (16 <=? _); [unfold UINT16_MAX; lia|]. apply Z.mod_pos_bound. lia. }
  set (m := hu_role_mask (human_at p i)) in *.
  enough (Hm : m = m mod 2 ^ 16) by (rewrite Hm; change (2 ^ 16) with 65536; apply Z.mod_pos_bound; lia).
  apply Z.bits_inj'. intros n Hn. rewrite testbit_mod_2 by lia. destruct (Z.ltb_spec n 16); [done|]. cbn [andb].
  destruct (Z.testbit m n) eqn:E; [|done]. rewrite subset_spec in Hs. specialize (Hs n Hn E).
  rewrite <- (Z.mod_small (allowed_roles p) (2 ^ 16)) in Hs by (change (2 ^ 16) with 65536; lia).
  by rewrite Z.mod_pow2_bits_high in Hs by lia.
Qed.

Lemma counts_bounded p : argus_security_directory_payload_valid p = true ->
  dp_custom_role_count p <= 10 /\ dp_human_count p <= 16.
Proof. unfold argus_security_directory_payload_valid. destruct (_ || _) eqn:H; [done|]. b2p. done. Qed.

Lemma find_index (P : nat -> bool) count i : find P (indices count) = Some i -> (i < Z.to_nat count)%nat /\ P i = true.
Proof. intros H. apply find_some in H as [Hi Hp]. apply in_seq in Hi. split; [lia|done]. Qed.

(** What a successful removal of a role does. *)
Lemma delete_role_spec snapshot actor identifier p' :
  argus_security_admin_delete_role snapshot actor identifier = inr p' ->
  exists p g k, snapshot = inr (p, g) /\ may_manage_roles actor = true /\ identifier = Some (ro_identifier (role_at p k)) /\ (k < Z.to_nat (dp_custom_role_count p))%nat /\
    (forall i, (i < Z.to_nat (dp_human_count p))%nat ->
       Z.land (hu_role_mask (human_at p i)) (u16 (Z.shiftl 1 (Z.of_nat k + 6))) = 0) /\
    p' = squeeze_humans (u16 (Z.shiftl 1 (Z.of_nat k + 6)))
           (p <| dp_custom_roles ::= remove_at zero_role k (Z.to_nat (dp_custom_role_count p)) |>
              <| dp_custom_role_count ::= fun n => u8 (n - 1) |>).
Proof.
  unfold argus_security_admin_delete_role. destruct identifier as [identifier|]; [|done].
  destruct (may_manage_roles actor) eqn:Hm; [|done]. destruct snapshot as [|[p g]]; [done|]. cbn [negb].
  destruct (find_role p identifier) as [k|] eqn:Hf; [|done]. apply find_index in Hf as [Hk Hn%bool_decide_eq_true].
  unfold ARGUS_SECURITY_BUILTIN_ROLE_COUNT. destruct (existsb _ _) eqn:He; [done|]. intros [= <-].
  exists p, g, k. do 2 (split; [done|]). split; [by rewrite Hn|]. split; [done|]. split; [|done].
  intros i Hi. destruct (Z.eqb_spec (Z.land (hu_role_mask (human_at p i)) (u16 (Z.shiftl 1 (Z.of_nat k + 6)))) 0); [done|].
  assert (Ht : true = false); [|done]. rewrite <- He. symmetry. apply existsb_exists. exists i.
  split; [apply in_seq; lia|]. by apply negb_true_iff, Z.eqb_neq.
Qed.

Lemma role_bit_small k : 0 <= k < 16 -> u16 (Z.shiftl 1 k) = 2 ^ k.
Proof.
  intros Hk. rewrite Z.shiftl_1_l. apply Z.mod_small. split; [lia|]. change 65536 with (2 ^ 16). apply Z.pow_lt_mono_r; lia.
Qed.

(** The grants after the removal of role [k]: the roles above it are one bit lower. *)
Lemma grants_after_removal p q k mask mask' perms delegable :
  (k < Z.to_nat (dp_custom_role_count p))%nat -> dp_custom_role_count p <= 10 ->
  dp_custom_role_count q = dp_custom_role_count p - 1 ->
  (forall j, (j < Z.to_nat (dp_custom_role_count p) - 1)%nat ->
     role_at q j = if bool_decide (j < k)%nat then role_at p j else role_at p (S j)) ->
  Z.testbit mask (Z.of_nat k + 6) = false ->
  (forall b, 0 <= b -> Z.testbit mask' b = if b <? Z.of_nat k + 6 then Z.testbit mask b else Z.testbit mask (b + 1)) ->
  Z.testbit mask 16 = false ->
  add_roles q mask' role_bits perms delegable = add_roles p mask role_bits perms delegable.
Proof.
  intros Hk Hc Hc' Hroles Hclear Hmask Hhigh. set (n := Z.of_nat k + 6) in *.
  assert (Hold : role_bits = seqZ 0 n ++ [n] ++ map (fun b => b + 1) (seqZ n (15 - n))).
  { unfold role_bits, ARGUS_SECURITY_MAX_ROLES. replace 16 with (n + (16 - n)) at 1 by lia. rewrite seqZ_app by lia.
    rewrite Z.add_0_l, (seqZ_cons n) by lia. cbn [app]. do 2 f_equal.
    replace (Z.pred (16 - n)) with (15 - n) by lia. replace (Z.succ n) with (1 + n) by lia.
    rewrite <- fmap_add_seqZ. apply map_ext. intros; lia. }
  assert (Hnew : role_bits = seqZ 0 n ++ seqZ n (15 - n) ++ [15]).
  { unfold role_bits, ARGUS_SECURITY_MAX_ROLES. replace 16 with (n + ((15 - n) + 1)) at 1 by lia.
    rewrite seqZ_app, seqZ_app by lia. rewrite Z.add_0_l. do 2 f_equal. by replace (n + (15 - n)) with 15 by lia. }
  rewrite Hnew at 1. rewrite Hold, !add_roles_app.
  assert (Hlow : forall P D, add_roles q mask' (seqZ 0 n) P D = add_roles p mask (seqZ 0 n) P D).
  { intros P D. rewrite <- (map_id (seqZ 0 n)) at 2. apply add_roles_renamed. intros b Hb.
    apply list_elem_of_In, elem_of_seqZ in Hb. rewrite Hmask, (proj2 (Z.ltb_lt b n)) by lia. split; [done|].
    unfold role_grant, ARGUS_SECURITY_BUILTIN_ROLE_COUNT. destruct (Z.ltb_spec b 6); [done|].
    rewrite !(proj2 (Z.leb_gt _ _)) by lia. rewrite Hroles by lia. by rewrite bool_decide_eq_true_2 by lia. }
  assert (Hup : forall P D, add_roles q mask' (seqZ n (15 - n)) P D = add_roles p mask (map (fun b => b + 1) (seqZ n (15 - n))) P D).
  { intros P D. apply add_roles_renamed. intros b Hb. apply list_elem_of_In, elem_of_seqZ in Hb.
    rewrite Hmask, (proj2 (Z.ltb_ge b n)) by lia. split; [done|].
    unfold role_grant, ARGUS_SECURITY_BUILTIN_ROLE_COUNT. rewrite !(proj2 (Z.ltb_ge _ 6)) by lia. rewrite Hc'.
    destruct (Z.leb_spec (dp_custom_role_count p - 1) (b - 6)).
    - by rewrite (proj2 (Z.leb_le _ (b + 1 - 6))) by lia.
    - rewrite (proj2 (Z.leb_gt _ (b + 1 - 6))) by lia. rewrite Hroles by lia. rewrite bool_decide_eq_false_2 by lia.
      by replace (Z.to_nat (b + 1 - 6)) with (S (Z.to_nat (b - 6))) by lia. }
  rewrite Hlow. destruct (add_roles p mask (seqZ 0 n) perms delegable) as [[P D]|]; [|done]. cbn [mbind option_bind].
  rewrite !add_roles_app, Hup. cbn [add_roles]. rewrite Hclear. cbn [mbind option_bind].
  destruct (add_roles p mask (map _ _) P D) as [[P' D']|]; [|done]. cbn [mbind option_bind].
  rewrite Hmask by lia. rewrite (proj2 (Z.ltb_ge 15 n)) by lia. change (15 + 1) with 16. by rewrite Hhigh.
Qed.

(** Where the role that is at [j] after the removal of role [k] was before. *)
Definition moved_from (k j : nat) : nat := if decide (j < k)%nat then j else S j.

(** C39: Removing a custom role takes nothing from anybody.  When it succeeds, the role had
    the name that was asked for and no account at all, enabled or not, revoked or not, held it:
    while any account holds the role the removal is refused.  The roles behind it have moved
    down by one, and every account holds the roles it held, by the bits that name them now; and
    every account logs in with exactly the principal it had before. *)
Theorem delete_role_preserves_principals p g actor identifier p' :
  argus_security_directory_payload_valid p = true ->
  length (dp_custom_roles p) = 10%nat -> length (dp_humans p) = 16%nat ->
  argus_security_admin_delete_role (inr (p, g)) actor identifier = inr p' ->
  exists k, (k < Z.to_nat (dp_custom_role_count p))%nat /\ identifier = Some (ro_identifier (role_at p k)) /\
    (forall i, (i < Z.to_nat (dp_human_count p))%nat -> Z.testbit (hu_role_mask (human_at p i)) (Z.of_nat k + 6) = false) /\
    dp_human_count p' = dp_human_count p /\ dp_custom_role_count p' = dp_custom_role_count p - 1 /\
    (forall j, (j < Z.to_nat (dp_custom_role_count p'))%nat -> role_at p' j = role_at p (moved_from k j)) /\
    forall i, (i < Z.to_nat (dp_human_count p))%nat ->
      (forall b, 0 <= b < 6 -> Z.testbit (hu_role_mask (human_at p' i)) b = Z.testbit (hu_role_mask (human_at p i)) b) /\
      (forall j, Z.testbit (hu_role_mask (human_at p' i)) (Z.of_nat j + 6)
                 = Z.testbit (hu_role_mask (human_at p i)) (Z.of_nat (moved_from k j) + 6)) /\
      forall epoch, build_human_principal (human_at p' i) p' epoch = build_human_principal (human_at p i) p epoch.
Proof.
  intros Hv Hlr Hlh Hd. apply delete_role_spec in Hd as (p0 & g0 & k & [= <- <-] & _ & Hname & Hk & Hclear & ->).
  destruct (counts_bounded p Hv) as [Hrc Hhc].
  set (q := p <| dp_custom_roles ::= remove_at zero_role k (Z.to_nat (dp_custom_role_count p)) |>
              <| dp_custom_role_count ::= fun n => u8 (n - 1) |>).
  assert (Hqc : dp_custom_role_count q = dp_custom_role_count p - 1).
  { change (dp_custom_role_count q) with (u8 (dp_custom_role_count p - 1)). apply u8_small. unfold is_u8. lia. }
  unfold squeeze_humans, indices. change (dp_human_count q) with (dp_human_count p).
  pose proof (fun j => squeeze_fold (u16 (Z.shiftl 1 (Z.of_nat k + 6))) q (Z.to_nat (dp_human_count p)) j
    ltac:(change (dp_humans q) with (dp_humans p); lia)) as Hs. cbv zeta in Hs.
  set (p' := foldl _ q _) in *. destruct (Hs 0%nat) as (_ & Hr & Hc & Hh & _).
  assert (Hbits : forall i, (i < Z.to_nat (dp_human_count p))%nat -> Z.testbit (hu_role_mask (human_at p i)) (Z.of_nat k + 6) = false).
  { intros i Hi. specialize (Hclear i Hi). rewrite role_bit_small in Hclear by lia.
    assert (Hz : Z.testbit (Z.land (hu_role_mask (human_at p i)) (2 ^ (Z.of_nat k + 6))) (Z.of_nat k + 6) = false) by (by rewrite Hclear, Z.bits_0).
    rewrite Z.land_spec, Z.pow2_bits_true, andb_true_r in Hz by lia. done. }
  assert (Hroles : forall j, (j < Z.to_nat (dp_custom_role_count p) - 1)%nat -> role_at p' j = if bool_decide (j < k)%nat then role_at p j else role_at p (S j)).
  { intros j Hj. unfold role_at. rewrite Hr. change (dp_custom_roles q) with (remove_at zero_role k (Z.to_nat (dp_custom_role_count p)) (dp_custom_roles p)).
    rewrite remove_at_lookup by lia. by destruct (bool_decide _). }
  exists k. split; [done|]. split; [done|]. split; [exact Hbits|]. split; [by rewrite Hh|]. split; [by rewrite Hc|].
  split; [intros j Hj; rewrite Hroles by lia; unfold moved_from; by destruct (decide _), (bool_decide_reflect (j < k)%nat)|].
  intros i Hi. destruct (Hs i) as (_ & _ & _ & _ & ->).
  rewrite bool_decide_eq_true_2 by done. change (human_at q i) with (human_at p i). set (h := human_at p i).
  pose proof (mask_range p i Hv Hi) as Hm. specialize (Hbits i Hi). fold h in Hm, Hbits. rename Hbits into Hbit.
  assert (Hsq : forall b, 0 <= b -> Z.testbit (hu_role_mask (h <| hu_role_mask ::= squeeze_mask (u16 (Z.shiftl 1 (Z.of_nat k + 6))) |>)) b
    = if b <? Z.of_nat k + 6 then Z.testbit (hu_role_mask h) b else Z.testbit (hu_role_mask h) (b + 1))
    by (intros b Hb; cbn; by rewrite squeeze_bits by lia).
  split; [intros b Hb; rewrite Hsq by lia; by rewrite (proj2 (Z.ltb_lt _ _)) by lia|]. split.
  { intros j. rewrite Hsq by lia. unfold moved_from. destruct (decide (j < k)%nat).
    - by rewrite (proj2 (Z.ltb_lt _ _)) by lia.
    - rewrite (proj2 (Z.ltb_ge _ _)) by lia. f_equal. lia. }
  intros epoch.
  assert (Hval : argus_security_human_record_valid (h <| hu_role_mask ::= squeeze_mask (u16 (Z.shiftl 1 (Z.of_nat k + 6))) |>)
                 = argus_security_human_record_valid h).
  { unfold argus_security_human_record_valid. cbn.
    assert (E : (squeeze_mask (u16 (Z.shiftl 1 (Z.of_nat k + 6))) (hu_role_mask h) =? 0) = (hu_role_mask h =? 0)).
    { apply eq_true_iff_eq. rewrite !Z.eqb_eq. apply squeeze_zero; [lia|done|done]. }
    by rewrite E. }
  unfold build_human_principal. rewrite Hval.
  destruct (negb (argus_security_human_record_valid h) || _ || _); [done|].
  rewrite (grants_after_removal p p' k (hu_role_mask h)); [done|done|lia|by rewrite Hc| |done| |].
  - exact Hroles.
  - exact Hsq.
  - rewrite <- (Z.mod_small (hu_role_mask h) (2 ^ 16)) by done. by rewrite Z.mod_pow2_bits_high by lia.
Qed.

(** ** The permissions of an account, bit by bit *)

(** Every role a mask names exists. *)
Definition mask_exists (p : payload_t) (mask : Z) : Prop :=
  forall b, 0 <= b -> Z.testbit mask b = true -> b < ARGUS_SECURITY_BUILTIN_ROLE_COUNT + dp_custom_role_count p.

Lemma land_bit_test mask b : 0 <= b -> (Z.land mask (Z.shiftl 1 b) =? 0) = negb (Z.testbit mask b).
Proof.
  intros Hb. rewrite Z.shiftl_1_l. apply eq_true_iff_eq. rewrite Z.eqb_eq, negb_true_iff. split.
  - intros H. assert (E : Z.testbit (Z.land mask (2 ^ b)) b = false) by (by rewrite H, Z.bits_0).
    rewrite Z.land_spec, Z.pow2_bits_true, andb_true_r in E by done. done.
  - intros H. apply Z.bits_inj_0. intros i. rewrite Z.land_spec, Z.pow2_bits_eqb by done.
    destruct (Z.eqb_spec b i) as [->|]; [by rewrite H|by rewrite andb_false_r].
Qed.

Lemma mask_permissions_bits p mask bits r n : mask_exists p mask -> Forall (fun b => 0 <= b) bits -> 0 <= n ->
  Z.testbit (mask_permissions p mask bits r) n
  = Z.testbit r n || existsb (fun b => Z.testbit mask b && Z.testbit (role_permissions p b) n) bits.
Proof.
  intros Hex Hbits Hn. induction Hbits as [|b bits Hb _ IH] in r |- *; [by rewrite orb_false_r|].
  cbn [mask_permissions existsb]. rewrite land_bit_test by done. destruct (Z.testbit mask b) eqn:Hm; cbn [negb andb]; [|apply IH].
  unfold role_permissions at 1. destruct (Z.ltb_spec b ARGUS_SECURITY_BUILTIN_ROLE_COUNT).
  - rewrite IH, Z.lor_spec. by rewrite orb_assoc.
  - specialize (Hex b Hb Hm). rewrite (proj2 (Z.leb_gt _ _)) by lia. rewrite IH, Z.lor_spec. by rewrite orb_assoc.
Qed.

Lemma role_bits_nonneg : Forall (fun b => 0 <= b) role_bits.
Proof. apply Forall_forall. intros b Hb. apply elem_of_seqZ in Hb. lia. Qed.

Lemma permissions_bits p h n : mask_exists p (hu_role_mask h) -> 0 <= n ->
  Z.testbit (human_permissions p h) n = true <->
  Z.testbit (hu_direct_permissions h) n = true \/
  exists b, 0 <= b < 16 /\ Z.testbit (hu_role_mask h) b = true /\ Z.testbit (role_permissions p b) n = true.
Proof.
  intros Hex Hn. unfold human_permissions. rewrite mask_permissions_bits; [|done|apply role_bits_nonneg|done].
  rewrite orb_true_iff, existsb_exists. apply or_iff_compat_l. split; intros (b & H1 & H2); exists b.
  - apply list_elem_of_In, elem_of_seqZ in H1. apply andb_true_iff in H2 as [? ?]. split_and!; [lia|unfold ARGUS_SECURITY_MAX_ROLES in H1; lia|done|done].
  - rewrite <- list_elem_of_In. split; [apply elem_of_seqZ; unfold ARGUS_SECURITY_MAX_ROLES; lia|]. by rewrite (proj1 H2), (proj2 H2).
Qed.

Lemma valid_mask_exists p i : argus_security_directory_payload_valid p = true -> 0 <= dp_custom_role_count p ->
  (i < Z.to_nat (dp_human_count p))%nat -> mask_exists p (hu_role_mask (human_at p i)).
Proof.
  intros Hv Hc Hi b Hb Hm. destruct (human_entry p i Hv Hi) as (_ & Hs & _). rewrite subset_spec in Hs.
  specialize (Hs b Hb Hm). pose proof (counts_bounded p Hv) as [Hrc _]. unfold allowed_roles, ARGUS_SECURITY_BUILTIN_ROLE_COUNT in *.
  destruct (Z.leb_spec 16 (6 + dp_custom_role_count p)) as [|Hlt].
  - pose proof (mask_range p i Hv Hi) as Hr. rewrite <- (Z.mod_small (hu_role_mask (human_at p i)) (2 ^ 16)) in Hm by done.
    rewrite testbit_mod_2 in Hm by lia. apply andb_true_iff in Hm as [Hm _]. apply Z.ltb_lt in Hm. lia.
  - revert Hs. unfold u16. change 65536 with (2 ^ 16). rewrite testbit_mod_2, Z.shiftl_1_l, <- (Z.pred_succ (2 ^ _ - 1)) by lia.
    replace (Z.pred (Z.succ (2 ^ (6 + dp_custom_role_count p) - 1))) with (Z.ones (6 + dp_custom_role_count p)) by (rewrite Z.ones_equiv; lia).
    rewrite Z.testbit_ones_nonneg by lia. intros Hs. apply andb_true_iff in Hs as [_ Hs]. by apply Z.ltb_lt in Hs.
Qed.

(** The permissions depend on the mask, the direct permissions and the named roles. *)
Lemma permissions_agree p p' h h' : mask_exists p (hu_role_mask h) -> dp_custom_role_count p <= dp_custom_role_count p' ->
  hu_role_mask h' = hu_role_mask h -> hu_direct_permissions h' = hu_direct_permissions h ->
  (forall j, (j < Z.to_nat (dp_custom_role_count p))%nat -> role_at p' j = role_at p j) ->
  human_permissions p' h' = human_permissions p h.
Proof.
  intros Hex Hc Hm Hd Hr. assert (Hex' : mask_exists p' (hu_role_mask h')) by (intros b Hb Ht; rewrite Hm in Ht; specialize (Hex b Hb Ht); lia).
  apply Z.bits_inj'. intros n Hn. apply eq_true_iff_eq. rewrite !permissions_bits by done. rewrite Hm, Hd.
  apply or_iff_compat_l. split; intros (b & Hb & H1 & H2); exists b; (split; [done|split; [done|]]);
    specialize (Hex b ltac:(lia) H1); unfold role_permissions in *; destruct (Z.ltb_spec b ARGUS_SECURITY_BUILTIN_ROLE_COUNT); try done;
    [rewrite <- Hr by lia|rewrite Hr by lia]; done.
Qed.

Lemma mask_permissions_grants p mask bits r d : Forall (fun b => 0 <= b) bits ->
  mask_permissions p mask bits r = match add_roles p mask bits r d with Some (P, _) => P | None => UINT64_MAX end.
Proof.
  intros Hbits. induction Hbits as [|b bits Hb _ IH] in r, d |- *; [done|]. cbn [mask_permissions add_roles].
  rewrite land_bit_test by done. destruct (Z.testbit mask b); cbn [negb]; [|apply IH]. unfold role_grant.
  destruct (b <? ARGUS_SECURITY_BUILTIN_ROLE_COUNT); [apply IH|]. cbv zeta.
  destruct (dp_custom_role_count p <=? b - ARGUS_SECURITY_BUILTIN_ROLE_COUNT); [done|]. apply IH.
Qed.

(** ** What an allowed change grants *)

(** The permissions a caller may give: all but the management of client administrators,
    which only Argus personnel gives, are among those it may delegate. *)
Definition within_reach (a : argus_principal_t) (permissions : Z) : Prop :=
  subset (Z.land permissions (Z.lnot ARGUS_PERMISSION_MANAGE_CLIENT_ADMINS)) (pr_delegable_permissions a) = true /\
  (Z.land permissions ARGUS_PERMISSION_MANAGE_CLIENT_ADMINS <> 0 -> pr_level a = ARGUS_SECURITY_LEVEL_ARGUS_PERSONNEL).

Lemma target_authorized_reach a level scope protected requested :
  target_authorized a level scope protected requested = ESP_OK -> within_reach a requested.
Proof.
  unfold target_authorized. destruct (bool_decide (argus_authorization_manage_target _ _ _ _ = _)); [|done].
  change (negb true) with false. cbv iota zeta.
  destruct (negb _ && negb (bool_decide (argus_authorization_delegate _ _ _ _ = _))) eqn:Hd; [done|].
  destruct (negb (Z.land requested ARGUS_PERMISSION_MANAGE_CLIENT_ADMINS =? 0) && _) eqn:Hs; [done|]. intros _. split.
  - destruct (Z.eq_dec (Z.land requested (Z.lnot ARGUS_PERMISSION_MANAGE_CLIENT_ADMINS)) 0) as [->|Hz]; [done|].
    apply Z.eqb_neq in Hz. rewrite Hz in Hd. cbn [negb andb] in Hd.
    apply negb_false_iff, bool_decide_eq_true, delegate_allowed in Hd as (a' & s & [= <-] & _ & _ & _ & _ & H & _). done.
  - intros Hz. apply Z.eqb_neq in Hz. rewrite Hz in Hs. cbn [negb andb] in Hs. b2p. done.
Qed.

Lemma within_reach_mono a x y : within_reach a y -> subset x y = true -> within_reach a x.
Proof.
  rewrite subset_spec. intros [H1 H2] Hs. split.
  - rewrite subset_spec in H1 |- *. intros n Hn Hx. apply H1; [done|]. rewrite Z.land_spec in *. apply andb_true_iff in Hx as [Hx ->].
    by rewrite (Hs n Hn Hx).
  - intros Hx. apply H2. intros Hy. apply Hx. apply Z.bits_inj_0. intros n. destruct (Z.neg_nonneg_cases n); [by rewrite Z.testbit_neg_r|].
    assert (E : Z.testbit (Z.land y ARGUS_PERMISSION_MANAGE_CLIENT_ADMINS) n = false) by (by rewrite Hy, Z.bits_0).
    rewrite Z.land_spec in *. destruct (Z.testbit x n) eqn:Ex; [|done]. by rewrite (Hs n ltac:(done) Ex) in E.
Qed.

Lemma within_reach_lor a x y : within_reach a x -> within_reach a y -> within_reach a (Z.lor x y).
Proof.
  intros [H1 H2] [H3 H4]. rewrite subset_spec in H1, H3. split.
  - rewrite subset_spec. intros n Hn. rewrite Z.land_spec, Z.lor_spec. intros Hx. apply andb_true_iff in Hx as [Hx Hl].
    apply orb_true_iff in Hx as [Hx|Hx]; [apply H1|apply H3]; try done; by rewrite Z.land_spec, Hx, Hl.
  - rewrite Z.land_lor_distr_l. intros Hz.
    destruct (Z.eq_dec (Z.land x ARGUS_PERMISSION_MANAGE_CLIENT_ADMINS) 0) as [E|]; [|auto]. rewrite E, Z.lor_0_l in Hz. auto.
Qed.

(** ** The effect of an operation on the accounts *)

(** A well-formed directory payload. *)
Record directory_wf (p : payload_t) : Prop := {
  dw_valid : argus_security_directory_payload_valid p = true;
  dw_roles : length (dp_custom_roles p) = 10%nat;
  dw_humans : length (dp_humans p) = 16%nat;
  dw_role_count : 0 <= dp_custom_role_count p;
  dw_human_count : 0 <= dp_human_count p
}.

Definition accounts (p : payload_t) : nat := Z.to_nat (dp_human_count p).

(** The account is still there, with its flags and its permissions. *)
Definition keeps (p : payload_t) (h : argus_security_human_record_t) (p' : payload_t)
    (h' : argus_security_human_record_t) : Prop :=
  hu_identifier h' = hu_identifier h /\ hu_enabled h' = hu_enabled h /\ hu_revoked h' = hu_revoked h /\
  human_permissions p' h' = human_permissions p h.

Definition is_assignment (op : admin_op) : bool := match op with AssignCustomRoles _ _ => true | _ => false end.

(** All accounts but [target] are kept; every account of the result was kept or is within
    the actor's reach; and [target] was not the last enabled administrator, unless it is
    one still or only its roles changed. *)
Record admin_effect (actor : option argus_principal_t) (op : admin_op) (p p' : payload_t) (target : option nat) : Prop := {
  ae_kept : forall j, (j < accounts p)%nat -> target <> Some j ->
    exists j', (j' < accounts p')%nat /\ keeps p (human_at p j) p' (human_at p' j');
  ae_from : forall j', (j' < accounts p')%nat ->
    (exists j, (j < accounts p)%nat /\ keeps p (human_at p j) p' (human_at p' j')) \/
    exists a, actor = Some a /\ within_reach a (human_permissions p' (human_at p' j'));
  ae_guard : forall i, target = Some i -> is_assignment op = false ->
    argus_security_admin_removal_would_lock_out (Some p) i = false \/
    (is_enabled_human_admin p (human_at p i) = true ->
     exists j', (j' < accounts p')%nat /\ is_enabled_human_admin p' (human_at p' j') = true)
}.

Lemma snapshot_target_spec p g actor identifier a p0 g0 i :
  snapshot_target (inr (p, g)) actor identifier = inr (a, p0, g0, i) ->
  actor = Some a /\ p0 = p /\ g0 = g /\ (i < accounts p)%nat /\ hu_identifier (human_at p i) = identifier /\
  within_reach a (human_permissions p (human_at p i)).
Proof.
  unfold snapshot_target. destruct actor as [a'|]; [|done]. destruct (negb _); [done|].
  destruct (find_identifier p identifier) as [k|] eqn:Hf; [|done]. apply find_index in Hf as [Hk Hid].
  apply bool_decide_eq_true in Hid. destruct (target_authorized _ _ _ _ _) eqn:Ht; try done.
  intros [= -> -> -> ->]. split_and!; try done. by eapply target_authorized_reach.
Qed.

Lemma accounts_bound p : directory_wf p -> (accounts p <= length (dp_humans p))%nat.
Proof. intros [Hv _ Hh _ _]. rewrite Hh. pose proof (counts_bounded p Hv). unfold accounts. lia. Qed.

(** The same roles, the same mask, the same direct permissions. *)
Lemma permissions_same p p' h h' : directory_wf p -> (exists j, (j < accounts p)%nat /\ h = human_at p j) ->
  dp_custom_roles p' = dp_custom_roles p -> dp_custom_role_count p' = dp_custom_role_count p ->
  hu_role_mask h' = hu_role_mask h -> hu_direct_permissions h' = hu_direct_permissions h ->
  human_permissions p' h' = human_permissions p h.
Proof.
  intros Hw (j & Hj & ->) Hr Hc Hm Hd. apply permissions_agree; [|lia|exact Hm|exact Hd|intros k _; unfold role_at; by rewrite Hr].
  apply valid_mask_exists; [apply Hw|apply Hw|exact Hj].
Qed.

(** Another record is untouched by a write to record [i]. *)
Lemma set_human_keeps p i h j : directory_wf p -> (i < accounts p)%nat -> (j < accounts p)%nat -> i <> j ->
  keeps p (human_at p j) (set_human p i h) (human_at (set_human p i h) j).
Proof.
  intros Hw Hi Hj Hne. pose proof (accounts_bound p Hw) as Hb. rewrite set_human_at, decide_False by (done || lia).
  split; [reflexivity|]. split; [reflexivity|]. split; [reflexivity|].
  apply permissions_same; [exact Hw|by exists j|reflexivity..].
Qed.

(** A write to record [i] that leaves its identifier, its mask and its direct permissions. *)
Lemma set_human_same p i h : directory_wf p -> (i < accounts p)%nat ->
  hu_role_mask h = hu_role_mask (human_at p i) -> hu_direct_permissions h = hu_direct_permissions (human_at p i) ->
  human_permissions (set_human p i h) (human_at (set_human p i h) i) = human_permissions p (human_at p i).
Proof.
  intros Hw Hi Hm Hd. pose proof (accounts_bound p Hw) as Hb. rewrite set_human_at, decide_True by (done || lia).
  apply permissions_same; [exact Hw|by exists i|reflexivity|reflexivity|exact Hm|exact Hd].
Qed.

(** The effect of a write to record [i]. *)
Lemma set_human_effect actor op p i h (target : option nat) : directory_wf p -> (i < accounts p)%nat ->
  let p' := set_human p i h in
  (target = None /\ keeps p (human_at p i) p' (human_at p' i)) \/
  (target = Some i /\ (exists a, actor = Some a /\ within_reach a (human_permissions p' (human_at p' i))) /\
   (is_assignment op = true \/ argus_security_admin_removal_would_lock_out (Some p) i = false \/
    (is_enabled_human_admin p (human_at p i) = true -> is_enabled_human_admin p' (human_at p' i) = true))) ->
  admin_effect actor op p p' target.
Proof.
  intros Hw Hi p' H. split.
  - intros j Hj Ht. exists j. split; [done|]. destruct (decide (i = j)) as [->|]; [|by apply set_human_keeps].
    destruct H as [[_ H]|[-> _]]; done.
  - intros j Hj. change (accounts p') with (accounts p) in Hj. destruct (decide (i = j)) as [->|].
    + destruct H as [[_ H]|(_ & H & _)]; [left; by exists j|by right].
    + left. exists j. split; [done|]. by apply set_human_keeps.
  - intros k Hk Ha. destruct H as [[-> _]|(Ht & _ & H)]; [done|]. rewrite Ht in Hk. injection Hk as <-.
    destruct H as [H|[H|H]]; [congruence|by left|]. right. intros He. exists i. split; [done|auto].
Qed.

Lemma with_password_keeps p i v : directory_wf p -> (i < accounts p)%nat ->
  let p' := set_human p i (with_password v (human_at p i)) in keeps p (human_at p i) p' (human_at p' i).
Proof.
  intros Hw Hi p'. pose proof (accounts_bound p Hw) as Hb. unfold p', keeps.
  rewrite set_human_at, decide_True by (done || lia). split; [reflexivity|]. split; [reflexivity|]. split; [reflexivity|].
  apply permissions_same; [exact Hw|by exists i|reflexivity..].
Qed.

(** A role added behind the others changes nobody's permissions. *)
Lemma roles_effect actor op p p' : directory_wf p -> dp_humans p' = dp_humans p -> dp_human_count p' = dp_human_count p ->
  dp_custom_role_count p <= dp_custom_role_count p' ->
  (forall j, (j < Z.to_nat (dp_custom_role_count p))%nat -> role_at p' j = role_at p j) ->
  admin_effect actor op p p' None.
Proof.
  intros Hw Hh Hn Hc Hr. assert (Hk : forall j, (j < accounts p)%nat -> keeps p (human_at p j) p' (human_at p' j)).
  { intros j Hj. unfold human_at at 2. rewrite Hh. fold (human_at p j).
    split; [reflexivity|]. split; [reflexivity|]. split; [reflexivity|].
    apply permissions_agree; [apply valid_mask_exists; [apply Hw|apply Hw|exact Hj]|exact Hc|reflexivity|reflexivity|exact Hr]. }
  assert (Hacc : accounts p' = accounts p) by (unfold accounts; by rewrite Hn). split; rewrite ?Hacc.
  - intros j Hj _. exists j. split; [done|by apply Hk].
  - intros j Hj. left. exists j. split; [done|by apply Hk].
  - done.
Qed.

(** A removed role: the principals, and so the permissions, are those before. *)
Lemma delete_role_effect actor op p g identifier p' : directory_wf p ->
  argus_security_admin_delete_role (inr (p, g)) actor identifier = inr p' -> admin_effect actor op p p' None.
Proof.
  intros Hw Hd. destruct Hw as [Hv Hlr Hlh Hc0 Hh0].
  apply delete_role_spec in Hd as (p0 & g0 & k & [= <- <-] & _ & _ & Hk & Hclear & ->).
  destruct (counts_bounded p Hv) as [Hrc Hhc].
  set (q := p <| dp_custom_roles ::= remove_at zero_role k (Z.to_nat (dp_custom_role_count p)) |>
              <| dp_custom_role_count ::= fun n => u8 (n - 1) |>).
  assert (Hqc : dp_custom_role_count q = dp_custom_role_count p - 1).
  { change (dp_custom_role_count q) with (u8 (dp_custom_role_count p - 1)). apply u8_small. unfold is_u8. lia. }
  unfold squeeze_humans, indices. change (dp_human_count q) with (dp_human_count p).
  pose proof (fun j => squeeze_fold (u16 (Z.shiftl 1 (Z.of_nat k + 6))) q (Z.to_nat (dp_human_count p)) j
    ltac:(change (dp_humans q) with (dp_humans p); lia)) as Hs. cbv zeta in Hs.
  set (p' := foldl _ q _) in *. destruct (Hs 0%nat) as (_ & Hr & Hc & Hh & _).
  assert (Hkeep : forall j, (j < accounts p)%nat -> keeps p (human_at p j) p' (human_at p' j)).
  { intros j Hj. destruct (Hs j) as (_ & _ & _ & _ & ->). rewrite bool_decide_eq_true_2 by done.
    change (human_at q j) with (human_at p j). split; [reflexivity|]. split; [reflexivity|]. split; [reflexivity|].
    unfold human_permissions.
    pose proof (mask_range p j Hv Hj) as Hm.
    assert (Hbit : Z.testbit (hu_role_mask (human_at p j)) (Z.of_nat k + 6) = false).
    { specialize (Hclear j Hj). rewrite role_bit_small, <- Z.shiftl_1_l in Hclear by lia. apply Z.eqb_eq in Hclear.
      rewrite land_bit_test in Hclear by lia. by apply negb_true_iff. }
    rewrite !(mask_permissions_grants _ _ _ _ 0) by apply role_bits_nonneg. cbn [hu_role_mask hu_direct_permissions update eta eta_human].
    rewrite (grants_after_removal p p' k (hu_role_mask (human_at p j))); [done|done|lia|by rewrite Hc| |done| |].
    - intros i Hi. unfold role_at. rewrite Hr.
      change (dp_custom_roles q) with (remove_at zero_role k (Z.to_nat (dp_custom_role_count p)) (dp_custom_roles p)).
      rewrite remove_at_lookup by lia. by destruct (bool_decide _).
    - intros b Hb. by rewrite squeeze_bits by lia.
    - rewrite <- (Z.mod_small (hu_role_mask (human_at p j)) (2 ^ 16)) by done. by rewrite Z.mod_pow2_bits_high by lia. }
  assert (Hacc : accounts p' = accounts p) by (unfold accounts; by rewrite Hh).
  split; rewrite ?Hacc.
  - intros j Hj _. exists j. split; [done|by apply Hkeep].
  - intros j Hj. left. exists j. split; [done|by apply Hkeep].
  - done.
Qed.

Lemma level_mask_bit level b : 0 <= b -> level <= 4 -> Z.testbit (u16 (Z.shiftl 1 level)) b = true -> b = level.
Proof.
  intros Hb Hl. destruct (Z.neg_nonneg_cases level).
  - rewrite Z.shiftl_div_pow2 by lia. rewrite Z.div_small by (assert (2 ^ 1 <= 2 ^ (- level)) by (apply Z.pow_le_mono_r; lia); lia).
    by rewrite Z.bits_0.
  - rewrite role_bit_small, Z.pow2_bits_eqb by lia. intros H1. by apply Z.eqb_eq in H1.
Qed.

Lemma create_human_effect cv p g actor identifier login display scope level direct password op p' : directory_wf p ->
  argus_security_admin_create_human cv (inr (p, g)) actor identifier login display scope level direct password = inr p' ->
  admin_effect actor op p p' None.
Proof.
  intros Hw. unfold argus_security_admin_create_human. destruct actor as [a|]; [|done].
  destruct (argus_auth_canonicalize_login (Some login)) as [normalized|]; [|done].
  destruct (negb _ || (_ <? level) || _) eqn:Hreq; [done|]. b2p. destruct (target_authorized _ _ _ _ _) eqn:Ht; try done.
  destruct (_ || _) eqn:Hfull; [done|]. b2p. destruct (cv password) as [|v]; [done|]. set (h := HumanRecord _ _ _ _ _ _ _ _ _ _ _ _ _ _ _).
  intros [= <-]. unfold ARGUS_SECURITY_MAX_HUMANS, ARGUS_SECURITY_LEVEL_VIEWER in *.
  pose proof (dw_humans p Hw) as Hlen. pose proof (dw_human_count p Hw) as Hc0.
  set (n := Z.to_nat (dp_human_count p)). set (p' := (set_human p n h) <| dp_human_count ::= fun n => u8 (n + 1) |>).
  assert (Hacc : accounts p' = S (accounts p)).
  { unfold accounts. change (dp_human_count p') with (u8 (dp_human_count p + 1)). rewrite u8_small by (unfold is_u8; lia). lia. }
  assert (Hat : forall j, human_at p' j = if decide (n = j) then h else human_at p j).
  { intros j. change (human_at p' j) with (human_at (set_human p n h) j). rewrite set_human_at; [done|]. unfold n. lia. }
  assert (Hkeep : forall j, (j < accounts p)%nat -> keeps p (human_at p j) p' (human_at p' j)).
  { intros j Hj. rewrite Hat, decide_False by (unfold n, accounts in *; lia). split; [reflexivity|]. split; [reflexivity|].
    split; [reflexivity|]. apply permissions_same; [exact Hw|by exists j|reflexivity..]. }
  change (admin_effect (Some a) op p p' None). split; rewrite ?Hacc.
  { intros j Hj _. exists j. split; [lia|by apply Hkeep]. }
  2: done.
  intros j Hj. destruct (decide (j < accounts p)%nat) as [Hlt|]; [left; exists j; split; [done|by apply Hkeep]|]. right. exists a.
  split; [done|]. rewrite Hat, decide_True by (unfold n, accounts in *; lia).
  apply target_authorized_reach in Ht. eapply within_reach_mono; [exact Ht|]. apply subset_spec. intros b Hb.
  assert (Hex : mask_exists p' (hu_role_mask h)).
  { intros c Hc Hm. apply level_mask_bit in Hm as ->; [|done|lia]. pose proof (dw_role_count p Hw).
    change (dp_custom_role_count p') with (dp_custom_role_count p). unfold ARGUS_SECURITY_BUILTIN_ROLE_COUNT. lia. }
  rewrite permissions_bits by done. unfold requested_permissions. rewrite Z.lor_spec, orb_true_iff.
  intros [Hdir|(c & Hc & Hm & Hp)]; [by right|left]. apply level_mask_bit in Hm as ->; [|lia|lia].
  unfold role_permissions, ARGUS_SECURITY_BUILTIN_ROLE_COUNT in Hp. by rewrite (proj2 (Z.ltb_lt level 6)) in Hp by lia.
Qed.

Lemma set_enabled_effect p g actor identifier enabled p' : directory_wf p ->
  argus_security_admin_set_enabled (inr (p, g)) actor identifier enabled = inr p' ->
  exists target, admin_effect actor (SetHumanEnabled identifier enabled) p p' target.
Proof.
  intros Hw. unfold argus_security_admin_set_enabled. destruct (snapshot_target _ _ _) as [|[[[a p0] g0] i]] eqn:Hs; [done|].
  apply snapshot_target_spec in Hs as (-> & -> & -> & Hi & Hid & Hreach). destruct (_ && _) eqn:Hl; [done|]. intros [= <-].
  exists (Some i). set (h := bump_record_epoch _). pose proof (accounts_bound p Hw) as Hb.
  assert (Hsame : human_permissions (set_human p i h) (human_at (set_human p i h) i) = human_permissions p (human_at p i)) by (by apply set_human_same).
  apply set_human_effect; [done|done|]. right. split; [done|]. split; [exists a; split; [done|by rewrite Hsame]|]. right.
  destruct enabled; [right|left].
  - unfold is_enabled_human_admin. rewrite Hsame. rewrite set_human_at, decide_True by (done || lia). cbn [negb andb Z.eqb hu_enabled hu_revoked].
    change (hu_enabled h) with 1. change (hu_revoked h) with 0. cbn [Z.eqb negb andb].
    intros H. by apply andb_true_iff in H as [_ ->].
  - cbn [negb andb] in Hl. done.
Qed.

Lemma custom_permissions_bits p mask n : 0 <= n ->
  Z.testbit (custom_permissions p mask) n = true <->
  exists i, (i < Z.to_nat (dp_custom_role_count p))%nat /\ Z.testbit mask (Z.of_nat i) = true /\
    Z.testbit (ro_permissions (role_at p i)) n = true.
Proof.
  intros Hn. unfold custom_permissions.
  assert (H : forall l r, Z.testbit (foldl (fun permissions i => if Z.land mask (Z.shiftl 1 (Z.of_nat i)) =? 0 then permissions
      else Z.lor permissions (ro_permissions (role_at p i))) r l) n = true <->
    Z.testbit r n = true \/ exists i, In i l /\ Z.testbit mask (Z.of_nat i) = true /\ Z.testbit (ro_permissions (role_at p i)) n = true).
  { induction l as [|i l IH]; intros r; cbn [foldl In]; [split; [by left|by intros [?|(? & ? & ?)]]|].
    rewrite IH, land_bit_test by lia. destruct (Z.testbit mask (Z.of_nat i)) eqn:E; cbn [negb].
    - rewrite Z.lor_spec, orb_true_iff. split.
      + intros [[?|?]|(k & ? & ?)]; [by left|right; exists i; auto|right; exists k; auto].
      + intros [?|(k & [<-|?] & ? & ?)]; [by left; left|by left; right|right; exists k; auto].
    - split; [intros [?|(k & ? & ?)]; [by left|right; exists k; auto]|].
      intros [?|(k & [<-|?] & ? & ?)]; [by left|congruence|right; exists k; auto]. }
  rewrite H, Z.bits_0. split.
  - intros [?|(i & Hi & ?)]; [done|]. exists i. apply in_seq in Hi. split; [lia|done].
  - intros (i & Hi & ?). right. exists i. split; [apply in_seq; lia|done].
Qed.

Lemma assign_effect p g actor identifier mask p' : directory_wf p ->
  argus_security_admin_assign_custom_roles (inr (p, g)) actor identifier mask = inr p' ->
  exists target, admin_effect actor (AssignCustomRoles identifier mask) p p' target.
Proof.
  intros Hw. unfold argus_security_admin_assign_custom_roles. destruct (snapshot_target _ _ _) as [|[[[a p0] g0] i]] eqn:Hs; [done|].
  apply snapshot_target_spec in Hs as (-> & -> & -> & Hi & Hid & Hreach). destruct (negb (subset _ _)) eqn:Hvm; [done|].
  destruct (negb (custom_permissions p mask =? 0) && _) eqn:Hdel; [done|]. intros [= <-]. exists (Some i).
  set (h := bump_record_epoch _). pose proof (accounts_bound p Hw) as Hb. pose proof (dw_role_count p Hw) as Hc0.
  destruct (counts_bounded p (dw_valid p Hw)) as [Hrc _].
  apply set_human_effect; [done|done|]. right. split; [done|]. split; [|by left]. exists a. split; [done|].
  rewrite set_human_at, decide_True by (done || lia). set (p' := set_human p i h).
  destruct (human_entry p i (dw_valid p Hw) Hi) as (Hval & _ & Hlevel & _).
  assert (Hlv : 0 <= hu_level (human_at p i) <= 4).
  { unfold argus_security_human_record_valid in Hval. b2p. unfold ARGUS_SECURITY_LEVEL_VIEWER in *. split; [|done].
    destruct (Z.neg_nonneg_cases (hu_level (human_at p i))) as [Hneg|]; [|done]. exfalso. apply Hlevel.
    rewrite Z.shiftl_div_pow2 by lia. rewrite Z.div_small; [change (u16 0) with 0; by rewrite Z.land_0_r|].
    assert (2 ^ 1 <= 2 ^ (- hu_level (human_at p i))) by (apply Z.pow_le_mono_r; lia). lia. }
  assert (Hbit : Z.testbit (hu_role_mask (human_at p i)) (hu_level (human_at p i)) = true).
  { destruct (Z.testbit _ _) eqn:E; [done|]. exfalso. apply Hlevel. rewrite role_bit_small, <- Z.shiftl_1_l by lia.
    apply Z.eqb_eq. rewrite land_bit_test by lia. by rewrite E. }
  assert (Hcustom : within_reach a (custom_permissions p mask)).
  { destruct (Z.eqb_spec (custom_permissions p mask) 0) as [->|Hz].
    - split; by rewrite Z.land_0_l.
    - cbn [negb andb] in Hdel. apply negb_false_iff, bool_decide_eq_true, delegate_allowed in Hdel as (a' & s & [= <-] & _ & _ & _ & _ & Hd & Hmca & _).
      split; [|done]. rewrite subset_spec in *. intros n Hn H. rewrite Z.land_spec in H. apply andb_true_iff in H as [H _]. auto. }
  eapply within_reach_mono; [exact (within_reach_lor _ _ _ Hreach Hcustom)|]. apply subset_spec. intros n Hn.
  assert (Hmaskbit : forall b, 0 <= b -> Z.testbit (hu_role_mask h) b = true ->
    b = hu_level (human_at p i) \/ (6 <= b < 16 /\ Z.testbit mask (b - 6) = true /\ b - 6 < dp_custom_role_count p)).
  { intros b Hb0. change (hu_role_mask h) with (Z.lor (u16 (Z.shiftl 1 (hu_level (human_at p i))))
      (u16 (Z.shiftl mask ARGUS_SECURITY_BUILTIN_ROLE_COUNT))). rewrite Z.lor_spec, orb_true_iff.
    intros [Hl|Hu]; [left; by apply level_mask_bit in Hl; [|lia|lia]|right]. revert Hu. unfold u16, ARGUS_SECURITY_BUILTIN_ROLE_COUNT.
    change 65536 with (2 ^ 16). rewrite testbit_mod_2 by lia. destruct (Z.ltb_spec b 16); [|done]. cbn [andb].
    destruct (Z.ltb_spec b 6); [by rewrite Z.shiftl_spec_low by lia|]. rewrite Z.shiftl_spec by lia. intros Hu.
    split; [lia|]. split; [done|]. apply negb_false_iff in Hvm. rewrite subset_spec in Hvm. specialize (Hvm (b - 6) ltac:(lia) Hu).
    destruct (Z.eqb_spec (dp_custom_role_count p) 0); [by rewrite Z.bits_0 in Hvm|]. revert Hvm. unfold u16. change 65536 with (2 ^ 16).
    rewrite testbit_mod_2, Z.shiftl_1_l by lia. replace (2 ^ dp_custom_role_count p - 1) with (Z.ones (dp_custom_role_count p)) by (rewrite Z.ones_equiv; lia).
    rewrite Z.testbit_ones_nonneg by lia. intros Hx. apply andb_true_iff in Hx as [_ Hx]. by apply Z.ltb_lt in Hx. }
  assert (Hex : mask_exists p' (hu_role_mask h)).
  { intros b Hb0 Hm. change (dp_custom_role_count p') with (dp_custom_role_count p). unfold ARGUS_SECURITY_BUILTIN_ROLE_COUNT.
    destruct (Hmaskbit b Hb0 Hm) as [->|]; lia. }
  rewrite permissions_bits by done. rewrite Z.lor_spec, orb_true_iff, custom_permissions_bits by done.
  rewrite permissions_bits by (done || (apply valid_mask_exists; [apply Hw|done|done])).
  intros [Hdir|(b & Hb0 & Hm & Hp)]; [by left; left|]. destruct (Hmaskbit b ltac:(lia) Hm) as [->|(Hrange & Hmb & Hlt)].
  - left. right. exists (hu_level (human_at p i)). split; [lia|]. split; [done|].
    unfold role_permissions, ARGUS_SECURITY_BUILTIN_ROLE_COUNT in *. rewrite (proj2 (Z.ltb_lt _ 6)) in Hp |- * by lia. done.
  - right. exists (Z.to_nat (b - 6)). rewrite Z2Nat.id by lia. split; [lia|]. split; [done|].
    unfold role_permissions, ARGUS_SECURITY_BUILTIN_ROLE_COUNT in Hp. by rewrite (proj2 (Z.ltb_ge b 6)) in Hp by lia.
Qed.

Lemma delete_human_effect p g actor identifier p' : directory_wf p ->
  argus_security_admin_delete_human (inr (p, g)) actor identifier = inr p' ->
  exists target, admin_effect actor (DeleteHuman identifier) p p' target.
Proof.
  intros Hw. unfold argus_security_admin_delete_human. destruct (snapshot_target _ _ _) as [|[[[a p0] g0] i]] eqn:Hs; [done|].
  apply snapshot_target_spec in Hs as (-> & -> & -> & Hi & Hid & Hreach).
  destruct (argus_security_admin_removal_would_lock_out _ _) eqn:Hl; [done|]. intros [= <-]. exists (Some i).
  match goal with |- admin_effect _ _ _ ?q _ => set (p' := q) end. pose proof (accounts_bound p Hw) as Hb.
  destruct (counts_bounded p (dw_valid p Hw)) as [_ Hhc].
  assert (Hacc : accounts p' = (accounts p - 1)%nat).
  { unfold accounts in *. change (dp_human_count p') with (u8 (dp_human_count p - 1)). rewrite u8_small by (unfold is_u8; lia). lia. }
  assert (Hat : forall j, (j < accounts p - 1)%nat -> human_at p' j = human_at p (if bool_decide (j < i)%nat then j else S j)).
  { intros j Hj. unfold human_at at 1. change (dp_humans p') with (remove_at zero_human i (accounts p) (dp_humans p)).
    rewrite remove_at_lookup by (done || lia). by destruct (bool_decide _). }
  assert (Hkeep : forall j k, (j < accounts p)%nat -> human_at p' k = human_at p j -> keeps p (human_at p j) p' (human_at p' k)).
  { intros j k Hj ->. split; [reflexivity|]. split; [reflexivity|]. split; [reflexivity|].
    apply permissions_same; [exact Hw|by exists j|reflexivity..]. }
  split.
  - intros j Hj Hne. destruct (decide (j < i)%nat) as [Hlt|].
    + exists j. split; [lia|]. apply Hkeep; [done|]. rewrite Hat by lia. by rewrite bool_decide_eq_true_2.
    + assert (j <> i) by congruence. exists (j - 1)%nat. split; [lia|]. apply Hkeep; [done|]. rewrite Hat by lia.
      rewrite bool_decide_eq_false_2 by lia. f_equal. lia.
  - intros j Hj. left. rewrite Hacc in Hj. exists (if bool_decide (j < i)%nat then j else S j).
    assert (Hlt : ((if bool_decide (j < i)%nat then j else S j) < accounts p)%nat) by (case_bool_decide; lia).
    split; [done|]. apply Hkeep; [done|by apply Hat].
  - intros k Hk _. injection Hk as <-. by left.
Qed.

Lemma admin_update_effect cv p g actor op p' : directory_wf p -> admin_update cv (inr (p, g)) actor op = inr p' ->
  exists target, admin_effect actor op p p' target.
Proof.
  intros Hw. destruct op; cbn [admin_update].
  - intros H. exists None. by eapply create_human_effect.
  - by apply set_enabled_effect.
  - unfold argus_security_admin_replace_password. destruct (negb _); [done|].
    destruct (snapshot_target _ _ _) as [|[[[a p0] g0] i]] eqn:Hs; [done|].
    apply snapshot_target_spec in Hs as (-> & -> & -> & Hi & _ & _). destruct (cv password); [done|]. intros [= <-].
    exists None. apply set_human_effect; [done|done|]. left. split; [done|by apply with_password_keeps].
  - unfold argus_security_admin_replace_own_password. destruct actor as [a|]; [|done]. destruct (_ || _ || _); [done|].
    destruct (find_identifier _ _) as [i|] eqn:Hf; [|done]. apply find_index in Hf as [Hi _]. destruct (cv password); [done|]. intros [= <-].
    exists None. apply set_human_effect; [done|done|]. left. split; [done|by apply with_password_keeps].
  - unfold argus_security_admin_update_display_name. destruct display_name as [name|]; [|done]. destruct (_ || _); [done|].
    destruct (snapshot_target _ _ _) as [|[[[a p0] g0] i]] eqn:Hs; [done|].
    apply snapshot_target_spec in Hs as (-> & -> & -> & Hi & _ & _). intros [= <-]. pose proof (accounts_bound p Hw) as Hb.
    exists None. apply set_human_effect; [done|done|]. left. split; [done|]. unfold keeps.
    rewrite set_human_at, decide_True by (done || lia). split; [reflexivity|]. split; [reflexivity|]. split; [reflexivity|].
    apply permissions_same; [exact Hw|by exists i|reflexivity..].
  - by apply assign_effect.
  - by apply delete_human_effect.
  - unfold argus_security_admin_create_role. destruct actor as [a|]; [|done]. destruct identifier as [identifier|]; [|done].
    destruct (_ || _ || _); [done|]. destruct (ARGUS_SECURITY_CUSTOM_ROLE_CAPACITY <=? _) eqn:Hc; [done|]. b2p.
    destruct (find_role p identifier); [done|]. intros [= <-]. exists None. pose proof (dw_role_count p Hw) as Hc0.
    unfold ARGUS_SECURITY_CUSTOM_ROLE_CAPACITY, ARGUS_SECURITY_MAX_ROLES, ARGUS_SECURITY_BUILTIN_ROLE_COUNT in Hc.
    apply roles_effect; [done|done|done| |].
    + change (dp_custom_role_count p <= u8 (dp_custom_role_count p + 1)). rewrite u8_small by (unfold is_u8; lia). lia.
    + intros j Hj. unfold role_at. cbn. by rewrite list_lookup_insert_ne by lia.
  - intros H. exists None. by eapply delete_role_effect.
Qed.

(** Nobody gives what it may not delegate: after any successful operation on the user
    directory, every account either was there before with the same permissions, or has
    permissions that the acting principal may itself delegate; the management of client
    administrators, which nobody may delegate, is only ever given by Argus personnel. *)
Theorem account_privilege_bounded cv p g actor op p' i :
  directory_wf p -> admin_update cv (inr (p, g)) actor op = inr p' -> (i < accounts p')%nat ->
  (exists j, (j < accounts p)%nat /\ keeps p (human_at p j) p' (human_at p' i)) \/
  exists a, actor = Some a /\ within_reach a (human_permissions p' (human_at p' i)).
Proof.
  intros Hw Hu Hi. destruct (admin_update_effect _ _ _ _ _ _ Hw Hu) as (target & He). exact (ae_from _ _ _ _ _ He i Hi).
Qed.

Lemma keeps_admin p h p' h' : keeps p h p' h' -> is_enabled_human_admin p' h' = is_enabled_human_admin p h.
Proof. intros (_ & He & Hr & Hp). unfold is_enabled_human_admin. by rewrite He, Hr, Hp. Qed.

Lemma filter_indices_pos (P : nat -> bool) count : (0 < length (List.filter P (indices count)))%nat <->
  exists i, (i < Z.to_nat count)%nat /\ P i = true.
Proof.
  split.
  - intros H. destruct (List.filter P (indices count)) as [|i l] eqn:E; [cbn in H; lia|].
    assert (Hi : In i (List.filter P (indices count))) by (rewrite E; by left). apply filter_In in Hi as [Hi Hp].
    apply in_seq in Hi. exists i. split; [lia|done].
  - intros (i & Hi & Hp). assert (Hin : In i (List.filter P (indices count))).
    { apply filter_In. split; [apply in_seq; lia|done]. }
    destruct (List.filter P (indices count)); [done|cbn; lia].
Qed.

Lemma filter_indices_two (P : nat -> bool) count i : (i < Z.to_nat count)%nat -> P i = true ->
  length (List.filter P (indices count)) <> 1%nat -> exists j, (j < Z.to_nat count)%nat /\ j <> i /\ P j = true.
Proof.
  intros Hi Hp Hl. destruct (List.filter P (indices count)) as [|a [|b l]] eqn:E; [|done|].
  - assert (H : (0 < length (List.filter P (indices count)))%nat) by (apply filter_indices_pos; by exists i). rewrite E in H. cbn in H. lia.
  - assert (Hnd : NoDup (List.filter P (indices count))).
    { apply NoDup_ListNoDup, List.NoDup_filter, List.seq_NoDup. }
    assert (Hin : forall x, In x [a; b] -> (x < Z.to_nat count)%nat /\ P x = true).
    { intros x Hx. assert (H : In x (List.filter P (indices count))) by (rewrite E; destruct Hx as [<-|[<-|[]]]; cbn; auto).
      apply filter_In in H as [H ?]. apply in_seq in H. split; [lia|done]. }
    rewrite E in Hnd. assert (a <> b). { apply NoDup_cons in Hnd as [Hn _]. intros ->. apply Hn. by left. }
    destruct (decide (a = i)) as [<-|].
    + exists b. split; [|split; [done|]]; apply Hin; cbn; auto.
    + exists a. split; [|split; [done|]]; apply Hin; cbn; auto.
Qed.

(** Administration cannot lock itself out: as long as there is an enabled account that
    may manage users, no sequence of one disabling, removal, change of password or name, or
    change of the roles themselves leaves none.  (An assignment of roles is not guarded.) *)
Theorem last_admin_kept cv p g actor op p' :
  directory_wf p -> is_assignment op = false -> admin_update cv (inr (p, g)) actor op = inr p' ->
  (0 < enabled_admins p)%nat -> (0 < enabled_admins p')%nat.
Proof.
  intros Hw Ha Hu H. destruct (admin_update_effect _ _ _ _ _ _ Hw Hu) as (target & He).
  unfold enabled_admins in H |- *. apply filter_indices_pos. apply filter_indices_pos in H as (i & Hi & Hp).
  assert (Hother : forall j, (j < accounts p)%nat -> target <> Some j -> is_enabled_human_admin p (human_at p j) = true ->
    exists j', (j' < accounts p')%nat /\ is_enabled_human_admin p' (human_at p' j') = true).
  { intros j Hj Ht Hj'. destruct (ae_kept _ _ _ _ _ He j Hj Ht) as (j' & Hlt & Hk). exists j'. split; [done|]. by rewrite (keeps_admin _ _ _ _ Hk). }
  destruct (decide (target = Some i)) as [Ht|]; [|by eapply Hother].
  destruct (ae_guard _ _ _ _ _ He i Ht Ha) as [Hg|Hg]; [|by apply Hg].
  unfold argus_security_admin_removal_would_lock_out in Hg. rewrite Hp in Hg. rewrite (proj2 (Nat.leb_gt _ _) Hi) in Hg.
  cbn [negb orb] in Hg. apply Nat.eqb_neq in Hg. destruct (filter_indices_two _ _ i Hi Hp Hg) as (j & Hj & Hne & Hpj).
  apply (Hother j); [done| |done]. rewrite Ht. congruence.
Qed.

(** ** Sessions *)

Lemma users_commit_wpc d p g f :
  wpc (argus_security_directory_commit d p g)
    (fun r _ => if is_ok r.1 then sd_payload r.2 = p /\ argus_security_directory_payload_valid p = true else r.2 = d)
    (fun _ => True) f.
Proof.
  unfold argus_security_directory_commit, commit_locked. destruct (_ || _ : bool) eqn:H; [done|]. b2p. cbv zeta.
  apply wpc_bind. eapply wpc_mono; [|intros f' _; exact I|apply (commit_slot_wpc (P := argus_security_directory_payload_t))].
  - cbv beta. intros err f' _. split; [done|]. cbn [fst snd]. by destruct (is_ok err).
  - apply fresh_slot_valid; [apply next_generation_pos|done].
Qed.

(** An operation that was prepared and then performed: its payload is the directory's, and
    the sessions were revoked. *)
Lemma admin_perform_spec cv p g actor op d m f p' d' m' f' :
  admin_update cv (inr (p, g)) actor op = inr p' ->
  returns (admin_perform cv (inr (p, g)) actor op d m) f (ESP_OK, d', m') f' ->
  sd_payload d' = p' /\ argus_security_directory_payload_valid p' = true /\
  m' = match ends_sessions_of actor op with Some id => (argus_session_manager_revoke_principal m id).2 | None => m end.
Proof.
  intros Hu Hr. unfold admin_perform in Hr. rewrite Hu in Hr.
  enough (Hw : wpc (c ← argus_security_directory_commit d p' g;
      mret (c.1, c.2, if is_ok c.1 then match ends_sessions_of actor op with
        | Some identifier => (argus_session_manager_revoke_principal m identifier).2 | None => m end else m))
      (fun r _ => is_ok r.1.1 = true -> sd_payload r.1.2 = p' /\ argus_security_directory_payload_valid p' = true /\
         r.2 = match ends_sessions_of actor op with Some id => (argus_session_manager_revoke_principal m id).2 | None => m end)
      (fun _ => True) f) by exact (wpc_returns _ _ _ _ _ _ Hw Hr eq_refl).
  apply wpc_bind. eapply wpc_mono; [|intros f1 _; exact I|apply users_commit_wpc].
  intros [err d1] f1 H. split; [done|]. cbn [fst snd] in *. intros Ho. rewrite Ho in *. by destruct H.
Qed.

(** The manager after a principal was revoked: nobody is logged in as it. *)
Lemma revoke_principal_absent m id : sm_mutex m = true ->
  absent (fun _ q => bool_decide (pr_identifier q = id)) (s_sessions (argus_session_manager_revoke_principal m id).2).
Proof.
  intros Hm. unfold argus_session_manager_revoke_principal, argus_session_revoke_principal. rewrite Hm. cbn [negb].
  pose proof (revoke_where_absent (fun _ q => bool_decide (pr_identifier q = id)) (owned_by id) (s_sessions m) ltac:(done)) as H.
  by destruct (revoke_where (owned_by id) (s_sessions m)).
Qed.

(** The record of an account after an operation that ends its sessions: gone, or with
    another record epoch, so that a session opened before is not current either. *)
Definition outdated (p p' : payload_t) (id : bytes) : Prop :=
  forall i j, (i < accounts p)%nat -> (j < accounts p')%nat -> hu_identifier (human_at p i) = id ->
    hu_identifier (human_at p' j) = id ->
    is_u32 (hu_record_security_epoch (human_at p i)) -> hu_record_security_epoch (human_at p' j) <> hu_record_security_epoch (human_at p i).

Lemma human_epoch_nonzero p i : directory_wf p -> (i < accounts p)%nat -> hu_record_security_epoch (human_at p i) <> 0.
Proof.
  intros Hw Hi. destruct (human_entry p i (dw_valid p Hw) Hi) as (Hv & _). unfold argus_security_human_record_valid in Hv. b2p. done.
Qed.

Lemma set_human_outdated p k h id : directory_wf p -> (k < accounts p)%nat -> hu_identifier (human_at p k) = id ->
  hu_record_security_epoch h = nonzero_succ (hu_record_security_epoch (human_at p k)) ->
  outdated p (set_human p k h) id.
Proof.
  intros Hw Hk Hid He i j Hi Hj Hi' Hj' Hu. pose proof (accounts_bound p Hw) as Hb. change (accounts (set_human p k h)) with (accounts p) in Hj.
  assert (i = k) as ->. { apply (humans_distinct p); [apply Hw|done|done|right; congruence]. }
  rewrite set_human_at in * by lia. destruct (decide (k = j)) as [<-|Hne].
  - rewrite He. apply nonzero_succ_ne; [done|]. by apply human_epoch_nonzero.
  - exfalso. apply Hne. symmetry. apply (humans_distinct p); [apply Hw|done|done|right; congruence].
Qed.

Lemma admin_update_outdates cv p g actor op p' id : directory_wf p ->
  admin_update cv (inr (p, g)) actor op = inr p' -> ends_sessions_of actor op = Some id -> outdated p p' id.
Proof.
  intros Hw. destruct op; cbn [admin_update ends_sessions_of]; try done.
  - unfold argus_security_admin_set_enabled. destruct (snapshot_target _ _ _) as [|[[[a p0] g0] i]] eqn:Hs; [done|].
    apply snapshot_target_spec in Hs as (-> & -> & -> & Hi & Hid & _). destruct (_ && _); [done|]. intros [= <-] [= <-]. by apply set_human_outdated.
  - unfold argus_security_admin_replace_password. destruct (negb _); [done|]. destruct (snapshot_target _ _ _) as [|[[[a p0] g0] i]] eqn:Hs; [done|].
    apply snapshot_target_spec in Hs as (-> & -> & -> & Hi & Hid & _). destruct (cv password); [done|]. intros [= <-] [= <-]. by apply set_human_outdated.
  - unfold argus_security_admin_replace_own_password. destruct actor as [a|]; [|done]. destruct (_ || _ || _); [done|].
    destruct (find_identifier _ _) as [i|] eqn:Hf; [|done]. apply find_index in Hf as [Hi Hid]. apply bool_decide_eq_true in Hid.
    destruct (cv password); [done|]. intros [= <-] [= <-]. by apply set_human_outdated.
  - unfold argus_security_admin_assign_custom_roles. destruct (snapshot_target _ _ _) as [|[[[a p0] g0] i]] eqn:Hs; [done|].
    apply snapshot_target_spec in Hs as (-> & -> & -> & Hi & Hid & _). destruct (negb (subset _ _)); [done|]. destruct (_ && _); [done|].
    intros [= <-] [= <-]. by apply set_human_outdated.
  - unfold argus_security_admin_delete_human. destruct (snapshot_target _ _ _) as [|[[[a p0] g0] k]] eqn:Hs; [done|].
    apply snapshot_target_spec in Hs as (-> & -> & -> & Hk & Hid & _). destruct (argus_security_admin_removal_would_lock_out _ _); [done|].
    intros [= <-] [= <-] i j Hi Hj Hi' Hj' _. exfalso. pose proof (accounts_bound p Hw) as Hb. destruct (counts_bounded p (dw_valid p Hw)) as [_ Hhc].
    revert Hj Hj'. match goal with |- (_ < accounts ?q)%nat -> _ => set (p' := q) end. intros Hj Hj'.
    assert (Hacc : accounts p' = (accounts p - 1)%nat).
    { unfold accounts in *. change (dp_human_count p') with (u8 (dp_human_count p - 1)). rewrite u8_small by (unfold is_u8; lia). lia. }
    revert Hj'. unfold human_at at 1. change (dp_humans p') with (remove_at zero_human k (accounts p) (dp_humans p)).
    rewrite remove_at_lookup by (done || lia). intros Hj'.
    assert (Hlt : ((if bool_decide (j < k)%nat then j else S j) < accounts p)%nat) by (case_bool_decide; lia).
    assert (E : (if bool_decide (j < k)%nat then j else S j) = k).
    { apply (humans_distinct p); [apply Hw|done|done|]. right. rewrite Hid, <- Hj'. by case_bool_decide. }
    case_bool_decide; lia.
Qed.

(** A principal of the account's old record is not current any more. *)
Lemma outdated_not_current a d' p id q i : sa_directory a = Some d' -> outdated p (sd_payload d') id ->
  pr_type q = ARGUS_PRINCIPAL_HUMAN -> pr_identifier q = id -> (i < accounts p)%nat -> hu_identifier (human_at p i) = id ->
  is_u32 (hu_record_security_epoch (human_at p i)) -> pr_principal_revision q = hu_record_security_epoch (human_at p i) ->
  principal_current a q = false.
Proof.
  intros Ha Ho Ht Hq Hi Hid Hu Hrev. unfold principal_current, directory_find_id. rewrite Ht, Ha. cbn [mbind option_bind].
  destruct (argus_security_directory_find_id d' (pr_identifier q)) as [|[h j]] eqn:Hf; [done|].
  unfold argus_security_directory_find_id in Hf. destruct (find _ _) as [k|] eqn:Hk; [|done]. injection Hf as <- <-.
  apply find_index in Hk as [Hk Hkid]. apply bool_decide_eq_true in Hkid. destruct (sa_security_epoch a); [done|].
  rewrite Hrev. specialize (Ho i k Hi Hk Hid). rewrite Hkid in Ho. specialize (Ho Hq Hu).
  rewrite (proj2 (Z.eqb_neq _ _) Ho). by rewrite andb_false_r.
Qed.

(** A change to an account ends what it was logged in as: when disabling, deleting or
    re-roling an account, or changing its password, reports success, no session of that
    account is left and no later request authenticates as it on an old session; and a
    principal that was built from the old record has stopped being current, so that the
    gate would refuse it even if a session had survived. *)
Theorem account_change_ends_sessions cv p g actor op d m f p' d' m' f' id :
  directory_wf p -> sm_mutex m = true -> table_inv (s_sessions m) ->
  admin_update cv (inr (p, g)) actor op = inr p' ->
  returns (admin_perform cv (inr (p, g)) actor op d m) f (ESP_OK, d', m') f' ->
  ends_sessions_of actor op = Some id ->
  (forall sha256 calls token now t q k, Forall (fun c => creates c = false) calls ->
     argus_session_authenticate sha256 (s_sessions (session_run sha256 m' calls)) token now = (ESP_OK, t, Some (q, k)) ->
     pr_identifier q <> id) /\
  (forall a q i, sa_directory a = Some d' -> pr_type q = ARGUS_PRINCIPAL_HUMAN -> pr_identifier q = id ->
     (i < accounts p)%nat -> hu_identifier (human_at p i) = id -> is_u32 (hu_record_security_epoch (human_at p i)) ->
     pr_principal_revision q = hu_record_security_epoch (human_at p i) -> principal_current a q = false).
Proof.
  intros Hw Hm Hinv Hu Hr Hid. destruct (admin_perform_spec _ _ _ _ _ _ _ _ _ _ _ _ Hu Hr) as (Hp' & _ & Hm').
  rewrite Hid in Hm'. subst m'. split.
  - intros sha256 calls token now t q k Hcalls Ha.
    assert (Hab : absent (fun _ q => bool_decide (pr_identifier q = id))
      (s_sessions (session_run sha256 (argus_session_manager_revoke_principal m id).2 calls))).
    { eapply absent_sub; [|by apply revoke_principal_absent]. apply run_sub; [done|].
      exact (step_inv sha256 m (CallRevokePrincipal id) Hinv). }
    eapply authenticate_absent in Ha as (d0 & _ & Hp); [|exact Hab]. by apply bool_decide_eq_false in Hp.
  - intros a q i Ha. eapply outdated_not_current; [exact Ha|]. rewrite Hp'. by eapply admin_update_outdates.
Qed.

(** ** Concrete operations *)

Definition manager_role : argus_security_role_record_t :=
  RoleRecord 1 ARGUS_SECURITY_LEVEL_OPERATOR 0 0 (str "user-manager") ARGUS_PERMISSION_MANAGE_USERS ARGUS_PERMISSION_MANAGE_USERS.

(** An operator whose custom role lets it manage users, and a plain operator. *)
Definition demo_manager : argus_security_human_record_t :=
  HumanRecord 1 ARGUS_SECURITY_LEVEL_OPERATOR 1 0 (str "h-01") (str "manager") (str "Manager") (str "bench")
    264 0 1 1 0 [0; 0; 0] (PasswordVerifier 1 1 16 32 25000 [] []).

Definition demo_staff : payload_t :=
  DirectoryPayload 1 0 3 2 0
    ([RoleRecord 1 3 0 0 (str "spare") 1 0; RoleRecord 1 3 0 0 (str "viewer") 1 0; manager_role] ++ replicate 7 zero_role)
    ([demo_manager; demo_manager <| hu_identifier := str "h-02" |> <| hu_login := str "clerk" |> <| hu_role_mask := 8 |>]
       ++ replicate 14 zero_human).

Lemma demo_staff_wf : directory_wf demo_staff.
Proof. split; by vm_compute. Qed.

Definition demo_manager_principal : argus_principal_t :=
  default zero_principal (build_human_principal demo_manager demo_staff 1).2.

Definition no_derivation (password : option bytes) : esp_err_t + argus_password_verifier_t := inl ESP_FAIL.

Definition staff_after (op : admin_op) : payload_t :=
  match admin_update no_derivation (inr (demo_staff, 4)) (Some demo_manager_principal) op with inr p => p | inl _ => no_users end.

Lemma staff_after_delete : admin_update no_derivation (inr (demo_staff, 4)) (Some demo_manager_principal) (DeleteHuman (str "h-02"))
  = inr (staff_after (DeleteHuman (str "h-02"))).
Proof. vm_compute. reflexivity. Qed.

(** Removing a role needs the permission to manage roles. *)
Definition demo_role_manager : option argus_principal_t :=
  Some (Principal ARGUS_PRINCIPAL_HUMAN (str "h-09") (str "bench") ARGUS_SECURITY_LEVEL_CLIENT_ADMIN
          ARGUS_PERMISSION_MANAGE_ROLES 0 1 1 1 false).

Lemma role_removed : argus_security_admin_delete_role (inr (demo_staff, 4)) demo_role_manager (Some (str "spare"))
  = inr (match argus_security_admin_delete_role (inr (demo_staff, 4)) demo_role_manager (Some (str "spare")) with inr p => p | inl _ => no_users end).
Proof. vm_compute. reflexivity. Qed.

Lemma delete_role_preserves_principals_witness :
  let p' := match argus_security_admin_delete_role (inr (demo_staff, 4)) demo_role_manager (Some (str "spare")) with
            | inr p => p | inl _ => no_users end in
  hu_role_mask (human_at p' 0) = 136 /\
  build_human_principal (human_at p' 0) p' 1 = build_human_principal (human_at demo_staff 0) demo_staff 1.
Proof.
  intros p'. split; [vm_compute; reflexivity|].
  destruct (delete_role_preserves_principals demo_staff 4 demo_role_manager (Some (str "spare")) _
    (dw_valid _ demo_staff_wf) eq_refl eq_refl role_removed) as (k & _ & _ & _ & _ & _ & _ & H).
  exact (proj2 (proj2 (H 0%nat ltac:(vm_compute; lia))) 1).
Defined.

Lemma account_privilege_bounded_witness :
  let p' := staff_after (DeleteHuman (str "h-02")) in
  (exists j, (j < accounts demo_staff)%nat /\ keeps demo_staff (human_at demo_staff j) p' (human_at p' 0)) \/
  exists a, Some demo_manager_principal = Some a /\ within_reach a (human_permissions p' (human_at p' 0)).
Proof.
  intros p'. exact (account_privilege_bounded no_derivation demo_staff 4 _ _ _ 0%nat demo_staff_wf staff_after_delete ltac:(vm_compute; lia)).
Defined.

Lemma last_admin_kept_witness : (0 < enabled_admins (staff_after (DeleteHuman (str "h-02"))))%nat.
Proof.
  exact (last_admin_kept no_derivation demo_staff 4 _ (DeleteHuman (str "h-02")) _ demo_staff_wf eq_refl staff_after_delete ltac:(vm_compute; lia)).
Defined.

Definition staff_directory : security_directory := SecurityDirectory demo_staff 4 1.
Definition staff_flash : flash directory_slot := Flash None (Some (fresh_slot 4 demo_staff)) (Some 1).
Lemma run_ok_returns {B C} (p : prog (slot_op directory_slot) (esp_err_t * B * C)) f (r : esp_err_t * B * C * flash directory_slot) :
  run p f = r -> r.1.1.1 = ESP_OK -> returns p f (ESP_OK, r.1.1.2, r.1.2) r.2.
Proof. intros <- H. pose proof (run_returns p f) as Hr. destruct (run p f) as [[[e b] c] f']. cbn in *. by subst e. Qed.

Definition staff_result : esp_err_t * security_directory * session_manager * flash directory_slot :=
  run (admin_perform no_derivation (inr (demo_staff, 4)) (Some demo_manager_principal) (DeleteHuman (str "h-02")) staff_directory
         (SessionManager true sample_table)) staff_flash.

Lemma staff_delete_ok : staff_result.1.1.1 = ESP_OK.
Proof. vm_compute. reflexivity. Qed.

Lemma staff_delete_returns :
  returns (admin_perform no_derivation (inr (demo_staff, 4)) (Some demo_manager_principal) (DeleteHuman (str "h-02")) staff_directory
    (SessionManager true sample_table)) staff_flash (ESP_OK, staff_result.1.1.2, staff_result.1.2) staff_result.2.
Proof. exact (run_ok_returns _ staff_flash staff_result eq_refl staff_delete_ok). Qed.

Lemma sample_table_inv : table_inv (s_sessions (SessionManager true sample_table)).
Proof. apply (create_inv toy_sha argus_session_table_init), boot_inv. Qed.

Lemma delete_ends : ends_sessions_of (Some demo_manager_principal) (DeleteHuman (str "h-02")) = Some (str "h-02").
Proof. reflexivity. Qed.

Lemma account_change_ends_sessions_witness :
  forall token t q k, argus_session_authenticate toy_sha (s_sessions (session_run toy_sha staff_result.1.2 [])) token 2000 = (ESP_OK, t, Some (q, k)) ->
    pr_identifier q <> str "h-02".
Proof.
  intros token t q k.
  exact (proj1 (account_change_ends_sessions no_derivation demo_staff 4 (Some demo_manager_principal) (DeleteHuman (str "h-02"))
    staff_directory (SessionManager true sample_table) staff_flash (staff_after (DeleteHuman (str "h-02"))) staff_result.1.1.2
    staff_result.1.2 staff_result.2 (str "h-02") demo_staff_wf eq_refl sample_table_inv
    staff_after_delete staff_delete_returns delete_ends) toy_sha [] token 2000 t q k (Forall_nil_2 _)).
Defined.

(** The guard against removing the last administrator does not cover role assignments:
    here the only account that may manage users takes the role away from itself, and
    nobody that may manage users is left. *)
Theorem role_assignment_locks_out :
  enabled_admins demo_staff = 1%nat /\
  admin_update no_derivation (inr (demo_staff, 4)) (Some demo_manager_principal) (AssignCustomRoles (str "h-01") 0)
    = inr (staff_after (AssignCustomRoles (str "h-01") 0)) /\
  argus_security_directory_payload_valid (staff_after (AssignCustomRoles (str "h-01") 0)) = true /\
  enabled_admins (staff_after (AssignCustomRoles (str "h-01") 0)) = 0%nat.
Proof. split_and!; by vm_compute. Qed.
