(* ===== verification/LocalRecovery.v ===== *)
(** * Physical recovery

    [src/main/argus_local_recovery.c]: the detector of the recovery button with its
    debouncing, the commit of a recognised press, and the task that samples the pin every
    20 ms.  Storage and the network manager are arguments. *)

From S2P Require Import Prelude StateMgr SecurityStore.

Definition ARGUS_RECOVERY_SAMPLE_MS : Z := 20.
Definition ARGUS_RECOVERY_DEBOUNCE_MS : Z := 100.
Definition ARGUS_RECOVERY_HOLD_MS : Z := 10000.

Inductive argus_recovery_detector_result_t :=
| ARGUS_RECOVERY_DETECT_NONE
| ARGUS_RECOVERY_DETECT_QUALIFIED_RELEASE.
#[export] Instance detector_result_eq_dec : EqDecision argus_recovery_detector_result_t.
Proof. solve_decision. Defined.

Record argus_recovery_detector_t := RecoveryDetector {
  rd_raw_high : bool;
  rd_stable_high : bool;
  rd_stable_initialized : bool;
  rd_startup_release_seen : bool;
  rd_hold_qualified : bool;
  rd_triggered : bool;
  rd_raw_stable_ms : Z;
  rd_held_ms : Z
}.
#[export] Instance eta_recovery_detector : Eta argus_recovery_detector_t := fun d =>
  RecoveryDetector (rd_raw_high d) (rd_stable_high d) (rd_stable_initialized d) (rd_startup_release_seen d)
    (rd_hold_qualified d) (rd_triggered d) (rd_raw_stable_ms d) (rd_held_ms d).

Definition zero_detector : argus_recovery_detector_t := RecoveryDetector false false false false false false 0 0.

Definition add_bounded (value increment : Z) : Z :=
  if u32 (UINT32_MAX - value) <? increment then UINT32_MAX else u32 (value + increment).

Definition argus_recovery_detector_init (initial_high : bool) : argus_recovery_detector_t :=
  zero_detector <| rd_raw_high := initial_high |> <| rd_stable_high := initial_high |>.

(** The rising edge of a debounced level, or the time a debounced press has lasted. *)
Definition debounced (changed prior_high : bool) (elapsed_ms : Z) (d : argus_recovery_detector_t)
    : argus_recovery_detector_result_t * argus_recovery_detector_t :=
  if rd_stable_high d then
    let d := d <| rd_startup_release_seen := true |> <| rd_held_ms := 0 |> in
    if changed && negb prior_high && rd_hold_qualified d
    then (ARGUS_RECOVERY_DETECT_QUALIFIED_RELEASE, d <| rd_triggered := true |>)
    else (ARGUS_RECOVERY_DETECT_NONE, d <| rd_hold_qualified := false |>)
  else if negb (rd_startup_release_seen d)
  then (ARGUS_RECOVERY_DETECT_NONE, d <| rd_held_ms := 0 |> <| rd_hold_qualified := false |>)
  else
    let d := if (changed : bool) then d <| rd_held_ms := 0 |> else d in
    let d := d <| rd_held_ms := add_bounded (rd_held_ms d) elapsed_ms |> in
    (ARGUS_RECOVERY_DETECT_NONE, if ARGUS_RECOVERY_HOLD_MS <=? rd_held_ms d then d <| rd_hold_qualified := true |> else d).

Definition argus_recovery_detector_update (d : argus_recovery_detector_t) (level_high : bool) (elapsed_ms : Z)
    : argus_recovery_detector_result_t * argus_recovery_detector_t :=
  if (elapsed_ms =? 0) || rd_triggered d then (ARGUS_RECOVERY_DETECT_NONE, d)
  else
    let d :=
      if negb (eqb level_high (rd_raw_high d)) then d <| rd_raw_high := level_high |> <| rd_raw_stable_ms := elapsed_ms |>
      else d <| rd_raw_stable_ms := add_bounded (rd_raw_stable_ms d) elapsed_ms |> in
    if rd_raw_stable_ms d <? ARGUS_RECOVERY_DEBOUNCE_MS then (ARGUS_RECOVERY_DETECT_NONE, d)
    else
      let changed := negb (rd_stable_initialized d) || negb (eqb (rd_stable_high d) (rd_raw_high d)) in
      let prior_high := rd_stable_high d in
      debounced changed prior_high elapsed_ms (d <| rd_stable_high := rd_raw_high d |> <| rd_stable_initialized := true |>).

(** ** The commit *)

Record argus_local_recovery_commit_result_t := CommitResult {
  lr_accepted : bool;
  lr_persisted : bool;
  lr_network_posted : bool;
  lr_error : esp_err_t
}.

(** The operations answer and change a state [W]; [None] is a table that is incomplete. *)
Record argus_local_recovery_ops_t (W : Type) := RecoveryOps {
  lo_persist_request : W -> esp_err_t * W;
  lo_post_network_request : W -> esp_err_t * W
}.
Arguments RecoveryOps {W}.
Arguments lo_persist_request {W}.
Arguments lo_post_network_request {W}.

Definition argus_local_recovery_commit {W} (ops : option (argus_local_recovery_ops_t W)) (w : W)
    : argus_local_recovery_commit_result_t * W :=
  match ops with
  | None => (CommitResult false false false ESP_ERR_INVALID_ARG, w)
  | Some ops =>
      let '(err, w) := lo_persist_request ops w in
      if negb (is_ok err) then (CommitResult false false false err, w)
      else
        let '(err, w) := lo_post_network_request ops w in
        if negb (is_ok err) then (CommitResult false true false err, w)
        else (CommitResult true true true ESP_OK, w)
  end.

(** Already persisted, or the outcome of persisting it. *)
Definition persist_request (snapshot : argus_security_store_core_t) (set_state : esp_err_t) : esp_err_t :=
  if argus_security_store_get_recovery_state snapshot =? ARGUS_SECURITY_RECOVERY_REQUESTED then ESP_OK else set_state.

(** ** The task *)

Record local_recovery := LocalRecovery {
  lr_detector : argus_recovery_detector_t;
  lr_mutex : bool;         (* [s_status_mutex != NULL] *)
  lr_task : bool;          (* [s_task != NULL] *)
  lr_trigger_count : Z
}.
#[export] Instance eta_local_recovery : Eta local_recovery := fun s =>
  LocalRecovery (lr_detector s) (lr_mutex s) (lr_task s) (lr_trigger_count s).

Definition local_recovery_boot : local_recovery := LocalRecovery zero_detector false false 0.

(** One round of [recovery_task]. *)
Definition recovery_task {W} (ops : argus_local_recovery_ops_t W) (level_high : bool) (s : local_recovery) (w : W)
    : local_recovery * W :=
  let '(result, d) := argus_recovery_detector_update (lr_detector s) level_high ARGUS_RECOVERY_SAMPLE_MS in
  let s := s <| lr_detector := d |> in
  match result with
  | ARGUS_RECOVERY_DETECT_QUALIFIED_RELEASE =>
      let '(commit, w) := argus_local_recovery_commit (Some ops) w in
      (if lr_accepted commit then s <| lr_trigger_count ::= fun n => u32 (n + 1) |> else s, w)
  | ARGUS_RECOVERY_DETECT_NONE => (s, w)
  end.

Definition argus_local_recovery_init (gpio : esp_err_t) (level_high mutex_created task_created : bool) (s : local_recovery)
    : esp_err_t * local_recovery :=
  if lr_task s then (ESP_OK, s)
  else if negb (is_ok gpio) then (gpio, s)
  else
    let s := s <| lr_mutex := mutex_created |> in
    if negb mutex_created then (ESP_ERR_NO_MEM, s)
    else
      let s := s <| lr_detector := argus_recovery_detector_init level_high |> in
      if (task_created : bool) then (ESP_OK, s <| lr_task := true |>) else (ESP_ERR_NO_MEM, s).

Record argus_local_recovery_status_t := RecoveryStatus {
  ls_initialized : bool;
  ls_startup_release_seen : bool;
  ls_hold_qualified : bool;
  ls_triggered : bool;
  ls_held_ms : Z;
  ls_trigger_count : Z
}.

Definition argus_local_recovery_get_status (s : local_recovery) : esp_err_t + argus_local_recovery_status_t :=
  if negb (lr_mutex s) then inl ESP_ERR_INVALID_ARG
  else
    let d := lr_detector s in
    inr (RecoveryStatus (lr_task s) (rd_startup_release_seen d) (rd_hold_qualified d) (rd_triggered d) (rd_held_ms d)
           (lr_trigger_count s)).

(** The diagnostic build clears a recovery only of a machine at rest. *)
Definition clear_allowed (s : argus_state_snapshot_t) : bool :=
  match ss_machine_state s with ARGUS_STATE_UNLOCKED | ARGUS_STATE_HOLDING => true | _ => false end
  && (ss_configured_target_rpm_milli s =? 0) && (ss_trajectory_target_rpm_milli s =? 0)
  && (ss_applied_rpm_milli s =? 0) && (ss_generated_rpm_milli s =? 0)
  && negb (ss_driver_enabled s) && negb (ss_estop_latched s) && (ss_fault_code s =? 0).

(** The error, and whether it restarts. *)
Definition argus_local_recovery_clear_for_test (s : argus_state_snapshot_t) (set_state : esp_err_t) : esp_err_t * bool :=
  if negb (clear_allowed s) then (ESP_ERR_INVALID_STATE, false)
  else if negb (is_ok set_state) then (set_state, false) else (ESP_OK, true).

(** ** When the button is recognised *)

(** The samples so far, the newest first; the pin is high while the button is released. *)
Definition samples := list bool.

Fixpoint detect (initial_high : bool) (h : samples) : argus_recovery_detector_t :=
  match h with
  | [] => argus_recovery_detector_init initial_high
  | b :: h => (argus_recovery_detector_update (detect initial_high h) b ARGUS_RECOVERY_SAMPLE_MS).2
  end.

(** The newest five samples, 100 ms, are released: a debounced release. *)
Definition released (h : samples) : bool := bool_decide (take 5 h = replicate 5 true).

(** [pressed h n]: there was a debounced release, no other one since, and [n] of the
    samples since then were pressed. *)
Inductive pressed : samples -> nat -> Prop :=
| pressed_released h : released h = true -> pressed h 0
| pressed_more b h n : pressed h n -> released (b :: h) = false -> pressed (b :: h) (if b then n else S n).

(** The length of the newest run of equal samples. *)
Fixpoint run_length (b : bool) (h : samples) : nat :=
  match h with [] => 0 | c :: h => if eqb b c then S (run_length b h) else 0 end.

Lemma run_released h : (5 <= run_length true h)%nat -> released h = true.
Proof. intros H. apply bool_decide_eq_true. do 5 (destruct h as [|[] h]; cbn in H; try lia). done. Qed.

Lemma add_bounded_min v n : is_u32 v -> is_u32 n -> add_bounded v n = Z.min UINT32_MAX (v + n).
Proof.
  unfold is_u32, add_bounded, UINT32_MAX. intros Hv Hn. rewrite u32_small by (unfold is_u32; lia).
  destruct (Z.ltb_spec (4294967295 - v) n); [lia|]. rewrite u32_small by (unfold is_u32; lia). lia.
Qed.

(** What the detector knows after the samples [h], before it triggers. *)
Record detector_inv (initial_high : bool) (h : samples) (d : argus_recovery_detector_t) : Prop := {
  di_raw : h <> [] -> rd_raw_high d = hd true h;
  di_stable_ms : rd_raw_stable_ms d = Z.min UINT32_MAX (20 * Z.of_nat (run_length (rd_raw_high d) h));
  di_held_range : 0 <= rd_held_ms d <= UINT32_MAX;
  di_held : rd_startup_release_seen d = true -> exists n, pressed h n /\ rd_held_ms d <= 20 * Z.of_nat n;
  di_qualified : rd_hold_qualified d = true ->
    rd_startup_release_seen d = true /\ rd_stable_initialized d = true /\ rd_stable_high d = false /\ ARGUS_RECOVERY_HOLD_MS <= rd_held_ms d
}.

Lemma detector_step init h d b r d' :
  detector_inv init h d -> rd_triggered d = false ->
  argus_recovery_detector_update d b ARGUS_RECOVERY_SAMPLE_MS = (r, d') ->
  match r with
  | ARGUS_RECOVERY_DETECT_NONE => detector_inv init (b :: h) d' /\ rd_triggered d' = false
  | ARGUS_RECOVERY_DETECT_QUALIFIED_RELEASE =>
      rd_triggered d' = true /\ released (b :: h) = true /\ exists n, pressed h n /\ (500 <= n)%nat
  end.
Proof.
  intros [Hraw Hms Hrange Hheld Hq] Ht. unfold argus_recovery_detector_update. rewrite Ht.
  change ((ARGUS_RECOVERY_SAMPLE_MS =? 0) || false) with false. cbv iota zeta.
  set (d1 := if negb (eqb b (rd_raw_high d)) then _ else _).
  assert (H1 : rd_raw_high d1 = b /\ rd_raw_stable_ms d1 = Z.min UINT32_MAX (20 * Z.of_nat (run_length b (b :: h))) /\
    rd_stable_high d1 = rd_stable_high d /\ rd_stable_initialized d1 = rd_stable_initialized d /\
    rd_startup_release_seen d1 = rd_startup_release_seen d /\ rd_hold_qualified d1 = rd_hold_qualified d /\
    rd_triggered d1 = false /\ rd_held_ms d1 = rd_held_ms d).
  { unfold d1. cbn [run_length]. rewrite eqb_reflx. destruct (eqb b (rd_raw_high d)) eqn:E; cbn [negb].
    - apply eqb_prop in E. split; [cbn; by rewrite <- E|]. split; [|split_and!; (reflexivity || exact Ht)].
      change (add_bounded (rd_raw_stable_ms d) ARGUS_RECOVERY_SAMPLE_MS = Z.min UINT32_MAX (20 * Z.of_nat (S (run_length b h)))).
      rewrite Hms, <- E. rewrite add_bounded_min by (unfold is_u32, UINT32_MAX, ARGUS_RECOVERY_SAMPLE_MS; lia).
      unfold UINT32_MAX, ARGUS_RECOVERY_SAMPLE_MS. lia.
    - split; [done|]. split; [|split_and!; (reflexivity || exact Ht)]. cbn.
      assert (run_length b h = 0%nat) as ->; [|done]. destruct h as [|c h]; [done|]. cbn. rewrite (Hraw ltac:(done)) in E. cbn in E. by rewrite E. }
  clearbody d1. destruct H1 as (Hb & Hms1 & Hs1 & Hi1 & Hr1 & Hq1 & Ht1 & Hh1).
  assert (Hmore : rd_startup_release_seen d = true -> exists n, pressed (b :: h) n /\
     (released (b :: h) = false -> rd_held_ms d <= 20 * Z.of_nat n /\ (b = false -> rd_held_ms d + 20 <= 20 * Z.of_nat n))).
  { intros Hs. destruct (Hheld Hs) as (n & Hp & Hn). destruct (released (b :: h)) eqn:Er.
    - exists 0%nat. split; [by constructor|done].
    - exists (if b then n else S n). split; [by constructor|]. intros _. destruct b; split; try done; lia. }
  destruct (Z.ltb_spec (rd_raw_stable_ms d1) ARGUS_RECOVERY_DEBOUNCE_MS) as [Hlt|Hge].
  { intros [= <- <-]. split; [|done]. assert (Hnr : released (b :: h) = false).
    { destruct (released (b :: h)) eqn:E; [|done]. apply bool_decide_eq_true in E. exfalso. rewrite Hms1 in Hlt. revert Hlt.
      do 4 (destruct h as [|[] h]; try done). destruct b; [|done]. cbn [run_length eqb]. unfold UINT32_MAX, ARGUS_RECOVERY_DEBOUNCE_MS. cbn [eqb]. lia. }
    split; [by rewrite Hb|by rewrite Hms1, Hb|by rewrite Hh1| |].
    - rewrite Hr1. intros Hs. destruct (Hmore Hs) as (n & Hp & Hn). exists n. split; [done|]. rewrite Hh1. by apply Hn.
    - rewrite Hq1, Hr1, Hi1, Hs1, Hh1. exact Hq. }
  assert (Hrun : (5 <= run_length b (b :: h))%nat).
  { rewrite Hms1 in Hge. unfold UINT32_MAX, ARGUS_RECOVERY_DEBOUNCE_MS in Hge. lia. }
  clear Hraw Hms Hlt || clear Hraw Hms. destruct d1 as [raw1 st1 ini1 seen1 qual1 trig1 ms1 held1].
  cbn [rd_raw_high rd_raw_stable_ms rd_stable_high rd_stable_initialized rd_startup_release_seen rd_hold_qualified rd_triggered rd_held_ms] in *.
  subst raw1 st1 ini1 seen1 qual1 trig1 held1. unfold debounced. cbn -[add_bounded ARGUS_RECOVERY_HOLD_MS Z.mul Z.min UINT32_MAX released].
  destruct b.
  - (* a debounced release *)
    assert (Hrel : released (true :: h) = true) by (by apply run_released).
    destruct (_ && rd_hold_qualified d) eqn:Hc.
    + intros [= <- <-]. split; [done|]. split; [done|]. apply andb_true_iff in Hc as [_ Hc].
      destruct (Hq Hc) as (Hs & _ & _ & Hh). destruct (Hheld Hs) as (n & Hp & Hn). exists n. split; [done|].
      unfold ARGUS_RECOVERY_HOLD_MS in Hh. lia.
    + intros [= <- <-]. split; [|done]. split; cbn -[Z.mul Z.min UINT32_MAX]; try done.
      intros _. exists 0%nat. split; [by constructor|lia].
  - (* a debounced press *)
    assert (Hnr : released (false :: h) = false) by (by apply bool_decide_eq_false).
    destruct (rd_startup_release_seen d) eqn:Hs; cbn [negb].
    2: { intros [= <- <-]. split; [|done]. split; cbn -[Z.mul Z.min UINT32_MAX]; done. }
    destruct (Hmore eq_refl) as (n & Hp & Hn). destruct (Hn Hnr) as [_ Hn']. specialize (Hn' eq_refl). clear Hmore Hheld Hn.
    set (changed := _ || _). set (held := if changed then 0 else rd_held_ms d).
    assert (Hheld : 0 <= held <= UINT32_MAX /\ held + 20 <= 20 * Z.of_nat n) by (unfold held; destruct changed; unfold UINT32_MAX in *; lia).
    assert (Hqh : rd_hold_qualified d = true -> ARGUS_RECOVERY_HOLD_MS <= held).
    { intros Hqq. destruct (Hq Hqq) as (_ & Hi & Hst & Hh). unfold held, changed. by rewrite Hi, Hst. }
    remember (add_bounded held ARGUS_RECOVERY_SAMPLE_MS) as held' eqn:Eh.
    assert (Hh' : held' = Z.min UINT32_MAX (held + 20)).
    { rewrite Eh. apply add_bounded_min; unfold is_u32, UINT32_MAX, ARGUS_RECOVERY_SAMPLE_MS in *; lia. }
    assert (Hrange' : 0 <= held' <= UINT32_MAX /\ held' <= 20 * Z.of_nat n /\ (ARGUS_RECOVERY_HOLD_MS <= held -> ARGUS_RECOVERY_HOLD_MS <= held')).
    { rewrite Hh'. unfold UINT32_MAX, ARGUS_RECOVERY_HOLD_MS in *. lia. }
    destruct Hrange' as (Hr1 & Hr2 & Hr3).
    assert (Hfinal : forall dd q, dd = RecoveryDetector false false true true q false ms1 held' ->
      (q = true -> ARGUS_RECOVERY_HOLD_MS <= held') -> detector_inv init (false :: h) dd /\ rd_triggered dd = false).
    { intros dd q -> Hqq. split; [|done]. split; cbn -[Z.mul Z.min UINT32_MAX]; try done; [intros _; by exists n|]. intros Hx. split_and!; auto. }
    intros H. assert (E : (r, d') = (ARGUS_RECOVERY_DETECT_NONE, RecoveryDetector false false true true
      (if ARGUS_RECOVERY_HOLD_MS <=? held' then true else rd_hold_qualified d) false ms1 held')).
    { rewrite <- H, Eh. unfold held. destruct changed; cbn -[add_bounded ARGUS_RECOVERY_HOLD_MS ARGUS_RECOVERY_SAMPLE_MS]; match goal with |- context [ARGUS_RECOVERY_HOLD_MS <=? ?x] => destruct (ARGUS_RECOVERY_HOLD_MS <=? x) end; reflexivity. }
    injection E as -> ->. eapply Hfinal; [done|]. destruct (Z.leb_spec ARGUS_RECOVERY_HOLD_MS held'); [done|]. intros Hqq. auto.
Qed.

Lemma triggered_stays d b e : rd_triggered d = true -> argus_recovery_detector_update d b e = (ARGUS_RECOVERY_DETECT_NONE, d).
Proof. intros H. unfold argus_recovery_detector_update. by rewrite H, orb_true_r. Qed.

Lemma detect_inv init h : rd_triggered (detect init h) = false -> detector_inv init h (detect init h).
Proof.
  induction h as [|b h IH]; intros Ht.
  - by split.
  - cbn [detect] in *. destruct (rd_triggered (detect init h)) eqn:E; [rewrite (triggered_stays _ b _ E) in Ht; cbn [snd] in Ht; congruence|].
    destruct (argus_recovery_detector_update (detect init h) b ARGUS_RECOVERY_SAMPLE_MS) as [r d'] eqn:Hu.
    pose proof (detector_step _ _ _ _ _ _ (IH eq_refl) E Hu) as H. cbn [snd] in *. destruct r; [by apply H|].
    destruct H as (H & _). congruence.
Qed.

(** The recovery is not entered by accident: the detector recognises a press only at
    the sample that completes a debounced release, when since the debounced release before
    it at least 500 samples, ten seconds, were pressed; a button that is held when the
    controller starts counts for nothing until it was released once; and after one
    recognised press nothing is recognised any more. *)
Theorem recovery_needs_long_press initial_high h b :
  (argus_recovery_detector_update (detect initial_high h) b ARGUS_RECOVERY_SAMPLE_MS).1
    = ARGUS_RECOVERY_DETECT_QUALIFIED_RELEASE ->
  released (b :: h) = true /\ (exists n, pressed h n /\ (500 <= n)%nat) /\
  forall h' b', (argus_recovery_detector_update (detect initial_high (h' ++ b :: h)) b' ARGUS_RECOVERY_SAMPLE_MS).1
    = ARGUS_RECOVERY_DETECT_NONE.
Proof.
  intros Hr. destruct (rd_triggered (detect initial_high h)) eqn:Ht; [by rewrite triggered_stays in Hr|].
  destruct (argus_recovery_detector_update (detect initial_high h) b ARGUS_RECOVERY_SAMPLE_MS) as [r d'] eqn:Hu.
  cbn [fst] in Hr. subst r. pose proof (detector_step _ _ _ _ _ _ (detect_inv _ _ Ht) Ht Hu) as (Htr & Hrel & Hp).
  split; [done|]. split; [done|]. intros h' b'.
  enough (H : rd_triggered (detect initial_high (h' ++ b :: h)) = true) by (by rewrite triggered_stays).
  induction h' as [|c h' IH]; cbn [app detect]; [by rewrite Hu|]. by rewrite triggered_stays.
Qed.

(** ** A clean press is recognised *)

Lemma update_same d b : rd_triggered d = false -> rd_raw_high d = b -> rd_stable_high d = b -> rd_stable_initialized d = true ->
  rd_startup_release_seen d = true -> ARGUS_RECOVERY_DEBOUNCE_MS <= rd_raw_stable_ms d -> is_u32 (rd_raw_stable_ms d) ->
  is_u32 (rd_held_ms d) -> rd_hold_qualified d = (negb b && (ARGUS_RECOVERY_HOLD_MS <=? rd_held_ms d)) -> (b = true -> rd_held_ms d = 0) ->
  exists ms, ARGUS_RECOVERY_DEBOUNCE_MS <= ms /\ is_u32 ms /\
    let held := if b then 0 else Z.min UINT32_MAX (rd_held_ms d + 20) in
    argus_recovery_detector_update d b ARGUS_RECOVERY_SAMPLE_MS
    = (ARGUS_RECOVERY_DETECT_NONE, RecoveryDetector b b true true (negb b && (ARGUS_RECOVERY_HOLD_MS <=? held)) false ms held).
Proof.
  destruct d as [raw st ini seen qual trig ms held]. cbn [rd_triggered rd_raw_high rd_stable_high rd_stable_initialized rd_startup_release_seen rd_raw_stable_ms rd_held_ms rd_hold_qualified].
  intros -> -> -> -> -> Hms Hums Huh -> Hb. exists (add_bounded ms ARGUS_RECOVERY_SAMPLE_MS).
  assert (Hmin : add_bounded ms ARGUS_RECOVERY_SAMPLE_MS = Z.min UINT32_MAX (ms + 20)) by (by apply add_bounded_min).
  assert (Hminh : add_bounded held ARGUS_RECOVERY_SAMPLE_MS = Z.min UINT32_MAX (held + 20)) by (by apply add_bounded_min).
  unfold is_u32, ARGUS_RECOVERY_DEBOUNCE_MS, UINT32_MAX in *. split; [lia|]. split; [lia|].
  unfold argus_recovery_detector_update. cbn -[add_bounded ARGUS_RECOVERY_HOLD_MS ARGUS_RECOVERY_DEBOUNCE_MS ARGUS_RECOVERY_SAMPLE_MS Z.min].
  change (ARGUS_RECOVERY_SAMPLE_MS =? 0) with false. cbn [orb]. rewrite eqb_reflx. cbn [negb].
  cbn -[add_bounded ARGUS_RECOVERY_HOLD_MS ARGUS_RECOVERY_DEBOUNCE_MS ARGUS_RECOVERY_SAMPLE_MS Z.min]. rewrite (proj2 (Z.ltb_ge _ _)) by (unfold ARGUS_RECOVERY_DEBOUNCE_MS; lia).
  rewrite eqb_reflx. unfold debounced. destruct b; cbn -[add_bounded ARGUS_RECOVERY_HOLD_MS ARGUS_RECOVERY_DEBOUNCE_MS ARGUS_RECOVERY_SAMPLE_MS Z.min]; [done|].
  rewrite Hminh. destruct (Z.leb_spec ARGUS_RECOVERY_HOLD_MS held).
  - rewrite (proj2 (Z.leb_le _ _)); [done|]. unfold ARGUS_RECOVERY_HOLD_MS in *. lia.
  - by destruct (ARGUS_RECOVERY_HOLD_MS <=? _).
Qed.

Lemma detect_released init m : (5 <= m)%nat -> exists ms, ARGUS_RECOVERY_DEBOUNCE_MS <= ms /\ is_u32 ms /\
  detect init (replicate m true) = RecoveryDetector true true true true false false ms 0.
Proof.
  induction 1 as [|m Hm IH].
  - exists 100. split; [done|]. split; [done|]. by destruct init.
  - destruct IH as (ms & H1 & H2 & H3). cbn [replicate detect]. rewrite H3.
    destruct (update_same (RecoveryDetector true true true true false false ms 0) true) as (ms' & H4 & H5 & H6); try done.
    rewrite H6. exists ms'. done.
Qed.

Lemma detect_pressed init m k : (5 <= m)%nat -> (5 <= k)%nat -> exists ms, ARGUS_RECOVERY_DEBOUNCE_MS <= ms /\ is_u32 ms /\
  let held := Z.min UINT32_MAX (20 * (Z.of_nat k - 4)) in
  detect init (replicate k false ++ replicate m true)
  = RecoveryDetector false false true true (ARGUS_RECOVERY_HOLD_MS <=? held) false ms held.
Proof.
  intros Hm. destruct (detect_released init m Hm) as (ms0 & H1 & H2 & H3). induction 1 as [|k Hk IH].
  - exists 100. split; [done|]. split; [done|]. cbn [replicate app detect]. rewrite H3. reflexivity.
  - destruct IH as (ms & H4 & H5 & H6). cbn [replicate app detect]. cbv zeta in H6. rewrite H6.
    destruct (update_same (RecoveryDetector false false true true (ARGUS_RECOVERY_HOLD_MS <=? Z.min UINT32_MAX (20 * (Z.of_nat k - 4))) false ms
      (Z.min UINT32_MAX (20 * (Z.of_nat k - 4)))) false) as (ms' & H7 & H8 & H9); try done.
    { unfold is_u32, UINT32_MAX. cbn [rd_held_ms]. lia. }
    cbv zeta in H9. rewrite H9. exists ms'. split; [done|]. split; [done|]. cbv zeta. cbn [rd_held_ms negb andb snd].
    replace (Z.min UINT32_MAX (Z.min UINT32_MAX (20 * (Z.of_nat k - 4)) + 20)) with (Z.min UINT32_MAX (20 * (Z.of_nat (S k) - 4))); [done|].
    unfold UINT32_MAX. lia.
Qed.

(** A clean press is recognised: once the button was released for 100 ms, pressed for
    504 samples (ten seconds and the debouncing) or more, and released again, the fifth
    sample of that release reports it, whatever the pin was at start and however long the
    press took. *)
Theorem clean_press_recognised initial_high m k : (5 <= m)%nat -> (504 <= k)%nat ->
  (argus_recovery_detector_update (detect initial_high (replicate 4 true ++ replicate k false ++ replicate m true)) true
     ARGUS_RECOVERY_SAMPLE_MS).1 = ARGUS_RECOVERY_DETECT_QUALIFIED_RELEASE.
Proof.
  intros Hm Hk. destruct (detect_pressed initial_high m k Hm ltac:(lia)) as (ms & H1 & H2 & H3). cbv zeta in H3.
  cbn [replicate app detect]. rewrite H3. set (held := Z.min _ _). assert (Hh : (ARGUS_RECOVERY_HOLD_MS <=? held) = true).
  { apply Z.leb_le. unfold held, ARGUS_RECOVERY_HOLD_MS, UINT32_MAX. lia. }
  rewrite Hh. clearbody held. clear. reflexivity.
Qed.

Lemma clean_press_recognised_witness :
  (argus_recovery_detector_update (detect false (replicate 4 true ++ replicate 600 false ++ replicate 7 true)) true 20).1
    = ARGUS_RECOVERY_DETECT_QUALIFIED_RELEASE.
Proof. exact (clean_press_recognised false 7 600 ltac:(lia) ltac:(lia)). Defined.

Lemma long_press : (argus_recovery_detector_update (detect true (replicate 4 true ++ replicate 510 false ++ replicate 5 true)) true
  ARGUS_RECOVERY_SAMPLE_MS).1 = ARGUS_RECOVERY_DETECT_QUALIFIED_RELEASE.
Proof. vm_compute. reflexivity. Qed.

Lemma recovery_needs_long_press_witness :
  exists n, pressed (replicate 4 true ++ replicate 510 false ++ replicate 5 true) n /\ (500 <= n)%nat.
Proof. exact (proj1 (proj2 (recovery_needs_long_press true (replicate 4 true ++ replicate 510 false ++ replicate 5 true) true long_press))). Defined.
