(* ===== verification/PasswordVerifier.v ===== *)
(** * Password verifiers and the key-derivation worker

    [src/main/argus_password_verifier.c]: PBKDF2 with one block, the creation and the
    check of a verifier record, the benchmark, and the task that runs one derivation at a
    time for its callers.  HMAC-SHA-256 is mbedTLS's: a parameter.  A fault function says
    at which round one of its calls reports an error, round 0 being the setup and the
    first block.

    - [PBKDF2] is RFC 8018's function of one block; [pbkdf2_reference] shows that the loop
      computes it, and how often it yields;
    - [created_verifies] is the round trip of a record;
    - the worker's queue is a step relation.  A request lies on its caller's stack:
      [no_dangling_request] shows that whatever the queue or the worker still points to is
      alive, [answered_within_three] that a queued request is answered after at most three
      steps of the worker. *)

From S2P Require Import Prelude Storage SecurityRecords.

Definition ARGUS_KDF_COOPERATE_INTERVAL : Z := 256.
Definition ARGUS_KDF_ITERATIONS_WITHIN_BUDGET : Z := 80000.

Definition input_valid (password : option bytes) : bool :=
  match password with
  | None => false
  | Some password => (0 <? length password)%nat && (length password <=? ARGUS_PASSWORD_INPUT_MAX)%nat
  end.

(** [esp_random] and the clock, the heap and the stack the worker reads while it serves a
    request, and the rounds at which mbedTLS fails. *)
Record kdf_env := KdfEnv {
  env_faults : Z -> bool;
  env_random : bytes;
  env_started : Z;
  env_finished : Z;
  env_heap_before : Z;
  env_heap_after : Z;
  env_stack_high_water : Z
}.

Record argus_password_benchmark_t := PasswordBenchmark {
  be_iterations : Z;
  be_elapsed_ms : Z;
  be_free_heap_before : Z;
  be_free_heap_after : Z;
  be_worker_stack_high_water_bytes : Z
}.

Section Kdf.
(** HMAC-SHA-256 of a key and a message. *)
Context (hmac : bytes -> bytes -> bytes).

Definition block_index : bytes := [0; 0; 0; 1].

Definition xor_bytes (a b : bytes) : bytes := zip_with Z.lxor a b.

(** The loop from [round] on, [n] rounds to go: the accumulator unless mbedTLS failed, and
    the number of calls of [cooperate] so far. *)
Fixpoint pbkdf2_rounds (faults : Z -> bool) (password : bytes) (n : nat) (round : Z) (digest accumulator : bytes)
    (yields : Z) : option bytes * Z :=
  match n with
  | O => (Some accumulator, yields)
  | S n =>
      if faults round then (None, yields)
      else
        let digest := hmac password digest in
        let accumulator := xor_bytes accumulator digest in
        let yields := if round mod ARGUS_KDF_COOPERATE_INTERVAL =? 0 then yields + 1 else yields in
        pbkdf2_rounds faults password n (round + 1) digest accumulator yields
  end.

(** The result, what is written to [out], and how often [cooperate] was called. *)
Definition argus_password_pbkdf2_cooperative_for_test (faults : Z -> bool) (password salt : option bytes)
    (iterations : Z) : esp_err_t * option bytes * Z :=
  let password := default [] password in
  let salt := default [] salt in
  if (length password =? 0)%nat || (length salt =? 0)%nat || (iterations =? 0) then (ESP_ERR_INVALID_ARG, None, 0)
  else if faults 0 then (ESP_FAIL, None, 0)
  else
    let digest := hmac password (salt ++ block_index) in
    let '(out, yields) := pbkdf2_rounds faults password (Z.to_nat (iterations - 1)) 1 digest digest 0 in
    (match out with Some _ => ESP_OK | None => ESP_FAIL end, out, yields).

Definition argus_password_pbkdf2_for_test (faults : Z -> bool) (password salt : option bytes) (iterations : Z)
    : esp_err_t * option bytes :=
  (argus_password_pbkdf2_cooperative_for_test faults password salt iterations).1.

(** [None] leaves the caller's record as it was. *)
Definition derive_record (env : kdf_env) (password : option bytes) (iterations : Z)
    : esp_err_t * option argus_password_verifier_t :=
  if negb (input_valid password) || (iterations <? ARGUS_PASSWORD_ITERATIONS_MIN)
     || (ARGUS_PASSWORD_ITERATIONS_MAX <? iterations) then (ESP_ERR_INVALID_ARG, None)
  else
    let salt := chars 16 (env_random env) in
    let '(result, out) := argus_password_pbkdf2_for_test (env_faults env) password (Some salt) iterations in
    (result,
     Some (if negb (is_ok result) then zero_verifier
           else PasswordVerifier ARGUS_PASSWORD_FORMAT_VERSION ARGUS_PASSWORD_ALGORITHM_PBKDF2_HMAC_SHA256
                  ARGUS_PASSWORD_SALT_SIZE ARGUS_PASSWORD_VERIFIER_SIZE iterations salt (default [] out))).

(** [None] leaves [out_match] as it was. *)
Definition verify_record (env : kdf_env) (password : option bytes) (record : argus_password_verifier_t)
    : esp_err_t * option bool :=
  if negb (input_valid password) || negb (argus_password_verifier_record_valid record)
  then (ESP_ERR_INVALID_ARG, None)
  else
    let salt := take (Z.to_nat (pw_salt_length record)) (chars 16 (pw_salt record)) in
    let '(result, candidate) :=
      argus_password_pbkdf2_for_test (env_faults env) password (Some salt) (pw_iterations record) in
    (result, Some (if is_ok result
                   then bool_decide (chars 32 (default [] candidate) = chars 32 (pw_verifier record)) else false)).

(** The warning of [verify_record]. *)
Definition over_budget (record : argus_password_verifier_t) : bool :=
  ARGUS_KDF_ITERATIONS_WITHIN_BUDGET <? pw_iterations record.

Definition synthetic_password : bytes := str "phase4d2-synthetic-benchmark-only".
Definition synthetic_salt : bytes :=
  [112; 52; 100; 50; 45; 98; 101; 110; 99; 104; 45; 115; 97; 108; 116; 33].

Definition run_benchmark (env : kdf_env) (iterations : Z) : esp_err_t * option argus_password_benchmark_t :=
  if (iterations <? ARGUS_PASSWORD_ITERATIONS_MIN) || (ARGUS_PASSWORD_ITERATIONS_MAX <? iterations)
  then (ESP_ERR_INVALID_ARG, None)
  else
    let '(err, _) := argus_password_pbkdf2_for_test (env_faults env) (Some synthetic_password) (Some synthetic_salt)
                       iterations in
    let elapsed := env_finished env - env_started env in
    (err, Some (PasswordBenchmark iterations (if 0 <? elapsed then u32 (elapsed / 1000) else 0)
                  (env_heap_before env) (env_heap_after env) (env_stack_high_water env))).

(** ** Requests *)

Inductive argus_kdf_request_t :=
| ARGUS_KDF_CREATE (password : option bytes) (iterations : Z)
| ARGUS_KDF_VERIFY (password : option bytes) (record : argus_password_verifier_t)
| ARGUS_KDF_BENCHMARK (iterations : Z).

(** [result] and what the worker wrote through the request's pointers. *)
Inductive kdf_answer :=
| Created (result : esp_err_t) (record : option argus_password_verifier_t)
| Verified (result : esp_err_t) (matched : option bool)
| Benchmarked (result : esp_err_t) (benchmark : option argus_password_benchmark_t).

(** The body of [kdf_worker]'s loop. *)
Definition kdf_serve (env : kdf_env) (request : argus_kdf_request_t) : kdf_answer :=
  match request with
  | ARGUS_KDF_CREATE password iterations => uncurry Created (derive_record env password iterations)
  | ARGUS_KDF_VERIFY password record => uncurry Verified (verify_record env password record)
  | ARGUS_KDF_BENCHMARK iterations => uncurry Benchmarked (run_benchmark env iterations)
  end.

(** [submit] before it touches the queue; [None] goes on. *)
Definition submit_refused (initialized is_worker : bool) : option esp_err_t :=
  if negb initialized || is_worker then Some ESP_ERR_INVALID_STATE else None.

(** ** The queue

    A caller of [submit], known by the address of its request: waiting for room in the
    queue, waiting for the answer, or answered and about to return. *)
Inductive caller_phase :=
| Sending
| Queued
| Answered (a : kdf_answer).

Record caller := Caller { cl_request : argus_kdf_request_t; cl_phase : caller_phase }.

Record kdf_system := KdfSystem {
  ks_queue : option nat;          (* [s_queue], of length 1 *)
  ks_worker : option nat;         (* the request the worker dequeued *)
  ks_callers : gmap nat caller    (* the requests alive on some stack *)
}.

#[local] Instance eta_caller : Eta caller := fun c => Caller (cl_request c) (cl_phase c).
#[local] Instance eta_system : Eta kdf_system := fun s => KdfSystem (ks_queue s) (ks_worker s) (ks_callers s).

Definition kdf_initial : kdf_system := KdfSystem None None ∅.

(** A step of a caller ([false]) or of the worker ([true]). *)
Inductive kdf_step : kdf_system -> bool -> kdf_system -> Prop :=
| kdf_send s p r :                         (* the first [xQueueSend] *)
    ks_callers s !! p = None -> ks_queue s = None ->
    kdf_step s false (KdfSystem (Some p) (ks_worker s) (<[p := Caller r Queued]> (ks_callers s)))
| kdf_busy s p r q :                       (* it fails *)
    ks_callers s !! p = None -> ks_queue s = Some q ->
    kdf_step s false (s <| ks_callers := <[p := Caller r Sending]> (ks_callers s) |>)
| kdf_sent s p r :                         (* the second [xQueueSend] *)
    ks_callers s !! p = Some (Caller r Sending) -> ks_queue s = None ->
    kdf_step s false (KdfSystem (Some p) (ks_worker s) (<[p := Caller r Queued]> (ks_callers s)))
| kdf_timeout s p r :                      (* [ESP_ERR_TIMEOUT] *)
    ks_callers s !! p = Some (Caller r Sending) ->
    kdf_step s false (s <| ks_callers := delete p (ks_callers s) |>)
| kdf_return s p r a :                     (* the semaphore was given *)
    ks_callers s !! p = Some (Caller r (Answered a)) ->
    kdf_step s false (s <| ks_callers := delete p (ks_callers s) |>)
| kdf_receive s p :                        (* [xQueueReceive] *)
    ks_queue s = Some p -> ks_worker s = None ->
    kdf_step s true (KdfSystem None (Some p) (ks_callers s))
| kdf_finish s p env :                     (* the request is served *)
    ks_worker s = Some p ->
    kdf_step s true
      (KdfSystem (ks_queue s) None
         (alter (fun c => c <| cl_phase := Answered (kdf_serve env (cl_request c)) |>) p (ks_callers s))).

Definition kdf_reachable (s : kdf_system) : Prop := rtc (fun s s' => exists w, kdf_step s w s') kdf_initial s.

(** The queue or the worker holds a pointer to the request [p]. *)
Definition points_to (s : kdf_system) (p : nat) : Prop := ks_queue s = Some p \/ ks_worker s = Some p.

Definition queued (s : kdf_system) (p : nat) : Prop := exists r, ks_callers s !! p = Some (Caller r Queued).

(** ** PBKDF2 of RFC 8018 with one block *)

(** [U_(j+1)]. *)
Fixpoint U (password salt : bytes) (j : nat) : bytes :=
  match j with
  | O => hmac password (salt ++ block_index)
  | S j => hmac password (U password salt j)
  end.

Definition PBKDF2 (password salt : bytes) (iterations : nat) : bytes :=
  foldl xor_bytes (U password salt 0) (U password salt <$> seq 1 (iterations - 1)).

Lemma rounds_reference faults password salt n j accumulator yields :
  (forall round, Z.of_nat j < round <= Z.of_nat (j + n) -> faults round = false) ->
  pbkdf2_rounds faults password n (Z.of_nat j + 1) (U password salt j) accumulator yields =
    (Some (foldl xor_bytes accumulator (U password salt <$> seq (S j) n)),
     yields + (Z.of_nat (j + n) / 256 - Z.of_nat j / 256)).
Proof.
  revert j accumulator yields. induction n as [|n IH]; intros j accumulator yields Hf; cbn [pbkdf2_rounds].
  - cbn. f_equal. replace (j + 0)%nat with j by lia. lia.
  - rewrite Hf by lia. change (hmac password (U password salt j)) with (U password salt (S j)).
    replace (Z.of_nat j + 1 + 1) with (Z.of_nat (S j) + 1) by lia.
    rewrite IH by (intros; apply Hf; lia). cbn [seq fmap list_fmap foldl]. f_equal.
    replace (j + S n)%nat with (S j + n)%nat by lia. unfold ARGUS_KDF_COOPERATE_INTERVAL.
    replace (Z.of_nat (S j)) with (Z.of_nat j + 1) by lia.
    destruct (Z.eqb_spec ((Z.of_nat j + 1) mod 256) 0) as [E|E]; Z.to_euclidean_division_equations; lia.
Qed.

(** A fault at any round is the result, and nothing is written. *)
Lemma rounds_fault faults password n j digest accumulator yields :
  (exists round, j <= round < j + Z.of_nat n /\ faults round = true) ->
  (pbkdf2_rounds faults password n j digest accumulator yields).1 = None.
Proof.
  revert j digest accumulator yields. induction n as [|n IH]; intros j digest accumulator yields (round & Hr & Hf);
    [lia|]. cbn [pbkdf2_rounds].
  destruct (faults j) eqn:Hj; [done|]. apply IH. exists round. split; [|done].
  destruct (decide (round = j)) as [->|]; [congruence|lia].
Qed.

Lemma pbkdf2_no_fault faults (password salt : bytes) iterations :
  password <> [] -> salt <> [] -> 0 < iterations ->
  (forall round, 0 <= round < iterations -> faults round = false) ->
  argus_password_pbkdf2_cooperative_for_test faults (Some password) (Some salt) iterations =
    (ESP_OK, Some (PBKDF2 password salt (Z.to_nat iterations)), (iterations - 1) / 256).
Proof.
  intros Hp Hs Hi Hf. unfold argus_password_pbkdf2_cooperative_for_test. cbn [from_option id].
  destruct password as [|p0 password]; [done|]. destruct salt as [|s0 salt]; [done|].
  set (pw := p0 :: password). set (sa := s0 :: salt). change (length pw =? 0)%nat with false.
  change (length sa =? 0)%nat with false. assert ((iterations =? 0) = false) as -> by lia. cbn [orb].
  rewrite Hf by lia.
  assert (Hr := rounds_reference faults pw sa (Z.to_nat (iterations - 1)) 0 (U pw sa 0) 0).
  change (Z.of_nat 0 + 1) with 1 in Hr. cbn [U] in Hr. rewrite Hr by (intros; apply Hf; lia).
  unfold PBKDF2. replace (Z.to_nat iterations - 1)%nat with (Z.to_nat (iterations - 1)) by lia.
  f_equal. replace (0 + Z.to_nat (iterations - 1))%nat with (Z.to_nat (iterations - 1)) by lia.
  rewrite Z2Nat.id by lia. change (Z.of_nat 0 / 256) with 0. lia.
Qed.

(** C38: The key derivation is PBKDF2-HMAC-SHA-256 of RFC 8018 with one output block, for
    every password, salt and number of iterations that is not empty, and it yields the
    processor once every 256 rounds; if a call of mbedTLS fails at any of the rounds the
    result is an error and no output is written. *)
Theorem pbkdf2_reference faults (password salt : bytes) iterations :
  password <> [] -> salt <> [] -> 0 < iterations ->
  ((forall round, 0 <= round < iterations -> faults round = false) ->
   argus_password_pbkdf2_cooperative_for_test faults (Some password) (Some salt) iterations =
     (ESP_OK, Some (PBKDF2 password salt (Z.to_nat iterations)), (iterations - 1) / 256)) /\
  ((exists round, 0 <= round < iterations /\ faults round = true) ->
   (argus_password_pbkdf2_cooperative_for_test faults (Some password) (Some salt) iterations).1 = (ESP_FAIL, None)).
Proof.
  intros Hp Hs Hi. split; [by apply pbkdf2_no_fault|]. intros (round & Hr & Hf).
  unfold argus_password_pbkdf2_cooperative_for_test. cbn [from_option id].
  destruct password as [|p0 password]; [done|]. destruct salt as [|s0 salt]; [done|].
  assert ((iterations =? 0) = false) as -> by lia. cbn [length Nat.eqb orb]. destruct (faults 0) eqn:H0; [done|].
  pose proof (rounds_fault faults (p0 :: password) (Z.to_nat (iterations - 1)) 1
    (hmac (p0 :: password) ((s0 :: salt) ++ block_index)) (hmac (p0 :: password) ((s0 :: salt) ++ block_index)) 0) as Hn.
  destruct (pbkdf2_rounds _ _ _ _ _ _ _) as [out yields]. cbn [fst] in *. rewrite Hn; [done|].
  exists round. split; [|done]. destruct (decide (round = 0)) as [->|]; [congruence|lia].
Qed.

Lemma chars_chars n (s : bytes) : chars n (chars n s) = chars n s.
Proof. unfold chars. rewrite take_app_le by (rewrite length_take, length_app, length_replicate; lia). by rewrite take_take, Nat.min_id. Qed.

Lemma pbkdf2_none faults password salt iterations err out :
  argus_password_pbkdf2_for_test faults password salt iterations = (err, out) ->
  match out with Some _ => err = ESP_OK | None => err <> ESP_OK end.
Proof.
  unfold argus_password_pbkdf2_for_test, argus_password_pbkdf2_cooperative_for_test.
  destruct (_ || _); cbn [fst]; [by intros [= <- <-]|]. destruct (faults 0); cbn [fst]; [by intros [= <- <-]|].
  destruct (pbkdf2_rounds _ _ _ _ _ _ _) as [[o|] y]; cbn [fst]; by intros [= <- <-].
Qed.

Lemma pbkdf2_faultless faults (password salt : bytes) iterations out :
  argus_password_pbkdf2_for_test faults (Some password) (Some salt) iterations = (ESP_OK, Some out) ->
  forall faults', (forall round, faults' round = false) ->
  argus_password_pbkdf2_for_test faults' (Some password) (Some salt) iterations = (ESP_OK, Some out).
Proof.
  unfold argus_password_pbkdf2_for_test, argus_password_pbkdf2_cooperative_for_test. intros H faults' Hf.
  destruct (_ || _); [done|]. rewrite Hf. destruct (faults 0); [done|].
  assert (Hr : forall n r d a y o, (pbkdf2_rounds faults (default [] (Some password)) n r d a y).1 = Some o ->
            pbkdf2_rounds faults' (default [] (Some password)) n r d a y = pbkdf2_rounds faults (default [] (Some password)) n r d a y).
  { induction n as [|n IH]; intros r d a y o; cbn [pbkdf2_rounds]; [done|]. rewrite Hf.
    destruct (faults r); [done|]. apply IH. }
  destruct (pbkdf2_rounds faults _ _ _ _ _ _) as [[o|] y] eqn:E; [|done].
  pose proof (f_equal fst E) as E1. apply Hr in E1. rewrite E1, E. done.
Qed.

(** What a verification without faults answers. *)
Definition verifies (password : bytes) (record : argus_password_verifier_t) : bool :=
  bool_decide (verify_record (KdfEnv (fun _ => false) [] 0 0 0 0 0) (Some password) record = (ESP_OK, Some true)).

Lemma chars_nonempty n (s : bytes) : (0 < n)%nat -> chars n s <> [].
Proof. intros Hn H. apply (f_equal length) in H. rewrite chars_length in H. cbn in H. lia. Qed.

Lemma verifies_spec (password : bytes) record :
  input_valid (Some password) = true -> argus_password_verifier_record_valid record = true ->
  verifies password record =
  bool_decide (chars 32 (PBKDF2 password (chars 16 (pw_salt record)) (Z.to_nat (pw_iterations record)))
               = chars 32 (pw_verifier record)).
Proof.
  intros Hi Hv. unfold verifies, verify_record. rewrite Hi, Hv. cbn [negb orb env_faults].
  assert (Hp : password <> []) by (intros ->; done).
  unfold argus_password_verifier_record_valid, ARGUS_PASSWORD_ITERATIONS_MIN in Hv. b2p.
  match goal with E : pw_salt_length record = _ |- _ => rewrite E end.
  change (Z.to_nat ARGUS_PASSWORD_SALT_SIZE) with 16%nat. rewrite take_ge by (rewrite chars_length; lia).
  unfold argus_password_pbkdf2_for_test. rewrite pbkdf2_no_fault by (try apply chars_nonempty; done || lia).
  cbn [fst is_ok from_option id]. apply bool_decide_ext. split; [intros [= E]; exact (bool_decide_eq_true_1 _ E)|].
  intros E. by rewrite bool_decide_eq_true_2.
Qed.

Lemma derive_success env (password : bytes) iterations record :
  derive_record env (Some password) iterations = (ESP_OK, Some record) ->
  input_valid (Some password) = true /\
  ARGUS_PASSWORD_ITERATIONS_MIN <= iterations <= ARGUS_PASSWORD_ITERATIONS_MAX /\
  record = PasswordVerifier ARGUS_PASSWORD_FORMAT_VERSION ARGUS_PASSWORD_ALGORITHM_PBKDF2_HMAC_SHA256
    ARGUS_PASSWORD_SALT_SIZE ARGUS_PASSWORD_VERIFIER_SIZE iterations (chars 16 (env_random env))
    (PBKDF2 password (chars 16 (env_random env)) (Z.to_nat iterations)).
Proof.
  unfold derive_record. destruct (_ || _) eqn:Hg; [done|].
  assert (Hb : input_valid (Some password) = true /\
    ARGUS_PASSWORD_ITERATIONS_MIN <= iterations <= ARGUS_PASSWORD_ITERATIONS_MAX) by (b2p; auto).
  destruct Hb as [Hi Hr]. clear Hg.
  destruct (argus_password_pbkdf2_for_test _ _ _ _) as [err out] eqn:E.
  destruct (is_ok err) eqn:He; [|intros [= -> _]; done]. apply is_ok_true in He. subst err.
  pose proof (pbkdf2_none _ _ _ _ _ _ E) as Hn. destruct out as [out|]; [|done]. intros [= <-].
  pose proof (pbkdf2_faultless _ _ _ _ _ E (fun _ => false) (fun _ => eq_refl)) as E'.
  assert (Hp : password <> []) by (intros ->; done).
  unfold argus_password_pbkdf2_for_test in E'. unfold ARGUS_PASSWORD_ITERATIONS_MIN in Hr.
  rewrite pbkdf2_no_fault in E' by (try apply chars_nonempty; done || lia). injection E' as <-. done.
Qed.

Lemma derive_verifies env (password : bytes) iterations record :
  derive_record env (Some password) iterations = (ESP_OK, Some record) ->
  argus_password_verifier_record_valid record = true /\ verifies password record = true.
Proof.
  intros H. apply derive_success in H as (Hi & Hr & ->). set (salt := chars 16 (env_random env)).
  assert (Hv : argus_password_verifier_record_valid
    (PasswordVerifier ARGUS_PASSWORD_FORMAT_VERSION ARGUS_PASSWORD_ALGORITHM_PBKDF2_HMAC_SHA256
       ARGUS_PASSWORD_SALT_SIZE ARGUS_PASSWORD_VERIFIER_SIZE iterations salt
       (PBKDF2 password salt (Z.to_nat iterations))) = true).
  { unfold argus_password_verifier_record_valid. cbn [pw_format_version pw_algorithm pw_salt_length
      pw_verifier_length pw_iterations]. rewrite !andb_true_iff, !Z.leb_le. by destruct Hr. }
  split; [exact Hv|]. rewrite verifies_spec by done. cbn [pw_salt pw_iterations pw_verifier].
  assert (chars 16 salt = salt) as -> by apply chars_chars. by apply bool_decide_eq_true.
Qed.

(** A created record is valid, carries the iterations asked for and the salt that was
    drawn, and its password verifies against it; another password verifies exactly when
    the key derivation takes both to the same 32 bytes. *)
Theorem created_verifies env (password : bytes) iterations record :
  derive_record env (Some password) iterations = (ESP_OK, Some record) ->
  argus_password_verifier_record_valid record = true /\ pw_iterations record = iterations /\
  pw_salt record = chars 16 (env_random env) /\ verifies password record = true /\
  forall other, input_valid (Some other) = true ->
    verifies other record = true <->
    chars 32 (PBKDF2 other (pw_salt record) (Z.to_nat iterations))
    = chars 32 (PBKDF2 password (pw_salt record) (Z.to_nat iterations)).
Proof.
  intros H. destruct (derive_verifies _ _ _ _ H) as [Hv Hok]. apply derive_success in H as (Hi & Hr & ->).
  split; [exact Hv|]. split; [done|]. split; [done|]. split; [exact Hok|].
  intros other Ho. rewrite verifies_spec by done. cbn [pw_salt pw_iterations pw_verifier]. rewrite chars_chars.
  apply bool_decide_eq_true.
Qed.

(** ** The worker *)

Record kdf_inv (s : kdf_system) : Prop := {
  ki_points : forall p, points_to s p <-> queued s p;
  ki_distinct : forall p, ks_queue s = Some p -> ks_worker s = Some p -> False;
  ki_answers : forall p r a, ks_callers s !! p = Some (Caller r (Answered a)) -> exists env, a = kdf_serve env r
}.

Lemma queued_insert s q w p c p' :
  queued (KdfSystem q w (<[p := c]> (ks_callers s))) p' <->
  (p' = p /\ cl_phase c = Queued) \/ (p' <> p /\ queued s p').
Proof.
  unfold queued; cbn [ks_callers]. destruct (decide (p' = p)) as [->|Hne].
  - rewrite lookup_insert_eq. split; [intros [r [= ->]]; by left|]. intros [[_ H]|[? _]]; [|done].
    destruct c as [r ph]. cbn in H. subst ph. by exists r.
  - rewrite lookup_insert_ne by done. naive_solver.
Qed.

Lemma queued_delete s q w p p' :
  queued (KdfSystem q w (delete p (ks_callers s))) p' <-> p' <> p /\ queued s p'.
Proof.
  unfold queued; cbn [ks_callers]. destruct (decide (p' = p)) as [->|Hne].
  - rewrite lookup_delete_eq. naive_solver.
  - rewrite lookup_delete_ne by done. naive_solver.
Qed.

Lemma queued_alter s q w p a p' :
  queued (KdfSystem q w (alter (fun c => c <| cl_phase := Answered (a c) |>) p (ks_callers s))) p'
  <-> p' <> p /\ queued s p'.
Proof.
  unfold queued; cbn [ks_callers]. destruct (decide (p' = p)) as [->|Hne].
  - rewrite lookup_alter_eq. destruct (ks_callers s !! p) as [c|]; naive_solver.
  - rewrite lookup_alter_ne by done. naive_solver.
Qed.

Lemma not_queued s p c : ks_callers s !! p = Some c -> cl_phase c <> Queued -> ~ queued s p.
Proof. intros H Hc [r Hr]. rewrite H in Hr. injection Hr as ->. done. Qed.

Lemma kdf_preserved s w s' : kdf_inv s -> kdf_step s w s' -> kdf_inv s'.
Proof.
  intros [Hp Hd Ha] Hs.
  destruct Hs as [s p r Hn Hq|s p r q Hn Hq|s p r Hn Hq|s p r Hn|s p r a Hn|s p Hq Hw|s p env Hw];
    (split; [intros p'; specialize (Hp p') as Hp'; unfold points_to in *
            |cbn [ks_queue ks_worker update]
            |intros p' r' a'; cbn [ks_callers update]]).
  - rewrite queued_insert; cbn [ks_queue ks_worker cl_phase]. rewrite Hq in Hp'. rewrite <- Hp'.
    assert (~ queued s p) as Hnq by (intros [r' Hr']; congruence). rewrite <- (Hp p), Hq in Hnq. naive_solver.
  - assert (~ queued s p) as Hnq by (intros [r' Hr']; congruence). rewrite <- (Hp p) in Hnq.
    intros p0 [= <-] Hw. apply Hnq. by right.
  - destruct (decide (p' = p)) as [->|]; [by rewrite lookup_insert_eq|]. rewrite lookup_insert_ne by done. apply Ha.
  - cbn [update]. rewrite queued_insert; cbn [ks_queue ks_worker cl_phase]. rewrite <- Hp'.
    assert (~ queued s p) as Hnq by (intros [r' Hr']; congruence). rewrite <- (Hp p) in Hnq. naive_solver.
  - exact Hd.
  - destruct (decide (p' = p)) as [->|]; [by rewrite lookup_insert_eq|]. rewrite lookup_insert_ne by done. apply Ha.
  - rewrite queued_insert; cbn [ks_queue ks_worker cl_phase]. rewrite Hq in Hp'. rewrite <- Hp'.
    pose proof (not_queued s p _ Hn ltac:(done)) as Hnq. rewrite <- (Hp p), Hq in Hnq. naive_solver.
  - pose proof (not_queued s p _ Hn ltac:(done)) as Hnq. rewrite <- (Hp p) in Hnq.
    intros p0 [= <-] Hw. apply Hnq. by right.
  - destruct (decide (p' = p)) as [->|]; [by rewrite lookup_insert_eq|]. rewrite lookup_insert_ne by done. apply Ha.
  - cbn [update]. rewrite queued_delete; cbn [ks_queue ks_worker]. rewrite <- Hp'.
    pose proof (not_queued s p _ Hn ltac:(done)) as Hnq. rewrite <- (Hp p) in Hnq. naive_solver.
  - exact Hd.
  - rewrite lookup_delete_Some. naive_solver.
  - cbn [update]. rewrite queued_delete; cbn [ks_queue ks_worker]. rewrite <- Hp'.
    pose proof (not_queued s p _ Hn ltac:(done)) as Hnq. rewrite <- (Hp p) in Hnq. naive_solver.
  - exact Hd.
  - rewrite lookup_delete_Some. naive_solver.
  - change (queued _ p') with (queued s p'). rewrite <- Hp', Hq, Hw. cbn [ks_queue ks_worker].
    split; intros [E|E]; [done|by left|by right|done].
  - done.
  - apply Ha.
  - rewrite queued_alter; cbn [ks_queue ks_worker]. rewrite <- Hp', Hw. specialize (Hd p). split.
    + intros [E|E]; [|done]. split; [intros ->; auto|by left].
    + intros [Hne [E|E]]; [by left|congruence].
  - done.
  - destruct (decide (p' = p)) as [->|]; [rewrite lookup_alter_eq|rewrite lookup_alter_ne by done; apply Ha].
    destruct (ks_callers s !! p) as [c|] eqn:E; [|done]. intros [= <- <-]. by exists env.
Qed.

Lemma kdf_initial_inv : kdf_inv kdf_initial.
Proof.
  split; cbn; [|done|intros p r a H; by rewrite lookup_empty in H]. intros p. unfold points_to, queued; cbn.
  split; [by intros [?|?]|]. intros [r H]. by rewrite lookup_empty in H.
Qed.

Lemma kdf_reachable_inv s : kdf_reachable s -> kdf_inv s.
Proof.
  intros Hr. refine (rtc_ind_r (fun s => kdf_inv s) _ kdf_initial_inv _ _ Hr).
  intros s1 s2 _ [w Hw] IH. exact (kdf_preserved _ _ _ IH Hw).
Qed.

(** No request outlives its stack frame: in every reachable state of the queue, with
    any number of callers that submit, wait, time out and return, the queue and the worker
    point exactly to the requests whose callers are blocked on the answer, never to the
    same one, and an answered caller has the worker's answer to its own request. *)
Theorem no_dangling_request s : kdf_reachable s ->
  (forall p, points_to s p <-> queued s p) /\ (ks_queue s <> None -> ks_queue s <> ks_worker s) /\
  (forall p r a, ks_callers s !! p = Some (Caller r (Answered a)) -> exists env, a = kdf_serve env r).
Proof.
  intros Hr. apply kdf_reachable_inv in Hr as [Hp Hd Ha]. split; [done|]. split; [|done].
  destruct (ks_queue s) as [p|] eqn:E; [|done]. intros _ Hw. exact (Hd p eq_refl (eq_sym Hw)).
Qed.

(** [s'] comes from [s] by steps during which [p] stays queued, [k] of them the worker's. *)
Inductive waits (p : nat) : kdf_system -> nat -> kdf_system -> Prop :=
| waits_here s : queued s p -> waits p s 0 s
| waits_caller s s1 s' k : queued s p -> kdf_step s false s1 -> waits p s1 k s' -> waits p s k s'
| waits_worker s s1 s' k : queued s p -> kdf_step s true s1 -> waits p s1 k s' -> waits p s (S k) s'.

(** The steps of the worker left before [p] is answered. *)
Definition distance (s : kdf_system) (p : nat) : nat :=
  match ks_worker s with
  | Some q => if decide (q = p) then 1 else 3
  | None => 2
  end.

Lemma distance_caller s p s' : kdf_step s false s' -> distance s' p = distance s p.
Proof. remember false as w. destruct 1; cbn; done. Qed.

Lemma distance_worker s p s' : kdf_inv s -> kdf_step s true s' -> queued s p -> queued s' p ->
  distance s p = S (distance s' p).
Proof.
  intros Hi Hs Hq Hq'. apply Hi in Hq. remember true as w. destruct Hs; try done; unfold distance; cbn.
  - destruct Hq as [Hq|Hq]; [|congruence]. rewrite H0. destruct (decide (p0 = p)); [done|congruence].
  - rewrite H. apply queued_alter in Hq' as [Hne _]. by rewrite decide_False by congruence.
Qed.

(** A caller whose request is queued is answered after at most three steps of the
    worker, whatever the other callers do, and until then the worker can take a step: the
    serialized worker starves no one. *)
Theorem answered_within_three s p k s' :
  kdf_reachable s -> waits p s k s' -> (k <= 2)%nat /\ exists s'', kdf_step s' true s''.
Proof.
  intros Hr Hw. apply kdf_reachable_inv in Hr.
  assert (Hk : kdf_inv s' /\ queued s' p /\ (k + distance s' p <= distance s p)%nat).
  { induction Hw as [s Hq|s s1 s' k Hq Hs _ IH|s s1 s' k Hq Hs Hw IH]; [done|..];
      destruct (IH (kdf_preserved _ _ _ Hr Hs)) as (Hi & Hq' & Hd); (split; [done|]; split; [done|]).
    - by rewrite <- (distance_caller s p s1 Hs).
    - rewrite (distance_worker s p s1 Hr Hs Hq); [lia|]. by destruct Hw. }
  destruct Hk as (Hi & Hq & Hd). split.
  - assert (distance s' p <> 0)%nat by (unfold distance; destruct (ks_worker s'); [destruct (decide _)|]; lia).
    assert (distance s p <= 3)%nat by (unfold distance; destruct (ks_worker s); [destruct (decide _)|]; lia). lia.
  - destruct (ks_worker s') as [q|] eqn:Ew.
    + eexists. apply (kdf_finish s' q (KdfEnv (fun _ => false) [] 0 0 0 0 0)). exact Ew.
    + apply Hi in Hq as [Hq|Hq]; [|congruence]. eexists. by apply (kdf_receive s' p).
Qed.

End Kdf.

(** ** Instances *)

(** A keyed sum in place of HMAC. *)
Definition demo_hmac (key message : bytes) : bytes :=
  replicate 32 ((foldl Z.add (foldl Z.add 7 key) message) mod 256).

Definition demo_env : kdf_env := KdfEnv (fun _ => false) [1; 2; 3; 4; 5; 6; 7; 8; 9; 10; 11; 12; 13; 14; 15; 16] 0 2068000 0 0 0.

Lemma pbkdf2_reference_witness :
  argus_password_pbkdf2_cooperative_for_test demo_hmac (fun _ => false) (Some (str "secret")) (Some [1]) 1000 =
    (ESP_OK, Some (PBKDF2 demo_hmac (str "secret") [1] 1000), 3)
  /\ (argus_password_pbkdf2_cooperative_for_test demo_hmac (fun r => r =? 999) (Some (str "secret")) (Some [1]) 1000).1
     = (ESP_FAIL, None).
Proof.
  split.
  - apply (pbkdf2_reference demo_hmac (fun _ => false) (str "secret") [1] 1000); done.
  - apply (pbkdf2_reference demo_hmac (fun r => r =? 999) (str "secret") [1] 1000); [done|done|lia|].
    exists 999. split; [lia|done].
Defined.

Definition demo_record : argus_password_verifier_t :=
  default zero_verifier (derive_record demo_hmac demo_env (Some (str "secret")) 10000).2.

Lemma created_verifies_witness : verifies demo_hmac (str "secret") demo_record = true.
Proof.
  refine (proj1 (proj2 (proj2 (proj2 (created_verifies demo_hmac demo_env (str "secret") 10000 demo_record _))))).
  by vm_compute.
Defined.

(** Three callers: one being served, one queued, one waiting for room. *)
Definition demo_request : argus_kdf_request_t := ARGUS_KDF_CREATE (Some (str "secret")) 10000.

Definition demo_busy : kdf_system :=
  KdfSystem (Some 2%nat) (Some 1%nat)
    (<[3%nat := Caller demo_request Sending]> (<[2%nat := Caller demo_request Queued]>
     (<[1%nat := Caller demo_request Queued]> ∅))).

Lemma demo_busy_reachable : kdf_reachable demo_hmac demo_busy.
Proof.
  eapply rtc_l; [exists false; apply (kdf_send demo_hmac kdf_initial 1 demo_request); done|].
  eapply rtc_l; [exists true; apply (kdf_receive demo_hmac _ 1); done|].
  eapply rtc_l; [exists false; apply (kdf_send demo_hmac _ 2 demo_request); done|].
  eapply rtc_l; [exists false; apply (kdf_busy demo_hmac _ 3 demo_request 2); done|].
  apply rtc_refl.
Qed.

Lemma no_dangling_request_witness : ks_queue demo_busy <> ks_worker demo_busy /\ ~ queued demo_busy 3.
Proof.
  destruct (no_dangling_request demo_hmac demo_busy demo_busy_reachable) as (Hp & Hd & _). split; [by apply Hd|].
  intros H. apply Hp in H as [H|H]; discriminate H.
Defined.

Lemma answered_within_three_witness : (0 <= 2)%nat /\ exists s, kdf_step demo_hmac demo_busy true s.
Proof.
  apply (answered_within_three demo_hmac demo_busy 2 0 demo_busy demo_busy_reachable). apply waits_here.
  by exists demo_request.
Defined.
