(* ===== verification/Credentials.v ===== *)
(** * Portal credentials: migration, factory default, provisioning

    How the console verifier comes to be stored: [src/main/argus_security_migration.c]
    moves the plaintext password of earlier firmware into it, [argus_factory_credential.c]
    derives a default from the device's address when there is none, and
    [argus_security_provisioning.c] is the offline path.  All three are programs over a
    device: the encrypted store of [SecurityStore], the old NVS namespace, and the services
    that may refuse (the queue of the writer task, the key-derivation worker, the efuse and
    the hash).  An erased NVS key is certain to be gone from flash only after the commit.

    - [legacy_password_never_lost]: wherever the migration stops, the device still has the
      old password or a verifier that accepts it;
    - [provisioning_sound]: what an accepted provisioning means;
    - [factory_credential_acceptable]: the derived password is one the login accepts;
    - [bootstrap_preempts_migration]: the order of the two in [app_main]. *)

From S2P Require Import Prelude Storage DualSlot SecurityRecords SecurityStore AuthService PasswordVerifier.

Definition ARGUS_SECURITY_MIGRATION_BUILD_DEFAULT_DEFERRED : Z := 3.
Definition ARGUS_FACTORY_CREDENTIAL_LEN : nat := 12.

(** ** The device *)

(** The namespace [argus_portal]: the keys [pw] and [pw_set]. *)
Record legacy_nvs := LegacyNvs { lg_password : option bytes; lg_marker : option Z }.

Record device := Device {
  dv_slots : flash security_slot;
  dv_legacy : legacy_nvs;      (* what NVS reads *)
  dv_committed : legacy_nvs    (* what is certainly in flash *)
}.

#[export] Instance eta_legacy : Eta legacy_nvs := fun l => LegacyNvs (lg_password l) (lg_marker l).
#[export] Instance eta_device : Eta device := fun d => Device (dv_slots d) (dv_legacy d) (dv_committed d).

Inductive device_op : Type -> Type :=
| Slots {X} (e : slot_op security_slot X) : device_op X
| LegacyOpen (writable : bool) : device_op esp_err_t
| LegacyMarker : device_op (esp_err_t + Z)
| LegacyPassword (capacity : nat) : device_op (esp_err_t + bytes)
| LegacyErasePassword : device_op esp_err_t
| LegacyEraseMarker : device_op esp_err_t
| LegacyCommit : device_op esp_err_t
| QueueSend : device_op esp_err_t                       (* the writer's queue takes the request *)
| VerifierCreate (password : bytes) (iterations : Z) : device_op (esp_err_t * argus_password_verifier_t)
| VerifierVerify (password : bytes) (record : argus_password_verifier_t) : device_op (esp_err_t * bool)
| ServiceCreate (password : bytes) : device_op (esp_err_t * argus_password_verifier_t)
| EfuseMac : device_op (esp_err_t + bytes)
| Sha256 (message : bytes) : device_op (option bytes).

Section Credentials.
(** HMAC-SHA-256 and SHA-256 of mbedTLS, and the address in the efuses. *)
Context (hmac : bytes -> bytes -> bytes) (sha256 : bytes -> bytes) (mac : bytes).

Definition found {X} (v : option X) (r : esp_err_t + X) : Prop := read_outcome v r.

(** An erase that is done may or may not have reached the flash yet. *)
Definition erased (clear : legacy_nvs -> legacy_nvs) (present : bool) (d : device) (err : esp_err_t) (d' : device) : Prop :=
  if is_ok err then
    d' = d <| dv_legacy ::= clear |> \/ d' = d <| dv_legacy ::= clear |> <| dv_committed ::= clear |>
  else d' = d /\ (missing err = true -> present = false).

Definition clear_password (l : legacy_nvs) : legacy_nvs := l <| lg_password := None |>.
Definition clear_marker (l : legacy_nvs) : legacy_nvs := l <| lg_marker := None |>.

(** The worker's answer to a request, or the error of [submit]. *)
Definition created (password : bytes) (iterations : Z) (r : esp_err_t * argus_password_verifier_t) : Prop :=
  (r.1 <> ESP_OK) \/ exists env, derive_record hmac env (Some password) iterations = (ESP_OK, Some r.2).

Definition verified (password : bytes) (record : argus_password_verifier_t) (r : esp_err_t * bool) : Prop :=
  (r.1 <> ESP_OK /\ r.2 = false) \/
  exists env matched, verify_record hmac env (Some password) record = (ESP_OK, Some matched) /\ r.2 = matched.

Definition device_outcome {X} (e : device_op X) (d : device) : X -> device -> Prop :=
  match e with
  | Slots e => fun r d' => exists g, slot_outcome slot_good e (dv_slots d) r g /\ d' = d <| dv_slots := g |>
  | LegacyOpen writable => fun err d' => d' = d /\ (missing err = true -> dv_legacy d = LegacyNvs None None)
  | LegacyMarker => fun r d' => d' = d /\ found (lg_marker (dv_legacy d)) r
  | LegacyPassword capacity => fun r d' => d' = d /\ found (lg_password (dv_legacy d)) r
      /\ (forall p, r = inr p -> (length p < capacity)%nat)
  | LegacyErasePassword => fun err d' => erased clear_password (bool_decide (is_Some (lg_password (dv_legacy d)))) d err d'
  | LegacyEraseMarker => fun err d' => erased clear_marker (bool_decide (is_Some (lg_marker (dv_legacy d)))) d err d'
  | LegacyCommit => fun err d' =>
      if is_ok err then d' = d <| dv_committed := dv_legacy d |>
      else d' = d \/ d' = d <| dv_committed := dv_legacy d |>
  | QueueSend => fun err d' => d' = d
  | VerifierCreate password iterations => fun r d' => d' = d /\ created password iterations r
  | VerifierVerify password record => fun r d' => d' = d /\ verified password record r
  | ServiceCreate password => fun r d' => d' = d /\
      (r.1 = ESP_OK -> argus_auth_new_password_valid (Some password) = true) /\
      created password ARGUS_PASSWORD_ITERATIONS_DEFAULT r
  | EfuseMac => fun r d' => d' = d /\ match r with inl e => e <> ESP_OK | inr m => m = mac end
  | Sha256 message => fun r d' => d' = d /\ (r = None \/ r = Some (sha256 message))
  end.

(** The power is cut inside an operation. *)
Definition device_torn {X} (e : device_op X) (d d' : device) : Prop :=
  match e with
  | Slots e => exists g, slot_torn slot_good e (dv_slots d) g /\ d' = d <| dv_slots := g |>
  | LegacyErasePassword => d' = d \/ d' = d <| dv_committed ::= clear_password |>
  | LegacyEraseMarker => d' = d \/ d' = d <| dv_committed ::= clear_marker |>
  | LegacyCommit => d' = d \/ d' = d <| dv_committed := dv_legacy d |>
  | _ => d' = d
  end.

Definition quiet_env : kdf_env := KdfEnv (fun _ => false) (seqZ 1 16) 0 0 0 0 0.

Definition record_of {X} (zero : X) (r : esp_err_t * option X) : esp_err_t * X := (r.1, default zero r.2).

Definition device_perform {X} (e : device_op X) (d : device) : X * device :=
  match e with
  | Slots e => let '(r, g) := slot_perform e (dv_slots d) in (r, d <| dv_slots := g |>)
  | LegacyOpen _ => (ESP_OK, d)
  | LegacyMarker => (read_value (lg_marker (dv_legacy d)), d)
  | LegacyPassword capacity =>
      (match lg_password (dv_legacy d) with
       | Some p => if (length p <? capacity)%nat then inr p else inl ESP_FAIL
       | None => inl ESP_ERR_NVS_NOT_FOUND
       end, d)
  | LegacyErasePassword =>
      match lg_password (dv_legacy d) with
      | Some _ => (ESP_OK, d <| dv_legacy ::= clear_password |>)
      | None => (ESP_ERR_NVS_NOT_FOUND, d)
      end
  | LegacyEraseMarker =>
      match lg_marker (dv_legacy d) with
      | Some _ => (ESP_OK, d <| dv_legacy ::= clear_marker |>)
      | None => (ESP_ERR_NVS_NOT_FOUND, d)
      end
  | LegacyCommit => (ESP_OK, d <| dv_committed := dv_legacy d |>)
  | QueueSend => (ESP_OK, d)
  | VerifierCreate password iterations =>
      (record_of zero_verifier (derive_record hmac quiet_env (Some password) iterations), d)
  | VerifierVerify password record => (record_of false (verify_record hmac quiet_env (Some password) record), d)
  | ServiceCreate password =>
      (if argus_auth_new_password_valid (Some password)
       then record_of zero_verifier (derive_record hmac quiet_env (Some password) ARGUS_PASSWORD_ITERATIONS_DEFAULT)
       else (ESP_ERR_INVALID_ARG, zero_verifier), d)
  | EfuseMac => (inr mac, d)
  | Sha256 message => (Some (sha256 message), d)
  end.

Lemma derive_created password iterations :
  created password iterations (record_of zero_verifier (derive_record hmac quiet_env (Some password) iterations)).
Proof.
  unfold created, record_of. destruct (derive_record _ _ _ _) as [e [r|]] eqn:E; cbn [fst snd from_option id].
  - destruct (decide (e = ESP_OK)) as [->|]; [right; eauto|by left].
  - left. intros ->. unfold derive_record in E. destruct (_ || _); [done|].
    by destruct (argus_password_pbkdf2_for_test _ _ _ _ _).
Qed.

Lemma device_perform_outcome {X} (e : device_op X) d :
  device_outcome e d (device_perform e d).1 (device_perform e d).2.
Proof.
  destruct e as [X e| | |capacity| | | | |password iterations|password record|password| |message];
    cbn [device_perform device_outcome fst snd].
  - pose proof (slot_perform_outcome slot_good e (dv_slots d)) as H.
    destruct (slot_perform e (dv_slots d)) as [r g]. cbn [fst snd] in *. eauto.
  - done.
  - split; [done|]. apply read_value_outcome.
  - split; [done|]. unfold found, read_outcome. destruct (lg_password (dv_legacy d)) as [p|]; [|done].
    destruct (Nat.ltb_spec (length p) capacity); [|done]. split; [done|]. by intros ? [= <-].
  - unfold erased. destruct (lg_password (dv_legacy d)) as [p|] eqn:E; cbn [is_ok fst snd]; [by left|]. done.
  - unfold erased. destruct (lg_marker (dv_legacy d)) as [p|] eqn:E; cbn [is_ok fst snd]; [by left|]. done.
  - done.
  - done.
  - split; [done|]. apply derive_created.
  - split; [done|]. unfold verified, record_of.
    destruct (verify_record _ _ _ _) as [e' [b|]] eqn:E; cbn [fst snd from_option id].
    + destruct (decide (e' = ESP_OK)) as [->|Hne]; [right; eauto|left]. split; [done|].
      unfold verify_record in E. destruct (_ || _); [done|].
      destruct (argus_password_pbkdf2_for_test _ _ _ _ _) as [e1 o]. injection E as <- <-.
      apply is_ok_false in Hne. by rewrite Hne.
    + left. split; [|done]. intros ->. unfold verify_record in E. destruct (_ || _); [done|].
      by destruct (argus_password_pbkdf2_for_test _ _ _ _ _).
  - split; [done|]. destruct (argus_auth_new_password_valid (Some password)); [|by split; [|left]].
    split; [done|]. apply derive_created.
  - done.
  - split; [done|]. by right.
Qed.

#[local] Instance device_storage : Storage device_op device := {|
  outcome X := device_outcome;
  torn X := device_torn;
  perform X := device_perform;
  perform_outcome X := device_perform_outcome
|}.

(** ** The store's requests *)

Fixpoint on_slots {A} (p : prog (slot_op security_slot) A) : prog device_op A :=
  match p with
  | Ret a => Ret a
  | Op e k => Op (Slots e) (fun x => on_slots (k x))
  end.

(** [submit_payload], the writer task's part included. *)
Definition submit_payload (sv : store_service) (payload : argus_security_payload_t) (expected_generation : Z)
    : prog device_op (esp_err_t * store_service) :=
  sent ← call QueueSend;
  if negb (is_ok sent) then mret (sent, sv) else on_slots (writer_task sv payload expected_generation).

Definition store_update (sv : store_service) (s : submission) : prog device_op (esp_err_t * store_service) :=
  match s with
  | Answer e => mret (e, sv)
  | Submit payload expected => submit_payload sv payload expected
  end.

(** [argus_security_store_get_console_verifier] without the version. *)
Definition get_verifier (sv : store_service) : esp_err_t + argus_password_verifier_t :=
  match argus_security_store_get_console_verifier (sv_snapshot sv) with
  | inl e => inl e
  | inr (record, _) => inr record
  end.

Definition set_migration (sv : store_service) (state : Z) : prog device_op (esp_err_t * store_service) :=
  store_update sv (argus_security_store_set_migration_state (sv_snapshot sv) state).

(** ** Migration *)

Record argus_security_migration_status_t := MigrationStatus {
  ms_legacy_marker_present : bool;
  ms_legacy_plaintext_present : bool;
  ms_console_verifier_present : bool;
  ms_legacy_plaintext_deleted : bool;
  ms_build_default_deferred : bool
}.
#[local] Instance eta_migration_status : Eta argus_security_migration_status_t := fun s =>
  MigrationStatus (ms_legacy_marker_present s) (ms_legacy_plaintext_present s) (ms_console_verifier_present s)
    (ms_legacy_plaintext_deleted s) (ms_build_default_deferred s).

Definition LEGACY_PASSWORD_SIZE : nat := S ARGUS_PASSWORD_INPUT_MAX.

(** The error, the password, and the two flags. *)
Definition inspect_legacy (password_size : nat) : prog device_op (esp_err_t * bytes * bool * bool) :=
  opened ← call (LegacyOpen false);
  if bool_decide (opened = ESP_ERR_NVS_NOT_FOUND) then mret (ESP_OK, [], false, false)
  else if negb (is_ok opened) then mret (opened, [], false, false)
  else
    marker ← call LegacyMarker;
    match marker with
    | inl e =>
        mret (if bool_decide (e = ESP_ERR_NVS_NOT_FOUND) then ESP_OK else ESP_ERR_INVALID_STATE, [], false, false)
    | inr marker =>
        if negb (marker =? 1) then mret (ESP_ERR_INVALID_STATE, [], false, false)
        else
          password ← call (LegacyPassword password_size);
          match password with
          | inl e => mret (e, [], true, false)
          | inr password =>
              let length := S (length password) in
              if (length <=? 1)%nat || (password_size <? length)%nat then mret (ESP_ERR_INVALID_SIZE, [], true, false)
              else mret (ESP_OK, password, true, true)
          end
    end.

Definition delete_legacy_plaintext : prog device_op esp_err_t :=
  opened ← call (LegacyOpen true);
  if negb (is_ok opened) then mret opened
  else
    err ← call LegacyErasePassword;
    if negb (is_ok err) && negb (bool_decide (err = ESP_ERR_NVS_NOT_FOUND)) then mret err
    else
      marker_err ← call LegacyEraseMarker;
      if negb (is_ok marker_err) && negb (bool_decide (marker_err = ESP_ERR_NVS_NOT_FOUND)) then mret marker_err
      else call LegacyCommit.

(** The label [fail]. *)
Definition migration_fail (sv : store_service) (status : argus_security_migration_status_t) (err : esp_err_t)
    : prog device_op (esp_err_t * argus_security_migration_status_t * store_service) :=
  r ← set_migration sv ARGUS_SECURITY_MIGRATION_FAILED;
  mret (err, status, r.2).

(** From the verifier that is stored on: check it, delete the plaintext, note the state. *)
Definition migration_finish (sv : store_service) (status : argus_security_migration_status_t) (legacy_password : bytes)
    (stored : argus_password_verifier_t)
    : prog device_op (esp_err_t * argus_security_migration_status_t * store_service) :=
  verdict ← call (VerifierVerify (cstring legacy_password) stored);
  let '(err, matched) := verdict in
  if negb (is_ok err) || negb matched then
    migration_fail sv status (if is_ok err then ESP_ERR_INVALID_STATE else err)
  else
    err ← delete_legacy_plaintext;
    if negb (is_ok err) then migration_fail sv status err
    else
      let status := status <| ms_legacy_plaintext_deleted := true |> in
      r ← set_migration sv ARGUS_SECURITY_MIGRATION_COMPLETE;
      mret (r.1, status, r.2).

(** [argus_security_migration_execute] with the production operations. *)
Definition argus_security_migration_execute (sv : store_service)
    : prog device_op (esp_err_t * argus_security_migration_status_t * store_service) :=
  inspected ← inspect_legacy LEGACY_PASSWORD_SIZE;
  let '(err, legacy_password, marker_present, plaintext_present) := inspected in
  let status := MigrationStatus marker_present plaintext_present false false false in
  if negb (is_ok err) then migration_fail sv status err
  else
    let stored := get_verifier sv in
    let status := status <| ms_console_verifier_present := match stored with inr _ => true | inl _ => false end |> in
    if negb plaintext_present then
      match stored with
      | inr _ => r ← set_migration sv ARGUS_SECURITY_MIGRATION_COMPLETE; mret (r.1, status, r.2)
      | inl stored_err =>
          if negb (bool_decide (stored_err = ESP_ERR_NOT_FOUND)) then mret (stored_err, status, sv)
          else
            let status := status <| ms_build_default_deferred := true |> in
            r ← set_migration sv ARGUS_SECURITY_MIGRATION_BUILD_DEFAULT_DEFERRED;
            mret (r.1, status, r.2)
      end
    else
      match stored with
      | inr stored => migration_finish sv status legacy_password stored
      | inl stored_err =>
          if negb (bool_decide (stored_err = ESP_ERR_NOT_FOUND)) then migration_fail sv status stored_err
          else
            created ← call (VerifierCreate (cstring legacy_password) ARGUS_PASSWORD_ITERATIONS_DEFAULT);
            let '(err, record) := created in
            if negb (is_ok err) then migration_fail sv status err
            else
              r ← store_update sv (argus_security_store_set_console_verifier (sv_snapshot sv) record false);
              let '(err, sv) := r in
              if negb (is_ok err) then migration_fail sv status err
              else
                match get_verifier sv with
                | inl err => migration_fail sv status err
                | inr stored =>
                    migration_finish sv (status <| ms_console_verifier_present := true |>) legacy_password stored
                end
      end.

(** ** The factory default *)

Definition ALPHABET : bytes := str "23456789ABCDEFGHJKMNPQRSTUVWXYZ".
Definition ALPHABET_SIZE : Z := Z.of_nat (length ALPHABET).

(** The characters of a digest. *)
Definition credential_of (digest : bytes) : bytes :=
  (fun i => nth (Z.to_nat (nth i digest 0 mod ALPHABET_SIZE)) ALPHABET 0) <$> seq 0 ARGUS_FACTORY_CREDENTIAL_LEN.

(** [salt] is [CONFIG_ARGUS_FACTORY_CREDENTIAL_SALT], [cap] the size of the buffer. *)
Definition argus_factory_credential_derive (salt : bytes) (cap : nat) : prog device_op (esp_err_t + bytes) :=
  if (cap <=? ARGUS_FACTORY_CREDENTIAL_LEN)%nat then mret (inl ESP_ERR_INVALID_ARG)
  else
    address ← call EfuseMac;
    match address with
    | inl err => mret (inl err)
    | inr address =>
        digest ← call (Sha256 (salt ++ address));
        mret (match digest with Some digest => inr (credential_of digest) | None => inl ESP_FAIL end)
    end.

(** [s_factory_checked] and [s_factory_in_use]. *)
Record factory_cache := FactoryCache { fc_checked : bool; fc_in_use : bool }.

Definition argus_factory_credential_refresh : factory_cache := FactoryCache false false.

(** The cache is left alone where the function returns early. *)
Definition argus_factory_credential_bootstrap (salt : bytes) (cache : factory_cache) (sv : store_service)
    : prog device_op (esp_err_t * factory_cache * store_service) :=
  match get_verifier sv with
  | inr _ => mret (ESP_ERR_NOT_SUPPORTED, cache, sv)
  | inl err =>
      if negb (bool_decide (err = ESP_ERR_NOT_FOUND)) then mret (err, cache, sv)
      else
        password ← argus_factory_credential_derive salt (S ARGUS_FACTORY_CREDENTIAL_LEN);
        match password with
        | inl err => mret (err, cache, sv)
        | inr password =>
            created ← call (ServiceCreate password);
            let '(err, record) := created in
            r ← (if is_ok err
                 then store_update sv (argus_security_store_set_console_verifier (sv_snapshot sv) record false)
                 else mret (err, sv));
            let '(err, sv) := r in
            if is_ok err then
              r ← set_migration sv ARGUS_SECURITY_MIGRATION_COMPLETE;
              mret (err, argus_factory_credential_refresh, r.2)
            else mret (err, argus_factory_credential_refresh, sv)
        end
  end.

Definition argus_factory_credential_in_use (salt : bytes) (cache : factory_cache) (sv : store_service)
    : prog device_op (bool * factory_cache) :=
  if fc_checked cache then mret (fc_in_use cache, cache)
  else
    match get_verifier sv with
    | inl _ => mret (false, FactoryCache true false)
    | inr stored =>
        password ← argus_factory_credential_derive salt (S ARGUS_FACTORY_CREDENTIAL_LEN);
        match password with
        | inl _ => mret (false, FactoryCache true false)
        | inr password =>
            verdict ← call (VerifierVerify password stored);
            mret (verdict.2, FactoryCache true verdict.2)
        end
    end.

(** ** Provisioning *)

Record argus_security_provisioning_request_t := ProvisioningRequest {
  pr_environment : Z;
  pr_factory_ap : option bytes;
  pr_active_ap : option bytes;
  pr_console_password : option bytes;
  pr_verifier_iterations : Z;
  pr_explicit_initialization : bool
}.

Record argus_security_provisioning_result_t := ProvisioningResult {
  pv_accepted : bool;
  pv_verifier_created : bool;
  pv_record_written : bool;
  pv_readback_verified : bool;
  pv_schema_version : Z;
  pv_security_epoch : Z;
  pv_error : esp_err_t
}.

Definition ARGUS_PROVISIONING_PRODUCTION : Z := 1.

Definition argus_security_provisioning_ap_valid (value : option bytes) : bool :=
  match value with
  | None => false
  | Some value => secret_length_ok value && forallb (fun c => negb ((c <? 32) || (126 <? c))) value
  end.

Definition provisioning_request_valid (request : argus_security_provisioning_request_t) : bool :=
  (pr_environment request <=? ARGUS_PROVISIONING_PRODUCTION)
  && pr_explicit_initialization request
  && argus_security_provisioning_ap_valid (pr_factory_ap request)
  && argus_security_provisioning_ap_valid (pr_active_ap request)
  && input_valid (pr_console_password request)
  && (ARGUS_PASSWORD_ITERATIONS_MIN <=? pr_verifier_iterations request)
  && (pr_verifier_iterations request <=? ARGUS_PASSWORD_ITERATIONS_MAX).

Definition refused (verifier_created record_written : bool) (error : esp_err_t) : argus_security_provisioning_result_t :=
  ProvisioningResult false verifier_created record_written false 0 0 error.

(** [argus_security_store_get_status]: the fields this uses. *)
Definition store_provisioned (p : argus_security_payload_t) : bool :=
  negb (ap_provisioned (sp_factory_ap p) =? 0) && negb (ap_provisioned (sp_active_ap p) =? 0)
  && negb (sp_console_verifier_provisioned p =? 0).

Definition argus_security_provisioning_execute (request : argus_security_provisioning_request_t) (sv : store_service)
    : prog device_op (argus_security_provisioning_result_t * store_service) :=
  if negb (provisioning_request_valid request) then mret (refused false false ESP_ERR_INVALID_ARG, sv)
  else
    let password := default [] (pr_console_password request) in
    created ← call (VerifierCreate password (pr_verifier_iterations request));
    let '(err, verifier) := created in
    if negb (is_ok err) then mret (refused false false err, sv)
    else
      r ← store_update sv (argus_security_store_provision_initial (sv_snapshot sv)
            (default [] (pr_factory_ap request)) (default [] (pr_active_ap request)) verifier);
      let '(err, sv) := r in
      if negb (is_ok err) then mret (refused true false err, sv)
      else
        match get_verifier sv with
        | inl err => mret (refused true true err, sv)
        | inr readback =>
            verdict ← call (VerifierVerify password readback);
            let '(err, matched) := verdict in
            if negb (is_ok err) || negb matched then
              mret (refused true true (if is_ok err then ESP_ERR_INVALID_STATE else err), sv)
            else
              let p := co_active (sv_snapshot sv) in
              if negb (store_provisioned p) then mret (refused true true ESP_ERR_INVALID_STATE, sv)
              else mret (ProvisioningResult true true true true (sp_schema_version p) (sp_security_epoch p) ESP_OK, sv)
        end.

(** ** Proof rules of the device *)

Lemma wpc_on_slots {A} (p : prog (slot_op security_slot) A) (post : A -> device -> Prop) crash d :
  wpc p (fun a g => post a (d <| dv_slots := g |>)) (fun g => crash (d <| dv_slots := g |>)) (dv_slots d) ->
  wpc (on_slots p) post crash d.
Proof.
  assert (Hd : forall d, d <| dv_slots := dv_slots d |> = d) by (by intros []).
  revert d. induction p as [a|X e k IH]; intros d [Hc Hw].
  - split; rewrite Hd in *; done.
  - destruct Hw as [Ht Ho]. split; [by rewrite Hd in Hc|]. split.
    + intros d' (g & Hg & ->). exact (Ht g Hg).
    + intros x d' (g & Hg & ->). apply IH. exact (Ho x g Hg).
Qed.

(** An operation that leaves the device as it is. *)
Definition pure_op {X} (e : device_op X) : bool :=
  match e with
  | LegacyOpen _ | LegacyMarker | LegacyPassword _ | QueueSend | VerifierCreate _ _ | VerifierVerify _ _
  | ServiceCreate _ | EfuseMac | Sha256 _ => true
  | _ => false
  end.

Lemma wpc_pure {X A} (e : device_op X) (k : X -> prog device_op A) post crash d :
  pure_op e = true -> crash d -> (forall x, device_outcome e d x d -> wpc (k x) post crash d) ->
  wpc (Op e k) post crash d.
Proof.
  intros He Hc Hk. assert (Hs : forall x d', device_outcome e d x d' -> d' = d).
  { intros x d'. destruct e; try done; cbn; by try intros [-> _]. }
  assert (Ht : forall d', device_torn e d d' -> d' = d) by (intros d'; by destruct e).
  split; [done|]. split; [intros d' H; by rewrite (Ht d' H)|].
  intros x d' H. pose proof (Hs x d' H) as ->. exact (Hk x H).
Qed.

(** The writer and the snapshot agree: the state between two updates. *)
Definition in_step (sv : store_service) : Prop := sv_snapshot sv = sv_writer sv.

Definition stands_for (sv : store_service) (d : device) (v : argus_security_payload_t)
    (att : list argus_security_payload_t) : Prop :=
  in_step sv /\ represents (sv_writer sv, dv_slots d) (v, att).

Lemma stands_for_active sv d v att : stands_for sv d v att -> co_active (sv_snapshot sv) = v.
Proof. intros [Hi Hr]. rewrite Hi. exact (rp_value _ _ Hr). Qed.

(** What an update may leave: the value kept with the attempt noted, or the new value. *)
Definition update_attempts (s : submission) (att : list argus_security_payload_t) : list argus_security_payload_t :=
  match s with Submit p _ => p :: att | Answer _ => att end.

Definition same_legacy (d d' : device) : Prop := dv_legacy d' = dv_legacy d /\ dv_committed d' = dv_committed d.

Lemma represents_more core (g : flash security_slot) v att att' :
  att ⊆ att' -> represents (core, g) (v, att) -> represents (core, g) (v, att').
Proof.
  intros Hs [? ? ? ? Hsel]. split; try done. cbn [fst snd] in *.
  destruct Hsel as [?|[? Ho]]; [by left|right]. split; [done|]. intros. apply Hs. eauto.
Qed.

(** Whatever is on flash, a boot finds one of [values]. *)
Definition boots_among (values : list argus_security_payload_t) (d : device) : Prop :=
  exists core v att, represents (core, dv_slots d) (v, att) /\ v :: att ⊆ values.

Lemma stands_boots sv d v att values : stands_for sv d v att -> v :: att ⊆ values -> boots_among values d.
Proof. intros [_ Hr] Hs. by exists (sv_writer sv), v, att. Qed.

Lemma store_update_wpc sv s d v att : stands_for sv d v att ->
  wpc (store_update sv s)
    (fun r d' => same_legacy d d' /\
       if is_ok r.1 then match s with
                         | Submit p _ => stands_for r.2 d' p []
                         | Answer e => r.1 = e /\ stands_for r.2 d' v att
                         end
       else stands_for r.2 d' v (update_attempts s att))
    (fun d' => same_legacy d d' /\ boots_among (v :: update_attempts s att) d') d.
Proof.
  intros [Hi Hr]. assert (Hsame : same_legacy d d) by done.
  destruct s as [e|p expected]; cbn [store_update update_attempts].
  { split; [split; [done|]; by exists (sv_writer sv), v, att|]. split; [done|]. cbn [fst snd]. by destruct (is_ok e); [split|]. }
  assert (Hr' : represents (sv_writer sv, dv_slots d) (v, p :: att))
    by (eapply represents_more; [|exact Hr]; set_solver).
  assert (Hb : boots_among (v :: p :: att) d) by (by exists (sv_writer sv), v, (p :: att)).
  unfold submit_payload. prog_simpl. apply wpc_pure; [done|done|]. intros sent _.
  destruct (is_ok sent) eqn:Hsent; cbn [negb];
    [|split; [done|]; split; [done|]; cbn [fst snd]; rewrite Hsent; by split].
  apply wpc_on_slots. unfold writer_task.
  destruct (expected =? co_generation (sv_writer sv)); cbn [negb]; [|destruct d; split; [done|]; by split; [|split]].
  apply wpc_bind. eapply wpc_mono; [| |exact (commit_wpc _ _ _ _ p Hr)]; cbv beta.
  - intros r g Hp. cbn [fst snd] in *. destruct (is_ok r.1) eqn:Hok; cbn [fst snd].
    + split; [split; [done|]; exists r.2, p, []; split; [exact Hp|set_solver]|].
      split; [done|]. cbn [fst snd]. rewrite Hok. by split.
    + destruct Hp as [Hc Hp]. split; [split; [done|]; by exists (sv_writer sv), v, (p :: att)|].
      split; [done|]. cbn [fst snd]. rewrite Hok, Hc. split; [exact Hi|exact Hp].
  - intros g Hp. split; [done|]. by exists (sv_writer sv), v, (p :: att).
Qed.

(** ** The migration loses nothing *)

Definition accepts (password : bytes) (p : argus_security_payload_t) : Prop :=
  sp_console_verifier_provisioned p <> 0 /\ verifies hmac password (sp_console_verifier p) = true.

(** The store boots with a verifier that accepts the password. *)
Definition verifier_kept (password : bytes) (d : device) : Prop :=
  exists core g, store_boot (dv_slots d) = Some (core, g) /\ accepts password (co_active core).

Definition legacy_kept (password : bytes) (d : device) : Prop :=
  dv_committed d = LegacyNvs (Some password) (Some 1).

Lemma boots_accept password values d :
  boots_among values d -> Forall (accepts password) values -> verifier_kept password d.
Proof.
  intros (core & v & att & Hr & Hs) Ha.
  destruct (boot_represents core (dv_slots d) v att Hr) as (core' & g & Hb & v' & Hin & Hrep).
  exists core', g. split; [exact Hb|]. pose proof (rp_value _ _ Hrep) as Hv. cbn in Hv. rewrite Hv.
  rewrite Forall_forall in Ha. apply Ha, Hs, Hin.
Qed.

Lemma verify_sound env (password : bytes) record :
  verify_record hmac env (Some password) record = (ESP_OK, Some true) -> verifies hmac password record = true.
Proof.
  intros H. unfold verifies. apply bool_decide_eq_true. unfold verify_record in *.
  destruct (_ || _); [done|]. cbn [env_faults].
  destruct (argus_password_pbkdf2_for_test _ (env_faults env) _ _ _) as [e o] eqn:E.
  injection H as -> H. cbn [is_ok] in H. pose proof (pbkdf2_none _ _ _ _ _ _ _ E) as Hn. destruct o as [o|]; [|done].
  rewrite (pbkdf2_faultless _ _ _ _ _ _ E) by done. cbn [is_ok]. by rewrite H.
Qed.

Lemma get_verifier_accepts sv v record : co_active (sv_snapshot sv) = v -> get_verifier sv = inr record ->
  sp_console_verifier_provisioned v <> 0 /\ record = sp_console_verifier v.
Proof.
  intros <-. unfold get_verifier, argus_security_store_get_console_verifier.
  destruct (Z.eqb_spec (sp_console_verifier_provisioned (co_active (sv_snapshot sv))) 0); [done|]. by intros [= <-].
Qed.

Lemma get_verifier_error sv e : get_verifier sv = inl e -> e = ESP_ERR_NOT_FOUND.
Proof.
  unfold get_verifier, argus_security_store_get_console_verifier. destruct (_ =? _); by intros [= <-].
Qed.

(** Noting a migration state leaves the verifier alone. *)
Lemma migration_state_accepts password core state p g :
  argus_security_store_set_migration_state core state = Submit p g ->
  accepts password (co_active core) -> accepts password p.
Proof.
  unfold argus_security_store_set_migration_state, update_state. destruct (_ <? _); [done|].
  destruct (_ && _); [done|]. by intros [= <- _].
Qed.

Lemma migration_attempts password sv state v att :
  co_active (sv_snapshot sv) = v -> Forall (accepts password) (v :: att) ->
  Forall (accepts password) (v :: update_attempts (argus_security_store_set_migration_state (sv_snapshot sv) state) att).
Proof.
  intros <- Ha. destruct (argus_security_store_set_migration_state _ _) as [e|p g] eqn:E; [done|].
  apply Forall_cons in Ha as [Hv Ha]. cbn [update_attempts]. constructor; [done|].
  constructor; [|done]. eapply migration_state_accepts; eauto.
Qed.

Section Migration.
Context (pw : bytes) (Hpw : cstring pw = pw).

(** A power cut or a return here loses no password. *)
Definition nothing_lost (d : device) : Prop := legacy_kept pw d \/ verifier_kept pw d.

Definition migration_post (r : esp_err_t * argus_security_migration_status_t * store_service) (d : device) : Prop :=
  nothing_lost d /\
  (is_ok r.1.1 = true -> ms_legacy_plaintext_deleted r.1.2 = true) /\
  (ms_legacy_plaintext_deleted r.1.2 = true ->
     dv_committed d = LegacyNvs None None /\ accepts pw (co_active (sv_snapshot r.2))).

(** The state is noted: with the old password still there, or a verifier that accepts it. *)
Lemma set_migration_wpc sv state d v att :
  stands_for sv d v att -> legacy_kept pw d \/ Forall (accepts pw) (v :: att) ->
  wpc (set_migration sv state)
    (fun r d' => nothing_lost d' /\ dv_committed d' = dv_committed d /\
                 (Forall (accepts pw) (v :: att) -> accepts pw (co_active (sv_snapshot r.2))))
    nothing_lost d.
Proof.
  intros Hs Hk. pose proof (stands_for_active _ _ _ _ Hs) as Hv. unfold set_migration.
  assert (Hsafe : forall d', same_legacy d d' ->
     boots_among (v :: update_attempts (argus_security_store_set_migration_state (sv_snapshot sv) state) att) d' ->
     nothing_lost d').
  { intros d' [_ Hc] Hb. destruct Hk as [Hk|Hk]; [left; unfold legacy_kept in *; congruence|]. right.
    eapply boots_accept; [exact Hb|]. by apply migration_attempts. }
  eapply wpc_mono; [| |exact (store_update_wpc _ _ _ _ _ Hs)]; cbv beta; [|by intros d' [? ?]; auto].
  intros [e sv'] d' [Hl Hr]; cbn [fst snd] in *.
  assert (Hr' : exists v' att', stands_for sv' d' v' att' /\
     v' :: att' ⊆ v :: update_attempts (argus_security_store_set_migration_state (sv_snapshot sv) state) att).
  { destruct (is_ok e); [|by eexists _, _].
    destruct (argus_security_store_set_migration_state _ _) as [e'|p g]; [destruct Hr; by eexists _, _|].
    eexists _, _. split; [exact Hr|]. set_solver. }
  destruct Hr' as (v' & att' & Hs' & Hin). split; [|split; [by destruct Hl|]].
  - apply (Hsafe d' Hl). exact (stands_boots _ _ _ _ _ Hs' Hin).
  - intros Ha. rewrite (stands_for_active _ _ _ _ Hs').
    pose proof (migration_attempts pw sv state v att Hv Ha) as Hf. rewrite Forall_forall in Hf. apply Hf, Hin. by left.
Qed.

Lemma migration_fail_wpc sv status err d v att :
  stands_for sv d v att -> legacy_kept pw d \/ Forall (accepts pw) (v :: att) ->
  is_ok err = false -> ms_legacy_plaintext_deleted status = false ->
  wpc (migration_fail sv status err) migration_post nothing_lost d.
Proof.
  intros Hs Hk He Hst. unfold migration_fail. apply wpc_bind.
  eapply wpc_mono; [| |exact (set_migration_wpc _ _ _ _ _ Hs Hk)]; [|done]. cbv beta.
  intros r d' (Hn & _). split; [exact Hn|]. split; [exact Hn|]. cbn [fst snd]. rewrite He, Hst. done.
Qed.

Lemma delete_legacy_wpc d :
  wpc delete_legacy_plaintext
    (fun err d' => dv_slots d' = dv_slots d /\ (is_ok err = true -> dv_committed d' = LegacyNvs None None))
    (fun d' => dv_slots d' = dv_slots d) d.
Proof.
  unfold delete_legacy_plaintext. prog_simpl. apply wpc_pure; [done|done|]. intros opened _.
  destruct (is_ok opened) eqn:Ho; cbn [negb]; [|split; [done|]; split; [done|]; by rewrite Ho].
  assert (Hmid : forall err d', erased clear_password (bool_decide (is_Some (lg_password (dv_legacy d)))) d err d' ->
    dv_slots d' = dv_slots d /\ (is_ok err || bool_decide (err = ESP_ERR_NVS_NOT_FOUND) = true -> lg_password (dv_legacy d') = None)).
  { intros err d' He. unfold erased in He. destruct (is_ok err).
    - destruct d as [a [b c] e0]. by destruct He as [->| ->].
    - destruct He as [-> He]. split; [done|]. intros Hn. cbn [orb] in Hn. apply bool_decide_eq_true in Hn. subst err.
      specialize (He eq_refl). apply bool_decide_eq_false in He. destruct (lg_password _); [|done].
      exfalso. apply He. eauto. }
  split; [done|]. split; [intros d' [->| ->]; [done|by destruct d as [? [? ?] ?]]|].
  intros err d1 H1. specialize (Hmid err d1 H1) as [Hs1 Hp1]. cbn beta.
  destruct (negb (is_ok err) && negb (bool_decide (err = ESP_ERR_NVS_NOT_FOUND))) eqn:Hb.
  { split; [done|]. split; [done|]. apply andb_true_iff in Hb as [Hb _]. apply negb_true_iff in Hb. by rewrite Hb. }
  rewrite <- negb_orb in Hb. apply negb_false_iff in Hb. specialize (Hp1 Hb). clear Hb H1.
  split; [done|]. split; [intros d' [->| ->]; [done|by destruct d1 as [? [? ?] ?]]|].
  intros merr d2 H2. cbn beta.
  assert (Hm2 : dv_slots d2 = dv_slots d1 /\ lg_password (dv_legacy d2) = None /\
    (is_ok merr || bool_decide (merr = ESP_ERR_NVS_NOT_FOUND) = true -> dv_legacy d2 = LegacyNvs None None)).
  { change (erased clear_marker (bool_decide (is_Some (lg_marker (dv_legacy d1)))) d1 merr d2) in H2.
    unfold erased in H2. destruct (is_ok merr).
    - destruct d1 as [a [b c] e0]. cbn in Hp1. subst b. by destruct H2 as [->| ->].
    - destruct H2 as [-> He]. split; [done|]. split; [done|]. intros Hn. cbn [orb] in Hn.
      apply bool_decide_eq_true in Hn. subst merr. specialize (He eq_refl). apply bool_decide_eq_false in He.
      destruct (dv_legacy d1) as [b [c|]]; cbn in *; [exfalso; apply He; eauto|]. by subst b. }
  destruct Hm2 as (Hs2 & _ & Hl2). rewrite <- Hs1, <- Hs2.
  destruct (negb (is_ok merr) && negb (bool_decide (merr = ESP_ERR_NVS_NOT_FOUND))) eqn:Hb.
  { split; [done|]. split; [done|]. apply andb_true_iff in Hb as [Hb _]. apply negb_true_iff in Hb. by rewrite Hb. }
  rewrite <- negb_orb in Hb. apply negb_false_iff in Hb. specialize (Hl2 Hb). clear H2 Hb.
  split; [done|]. split; [intros d' [->| ->]; done|]. intros cerr d3 H3. cbn in H3.
  split; [destruct (is_ok cerr); [by subst d3|by destruct H3 as [->| ->]]|].
  destruct (is_ok cerr) eqn:Hce; [by subst d3|]. split; [by destruct H3 as [->| ->]|done].
Qed.

Lemma migration_finish_wpc sv status stored d v :
  stands_for sv d v [] -> legacy_kept pw d -> dv_legacy d = LegacyNvs (Some pw) (Some 1) ->
  get_verifier sv = inr stored -> ms_legacy_plaintext_deleted status = false ->
  wpc (migration_finish sv status pw stored) migration_post nothing_lost d.
Proof.
  intros Hs Hk Hl Hg Hst. pose proof (stands_for_active _ _ _ _ Hs) as Hv.
  unfold migration_finish. prog_simpl. apply wpc_pure; [done|by left|]. intros [err matched] [_ Hverdict].
  destruct (negb (is_ok err) || negb matched) eqn:Hbad.
  { eapply migration_fail_wpc; eauto. destruct (is_ok err) eqn:He; [done|done]. }
  b2p. unfold verified in Hverdict. cbn [fst snd] in Hverdict.
  destruct Hverdict as [[Hne _]|(env & m & Hver & <-)]; [apply is_ok_false in Hne; congruence|].
  subst matched. rewrite Hpw in Hver. apply verify_sound in Hver.
  destruct (get_verifier_accepts _ _ _ Hv Hg) as [Hprov ->].
  assert (Ha : Forall (accepts pw) [v]) by (constructor; [by split|done]).
  assert (Hkept : forall d', dv_slots d' = dv_slots d -> stands_for sv d' v []).
  { intros d' E. destruct Hs as [Hi Hr]. split; [done|]. by rewrite E. }
  assert (Hsafe : forall d', dv_slots d' = dv_slots d -> nothing_lost d').
  { intros d' E. right. eapply boots_accept; [|exact Ha]. exact (stands_boots _ _ _ _ _ (Hkept d' E) ltac:(done)). }
  apply wpc_bind. eapply wpc_mono; [| |exact (delete_legacy_wpc d)]; cbv beta; [|exact Hsafe].
  intros derr d1 [Hs1 Hc1]. destruct (is_ok derr) eqn:Hderr; cbn [negb].
  - apply wpc_bind.
    eapply wpc_mono; [| |exact (set_migration_wpc sv _ d1 v [] (Hkept d1 Hs1) (or_intror Ha))]; [|done]. cbv beta.
    intros r d2 (Hn & Hc2 & Hacc). split; [exact Hn|]. split; [exact Hn|]. cbn [fst snd].
    split; [done|]. intros _. split; [rewrite Hc2; auto|auto].
  - eapply migration_fail_wpc; eauto.
Qed.

Lemma migration_wpc sv d v :
  stands_for sv d v [] -> legacy_kept pw d -> dv_legacy d = LegacyNvs (Some pw) (Some 1) ->
  wpc (argus_security_migration_execute sv) migration_post nothing_lost d.
Proof.
  intros Hs Hk Hl. assert (Hn : nothing_lost d) by (by left).
  unfold argus_security_migration_execute. apply wpc_bind.
  set (rest := fun inspected => _).
  assert (Hfail : forall e p m f, is_ok e = false -> rest (e, p, m, f) d).
  { intros e p m f He. unfold rest. rewrite He. eapply migration_fail_wpc; eauto. }
  assert (Hread : forall p m, found (Some pw) (inr p) -> rest (ESP_OK, p, m, true) d).
  { intros p m [= <-]. unfold rest. cbn [is_ok negb]. destruct (get_verifier sv) as [e|stored] eqn:Hg.
    - destruct (decide (e = ESP_ERR_NOT_FOUND)) as [->|Hne]; [rewrite bool_decide_eq_true_2 by done|
        rewrite bool_decide_eq_false_2 by done]; cbn [negb].
      + prog_simpl. apply wpc_pure; [done|done|]. intros [err record] _.
        destruct (is_ok err) eqn:He; cbn [negb]; [|eapply migration_fail_wpc; eauto].
        apply wpc_bind. eapply wpc_mono; [| |exact (store_update_wpc _ _ _ _ _ Hs)]; cbv beta.
        2:{ intros d' [[_ Hc] _]. left. unfold legacy_kept in *. congruence. }
        intros [err' sv'] d' [[Hl' Hc'] Hr]. cbn [fst snd] in *.
        assert (Hk' : legacy_kept pw d') by (unfold legacy_kept in *; congruence).
        destruct (is_ok err') eqn:He'; cbn [negb]; [|eapply migration_fail_wpc; eauto].
        unfold argus_security_store_set_console_verifier in Hr.
        assert (Hs' : exists v', stands_for sv' d' v' []).
        { destruct (argus_password_verifier_record_valid record); cbn [negb] in Hr; [|destruct Hr; eauto].
          destruct (_ && _); [destruct Hr|]; eauto. }
        destruct Hs' as [v' Hs']. destruct (get_verifier sv') as [e|stored] eqn:Hg'.
        * rewrite (get_verifier_error _ _ Hg'). eapply migration_fail_wpc; eauto.
        * eapply migration_finish_wpc; eauto. by rewrite Hl'.
      + destruct (Hne (get_verifier_error _ _ Hg)).
    - eapply migration_finish_wpc; eauto. }
  clearbody rest. unfold inspect_legacy. prog_simpl. apply wpc_pure; [done|done|]. intros opened [_ Hop].
  destruct (decide (opened = ESP_ERR_NVS_NOT_FOUND)) as [->|Hne].
  { specialize (Hop eq_refl). rewrite Hl in Hop. done. }
  rewrite bool_decide_eq_false_2 by done. destruct (is_ok opened) eqn:Ho; cbn [negb]; [|split; [done|by apply Hfail]].
  prog_simpl. apply wpc_pure; [done|done|]. intros marker [_ Hm]. rewrite Hl in Hm. cbn [lg_marker] in Hm.
  destruct marker as [e|m].
  { destruct Hm as [_ Hm]. rewrite bool_decide_eq_false_2 by (intros ->; by specialize (Hm eq_refl)).
    split; [done|by apply Hfail]. }
  injection Hm as <-. cbn [Z.eqb Pos.eqb negb]. prog_simpl. apply wpc_pure; [done|done|].
  intros password (_ & Hp & _). rewrite Hl in Hp. cbn [lg_password] in Hp. destruct password as [e|p].
  { destruct Hp as [Hp _]. split; [done|]. apply Hfail. by apply is_ok_false. }
  destruct (_ || _); (split; [done|]); [by apply Hfail|by apply Hread].
Qed.
End Migration.

(** The password of earlier firmware is never lost: wherever the migration stops, by a
    return, an error of the flash, the worker or the queue, or a power cut, flash still
    holds the plaintext with its marker, or the store boots with a verifier that accepts
    that password; the migration reports success only when the plaintext is erased
    and committed, and erases it only when the stored verifier accepts it. *)
Theorem legacy_password_never_lost pw sv d v :
  cstring pw = pw -> stands_for sv d v [] ->
  dv_legacy d = LegacyNvs (Some pw) (Some 1) -> dv_committed d = LegacyNvs (Some pw) (Some 1) ->
  (forall d', power_cut (argus_security_migration_execute sv) d d' -> legacy_kept pw d' \/ verifier_kept pw d') /\
  (forall err status sv' d', returns (argus_security_migration_execute sv) d (err, status, sv') d' ->
     (legacy_kept pw d' \/ verifier_kept pw d') /\
     (err = ESP_OK -> ms_legacy_plaintext_deleted status = true) /\
     (ms_legacy_plaintext_deleted status = true ->
        dv_committed d' = LegacyNvs None None /\ accepts pw (co_active (sv_snapshot sv')))).
Proof.
  intros Hpw Hs Hl Hc. pose proof (migration_wpc pw Hpw sv d v Hs Hc Hl) as Hw. split.
  - intros d' Hcut. exact (wpc_power_cut _ _ _ _ _ Hw Hcut).
  - intros err status sv' d' Hr. destruct (wpc_returns _ _ _ _ _ _ Hw Hr) as (Hn & Hok & Hdel). cbn [fst snd] in *.
    split; [exact Hn|]. split; [|exact Hdel]. intros ->. by apply Hok.
Qed.

(** ** The factory default *)

Lemma credential_characters digest : all (fun c => bool_decide (c ∈ ALPHABET)) (credential_of digest).
Proof.
  apply Forall_fmap, Forall_true. intros i. cbn. apply bool_decide_eq_true. apply list_elem_of_In, nth_In.
  assert (0 <= nth i digest 0 mod ALPHABET_SIZE < ALPHABET_SIZE) by (apply Z.mod_pos_bound; by vm_compute).
  change (length ALPHABET) with (Z.to_nat ALPHABET_SIZE). lia.
Qed.

(** Whatever the hash is, the derived password has 12 characters of the 31-symbol
    alphabet and passes the check of new passwords, so the account service never refuses
    to make a verifier of it. *)
Theorem factory_credential_acceptable digest :
  all (fun c => bool_decide (c ∈ ALPHABET)) (credential_of digest) /\
  length (credential_of digest) = ARGUS_FACTORY_CREDENTIAL_LEN /\
  argus_auth_new_password_valid (Some (credential_of digest)) = true.
Proof.
  pose proof (credential_characters digest) as Hc. split; [done|]. split; [done|].
  unfold argus_auth_new_password_valid. change (length (credential_of digest)) with 12%nat.
  cbn [Nat.ltb Nat.leb ARGUS_PASSWORD_INPUT_MAX negb orb andb]. apply forallb_forall. intros c Hin.
  apply list_elem_of_In in Hin. unfold all in Hc. rewrite Forall_forall in Hc. specialize (Hc c Hin).
  apply bool_decide_eq_true in Hc.
  assert (Hall : Forall (fun c => negb ((c <? 32) || (126 <? c)) = true) ALPHABET) by (by vm_compute; repeat constructor).
  rewrite Forall_forall in Hall. exact (Hall c Hc).
Qed.

Definition factory_password (salt : bytes) : bytes := credential_of (sha256 (salt ++ mac)).

Lemma derive_wpc salt d :
  wpc (argus_factory_credential_derive salt (S ARGUS_FACTORY_CREDENTIAL_LEN))
    (fun r d' => d' = d /\ match r with inr p => p = factory_password salt | inl e => is_ok e = false end)
    (fun d' => d' = d) d.
Proof.
  unfold argus_factory_credential_derive. cbn [Nat.leb ARGUS_FACTORY_CREDENTIAL_LEN]. prog_simpl.
  apply wpc_pure; [done|done|]. intros [e|m] [_ Hm]; [by split; [|split; [|apply is_ok_false]]|]. subst m.
  prog_simpl. apply wpc_pure; [done|done|]. intros r [_ [->| ->]]; by split.
Qed.

(** A stored password verifies. *)
Lemma created_accepts password iterations record :
  created password iterations (ESP_OK, record) ->
  argus_password_verifier_record_valid record = true /\ verifies hmac password record = true.
Proof.
  intros [Hne|[env He]]; [done|]. cbn [snd] in He. by apply derive_verifies in He.
Qed.

Lemma set_verifier_accepts core record replace p g password :
  argus_security_store_set_console_verifier core record replace = Submit p g ->
  verifies hmac password record = true -> accepts password p.
Proof.
  unfold argus_security_store_set_console_verifier. destruct (negb _); [done|]. destruct (_ && _); [done|].
  intros [= <- _] Hv. by split.
Qed.

(** Noting a state when every value that may be found accepts the password. *)
Lemma set_migration_full_wpc password sv state d v att :
  stands_for sv d v att -> Forall (accepts password) (v :: att) ->
  wpc (set_migration sv state)
    (fun r d' => dv_legacy d' = dv_legacy d /\ dv_committed d' = dv_committed d /\
       exists v' att', stands_for r.2 d' v' att' /\ Forall (accepts password) (v' :: att'))
    (fun d' => dv_legacy d' = dv_legacy d /\ dv_committed d' = dv_committed d) d.
Proof.
  intros Hs Ha. pose proof (stands_for_active _ _ _ _ Hs) as Hv. unfold set_migration.
  pose proof (migration_attempts password sv state v att Hv Ha) as Hf.
  eapply wpc_mono; [| |exact (store_update_wpc _ _ _ _ _ Hs)]; cbv beta; [|by intros d' [[? ?] ?]].
  intros [e sv'] d' [[Hl Hc] Hr]; cbn [fst snd] in *. split; [done|]. split; [done|].
  destruct (is_ok e); [|eauto]. destruct (argus_security_store_set_migration_state _ _) as [e'|p g].
  - destruct Hr; eauto.
  - exists p, []. split; [done|]. cbn [update_attempts] in Hf. apply Forall_cons in Hf as [_ Hf].
    apply Forall_cons in Hf as [Hp _]. by constructor.
Qed.

(** What the bootstrap leaves of a device without a verifier. *)
Lemma bootstrap_wpc salt cache sv d v :
  stands_for sv d v [] ->
  wpc (argus_factory_credential_bootstrap salt cache sv)
    (fun r d' => (sp_console_verifier_provisioned v <> 0 -> r = (ESP_ERR_NOT_SUPPORTED, cache, sv) /\ d' = d) /\
       dv_legacy d' = dv_legacy d /\ dv_committed d' = dv_committed d /\
       (is_ok r.1.1 = true -> r.1.2 = argus_factory_credential_refresh /\
          exists v' att', stands_for r.2 d' v' att' /\ Forall (accepts (factory_password salt)) (v' :: att')))
    (fun d' => (sp_console_verifier_provisioned v <> 0 -> d' = d) /\
       dv_legacy d' = dv_legacy d /\ dv_committed d' = dv_committed d) d.
Proof.
  intros Hs. pose proof (stands_for_active _ _ _ _ Hs) as Hv. unfold argus_factory_credential_bootstrap.
  destruct (get_verifier sv) as [e|record] eqn:Hg; [|by split; [|split]].
  assert (Hz : sp_console_verifier_provisioned v = 0).
  { unfold get_verifier, argus_security_store_get_console_verifier in Hg. rewrite Hv in Hg.
    destruct (Z.eqb_spec (sp_console_verifier_provisioned v) 0); [done|]. done. }
  rewrite (get_verifier_error _ _ Hg), bool_decide_eq_true_2 by done. cbn [negb]. apply wpc_bind.
  eapply wpc_mono; [| |exact (derive_wpc salt d)]; cbv beta; [|by intros d' ->].
  intros [e'|password] d' [-> Hp].
  { split; [done|]. split; [done|]. cbn [fst snd]. by rewrite Hp. }
  subst password. prog_simpl. apply wpc_pure; [done|done|]. intros [err record] (_ & _ & Hc).
  destruct (is_ok err) eqn:He; [|prog_simpl; rewrite He; split; [done|]; split; [done|]; cbn [fst snd]; by rewrite He].
  apply is_ok_true in He. subst err. apply created_accepts in Hc as [_ Hver].
  apply wpc_bind. eapply wpc_mono; [| |exact (store_update_wpc _ _ _ _ _ Hs)]; cbv beta.
  2:{ intros d' [[Hl Hc'] _]. done. }
  intros [err sv'] d' [[Hl Hc'] Hr]. cbn [fst snd] in *.
  destruct (is_ok err) eqn:He; [|split; [done|]; split; [done|]; cbn [fst snd]; by rewrite He].
  destruct (argus_security_store_set_console_verifier (sv_snapshot sv) record false) as [e'|p g] eqn:Eset.
  { exfalso. cbn in Hr. destruct Hr as [-> _]. unfold argus_security_store_set_console_verifier in Eset.
    destruct (negb _); [by injection Eset as <-|]. destruct (_ && _); [by injection Eset as <-|done]. }
  pose proof (set_verifier_accepts _ _ _ _ _ _ Eset Hver) as Ha.
  apply wpc_bind. eapply wpc_mono; [| |refine (set_migration_full_wpc _ _ ARGUS_SECURITY_MIGRATION_COMPLETE _ _ _ Hr _)];
    cbv beta; [| |by constructor].
  - intros r d2 (Hl2 & Hc2 & Hf). split; [split; [done|]; by rewrite Hl2, Hc2|].
    split; [done|]. cbn [is_ok fst snd]. rewrite Hl2, Hc2. split; [done|]. split; [done|]. by intros _.
  - intros d2 (Hl2 & Hc2). by rewrite Hl2, Hc2.
Qed.

(** The factory default never replaces a password: on a device that has a verifier the
    bootstrap answers at once and changes nothing, whatever happens; where it succeeds, the
    store has, also after a restart, a verifier that accepts the derived password. *)
Theorem factory_bootstrap_sound salt cache sv d v :
  stands_for sv d v [] ->
  (sp_console_verifier_provisioned v <> 0 ->
     (forall r d', returns (argus_factory_credential_bootstrap salt cache sv) d r d' ->
        r = (ESP_ERR_NOT_SUPPORTED, cache, sv) /\ d' = d) /\
     (forall d', power_cut (argus_factory_credential_bootstrap salt cache sv) d d' -> d' = d)) /\
  (forall cache' sv' d', returns (argus_factory_credential_bootstrap salt cache sv) d (ESP_OK, cache', sv') d' ->
     accepts (factory_password salt) (co_active (sv_snapshot sv')) /\ verifier_kept (factory_password salt) d').
Proof.
  intros Hs. pose proof (bootstrap_wpc salt cache sv d v Hs) as Hw. split.
  - intros Hp. split.
    + intros r d' Hr. by apply (wpc_returns _ _ _ _ _ _ Hw Hr).
    + intros d' Hc. by apply (wpc_power_cut _ _ _ _ _ Hw Hc).
  - intros cache' sv' d' Hr. destruct (wpc_returns _ _ _ _ _ _ Hw Hr) as (_ & _ & _ & Hok).
    destruct (Hok eq_refl) as (_ & v' & att' & Hs' & Ha). cbn [fst snd] in *. split.
    + rewrite (stands_for_active _ _ _ _ Hs'). by apply Forall_inv in Ha.
    + eapply boots_accept; [|exact Ha]. by eapply stands_boots.
Qed.

(** The nag is honest: an answer that was not cached and says "factory" means that the
    derived password opens the portal. *)
Lemma in_use_honest salt cache sv d b cache' d' :
  fc_checked cache = false -> returns (argus_factory_credential_in_use salt cache sv) d (b, cache') d' ->
  b = true -> accepts (factory_password salt) (co_active (sv_snapshot sv)).
Proof.
  intros Hc Hr.
  assert (Hw : wpc (argus_factory_credential_in_use salt cache sv)
    (fun r _ => r.1 = true -> accepts (factory_password salt) (co_active (sv_snapshot sv))) (fun _ => True) d).
  { unfold argus_factory_credential_in_use. rewrite Hc. destruct (get_verifier sv) as [e|stored] eqn:Hg; [done|].
    destruct (get_verifier_accepts _ _ _ eq_refl Hg) as [Hp ->].
    apply wpc_bind. eapply wpc_mono; [| |exact (derive_wpc salt d)]; cbv beta; [|done].
    intros [e'|password] d1 [-> Hd]; [done|]. subst password. prog_simpl. apply wpc_pure; [done|done|].
    intros [e m] [_ [[_ Hm]|(env & m' & Hv & Hm)]]; cbn [snd] in Hm; subst m; (split; [done|]); cbn [fst snd]; [done|].
    intros ->. split; [done|]. by apply verify_sound in Hv. }
  intros ->. exact (wpc_returns _ _ _ _ _ _ Hw Hr eq_refl).
Qed.

(** ** The order of the two at boot *)

Lemma migration_rejects_wpc pw sv d v att :
  cstring pw = pw -> stands_for sv d v att -> dv_legacy d = LegacyNvs (Some pw) (Some 1) ->
  sp_console_verifier_provisioned v <> 0 -> verifies hmac pw (sp_console_verifier v) = false ->
  wpc (argus_security_migration_execute sv)
    (fun r d' => r.1.1 <> ESP_OK /\ dv_committed d' = dv_committed d) (fun _ => True) d.
Proof.
  intros Hpw Hs Hl Hp Hn. pose proof (stands_for_active _ _ _ _ Hs) as Hv.
  assert (Hfail : forall status e, is_ok e = false -> wpc (migration_fail sv status e)
    (fun r d' => r.1.1 <> ESP_OK /\ dv_committed d' = dv_committed d) (fun _ => True) d).
  { intros status e He. unfold migration_fail. apply wpc_bind.
    eapply wpc_mono; [| |exact (store_update_wpc _ _ _ _ _ Hs)]; [|done]. cbv beta.
    intros r d' [[_ Hc] _]. split; [done|]. split; [by apply is_ok_false|exact Hc]. }
  assert (Hg : get_verifier sv = inr (sp_console_verifier v)).
  { unfold get_verifier, argus_security_store_get_console_verifier. rewrite Hv.
    destruct (Z.eqb_spec (sp_console_verifier_provisioned v) 0); done. }
  unfold argus_security_migration_execute. rewrite Hg. apply wpc_bind.
  eapply (wpc_mono _ (fun r d' => d' = d /\ (is_ok r.1.1.1 = true -> r.1.1.2 = pw /\ r.2 = true)) _ (fun _ => True)); [|done|].
  - intros [[[e p] m] f] d' [-> Hr]. cbn [fst snd] in Hr. destruct (is_ok e) eqn:He; cbn [negb]; [|by apply Hfail].
    destruct (Hr eq_refl) as [-> ->]. cbn [negb]. unfold migration_finish. prog_simpl. apply wpc_pure; [done|done|].
    intros [err matched] [_ Hver]. destruct (negb (is_ok err) || negb matched) eqn:Hbad.
    { apply Hfail. by destruct (is_ok err) eqn:He'. }
    exfalso. b2p. unfold verified in Hver. cbn [fst snd] in Hver.
    destruct Hver as [[Hne _]|(env & mm & Hver & <-)]; [apply is_ok_false in Hne; congruence|]. subst matched.
    rewrite Hpw in Hver. apply verify_sound in Hver. congruence.
  - unfold inspect_legacy. prog_simpl. apply wpc_pure; [done|done|]. intros opened [_ Hop].
    destruct (decide (opened = ESP_ERR_NVS_NOT_FOUND)) as [->|Hne];
      [specialize (Hop eq_refl); rewrite Hl in Hop; done|]. rewrite bool_decide_eq_false_2 by done.
    destruct (is_ok opened) eqn:Ho; cbn [negb]; [|split; [done|split; [done|cbn [fst snd]; by rewrite Ho]]].
    prog_simpl. apply wpc_pure; [done|done|]. intros [e|m] [_ Hm]; rewrite Hl in Hm; cbn [lg_marker] in Hm.
    { destruct Hm as [_ Hm]. rewrite bool_decide_eq_false_2 by (intros ->; by specialize (Hm eq_refl)). done. }
    injection Hm as <-. cbn [Z.eqb Pos.eqb negb]. prog_simpl. apply wpc_pure; [done|done|].
    intros [e|p] (_ & Hpp & _); rewrite Hl in Hpp; cbn [lg_password] in Hpp.
    { destruct Hpp as [Hpp _]. split; [done|]. split; [done|]. apply is_ok_false in Hpp. cbn [fst snd]. by rewrite Hpp. }
    injection Hpp as <-. by destruct (_ || _).
Qed.

(** [app_main] runs the factory bootstrap before the migration.  On a device that has
    the password of earlier firmware and no verifier yet, a successful bootstrap makes the
    migration that follows fail in every execution: it compares the old password with the
    factory verifier, leaves the plaintext in flash, and the portal accepts the derived
    password only. *)
Theorem bootstrap_preempts_migration pw salt cache sv d v cache1 sv1 d1 err status sv2 d2 :
  cstring pw = pw -> stands_for sv d v [] -> dv_legacy d = LegacyNvs (Some pw) (Some 1) ->
  dv_committed d = LegacyNvs (Some pw) (Some 1) ->
  returns (argus_factory_credential_bootstrap salt cache sv) d (ESP_OK, cache1, sv1) d1 ->
  verifies hmac pw (sp_console_verifier (co_active (sv_snapshot sv1))) = false ->
  returns (argus_security_migration_execute sv1) d1 (err, status, sv2) d2 ->
  err <> ESP_OK /\ legacy_kept pw d2 /\ accepts (factory_password salt) (co_active (sv_snapshot sv1)).
Proof.
  intros Hpw Hs Hl Hc Hb Hn Hm.
  destruct (wpc_returns _ _ _ _ _ _ (bootstrap_wpc salt cache sv d v Hs) Hb) as (_ & Hl1 & Hc1 & Hok).
  destruct (Hok eq_refl) as (_ & v' & att' & Hs' & Ha). cbn [fst snd] in *.
  pose proof (stands_for_active _ _ _ _ Hs') as Hv'. apply Forall_inv in Ha.
  rewrite Hv' in *. rewrite Hl in Hl1.
  pose proof (migration_rejects_wpc pw sv1 d1 v' att' Hpw Hs' Hl1 (proj1 Ha) Hn) as Hw.
  destruct (wpc_returns _ _ _ _ _ _ Hw Hm) as [He Hk]. split; [exact He|]. split; [|exact Ha].
  unfold legacy_kept. congruence.
Qed.

(** ** Provisioning *)

Lemma printable_cstring (s t : bytes) :
  forallb (fun c => negb ((c <? 32) || (126 <? c))) s = true -> cstring (s ++ 0 :: t) = s.
Proof.
  induction s as [|c s IH]; cbn; [done|]. rewrite andb_true_iff. intros [Hc Hs]. b2p.
  assert ((c =? 0) = false) as -> by lia. by rewrite IH.
Qed.

Lemma ap_valid_spec value : argus_security_provisioning_ap_valid value = true ->
  exists s, value = Some s /\ forallb (fun c => negb ((c <? 32) || (126 <? c))) s = true.
Proof.
  unfold argus_security_provisioning_ap_valid. destruct value as [s|]; [|done]. rewrite andb_true_iff. intros [_ H]. eauto.
Qed.

Lemma provision_submits core fap aap record p g :
  argus_security_store_provision_initial core fap aap record = Submit p g ->
  store_provisioned (co_active core) = false /\
  sp_factory_ap p = first_secret (sp_factory_ap (co_active core)) fap /\
  sp_active_ap p = first_secret (sp_active_ap (co_active core)) aap /\
  sp_console_verifier_provisioned p <> 0 /\ sp_console_verifier p = record.
Proof.
  unfold argus_security_store_provision_initial. destruct (_ || _); [done|].
  destruct (_ || _) eqn:Hp; [done|]. intros [= <- _]. b2p. unfold store_provisioned.
  repeat match goal with E : _ = 0 |- _ => rewrite E; clear E end. done.
Qed.

(** The strings of a provisioned payload. *)
Definition provisioned_as (request : argus_security_provisioning_request_t) (p : argus_security_payload_t) : Prop :=
  accepts (default [] (pr_console_password request)) p /\
  Some (cstring (ap_value (sp_factory_ap p))) = pr_factory_ap request /\
  Some (cstring (ap_value (sp_active_ap p))) = pr_active_ap request.

Lemma provisioning_wpc request sv d v : stands_for sv d v [] ->
  wpc (argus_security_provisioning_execute request sv)
    (fun r d' => (pv_accepted r.1 = true <-> pv_error r.1 = ESP_OK) /\
       (pv_accepted r.1 = true -> provisioning_request_valid request = true /\ store_provisioned v = false /\
          exists p, stands_for r.2 d' p [] /\ provisioned_as request p))
    (fun _ => True) d.
Proof.
  intros Hs. pose proof (stands_for_active _ _ _ _ Hs) as Hv. unfold argus_security_provisioning_execute.
  destruct (provisioning_request_valid request) eqn:Hreq; cbn [negb]; [|done].
  assert (Hap : exists fap aap, pr_factory_ap request = Some fap /\ pr_active_ap request = Some aap /\
    forallb (fun c => negb ((c <? 32) || (126 <? c))) fap = true /\
    forallb (fun c => negb ((c <? 32) || (126 <? c))) aap = true).
  { unfold provisioning_request_valid in Hreq. rewrite !andb_true_iff in Hreq.
    destruct Hreq as [[[[[[_ _] H1] H2] _] _] _].
    apply ap_valid_spec in H1 as (fap & ? & ?), H2 as (aap & ? & ?). by exists fap, aap. }
  destruct Hap as (fap & aap & Hf & Ha & Hpf & Hpa). rewrite Hf, Ha. cbn [from_option id].
  assert (Hbad : forall a b e sv' d', is_ok e = false ->
    (pv_accepted (refused a b e, sv').1 = true <-> pv_error (refused a b e, sv').1 = ESP_OK) /\
    (pv_accepted (refused a b e, sv').1 = true -> true = true /\ store_provisioned v = false /\
       exists p, stands_for (refused a b e, sv').2 d' p [] /\ provisioned_as request p)).
  { intros a b e sv' d' He. cbn. split; [|done]. split; [done|]. intros ->. done. }
  prog_simpl. apply wpc_pure; [done|done|]. intros [err record] [_ Hc].
  destruct (is_ok err) eqn:He; cbn [negb]; [|split; [done|by apply Hbad]].
  apply is_ok_true in He. subst err. apply created_accepts in Hc as [_ Hver].
  apply wpc_bind. eapply wpc_mono; [| |exact (store_update_wpc _ _ _ _ _ Hs)]; cbv beta; [|done].
  intros [err sv'] d' [_ Hr]. cbn [fst snd] in *.
  destruct (is_ok err) eqn:He; cbn [negb]; [|split; [done|by apply Hbad]].
  destruct (argus_security_store_provision_initial (sv_snapshot sv) fap aap record) as [e'|p g] eqn:Esub.
  { exfalso. cbn in Hr. destruct Hr as [-> _]. unfold argus_security_store_provision_initial in Esub.
    destruct (_ || _); [by injection Esub as <-|]. destruct (_ || _); [by injection Esub as <-|done]. }
  apply provision_submits in Esub as (Hun & Efa & Eaa & Hprov & Ever). rewrite Hv in *.
  pose proof (stands_for_active _ _ _ _ Hr) as Hp.
  assert (Hdone : provisioned_as request p).
  { split; [split; [done|by rewrite Ever]|]. rewrite Efa, Eaa, Hf, Ha. unfold first_secret, copy_secret. cbn [ap_value].
    by rewrite !printable_cstring. }
  destruct (get_verifier sv') as [e|readback] eqn:Hg.
  { rewrite (get_verifier_error _ _ Hg). split; [done|by apply Hbad]. }
  prog_simpl. apply wpc_pure; [done|done|]. intros [err' matched] _.
  destruct (negb (is_ok err') || negb matched) eqn:Hm.
  { split; [done|]. apply Hbad. by destruct (is_ok err') eqn:?. }
  destruct (negb (store_provisioned (co_active (sv_snapshot sv')))) eqn:Hsp.
  - split; [done|by apply Hbad].
  - split; [done|]. split; [done|]. intros _. split; [done|]. split; [done|]. by exists p.
Qed.

(** An accepted provisioning means what it says: the request was valid, nothing was
    provisioned before, and the store, on flash with nothing left to undo it, holds both
    access-point passphrases of the request and a verifier that accepts its password; every
    other outcome carries an error. *)
Theorem provisioning_sound request sv d v result sv' d' :
  stands_for sv d v [] -> returns (argus_security_provisioning_execute request sv) d (result, sv') d' ->
  (pv_accepted result = true <-> pv_error result = ESP_OK) /\
  (pv_accepted result = true -> provisioning_request_valid request = true /\ store_provisioned v = false /\
     exists p, stands_for sv' d' p [] /\ provisioned_as request p).
Proof. intros Hs Hr. exact (wpc_returns _ _ _ _ _ _ (provisioning_wpc request sv d v Hs) Hr). Qed.

End Credentials.

(** ** Instances *)

(** One-byte stand-ins for the hash functions. *)
Definition tiny_hmac (key message : bytes) : bytes := [(foldl Z.add (foldl Z.add 7 key) message) mod 256].
Definition tiny_sha256 (message : bytes) : bytes := seqZ (foldl Z.add 0 message) 32.
Definition demo_mac : bytes := [36; 10; 196; 1; 2; 3].

#[local] Instance demo_storage : Storage device_op device := device_storage tiny_hmac tiny_sha256 demo_mac.

Definition demo_sv : store_service := StoreService demo_store demo_store.
Definition old_password : bytes := str "trailer seven".
Definition old_device : device :=
  Device demo_flash (LegacyNvs (Some old_password) (Some 1)) (LegacyNvs (Some old_password) (Some 1)).

Lemma demo_stands : stands_for demo_sv old_device argus_security_store_default_payload [].
Proof. refine (conj _ demo_represents). exact (eq_refl demo_store). Qed.

(** What a run returns, by its parts. *)
Lemma run_parts {A B C} (p : prog device_op (A * B * C)) d :
  returns p d ((run p d).1.1.1, (run p d).1.1.2, (run p d).1.2) (run p d).2.
Proof. pose proof (run_returns p d) as H. by destruct (run p d) as [[[a b] c] d']. Qed.

Definition migrated := run (argus_security_migration_execute demo_sv) old_device.

Lemma legacy_password_never_lost_witness :
  dv_committed migrated.2 = LegacyNvs None None /\ accepts tiny_hmac old_password (co_active (sv_snapshot migrated.1.2)).
Proof.
  refine (proj2 (proj2 (proj2 (legacy_password_never_lost tiny_hmac tiny_sha256 demo_mac old_password demo_sv old_device
    argus_security_store_default_payload ltac:(by vm_compute) demo_stands eq_refl eq_refl)
    migrated.1.1.1 migrated.1.1.2 migrated.1.2 migrated.2
    (run_parts (argus_security_migration_execute demo_sv) old_device))) _).
  by vm_compute.
Defined.

Definition bench_salt : bytes := str "bench".
Definition bootstrapped := run (argus_factory_credential_bootstrap bench_salt argus_factory_credential_refresh demo_sv) old_device.

Lemma bootstrap_preempts_migration_witness :
  let later := run (argus_security_migration_execute bootstrapped.1.2) bootstrapped.2 in
  later.1.1.1 <> ESP_OK /\ legacy_kept old_password later.2.
Proof.
  intros later.
  assert (Hb : returns (argus_factory_credential_bootstrap bench_salt argus_factory_credential_refresh demo_sv) old_device
    (ESP_OK, bootstrapped.1.1.2, bootstrapped.1.2) bootstrapped.2).
  { assert (E : ESP_OK = bootstrapped.1.1.1) by (by vm_compute). rewrite E.
    exact (run_parts (argus_factory_credential_bootstrap bench_salt argus_factory_credential_refresh demo_sv) old_device). }
  destruct (bootstrap_preempts_migration tiny_hmac tiny_sha256 demo_mac old_password bench_salt
    argus_factory_credential_refresh demo_sv old_device argus_security_store_default_payload
    bootstrapped.1.1.2 bootstrapped.1.2 bootstrapped.2
    later.1.1.1 later.1.1.2 later.1.2 later.2
    ltac:(by vm_compute) demo_stands eq_refl eq_refl Hb ltac:(by vm_compute)
    (run_parts (argus_security_migration_execute bootstrapped.1.2) bootstrapped.2)) as (H1 & H2 & _).
  split; [exact H1|exact H2].
Defined.

Lemma factory_bootstrap_sound_witness :
  accepts tiny_hmac (factory_password tiny_sha256 demo_mac bench_salt) (co_active (sv_snapshot bootstrapped.1.2)).
Proof.
  refine (proj1 (proj2 (factory_bootstrap_sound tiny_hmac tiny_sha256 demo_mac bench_salt
    argus_factory_credential_refresh demo_sv old_device argus_security_store_default_payload demo_stands)
    bootstrapped.1.1.2 bootstrapped.1.2 bootstrapped.2 _)).
  assert (E : ESP_OK = bootstrapped.1.1.1) by (by vm_compute). rewrite E.
  exact (run_parts (argus_factory_credential_bootstrap bench_salt argus_factory_credential_refresh demo_sv) old_device).
Defined.

Definition demo_provisioning : argus_security_provisioning_request_t :=
  ProvisioningRequest 1 (Some (str "factory secret")) (Some (str "active secret")) (Some old_password) 10000 true.
Definition provisioned_run := run (argus_security_provisioning_execute demo_provisioning demo_sv) old_device.

Lemma run_pair {A B} (p : prog device_op (A * B)) d : returns p d ((run p d).1.1, (run p d).1.2) (run p d).2.
Proof. pose proof (run_returns p d) as H. by destruct (run p d) as [[a b] d']. Qed.

Lemma provisioning_sound_witness :
  exists p, stands_for provisioned_run.1.2 provisioned_run.2 p [] /\ provisioned_as tiny_hmac demo_provisioning p.
Proof.
  refine (proj2 (proj2 (proj2 (provisioning_sound tiny_hmac tiny_sha256 demo_mac demo_provisioning demo_sv old_device
    argus_security_store_default_payload provisioned_run.1.1 provisioned_run.1.2 provisioned_run.2 demo_stands
    (run_pair (argus_security_provisioning_execute demo_provisioning demo_sv) old_device)) _))).
  by vm_compute.
Defined.
