(* ===== verification/AuditLog.v ===== *)
(** * The security audit log

    [src/main/argus_security_audit.c]: a log of at most 255 records in a partition of NVS,
    kept in 256 slots so that the slot written next is never part of the log; a queue and
    a task through which records are appended; the two-phase record of a privileged
    mutation; and the pages the portal reads.

    Flash is what NVS reads and what is certainly stored; between a set and its commit each
    key may be old or new, and so after a power cut.

    - [audit_log_refines]: the log is a bounded list that survives power cuts;
    - [page_exact]: a page that reports no gap is the slice of the log it stands for;
    - [unfinished_mutation_blocks]: after a failed final record no mutation may begin. *)

From S2P Require Import Prelude Storage.

Definition ARGUS_AUDIT_CAPACITY : Z := 255.
Definition ARGUS_AUDIT_TEXT_MAX : nat := 36.
Definition ARGUS_AUDIT_PAGE_MAX : Z := 16.
Definition ARGUS_AUDIT_ACTION_MAX : nat := 20.
Definition AUDIT_SCHEMA : Z := 1.
Definition AUDIT_PHYSICAL_SLOTS : Z := 256.
Definition AUDIT_QUEUE_LENGTH : nat := 8.

Definition ARGUS_AUDIT_LOGIN_SUCCESS : Z := 1.
Definition ARGUS_AUDIT_AP_SECRET_CHANGED : Z := 10.
Definition ARGUS_AUDIT_RECOVERY_EXIT : Z := 11.
Definition ARGUS_AUDIT_STORAGE_FAILURE : Z := 13.
Definition ARGUS_AUDIT_MQTT_POLICY_REJECTED : Z := 22.

Definition ARGUS_AUDIT_OUTCOME_SUCCESS : Z := 1.
Definition ARGUS_AUDIT_OUTCOME_REJECTED : Z := 2.
Definition ARGUS_AUDIT_OUTCOME_FAILED : Z := 3.
Definition ARGUS_AUDIT_OUTCOME_PREPARED : Z := 4.

Record argus_security_audit_record_t := AuditRecord {
  ar_schema_version : Z;
  ar_event_type : Z;
  ar_outcome : Z;
  ar_principal_type : Z;
  ar_lifecycle_id : Z;
  ar_sequence : Z;
  ar_boot_id : Z;
  ar_uptime_us : Z;
  ar_security_epoch : Z;
  ar_actor : bytes;
  ar_target : bytes;
  ar_source : bytes;
  ar_reason : bytes;
  ar_crc32 : Z
}.
#[export] Instance eta_audit_record : Eta argus_security_audit_record_t := fun r =>
  AuditRecord (ar_schema_version r) (ar_event_type r) (ar_outcome r) (ar_principal_type r) (ar_lifecycle_id r)
    (ar_sequence r) (ar_boot_id r) (ar_uptime_us r) (ar_security_epoch r) (ar_actor r) (ar_target r) (ar_source r)
    (ar_reason r) (ar_crc32 r).

Record audit_meta_t := AuditMeta {
  mt_schema_version : Z;
  mt_reserved : Z;
  mt_count : Z;
  mt_oldest_slot : Z;
  mt_spare_slot : Z;
  mt_overwritten : Z;
  mt_next_sequence : Z;
  mt_crc32 : Z
}.
#[export] Instance eta_audit_meta : Eta audit_meta_t := fun m =>
  AuditMeta (mt_schema_version m) (mt_reserved m) (mt_count m) (mt_oldest_slot m) (mt_spare_slot m)
    (mt_overwritten m) (mt_next_sequence m) (mt_crc32 m).

(** The structures as the compiler lays them out, the padding being zero. *)
Definition meta_bytes (m : audit_meta_t) : bytes :=
  le 2 (mt_schema_version m) ++ le 2 (mt_reserved m) ++ le 4 (mt_count m) ++ le 4 (mt_oldest_slot m)
  ++ le 4 (mt_spare_slot m) ++ le 4 (mt_overwritten m) ++ replicate 4 0 ++ le 8 (mt_next_sequence m)
  ++ le 4 (mt_crc32 m) ++ replicate 4 0.

Definition record_bytes (r : argus_security_audit_record_t) : bytes :=
  le 2 (ar_schema_version r) ++ le 2 (ar_event_type r) ++ le 1 (ar_outcome r) ++ le 1 (ar_principal_type r)
  ++ le 2 (ar_lifecycle_id r) ++ le 8 (ar_sequence r) ++ le 8 (ar_boot_id r) ++ le 8 (ar_uptime_us r)
  ++ le 4 (ar_security_epoch r) ++ chars 37 (ar_actor r) ++ chars 37 (ar_target r) ++ chars 16 (ar_source r)
  ++ chars 37 (ar_reason r) ++ [0] ++ le 4 (ar_crc32 r).

Definition META_SIZE : Z := 40.
Definition RECORD_SIZE : Z := 168.

Definition meta_crc (m : audit_meta_t) : Z := crc32_bytes (meta_bytes (m <| mt_crc32 := 0 |>)).
Definition record_crc (r : argus_security_audit_record_t) : Z := crc32_bytes (record_bytes (r <| ar_crc32 := 0 |>)).

Definition safe_text (value : bytes) (capacity : nat) : bool :=
  (length value <? capacity)%nat && forallb (fun c => negb ((c <? 32) || (126 <? c))) value.

(** ** The partition *)

(** The blobs under the key [meta] and under [record_key] of each slot, with their lengths. *)
Record audit_store := AuditStore {
  st_meta : option (Z * audit_meta_t);
  st_records : gmap Z (Z * argus_security_audit_record_t)
}.

(** What NVS reads, and what is stored. *)
Record audit_flash := AuditFlash { au_view : audit_store; au_saved : audit_store }.

Definition put_record (slot : Z) (r : argus_security_audit_record_t) (s : audit_store) : audit_store :=
  AuditStore (st_meta s) (<[slot := (RECORD_SIZE, r)]> (st_records s)).
Definition put_meta (m : audit_meta_t) (s : audit_store) : audit_store :=
  AuditStore (Some (META_SIZE, m)) (st_records s).

(** Every key of [s'] is as in [s] or as in [v]. *)
Definition between (s v s' : audit_store) : Prop :=
  (st_meta s' = st_meta s \/ st_meta s' = st_meta v) /\
  forall slot, st_records s' !! slot = st_records s !! slot \/ st_records s' !! slot = st_records v !! slot.

Inductive audit_op : Type -> Type :=
| OpenAudit (writable : bool) : audit_op esp_err_t
| GetMeta : audit_op (esp_err_t + Z * audit_meta_t)
| SetMeta (m : audit_meta_t) : audit_op esp_err_t
| GetRecord (slot : Z) : audit_op (esp_err_t + Z * argus_security_audit_record_t)
| SetRecord (slot : Z) (r : argus_security_audit_record_t) : audit_op esp_err_t
| CommitAudit : audit_op esp_err_t.

(** A set that is done, or not: it may have taken place all the same. *)
Definition set_outcome (put : audit_store -> audit_store) (f : audit_flash) (err : esp_err_t) (f' : audit_flash) : Prop :=
  (au_view f' = put (au_view f) \/ (err <> ESP_OK /\ au_view f' = au_view f)) /\
  between (au_saved f) (au_view f') (au_saved f').

Definition audit_outcome {X} (e : audit_op X) (f : audit_flash) : X -> audit_flash -> Prop :=
  match e with
  | OpenAudit _ => fun err f' => f' = f
  | GetMeta => fun r f' => f' = f /\ read_outcome (st_meta (au_view f)) r
  | SetMeta m => fun err f' => set_outcome (put_meta m) f err f'
  | GetRecord slot => fun r f' => f' = f /\ read_outcome (st_records (au_view f) !! slot) r
  | SetRecord slot r => fun err f' => set_outcome (put_record slot r) f err f'
  | CommitAudit => fun err f' => au_view f' = au_view f /\
      (err = ESP_OK -> au_saved f' = au_view f) /\ between (au_saved f) (au_view f) (au_saved f')
  end.

(** The power is cut inside an operation; what was read before is gone. *)
Definition audit_torn {X} (e : audit_op X) (f f' : audit_flash) : Prop :=
  match e with
  | SetMeta m => between (au_saved f) (au_view f) (au_saved f') \/ between (au_saved f) (put_meta m (au_view f)) (au_saved f')
  | SetRecord slot r =>
      between (au_saved f) (au_view f) (au_saved f') \/ between (au_saved f) (put_record slot r (au_view f)) (au_saved f')
  | CommitAudit => between (au_saved f) (au_view f) (au_saved f')
  | _ => f' = f
  end.

Definition audit_perform {X} (e : audit_op X) (f : audit_flash) : X * audit_flash :=
  match e with
  | OpenAudit _ => (ESP_OK, f)
  | GetMeta => (read_value (st_meta (au_view f)), f)
  | SetMeta m => (ESP_OK, AuditFlash (put_meta m (au_view f)) (au_saved f))
  | GetRecord slot => (read_value (st_records (au_view f) !! slot), f)
  | SetRecord slot r => (ESP_OK, AuditFlash (put_record slot r (au_view f)) (au_saved f))
  | CommitAudit => (ESP_OK, AuditFlash (au_view f) (au_view f))
  end.

Lemma between_old s v : between s v s.
Proof. by split; [left|left]. Qed.

Lemma between_new s v : between s v v.
Proof. by split; [right|right]. Qed.

Lemma audit_perform_outcome {X} (e : audit_op X) f :
  audit_outcome e f (audit_perform e f).1 (audit_perform e f).2.
Proof.
  destruct e; cbn; try (split; [done|apply read_value_outcome]); try done.
  - split; [by left|apply between_old].
  - split; [by left|apply between_old].
  - split; [done|]. split; [done|apply between_new].
Qed.

#[export] Instance audit_storage : Storage audit_op audit_flash := {|
  outcome X := audit_outcome;
  torn X := audit_torn;
  perform X := audit_perform;
  perform_outcome X := audit_perform_outcome
|}.

(** ** Appending *)

(** The statics: [s_meta], [s_boot_id], [s_available], [s_finalization_degraded], and the
    records in [s_queue], the oldest first. *)
Record audit_state := AuditState {
  al_meta : audit_meta_t;
  al_boot_id : Z;
  al_available : bool;
  al_finalization_degraded : bool;
  al_queue : list argus_security_audit_record_t
}.
#[export] Instance eta_audit_state : Eta audit_state := fun s =>
  AuditState (al_meta s) (al_boot_id s) (al_available s) (al_finalization_degraded s) (al_queue s).

Definition write_record_and_meta (slot : Z) (record : argus_security_audit_record_t) (next : audit_meta_t)
    : prog audit_op esp_err_t :=
  err ← call (OpenAudit true);
  if negb (is_ok err) then mret err
  else
    err ← call (SetRecord slot record);
    if negb (is_ok err) then mret err
    else
      err ← call CommitAudit;
      if negb (is_ok err) then mret err
      else
        err ← call (SetMeta next);
        if negb (is_ok err) then mret err else call CommitAudit.

(** The identifier of a mutation, from the sequence number of its first record. *)
Definition lifecycle_of (sequence : Z) : Z :=
  let folded := Z.lxor (Z.lxor (Z.lxor sequence (Z.shiftr sequence 16)) (Z.shiftr sequence 32)) (Z.shiftr sequence 48) in
  if u16 folded =? 0 then 1 else u16 folded.

(** The record as it is stored. *)
Definition completed (s : audit_state) (uptime : Z) (record : argus_security_audit_record_t)
    : argus_security_audit_record_t :=
  let sequence := mt_next_sequence (al_meta s) in
  let record := record <| ar_schema_version := AUDIT_SCHEMA |> <| ar_sequence := sequence |> in
  let record := if (ar_outcome record =? ARGUS_AUDIT_OUTCOME_PREPARED) && (ar_lifecycle_id record =? 0)
                then record <| ar_lifecycle_id := lifecycle_of sequence |> else record in
  let record := record <| ar_boot_id := al_boot_id s |> <| ar_uptime_us := u64 uptime |> in
  record <| ar_crc32 := record_crc record |>.

(** With its checksum. *)
Definition seal (m : audit_meta_t) : audit_meta_t := m <| mt_crc32 := meta_crc m |>.

Definition advanced (m : audit_meta_t) : audit_meta_t :=
  let target := mt_spare_slot m in
  let next :=
    if mt_count m <? ARGUS_AUDIT_CAPACITY then
      m <| mt_count ::= fun n => u32 (n + 1) |> <| mt_spare_slot := (target + 1) mod AUDIT_PHYSICAL_SLOTS |>
    else
      m <| mt_oldest_slot := (mt_oldest_slot m + 1) mod AUDIT_PHYSICAL_SLOTS |>
        <| mt_spare_slot := mt_oldest_slot m |>
        <| mt_overwritten ::= fun n => u32 (n + 1) |> in
  next <| mt_next_sequence ::= fun n => if u64 (n + 1) =? 0 then 1 else u64 (n + 1) |>.

Definition next_meta (m : audit_meta_t) : audit_meta_t := seal (advanced m).

Definition append_locked (s : audit_state) (uptime : Z) (record : argus_security_audit_record_t)
    : prog audit_op (esp_err_t * argus_security_audit_record_t * audit_state) :=
  let record := completed s uptime record in
  let next := next_meta (al_meta s) in
  err ← write_record_and_meta (mt_spare_slot (al_meta s)) record next;
  mret (err, record, if is_ok err then s <| al_meta := next |> else s).

(** [audit_task]: the oldest request of the queue. *)
Definition audit_task (s : audit_state) (uptime : Z)
    : prog audit_op (esp_err_t * argus_security_audit_record_t * audit_state) :=
  match al_queue s with
  | [] => mret (ESP_ERR_INVALID_STATE, AuditRecord 0 0 0 0 0 0 0 0 0 [] [] [] [] 0, s)
  | record :: rest =>
      let s := s <| al_queue := rest |> in
      if al_available s then append_locked s uptime record else mret (ESP_ERR_INVALID_STATE, record, s)
  end.

(** The task serves [n] requests after the first [pending] ones; the answer is the last's. *)
Fixpoint serve (n : nat) (s : audit_state) (uptime : Z)
    : prog audit_op (esp_err_t * argus_security_audit_record_t * audit_state) :=
  match n with
  | O => audit_task s uptime
  | S n => r ← audit_task s uptime; serve n r.2 uptime
  end.

(** [calloc], the creation of the semaphore. *)
Record audit_resources := AuditResources { rs_request : bool; rs_semaphore : bool; rs_uptime : Z }.

(** A required record is answered when the task has served what was queued before it and
    itself; any other stays in the queue. *)
Definition append_record (rs : audit_resources) (s : audit_state) (type outcome principal_type lifecycle_id : Z)
    (actor target source reason : bytes) (security_epoch : Z) (required : bool)
    : prog audit_op (esp_err_t * option argus_security_audit_record_t * audit_state) :=
  if negb (al_available s) || (type <? ARGUS_AUDIT_LOGIN_SUCCESS) || (ARGUS_AUDIT_MQTT_POLICY_REJECTED <? type)
     || (outcome <? ARGUS_AUDIT_OUTCOME_SUCCESS) || (ARGUS_AUDIT_OUTCOME_PREPARED <? outcome)
     || negb (safe_text actor (S ARGUS_AUDIT_TEXT_MAX)) || negb (safe_text target (S ARGUS_AUDIT_TEXT_MAX))
     || negb (safe_text source 16) || negb (safe_text reason (S ARGUS_AUDIT_TEXT_MAX))
  then mret (ESP_ERR_INVALID_ARG, None, s)
  else if negb (rs_request rs) || ((required : bool) && negb (rs_semaphore rs)) then mret (ESP_ERR_NO_MEM, None, s)
  else
    let record := AuditRecord 0 (u16 type) (u8 outcome) principal_type lifecycle_id 0 0 0 security_epoch
                    (strlcpy actor 37) (strlcpy target 37) (strlcpy source 16) (strlcpy reason 37) 0 in
    let pending := length (al_queue s) in
    if (AUDIT_QUEUE_LENGTH <=? pending)%nat then mret (ESP_ERR_NO_MEM, None, s)
    else
      let s := s <| al_queue := al_queue s ++ [record] |> in
      if negb required then mret (ESP_OK, None, s)
      else
        r ← serve pending s (rs_uptime rs);
        let '(result, written, s) := r in
        mret (result, if is_ok result then Some written else None, s).

Definition argus_security_audit_append (rs : audit_resources) (s : audit_state) (type outcome principal_type : Z)
    (actor target source reason : bytes) (security_epoch : Z) (required : bool)
    : prog audit_op (esp_err_t * audit_state) :=
  r ← append_record rs s type outcome principal_type 0 actor target source reason security_epoch required;
  mret (r.1.1, r.2).

(** ** Mutations *)

Record argus_security_audit_mutation_t := AuditMutation {
  mu_event_type : Z;
  mu_principal_type : Z;
  mu_lifecycle_id : Z;
  mu_security_epoch : Z;
  mu_actor : bytes;
  mu_target : bytes;
  mu_source : bytes;
  mu_action : bytes
}.

(** [None] where the mutation was not written. *)
Definition argus_security_audit_mutation_begin (rs : audit_resources) (s : audit_state) (type principal_type : Z)
    (actor target source action : bytes) (security_epoch : Z)
    : prog audit_op (esp_err_t * option argus_security_audit_mutation_t * audit_state) :=
  if negb (safe_text action (S ARGUS_AUDIT_ACTION_MAX)) || (length action =? 0)%nat || al_finalization_degraded s
  then mret (ESP_ERR_INVALID_STATE, None, s)
  else
    let reason := action ++ str "_prepared" in
    if (S ARGUS_AUDIT_TEXT_MAX <=? length reason)%nat then mret (ESP_ERR_INVALID_ARG, None, s)
    else
      r ← append_record rs s type ARGUS_AUDIT_OUTCOME_PREPARED principal_type 0 actor target source reason
            security_epoch true;
      let '(err, written, s) := r in
      mret (err,
            match written with
            | Some written =>
                Some (AuditMutation type principal_type (ar_lifecycle_id written) security_epoch
                        (strlcpy actor 37) (strlcpy target 37) (strlcpy source 16) (strlcpy action 21))
            | None => None
            end, s).

Definition argus_security_audit_mutation_finish (rs : audit_resources) (s : audit_state)
    (mutation : option argus_security_audit_mutation_t) (succeeded : bool) : prog audit_op (esp_err_t * audit_state) :=
  match mutation with
  | None => mret (ESP_ERR_INVALID_ARG, s)
  | Some mutation =>
      let reason := mu_action mutation ++ str (if succeeded then "_succeeded" else "_failed") in
      if (mu_lifecycle_id mutation =? 0) || (S ARGUS_AUDIT_TEXT_MAX <=? length reason)%nat
      then mret (ESP_ERR_INVALID_ARG, s)
      else
        r ← append_record rs s (mu_event_type mutation)
              (if succeeded then ARGUS_AUDIT_OUTCOME_SUCCESS else ARGUS_AUDIT_OUTCOME_FAILED)
              (mu_principal_type mutation) (mu_lifecycle_id mutation) (mu_actor mutation) (mu_target mutation)
              (mu_source mutation) reason (mu_security_epoch mutation) true;
        let '(err, _, s) := r in
        mret (err, if negb (is_ok err) then s <| al_finalization_degraded := true |> else s)
  end.

(** ** Reading *)

Definition read_slot_locked (m : audit_meta_t) (offset_from_oldest : Z)
    : prog audit_op (esp_err_t + argus_security_audit_record_t) :=
  let slot := (mt_oldest_slot m + offset_from_oldest) mod AUDIT_PHYSICAL_SLOTS in
  err ← call (OpenAudit false);
  if negb (is_ok err) then mret (inl err)
  else
    r ← call (GetRecord slot);
    mret (match r with
          | inl e => inl e
          | inr (len, r) =>
              if negb (len =? RECORD_SIZE) then inl ESP_ERR_INVALID_SIZE
              else if negb (ar_schema_version r =? AUDIT_SCHEMA) then inl ESP_ERR_INVALID_VERSION
              else if negb (ar_crc32 r =? record_crc r) then inl ESP_ERR_INVALID_CRC else inr r
          end).

Record argus_security_audit_status_t := AuditStatus {
  ss_next_sequence : Z;
  ss_count : Z;
  ss_overwritten : Z;
  ss_available : bool;
  ss_finalization_degraded : bool
}.

Definition argus_security_audit_get_status (s : audit_state) : argus_security_audit_status_t :=
  AuditStatus (mt_next_sequence (al_meta s)) (mt_count (al_meta s)) (mt_overwritten (al_meta s))
    (al_available s) (al_finalization_degraded s).

Definition argus_security_audit_read (s : audit_state) (offset_from_oldest : Z)
    : prog audit_op (esp_err_t + argus_security_audit_record_t) :=
  if negb (al_available s) || (mt_count (al_meta s) <=? offset_from_oldest) then mret (inl ESP_ERR_NOT_FOUND)
  else read_slot_locked (al_meta s) offset_from_oldest.

(** The count of the page is the length of [pg_records]. *)
Record argus_security_audit_page_t := AuditPage {
  pg_records : list argus_security_audit_record_t;
  pg_next_before : Z;
  pg_has_more : bool;
  pg_corruption_gap : bool
}.
#[export] Instance eta_audit_page : Eta argus_security_audit_page_t := fun p =>
  AuditPage (pg_records p) (pg_next_before p) (pg_has_more p) (pg_corruption_gap p).

(** The loop, [n] records to go, the newest of them first. *)
Fixpoint page_loop (m : audit_meta_t) (boundary limit : Z) (n : nat) (out : argus_security_audit_page_t)
    : prog audit_op argus_security_audit_page_t :=
  match n with
  | O => mret out
  | S n =>
      r ← read_slot_locked m (Z.of_nat n);
      match r with
      | inl _ => page_loop m boundary limit n (out <| pg_corruption_gap := true |>)
      | inr record =>
          if boundary <=? ar_sequence record then page_loop m boundary limit n out
          else if Z.of_nat (length (pg_records out)) <? limit then
            page_loop m boundary limit n
              (out <| pg_records := pg_records out ++ [record] |> <| pg_next_before := ar_sequence record |>)
          else mret (out <| pg_has_more := true |>)
      end
  end.

Definition argus_security_audit_read_page (s : audit_state) (before_sequence limit : Z)
    : prog audit_op (esp_err_t * argus_security_audit_page_t) :=
  let out := AuditPage [] 0 false false in
  if (limit =? 0) || (ARGUS_AUDIT_PAGE_MAX <? limit) then mret (ESP_ERR_INVALID_ARG, out)
  else
    let next := mt_next_sequence (al_meta s) in
    if negb (al_available s) || (negb (before_sequence =? 0) && (next <? before_sequence)) then
      mret (if next <? before_sequence then ESP_ERR_INVALID_ARG else ESP_ERR_INVALID_STATE, out)
    else
      let boundary := if before_sequence =? 0 then next else before_sequence in
      out ← page_loop (al_meta s) boundary limit (Z.to_nat (mt_count (al_meta s))) out;
      mret (ESP_OK, if negb (pg_has_more out) then out <| pg_next_before := 0 |> else out).

(** ** Starting *)

Definition meta_valid (len : Z) (m : audit_meta_t) : bool :=
  (len =? META_SIZE) && (mt_schema_version m =? AUDIT_SCHEMA) && (mt_reserved m =? 0)
  && (mt_count m <=? ARGUS_AUDIT_CAPACITY) && (mt_oldest_slot m <? AUDIT_PHYSICAL_SLOTS)
  && (mt_spare_slot m <? AUDIT_PHYSICAL_SLOTS) && negb (mt_next_sequence m =? 0) && (mt_crc32 m =? meta_crc m).

Definition fresh_meta : audit_meta_t :=
  seal (AuditMeta AUDIT_SCHEMA 0 0 0 0 0 1 0).

(** The partition, the mutex, the queue and the task; [boot_id] is the first random value
    that is not zero. *)
Definition argus_security_audit_init (partition : esp_err_t) (mutex queue task : bool) (boot_id : Z)
    : prog audit_op (esp_err_t * option audit_state) :=
  if negb (is_ok partition) then mret (partition, None)
  else if negb mutex then mret (ESP_ERR_NO_MEM, None)
  else
    err ← call (OpenAudit true);
    if negb (is_ok err) then mret (err, None)
    else
      blob ← call GetMeta;
      r ← match blob with
          | inl e =>
              if bool_decide (e = ESP_ERR_NVS_NOT_FOUND) then
                err ← call (SetMeta fresh_meta);
                err ← (if negb (is_ok err) then mret err else call CommitAudit);
                mret (err, fresh_meta)
              else mret (e, fresh_meta)
          | inr (len, m) => mret (if meta_valid len m then ESP_OK else ESP_ERR_INVALID_CRC, m)
          end;
      let '(err, m) := r in
      if negb (is_ok err) then mret (err, None)
      else if negb queue || negb task then mret (ESP_ERR_NO_MEM, None)
      else mret (ESP_OK, Some (AuditState m boot_id true false [])).

(** ** The log is a bounded list *)

(** The specification of an append: the oldest record makes room. *)
Definition push (log : list argus_security_audit_record_t) (r : argus_security_audit_record_t)
    : list argus_security_audit_record_t :=
  (if Z.of_nat (length log) <? ARGUS_AUDIT_CAPACITY then log else tail log) ++ [r].

Definition record_ok (r : argus_security_audit_record_t) : Prop :=
  ar_schema_version r = AUDIT_SCHEMA /\ ar_crc32 r = record_crc r.

Definition slot_of (m : audit_meta_t) (i : Z) : Z := (mt_oldest_slot m + i) mod AUDIT_PHYSICAL_SLOTS.

(** The slots of [m] in [st] hold the log. *)
Definition holds (m : audit_meta_t) (st : audit_store) (log : list argus_security_audit_record_t) : Prop :=
  forall i r, log !! i = Some r -> st_records st !! slot_of m (Z.of_nat i) = Some (RECORD_SIZE, r).

Record meta_wf (m : audit_meta_t) (log : list argus_security_audit_record_t) : Prop := {
  mw_valid : meta_valid META_SIZE m = true;
  mw_count : mt_count m = Z.of_nat (length log);
  mw_oldest : 0 <= mt_oldest_slot m < AUDIT_PHYSICAL_SLOTS;
  mw_spare : mt_spare_slot m = slot_of m (mt_count m);
  mw_next : is_u64 (mt_next_sequence m);
  mw_records : Forall record_ok log
}.

Lemma meta_crc_ignores a b c d e f g h h' :
  meta_crc (AuditMeta a b c d e f g h) = meta_crc (AuditMeta a b c d e f g h').
Proof.
  unfold meta_crc. change ((AuditMeta a b c d e f g h) <| mt_crc32 := 0 |>) with (AuditMeta a b c d e f g 0).
  change ((AuditMeta a b c d e f g h') <| mt_crc32 := 0 |>) with (AuditMeta a b c d e f g 0). reflexivity.
Qed.

Lemma record_crc_ignores a b c d e f g h i j k l m n :
  record_crc (AuditRecord a b c d e f g h i j k l m n)
  = record_crc ((AuditRecord a b c d e f g h i j k l m n)
      <| ar_crc32 := record_crc (AuditRecord a b c d e f g h i j k l m n) |>).
Proof.
  set (x := record_crc (AuditRecord a b c d e f g h i j k l m n)) at 2. clearbody x. unfold record_crc.
  change ((AuditRecord a b c d e f g h i j k l m n) <| ar_crc32 := 0 |>) with (AuditRecord a b c d e f g h i j k l m 0).
  change (((AuditRecord a b c d e f g h i j k l m n) <| ar_crc32 := x |>) <| ar_crc32 := 0 |>)
    with (AuditRecord a b c d e f g h i j k l m 0). reflexivity.
Qed.

#[local] Opaque meta_crc record_crc.

Lemma seal_valid m : meta_valid META_SIZE (seal m) =
  (mt_schema_version m =? AUDIT_SCHEMA) && (mt_reserved m =? 0)
  && (mt_count m <=? ARGUS_AUDIT_CAPACITY) && (mt_oldest_slot m <? AUDIT_PHYSICAL_SLOTS)
  && (mt_spare_slot m <? AUDIT_PHYSICAL_SLOTS) && negb (mt_next_sequence m =? 0).
Proof.
  destruct m as [a b c d e f g h]. unfold meta_valid.
  change (seal (AuditMeta a b c d e f g h)) with (AuditMeta a b c d e f g (meta_crc (AuditMeta a b c d e f g h))).
  set (k := meta_crc (AuditMeta a b c d e f g h)).
  assert (E : meta_crc (AuditMeta a b c d e f g k) = k) by exact (meta_crc_ignores a b c d e f g k h).
  rewrite E. clearbody k.
  cbn [mt_schema_version mt_reserved mt_count mt_oldest_slot mt_spare_slot mt_next_sequence mt_crc32].
  rewrite !Z.eqb_refl, andb_true_r. reflexivity.
Qed.

Lemma push_length log r : Z.of_nat (length log) <= ARGUS_AUDIT_CAPACITY ->
  Z.of_nat (length (push log r)) = Z.min ARGUS_AUDIT_CAPACITY (Z.of_nat (length log) + 1).
Proof.
  unfold push, ARGUS_AUDIT_CAPACITY. intros H. rewrite length_app. cbn [length].
  destruct (Z.ltb_spec (Z.of_nat (length log)) 255); [lia|]. destruct log; cbn [tail length] in *; lia.
Qed.

Lemma advanced_next m : mt_next_sequence (advanced m) =
  if u64 (mt_next_sequence m + 1) =? 0 then 1 else u64 (mt_next_sequence m + 1).
Proof. unfold advanced. cbv zeta. by destruct (mt_count m <? ARGUS_AUDIT_CAPACITY). Qed.

Lemma next_meta_wf m log r : meta_wf m log -> record_ok r -> meta_wf (next_meta m) (push log r).
Proof.
  intros [Hv Hc Ho Hs Hn Hr] Hok. unfold meta_valid in Hv. b2p.
  assert (Hl : Z.of_nat (length log) <= ARGUS_AUDIT_CAPACITY) by (rewrite <- Hc; done).
  pose proof (push_length log r Hl) as Hp. unfold ARGUS_AUDIT_CAPACITY, AUDIT_PHYSICAL_SLOTS, slot_of in *.
  assert (Hf : Forall record_ok (push log r)).
  { unfold push. apply Forall_app. split; [|by constructor]. destruct (_ <? _); [done|].
    destruct Hr as [|r0 l0 _ Hl0]; [constructor|exact Hl0]. }
  assert (Hcu : (mt_count m <? 255) = true -> u32 (mt_count m + 1) = mt_count m + 1).
  { intros Hlt. apply Z.ltb_lt in Hlt. apply u32_small. unfold is_u32. rewrite Hc in *. lia. }
  assert (Hq : mt_next_sequence (advanced m) <> 0 /\ is_u64 (mt_next_sequence (advanced m))).
  { rewrite advanced_next. pose proof (u64_range (mt_next_sequence m + 1)) as Hu.
    destruct (Z.eqb_spec (u64 (mt_next_sequence m + 1)) 0); [split; [done|unfold is_u64; lia]|done]. }
  destruct Hq as [Hq0 Hq]. unfold next_meta.
  assert (Hadv : mt_schema_version (advanced m) = AUDIT_SCHEMA /\ mt_reserved (advanced m) = 0 /\
    mt_count (advanced m) = Z.min 255 (mt_count m + 1) /\
    0 <= mt_oldest_slot (advanced m) < 256 /\
    mt_spare_slot (advanced m) = (mt_oldest_slot (advanced m) + mt_count (advanced m)) mod 256).
  { unfold advanced, ARGUS_AUDIT_CAPACITY, AUDIT_PHYSICAL_SLOTS. cbv zeta. destruct (mt_count m <? 255) eqn:Hlt;
      cbn [mt_schema_version mt_reserved mt_count mt_oldest_slot mt_spare_slot update].
    - rewrite (Hcu eq_refl), Hs. split; [done|]. split; [done|]. split; [lia|]. split; [done|].
      rewrite Z.add_mod_idemp_l by lia. f_equal. lia.
    - split; [done|]. split; [done|]. split; [lia|]. split; [apply Z.mod_pos_bound; lia|].
      assert (mt_count m = 255) as -> by lia. rewrite Z.add_mod_idemp_l by lia.
      replace (mt_oldest_slot m + 1 + 255) with (mt_oldest_slot m + 1 * 256) by lia.
      rewrite Z.mod_add by lia. symmetry. apply Z.mod_small. lia. }
  destruct Hadv as (Ha1 & Ha2 & Ha3 & Ha4 & Ha5). split; [rewrite seal_valid| | | | |done].
  - unfold ARGUS_AUDIT_CAPACITY, AUDIT_PHYSICAL_SLOTS.
    rewrite !andb_true_iff, negb_true_iff, !Z.eqb_eq, Z.leb_le, !Z.ltb_lt, Z.eqb_neq.
    assert (0 <= mt_spare_slot (advanced m) < 256) by (rewrite Ha5; apply Z.mod_pos_bound; lia).
    repeat split; try assumption; lia.
  - change (mt_count (seal (advanced m))) with (mt_count (advanced m)). lia.
  - exact Ha4.
  - exact Ha5.
  - exact Hq.
Qed.

(** The record in the spare slot completes the next log. *)
Lemma next_meta_holds m st log r : meta_wf m log -> holds m st log ->
  st_records st !! mt_spare_slot m = Some (RECORD_SIZE, r) -> holds (next_meta m) st (push log r).
Proof.
  intros [Hv Hc Ho Hs _ _] Hh Hr. unfold meta_valid in Hv. b2p.
  unfold holds, push, slot_of, next_meta, ARGUS_AUDIT_CAPACITY, AUDIT_PHYSICAL_SLOTS in *. rewrite <- Hc.
  change (mt_oldest_slot (seal (advanced m))) with (mt_oldest_slot (advanced m)).
  unfold advanced, ARGUS_AUDIT_CAPACITY, AUDIT_PHYSICAL_SLOTS. cbv zeta.
  intros i r' Hi. destruct (mt_count m <? 255) eqn:Hlt; cbn [mt_oldest_slot update].
  - apply lookup_app_Some in Hi as [Hi|[Hge Hi]]; [by apply Hh|].
    destruct (decide (i = length log)) as [->|]; [|apply lookup_lt_Some in Hi; cbn in Hi; lia].
    rewrite Nat.sub_diag in Hi. cbn in Hi. injection Hi as <-. rewrite <- Hr, Hs, Hc. done.
  - assert (Hlen : length log = 255%nat) by lia. destruct log as [|r0 log]; [done|]. cbn [tail length] in *.
    rewrite Z.add_mod_idemp_l by lia.
    apply lookup_app_Some in Hi as [Hi|[Hge Hi]].
    + rewrite <- (Hh (S i) r' Hi). f_equal. f_equal. lia.
    + destruct (decide (i = length log)) as [->|]; [|apply lookup_lt_Some in Hi; cbn in Hi; lia].
      rewrite Nat.sub_diag in Hi. cbn in Hi. injection Hi as <-. rewrite <- Hr, Hs, Hc. f_equal. f_equal. lia.
Qed.

(** Writing the spare slot leaves the log alone. *)
Lemma spare_free m log i : meta_wf m log -> (i < length log)%nat -> slot_of m (Z.of_nat i) <> mt_spare_slot m.
Proof.
  intros [Hv Hc Ho Hs _ _] Hi. unfold meta_valid in Hv. b2p. rewrite Hs, Hc. unfold slot_of.
  unfold ARGUS_AUDIT_CAPACITY, AUDIT_PHYSICAL_SLOTS in *. Z.to_euclidean_division_equations. lia.
Qed.

Definition spare_in (m : audit_meta_t) (st : audit_store) (rs : list argus_security_audit_record_t) : Prop :=
  exists r, r ∈ rs /\ st_records st !! mt_spare_slot m = Some (RECORD_SIZE, r).

Definition meta_in (m : audit_meta_t) (st : audit_store) : Prop :=
  st_meta st = Some (META_SIZE, m) \/ st_meta st = Some (META_SIZE, next_meta m).

(** The log in memory and on flash: both copies have the slots of [m]; the stored header
    may be the next one if the spare slot has a record whose append failed. *)
Record rep (m : audit_meta_t) (f : audit_flash) (log att : list argus_security_audit_record_t) : Prop := {
  rp_wf : meta_wf m log;
  rp_view : holds m (au_view f) log;
  rp_saved : holds m (au_saved f) log;
  rp_att : Forall record_ok att;
  rp_metas :
    (st_meta (au_view f) = Some (META_SIZE, m) /\ st_meta (au_saved f) = Some (META_SIZE, m)) \/
    (meta_in m (au_view f) /\ meta_in m (au_saved f) /\ spare_in m (au_view f) att /\ spare_in m (au_saved f) att)
}.

Definition rebooted (f : audit_flash) : audit_flash := AuditFlash (au_saved f) (au_saved f).

(** After a power cut the log on flash is one of [logs]. *)
Definition reboots_to (f : audit_flash) (logs : list (list argus_security_audit_record_t)) : Prop :=
  exists m log, log ∈ logs /\ rep m (rebooted f) log [].

Lemma rep_single m st log : meta_wf m log -> holds m st log -> st_meta st = Some (META_SIZE, m) ->
  rep m (AuditFlash st st) log [].
Proof. intros Hw Hh Hm. split; try done. by left. Qed.

Lemma rep_reboots m f log att : rep m f log att -> reboots_to f (log :: (push log <$> att)).
Proof.
  intros [Hw _ Hs Ha Hm].
  assert (Hc : st_meta (au_saved f) = Some (META_SIZE, m) \/
    (st_meta (au_saved f) = Some (META_SIZE, next_meta m) /\ spare_in m (au_saved f) att))
    by (destruct Hm as [[_ Hm]|(_ & [Hm|Hm] & _ & Hr)]; auto).
  destruct Hc as [Hc|[Hc (r & Hin & Hr)]].
  - exists m, log. split; [by left|]. by apply rep_single.
  - exists (next_meta m), (push log r). split; [right; apply list_elem_of_fmap; eauto|].
    apply rep_single; [|by apply next_meta_holds|done]. apply next_meta_wf; [done|].
    rewrite Forall_forall in Ha. by apply Ha.
Qed.

Lemma between_holds m s v s' log : between s v s' -> holds m s log -> holds m v log -> holds m s' log.
Proof. intros [_ Hb] Hs Hv i r Hi. destruct (Hb (slot_of m (Z.of_nat i))) as [->| ->]; eauto. Qed.

Lemma between_spare m s v s' rs : between s v s' -> spare_in m s rs -> spare_in m v rs -> spare_in m s' rs.
Proof.
  intros [_ Hb] (r & Hr & Es) (r' & Hr' & Ev). destruct (Hb (mt_spare_slot m)) as [E|E].
  - exists r. by rewrite E.
  - exists r'. by rewrite E.
Qed.

Lemma between_meta m s v s' : between s v s' -> meta_in m s -> meta_in m v -> meta_in m s'.
Proof. intros [[E|E] _]; unfold meta_in; by rewrite E. Qed.

Lemma rep_between m f log att s' : rep m f log att -> between (au_saved f) (au_view f) s' ->
  rep m (AuditFlash (au_view f) s') log att.
Proof.
  intros [Hw Hv Hs Ha Hm] Hb. split; cbn [au_view au_saved]; try done; [by eapply between_holds|].
  destruct Hm as [[Hm1 Hm2]|(Hm1 & Hm2 & Hr1 & Hr2)].
  - left. split; [done|]. destruct Hb as [[E|E] _]; congruence.
  - right. split; [done|]. split; [by eapply between_meta|]. split; [done|]. by eapply between_spare.
Qed.

Lemma rep_more m f log att r : record_ok r -> rep m f log att -> rep m f log (r :: att).
Proof.
  intros Hr [Hw Hv Hs Ha Hm]. split; try done; [by constructor|]. destruct Hm as [?|(? & ? & H1 & H2)]; [by left|].
  right. destruct H1 as (r1 & ? & ?), H2 as (r2 & ? & ?). split; [done|]. split; [done|].
  split; [exists r1|exists r2]; (split; [by right|done]).
Qed.

Lemma rep_put_record m f log att r : record_ok r -> rep m f log att ->
  rep m (AuditFlash (put_record (mt_spare_slot m) r (au_view f)) (au_saved f)) log (r :: att).
Proof.
  intros Hr Hrep. apply (rep_more _ _ _ _ r Hr) in Hrep. destruct Hrep as [Hw Hv Hs Ha Hm].
  split; cbn [au_view au_saved]; try done.
  - intros i r' Hi. cbn [put_record st_records]. rewrite lookup_insert_ne; [by apply Hv|].
    apply not_eq_sym. eapply spare_free; [done|]. by eapply lookup_lt_Some.
  - destruct Hm as [[? ?]|(? & ? & H1 & H2)]; [by left|]. right. split; [done|]. split; [done|]. split; [|done].
    exists r. split; [by left|]. cbn. by rewrite lookup_insert_eq.
Qed.

Lemma rep_put_meta m f log att : rep m f log att -> spare_in m (au_view f) att -> spare_in m (au_saved f) att ->
  rep m (AuditFlash (put_meta (next_meta m) (au_view f)) (au_saved f)) log att.
Proof.
  intros [Hw Hv Hs Ha Hm] H1 H2. split; cbn [au_view au_saved]; try done. right.
  split; [by right|]. split; [|done]. destruct Hm as [[_ ?]|(_ & ? & _)]; [by left|done].
Qed.

(** A set: the outcomes keep what the two copies of the updated flash have. *)
Lemma set_outcome_rep put m f log att err f' :
  rep m f log att -> rep m (AuditFlash (put (au_view f)) (au_saved f)) log att ->
  set_outcome put f err f' -> rep m f' log att.
Proof.
  intros H0 H1 [Hv Hb]. destruct f' as [v' s']. cbn [au_view au_saved] in *. destruct Hv as [->|[_ ->]].
  - exact (rep_between _ _ _ _ _ H1 Hb).
  - exact (rep_between _ _ _ _ _ H0 Hb).
Qed.

Lemma write_wpc m f log att r : rep m f log att -> record_ok r ->
  wpc (write_record_and_meta (mt_spare_slot m) r (next_meta m))
    (fun err f' => if is_ok err then rep (next_meta m) f' (push log r) [] else rep m f' log (r :: att))
    (fun f' => reboots_to f' (log :: (push log <$> (r :: att)))) f.
Proof.
  intros Hrep Hr. set (logs := log :: (push log <$> (r :: att))).
  assert (Hsafe : forall f', rep m f' log (r :: att) -> reboots_to f' logs) by (intros f'; apply rep_reboots).
  assert (Hfail : forall err f', is_ok err = false -> rep m f' log (r :: att) ->
    wpc (Ret err) (fun err f' => if is_ok err then rep (next_meta m) f' (push log r) [] else rep m f' log (r :: att))
      (fun f' => reboots_to f' logs) f').
  { intros err f' He Hf. split; [by apply Hsafe|]. by rewrite He. }
  pose proof (rep_more _ _ _ _ r Hr Hrep) as Hrep'.
  assert (Hcut : forall f0 s', rep m f0 log (r :: att) -> between (au_saved f0) (au_view f0) s' ->
    forall f', au_saved f' = s' -> reboots_to f' logs).
  { intros f0 s' Hf0 Hb f' E. destruct (rep_reboots _ _ _ _ (rep_between _ _ _ _ _ Hf0 Hb)) as (m' & log' & Hin & Hr').
    exists m', log'. split; [done|]. unfold rebooted in *. cbn [au_saved] in Hr'. by rewrite E. }
  unfold write_record_and_meta. prog_simpl.
  split; [by apply Hsafe|]. split; [intros f' ->; by apply Hsafe|]. intros err f1 ->.
  destruct (is_ok err) eqn:He; cbn [negb]; [|by apply Hfail]. clear err He.
  pose proof (rep_put_record m f log att r Hr Hrep) as Hput.
  split; [by apply Hsafe|]. split.
  { intros f' [Hb|Hb]; [exact (Hcut f _ Hrep' Hb f' eq_refl)|exact (Hcut _ _ Hput Hb f' eq_refl)]. }
  intros err f1 Ho. pose proof (set_outcome_rep _ _ _ _ _ _ _ Hrep' Hput Ho) as H1.
  destruct (is_ok err) eqn:He; cbn [negb]; [|by apply Hfail].
  assert (Hv1 : spare_in m (au_view f1) (r :: att)).
  { destruct Ho as [[Ev|[Hne _]] _]; [|by apply is_ok_true in He]. exists r. split; [by left|].
    rewrite Ev. cbn. by rewrite lookup_insert_eq. }
  assert (Hr1 : st_records (au_view f1) !! mt_spare_slot m = Some (RECORD_SIZE, r)).
  { destruct Ho as [[Ev|[Hne _]] _]; [|by apply is_ok_true in He]. rewrite Ev. cbn. by rewrite lookup_insert_eq. }
  clear err He Ho. split; [by apply Hsafe|]. split; [intros f' Hb; exact (Hcut f1 _ H1 Hb f' eq_refl)|].
  intros err f2 (Ev & Hok & Hb). pose proof (rep_between _ _ _ _ _ H1 Hb) as H2.
  assert (E2 : f2 = AuditFlash (au_view f1) (au_saved f2)) by (destruct f2; cbn in *; congruence).
  rewrite <- E2 in H2. destruct (is_ok err) eqn:He; cbn [negb]; [|by apply Hfail].
  apply is_ok_true in He. specialize (Hok He). clear err He E2 Hb.
  assert (Hs2 : spare_in m (au_view f2) (r :: att) /\ spare_in m (au_saved f2) (r :: att)) by (rewrite Ev, Hok; done).
  destruct Hs2 as [Hs2v Hs2s]. pose proof (rep_put_meta m f2 log (r :: att) H2 Hs2v Hs2s) as Hput2.
  split; [by apply Hsafe|]. split.
  { intros f' [Hb|Hb]; [exact (Hcut f2 _ H2 Hb f' eq_refl)|exact (Hcut _ _ Hput2 Hb f' eq_refl)]. }
  intros err f3 Ho. pose proof (set_outcome_rep _ _ _ _ _ _ _ H2 Hput2 Ho) as H3.
  destruct (is_ok err) eqn:He; cbn [negb]; [|by apply Hfail].
  assert (Hv3 : au_view f3 = put_meta (next_meta m) (au_view f2))
    by (destruct Ho as [[E|[Hne _]] _]; [done|by apply is_ok_true in He]).
  clear err He Ho. split; [by apply Hsafe|]. split; [intros f' Hb; exact (Hcut f3 _ H3 Hb f' eq_refl)|].
  intros err f4 (Ev4 & Hok4 & Hb4). pose proof (rep_between _ _ _ _ _ H3 Hb4) as H4.
  assert (E4 : f4 = AuditFlash (au_view f3) (au_saved f4)) by (destruct f4; cbn in *; congruence).
  rewrite <- E4 in H4. destruct (is_ok err) eqn:He; [|by apply Hfail; rewrite ?He].
  apply is_ok_true in He. specialize (Hok4 He). subst err. split; [by apply Hsafe|]. cbn [is_ok].
  assert (E5 : f4 = AuditFlash (au_view f3) (au_view f3)) by (destruct f4; cbn in *; congruence).
  rewrite E5. apply rep_single.
  - apply next_meta_wf; [exact (rp_wf _ _ _ _ Hrep)|done].
  - apply next_meta_holds; [exact (rp_wf _ _ _ _ Hrep)|exact (rp_view _ _ _ _ H3)|]. rewrite Hv3, Ev. exact Hr1.
  - by rewrite Hv3.
Qed.

Lemma completed_ok s uptime record : record_ok (completed s uptime record).
Proof.
  unfold completed, record_ok. cbv zeta.
  set (r := (if _ : bool then _ else _) <| ar_boot_id := _ |> <| ar_uptime_us := _ |>).
  assert (Hv : ar_schema_version r = AUDIT_SCHEMA) by (subst r; by destruct (_ && _)).
  clearbody r. split; [exact Hv|]. destruct r. exact (record_crc_ignores _ _ _ _ _ _ _ _ _ _ _ _ _ _).
Qed.

Lemma init_reads m f log : rep m (rebooted f) log [] -> forall boot_id,
  run (argus_security_audit_init ESP_OK true true true boot_id) (rebooted f)
  = ((ESP_OK, Some (AuditState m boot_id true false [])), rebooted f).
Proof.
  intros [Hw _ _ _ Hm] boot_id.
  assert (E : st_meta (au_saved f) = Some (META_SIZE, m)).
  { destruct Hm as [[Hm _]|(_ & _ & (r & Hin & _) & _)]; [done|by apply not_elem_of_nil in Hin]. }
  unfold argus_security_audit_init. cbn [is_ok negb]. prog_simpl. cbn [run perform audit_storage audit_perform].
  cbn [is_ok negb prog_bind run perform audit_storage audit_perform rebooted au_view]. rewrite E.
  cbn [read_value prog_bind]. rewrite (mw_valid _ _ Hw). reflexivity.
Qed.

Lemma append_wpc s uptime record f log att : rep (al_meta s) f log att ->
  wpc (append_locked s uptime record)
    (fun r f' => r.1.2 = completed s uptime record /\
       if is_ok r.1.1 then rep (al_meta r.2) f' (push log (completed s uptime record)) []
       else r.2 = s /\ rep (al_meta r.2) f' log (completed s uptime record :: att))
    (fun f' => reboots_to f' (log :: (push log <$> (completed s uptime record :: att)))) f.
Proof.
  intros Hrep. unfold append_locked. cbv zeta. apply wpc_bind.
  eapply wpc_mono; [| |exact (write_wpc _ _ _ _ _ Hrep (completed_ok s uptime record))]; cbv beta; [|done].
  intros err f' Hf. destruct (is_ok err) eqn:He.
  - split; [|cbn [fst snd]; rewrite He; split; [done|]; exact Hf].
    destruct (rep_reboots _ _ _ _ Hf) as (m' & log' & Hin & Hr). exists m', log'. split; [|done].
    apply list_elem_of_singleton in Hin. subst log'. right. by left.
  - split; [exact (rep_reboots _ _ _ _ Hf)|]. cbn [fst snd]. rewrite He. done.
Qed.

(** C36: The audit log is a list of at most 255 records that survives power cuts: an append
    that reports success has added its completed record, the oldest making room when the
    list is full; one that fails leaves list and memory as they were; and wherever the
    power is cut the next start finds a valid log, the old one, or the old one with the
    interrupted record or one whose append had failed, added. *)
Theorem audit_log_refines s uptime record f log att :
  rep (al_meta s) f log att ->
  (forall err r s' f', returns (append_locked s uptime record) f (err, r, s') f' ->
     r = completed s uptime record /\
     if is_ok err then rep (al_meta s') f' (push log r) [] else s' = s /\ rep (al_meta s') f' log (r :: att)) /\
  (forall f' boot_id, power_cut (append_locked s uptime record) f f' ->
     exists s' f'' log',
       run (argus_security_audit_init ESP_OK true true true boot_id) (rebooted f') = ((ESP_OK, Some s'), f'') /\
       rep (al_meta s') f'' log' [] /\ log' ∈ log :: (push log <$> completed s uptime record :: att)).
Proof.
  intros Hrep. pose proof (append_wpc s uptime record f log att Hrep) as Hw. split.
  - intros err r s' f' Hr. destruct (wpc_returns _ _ _ _ _ _ Hw Hr) as [Hrc Hp]. cbn [fst snd] in *. by subst r.
  - intros f' boot_id Hc. destruct (wpc_power_cut _ _ _ _ _ Hw Hc) as (m' & log' & Hin & Hr').
    exists (AuditState m' boot_id true false []), (rebooted f'), log'. split; [exact (init_reads m' f' log' Hr' boot_id)|]. done.
Qed.

(** ** Pages *)

(** The records before [boundary], the newest first. *)
Definition visible (boundary : Z) (log : list argus_security_audit_record_t) : list argus_security_audit_record_t :=
  List.filter (fun r => ar_sequence r <? boundary) (reverse log).

Lemma visible_snoc boundary log r : visible boundary (log ++ [r]) =
  if ar_sequence r <? boundary then r :: visible boundary log else visible boundary log.
Proof. unfold visible. by rewrite reverse_snoc. Qed.

(** A slot of the log is read, or the read fails. *)
Lemma read_slot_wpc m f log n r : meta_wf m log -> holds m (au_view f) log -> log !! n = Some r ->
  wpc (read_slot_locked m (Z.of_nat n)) (fun x f' => f' = f /\ forall r', x = inr r' -> r' = r) (fun f' => f' = f) f.
Proof.
  intros Hw Hh Hn. unfold read_slot_locked. prog_simpl. split; [done|]. split; [by intros f' ->|].
  intros err f' ->. destruct (is_ok err); cbn [negb]; [|done].
  split; [done|]. split; [by intros f' ->|]. intros x f' [-> Hx]. split; [done|]. split; [done|].
  destruct x as [e|[len r']]; [done|]. cbn in Hx. pose proof (Hh n r Hn) as Hr. unfold slot_of in Hr.
  rewrite Hr in Hx. injection Hx as <- <-. destruct (negb _); [done|]. destruct (negb _); [done|].
  destruct (negb _); [done|]. by intros ? [= <-].
Qed.

(** What the rest of the loop adds to a page. *)
Definition page_after (boundary limit : Z) (log : list argus_security_audit_record_t) (out : argus_security_audit_page_t)
    : argus_security_audit_page_t :=
  let room := (Z.to_nat limit - length (pg_records out))%nat in
  let more := visible boundary log in
  AuditPage (pg_records out ++ take room more)
    (match last (take room more) with Some r => ar_sequence r | None => pg_next_before out end)
    (pg_has_more out || (room <? length more)%nat) (pg_corruption_gap out).

Lemma page_loop_wpc m f log boundary limit n out :
  meta_wf m log -> holds m (au_view f) log -> (n <= length log)%nat ->
  Z.of_nat (length (pg_records out)) <= limit ->
  wpc (page_loop m boundary limit n out)
    (fun out' f' => f' = f /\ (pg_corruption_gap out' = false ->
       pg_corruption_gap out = false /\ out' = page_after boundary limit (take n log) out))
    (fun f' => f' = f) f.
Proof.
  intros Hw Hh. revert out. induction n as [|n IH]; intros out Hn Hl; cbn [page_loop].
  - split; [done|]. split; [done|]. intros Hg. split; [done|]. unfold page_after.
    change (visible boundary (take 0 log)) with (@nil argus_security_audit_record_t).
    rewrite take_nil, app_nil_r. cbn [length last]. destruct out as [rs nb hm g]. cbn in *. by rewrite orb_false_r.
  - destruct (lookup_lt_is_Some_2 log n) as [r Hr]; [lia|].
    rewrite (take_S_r log n r Hr). apply wpc_bind.
    eapply wpc_mono; [| |exact (read_slot_wpc m f log n r Hw Hh Hr)]; cbv beta; [|done].
    intros x f' [-> Hx]. destruct x as [e|r'].
    + eapply wpc_mono; [| |apply (IH (out <| pg_corruption_gap := true |>)); [lia|done]]; cbv beta; [|done].
      intros out' f' [-> Hp]. split; [done|]. intros Hg. by destruct (Hp Hg) as [? _].
    + rewrite (Hx r' eq_refl). unfold page_after. rewrite visible_snoc.
      destruct (Z.leb_spec boundary (ar_sequence r)) as [Hb|Hb].
      * assert ((ar_sequence r <? boundary) = false) as -> by lia.
        eapply wpc_mono; [| |apply (IH out); [lia|done]]; done.
      * assert ((ar_sequence r <? boundary) = true) as -> by lia.
        destruct (Z.ltb_spec (Z.of_nat (length (pg_records out))) limit) as [Hlt|Hge].
        -- eapply wpc_mono; [| |apply IH; [lia|]]; cbv beta; [|done|cbn; rewrite length_app; cbn; lia].
           intros out' f' [-> Hp]. split; [done|]. intros Hg. destruct (Hp Hg) as [Hg0 ->]. split; [done|].
           unfold page_after. cbn [pg_records pg_next_before pg_has_more pg_corruption_gap update].
           rewrite length_app. cbn [length].
           replace (Z.to_nat limit - length (pg_records out))%nat
             with (S (Z.to_nat limit - (length (pg_records out) + 1))) by lia.
           set (room := (Z.to_nat limit - (length (pg_records out) + 1))%nat). cbn [take length].
           rewrite <- app_assoc. cbn [app]. f_equal.
           rewrite last_cons. by destruct (last _).
        -- split; [done|]. split; [done|]. cbn [pg_corruption_gap update]. intros Hg. split; [done|].
           assert ((Z.to_nat limit - length (pg_records out))%nat = 0%nat) as -> by lia.
           destruct out as [rs nb hm g]. cbn. by rewrite app_nil_r, orb_true_r.
Qed.

(** A page of the audit log that reports no gap is exact: it has the newest [limit]
    records before the cursor, newest first, says whether there are older ones, and its
    cursor is the sequence number of its last record; reading never changes the log. *)
Theorem page_exact s f log att before_sequence limit page f' :
  rep (al_meta s) f log att -> al_available s = true -> 0 < limit <= ARGUS_AUDIT_PAGE_MAX ->
  0 <= before_sequence <= mt_next_sequence (al_meta s) ->
  returns (argus_security_audit_read_page s before_sequence limit) f (ESP_OK, page) f' ->
  f' = f /\
  (pg_corruption_gap page = false ->
   let boundary := if before_sequence =? 0 then mt_next_sequence (al_meta s) else before_sequence in
   pg_records page = take (Z.to_nat limit) (visible boundary log) /\
   pg_has_more page = (limit <? Z.of_nat (length (visible boundary log))) /\
   pg_next_before page =
     match last (pg_records page) with Some r => if pg_has_more page then ar_sequence r else 0 | None => 0 end).
Proof.
  intros Hrep Hav Hl Hb Hret. set (boundary := if before_sequence =? 0 then _ else _).
  assert (Hw : wpc (argus_security_audit_read_page s before_sequence limit)
    (fun r f' => f' = f /\ (r.1 = ESP_OK -> pg_corruption_gap r.2 = false ->
       exists out, out = page_after boundary limit log (AuditPage [] 0 false false) /\
         r.2 = if negb (pg_has_more out) then out <| pg_next_before := 0 |> else out)) (fun _ => True) f).
  { unfold argus_security_audit_read_page. cbv zeta. unfold ARGUS_AUDIT_PAGE_MAX in *.
    assert ((limit =? 0) || (16 <? limit) = false) as -> by lia. rewrite Hav. cbn [negb orb].
    assert ((mt_next_sequence (al_meta s) <? before_sequence) = false) as -> by lia.
    rewrite andb_false_r. fold boundary. apply wpc_bind.
    eapply wpc_mono; [| |apply (page_loop_wpc _ f log boundary limit _ (AuditPage [] 0 false false)
      (rp_wf _ _ _ _ Hrep) (rp_view _ _ _ _ Hrep))]; cbv beta; [|done| |cbn; lia].
    - intros out g [-> Hp]. split; [done|]. split; [done|]. intros _ Hg. cbn [snd] in *.
      assert (Hg' : pg_corruption_gap out = false) by (by destruct (negb (pg_has_more out))).
      destruct (Hp Hg') as [_ E]. exists out. split; [|done]. rewrite E.
      rewrite (mw_count _ _ (rp_wf _ _ _ _ Hrep)), Nat2Z.id, firstn_all. done.
    - rewrite (mw_count _ _ (rp_wf _ _ _ _ Hrep)), Nat2Z.id. done. }
  destruct (wpc_returns _ _ _ _ _ _ Hw Hret) as [-> Hp]. split; [done|]. intros Hg.
  destruct (Hp eq_refl Hg) as (out & -> & Epage). cbn [snd] in Epage. cbv zeta.
  unfold page_after in Epage. cbn [pg_records pg_next_before pg_has_more pg_corruption_gap app length orb] in Epage.
  rewrite Nat.sub_0_r in Epage. set (v := visible boundary log) in *.
  assert (Hm : (Z.to_nat limit <? length v)%nat = (limit <? Z.of_nat (length v))).
  { destruct (Nat.ltb_spec (Z.to_nat limit) (length v)), (Z.ltb_spec limit (Z.of_nat (length v))); lia. }
  rewrite Hm in Epage. subst page.
  destruct (limit <? Z.of_nat (length v)) eqn:El; cbn [negb pg_records pg_has_more pg_next_before update];
    (split; [done|]; split; [done|]); by destruct (last _).
Qed.

(** ** Mutations *)

Lemma append_locked_always s uptime record :
  always (fun r => r.1.2 = completed s uptime record /\ al_queue r.2 = al_queue s /\
                   al_finalization_degraded r.2 = al_finalization_degraded s) (append_locked s uptime record).
Proof.
  unfold append_locked. cbv zeta. apply always_bind. eapply always_mono; [|apply always_true].
  intros err _. cbn [always mret prog_mret fst snd]. destruct (is_ok err); done.
Qed.

Lemma audit_task_always s uptime record rest : al_queue s = record :: rest ->
  always (fun r => (is_ok r.1.1 = true -> r.1.2 = completed (s <| al_queue := rest |>) uptime record) /\
                   al_queue r.2 = rest /\ al_finalization_degraded r.2 = al_finalization_degraded s) (audit_task s uptime).
Proof.
  intros Hq. unfold audit_task. rewrite Hq. cbv zeta. destruct (al_available (s <| al_queue := rest |>)).
  - eapply always_mono; [|apply append_locked_always]. cbv beta. intros r (-> & Hr & Hd). done.
  - cbn [always mret prog_mret fst snd]. done.
Qed.

(** The task answers the request that was queued last with its own record. *)
Lemma serve_always n s uptime q record : al_queue s = q ++ [record] -> length q = n ->
  always (fun r => (is_ok r.1.1 = true -> exists s', r.1.2 = completed s' uptime record) /\
                   al_finalization_degraded r.2 = al_finalization_degraded s) (serve n s uptime).
Proof.
  revert s q. induction n as [|n IH]; intros s q Hq Hn; cbn [serve].
  - destruct q; [|done]. eapply always_mono; [|exact (audit_task_always s uptime record [] Hq)]. cbv beta.
    intros r (Hr & _ & Hd). split; [|done]. eauto.
  - destruct q as [|r0 q]; [done|]. apply always_bind.
    eapply always_mono; [|exact (audit_task_always s uptime r0 (q ++ [record]) Hq)]. cbv beta.
    intros r (_ & Hr & Hd). eapply always_mono; [|apply (IH r.2 q Hr); cbn in Hn; lia]. cbv beta.
    intros r' [Hr' Hd']. split; [done|]. by rewrite Hd'.
Qed.

Lemma lifecycle_nonzero sequence : lifecycle_of sequence <> 0.
Proof. unfold lifecycle_of. cbv zeta. destruct (Z.eqb_spec (u16 (Z.lxor (Z.lxor (Z.lxor sequence (Z.shiftr sequence 16)) (Z.shiftr sequence 32)) (Z.shiftr sequence 48))) 0); done. Qed.

(** A record of the first phase carries an identifier. *)
Lemma append_record_always rs s type outcome principal_type lifecycle_id actor target source reason epoch required :
  always (fun r => al_finalization_degraded r.2 = al_finalization_degraded s /\
                   forall w, r.1.2 = Some w -> outcome = ARGUS_AUDIT_OUTCOME_PREPARED -> lifecycle_id = 0 ->
                             ar_lifecycle_id w <> 0)
    (append_record rs s type outcome principal_type lifecycle_id actor target source reason epoch required).
Proof.
  unfold append_record. destruct (_ || _); [done|]. destruct (_ || _); [done|]. cbv zeta.
  destruct (_ <=? _)%nat; [done|]. destruct required; cbn [negb]; [|done].
  set (record := AuditRecord _ _ _ _ _ _ _ _ _ _ _ _ _ _). apply always_bind.
  eapply always_mono; [|exact (serve_always _ (s <| al_queue := al_queue s ++ [record] |>) _ (al_queue s) record eq_refl eq_refl)].
  cbv beta. intros [[result written] s'] [Hw Hd]. cbn [always mret prog_mret fst snd] in *. split; [done|].
  intros w Hsome -> ->. destruct (is_ok result); [|done]. injection Hsome as <-. destruct (Hw eq_refl) as [s0 ->].
  unfold completed. subst record. cbn [ar_outcome ar_lifecycle_id update u8]. apply lifecycle_nonzero.
Qed.

(** The calls of the module, with whatever answers of the flash. *)
Inductive audit_call : audit_state -> audit_state -> Prop :=
| call_append rs s ty oc pt ac ta so re ep rq r :
    possible (argus_security_audit_append rs s ty oc pt ac ta so re ep rq) r -> audit_call s r.2
| call_begin rs s ty pt ac ta so an ep r :
    possible (argus_security_audit_mutation_begin rs s ty pt ac ta so an ep) r -> audit_call s r.2
| call_finish rs s mu ok r :
    possible (argus_security_audit_mutation_finish rs s mu ok) r -> audit_call s r.2
| call_task s uptime r : al_queue s <> [] -> possible (audit_task s uptime) r -> audit_call s r.2.

Lemma degraded_stays s s' : audit_call s s' -> al_finalization_degraded s = true -> al_finalization_degraded s' = true.
Proof.
  intros Hc Hd.
  assert (Happ : forall rs ty oc pt li ac ta so re ep rq, always (fun r => al_finalization_degraded r.2 = true)
    (append_record rs s ty oc pt li ac ta so re ep rq)).
  { intros. eapply always_mono; [|apply append_record_always]. cbv beta. by intros r [-> _]. }
  destruct Hc as [rs s ty oc pt ac ta so re ep rq r Hp|rs s ty pt ac ta so an ep r Hp|rs s mu ok r Hp|s uptime r Hq Hp];
    refine (always_possible (fun r => al_finalization_degraded r.2 = true) _ r _ Hp).
  - unfold argus_security_audit_append. apply always_bind. eapply always_mono; [|apply Happ]. done.
  - unfold argus_security_audit_mutation_begin. rewrite Hd, orb_true_r. done.
  - unfold argus_security_audit_mutation_finish. destruct mu as [mu|]; [|done]. cbv zeta.
    destruct (_ || _); [done|]. apply always_bind. eapply always_mono; [|apply Happ]. cbv beta.
    intros [[e w] s'] Hs'. cbn [always mret prog_mret fst snd] in *. by destruct (negb (is_ok e)).
  - destruct (al_queue s) as [|r0 rest] eqn:E; [done|].
    eapply always_mono; [|exact (audit_task_always s uptime r0 rest E)]. cbv beta. by intros r' (_ & _ & ->).
Qed.

(** A privileged change whose final record could not be written blocks the next ones:
    if the second phase of a begun mutation fails, then until a restart, whatever is
    appended, begun, finished or served in between, every attempt to begin a mutation is
    refused before anything is written. *)
Theorem unfinished_mutation_blocks rs0 s0 ty pt ac ta so an ep mutation s0' rs s succeeded err s1 s2 rs2 ty2 pt2 ac2 ta2 so2 an2 ep2 :
  possible (argus_security_audit_mutation_begin rs0 s0 ty pt ac ta so an ep) (ESP_OK, Some mutation, s0') ->
  possible (argus_security_audit_mutation_finish rs s (Some mutation) succeeded) (err, s1) -> err <> ESP_OK ->
  rtc audit_call s1 s2 ->
  argus_security_audit_mutation_begin rs2 s2 ty2 pt2 ac2 ta2 so2 an2 ep2 = Ret (ESP_ERR_INVALID_STATE, None, s2).
Proof.
  intros Hbegin Hfinish Herr Hcalls.
  assert (Hm : mu_lifecycle_id mutation <> 0 /\ (length (mu_action mutation) <= ARGUS_AUDIT_ACTION_MAX)%nat).
  { refine (always_possible (fun r => forall m, r.1.2 = Some m ->
      mu_lifecycle_id m <> 0 /\ (length (mu_action m) <= ARGUS_AUDIT_ACTION_MAX)%nat) _ _ _ Hbegin mutation eq_refl).
    unfold argus_security_audit_mutation_begin. destruct (_ || _); [done|]. cbv zeta. destruct (_ <=? _)%nat; [done|].
    apply always_bind. eapply always_mono; [|apply append_record_always]. cbv beta.
    intros [[e [w|]] s'] [_ Hw]; cbn [always mret prog_mret fst snd] in *; [|done]. intros m [= <-].
    split; [by apply (Hw w)|]. cbn [mu_action]. apply strlcpy_length. }
  destruct Hm as [Hl Ha].
  assert (Hd : al_finalization_degraded s1 = true).
  { refine (always_possible (fun r => r.1 <> ESP_OK -> al_finalization_degraded r.2 = true) _ (err, s1) _ Hfinish Herr).
    unfold argus_security_audit_mutation_finish. cbv zeta. apply Z.eqb_neq in Hl. rewrite Hl. cbn [orb].
    assert (Hlen : (S ARGUS_AUDIT_TEXT_MAX <=? length (mu_action mutation ++ str (if succeeded then "_succeeded" else "_failed")))%nat = false).
    { apply Nat.leb_gt. rewrite length_app. unfold ARGUS_AUDIT_ACTION_MAX, ARGUS_AUDIT_TEXT_MAX in *.
      destruct succeeded; [change (length (str "_succeeded")) with 10%nat|change (length (str "_failed")) with 7%nat]; lia. }
    rewrite Hlen. apply always_bind. eapply always_mono; [|apply always_true]. intros [[e w] s'] _.
    cbn [always mret prog_mret fst snd]. intros He. apply is_ok_false in He. by rewrite He. }
  assert (Hd2 : al_finalization_degraded s2 = true).
  { clear -Hd Hcalls. induction Hcalls as [|x y z Hc _ IH]; [done|]. apply IH. by eapply degraded_stays. }
  unfold argus_security_audit_mutation_begin. by rewrite Hd2, orb_true_r.
Qed.

(** ** Instances *)

Definition plenty : audit_resources := AuditResources true true 1000.
Definition entry (reason : bytes) : argus_security_audit_record_t :=
  AuditRecord 0 ARGUS_AUDIT_LOGIN_SUCCESS ARGUS_AUDIT_OUTCOME_SUCCESS 0 0 0 0 0 1 (str "argus") (str "portal") (str "HTTP") reason 0.

(** A log after the first start. *)
Definition fresh_flash : audit_flash := AuditFlash (AuditStore (Some (META_SIZE, fresh_meta)) ∅)
  (AuditStore (Some (META_SIZE, fresh_meta)) ∅).
Definition fresh_state : audit_state := AuditState fresh_meta 7 true false [].

Lemma fresh_rep : rep fresh_meta fresh_flash [] [].
Proof.
  apply rep_single; [|by intros i r Hi; rewrite lookup_nil in Hi|done]. split.
  - unfold fresh_meta. rewrite seal_valid. reflexivity.
  - reflexivity.
  - cbn. unfold AUDIT_PHYSICAL_SLOTS. lia.
  - reflexivity.
  - cbn. unfold is_u64. lia.
  - constructor.
Qed.

Lemma run_triple {A B C} (p : prog audit_op (A * B * C)) d :
  returns p d ((run p d).1.1.1, (run p d).1.1.2, (run p d).1.2) (run p d).2.
Proof. pose proof (run_returns p d) as H. by destruct (run p d) as [[[a b] c] d']. Qed.

Definition first_append := run (append_locked fresh_state 1000 (entry (str "login"))) fresh_flash.

Lemma audit_log_refines_witness :
  first_append.1.1.2 = completed fresh_state 1000 (entry (str "login")).
Proof.
  exact (proj1 (proj1 (audit_log_refines fresh_state 1000 (entry (str "login")) fresh_flash [] [] fresh_rep)
    first_append.1.1.1 first_append.1.1.2 first_append.1.2 first_append.2
    (run_triple (append_locked fresh_state 1000 (entry (str "login"))) fresh_flash))).
Defined.

Lemma first_append_rep : rep (al_meta first_append.1.2) first_append.2
  (push [] (completed fresh_state 1000 (entry (str "login")))) [].
Proof.
  pose proof (wpc_returns _ _ _ _ _ _ (append_wpc fresh_state 1000 (entry (str "login")) fresh_flash [] [] fresh_rep)
    (run_returns _ _)) as [_ H].
  fold first_append in H. assert (E : is_ok first_append.1.1.1 = true) by (by vm_compute). rewrite E in H. exact H.
Qed.

Definition first_page := run (argus_security_audit_read_page first_append.1.2 0 16) first_append.2.

Lemma page_exact_witness :
  pg_records first_page.1.2 =
    take 16 (visible (mt_next_sequence (al_meta first_append.1.2)) (push [] (completed fresh_state 1000 (entry (str "login"))))).
Proof.
  assert (H : returns (argus_security_audit_read_page first_append.1.2 0 16) first_append.2
    (ESP_OK, first_page.1.2) first_page.2).
  { assert (E : ESP_OK = first_page.1.1) by (by vm_compute). rewrite E.
    pose proof (run_returns (argus_security_audit_read_page first_append.1.2 0 16) first_append.2) as H.
    fold first_page in H. by rewrite (surjective_pairing first_page.1) in H. }
  refine (proj1 (proj2 (page_exact first_append.1.2 first_append.2
    (push [] (completed fresh_state 1000 (entry (str "login")))) [] 0 16 first_page.1.2 first_page.2
    first_append_rep _ _ _ H) _)).
  - by vm_compute.
  - unfold ARGUS_AUDIT_PAGE_MAX. lia.
  - split; [lia|]. by vm_compute.
  - by vm_compute.
Defined.

(** The first phase is written, the second finds no memory. *)
Definition begun := run (argus_security_audit_mutation_begin plenty fresh_state ARGUS_AUDIT_RECOVERY_EXIT 1
  (str "argus") (str "network_recovery") (str "HTTP") (str "recovery_exit") 1) fresh_flash.
Definition demo_mutation : argus_security_audit_mutation_t :=
  AuditMutation ARGUS_AUDIT_RECOVERY_EXIT 1 1 1 (str "argus") (str "network_recovery") (str "HTTP") (str "recovery_exit").
Definition no_memory : audit_resources := AuditResources false false 0.

Lemma unfinished_mutation_blocks_witness :
  argus_security_audit_mutation_begin plenty (begun.1.2 <| al_finalization_degraded := true |>)
    ARGUS_AUDIT_RECOVERY_EXIT 1 (str "argus") (str "x") (str "HTTP") (str "again") 1
  = Ret (ESP_ERR_INVALID_STATE, None, begun.1.2 <| al_finalization_degraded := true |>).
Proof.
  refine (unfinished_mutation_blocks plenty fresh_state ARGUS_AUDIT_RECOVERY_EXIT 1 (str "argus") (str "network_recovery")
    (str "HTTP") (str "recovery_exit") 1 demo_mutation begun.1.2 no_memory begun.1.2 true ESP_ERR_NO_MEM
    (begun.1.2 <| al_finalization_degraded := true |>) _ plenty ARGUS_AUDIT_RECOVERY_EXIT 1 (str "argus") (str "x")
    (str "HTTP") (str "again") 1 _ _ _ (rtc_refl _ _)).
  - pose proof (run_possible (argus_security_audit_mutation_begin plenty fresh_state ARGUS_AUDIT_RECOVERY_EXIT 1
      (str "argus") (str "network_recovery") (str "HTTP") (str "recovery_exit") 1) fresh_flash) as H.
    fold begun in H. assert (E : begun.1 = (ESP_OK, Some demo_mutation, begun.1.2)) by (by vm_compute). by rewrite E in H.
  - assert (E : al_available begun.1.2 = true) by (by vm_compute).
    cbn -[begun]. unfold append_record. rewrite E. reflexivity.
  - done.
Defined.
