(* ===== verification/MqttService.v ===== *)
(** * The application behind the broker

    The part of [src/main/argus_mqtt_runtime.c] between the broker and the protocol
    handlers of [MqttRuntime]: the callbacks the broker's tasks call, with what they write to
    the audit log; the queue to the protocol task; the documents the runtime keeps
    retained, with the conditions that are published on change only; and
    [argus_mqtt_broker_publish], through which it publishes.

    The callbacks are an interface: [argus_mqtt_broker_config_t] says what each of them may
    answer, [answers] that a connection's task was told just that, and
    [argus_mqtt_runtime_get_broker_config] is the runtime's instance. *)

From S2P Require Import Prelude CmdParser StateMgr Authority Authorization Router NetLink ServicePolicy NetManager MqttDecode MqttLease MqttWire MqttBroker MqttAdmission MqttRuntime SecurityRecords Storage MachineAuth MqttClient MqttSecurity AuditLog.

(** ** What the callbacks record *)

Definition ARGUS_AUDIT_MQTT_AUTH_SUCCESS : Z := 19.
Definition ARGUS_AUDIT_MQTT_AUTH_FAILURE : Z := 20.
Definition ARGUS_AUDIT_MQTT_AUTH_THROTTLED : Z := 21.

(** The arguments of [argus_security_audit_append]. *)
Record audit_entry := AuditEntry {
  ae_type : Z;
  ae_outcome : Z;
  ae_principal_type : argus_principal_type_t;
  ae_actor : bytes;
  ae_target : bytes;
  ae_source : bytes;
  ae_reason : bytes;
  ae_security_epoch : Z
}.

(** The two statics. *)
Record audit_clock := AuditClock {
  s_last_mqtt_policy_audit_us : Z;
  s_last_mqtt_auth_failure_audit_us : Z
}.
#[export] Instance eta_audit_clock : Eta audit_clock := fun a =>
  AuditClock (s_last_mqtt_policy_audit_us a) (s_last_mqtt_auth_failure_audit_us a).

(** A minute has passed since the last one, or there was none. *)
Definition audit_due (last_us now_us : Z) : bool := (last_us =? 0) || (60000000 <=? u64 (now_us - last_us)).

Definition interface_name (receiving_interface : Z) : bytes :=
  if receiving_interface =? ARGUS_MACHINE_INTERFACE_SOFTAP then str "SOFTAP"
  else if receiving_interface =? ARGUS_MACHINE_INTERFACE_STA then str "STA" else str "UNKNOWN".

Definition auth_event (result : argus_machine_auth_result_t) : Z :=
  match result with
  | ARGUS_MACHINE_AUTH_SUCCESS => ARGUS_AUDIT_MQTT_AUTH_SUCCESS
  | ARGUS_MACHINE_AUTH_THROTTLED | ARGUS_MACHINE_AUTH_BUSY => ARGUS_AUDIT_MQTT_AUTH_THROTTLED
  | _ => ARGUS_AUDIT_MQTT_AUTH_FAILURE
  end.

Definition auth_reason (result : argus_machine_auth_result_t) : bytes :=
  match result with
  | ARGUS_MACHINE_AUTH_SUCCESS => str "authenticated"
  | ARGUS_MACHINE_AUTH_TRANSPORT_REJECTED => str "transport_rejected"
  | ARGUS_MACHINE_AUTH_INTERFACE_REJECTED => str "interface_rejected"
  | ARGUS_MACHINE_AUTH_THROTTLED => str "throttled"
  | ARGUS_MACHINE_AUTH_BUSY => str "kdf_busy"
  | _ => str "invalid_credentials"
  end.

(** The record of an authentication: every success, and one refusal a minute. *)
Definition audit_auth (result : argus_machine_auth_result_t) (principal : argus_machine_principal_t)
    (receiving_interface now_us : Z) (a : audit_clock) : audit_clock * list audit_entry :=
  let success := bool_decide (result = ARGUS_MACHINE_AUTH_SUCCESS) in
  if success || audit_due (s_last_mqtt_auth_failure_audit_us a) now_us then
    (if success then a else a <| s_last_mqtt_auth_failure_audit_us := now_us |>,
     [AuditEntry (auth_event result)
        (if success then ARGUS_AUDIT_OUTCOME_SUCCESS else ARGUS_AUDIT_OUTCOME_REJECTED)
        (if success then ARGUS_PRINCIPAL_MACHINE else ARGUS_PRINCIPAL_NONE)
        (if success then mp_identifier principal else str "anonymous")
        (str "mqtt_connect") (interface_name receiving_interface) (auth_reason result)
        (mp_record_security_epoch principal)])
  else (a, []).

(** The record of a refusal by the policy: one a minute. *)
Definition audit_policy (target reason : bytes) (principal : argus_machine_principal_t) (now_us : Z) (a : audit_clock)
    : audit_clock * list audit_entry :=
  if audit_due (s_last_mqtt_policy_audit_us a) now_us then
    (a <| s_last_mqtt_policy_audit_us := now_us |>,
     [AuditEntry ARGUS_AUDIT_MQTT_POLICY_REJECTED ARGUS_AUDIT_OUTCOME_REJECTED ARGUS_PRINCIPAL_MACHINE
        (mp_identifier principal) target (str "MQTT") reason (mp_record_security_epoch principal)])
  else (a, []).

(** ** The callbacks *)

(** What the service of [MachineAuth] is given for one authentication. *)
Record auth_request := AuthRequest {
  aq_synthetic : argus_password_verifier_t;
  aq_directory_find : bytes -> esp_err_t * argus_security_machine_record_t * Z;
  aq_verify : bytes -> argus_password_verifier_t -> esp_err_t * bool;
  aq_meanwhile : machine_service -> machine_service;
  aq_service : machine_service;
  aq_peer_key : Z;
  aq_receiving_interface : Z;
  aq_now_us : Z
}.

Definition broker_auth_cb (q : auth_request) (request : argus_mqtt_connect_request_t) (now_us : Z) (a : audit_clock)
    : argus_machine_auth_result_t * argus_machine_principal_t * machine_service * (audit_clock * list audit_entry) :=
  let '(result, principal, service) :=
    argus_machine_service_authenticate (aq_synthetic q) (aq_directory_find q) (aq_verify q) (aq_meanwhile q) (aq_service q)
      (aq_peer_key q) (rq_client_id request) (rq_username request) (rq_password request) (aq_receiving_interface q) (aq_now_us q) in
  (result, principal, service, audit_auth result principal (aq_receiving_interface q) now_us a).

Definition broker_revalidate_cb (directory_find : bytes -> esp_err_t * argus_security_machine_record_t * Z)
    (client : argus_mqtt_broker_client_info_t) : esp_err_t :=
  argus_machine_service_revalidate directory_find (ci_principal client) (ci_receiving_interface client).

Definition broker_policy_cb (topics : argus_mqtt_topics_t) (message : argus_mqtt_broker_message_t) : esp_err_t :=
  if argus_mqtt_topics_external_publish_allowed topics (msg_topic message) (msg_payload message) (msg_retain message)
  then ESP_OK else ESP_ERR_INVALID_STATE.

Definition broker_subscribe_policy_cb (topics : argus_mqtt_topics_t) (client : argus_mqtt_broker_client_info_t) (filter : bytes)
    (now_us : Z) (a : audit_clock) : esp_err_t * (audit_clock * list audit_entry) :=
  if (Z.land (mp_permissions (ci_principal client)) ARGUS_PERMISSION_VIEW_STATUS =? 0)
     || negb (argus_mqtt_security_subscription_allowed topics (ci_principal client) filter)
  then (ESP_ERR_NOT_ALLOWED, audit_policy (str "mqtt_subscribe") (str "subscription_denied") (ci_principal client) now_us a)
  else (ESP_OK, (a, [])).

Definition broker_publish_authorize_cb (topics : argus_mqtt_topics_t) (message : argus_mqtt_broker_message_t)
    (now_us : Z) (a : audit_clock) : esp_err_t * (audit_clock * list audit_entry) :=
  if argus_mqtt_security_publish_allowed topics (msg_principal message) (msg_topic message) then (ESP_OK, (a, []))
  else (ESP_ERR_NOT_ALLOWED, audit_policy (str "mqtt_publish") (str "capability_denied") (msg_principal message) now_us a).

(** What a broker's callbacks may answer. *)
Record argus_mqtt_broker_config_t := BrokerConfig {
  bc_authenticate : argus_mqtt_connect_request_t -> argus_machine_auth_result_t * argus_machine_principal_t -> Prop;
  bc_revalidate : argus_mqtt_broker_client_info_t -> esp_err_t -> Prop;
  bc_subscribe_policy : argus_mqtt_broker_client_info_t -> bytes -> esp_err_t -> Prop;
  bc_publish_authorize : argus_mqtt_broker_message_t -> esp_err_t -> Prop;
  bc_policy_check : argus_mqtt_broker_message_t -> esp_err_t -> Prop
}.

(** The runtime's callbacks at the time of a call, when the directory holds [directory_find];
    the derivation, the service and the clock are what they are at that time. *)
Definition argus_mqtt_runtime_get_broker_config (topics : argus_mqtt_topics_t)
    (directory_find : bytes -> esp_err_t * argus_security_machine_record_t * Z) : argus_mqtt_broker_config_t := {|
  bc_authenticate request answer := exists q now_us a, (broker_auth_cb q request now_us a).1.1 = answer;
  bc_revalidate client answer := broker_revalidate_cb directory_find client = answer;
  bc_subscribe_policy client filter answer := exists now_us a, (broker_subscribe_policy_cb topics client filter now_us a).1 = answer;
  bc_publish_authorize message answer := exists now_us a, (broker_publish_authorize_cb topics message now_us a).1 = answer;
  bc_policy_check message answer := broker_policy_cb topics message = answer
|}.

(** The task was told what the callbacks of [config] answer. *)
Definition answers (config : argus_mqtt_broker_config_t) (v : client_event) : Prop :=
  match dv_call v in client_call X return X -> Prop with
  | Authenticate request => bc_authenticate config request
  | Revalidate info => bc_revalidate config info
  | SubscribePolicy info filter => bc_subscribe_policy config info filter
  | PublishAuthorize message => bc_publish_authorize config message
  | PolicyCheck message => bc_policy_check config message
  | _ => fun _ => True
  end (dv_answer v).

(** ** The queue *)

Definition ARGUS_MQTT_RUNTIME_QUEUE_DEPTH : nat := 12.

Inductive runtime_event_t :=
| RUNTIME_EVENT_MESSAGE (message : argus_mqtt_broker_message_t)
| RUNTIME_EVENT_PUBLISH_BASELINE.

(** [xQueueSend] without waiting. *)
Definition queue_send (queue : list runtime_event_t) (event : runtime_event_t) : bool * list runtime_event_t :=
  if (length queue <? ARGUS_MQTT_RUNTIME_QUEUE_DEPTH)%nat then (true, queue ++ [event]) else (false, queue).

(** A message is dropped when the queue is full. *)
Definition broker_message_cb (message : argus_mqtt_broker_message_t) (queue : list runtime_event_t) : list runtime_event_t :=
  (queue_send queue (RUNTIME_EVENT_MESSAGE message)).2.

(** [broker_client_cb] for a connected client; for a disconnected one it is
    [broker_client_disconnected] of [MqttRuntime]. *)
Definition broker_client_connected (queue : list runtime_event_t) : list runtime_event_t :=
  (queue_send queue RUNTIME_EVENT_PUBLISH_BASELINE).2.

Definition argus_mqtt_runtime_broker_started (rt : runtime_state_t) (broker_running : bool) (now_ms : Z) (queue : list runtime_event_t)
    : esp_err_t * runtime_state_t * list runtime_event_t :=
  let rt := argus_mqtt_runtime_mark_authority_ready rt now_ms in
  if negb (rn_prepared rt) || negb broker_running then (ESP_ERR_INVALID_STATE, rt, queue)
  else let '(sent, queue) := queue_send queue RUNTIME_EVENT_PUBLISH_BASELINE in
       (if sent then ESP_OK else ESP_ERR_NO_MEM, rt, queue).

Definition argus_mqtt_runtime_get_session (rt : runtime_state_t) (out_size : nat) : esp_err_t * bytes :=
  if (out_size <? 17)%nat || negb (rn_prepared rt) then (ESP_ERR_INVALID_ARG, [])
  else (ESP_OK, strlcpy (sc_session (rn_session rt)) out_size).

(** ** Publication *)

(** The publication of a topic by the firmware: what it answers, the packets it sends after
    the lock is released, and the memory it leaves. *)
Definition argus_mqtt_broker_publish (running : bool) (m : broker_memory) (topic payload : bytes) (retain : bool)
    : esp_err_t * list (Z * bytes) * broker_memory :=
  if (ARGUS_MQTT_MAX_TOPIC_LEN <=? length topic)%nat then (ESP_ERR_INVALID_SIZE, [], m)
  else if (ARGUS_MQTT_MAX_PAYLOAD_LEN <=? length payload)%nat then (ESP_ERR_INVALID_SIZE, [], m)
  else if negb running then (ESP_ERR_INVALID_STATE, [], m)
  else
    let '(retain_err, retained) :=
      if retain then argus_mqtt_store_retained_locked (bm_retained m) topic payload else (ESP_OK, bm_retained m) in
    if negb (is_ok retain_err) then (retain_err, [], m)
    else
      let sockets := argus_mqtt_collect_subscribers_locked (bm_broker m) topic ARGUS_MQTT_MAX_CLIENTS in
      (ESP_OK,
       match argus_mqtt_publish_packet topic payload retain with
       | Some packet => (fun sock => (sock, packet)) <$> sockets
       | None => []
       end,
       Memory (bm_broker m) retained).

(** The text of a number: ["%" PRId64]. *)
Definition publish_number (topic : topic_field) (value : Z) : emission :=
  Publish topic (if value <? 0 then 45 :: decimal (- value) else decimal value) true.

(** The two caches of what was published last; empty: nothing yet. *)
Record published := Published { s_last_network_fault : bytes; s_last_auth_throttle : bytes }.

(** Publishes a payload that differs from the cached one; true when it replaces another. *)
Definition publish_on_change (topic : topic_field) (payload cache : bytes) (cache_size : nat) : bool * bytes * list emission :=
  if bool_decide (take cache_size cache = take cache_size payload) && nonempty cache then (false, cache, [])
  else (nonempty cache, strlcpy payload cache_size, [Publish topic payload true]).

Definition argus_net_mgr_interface_conflict_action : bytes :=
  str "AP and station interfaces report the same IP address. AP-only access and SoftAP-scoped credentials are refused until this is corrected. Change the plant DHCP scope or the controller SoftAP subnet so they do not overlap, then reconnect.".

Definition network_fault (conflict_active : bool) : bytes := if conflict_active then str "AP_STA_ADDRESS_CONFLICT" else str "NONE".
Definition auth_throttle (throttle_active : bool) : bytes := if throttle_active then str "ACTIVE" else str "CLEAR".
Definition fault_action (conflict_active : bool) : bytes := if conflict_active then argus_net_mgr_interface_conflict_action else [].

(** [conflict_active] is of [argus_net_mgr_get_interface_conflict], [throttle_active] of
    [argus_machine_service_get_throttle_status]. *)
Definition publish_admission_conditions (conflict_active throttle_active : bool) (p : published) : published * list emission :=
  let fault := network_fault conflict_active in
  let changed := negb (bool_decide (s_last_network_fault p = fault)) in
  let '(_, last_fault, out_fault) := publish_on_change status_network_fault fault (s_last_network_fault p) 32 in
  let out_action := if changed then [Publish status_network_fault_action (fault_action conflict_active) true] else [] in
  let '(_, last_throttle, out_throttle) :=
    publish_on_change status_auth_throttle (auth_throttle throttle_active) (s_last_auth_throttle p) 16 in
  (Published last_fault last_throttle, out_fault ++ out_action ++ out_throttle).

(** What a snapshot reads. *)
Record operational := Operational {
  op_state : argus_state_snapshot_t;
  op_authority : argus_authority_snapshot_t;
  op_network : argus_net_snapshot_t;
  op_broker_running : bool;
  op_now_ms : Z;
  op_conflict_active : bool;
  op_throttle_active : bool
}.

Definition publish_operational_snapshot (rt : runtime_state_t) (o : operational) (p : published) : published * list emission :=
  let state := op_state o in
  let core := rn_session rt in
  let '(p, conditions) := publish_admission_conditions (op_conflict_active o) (op_throttle_active o) p in
  (p,
   [Publish state_online (str "true") true;
    Publish state_supervisor_link (argus_mqtt_link_name (sc_link core)) true;
    Publish state_mode (argus_state_mgr_get_state_name (ss_machine_state state)) true;
    Publish state_driver (if ss_driver_enabled state then str "ENABLED" else str "DISABLED") true;
    Publish state_direction (if ss_applied_forward state then str "FORWARD" else str "REVERSE") true;
    Publish state_estop (if ss_estop_latched state then str "LATCHED" else str "CLEAR") true;
    publish_number state_fault (ss_fault_code state);
    Publish status_wifi
      (if sn_sta_connected (op_network o) && sn_sta_ip_acquired (op_network o) then str "CONNECTED" else str "DISCONNECTED") true;
    Publish status_mqtt (if op_broker_running o then str "RUNNING" else str "STOPPED") true;
    Publish status_network_mode (argus_net_mgr_get_mode_name (sn_mode (op_network o))) true;
    Publish status_authority_mode (argus_authority_mgr_get_mode_name (as_mode (op_authority o))) true;
    Publish status_authority_owner (argus_authority_mgr_get_owner_name (as_owner (op_authority o))) true;
    publish_number status_uptime_s (op_now_ms o / 1000);
    publish_number status_last_accepted_sequence (if sc_has_sequence core then sc_last_sequence core else 0);
    publish_number telemetry_configured_target (ss_configured_target_rpm_milli state);
    publish_number telemetry_trajectory_target (ss_trajectory_target_rpm_milli state);
    publish_number telemetry_applied (ss_applied_rpm_milli state);
    publish_number telemetry_generated (ss_generated_rpm_milli state);
    publish_number telemetry_step_count (ss_generated_step_count state);
    Publish telemetry_feedback_available (if ss_feedback_available state then str "true" else str "false") true]
   ++ conditions).

(** The identity's fields a baseline carries. *)
Record baseline_identity := BaselineIdentity {
  bi_device_name : bytes;
  bi_device_model : bytes;
  bi_fw_version : bytes;
  bi_mac_uid : bytes
}.

Definition publish_baseline (identity : baseline_identity) (rt : runtime_state_t) (ob : observations) (o : operational)
    : published * list emission :=
  let '(p, snapshot) := publish_operational_snapshot rt o (Published [] []) in
  (p,
   [Publish metadata_device_name (bi_device_name identity) true;
    Publish metadata_model (bi_device_model identity) true;
    Publish metadata_firmware_version (bi_fw_version identity) true;
    Publish metadata_hardware_uid (bi_mac_uid identity) true;
    Publish status_command_session (sc_session (rn_session rt)) true]
   ++ publish_authority_state_at rt ob ++ snapshot).

(** What is retained on a topic, for a buffer of [size] bytes. *)
Definition published_condition (topics : argus_mqtt_topics_t) (m : broker_memory) (topic : topic_field) (size : nat) : bytes :=
  match argus_mqtt_broker_get_retained (bm_retained m) (tp_topic topics topic) size with
  | (ESP_OK, payload) => payload
  | _ => strlcpy (str "(not published)") size
  end.

(** The buffers of the fault, the advice and the throttle; one of no size is left alone. *)
Definition argus_mqtt_runtime_get_published_conditions (topics : argus_mqtt_topics_t) (m : broker_memory) (sizes : list nat)
    : list (option bytes) :=
  zip_with (fun topic size => if (size =? 0)%nat then None else Some (published_condition topics m topic size))
    [status_network_fault; status_network_fault_action; status_auth_throttle] sizes.

(** ** The protocol task *)

(** The answers of the three creations; true when the runtime is initialised after it. *)
Definition argus_mqtt_runtime_init (initialized mutex queue task : bool) : esp_err_t * bool :=
  if initialized then (ESP_ERR_INVALID_STATE, true)
  else if negb mutex || negb queue then (ESP_ERR_NO_MEM, false)
  else if negb task then (ESP_ERR_NO_MEM, false) else (ESP_OK, true).

Section Task.
Context {M : Type} (err_code : esp_err_t -> Z) (ops : argus_motion_ops_t M).

(** One round of [runtime_task] with an event on its queue: the runtime and the machine
    it leaves, and what it publishes.  An operational snapshot among the emissions of a
    handler is taken by [perform]. *)
Definition runtime_task (hash : bytes -> option bytes) (topics : argus_mqtt_topics_t) (identity : baseline_identity)
    (max_output_milli_rpm : Z) (take : bool) (rt : runtime_state_t) (p : published) (queue : list runtime_event_t)
    (ob : observations) (o : operational) (others : list other_task) (meanwhile : system (M := M) -> system (M := M))
    (sys : system (M := M)) : option (runtime_state_t * system (M := M) * published * list emission * list runtime_event_t) :=
  match queue with
  | [] => None
  | RUNTIME_EVENT_PUBLISH_BASELINE :: queue =>
      let '(p, out) := publish_baseline identity rt ob o in Some (rt, sys, p, out, queue)
  | RUNTIME_EVENT_MESSAGE message :: queue =>
      let c := handle_message err_code ops hash topics max_output_milli_rpm take rt message ob others meanwhile sys in
      Some (co_runtime c, co_system c, p, co_output c, queue)
  end.
End Task.

(** The operational snapshots among the emissions of a handler are taken; [snapshots] are what
    they read, in order. *)
Fixpoint take_snapshots (rt : runtime_state_t) (snapshots : list operational) (out : list emission) (p : published)
    : published * list emission :=
  match out with
  | [] => (p, [])
  | OperationalSnapshot :: out =>
      match snapshots with
      | [] => take_snapshots rt [] out p
      | o :: snapshots =>
          let '(p, snapshot) := publish_operational_snapshot rt o p in
          let '(p, out) := take_snapshots rt snapshots out p in (p, snapshot ++ out)
      end
  | e :: out => let '(p, out) := take_snapshots rt snapshots out p in (p, e :: out)
  end.

(** [publish_value] for each of them: the answers of the broker, which are logged, and the memory. *)
Fixpoint publish_all (topics : argus_mqtt_topics_t) (running : bool) (out : list emission) (m : broker_memory)
    : list esp_err_t * broker_memory :=
  match out with
  | [] => ([], m)
  | OperationalSnapshot :: out => publish_all topics running out m
  | Publish topic payload retain :: out =>
      let '(err, _, m) := argus_mqtt_broker_publish running m (tp_topic topics topic) payload retain in
      let '(errs, m) := publish_all topics running out m in (err :: errs, m)
  end.

(** ** What the application hears *)

(** The directory vouches for the machine of [client]: an enabled record under its name, not
    revoked, of the same credentials, revision and epoch, which allows MQTT on the interface of
    the connection and grants just the permissions and scopes the principal has. *)
Definition vouched_for (directory_find : bytes -> esp_err_t * argus_security_machine_record_t * Z)
    (client : argus_mqtt_broker_client_info_t) : Prop :=
  let principal := ci_principal client in
  exists record generation,
    directory_find (mp_identifier principal) = (ESP_OK, record, generation) /\
    mr_enabled record <> 0 /\ mr_revoked record = 0 /\
    mr_credential_version record = mp_credential_version principal /\
    mr_principal_revision record = mp_principal_revision principal /\
    mr_record_security_epoch record = mp_record_security_epoch principal /\
    Z.land (mr_allowed_transports record) ARGUS_MACHINE_TRANSPORT_MQTT <> 0 /\
    Z.land (mr_allowed_interfaces record) (ci_receiving_interface client) <> 0 /\
    mr_permissions record = mp_permissions principal /\
    mr_scope record = mp_scope principal /\ mr_topic_scope record = mp_topic_scope principal.

Lemma revalidate_vouches directory_find client : broker_revalidate_cb directory_find client = ESP_OK -> vouched_for directory_find client.
Proof.
  intros H. unfold broker_revalidate_cb, argus_machine_service_revalidate in H. unfold vouched_for. cbn zeta.
  destruct (mp_identifier (ci_principal client)) as [|x id] eqn:Hid; [done|]. rewrite <- Hid in *.
  destruct (directory_find (mp_identifier (ci_principal client))) as [[err r] g] eqn:Hf.
  match type of H with (if ?b then _ else _) = _ => destruct b eqn:Hb; [|done] end.
  rewrite !andb_true_iff, !negb_true_iff, !Z.eqb_eq, !Z.eqb_neq, !bool_decide_eq_true in Hb. destruct_and! Hb.
  destruct err; try done. exists r, g. done.
Qed.

Section Heard.
(** What the directory holds when the task makes its [n]th call: other tasks change it. *)
Variable directory : nat -> bytes -> esp_err_t * argus_security_machine_record_t * Z.
Variable topics : argus_mqtt_topics_t.

(** The task was told what the runtime's callbacks answer, each of them at its own time. *)
Definition told (t : list client_event) : Prop :=
  forall t1 v t2, t = t1 ++ v :: t2 -> answers (argus_mqtt_runtime_get_broker_config topics (directory (length t1))) v.

(** An event of the past happened at some time. *)
Lemma past_split (l : list client_event) t1 e : l `sublist_of` reverse t1 -> e ∈ l -> exists u w, t1 = u ++ e :: w.
Proof.
  intros Hl He. apply list_elem_of_split. apply elem_of_reverse. eapply elem_of_submseteq; [exact He|]. by apply sublist_submseteq.
Qed.

Lemma told_past t t1 v t2 (l : list client_event) e : told t -> t = t1 ++ v :: t2 -> l `sublist_of` reverse t1 -> e ∈ l ->
  exists n, answers (argus_mqtt_runtime_get_broker_config topics (directory n)) e.
Proof.
  intros Ha -> Hl He. destruct (past_split l t1 e Hl He) as (u & w & ->). exists (length u). eapply Ha. by rewrite <- app_assoc.
Qed.

(** C12: what the broker and the runtime promise together.  With the runtime's callbacks
    behind it, a message that a connection's task hands to the application as admitted is a
    command, a heartbeat or an authority request of this unit, not retained and short enough for
    the decoders; its topic lies in the topic scope of the machine that holds the
    connection, and that machine has the permission the topic asks for; and since the last byte
    of the message was read, the task had the directory revalidate this connection's
    principal, which is the one the message carries, and the directory as it was in that call
    vouched for it: an enabled record under its name, not revoked, of the same
    credentials, revision and epoch, which allows MQTT on the interface of this connection and
    grants just the permissions and scopes the principal has.  This holds for every input on the
    socket and whatever the other tasks, the directory and the clock do. *)
Theorem external_control_authorized client unit on_message on_client_event rounds waits t over t1 m t2 :
  argus_mqtt_topics_build (Some client) (Some unit) = (ESP_OK, Some topics) ->
  trace_of (argus_mqtt_client_task on_message on_client_event rounds waits) t over -> told t ->
  t = t1 ++ Did (OnMessage m) tt :: t2 -> msg_policy_admitted m = true ->
  msg_retain m = false /\ (length (msg_payload m) < 385)%nat /\
  argus_machine_service_topic_scope_contains (Some (mp_topic_scope (msg_principal m))) (Some (msg_topic m)) = true /\
  (exists f, msg_topic m = tp_topic topics f /\ field_action f <> ARGUS_MQTT_ACTION_NONE /\
     Z.land (mp_permissions (msg_principal m)) (action_permission (field_action f)) = action_permission (field_action f)) /\
  exists u info w, t1 = u ++ Did (Revalidate info) ESP_OK :: w /\ Forall quiet w /\
    ci_connection_id info = msg_connection_id m /\ ci_principal info = msg_principal m /\
    vouched_for (directory (length u)) info.
Proof.
  intros Hb Ht Ha He Hadm. destruct (task_due _ _ _ _ _ _ _ _ _ Ht He) as [Hdue _].
  destruct Hdue as (info & past' & Hp & _ & [[Hr _]|[sockets (_ & i0 & i1 & i2 & i3 & i4 & [Hc0 Hi0] & _ & recent & older & -> & Hq & Hs)]]);
    [by rewrite Hr in Hadm|].
  set (gates := (collected m sockets :: stored m) ++ policy_gates m i3 i4 ++ authorization_gates m i0 i1 i2) in Hs.
  assert (Hsub : gates `sublist_of` reverse t1) by (rewrite Hp; apply sublist_cons; by apply sublist_inserts_r).
  assert (Hin : forall e, e ∈ policy_gates m i3 i4 ++ authorization_gates m i0 i1 i2 ->
    exists n, answers (argus_mqtt_runtime_get_broker_config topics (directory n)) e).
  { intros e Hin. eapply told_past; [exact Ha|exact He|exact Hsub|]. apply elem_of_app. by right. }
  assert (exists n, broker_policy_cb topics m = ESP_OK) as [_ Hpol] by (apply (Hin (Did (PolicyCheck m) ESP_OK)); set_solver).
  destruct (Hin (Did (PublishAuthorize m) ESP_OK)) as (n & now & a & Haut); [set_solver|]. clear Hin.
  unfold broker_publish_authorize_cb in Haut. destruct (argus_mqtt_security_publish_allowed _ _ _) eqn:Hpub; [|done].
  apply (publish_needs_permission client unit topics _ _ Hb) in Hpub as [Hscope Hf].
  unfold broker_policy_cb, argus_mqtt_topics_external_publish_allowed in Hpol.
  destruct (msg_retain m); [done|]. destruct (Nat.leb_spec 385 (length (msg_payload m))); [done|]. do 4 (split; [done|]).
  assert (Hval : Did (Revalidate i0) ESP_OK ∈ recent).
  { eapply elem_of_submseteq; [|by apply sublist_submseteq]. unfold gates. set_solver. }
  apply list_elem_of_split in Hval as (r1 & r2 & ->). apply Forall_app in Hq as [Hq1 _].
  assert (E : t1 = (reverse older ++ reverse r2) ++ Did (Revalidate i0) ESP_OK :: reverse r1 ++ [stands info]).
  { rewrite <- (reverse_involutive t1), Hp. by rewrite reverse_cons, !reverse_app, reverse_cons, <- !app_assoc. }
  eexists _, i0, _. split; [exact E|]. split; [apply Forall_app; split; [by apply Forall_reverse|by repeat constructor]|].
  do 2 (split; [done|]). apply revalidate_vouches. subst t1. rewrite <- app_assoc in He. exact (Ha _ _ _ He).
Qed.

(** And of what a machine hears.  Subscriptions are entered only for filters the
    runtime allows the machine that holds the connection: on the read side of this unit,
    within the machine's topic scope, and with the permission to view the status. *)
Theorem external_subscriptions_authorized on_message on_client_event rounds waits t over t1 conn filters ok t2 :
  trace_of (argus_mqtt_client_task on_message on_client_event rounds waits) t over -> told t ->
  t = t1 ++ Did (Locked (SubscribeCommit conn filters)) ok :: t2 ->
  exists asked info u, stands asked ∈ t1 /\ conn = ci_connection_id info /\
    t1 = u ++ [Did (Revalidate info) ESP_OK] /\ vouched_for (directory (length u)) info /\
    Forall (fun filter => argus_mqtt_security_subscription_allowed topics (ci_principal asked) filter = true) filters.
Proof.
  intros Ht Ha He. destruct (task_due _ _ _ _ _ _ _ _ _ Ht He) as [_ Hdue].
  destruct Hdue as (asked & info & past' & Hp & -> & _ & _ & Hstands & Hf).
  assert (E : t1 = reverse (stands info :: past') ++ [Did (Revalidate info) ESP_OK])
    by (rewrite <- (reverse_involutive t1), Hp; by rewrite reverse_cons).
  exists asked, info, (reverse (stands info :: past')). split; [apply elem_of_reverse; rewrite Hp; by do 2 right|]. do 2 (split; [done|]). split.
  - apply revalidate_vouches. subst t1. rewrite <- app_assoc in He. exact (Ha _ _ _ He).
  - eapply Forall_impl; [exact Hf|]. intros filter Hin'.
    destruct (told_past t t1 _ t2 (reverse t1) (Did (SubscribePolicy asked filter) ESP_OK) Ha He) as (n & now & a & Hpol);
      [done|rewrite Hp; by do 2 right|].
    unfold broker_subscribe_policy_cb in Hpol.
    destruct (Z.land _ _ =? 0); [done|]. cbn [orb] in Hpol. by destruct (argus_mqtt_security_subscription_allowed _ _ _).
Qed.
End Heard.

(** ** The retained documents *)

(** The topics the runtime publishes retained. *)
Definition RETAINED_TOPICS : list topic_field :=
  [metadata_device_name; metadata_model; metadata_firmware_version; metadata_hardware_uid; status_command_session;
   status_control_owner; status_authority_epoch; status_authority_profile; status_local_control; status_core_lease_status;
   status_authority_reason;
   state_online; state_supervisor_link; state_mode; state_driver; state_direction; state_estop; state_fault;
   status_wifi; status_mqtt; status_network_mode; status_authority_mode; status_authority_owner; status_uptime_s;
   status_last_accepted_sequence;
   telemetry_configured_target; telemetry_trajectory_target; telemetry_applied; telemetry_generated; telemetry_step_count;
   telemetry_feedback_available;
   status_network_fault; status_network_fault_action; status_auth_throttle].

Definition ARGUS_MQTT_RETAINED_TOPICS_REQUIRED : nat := 34.

(** A retained publication is of one of them. *)
Definition known (e : emission) : Prop :=
  match e with Publish topic _ true => topic ∈ RETAINED_TOPICS | _ => True end.

Ltac listed := repeat (apply Forall_cons; split; [cbn [known publish_number]; try done; unfold RETAINED_TOPICS; set_solver|]); try apply Forall_nil_2.

Lemma authority_state_known rt ob : Forall known (publish_authority_state_at rt ob).
Proof.
  unfold publish_authority_state_at, publish_authority_state. destruct (authority_status_from_core _ _ _ _) as [lease local]. listed.
Qed.

Lemma on_change_known topic payload cache size : topic ∈ RETAINED_TOPICS -> Forall known (publish_on_change topic payload cache size).2.
Proof. intros Ht. unfold publish_on_change. destruct (_ && _); [done|]. by apply Forall_singleton. Qed.

Lemma conditions_known conflict throttle p : Forall known (publish_admission_conditions conflict throttle p).2.
Proof.
  unfold publish_admission_conditions.
  pose proof (on_change_known status_network_fault (network_fault conflict) (s_last_network_fault p) 32 ltac:(unfold RETAINED_TOPICS; set_solver)) as H1.
  pose proof (on_change_known status_auth_throttle (auth_throttle throttle) (s_last_auth_throttle p) 16 ltac:(unfold RETAINED_TOPICS; set_solver)) as H2.
  destruct (publish_on_change status_network_fault _ _ _) as [[? ?] ?], (publish_on_change status_auth_throttle _ _ _) as [[? ?] ?]. cbn [snd] in *.
  rewrite !Forall_app. split; [done|]. split; [|done]. destruct (negb _); listed.
Qed.

Lemma snapshot_known rt o p : Forall known (publish_operational_snapshot rt o p).2.
Proof.
  unfold publish_operational_snapshot. pose proof (conditions_known (op_conflict_active o) (op_throttle_active o) p) as H.
  destruct (publish_admission_conditions _ _ _) as [p' out]. cbn [snd] in *. apply Forall_app. split; [listed|done].
Qed.

Lemma baseline_known identity rt ob o : Forall known (publish_baseline identity rt ob o).2.
Proof.
  unfold publish_baseline. pose proof (snapshot_known rt o (Published [] [])) as H. destruct (publish_operational_snapshot _ _ _) as [p out].
  cbn [snd] in *. rewrite !Forall_app. split; [listed|]. split; [apply authority_state_known|done].
Qed.

Lemma heartbeat_known rt m ob : Forall known (handle_heartbeat rt m ob).2.
Proof.
  unfold handle_heartbeat. destruct (negb _); [done|]. destruct (argus_mqtt_decode_heartbeat _); [|done..].
  destruct (holder_heartbeat _ _ _ _ _ _) as [err core]. destruct (is_ok err); [|done].
  destruct (negb _); listed; apply authority_state_known.
Qed.

Lemma authority_request_known hash rt m release state ob : Forall known (handle_authority_request hash rt m release state ob).2.
Proof.
  unfold handle_authority_request. destruct (negb _); [done|]. destruct (_ =? 0); [done|].
  destruct (argus_mqtt_authority_admit _ _ _ _ _ _ _ _ _) as [[out core] cache]. destruct (silent_stage _); [done|].
  apply Forall_app. split; [destruct (ao_result_json out); listed|]. destruct (ao_state_changed out); listed; apply authority_state_known.
Qed.

Lemma disconnected_known rt conn ob : Forall known (broker_client_disconnected rt conn ob).2.
Proof.
  unfold broker_client_disconnected. destruct (argus_mqtt_session_disconnect _ _) as [changed core]. destruct changed; [|done].
  listed; destruct (owned core); apply authority_state_known.
Qed.

Lemma tick_known rt running ob : Forall known (argus_mqtt_runtime_tick rt running ob).2.
Proof.
  unfold argus_mqtt_runtime_tick. destruct (_ || _); [done|]. destruct (argus_mqtt_session_tick _ _) as [stale core].
  destruct stale; cbn [snd]; rewrite ?Forall_app; repeat split; listed; try apply authority_state_known;
    destruct (_ && _); listed; apply authority_state_known.
Qed.

Lemma take_snapshots_known rt out : forall snapshots p, Forall known out -> Forall known (take_snapshots rt snapshots out p).2.
Proof.
  induction out as [|e out IH]; intros snapshots p Hk; [done|]. apply Forall_cons in Hk as [He Hk]. cbn [take_snapshots]. destruct e as [f payload retain|].
  - specialize (IH snapshots p Hk). destruct (take_snapshots _ _ _ _) as [p' out']. by apply Forall_cons.
  - destruct snapshots as [|o snapshots]; [by apply IH|]. pose proof (snapshot_known rt o p) as Hs.
    destruct (publish_operational_snapshot rt o p) as [p1 snapshot]. specialize (IH snapshots p1 Hk).
    destruct (take_snapshots _ _ _ _) as [p2 out2]. by apply Forall_app.
Qed.

Section Output.
Context {M : Type} (err_code : esp_err_t -> Z) (ops : argus_motion_ops_t M).

Lemma command_known max take rt m action others meanwhile (sys : system (M := M)) :
  Forall known (co_output (handle_command err_code ops max take rt m action others meanwhile sys)).
Proof.
  assert (Hr : forall rt sys command reason, Forall known (co_output (reject_decoded (M := M) rt sys command reason))).
  { clear. intros rt sys command reason. unfold reject_decoded. destruct (build_result _ _ _ _). listed. }
  unfold handle_command. destruct (argus_mqtt_decode_command _ _ _); try done.
  destruct (negb _); [apply Hr|]. destruct (negb _); [apply Hr|].
  destruct (argus_mqtt_command_admission_check _ _ _ _); try apply Hr.
  destruct (argus_mqtt_session_check_sequence _ _ _); try apply Hr; try listed;
    (destruct (argus_authority_mgr_get_snapshot _) as [authority auth]; destruct (argus_cmd_router_check_authority _ _) as [verdict auth'];
     destruct (negb _); [apply Hr|]; destruct (argus_cmd_router_dispatch _ _ _ _ _) as [dispatch sys'];
     destruct (build_result _ _ _ _) as [result sys'']; listed).
Qed.

Lemma message_known hash topics max take rt m ob others meanwhile (sys : system (M := M)) :
  Forall known (co_output (handle_message err_code ops hash topics max take rt m ob others meanwhile sys)).
Proof.
  unfold handle_message. destruct (argus_mqtt_topics_classify _ _); try apply command_known; try done.
  - pose proof (heartbeat_known rt m ob) as H. by destruct (handle_heartbeat rt m ob).
  - pose proof (authority_request_known hash rt m false (machine_state sys.2.1) ob) as H. by destruct (handle_authority_request _ _ _ _ _ _).
  - pose proof (authority_request_known hash rt m true (machine_state sys.2.1) ob) as H. by destruct (handle_authority_request _ _ _ _ _ _).
Qed.

(** What the runtime publishes at a time: for an event of its queue, at a tick, or for a
    client that is gone. *)
Inductive emitted : list emission -> Prop :=
| EmittedEvent hash topics identity max take rt p queue ob o others meanwhile sys rt' sys' p' out queue' snapshots p1 :
    runtime_task err_code ops hash topics identity max take rt p queue ob o others meanwhile sys = Some (rt', sys', p', out, queue') ->
    emitted (take_snapshots rt' snapshots out p1).2
| EmittedTick rt running ob snapshots p : emitted (take_snapshots rt snapshots (argus_mqtt_runtime_tick rt running ob).2 p).2
| EmittedDisconnect rt conn ob : emitted (broker_client_disconnected rt conn ob).2.

Lemma emitted_known out : emitted out -> Forall known out.
Proof.
  destruct 1 as [hash topics identity max take rt p queue ob o others meanwhile sys rt' sys' p' out queue' snapshots p1 Hr|rt running ob snapshots p|rt conn ob].
  - apply take_snapshots_known. unfold runtime_task in Hr. destruct queue as [|[m|] queue]; [done| |].
    + injection Hr as <- <- <- <- <-. apply message_known.
    + pose proof (baseline_known identity rt ob o) as H. destruct (publish_baseline _ _ _ _). by injection Hr as <- <- <- <- <-.
  - apply take_snapshots_known, tick_known.
  - apply disconnected_known.
Qed.
End Output.

(** ** The retained store *)

(** The store holds each of the known topics at most once, and nothing else. *)
Record runtime_store (topics : argus_mqtt_topics_t) (l : list argus_mqtt_retained_t) : Prop := {
  rs_unique : retained_unique l;
  rs_length : length l = ARGUS_MQTT_MAX_RETAINED;
  rs_known : forall r, r ∈ l -> rt_in_use r = true -> rt_topic r ∈ (tp_topic topics <$> RETAINED_TOPICS)
}.

Lemma empty_store topics : runtime_store topics (replicate ARGUS_MQTT_MAX_RETAINED (Retained false [] [])).
Proof.
  split.
  - intros i j r s t Hi _ Hr _. apply lookup_replicate in Hi as [-> _]. discriminate.
  - apply length_replicate.
  - intros r Hr Hu. apply elem_of_replicate in Hr as [-> _]. done.
Qed.

Lemma topic_length client unit topics f : argus_mqtt_topics_build (Some client) (Some unit) = (ESP_OK, Some topics) ->
  (length (tp_topic topics f) < ARGUS_MQTT_MAX_TOPIC_LEN)%nat.
Proof.
  unfold argus_mqtt_topics_build. destruct (_ || _); [done|]. destruct (_ <=? _)%nat; [done|].
  destruct (forallb _ _); [|done]. intros [= <-]. cbn [tp_topic]. generalize (topic_leaf f). intros leaf. unfold make_topic, ARGUS_MQTT_MAX_TOPIC_LEN.
  match goal with |- context [(?a <? 160)%nat] => destruct (Nat.ltb_spec a 160) end; cbn [default length]; [done|lia].
Qed.

Lemma no_dup_topics l : retained_unique l -> (forall r, r ∈ l -> rt_in_use r = true) -> NoDup (rt_topic <$> l).
Proof.
  intros Hu Hall. apply NoDup_alt. intros i j t Hi Hj. apply list_lookup_fmap_Some in Hi as (r & -> & Hr).
  apply list_lookup_fmap_Some in Hj as (s & Ht & Hs). apply (Hu i j r s (rt_topic r) Hr Hs).
  - unfold retained_is. rewrite (Hall r) by (by eapply list_elem_of_lookup_2). by apply bool_decide_eq_true.
  - unfold retained_is. rewrite (Hall s) by (by eapply list_elem_of_lookup_2). by apply bool_decide_eq_true.
Qed.

(** Forty slots are room enough for thirty-four topics. *)
Lemma store_has_room topics l topic : runtime_store topics l -> topic ∈ (tp_topic topics <$> RETAINED_TOPICS) ->
  ~ Forall (fun r => rt_in_use r = true /\ rt_topic r <> topic) l.
Proof.
  intros [Hu Hl Hk] Ht Hall. rewrite Forall_forall in Hall.
  assert (Hnd : NoDup (rt_topic <$> l)) by (apply no_dup_topics; [done|]; intros r Hr; by apply Hall).
  assert (Hsub : rt_topic <$> l ⊆ (tp_topic topics <$> RETAINED_TOPICS)).
  { intros x (r & -> & Hr)%list_elem_of_fmap. apply Hk; [done|]. by apply Hall. }
  pose proof (submseteq_length _ _ (NoDup_submseteq _ _ Hnd Hsub)) as Hle. rewrite !length_fmap, Hl in Hle.
  vm_compute in Hle. lia.
Qed.

(** Storing a known topic succeeds, is readable, and leaves the others. *)
Lemma store_known topics l topic payload : runtime_store topics l -> topic ∈ (tp_topic topics <$> RETAINED_TOPICS) ->
  (length topic < ARGUS_MQTT_MAX_TOPIC_LEN)%nat -> (length payload < ARGUS_MQTT_MAX_PAYLOAD_LEN)%nat ->
  exists l', argus_mqtt_store_retained_locked l topic payload = (ESP_OK, l') /\ runtime_store topics l' /\
    argus_mqtt_broker_get_retained l' topic ARGUS_MQTT_MAX_PAYLOAD_LEN = (ESP_OK, payload) /\
    (forall other, other <> topic -> retained_map l' other = retained_map l other).
Proof.
  intros Hs Ht H1 H2. pose proof (retained_store_map l topic payload (rs_unique _ _ Hs) H1 H2) as Hm.
  destruct (argus_mqtt_store_retained_locked l topic payload) as [err l'] eqn:Hst.
  destruct Hm as (Hu & Hlen & [(-> & _ & Hget & Hother)|(_ & _ & Hfull)]); [|by apply (store_has_room topics l topic) in Hfull].
  exists l'. split; [done|]. split; [|done]. split; [done|by rewrite Hlen, (rs_length _ _ Hs)|].
  intros r Hr Huse. unfold argus_mqtt_store_retained_locked in Hst.
  assert (Hcase : r ∈ l \/ rt_topic r = topic).
  { destruct (match find_index (retained_is topic) l with Some i => Some i | None => find_index (fun r => negb (rt_in_use r)) l end) as [i|];
      [|done]. assert (l' = <[i := Retained true (strlcpy topic ARGUS_MQTT_MAX_TOPIC_LEN) (strlcpy payload ARGUS_MQTT_MAX_PAYLOAD_LEN)]> l) as -> by congruence.
    apply list_elem_of_lookup_1 in Hr as [j Hj]. destruct (decide (i = j)) as [<-|Hne].
    - apply list_lookup_insert_Some in Hj as [(_ & <- & _)|(? & _)]; [|done]. right. by apply strlcpy_fits.
    - rewrite list_lookup_insert_ne in Hj by done. left. by eapply list_elem_of_lookup_2. }
  destruct Hcase as [Hin| ->]; [|done]. by apply (rs_known _ _ Hs).
Qed.

(** A publication that came too long is refused for its size. *)
Definition short (e : emission) : Prop := match e with Publish _ payload _ => (length payload < ARGUS_MQTT_MAX_PAYLOAD_LEN)%nat | _ => True end.

Definition is_retained (f : topic_field) (e : emission) : Prop := exists payload, e = Publish f payload true.

Section Store.
Context (client unit : bytes) (topics : argus_mqtt_topics_t).
Hypothesis built : argus_mqtt_topics_build (Some client) (Some unit) = (ESP_OK, Some topics).

Lemma topic_inj f g : tp_topic topics f = tp_topic topics g -> f = g.
Proof.
  destruct (topics_root client unit topics built) as (_ & Ht). rewrite !Ht. intros H. apply app_inv_head in H. injection H as H.
  by apply topic_leaf_inj.
Qed.

Lemma publish_step m f payload retain : runtime_store topics (bm_retained m) -> known (Publish f payload retain) ->
  let '(err, _, m') := argus_mqtt_broker_publish true m (tp_topic topics f) payload retain in
  runtime_store topics (bm_retained m') /\ (err = ESP_OK \/ err = ESP_ERR_INVALID_SIZE) /\
  (short (Publish f payload retain) -> err = ESP_OK /\
     (retain = true -> argus_mqtt_broker_get_retained (bm_retained m') (tp_topic topics f) ARGUS_MQTT_MAX_PAYLOAD_LEN = (ESP_OK, payload))) /\
  (forall g, (retain = true -> g <> f) -> retained_map (bm_retained m') (tp_topic topics g) = retained_map (bm_retained m) (tp_topic topics g)).
Proof.
  intros Hs Hk. pose proof (topic_length client unit topics f built) as Hlen. unfold argus_mqtt_broker_publish, short.
  destruct (Nat.leb_spec ARGUS_MQTT_MAX_TOPIC_LEN (length (tp_topic topics f))); [lia|].
  destruct (Nat.leb_spec ARGUS_MQTT_MAX_PAYLOAD_LEN (length payload)) as [Hlong|Hshort].
  { split; [done|]. split; [by right|]. split; [lia|done]. }
  cbn [negb]. destruct retain; [|by split_and!; try (by left)].
  destruct (store_known topics (bm_retained m) (tp_topic topics f) payload Hs) as (l' & -> & Hs' & Hget & Hother);
    [apply list_elem_of_fmap; by exists f|done..|].
  cbn [is_ok negb bm_retained]. split; [done|]. split; [by left|]. split; [done|].
  intros g Hg. apply Hother. intros Heq. by apply (Hg eq_refl), topic_inj.
Qed.

Lemma publish_all_store out : forall m, runtime_store topics (bm_retained m) -> Forall known out ->
  let '(errs, m') := publish_all topics true out m in
  runtime_store topics (bm_retained m') /\ Forall (fun err => err = ESP_OK \/ err = ESP_ERR_INVALID_SIZE) errs /\
  (Forall short out -> Forall (eq ESP_OK) errs) /\
  (forall g, Forall (fun e => ~ is_retained g e) out -> retained_map (bm_retained m') (tp_topic topics g) = retained_map (bm_retained m) (tp_topic topics g)).
Proof.
  induction out as [|e out IH]; intros m Hs Hk; [by split_and!|]. apply Forall_cons in Hk as [He Hk]. cbn [publish_all].
  destruct e as [f payload retain|].
  - pose proof (publish_step m f payload retain Hs He) as Hstep. destruct (argus_mqtt_broker_publish _ _ _ _ _) as [[err sends] m1].
    destruct Hstep as (Hs1 & Herr & Hshort & Hmap). specialize (IH m1 Hs1 Hk). destruct (publish_all topics true out m1) as [errs m2].
    destruct IH as (Hs2 & Herrs & Hshorts & Hmaps). split; [done|]. split; [by apply Forall_cons|]. split.
    + intros [H1 H2]%Forall_cons. apply Forall_cons. split; [symmetry; by apply Hshort|auto].
    + intros g [H1 H2]%Forall_cons. rewrite Hmaps by done. apply Hmap. intros -> ->. apply H1. by exists payload.
  - specialize (IH m Hs Hk). destruct (publish_all topics true out m) as [errs m2]. destruct IH as (Hs2 & Herrs & Hshorts & Hmaps).
    split_and!; [done|done|intros [_ H2]%Forall_cons; auto|intros g [_ H2]%Forall_cons; auto].
Qed.
End Store.

Lemma publish_all_app topics running out1 out2 m :
  publish_all topics running (out1 ++ out2) m =
  let '(e1, m1) := publish_all topics running out1 m in let '(e2, m2) := publish_all topics running out2 m1 in (e1 ++ e2, m2).
Proof.
  revert m. induction out1 as [|[f payload retain|] out1 IH]; intros m; cbn [publish_all app]; [by destruct (publish_all _ _ out2 m)| |apply IH].
  destruct (argus_mqtt_broker_publish _ _ _ _ _) as [[err sends] m']. rewrite IH.
  destruct (publish_all topics running out1 m') as [e1 m1]. by destruct (publish_all topics running out2 m1) as [e2 m2].
Qed.

Lemma get_of_map l topic size : fst (argus_mqtt_broker_get_retained l topic size) = ESP_OK ->
  exists payload, retained_map l topic = Some payload /\ argus_mqtt_broker_get_retained l topic size = (ESP_OK, strlcpy payload size).
Proof. unfold argus_mqtt_broker_get_retained, retained_map. destruct (find _ _) as [r|]; [|done]. intros _. by exists (rt_payload r). Qed.

Lemma map_to_get l topic size payload : retained_map l topic = Some payload ->
  argus_mqtt_broker_get_retained l topic size = (ESP_OK, strlcpy payload size).
Proof. unfold argus_mqtt_broker_get_retained, retained_map. destruct (find _ _) as [r|]; [|done]. by intros [= ->]. Qed.

(** C34: the store of retained messages never runs out.  Whatever the runtime publishes - for the
    events of its queue, at its ticks, for clients that go - in whatever order and number, after
    a start of the broker: no publication is refused for want of a slot, so one that fits
    the payload buffer is stored; and what argus_mqtt_broker_get_retained answers for a retained
    topic is the last payload published on it.  (Other tasks store nothing: the policy admits no retained
    message from outside, see [external_control_authorized].) *)
Theorem retained_store_never_full {M} err_code (ops : argus_motion_ops_t M) client unit topics outs m :
  argus_mqtt_topics_build (Some client) (Some unit) = (ESP_OK, Some topics) ->
  Forall (emitted err_code ops) outs -> bm_retained m = replicate ARGUS_MQTT_MAX_RETAINED (Retained false [] []) ->
  let '(errs, m') := publish_all topics true (concat outs) m in
  Forall (fun err => err = ESP_OK \/ err = ESP_ERR_INVALID_SIZE) errs /\
  (Forall short (concat outs) -> Forall (eq ESP_OK) errs) /\
  (forall out1 f payload out2, concat outs = out1 ++ Publish f payload true :: out2 ->
     (length payload < ARGUS_MQTT_MAX_PAYLOAD_LEN)%nat -> Forall (fun e => ~ is_retained f e) out2 ->
     published_condition topics m' f ARGUS_MQTT_MAX_PAYLOAD_LEN = payload).
Proof.
  intros Hb Hout Hm. assert (Hk : Forall known (concat outs)).
  { apply Forall_concat. eapply Forall_impl; [exact Hout|]. intros out. apply emitted_known. }
  assert (Hs : runtime_store topics (bm_retained m)) by (rewrite Hm; apply empty_store).
  pose proof (publish_all_store client unit topics Hb (concat outs) m Hs Hk) as Hall.
  destruct (publish_all topics true (concat outs) m) as [errs m'] eqn:Hp. destruct Hall as (_ & Herrs & Hshort & _). split; [done|]. split; [done|].
  intros out1 f payload out2 Hsplit Hlen Hlast. rewrite Hsplit in Hk, Hp. apply Forall_app in Hk as [Hk1 [Hk Hk2]%Forall_cons].
  rewrite publish_all_app in Hp. pose proof (publish_all_store client unit topics Hb out1 m Hs Hk1) as H1.
  destruct (publish_all topics true out1 m) as [e1 m1]. destruct H1 as (Hs1 & _). cbn [publish_all] in Hp.
  pose proof (publish_step client unit topics Hb m1 f payload true Hs1 Hk) as Hstep.
  destruct (argus_mqtt_broker_publish _ _ _ _ _) as [[err sends] m2]. destruct Hstep as (Hs2 & _ & Hst & _).
  destruct (Hst Hlen) as [_ Hget]. specialize (Hget eq_refl).
  pose proof (publish_all_store client unit topics Hb out2 m2 Hs2 Hk2) as H2. destruct (publish_all topics true out2 m2) as [e2 m3].
  destruct H2 as (_ & _ & _ & Hmap). injection Hp as _ <-. specialize (Hmap f Hlast).
  destruct (get_of_map (bm_retained m2) (tp_topic topics f) ARGUS_MQTT_MAX_PAYLOAD_LEN) as (stored & Hm2 & Hget2); [by rewrite Hget|].
  rewrite Hm2 in Hmap. unfold published_condition. rewrite (map_to_get _ _ _ _ Hmap). rewrite Hget in Hget2. by injection Hget2.
Qed.

(** ** Conditions that are published on change *)

(** The payload published last on [f]. *)
Definition last_published (f : topic_field) (out : list emission) : option bytes :=
  foldl (fun acc e => match e with Publish g payload _ => if bool_decide (g = f) then Some payload else acc | _ => acc end) None out.

(** The conditions at successive times, and what is published from a baseline on. *)
Definition observe_conditions (samples : list (bool * bool)) : published * list emission :=
  foldl (fun acc s => let '(p, out) := publish_admission_conditions s.1 s.2 acc.1 in (p, acc.2 ++ out)) (Published [] [], []) samples.

Lemma last_published_app f out out' :
  last_published f (out ++ out') = match last_published f out' with Some p => Some p | None => last_published f out end.
Proof.
  unfold last_published. rewrite foldl_app. generalize (foldl (fun acc e => match e with Publish g payload _ => if bool_decide (g = f) then Some payload else acc | _ => acc end) None out).
  intros acc. induction out' as [|e out' IH] using rev_ind; [done|]. rewrite !foldl_app. cbn. destruct e as [g payload r|]; [|apply IH].
  destruct (bool_decide (g = f)); [done|apply IH].
Qed.

(** What a change publishes. *)
Definition condition_changes (before after : bool * bool) : list emission :=
  (if bool_decide (before.1 = after.1) then []
   else [Publish status_network_fault (network_fault after.1) true; Publish status_network_fault_action (fault_action after.1) true])
  ++ (if bool_decide (before.2 = after.2) then [] else [Publish status_auth_throttle (auth_throttle after.2) true]).

Lemma conditions_step before after :
  publish_admission_conditions after.1 after.2 (Published (network_fault before.1) (auth_throttle before.2)) =
  (Published (network_fault after.1) (auth_throttle after.2), condition_changes before after).
Proof. destruct before as [[] []], after as [[] []]; by vm_compute. Qed.

Lemma conditions_first s : publish_admission_conditions s.1 s.2 (Published [] []) =
  (Published (network_fault s.1) (auth_throttle s.2),
   [Publish status_network_fault (network_fault s.1) true; Publish status_network_fault_action (fault_action s.1) true;
    Publish status_auth_throttle (auth_throttle s.2) true]).
Proof. destruct s as [[] []]; by vm_compute. Qed.

Lemma observe_snoc samples s : observe_conditions (samples ++ [s]) =
  let '(p, out) := publish_admission_conditions s.1 s.2 (observe_conditions samples).1 in (p, (observe_conditions samples).2 ++ out).
Proof. unfold observe_conditions. by rewrite foldl_app. Qed.

(** Publishing on change loses nothing: after any history since a baseline, what was last
    published on each of the three topics is the present condition, the fault and the
    advice to it together; the same conditions again publish nothing, and other ones just
    what has changed. *)
Theorem conditions_published_on_change samples s :
  let '(p, out) := observe_conditions (samples ++ [s]) in
  last_published status_network_fault out = Some (network_fault s.1) /\
  last_published status_network_fault_action out = Some (fault_action s.1) /\
  last_published status_auth_throttle out = Some (auth_throttle s.2) /\
  forall next, (publish_admission_conditions next.1 next.2 p).2 = condition_changes s next.
Proof.
  assert (Hobs : forall samples s, let '(p, out) := observe_conditions (samples ++ [s]) in
    p = Published (network_fault s.1) (auth_throttle s.2) /\
    last_published status_network_fault out = Some (network_fault s.1) /\
    last_published status_network_fault_action out = Some (fault_action s.1) /\
    last_published status_auth_throttle out = Some (auth_throttle s.2)).
  { clear. intros samples. induction samples as [|b samples IH] using rev_ind; intros s.
    - unfold observe_conditions. cbn [app foldl fst snd]. rewrite conditions_first. by destruct s as [[] []].
    - rewrite observe_snoc. specialize (IH b). destruct (observe_conditions (samples ++ [b])) as [p out]. destruct IH as (-> & H1 & H2 & H3).
      cbn [fst snd]. rewrite conditions_step. split; [done|]. rewrite !last_published_app, H1, H2, H3.
      destruct b as [[] []], s as [[] []]; by vm_compute. }
  specialize (Hobs samples s). destruct (observe_conditions (samples ++ [s])) as [p out]. destruct Hobs as (-> & H1 & H2 & H3).
  split_and!; [done|done|done|]. intros next. by rewrite conditions_step.
Qed.

(** The audit log is spared: between two entries of refusals by the policy lies a minute.
    [calls] are the times of refusals, each with its target. *)
Fixpoint policy_entries (a : audit_clock) (calls : list (Z * bytes)) : list Z :=
  match calls with
  | [] => []
  | (now, target) :: calls =>
      let '(a', entries) := audit_policy target [] no_principal now a in
      match entries with [] => policy_entries a' calls | _ => now :: policy_entries a' calls end
  end.

Fixpoint apart (last : Z) (times : list Z) : Prop :=
  match times with
  | [] => True
  | t :: times => (last = 0 \/ 60000000 <= t - last) /\ apart t times
  end.

Theorem policy_audit_rate calls : forall a, 0 <= s_last_mqtt_policy_audit_us a < 2 ^ 63 ->
  Forall (fun c => s_last_mqtt_policy_audit_us a <= c.1 < 2 ^ 63) calls -> Sorted.StronglySorted Z.le (calls.*1) ->
  apart (s_last_mqtt_policy_audit_us a) (policy_entries a calls).
Proof.
  induction calls as [|[now target] calls IH]; intros a Ha Hc Hs; [done|]. apply Forall_cons in Hc as [Hn Hc]. cbn [fst] in Hn.
  apply Sorted.StronglySorted_inv in Hs as [Hs Hle]. change (Forall (Z.le now) (calls.*1)) in Hle. cbn [policy_entries]. unfold audit_policy. destruct (audit_due _ now) eqn:Hd; [|by apply IH].
  cbn [apart]. split.
  - unfold audit_due in Hd. apply orb_true_iff in Hd as [Hz|Hd]; [left; by apply Z.eqb_eq|right]. apply Z.leb_le in Hd.
    rewrite u64_small in Hd by (unfold is_u64; lia). done.
  - apply (IH (AuditClock now (s_last_mqtt_auth_failure_audit_us a))); cbn [s_last_mqtt_policy_audit_us]; [lia| |done].
    apply Forall_forall. intros c Hin. rewrite Forall_forall in Hc. specialize (Hc _ Hin). rewrite Forall_forall in Hle. split; [|lia].
    apply Hle, list_elem_of_fmap. by exists c.
Qed.

(** ** A machine that may stop the pump *)

#[export] Instance machine_principal_eq_dec : EqDecision argus_machine_principal_t.
Proof. solve_decision. Defined.

Definition stopper_record : argus_security_machine_record_t :=
  MachineRecord 1 1 ARGUS_MACHINE_CLIENT_HMI ARGUS_MACHINE_TRANSPORT_MQTT 0 ARGUS_MACHINE_INTERFACE_STA 0
    (str "stop-1") (str "Stop") (str "bench") (str "argus/acme/pump-7") [] (str "admin")
    ARGUS_PERMISSION_SOFTWARE_ESTOP 1 1 1 (PasswordVerifier 1 1 16 32 25000 [] (replicate ARGUS_MACHINE_SECRET_LENGTH 65)).

Definition stopper_find (_ : bytes) : esp_err_t * argus_security_machine_record_t * Z := (ESP_OK, stopper_record, 4).

Definition stopper_auth : auth_request :=
  AuthRequest zero_verifier stopper_find (fun password v => (ESP_OK, bool_decide (password = pw_verifier v))) (fun s => s)
    demo_service 77 ARGUS_MACHINE_INTERFACE_STA 9000000.

Definition stopper_topics : argus_mqtt_topics_t :=
  default (Topics [] (fun _ => [])) (argus_mqtt_topics_build (Some (str "acme")) (Some (str "pump-7"))).2.

(** CONNECT, and the emergency stop. *)
Definition stopper_inputs : list received :=
  demo_packet 16 (demo_text (str "MQTT") ++ [4; 194; 0; 60] ++ demo_text (str "stop-1") ++ demo_text (str "stop-1")
                  ++ demo_text (replicate ARGUS_MACHINE_SECRET_LENGTH 65))
  ++ demo_packet 50 (demo_text (tp_topic stopper_topics command_e_stop) ++ [0; 9] ++ str "{}").

Definition stopper_memory : broker_memory :=
  Memory (broker_run (broker_reset 0) [EvAccept 3 1 ARGUS_MACHINE_INTERFACE_STA (fun _ => false)])
    (replicate ARGUS_MQTT_MAX_RETAINED (Retained false [] [])).

Definition stopper_session : list label * (client bool * broker_memory) :=
  demo_drive (principal_from_record stopper_record 4) 0 [] (argus_mqtt_client_task true true 9 0) None stopper_inputs stopper_memory.

(** The answer is the runtime's, with the directory and the derivation above. *)
Definition stopper_answer (v : client_event) : bool :=
  match dv_call v in client_call X return X -> bool with
  | Authenticate request => fun answer => bool_decide ((broker_auth_cb stopper_auth request 0 (AuditClock 0 0)).1.1 = answer)
  | Revalidate info => fun answer => bool_decide (broker_revalidate_cb stopper_find info = answer)
  | SubscribePolicy info filter => fun answer => bool_decide ((broker_subscribe_policy_cb stopper_topics info filter 0 (AuditClock 0 0)).1 = answer)
  | PublishAuthorize message => fun answer => bool_decide ((broker_publish_authorize_cb stopper_topics message 0 (AuditClock 0 0)).1 = answer)
  | PolicyCheck message => fun answer => bool_decide (broker_policy_cb stopper_topics message = answer)
  | _ => fun _ => true
  end (dv_answer v).

Lemma stopper_answers t : forallb stopper_answer t = true -> told (fun _ => stopper_find) stopper_topics t.
Proof.
  intros H t1 v t2 ->. rewrite forallb_app in H. cbn [forallb] in H. rewrite !andb_true_iff in H. destruct H as (_ & H & _).
  destruct v as [X e x]. destruct e; try done; unfold stopper_answer in H; cbn [dv_call dv_answer] in H; apply bool_decide_eq_true in H; cbn.
  - by exists stopper_auth, 0, (AuditClock 0 0).
  - done.
  - by exists 0, (AuditClock 0 0).
  - by exists 0, (AuditClock 0 0).
  - done.
Qed.

Lemma stopper_trace : trace_of (argus_mqtt_client_task true true 9 0) (own stopper_session.1) true.
Proof.
  refine (schedule_trace 0 _ _ _ true stopper_session.2.2 _). pose proof (demo_schedule (principal_from_record stopper_record 4) 0 []
    (argus_mqtt_client_task true true 9 0) None stopper_inputs stopper_memory) as Hs.
  replace (Ret true, stopper_session.2.2) with stopper_session.2; [exact Hs|]. by vm_compute.
Qed.

Definition stopper_calls : nat := 36.

Lemma external_control_authorized_witness :
  exists m t1 t2, own stopper_session.1 = t1 ++ Did (OnMessage m) tt :: t2 /\ msg_topic m = str "argus/acme/pump-7/command/pump1/e_stop" /\
    msg_retain m = false /\ exists u info w, t1 = u ++ Did (Revalidate info) ESP_OK :: w /\ Forall quiet w /\
      ci_connection_id info = msg_connection_id m /\ ci_principal info = msg_principal m /\ vouched_for stopper_find info.
Proof.
  eexists _, (take stopper_calls (own stopper_session.1)), (drop (S stopper_calls) (own stopper_session.1)).
  match goal with |- ?P /\ _ => assert (Hsplit : P) by by vm_compute end. split; [exact Hsplit|]. split; [by vm_compute|].
  assert (Hans : told (fun _ => stopper_find) stopper_topics (own stopper_session.1))
    by (apply stopper_answers; by vm_compute).
  refine ((fun H => conj (proj1 H) (proj2 (proj2 (proj2 (proj2 H)))))
    (external_control_authorized (fun _ => stopper_find) stopper_topics (str "acme") (str "pump-7") true true 9 0 (own stopper_session.1) true _ _ _
       _ stopper_trace Hans Hsplit _)); by vm_compute.
Defined.

(** A baseline for a client that connected, while the address conflict lasts. *)
Definition demo_identity : baseline_identity :=
  BaselineIdentity (str "Pump") (str "ARGUS-PUMP-V2") (str "2.0") (str "ESP32S3-A1B2C3D4E5F6").

Definition demo_network : argus_net_snapshot_t :=
  NetSnapshot ARGUS_NET_MODE_COMMISSIONED_STA ARGUS_NET_ERR_NONE true true false true false true true ARGUS_STA_CONNECTED
    ARGUS_DISCONNECT_CAT_NONE REASON_NONE 0 0 false true (str "10.0.0.7") ARGUS_WIFI_APPLY_IDLE 0 false false 0 false 0 false 0
    ARGUS_SERVICE_CANCEL_FAILURE_NONE ESP_OK.

Definition demo_operational : operational :=
  Operational (argus_state_core_get_snapshot argus_state_core_init) (AuthSnapshot ARGUS_AUTHORITY_SUPERVISORY ARGUS_AUTH_OWNER_MQTT 3)
    demo_network true 2000 true false.

Definition demo_out : list emission := (publish_baseline demo_identity demo_runtime demo_observations demo_operational).2.

Lemma demo_emitted : emitted code_of counting_ops demo_out.
Proof.
  assert (Hr : runtime_task code_of counting_ops (fun _ => None) stopper_topics demo_identity 1000 true demo_runtime (Published [] [])
    [RUNTIME_EVENT_PUBLISH_BASELINE] demo_observations demo_operational [] id demo_system
    = Some (demo_runtime, demo_system, (publish_baseline demo_identity demo_runtime demo_observations demo_operational).1, demo_out, []))
    by (unfold demo_out; cbn [runtime_task]; by destruct (publish_baseline _ _ _ _)).
  assert (He : (take_snapshots demo_runtime [] demo_out (Published [] [])).2 = demo_out) by by vm_compute.
  rewrite <- He. exact (EmittedEvent code_of counting_ops _ _ _ _ _ _ _ _ _ _ _ _ _ _ _ _ _ _ [] (Published [] []) Hr).
Qed.

Lemma retained_store_never_full_witness :
  length demo_out = 34%nat /\
  published_condition stopper_topics
    (publish_all stopper_topics true demo_out (Memory (broker_reset 0) (replicate ARGUS_MQTT_MAX_RETAINED (Retained false [] [])))).2
    status_network_fault ARGUS_MQTT_MAX_PAYLOAD_LEN = str "AP_STA_ADDRESS_CONFLICT".
Proof.
  split; [by vm_compute|].
  pose proof (retained_store_never_full code_of counting_ops (str "acme") (str "pump-7") stopper_topics [demo_out]
    (Memory (broker_reset 0) (replicate ARGUS_MQTT_MAX_RETAINED (Retained false [] []))) ltac:(by vm_compute)
    (Forall_cons_2 _ _ _ demo_emitted (Forall_nil_2 _)) eq_refl) as H.
  cbn [concat] in H. rewrite app_nil_r in H. destruct (publish_all _ _ _ _) as [errs m']. destruct H as (_ & _ & H).
  apply (H (take 31 demo_out) status_network_fault _ (drop 32 demo_out)).
  - by vm_compute.
  - apply Nat.ltb_lt. by vm_compute.
  - repeat (apply Forall_cons_2; [by intros [payload [=]]|]); apply Forall_nil_2.
Defined.
