(* ===== verification/MqttLifecycle.v ===== *)
(** * The life of the broker

    The start and the stop of the broker of [src/main/argus_mqtt_broker.c], its server task,
    which opens the listener and accepts connections, and the disconnection of a revoked
    machine.  Each is a program over [life_call]: the platform's calls, and the critical
    sections of the two mutexes, with the table of open descriptors as part of the [world].
    [sys_run] interleaves any number of them with the connections' tasks of [MqttClient].

    Who may close a descriptor is decided by who holds it: a [token] stands for a
    descriptor, a connection record, a unit of the client count, the server's handle or the
    claim on a shutdown; [owns] says that a program has the tokens its calls need, and the
    tokens the tasks hold are always those the world has [issued]. *)

From S2P Require Import Prelude MqttDecode MqttInvalidation MqttWire MqttBroker MqttAdmission MqttClient MqttService MachineAuth SecurityRecords NetLink NetManager Storage.

(** ** State *)

(** The event bits of [lifecycle_event_group]. *)
Inductive event_bit := BROKER_EVT_STARTED | BROKER_EVT_STOPPED | BROKER_EVT_CLIENTS_EXITED.

(** The fields of [s_broker] under [lifecycle_mutex], the client count and the event bits. *)
Record lifecycle := Lifecycle {
  lf_initialised : bool;
  lf_state : argus_broker_state_t;
  lf_startup_error : esp_err_t;
  lf_port : Z;
  lf_listen_sock : Z;
  lf_server_task : bool;
  lf_active_client_count : Z;
  lf_bits : event_bit -> bool
}.

#[export] Instance eta_lifecycle : Eta lifecycle := fun l =>
  Lifecycle (lf_initialised l) (lf_state l) (lf_startup_error l) (lf_port l) (lf_listen_sock l)
    (lf_server_task l) (lf_active_client_count l) (lf_bits l).

(** [wd_open]: the descriptors the platform has handed out and that are not closed. *)
Record world := World { wd_life : lifecycle; wd_memory : broker_memory; wd_open : list Z }.

#[export] Instance eta_world : Eta world := fun w => World (wd_life w) (wd_memory w) (wd_open w).

Definition no_bits (_ : event_bit) : bool := false.
Definition set_bit (b : event_bit) (bits : event_bit -> bool) : event_bit -> bool :=
  fun b' => match b, b' with
            | BROKER_EVT_STARTED, BROKER_EVT_STARTED | BROKER_EVT_STOPPED, BROKER_EVT_STOPPED
            | BROKER_EVT_CLIENTS_EXITED, BROKER_EVT_CLIENTS_EXITED => true
            | _, _ => bits b'
            end.

Definition clients_of (w : world) : list argus_mqtt_client_t := bk_clients (bm_broker (wd_memory w)).

(** ** Initialisation and observation *)

(** Whether the two mutexes and the event group could be created; none is kept unless all are. *)
Definition argus_mqtt_broker_init (lifecycle_mutex client_lock event_group : bool) (w : world) : esp_err_t * world :=
  if lf_initialised (wd_life w) then (ESP_ERR_INVALID_STATE, w)
  else if negb lifecycle_mutex then (ESP_ERR_NO_MEM, w)
  else if negb client_lock then (ESP_ERR_NO_MEM, w)
  else if negb event_group then (ESP_ERR_NO_MEM, w)
  else
    let b := bm_broker (wd_memory w) in
    let b := b <| bk_next_connection_id := 0 |> <| bk_invalidations := argus_mqtt_invalidation_init |> in
    (ESP_OK, w <| wd_life := Lifecycle true BROKER_STATE_STOPPED (lf_startup_error (wd_life w)) (lf_port (wd_life w))
                               (-1) false 0 no_bits |>
               <| wd_memory := Memory b (bm_retained (wd_memory w)) |>).

Definition lifecycle_obs (l : lifecycle) : argus_mqtt_broker_lifecycle_obs_t :=
  BrokerObs (lf_state l) (lf_active_client_count l) (lf_server_task l) (0 <=? lf_listen_sock l).

(** The answer of [BrokerObserve] in [NetManager]. *)
Definition argus_mqtt_broker_get_lifecycle_obs (l : lifecycle) : esp_err_t * option argus_mqtt_broker_lifecycle_obs_t :=
  if negb (lf_initialised l) then (ESP_ERR_INVALID_STATE, None) else (ESP_OK, Some (lifecycle_obs l)).

Record argus_mqtt_broker_capacity_t := BrokerCapacity {
  cp_max_connections : nat;
  cp_max_authenticated : nat;
  cp_max_pending : nat;
  cp_max_pending_unproven : nat;
  cp_max_pending_per_source : nat;
  cp_pending : nat;
  cp_authenticated : nat;
  cp_peak_pending : Z;
  cp_peak_authenticated : Z;
  cp_refused_pending_pool : Z;
  cp_refused_pending_source : Z;
  cp_refused_pending_reserved : Z;
  cp_refused_session_pool : Z;
  cp_retained_capacity : nat;
  cp_retained_used : nat
}.

(** The sizes of the records and of the stacks are the compiler's and are left out. *)
Definition argus_mqtt_broker_get_capacity (initialised : bool) (m : broker_memory) : argus_mqtt_broker_capacity_t :=
  let b := bm_broker m in
  let '(pending, authenticated) := if initialised then argus_mqtt_occupancy_locked b else (0, 0)%nat in
  {| cp_max_connections := ARGUS_MQTT_MAX_CONNECTIONS;
     cp_max_authenticated := ARGUS_MQTT_MAX_CLIENTS;
     cp_max_pending := ARGUS_MQTT_MAX_PRECONNECT;
     cp_max_pending_unproven := ARGUS_MQTT_MAX_PRECONNECT_UNPROVEN;
     cp_max_pending_per_source := ARGUS_MQTT_MAX_PRECONNECT_PER_SOURCE;
     cp_pending := pending;
     cp_authenticated := authenticated;
     cp_peak_pending := u16 (bk_peak_pending b);
     cp_peak_authenticated := u16 (bk_peak_authenticated b);
     cp_refused_pending_pool := bk_refused_preconnect_pool b;
     cp_refused_pending_source := bk_refused_preconnect_source b;
     cp_refused_pending_reserved := bk_refused_preconnect_reserved b;
     cp_refused_session_pool := bk_refused_session_pool b;
     cp_retained_capacity := ARGUS_MQTT_MAX_RETAINED;
     cp_retained_used := if initialised then length (List.filter rt_in_use (bm_retained m)) else 0 |}.

(** ** The interface a connection arrives on *)

(** The ends of the socket as the platform gives them: the local IPv4 address, and the
    addresses of the access point and of the station. *)
Definition argus_mqtt_receiving_interface (now_us : Z) (local : option Z) (ap sta : option Z) (c : iface_conflict)
    : Z * iface_conflict :=
  match local with
  | None => (0, c)
  | Some local_addr =>
      let valid (a : option Z) := match a with Some _ => true | None => false end in
      let '(iface, c) := argus_net_mgr_classify_interface now_us local_addr (valid ap) (default 0 ap)
                           (valid sta) (default 0 sta) c in
      match iface with
      | ARGUS_NET_IFACE_SOFTAP => (ARGUS_MACHINE_INTERFACE_SOFTAP, c)
      | ARGUS_NET_IFACE_STA => (ARGUS_MACHINE_INTERFACE_STA, c)
      | ARGUS_NET_IFACE_AMBIGUOUS => (0, (argus_net_mgr_interface_conflict_log_due now_us c).2)
      | ARGUS_NET_IFACE_UNKNOWN => (0, c)
      end
  end.

(** ** Calls *)

Inductive life_call : Type -> Type :=
(* the platform *)
| Socket : life_call Z
| Bind (sock port : Z) : life_call bool
| Listen (sock : Z) : life_call bool
| Accept (listener : Z) : life_call (Z * Z)            (* the socket and its peer's address *)
| ReceivingInterface (sock : Z) : life_call Z          (* [argus_mqtt_receiving_interface] *)
| ShutdownSocket (sock : Z) : life_call bool
| Close (sock : Z) : life_call unit
| SendPublish (sock : Z) (data : bytes) : life_call unit
| Pause : life_call unit
| CreateClientTask (slot : nat) : life_call bool
| SetBits (b : event_bit) : life_call unit
| WaitBits : life_call (event_bit -> bool)
(* the client count *)
| CountUp : life_call unit
| CountOff : life_call unit
| CountNow : life_call Z
(* sections of [lifecycle_mutex], and single reads *)
| Initialised : life_call bool
| Port : life_call Z
| StartupError : life_call esp_err_t
| StartBegin (port : Z) : life_call esp_err_t
| StartStopped : life_call unit
| StartTimeout : life_call Z
| StartFailed : life_call unit
| PublishListener (sock : Z) : life_call bool
| Listening : life_call (bool * Z)
| ServerGone : life_call unit
| StopBegin : life_call (option (bool * Z))
| StopFinish : life_call bool
(* sections of [client_lock] *)
| AllocClient (sock peer_key receiving_interface : Z) : life_call (option nat)
| DropClient (slot : nat) (sock : Z) : life_call unit  (* of the record the socket was given *)
| RetireSockets : life_call (option (list Z))
| Fence (identifier : bytes) : life_call esp_err_t
| ClaimAll (identifier : bytes) : life_call (bool * list argus_mqtt_disconnect_target_t)
| Release (target : argus_mqtt_disconnect_target_t) : life_call bool
| PublishSection (topic payload : bytes) (retain : bool) : life_call (esp_err_t * list (Z * bytes))
(* a call of the task of a connection *)
| OfClient (slot : nat) {X} (e : client_call X) : life_call X.

(** What a program ends with; [None] when it is not over yet, for the loops with a bound. *)
Abbreviation life := (prog life_call).
Abbreviation task := (life (option esp_err_t)).
Definition over (err : esp_err_t) : task := mret (Some err).

(** ** The critical sections *)

Definition close_fd (sock : Z) (w : world) : world := w <| wd_open ::= List.filter (fun s => negb (s =? sock)) |>.
Definition with_life (f : lifecycle -> lifecycle) (w : world) : world := w <| wd_life ::= f |>.
Definition with_broker (f : broker -> broker) (w : world) : world :=
  w <| wd_memory ::= fun m => Memory (f (bm_broker m)) (bm_retained m) |>.

Definition retained_reset : list argus_mqtt_retained_t := replicate ARGUS_MQTT_MAX_RETAINED (Retained false [] []).

(** The section of [argus_mqtt_broker_start]: everything but the counter of connections is
    set anew, and the server task is created while the mutex is held. *)
Definition start_begin (port : Z) (created : bool) (w : world) : esp_err_t * world :=
  if negb (bool_decide (lf_state (wd_life w) = BROKER_STATE_STOPPED)) then (ESP_ERR_INVALID_STATE, w)
  else if lf_server_task (wd_life w) then (ESP_ERR_INVALID_STATE, w)
  else
    let state := if created then BROKER_STATE_STARTING else BROKER_STATE_STOPPED in
    (if created then ESP_OK else ESP_ERR_NO_MEM,
     w <| wd_life := Lifecycle (lf_initialised (wd_life w)) state ESP_OK port (-1) created 0 no_bits |>
       <| wd_memory := Memory (broker_reset (bk_next_connection_id (bm_broker (wd_memory w)))) retained_reset |>).

(** The listener is taken out of the broker, and the mutex given back before it is closed. *)
Definition take_listener (l : lifecycle) : Z * lifecycle :=
  (lf_listen_sock l, l <| lf_state := BROKER_STATE_STOPPING |> <| lf_listen_sock := -1 |>).

(** The task of a failed start leaves. *)
Definition start_failed (l : lifecycle) : lifecycle := l <| lf_startup_error := ESP_FAIL |> <| lf_server_task := false |>.

Definition publish_listener (sock : Z) (l : lifecycle) : bool * lifecycle :=
  if bool_decide (lf_state l = BROKER_STATE_STARTING)
  then (true, l <| lf_listen_sock := sock |> <| lf_state := BROKER_STATE_RUNNING |> <| lf_startup_error := ESP_OK |>)
  else (false, l <| lf_server_task := false |>).

Definition running (l : lifecycle) : bool := bool_decide (lf_state l = BROKER_STATE_RUNNING).

(** The first section of [argus_mqtt_broker_stop]: [None] when everything is stopped;
    otherwise whether there is a server task to wait for, and the listener. *)
Definition stop_begin (l : lifecycle) : option (bool * Z) * lifecycle :=
  if argus_mqtt_broker_observation_is_stopped (lifecycle_obs l) then (None, l)
  else
    let '(listener, l) := take_listener (l <| lf_bits := no_bits |>) in
    (Some (lf_server_task l, listener), l).

Definition stop_finish (l : lifecycle) : bool * lifecycle :=
  let resources_absent := negb (lf_server_task l) && (lf_listen_sock l <? 0) && (lf_active_client_count l =? 0) in
  (resources_absent, if resources_absent then l <| lf_state := BROKER_STATE_STOPPED |> else l).

Definition claim_section (identifier : bytes) (b : broker) : bool * list argus_mqtt_disconnect_target_t * broker :=
  let '(targets, b') := disconnect_claim b identifier in
  (existsb (argus_mqtt_disconnect_matches_locked identifier) (bk_clients b), targets, b').

(** ** What a call does *)

(** The answers [e] may get in [w], and the world it leaves.  A descriptor the platform
    hands out is one it has not handed out yet; a wait ends when the platform lets it, with
    the bits that are set then. *)
Definition world_answer {X} (e : life_call X) (w : world) : X -> world -> Prop :=
  let stays (w' : world) := w' = w in
  let life {A} (f : lifecycle -> A * lifecycle) (x : A) (w' : world) :=
    x = (f (wd_life w)).1 /\ w' = with_life (fun l => (f l).2) w in
  let opened (s : Z) (w' : world) := (s < 0 /\ w' = w) \/ (0 <= s /\ (s ∉ wd_open w) /\ w' = (w <| wd_open ::= cons s |>)) in
  match e in life_call X return X -> world -> Prop with
  | Socket => opened
  | Accept _ => fun x w' => opened x.1 w'
  | Close s => fun _ w' => w' = close_fd s w
  | Bind _ _ | Listen _ | ShutdownSocket _ | CreateClientTask _ => fun _ => stays
  | ReceivingInterface _ => fun _ => stays
  | SendPublish _ _ | Pause => fun _ => stays
  | SetBits b => fun _ w' => w' = with_life (fun l => l <| lf_bits ::= set_bit b |>) w
  | WaitBits => fun bits w' => bits = lf_bits (wd_life w) /\ w' = w
  | CountUp => fun _ w' => w' = with_life (fun l => l <| lf_active_client_count ::= Z.add 1 |>) w
  | CountOff => fun _ w' => w' = with_life (fun l => l <| lf_active_client_count ::= Z.pred |>) w
  | CountNow => fun n w' => n = lf_active_client_count (wd_life w) /\ w' = w
  | Initialised => fun x w' => x = lf_initialised (wd_life w) /\ w' = w
  | Port => fun x w' => x = lf_port (wd_life w) /\ w' = w
  | StartupError => fun x w' => x = lf_startup_error (wd_life w) /\ w' = w
  | StartBegin port => fun x w' => exists created, start_begin port created w = (x, w')
  | StartStopped => fun _ w' => w' = with_life (fun l => l <| lf_state := BROKER_STATE_STOPPED |>) w
  | StartTimeout => life take_listener
  | StartFailed => fun _ w' => w' = with_life start_failed w
  | PublishListener s => life (publish_listener s)
  | Listening => fun x w' => x = (running (wd_life w), lf_listen_sock (wd_life w)) /\ w' = w
  | ServerGone => fun _ w' => w' = with_life (fun l => l <| lf_server_task := false |>) w
  | StopBegin => life stop_begin
  | StopFinish => life stop_finish
  | AllocClient s peer iface => fun x w' => exists source_is_proven,
      let '(result, b) := argus_mqtt_alloc_client_locked (bm_broker (wd_memory w)) s peer iface source_is_proven in
      x = match result with AllocOk i => Some i | _ => None end /\ w' = with_broker (fun _ => b) w
  | DropClient i _ => fun _ w' => w' = with_broker (drop_client i) w
  | RetireSockets => fun x w' =>
      x = (retire_sockets (bm_broker (wd_memory w))).1 /\ w' = with_broker (fun b => (retire_sockets b).2) w
  | Fence id => fun x w' =>
      x = (argus_mqtt_broker_fence_machine_authentication (bm_broker (wd_memory w)) id).1 /\
      w' = with_broker (fun b => (argus_mqtt_broker_fence_machine_authentication b id).2) w
  | ClaimAll id => fun x w' =>
      x = (claim_section id (bm_broker (wd_memory w))).1 /\ w' = with_broker (fun b => (claim_section id b).2) w
  | Release t => fun x w' =>
      x = (disconnect_release (bm_broker (wd_memory w)) t).1 /\ w' = with_broker (fun b => (disconnect_release b t).2) w
  | PublishSection topic payload retain => fun x w' =>
      let '(err, sends, m) := argus_mqtt_broker_publish (running (wd_life w)) (wd_memory w) topic payload retain in
      x = (err, sends) /\ w' = w <| wd_memory := m |>
  | OfClient i e =>
      match e in client_call X return X -> world -> Prop with
      | Locked s => fun x w' => exists m, enter i s (wd_memory w) = (x, m) /\ w' = w <| wd_memory := m |>
      | CloseSocket s => fun _ w' => w' = close_fd s w
      | CountDown => fun prev w' =>
          prev = lf_active_client_count (wd_life w) /\
          w' = with_life (fun l => l <| lf_active_client_count ::= Z.pred |>) w
      | SignalClientsExited => fun _ w' => w' = with_life (fun l => l <| lf_bits ::= set_bit BROKER_EVT_CLIENTS_EXITED |>) w
      | _ => fun _ => stays
      end
  end.

(** ** The server task *)

Definition start_failure : task := call StartFailed ;; call (SetBits BROKER_EVT_STOPPED) ;; over ESP_OK.

(** The first [rounds] rounds: true when the loop has not ended.  Socket options are left
    out. *)
Fixpoint accept_loop (rounds : nat) : life bool :=
  match rounds with
  | O => mret true
  | S rounds =>
      '(running, current_listen_sock) ← call Listening;
      if negb running || (current_listen_sock <? 0) then mret false
      else
        '(sock, peer) ← call (Accept current_listen_sock);
        if sock <? 0 then
          '(running, current_listen_sock) ← call Listening;
          if negb running || (current_listen_sock <? 0) then mret false
          else call Pause ;; accept_loop rounds
        else
          '(running, _) ← call Listening;
          if negb running then call (Close sock) ;; mret false
          else
            call CountUp ;;
            receiving_interface ← call (ReceivingInterface sock);
            client ← call (AllocClient sock peer receiving_interface);
            match client with
            | None => call CountOff ;; call (Close sock) ;; accept_loop rounds
            | Some i =>
                created ← call (CreateClientTask i);
                (if (created : bool) then mret tt
                 else call (DropClient i sock) ;; call CountOff ;; call (Close sock)) ;;
                accept_loop rounds
            end
  end.

Definition argus_mqtt_server_task (rounds : nat) : task :=
  listen_sock ← call Socket;
  if listen_sock <? 0 then start_failure
  else
    port ← call Port;
    bound ← call (Bind listen_sock port);
    if negb bound then call (Close listen_sock) ;; start_failure
    else
      listening ← call (Listen listen_sock);
      if negb listening then call (Close listen_sock) ;; start_failure
      else
        published ← call (PublishListener listen_sock);
        if negb published then call (Close listen_sock) ;; call (SetBits BROKER_EVT_STOPPED) ;; over ESP_OK
        else
          call (SetBits BROKER_EVT_STARTED) ;;
          more ← accept_loop rounds;
          if (more : bool) then mret None
          else call ServerGone ;; call (SetBits BROKER_EVT_STOPPED) ;; over ESP_OK.

(** The task of a connection, from [MqttClient]. *)
Fixpoint of_client {A} (slot : nat) (p : client A) : life A :=
  match p with
  | Ret a => Ret a
  | Op e k => Op (OfClient slot e) (fun x => of_client slot (k x))
  end.

Definition client_task (slot : nat) (on_message on_client_event : bool) (rounds waits : nat) : task :=
  ended ← of_client slot (argus_mqtt_client_task on_message on_client_event rounds waits);
  if (ended : bool) then over ESP_OK else mret None.

(** ** Start and stop *)

Definition close_listener (listener : Z) : life unit :=
  if 0 <=? listener then call (ShutdownSocket listener) ;; call (Close listener) else mret tt.

(** [config]: the port, when the configuration and its security callbacks are there. *)
Definition argus_mqtt_broker_start (config : option Z) : task :=
  match config with
  | None => over ESP_ERR_INVALID_ARG
  | Some port =>
      initialised ← call Initialised;
      if negb initialised then over ESP_ERR_INVALID_STATE
      else
        begun ← call (StartBegin port);
        if negb (is_ok begun) then over begun
        else
          bits ← call WaitBits;
          if (bits : event_bit -> bool) BROKER_EVT_STARTED then over ESP_OK
          else if bits BROKER_EVT_STOPPED then
            call StartStopped ;;
            startup_error ← call StartupError;
            over (if is_ok startup_error then ESP_FAIL else startup_error)
          else
            timed_out_listener ← call StartTimeout;
            close_listener timed_out_listener ;;
            bits ← call WaitBits;
            (if (bits : event_bit -> bool) BROKER_EVT_STOPPED then call StartStopped else mret tt) ;;
            over ESP_ERR_TIMEOUT
  end.

(** [None] when a shutdown is still claimed after [waits] pauses. *)
Fixpoint retire_loop (waits : nat) : life (option (list Z)) :=
  sockets ← call RetireSockets;
  match sockets, waits with
  | Some sockets, _ => mret (Some sockets)
  | None, O => mret None
  | None, S waits => call Pause ;; retire_loop waits
  end.

Fixpoint close_sockets (sockets : list Z) : life unit :=
  match sockets with
  | [] => mret tt
  | s :: sockets => call (ShutdownSocket s) ;; call (Close s) ;; close_sockets sockets
  end.

(** Whether the clients left within the wait. *)
Definition drained : life bool :=
  active ← call CountNow;
  if 0 <? active then
    bits ← call WaitBits;
    if (bits : event_bit -> bool) BROKER_EVT_CLIENTS_EXITED then mret true
    else active ← call CountNow; mret (negb (0 <? active))
  else mret true.

Definition argus_mqtt_broker_stop (waits : nat) : task :=
  initialised ← call Initialised;
  if negb initialised then over ESP_ERR_INVALID_STATE
  else
    begun ← call StopBegin;
    match begun with
    | None => over ESP_OK
    | Some (wait_for_server_task, listener) =>
        close_listener listener ;;
        retired ← retire_loop waits;
        match retired with
        | None => mret None
        | Some sockets =>
            close_sockets sockets ;;
            server_exited ← (if wait_for_server_task : bool
                             then bits ← call WaitBits; mret ((bits : event_bit -> bool) BROKER_EVT_STOPPED) else mret true);
            if negb server_exited then over ESP_ERR_TIMEOUT
            else
              clients_exited ← drained;
              if negb clients_exited then over ESP_ERR_TIMEOUT
              else
                resources_absent ← call StopFinish;
                over (if (resources_absent : bool) then ESP_OK else ESP_ERR_TIMEOUT)
        end
    end.

(** ** A revoked machine *)

(** Whether a shutdown, or the return of a claim, failed. *)
Fixpoint shutdown_targets (targets : list argus_mqtt_disconnect_target_t) (shutdown_failed : bool) : life bool :=
  match targets with
  | [] => mret shutdown_failed
  | t :: targets =>
      shut ← call (ShutdownSocket (tg_socket_fd t));
      released ← call (Release t);
      shutdown_targets targets (shutdown_failed || negb shut || negb released)
  end.

Definition argus_mqtt_broker_disconnect_machine (identifier : bytes) : task :=
  initialised ← call Initialised;
  if bool_decide (identifier = []) || negb initialised then over ESP_ERR_INVALID_ARG
  else
    fence ← call (Fence identifier);
    if negb (is_ok fence) then over fence
    else
      '(matched, targets) ← call (ClaimAll identifier);
      shutdown_failed ← shutdown_targets targets false;
      over (if (shutdown_failed : bool) then ESP_FAIL else if (matched : bool) then ESP_OK else ESP_ERR_NOT_FOUND).

(** ** A publication of the controller *)

Fixpoint send_all (sends : list (Z * bytes)) : life unit :=
  match sends with
  | [] => mret tt
  | (sock, data) :: sends => call (SendPublish sock data) ;; send_all sends
  end.

(** [argus_mqtt_broker_publish]: the sockets are collected in one section, and written to
    after it. *)
Definition publish_call (topic payload : bytes) (retain : bool) : task :=
  '(err, sends) ← call (PublishSection topic payload retain);
  send_all sends ;;
  over err.

(** ** Runs *)

(** The tasks a call creates: the server's by the section of the start, a connection's by
    the server.  How long each is followed, and the two callbacks, are free. *)
Definition creates {X} (e : life_call X) : X -> list task -> Prop :=
  match e in life_call X return X -> list task -> Prop with
  | StartBegin _ => fun err ts =>
      if is_ok err then exists rounds, ts = [argus_mqtt_server_task rounds] else ts = []
  | CreateClientTask i => fun created ts =>
      if (created : bool) then exists on_message on_client_event rounds waits, ts = [client_task i on_message on_client_event rounds waits]
      else ts = []
  | _ => fun _ ts => ts = []
  end.

(** What the rest of the firmware may call, whenever it likes. *)
Inductive entry : task -> Prop :=
| EnterStart config : entry (argus_mqtt_broker_start config)
| EnterStop waits : entry (argus_mqtt_broker_stop waits)
| EnterDisconnect identifier : entry (argus_mqtt_broker_disconnect_machine identifier)
| EnterPublish topic payload retain : entry (publish_call topic payload retain).

(** A step of a run: the call task [ta_task] made, its answer, and the world it found. *)
Record taken := Taken { ta_task : nat; ta_type : Type; ta_call : life_call ta_type; ta_answer : ta_type; ta_world : world }.
Arguments Taken ta_task {ta_type}.

Inductive sys_run : world * list task -> list taken -> world * list task -> Prop :=
| RunNil s : sys_run s [] s
| RunCall n X (e : life_call X) k x w w' ts new ls s' :
    ts !! n = Some (Op e k) -> world_answer e w x w' -> creates e x new ->
    sys_run (w', <[n := k x]> ts ++ new) ls s' -> sys_run (w, ts) (Taken n e x w :: ls) s'
| RunEnter p w ts ls s' : entry p -> sys_run (w, ts ++ [p]) ls s' -> sys_run (w, ts) ls s'.

(** The broker after [argus_mqtt_broker_init]. *)
Definition broker_initial : world :=
  World (Lifecycle true BROKER_STATE_STOPPED ESP_OK 0 (-1) false 0 no_bits) (Memory (broker_reset 0) retained_reset) [].

(** ** Tokens *)

(** What a task may hold: a descriptor it has to close, a connection record, a unit of the
    client count, the server's handle, the claim on the shutdown of a connection. *)
Inductive token :=
| Descriptor (sock : Z)
| Record_of (slot : nat)
| Unit
| Server
| Claimed (target : argus_mqtt_disconnect_target_t).

#[export] Instance target_eq_dec : EqDecision argus_mqtt_disconnect_target_t.
Proof. solve_decision. Defined.
#[export] Instance token_eq_dec : EqDecision token.
Proof. solve_decision. Defined.

Definition many (t : token) (h : list token) : Z := Z.of_nat (length (List.filter (fun u => bool_decide (u = t)) h)).

Definition fd_token (sock : Z) : list token := if 0 <=? sock then [Descriptor sock] else [].

Definition socket_is (sock : Z) (c : argus_mqtt_client_t) : bool := has_socket c && (cl_sock c =? sock).
Definition claimed_for (t : argus_mqtt_disconnect_target_t) (c : argus_mqtt_client_t) : bool :=
  has_socket c && cl_shutdown_claimed c && (cl_connection_id c =? tg_connection_id t) && (cl_sock c =? tg_socket_fd t).

(** How many of [t] the tasks of [w] hold, as [w] shows it: an open descriptor is the
    listener, the socket of a record in use, or a task's. *)
Definition issued (w : world) (t : token) : Z :=
  match t with
  | Descriptor s =>
      Z.b2z (bool_decide (s ∈ wd_open w)) - many t (fd_token (lf_listen_sock (wd_life w)))
      - Z.of_nat (count_clients (socket_is s) (clients_of w))
  | Record_of i => Z.b2z (from_option cl_in_use false (clients_of w !! i))
  | Unit => lf_active_client_count (wd_life w)
  | Server => Z.b2z (lf_server_task (wd_life w))
  | Claimed g => Z.b2z (from_option (claimed_for g) false (clients_of w !! tg_slot g))
  end.

(** What the answer [x] to [e] takes from the task, what it gives to it, and what it gives
    to the task it creates. *)
Definition uses {X} (e : life_call X) : X -> list token :=
  match e in life_call X return X -> list token with
  | Close s => fun _ => [Descriptor s]
  | CountOff => fun _ => [Unit]
  | PublishListener s => fun published => if (published : bool) then [Descriptor s] else [Server]
  | StartFailed | ServerGone => fun _ => [Server]
  | AllocClient s _ _ => fun x => match x with Some _ => [Descriptor s] | None => [] end
  | CreateClientTask i => fun created => if (created : bool) then [Record_of i; Unit] else []
  | DropClient i _ => fun _ => [Record_of i]
  | Release t => fun released => if (released : bool) then [Claimed t] else []
  | OfClient i e =>
      match e in client_call X return X -> list token with
      | Locked s =>
          match s in section X return X -> list token with
          | TryClose => fun x => match x with Some _ => [Record_of i] | None => [] end
          | _ => fun _ => []
          end
      | CloseSocket s => fun _ => [Descriptor s]
      | CountDown => fun _ => [Unit]
      | _ => fun _ => []
      end
  | _ => fun _ => []
  end.

Definition yields {X} (e : life_call X) : X -> list token :=
  match e in life_call X return X -> list token with
  | Socket => fd_token
  | Accept _ => fun x => fd_token x.1
  | CountUp => fun _ => [Unit]
  | StartTimeout => fd_token
  | StopBegin => fun x => match x with Some (_, listener) => fd_token listener | None => [] end
  | AllocClient _ _ _ => fun x => match x with Some i => [Record_of i] | None => [] end
  | DropClient _ s => fun _ => [Descriptor s]
  | RetireSockets => fun x => match x with Some sockets => Descriptor <$> sockets | None => [] end
  | ClaimAll _ => fun x => Claimed <$> x.2
  | OfClient i e =>
      match e in client_call X return X -> list token with
      | Locked s =>
          match s in section X return X -> list token with
          | TryClose => fun x => match x with Some (_, sock, _) => fd_token sock | None => [] end
          | _ => fun _ => []
          end
      | _ => fun _ => []
      end
  | _ => fun _ => []
  end.

Definition endows {X} (e : life_call X) : X -> list token :=
  match e in life_call X return X -> list token with
  | StartBegin _ => fun err => if is_ok err then [Server] else []
  | CreateClientTask i => fun created => if (created : bool) then [Record_of i; Unit] else []
  | _ => fun _ => []
  end.

(** What [e] needs besides: a shutdown is of a descriptor of one's own, or of a claimed
    one. *)
Definition entitled {X} (h : list token) (e : life_call X) : Prop :=
  match e with
  | ShutdownSocket s => Descriptor s ∈ h \/ exists g, Claimed g ∈ h /\ tg_socket_fd g = s
  | Release g => Claimed g ∈ h
  | DropClient _ s => 0 <= s
  | _ => True
  end.

(** The answers a task with the tokens for its calls has to reckon with: a claim it holds
    is given back. *)
Definition possible {X} (e : life_call X) : X -> Prop :=
  match e in life_call X return X -> Prop with Release _ => fun released => released = true | _ => fun _ => True end.

(** A record is worked on by a task that is counted. *)
Definition counted (h : list token) : Prop := forall i, Record_of i ∈ h -> Unit ∈ h.

(** [p], with the tokens [h], has what its calls need, and ends in [post]. *)
Fixpoint owns {A} (h : list token) (p : life A) (post : list token -> A -> Prop) : Prop :=
  counted h /\
  match p with
  | Ret a => post h a
  | Op e k => entitled h e /\
      forall x, possible e x -> exists rest, h ≡ₚ uses e x ++ rest /\ owns (yields e x ++ rest) (k x) post
  end.

Definition task_post (h : list token) (r : option esp_err_t) : Prop := r <> None -> h = [].

(** ** Assumptions on a run *)

(** Two things the code relies on and does not ensure.  A start that finds STOPPED published
    finds everything stopped: false after a start that gave up waiting for its server, see
    [start_timeout_leaves_connections].  The record of a connection whose task cannot be
    created is still as the allocation left it: false when a stop came between the two, see
    [create_failure_closes_twice].  A step is orderly when neither fails in it. *)
Definition in_order {X} (e : life_call X) (w : world) : Prop :=
  match e with
  | StartBegin _ =>
      lf_state (wd_life w) = BROKER_STATE_STOPPED -> lf_server_task (wd_life w) = false ->
      argus_mqtt_broker_observation_is_stopped (lifecycle_obs (wd_life w)) = true
  | DropClient i s => exists connection_id peer iface, clients_of w !! i = Some (new_client s connection_id peer iface)
  | _ => True
  end.
Definition orderly (l : taken) : Prop := in_order (ta_call l) (ta_world l).

(** The descriptors handed out are not negative; there is no listener while starting. *)
Record sane (w : world) : Prop := {
  sn_open : Forall (Z.le 0) (wd_open w);
  sn_starting : lf_state (wd_life w) = BROKER_STATE_STARTING -> lf_listen_sock (wd_life w) < 0
}.

(** ** Counting tokens *)

Lemma many_nil t : many t [] = 0.
Proof. done. Qed.
Lemma many_cons t u h : many t (u :: h) = Z.b2z (bool_decide (u = t)) + many t h.
Proof. unfold many. cbn [List.filter]. destruct (bool_decide (u = t)); cbn [length Z.b2z]; lia. Qed.
Lemma many_app t h h' : many t (h ++ h') = many t h + many t h'.
Proof. induction h as [|u h IH]; [done|]. cbn [app]. rewrite !many_cons, IH. lia. Qed.
Lemma many_nonneg t h : 0 <= many t h.
Proof. unfold many. lia. Qed.
Lemma many_perm t h h' : h ≡ₚ h' -> many t h = many t h'.
Proof. induction 1; rewrite ?many_cons in *; lia. Qed.
Lemma many_in t h : t ∈ h <-> 1 <= many t h.
Proof.
  induction h as [|u h IH]; [by split; [inversion 1|]|]. rewrite many_cons, elem_of_cons, IH. pose proof (many_nonneg t h).
  destruct (bool_decide_reflect (u = t)) as [->|Hne]; cbn [Z.b2z]; [split; [lia|auto]|]. split; [intros [->|?]; [done|lia]|intros ?; right; lia].
Qed.
Lemma many_concat_insert t hs n h h' : hs !! n = Some h ->
  many t (concat (<[n := h']> hs)) = many t (concat hs) - many t h + many t h'.
Proof.
  revert n. induction hs as [|g hs IH]; intros [|n] Hn; [done|done| |].
  - injection Hn as ->. change (<[0%nat := h']> (h :: hs)) with (h' :: hs). cbn [concat]. rewrite !many_app. lia.
  - change (<[S n := h']> (g :: hs)) with (g :: <[n := h']> hs). cbn [concat]. rewrite !many_app, (IH n Hn). lia.
Qed.
Lemma many_concat_lookup t (hs : list (list token)) n h : hs !! n = Some h -> many t h <= many t (concat hs).
Proof. intros Hn. pose proof (many_concat_insert t hs n h [] Hn) as H. rewrite many_nil in H. pose proof (many_nonneg t (concat (<[n := []]> hs))). lia. Qed.

Lemma many_fmap_other {A} (f : A -> token) t l : (forall x, f x <> t) -> many t (f <$> l) = 0.
Proof. intros Ht. induction l as [|x l IH]; [done|]. cbn [fmap list_fmap]. rewrite many_cons, IH, bool_decide_eq_false_2 by apply Ht. done. Qed.

Lemma many_fd s sock : many (Descriptor s) (fd_token sock) = Z.b2z ((0 <=? sock) && (sock =? s)).
Proof.
  unfold fd_token. destruct (0 <=? sock); [|done]. rewrite many_cons, many_nil. cbn [andb].
  destruct (Z.eqb_spec sock s) as [->|]; [by rewrite bool_decide_eq_true_2|rewrite bool_decide_eq_false_2 by congruence; done].
Qed.
Lemma many_fd_other t sock : (forall s, t <> Descriptor s) -> many t (fd_token sock) = 0.
Proof. intros Ht. unfold fd_token. destruct (0 <=? sock); [|done]. rewrite many_cons, bool_decide_eq_false_2 by (intros <-; by apply (Ht sock)). done. Qed.

(** ** What a record accounts for *)

Definition account (i : nat) (c : argus_mqtt_client_t) (t : token) : Z :=
  match t with
  | Descriptor s => - Z.b2z (socket_is s c)
  | Record_of j => if (j =? i)%nat then Z.b2z (cl_in_use c) else 0
  | Claimed g => if (tg_slot g =? i)%nat then Z.b2z (claimed_for g c) else 0
  | _ => 0
  end.

(** The tokens of a record only depend on these fields. *)
Definition alike (c d : argus_mqtt_client_t) : Prop :=
  cl_in_use d = cl_in_use c /\ cl_sock d = cl_sock c /\ cl_shutdown_claimed d = cl_shutdown_claimed c
  /\ cl_connection_id d = cl_connection_id c.

Lemma alike_refl c : alike c c.
Proof. by repeat split. Qed.
#[local] Hint Resolve alike_refl : core.

Lemma account_alike i c d t : alike c d -> account i d t = account i c t.
Proof. intros (Hu & Hs & Hc & Hi). destruct t; cbn; unfold socket_is, claimed_for, has_socket; by rewrite ?Hu, ?Hs, ?Hc, ?Hi. Qed.

Definition same_rest (w w' : world) : Prop :=
  wd_open w' = wd_open w /\ lf_listen_sock (wd_life w') = lf_listen_sock (wd_life w)
  /\ lf_server_task (wd_life w') = lf_server_task (wd_life w)
  /\ lf_active_client_count (wd_life w') = lf_active_client_count (wd_life w).

Lemma issued_replace w w' i c d t : same_rest w w' -> clients_of w !! i = Some c -> clients_of w' = <[i := d]> (clients_of w) ->
  issued w' t = issued w t - account i c t + account i d t.
Proof.
  intros (Ho & Hl & Hs & Hn) Hi Hw. destruct t as [s|j| | |g]; cbn [issued account]; rewrite ?Ho, ?Hl, ?Hs, ?Hn, ?Hw; [| |lia|lia|].
  - pose proof (count_client_insert (socket_is s) _ i c d Hi). destruct (socket_is s c), (socket_is s d); cbn; lia.
  - destruct (Nat.eqb_spec j i) as [->|Hne].
    + rewrite list_lookup_insert_eq by eauto using lookup_lt_Some. rewrite Hi. cbn. lia.
    + rewrite list_lookup_insert_ne by done. lia.
  - destruct (Nat.eqb_spec (tg_slot g) i) as [->|Hne].
    + rewrite list_lookup_insert_eq by eauto using lookup_lt_Some. rewrite Hi. cbn. lia.
    + rewrite list_lookup_insert_ne by done. lia.
Qed.

Lemma issued_alike w w' t : same_rest w w' -> Forall2 alike (clients_of w) (clients_of w') -> issued w' t = issued w t.
Proof.
  intros (Ho & Hl & Hs & Hn) HF.
  assert (Hpt : forall (p : argus_mqtt_client_t -> bool) i, (forall c d, alike c d -> p d = p c) ->
    from_option p false (clients_of w' !! i) = from_option p false (clients_of w !! i)).
  { intros p i Hp. destruct (clients_of w' !! i) as [d|] eqn:Hd.
    - destruct (Forall2_lookup_r _ _ _ _ _ HF Hd) as (c & -> & Hc). by apply Hp.
    - apply lookup_ge_None in Hd. rewrite <- (Forall2_length _ _ _ HF) in Hd. by apply lookup_ge_None in Hd as ->. }
  destruct t as [s|j| | |g]; cbn [issued]; rewrite ?Ho, ?Hl, ?Hs, ?Hn; [|rewrite Hpt; [done|by intros ?? (-> & _)]|done|done|].
  - unfold count_clients. rewrite (filter_same alike (socket_is s) _ _ ltac:(unfold socket_is, has_socket; by intros ?? (-> & -> & _)) HF). done.
  - rewrite Hpt; [done|]. unfold claimed_for, has_socket. by intros ?? (-> & -> & -> & ->).
Qed.

Lemma issued_life w f t : (forall l, lf_listen_sock (f l) = lf_listen_sock l) -> (forall l, lf_server_task (f l) = lf_server_task l) ->
  (forall l, lf_active_client_count (f l) = lf_active_client_count l) -> issued (with_life f w) t = issued w t.
Proof.
  intros Hl Hs Hn. apply issued_alike; [split_and!; cbn; auto|]. unfold clients_of. cbn. apply Forall2_same_length_lookup. split; [done|]. intros; simplify_eq; auto.
Qed.

Lemma alike_clients_refl l : Forall2 alike l l.
Proof. induction l; constructor; auto. Qed.
Lemma alike_insert l i c d : l !! i = Some c -> alike c d -> Forall2 alike l (<[i := d]> l).
Proof.
  intros Hi Ha. apply Forall2_same_length_lookup. rewrite length_insert. split; [done|]. intros j x y Hx Hy.
  destruct (decide (i = j)) as [<-|Hne].
  - rewrite list_lookup_insert_eq in Hy by eauto using lookup_lt_Some. by simplify_eq.
  - rewrite list_lookup_insert_ne in Hy by done. by simplify_eq.
Qed.
#[local] Hint Resolve alike_clients_refl : core.

(** ** The sections and the records *)

Lemma alloc_effect b s peer iface proven result b' : argus_mqtt_alloc_client_locked b s peer iface proven = (result, b') ->
  match result with
  | AllocOk i => exists c id, bk_clients b !! i = Some c /\ cl_in_use c = false /\ bk_clients b' = <[i := new_client s id peer iface]> (bk_clients b)
  | _ => bk_clients b' = bk_clients b
  end.
Proof.
  unfold argus_mqtt_alloc_client_locked. pose proof (admit_refuse_same b peer proven) as (Hc & _).
  destruct (argus_mqtt_preconnect_admit_locked b peer proven) as [admitted b1]. cbn [fst snd] in Hc. destruct admitted; cbn [negb]; [|by intros [= <- <-]].
  destruct (find_index _ _) as [i|] eqn:Hf; [|by intros [= <- <-]]. intros [= <- <-].
  destruct (find_index_some _ _ _ Hf) as (c & Hi & Hu%negb_true_iff). rewrite Hc in Hi. exists c, (u64 (bk_next_connection_id b1 + 1)).
  split_and!; [done|done|]. cbn. by rewrite Hc.
Qed.

Lemma close_effect b i closed b' : argus_mqtt_close_client b i = (closed, b') ->
  if closed then exists c, bk_clients b !! i = Some c /\ cl_shutdown_claimed c = false /\ bk_clients b' = <[i := closed_client c]> (bk_clients b)
  else b' = b.
Proof.
  unfold argus_mqtt_close_client. destruct (bk_clients b !! i) as [c|] eqn:Hi; [|by intros [= <- <-]].
  unfold argus_mqtt_client_close_allowed_locked. destruct (cl_shutdown_claimed c) eqn:Hc; cbn [negb]; intros [= <- <-]; [done|]. eauto.
Qed.

Lemma release_effect b g released b' : disconnect_release b g = (released, b') ->
  (exists c, bk_clients b !! tg_slot g = Some c /\ bk_clients b' = <[tg_slot g := if released then set_claim false c else c]> (bk_clients b)
     /\ released = cl_shutdown_claimed c && cl_in_use c && (cl_connection_id c =? tg_connection_id g) && (cl_sock c =? tg_socket_fd g))
  \/ bk_clients b !! tg_slot g = None /\ released = false /\ b' = b.
Proof.
  unfold disconnect_release, argus_mqtt_release_disconnect_claim_locked. destruct (bk_clients b !! tg_slot g) as [c|] eqn:Hc; [|intros [= <- <-]; by right].
  destruct (cl_shutdown_claimed c) eqn:E1, (cl_in_use c) eqn:E2, (_ =? tg_connection_id g) eqn:E3, (_ =? tg_socket_fd g) eqn:E4;
    cbn; intros [= <- <-]; left; exists c; (split_and!; [done|done|by rewrite ?E1, ?E2, ?E3, ?E4]).
Qed.

Lemma drop_effect i b c : bk_clients b !! i = Some c -> exists d, bk_clients (drop_client i b) = <[i := d]> (bk_clients b) /\ cl_in_use d = false.
Proof. intros Hi. unfold drop_client. rewrite Hi. eexists. split; [reflexivity|done]. Qed.

Lemma fence_alike b id : Forall2 alike (bk_clients b) (bk_clients (argus_mqtt_broker_fence_machine_authentication b id).2).
Proof.
  unfold argus_mqtt_broker_fence_machine_authentication. destruct id as [|x id]; [done|].
  destruct (argus_mqtt_invalidation_record _ _) as [[] j]; [|done]. cbn. generalize (bk_clients b) as l.
  induction l as [|c l IH]; constructor; [|done]. destruct (argus_mqtt_disconnect_matches_locked _ c); [by repeat split|done].
Qed.

Lemma section_alike i X (s : section X) m x m' : enter i s m = (x, m') -> (forall y, uses (OfClient i (Locked s)) y = []) ->
  Forall2 alike (bk_clients (bm_broker m)) (bk_clients (bm_broker m')).
Proof.
  destruct s; cbn [enter]; intros He Hu; try (by simplify_eq).
  - injection He as _ <-. cbn. unfold note_activity. destruct (bk_clients _ !! i) as [c|] eqn:Hc; [|done]. by apply (alike_insert _ _ c).
  - destruct (connect_begin _ i request) as [p b] eqn:Hb. injection He as _ <-. cbn. unfold connect_begin in Hb.
    destruct (bk_clients _ !! i); [destruct (_ && _)|]; simplify_eq; done.
  - destruct (connect_bind _ i principal now_us) as [r b] eqn:Hb. injection He as _ <-. cbn. unfold connect_bind in Hb.
    destruct (bk_clients (bm_broker m) !! i) as [c|] eqn:Hc; [|by simplify_eq].
    destruct (bk_handshakes _ !! i) as [[h|]|]; [|by simplify_eq..]. destruct (argus_mqtt_bind_allowed_locked _ _ _ _ _ _); [|by simplify_eq].
    destruct (argus_mqtt_session_claim_locked _ c) as [[slot ss]|]; simplify_eq; [|done]. by apply (alike_insert _ _ c).
  - destruct (subscribe_commit _ i connection_id filters) as [ok b] eqn:Hb. injection He as _ <-. cbn. unfold subscribe_commit in Hb.
    destruct (bk_clients _ !! i); [|by simplify_eq]. destruct (cl_session_slot _); [|by simplify_eq]. destruct (bk_sessions _ !! _); [|by simplify_eq].
    destruct (_ && _); by simplify_eq.
  - destruct (argus_mqtt_client_admitted_locked _ _); [|by simplify_eq]. destruct (argus_mqtt_store_retained_locked _ _ _) as [e r]. by simplify_eq.
  - exfalso. by specialize (Hu (Some (ClientInfo 0 0 [] no_principal, 0, true))).
Qed.

Definition claimed_at (g : argus_mqtt_disconnect_target_t) (k : nat) (l : list argus_mqtt_client_t) : bool :=
  if (k <=? tg_slot g)%nat then from_option (claimed_for g) false (l !! (tg_slot g - k)%nat) else false.

Lemma claimed_at_cons g k c l : claimed_at g k (c :: l) = if (tg_slot g =? k)%nat then claimed_for g c else claimed_at g (S k) l.
Proof.
  unfold claimed_at. destruct (Nat.eqb_spec (tg_slot g) k) as [->|Hne]; [by rewrite Nat.leb_refl, Nat.sub_diag|].
  destruct (Nat.leb_spec k (tg_slot g)), (Nat.leb_spec (S k) (tg_slot g)); try lia; try done.
  by replace (tg_slot g - k)%nat with (S (tg_slot g - S k)) by lia.
Qed.

(** A claim: the records stay, and each claimed one has a target. *)
Lemma claim_effect id l : forall k, let '(l', targets) := claim_all id k l in
  length l' = length l /\ Forall2 (fun c d => cl_in_use d = cl_in_use c /\ cl_sock d = cl_sock c) l l' /\
  forall g, many (Claimed g) (Claimed <$> targets) = Z.b2z (claimed_at g k l') - Z.b2z (claimed_at g k l).
Proof.
  induction l as [|c l IH]; intros k; cbn [claim_all].
  { split_and!; [done|constructor|]. intros g. change (many _ _) with 0. lia. }
  specialize (IH (S k)). destruct (claim_all id (S k) l) as [l' targets]. destruct IH as (Hl & HF & IH).
  destruct (argus_mqtt_claim_disconnect_locked c k id) as [d t] eqn:Hc.
  assert (Hd : cl_in_use d = cl_in_use c /\ cl_sock d = cl_sock c /\ forall g,
    match t with Some t => Z.b2z (bool_decide (Claimed t = Claimed g)) | None => 0 end
    = (if (tg_slot g =? k)%nat then Z.b2z (claimed_for g d) - Z.b2z (claimed_for g c) else 0)).
  { unfold argus_mqtt_claim_disconnect_locked in Hc. destruct (argus_mqtt_disconnect_matches_locked id c) eqn:Hm; cbn [negb] in Hc.
    2:{ simplify_eq. split_and!; [done|done|]. intros g. destruct (_ =? k)%nat; lia. }
    unfold argus_mqtt_disconnect_matches_locked in Hm. apply andb_true_iff in Hm as [[[Hu _]%andb_true_iff Hs]%andb_true_iff _].
    cbn [cl_shutdown_claimed invalidated] in Hc. destruct (cl_shutdown_claimed c) eqn:Hcl; simplify_eq; (split_and!; [done|done|]); intros g.
    - assert (claimed_for g (invalidated c) = claimed_for g c) as -> by done. destruct (_ =? k)%nat; lia.
    - assert (claimed_for g c = false) as -> by (unfold claimed_for; rewrite Hcl; by destruct (has_socket c)). cbn [Z.b2z].
      unfold claimed_for, has_socket. cbn. rewrite Hu, Hs. cbn. destruct g as [slot conn fd]. cbn.
      destruct (Nat.eqb_spec slot k) as [->|Hne]; [|by rewrite bool_decide_eq_false_2 by congruence].
      destruct (Z.eqb_spec (cl_connection_id c) conn) as [<-|]; [|by rewrite bool_decide_eq_false_2 by congruence].
      destruct (Z.eqb_spec (cl_sock c) fd) as [<-|]; [by rewrite bool_decide_eq_true_2|by rewrite bool_decide_eq_false_2 by congruence]. }
  destruct Hd as (Hu & Hs & Hd). split_and!; [cbn; lia|by constructor|]. intros g.
  assert (Hm : many (Claimed g) (Claimed <$> (match t with Some t => t :: targets | None => targets end))
    = match t with Some t => Z.b2z (bool_decide (Claimed t = Claimed g)) | None => 0 end + many (Claimed g) (Claimed <$> targets)).
  { destruct t; [apply many_cons|done]. }
  rewrite Hm, Hd, IH, !claimed_at_cons. destruct (Nat.eqb_spec (tg_slot g) k) as [Heq|Hne]; [|lia].
  unfold claimed_at. destruct (Nat.leb_spec (S k) (tg_slot g)); [lia|]. cbn [Z.b2z]. lia.
Qed.

(** The sockets that are retired. *)
Lemma retire_effect l : existsb cl_shutdown_claimed l = false ->
  let l' := (fun c => if has_socket c then set_sock (-1) c else c) <$> l in
  (forall s, Z.of_nat (count_clients (socket_is s) l) = many (Descriptor s) (Descriptor <$> (cl_sock <$> List.filter has_socket l))) /\
  (forall s, count_clients (socket_is s) l' = 0%nat) /\
  (forall (i : nat), from_option cl_in_use false (l' !! i) = from_option cl_in_use false (l !! i)) /\
  (forall g (i : nat), from_option (claimed_for g) false (l' !! i) = false /\ from_option (claimed_for g) false (l !! i) = false).
Proof.
  induction l as [|c l IH]; intros Hn; [by split_and!|]. cbn [existsb] in Hn. apply orb_false_iff in Hn as [Hc Hn]. specialize (IH Hn) as (I1 & I2 & I3 & I4).
  assert (Hs : forall s, socket_is s (if has_socket c then set_sock (-1) c else c) = false).
  { intros s. unfold socket_is. destruct (has_socket c) eqn:Hh; [|by rewrite Hh]. unfold has_socket. cbn. by rewrite andb_false_r. }
  cbn [fmap list_fmap]. split_and!.
  - intros s. unfold count_clients in *. cbn [List.filter]. unfold socket_is at 1. specialize (I1 s). destruct (has_socket c) eqn:Hh; cbn [andb]; [|exact I1].
    cbn [fmap list_fmap]. rewrite many_cons. destruct (Z.eqb_spec (cl_sock c) s) as [->|Hne].
    + rewrite bool_decide_eq_true_2 by done. cbn [length Z.b2z]. lia.
    + rewrite bool_decide_eq_false_2 by congruence. cbn [Z.b2z]. lia.
  - intros s. unfold count_clients in *. cbn [List.filter]. rewrite Hs. apply I2.
  - intros [|i]; [cbn; by destruct (has_socket c)|apply I3].
  - intros g [|i]; [|apply I4]. cbn. unfold claimed_for. assert (cl_shutdown_claimed (if has_socket c then set_sock (-1) c else c) = false) as -> by (by destruct (has_socket c)).
    rewrite Hc, !andb_false_r. done.
Qed.

(** ** Every call balances *)

Definition balanced {X} (e : life_call X) (x : X) (w w' : world) : Prop :=
  forall t, issued w' t = issued w t - many t (uses e x) + many t (yields e x) + many t (endows e x).

(** No record is in use once no client is counted. *)
Definition idle_if_none (w : world) : Prop :=
  lf_active_client_count (wd_life w) = 0 -> Forall (fun c => cl_in_use c = false) (clients_of w).

Lemma opened_issued s w w' t : (s < 0 /\ w' = w) \/ (0 <= s /\ (s ∉ wd_open w) /\ w' = w <| wd_open ::= cons s |>) ->
  issued w' t = issued w t + many t (fd_token s).
Proof.
  intros [[Hs ->]|(Hs & Hn & ->)].
  - unfold fd_token. destruct (Z.leb_spec 0 s); [lia|]. rewrite many_nil. lia.
  - destruct t as [u|i| | |g]; try (rewrite many_fd_other by done; symmetry; apply Z.add_0_r).
    rewrite many_fd. cbn [issued]. change (clients_of (w <| wd_open ::= cons s |>)) with (clients_of w). change (wd_life (w <| wd_open ::= cons s |>)) with (wd_life w).
    change (wd_open (w <| wd_open ::= cons s |>)) with (s :: wd_open w). destruct (Z.leb_spec 0 s); [|lia]. cbn [andb]. destruct (Z.eqb_spec s u) as [<-|Hne].
    + rewrite (bool_decide_eq_false_2 (s ∈ wd_open w)) by done. rewrite bool_decide_eq_true_2 by left. cbn [Z.b2z]. lia.
    + rewrite (bool_decide_ext (u ∈ s :: wd_open w) (u ∈ wd_open w)) by (rewrite elem_of_cons; split; [by intros [->|?]|auto]). cbn [Z.b2z]. lia.
Qed.

Lemma in_filter s u l : u ∈ List.filter (fun v => negb (v =? s)) l <-> u <> s /\ u ∈ l.
Proof.
  rewrite !list_elem_of_In, List.filter_In, negb_true_iff, Z.eqb_neq. tauto.
Qed.

Lemma closed_issued s w t : 1 <= issued w (Descriptor s) -> issued (close_fd s w) t = issued w t - many t [Descriptor s].
Proof.
  intros H1. rewrite many_cons, many_nil. destruct t as [u|i| | |g]; try (rewrite bool_decide_eq_false_2 by done; symmetry; apply Z.sub_0_r).
  cbn [issued] in *. change (clients_of (close_fd s w)) with (clients_of w). change (wd_life (close_fd s w)) with (wd_life w).
  change (wd_open (close_fd s w)) with (List.filter (fun v => negb (v =? s)) (wd_open w)).
  destruct (decide (u = s)) as [->|Hne].
  - rewrite (bool_decide_eq_true_2 (Descriptor s = Descriptor s)) by done.
    rewrite (bool_decide_eq_false_2 (s ∈ List.filter _ _)) by (by rewrite in_filter; intros [? _]).
    destruct (bool_decide (s ∈ wd_open w)); cbn [Z.b2z] in *; [lia|]. pose proof (many_nonneg (Descriptor s) (fd_token (lf_listen_sock (wd_life w)))). lia.
  - rewrite (bool_decide_eq_false_2 (Descriptor s = Descriptor u)) by congruence.
    rewrite (bool_decide_ext (u ∈ List.filter _ _) (u ∈ wd_open w)) by (rewrite in_filter; split; [by intros [_ ?]|done]). cbn [Z.b2z]. lia.
Qed.

(** The calls that only write fields of the lifecycle. *)
Lemma life_issued w (f : lifecycle -> lifecycle) t : let l := wd_life w in
  issued (with_life f w) t = issued w t
    + match t with
      | Descriptor s => many t (fd_token (lf_listen_sock l)) - many t (fd_token (lf_listen_sock (f l)))
      | Unit => lf_active_client_count (f l) - lf_active_client_count l
      | Server => Z.b2z (lf_server_task (f l)) - Z.b2z (lf_server_task l)
      | _ => 0
      end.
Proof. destruct t; cbn [issued with_life wd_life wd_open]; change (clients_of _) with (clients_of w); cbn; lia. Qed.

Lemma unused_issued w w' t : Forall (fun c => cl_in_use c = false) (clients_of w) -> Forall (fun c => cl_in_use c = false) (clients_of w') ->
  same_rest w w' -> issued w' t = issued w t.
Proof.
  assert (Hp : forall l (p : argus_mqtt_client_t -> bool) (i : nat), Forall (fun c => cl_in_use c = false) l -> (forall c, cl_in_use c = false -> p c = false) ->
    from_option p false (l !! i) = false /\ count_clients p l = 0%nat).
  { intros l p i HF H. split; [destruct (l !! i) as [c|] eqn:Hc; [|done]; apply H; by apply (Forall_lookup_1 _ _ _ _ HF Hc)|].
    unfold count_clients. induction HF as [|c l Hc HF IH]; [done|]. cbn [List.filter]. by rewrite (H c Hc). }
  intros H1 H2 (Ho & Hl & Hs & Hn). destruct t as [s|j| | |g]; cbn [issued]; rewrite ?Ho, ?Hl, ?Hs, ?Hn; try done.
  - rewrite (proj2 (Hp _ (socket_is s) 0%nat H1 ltac:(unfold socket_is, has_socket; by intros ? ->))), (proj2 (Hp _ (socket_is s) 0%nat H2 ltac:(unfold socket_is, has_socket; by intros ? ->))). done.
  - by rewrite (proj1 (Hp _ cl_in_use j H1 ltac:(done))), (proj1 (Hp _ cl_in_use j H2 ltac:(done))).
  - by rewrite (proj1 (Hp _ (claimed_for g) (tg_slot g) H1 ltac:(unfold claimed_for, has_socket; by intros ? ->))), (proj1 (Hp _ (claimed_for g) (tg_slot g) H2 ltac:(unfold claimed_for, has_socket; by intros ? ->))).
Qed.

Ltac count_tokens :=
  rewrite ?many_app, ?many_cons, ?many_nil; repeat case_bool_decide; simplify_eq; cbn [Z.b2z]; try done; try lia.

Lemma start_begin_balanced port created w err w' : start_begin port created w = (err, w') -> idle_if_none w ->
  (lf_state (wd_life w) = BROKER_STATE_STOPPED -> lf_server_task (wd_life w) = false ->
   argus_mqtt_broker_observation_is_stopped (lifecycle_obs (wd_life w)) = true) ->
  balanced (StartBegin port) err w w' /\ (sane w -> sane w').
Proof.
  intros Hb Hidle Ho. unfold start_begin in Hb. unfold balanced. cbn [uses yields endows].
  destruct (bool_decide_reflect (lf_state (wd_life w) = BROKER_STATE_STOPPED)) as [Hst|]; cbn [negb] in Hb; [|simplify_eq; split; [intros t; count_tokens|done]].
  destruct (lf_server_task (wd_life w)) eqn:Hs; [simplify_eq; split; [intros t; count_tokens|done]|]. specialize (Ho Hst eq_refl).
  unfold argus_mqtt_broker_observation_is_stopped in Ho. cbn [lifecycle_obs bo_state bo_has_server_task bo_has_listener bo_active_client_count] in Ho.
  rewrite !andb_true_iff, !negb_true_iff, Z.leb_gt, Z.eqb_eq in Ho. destruct Ho as [[[_ _] Hl] Hn].
  injection Hb as <- <-. split.
  - intros t. set (b := broker_reset _). set (l := Lifecycle _ _ _ _ _ _ _ _).
    change (issued _ t) with (issued (with_life (fun _ => l) (w <| wd_memory := Memory b retained_reset |>)) t) at 1. rewrite life_issued.
    rewrite (unused_issued w); [|by apply Hidle|by repeat constructor|done]. cbn [wd_life].
    change (wd_life (w <| wd_memory := Memory b retained_reset |>)) with (wd_life w).
    unfold fd_token at 1. destruct (Z.leb_spec 0 (lf_listen_sock (wd_life w))); [lia|].
    destruct created, t; cbn [l lf_listen_sock lf_active_client_count lf_server_task is_ok]; rewrite ?Hs, ?Hn; count_tokens.
  - intros [Hopen Hstart]. split; [done|]. cbn. destruct created; [lia|done].
Qed.

Lemma replaced_balanced w b i c d (tokens : token -> Z) : clients_of w !! i = Some c -> bk_clients b = <[i := d]> (clients_of w) ->
  (forall t, account i d t = account i c t + tokens t) -> forall t, issued (with_broker (fun _ => b) w) t = issued w t + tokens t.
Proof. intros Hi Hb Ht t. rewrite (issued_replace w _ i c d); [|done|done|done]. rewrite Ht. lia. Qed.

Lemma alloc_balanced s peer iface x w w' : world_answer (AllocClient s peer iface) w x w' -> 0 <= s -> balanced (AllocClient s peer iface) x w w'.
Proof.
  intros (proven & Ha) Hs. destruct (argus_mqtt_alloc_client_locked _ s peer iface proven) as [result b] eqn:Hr. destruct Ha as [-> ->].
  apply alloc_effect in Hr. intros t. destruct result as [i| |].
  - destruct Hr as (c & id & Hi & Hu & Hc). cbn [uses yields endows].
    rewrite (replaced_balanced w b i c _ (fun t => many t [Record_of i] - many t [Descriptor s]) Hi Hc); [rewrite (many_nil t); lia|].
    assert (Hh : has_socket c = false) by (unfold has_socket; by rewrite Hu). intros u. destruct u as [v|j| | |g]; cbn [account].
    + unfold socket_is. rewrite Hh. unfold has_socket, new_client. cbn [cl_in_use cl_sock]. destruct (Z.leb_spec 0 s); [|lia]. cbn [andb].
      destruct (Z.eqb_spec s v); count_tokens.
    + rewrite Hu. cbn [new_client cl_in_use]. destruct (Nat.eqb_spec j i); count_tokens.
    + count_tokens.
    + count_tokens.
    + unfold claimed_for. rewrite Hh. unfold has_socket, new_client. cbn. rewrite andb_false_r. destruct (_ =? i)%nat; count_tokens.
  - cbn [uses yields endows]. rewrite (issued_alike w); [count_tokens|done|]. unfold clients_of. cbn. by rewrite Hr.
  - cbn [uses yields endows]. rewrite (issued_alike w); [count_tokens|done|]. unfold clients_of. cbn. by rewrite Hr.
Qed.

(** A record that gives up its socket and its claim. *)
Lemma unaccounted i d t : cl_in_use d = false -> account i d t = 0.
Proof.
  intros Hu. destruct t; cbn; unfold socket_is, claimed_for, has_socket; rewrite ?Hu; cbn; try done; by destruct (_ =? i)%nat.
Qed.
Lemma accounted i c t : cl_in_use c = true -> cl_shutdown_claimed c = false ->
  account i c t = many t [Record_of i] - many t (fd_token (cl_sock c)).
Proof.
  intros Hu Hc. destruct t as [s|j| | |g]; cbn [account].
  - rewrite many_fd. unfold socket_is, has_socket. rewrite Hu. cbn [andb]. count_tokens.
  - rewrite Hu, many_fd_other by done. destruct (Nat.eqb_spec j i); count_tokens.
  - rewrite many_fd_other by done. count_tokens.
  - rewrite many_fd_other by done. count_tokens.
  - rewrite many_fd_other by done. unfold claimed_for. rewrite Hc, andb_false_r. cbn. destruct (_ =? i)%nat; count_tokens.
Qed.

Lemma in_use_if_issued w i c : 1 <= issued w (Record_of i) -> clients_of w !! i = Some c -> cl_in_use c = true.
Proof. cbn. intros H Hi. rewrite Hi in H. cbn in H. by destruct (cl_in_use c). Qed.

Lemma many_le t l w : (forall u, many u l <= issued w u) -> t ∈ l -> 1 <= issued w t.
Proof. intros H Hin%many_in. specialize (H t). lia. Qed.

Lemma drop_balanced i s u w w' : world_answer (DropClient i s) w u w' -> 0 <= s ->
  (exists id peer iface, clients_of w !! i = Some (new_client s id peer iface)) -> balanced (DropClient i s) u w w'.
Proof.
  intros -> Hs (id & peer & iface & Hi) t. cbn [uses yields endows].
  destruct (drop_effect i (bm_broker (wd_memory w)) _ Hi) as (d & Hd & Hu).
  rewrite (issued_replace w (with_broker (drop_client i) w) i (new_client s id peer iface) d); [|done|done|exact Hd].
  rewrite accounted by done. rewrite unaccounted by done. cbn [new_client cl_sock]. unfold fd_token. destruct (Z.leb_spec 0 s); [|lia]. rewrite (many_nil t). lia.
Qed.

Lemma close_balanced i x w w' : world_answer (OfClient i (Locked TryClose)) w x w' -> (forall t, many t (uses (OfClient i (Locked TryClose)) x) <= issued w t) ->
  balanced (OfClient i (Locked TryClose)) x w w'.
Proof.
  intros (m & He & ->) Hu t. cbn [enter] in He.
  remember (default zero_client (bk_clients (bm_broker (wd_memory w)) !! i)) as c0 eqn:Hc0. destruct (argus_mqtt_close_client (bm_broker (wd_memory w)) i) as [closed b] eqn:Hc. injection He as <- <-.
  apply close_effect in Hc. cbn [yields endows]. destruct closed; cbn [uses] in *.
  - destruct Hc as (c & Hi & Hcl & Hb). rewrite Hi in Hc0. cbn in Hc0. subst c0. pose proof (in_use_if_issued w i c (many_le _ _ _ Hu ltac:(left)) Hi) as Hin.
    rewrite (issued_replace w _ i c (closed_client c)); [|done|done|exact Hb]. rewrite accounted by done. rewrite unaccounted by done.
    rewrite (many_nil t). lia.
  - subst b. rewrite (issued_alike w); [count_tokens|done|done].
Qed.

Lemma retire_balanced x w w' : world_answer RetireSockets w x w' -> balanced RetireSockets x w w'.
Proof.
  intros [-> ->] t. cbn [uses endows]. destruct (existsb cl_shutdown_claimed (bk_clients (bm_broker (wd_memory w)))) eqn:Hn.
  - assert (Hr : retire_sockets (bm_broker (wd_memory w)) = (None, bm_broker (wd_memory w))) by (unfold retire_sockets; by rewrite Hn).
    rewrite Hr. cbn [fst yields]. rewrite (issued_alike w); [count_tokens|done|]. unfold clients_of. cbn. by rewrite Hr.
  - destruct (retire_effect _ Hn) as (H1 & H2 & H3 & H4). cbn zeta in H1, H2, H3, H4.
    assert (Hc : clients_of (with_broker (fun b => (retire_sockets b).2) w)
      = (fun c => if has_socket c then set_sock (-1) c else c) <$> clients_of w).
    { unfold clients_of, retire_sockets. cbn. rewrite Hn. done. }
    assert (Hr : (retire_sockets (bm_broker (wd_memory w))).1 = Some (cl_sock <$> List.filter has_socket (clients_of w)))
      by (unfold retire_sockets; by rewrite Hn).
    rewrite Hr. cbn [yields]. destruct t as [s|i| | |g]; cbn [issued]; rewrite ?Hc; try rewrite many_fmap_other by done; rewrite ?many_nil.
    + unfold clients_of in *. rewrite H2. specialize (H1 s).
      change (wd_open (with_broker _ w)) with (wd_open w). change (wd_life (with_broker _ w)) with (wd_life w). lia.
    + unfold clients_of. rewrite (H3 i). lia.
    + change (wd_life (with_broker _ w)) with (wd_life w). lia.
    + change (wd_life (with_broker _ w)) with (wd_life w). lia.
    + destruct (H4 g (tg_slot g)) as [E1 E2]. unfold clients_of. rewrite E1, E2. done.
Qed.

Lemma claim_balanced id x w w' : world_answer (ClaimAll id) w x w' -> balanced (ClaimAll id) x w w'.
Proof.
  intros [-> ->] t. cbn [uses endows yields].
  pose proof (claim_effect id (clients_of w) 0) as H. unfold clients_of in H. destruct (claim_all id 0 (bk_clients (bm_broker (wd_memory w)))) as [l targets] eqn:Hc.
  destruct H as (Hl & HF & Hm).
  assert (Hr : claim_section id (bm_broker (wd_memory w)) = (existsb (argus_mqtt_disconnect_matches_locked id) (clients_of w), targets, (let b := bm_broker (wd_memory w) in b <| bk_clients := l |>)))
    by (unfold claim_section, disconnect_claim; by rewrite Hc).
  assert (Hw : clients_of (with_broker (fun b => (claim_section id b).2) w) = l) by (unfold clients_of; cbn; by rewrite Hr).
  rewrite Hr. cbn [fst snd].
  rewrite !many_nil. destruct t as [s|i| | |g]; cbn [issued]; rewrite ?Hw; try rewrite many_fmap_other by done.
  - change (wd_open (with_broker _ w)) with (wd_open w). change (wd_life (with_broker _ w)) with (wd_life w). unfold count_clients, clients_of.
    rewrite (filter_same (fun c d => cl_in_use d = cl_in_use c /\ cl_sock d = cl_sock c) (socket_is s) _ _ ltac:(unfold socket_is, has_socket; by intros ?? [-> ->]) HF). lia.
  - assert (from_option cl_in_use false (l !! i) = from_option cl_in_use false (clients_of w !! i)) as ->; [|lia].
    destruct (l !! i) as [d|] eqn:Hd.
    + destruct (Forall2_lookup_r _ _ _ _ _ HF Hd) as (c & Hi & HR). unfold clients_of. rewrite Hi. cbn. by rewrite (proj1 HR).
    + apply lookup_ge_None in Hd. rewrite Hl in Hd. apply lookup_ge_None in Hd. unfold clients_of. by rewrite Hd.
  - change (wd_life (with_broker _ w)) with (wd_life w). lia.
  - change (wd_life (with_broker _ w)) with (wd_life w). lia.
  - rewrite (Hm g). unfold claimed_at, clients_of. cbn. rewrite Nat.sub_0_r. lia.
Qed.

(** A claim that is held is given back. *)
Lemma release_balanced g x w w' : world_answer (Release g) w x w' -> 1 <= issued w (Claimed g) ->
  x = true /\ balanced (Release g) x w w'.
Proof.
  intros [-> ->] H1. cbn [issued] in H1. unfold clients_of in H1.
  destruct (disconnect_release (bm_broker (wd_memory w)) g) as [released b] eqn:Hr.
  destruct (release_effect _ _ _ _ Hr) as [(c & Hi & Hb & ->)|(Hi & _)]; rewrite Hi in H1; [|done]. cbn [from_option] in H1.
  assert (Hg : claimed_for g c = true) by (by destruct (claimed_for g c)). pose proof Hg as Hg'. unfold claimed_for, has_socket in Hg'. rewrite !andb_true_iff in Hg'.
  destruct Hg' as [[[[Hu Hs] Hcl] Hid%Z.eqb_eq] Hfd%Z.eqb_eq]. rewrite Hcl, Hu, Hid, Hfd, !Z.eqb_refl in Hb. cbn [andb] in Hb.
  cbn [fst]. rewrite Hcl, Hu, Hid, Hfd, !Z.eqb_refl. split; [done|]. intros t. cbn [uses yields endows andb].
  rewrite (issued_replace w _ (tg_slot g) c (set_claim false c)); [|done|exact Hi|unfold clients_of; cbn; by rewrite Hr].
  rewrite !many_nil, many_cons, many_nil. destruct t as [s|j| | |g']; cbn [account]; try (rewrite bool_decide_eq_false_2 by done; cbn [Z.b2z]; lia).
  - change (socket_is s (set_claim false c)) with (socket_is s c). rewrite bool_decide_eq_false_2 by done. cbn [Z.b2z]. lia.
  - change (cl_in_use (set_claim false c)) with (cl_in_use c). rewrite bool_decide_eq_false_2 by done. cbn [Z.b2z]. lia.
  - assert (claimed_for g' (set_claim false c) = false) as -> by (unfold claimed_for; cbn; by rewrite andb_false_r).
    destruct (Nat.eqb_spec (tg_slot g') (tg_slot g)) as [Hslot|Hne]; [|rewrite bool_decide_eq_false_2 by congruence; cbn [Z.b2z]; lia].
    destruct (claimed_for g' c) eqn:Hg'.
    + unfold claimed_for in Hg'. rewrite !andb_true_iff in Hg'. destruct Hg' as [[_ Hid'%Z.eqb_eq] Hfd'%Z.eqb_eq].
      assert (g' = g) as -> by (destruct g, g'; cbn in *; congruence). rewrite bool_decide_eq_true_2 by done. cbn [Z.b2z]. lia.
    + rewrite bool_decide_eq_false_2 by congruence. cbn [Z.b2z]. lia.
Qed.

Lemma unchanged_balanced {X} (e : life_call X) x w : uses e x = [] -> yields e x = [] -> endows e x = [] -> balanced e x w w.
Proof. intros Hu Hy He t. rewrite Hu, Hy, He. count_tokens. Qed.


Lemma fd_none s : s < 0 -> fd_token s = [].
Proof. intros Hs. unfold fd_token. by destruct (Z.leb_spec 0 s); [lia|]. Qed.
Lemma fd_some s : 0 <= s -> fd_token s = [Descriptor s].
Proof. intros Hs. unfold fd_token. by destruct (Z.leb_spec 0 s); [|lia]. Qed.

Ltac life_case :=
  intros t; rewrite life_issued; destruct t; cbn; rewrite ?fd_none by lia; rewrite ?many_fd_other by done; count_tokens.

Lemma open_nonneg w s : sane w -> 1 <= issued w (Descriptor s) -> 0 <= s.
Proof.
  intros [Ho _] H. cbn [issued] in H. destruct (bool_decide_reflect (s ∈ wd_open w)) as [Hin|]; cbn [Z.b2z] in H.
  - by apply (Forall_forall (Z.le 0) (wd_open w)).
  - pose proof (many_nonneg (Descriptor s) (fd_token (lf_listen_sock (wd_life w)))). lia.
Qed.

Lemma listener_balanced s x w w' : world_answer (PublishListener s) w x w' -> sane w -> (forall t, many t (uses (PublishListener s) x) <= issued w t) ->
  balanced (PublishListener s) x w w'.
Proof.
  intros [-> ->] Hw Hu. unfold publish_listener in *. destruct (bool_decide_reflect (lf_state (wd_life w) = BROKER_STATE_STARTING)) as [Hst|]; cbn [fst uses] in *.
  - pose proof (sn_starting _ Hw Hst). pose proof (open_nonneg w s Hw (many_le _ _ _ Hu ltac:(left))). intros t. rewrite life_issued. cbn [uses yields endows fst].
    unfold publish_listener. rewrite bool_decide_eq_true_2 by done. cbn. rewrite (fd_none (lf_listen_sock _)), (fd_some s) by done. destruct t; count_tokens.
  - intros t. rewrite life_issued. unfold publish_listener. rewrite bool_decide_eq_false_2 by done. pose proof (many_le _ _ _ Hu ltac:(left)) as H1. cbn in H1 |- *.
    destruct (lf_server_task (wd_life w)); [|done]. destruct t; count_tokens.
Qed.

Lemma server_gone_balanced {X} (e : life_call X) (x : X) w f : 1 <= issued w Server -> uses e x = [Server] -> yields e x = [] -> endows e x = [] ->
  (forall l, lf_listen_sock (f l) = lf_listen_sock l /\ lf_server_task (f l) = false /\ lf_active_client_count (f l) = lf_active_client_count l) ->
  balanced e x w (with_life f w).
Proof.
  intros H1 Hu Hy He Hf t. rewrite life_issued, Hu, Hy, He. destruct (Hf (wd_life w)) as (-> & -> & ->). cbn in H1.
  destruct (lf_server_task (wd_life w)); [|done]. destruct t; count_tokens.
Qed.

Lemma taken_balanced {X} (e : life_call X) (x : X) w f : uses e x = [] -> yields e x = fd_token (lf_listen_sock (wd_life w)) -> endows e x = [] ->
  lf_listen_sock (f (wd_life w)) = -1 -> lf_server_task (f (wd_life w)) = lf_server_task (wd_life w) ->
  lf_active_client_count (f (wd_life w)) = lf_active_client_count (wd_life w) -> balanced e x w (with_life f w).
Proof.
  intros Hu Hy He Hl Hs Hn t. rewrite life_issued, Hu, Hy, He, Hl, Hs, Hn. rewrite (fd_none (-1)) by lia. rewrite !many_nil.
  destruct t; rewrite ?many_fd_other by done; lia.
Qed.

Lemma stop_begin_balanced x w w' : world_answer StopBegin w x w' -> balanced StopBegin x w w'.
Proof.
  intros [-> ->]. unfold stop_begin. destruct (argus_mqtt_broker_observation_is_stopped (lifecycle_obs (wd_life w))) eqn:Ho.
  - intros t. rewrite life_issued, Ho. cbn. destruct t; count_tokens.
  - apply taken_balanced; unfold stop_begin; try rewrite Ho; done.
Qed.

Lemma stop_finish_balanced x w w' : world_answer StopFinish w x w' -> balanced StopFinish x w w'.
Proof.
  intros [-> ->] t. rewrite life_issued. cbn [uses yields endows]. unfold stop_finish. destruct (_ && _); cbn; destruct t; count_tokens.
Qed.

Lemma client_balanced i {Y} (e : client_call Y) x w w' : world_answer (OfClient i e) w x w' -> (forall t, many t (uses (OfClient i e) x) <= issued w t) ->
  balanced (OfClient i e) x w w'.
Proof.
  intros Ha Hu. destruct e; cbn [world_answer] in Ha; try (subst w'; by apply unchanged_balanced).
  - subst w'. intros t. rewrite closed_issued by exact (many_le _ _ _ Hu ltac:(left)). cbn [uses yields endows]. count_tokens.
  - destruct s; try (by apply close_balanced); destruct Ha as (m & He & ->); intros t; cbn [uses yields endows];
      (rewrite (issued_alike w); [count_tokens|done|exact (section_alike i _ _ _ _ _ He ltac:(done))]).
  - destruct Ha as [-> ->]. life_case.
  - subst w'. life_case.
Qed.

Lemma balance {X} (e : life_call X) (x : X) w w' h : world_answer e w x w' -> sane w -> idle_if_none w -> in_order e w -> entitled h e ->
  (forall t, many t h <= issued w t) -> (forall t, many t (uses e x) <= issued w t) -> possible e x /\ balanced e x w w'.
Proof.
  intros Ha Hw Hidle Ho He Hh Hu. destruct e; cbn [world_answer] in Ha; (split; [try done|]); try (subst w'; by apply unchanged_balanced);
    try (match type of Ha with _ /\ _ = _ => destruct Ha as [-> ->] end; by apply unchanged_balanced).
  - intros t. rewrite (opened_issued _ _ _ t Ha). cbn [uses yields endows]. count_tokens.
  - intros t. rewrite (opened_issued _ _ _ t Ha). cbn [uses yields endows]. count_tokens.
  - subst w'. intros t. rewrite closed_issued by exact (many_le _ _ _ Hu ltac:(left)). cbn [uses yields endows]. count_tokens.
  - subst w'. destruct x; [|by apply unchanged_balanced]. intros t. cbn [uses yields endows]. count_tokens.
  - subst w'. life_case.
  - subst w'. life_case.
  - subst w'. life_case.
  - destruct Ha as [created Ha]. by apply (start_begin_balanced port created).
  - subst w'. life_case.
  - destruct Ha as [-> ->]. by apply taken_balanced.
  - subst w'. apply server_gone_balanced; try done. exact (many_le _ _ _ Hu ltac:(left)).
  - by apply listener_balanced.
  - subst w'. apply server_gone_balanced; try done. exact (many_le _ _ _ Hu ltac:(left)).
  - by apply stop_begin_balanced.
  - by apply stop_finish_balanced.
  - destruct x as [i|].
    + apply alloc_balanced; [done|]. exact (open_nonneg w sock Hw (many_le _ _ _ Hu ltac:(left))).
    + destruct Ha as (proven & Ha). destruct (argus_mqtt_alloc_client_locked _ _ _ _ _) as [result b] eqn:Hr. destruct Ha as [Hx ->].
      pose proof (alloc_effect _ _ _ _ _ _ _ Hr) as Hb. intros t. cbn [uses yields endows].
      rewrite (issued_alike w); [count_tokens|done|]. unfold clients_of. cbn. destruct result; [done| |]; by rewrite Hb.
  - by apply drop_balanced.
  - by apply retire_balanced.
  - destruct Ha as [-> ->]. intros t. cbn [uses yields endows]. rewrite (issued_alike w); [count_tokens|done|]. apply fence_alike.
  - by apply claim_balanced.
  - apply (release_balanced target x w w' Ha). exact (many_le _ _ _ Hh He).
  - apply release_balanced; [done|]. exact (many_le _ _ _ Hh He).
  - destruct (argus_mqtt_broker_publish _ _ _ _ _) as [[err sends] m] eqn:Hp. destruct Ha as [-> ->]. intros t. cbn [uses yields endows].
    rewrite (issued_alike w); [count_tokens|done|]. unfold argus_mqtt_broker_publish in Hp.
    destruct (_ <=? _)%nat; [by simplify_eq|]. destruct (_ <=? _)%nat; [by simplify_eq|]. destruct (negb _); [by simplify_eq|].
    destruct (if retain then _ else _) as [e l]. destruct (negb (is_ok e)); by simplify_eq.
  - by apply client_balanced.
Qed.

Lemma sane_life w f : sane w -> (lf_state (f (wd_life w)) = BROKER_STATE_STARTING ->
  lf_state (wd_life w) = BROKER_STATE_STARTING /\ lf_listen_sock (f (wd_life w)) = lf_listen_sock (wd_life w)) -> sane (with_life f w).
Proof. intros [Hopen Hstart] Hf. split; [done|]. cbn. intros Hs. destruct (Hf Hs) as [H1 H2]. rewrite H2. auto. Qed.

Lemma sane_opened s w w' : (s < 0 /\ w' = w) \/ (0 <= s /\ (s ∉ wd_open w) /\ w' = w <| wd_open ::= cons s |>) -> sane w -> sane w'.
Proof. intros [[_ ->]|(Hs & _ & ->)] [Hopen Hstart]; [done|]. split; [by constructor|done]. Qed.

Lemma sane_closed s w : sane w -> sane (close_fd s w).
Proof.
  intros [Hopen Hstart]. split; [|done]. cbn. apply Forall_forall. intros u [_ Hu]%in_filter. by apply (Forall_forall (Z.le 0) (wd_open w)).
Qed.

Lemma sane_same w w' : wd_open w' = wd_open w -> wd_life w' = wd_life w -> sane w -> sane w'.
Proof. intros Ho Hl [Hopen Hstart]. split; [by rewrite Ho|by rewrite Hl]. Qed.

Lemma sane_kept {X} (e : life_call X) (x : X) w w' : world_answer e w x w' -> sane w -> in_order e w -> idle_if_none w -> sane w'.
Proof.
  intros Ha Hw Ho Hidle.
  destruct e; cbn [world_answer] in Ha; try exact (sane_opened _ _ _ Ha Hw);
    try (match type of Ha with _ /\ _ = _ => destruct Ha as [-> ->] end); try subst w'; try done; try (by apply sane_closed);
    try (apply sane_life; [done|]; cbn; intros; by split); try (by apply (sane_same w)).
  - destruct Ha as [created Ha]. by apply (start_begin_balanced port created _ _ _ Ha).
  - apply sane_life; [done|]. unfold publish_listener. by destruct (bool_decide (lf_state (wd_life w) = BROKER_STATE_STARTING)).
  - apply sane_life; [done|]. unfold stop_begin. by destruct (argus_mqtt_broker_observation_is_stopped _).
  - apply sane_life; [done|]. unfold stop_finish. by destruct (_ && _).
  - destruct Ha as (proven & Ha). destruct (argus_mqtt_alloc_client_locked _ _ _ _ _) as [result b]. destruct Ha as [_ ->]. by apply (sane_same w).
  - destruct (argus_mqtt_broker_publish _ _ _ _ _) as [[err sends] m]. destruct Ha as [_ ->]. by apply (sane_same w).
  - destruct e; try (subst w'; done); try (subst w'; by apply sane_closed).
    + destruct Ha as (m & _ & ->). by apply (sane_same w).
    + destruct Ha as [_ ->]. by apply sane_life.
    + subst w'. by apply sane_life.
Qed.

(** ** Programs and their tokens *)

Lemma owns_bind {A B} (p : life A) (k : A -> life B) post : forall h,
  owns h p (fun h a => owns h (k a) post) -> owns h (p ≫= k) post.
Proof.
  induction p as [a|X e k' IH]; intros h Hp; [exact (proj2 Hp)|]. destruct Hp as (Hc & He & Hk). split; [exact Hc|]. split; [exact He|].
  intros x Hx. destruct (Hk x Hx) as (rest & Hr & Hn). exists rest. split; [exact Hr|]. exact (IH x _ Hn).
Qed.

Lemma owns_mono {A} (p : life A) (post post' : list token -> A -> Prop) : (forall h a, post h a -> post' h a) -> forall h, owns h p post -> owns h p post'.
Proof.
  intros Hpost. induction p as [a|X e k IH]; intros h (Hc & Hp); (split; [exact Hc|]); [auto|]. destruct Hp as (He & Hk). split; [exact He|].
  intros x Hx. destruct (Hk x Hx) as (rest & Hr & Hn). eauto.
Qed.

Lemma owns_use {A B} h (p : life A) (mid : list token -> A -> Prop) (k : A -> life B) post :
  owns h p mid -> (forall h a, mid h a -> owns h (k a) post) -> owns h (p ≫= k) post.
Proof. intros Hp Hk. apply owns_bind. exact (owns_mono _ _ _ Hk _ Hp). Qed.

(** One call: the tokens it leaves, answer by answer. *)
Lemma owns_call {X A} h (e : life_call X) (k : X -> life A) post : counted h -> entitled h e ->
  (forall x, possible e x -> exists rest, h ≡ₚ uses e x ++ rest /\ owns (yields e x ++ rest) (k x) post) -> owns h (call e ≫= k) post.
Proof. intros Hc He Hk. split; [exact Hc|]. split; [exact He|exact Hk]. Qed.

Definition is_record (t : token) : bool := match t with Record_of _ => true | _ => false end.
Definition plain (h : list token) : Prop := forallb (negb ∘ is_record) h = true.

Lemma plain_counted h : plain h -> counted h.
Proof. intros Hp i Hi. unfold plain in Hp. rewrite forallb_forall in Hp. apply list_elem_of_In in Hi. by specialize (Hp _ Hi). Qed.
Lemma plain_app h h' : plain h -> plain h' -> plain (h ++ h').
Proof. unfold plain. intros H1 H2. by rewrite forallb_app, H1, H2. Qed.
Lemma plain_fd s : plain (fd_token s).
Proof. unfold fd_token. by destruct (0 <=? s). Qed.
Lemma plain_fmap {A} (f : A -> token) l : (forall x, is_record (f x) = false) -> plain (f <$> l).
Proof. intros Hf. unfold plain. induction l as [|x l IH]; [done|]. cbn. by rewrite Hf. Qed.
Lemma unit_counted h : Unit ∈ h -> counted h.
Proof. by intros H i _. Qed.

(** Calls that move no token. *)
Definition moves_none (X : Type) (e : life_call X) : Prop := (forall h, entitled h e) /\ forall x, uses e x = [] /\ yields e x = [].

Lemma owns_idle {A} (p : life A) h (post : list token -> A -> Prop) : ops_all moves_none p -> counted h -> (forall a, post h a) -> owns h p post.
Proof.
  intros Hp Hc Hpost. induction p as [a|X e k IH]; [by split|]. destruct Hp as [[He Hm] Hp]. split; [exact Hc|]. split; [apply He|].
  intros x _. destruct (Hm x) as [Hu Hy]. exists h. rewrite Hu, Hy. split; [done|]. exact (IH x (Hp x)).
Qed.

(** A call that moves none, before the rest. *)
Lemma owns_still {X A} h (e : life_call X) (k : X -> life A) post : moves_none X e -> counted h ->
  (forall x, possible e x -> owns h (k x) post) -> owns h (call e ≫= k) post.
Proof.
  intros [He Hm] Hc Hk. apply owns_call; [done|apply He|]. intros x Hx. destruct (Hm x) as [Hu Hy]. exists h. rewrite Hu, Hy. split; [done|]. by apply Hk.
Qed.

Ltac counted_tac :=
  first [ apply unit_counted; solve [repeat first [left | right | apply elem_of_app; right]]
        | apply plain_counted; repeat first [reflexivity | apply plain_app | apply plain_fd | (apply plain_fmap; done) | assumption] ].
Ltac still := apply owns_still; [by split|counted_tac|intros ? _].
(** A call that takes tokens from the front of what is held. *)
Ltac spends rest := apply owns_call; [counted_tac| |intros ? _; exists rest; split; [try reflexivity|]].
Ltac ends := split; [counted_tac|].

Lemma close_listener_owns s h : plain h -> owns (fd_token s ++ h) (close_listener s) (fun h' _ => h' = h).
Proof.
  intros Hp. unfold close_listener, fd_token. destruct (0 <=? s); cbn [app]; [|ends; done].
  assert (Hc : plain (Descriptor s :: h)) by exact Hp. spends (Descriptor s :: h); [left; left|]. spends h; [done|]. ends. done.
Qed.

Lemma close_sockets_owns l : owns (Descriptor <$> l) (close_sockets l) (fun h _ => h = []).
Proof.
  induction l as [|s l IH]; [by ends|]. cbn [close_sockets fmap list_fmap].
  assert (Hp : plain (Descriptor s :: (Descriptor <$> l))) by (change (plain (Descriptor <$> (s :: l))); by apply plain_fmap).
  spends (Descriptor s :: (Descriptor <$> l)); [left; left|]. spends (Descriptor <$> l); [done|]. exact IH.
Qed.

Lemma shutdown_targets_owns targets : forall failed, owns (Claimed <$> targets) (shutdown_targets targets failed) (fun h _ => h = []).
Proof.
  induction targets as [|g gs IH]; intros failed; [by ends|]. cbn [shutdown_targets fmap list_fmap].
  assert (Hp : plain (Claimed g :: (Claimed <$> gs))) by (change (plain (Claimed <$> (g :: gs))); by apply plain_fmap).
  spends (Claimed g :: (Claimed <$> gs)); [right; exists g; split; [left|done]|].
  apply owns_call; [counted_tac|left|]. intros released Hr. cbn in Hr. subst released. exists (Claimed <$> gs). split; [done|]. apply IH.
Qed.

Lemma retire_owns waits : owns [] (retire_loop waits) (fun h sockets => h = match sockets with Some l => Descriptor <$> l | None => [] end).
Proof.
  induction waits as [|waits IH]; cbn [retire_loop]; (apply owns_call; [counted_tac|done|]); intros [l|] _; exists []; (split; [done|]); cbn [yields uses app].
  - rewrite app_nil_r. by ends.
  - by ends.
  - rewrite app_nil_r. by ends.
  - still. exact IH.
Qed.

Lemma over_owns err : owns [] (over err) task_post.
Proof. by ends. Qed.
#[local] Hint Resolve over_owns : core.

Lemma stop_owns waits : owns [] (argus_mqtt_broker_stop waits) task_post.
Proof.
  unfold argus_mqtt_broker_stop. still. destruct (negb _); [done|].
  apply owns_call; [counted_tac|done|]. intros [[wait listener]|] _; exists []; (split; [done|]); [|apply over_owns]. cbn [yields].
  eapply owns_use; [by apply close_listener_owns|]. intros h _ ->.
  eapply owns_use; [apply retire_owns|]. intros h [l|] ->; [|by ends].
  eapply owns_use; [apply close_sockets_owns|]. intros h _ ->.
  apply (owns_use [] _ (fun h _ => h = [])); [destruct wait; [still|]; by ends|]. intros h [] ->; cbn [negb]; [|done].
  apply (owns_use [] _ (fun h _ => h = [])).
  { unfold drained. still. destruct (0 <? _); [|by ends]. still. destruct (_ BROKER_EVT_CLIENTS_EXITED); [by ends|]. still. by ends. }
  intros h [] ->; cbn [negb]; [|done]. still. done.
Qed.

Lemma start_owns config : owns [] (argus_mqtt_broker_start config) task_post.
Proof.
  destruct config as [port|]; [|apply over_owns]. unfold argus_mqtt_broker_start. still. destruct (negb _); [done|]. still.
  destruct (negb _); [done|]. still. destruct (_ BROKER_EVT_STARTED); [done|]. destruct (_ BROKER_EVT_STOPPED); [still; still; done|].
  apply owns_call; [counted_tac|done|]. intros listener _. exists []. split; [done|]. cbn [yields].
  eapply owns_use; [by apply close_listener_owns|]. intros h _ ->. still.
  apply (owns_use [] _ (fun h _ => h = [])); [destruct (_ BROKER_EVT_STOPPED); [still|]; by ends|]. intros h _ ->. done.
Qed.

Lemma disconnect_owns id : owns [] (argus_mqtt_broker_disconnect_machine id) task_post.
Proof.
  unfold argus_mqtt_broker_disconnect_machine. still. destruct (_ || _); [done|]. still. destruct (negb _); [done|].
  apply owns_call; [counted_tac|done|]. intros [matched targets] _. exists []. split; [done|]. cbn [yields snd]. rewrite app_nil_r.
  eapply owns_use; [apply shutdown_targets_owns|]. intros h failed ->. done.
Qed.

Lemma publish_owns topic payload retain : owns [] (publish_call topic payload retain) task_post.
Proof.
  unfold publish_call. still. destruct x as [err sends]. apply (owns_use [] _ (fun h _ => h = [])); [|by intros h _ ->].
  induction sends as [|[sock data] sends IH]; [by ends|]. cbn [send_all]. still. exact IH.
Qed.

(** ** The server's tokens *)

Lemma accept_owns rounds : owns [Server] (accept_loop rounds) (fun h _ => h = [Server]).
Proof.
  induction rounds as [|rounds IH]; [by ends|]. cbn [accept_loop]. still. destruct x as [up listener]. destruct (_ || _); [by ends|].
  apply owns_call; [counted_tac|done|]. intros [sock peer] _. exists [Server]. split; [done|]. cbn [yields fst].
  destruct (Z.ltb_spec sock 0).
  - rewrite fd_none by done. cbn [app]. still. destruct x as [up' listener']. destruct (_ || _); [by ends|]. still. exact IH.
  - rewrite fd_some by done. cbn [app]. still. destruct x as [up' listener']. destruct (negb up').
    { spends [Server]; [done|]. by ends. }
    spends [Descriptor sock; Server]; [done|]. cbn [yields app]. still.
    apply owns_call; [counted_tac|done|]. intros [i|] _; cbn [uses yields].
    + exists [Unit; Server]. split; [solve_Permutation|]. cbn [app].
      apply owns_call; [counted_tac|done|]. intros [] _; cbn [uses yields].
      * exists [Server]. split; [done|]. exact IH.
      * exists [Record_of i; Unit; Server]. split; [done|]. cbn [app].
        spends [Unit; Server]; [done|]. cbn [yields app]. spends [Descriptor sock; Server]; [done|solve_Permutation|].
        cbn [yields app]. spends [Server]; [done|]. exact IH.
    + exists [Unit; Descriptor sock; Server]. split; [done|]. cbn [app]. spends [Descriptor sock; Server]; [done|]. cbn [yields app].
      spends [Server]; [done|]. exact IH.
Qed.

Lemma start_failure_owns : owns [Server] start_failure task_post.
Proof. unfold start_failure. spends (@nil token); [done|]. cbn [yields app]. still. done. Qed.

Lemma server_owns rounds : owns [Server] (argus_mqtt_server_task rounds) task_post.
Proof.
  unfold argus_mqtt_server_task. apply owns_call; [counted_tac|done|]. intros sock _. exists [Server]. split; [done|]. cbn [yields].
  destruct (Z.ltb_spec sock 0); [rewrite fd_none by done; apply start_failure_owns|]. rewrite fd_some by done. cbn [app].
  still. still. destruct (negb _). { spends [Server]; [done|]. apply start_failure_owns. }
  still. destruct (negb _). { spends [Server]; [done|]. apply start_failure_owns. }
  apply owns_call; [counted_tac|done|]. intros [] _; cbn [uses yields negb].
  - exists [Server]. split; [done|]. cbn [app]. still. eapply owns_use; [apply accept_owns|]. intros h [] ->; [by ends; intros []|].
    spends (@nil token); [done|]. cbn [yields app]. still. done.
  - exists [Descriptor sock]. split; [solve_Permutation|]. cbn [app]. spends (@nil token); [done|]. cbn [yields app]. still. done.
Qed.

(** ** The tokens of a connection's task *)

(** A call of a connection's task that moves none. *)
Definition leaves_all (X : Type) (e : client_call X) : Prop := forall i, moves_none X (OfClient i e).

Lemma of_client_idle {A} i (p : client A) : ops_all leaves_all p -> ops_all moves_none (of_client i p).
Proof. induction p as [a|X e k IH]; [done|]. intros [He Hp]. split; [apply He|]. intros x. exact (IH x (Hp x)). Qed.

Lemma of_client_bind {A B} i (p : client A) (k : A -> client B) post : forall h,
  owns h (of_client i p) (fun h a => owns h (of_client i (k a)) post) -> owns h (of_client i (p ≫= k)) post.
Proof.
  induction p as [a|X e k' IH]; intros h Hp; [exact (proj2 Hp)|]. destruct Hp as (Hc & He & Hk). split; [exact Hc|]. split; [exact He|].
  intros x Hx. destruct (Hk x Hx) as (rest & Hr & Hn). exists rest. split; [exact Hr|]. exact (IH x _ Hn).
Qed.

Ltac client_walk :=
  repeat first
    [ done
    | match goal with
      | |- ops_all _ (mret _) => exact I
      | |- ops_all _ (call _) => split; [by split|intros ?; exact I]
      | |- ops_all _ (locked _) => split; [by split|intros ?; exact I]
      | |- ops_all _ (_ ≫= _) => apply ops_all_bind; [|intros ?]
      | |- ops_all _ (let '(_, _) := ?x in _) => destruct x
      | |- ops_all _ (match ?x with _ => _ end) => destruct x
      end
    | progress auto ].

Lemma recv_leaves polls len : ops_all leaves_all (recv_patiently polls len).
Proof. induction polls; cbn [recv_patiently]; client_walk. Qed.
#[local] Hint Resolve recv_leaves : core.
Lemma read_exact_leaves missing len : forall buffer, ops_all leaves_all (read_exact_loop missing len buffer).
Proof. induction missing; intros buffer; cbn [read_exact_loop]; client_walk. Qed.
#[local] Hint Resolve read_exact_leaves : core.
Lemma remaining_leaves i : forall multiplier value, ops_all leaves_all (read_remaining_bytes i multiplier value).
Proof. induction i; intros multiplier value; cbn [read_remaining_bytes]; unfold argus_mqtt_read_exact; client_walk. Qed.
#[local] Hint Resolve remaining_leaves : core.
Lemma connect_leaves packet : ops_all leaves_all (argus_mqtt_handle_connect packet).
Proof. unfold argus_mqtt_handle_connect, reply. client_walk. Qed.
Lemma replay_filter_leaves conn filter indices : ops_all leaves_all (replay_filter conn filter indices).
Proof. induction indices; cbn [replay_filter]; client_walk. Qed.
#[local] Hint Resolve connect_leaves replay_filter_leaves : core.
Lemma replay_leaves conn filters : ops_all leaves_all (replay_retained conn filters).
Proof. induction filters; cbn [replay_retained]; client_walk. Qed.
Lemma filters_leaves info filters : ops_all leaves_all (filters_allowed info filters).
Proof. induction filters; cbn [filters_allowed]; client_walk. Qed.
#[local] Hint Resolve replay_leaves filters_leaves : core.
Lemma subscribe_leaves packet : ops_all leaves_all (argus_mqtt_handle_subscribe packet).
Proof. unfold argus_mqtt_handle_subscribe, reply. client_walk. Qed.
Lemma deliver_leaves sockets topic payload retain : ops_all leaves_all (argus_mqtt_deliver_to_sockets sockets topic payload retain).
Proof. induction sockets; cbn [argus_mqtt_deliver_to_sockets]; client_walk. Qed.
#[local] Hint Resolve subscribe_leaves deliver_leaves : core.
Lemma publish_leaves on_message fixed_header packet : ops_all leaves_all (argus_mqtt_handle_publish on_message fixed_header packet).
Proof. unfold argus_mqtt_handle_publish, publish_admitted, revalidated, still_the_same. client_walk. Qed.
#[local] Hint Resolve publish_leaves : core.
Lemma round_leaves on_message on_client_event : ops_all leaves_all (client_round on_message on_client_event).
Proof.
  unfold client_round, idle_poll, receive_packet, read_remaining_length, argus_mqtt_read_exact, handle_packet, packet_gate, dispatch_packet, announce, pass_on.
  client_walk.
Qed.
Lemma loop_leaves on_message on_client_event rounds : ops_all leaves_all (client_loop on_message on_client_event rounds).
Proof. induction rounds; cbn [client_loop]; client_walk. apply round_leaves. Qed.

Lemma close_record_owns i waits : owns [Record_of i; Unit] (of_client i (close_record waits))
  (fun h closed => h = match closed with Some (_, sock, _) => fd_token sock ++ [Unit] | None => [Record_of i; Unit] end).
Proof.
  induction waits as [|waits IH]; cbn [close_record]; apply of_client_bind; (split; [counted_tac|]); (split; [done|]); intros [[[info sock] notify]|] _; cbn [uses yields].
  - exists [Unit]. split; [done|]. ends. by ends.
  - exists [Record_of i; Unit]. split; [done|]. ends. by ends.
  - exists [Unit]. split; [done|]. ends. by ends.
  - exists [Record_of i; Unit]. split; [done|]. ends. apply of_client_bind. split; [counted_tac|]. split; [done|]. intros [] _. exists [Record_of i; Unit].
    split; [done|]. ends. exact IH.
Qed.

Lemma close_connection_owns i on_client_event waits : owns [Record_of i; Unit] (of_client i (close_connection on_client_event waits))
  (fun h ended => if ended then h = [] else counted h).
Proof.
  unfold close_connection. apply of_client_bind. eapply owns_mono; [|apply close_record_owns]. intros h [[[info sock] notify]|] ->; [|ends; counted_tac].
  assert (Hend : owns [Unit] (of_client i (call CountDown ≫= fun prev : Z => (if prev =? 1 then call SignalClientsExited else mret tt : client unit) ;; mret true))
    (fun h (ended : bool) => if ended then h = [] else counted h)).
  { split; [counted_tac|]. split; [done|]. intros prev _. exists []. split; [done|]. cbn [yields app].
    apply (of_client_bind i (if prev =? 1 then call SignalClientsExited else mret tt : client unit) (fun _ => mret true)).
    apply owns_idle; [|counted_tac|intros []; by ends]. apply of_client_idle. client_walk. }
  apply of_client_bind. apply (owns_mono _ (fun h _ => h = [Unit])).
  { intros h [] ->. apply of_client_bind. apply owns_idle; [apply of_client_idle; client_walk|counted_tac|]. intros []. exact Hend. }
  unfold fd_token. destruct (0 <=? sock); [|by ends]. split; [counted_tac|]. split; [done|]. intros [] _. exists [Unit]. split; [done|]. by ends.
Qed.

Lemma client_owns i on_message on_client_event rounds waits : owns [Record_of i; Unit] (client_task i on_message on_client_event rounds waits) task_post.
Proof.
  unfold client_task. apply (owns_use _ _ (fun h (ended : bool) => if ended then h = [] else counted h)); [|intros h [] Hh; [cbn in Hh; subst h; apply over_owns|split; [exact Hh|by intros []]]].
  unfold argus_mqtt_client_task. apply of_client_bind. apply owns_idle; [apply of_client_idle; client_walk|counted_tac|]. intros now.
  apply of_client_bind. apply owns_idle; [apply of_client_idle; client_walk|counted_tac|]. intros [].
  apply of_client_bind. apply owns_idle; [apply of_client_idle, loop_leaves|counted_tac|]. intros [].
  - ends. counted_tac.
  - apply close_connection_owns.
Qed.

(** ** Runs *)

(** The tokens each task holds, and their balance. *)
Record held (s : world * list task) (hs : list (list token)) : Prop := {
  hd_sane : sane s.1;
  hd_owns : Forall2 (fun h p => owns h p task_post) hs s.2;
  hd_total : forall t, many t (concat hs) = issued s.1 t
}.

Lemma owns_counted {A} h (p : life A) post : owns h p post -> counted h.
Proof. by destruct p; intros [Hc _]. Qed.

Lemma held_idle s hs : held s hs -> idle_if_none s.1.
Proof.
  intros [_ Ho Ht] Hn. apply Forall_forall. intros c Hc. apply list_elem_of_lookup in Hc as [i Hi].
  destruct (cl_in_use c) eqn:Hu; [|done]. exfalso.
  assert (Hr : Record_of i ∈ concat hs) by (apply many_in; rewrite (Ht (Record_of i)); cbn; rewrite Hi; cbn; rewrite Hu; done).
  apply list_elem_of_In, in_concat in Hr as (h & Hh%list_elem_of_In & Hin%list_elem_of_In). apply list_elem_of_lookup in Hh as [n Hh].
  destruct (Forall2_lookup_l _ _ _ _ _ Ho Hh) as (p & _ & Hp). pose proof (owns_counted _ _ _ Hp i Hin) as Hunit%many_in.
  pose proof (many_concat_lookup Unit hs n h Hh). specialize (Ht Unit). cbn in Ht. lia.
Qed.

Lemma answer_possible {X} (e : life_call X) (x : X) w w' h : world_answer e w x w' -> entitled h e -> (forall t, many t h <= issued w t) -> possible e x.
Proof. intros Ha He Hh. destruct e; try done. exact (proj1 (release_balanced target x w w' Ha (many_le _ _ _ Hh He))). Qed.

Lemma creates_held {X} (e : life_call X) (x : X) new : creates e x new ->
  exists hs, Forall2 (fun h p => owns h p task_post) hs new /\ forall t, many t (concat hs) = many t (endows e x).
Proof.
  intros Hc.
  assert (Hnone : new = [] -> endows e x = [] -> exists hs, Forall2 (fun h p => owns h p task_post) hs new /\ forall t, many t (concat hs) = many t (endows e x)).
  { intros -> ->. by exists []. }
  destruct e; cbn [creates] in Hc; try (by apply Hnone).
  - destruct x; [|by apply Hnone]. destruct Hc as (oc & oe & rounds & waits & ->). exists [[Record_of slot; Unit]].
    split; [|done]. constructor; [apply client_owns|constructor].
  - destruct (is_ok x) eqn:Hx; [|apply Hnone; [done|cbn; by rewrite Hx]]. destruct Hc as (rounds & ->). exists [[Server]].
    split; [|cbn [endows]; by rewrite Hx]. constructor; [apply server_owns|constructor].
Qed.

(** What holds of every step of an orderly run. *)
Definition sound (l : taken) : Prop := exists h, entitled h (ta_call l) /\ possible (ta_call l) (ta_answer l) /\
  forall t, 0 <= issued (ta_world l) t /\ many t (uses (ta_call l) (ta_answer l)) <= issued (ta_world l) t /\ many t h <= issued (ta_world l) t.

Lemma held_step n {X} (e : life_call X) k (x : X) w w' ts new hs : held (w, ts) hs -> ts !! n = Some (Op e k) -> world_answer e w x w' -> creates e x new ->
  in_order e w -> sound (Taken n e x w) /\ exists hs', held (w', <[n := k x]> ts ++ new) hs'.
Proof.
  intros Hs Hn Ha Hc Ho. pose proof (held_idle _ _ Hs) as Hidle. destruct Hs as [Hw HF Ht]. cbn [fst snd] in *.
  destruct (Forall2_lookup_r _ _ _ _ _ HF Hn) as (h & Hh & Hp). destruct Hp as (_ & He & Hk).
  assert (Hle : forall t, many t h <= issued w t) by (intros t; rewrite <- Ht; by apply (many_concat_lookup t hs n)).
  pose proof (answer_possible e x w w' h Ha He Hle) as Hx. destruct (Hk x Hx) as (rest & Hr & Hown).
  assert (Hu : forall t, many t (uses e x) <= many t h) by (intros t; rewrite (many_perm t _ _ Hr), many_app; pose proof (many_nonneg t rest); lia).
  assert (Hu' : forall t, many t (uses e x) <= issued w t) by (intros t; specialize (Hu t); specialize (Hle t); lia).
  destruct (balance e x w w' h Ha Hw Hidle Ho He Hle Hu') as [_ Hb]. destruct (creates_held e x new Hc) as (new_hs & HFn & Htn). split.
  - exists h. cbn. split_and!; [done|done|]. intros t. split_and!; [|apply Hu'|apply Hle]. rewrite <- Ht. apply many_nonneg.
  - exists (<[n := yields e x ++ rest]> hs ++ new_hs). split; cbn [fst snd].
    + by apply (sane_kept e x w w').
    + apply Forall2_app; [|done]. by apply Forall2_insert.
    + intros t. rewrite concat_app, many_app, (many_concat_insert t hs n h) by done. rewrite Htn, (Hb t), Ht, (many_perm t _ _ Hr), !many_app. lia.
Qed.

Lemma entry_owns p : entry p -> owns [] p task_post.
Proof. destruct 1; [apply start_owns|apply stop_owns|apply disconnect_owns|apply publish_owns]. Qed.

Lemma run_held s ls s' : sys_run s ls s' -> forall hs, held s hs -> Forall orderly ls -> (exists hs', held s' hs') /\ Forall sound ls.
Proof.
  induction 1 as [s|n X e k x w w' ts new ls s' Hn Ha Hc Hrun IH|p w ts ls s' Hp Hrun IH]; intros hs Hs Ho.
  - split; [by exists hs|done].
  - apply Forall_cons in Ho as [Ho Hos]. destruct (held_step n e k x w w' ts new hs Hs Hn Ha Hc Ho) as [Hsound [hs' Hs']].
    destruct (IH hs' Hs' Hos) as [Hend Hall]. split; [done|]. by constructor.
  - apply (IH (hs ++ [[]])); [|done]. destruct Hs as [Hw HF Ht]. split; [done| |].
    + apply Forall2_app; [done|]. constructor; [by apply entry_owns|constructor].
    + intros t. rewrite concat_app, many_app, Ht. cbn. rewrite many_nil. lia.
Qed.

Lemma initial_held : held (broker_initial, []) [].
Proof.
  split; [by split; [constructor|]|constructor|]. intros t. change (many t (concat [])) with 0. destruct t as [s|i| | |g]; try done.
  - by do 6 (destruct i as [|i]; [done|]).
  - destruct g as [i conn fd]. by do 6 (destruct i as [|i]; [done|]).
Qed.

Lemma run_sound ls s : sys_run (broker_initial, []) ls s -> Forall orderly ls -> (exists hs, held s hs) /\ Forall sound ls.
Proof. intros Hr. exact (run_held _ _ _ Hr [] initial_held). Qed.

(** The descriptor a step closes, and the one it shuts down. *)
Definition closes (l : taken) : option Z :=
  match ta_call l with
  | Close s => Some s
  | OfClient _ e => match e with CloseSocket s => Some s | _ => None end
  | _ => None
  end.
Definition shuts (l : taken) : option Z := match ta_call l with ShutdownSocket s => Some s | _ => None end.

Lemma issued_open w s : 1 <= issued w (Descriptor s) -> s ∈ wd_open w.
Proof.
  cbn [issued]. pose proof (many_nonneg (Descriptor s) (fd_token (lf_listen_sock (wd_life w)))).
  destruct (bool_decide_reflect (s ∈ wd_open w)); cbn [Z.b2z]; [done|lia].
Qed.

Lemma claimed_open w g : 1 <= issued w (Claimed g) -> 0 <= issued w (Descriptor (tg_socket_fd g)) -> tg_socket_fd g ∈ wd_open w.
Proof.
  cbn [issued]. intros Hg H0. destruct (clients_of w !! tg_slot g) as [c|] eqn:Hc; [|done]. cbn [from_option] in Hg.
  assert (Hs : socket_is (tg_socket_fd g) c = true).
  { destruct (claimed_for g c) eqn:E; [|done]. unfold claimed_for in E. rewrite !andb_true_iff in E. unfold socket_is. by destruct E as [[[-> _] _] ->]. }
  pose proof (many_nonneg (Descriptor (tg_socket_fd g)) (fd_token (lf_listen_sock (wd_life w)))).
  assert (0 < count_clients (socket_is (tg_socket_fd g)) (clients_of w))%nat.
  { unfold count_clients. assert (Hin : In c (List.filter (socket_is (tg_socket_fd g)) (clients_of w))) by (apply List.filter_In; split; [apply list_elem_of_In; by eapply list_elem_of_lookup_2|done]).
    destruct (List.filter _ _); [done|cbn; lia]. }
  destruct (bool_decide_reflect (tg_socket_fd g ∈ wd_open w)); cbn [Z.b2z] in *; [done|lia].
Qed.

Lemma closes_uses l fd : closes l = Some fd -> Descriptor fd ∈ uses (ta_call l) (ta_answer l).
Proof.
  destruct l as [n X e x w]. unfold closes. cbn. intros Hc. destruct e; try done; [by simplify_eq; left|].
  destruct e; try done. simplify_eq. by left.
Qed.

Lemma run_split l1 l2 : forall s s', sys_run s (l1 ++ l2) s' -> exists sm, sys_run s l1 sm /\ sys_run sm l2 s'.
Proof.
  intros s s' Hr. remember (l1 ++ l2) as ls eqn:E. revert l1 E.
  induction Hr as [s|n X e k x w w' ts new ls s' Hn Ha Hc Hrun IH|p w ts ls s' Hp Hrun IH]; intros l1 E.
  - symmetry in E. apply app_nil in E as [-> ->]. exists s. by split; constructor.
  - destruct l1 as [|l l1].
    + cbn in E. subst l2. eexists. split; [constructor|]. by apply (RunCall n X e k x w w' ts new).
    + injection E as <- E. destruct (IH l1 E) as (sm & H1 & H2). exists sm. split; [|done]. by apply (RunCall n X e k x w w' ts new).
  - destruct (IH l1 E) as (sm & H1 & H2). exists sm. split; [|done]. by apply (RunEnter p).
Qed.

(** C15: in every interleaving of starts, stops, revocations, publications, the server and the
    connections, up to the first step that is not orderly: a descriptor is only closed, and only
    shut down, while it is open.  So none is closed twice, and the shutdown of a revoked
    machine's connection, whose own task goes on meanwhile, never reaches a descriptor the
    platform has given to somebody else; and the claim under which that shutdown is done is
    always given back to the connection it was taken from.  The steps that are not orderly are
    two, and the code has both: a start that finds STOPPED published while a connection of
    an earlier start that timed out is still counted (start_timeout_leaves_connections), and a
    connection dropped for want of a task after a stop took its socket, which is then indeed
    closed twice (create_failure_closes_twice). *)
Theorem descriptors_used_while_open ls s before l after : sys_run (broker_initial, []) ls s ->
  ls = before ++ l :: after -> Forall orderly before ->
  (forall fd, closes l = Some fd \/ shuts l = Some fd -> fd ∈ wd_open (ta_world l)) /\
  match ta_call l in life_call X return X -> Prop with Release _ => fun released => released = true | _ => fun _ => True end (ta_answer l).
Proof.
  intros Hr -> Ho. change (l :: after) with ([l] ++ after) in Hr. rewrite app_assoc in Hr. apply run_split in Hr as (sm & Hr & _).
  assert (Hcase : orderly l \/ (closes l = None /\ shuts l = None /\
    match ta_call l in life_call X return X -> Prop with Release _ => fun released => released = true | _ => fun _ => True end (ta_answer l))).
  { destruct l as [n X e x w]. unfold orderly, in_order. cbn. destruct e; first [by left|by right]. }
  destruct Hcase as [Hl|(Hc & Hs & Hp)]; [|split; [by rewrite Hc, Hs; intros fd [|]|exact Hp]].
  destruct (run_sound _ sm Hr ltac:(apply Forall_app; by repeat constructor)) as [_ Hs].
  apply Forall_app in Hs as [_ [Hs _]%Forall_cons]. destruct Hs as (h & He & Hp & Ht). split; [|exact Hp].
  intros fd [Hc|Hf].
  - apply issued_open. destruct (Ht (Descriptor fd)) as (_ & Hu & _). etransitivity; [|exact Hu]. by apply many_in, closes_uses.
  - destruct l as [n X e x w]. unfold shuts in Hf. cbn in *. destruct e; try done. simplify_eq. destruct He as [Hin|(g & Hin & <-)]; apply many_in in Hin.
    + apply issued_open. specialize (Ht (Descriptor fd)). lia.
    + apply claimed_open; [specialize (Ht (Claimed g)); lia|apply Ht].
Qed.

(** ** What a stop has reached *)

Definition all_stopped (w : world) : Prop :=
  argus_mqtt_broker_observation_is_stopped (lifecycle_obs (wd_life w)) = true /\ Forall (fun c => cl_in_use c = false) (clients_of w).

(** The answers on which a stop reports success. *)
Definition confirms {X} (e : life_call X) : X -> Prop :=
  match e in life_call X return X -> Prop with
  | StopBegin => fun x => x = None
  | StopFinish => fun resources_absent => resources_absent = true
  | _ => fun _ => False
  end.

(** Unless it got such an answer, [p] ends in [post]. *)
Fixpoint unless {A} (p : life A) (post : A -> Prop) : Prop :=
  match p with
  | Ret a => post a
  | Op e k => forall x, confirms e x \/ unless (k x) post
  end.

Lemma unless_bind {A B} (p : life A) (k : A -> life B) post : unless p (fun a => unless (k a) post) -> unless (p ≫= k) post.
Proof. induction p as [a|X e k' IH]; [done|]. intros Hp x. destruct (Hp x) as [?|Hx]; [by left|right; exact (IH x Hx)]. Qed.

Lemma unless_any {A} (p : life A) (post : A -> Prop) : (forall a, post a) -> unless p post.
Proof. intros Hp. induction p as [a|X e k IH]; [apply Hp|]. intros x. right. apply IH. Qed.

Definition not_ok (r : option esp_err_t) : Prop := r <> Some ESP_OK.

Lemma stop_confirmed waits : unless (argus_mqtt_broker_stop waits) not_ok.
Proof.
  unfold argus_mqtt_broker_stop. intros []; right; [|intros [=]]. intros [[wait listener]|]; [right|by left].
  apply unless_bind, unless_any. intros _. apply unless_bind, unless_any. intros [sockets|]; [|intros [=]].
  apply unless_bind, unless_any. intros _. apply unless_bind, unless_any. intros []; [|intros [=]].
  apply unless_bind, unless_any. intros []; [|intros [=]]. intros []; [by left|right; intros [=]].
Qed.

Lemma confirmed_stopped {X} (e : life_call X) (x : X) w w' : world_answer e w x w' -> confirms e x ->
  argus_mqtt_broker_observation_is_stopped (lifecycle_obs (wd_life w')) = true.
Proof.
  intros Ha Hx. destruct e; try done; destruct Ha as [-> ->]; cbn in Hx.
  - cbn. unfold stop_begin in *. destruct (argus_mqtt_broker_observation_is_stopped (lifecycle_obs (wd_life w))) eqn:Ho; [done|]. by destruct (take_listener _).
  - unfold stop_finish in Hx. cbn in Hx. cbn. unfold stop_finish. rewrite Hx. rewrite !andb_true_iff, negb_true_iff in Hx. destruct Hx as [[Hs Hl%Z.ltb_lt] Hn].
    unfold argus_mqtt_broker_observation_is_stopped. cbn. rewrite Hs, Hn. by destruct (Z.leb_spec 0 (lf_listen_sock (wd_life w))); [lia|].
Qed.

Lemma run_confirms s ls s' : sys_run s ls s' -> forall n p, s.2 !! n = Some p -> unless p not_ok -> s'.2 !! n = Some (over ESP_OK) ->
  exists l1 l2 sm, ls = l1 ++ l2 /\ sys_run s l1 sm /\ sys_run sm l2 s' /\ argus_mqtt_broker_observation_is_stopped (lifecycle_obs (wd_life sm.1)) = true.
Proof.
  induction 1 as [s|m X e k x w w' ts new ls s' Hm Ha Hc Hrun IH|q w ts ls s' Hq Hrun IH]; intros n p Hp Hu Hend; cbn [snd fst] in *.
  - rewrite Hp in Hend. simplify_eq. by destruct Hu.
  - assert (Hlt : (n < length ts)%nat) by eauto using lookup_lt_Some.
    assert (Hgo : forall p', (<[m := k x]> ts ++ new) !! n = Some p' -> unless p' not_ok ->
      exists l1 l2 sm, Taken m e x w :: ls = l1 ++ l2 /\ sys_run (w, ts) l1 sm /\ sys_run sm l2 s' /\
        argus_mqtt_broker_observation_is_stopped (lifecycle_obs (wd_life sm.1)) = true).
    { intros p' Hp' Hu'. destruct (IH n p' Hp' Hu' Hend) as (l1 & l2 & sm & -> & H1 & H2 & H3).
      exists (Taken m e x w :: l1), l2, sm. split_and!; [done|by apply (RunCall m X e k x w w' ts new)|done|done]. }
    destruct (decide (m = n)) as [->|Hne].
    + rewrite Hm in Hp. simplify_eq. destruct (Hu x) as [Hx|Hx].
      * exists [Taken n e x w], ls, (w', <[n := k x]> ts ++ new). split_and!; [done| |done|by apply (confirmed_stopped e x w)].
        apply (RunCall n X e k x w w' ts new); [done..|constructor].
      * apply (Hgo (k x)); [|done]. rewrite lookup_app_l by (by rewrite length_insert). by apply list_lookup_insert_eq.
    + apply (Hgo p); [|done]. rewrite lookup_app_l by (by rewrite length_insert). by rewrite list_lookup_insert_ne.
  - destruct (IH n p) as (l1 & l2 & sm & -> & H1 & H2 & H3); [by apply lookup_app_l_Some|done|done|]. exists l1, l2, sm.
    split_and!; [done|by apply (RunEnter q)|done|done].
Qed.

Lemma run_app s l1 sm l2 s' : sys_run s l1 sm -> sys_run sm l2 s' -> sys_run s (l1 ++ l2) s'.
Proof.
  induction 1 as [s|n X e k x w w' ts new ls sm Hn Ha Hc Hrun IH|p w ts ls sm Hp Hrun IH]; intros H2; [done| |].
  - apply (RunCall n X e k x w w' ts new); auto.
  - apply (RunEnter p); auto.
Qed.

Lemma reached_idle ls s : sys_run (broker_initial, []) ls s -> Forall orderly ls ->
  argus_mqtt_broker_observation_is_stopped (lifecycle_obs (wd_life s.1)) = true -> all_stopped s.1.
Proof.
  intros Hr Ho Hs. destruct (run_sound _ _ Hr Ho) as [[hs Hh] _]. split; [done|]. apply (held_idle _ _ Hh).
  unfold argus_mqtt_broker_observation_is_stopped in Hs. rewrite !andb_true_iff in Hs. by apply Z.eqb_eq, (proj2 Hs).
Qed.

(** When everything is stopped and every task has come to its end, no descriptor the
    platform has handed out is open. *)
Lemma nothing_leaks ls s : sys_run (broker_initial, []) ls s -> Forall orderly ls ->
  argus_mqtt_broker_observation_is_stopped (lifecycle_obs (wd_life s.1)) = true -> Forall (fun p => exists err, p = over err) s.2 ->
  wd_open s.1 = [].
Proof.
  intros Hr Ho Hs Hover. destruct (reached_idle _ _ Hr Ho Hs) as [_ Hidle]. destruct (run_sound _ _ Hr Ho) as [[hs [Hsane HF Ht]] _].
  assert (Hempty : concat hs = []).
  { clear Ht. induction HF as [|h p hs ps Hp HF IH]; [done|]. apply Forall_cons in Hover as [[err ->] Hover]. destruct Hp as [_ Hp].
    cbn [concat]. by rewrite (Hp ltac:(done)), IH. }
  destruct (wd_open s.1) as [|fd l] eqn:Hopen; [done|]. exfalso. specialize (Ht (Descriptor fd)). rewrite Hempty in Ht. cbn [issued] in Ht.
  unfold argus_mqtt_broker_observation_is_stopped in Hs. cbn in Hs. rewrite !andb_true_iff, !negb_true_iff, Z.leb_gt in Hs. destruct Hs as [[_ Hl] _].
  rewrite fd_none in Ht by done. rewrite (bool_decide_eq_true_2 (fd ∈ _)) in Ht by (rewrite Hopen; left).
  assert (Hc : count_clients (socket_is fd) (clients_of s.1) = 0%nat).
  { unfold count_clients. clear Ht. induction Hidle as [|c cs Hc _ IH]; [done|]. cbn [List.filter]. unfold socket_is at 1, has_socket. by rewrite Hc. }
  rewrite Hc in Ht. by rewrite !many_nil in Ht.
Qed.

(** C16: a stop that reports success was right at some moment while it ran, whatever the other
    tasks did: the broker was then published as stopped, with neither a listener nor a server
    task, and no connection was counted.  If every step up to that moment was orderly,
    moreover no connection record was in use then; and if the tasks had come to their ends
    as well, no descriptor the platform ever handed out was left open.  Steps are orderly when
    a start that finds STOPPED published finds no listener, no server task and no
    counted connection - which the code does not ensure after a start that timed out,
    start_timeout_leaves_connections - and a connection dropped for want of a task still has
    the socket it was accepted with, which a stop may have taken,
    create_failure_closes_twice. *)
Theorem stop_success_is_stopped ls0 s0 n waits ls s : sys_run (broker_initial, []) ls0 s0 ->
  s0.2 !! n = Some (argus_mqtt_broker_stop waits) -> sys_run s0 ls s -> s.2 !! n = Some (over ESP_OK) ->
  exists l1 l2 sm, ls = l1 ++ l2 /\ sys_run s0 l1 sm /\ sys_run sm l2 s /\
    argus_mqtt_broker_observation_is_stopped (lifecycle_obs (wd_life sm.1)) = true /\
    (Forall orderly (ls0 ++ l1) -> all_stopped sm.1 /\ (Forall (fun p => exists err, p = over err) sm.2 -> wd_open sm.1 = [])).
Proof.
  intros Hr0 Hn Hr Hend. destruct (run_confirms _ _ _ Hr n _ Hn (stop_confirmed waits) Hend) as (l1 & l2 & sm & -> & H1 & H2 & Hs).
  pose proof (run_app _ _ _ _ _ Hr0 H1) as Hr1. exists l1, l2, sm. do 4 (split; [done|]). intros Ho.
  split; [by apply (reached_idle (ls0 ++ l1))|]. by apply (nothing_leaks (ls0 ++ l1)).
Qed.

(** ** Runs that can be carried out *)

(** What the platform answers, where the run does not settle it. *)
Inductive hint := Fresh (sock : Z) | Created (created : bool) | Input (data : received).

Definition open_fresh (hints : list hint) (w : world) : Z * world :=
  match hints with
  | Fresh s :: _ => if (0 <=? s) && bool_decide (s ∉ wd_open w) then (s, w <| wd_open ::= cons s |>) else (-1, w)
  | _ => (-1, w)
  end.

Definition demo_reply {X} (e : life_call X) (hints : list hint) (w : world) : X * list hint * world :=
  let b := bm_broker (wd_memory w) in
  match e in life_call X return X * list hint * world with
  | Socket => let '(s, w') := open_fresh hints w in (s, tail hints, w')
  | Accept _ => let '(s, w') := open_fresh hints w in ((s, 1), tail hints, w')
  | Close s => (tt, hints, close_fd s w)
  | Bind _ _ | Listen _ | ShutdownSocket _ => (true, hints, w)
  | ReceivingInterface _ => (1, hints, w)
  | SendPublish _ _ | Pause => (tt, hints, w)
  | CreateClientTask _ => match hints with Created false :: hints => (false, hints, w) | _ => (true, hints, w) end
  | SetBits b => (tt, hints, with_life (fun l => l <| lf_bits ::= set_bit b |>) w)
  | WaitBits => (lf_bits (wd_life w), hints, w)
  | CountUp => (tt, hints, with_life (fun l => l <| lf_active_client_count ::= Z.add 1 |>) w)
  | CountOff => (tt, hints, with_life (fun l => l <| lf_active_client_count ::= Z.pred |>) w)
  | CountNow => (lf_active_client_count (wd_life w), hints, w)
  | Initialised => (lf_initialised (wd_life w), hints, w)
  | Port => (lf_port (wd_life w), hints, w)
  | StartupError => (lf_startup_error (wd_life w), hints, w)
  | StartBegin port => let '(err, w') := start_begin port true w in (err, hints, w')
  | StartStopped => (tt, hints, with_life (fun l => l <| lf_state := BROKER_STATE_STOPPED |>) w)
  | StartTimeout => ((take_listener (wd_life w)).1, hints, with_life (fun l => (take_listener l).2) w)
  | StartFailed => (tt, hints, with_life start_failed w)
  | PublishListener s => ((publish_listener s (wd_life w)).1, hints, with_life (fun l => (publish_listener s l).2) w)
  | Listening => ((running (wd_life w), lf_listen_sock (wd_life w)), hints, w)
  | ServerGone => (tt, hints, with_life (fun l => l <| lf_server_task := false |>) w)
  | StopBegin => ((stop_begin (wd_life w)).1, hints, with_life (fun l => (stop_begin l).2) w)
  | StopFinish => ((stop_finish (wd_life w)).1, hints, with_life (fun l => (stop_finish l).2) w)
  | AllocClient s peer iface =>
      let '(result, b) := argus_mqtt_alloc_client_locked b s peer iface (fun _ => false) in
      (match result with AllocOk i => Some i | _ => None end, hints, with_broker (fun _ => b) w)
  | DropClient i _ => (tt, hints, with_broker (drop_client i) w)
  | RetireSockets => ((retire_sockets b).1, hints, with_broker (fun b => (retire_sockets b).2) w)
  | Fence id => ((argus_mqtt_broker_fence_machine_authentication b id).1, hints,
                 with_broker (fun b => (argus_mqtt_broker_fence_machine_authentication b id).2) w)
  | ClaimAll id => ((claim_section id b).1, hints, with_broker (fun b => (claim_section id b).2) w)
  | Release t => ((disconnect_release b t).1, hints, with_broker (fun b => (disconnect_release b t).2) w)
  | PublishSection topic payload retain =>
      let '(err, sends, m) := argus_mqtt_broker_publish (running (wd_life w)) (wd_memory w) topic payload retain in
      ((err, sends), hints, w <| wd_memory := m |>)
  | OfClient i e =>
      match e in client_call X return X * list hint * world with
      | Recv _ => match hints with Input data :: hints => (data, hints, w) | _ => (Gone, hints, w) end
      | Send data | SendTo _ data => (Z.of_nat (length data), hints, w)
      | CloseSocket s => (tt, hints, close_fd s w)
      | Locked s => let '(x, m) := enter i s (wd_memory w) in (x, hints, w <| wd_memory := m |>)
      | CountDown => (lf_active_client_count (wd_life w), hints, with_life (fun l => l <| lf_active_client_count ::= Z.pred |>) w)
      | SignalClientsExited => (tt, hints, with_life (fun l => l <| lf_bits ::= set_bit BROKER_EVT_CLIENTS_EXITED |>) w)
      | Clock => (0, hints, w)
      | Alloc => (true, hints, w)
      | Authenticate _ => (ARGUS_MACHINE_AUTH_SUCCESS, demo_principal (str "m-1"), hints, w)
      | Revalidate _ | SubscribePolicy _ _ | PublishAuthorize _ | PolicyCheck _ => (ESP_OK, hints, w)
      | OnMessage _ | OnConnected _ | OnDisconnected _ | Tick => (tt, hints, w)
      end
  end.

Lemma open_fresh_ok hints w : let '(s, w') := open_fresh hints w in
  (s < 0 /\ w' = w) \/ (0 <= s /\ (s ∉ wd_open w) /\ w' = w <| wd_open ::= cons s |>).
Proof.
  unfold open_fresh. destruct hints as [|[s|c|d] hints]; try (by left). destruct (Z.leb_spec 0 s); cbn [andb]; [|by left].
  case_bool_decide; [by right|by left].
Qed.

Lemma demo_reply_ok {X} (e : life_call X) hints w : world_answer e w (demo_reply e hints w).1.1 (demo_reply e hints w).2.
Proof.
  destruct e; try done; cbn [demo_reply world_answer].
  - pose proof (open_fresh_ok hints w) as H. by destruct (open_fresh hints w).
  - pose proof (open_fresh_ok hints w) as H. by destruct (open_fresh hints w).
  - by destruct hints as [|[s|[]|d] hints].
  - exists true. by destruct (start_begin port true w).
  - exists (fun _ => false). by destruct (argus_mqtt_alloc_client_locked _ _ _ _ _) as [[] ?].
  - by destruct (argus_mqtt_broker_publish _ _ _ _ _) as [[err sends] m].
  - destruct e; try done; [by destruct hints as [|[?|?|?] ?]|]. destruct (enter slot s (wd_memory w)) as [x m] eqn:He. by exists m.
Qed.

Inductive move := Go (n : nat) | Enter (p : task) (e : entry p).

Definition demo_created {X} (e : life_call X) : X -> list task :=
  match e in life_call X return X -> list task with
  | StartBegin _ => fun err => if is_ok err then [argus_mqtt_server_task 4] else []
  | CreateClientTask i => fun created => if (created : bool) then [client_task i true true 4 4] else []
  | _ => fun _ => []
  end.

Lemma demo_created_ok {X} (e : life_call X) x : creates e x (demo_created e x).
Proof.
  destruct e; try done.
  - destruct x; [by exists true, true, 4%nat, 4%nat|done].
  - unfold creates, demo_created. destruct (is_ok x); [by exists 4%nat|done].
Qed.

Fixpoint demo_run (moves : list move) (hints : list hint) (w : world) (ts : list task) : list taken * (world * list task) :=
  match moves with
  | [] => ([], (w, ts))
  | Enter p _ :: moves => demo_run moves hints w (ts ++ [p])
  | Go n :: moves =>
      match ts !! n with
      | Some (Op e k) =>
          let '(x, hints', w') := demo_reply e hints w in
          let '(ls, s) := demo_run moves hints' w' (<[n := k x]> ts ++ demo_created e x) in
          (Taken n e x w :: ls, s)
      | _ => demo_run moves hints w ts
      end
  end.

Lemma demo_run_ok moves : forall hints w ts, sys_run (w, ts) (demo_run moves hints w ts).1 (demo_run moves hints w ts).2.
Proof.
  induction moves as [|[n|p e] moves IH]; intros hints w ts; cbn [demo_run]; [constructor| |by apply (RunEnter p)].
  destruct (ts !! n) as [[r|X e k]|] eqn:Hn; [apply IH| |apply IH]. pose proof (demo_reply_ok e hints w) as Ha.
  destruct (demo_reply e hints w) as [[x hints'] w']. specialize (IH hints' w' (<[n := k x]> ts ++ demo_created e x)).
  destruct (demo_run moves hints' w' _) as [ls s]. exact (RunCall n X e k x w w' ts _ ls s Hn Ha (demo_created_ok e x) IH).
Qed.

Definition orderly_check (l : taken) : bool :=
  match ta_call l with
  | StartBegin _ => argus_mqtt_broker_observation_is_stopped (lifecycle_obs (wd_life (ta_world l)))
  | DropClient _ _ => false
  | _ => true
  end.
Lemma orderly_checked ls : forallb orderly_check ls = true -> Forall orderly ls.
Proof.
  rewrite forallb_forall. intros H. apply Forall_forall. intros l Hl%list_elem_of_In. specialize (H l Hl). unfold orderly, orderly_check in *.
  destruct (ta_call l); try done. intros _ _. exact H.
Qed.

Definition times (k n : nat) : list move := replicate k (Go n).

(** A start (task 0), its server (task 1) and a connection (task 2) that logs in as m-1 and
    subscribes. *)
Definition demo_up : list move := Enter _ (EnterStart (Some 1883)) :: times 2 0 ++ times 6 1 ++ times 1 0 ++ times 7 1.
Definition demo_session_moves : list move := demo_up ++ times 70 2.
Definition demo_session_hints : list hint := [Fresh 3; Fresh 4] ++ (Input <$> take 6 demo_inputs).

Lemma demo_from s moves hints : sys_run s (demo_run moves hints s.1 s.2).1 (demo_run moves hints s.1 s.2).2.
Proof. destruct s. apply demo_run_ok. Qed.

Definition demo_step (ls : list taken) (n : nat) : taken := default (Taken 0 Pause tt broker_initial) (ls !! n).
Lemma demo_step_in ls n : (n < length ls)%nat -> demo_step ls n ∈ ls.
Proof. intros H. unfold demo_step. destruct (lookup_lt_is_Some_2 ls n H) as [l Hl]. rewrite Hl. by apply list_elem_of_lookup_2 in Hl. Qed.

Definition result_of (ts : list task) (n : nat) : option (option esp_err_t) := match ts !! n with Some (Ret r) => Some r | _ => None end.
Lemma result_of_ret ts n r : result_of ts n = Some r -> ts !! n = Some (Ret r).
Proof. unfold result_of. destruct (ts !! n) as [[r'|]|]; try done. by intros [= <-]. Qed.

Definition is_over (p : task) : bool := match p with Ret (Some _) => true | _ => false end.
Lemma all_over ts : forallb is_over ts = true -> Forall (fun p => exists err, p = over err) ts.
Proof.
  rewrite forallb_forall. intros H. apply Forall_forall. intros p Hp%list_elem_of_In. specialize (H p Hp). destruct p as [[err|]|]; try done. by exists err.
Qed.

(** The broker is taken down again, with the connection still open. *)
Definition demo_stop : list move := times 7 3 ++ times 3 1 ++ times 7 2 ++ times 5 3.
Definition demo_life : list taken * (world * list task) :=
  demo_run (demo_up ++ Enter _ (EnterStop 2) :: demo_stop) [Fresh 3; Fresh 4] broker_initial [].

(** The machine of the connection is revoked. *)
Definition demo_revocation : list taken * (world * list task) :=
  demo_run (demo_session_moves ++ Enter _ (EnterDisconnect (str "m-1")) :: times 5 3) demo_session_hints broker_initial [].

Lemma demo_step_split ls n : (n <? length ls)%nat = true -> ls = take n ls ++ demo_step ls n :: drop (S n) ls.
Proof.
  intros H%Nat.ltb_lt. destruct (lookup_lt_is_Some_2 ls n H) as [l Hl]. unfold demo_step. rewrite Hl. symmetry. by apply take_drop_middle.
Qed.

Lemma descriptors_used_while_open_witness :
  4 ∈ wd_open (ta_world (demo_step demo_life.1 22)) /\ 4 ∈ wd_open (ta_world (demo_step demo_revocation.1 89)).
Proof.
  split.
  - refine (proj1 (descriptors_used_while_open demo_life.1 demo_life.2 (take 22 demo_life.1) (demo_step demo_life.1 22) (drop 23 demo_life.1)
      (demo_from (broker_initial, []) _ _) (demo_step_split _ 22 _) (orderly_checked _ _)) 4 (or_introl _)); by vm_compute.
  - refine (proj1 (descriptors_used_while_open demo_revocation.1 demo_revocation.2 (take 89 demo_revocation.1) (demo_step demo_revocation.1 89)
      (drop 90 demo_revocation.1) (demo_from (broker_initial, []) _ _) (demo_step_split _ 89 _) (orderly_checked _ _)) 4 (or_intror _)); by vm_compute.
Defined.

Definition demo_running : list taken * (world * list task) := demo_run demo_up [Fresh 3; Fresh 4] broker_initial [].
Definition demo_stopping : world * list task := (demo_running.2.1, demo_running.2.2 ++ [argus_mqtt_broker_stop 2]).
Definition demo_stopped : list taken * (world * list task) := demo_run demo_stop [] demo_stopping.1 demo_stopping.2.

Lemma demo_stopping_run : sys_run (broker_initial, []) (demo_running.1 ++ []) demo_stopping.
Proof.
  apply (run_app _ _ demo_running.2); [exact (demo_from (broker_initial, []) _ _)|]. unfold demo_stopping. destruct demo_running.2 as [w ts].
  apply (RunEnter (argus_mqtt_broker_stop 2) w ts); [apply EnterStop|constructor].
Qed.

Lemma stop_success_is_stopped_witness : exists l1 l2 sm, demo_stopped.1 = l1 ++ l2 /\ sys_run demo_stopping l1 sm /\ sys_run sm l2 demo_stopped.2 /\
  all_stopped sm.1 /\ (Forall (fun p => exists err, p = over err) sm.2 -> wd_open sm.1 = []).
Proof.
  assert (Ho : Forall orderly ((demo_running.1 ++ []) ++ demo_stopped.1)) by (apply orderly_checked; by vm_compute).
  assert (Hn : demo_stopping.2 !! 3%nat = Some (argus_mqtt_broker_stop 2)) by (apply list_lookup_middle; by vm_compute).
  assert (He : result_of demo_stopped.2.2 3 = Some (Some ESP_OK)) by by vm_compute.
  destruct (stop_success_is_stopped (demo_running.1 ++ []) demo_stopping 3 2 demo_stopped.1 demo_stopped.2 demo_stopping_run
    Hn (demo_from demo_stopping _ _) (result_of_ret _ _ _ He))
    as (l1 & l2 & sm & E & H1 & H2 & _ & H).
  exists l1, l2, sm. do 3 (split; [assumption|]). apply H. rewrite E, app_assoc in Ho. by apply Forall_app in Ho as [Ho _].
Defined.

(** That run closes everything it opened. *)
Lemma demo_life_closed : wd_open demo_life.2.1 = [].
Proof.
  refine (nothing_leaks demo_life.1 demo_life.2 (demo_from (broker_initial, []) _ _) (orderly_checked _ _) _ (all_over _ _)); by vm_compute.
Qed.

(** ** Where the order fails *)

(** Why [orderly] is assumed, first: a stop that comes between the allocation of a record
    and the failure to create its task retires and closes the socket, and the server then
    closes it again. *)
Lemma create_failure_closes_twice : exists ls s l, sys_run (broker_initial, []) ls s /\ l ∈ ls /\ closes l = Some 4 /\ 4 ∉ wd_open (ta_world l).
Proof.
  set (r := demo_run (demo_up ++ Enter _ (EnterStop 2) :: times 7 2 ++ times 3 1) [Fresh 3; Fresh 4; Created false] broker_initial []).
  exists r.1, r.2, (demo_step r.1 25). split_and!; [exact (demo_from (broker_initial, []) _ _)| |by vm_compute|].
  - apply demo_step_in, Nat.ltb_lt. by vm_compute.
  - apply (bool_decide_eq_false_1 (4 ∈ wd_open (ta_world (demo_step r.1 25)))). by vm_compute.
Qed.

(** Second: a start that gives up waiting while its server comes up publishes STOPPED as
    soon as the server has left, whatever connections it accepted meanwhile; the next start
    only looks at the state, and clears their records. *)
Lemma start_timeout_leaves_connections : exists ls w ts, sys_run (broker_initial, []) ls (w, ts) /\ Forall orderly ls /\
  lf_state (wd_life w) = BROKER_STATE_STOPPED /\ lf_server_task (wd_life w) = false /\
  lf_active_client_count (wd_life w) = 1 /\ existsb cl_in_use (clients_of w) = true.
Proof.
  set (r := demo_run (Enter _ (EnterStart (Some 1883)) :: times 2 0 ++ times 4 1 ++ times 1 0 ++ times 9 1 ++ times 3 0 ++ times 3 1 ++ times 2 0)
    [Fresh 3; Fresh 4] broker_initial []).
  exists r.1, r.2.1, r.2.2. split_and!; [|by apply orderly_checked; vm_compute|by vm_compute..].
  rewrite <- surjective_pairing. exact (demo_from (broker_initial, []) _ _).
Qed.

(** A publication is written to the sockets it was collected for after the lock is given
    back: the descriptor may by then belong to a connection that never logged in. *)
Lemma delivery_may_reach_a_stranger : exists ls s l data, sys_run (broker_initial, []) ls s /\ Forall orderly ls /\ l ∈ ls /\
  (match ta_call l with SendPublish sock d => Some (sock, d) | _ => None end) = Some (4, data) /\
  existsb (fun c => cl_in_use c && negb (cl_connected c) && (cl_sock c =? 4)) (clients_of (ta_world l)) = true.
Proof.
  set (r := demo_run (demo_up ++ times 40 2 ++ Enter _ (EnterPublish (str "t") (str "v") false) :: times 1 3 ++ times 120 2 ++ times 6 1 ++ times 1 3)
    (demo_session_hints ++ [Fresh 4]) broker_initial []).
  exists r.1, r.2, (demo_step r.1 100), (default [] (argus_mqtt_publish_packet (str "t") (str "v") false)).
  split_and!; [exact (demo_from (broker_initial, []) _ _)|by apply orderly_checked; vm_compute| |by vm_compute|by vm_compute].
  apply demo_step_in, Nat.ltb_lt. by vm_compute.
Qed.
