(* ===== verification/JsonBody.v ===== *)
(** * Request bodies of the browser surface

    What the handlers of [src/main/argus_security_http.c] and
    [src/main/argus_http_server.c] read out of a request: the exact sets of keys, the typed
    fields, permission lists, the decoders of the login, password, configuration and machine
    bodies, and the query of the audit page.  Parsing is [cJSON]'s: the functions take the
    tree it returns.  Clearing the strings of a tree before it is freed is not modelled. *)

From S2P Require Import Prelude Authorization SecurityRecords SecurityDirectory AuthService ConfigStore AuditLog.

(** ** The tree

    A [cJSON] node; a string is what the string functions of C see of [valuestring].  The
    numbers are only ever written, never read. *)
Inductive json :=
| JNull
| JBool (b : bool)
| JNumber (n : Z)
| JString (valuestring : bytes)
| JArray (items : list json)
| JObject (fields : list (bytes * json)).

Definition is_string (item : option json) : option bytes := match item with Some (JString s) => Some s | _ => None end.
Definition is_array (item : option json) : option (list json) := match item with Some (JArray l) => Some l | _ => None end.

(** The children [cJSON_ArrayForEach] visits, with [item->string]. *)
Definition children (root : json) : list (option bytes * json) :=
  match root with
  | JArray items => (fun j => (None, j)) <$> items
  | JObject fields => (fun f => (Some f.1, f.2)) <$> fields
  | _ => []
  end.

(** [cJSON_GetObjectItemCaseSensitive]: the first child with the name, as its position; a
    child without a name ends the search. *)
Fixpoint find_item (l : list (option bytes * json)) (name : bytes) : option nat :=
  match l with
  | (Some key, _) :: l => if bool_decide (key = name) then Some O else S <$> find_item l name
  | _ => None
  end.

Definition get_item (root : json) (name : bytes) : option json :=
  i ← find_item (children root) name; snd <$> children root !! i.

(** A parse is accepted when it is an object and consumed the whole body. *)
Definition complete_object (parsed : option (json * nat)) (len : nat) : option json :=
  match parsed with
  | Some (JObject fields, consumed) => if (consumed =? len)%nat then Some (JObject fields) else None
  | _ => None
  end.

(** ** Fields *)

(** The loop of [object_keys]: [i] counts the children visited. *)
Fixpoint keys_loop (root : json) (keys : list bytes) (i count : nat) (l : list (option bytes * json)) : option nat :=
  match l with
  | [] => Some count
  | (None, _) :: _ => None
  | (Some name, _) :: l =>
      if bool_decide (name ∈ keys) then
        if bool_decide (find_item (children root) name = Some i) then keys_loop root keys (S i) (S count) l else None
      else None
  end.

Definition object_keys (root : json) (keys : list bytes) : bool :=
  match keys_loop root keys 0 0 (children root) with
  | Some count => (count =? length keys)%nat
  | None => false
  end.

Definition string_field (root : json) (name : bytes) (maximum : nat) (allow_empty : bool) : option bytes :=
  value ← is_string (get_item root name);
  if (maximum <? length value)%nat || (negb allow_empty && (length value =? 0)%nat) then None else Some value.

(** The value of a text in a table of names. *)
Fixpoint table_value {A} (map : list (bytes * A)) (name : bytes) : option A :=
  match map with
  | [] => None
  | (key, value) :: map => if bool_decide (name = key) then Some value else table_value map name
  end.

Definition LEVELS : list (bytes * Z) :=
  [(str "argus_personnel", ARGUS_SECURITY_LEVEL_ARGUS_PERSONNEL); (str "client_admin", ARGUS_SECURITY_LEVEL_CLIENT_ADMIN);
   (str "supervisor", ARGUS_SECURITY_LEVEL_SUPERVISOR); (str "operator", ARGUS_SECURITY_LEVEL_OPERATOR);
   (str "viewer", ARGUS_SECURITY_LEVEL_VIEWER)].

Definition level_field (root : json) : option Z :=
  value ← string_field root (str "level") 20 false; table_value LEVELS value.

(** ** Permissions *)

(** [MAP] of [permission_from_name], and [CAPABILITIES] of the session page. *)
Definition PERMISSION_NAMES : list (bytes * Z) :=
  [(str "view_status", ARGUS_PERMISSION_VIEW_STATUS);
   (str "request_authority", ARGUS_PERMISSION_REQUEST_AUTHORITY);
   (str "motion", ARGUS_PERMISSION_MOTION);
   (str "software_estop", ARGUS_PERMISSION_SOFTWARE_ESTOP);
   (str "reset_software_estop", ARGUS_PERMISSION_RESET_SOFTWARE_ESTOP);
   (str "ack_alarms", ARGUS_PERMISSION_ACK_ALARMS);
   (str "manage_users", ARGUS_PERMISSION_MANAGE_USERS);
   (str "manage_roles", ARGUS_PERMISSION_MANAGE_ROLES);
   (str "manage_client_admins", ARGUS_PERMISSION_MANAGE_CLIENT_ADMINS);
   (str "enroll_machines", ARGUS_PERMISSION_ENROLL_MACHINES);
   (str "revoke_machines", ARGUS_PERMISSION_REVOKE_MACHINES);
   (str "view_audit", ARGUS_PERMISSION_VIEW_AUDIT);
   (str "manage_network", ARGUS_PERMISSION_MANAGE_NETWORK);
   (str "change_ap_secret", ARGUS_PERMISSION_CHANGE_AP_SECRET);
   (str "manage_client_network", ARGUS_PERMISSION_MANAGE_CLIENT_NETWORK);
   (str "manage_mqtt", ARGUS_PERMISSION_MANAGE_MQTT);
   (str "modify_identity", ARGUS_PERMISSION_MODIFY_IDENTITY);
   (str "modify_protected_config", ARGUS_PERMISSION_MODIFY_PROTECTED_CONFIG);
   (str "commission", ARGUS_PERMISSION_COMMISSION);
   (str "calibrate", ARGUS_PERMISSION_CALIBRATE);
   (str "manage_firmware", ARGUS_PERMISSION_MANAGE_FIRMWARE);
   (str "invoke_recovery", ARGUS_PERMISSION_INVOKE_RECOVERY);
   (str "full_security_reset", ARGUS_PERMISSION_FULL_SECURITY_RESET)].

Definition permission_from_name (name : bytes) : Z := default 0 (table_value PERMISSION_NAMES name).

Definition MACHINE_PERMISSION_NAMES : list bytes :=
  [str "view_status"; str "request_authority"; str "motion"; str "software_estop"; str "reset_software_estop"; str "ack_alarms"].

(** The strings [add_permission_names] appends. *)
Definition add_permission_names (set : Z) : list json :=
  JString <$> List.filter (fun name => let bit := permission_from_name name in negb ((bit =? 0) || (Z.land set bit =? 0)))
    MACHINE_PERMISSION_NAMES.

Fixpoint permission_loop (result : Z) (items : list json) : option Z :=
  match items with
  | [] => Some result
  | JString name :: items =>
      let permission := permission_from_name name in
      if (permission =? 0) || negb (Z.land result permission =? 0) then None
      else permission_loop (Z.lor result permission) items
  | _ :: _ => None
  end.

Definition permission_array (array : option json) : option Z :=
  items ← is_array array;
  if (23 <? length items)%nat then None else permission_loop 0 items.

(** The position of a custom role, or the count. *)
Definition role_index (p : argus_security_directory_payload_t) (identifier : bytes) : nat :=
  let count := Z.to_nat (dp_custom_role_count p) in
  match List.find (fun i => bool_decide (ro_identifier (role_at p i) = identifier)) (seq 0 count) with
  | Some i => i
  | None => count
  end.

Fixpoint role_mask_loop (p : argus_security_directory_payload_t) (result : Z) (items : list json) : option Z :=
  match items with
  | [] => Some result
  | JString identifier :: items =>
      let index := role_index p identifier in
      let bit := Z.shiftl 1 (Z.of_nat index) in
      if (index =? Z.to_nat (dp_custom_role_count p))%nat || negb (Z.land result bit =? 0) then None
      else role_mask_loop p (u16 (Z.lor result bit)) items
  | _ :: _ => None
  end.

(** ** Machines *)

Definition MACHINE_TYPES : list (bytes * Z) :=
  [(str "PUMP_HMI", 1); (str "NODE_RED", 2); (str "SERVICE_TOOL", 3); (str "BACKUP_INTERFACE", 4);
   (str "ARGUS_COMMAND", 5); (str "AI_TOOL_GATEWAY", 6)].

Definition machine_type_field (root : json) : option Z :=
  value ← string_field root (str "client_type") 32 false; table_value MACHINE_TYPES value.

Definition machine_type_name (type : Z) : bytes :=
  match List.find (fun t => t.2 =? type) MACHINE_TYPES with Some (name, _) => name | None => str "UNKNOWN" end.

Definition interface_from_name (name : bytes) : Z :=
  if bool_decide (name = str "SOFTAP") then ARGUS_MACHINE_INTERFACE_SOFTAP
  else if bool_decide (name = str "STA") then ARGUS_MACHINE_INTERFACE_STA else 0.

Fixpoint interface_loop (result : Z) (items : list json) : option Z :=
  match items with
  | [] => Some result
  | JString name :: items =>
      let value := interface_from_name name in
      if (value =? 0) || negb (Z.land result value =? 0) then None
      else interface_loop (Z.lor result value) items
  | _ :: _ => None
  end.

Definition interface_array (array : option json) : option Z :=
  items ← is_array array;
  if (length items <? 1)%nat || (2 <? length items)%nat then None else interface_loop 0 items.

Inductive argus_security_http_machine_body_t :=
| ARGUS_MACHINE_ACTION_BODY_OK (identifier action : bytes) (set_permissions : option Z)
| ARGUS_MACHINE_ACTION_BODY_INVALID
| ARGUS_MACHINE_ACTION_BODY_INVALID_PERMISSIONS.

(** The permissions are [Some] for [set_permissions] alone. *)
Definition argus_security_http_machine_action_body (root : option json) : argus_security_http_machine_body_t :=
  match root with
  | None => ARGUS_MACHINE_ACTION_BODY_INVALID
  | Some root =>
      let wants_permissions := bool_decide (is_string (get_item root (str "action")) = Some (str "set_permissions")) in
      let keys := if wants_permissions then [str "id"; str "action"; str "permissions"] else [str "id"; str "action"] in
      if negb (object_keys root keys) then ARGUS_MACHINE_ACTION_BODY_INVALID
      else
        match string_field root (str "id") 36 false, string_field root (str "action") 16 false with
        | Some identifier, Some action =>
            if wants_permissions then
              match permission_array (get_item root (str "permissions")) with
              | None => ARGUS_MACHINE_ACTION_BODY_INVALID_PERMISSIONS
              | Some permissions => ARGUS_MACHINE_ACTION_BODY_OK identifier action (Some permissions)
              end
            else ARGUS_MACHINE_ACTION_BODY_OK identifier action None
        | _, _ => ARGUS_MACHINE_ACTION_BODY_INVALID
        end
  end.

(** ** Login and passwords *)

(** What the loop of [decode_login] collects. *)
Record login_scan := LoginScan {
  ls_username_item : option json;
  ls_password_item : option json;
  ls_valid : bool
}.
#[export] Instance eta_login_scan : Eta login_scan := fun s => LoginScan (ls_username_item s) (ls_password_item s) (ls_valid s).

Definition is_none {A} (o : option A) : bool := match o with None => true | Some _ => false end.

Definition login_scan_item (s : login_scan) (item : option bytes * json) : login_scan :=
  match item with
  | (None, _) => s <| ls_valid := false |>
  | (Some key, value) =>
      if bool_decide (key = str "username")
      then s <| ls_valid ::= andb (is_none (ls_username_item s)) |> <| ls_username_item := Some value |>
      else if bool_decide (key = str "password")
      then s <| ls_valid ::= andb (is_none (ls_password_item s)) |> <| ls_password_item := Some value |>
      else s <| ls_valid := false |>
  end.

(** The name and the password. *)
Definition decode_login (parsed : option (json * nat)) (body_len : nat) : option (bytes * bytes) :=
  root ← complete_object parsed body_len;
  let scan := foldl login_scan_item (LoginScan None None true) (children root) in
  if negb (ls_valid scan) || negb (length (children root) =? 2)%nat then None
  else
    username ← is_string (ls_username_item scan);
    password ← is_string (ls_password_item scan);
    if (length username =? 0)%nat || (ARGUS_LOGIN_NAME_MAX <? length username)%nat
       || (length password =? 0)%nat || (ARGUS_PASSWORD_INPUT_MAX <? length password)%nat
    then None else Some (username, password).

Record password_scan := PasswordScan {
  ps_current_item : option json;
  ps_new_item : option json;
  ps_confirm_item : option json;
  ps_valid : bool
}.
#[export] Instance eta_password_scan : Eta password_scan := fun s =>
  PasswordScan (ps_current_item s) (ps_new_item s) (ps_confirm_item s) (ps_valid s).

Definition password_scan_item (changing : bool) (s : password_scan) (item : option bytes * json) : password_scan :=
  match item with
  | (None, _) => s <| ps_valid := false |>
  | (Some key, value) =>
      if bool_decide (key = str "current_password")
      then s <| ps_valid ::= andb (is_none (ps_current_item s)) |> <| ps_current_item := Some value |>
      else if changing && bool_decide (key = str "new_password")
      then s <| ps_valid ::= andb (is_none (ps_new_item s)) |> <| ps_new_item := Some value |>
      else if changing && bool_decide (key = str "confirm_password")
      then s <| ps_valid ::= andb (is_none (ps_confirm_item s)) |> <| ps_confirm_item := Some value |>
      else s <| ps_valid := false |>
  end.

Definition current_password_fits (current : bytes) : bool :=
  (0 <? length current)%nat && (length current <=? ARGUS_PASSWORD_INPUT_MAX)%nat.

(** The current password, and the new one when the password is [changing] (empty otherwise). *)
Definition parse_password_object (parsed : option (json * nat)) (body_len : nat) (changing : bool) : option (bytes * bytes) :=
  root ← complete_object parsed body_len;
  let scan := foldl (password_scan_item changing) (PasswordScan None None None true) (children root) in
  if negb (ps_valid scan) || negb (length (children root) =? if changing then 3 else 1)%nat then None
  else
    current ← is_string (ps_current_item scan);
    if changing then
      replacement ← is_string (ps_new_item scan);
      confirmation ← is_string (ps_confirm_item scan);
      if current_password_fits current && (length replacement <=? ARGUS_PASSWORD_INPUT_MAX)%nat
         && bool_decide (replacement = confirmation) && argus_auth_new_password_valid (Some replacement)
      then Some (current, replacement) else None
    else if current_password_fits current then Some (current, []) else None.

(** ** The configuration *)

(** The text copied, [Some None] when the field is absent and not [required]. *)
Definition copy_json_string (object : json) (name : bytes) (capacity : nat) (required : bool) : option (option bytes) :=
  match get_item object name with
  | None => if required then None else Some None
  | Some item =>
      value ← is_string (Some item);
      if (capacity <=? length value)%nat then None else Some (Some value)
  end.

Definition allowed_names (scope : argus_config_scope_t) : list bytes :=
  str "scope" :: match scope with
                 | ARGUS_CONFIG_SCOPE_IDENTITY => [str "client_id"; str "unit_id"; str "device_name"]
                 | _ => [str "sta_ssid"; str "sta_pass"]
                 end.

(** Every child is allowed in the scope and the first of its name. *)
Fixpoint config_items (root : json) (scope : argus_config_scope_t) (i : nat) (l : list (option bytes * json)) : bool :=
  match l with
  | [] => true
  | (None, _) :: _ => false
  | (Some name, _) :: l =>
      if negb (bool_decide (find_item (children root) name = Some i)) then false
      else if negb (bool_decide (name ∈ allowed_names scope)) then false
      else config_items root scope (S i) l
  end.

Definition decode_config_request (parsed : option (json * nat)) (body_len : nat)
    : option (argus_config_scope_t * argus_config_fields_t) :=
  root ← complete_object parsed body_len;
  scope_text ← is_string (get_item root (str "scope"));
  let scope := argus_config_overlay_parse_scope (Some scope_text) in
  let count := length (children root) in
  match scope with
  | ARGUS_CONFIG_SCOPE_INVALID => None
  | ARGUS_CONFIG_SCOPE_IDENTITY =>
      if negb (config_items root scope 0 (children root)) || negb (count =? 4)%nat then None
      else
        client_id ← copy_json_string root (str "client_id") 33 true;
        unit_id ← copy_json_string root (str "unit_id") 33 true;
        device_name ← copy_json_string root (str "device_name") 65 true;
        Some (scope, ConfigFields client_id unit_id device_name None None)
  | ARGUS_CONFIG_SCOPE_WIFI =>
      if negb (config_items root scope 0 (children root)) || negb ((count =? 2)%nat || (count =? 3)%nat) then None
      else
        sta_ssid ← copy_json_string root (str "sta_ssid") 33 true;
        sta_pass ← copy_json_string root (str "sta_pass") 64 false;
        Some (scope, ConfigFields None None None sta_ssid sta_pass)
  end.

(** ** The query of the audit page *)

Definition AUDIT_QUERY_MAX : nat := 96.

Record audit_query_t := AuditQuery { aq_before_sequence : Z; aq_limit : Z }.
#[export] Instance eta_audit_query : Eta audit_query_t := fun q => AuditQuery (aq_before_sequence q) (aq_limit q).

Fixpoint decimal_loop (value : Z) (text : bytes) : option Z :=
  match text with
  | [] => Some value
  | c :: text =>
      if (c <? 48) || (57 <? c) then None
      else
        let digit := u8 (c - 48) in
        if (UINT64_MAX - digit) / 10 <? value then None else decimal_loop (u64 (value * 10 + digit)) text
  end.

Definition parse_decimal_u64 (text : bytes) : option Z :=
  if (length text =? 0)%nat || (20 <? length text)%nat then None else decimal_loop 0 text.

(** One field of the query, between two ampersands: the flags of the keys already seen and
    the query so far. *)
Definition query_state : Type := bool * bool * audit_query_t.

Definition query_field (field : bytes) (s : query_state) : option query_state :=
  let '(saw_before, saw_limit, out) := s in
  let key := take_while (fun c => negb (c =? 61)) field in
  match key, skip_while (fun c => negb (c =? 61)) field with
  | [], _ | _, [] => None
  | _, _ :: value =>
      if bool_decide (key = str "before") then
        decoded ← (if (saw_before : bool) then None else parse_decimal_u64 value);
        if decoded =? 0 then None else Some (true, saw_limit, out <| aq_before_sequence := decoded |>)
      else if bool_decide (key = str "limit") then
        decoded ← (if (saw_limit : bool) then None else parse_decimal_u64 value);
        if (decoded =? 0) || (ARGUS_AUDIT_PAGE_MAX <? decoded) then None
        else Some (saw_before, true, out <| aq_limit := u32 decoded |>)
      else None
  end.

(** The loop, on the text from [position] on; every round consumes a byte. *)
Fixpoint query_loop (fuel : nat) (text : bytes) (s : query_state) : option query_state :=
  match fuel, text with
  | _, [] => Some s
  | O, _ => None
  | S fuel, _ =>
      let field := take_while (fun c => negb (c =? 38)) text in
      match field, skip_while (fun c => negb (c =? 38)) text with
      | [], _ => None
      | _, [_] => None
      | _, rest => s ← query_field field s; query_loop fuel (drop 1 rest) s
      end
  end.

Definition default_query : audit_query_t := AuditQuery 0 ARGUS_AUDIT_PAGE_MAX.

(** A NULL query is [None]. *)
Definition parse_audit_query (query : option bytes) : option audit_query_t :=
  match query with
  | None | Some [] => Some default_query
  | Some query =>
      if (AUDIT_QUERY_MAX <? length query)%nat then None
      else snd <$> query_loop (length query) query (false, false, default_query)
  end.

(** ** Numbers *)

Lemma decimal_loop_spec text : forall value v, 0 <= value <= UINT64_MAX ->
  decimal_loop value text = Some v <->
  all isdigit text /\ v = foldl (fun v c => 10 * v + (c - 48)) value text /\ v <= UINT64_MAX.
Proof.
  induction text as [|c text IH]; intros value v Hv; cbn [decimal_loop foldl].
  - split; [intros [= <-]; split_and!; [constructor|done|lia]|by intros (_ & -> & _)].
  - assert (Hgrow : forall w, all isdigit text -> 0 <= w -> w <= foldl (fun v c => 10 * v + (c - 48)) w text).
    { intros w Ht Hw. rewrite foldl_digits. pose proof (digits_value_nonneg text Ht).
      pose proof (Z.pow_pos_nonneg 10 (Z.of_nat (length text))). nia. }
    destruct (isdigit c) eqn:Hc.
    + apply in_range_spec in Hc as Hr. replace ((c <? 48) || (57 <? c)) with false by (symmetry; apply orb_false_iff; lia).
      rewrite (u8_small (c - 48)) by (unfold is_u8; lia). unfold UINT64_MAX in *.
      destruct (Z.ltb_spec ((18446744073709551615 - (c - 48)) / 10) value) as [Hlt|Hge].
      * split; [done|]. intros (Ha & -> & Hmax). inversion Ha as [|? ? _ Ht]; subst. exfalso.
        specialize (Hgrow (10 * value + (c - 48)) Ht ltac:(lia)).
        pose proof (Z.mod_pos_bound (18446744073709551615 - (c - 48)) 10).
        pose proof (Z.div_mod (18446744073709551615 - (c - 48)) 10). lia.
      * assert (Hfit : 10 * value + (c - 48) <= 18446744073709551615).
        { pose proof (Z.mul_div_le (18446744073709551615 - (c - 48)) 10). lia. }
        rewrite u64_small by (unfold is_u64; lia). rewrite IH by lia. rewrite (Z.mul_comm value 10).
        split; [intros (Ht & -> & Hm); split_and!; [constructor; done|done|done]|].
        intros (Ht & -> & Hm). inversion Ht; subst. done.
    + replace ((c <? 48) || (57 <? c)) with true.
      2: { symmetry. unfold isdigit, in_range in Hc. apply andb_false_iff in Hc. apply orb_true_iff. lia. }
      split; [done|]. intros (Ha & _). inversion Ha; congruence.
Qed.

Lemma parse_decimal_spec text v : parse_decimal_u64 text = Some v <->
  text <> [] /\ (length text <= 20)%nat /\ all isdigit text /\ v = digits_value text /\ v <= UINT64_MAX.
Proof.
  unfold parse_decimal_u64. destruct (length text =? 0)%nat eqn:H0; cbn [orb].
  { apply Nat.eqb_eq in H0. destruct text; [|done]. by split; [|intros [? _]]. }
  apply Nat.eqb_neq in H0. destruct (20 <? length text)%nat eqn:H20.
  { apply Nat.ltb_lt in H20. split; [done|lia]. }
  apply Nat.ltb_ge in H20. rewrite decimal_loop_spec by (unfold UINT64_MAX; lia).
  split; [intros (? & -> & ?); split_and!; try done; by intros ->|tauto].
Qed.

(** ** The language of the audit query *)

Inductive query_item := Before (digits : bytes) | Limit (digits : bytes).

Definition print_item (i : query_item) : bytes :=
  match i with Before d => str "before" ++ 61 :: d | Limit d => str "limit" ++ 61 :: d end.

Fixpoint print_query (items : list query_item) : bytes :=
  match items with
  | [] => []
  | i :: items => match items with [] => print_item i | _ => print_item i ++ 38 :: print_query items end
  end.

Definition item_value (i : query_item) : Z := match i with Before d | Limit d => digits_value d end.
Definition item_key (i : query_item) : bool := match i with Before _ => true | Limit _ => false end.

(** One to twenty digits whose value is positive and in the range of its key. *)
Definition item_wf (i : query_item) : Prop :=
  match i with
  | Before d => d <> [] /\ (length d <= 20)%nat /\ all isdigit d /\ 0 < digits_value d <= UINT64_MAX
  | Limit d => d <> [] /\ (length d <= 20)%nat /\ all isdigit d /\ 0 < digits_value d <= ARGUS_AUDIT_PAGE_MAX
  end.

Definition set_item (q : audit_query_t) (i : query_item) : audit_query_t :=
  match i with Before d => q <| aq_before_sequence := digits_value d |> | Limit d => q <| aq_limit := digits_value d |> end.

Definition unseen_item (s : query_state) (i : query_item) : Prop :=
  match i with Before _ => s.1.1 = false | Limit _ => s.1.2 = false end.

Definition see_item (s : query_state) (i : query_item) : query_state :=
  match i with
  | Before _ => (true, s.1.2, set_item s.2 i)
  | Limit _ => (s.1.1, true, set_item s.2 i)
  end.

Lemma query_field_spec field s s' : query_field field s = Some s' <->
  exists i, item_wf i /\ field = print_item i /\ unseen_item s i /\ s' = see_item s i.
Proof.
  destruct s as [[sb sl] out]. unfold query_field. split.
  - set (p := fun c => negb (c =? 61)). pose proof (skip_take_while p field) as Hf.
    pose proof (skip_while_head p field) as Hh.
    destruct (take_while p field) as [|k0 key] eqn:Hk; [done|]. destruct (skip_while p field) as [|e value] eqn:Hs; [done|].
    specialize (Hh e value eq_refl). unfold p in Hh. b2p. subst e. rewrite <- Hf.
    case_bool_decide as Hb; [|case_bool_decide as Hl; [|done]]; rewrite ?Hb, ?Hl.
    + destruct sb; [done|]. cbn [mbind option_bind]. destruct (parse_decimal_u64 value) as [v|] eqn:Hv; [|done]. cbn [mbind option_bind].
      apply parse_decimal_spec in Hv as (H1 & H2 & H3 & -> & H4). pose proof (digits_value_nonneg value H3).
      destruct (Z.eqb_spec (digits_value value) 0); [done|]. intros [= <-]. exists (Before value). cbn. repeat split; try done; lia.
    + destruct sl; [done|]. cbn [mbind option_bind]. destruct (parse_decimal_u64 value) as [v|] eqn:Hv; [|done]. cbn [mbind option_bind].
      apply parse_decimal_spec in Hv as (H1 & H2 & H3 & -> & H4). pose proof (digits_value_nonneg value H3).
      destruct (_ || _) eqn:He; [done|]. b2p. intros [= <-]. exists (Limit value). cbn. unfold ARGUS_AUDIT_PAGE_MAX in *.
      rewrite u32_small by (unfold is_u32; lia). repeat split; try done; lia.
  - intros (i & Hw & -> & Hu & ->).
    assert (Hp : forall key d, all (fun c => negb (c =? 61)) key ->
      take_while (fun c => negb (c =? 61)) (key ++ 61 :: d) = key /\ skip_while (fun c => negb (c =? 61)) (key ++ 61 :: d) = 61 :: d).
    { intros key d Ha. by apply while_app. }
    destruct i as [d|d]; cbn [print_item item_wf unseen_item fst snd] in *; destruct Hw as (H1 & H2 & H3 & H4 & H5); subst.
    + destruct (Hp (str "before") d) as [-> ->]; [by repeat constructor|].
      change (str "before") with [98; 101; 102; 111; 114; 101]. cbn iota.
      rewrite bool_decide_eq_true_2 by done. cbn [mbind option_bind].
      rewrite (proj2 (parse_decimal_spec d (digits_value d))) by (split_and!; done || lia). cbn [mbind option_bind].
      by rewrite (proj2 (Z.eqb_neq _ _)) by lia.
    + destruct (Hp (str "limit") d) as [-> ->]; [by repeat constructor|].
      change (str "limit") with [108; 105; 109; 105; 116]. cbn iota.
      rewrite bool_decide_eq_false_2 by done. rewrite bool_decide_eq_true_2 by done. cbn [mbind option_bind].
      unfold ARGUS_AUDIT_PAGE_MAX in *.
      rewrite (proj2 (parse_decimal_spec d (digits_value d))) by (split_and!; done || unfold UINT64_MAX; lia). cbn [mbind option_bind].
      rewrite (proj2 (Z.eqb_neq _ _)), (proj2 (Z.ltb_ge _ _)) by lia. cbn [orb].
      by rewrite u32_small by (unfold is_u32; lia).
Qed.

Fixpoint run_items (s : query_state) (items : list query_item) (s' : query_state) : Prop :=
  match items with
  | [] => s' = s
  | i :: items => item_wf i /\ unseen_item s i /\ run_items (see_item s i) items s'
  end.

Definition no_amp (c : Z) : bool := negb (c =? 38).

Lemma item_no_amp i : item_wf i -> all no_amp (print_item i) /\ print_item i <> [].
Proof.
  intros Hw. split; [|by destruct i].
  destruct i as [d|d]; destruct Hw as (_ & _ & Hd & _); cbn [print_item];
    (apply Forall_app; split; [by repeat constructor|]; constructor; [done|]);
    (eapply Forall_impl; [exact Hd|]; intros c Hc; apply in_range_spec in Hc; unfold no_amp; apply negb_true_iff, Z.eqb_neq; lia).
Qed.

Lemma print_query_nil items : print_query items = [] -> items = [].
Proof. destruct items as [|[d|d] items]; [done| |]; by destruct items. Qed.

Lemma query_loop_step fuel text s : text <> [] -> query_loop (S fuel) text s =
  match take_while no_amp text, skip_while no_amp text with
  | [], _ => None
  | _, [_] => None
  | field, rest => s ← query_field field s; query_loop fuel (drop 1 rest) s
  end.
Proof. destruct text; [done|]. intros _. cbn [query_loop]. fold no_amp. by destruct (take_while _ _). Qed.

Lemma query_loop_spec fuel : forall text s s', (length text <= fuel)%nat ->
  query_loop fuel text s = Some s' <-> exists items, text = print_query items /\ run_items s items s'.
Proof.
  induction fuel as [|fuel IH]; intros text s s' Hf.
  { destruct text; [|cbn in Hf; lia]. cbn. split; [intros [= <-]; by exists []|].
    intros (items & He & Hr). symmetry in He. apply print_query_nil in He as ->. by cbn in Hr; subst. }
  destruct (decide (text = [])) as [->|Hne].
  { cbn. split; [intros [= <-]; by exists []|].
    intros (items & He & Hr). symmetry in He. apply print_query_nil in He as ->. by cbn in Hr; subst. }
  rewrite query_loop_step by done. split.
  - pose proof (skip_take_while no_amp text) as Ht. pose proof (skip_while_head no_amp text) as Hh.
    destruct (take_while no_amp text) as [|f0 field] eqn:Hk; [done|].
    destruct (skip_while no_amp text) as [|amp rest] eqn:Hs.
    + cbn zeta. destruct (query_field (f0 :: field) s) as [s1|] eqn:Hq; cbn [mbind option_bind]; [|done]. cbn [mbind option_bind drop].
      apply query_field_spec in Hq as (i & Hw & Hi & Hu & ->).
      intros Hl. exists [i]. split; [rewrite <- Ht, app_nil_r; exact Hi|]. destruct fuel; cbn in Hl; by injection Hl as <-.
    + destruct rest as [|r0 rest]; [done|]. cbn zeta. destruct (query_field (f0 :: field) s) as [s1|] eqn:Hq; cbn [mbind option_bind]; [|done].
      cbn [mbind option_bind drop]. apply query_field_spec in Hq as (i & Hw & Hi & Hu & ->).
      specialize (Hh _ _ eq_refl). unfold no_amp in Hh. b2p. subst amp.
      intros Hl. apply IH in Hl as (items & Hp & Hr).
      2: { rewrite <- Ht, length_app in Hf. cbn in *. lia. }
      exists (i :: items). split; [|done]. rewrite <- Ht, Hi, Hp. by destruct items.
  - intros ([|i items] & -> & Hr); [done|]. destruct Hr as (Hw & Hu & Hr). destruct (item_no_amp i Hw) as [Ha Hi].
    set (rest := match items with [] => [] | _ => 38 :: print_query items end).
    assert (Hp : print_query (i :: items) = print_item i ++ rest) by (destruct items; [by rewrite app_nil_r|done]).
    rewrite Hp in *. destruct (while_app no_amp (print_item i) rest Ha) as [-> ->]; [by unfold rest; destruct items|].
    assert (Hq : query_field (print_item i) s = Some (see_item s i)) by (apply query_field_spec; by exists i).
    assert (Hl : query_loop fuel (drop 1 rest) (see_item s i) = Some s').
    { apply IH; [|exists items; split; [|done]; by unfold rest; destruct items].
      rewrite length_app in Hf. destruct (print_item i); [done|]. cbn in *. rewrite length_drop. lia. }
    destruct (print_item i) as [|c0 text] eqn:He; [done|]. unfold rest in *. destruct items as [|j items].
    + rewrite Hq. exact Hl.
    + destruct Hr as (Hj & _). destruct (item_no_amp j Hj) as [_ Hjn].
      assert (Hpj : print_query (j :: items) <> []) by (intros Hn; by apply print_query_nil in Hn).
      destruct (print_query (j :: items)) as [|d rest'] eqn:Hd; [done|]. rewrite Hq. exact Hl.
Qed.

(** A query: its items in any order, none of them twice. *)
Definition query_wf (items : list query_item) : Prop := Forall item_wf items /\ NoDup (item_key <$> items).

Lemma see_item_unseen s i j : unseen_item (see_item s i) j <-> unseen_item s j /\ item_key i <> item_key j.
Proof. destruct s as [[sb sl] out], i, j; cbn; split; try tauto; try (by intros [? ?]); intuition congruence. Qed.

Lemma run_items_spec items : forall s s', run_items s items s' <->
  Forall item_wf items /\ NoDup (item_key <$> items) /\ Forall (unseen_item s) items /\ s' = foldl see_item s items.
Proof.
  induction items as [|i items IH]; intros s s'; cbn [run_items fmap list_fmap foldl].
  - split; [intros ->; repeat split; constructor|tauto].
  - assert (Hf : Forall (unseen_item (see_item s i)) items <->
      Forall (unseen_item s) items /\ Forall (fun j => item_key i <> item_key j) items)
      by (rewrite <- Forall_and; apply Forall_iff; intros j; apply see_item_unseen).
    rewrite IH, !Forall_cons, NoDup_cons, Hf.
    assert (Hn : Forall (fun j => item_key i <> item_key j) items <-> item_key i ∉ item_key <$> items).
    { rewrite Forall_forall. split; [intros H Hin; apply list_elem_of_fmap in Hin as (j & Hj & Hx); exact (H j Hx Hj)|].
      intros H j Hj He. apply H. apply list_elem_of_fmap. eauto. }
    rewrite Hn. tauto.
Qed.

Lemma foldl_see items : forall s, (foldl see_item s items).2 = foldl set_item s.2 items.
Proof. induction items as [|i items IH]; intros s; [done|]. cbn [foldl]. rewrite IH. by destruct i. Qed.

Lemma query_length items : query_wf items -> (length (print_query items) <= AUDIT_QUERY_MAX)%nat.
Proof.
  intros [Hw Hn]. unfold AUDIT_QUERY_MAX.
  assert (Hi : forall i, item_wf i -> (length (print_item i) <= 27)%nat).
  { intros [d|d] (_ & Hl & _); cbn [print_item]; rewrite length_app; cbn [length]; literal_lengths; lia. }
  destruct items as [|i [|j [|k items]]]; cbn [print_query].
  - cbn. lia.
  - apply Forall_inv in Hw. specialize (Hi i Hw). lia.
  - apply Forall_cons_1 in Hw as [Hwi Hw]. apply Forall_inv in Hw. rewrite length_app. cbn [length].
    pose proof (Hi i Hwi). pose proof (Hi j Hw). lia.
  - exfalso. cbn in Hn. inversion Hn as [|? ? H1 Hn1]; subst. inversion Hn1 as [|? ? H2 _]; subst.
    rewrite !not_elem_of_cons in *. destruct H1 as (Ha & Hb & _), H2 as (Hc & _).
    by destruct (item_key i), (item_key j), (item_key k).
Qed.

(** The query of the audit page is accepted exactly when it is empty or a list of
    [before=<number>] and [limit=<number>] joined by ampersands, in either order, neither of
    them twice, each number of one to twenty digits, positive and within 64 bits, or within
    the size of a page for the limit; and what is then read is those numbers, with the
    default where one is absent. *)
Theorem audit_query_grammar query out : parse_audit_query (Some query) = Some out <->
  exists items, query_wf items /\ query = print_query items /\ out = foldl set_item default_query items.
Proof.
  assert (Hl : snd <$> query_loop (length query) query (false, false, default_query) = Some out <->
    exists items, query_wf items /\ query = print_query items /\ out = foldl set_item default_query items).
  { rewrite fmap_Some. split.
    - intros (s' & Hq & ->). apply query_loop_spec in Hq as (items & -> & Hr); [|done].
      apply run_items_spec in Hr as (Hw & Hn & _ & ->). exists items. by rewrite foldl_see.
    - intros (items & [Hw Hn] & -> & ->). exists (foldl see_item (false, false, default_query) items).
      split; [|by rewrite foldl_see]. apply query_loop_spec; [done|]. exists items. split; [done|].
      apply run_items_spec. repeat split; try done. apply Forall_forall. by intros []. }
  unfold parse_audit_query. destruct query as [|c query]; [exact Hl|].
  destruct (AUDIT_QUERY_MAX <? _)%nat eqn:Hm; [|exact Hl]. apply Nat.ltb_lt in Hm.
  split; [done|]. intros (items & Hw & He & _). pose proof (query_length items Hw). rewrite He in Hm. lia.
Qed.

(** ** Exact keys *)

Definition names (fields : list (bytes * json)) : list bytes := fst <$> fields.

Lemma find_first pre name v l : find_item (children (JObject (pre ++ (name, v) :: l))) name = Some (length pre) <-> name ∉ names pre.
Proof.
  cbn [children]. induction pre as [|[k w] pre IH]; cbn [fmap list_fmap app find_item fst snd length].
  - rewrite bool_decide_eq_true_2 by done. split; [intros _ H; inversion H|done].
  - unfold names. cbn [fmap list_fmap fst]. rewrite not_elem_of_cons. case_bool_decide as Hk.
    + split; [done|]. intros [Hn _]. by destruct Hn.
    + unfold fmap in IH. rewrite fmap_Some. split.
      * intros (n & Hn & [= <-]). split; [by intros ->|]. by apply IH.
      * intros [_ Hn]. exists (length pre). split; [by apply IH|done].
Qed.

Lemma keys_loop_spec keys fields : forall l pre i count c, fields = pre ++ l -> i = length pre ->
  keys_loop (JObject fields) keys i count (children (JObject l)) = Some c <->
  c = (count + length l)%nat /\ Forall (fun n => n ∈ keys) (names l) /\ NoDup (names l) /\ Forall (fun n => n ∉ names pre) (names l).
Proof.
  induction l as [|[name v] l IH]; intros pre i count c Hfs Hi; cbn [children fmap list_fmap keys_loop fst snd].
  - split; [intros [= <-]|by intros (-> & _); rewrite Nat.add_0_r]. split_and!; [cbn; lia|constructor|constructor|constructor].
  - cbn [names fmap list_fmap fst length]. rewrite !Forall_cons, NoDup_cons. case_bool_decide as Hk.
    2: { split; [done|]. by intros (_ & [? _] & _). }
    case_bool_decide as Hf.
    2: { split; [done|]. intros (_ & _ & _ & [Hp _]). destruct Hf. rewrite Hfs, Hi. by apply find_first. }
    rewrite Hfs, Hi in Hf. apply find_first in Hf.
    specialize (IH (pre ++ [(name, v)]) (S i) (S count) c). cbn [children] in IH. rewrite IH.
    2: { by rewrite <- app_assoc. }
    2: { rewrite length_app. cbn. lia. }
    assert (Hn : Forall (fun n => n ∉ names (pre ++ [(name, v)])) (names l) <->
      Forall (fun n => n ∉ names pre) (names l) /\ name ∉ names l).
    { unfold names. rewrite !Forall_forall. setoid_rewrite fmap_app. setoid_rewrite not_elem_of_app. cbn.
      setoid_rewrite list_elem_of_singleton. split.
      - intros H. split; [intros x Hx; exact (proj1 (H x Hx))|]. intros Hin. by destruct (H name Hin) as [_ []].
      - intros [H1 H2] x Hx. split; [auto|]. by intros ->. }
    fold (names l). rewrite Hn. replace (count + S (length l))%nat with (S count + length l)%nat by lia. tauto.
Qed.

(** The keys of the object are the expected ones, each once, in any order. *)
Lemma object_keys_spec fields keys : NoDup keys -> object_keys (JObject fields) keys = true <-> names fields ≡ₚ keys.
Proof.
  intros Hk. unfold object_keys. pose proof (fun c => keys_loop_spec keys fields fields [] 0 0 c eq_refl eq_refl) as Hs.
  destruct (keys_loop _ _ _ _ _) as [c|].
  - destruct (Hs c) as [(-> & Hin & Hnd & _) _]; [done|]. cbn [Nat.add]. rewrite Nat.eqb_eq. split.
    + intros Hl. apply submseteq_length_Permutation; [|unfold names; rewrite length_fmap; lia].
      apply NoDup_submseteq; [done|]. by apply Forall_forall.
    + intros Hp. apply Permutation_length in Hp. unfold names in Hp. by rewrite length_fmap in Hp.
  - split; [done|]. intros Hp. destruct (Hs (length fields)) as [_ H]. exfalso. enough (None = Some (length fields)) by done.
    apply H. split_and!; [done| | |].
    + apply Forall_forall. intros n Hn. by rewrite <- Hp.
    + by rewrite Hp.
    + apply Forall_forall. intros n _ H1. inversion H1.
Qed.

(** ** Permission lists *)

Definition known (name : bytes) : Prop := permission_from_name name <> 0.

Definition permission_set (names : list bytes) : Z := foldl (fun s n => Z.lor s (permission_from_name n)) 0 names.

Lemma table_in {A} (map : list (bytes * A)) name v : table_value map name = Some v -> (name, v) ∈ map.
Proof.
  induction map as [|[k w] map IH]; cbn; [done|]. case_bool_decide as Hk; [intros [= ->]; subst; by left|]. right. auto.
Qed.

Lemma known_in name : known name -> (name, permission_from_name name) ∈ PERMISSION_NAMES.
Proof.
  unfold known, permission_from_name. destruct (table_value _ _) as [v|] eqn:Hv; [|done]. intros _. by apply table_in.
Qed.

(** Two entries of the table are equal or have no bit in common. *)
Lemma permissions_disjoint a b : known a -> known b -> a = b \/ Z.land (permission_from_name a) (permission_from_name b) = 0.
Proof.
  intros Ha Hb. apply known_in in Ha, Hb.
  assert (Hall : forallb (fun p => forallb (fun q => bool_decide (p.1 = q.1) || (Z.land p.2 q.2 =? 0)) PERMISSION_NAMES) PERMISSION_NAMES = true)
    by (vm_compute; reflexivity).
  rewrite forallb_forall in Hall. specialize (Hall _ (proj1 (list_elem_of_In _ _) Ha)). rewrite forallb_forall in Hall.
  specialize (Hall _ (proj1 (list_elem_of_In _ _) Hb)). cbn [fst snd] in Hall. apply orb_true_iff in Hall as [H|H]; b2p; auto.
Qed.

Lemma known_overlap a b : known a -> known b -> Z.land (permission_from_name a) (permission_from_name b) = 0 <-> a <> b.
Proof.
  intros Ha Hb. split.
  - intros H <-. rewrite Z.land_diag in H. done.
  - intros Hn. by destruct (permissions_disjoint a b Ha Hb).
Qed.

Lemma land_lor_zero a b c : Z.land (Z.lor a b) c = 0 <-> Z.land a c = 0 /\ Z.land b c = 0.
Proof. rewrite Z.land_lor_distr_l. apply Z.lor_eq_0_iff. Qed.

Lemma permission_loop_spec items : forall result set, permission_loop result items = Some set <->
  exists ns, items = JString <$> ns /\ NoDup ns /\ Forall known ns /\
    Forall (fun n => Z.land result (permission_from_name n) = 0) ns /\
    set = foldl (fun s n => Z.lor s (permission_from_name n)) result ns.
Proof.
  induction items as [|item items IH]; intros result set.
  - cbn. split; [intros [= <-]; exists []; split_and!; done || constructor|].
    intros ([|n ns] & He & _ & _ & _ & ->); [done|discriminate].
  - destruct item as [| | |name| |]; cbn [permission_loop];
      try (split; [done|]; intros ([|x ns] & He & _); cbn in He; discriminate).
    unfold negb. destruct (Z.eqb_spec (permission_from_name name) 0) as [H0|H0]; cbn [orb].
    { split; [done|]. intros ([|n ns] & He & _ & Hk & _); [discriminate|]. injection He as <- ->.
      apply Forall_inv in Hk. done. }
    destruct (Z.eqb_spec (Z.land result (permission_from_name name)) 0) as [Hd|Hd]; cbn [negb].
    2: { split; [done|]. intros ([|n ns] & He & _ & _ & Hz & _); [discriminate|]. injection He as <- ->.
         apply Forall_inv in Hz. done. }
    rewrite IH. split.
    + intros (ns & -> & Hnd & Hk & Hz & ->). exists (name :: ns). split_and!; [done| |by constructor| |done].
      * constructor; [|done]. intros Hin. rewrite Forall_forall in Hz, Hk. specialize (Hz _ Hin).
        apply land_lor_zero in Hz as [_ Hz]. rewrite Z.land_diag in Hz. done.
      * constructor; [done|]. eapply Forall_impl; [exact Hz|]. intros n H. by apply land_lor_zero in H as [? _].
    + intros ([|n ns] & He & Hnd & Hk & Hz & ->); [discriminate|]. injection He as <- ->. exists ns.
      apply NoDup_cons in Hnd as [Hni Hnd]. apply Forall_cons_1 in Hk as [Hk1 Hk]. apply Forall_cons_1 in Hz as [_ Hz].
      split_and!; try done. apply Forall_forall. intros n Hn. apply land_lor_zero.
      rewrite Forall_forall in Hz, Hk. split; [auto|]. apply known_overlap; [done|auto|]. by intros ->.
Qed.

(** A list of permissions is accepted exactly when it is an array of distinct names the
    controller knows, and it then stands for their union: an unknown name, a repeated name
    or an element that is not a string refuses the whole list, and nothing is granted that
    was not named. *)
Theorem permission_array_exact item set : permission_array item = Some set <->
  exists ns, item = Some (JArray (JString <$> ns)) /\ NoDup ns /\ Forall known ns /\ set = permission_set ns.
Proof.
  unfold permission_array. split.
  - destruct item as [[| | | |items|]|]; cbn [is_array mbind option_bind]; try done.
    destruct (23 <? _)%nat; [done|]. intros H. apply permission_loop_spec in H as (ns & -> & Hnd & Hk & _ & ->). eauto.
  - intros (ns & -> & Hnd & Hk & ->). cbn [is_array mbind option_bind]. rewrite length_fmap.
    replace (23 <? length ns)%nat with false.
    + apply permission_loop_spec. exists ns. split_and!; try done. apply Forall_forall. done.
    + symmetry. apply Nat.ltb_ge. change 23%nat with (length (fst <$> PERMISSION_NAMES)). apply submseteq_length, NoDup_submseteq; [done|].
      intros n Hn. rewrite Forall_forall in Hk. apply list_elem_of_fmap. exists (n, permission_from_name n).
      split; [done|]. by apply known_in, Hk.
Qed.

(** A set of permissions is as large as the list of names that stands for it. *)
Lemma permission_set_bits ns b : Z.testbit (permission_set ns) b = existsb (fun n => Z.testbit (permission_from_name n) b) ns.
Proof.
  unfold permission_set. enough (H : forall s, Z.testbit (foldl (fun s n => Z.lor s (permission_from_name n)) s ns) b
    = Z.testbit s b || existsb (fun n => Z.testbit (permission_from_name n) b) ns) by (rewrite H; by rewrite Z.testbit_0_l).
  induction ns as [|n ns IH]; intros s; cbn [foldl existsb]; [by rewrite orb_false_r|].
  by rewrite IH, Z.lor_spec, orb_assoc.
Qed.

Lemma machine_body_action root id action permissions :
  argus_security_http_machine_action_body root = ARGUS_MACHINE_ACTION_BODY_OK id action (Some permissions) ->
  action = str "set_permissions".
Proof.
  unfold argus_security_http_machine_action_body. destruct root as [root|]; [|done]. destruct (negb (object_keys _ _)); [done|].
  destruct (string_field root (str "id") 36 false); [|done]. destruct (string_field root (str "action") 16 false) as [a|] eqn:Ha; [|done].
  unfold string_field in Ha. destruct (is_string (get_item root (str "action"))) as [value|]; [|done]. cbn [mbind option_bind] in Ha.
  destruct (_ || _); [done|]. injection Ha as ->. case_bool_decide as Hw; [|done]. destruct (permission_array _); [|done].
  injection Hw as ->. by intros [= _ <- _].
Qed.

Lemma machine_keys : NoDup [str "id"; str "action"] /\ NoDup [str "id"; str "action"; str "permissions"].
Proof. split; refine (bool_decide_unpack _ _); vm_compute; exact I. Qed.

(** An action on a machine is read from a body only when its keys are exactly the ones
    the action takes, in any order; [set_permissions] alone carries permissions, and then
    exactly the ones the body names. *)
Theorem machine_action_exact fields identifier action permissions :
  argus_security_http_machine_action_body (Some (JObject fields)) = ARGUS_MACHINE_ACTION_BODY_OK identifier action permissions ->
  (0 < length identifier <= 36)%nat /\ get_item (JObject fields) (str "id") = Some (JString identifier) /\
  get_item (JObject fields) (str "action") = Some (JString action) /\
  match permissions with
  | None => action <> str "set_permissions" /\ names fields ≡ₚ [str "id"; str "action"]
  | Some set => action = str "set_permissions" /\ names fields ≡ₚ [str "id"; str "action"; str "permissions"] /\
      exists ns, get_item (JObject fields) (str "permissions") = Some (JArray (JString <$> ns)) /\ NoDup ns /\ Forall known ns /\
        set = permission_set ns
  end.
Proof.
  unfold argus_security_http_machine_action_body. set (root := JObject fields).
  destruct (negb (object_keys _ _)) eqn:Hk; [done|]. apply negb_false_iff in Hk.
  assert (Hs : forall name maximum value, string_field root name maximum false = Some value ->
    get_item root name = Some (JString value) /\ (0 < length value <= maximum)%nat).
  { intros name maximum value. unfold string_field. destruct (get_item root name) as [[| | |s| |]|]; cbn [is_string mbind option_bind]; try done.
    destruct (_ || _) eqn:Ho; [done|]. apply orb_false_iff in Ho as [Ho1 Ho2]. apply Nat.ltb_ge in Ho1. cbn in Ho2.
    apply Nat.eqb_neq in Ho2. intros [= <-]. split; [done|lia]. }
  destruct (string_field root (str "id") 36 false) as [i|] eqn:Hi; [|done].
  destruct (string_field root (str "action") 16 false) as [a|] eqn:Ha; [|done].
  apply Hs in Hi as [Hi Hil]. apply Hs in Ha as [Ha _]. destruct machine_keys as [Hk2 Hk3].
  rewrite Ha in *. cbn [is_string] in *. case_bool_decide as Hw.
  - destruct (permission_array _) as [set|] eqn:Hp; [|done]. intros [= <- <- <-]. apply object_keys_spec in Hk; [|done].
    apply permission_array_exact in Hp as (ns & Hg & Hnd & Hkn & ->). injection Hw as ->. split_and!; try done; try lia. eauto 10.
  - intros [= <- <- <-]. apply object_keys_spec in Hk; [|done]. split_and!; try done; try lia. congruence.
Qed.

Lemma machine_action_exact_witness :
  let fields := [(str "permissions", JArray [JString (str "motion"); JString (str "view_status")]);
                 (str "id", JString (str "panel-1")); (str "action", JString (str "set_permissions"))] in
  argus_security_http_machine_action_body (Some (JObject fields))
    = ARGUS_MACHINE_ACTION_BODY_OK (str "panel-1") (str "set_permissions") (Some 5) /\
  str "set_permissions" = str "set_permissions".
Proof.
  intros fields. assert (H : argus_security_http_machine_action_body (Some (JObject fields))
    = ARGUS_MACHINE_ACTION_BODY_OK (str "panel-1") (str "set_permissions") (Some 5)) by (vm_compute; reflexivity).
  split; [exact H|].
  exact (proj1 (proj2 (proj2 (proj2 (machine_action_exact fields (str "panel-1") (str "set_permissions") (Some 5) H))))).
Defined.
