(* ===== verification/HttpCalls.v ===== *)
(** * What the request handlers call

    The handlers of [src/main/argus_security_http.c] and [src/main/argus_http_server.c] are
    sequences of calls of the other services, of the HTTP server and of [cJSON]; here they
    are [prog]s over those calls, and the calls may answer anything.  A trace is what one
    execution called and what it was told.  The second half says what has happened so far in
    a trace ([history]), what a call needs of it, and the proof rule that every trace of a
    handler keeps to it. *)

From S2P Require Import Prelude StateMgr CmdParser MqttDecode Authority Authorization SecurityRecords SecurityDirectory MachineDirectory Sessions AuthService AuditLog MachineAdmin UserAdmin ConfigStore NetLink ServicePolicy NetManager HttpAccess HttpRoutes JsonBody Storage.

(** ** The calls *)

Record argus_identity_t := Identity {
  id_mac_uid : bytes;
  id_client_id : bytes;
  id_unit_id : bytes;
  id_device_name : bytes;
  id_device_model : bytes;
  id_fw_version : bytes;
  id_service_ssid : bytes
}.

(** The two transitions that follow a response. *)
Inductive transition_name := ApTransition | RecoveryTransition.
#[export] Instance transition_name_eq_dec : EqDecision transition_name.
Proof. solve_decision. Defined.

(** One administrative operation on a machine. *)
Inductive machine_call : Type -> Type :=
| MachineEnroll (request : argus_machine_enrollment_request_t) : machine_call (esp_err_t * argus_machine_credential_once_t)
| MachineRotate (identifier : bytes) : machine_call (esp_err_t * argus_machine_credential_once_t)
| MachineSetEnabled (identifier : bytes) (enabled : bool) : machine_call esp_err_t
| MachineSetPermissions (identifier : bytes) (permissions : Z) : machine_call (esp_err_t * Z)
| MachineRevoke (identifier : bytes) : machine_call esp_err_t
| MachineDelete (identifier : bytes) : machine_call esp_err_t.

Inductive http_call : Type -> Type :=
(* the HTTP server and cJSON *)
| Recv (max_len : nat) : http_call (Z * bytes)
| UrlQueryLen : http_call nat
| UrlQueryStr (size : nat) : http_call (esp_err_t + bytes)
| ContentType (size : nat) : http_call (esp_err_t + bytes)
| SetStatus (status : bytes) : http_call unit
| SetType (type : bytes) : http_call unit
| SetHeader (name value : bytes) : http_call unit
| Send (body : bytes) : http_call esp_err_t
| ParseJson (text : bytes) : http_call (option (json * nat))
| PrintJson (j : json) : http_call (option bytes)
| PrintJsonInto (j : json) (size : nat) : http_call (option bytes)
(* argus_http_security.c *)
| Require (required : Z) (mutation : bool) : http_call (argus_http_access_result_t * argus_http_security_context_t)
| ApOnly : http_call (argus_http_access_result_t * Z)
| OriginAllowed : http_call argus_http_access_result_t
| JsonContentType : http_call bool
| Cookie : http_call (option bytes)
(* sessions and login *)
| RecentlyReauthenticated (index : nat) : http_call bool
| MarkReauthenticated (index : nat) : http_call unit
| SessionAuthenticate (token : bytes) : http_call esp_err_t
| SessionCreate (principal : argus_principal_t) : http_call (esp_err_t * argus_session_credentials_t)
| GetCsrf (index : nat) : http_call (option bytes)
| RevokeToken (token : bytes) : http_call bool
| RevokePrincipal (identifier : bytes) : http_call bool
| RevokeAll : http_call nat
| Login (peer_key : Z) (username password : bytes) : http_call argus_login_outcome_t
| CreateVerifier (password : bytes) : http_call (esp_err_t * argus_password_verifier_t)
| TimeUs : http_call Z
| GetLastFailureAudit : http_call Z
| SetLastFailureAudit (now_us : Z) : http_call unit
(* the audit log *)
| AuditBegin (type principal_type : Z) (actor target source action : bytes) (security_epoch : Z)
    : http_call (esp_err_t * option argus_security_audit_mutation_t)
| AuditFinish (mutation : option argus_security_audit_mutation_t) (succeeded : bool) : http_call esp_err_t
| AuditAppend (type outcome principal_type : Z) (actor target source reason : bytes) (security_epoch : Z) (durable : bool)
    : http_call esp_err_t
| AuditStatusOf : http_call (esp_err_t + argus_security_audit_status_t)
| AuditReadPage (before_sequence limit : Z) : http_call (esp_err_t * argus_security_audit_page_t)
(* accounts and machines *)
| Directory : http_call (option argus_security_directory_payload_t)
| DirectoryFindId (identifier : bytes) : http_call (option argus_security_human_record_t)
| Admin (actor : argus_principal_t) (op : admin_op) : http_call esp_err_t
| Machines : http_call (option argus_machine_directory_payload_t)
| Machine {X} (actor : argus_principal_t) (op : machine_call X) : http_call X
| Quarantine (identifier : bytes) : http_call esp_err_t
| FenceMachine (identifier : bytes) : http_call esp_err_t
| DisconnectMachine (identifier : bytes) : http_call esp_err_t
(* the security store *)
| SecurityEpoch : http_call (esp_err_t + Z)
| RecoveryState : http_call (esp_err_t + Z)
| SetRecoveryState (state : Z) : http_call esp_err_t
| ReplaceApSecret (current replacement : bytes) : http_call esp_err_t
| SetConsoleVerifier (verifier : argus_password_verifier_t) (bump : bool) : http_call esp_err_t
| FactoryCredentialRefresh : http_call unit
| FactoryCredentialInUse : http_call bool
(* the transitions after a response *)
| Prepare (t : transition_name) : http_call esp_err_t
| Cancel (t : transition_name) : http_call unit
| MayRespond (t : transition_name) : http_call bool
| MarkArmed (t : transition_name) : http_call unit
| StartTimer (t : transition_name) : http_call esp_err_t
(* machine, authority, network and configuration *)
| StateSnapshotOf : http_call argus_state_snapshot_t
| AuthoritySnapshotOf : http_call (esp_err_t * argus_authority_snapshot_t)
| NetSnapshotOf : http_call (esp_err_t * argus_net_snapshot_t)
| NetMode : http_call argus_network_mode_t
| EvaluateServiceEntry : http_call
    (esp_err_t + (argus_net_snapshot_t * argus_authority_snapshot_t * argus_net_event_t * argus_svc_policy_result_t))
| BrokerObs : http_call (esp_err_t + Z)
| IdentityOf : http_call (esp_err_t + argus_identity_t)
| ConfigEffective : http_call (esp_err_t + argus_config_payload_t)
| ConfigValidate (p : argus_config_payload_t) : http_call esp_err_t
| ConfigCommit (p : argus_config_payload_t) : http_call esp_err_t
| ManualReconnect : http_call esp_err_t
| Restart : http_call esp_err_t
| FactoryReset : http_call esp_err_t
| PostEvent (event : argus_net_event_t) : http_call esp_err_t
| Dispatch (envelope : argus_command_envelope_t) : http_call esp_err_t.

Abbreviation handler := (prog http_call).

(** The request, as far as a handler reads it without a call. *)
Record httpd_req_t := HttpdReq { rq_method : httpd_method_t; rq_content_len : nat }.

(** ** Traces *)

Record http_event := Answered { an_type : Type; an_call : http_call an_type; an_answer : an_type }.
Arguments Answered {an_type}.

Inductive trace_of {A} : handler A -> list http_event -> A -> Prop :=
| trace_ret a : trace_of (Ret a) [] a
| trace_op {X} (e : http_call X) k x t a : trace_of (k x) t a -> trace_of (Op e k) (Answered e x :: t) a.

(** The permission of a browser command. *)
Definition command_capability (type : argus_cmd_type_t) : Z :=
  match type with
  | ARGUS_CMD_TYPE_ESTOP => ARGUS_PERMISSION_SOFTWARE_ESTOP
  | ARGUS_CMD_TYPE_RESET_ESTOP => ARGUS_PERMISSION_RESET_SOFTWARE_ESTOP
  | ARGUS_CMD_TYPE_SET_TARGET | ARGUS_CMD_TYPE_START | ARGUS_CMD_TYPE_STOP_NORMAL | ARGUS_CMD_TYPE_UNLOCK
  | ARGUS_CMD_TYPE_RECOVER => ARGUS_PERMISSION_MOTION
  end.

Definition principal_number (type : argus_principal_type_t) : Z :=
  match type with
  | ARGUS_PRINCIPAL_NONE => 0
  | ARGUS_PRINCIPAL_CONSOLE => 1
  | ARGUS_PRINCIPAL_HUMAN => 2
  | ARGUS_PRINCIPAL_MACHINE => 3
  end.

(** The durable record of a successful login of the account. *)
Definition is_login_record (type outcome principal_type : Z) (actor : bytes) (p : argus_principal_t) : bool :=
  (type =? ARGUS_AUDIT_LOGIN_SUCCESS) && (outcome =? ARGUS_AUDIT_OUTCOME_SUCCESS)
  && (principal_type =? principal_number (pr_type p)) && bool_decide (actor = pr_identifier p).

Lemma login_record_own p :
  is_login_record ARGUS_AUDIT_LOGIN_SUCCESS ARGUS_AUDIT_OUTCOME_SUCCESS (principal_number (pr_type p)) (pr_identifier p) p = true.
Proof. unfold is_login_record. by rewrite !Z.eqb_refl, bool_decide_eq_true_2. Qed.

(** What has happened so far in the execution of a handler. *)
Record history := History {
  h_gate : option (argus_http_security_context_t * bool);  (* the admission, and whether as a mutation *)
  h_reauthenticated : bool;
  h_login : option argus_principal_t;                       (* the password just verified *)
  h_logged : option argus_principal_t;                      (* whose login, just verified, was then recorded *)
  h_audit : option (option argus_security_audit_mutation_t * option bool);  (* the open record, and its change *)
  h_outcome : option bool;                                  (* of the last record: changed and recorded *)
  h_config : option argus_config_payload_t;                 (* the configuration in effect *)
  h_minted : option argus_machine_credential_once_t;        (* a machine secret still to be disclosed *)
  h_reserved : transition_name -> bool;
  h_status : bytes;
  h_sent : option bool                                      (* the response, and whether it was sent whole *)
}.
#[export] Instance eta_history : Eta history := fun h =>
  History (h_gate h) (h_reauthenticated h) (h_login h) (h_logged h) (h_audit h) (h_outcome h) (h_config h) (h_minted h) (h_reserved h)
    (h_status h) (h_sent h).

Definition no_history : history :=
  History None false None None None None None None (fun _ => false) (str "200 OK") None.

Definition set_reserved (t : transition_name) (b : bool) (r : transition_name -> bool) : transition_name -> bool :=
  fun t' => if bool_decide (t' = t) then b else r t'.

(** The record of an open mutation with the outcome of its change. *)
Definition changed (ok : bool) (h : history) : history :=
  h <| h_audit ::= fun o => match o with Some (m, _) => Some (m, Some ok) | None => None end |>.

Definition note_machine {X} (op : machine_call X) : X -> history -> history :=
  match op with
  | MachineEnroll _ | MachineRotate _ => fun x h =>
      changed (is_ok x.1) (if is_ok x.1 then h <| h_minted := Some x.2 |> else h)
  | MachineSetPermissions _ _ => fun x h => changed (is_ok x.1) h
  | MachineSetEnabled _ _ | MachineRevoke _ | MachineDelete _ => fun x h => changed (is_ok x) h
  end.

Definition note_call {X} (e : http_call X) : X -> history -> history :=
  match e with
  | Require _ mutation => fun x h =>
      match x.1 with ARGUS_HTTP_ACCESS_OK => h <| h_gate := Some (x.2, mutation) |> | _ => h end
  | RecentlyReauthenticated _ => fun x h => h <| h_reauthenticated := x |>
  | Login _ _ _ => fun x h =>
      h <| h_login := match lo_result x with ARGUS_LOGIN_SUCCESS => lo_principal x | _ => None end |>
  | AuditAppend type outcome principal_type actor _ _ _ _ durable => fun x h =>
      if (durable : bool) then
        h <| h_logged := p ← h_login h;
               if is_ok x && is_login_record type outcome principal_type actor p then Some p else None |>
          <| h_outcome := Some (is_ok x) |>
      else h
  | AuditBegin _ _ _ _ _ _ _ => fun x h =>
      if is_ok x.1 then h <| h_audit := Some (x.2, None) |> else h <| h_outcome := Some false |>
  | AuditFinish _ succeeded => fun x h => h <| h_audit := None |> <| h_outcome := Some (succeeded && is_ok x) |>
  | ConfigEffective => fun x h => match x with inr p => h <| h_config := Some p |> | inl _ => h end
  | Admin _ _ | ReplaceApSecret _ _ | SetRecoveryState _ | SetConsoleVerifier _ _ => fun x h => changed (is_ok x) h
  | RevokePrincipal _ => fun x h => changed x h
  | Machine _ op => note_machine op
  | Quarantine identifier => fun _ h =>
      h <| h_minted ::= fun o => c ← o; if bool_decide (co_identifier c = identifier) then None else Some c |>
  | Prepare t => fun x h => if is_ok x then h <| h_reserved ::= set_reserved t true |> else h
  | Cancel t | MarkArmed t => fun _ h => h <| h_reserved ::= set_reserved t false |>
  | SetStatus status => fun _ h => h <| h_status := status |>
  | Send _ => fun x h => (if is_ok x then h <| h_minted := None |> else h) <| h_sent := Some (is_ok x) |>
  | _ => fun _ h => h
  end.

Definition note (h : history) (v : http_event) : history := note_call (an_call v) (an_answer v) h.
Definition so_far (t : list http_event) : history := foldl note no_history t.

(** ** What the services promise in return

    The facts about answers the handlers rely on; each holds of the model of the service. *)
Definition sound_machine {X} (op : machine_call X) : X -> Prop :=
  match op with
  | MachineRotate identifier => fun x => x.1 = ESP_OK -> (length identifier < 37)%nat -> co_identifier x.2 = identifier
  | _ => fun _ => True
  end.

Definition sound_call {X} (e : http_call X) : X -> history -> Prop :=
  match e with
  | Require required _ => fun x _ => x.1 = ARGUS_HTTP_ACCESS_OK -> required <> 0 ->
      argus_authorization_require (Some (hc_principal x.2)) required = ARGUS_AUTHZ_ALLOW
  | Machine _ op => fun x _ => sound_machine op x
  | EvaluateServiceEntry => fun x _ =>
      match x with inr (_, _, event, ARGUS_SVC_POLICY_OK) => ev_type event = ARGUS_NET_EVT_SERVICE_REQUEST | _ => True end
  | MayRespond t => fun x h => h_reserved h t = true -> x = true
  | _ => fun _ _ => True
  end.

Fixpoint sound (h : history) (t : list http_event) : Prop :=
  match t with
  | [] => True
  | v :: t => sound_call (an_call v) (an_answer v) h /\ sound (note h v) t
  end.

(** ** What a call needs *)

Definition holds (p : argus_principal_t) (permissions : Z) : Prop := Z.land (pr_permissions p) permissions = permissions.

Record demand := Demand {
  de_mutation : bool;                     (* admitted with the protection of a mutation *)
  de_permissions : Z;
  de_reauthenticated : bool;
  de_actor : option argus_principal_t     (* on whose behalf *)
}.

Definition admin_permission (op : admin_op) : Z :=
  match op with
  | CreateRole _ _ _ _ | DeleteRole _ => ARGUS_PERMISSION_MANAGE_ROLES
  | ReplaceOwnPassword _ => 0
  | _ => ARGUS_PERMISSION_MANAGE_USERS
  end.

Definition event_permission (event : argus_net_event_t) : Z :=
  match ev_type event with
  | ARGUS_NET_EVT_SERVICE_REQUEST | ARGUS_NET_EVT_SERVICE_EXIT => ARGUS_PERMISSION_REQUEST_AUTHORITY
  | ARGUS_NET_EVT_APPLY_WIFI_CONFIG => ARGUS_PERMISSION_MANAGE_CLIENT_NETWORK
  | _ => ARGUS_PERMISSION_DEFINED_MASK
  end.

Definition machine_demand {X} (op : machine_call X) : Z * bool :=
  match op with
  | MachineEnroll _ | MachineRotate _ | MachineSetPermissions _ _ => (ARGUS_PERMISSION_ENROLL_MACHINES, true)
  | MachineSetEnabled _ _ | MachineRevoke _ | MachineDelete _ => (ARGUS_PERMISSION_REVOKE_MACHINES, false)
  end.

(** [None] for what any peer may cause. *)
Definition demand_of {X} (e : http_call X) : option demand :=
  let reads permissions := Some (Demand false permissions false None) in
  let changes permissions := Some (Demand true permissions false None) in
  match e with
  | AuditStatusOf | AuditReadPage _ _ => reads ARGUS_PERMISSION_VIEW_AUDIT
  | StateSnapshotOf | EvaluateServiceEntry | IdentityOf | BrokerObs => reads 0
  | Directory | DirectoryFindId _ | Machines | GetCsrf _ | NetSnapshotOf | AuthoritySnapshotOf | ConfigEffective
  | FactoryCredentialInUse => reads 0
  | Admin actor op => Some (Demand true (admin_permission op) false (Some actor))
  | Machine actor op => let '(permissions, recent) := machine_demand op in Some (Demand true permissions recent (Some actor))
  | RevokePrincipal _ => changes ARGUS_PERMISSION_MANAGE_USERS
  | SetRecoveryState _ => Some (Demand true ARGUS_PERMISSION_INVOKE_RECOVERY true None)
  | ReplaceApSecret _ _ => Some (Demand true (Z.lor ARGUS_PERMISSION_MANAGE_NETWORK ARGUS_PERMISSION_CHANGE_AP_SECRET) true None)
  | ManualReconnect => changes ARGUS_PERMISSION_MANAGE_CLIENT_NETWORK
  | Restart => changes ARGUS_PERMISSION_MANAGE_FIRMWARE
  | FactoryReset => Some (Demand true ARGUS_PERMISSION_COMMISSION true None)
  | PostEvent event => changes (event_permission event)
  | Dispatch envelope => changes (command_capability (env_command_type envelope))
  | SetConsoleVerifier _ _ | FactoryCredentialRefresh | MarkReauthenticated _ | RevokeAll | Quarantine _ | FenceMachine _
  | DisconnectMachine _ | AuditBegin _ _ _ _ _ _ _ | AuditFinish _ _ | ConfigValidate _ | ConfigCommit _
  | Prepare _ | Cancel _ | MayRespond _ | MarkArmed _ | StartTimer _ => changes 0
  | _ => None
  end.

Definition meets (d : demand) (h : history) (ctx : argus_http_security_context_t) (mutation : bool) : Prop :=
  (de_mutation d = true -> mutation = true) /\ holds (hc_principal ctx) (de_permissions d) /\
  (de_reauthenticated d = true -> h_reauthenticated h = true) /\
  match de_actor d with Some actor => actor = hc_principal ctx | None => True end.

(** The protection the route table promises. *)
Definition route_admits (r : argus_http_route_inventory_entry_t) (ctx : argus_http_security_context_t) (mutation : bool) : Prop :=
  (rt_csrf r = true -> mutation = true) /\
  (rt_capabilities r = 0 \/
   if rt_capability_any r then Z.land (pr_permissions (hc_principal ctx)) (rt_capabilities r) <> 0
   else holds (hc_principal ctx) (rt_capabilities r)).

(** What the call demands is met, under the route's protection. *)
Definition authorized (r : argus_http_route_inventory_entry_t) {X} (e : http_call X) (h : history) : Prop :=
  match demand_of e with
  | None => True
  | Some d => exists ctx mutation, h_gate h = Some (ctx, mutation) /\ route_admits r ctx mutation /\ meets d h ctx mutation
  end.

(** A change of accounts, machines or secrets. *)
Definition audited {X} (e : http_call X) : bool :=
  match e with
  | Admin _ _ | Machine _ _ | RevokePrincipal _ | ReplaceApSecret _ _ | SetRecoveryState _ | SetConsoleVerifier _ _ => true
  | _ => false
  end.

Definition success_status (status : bytes) : bool := bool_decide (head status = Some 50).

(** The record of a change: opened before it, one change each, closed with its outcome. *)
Definition recorded {X} (e : http_call X) (h : history) : Prop :=
  match e with
  | AuditBegin _ _ _ _ _ _ _ => h_audit h = None
  | AuditFinish m succeeded => exists result, h_audit h = Some (m, result) /\ succeeded = default false result
  | Send _ => h_audit h = None /\ (h_outcome h = Some false -> success_status (h_status h) = false)
  | _ => audited e = true -> exists m, h_audit h = Some (m, None)
  end.

(** The text of a machine credential that is shown once. *)
Definition credential_text (c : argus_machine_credential_once_t) : bytes :=
  json_object
    [(str "ok", str "true"); (str "machine_id", quoted (co_identifier c)); (str "machine_secret", quoted (co_secret c));
     (str "credential_version", decimal (co_credential_version c)); (str "principal_revision", decimal (co_principal_revision c));
     (str "secret_returned_once", str "true")].

(** A secret is minted when none is pending, and while one is pending the only response is
    its disclosure, after its record was closed; only the machine of a pending secret is
    quarantined. *)
Definition disclosed {X} (e : http_call X) (h : history) : Prop :=
  match e with
  | Machine _ _ => h_minted h = None
  | Send body => forall c, h_minted h = Some c -> body = credential_text c /\ h_outcome h = Some true
  | Quarantine identifier => exists c, h_minted h = Some c /\ co_identifier c = identifier
  | _ => True
  end.

Definition same_account (p q : argus_principal_t) : Prop := pr_type p = pr_type q /\ pr_identifier p = pr_identifier q.

(** The password of the session's own account was verified in this request. *)
Definition password_verified (h : history) (ctx : argus_http_security_context_t) : Prop :=
  exists p, h_login h = Some p /\ same_account p (hc_principal ctx).

(** A session is created for the account that logged in, once that is recorded; a password
    is changed, and a session marked as reauthenticated, after its own password was given.
    The gate is asked once, and the session asked about is the one it admitted. *)
Definition proven {X} (e : http_call X) (h : history) : Prop :=
  match e with
  | SessionCreate p => h_logged h = Some p
  | MarkReauthenticated index => exists ctx m, h_gate h = Some (ctx, m) /\ index = hc_session_index ctx /\ password_verified h ctx
  | SetConsoleVerifier _ _ | Admin _ (ReplaceOwnPassword _) => exists ctx m, h_gate h = Some (ctx, m) /\ password_verified h ctx
  | GetCsrf index | RecentlyReauthenticated index => exists ctx m, h_gate h = Some (ctx, m) /\ index = hc_session_index ctx
  | Require _ _ => h_gate h = None
  | _ => True
  end.

(** One response, before a transition is armed and only after its change was recorded. *)
Definition ordered {X} (e : http_call X) (h : history) : Prop :=
  match e with
  | Send _ => h_sent h = None
  | StartTimer _ => h_sent h = Some true /\ h_outcome h = Some true
  | _ => True
  end.

Definition identity_fields (p : argus_config_payload_t) : bytes * bytes * bytes :=
  (cf_client_id p, cf_unit_id p, cf_device_name p).
Definition network_fields (p : argus_config_payload_t) : bytes * bytes := (cf_sta_ssid p, cf_sta_pass p).

(** Each half of the configuration is changed with its permission. *)
Definition configured {X} (e : http_call X) (h : history) : Prop :=
  match e with
  | ConfigCommit p => exists base ctx m, h_config h = Some base /\ h_gate h = Some (ctx, m) /\
      (identity_fields p = identity_fields base \/ holds (hc_principal ctx) ARGUS_PERMISSION_MODIFY_IDENTITY) /\
      (network_fields p = network_fields base \/ holds (hc_principal ctx) ARGUS_PERMISSION_MANAGE_CLIENT_NETWORK)
  | _ => True
  end.

Record allowed (r : argus_http_route_inventory_entry_t) {X} (e : http_call X) (h : history) : Prop := {
  al_authorized : authorized r e h;
  al_recorded : recorded e h;
  al_disclosed : disclosed e h;
  al_proven : proven e h;
  al_ordered : ordered e h;
  al_configured : configured e h
}.

(** At its end a handler has answered, closed its record and disclosed its secret. *)
Record finished (h : history) : Prop := {
  fi_answered : h_sent h <> None;
  fi_closed : h_audit h = None;
  fi_disclosed : h_minted h = None
}.

(** ** The traces of a handler *)

Section Rule.
Variable r : argus_http_route_inventory_entry_t.

(** Every call of [p] is allowed after [h] and what [p] called before, and [p] ends as [post]. *)
Fixpoint safe {A} (h : history) (p : handler A) (post : history -> A -> Prop) : Prop :=
  match p with
  | Ret a => post h a
  | Op e k => allowed r e h /\ forall x, sound_call e x h -> safe (note_call e x h) (k x) post
  end.

Fixpoint all_allowed (h : history) (t : list http_event) : Prop :=
  match t with
  | [] => True
  | v :: t => allowed r (an_call v) h /\ all_allowed (note h v) t
  end.

Lemma safe_trace {A} (p : handler A) h post t a : safe h p post -> trace_of p t a -> sound h t ->
  all_allowed h t /\ post (foldl note h t) a.
Proof.
  intros Hs Ht. revert h Hs. induction Ht as [a|X e k x t a Ht IH]; intros h Hs Hso; [done|].
  destruct Hs as [Ha Hk], Hso as [Hx Hso]. destruct (IH _ (Hk x Hx) Hso) as [H1 H2]. done.
Qed.

Lemma safe_bind {A B} (p : handler A) (k : A -> handler B) h post :
  safe h p (fun h a => safe h (k a) post) -> safe h (p ≫= k) post.
Proof.
  revert h. induction p as [a|X e k' IH]; intros h Hs; [exact Hs|]. destruct Hs as [Ha Hk]. split; [exact Ha|].
  intros x Hx. exact (IH x _ (Hk x Hx)).
Qed.

Lemma safe_mono {A} (p : handler A) h (post post' : history -> A -> Prop) :
  (forall h a, post h a -> post' h a) -> safe h p post -> safe h p post'.
Proof.
  intros Hp. revert h. induction p as [a|X e k IH]; intros h Hs; [by apply Hp|]. destruct Hs as [Ha Hk]. split; [exact Ha|].
  intros x Hx. exact (IH x _ (Hk x Hx)).
Qed.

(** A rule for a part of a handler: what it leaves is all the rest has to be checked for. *)
Lemma safe_use {A B} (p : handler A) (k : A -> handler B) h (mid : history -> A -> Prop) post :
  safe h p mid -> (forall h a, mid h a -> safe h (k a) post) -> safe h (p ≫= k) post.
Proof. intros Hp Hk. apply safe_bind. exact (safe_mono p h mid _ Hk Hp). Qed.

Lemma all_allowed_at t : forall h t1 v t2, all_allowed h t -> t = t1 ++ v :: t2 -> allowed r (an_call v) (foldl note h t1).
Proof.
  induction t as [|w t IH]; intros h t1 v t2 Ha He; [by destruct t1|]. destruct Ha as [Hw Ha].
  destruct t1 as [|w' t1]; injection He as -> ->; [exact Hw|]. exact (IH _ t1 v t2 Ha eq_refl).
Qed.
End Rule.

#[global] Arguments safe : simpl never.
#[global] Arguments is_ok !e.

(** ** Responses *)

Fixpoint each {A} (l : list A) (f : A -> handler unit) : handler unit :=
  match l with [] => mret tt | a :: l => f a ;; each l f end.

(** [argus_http_security_headers] on the request: its [HttpAccess] model says which. *)
Definition set_security_headers (html : bool) : handler unit :=
  let '(type, headers) := argus_http_security_headers html in
  call (SetType type) ;;
  each headers (fun p => call (SetHeader p.1 p.2)).

Definition send_error (result : argus_http_access_result_t) : handler esp_err_t :=
  let response := argus_http_security_send_error result in
  set_security_headers false ;;
  call (SetStatus (rs_status response)) ;;
  call (Send (rs_body response)).

(** [require_access] of both files: the context when access is granted; otherwise the error
    has been sent. *)
Definition require_access (permissions : Z) (mutation : bool) : handler (option argus_http_security_context_t) :=
  r ← call (Require permissions mutation);
  let '(result, security) := r in
  match result with
  | ARGUS_HTTP_ACCESS_OK => mret (Some security)
  | _ => send_error result ;; mret None
  end.

(** ** The proof rules *)

(** What an answered request leaves. *)
Definition answered (status : bytes) (ok : bool) (h : history) : history :=
  h <| h_status := status |> <| h_sent := Some ok |>.

Definition gated (ctx : argus_http_security_context_t) (mutation : bool) : history :=
  no_history <| h_gate := Some (ctx, mutation) |>.

(** Nothing open and nothing sent. *)
Record quiet (h : history) : Prop := {
  qu_sent : h_sent h = None;
  qu_audit : h_audit h = None;
  qu_minted : h_minted h = None
}.

(** A response with the status may be sent. *)
Definition may_answer (status : bytes) (h : history) : Prop :=
  quiet h /\ (h_outcome h = Some false -> success_status status = false).

Lemma require_holds p required : argus_authorization_require (Some p) required = ARGUS_AUTHZ_ALLOW -> holds p required.
Proof.
  unfold argus_authorization_require, holds. destruct (_ || _); [done|]. destruct (Z.eqb_spec (Z.land (pr_permissions p) required) required); done.
Qed.

Lemma holds_zero p : holds p 0.
Proof. apply Z.land_0_r. Qed.

#[export] Hint Resolve holds_zero : argus.

Section Rules.
Variable r : argus_http_route_inventory_entry_t.

Lemma safe_ret {A} (a : A) h (post : history -> A -> Prop) : post h a -> safe r h (mret a) post.
Proof. done. Qed.

Lemma safe_call {X B} (e : http_call X) (k : X -> handler B) h post : allowed r e h ->
  (forall x, sound_call e x h -> safe r (note_call e x h) (k x) post) -> safe r h (call e ≫= k) post.
Proof. done. Qed.

Lemma safe_last {X} (e : http_call X) h (post : history -> X -> Prop) : allowed r e h ->
  (forall x, sound_call e x h -> post (note_call e x h) x) -> safe r h (call e) post.
Proof. done. Qed.

Lemma safe_headers html h : safe r h (set_security_headers html) (fun h' _ => h' = h).
Proof.
  unfold set_security_headers. destruct (argus_http_security_headers html) as [type headers].
  apply safe_call; [by split|]. intros ? _. cbn [note_call]. induction headers as [|p headers IH]; cbn [each]; [done|].
  apply safe_call; [by split|]. intros ? _. exact IH.
Qed.

Lemma safe_send status body h : may_answer status h ->
  safe r h (call (SetStatus status) ;; call (Send body)) (fun h' err => h' = answered status (is_ok err) h).
Proof.
  destruct h. intros [[Hs Ha Hm] Ho]. cbn in *. subst. apply safe_call; [by split|]. intros ? _.
  apply safe_last; [by split|]. intros err _. cbn. unfold answered. cbn. by destruct (is_ok err).
Qed.

Lemma error_status result : success_status (rs_status (argus_http_security_send_error result)) = false.
Proof. by destruct result; vm_compute. Qed.

Lemma safe_send_error result h : quiet h ->
  safe r h (send_error result) (fun h' _ => exists status ok, h' = answered status ok h).
Proof.
  intros Hq. unfold send_error. eapply safe_use; [apply safe_headers|]. intros h' _ ->.
  eapply safe_mono; [|apply safe_send; split; [exact Hq|]; intros _; apply error_status]. cbn beta. eauto.
Qed.

Lemma answered_finished status ok h : quiet h -> finished (answered status ok h).
Proof. destruct h. intros [Hs Ha Hm]. cbn in *. by split. Qed.

(** The gate: refused, with the request answered; or passed, with what its answer means. *)
Lemma safe_require_access permissions mutation h post : quiet h -> h_gate h = None ->
  (forall status ok, post (answered status ok h) None) ->
  (forall ctx, (permissions <> 0 -> holds (hc_principal ctx) permissions) -> post (h <| h_gate := Some (ctx, mutation) |>) (Some ctx)) ->
  safe r h (require_access permissions mutation) post.
Proof.
  intros Hq Hg Hn Hp. unfold require_access. apply safe_call; [by split|]. intros [result security] Hx. cbn [sound_call fst snd] in Hx.
  destruct result; cbn [note_call fst snd]; try (apply Hp; intros H; by apply require_holds, Hx);
    (eapply safe_use; [by apply safe_send_error|]; intros h' _ (status & ok & ->); apply Hn).
Qed.

(** The gate at the head of a handler whose route asks for all of [permissions], or for none. *)
Lemma safe_gate permissions mutation k : rt_csrf r = mutation -> rt_capability_any r = false -> rt_capabilities r = permissions ->
  (forall h, finished h -> safe r h (k None) (fun h _ => finished h)) ->
  (forall ctx, route_admits r ctx mutation -> holds (hc_principal ctx) permissions ->
     safe r (gated ctx mutation) (k (Some ctx)) (fun h (_ : esp_err_t) => finished h)) ->
  safe r no_history (require_access permissions mutation ≫= k) (fun h _ => finished h).
Proof.
  intros Hc Ha Hp Hn Hk. apply safe_bind, safe_require_access; [by split|done|intros; apply Hn, answered_finished; by split|].
  intros ctx Hh. apply Hk.
  - split; [congruence|]. rewrite Hp, Ha. destruct (decide (permissions = 0)); [by left|]. right. auto.
  - destruct (decide (permissions = 0)) as [->|]; auto with argus.
Qed.

(** The same with the permissions checked later. *)
Lemma safe_gate_open mutation k :
  (forall h, finished h -> safe r h (k None) (fun h _ => finished h)) ->
  (forall ctx, safe r (gated ctx mutation) (k (Some ctx)) (fun h (_ : esp_err_t) => finished h)) ->
  safe r no_history (require_access 0 mutation ≫= k) (fun h _ => finished h).
Proof.
  intros Hn Hk. apply safe_bind, safe_require_access; [by split|done|intros; apply Hn, answered_finished; by split|].
  intros ctx _. apply Hk.
Qed.

Lemma authorize {X} (e : http_call X) h ctx mutation : h_gate h = Some (ctx, mutation) -> route_admits r ctx mutation ->
  match demand_of e with None => True | Some d => meets d h ctx mutation end -> authorized r e h.
Proof. intros Hg Hr Hm. unfold authorized. destruct (demand_of e); [|done]. eauto. Qed.
End Rules.

(** Along a handler: destruct what it matches on, evaluate the history, and leave the calls. *)
Ltac note_cbn :=
  cbn [note_call note_machine sound_call sound_machine changed h_gate h_reauthenticated h_login h_logged h_audit h_outcome h_config
       h_minted h_reserved h_status h_sent update eta eta_history fst snd answered gated no_history is_ok].

Ltac may_send :=
  split; [split; note_cbn; reflexivity|note_cbn; let H := fresh in intros H; first [discriminate H|vm_compute; reflexivity]].

(** A call after the gate, when the route admits the context. *)
Ltac permit :=
  split;
    [first [exact I
           |eapply authorize; [note_cbn; reflexivity|eassumption|cbn [demand_of meets]; unfold meets; note_cbn; cbn; split_and!; try done; auto with argus]]
    |note_cbn; cbn [recorded audited]; first [done|eauto]
    |note_cbn; cbn [disclosed]; first [done|eauto]
    |note_cbn; cbn [proven]; first [done|eauto]
    |note_cbn; cbn [ordered]; first [done|eauto]
    |note_cbn; cbn [configured]; first [done|eauto]].

(** ** Traces, by the program *)

Lemma trace_ret_inv {A} (b a : A) t : trace_of (Ret b) t a -> t = [] /\ a = b.
Proof.
  intros Ht. change (match Ret b : handler A with Ret b => t = [] /\ a = b | Op _ _ => True end). by destruct Ht.
Qed.

Lemma trace_op_inv {X A} (e : http_call X) (k : X -> handler A) t a : trace_of (Op e k) t a ->
  exists x t', t = Answered e x :: t' /\ trace_of (k x) t' a.
Proof.
  intros Ht. change (match Op e k with Ret _ => True | Op e k => exists x t', t = Answered e x :: t' /\ trace_of (k x) t' a end).
  destruct Ht as [|? ? ? x t a Ht]; eauto.
Qed.

Lemma trace_bind {A B} (p : handler A) (k : A -> handler B) t1 a t2 b :
  trace_of p t1 a -> trace_of (k a) t2 b -> trace_of (p ≫= k) (t1 ++ t2) b.
Proof. intros Hp Hk. induction Hp as [a|X e k' x t a Hp IH]; [exact Hk|]. exact (trace_op e _ x _ b (IH Hk)). Qed.

Lemma trace_bind_inv {A B} (p : handler A) (k : A -> handler B) : forall t b, trace_of (p ≫= k) t b ->
  exists t1 a t2, t = t1 ++ t2 /\ trace_of p t1 a /\ trace_of (k a) t2 b.
Proof.
  induction p as [a|X e k' IH]; intros t b Ht.
  - exists [], a, t. split; [done|]. split; [constructor|exact Ht].
  - apply trace_op_inv in Ht as (x & t' & -> & Ht). destruct (IH x t' b Ht) as (t1 & a & t2 & -> & H1 & H2).
    exists (Answered e x :: t1), a, t2. split; [done|]. split; [by constructor|exact H2].
Qed.

(** What the calls of a handler are with a given answer to each. *)
Fixpoint trace_with {A} (answer : forall X, http_call X -> history -> X) (p : handler A) (h : history) : list http_event * A :=
  match p with
  | Ret a => ([], a)
  | Op e k =>
      let x := answer _ e h in
      let '(t, a) := trace_with answer (k x) (note_call e x h) in (Answered e x :: t, a)
  end.

Lemma trace_with_trace {A} answer (p : handler A) : forall h, trace_of p (trace_with answer p h).1 (trace_with answer p h).2.
Proof.
  induction p as [a|X e k IH]; intros h; [constructor|]. cbn [trace_with]. specialize (IH (answer _ e h) (note_call e (answer _ e h) h)).
  destruct (trace_with answer (k (answer X e h)) _) as [t a]. exact (trace_op e k _ t a IH).
Qed.

Lemma trace_with_sound {A} (answer : forall X, http_call X -> history -> X) (p : handler A) :
  (forall X (e : http_call X) h, sound_call e (answer X e h) h) -> forall h, sound h (trace_with answer p h).1.
Proof.
  intros Ha. induction p as [a|X e k IH]; intros h; [done|]. cbn [trace_with]. specialize (IH (answer _ e h) (note_call e (answer _ e h) h)).
  destruct (trace_with answer (k (answer X e h)) _) as [t a]. exact (conj (Ha X e h) IH).
Qed.
