(* ===== verification/SecurityHttp.v ===== *)
(** * The security pages

    [src/main/argus_security_http.c]: the handlers for accounts, roles, the audit log, the
    access-point secret, the end of recovery and machines, with the registration of their
    routes; and [src/main/argus_security_transition.c], the state behind a transition that
    must not start before its response is out.  The heap is assumed to suffice for the trees
    the handlers build. *)

From S2P Require Import Prelude MqttDecode Authorization SecurityRecords SecurityStore SecurityDirectory MachineDirectory Sessions AuditLog MachineAuth MachineAdmin UserAdmin HttpAccess HttpRoutes JsonBody Storage HttpCalls.

(** ** The transition after a response *)

Record argus_security_transition_t := Transition {
  ts_resource_ready : bool;
  ts_reserved : bool;
  ts_armed : bool;
  ts_callback_claimed : bool
}.
#[export] Instance eta_transition : Eta argus_security_transition_t := fun t =>
  Transition (ts_resource_ready t) (ts_reserved t) (ts_armed t) (ts_callback_claimed t).

Definition zero_transition : argus_security_transition_t := Transition false false false false.

Definition argus_security_transition_set_resource_ready (t : argus_security_transition_t) (ready : bool)
    : argus_security_transition_t :=
  if ready then t <| ts_resource_ready := true |> else zero_transition.

Definition argus_security_transition_prepare (t : argus_security_transition_t) : esp_err_t * argus_security_transition_t :=
  if negb (ts_resource_ready t) then (ESP_ERR_INVALID_STATE, t)
  else if ts_reserved t || ts_armed t then (ESP_ERR_NOT_FINISHED, t)
  else (ESP_OK, t <| ts_reserved := true |> <| ts_callback_claimed := false |>).

Definition argus_security_transition_cancel (t : argus_security_transition_t) : argus_security_transition_t :=
  if ts_armed t then t else t <| ts_reserved := false |> <| ts_callback_claimed := false |>.

(** The test at the head of [argus_security_transition_respond_then_arm], and its last lines. *)
Definition may_respond (t : argus_security_transition_t) : bool :=
  ts_resource_ready t && ts_reserved t && negb (ts_armed t).
Definition mark_armed (t : argus_security_transition_t) : argus_security_transition_t :=
  t <| ts_reserved := false |> <| ts_armed := true |>.

Definition argus_security_transition_claim_callback (t : argus_security_transition_t) : bool * argus_security_transition_t :=
  if negb (ts_armed t) || ts_callback_claimed t then (false, t)
  else (true, t <| ts_callback_claimed := true |> <| ts_armed := false |>).

(** The result, and whether [respond] completed. *)
Definition argus_security_transition_respond_then_arm (t : transition_name) (respond arm : handler esp_err_t)
    : handler (esp_err_t * bool) :=
  ready ← call (MayRespond t);
  if negb ready then mret (ESP_ERR_INVALID_STATE, false)
  else
    err ← respond;
    if negb (is_ok err) then call (Cancel t) ;; mret (err, false)
    else
      err ← arm;
      if negb (is_ok err) then call (Cancel t) ;; mret (err, true)
      else call (MarkArmed t) ;; mret (ESP_OK, true).

(** ** Shared by the handlers *)

Definition SECURITY_BODY_MAX : nat := 1024.
Definition SECURITY_RESPONSE_MAX : nat := Z.to_nat 8192.

Definition send_json (status body : bytes) : handler esp_err_t :=
  set_security_headers false ;; call (SetStatus status) ;; call (Send body).

Definition OK_BODY : bytes := json_object [(str "ok", str "true")].

(** [result] bytes arrive in the buffer. *)
Definition arrived (result : Z) (data : bytes) : bytes := chars (Z.to_nat result) data.

(** The loop that receives a body: the answer that ended it, or the body.  It goes round at
    most once for every byte still missing. *)
Fixpoint recv_loop (guarded : bool) (missing content_len : nat) (body : bytes) : handler (Z + bytes) :=
  match missing with
  | O => mret (inr body)
  | S missing =>
      if (content_len <=? length body)%nat then mret (inr body)
      else
        r ← call (Recv (content_len - length body));
        let '(result, data) := r in
        if (result <=? 0) || (guarded && (Z.of_nat (content_len - length body) <? result)) then mret (inl result)
        else recv_loop guarded missing content_len (body ++ arrived result data)
  end.

Definition receive_object (req : httpd_req_t) : handler (option json) :=
  let content_len := rq_content_len req in
  if (content_len =? 0)%nat then mret None
  else if (SECURITY_BODY_MAX <=? content_len)%nat then call (SetHeader (str "Connection") (str "close")) ;; mret None
  else
    received ← recv_loop true content_len content_len [];
    match received with
    | inl _ => call (SetHeader (str "Connection") (str "close")) ;; mret None
    | inr body =>
        parsed ← call (ParseJson body);
        mret (complete_object parsed (length body))
    end.

Definition begin_admin_audit (security : argus_http_security_context_t) (type : Z) (target action : bytes)
    : handler (esp_err_t * option argus_security_audit_mutation_t) :=
  let p := hc_principal security in
  call (AuditBegin type (principal_number (pr_type p)) (pr_identifier p) target (str "SOFTAP") action (pr_security_epoch p)).

Definition finish_admin_audit (mutation : option argus_security_audit_mutation_t) (mutation_result : esp_err_t)
    : handler esp_err_t :=
  audit_result ← call (AuditFinish mutation (is_ok mutation_result));
  mret (if is_ok audit_result then mutation_result else ESP_ERR_INVALID_RESPONSE).

(** A change between the two halves of its record, as the account and role handlers write it. *)
Definition audited_change (security : argus_http_security_context_t) (type : Z) (target action : bytes)
    (change : handler esp_err_t) : handler esp_err_t :=
  b ← begin_admin_audit security type target action;
  let '(err, mutation) := b in
  if is_ok err then err ← change; finish_admin_audit mutation err else mret ESP_FAIL.

Definition ARGUS_AUDIT_SESSION_REVOKED : Z := 5.
Definition ARGUS_AUDIT_ACCOUNT_CHANGED : Z := 6.
Definition ARGUS_AUDIT_PASSWORD_CHANGED : Z := 7.
Definition ARGUS_AUDIT_ROLE_CHANGED : Z := 8.
Definition ARGUS_AUDIT_MACHINE_ENROLLED : Z := 14.
Definition ARGUS_AUDIT_MACHINE_CREDENTIAL_ROTATED : Z := 15.
Definition ARGUS_AUDIT_MACHINE_STATE_CHANGED : Z := 16.
Definition ARGUS_AUDIT_MACHINE_REVOKED : Z := 17.
Definition ARGUS_AUDIT_MACHINE_DELETED : Z := 18.

(** ** Accounts *)

Definition account_json (human : argus_security_human_record_t) : json :=
  JObject [(str "id", JString (hu_identifier human)); (str "username", JString (hu_login human));
           (str "display_name", JString (hu_display_name human)); (str "scope", JString (hu_scope human));
           (str "level", JNumber (hu_level human)); (str "enabled", JBool (negb (hu_enabled human =? 0)));
           (str "protected", JBool (negb (hu_protected_identity human =? 0)))].

(** The accounts the principal may manage. *)
Definition manageable (p : argus_principal_t) (directory : argus_security_directory_payload_t)
    : list argus_security_human_record_t :=
  List.filter (fun human =>
      bool_decide (argus_authorization_manage_target (Some p) (hu_level human) (Some (hu_scope human))
                     (negb (hu_protected_identity human =? 0)) = ARGUS_AUTHZ_ALLOW))
    (human_at directory <$> seq 0 (Z.to_nat (dp_human_count directory))).

Definition accounts_get (req : httpd_req_t) : handler esp_err_t :=
  access ← require_access ARGUS_PERMISSION_MANAGE_USERS false;
  match access with
  | None => mret ESP_OK
  | Some security =>
      directory ← call Directory;
      match directory with
      | None => send_json (str "503 Service Unavailable") (error_body (str "security_store_unavailable"))
      | Some directory =>
          rendered ← call (PrintJson (JObject
            [(str "accounts", JArray (account_json <$> manageable (hc_principal security) directory))]));
          match rendered with
          | None => send_json (str "500 Internal Server Error") (error_body (str "response_overflow"))
          | Some rendered =>
              if (SECURITY_RESPONSE_MAX <=? length rendered)%nat
              then send_json (str "500 Internal Server Error") (error_body (str "response_overflow"))
              else set_security_headers false ;; call (Send rendered)
          end
      end
  end.

Record account_fields := AccountFields {
  af_id : bytes; af_username : bytes; af_display : bytes; af_scope : bytes; af_level : Z; af_permissions : Z; af_password : bytes
}.

Definition decode_account (root : option json) : option account_fields :=
  root ← root;
  if negb (object_keys root [str "id"; str "username"; str "display_name"; str "scope"; str "level"; str "permissions"; str "password"])
  then None
  else
    id ← string_field root (str "id") 36 false;
    username ← string_field root (str "username") 32 false;
    display ← string_field root (str "display_name") 48 false;
    scope ← string_field root (str "scope") 36 false;
    password ← string_field root (str "password") ARGUS_PASSWORD_INPUT_MAX false;
    level ← level_field root;
    permissions ← permission_array (get_item root (str "permissions"));
    Some (AccountFields id username display scope level permissions password).

Definition accounts_post (req : httpd_req_t) : handler esp_err_t :=
  access ← require_access ARGUS_PERMISSION_MANAGE_USERS true;
  match access with
  | None => mret ESP_OK
  | Some security =>
      root ← receive_object req;
      err ← match decode_account root with
            | None => mret ESP_ERR_INVALID_ARG
            | Some f =>
                audited_change security ARGUS_AUDIT_ACCOUNT_CHANGED (af_id f) (str "create")
                  (call (Admin (hc_principal security) (CreateHuman (af_id f) (af_username f) (af_display f) (af_scope f)
                                                          (af_level f) (af_permissions f) (Some (af_password f)))))
            end;
      match err with
      | ESP_OK => send_json (str "201 Created") OK_BODY
      | ESP_ERR_NOT_ALLOWED => send_json (str "403 Forbidden") (error_body (str "delegation_denied"))
      | ESP_ERR_INVALID_STATE | ESP_ERR_NO_MEM => send_json (str "409 Conflict") (error_body (str "account_conflict"))
      | ESP_FAIL | ESP_ERR_INVALID_RESPONSE => send_json (str "503 Service Unavailable") (error_body (str "audit_unavailable"))
      | _ => send_json (str "400 Bad Request") (error_body (str "invalid_request"))
      end
  end.

Definition custom_role_mask_field (root : json) (name : bytes) : handler (option Z) :=
  match is_array (get_item root name) with
  | None => mret None
  | Some items =>
      directory ← call Directory;
      mret (match directory with Some d => role_mask_loop d 0 items | None => None end)
  end.

(** One action on an account; [None] when the body is not valid for it. *)
Definition account_action (security : argus_http_security_context_t) (root : json) (action id : bytes)
    : handler (option esp_err_t) :=
  let p := hc_principal security in
  let change type op := err ← audited_change security type id action (call (Admin p op)); mret (Some err) in
  if bool_decide (action = str "enable") then
    if object_keys root [str "action"; str "id"] then change ARGUS_AUDIT_ACCOUNT_CHANGED (SetHumanEnabled id true) else mret None
  else if bool_decide (action = str "disable") then
    if object_keys root [str "action"; str "id"] then change ARGUS_AUDIT_ACCOUNT_CHANGED (SetHumanEnabled id false) else mret None
  else if bool_decide (action = str "delete") then
    if object_keys root [str "action"; str "id"] then change ARGUS_AUDIT_ACCOUNT_CHANGED (DeleteHuman id) else mret None
  else if bool_decide (action = str "revoke_sessions") then
    if object_keys root [str "action"; str "id"] then
      err ← audited_change security ARGUS_AUDIT_SESSION_REVOKED id action
              (revoked ← call (RevokePrincipal id); mret (if (revoked : bool) then ESP_OK else ESP_ERR_NOT_FOUND));
      mret (Some err)
    else mret None
  else if bool_decide (action = str "reset_password") then
    match (if object_keys root [str "action"; str "id"; str "password"]
           then string_field root (str "password") ARGUS_PASSWORD_INPUT_MAX false else None) with
    | Some password => change ARGUS_AUDIT_PASSWORD_CHANGED (ReplacePassword id (Some password))
    | None => mret None
    end
  else if bool_decide (action = str "update_display") then
    match (if object_keys root [str "action"; str "id"; str "display_name"]
           then string_field root (str "display_name") 48 false else None) with
    | Some display_name => change ARGUS_AUDIT_ACCOUNT_CHANGED (UpdateDisplayName id (Some display_name))
    | None => mret None
    end
  else if bool_decide (action = str "assign_roles") then
    if object_keys root [str "action"; str "id"; str "roles"] then
      role_mask ← custom_role_mask_field root (str "roles");
      match role_mask with
      | Some role_mask => change ARGUS_AUDIT_ACCOUNT_CHANGED (AssignCustomRoles id role_mask)
      | None => mret None
      end
    else mret None
  else mret None.

(** Nobody disables or deletes his own account. *)
Definition on_oneself (security : argus_http_security_context_t) (action id : bytes) : bool :=
  bool_decide (id = pr_identifier (hc_principal security))
  && (bool_decide (action = str "disable") || bool_decide (action = str "delete")).

Definition account_action_post (req : httpd_req_t) : handler esp_err_t :=
  access ← require_access ARGUS_PERMISSION_MANAGE_USERS true;
  match access with
  | None => mret ESP_OK
  | Some security =>
      root ← receive_object req;
      result ← match root with
               | None => mret None
               | Some root =>
                   match is_string (get_item root (str "action")), is_string (get_item root (str "id")) with
                   | Some action, Some id =>
                       if on_oneself security action id then mret None else account_action security root action id
                   | _, _ => mret None
                   end
               end;
      match result with
      | None => send_json (str "400 Bad Request") (error_body (str "invalid_request"))
      | Some ESP_OK => send_json (str "200 OK") OK_BODY
      | Some ESP_ERR_NOT_ALLOWED => send_json (str "403 Forbidden") (error_body (str "target_denied"))
      | Some ESP_FAIL | Some ESP_ERR_INVALID_RESPONSE =>
          send_json (str "503 Service Unavailable") (error_body (str "audit_unavailable"))
      | Some _ => send_json (str "409 Conflict") (error_body (str "account_conflict"))
      end
  end.

(** ** Roles *)

Definition role_json (role : argus_security_role_record_t) : json :=
  JObject [(str "id", JString (ro_identifier role)); (str "level", JNumber (ro_level role))].

Definition roles_get (req : httpd_req_t) : handler esp_err_t :=
  access ← require_access ARGUS_PERMISSION_MANAGE_ROLES false;
  match access with
  | None => mret ESP_OK
  | Some security =>
      directory ← call Directory;
      match directory with
      | None => send_json (str "503 Service Unavailable") (error_body (str "security_store_unavailable"))
      | Some directory =>
          rendered ← call (PrintJson (JObject
            [(str "custom_roles", JArray (role_json <$> (role_at directory <$> seq 0 (Z.to_nat (dp_custom_role_count directory)))))]));
          match rendered with
          | None => send_json (str "500 Internal Server Error") (error_body (str "internal_error"))
          | Some rendered => set_security_headers false ;; call (Send rendered)
          end
      end
  end.

(** The body of a new role: its identifier, level, permissions and delegable permissions. *)
Definition decode_role (root : option json) : option (bytes * Z * Z * Z) :=
  root ← root;
  if negb (object_keys root [str "id"; str "level"; str "permissions"; str "delegable_permissions"]) then None
  else
    id ← string_field root (str "id") 36 false;
    level ← level_field root;
    permissions ← permission_array (get_item root (str "permissions"));
    delegable ← permission_array (get_item root (str "delegable_permissions"));
    Some (id, level, permissions, delegable).

(** A body with an action deletes a role. *)
Definition delete_role_post (security : argus_http_security_context_t) (root : json) (action : bytes) : handler esp_err_t :=
  let id := if bool_decide (action = str "delete") && object_keys root [str "action"; str "id"]
            then string_field root (str "id") 36 false else None in
  err ← match id with
        | None => mret ESP_ERR_INVALID_ARG
        | Some id => audited_change security ARGUS_AUDIT_ROLE_CHANGED id (str "delete")
                       (call (Admin (hc_principal security) (DeleteRole (Some id))))
        end;
  match err with
  | ESP_OK => send_json (str "200 OK") OK_BODY
  | ESP_ERR_INVALID_STATE => send_json (str "409 Conflict") (error_body (str "role_in_use"))
  | ESP_ERR_NOT_ALLOWED => send_json (str "403 Forbidden") (error_body (str "delegation_denied"))
  | ESP_FAIL | ESP_ERR_INVALID_RESPONSE => send_json (str "503 Service Unavailable") (error_body (str "audit_unavailable"))
  | _ => send_json (str "400 Bad Request") (error_body (str "invalid_request"))
  end.

Definition roles_post (req : httpd_req_t) : handler esp_err_t :=
  access ← require_access ARGUS_PERMISSION_MANAGE_ROLES true;
  match access with
  | None => mret ESP_OK
  | Some security =>
      root ← receive_object req;
      match root, is_string (match root with Some root => get_item root (str "action") | None => None end) with
      | Some root, Some action => delete_role_post security root action
      | _, _ =>
          err ← match decode_role root with
                | None => mret ESP_ERR_INVALID_ARG
                | Some (id, level, permissions, delegable) =>
                    audited_change security ARGUS_AUDIT_ROLE_CHANGED id (str "create")
                      (call (Admin (hc_principal security) (CreateRole (Some id) level permissions delegable)))
                end;
          match err with
          | ESP_OK => send_json (str "201 Created") OK_BODY
          | ESP_ERR_NOT_ALLOWED => send_json (str "403 Forbidden") (error_body (str "delegation_denied"))
          | ESP_FAIL | ESP_ERR_INVALID_RESPONSE => send_json (str "503 Service Unavailable") (error_body (str "audit_unavailable"))
          | _ => send_json (str "400 Bad Request") (error_body (str "invalid_request"))
          end
      end
  end.

(** ** The audit page *)

Definition audit_event_json (record : argus_security_audit_record_t) : json :=
  JObject [(str "sequence", JString (decimal (ar_sequence record))); (str "event_type", JNumber (ar_event_type record));
           (str "outcome", JNumber (ar_outcome record)); (str "lifecycle_id", JNumber (ar_lifecycle_id record));
           (str "actor", JString (ar_actor record)); (str "target", JString (ar_target record));
           (str "source", JString (ar_source record)); (str "reason", JString (ar_reason record));
           (str "uptime_ms", JNumber (ar_uptime_us record / 1000))].

Definition audit_page_json (status : argus_security_audit_status_t) (page : argus_security_audit_page_t) : json :=
  JObject [(str "count", JNumber (ss_count status)); (str "overwritten", JNumber (ss_overwritten status));
           (str "finalization_degraded", JBool (ss_finalization_degraded status));
           (str "page_count", JNumber (Z.of_nat (length (pg_records page)))); (str "has_more", JBool (pg_has_more page));
           (str "corruption_gap", JBool (pg_corruption_gap page));
           (str "next_before", if pg_has_more page then JString (decimal (pg_next_before page)) else JNull);
           (str "events", JArray (audit_event_json <$> pg_records page))].

(** The query of the request; [None] when it is refused. *)
Definition audit_query : handler (option audit_query_t) :=
  query_length ← call UrlQueryLen;
  if (AUDIT_QUERY_MAX <? query_length)%nat then mret None
  else if (query_length =? 0)%nat then mret (parse_audit_query None)
  else
    text ← call (UrlQueryStr (S AUDIT_QUERY_MAX));
    mret (match text with inl _ => None | inr text => parse_audit_query (Some text) end).

Definition audit_get (req : httpd_req_t) : handler esp_err_t :=
  access ← require_access ARGUS_PERMISSION_VIEW_AUDIT false;
  match access with
  | None => mret ESP_OK
  | Some security =>
      query ← audit_query;
      match query with
      | None => send_json (str "400 Bad Request") (error_body (str "invalid_pagination"))
      | Some query =>
          status ← call AuditStatusOf;
          match status with
          | inl _ => send_json (str "503 Service Unavailable") (error_body (str "audit_unavailable"))
          | inr status =>
              p ← call (AuditReadPage (aq_before_sequence query) (aq_limit query));
              let '(page_err, page) := p in
              match page_err with
              | ESP_ERR_INVALID_ARG => send_json (str "400 Bad Request") (error_body (str "invalid_pagination"))
              | ESP_OK =>
                  rendered ← call (PrintJson (audit_page_json status page));
                  match rendered with
                  | None => send_json (str "500 Internal Server Error") (error_body (str "response_overflow"))
                  | Some rendered =>
                      if (SECURITY_RESPONSE_MAX <=? length rendered)%nat
                      then send_json (str "500 Internal Server Error") (error_body (str "response_overflow"))
                      else set_security_headers false ;; call (Send rendered)
                  end
              | _ => send_json (str "503 Service Unavailable") (error_body (str "audit_unavailable"))
              end
          end
      end
  end.

(** ** The access-point secret and the end of recovery *)

Definition transition_label (t : transition_name) : bytes :=
  match t with ApTransition => str "ap_password_apply" | RecoveryTransition => str "recovery_exit" end.

(** The response is sent, then the timer of 300 ms started; a timer that cannot be started
    is recorded, and the response stands. *)
Definition respond_then_arm_transition (t : transition_name) (status body : bytes) : handler esp_err_t :=
  r ← argus_security_transition_respond_then_arm t (send_json status body) (call (StartTimer t));
  let '(err, response_completed) := r in
  if is_ok err then mret ESP_OK
  else if negb response_completed then mret err
  else
    call (AuditAppend ARGUS_AUDIT_STORAGE_FAILURE ARGUS_AUDIT_OUTCOME_FAILED (principal_number ARGUS_PRINCIPAL_NONE)
            (str "system") (transition_label t) (str "HTTP") (str "transition_arm_failed") 0 false) ;;
    mret ESP_OK.

(** The current secret and its replacement, given twice. *)
Definition decode_ap_password (root : option json) : option (bytes * bytes) :=
  root ← root;
  if negb (object_keys root [str "current_password"; str "new_password"; str "confirm_password"]) then None
  else
    current ← string_field root (str "current_password") 63 false;
    replacement ← string_field root (str "new_password") 63 false;
    confirmation ← string_field root (str "confirm_password") 63 false;
    if bool_decide (replacement = confirmation) then Some (current, replacement) else None.

Definition ap_password_status (err : esp_err_t) : bytes :=
  match err with
  | ESP_ERR_NOT_FINISHED => str "409 Conflict"
  | ESP_FAIL | ESP_ERR_INVALID_RESPONSE | ESP_ERR_NO_MEM => str "503 Service Unavailable"
  | ESP_ERR_INVALID_STATE => str "403 Forbidden"
  | _ => str "400 Bad Request"
  end.

Definition ap_password_post (req : httpd_req_t) : handler esp_err_t :=
  access ← require_access (Z.lor ARGUS_PERMISSION_MANAGE_NETWORK ARGUS_PERMISSION_CHANGE_AP_SECRET) true;
  match access with
  | None => mret ESP_OK
  | Some security =>
      recent ← call (RecentlyReauthenticated (hc_session_index security));
      if negb recent then send_json (str "403 Forbidden") (error_body (str "recent_reauthentication_required"))
      else
        root ← receive_object req;
        err ← match decode_ap_password root with
              | None => mret ESP_ERR_INVALID_ARG
              | Some (current, replacement) =>
                  err ← call (Prepare ApTransition);
                  match err with
                  | ESP_OK => audited_change security ARGUS_AUDIT_AP_SECRET_CHANGED (str "active_ap") (str "change_ap_secret")
                                (call (ReplaceApSecret current replacement))
                  | ESP_ERR_NOT_FINISHED => mret ESP_ERR_NOT_FINISHED
                  | _ => mret ESP_ERR_NO_MEM
                  end
              end;
        if negb (is_ok err) then
          call (Cancel ApTransition) ;; send_json (ap_password_status err) (error_body (str "ap_password_change_rejected"))
        else
          call RevokeAll ;;
          respond_then_arm_transition ApTransition (str "202 Accepted")
            (json_object [(str "ok", str "true"); (str "status", quoted (str "ap_password_change_committed"));
                          (str "reconnect_required", str "true"); (str "automatic_transition_requested", str "true")])
  end.

Definition recovery_exit_post (req : httpd_req_t) : handler esp_err_t :=
  access ← require_access ARGUS_PERMISSION_INVOKE_RECOVERY true;
  match access with
  | None => mret ESP_OK
  | Some security =>
      recent ← call (RecentlyReauthenticated (hc_session_index security));
      if negb recent then send_json (str "403 Forbidden") (error_body (str "recent_reauthentication_required"))
      else
        state ← call RecoveryState;
        match state with
        | inl _ => send_json (str "503 Service Unavailable") (error_body (str "security_store_unavailable"))
        | inr state =>
            if negb (state =? ARGUS_SECURITY_RECOVERY_REQUESTED)
            then send_json (str "409 Conflict") (error_body (str "recovery_not_active"))
            else
              prepare_err ← call (Prepare RecoveryTransition);
              if negb (is_ok prepare_err) then
                send_json (if bool_decide (prepare_err = ESP_ERR_NOT_FINISHED) then str "409 Conflict"
                           else str "503 Service Unavailable") (error_body (str "recovery_exit_failed"))
              else
                b ← begin_admin_audit security ARGUS_AUDIT_RECOVERY_EXIT (str "network_recovery") (str "recovery_exit");
                let '(err, mutation) := b in
                err ← (if is_ok err then
                         err ← call (SetRecoveryState ARGUS_SECURITY_RECOVERY_INACTIVE);
                         finish_admin_audit mutation err
                       else mret err);
                if negb (is_ok err) then
                  call (Cancel RecoveryTransition) ;;
                  send_json (str "503 Service Unavailable") (error_body (str "recovery_exit_failed"))
                else
                  call RevokeAll ;;
                  respond_then_arm_transition RecoveryTransition (str "202 Accepted")
                    (json_object [(str "ok", str "true"); (str "status", quoted (str "recovery_exit_committed"));
                                  (str "automatic_transition_requested", str "true")])
        end
  end.

(** ** Machines *)

(** [printf("%0<width>lx")] of a number that fits. *)
Fixpoint hex_padded (width : nat) (n : Z) : bytes :=
  match width with
  | O => []
  | S width => hex_padded width (n / 16) ++ [hex_digit (n mod 16)]
  end.

Definition machine_json (record : argus_security_machine_record_t) : json :=
  JObject [(str "id", JString (mr_identifier record)); (str "display_name", JString (mr_display_name record));
           (str "client_type", JString (machine_type_name (mr_client_type record)));
           (str "enabled", JBool (negb (mr_enabled record =? 0))); (str "revoked", JBool (negb (mr_revoked record =? 0)));
           (str "allowed_interfaces", JNumber (mr_allowed_interfaces record)); (str "scope", JString (mr_scope record));
           (str "topic_scope", JString (mr_topic_scope record)); (str "api_scope", JString (mr_api_scope record));
           (str "permissions", JString (str "0x" ++ hex_padded 16 (mr_permissions record)));
           (str "permission_names", JArray (add_permission_names (mr_permissions record)));
           (str "credential_version", JNumber (mr_credential_version record));
           (str "principal_revision", JNumber (mr_principal_revision record))].

Definition machines_in_scope (p : argus_principal_t) (payload : argus_machine_directory_payload_t)
    : list argus_security_machine_record_t :=
  List.filter (fun record => argus_machine_service_scope_contains (Some (pr_scope p)) (Some (mr_scope record)))
    (machine_at payload <$> seq 0 (Z.to_nat (mp_machine_count payload))).

Definition MACHINE_ADMINISTRATION : Z := Z.lor ARGUS_PERMISSION_ENROLL_MACHINES ARGUS_PERMISSION_REVOKE_MACHINES.

Definition machines_get (req : httpd_req_t) : handler esp_err_t :=
  access ← require_access 0 false;
  match access with
  | None => mret ESP_OK
  | Some security =>
      if Z.land (pr_permissions (hc_principal security)) MACHINE_ADMINISTRATION =? 0
      then send_json (str "403 Forbidden") (error_body (str "forbidden"))
      else
        snapshot ← call Machines;
        match snapshot with
        | None => send_json (str "503 Service Unavailable") (error_body (str "machine_directory_unavailable"))
        | Some payload =>
            rendered ← call (PrintJsonInto (JObject
              [(str "machines", JArray (machine_json <$> machines_in_scope (hc_principal security) payload))])
              SECURITY_RESPONSE_MAX);
            match rendered with
            | None => send_json (str "503 Service Unavailable") (error_body (str "response_unavailable"))
            | Some response => send_json (str "200 OK") response
            end
        end
  end.

(** A secret that could not be delivered is quarantined. *)
Definition send_machine_credential_once (credential : argus_machine_credential_once_t) (status : bytes) : handler esp_err_t :=
  let response := credential_text credential in
  if (256 <=? length response)%nat then
    call (Quarantine (co_identifier credential)) ;;
    call (DisconnectMachine (co_identifier credential)) ;;
    send_json (str "503 Service Unavailable") (error_body (str "credential_delivery_failed"))
  else
    err ← send_json status response;
    if negb (is_ok err) then
      call (Quarantine (co_identifier credential)) ;;
      call (DisconnectMachine (co_identifier credential)) ;;
      mret err
    else mret err.

Definition decode_enrollment (root : option json) : option argus_machine_enrollment_request_t :=
  root ← root;
  if negb (object_keys root [str "display_name"; str "client_type"; str "interfaces"; str "scope"; str "topic_scope";
                             str "api_scope"; str "permissions"]) then None
  else
    display ← string_field root (str "display_name") 48 false;
    client_type ← machine_type_field root;
    interfaces ← interface_array (get_item root (str "interfaces"));
    scope ← string_field root (str "scope") 36 false;
    topic_scope ← string_field root (str "topic_scope") 96 false;
    api_scope ← string_field root (str "api_scope") 64 true;
    permissions ← permission_array (get_item root (str "permissions"));
    Some (EnrollmentRequest (strlcpy display 49) client_type ARGUS_MACHINE_TRANSPORT_MQTT interfaces (strlcpy scope 37)
            (strlcpy topic_scope 97) (strlcpy api_scope 65) permissions).

Definition machines_post (req : httpd_req_t) : handler esp_err_t :=
  access ← require_access ARGUS_PERMISSION_ENROLL_MACHINES true;
  match access with
  | None => mret ESP_OK
  | Some security =>
      recent ← call (RecentlyReauthenticated (hc_session_index security));
      if negb recent then send_json (str "403 Forbidden") (error_body (str "recent_reauthentication_required"))
      else
        root ← receive_object req;
        match decode_enrollment root with
        | None => send_json (str "400 Bad Request") (error_body (str "invalid_request"))
        | Some enrollment =>
            b ← begin_admin_audit security ARGUS_AUDIT_MACHINE_ENROLLED (str "new_machine") (str "enroll");
            let '(err, mutation) := b in
            r ← (if is_ok err then
                   c ← call (Machine (hc_principal security) (MachineEnroll enrollment));
                   let '(err, credential) := c in
                   finalized ← finish_admin_audit mutation err;
                   (if negb (is_ok finalized) && is_ok err then call (Quarantine (co_identifier credential)) ;; mret tt
                    else mret tt) ;;
                   mret (finalized, credential)
                 else mret (err, zero_credential));
            let '(err, credential) := r in
            match err with
            | ESP_OK => send_machine_credential_once credential (str "201 Created")
            | ESP_ERR_NOT_ALLOWED => send_json (str "403 Forbidden") (error_body (str "machine_enrollment_failed"))
            | ESP_ERR_NO_MEM => send_json (str "409 Conflict") (error_body (str "machine_enrollment_failed"))
            | _ => send_json (str "503 Service Unavailable") (error_body (str "machine_enrollment_failed"))
            end
        end
  end.

Record argus_security_http_machine_action_decision_t := ActionDecision {
  ad_mutation_committed : bool;
  ad_disconnect_machine : bool;
  ad_quarantine_rotation : bool;
  ad_disclose_rotation_secret : bool;
  ad_response_error : esp_err_t
}.

Definition argus_security_http_machine_action_decide (mutation_error audit_finalization_error : esp_err_t) (rotation : bool)
    : argus_security_http_machine_action_decision_t :=
  ActionDecision (is_ok mutation_error) (is_ok mutation_error)
    (rotation && is_ok mutation_error && negb (is_ok audit_finalization_error))
    (rotation && is_ok mutation_error && is_ok audit_finalization_error)
    (if negb (is_ok mutation_error) then mutation_error else audit_finalization_error).

(** What the action does to the machine: the result, the new credential of a rotation and
    the permissions before a change of them. *)
Definition machine_action (p : argus_principal_t) (id action : bytes) (set_permissions : option Z)
    : handler (esp_err_t * argus_machine_credential_once_t * Z) :=
  fenced ← call (FenceMachine id);
  if negb (is_ok fenced) then mret (fenced, zero_credential, 0)
  else if bool_decide (action = str "rotate") then
    c ← call (Machine p (MachineRotate id)); mret (c.1, c.2, 0)
  else if bool_decide (action = str "enable") then
    err ← call (Machine p (MachineSetEnabled id true)); mret (err, zero_credential, 0)
  else if bool_decide (action = str "disable") then
    err ← call (Machine p (MachineSetEnabled id false)); mret (err, zero_credential, 0)
  else
    match set_permissions with
    | Some permissions => c ← call (Machine p (MachineSetPermissions id permissions)); mret (c.1, zero_credential, c.2)
    | None =>
        if bool_decide (action = str "revoke") then
          err ← call (Machine p (MachineRevoke id)); mret (err, zero_credential, 0)
        else err ← call (Machine p (MachineDelete id)); mret (err, zero_credential, 0)
    end.

Definition machine_action_event (action : bytes) : Z :=
  if bool_decide (action = str "rotate") then ARGUS_AUDIT_MACHINE_CREDENTIAL_ROTATED
  else if bool_decide (action = str "revoke") then ARGUS_AUDIT_MACHINE_REVOKED
  else if bool_decide (action = str "delete") then ARGUS_AUDIT_MACHINE_DELETED
  else ARGUS_AUDIT_MACHINE_STATE_CHANGED.

(** The action between the two halves of its record, and what becomes of it. *)
Definition perform_machine_action (security : argus_http_security_context_t) (id action : bytes) (set_permissions : option Z)
    : handler (esp_err_t * option argus_machine_credential_once_t * Z) :=
  let rotation := bool_decide (action = str "rotate") in
  let audit_action := match set_permissions with
                      | Some permissions => str "perm:" ++ hex_padded 8 (u32 permissions)
                      | None => strlcpy action 17
                      end in
  b ← begin_admin_audit security (machine_action_event action) id audit_action;
  let '(err, mutation) := b in
  if negb (is_ok err) then mret (err, None, 0)
  else
    c ← machine_action (hc_principal security) id action set_permissions;
    let '(mutation_error, credential, previous) := c in
    (if is_ok mutation_error then call (DisconnectMachine id) ;; mret tt else mret tt) ;;
    audit_error ← finish_admin_audit mutation mutation_error;
    let decision := argus_security_http_machine_action_decide mutation_error audit_error rotation in
    (if ad_quarantine_rotation decision then call (Quarantine id) ;; mret tt else mret tt) ;;
    mret (ad_response_error decision, if ad_disclose_rotation_secret decision then Some credential else None, previous).

Definition machine_actions : list bytes := [str "rotate"; str "enable"; str "disable"; str "revoke"; str "delete"].

Definition machine_action_post (req : httpd_req_t) : handler esp_err_t :=
  access ← require_access 0 true;
  match access with
  | None => mret ESP_OK
  | Some security =>
      root ← receive_object req;
      match argus_security_http_machine_action_body root with
      | ARGUS_MACHINE_ACTION_BODY_INVALID_PERMISSIONS =>
          send_json (str "400 Bad Request") (error_body (str "invalid_permissions"))
      | ARGUS_MACHINE_ACTION_BODY_INVALID => send_json (str "400 Bad Request") (error_body (str "invalid_request"))
      | ARGUS_MACHINE_ACTION_BODY_OK identifier action set_permissions =>
          let id := strlcpy identifier 37 in
          let grants := bool_decide (action = str "rotate") || negb (is_none set_permissions) in
          recent ← (if grants then call (RecentlyReauthenticated (hc_session_index security)) else mret true);
          if negb recent then send_json (str "403 Forbidden") (error_body (str "recent_reauthentication_required"))
          else if negb grants && negb (bool_decide (action ∈ machine_actions))
          then send_json (str "400 Bad Request") (error_body (str "invalid_request"))
          else
            let required := if grants then ARGUS_PERMISSION_ENROLL_MACHINES else ARGUS_PERMISSION_REVOKE_MACHINES in
            if negb (bool_decide (argus_authorization_require (Some (hc_principal security)) required = ARGUS_AUTHZ_ALLOW))
            then send_json (str "403 Forbidden") (error_body (str "forbidden"))
            else
              r ← perform_machine_action security id action set_permissions;
              let '(err, disclose, previous) := r in
              match err, disclose, set_permissions with
              | ESP_OK, Some credential, _ => send_machine_credential_once credential (str "200 OK")
              | ESP_OK, None, Some permissions =>
                  send_json (str "200 OK")
                    (json_object [(str "ok", str "true"); (str "previous_permissions", quoted (hex_padded 8 (u32 previous)));
                                  (str "permissions", quoted (hex_padded 8 (u32 permissions)))])
              | ESP_OK, None, None => send_json (str "200 OK") OK_BODY
              | ESP_ERR_NOT_ALLOWED, _, _ => send_json (str "403 Forbidden") (error_body (str "machine_action_failed"))
              | ESP_ERR_NOT_FOUND, _, _ => send_json (str "404 Not Found") (error_body (str "machine_action_failed"))
              | ESP_ERR_INVALID_STATE, _, _ => send_json (str "409 Conflict") (error_body (str "machine_action_failed"))
              | _, _, _ => send_json (str "503 Service Unavailable") (error_body (str "machine_action_failed"))
              end
      end
  end.

(** ** Registration *)

Definition httpd_uri_t : Type := bytes * httpd_method_t * (httpd_req_t -> handler esp_err_t).

Definition SECURITY_ROUTES : list httpd_uri_t :=
  [(str "/api/security/accounts", HTTP_GET, accounts_get);
   (str "/api/security/accounts", HTTP_POST, accounts_post);
   (str "/api/security/accounts/action", HTTP_POST, account_action_post);
   (str "/api/security/roles", HTTP_GET, roles_get);
   (str "/api/security/roles", HTTP_POST, roles_post);
   (str "/api/security/audit", HTTP_GET, audit_get);
   (str "/api/security/ap-password", HTTP_POST, ap_password_post);
   (str "/api/security/recovery/exit", HTTP_POST, recovery_exit_post);
   (str "/api/security/machines", HTTP_GET, machines_get);
   (str "/api/security/machines", HTTP_POST, machines_post);
   (str "/api/security/machines/action", HTTP_POST, machine_action_post)].

(** The statics: the timers, once created, and the transitions. *)
Record security_http := SecurityHttp {
  sh_ap_apply_timer : bool;
  sh_recovery_timer : bool;
  sh_ap_transition : argus_security_transition_t;
  sh_recovery_transition : argus_security_transition_t
}.
#[export] Instance eta_security_http : Eta security_http := fun s =>
  SecurityHttp (sh_ap_apply_timer s) (sh_recovery_timer s) (sh_ap_transition s) (sh_recovery_transition s).

Definition security_http_boot : security_http := SecurityHttp false false zero_transition zero_transition.

(** [create_ap] and [create_recovery] are the answers of [esp_timer_create]. *)
Definition argus_security_http_init (create_ap create_recovery : esp_err_t) (s : security_http) : esp_err_t * security_http :=
  if sh_ap_apply_timer s || sh_recovery_timer s then (ESP_ERR_INVALID_STATE, s)
  else if negb (is_ok create_ap) then (create_ap, s)
  else
    let s := s <| sh_ap_apply_timer := true |>
               <| sh_ap_transition ::= fun t => argus_security_transition_set_resource_ready t true |> in
    if negb (is_ok create_recovery) then (create_recovery, s)
    else (ESP_OK, s <| sh_recovery_timer := true |>
                    <| sh_recovery_transition ::= fun t => argus_security_transition_set_resource_ready t true |>).

(** The first error of [httpd_register_uri_handler], and the routes registered before it. *)
Fixpoint register_routes (register : nat -> esp_err_t) (i : nat) (routes : list httpd_uri_t) : esp_err_t * list httpd_uri_t :=
  match routes with
  | [] => (ESP_OK, [])
  | route :: routes =>
      match register i with
      | ESP_OK => let '(err, done) := register_routes register (S i) routes in (err, route :: done)
      | err => (err, [])
      end
  end.

(** [server] is false for a NULL handle. *)
Definition argus_security_http_register (server : bool) (register : nat -> esp_err_t) (s : security_http)
    : esp_err_t * list httpd_uri_t :=
  if negb server || negb (sh_ap_apply_timer s) || negb (sh_recovery_timer s) then (ESP_ERR_INVALID_STATE, [])
  else register_routes register 0 SECURITY_ROUTES.

(** The timer callbacks: whether the network manager is asked, for the secret or a restart. *)
Definition ap_apply_callback (s : security_http) : bool * security_http :=
  let '(claimed, t) := argus_security_transition_claim_callback (sh_ap_transition s) in
  (claimed, s <| sh_ap_transition := t |>).

Definition recovery_callback (s : security_http) : bool * security_http :=
  let '(claimed, t) := argus_security_transition_claim_callback (sh_recovery_transition s) in
  (claimed, s <| sh_recovery_transition := t |>).

(** ** The parts of a handler keep to the rules *)

Section Parts.
Variable r : argus_http_route_inventory_entry_t.

Lemma safe_send_json status body h : may_answer status h ->
  safe r h (send_json status body) (fun h' err => h' = answered status (is_ok err) h).
Proof.
  intros Hm. unfold send_json. eapply safe_use; [apply safe_headers|]. intros h' _ ->. by apply safe_send.
Qed.

(** A response that ends the handler. *)
Lemma safe_answer status body h : may_answer status h -> safe r h (send_json status body) (fun h' _ => finished h').
Proof.
  intros Hm. eapply safe_mono; [|by apply safe_send_json]. intros h' err ->. apply answered_finished, Hm.
Qed.

(** What the handler rendered, with the default status. *)
Lemma safe_rendered body h : quiet h -> h_outcome h = None ->
  safe r h (set_security_headers false ;; call (Send body)) (fun h' _ => finished h').
Proof.
  destruct h. intros [Hs Ha Hm] Ho. cbn in Hs, Ha, Hm, Ho. subst. eapply safe_use; [apply safe_headers|]. intros h' _ ->.
  apply safe_last; [by split|]. intros err _. cbn. by destruct (is_ok err); split.
Qed.

Lemma safe_recv_loop guarded content_len missing : forall body h,
  safe r h (recv_loop guarded missing content_len body) (fun h' _ => h' = h).
Proof.
  induction missing as [|missing IH]; intros body h; cbn [recv_loop]; [done|]. destruct (_ <=? _)%nat; [done|].
  apply safe_call; [by split|]. intros [result data] _. cbn [note_call]. destruct (_ || _); [done|apply IH].
Qed.

Lemma safe_receive_object req h : safe r h (receive_object req) (fun h' _ => h' = h).
Proof.
  unfold receive_object. destruct (_ =? _)%nat; [done|]. destruct (_ <=? _)%nat.
  { apply safe_call; [by split|]. done. }
  eapply safe_use; [apply safe_recv_loop|]. intros h' [e|body] ->; apply safe_call; try (by split); done.
Qed.

(** A change between the halves of its record: the record is closed again, and the result
    is success only if the change was made and recorded. *)
Lemma safe_audited_change security type target action change h :
  quiet h -> h_gate h = Some (security, true) -> route_admits r security true ->
  (forall m, safe r (h <| h_audit := Some (m, None) |>) change
     (fun h' err => h' = h <| h_audit := Some (m, Some (is_ok err)) |>)) ->
  safe r h (audited_change security type target action change) (fun h' err => h' = h <| h_outcome := Some (is_ok err) |>).
Proof.
  intros [Hs Ha Hm] Hg Hr Hc. unfold audited_change, begin_admin_audit. apply safe_bind, safe_last.
  { destruct h. cbn in Hs, Ha, Hm, Hg. subst. permit. }
  intros [err m] _. cbn [note_call fst snd]. destruct (is_ok err); [|by destruct h].
  eapply safe_use; [apply Hc|]. intros h' e ->. unfold finish_admin_audit. destruct h. cbn in Hs, Ha, Hm, Hg. subst.
  apply safe_call.
  { permit. }
  intros a _. apply safe_ret. note_cbn. unfold update. cbn. by destruct e, a.
Qed.
End Parts.

Ltac walk_change :=
  eapply safe_use;
    [apply safe_audited_change; [by split|reflexivity|eassumption|intros ?; first [apply safe_last; [permit|reflexivity]|idtac]]
    |intros ? ? ->; note_cbn].

(** The walk along a handler. *)
Ltac walk_once :=
  lazymatch goal with
  | |- safe _ _ (mret _) _ => apply safe_ret
  | |- safe _ _ (send_json _ _) (fun h _ => finished h) => apply safe_answer; may_send
  | |- safe _ _ (mbind _ (match ?x with _ => _ end)) _ => destruct x eqn:?
  | |- safe _ _ (mbind _ (receive_object _)) _ => eapply safe_use; [apply safe_receive_object|intros ? ? ->]
  | |- safe _ _ (mbind _ (audited_change _ _ _ _ _)) _ => walk_change
  | |- safe _ _ (mbind _ (call _)) _ => apply safe_call; [permit|intros ? ?; note_cbn]
  | |- safe _ _ (mbind _ (mret _)) _ => apply safe_bind, safe_ret
  | |- safe _ _ (mbind _ (mbind _ _)) _ => apply safe_bind
  | |- safe _ _ (match ?x with _ => _ end) _ => destruct x eqn:?
  | |- finished _ => first [assumption|split; note_cbn; done]
  end.

Ltac walk := repeat walk_once.

(** The entry of the route inventory. *)
Definition inventory_entry (path : bytes) (method : httpd_method_t) : argus_http_route_inventory_entry_t :=
  default (ROUTE "-" HTTP_GET ARGUS_HTTP_ROUTE_RETIRED 0 false false false false false false false)
    (List.find (fun r => bool_decide (rt_path r = Some path) && bool_decide (rt_method r = method)) ROUTES).
Definition route (path : string) : httpd_method_t -> argus_http_route_inventory_entry_t := inventory_entry (str path).
#[local] Arguments route path%_string.

Ltac at_gate rule :=
  apply rule; [vm_compute; reflexivity|vm_compute; reflexivity|vm_compute; reflexivity|intros h Hf; apply safe_ret; exact Hf|].

Lemma accounts_get_safe req : safe (route "/api/security/accounts" HTTP_GET) no_history (accounts_get req) (fun h _ => finished h).
Proof.
  unfold accounts_get. at_gate safe_gate. intros ctx Hr Hh. walk.
  all: apply safe_rendered; [by split|done].
Qed.


Lemma accounts_post_safe req : safe (route "/api/security/accounts" HTTP_POST) no_history (accounts_post req) (fun h _ => finished h).
Proof. unfold accounts_post. at_gate safe_gate. intros ctx Hr Hh. walk. Qed.

Lemma custom_role_mask_safe r root name h : h_gate h <> None -> (forall ctx m, h_gate h = Some (ctx, m) -> route_admits r ctx m) ->
  safe r h (custom_role_mask_field root name) (fun h' _ => h' = h).
Proof.
  intros Hg Hr. unfold custom_role_mask_field. destruct (is_array _); [|done]. destruct (h_gate h) as [[ctx m]|] eqn:He; [|done].
  apply safe_call; [|done]. specialize (Hr ctx m eq_refl). split; [|done..].
  eapply authorize; [exact He|exact Hr|]. split_and!; try done. apply holds_zero.
Qed.


Lemma account_action_safe r ctx root action id : route_admits r ctx true -> holds (hc_principal ctx) ARGUS_PERMISSION_MANAGE_USERS ->
  safe r (gated ctx true) (account_action ctx root action id)
    (fun h result => h = match result with Some err => (gated ctx true) <| h_outcome := Some (is_ok err) |> | None => gated ctx true end).
Proof.
  intros Hr Hh. unfold account_action.
  assert (Hchange : forall type op, admin_permission op = ARGUS_PERMISSION_MANAGE_USERS ->
    safe r (gated ctx true) (err ← audited_change ctx type id action (call (Admin (hc_principal ctx) op)); mret (Some err))
      (fun h result => h = match result with Some err => (gated ctx true) <| h_outcome := Some (is_ok err) |> | None => gated ctx true end)).
  { intros type op Hop. eapply safe_use.
    - apply safe_audited_change; [by split|reflexivity|exact Hr|]. intros m. apply safe_last; [|reflexivity]. split; try done.
      + eapply authorize; [reflexivity|exact Hr|]. cbn [demand_of]. split_and!; try done. by rewrite Hop.
      + intros _. by exists m.
      + by destruct op.
    - intros h err ->. by apply safe_ret. }
  repeat case_match; try (by apply Hchange); try (by apply safe_ret).
  - eapply safe_use; [apply safe_audited_change; [by split|reflexivity|exact Hr|]|intros h err ->; by apply safe_ret].
    intros m. apply safe_call; [permit|]. intros revoked _. by destruct revoked.
  - eapply safe_use; [apply custom_role_mask_safe; [done|]|].
    { intros ctx' m' [= <- <-]. exact Hr. }
    intros h mask ->. destruct mask; [by apply Hchange|by apply safe_ret].
Qed.

Lemma account_action_post_safe req :
  safe (route "/api/security/accounts/action" HTTP_POST) no_history (account_action_post req) (fun h _ => finished h).
Proof.
  unfold account_action_post. at_gate safe_gate. intros ctx Hr Hh. walk.
  eapply safe_use; [by apply account_action_safe|]. intros h result ->. destruct result as [err|]; note_cbn; walk.
Qed.

Lemma roles_get_safe req : safe (route "/api/security/roles" HTTP_GET) no_history (roles_get req) (fun h _ => finished h).
Proof. unfold roles_get. at_gate safe_gate. intros ctx Hr Hh. walk. by apply safe_rendered. Qed.

Lemma roles_post_safe req : safe (route "/api/security/roles" HTTP_POST) no_history (roles_post req) (fun h _ => finished h).
Proof. unfold roles_post, delete_role_post. at_gate safe_gate. intros ctx Hr Hh. walk. Qed.

Lemma audit_query_safe r h : safe r h audit_query (fun h' _ => h' = h).
Proof. unfold audit_query. apply safe_call; [by split|]. intros n _. destruct (_ <? _)%nat; [done|]. destruct (_ =? _)%nat; [done|].
  apply safe_call; [by split|]. done. Qed.

Lemma audit_get_safe req : safe (route "/api/security/audit" HTTP_GET) no_history (audit_get req) (fun h _ => finished h).
Proof.
  unfold audit_get. at_gate safe_gate. intros ctx Hr Hh. eapply safe_use; [apply audit_query_safe|]. intros h query ->. walk.
  all: by apply safe_rendered.
Qed.

(** After a change that was made and recorded, the response and then the timer. *)
Lemma respond_then_arm_safe r ctx t status body h : h_gate h = Some (ctx, true) -> route_admits r ctx true ->
  quiet h -> h_outcome h = Some true -> h_reserved h t = true ->
  safe r h (respond_then_arm_transition t status body) (fun h' _ => finished h').
Proof.
  intros Hg Hr Hq Ho Ht. unfold respond_then_arm_transition, argus_security_transition_respond_then_arm.
  destruct h. destruct Hq as [Hs Ha Hm]. cbn in Hg, Ho, Ht, Hs, Ha, Hm. subst.
  apply safe_bind, safe_call; [permit|]. intros ready Hready. cbn in Hready. rewrite Hready by done. cbn [negb]. note_cbn.
  eapply safe_use; [apply safe_send_json; split; [by split|done]|]. intros h' err ->. note_cbn.
  destruct (is_ok err) eqn:He; cbn [negb]; walk.
Qed.

(** Ready for the transition: the change was made and recorded, and the transition is reserved. *)
Definition transition_ready (ctx : argus_http_security_context_t) (t : transition_name) (h : history) (err : esp_err_t) : Prop :=
  h_gate h = Some (ctx, true) /\ quiet h /\ (is_ok err = true -> h_outcome h = Some true /\ h_reserved h t = true).

(** The end of both transitions: cancelled after an error, armed after the response. *)
Lemma transition_end_safe r ctx t h err status body error status' :
  transition_ready ctx t h err -> route_admits r ctx true -> success_status status' = false ->
  safe r h (if negb (is_ok err) then call (Cancel t) ;; send_json status' (error_body error)
            else call RevokeAll ;; respond_then_arm_transition t status body) (fun h _ => finished h).
Proof.
  intros (Hg & [Hs Ha Hm] & Ho) Hr He. destruct h. cbn in Hg, Hs, Ha, Hm, Ho. subst.
  destruct (is_ok err); cbn [negb].
  - destruct Ho as [-> Ht]; [done|]. apply safe_call; [permit|]. intros n _. note_cbn.
    by eapply respond_then_arm_safe.
  - apply safe_call; [permit|]. intros u _. note_cbn. apply safe_answer. by split.
Qed.

Lemma ap_password_post_safe req :
  safe (route "/api/security/ap-password" HTTP_POST) no_history (ap_password_post req) (fun h _ => finished h).
Proof.
  unfold ap_password_post. at_gate safe_gate. intros ctx Hr Hh. walk_once. walk_once; [walk|]. walk_once. destruct x; [|discriminate].
  eapply safe_use with (mid := transition_ready ctx ApTransition).
  2: { intros h err Hready. eapply transition_end_safe; [exact Hready|exact Hr|]. by destruct err. }
  destruct (decode_ap_password _) as [[current replacement]|]; [|by split; [|split]].
  apply safe_call; [permit|]. intros err _. destruct err; note_cbn; try (by split; [|split]).
  eapply safe_mono; [|apply safe_audited_change; [by split|reflexivity|exact Hr|]].
  - intros h err ->. split; [done|]. split; [by split|]. by intros ->.
  - intros m. apply safe_last; [permit|reflexivity].
Qed.

Lemma recovery_exit_post_safe req :
  safe (route "/api/security/recovery/exit" HTTP_POST) no_history (recovery_exit_post req) (fun h _ => finished h).
Proof.
  unfold recovery_exit_post. at_gate safe_gate. intros ctx Hr Hh. walk_once. walk_once; [walk|]. destruct x; [|discriminate].
  walk_once. walk_once; [walk|]. walk_once; [walk|]. apply safe_call; [permit|]. intros err _. destruct (is_ok err) eqn:He; note_cbn; rewrite ?He.
  2: { cbn [negb]. apply safe_answer. split; [by split|done]. }
  cbn [negb]. apply safe_call; [permit|]. intros [begun m] _. note_cbn.
  eapply safe_use with (mid := transition_ready ctx RecoveryTransition).
  2: { intros h e Hready. eapply transition_end_safe; [exact Hready|exact Hr|done]. }
  destruct (is_ok begun) eqn:Hb; [|split; [done|split; [by split|by rewrite Hb]]].
  apply safe_call; [permit|]. intros e _. note_cbn. unfold finish_admin_audit. apply safe_call; [permit|]. intros a _. note_cbn.
  apply safe_ret. split; [done|]. split; [by split|]. by destruct a, e.
Qed.

(** A permission among those the route accepts. *)
Lemma route_admits_any r ctx mutation : rt_csrf r = mutation -> rt_capability_any r = true ->
  Z.land (pr_permissions (hc_principal ctx)) (rt_capabilities r) <> 0 -> route_admits r ctx mutation.
Proof. intros Hc Ha Hp. split; [congruence|]. rewrite Ha. by right. Qed.

Lemma holds_any p permissions accepted : holds p permissions -> subset permissions accepted = true -> permissions <> 0 ->
  Z.land (pr_permissions p) accepted <> 0.
Proof.
  unfold holds. intros Hh Hs Hn H0. apply Hn. rewrite <- Hh. apply Z.bits_inj'. intros n Hb. rewrite Z.land_spec, Z.bits_0.
  destruct (Z.testbit permissions n) eqn:Hp; [|by rewrite andb_false_r]. rewrite andb_true_r.
  assert (Ha : Z.testbit accepted n = true) by (rewrite subset_spec in Hs; auto).
  assert (Hz : Z.testbit (Z.land (pr_permissions p) accepted) n = false) by (rewrite H0; apply Z.bits_0).
  rewrite Z.land_spec, Ha, andb_true_r in Hz. exact Hz.
Qed.

Lemma machines_get_safe req : safe (route "/api/security/machines" HTTP_GET) no_history (machines_get req) (fun h _ => finished h).
Proof.
  unfold machines_get. apply safe_gate_open; [intros h Hf; apply safe_ret; exact Hf|]. intros ctx. walk_once; [walk|].
  assert (Hr : route_admits (route "/api/security/machines" HTTP_GET) ctx false).
  { apply route_admits_any; [vm_compute; reflexivity|vm_compute; reflexivity|]. by apply Z.eqb_neq in Heqb. }
  walk.
Qed.

(** The disclosure of a secret that was minted and recorded. *)
Lemma credential_once_safe r ctx c status h : h_gate h = Some (ctx, true) -> route_admits r ctx true ->
  h_sent h = None -> h_audit h = None -> h_outcome h = Some true -> h_minted h = Some c ->
  safe r h (send_machine_credential_once c status) (fun h _ => finished h).
Proof.
  intros Hg Hr Hs Ha Ho Hm. destruct h. cbn in Hg, Hs, Ha, Ho, Hm. subst. unfold send_machine_credential_once. destruct (_ <=? _)%nat.
  - apply safe_call; [permit|]. intros e _. note_cbn. cbn [mbind option_bind]. rewrite bool_decide_eq_true_2 by done. walk.
  - unfold send_json. apply safe_bind. eapply safe_use; [apply safe_headers|]. intros h' _ ->.
    apply safe_call; [by split|]. intros u _. note_cbn. apply safe_last.
    { split; try done. intros c' Hc'. injection Hc' as <-. done. }
    intros err _. note_cbn. destruct (is_ok err) eqn:He; cbn [negb].
    + apply safe_ret. by split.
    + apply safe_call; [permit|]. intros e _. note_cbn. cbn [mbind option_bind]. rewrite bool_decide_eq_true_2 by done. walk.
Qed.

Lemma machines_post_safe req : safe (route "/api/security/machines" HTTP_POST) no_history (machines_post req) (fun h _ => finished h).
Proof.
  unfold machines_post. at_gate safe_gate. intros ctx Hr Hh. walk_once. walk_once; [walk|]. walk_once. destruct x; [|discriminate].
  walk_once; [|walk]. apply safe_call; [permit|]. intros [begun m] _. note_cbn. destruct (is_ok begun) eqn:Hb.
  2: { apply safe_bind, safe_ret. destruct begun; try discriminate Hb; walk. }
  apply safe_bind, safe_call; [permit|]. intros [err c] _. note_cbn. unfold finish_admin_audit.
  destruct (is_ok err) eqn:He.
  - apply safe_bind, safe_call; [permit|]. intros fin _. note_cbn. apply safe_ret. destruct (is_ok fin) eqn:Ha; cbn [negb andb].
    + destruct err; try discriminate. cbn [is_ok negb andb]. apply safe_bind, safe_ret, safe_ret. cbn iota.
      by eapply credential_once_safe.
    + cbn [is_ok negb andb]. apply safe_bind, safe_bind, safe_call; [permit|]. intros e _. note_cbn. cbn [mbind option_bind].
      rewrite bool_decide_eq_true_2 by done. apply safe_ret, safe_ret. cbn iota. walk.
  - apply safe_bind, safe_call; [permit|]. intros fin _. note_cbn. apply safe_ret. rewrite ?andb_false_r.
    apply safe_bind, safe_ret, safe_ret. destruct (is_ok fin); [destruct err|]; try discriminate; walk.
Qed.

(** What an action on a machine leaves: its change in the open record, and with a rotation
    the secret that was minted for this machine. *)
Lemma machine_action_safe r ctx m id action set_permissions h :
  h_gate h = Some (ctx, true) -> route_admits r ctx true -> quiet (h <| h_audit := None |>) -> h_audit h = Some (m, None) ->
  (bool_decide (action = str "rotate") || negb (is_none set_permissions) = true ->
     h_reauthenticated h = true /\ holds (hc_principal ctx) ARGUS_PERMISSION_ENROLL_MACHINES) ->
  (bool_decide (action = str "rotate") || negb (is_none set_permissions) = false ->
     holds (hc_principal ctx) ARGUS_PERMISSION_REVOKE_MACHINES) ->
  (set_permissions <> None -> action <> str "enable" /\ action <> str "disable") -> (length id < 37)%nat ->
  safe r h (machine_action (hc_principal ctx) id action set_permissions) (fun h' x =>
    let '(err, c, _) := x in
    exists result, (is_ok err = true -> result = Some true) /\ default false result = is_ok err /\
    (bool_decide (action = str "rotate") = true -> is_ok err = true -> co_identifier c = id) /\
    h' = h <| h_audit := Some (m, result) |>
           <| h_minted := if bool_decide (action = str "rotate") && is_ok err then Some c else None |>).
Proof.
  intros Hg Hr [Hs _ Hm] Ha Hgrant Hrevoke Hperm Hlen. destruct h. cbn in Hg, Hs, Hm, Ha, Hgrant, Hrevoke. subst. unfold machine_action.
  apply safe_call; [permit|]. intros fenced _. note_cbn. destruct (is_ok fenced) eqn:Hf; cbn [negb].
  2: { apply safe_ret. exists None. rewrite Hf, andb_false_r. split_and!; done. }
  case_bool_decide as Hrot; cbn [orb] in Hgrant, Hrevoke.
  { destruct Hgrant as [Hre Hh]; [done|]. cbn in Hre. subst. apply safe_call; [permit|]. intros [err c] Hid. cbn in Hid. note_cbn.
    apply safe_ret. exists (Some (is_ok err)). cbn. split_and!; [by intros ->|done|intros _ He; apply Hid; [by apply is_ok_true|exact Hlen]|].
    by destruct (is_ok err). }
  assert (Hother : forall (op : machine_call esp_err_t), (forall x h, note_machine op x h = changed (is_ok x) h) ->
    machine_demand op = (ARGUS_PERMISSION_REVOKE_MACHINES, false) -> set_permissions = None ->
    safe r (History (Some (ctx, true)) h_reauthenticated h_login h_logged (Some (m, None)) h_outcome h_config None h_reserved h_status None)
      (err ← call (Machine (hc_principal ctx) op); mret (err, zero_credential, 0))
      (fun h' x => let '(err, c, _) := x in exists result, (is_ok err = true -> result = Some true) /\ default false result = is_ok err /\
        (false = true -> is_ok err = true -> co_identifier c = id) /\
        h' = (History (Some (ctx, true)) h_reauthenticated h_login h_logged (Some (m, None)) h_outcome h_config None h_reserved h_status None)
               <| h_audit := Some (m, result) |> <| h_minted := if false && is_ok err then Some c else None |>)).
  { intros op Hn Hd ->. apply safe_call.
    - split; try done; [|by exists m]. eapply authorize; [done|exact Hr|]. cbn [demand_of]. rewrite Hd. split_and!; try done. by apply Hrevoke.
    - intros err _. cbn [note_call]. rewrite Hn. apply safe_ret. exists (Some (is_ok err)). split_and!; try done. by intros ->. }
  destruct set_permissions as [permissions|]; cbn [is_none negb] in Hgrant, Hrevoke.
  - destruct Hperm as [He Hd]; [done|]. rewrite !bool_decide_eq_false_2 by done. destruct Hgrant as [Hre Hh]; [done|]. cbn in Hre. subst.
    apply safe_call; [permit|]. intros [err previous] _. note_cbn. apply safe_ret. exists (Some (is_ok err)). cbn. split_and!; try done. by intros ->.
  - repeat case_match; by apply Hother.
Qed.

Lemma perform_machine_action_safe r ctx id action set_permissions h :
  h_gate h = Some (ctx, true) -> route_admits r ctx true -> quiet h ->
  (bool_decide (action = str "rotate") || negb (is_none set_permissions) = true ->
     h_reauthenticated h = true /\ holds (hc_principal ctx) ARGUS_PERMISSION_ENROLL_MACHINES) ->
  (bool_decide (action = str "rotate") || negb (is_none set_permissions) = false ->
     holds (hc_principal ctx) ARGUS_PERMISSION_REVOKE_MACHINES) ->
  (set_permissions <> None -> action <> str "enable" /\ action <> str "disable") -> (length id < 37)%nat ->
  safe r h (perform_machine_action ctx id action set_permissions) (fun h' x =>
    let '(err, disclose, _) := x in
    h_gate h' = Some (ctx, true) /\ h_sent h' = None /\ h_audit h' = None /\ h_outcome h' = Some (is_ok err) /\
    h_minted h' = disclose /\ (disclose <> None -> err = ESP_OK)).
Proof.
  intros Hg Hr Hq Hgrant Hrevoke Hperm Hlen. destruct Hq as [Hs Ha Hm]. destruct h. cbn in Hg, Hs, Ha, Hm, Hgrant. subst.
  unfold perform_machine_action. apply safe_call; [permit|]. intros [begun m] _. note_cbn. destruct (is_ok begun) eqn:Hb; cbn [negb].
  2: { apply safe_ret. rewrite Hb. by split_and!. }
  eapply safe_use; [eapply machine_action_safe; try done|]. intros h' [[err c] previous] (result & Hres & Hdef & Hid & ->).
  note_cbn. unfold finish_admin_audit.
  destruct (is_ok err) eqn:He.
  - rewrite (Hres eq_refl). apply safe_bind, safe_bind, safe_call; [permit|]. intros d _. note_cbn. apply safe_ret, safe_ret.
    apply safe_bind, safe_call; [permit|]. intros fin _. note_cbn. apply safe_ret. rewrite ?He. apply is_ok_true in He as ->.
    unfold argus_security_http_machine_action_decide. cbn [is_ok negb andb ad_quarantine_rotation ad_disclose_rotation_secret ad_response_error].
    rewrite !andb_true_r. destruct (bool_decide (action = str "rotate")) eqn:Hrot; cbn [andb].
    + destruct (is_ok fin) eqn:Hfin; cbn [negb andb is_ok].
      * apply safe_bind, safe_ret, safe_ret. by split_and!.
      * apply safe_bind, safe_bind, safe_call; [permit|]. intros q _. note_cbn. cbn [mbind option_bind].
        rewrite bool_decide_eq_true_2 by (by apply Hid). apply safe_ret, safe_ret. by split_and!.
    + apply safe_bind, safe_ret, safe_ret. by destruct (is_ok fin).
  - rewrite andb_false_r. apply safe_bind, safe_ret. apply safe_bind, safe_call.
    { split; try done. - eapply authorize; [done|exact Hr|]. split_and!; try done. apply holds_zero.
      - exists result. by rewrite Hdef, ?He. }
    intros fin _. note_cbn. apply safe_ret. unfold argus_security_http_machine_action_decide.
    assert (Hfin : is_ok (if is_ok fin then err else ESP_ERR_INVALID_RESPONSE) = false) by (by destruct (is_ok fin)).
    cbn [ad_quarantine_rotation ad_disclose_rotation_secret ad_response_error]. rewrite ?He, ?andb_false_r. cbn [andb negb].
    apply safe_bind, safe_ret, safe_ret. by split_and!; rewrite ?He.
Qed.

Lemma machine_action_post_safe req :
  safe (route "/api/security/machines/action" HTTP_POST) no_history (machine_action_post req) (fun h _ => finished h).
Proof.
  unfold machine_action_post. apply safe_gate_open; [intros h Hf; apply safe_ret; exact Hf|]. intros ctx.
  walk_once. destruct (argus_security_http_machine_action_body a) as [identifier action set_permissions| |] eqn:Hbody; [|walk|walk].
  remember (bool_decide (action = str "rotate") || negb (is_none set_permissions)) as grants eqn:Hgrants.
  assert (Hperm : set_permissions <> None -> action <> str "enable" /\ action <> str "disable").
  { destruct set_permissions as [p|]; [|done]. intros _. apply machine_body_action in Hbody as ->. done. }
  eapply safe_use with (mid := fun h recent => h = (gated ctx true) <| h_reauthenticated := grants && recent |> /\ (grants = false -> recent = true)).
  { destruct grants; [|by apply safe_ret]. apply safe_last; [permit|]. intros recent _. by destruct recent. }
  intros h recent [-> Hrecent]. note_cbn. destruct recent; [|apply safe_answer; may_send]. cbn [negb].
  destruct (negb grants && _) eqn:Hknown; [apply safe_answer; may_send|]. cbn zeta.
  destruct (bool_decide (argus_authorization_require _ _ = _)) eqn:Hauth; [|apply safe_answer; may_send].
  apply bool_decide_eq_true, require_holds in Hauth. cbn [negb].
  assert (Hr : route_admits (route "/api/security/machines/action" HTTP_POST) ctx true).
  { apply route_admits_any; [vm_compute; reflexivity|vm_compute; reflexivity|]. eapply holds_any; [exact Hauth|by destruct grants|by destruct grants]. }
  eapply safe_use; [apply perform_machine_action_safe; try done; [| |pose proof (strlcpy_length identifier 37); lia]|].
  - rewrite <- Hgrants. intros ->. done.
  - rewrite <- Hgrants. intros ->. done.
  - intros h' [[err disclose] previous] (Hg & Hs & Hau & Ho & Hm & Hd). destruct disclose as [c|].
    + rewrite Hd in * by done. eapply credential_once_safe; try done.
    + clear Hd. destruct h'. cbn in Hg, Hs, Hau, Ho, Hm. subst. destruct err; cbn [is_ok]; walk.
Qed.

(** ** The body that arrives *)

(** The bytes the calls of a trace delivered. *)
Definition delivered (v : http_event) : nat :=
  (match an_call v in http_call X return X -> nat with Recv _ => fun x => Z.to_nat x.1 | _ => fun _ => O end) (an_answer v).
Definition delivered_by (t : list http_event) : nat := foldr (fun v n => (delivered v + n)%nat) O t.

Definition room (v : http_event) : option nat := match an_call v with Recv max_len => Some max_len | _ => None end.

Lemma delivered_app t1 t2 : delivered_by (t1 ++ t2) = (delivered_by t1 + delivered_by t2)%nat.
Proof. induction t1 as [|v t1 IH]; cbn; [done|]. unfold delivered_by in *. cbn. lia. Qed.

(** The loop: a chunk has at least one byte, and never more than the bytes still missing. *)
Lemma recv_loop_bounds content_len missing : forall body t result,
  (length body <= content_len)%nat -> (content_len <= length body + missing)%nat ->
  trace_of (recv_loop true missing content_len body) t result ->
  (length t <= content_len - length body)%nat /\
  (forall t1 v t2, t = t1 ++ v :: t2 -> (length body + delivered_by t1 < content_len)%nat /\
     room v = Some (content_len - (length body + delivered_by t1))%nat) /\
  match result with inr body' => length body' = content_len | inl _ => True end.
Proof.
  induction missing as [|missing IH]; intros body t result Hl Hm Ht; cbn [recv_loop] in Ht.
  { apply trace_ret_inv in Ht as [-> ->]. split_and!; [cbn; lia|by intros [|? ?]|lia]. }
  destruct (Nat.leb_spec content_len (length body)).
  { apply trace_ret_inv in Ht as [-> ->]. split_and!; [cbn; lia|by intros [|? ?]|lia]. }
  apply trace_op_inv in Ht as ([chunk data] & t' & -> & Ht). cbn iota beta in Ht.
  assert (Hfirst : room (Answered (Recv (content_len - length body)) (chunk, data)) = Some (content_len - (length body + 0))%nat)
    by (unfold room; cbn; f_equal; lia).
  destruct (_ || _) eqn:Hc.
  { apply trace_ret_inv in Ht as [-> ->]. split_and!; [cbn; lia| |done]. intros t1 v t2 He.
    destruct t1 as [|? [|]]; try done. injection He as <- <-. cbn [delivered_by foldr]. split; [lia|exact Hfirst]. }
  apply orb_false_iff in Hc as [H1 H2]. cbn [andb] in H2. apply Z.leb_gt in H1. apply Z.ltb_ge in H2.
  assert (Hn : length (body ++ arrived chunk data) = (length body + Z.to_nat chunk)%nat)
    by (unfold arrived; by rewrite length_app, chars_length).
  destruct (IH (body ++ arrived chunk data) t' result) as (Ht' & Hr & Hb); [lia|lia|exact Ht|].
  split_and!; [cbn [length]; lia| |exact Hb]. intros t1 v t2 He. destruct t1 as [|w t1].
  { injection He as <- <-. cbn [delivered_by foldr]. split; [lia|exact Hfirst]. }
  injection He as <- ->. destruct (Hr t1 v t2 eq_refl) as [Hlt Hroom]. rewrite Hn in Hlt, Hroom.
  cbn [delivered_by foldr]. fold (delivered_by t1). change (delivered _) with (Z.to_nat chunk).
  rewrite Nat.add_assoc. by split.
Qed.

(** Reading a request body stays in its buffer and ends: the body of [receive_object] is
    asked for in at most [content_len] calls, each for exactly the bytes still missing, so
    that nothing is stored beyond [content_len], which is below the 1024 bytes of the
    buffer; and what is handed to the JSON parser has exactly that length. *)
Theorem receive_within_buffer req t root : trace_of (receive_object req) t root ->
  (forall t1 v t2 max_len, t = t1 ++ v :: t2 -> room v = Some max_len ->
     (max_len + delivered_by t1 = rq_content_len req)%nat /\ (rq_content_len req < SECURITY_BODY_MAX)%nat /\
     (length t1 < rq_content_len req)%nat) /\
  (forall text answer, Answered (ParseJson text) answer ∈ t -> length text = rq_content_len req).
Proof.
  unfold receive_object. destruct (_ =? _)%nat eqn:H0.
  { intros Ht. apply trace_ret_inv in Ht as [-> ->]. split; [by intros [|? ?]|]. intros text answer H; by apply elem_of_nil in H. }
  destruct (Nat.leb_spec SECURITY_BODY_MAX (rq_content_len req)) as [Hbig|Hfits]; intros Ht.
  { apply trace_op_inv in Ht as (x & t' & -> & Ht). apply trace_ret_inv in Ht as [-> ->]. split.
    - intros t1 v t2 n He Hr. destruct t1 as [|? [|]]; try done. injection He as <- <-. done.
    - intros text answer H. apply list_elem_of_singleton in H. discriminate. }
  apply trace_bind_inv in Ht as (t1 & received & t2 & -> & H1 & H2).
  apply recv_loop_bounds in H1 as (Hlen & Hrooms & Hbody); [|cbn; lia|cbn; lia]. cbn [length Nat.add] in *.
  assert (Htail : forall v, v ∈ t2 -> room v = None /\ forall text answer, v = Answered (ParseJson text) answer -> length text = rq_content_len req).
  { destruct received as [e|body]; apply trace_op_inv in H2 as (x & t' & -> & H2); apply trace_ret_inv in H2 as [-> _];
      intros v Hv; apply list_elem_of_singleton in Hv as ->; (split; [done|]); intros text answer He; [discriminate|].
    by injection He as -> _. }
  split.
  - intros u1 v u2 n He Hr. destruct (decide (length u1 < length t1)%nat) as [Hin|Hout].
    + destruct (app_eq_inv _ _ _ _ He) as [(k & Hk1 & Hk2)|(k & Hk1 & Hk2)].
      * destruct k as [|w k]; [rewrite app_nil_r in Hk1; subst; lia|]. injection Hk2 as <- ->. destruct (Hrooms u1 v k Hk1) as [Hlt Hroom].
        rewrite Hr in Hroom. injection Hroom as ->. lia.
      * subst. rewrite length_app in Hin. lia.
    + assert (Hv : v ∈ t2).
      { assert (Hv : (t1 ++ t2) !! length u1 = Some v) by (by rewrite He, list_lookup_middle).
        rewrite lookup_app_r in Hv by lia. by apply list_elem_of_lookup_2 in Hv. }
      destruct (Htail v Hv) as [Hv' _]. by rewrite Hr in Hv'.
  - intros text answer Hin. apply elem_of_app in Hin as [Hin|Hin].
    + apply list_elem_of_split in Hin as (u1 & u2 & ->). destruct (Hrooms u1 _ u2 eq_refl) as [_ Hroom]. done.
    + by destruct (Htail _ Hin) as [_ Hp]; eapply Hp.
Qed.

(** ** The transition over time *)

(** What the handlers and the timer do to a transition. *)
Inductive transition_event := EvPrepare | EvCancel | EvArm | EvCallback.

(** The next state, and whether the event took effect. *)
Definition transition_step (t : argus_security_transition_t) (e : transition_event) : bool * argus_security_transition_t :=
  match e with
  | EvPrepare => let '(err, t') := argus_security_transition_prepare t in (is_ok err, t')
  | EvCancel => (true, argus_security_transition_cancel t)
  | EvArm => if may_respond t then (true, mark_armed t) else (false, t)
  | EvCallback => argus_security_transition_claim_callback t
  end.

(** The state, with how often it was armed and how often a callback was carried out. *)
Fixpoint transition_run (t : argus_security_transition_t) (es : list transition_event) : argus_security_transition_t * nat * nat :=
  match es with
  | [] => (t, O, O)
  | e :: es =>
      let '(effect, t) := transition_step t e in
      let '(t, arms, fires) := transition_run t es in
      match e with
      | EvArm => (t, (Nat.b2n effect + arms)%nat, fires)
      | EvCallback => (t, arms, (Nat.b2n effect + fires)%nat)
      | _ => (t, arms, fires)
      end
  end.

Definition transition_inv (t : argus_security_transition_t) : Prop :=
  ts_resource_ready t = true /\ ts_reserved t && ts_armed t = false /\ ts_armed t && ts_callback_claimed t = false
  /\ ts_reserved t && ts_callback_claimed t = false.

Lemma transition_run_inv es : forall t, transition_inv t ->
  let '(t', arms, fires) := transition_run t es in
  transition_inv t' /\ (fires + Nat.b2n (ts_armed t') = Nat.b2n (ts_armed t) + arms)%nat.
Proof.
  induction es as [|e es IH]; intros t Ht; cbn [transition_run]; [split; [done|lia]|].
  destruct (transition_step t e) as [effect t1] eqn:He.
  assert (Hs : transition_inv t1 /\ (Nat.b2n (ts_armed t1) + match e with EvCallback => Nat.b2n effect | _ => 0 end
                 = Nat.b2n (ts_armed t) + match e with EvArm => Nat.b2n effect | _ => 0 end)%nat).
  { destruct t as [ready reserved armed claimed], Ht as (Hr & H1 & H2 & H3). cbn in Hr, H1, H2, H3. subst ready.
    destruct e, reserved, armed, claimed; try discriminate; cbn in He; injection He as <- <-; by split. }
  destruct Hs as [Hs Hn]. specialize (IH t1 Hs). destruct (transition_run t1 es) as [[t' arms] fires], IH as [Hi Hc].
  destruct e; (split; [exact Hi|lia]).
Qed.

(** The transition behind a response fires exactly once: whatever the handlers and the
    timer do to it, and in whatever order, its callback is carried out once for each time it
    was armed, the last time possibly still to come; when it is armed the next callback is
    carried out, and while a handler holds it reserved none is. *)
Theorem transition_fires_once es :
  let '(t, arms, fires) := transition_run (argus_security_transition_set_resource_ready zero_transition true) es in
  (fires + Nat.b2n (ts_armed t) = arms)%nat /\
  (argus_security_transition_claim_callback t).1 = ts_armed t /\
  (ts_reserved t = true -> (argus_security_transition_claim_callback t).1 = false).
Proof.
  pose proof (transition_run_inv es (argus_security_transition_set_resource_ready zero_transition true) ltac:(by split)) as H.
  destruct (transition_run _ es) as [[t arms] fires], H as [(Hr & H1 & H2 & H3) Hn]. cbn in Hn. split; [exact Hn|].
  destruct t as [ready reserved armed claimed]. cbn in H1, H2, H3. unfold argus_security_transition_claim_callback. cbn.
  by destruct reserved, armed, claimed.
Qed.

(** The timer is started before the transition is marked as armed: a callback in between
    finds nothing to do, and the transition stays armed for good, refusing the next one. *)
Lemma early_callback_strands :
  let '(t, arms, fires) := transition_run (argus_security_transition_set_resource_ready zero_transition true)
                             [EvPrepare; EvCallback; EvArm] in
  fires = 0%nat /\ ts_armed t = true /\ (argus_security_transition_prepare t).1 = ESP_ERR_NOT_FINISHED.
Proof. by split_and!. Qed.

(** A request of 18 bytes that arrives in two chunks, and is not JSON. *)
Definition two_chunks : list http_event :=
  let text := str "{" ++ quoted (str "action") ++ str ":" ++ quoted (str "enabl") in
  [Answered (Recv 18) (17, text); Answered (Recv 1) (1, str "}"); Answered (ParseJson (text ++ str "}")) None].

Lemma receive_within_buffer_witness :
  let req := HttpdReq HTTP_POST 18 in
  trace_of (receive_object req) two_chunks None /\
  (forall t1 v t2 max_len, two_chunks = t1 ++ v :: t2 -> room v = Some max_len ->
     (max_len + delivered_by t1 = 18)%nat /\ (18 < SECURITY_BODY_MAX)%nat /\ (length t1 < 18)%nat) /\
  (forall text answer, Answered (ParseJson text) answer ∈ two_chunks -> length text = 18%nat).
Proof.
  assert (Ht : trace_of (receive_object (HttpdReq HTTP_POST 18)) two_chunks None).
  { apply trace_op, trace_op, trace_op, trace_ret. }
  exact (conj Ht (receive_within_buffer (HttpdReq HTTP_POST 18) two_chunks None Ht)).
Defined.
