(* ===== verification/BrowserEndpoint.v ===== *)
(** * The browser command endpoint

    [src/main/argus_browser_command_endpoint.c]: the bounded reception of a command's body,
    what becomes of a request whose body did not arrive, the admission of a decoded command
    against the network mode and the authority in force, its dispatch, and the response. *)

From S2P Require Import Prelude StateMgr CmdParser Authority NetLink ServicePolicy BrowserCommand MqttDecode HttpAccess JsonBody Storage HttpCalls SecurityHttp.

Definition ARGUS_BROWSER_BODY_RECV_TIMEOUT : Z := -1000.

Inductive argus_browser_body_receive_result_t :=
| ARGUS_BROWSER_BODY_RECEIVE_OK
| ARGUS_BROWSER_BODY_RECEIVE_EMPTY
| ARGUS_BROWSER_BODY_RECEIVE_TOO_LARGE
| ARGUS_BROWSER_BODY_RECEIVE_TRUNCATED
| ARGUS_BROWSER_BODY_RECEIVE_TIMEOUT
| ARGUS_BROWSER_BODY_RECEIVE_ERROR
| ARGUS_BROWSER_BODY_RECEIVE_INVALID_ARGUMENT.

Inductive argus_browser_command_endpoint_result_t :=
| ARGUS_BROWSER_ENDPOINT_OK
| ARGUS_BROWSER_ENDPOINT_UNAUTHORIZED
| ARGUS_BROWSER_ENDPOINT_BAD_REQUEST
| ARGUS_BROWSER_ENDPOINT_FORBIDDEN
| ARGUS_BROWSER_ENDPOINT_CONFLICT
| ARGUS_BROWSER_ENDPOINT_INTERNAL_ERROR.

Record argus_browser_command_receive_disposition_t := BrowserDisposition {
  bd_continue_request : bool;
  bd_close_session : bool;
  bd_response_result : argus_browser_command_endpoint_result_t;
  bd_handler_result_after_response : esp_err_t
}.

(** [HTTPD_SOCK_ERR_TIMEOUT] of the HTTP server, and the adapters' translation of it. *)
Definition HTTPD_SOCK_ERR_TIMEOUT : Z := -3.
Definition command_body_recv (received : Z) : Z :=
  if received =? HTTPD_SOCK_ERR_TIMEOUT then ARGUS_BROWSER_BODY_RECV_TIMEOUT else received.

(** What a chunk that ends the loop means. *)
Definition chunk_verdict (chunk : Z) : argus_browser_body_receive_result_t :=
  if chunk =? ARGUS_BROWSER_BODY_RECV_TIMEOUT then ARGUS_BROWSER_BODY_RECEIVE_TIMEOUT
  else if chunk =? 0 then ARGUS_BROWSER_BODY_RECEIVE_TRUNCATED
  else ARGUS_BROWSER_BODY_RECEIVE_ERROR.

(** The verdict and the body, over the calls of [command_body_recv]. *)
Definition argus_browser_command_receive_body (content_len out_capacity : nat)
    : handler (argus_browser_body_receive_result_t * bytes) :=
  if (content_len =? 0)%nat then mret (ARGUS_BROWSER_BODY_RECEIVE_EMPTY, [])
  else if (ARGUS_BROWSER_COMMAND_MAX_BODY_LEN <? content_len)%nat then mret (ARGUS_BROWSER_BODY_RECEIVE_TOO_LARGE, [])
  else if (out_capacity <? content_len)%nat then mret (ARGUS_BROWSER_BODY_RECEIVE_INVALID_ARGUMENT, [])
  else
    received ← recv_loop true content_len content_len [];
    mret (match received with
          | inl chunk => (chunk_verdict (command_body_recv chunk), [])
          | inr body => (ARGUS_BROWSER_BODY_RECEIVE_OK, body)
          end).

Definition argus_browser_command_receive_disposition (receive_result : argus_browser_body_receive_result_t)
    : argus_browser_command_receive_disposition_t :=
  match receive_result with
  | ARGUS_BROWSER_BODY_RECEIVE_OK => BrowserDisposition true false ARGUS_BROWSER_ENDPOINT_OK ESP_OK
  | ARGUS_BROWSER_BODY_RECEIVE_EMPTY => BrowserDisposition false false ARGUS_BROWSER_ENDPOINT_BAD_REQUEST ESP_OK
  | ARGUS_BROWSER_BODY_RECEIVE_TOO_LARGE
  | ARGUS_BROWSER_BODY_RECEIVE_TRUNCATED
  | ARGUS_BROWSER_BODY_RECEIVE_TIMEOUT
  | ARGUS_BROWSER_BODY_RECEIVE_ERROR => BrowserDisposition false true ARGUS_BROWSER_ENDPOINT_BAD_REQUEST ESP_FAIL
  | ARGUS_BROWSER_BODY_RECEIVE_INVALID_ARGUMENT =>
      BrowserDisposition false true ARGUS_BROWSER_ENDPOINT_INTERNAL_ERROR ESP_FAIL
  end.

(** The operations the endpoint is given. *)
Record argus_browser_command_endpoint_ops_t := EndpointOps {
  get_network_snapshot : handler (esp_err_t * argus_net_snapshot_t);
  get_authority_snapshot : handler (esp_err_t * argus_authority_snapshot_t);
  dispatch : argus_command_envelope_t -> handler esp_err_t
}.

Record argus_browser_command_endpoint_outcome_t := EndpointOutcome {
  eo_result : argus_browser_command_endpoint_result_t;
  eo_decode_result : argus_browser_command_decode_result_t;
  eo_operation_error : esp_err_t;
  eo_envelope : option argus_command_envelope_t
}.

(** The authority a browser command is dispatched under. *)
Definition browser_holds_service (authority : argus_authority_snapshot_t) : bool :=
  bool_decide (as_mode authority = ARGUS_AUTHORITY_LOCAL_SERVICE)
  && bool_decide (as_owner authority = ARGUS_AUTH_OWNER_BROWSER).

(** The error the dispatcher returned, for the browser. *)
Definition dispatched_result (err : esp_err_t) : argus_browser_command_endpoint_result_t :=
  match err with
  | ESP_OK => ARGUS_BROWSER_ENDPOINT_OK
  | ESP_ERR_INVALID_STATE | ESP_ERR_INVALID_ARG => ARGUS_BROWSER_ENDPOINT_CONFLICT
  | _ => ARGUS_BROWSER_ENDPOINT_INTERNAL_ERROR
  end.

(** The decoder ends on every body. *)
Definition decode_request (body : bytes) : argus_browser_command_decode_result_t * argus_browser_command_request_t :=
  default (ARGUS_BROWSER_CMD_DECODE_INVALID_ARGUMENT, invalidate_request) (argus_browser_command_decode body).

(** The outcome; its result is what the function returns. *)
Definition argus_browser_command_endpoint_process (authenticated : bool) (body : bytes)
    (ops : option argus_browser_command_endpoint_ops_t) : handler argus_browser_command_endpoint_outcome_t :=
  let reset := EndpointOutcome ARGUS_BROWSER_ENDPOINT_INTERNAL_ERROR ARGUS_BROWSER_CMD_DECODE_INVALID_ARGUMENT ESP_OK None in
  if negb authenticated then mret (EndpointOutcome ARGUS_BROWSER_ENDPOINT_UNAUTHORIZED (eo_decode_result reset) ESP_OK None)
  else
    match ops with
    | None => mret reset
    | Some ops =>
        let '(decode_result, request) := decode_request body in
        match decode_result, br_is_valid request, br_command_type request with
        | ARGUS_BROWSER_CMD_DECODE_OK, true, Some command_type =>
            let ended result err envelope := mret (EndpointOutcome result decode_result err envelope) in
            n ← get_network_snapshot ops;
            let '(err, net_snapshot) := n in
            if negb (is_ok err) then ended ARGUS_BROWSER_ENDPOINT_INTERNAL_ERROR err None
            else if negb (bool_decide (sn_mode net_snapshot = ARGUS_NET_MODE_SERVICE_AP_ONLY))
            then ended ARGUS_BROWSER_ENDPOINT_FORBIDDEN ESP_OK None
            else
              a ← get_authority_snapshot ops;
              let '(err, authority_snapshot) := a in
              if negb (is_ok err) then ended ARGUS_BROWSER_ENDPOINT_INTERNAL_ERROR err None
              else if negb (browser_holds_service authority_snapshot) then ended ARGUS_BROWSER_ENDPOINT_FORBIDDEN ESP_OK None
              else
                let envelope := Envelope ARGUS_CMD_SRC_LOCAL_SERVICE_PORTAL command_type (as_generation authority_snapshot)
                                  (br_target_rpm_milli request) (br_forward request) in
                err ← dispatch ops envelope;
                ended (dispatched_result err) err (Some envelope)
        | _, _, _ => mret (EndpointOutcome ARGUS_BROWSER_ENDPOINT_BAD_REQUEST decode_result ESP_OK None)
        end
    end.

(** The status line and the body. *)
Definition argus_browser_command_response_for (result : argus_browser_command_endpoint_result_t) : bytes * bytes :=
  match result with
  | ARGUS_BROWSER_ENDPOINT_OK =>
      (str "200 OK", json_object [(str "ok", str "true"); (str "status", quoted (str "accepted"))])
  | ARGUS_BROWSER_ENDPOINT_UNAUTHORIZED => (str "401 Unauthorized", error_body (str "unauthorized"))
  | ARGUS_BROWSER_ENDPOINT_BAD_REQUEST => (str "400 Bad Request", error_body (str "invalid_request"))
  | ARGUS_BROWSER_ENDPOINT_FORBIDDEN => (str "403 Forbidden", error_body (str "command_not_admitted"))
  | ARGUS_BROWSER_ENDPOINT_CONFLICT => (str "409 Conflict", error_body (str "command_conflict"))
  | ARGUS_BROWSER_ENDPOINT_INTERNAL_ERROR => (str "500 Internal Server Error", error_body (str "internal_error"))
  end.
