(* ===== verification/HttpServer.v ===== *)
(** * The service portal

    [src/main/argus_http_server.c]: the pages, the status and identity documents, the
    configuration, login and sessions, passwords, service entry and exit, commands and the
    factory reset, with the routes they are registered under and the life of the server.
    The pages' texts, the error names of the platform and the numbers of the Wi-Fi driver's
    disconnect reasons are not code under [src/] and are parameters. *)

From S2P Require Import Prelude StateMgr CmdParser Authority Authorization MqttDecode SecurityRecords SecurityStore Sessions AuthService AuditLog UserAdmin ConfigStore NetLink ServicePolicy NetManager FactoryReset BrowserCommand HttpAccess HttpRoutes JsonBody Storage HttpCalls SecurityHttp BrowserEndpoint.

(** ** Escaping

    [json_escape] into [dst_size] bytes: [used] of them are taken. *)
Fixpoint json_escape_loop (dst_size used : nat) (src : bytes) : bytes :=
  match src with
  | [] => []
  | c :: src =>
      if (dst_size - 2 <=? used)%nat then []
      else if (c =? 34) || (c =? 92) then
        if (dst_size - 1 <=? used + 2)%nat then [] else 92 :: c :: json_escape_loop dst_size (S (S used)) src
      else if c <? 32 then 32 :: json_escape_loop dst_size (S used) src
      else c :: json_escape_loop dst_size (S used) src
  end.

(** The text in the destination. *)
Definition json_escape (src : bytes) (dst_size : nat) : bytes :=
  if (dst_size <? 2)%nat then [] else json_escape_loop dst_size 0 src.

(** ** Documents *)

Definition boolean (b : bool) : bytes := if b then str "true" else str "false".

(** [PRId32] *)
Definition signed (n : Z) : bytes := if n <? 0 then 45 :: decimal (- n) else decimal n.

Definition ARGUS_MACHINE_STATUS_JSON_MAX : nat := 512.
Definition REJECTION_REASON_SIZE : nat := 64.

(** The document, when it fits. *)
Definition format_machine_status_json (snapshot : argus_state_snapshot_t) (out_size : nat) : option bytes :=
  let document := json_object
    [(str "state", quoted (argus_state_mgr_get_state_name (ss_machine_state snapshot)));
     (str "target_rpm_milli", signed (ss_configured_target_rpm_milli snapshot));
     (str "applied_rpm_milli", signed (ss_applied_rpm_milli snapshot));
     (str "generated_rpm_milli", signed (ss_generated_rpm_milli snapshot));
     (str "requested_forward", boolean (ss_requested_forward snapshot));
     (str "applied_forward", boolean (ss_applied_forward snapshot));
     (str "driver_enabled", boolean (ss_driver_enabled snapshot));
     (str "estop_latched", boolean (ss_estop_latched snapshot));
     (str "ramp_active", boolean (ss_ramp_active snapshot));
     (str "fault_code", decimal (ss_fault_code snapshot));
     (str "command_generation", decimal (ss_command_generation snapshot));
     (str "feedback_available", boolean (ss_feedback_available snapshot));
     (str "last_rejection_reason",
      quoted (json_escape (ss_last_rejection_reason snapshot) (REJECTION_REASON_SIZE * 2 + 1)))] in
  if (length document <? out_size)%nat then Some document else None.

Definition timer_cancel_failure (net : argus_net_snapshot_t) : bytes :=
  match sn_last_service_cancel_failure net with
  | ARGUS_SERVICE_CANCEL_FAILURE_RETRY_TIMER => str "AUTO_RETRY_TIMER_STOP"
  | ARGUS_SERVICE_CANCEL_FAILURE_IP_TIMER => str "IP_TIMEOUT_TIMER_STOP"
  | ARGUS_SERVICE_CANCEL_FAILURE_NONE => str "NONE"
  end.

Definition apply_in_progress (state : argus_wifi_apply_state_t) : bool :=
  match state with
  | ARGUS_WIFI_APPLY_PREPARING | ARGUS_WIFI_APPLY_WAITING_DISCONNECT | ARGUS_WIFI_APPLY_APPLYING_CONFIG
  | ARGUS_WIFI_APPLY_CONNECTING => true
  | _ => false
  end.

Definition operator_guidance (net : argus_net_snapshot_t) : bytes :=
  match sn_last_service_cancel_failure net with
  | ARGUS_SERVICE_CANCEL_FAILURE_RETRY_TIMER | ARGUS_SERVICE_CANCEL_FAILURE_IP_TIMER =>
      argus_net_service_cancel_guidance (sn_last_service_cancel_failure net)
  | ARGUS_SERVICE_CANCEL_FAILURE_NONE =>
      if apply_in_progress (sn_apply_state net)
      then str "Wi-Fi recovery in progress; previous failure is retained until recovery succeeds."
      else if sn_action_required net then str "Operator action required: Check Wi-Fi SSID and password."
      else match sn_sta_state net with
           | ARGUS_STA_RETRY_WAIT => str "Connection lost. Retrying automatically..."
           | ARGUS_STA_DISABLED => str "Wi-Fi client is disabled."
           | _ => str "No network issues detected."
           end
  end.

Definition category_name (category : argus_disconnect_category_t) : bytes :=
  match category with
  | ARGUS_DISCONNECT_CAT_AUTHENTICATION => str "AUTHENTICATION"
  | ARGUS_DISCONNECT_CAT_AP_UNAVAILABLE => str "AP_UNAVAILABLE"
  | ARGUS_DISCONNECT_CAT_IP_TIMEOUT => str "IP_TIMEOUT"
  | ARGUS_DISCONNECT_CAT_UNKNOWN => str "UNKNOWN"
  | ARGUS_DISCONNECT_CAT_NONE => str "NONE"
  end.

Definition disconnect_reason_name (net : argus_net_snapshot_t) : bytes :=
  if bool_decide (sn_last_disconnect_reason net = REASON_NONE)
     && bool_decide (sn_last_disconnect_category net = ARGUS_DISCONNECT_CAT_IP_TIMEOUT)
  then str "IP_ACQUISITION_TIMEOUT"
  else (argus_net_classify_disconnect (sn_last_disconnect_reason net)).1.

(** ** Responses *)

Definition respond (status body : bytes) : handler esp_err_t := call (SetStatus status) ;; call (Send body).

(** The response's own error is dropped. *)
Definition responded (status body : bytes) : handler esp_err_t := respond status body ;; mret ESP_OK.
Definition sent (body : bytes) : handler esp_err_t := call (Send body) ;; mret ESP_OK.

Definition error_object (error : bytes) : bytes := json_object [(str "error", quoted error)].

(** [snprintf] into [size] bytes. *)
Definition formatted (size : nat) (text : bytes) : bytes := strlcpy text size.

Definition redirect (location : bytes) : handler esp_err_t :=
  set_security_headers true ;; call (SetStatus (str "302 Found")) ;; call (SetHeader (str "Location") location) ;; call (Send []).

Definition send_method_not_allowed : handler esp_err_t :=
  call (SetStatus (str "405 Method Not Allowed")) ;; call (SetHeader (str "Allow") (str "GET")) ;;
  call (SetType (str "text/plain")) ;; sent (str "Method Not Allowed").

Definition require_page_access (capability : Z) : handler (option argus_http_security_context_t) :=
  r ← call (Require capability false);
  let '(result, security) := r in
  match result with
  | ARGUS_HTTP_ACCESS_OK => mret (Some security)
  | ARGUS_HTTP_ACCESS_UNAUTHENTICATED => redirect (str "/login") ;; mret None
  | _ => send_error result ;; mret None
  end.

(** A linked page without its terminator. *)
Definition page (text : bytes) : bytes := match last text with Some 0 => removelast text | _ => text end.

Definition is_method (m : httpd_method_t) (req : httpd_req_t) : bool := bool_decide (rq_method req = m).

(** ** Bodies *)

Inductive recv_body_result := RECV_BODY_REJECTED | RECV_BODY_CLOSE_SESSION | RecvBody (body : bytes).

(** The body, or an error that has been answered. *)
Definition recv_full_body (req : httpd_req_t) (buf_size : nat) : handler recv_body_result :=
  let content_len := rq_content_len req in
  if (content_len =? 0)%nat then respond (str "400 Bad Request") (error_object (str "empty_body")) ;; mret RECV_BODY_REJECTED
  else if (buf_size <=? content_len)%nat
  then respond (str "413 Payload Too Large") (error_object (str "body_too_large")) ;; mret RECV_BODY_CLOSE_SESSION
  else
    received ← recv_loop false content_len content_len [];
    match received with
    | inl ret =>
        (if ret =? HTTPD_SOCK_ERR_TIMEOUT then respond (str "408 Request Timeout") (error_object (str "recv_timeout"))
         else respond (str "400 Bad Request") (error_object (str "recv_failed"))) ;;
        mret RECV_BODY_CLOSE_SESSION
    | inr body => mret (RecvBody body)
    end.

Definition LOGIN_BODY_MAX : nat := 512.

Definition receive_bounded_json (req : httpd_req_t) (capacity : nat) : handler (esp_err_t + bytes) :=
  let content_len := rq_content_len req in
  if (content_len =? 0)%nat then mret (inl ESP_ERR_INVALID_ARG)
  else if (capacity <=? content_len)%nat then
    call (SetHeader (str "Connection") (str "close")) ;; mret (inl ESP_ERR_INVALID_SIZE)
  else
    received ← recv_loop true content_len content_len [];
    match received with
    | inl result =>
        call (SetHeader (str "Connection") (str "close")) ;;
        mret (inl (if result =? HTTPD_SOCK_ERR_TIMEOUT then ESP_ERR_TIMEOUT else ESP_FAIL))
    | inr body => mret (inr body)
    end.

Definition ends_session (receive_err : esp_err_t) : bool :=
  match receive_err with ESP_ERR_TIMEOUT | ESP_FAIL => true | _ => false end.

(** The answer of the password handlers when the body did not arrive. *)
Definition bad_body (receive_err : esp_err_t) : handler esp_err_t :=
  err ← respond (str "400 Bad Request") (error_body (str "invalid_request"));
  mret (if ends_session receive_err then ESP_FAIL else err).

Section Portal.
Context (esp_err_to_name : esp_err_t -> bytes) (wifi_reason_code : wifi_reason_t -> Z).
Context (argus_login_html argus_controls_html argus_commission_html : bytes).

(** ** Status and identity *)

Definition status_json (machine_json : bytes) (net : argus_net_snapshot_t) (auth : argus_authority_snapshot_t)
    (service_policy : argus_svc_policy_result_t) (broker : esp_err_t + Z) : bytes :=
  json_object
    [(str "machine", machine_json);
     (str "authority", json_object
        [(str "mode", quoted (argus_authority_mgr_get_mode_name (as_mode auth)));
         (str "owner", quoted (argus_authority_mgr_get_owner_name (as_owner auth)));
         (str "generation", decimal (as_generation auth))]);
     (str "network", json_object
        [(str "mode", quoted (argus_net_mgr_get_mode_name (sn_mode net)));
         (str "sta_connected", boolean (sn_sta_connected net));
         (str "sta_ip_acquired", boolean (sn_sta_ip_acquired net));
         (str "ap_started", boolean (sn_ap_started net));
         (str "sta_ip_address", quoted (sn_sta_ip_address net));
         (str "sta_state", quoted (argus_net_mgr_get_sta_state_name (sn_sta_state net)));
         (str "recovery_state", quoted (argus_net_mgr_get_wifi_apply_state_name (sn_apply_state net)));
         (str "last_error_category", quoted (category_name (sn_last_disconnect_category net)));
         (str "last_disconnect_reason_name", quoted (disconnect_reason_name net));
         (str "last_disconnect_reason_code", decimal (wifi_reason_code (sn_last_disconnect_reason net)));
         (str "retry_count", decimal (sn_consecutive_failures net));
         (str "seconds_until_retry", decimal (sn_seconds_until_retry net));
         (str "manual_reconnect_permitted", boolean (sn_manual_reconnect_permitted net));
         (str "service_entry_permitted", boolean (bool_decide (service_policy = ARGUS_SVC_POLICY_OK)));
         (str "factory_reset_pending", boolean (sn_factory_reset_pending net));
         (str "operator_action_required", boolean (sn_action_required net));
         (str "timer_cancel_failure", quoted (timer_cancel_failure net));
         (str "timer_cancel_error", quoted (esp_err_to_name (sn_last_service_cancel_error net)));
         (str "operator_guidance", quoted (operator_guidance net))]);
     (str "broker", json_object
        [(str "running", boolean (sn_mqtt_broker_running net)); (str "stopped", boolean (sn_mqtt_broker_stopped net));
         (str "active_clients", signed (match broker with inr clients => clients | inl _ => 0 end));
         (str "observable", boolean (match broker with inr _ => true | inl _ => false end))]);
     (str "commissioned", boolean (sn_commissioned net))].

Definition status_get_handler (req : httpd_req_t) : handler esp_err_t :=
  access ← require_access ARGUS_PERMISSION_VIEW_STATUS false;
  match access with
  | None => mret ESP_OK
  | Some _ =>
      if negb (is_method HTTP_GET req) then send_method_not_allowed
      else
        set_security_headers false ;;
        state ← call StateSnapshotOf;
        service ← call EvaluateServiceEntry;
        match service with
        | inl _ => responded (str "500 Internal Server Error") (error_object (str "service policy snapshot failed"))
        | inr (net, auth, _, service_policy) =>
            broker ← call BrokerObs;
            match format_machine_status_json state ARGUS_MACHINE_STATUS_JSON_MAX with
            | None => responded (str "500 Internal Server Error") (error_object (str "machine status overflow"))
            | Some machine_json =>
                let document := status_json machine_json net auth service_policy broker in
                if (1792 <=? length document)%nat
                then responded (str "500 Internal Server Error") (error_object (str "response buffer overflow"))
                else sent document
            end
        end
  end.

(** A field of the identity, of at most [size] characters. *)
Definition escaped (size : nat) (text : bytes) : bytes := quoted (json_escape text (size * 2 + 1)).

Definition identity_get_handler (req : httpd_req_t) : handler esp_err_t :=
  access ← require_access ARGUS_PERMISSION_VIEW_STATUS false;
  match access with
  | None => mret ESP_OK
  | Some _ =>
      if negb (is_method HTTP_GET req) then send_method_not_allowed
      else
        set_security_headers false ;;
        identity ← call IdentityOf;
        match identity with
        | inl _ => responded (str "500 Internal Server Error") (error_object (str "identity unavailable"))
        | inr id =>
            let document := json_object
              [(str "hardware_uid", escaped 32 (id_mac_uid id)); (str "client_id", escaped 32 (id_client_id id));
               (str "unit_id", escaped 32 (id_unit_id id)); (str "device_name", escaped 64 (id_device_name id));
               (str "device_model", escaped 32 (id_device_model id)); (str "firmware_version", escaped 64 (id_fw_version id));
               (str "service_ssid", escaped 32 (id_service_ssid id))] in
            if (512 <=? length document)%nat
            then responded (str "500 Internal Server Error") (error_object (str "response buffer overflow"))
            else sent document
        end
  end.

(** ** Pages *)

(** The retired pages: a redirect for those who may see them. *)
Definition page_alias (capability : Z) (location : bytes) (req : httpd_req_t) : handler esp_err_t :=
  access ← require_page_access capability;
  match access with
  | None => mret ESP_OK
  | Some _ => if negb (is_method HTTP_GET req) then send_method_not_allowed else redirect location
  end.

Definition change_password_handler : httpd_req_t -> handler esp_err_t := page_alias 0 (str "/commission").
Definition identity_page_handler : httpd_req_t -> handler esp_err_t :=
  page_alias ARGUS_PERMISSION_MODIFY_IDENTITY (str "/commission").
Definition wifi_page_handler : httpd_req_t -> handler esp_err_t :=
  page_alias ARGUS_PERMISSION_MANAGE_CLIENT_NETWORK (str "/commission").

Definition portal_get_handler (req : httpd_req_t) : handler esp_err_t :=
  if negb (is_method HTTP_GET req) then send_method_not_allowed
  else
    a ← call ApOnly;
    match a.1 with
    | ARGUS_HTTP_ACCESS_OK =>
        token ← call Cookie;
        authenticated ← match token with
                        | Some token => err ← call (SessionAuthenticate token); mret (is_ok err)
                        | None => mret false
                        end;
        redirect (if (authenticated : bool) then str "/operate" else str "/login")
    | access => send_error access
    end.

Definition controls_get_handler (req : httpd_req_t) : handler esp_err_t :=
  access ← require_page_access ARGUS_PERMISSION_VIEW_STATUS;
  match access with
  | None => mret ESP_OK
  | Some _ =>
      if negb (is_method HTTP_GET req) then send_method_not_allowed
      else set_security_headers true ;; call (Send (page argus_controls_html))
  end.

Definition controls_alias_handler (req : httpd_req_t) : handler esp_err_t :=
  access ← require_page_access ARGUS_PERMISSION_VIEW_STATUS;
  match access with
  | None => mret ESP_OK
  | Some _ => redirect (str "/operate")
  end.

Definition login_get_handler (req : httpd_req_t) : handler esp_err_t :=
  set_security_headers true ;;
  a ← call ApOnly;
  match a.1 with
  | ARGUS_HTTP_ACCESS_OK => call (Send (page argus_login_html))
  | access => send_error access
  end.

Definition any_of (permissions : list Z) : Z := foldr Z.lor 0 permissions.

Definition administration : Z := any_of
  [ARGUS_PERMISSION_MANAGE_USERS; ARGUS_PERMISSION_MANAGE_ROLES; ARGUS_PERMISSION_VIEW_AUDIT;
   ARGUS_PERMISSION_MANAGE_NETWORK; ARGUS_PERMISSION_CHANGE_AP_SECRET; ARGUS_PERMISSION_MANAGE_CLIENT_NETWORK;
   ARGUS_PERMISSION_MODIFY_IDENTITY; ARGUS_PERMISSION_MODIFY_PROTECTED_CONFIG; ARGUS_PERMISSION_COMMISSION;
   ARGUS_PERMISSION_CALIBRATE; ARGUS_PERMISSION_MANAGE_FIRMWARE; ARGUS_PERMISSION_INVOKE_RECOVERY;
   ARGUS_PERMISSION_FULL_SECURITY_RESET].

Definition commission_get_handler (req : httpd_req_t) : handler esp_err_t :=
  access ← require_page_access 0;
  match access with
  | None => mret ESP_OK
  | Some security =>
      if Z.land (pr_permissions (hc_principal security)) administration =? 0 then send_error ARGUS_HTTP_ACCESS_FORBIDDEN
      else set_security_headers true ;; call (Send (page argus_commission_html))
  end.

(** ** The configuration *)

Definition config_readers : Z := any_of
  [ARGUS_PERMISSION_MODIFY_IDENTITY; ARGUS_PERMISSION_MANAGE_CLIENT_NETWORK; ARGUS_PERMISSION_MODIFY_PROTECTED_CONFIG].

Definition config_get_handler (req : httpd_req_t) : handler esp_err_t :=
  access ← require_access 0 false;
  match access with
  | None => mret ESP_OK
  | Some security =>
      if Z.land (pr_permissions (hc_principal security)) config_readers =? 0 then send_error ARGUS_HTTP_ACCESS_FORBIDDEN
      else if negb (is_method HTTP_GET req) then send_method_not_allowed
      else
        set_security_headers false ;;
        effective ← call ConfigEffective;
        match effective with
        | inl _ => responded (str "500 Internal Server Error") (error_object (str "config_read_failed"))
        | inr cfg =>
            let document := json_object
              [(str "client_id", escaped 32 (client_id cfg)); (str "unit_id", escaped 32 (unit_id cfg));
               (str "device_name", escaped 64 (device_name cfg)); (str "sta_ssid", escaped 32 (sta_ssid cfg));
               (str "sta_pass_set", boolean (0 <? length (sta_pass cfg))%nat);
               (str "identity_provisioned", boolean (provisioned (cf_provisioned_flags cfg)))] in
            if (512 <=? length document)%nat
            then responded (str "500 Internal Server Error") (error_object (str "response_overflow"))
            else sent document
        end
  end.

Definition overlay_text (e : overlay_error) : bytes * bytes :=
  match e with
  | identity_locked => (str "identity_locked", str "Identity is locked after initial provisioning")
  | all_identity_fields_required =>
      (str "all_identity_fields_required", str "client_id, unit_id, and device_name are all required")
  | invalid_client_id => (str "invalid_client_id", str "client_id: 1-32 alphanumeric, hyphens, or underscores")
  | invalid_unit_id => (str "invalid_unit_id", str "unit_id: 1-32 alphanumeric, hyphens, or underscores")
  | invalid_device_name => (str "invalid_device_name", str "device_name: 1-64 printable ASCII characters")
  | sta_ssid_required => (str "sta_ssid_required", str "sta_ssid field is required for WiFi scope")
  | mask_string_not_accepted => (str "mask_string_not_accepted", str "Cannot use the mask string as a password")
  | password_required_for_new_ssid =>
      (str "password_required_for_new_ssid", str "Password is required when changing the WiFi network")
  | invalid_scope => (str "invalid_scope", str "scope must be identity or wifi")
  end.

(** A refused overlay: 400, then 403 when the identity is locked. *)
Definition overlay_refused (e : overlay_error) : handler esp_err_t :=
  let '(error_code, error_message) := overlay_text e in
  call (SetStatus (str "400 Bad Request")) ;;
  (match e with identity_locked => call (SetStatus (str "403 Forbidden")) | _ => mret tt end) ;;
  sent (formatted 256 (json_object [(str "error", quoted error_code); (str "message", quoted error_message)])).

Definition configuration_mode (mode : argus_network_mode_t) : bool :=
  match mode with
  | ARGUS_NET_MODE_UNCOMMISSIONED_AP | ARGUS_NET_MODE_SERVICE_AP_ONLY | ARGUS_NET_MODE_AP_DISCOVERABLE => true
  | _ => false
  end.

Definition scope_permission (scope : argus_config_scope_t) : Z :=
  match scope with
  | ARGUS_CONFIG_SCOPE_IDENTITY => ARGUS_PERMISSION_MODIFY_IDENTITY
  | _ => ARGUS_PERMISSION_MANAGE_CLIENT_NETWORK
  end.

Definition saved (restart_required apply_queued : bool) (message : list (bytes * bytes)) : handler esp_err_t :=
  sent (json_object ([(str "status", quoted (str "saved")); (str "restart_required", boolean restart_required);
                      (str "apply_queued", boolean apply_queued)] ++ message)).

(** After the commit: the network is applied at once, outside of Local Service. *)
Definition config_saved (scope : argus_config_scope_t) (mode : argus_network_mode_t) : handler esp_err_t :=
  let message text := [(str "message", quoted (str text))] in
  match scope with
  | ARGUS_CONFIG_SCOPE_WIFI =>
      if bool_decide (mode = ARGUS_NET_MODE_SERVICE_AP_ONLY) then
        saved true false (message "Wi-Fi configuration saved. Runtime apply is suppressed during Local Service; exit service to restart with the new configuration.")
      else
        post_err ← call (PostEvent (plain_event ARGUS_NET_EVT_APPLY_WIFI_CONFIG));
        if is_ok post_err then
          saved false true (message "Wi-Fi configuration saved. Reconnection has started. Remain connected to the Service AP and refresh the dashboard to observe progress.")
        else
          saved true false (message "Configuration saved but runtime apply failed (queue full). Restart required.")
  | _ => saved true false []
  end.

Definition config_save_handler (req : httpd_req_t) : handler esp_err_t :=
  access ← require_access 0 true;
  match access with
  | None => mret ESP_OK
  | Some security =>
      if negb (is_method HTTP_POST req) then send_method_not_allowed
      else
        set_security_headers false ;;
        mode ← call NetMode;
        if negb (configuration_mode mode)
        then responded (str "403 Forbidden") (error_object (str "config_write_not_allowed_in_current_mode"))
        else
          received ← recv_full_body req 512;
          match received with
          | RECV_BODY_CLOSE_SESSION => mret ESP_FAIL
          | RECV_BODY_REJECTED => mret ESP_OK
          | RecvBody body =>
              parsed ← call (ParseJson body);
              match decode_config_request parsed (length body) with
              | None => respond (str "400 Bad Request") (error_object (str "invalid_request"))
              | Some (scope, fields) =>
                  let required := scope_permission scope in
                  if negb (Z.land (pr_permissions (hc_principal security)) required =? required)
                  then send_error ARGUS_HTTP_ACCESS_FORBIDDEN
                  else
                    effective ← call ConfigEffective;
                    match effective with
                    | inl _ => responded (str "500 Internal Server Error") (error_object (str "config_read_failed"))
                    | inr cfg =>
                        match argus_config_overlay_apply cfg scope fields with
                        | inl e => overlay_refused e
                        | inr out_cfg =>
                            err ← call (ConfigValidate out_cfg);
                            if negb (is_ok err) then
                              responded (str "400 Bad Request")
                                (json_object [(str "error", quoted (str "validation_failed"));
                                              (str "message", quoted (str "Combined configuration failed validation"))])
                            else
                              err ← call (ConfigCommit out_cfg);
                              if negb (is_ok err)
                              then responded (str "500 Internal Server Error") (error_object (str "commit_failed"))
                              else config_saved scope mode
                        end
                    end
              end
          end
  end.

(** ** Reconnection and restart *)

Definition reconnect_post_handler (req : httpd_req_t) : handler esp_err_t :=
  access ← require_access ARGUS_PERMISSION_MANAGE_CLIENT_NETWORK true;
  match access with
  | None => mret ESP_OK
  | Some _ =>
      if negb (is_method HTTP_POST req) then send_method_not_allowed
      else
        set_security_headers false ;;
        err ← call ManualReconnect;
        match err with
        | ESP_OK => responded (str "202 Accepted") (json_object [(str "status", quoted (str "accepted"))])
        | ESP_ERR_INVALID_STATE =>
            responded (str "400 Bad Request") (error_object (str "manual reconnect not permitted when uncommissioned"))
        | ESP_ERR_NOT_SUPPORTED => responded (str "409 Conflict") (error_object (str "manual reconnect conflict in current state"))
        | ESP_ERR_NO_MEM => responded (str "503 Service Unavailable") (error_object (str "queue full"))
        | _ => responded (str "500 Internal Server Error") (error_object (str "internal error requesting reconnect"))
        end
  end.

Definition restart_handler (req : httpd_req_t) : handler esp_err_t :=
  access ← require_access ARGUS_PERMISSION_MANAGE_FIRMWARE true;
  match access with
  | None => mret ESP_OK
  | Some _ =>
      if negb (is_method HTTP_POST req) then send_method_not_allowed
      else
        set_security_headers false ;;
        err ← call Restart;
        match err with
        | ESP_ERR_INVALID_STATE =>
            responded (str "409 Conflict")
              (json_object [(str "error", quoted (str "motion_active"));
                            (str "message", quoted (str "Cannot restart while motion is active or machine is in fault state"))])
        | ESP_OK => sent (json_object [(str "status", quoted (str "restart_initiated"))])
        | _ =>
            responded (str "500 Internal Server Error")
              (formatted 128 (json_object [(str "error", quoted (str "restart_failed"));
                                           (str "detail", quoted (esp_err_to_name err))]))
        end
  end.

(** ** Entering and leaving Local Service *)

Definition service_error (details : list (bytes * bytes)) : bytes := json_object ((str "status", quoted (str "error")) :: details).
Definition reason (text : string) : bytes * bytes := (str "reason", quoted (str text)).
Definition code (n : Z) : bytes * bytes := (str "code", decimal n).
#[local] Arguments reason text%_string.

(** The event goes to the network manager, which makes the transition. *)
Definition post_transition (evt : argus_net_event_t) (accepted : bytes) : handler esp_err_t :=
  post_err ← call (PostEvent evt);
  if negb (is_ok post_err) then
    responded (str "503 Service Unavailable")
      (formatted 128 (service_error [code 503; reason "queue_full"; (str "detail", quoted (esp_err_to_name post_err))]))
  else responded (str "202 Accepted") accepted.

Definition service_enter_handler (req : httpd_req_t) : handler esp_err_t :=
  if negb (is_method HTTP_POST req) then responded (str "405 Method Not Allowed") (error_object (str "method_not_allowed"))
  else
    access ← require_access ARGUS_PERMISSION_REQUEST_AUTHORITY true;
    match access with
    | None => mret ESP_OK
    | Some _ =>
        call (SetType (str "application/json")) ;; call (SetHeader (str "Cache-Control") (str "no-store")) ;;
        service ← call EvaluateServiceEntry;
        match service with
        | inl _ => responded (str "500 Internal Server Error") (service_error [reason "snapshot_failed"])
        | inr (net_snap, _, evt, pol) =>
            match pol with
            | ARGUS_SVC_POLICY_IDEMPOTENT =>
                sent (json_object [(str "status", quoted (str "ok")); (str "mode", quoted (str "SERVICE_AP_ONLY"));
                                   (str "owner", quoted (str "BROWSER")); (str "note", quoted (str "already_in_service"))])
            | ARGUS_SVC_POLICY_TRANSITION_IN_PROGRESS =>
                responded (str "409 Conflict") (service_error [code 409; reason "transition_in_progress"])
            | ARGUS_SVC_POLICY_REJECT_MODE =>
                responded (str "409 Conflict")
                  (formatted 160 (service_error [code 409; reason "mode_not_eligible";
                                                 (str "current_mode", quoted (argus_net_mgr_get_mode_name (sn_mode net_snap)))]))
            | ARGUS_SVC_POLICY_OK =>
                post_transition evt
                  (json_object [(str "status", quoted (str "accepted")); (str "action", quoted (str "service_entry_requested"));
                                (str "note", quoted (str "Poll /api/status after reconnecting to verify transition"))])
            | _ => responded (str "403 Forbidden") (service_error [reason "policy_rejected"])
            end
        end
    end.

Definition service_exit_handler (req : httpd_req_t) : handler esp_err_t :=
  if negb (is_method HTTP_POST req) then responded (str "405 Method Not Allowed") (error_object (str "method_not_allowed"))
  else
    access ← require_access ARGUS_PERMISSION_REQUEST_AUTHORITY true;
    match access with
    | None => mret ESP_OK
    | Some _ =>
        call (SetType (str "application/json")) ;; call (SetHeader (str "Cache-Control") (str "no-store")) ;;
        n ← call NetSnapshotOf;
        let '(err, net_snap) := n in
        if negb (is_ok err) then responded (str "500 Internal Server Error") (service_error [reason "snapshot_failed"])
        else
          a ← call AuthoritySnapshotOf;
          match argus_service_policy_evaluate_exit net_snap a.2 with
          | (ARGUS_SVC_POLICY_REJECT_MODE, _) =>
              responded (str "403 Forbidden")
                (formatted 160 (service_error [code 403; reason "not_in_service_mode";
                                               (str "current_mode", quoted (argus_net_mgr_get_mode_name (sn_mode net_snap)))]))
          | (ARGUS_SVC_POLICY_REJECT_AUTHORITY, _) =>
              responded (str "403 Forbidden") (service_error [code 403; reason "not_browser_owner"])
          | (ARGUS_SVC_POLICY_OK, Some evt) =>
              post_transition evt
                (json_object [(str "status", quoted (str "accepted")); (str "action", quoted (str "service_exit_requested"));
                              (str "note", quoted (str "Device will reboot. Reconnect to verify."))])
          | _ => responded (str "403 Forbidden") (service_error [reason "policy_rejected"])
          end
    end.

(** ** Commands *)

Definition command_ops : argus_browser_command_endpoint_ops_t :=
  EndpointOps (call NetSnapshotOf) (call AuthoritySnapshotOf) (fun envelope => call (Dispatch envelope)).

Definition send_command_response (endpoint_result : argus_browser_command_endpoint_result_t) : handler esp_err_t :=
  let '(status_line, json_body) := argus_browser_command_response_for endpoint_result in
  set_security_headers false ;; respond status_line json_body.

Definition command_post_handler (req : httpd_req_t) : handler esp_err_t :=
  set_security_headers false ;;
  access ← require_access 0 true;
  match access with
  | None => mret ESP_OK
  | Some security =>
      r ← argus_browser_command_receive_body (rq_content_len req) ARGUS_BROWSER_COMMAND_MAX_BODY_LEN;
      let '(receive_result, body) := r in
      let disposition := argus_browser_command_receive_disposition receive_result in
      if negb (bd_continue_request disposition) then
        (if bd_close_session disposition then call (SetHeader (str "Connection") (str "close")) else mret tt) ;;
        response_err ← send_command_response (bd_response_result disposition);
        mret (if is_ok response_err then bd_handler_result_after_response disposition else response_err)
      else
        let '(decode_result, decoded) := decode_request body in
        let admitted :=
          match decode_result, br_is_valid decoded, br_command_type decoded with
          | ARGUS_BROWSER_CMD_DECODE_OK, true, Some type =>
              bool_decide (argus_authorization_require (Some (hc_principal security)) (command_capability type) = ARGUS_AUTHZ_ALLOW)
          | _, _, _ => true
          end in
        if negb admitted then send_error ARGUS_HTTP_ACCESS_FORBIDDEN
        else
          outcome ← argus_browser_command_endpoint_process true body (Some command_ops);
          send_command_response (eo_result outcome)
  end.

(** ** The factory reset *)

Definition send_factory_reset_response (status_code : Z) : handler esp_err_t :=
  let '(status, body) :=
    if status_code =? 202 then
      (str "202 Accepted",
       json_object [(str "ok", str "true"); (str "status", quoted (str "factory_reset_accepted"));
                    (str "note", quoted (str "Configuration reset and reboot pending. Reconnect to the Service AP and verify authoritative status."))])
    else if status_code =? 400 then (str "400 Bad Request", error_body (str "invalid_request"))
    else if status_code =? 403 then (str "403 Forbidden", error_body (str "factory_reset_not_admitted"))
    else if status_code =? 409 then (str "409 Conflict", error_body (str "lifecycle_conflict"))
    else if status_code =? 415 then (str "415 Unsupported Media Type", error_body (str "unsupported_media_type"))
    else if status_code =? 503 then (str "503 Service Unavailable", error_body (str "queue_unavailable"))
    else (str "500 Internal Server Error", error_body (str "internal_error")) in
  set_security_headers false ;; respond status body.

(** A chunk that ends the reception, as [argus_factory_reset_receive_body] reads it. *)
Definition reset_verdict (chunk : Z) : argus_factory_reset_receive_result_t :=
  if chunk =? ARGUS_FACTORY_RESET_BODY_RECV_TIMEOUT then ARGUS_FACTORY_RESET_RECEIVE_TIMEOUT
  else if chunk =? 0 then ARGUS_FACTORY_RESET_RECEIVE_TRUNCATED
  else ARGUS_FACTORY_RESET_RECEIVE_ERROR.

Definition factory_reset_body_recv (received : Z) : Z :=
  if received =? HTTPD_SOCK_ERR_TIMEOUT then ARGUS_FACTORY_RESET_BODY_RECV_TIMEOUT else received.

(** [argus_factory_reset_receive_body] over the calls of the request. *)
Definition factory_reset_receive (content_len : nat) : handler (argus_factory_reset_receive_result_t * bytes) :=
  if (content_len =? 0)%nat then mret (ARGUS_FACTORY_RESET_RECEIVE_EMPTY, [])
  else if (ARGUS_FACTORY_RESET_MAX_BODY_LEN <? content_len)%nat then mret (ARGUS_FACTORY_RESET_RECEIVE_TOO_LARGE, [])
  else
    received ← recv_loop true content_len content_len [];
    mret (match received with
          | inl chunk => (reset_verdict (factory_reset_body_recv chunk), [])
          | inr body => (ARGUS_FACTORY_RESET_RECEIVE_OK, body)
          end).

(** The content type, in a buffer of 48 bytes, is JSON. *)
Definition json_request : handler bool :=
  content_type ← call (ContentType 48);
  mret (match content_type with inl _ => false | inr text => argus_factory_reset_content_type_valid (Some text) end).

Definition factory_reset_post_handler (req : httpd_req_t) : handler esp_err_t :=
  set_security_headers false ;;
  if negb (is_method HTTP_POST req) then send_factory_reset_response 400
  else
    access ← require_access ARGUS_PERMISSION_COMMISSION true;
    match access with
    | None => mret ESP_OK
    | Some security =>
        recent ← call (RecentlyReauthenticated (hc_session_index security));
        if negb recent then respond (str "403 Forbidden") (error_body (str "recent_reauthentication_required"))
        else
          json ← json_request;
          if negb json then send_factory_reset_response 415
          else
            r ← factory_reset_receive (rq_content_len req);
            let '(receive_result, body) := r in
            let disposition := argus_factory_reset_receive_disposition receive_result in
            if negb (dp_continue_request disposition) then
              (if dp_close_session disposition then call (SetHeader (str "Connection") (str "close")) else mret tt) ;;
              response_err ← send_factory_reset_response (dp_status_code disposition);
              mret (if is_ok response_err then dp_handler_result_after_response disposition else response_err)
            else
              match argus_factory_reset_decode (Some body) (length body) with
              | ARGUS_FACTORY_RESET_DECODE_OK =>
                  err ← call FactoryReset;
                  send_factory_reset_response
                    (match err with
                     | ESP_OK => 202
                     | ESP_ERR_NOT_SUPPORTED => 409
                     | ESP_ERR_INVALID_STATE => 403
                     | ESP_ERR_NO_MEM => 503
                     | _ => 500
                     end)
              | _ => send_factory_reset_response 400
              end
    end.

(** ** Login *)

Definition ARGUS_AUDIT_LOGIN_FAILURE : Z := 2.
Definition ARGUS_AUDIT_LOGIN_THROTTLED : Z := 3.
Definition ARGUS_AUDIT_LOGOUT : Z := 4.

(** A failed login is recorded once a minute at most. *)
Definition note_login_failure (throttled : bool) : handler unit :=
  now_us ← call TimeUs;
  last ← call GetLastFailureAudit;
  if (last =? 0) || (60000000 <=? u64 (now_us - last)) then
    epoch ← call SecurityEpoch;
    call (AuditAppend (if throttled then ARGUS_AUDIT_LOGIN_THROTTLED else ARGUS_AUDIT_LOGIN_FAILURE)
            ARGUS_AUDIT_OUTCOME_REJECTED (principal_number ARGUS_PRINCIPAL_NONE) (str "anonymous") (str "login") (str "SOFTAP")
            (if throttled then str "throttled" else str "generic_failure")
            (match epoch with inr epoch => epoch | inl _ => 0 end) false) ;;
    call (SetLastFailureAudit now_us)
  else mret tt.

(** The refusal, with the time to wait when the peer is throttled. *)
Definition login_refused (outcome : argus_login_outcome_t) : handler esp_err_t :=
  (match lo_result outcome with
   | ARGUS_LOGIN_THROTTLED =>
       call (SetHeader (str "Retry-After") (formatted 12 (decimal (lo_retry_after_s outcome)))) ;;
       call (SetStatus (str "429 Too Many Requests"))
   | ARGUS_LOGIN_BUSY | ARGUS_LOGIN_STORE_UNAVAILABLE => call (SetStatus (str "503 Service Unavailable"))
   | _ => call (SetStatus (str "401 Unauthorized"))
   end) ;;
  call (Send (error_body (str "authentication_failed"))).

Definition principal_type_name (p : argus_principal_t) : bytes :=
  match pr_type p with ARGUS_PRINCIPAL_CONSOLE => str "CONSOLE" | _ => str "HUMAN" end.

Definition session_cookie (token : bytes) : bytes :=
  ARGUS_SESSION_COOKIE_NAME ++ str "=" ++ token ++ str "; Path=/; HttpOnly; SameSite=Strict".

Definition login_json (credentials : argus_session_credentials_t) : bytes :=
  let p := cr_principal credentials in
  json_object
    [(str "ok", str "true");
     (str "principal", json_object
        [(str "id", quoted (pr_identifier p)); (str "type", quoted (principal_type_name p)); (str "level", decimal (pr_level p))]);
     (str "csrf", quoted (cr_csrf credentials))].

(** A session for the principal that logged in, and its cookie. *)
Definition open_session (p : argus_principal_t) : handler esp_err_t :=
  s ← call (SessionCreate p);
  let '(session_err, credentials) := s in
  if negb (is_ok session_err) then respond (str "503 Service Unavailable") (error_body (str "session_unavailable"))
  else
    let cookie := session_cookie (cr_token credentials) in
    let response := login_json credentials in
    if (128 <=? length cookie)%nat || (320 <=? length response)%nat then
      call (RevokeToken (cr_token credentials)) ;;
      respond (str "500 Internal Server Error") (error_body (str "internal_error"))
    else
      call (SetHeader (str "Set-Cookie") cookie) ;; call (Send response).

(** The peer, when the request comes in over the access point and from its own pages. *)
Definition local_peer : handler (argus_http_access_result_t + Z) :=
  a ← call ApOnly;
  let '(access, peer_key) := a in
  match access with
  | ARGUS_HTTP_ACCESS_OK =>
      origin ← call OriginAllowed;
      mret (match origin with ARGUS_HTTP_ACCESS_OK => inr peer_key | access => inl access end)
  | _ => mret (inl access)
  end.

Definition login_post_handler (req : httpd_req_t) : handler esp_err_t :=
  set_security_headers false ;;
  peer ← local_peer;
  match peer with
  | inl access => send_error access
  | inr peer_key =>
      json ← call JsonContentType;
      if negb json then send_error ARGUS_HTTP_ACCESS_CONTENT_TYPE
      else
        received ← receive_bounded_json req LOGIN_BODY_MAX;
        match received with
        | inl receive_err =>
            respond (str "400 Bad Request") (error_body (str "invalid_request")) ;;
            mret (if ends_session receive_err then ESP_FAIL else ESP_OK)
        | inr body =>
            parsed ← call (ParseJson body);
            match decode_login parsed (length body) with
            | None => respond (str "400 Bad Request") (error_body (str "invalid_request"))
            | Some (username, password) =>
                outcome ← call (Login peer_key username password);
                match lo_result outcome, lo_principal outcome with
                | ARGUS_LOGIN_SUCCESS, Some p =>
                    recorded ← call (AuditAppend ARGUS_AUDIT_LOGIN_SUCCESS ARGUS_AUDIT_OUTCOME_SUCCESS
                                       (principal_number (pr_type p)) (pr_identifier p) (str "session") (str "SOFTAP")
                                       (str "authenticated") (pr_security_epoch p) true);
                    if negb (is_ok recorded) then respond (str "503 Service Unavailable") (error_body (str "audit_unavailable"))
                    else open_session p
                | result, _ => (* a success comes with its principal *)
                    note_login_failure (bool_decide (result = ARGUS_LOGIN_THROTTLED)) ;;
                    login_refused outcome
                end
            end
        end
  end.

(** ** Sessions *)

Definition ARGUS_SECURITY_DISPLAY_MAX : nat := 48.

Definition role_name (level : Z) : bytes :=
  if level =? ARGUS_SECURITY_LEVEL_ARGUS_PERSONNEL then str "Argus Personnel"
  else if level =? ARGUS_SECURITY_LEVEL_CLIENT_ADMIN then str "Client Administrator"
  else if level =? ARGUS_SECURITY_LEVEL_SUPERVISOR then str "Supervisor"
  else if level =? ARGUS_SECURITY_LEVEL_OPERATOR then str "Operator"
  else if level =? ARGUS_SECURITY_LEVEL_VIEWER then str "Viewer"
  else str "Unknown".

Definition comma_separated (l : list bytes) : bytes :=
  match l with [] => [] | x :: l => x ++ flat_map (fun y => 44 :: y) l end.

(** The names of the permissions a principal has, in the order of the table. *)
Definition capabilities_json (permissions : Z) : bytes :=
  91 :: comma_separated (quoted <$> (fst <$> List.filter (fun c => negb (Z.land permissions c.2 =? 0)) PERMISSION_NAMES)) ++ [93].

Definition session_json (p : argus_principal_t) (display csrf : bytes) (recovery factory : bool) : bytes :=
  json_object
    [(str "ok", str "true");
     (str "principal", json_object
        [(str "id", quoted (pr_identifier p)); (str "type", quoted (principal_type_name p));
         (str "display_name", quoted (json_escape display (ARGUS_SECURITY_DISPLAY_MAX * 2 + 1)));
         (str "role", quoted (role_name (pr_level p))); (str "level", decimal (pr_level p))]);
     (str "csrf", quoted csrf);
     (str "session", json_object [(str "idle_timeout_s", str "900"); (str "absolute_timeout_s", str "28800")]);
     (str "security_recovery", boolean recovery); (str "console_credential_factory", boolean factory);
     (str "capabilities", capabilities_json (pr_permissions p))].

(** The name shown for the principal. *)
Definition display_name_of (p : argus_principal_t) : handler bytes :=
  match pr_type p with
  | ARGUS_PRINCIPAL_HUMAN =>
      human ← call (DirectoryFindId (pr_identifier p));
      mret (match human with
            | Some human => strlcpy (hu_display_name human) (ARGUS_SECURITY_DISPLAY_MAX + 1)
            | None => str "Argus Console"
            end)
  | _ => mret (str "Argus Console")
  end.

Definition session_get_handler (req : httpd_req_t) : handler esp_err_t :=
  access ← require_access 0 false;
  match access with
  | None => mret ESP_OK
  | Some security =>
      csrf ← call (GetCsrf (hc_session_index security));
      match csrf with
      | None => respond (str "500 Internal Server Error") (error_body (str "internal_error"))
      | Some csrf =>
          set_security_headers false ;;
          display ← display_name_of (hc_principal security);
          state ← call RecoveryState;
          factory ← call FactoryCredentialInUse;
          let recovery := match state with inr state => state =? ARGUS_SECURITY_RECOVERY_REQUESTED | inl _ => false end in
          let response := session_json (hc_principal security) display csrf recovery factory in
          if (1400 <=? length response)%nat then respond (str "500 Internal Server Error") (error_body (str "internal_error"))
          else call (Send response)
      end
  end.

Definition EXPIRED_COOKIE : bytes := ARGUS_SESSION_COOKIE_NAME ++ str "=; Path=/; HttpOnly; SameSite=Strict; Max-Age=0".

Definition logout_post_handler (req : httpd_req_t) : handler esp_err_t :=
  access ← require_access 0 true;
  match access with
  | None => mret ESP_OK
  | Some security =>
      let p := hc_principal security in
      revoked ← call (RevokeToken (hc_session_token security));
      call (AuditAppend ARGUS_AUDIT_LOGOUT (if (revoked : bool) then ARGUS_AUDIT_OUTCOME_SUCCESS else ARGUS_AUDIT_OUTCOME_FAILED)
              (principal_number (pr_type p)) (pr_identifier p) (str "session") (str "SOFTAP")
              (if (revoked : bool) then str "logout" else str "session_missing") (pr_security_epoch p) false) ;;
      call (SetHeader (str "Set-Cookie") EXPIRED_COOKIE) ;;
      set_security_headers false ;;
      call (Send (if (revoked : bool) then OK_BODY else error_body (str "session_not_found")))
  end.

(** ** Passwords *)

(** The login name of a principal. *)
Definition current_login (p : argus_principal_t) : handler (option bytes) :=
  match pr_type p with
  | ARGUS_PRINCIPAL_CONSOLE => mret (Some (str "argus"))
  | ARGUS_PRINCIPAL_HUMAN =>
      human ← call (DirectoryFindId (pr_identifier p));
      mret (match human with Some human => Some (strlcpy (hu_login human) (ARGUS_LOGIN_NAME_MAX + 1)) | None => None end)
  | _ => mret None
  end.

Definition same_principal (p q : argus_principal_t) : bool :=
  bool_decide (pr_type p = pr_type q) && bool_decide (pr_identifier p = pr_identifier q).

(** The password is that of the session's own account. *)
Definition reauthenticate_principal (security : argus_http_security_context_t) (password : bytes) : handler bool :=
  login ← current_login (hc_principal security);
  match login with
  | None => mret false
  | Some login =>
      outcome ← call (Login (hc_peer_key security) login password);
      mret (match lo_result outcome, lo_principal outcome with
            | ARGUS_LOGIN_SUCCESS, Some p => same_principal p (hc_principal security)
            | _, _ => false
            end)
  end.

(** The passwords of the body, the current one verified. *)
Definition verified_passwords (security : argus_http_security_context_t) (received : esp_err_t + bytes) (changing : bool)
    : handler (option (bytes * bytes)) :=
  match received with
  | inl _ => mret None
  | inr body =>
      parsed ← call (ParseJson body);
      match parse_password_object parsed (length body) changing with
      | None => mret None
      | Some (current, replacement) =>
          valid ← reauthenticate_principal security current;
          mret (if (valid : bool) then Some (current, replacement) else None)
      end
  end.

Definition reauth_post_handler (req : httpd_req_t) : handler esp_err_t :=
  access ← require_access 0 true;
  match access with
  | None => mret ESP_OK
  | Some security =>
      set_security_headers false ;;
      received ← receive_bounded_json req LOGIN_BODY_MAX;
      verified ← verified_passwords security received false;
      (match verified with Some _ => call (MarkReauthenticated (hc_session_index security)) | None => mret tt end) ;;
      match received, verified with
      | inl receive_err, _ => bad_body receive_err
      | inr _, None => respond (str "401 Unauthorized") (error_body (str "authentication_failed"))
      | inr _, Some _ => call (Send OK_BODY)
      end
  end.

(** The console's password has its own place; a new one ends every session. *)
Definition replace_console_password (replacement : bytes) : handler esp_err_t :=
  v ← call (CreateVerifier replacement);
  let '(err, verifier) := v in
  err ← (if is_ok err then call (SetConsoleVerifier verifier true) else mret err);
  (if is_ok err then call FactoryCredentialRefresh ;; call RevokeAll ;; mret tt else mret tt) ;;
  mret err.

Definition change_own_password (security : argus_http_security_context_t) (replacement : bytes) : handler esp_err_t :=
  let p := hc_principal security in
  b ← call (AuditBegin ARGUS_AUDIT_PASSWORD_CHANGED (principal_number (pr_type p)) (pr_identifier p) (pr_identifier p)
              (str "SOFTAP") (str "self_password") (pr_security_epoch p));
  let '(begun, mutation) := b in
  if negb (is_ok begun) then mret ESP_ERR_INVALID_ARG
  else
    err ← match pr_type p with
          | ARGUS_PRINCIPAL_CONSOLE => replace_console_password replacement
          | _ => call (Admin p (ReplaceOwnPassword (Some replacement)))
          end;
    finished ← call (AuditFinish mutation (is_ok err));
    mret (if is_ok finished then err else ESP_ERR_INVALID_RESPONSE).

Definition change_own_password_post_handler (req : httpd_req_t) : handler esp_err_t :=
  access ← require_access 0 true;
  match access with
  | None => mret ESP_OK
  | Some security =>
      set_security_headers false ;;
      received ← receive_bounded_json req LOGIN_BODY_MAX;
      verified ← verified_passwords security received true;
      err ← match verified with
            | Some (_, replacement) => change_own_password security replacement
            | None => mret ESP_ERR_INVALID_ARG
            end;
      match received, verified with
      | inl receive_err, _ => bad_body receive_err
      | inr _, None => respond (str "401 Unauthorized") (error_body (str "authentication_failed"))
      | inr _, Some _ =>
          if negb (is_ok err) then respond (str "503 Service Unavailable") (error_body (str "password_change_failed"))
          else
            call (SetHeader (str "Set-Cookie") EXPIRED_COOKIE) ;;
            call (Send (json_object [(str "ok", str "true"); (str "fresh_login_required", str "true")]))
      end
  end.

(** ** Routes *)

Definition MAIN_ROUTES : list httpd_uri_t :=
  [(str "/login", HTTP_GET, login_get_handler);
   (str "/api/auth/login", HTTP_POST, login_post_handler);
   (str "/api/auth/session", HTTP_GET, session_get_handler);
   (str "/api/auth/logout", HTTP_POST, logout_post_handler);
   (str "/api/auth/reauth", HTTP_POST, reauth_post_handler);
   (str "/api/auth/change-password", HTTP_POST, change_own_password_post_handler);
   (str "/operate", HTTP_GET, controls_get_handler);
   (str "/commission", HTTP_GET, commission_get_handler);
   (str "/api/status", HTTP_GET, status_get_handler);
   (str "/api/identity", HTTP_GET, identity_get_handler);
   (str "/", HTTP_GET, portal_get_handler);
   (str "/controls", HTTP_GET, controls_alias_handler);
   (str "/change-password", HTTP_GET, change_password_handler);
   (str "/api/config", HTTP_GET, config_get_handler);
   (str "/api/config/save", HTTP_POST, config_save_handler);
   (str "/config/identity", HTTP_GET, identity_page_handler);
   (str "/config/wifi", HTTP_GET, wifi_page_handler);
   (str "/api/restart", HTTP_POST, restart_handler);
   (str "/api/service/enter", HTTP_POST, service_enter_handler);
   (str "/api/service/exit", HTTP_POST, service_exit_handler);
   (str "/api/network/reconnect", HTTP_POST, reconnect_post_handler);
   (str "/api/command", HTTP_POST, command_post_handler);
   (str "/api/factory-reset", HTTP_POST, factory_reset_post_handler)].

(** ** The life of the server *)

(** [s_initialized], and whether [s_server] holds a handle; the routes it answers are those
    registered since it was started. *)
Record http_server := HttpServer {
  hs_initialized : bool;
  hs_server : bool;
  hs_routes : list httpd_uri_t
}.

Definition http_server_boot : http_server := HttpServer false false [].

(** [mutex] is false when the mutex cannot be created. *)
Definition argus_http_server_init (mutex : bool) (s : http_server) : esp_err_t * http_server :=
  if hs_initialized s then (ESP_ERR_INVALID_STATE, s)
  else if negb mutex then (ESP_ERR_NO_MEM, s)
  else (ESP_OK, HttpServer true false []).

(** [stop] is the answer of [httpd_stop]. *)
Definition stop_server_locked (stop : esp_err_t) (s : http_server) : esp_err_t * http_server :=
  if negb (hs_server s) then (ESP_OK, s)
  else if negb (is_ok stop) then (stop, s)
  else (ESP_OK, HttpServer (hs_initialized s) false []).

(** [start] is the answer of [httpd_start], [register] those of the registrations, the
    security pages' after the others, and [stop] that of the stop when one fails. *)
Definition argus_http_server_start (start : esp_err_t) (register : nat -> esp_err_t) (stop : esp_err_t)
    (security : security_http) (s : http_server) : esp_err_t * http_server :=
  if negb (hs_initialized s) then (ESP_ERR_INVALID_STATE, s)
  else if hs_server s then (ESP_OK, s)
  else if negb (is_ok start) then (ESP_FAIL, s)
  else
    let '(reg_err, main) := register_routes register 0 MAIN_ROUTES in
    let '(reg_err, routes) :=
      if negb (is_ok reg_err) then (reg_err, main)
      else
        let '(reg_err, pages) := argus_security_http_register true (fun i => register (length MAIN_ROUTES + i)%nat) security in
        (reg_err, main ++ pages) in
    let s := HttpServer true true routes in
    if is_ok reg_err then (ESP_OK, s) else (ESP_FAIL, (stop_server_locked stop s).2).

Definition argus_http_server_stop (stop : esp_err_t) (s : http_server) : esp_err_t * http_server :=
  if negb (hs_initialized s) then (ESP_ERR_INVALID_STATE, s) else stop_server_locked stop s.

Definition argus_http_server_is_running (s : http_server) : bool := hs_initialized s && hs_server s.
End Portal.

(** ** The handlers keep to the rules *)

Section Parts.
Variable r : argus_http_route_inventory_entry_t.

Lemma safe_respond_end status body h : may_answer status h -> safe r h (respond status body) (fun h' _ => finished h').
Proof. intros Hm. eapply safe_mono; [|by apply safe_send]. intros h' err ->. apply answered_finished, Hm. Qed.

Lemma safe_responded status body h : may_answer status h -> safe r h (responded status body) (fun h' _ => finished h').
Proof. intros Hm. unfold responded. eapply safe_use; [by apply safe_respond_end|]. done. Qed.

(** With the status as it is. *)
Lemma safe_sends body h : quiet h -> (h_outcome h = Some false -> success_status (h_status h) = false) ->
  safe r h (call (Send body)) (fun h' _ => finished h').
Proof.
  destruct h. intros [Hs Ha Hm] Ho. cbn in Hs, Ha, Hm, Ho. subst. apply safe_last; [by split|]. intros err _. cbn.
  by destruct (is_ok err); split.
Qed.

Lemma safe_sent body h : quiet h -> (h_outcome h = Some false -> success_status (h_status h) = false) ->
  safe r h (sent body) (fun h' _ => finished h').
Proof. intros Hq Ho. unfold sent. eapply safe_use; [by apply safe_sends|]. done. Qed.

Lemma safe_send_error_end result h : quiet h -> safe r h (send_error result) (fun h' _ => finished h').
Proof.
  intros Hq. eapply safe_mono; [|by apply safe_send_error]. intros h' _ (status & ok & ->). by apply answered_finished.
Qed.

Lemma safe_redirect location h : quiet h -> h_outcome h = None -> safe r h (redirect location) (fun h' _ => finished h').
Proof.
  intros Hq Ho. unfold redirect. eapply safe_use; [apply safe_headers|]. intros h' _ ->. destruct h, Hq. cbn in *. subst.
  apply safe_call; [by split|]. intros ? _. apply safe_call; [by split|]. intros ? _. by apply safe_sends.
Qed.

Lemma safe_not_allowed h : quiet h -> safe r h send_method_not_allowed (fun h' _ => finished h').
Proof.
  intros Hq. unfold send_method_not_allowed. destruct h, Hq. cbn in *. subst. do 3 (apply safe_call; [by split|]; intros ? _).
  by apply safe_sent.
Qed.

(** The gate of a page. *)
Lemma safe_page_gate permissions k : rt_csrf r = false -> rt_capability_any r = false -> rt_capabilities r = permissions ->
  (forall h, finished h -> safe r h (k None) (fun h _ => finished h)) ->
  (forall ctx, route_admits r ctx false -> holds (hc_principal ctx) permissions ->
     safe r (gated ctx false) (k (Some ctx)) (fun h (_ : esp_err_t) => finished h)) ->
  safe r no_history (require_page_access permissions ≫= k) (fun h _ => finished h).
Proof.
  intros Hc Ha Hp Hn Hk. apply safe_bind. unfold require_page_access. apply safe_call; [by split|].
  intros [result security] Hx. cbn [sound_call fst snd] in Hx.
  destruct result; cbn [note_call fst snd];
    try (eapply safe_use; [first [by apply safe_redirect|by apply safe_send_error_end]|intros h' ? Hf; by apply Hn]).
  assert (Hh : holds (hc_principal security) permissions).
  { destruct (decide (permissions = 0)) as [->|]; [apply holds_zero|]. apply require_holds. by apply Hx. }
  apply Hk; [|exact Hh]. split; [congruence|]. rewrite Hp, Ha. by right.
Qed.

Lemma safe_page_gate_open k :
  (forall h, finished h -> safe r h (k None) (fun h _ => finished h)) ->
  (forall ctx, safe r (gated ctx false) (k (Some ctx)) (fun h (_ : esp_err_t) => finished h)) ->
  safe r no_history (require_page_access 0 ≫= k) (fun h _ => finished h).
Proof.
  intros Hn Hk. apply safe_bind. unfold require_page_access. apply safe_call; [by split|]. intros [result security] _.
  destruct result; cbn [note_call fst snd];
    try (eapply safe_use; [first [by apply safe_redirect|by apply safe_send_error_end]|intros h' ? Hf; by apply Hn]).
  apply Hk.
Qed.

Lemma safe_bad_body err h : quiet h -> safe r h (bad_body err) (fun h' _ => finished h').
Proof. intros Hq. unfold bad_body. eapply safe_use; [by apply safe_respond_end|]. done. Qed.

Lemma safe_recv_full_body req size h : quiet h ->
  safe r h (recv_full_body req size) (fun h' x => match x with RecvBody _ => h' = h | _ => finished h' end).
Proof.
  intros Hq. unfold recv_full_body.
  destruct (_ =? _)%nat; [eapply safe_use; [by apply safe_respond_end|done]|].
  destruct (_ <=? _)%nat; [eapply safe_use; [by apply safe_respond_end|done]|].
  eapply safe_use; [apply safe_recv_loop|]. intros h' [ret|body] ->; [|done].
  eapply safe_use; [|by intros h' ? Hf; apply safe_ret; exact Hf]. destruct (_ =? _); by apply safe_respond_end.
Qed.

Lemma safe_receive_json req size h : safe r h (receive_bounded_json req size) (fun h' _ => h' = h).
Proof.
  unfold receive_bounded_json. destruct (_ =? _)%nat; [done|]. destruct (_ <=? _)%nat.
  { apply safe_call; [by split|]. done. }
  eapply safe_use; [apply safe_recv_loop|]. intros h' [e|body] ->; [|done]. apply safe_call; [by split|]. done.
Qed.

Lemma safe_browser_body content_len capacity h :
  safe r h (argus_browser_command_receive_body content_len capacity) (fun h' _ => h' = h).
Proof.
  unfold argus_browser_command_receive_body. repeat (destruct (_ : bool); [done|]).
  eapply safe_use; [apply safe_recv_loop|]. intros h' ? ->. done.
Qed.

Lemma safe_reset_body content_len h : safe r h (factory_reset_receive content_len) (fun h' _ => h' = h).
Proof.
  unfold factory_reset_receive. repeat (destruct (_ : bool); [done|]). eapply safe_use; [apply safe_recv_loop|]. intros h' ? ->. done.
Qed.
End Parts.

(** The walk along a handler of this file. *)
Ltac stroll_once :=
  lazymatch goal with
  | |- safe _ _ (mbind _ (set_security_headers _)) _ => eapply safe_use; [apply safe_headers|intros ? _ ->]
  | |- safe _ _ (respond _ _) _ => apply safe_respond_end; may_send
  | |- safe _ _ (responded _ _) _ => apply safe_responded; may_send
  | |- safe _ _ (sent _) _ => apply safe_sent; [split; note_cbn; reflexivity|note_cbn; first [done|discriminate]]
  | |- safe _ _ (call (Send _)) _ => apply safe_sends; [split; note_cbn; reflexivity|note_cbn; first [done|discriminate]]
  | |- safe _ _ (send_error _) _ => apply safe_send_error_end; split; note_cbn; reflexivity
  | |- safe _ _ (redirect _) _ => apply safe_redirect; [split; note_cbn; reflexivity|note_cbn; reflexivity]
  | |- safe _ _ send_method_not_allowed _ => apply safe_not_allowed; split; note_cbn; reflexivity
  | |- safe _ _ (bad_body _) _ => apply safe_bad_body; split; note_cbn; reflexivity
  | |- safe _ _ (mbind _ (receive_bounded_json _ _)) _ => eapply safe_use; [apply safe_receive_json|intros ? ? ->]
  | |- _ => walk_once
  end.

Ltac stroll := repeat stroll_once.

Section Safe.
Context (esp_err_to_name : esp_err_t -> bytes) (wifi_reason_code : wifi_reason_t -> Z).
Context (argus_login_html argus_controls_html argus_commission_html : bytes).
#[local] Arguments route path%_string.

Lemma status_get_safe req : safe (route "/api/status" HTTP_GET) no_history
  (status_get_handler esp_err_to_name wifi_reason_code req) (fun h _ => finished h).
Proof. unfold status_get_handler. at_gate safe_gate. intros ctx Hr Hh. stroll. Qed.

Lemma identity_get_safe req : safe (route "/api/identity" HTTP_GET) no_history (identity_get_handler req) (fun h _ => finished h).
Proof. unfold identity_get_handler. at_gate safe_gate. intros ctx Hr Hh. stroll. Qed.

Lemma page_alias_safe r permissions location req : rt_csrf r = false -> rt_capability_any r = false ->
  rt_capabilities r = permissions -> safe r no_history (page_alias permissions location req) (fun h _ => finished h).
Proof.
  intros Hc Ha Hp. unfold page_alias. apply safe_page_gate; try done. intros ctx Hr Hh. stroll.
Qed.

Lemma portal_get_safe req : safe (route "/" HTTP_GET) no_history (portal_get_handler req) (fun h _ => finished h).
Proof.
  unfold portal_get_handler. stroll_once; [stroll|]. apply safe_call; [by split|]. intros [a key] _. note_cbn. destruct a; stroll; try (by split).
Qed.

Lemma controls_get_safe req : safe (route "/operate" HTTP_GET) no_history
  (controls_get_handler argus_controls_html req) (fun h _ => finished h).
Proof. unfold controls_get_handler. at_gate safe_page_gate. intros ctx Hr Hh. stroll. Qed.

Lemma controls_alias_safe req : safe (route "/controls" HTTP_GET) no_history (controls_alias_handler req) (fun h _ => finished h).
Proof. unfold controls_alias_handler. at_gate safe_page_gate. intros ctx Hr Hh. stroll. Qed.

Lemma login_get_safe req : safe (route "/login" HTTP_GET) no_history (login_get_handler argus_login_html req) (fun h _ => finished h).
Proof.
  unfold login_get_handler. stroll_once. apply safe_call; [by split|]. intros [a key] _. note_cbn. cbn [fst]. destruct a; stroll.
Qed.

Lemma commission_get_safe req : safe (route "/commission" HTTP_GET) no_history
  (commission_get_handler argus_commission_html req) (fun h _ => finished h).
Proof. unfold commission_get_handler. apply safe_page_gate_open; [intros h Hf; apply safe_ret; exact Hf|]. intros ctx. stroll. Qed.

Lemma config_get_safe req : safe (route "/api/config" HTTP_GET) no_history (config_get_handler req) (fun h _ => finished h).
Proof.
  unfold config_get_handler. apply safe_gate_open; [intros h Hf; apply safe_ret; exact Hf|]. intros ctx.
  destruct (_ =? 0) eqn:Hp; [stroll|].
  assert (Hr : route_admits (route "/api/config" HTTP_GET) ctx false).
  { apply route_admits_any; [vm_compute; reflexivity|vm_compute; reflexivity|]. by apply Z.eqb_neq in Hp. }
  stroll.
Qed.

Lemma overlay_fields cfg scope fields out : argus_config_overlay_apply cfg scope fields = inr out ->
  match scope with
  | ARGUS_CONFIG_SCOPE_IDENTITY => network_fields out = network_fields cfg
  | _ => identity_fields out = identity_fields cfg
  end.
Proof.
  destruct scope; cbn [argus_config_overlay_apply]; [unfold apply_identity|unfold apply_wifi|done];
    repeat case_match; intros; simplify_eq/=; done.
Qed.

Lemma config_saved_safe ctx scope mode h : quiet h -> h_outcome h = None -> h_status h = str "200 OK" ->
  h_gate h = Some (ctx, true) -> route_admits (route "/api/config/save" HTTP_POST) ctx true ->
  holds (hc_principal ctx) (scope_permission scope) ->
  safe (route "/api/config/save" HTTP_POST) h (config_saved scope mode) (fun h _ => finished h).
Proof.
  intros [Hs Ha Hm] Ho Hst Hg Hr Hh. destruct h. cbn in Hs, Ha, Hm, Ho, Hst, Hg. subst. unfold config_saved, saved. stroll.
Qed.

Lemma config_save_safe req : safe (route "/api/config/save" HTTP_POST) no_history (config_save_handler req) (fun h _ => finished h).
Proof.
  unfold config_save_handler. apply safe_gate_open; [intros h Hf; apply safe_ret; exact Hf|]. intros ctx.
  stroll_once; [stroll|]. stroll_once. apply safe_call; [by split|]. intros mode _. note_cbn. stroll_once; [stroll|].
  eapply safe_use; [apply safe_recv_full_body; by split|]. intros h [| |body] Hb; [by apply safe_ret..|subst h].
  apply safe_call; [by split|]. intros parsed _. note_cbn. destruct (decode_config_request _ _) as [[scope fields]|]; [|stroll].
  cbn zeta. destruct (_ =? _) eqn:Hp; cbn [negb]; [|stroll]. apply Z.eqb_eq in Hp.
  assert (Hr : route_admits (route "/api/config/save" HTTP_POST) ctx true).
  { apply route_admits_any; [vm_compute; reflexivity|vm_compute; reflexivity|]. eapply holds_any; [exact Hp|by destruct scope|by destruct scope]. }
  apply safe_call; [permit|]. intros [e|cfg] _; note_cbn; [stroll|].
  destruct (argus_config_overlay_apply cfg scope fields) as [e|out] eqn:Hover.
  { unfold overlay_refused. destruct (overlay_text e). apply safe_call; [by split|]. intros ? _. note_cbn.
    destruct e; stroll. }
  apply overlay_fields in Hover. apply safe_call; [permit|]. intros err _. note_cbn. stroll_once; [stroll|].
  apply safe_call.
  { split; try done; [eapply authorize; [done|exact Hr|]; split_and!; try done; apply holds_zero|].
    exists cfg, ctx, true. split_and!; try done; destruct scope; auto. }
  intros err' _. note_cbn. stroll_once; [stroll|]. by apply (config_saved_safe ctx).
Qed.

Lemma reconnect_post_safe req : safe (route "/api/network/reconnect" HTTP_POST) no_history
  (reconnect_post_handler req) (fun h _ => finished h).
Proof. unfold reconnect_post_handler. at_gate safe_gate. intros ctx Hr Hh. stroll. Qed.

Lemma restart_safe req : safe (route "/api/restart" HTTP_POST) no_history (restart_handler esp_err_to_name req) (fun h _ => finished h).
Proof. unfold restart_handler. at_gate safe_gate. intros ctx Hr Hh. stroll. Qed.
End Safe.
Section Safe2.
Context (esp_err_to_name : esp_err_t -> bytes).
#[local] Arguments route path%_string.

Lemma post_transition_safe r ctx evt accepted h : quiet h -> h_outcome h = None -> h_gate h = Some (ctx, true) ->
  route_admits r ctx true -> holds (hc_principal ctx) (event_permission evt) ->
  safe r h (post_transition esp_err_to_name evt accepted) (fun h _ => finished h).
Proof.
  intros [Hs Ha Hm] Ho Hg Hr Hh. destruct h. cbn in Hs, Ha, Hm, Ho, Hg. subst. unfold post_transition. stroll.
Qed.

Lemma service_enter_safe req : safe (route "/api/service/enter" HTTP_POST) no_history
  (service_enter_handler esp_err_to_name req) (fun h _ => finished h).
Proof.
  unfold service_enter_handler. stroll_once; [stroll|]. at_gate safe_gate. intros ctx Hr Hh.
  do 2 (apply safe_call; [by split|]; intros ? _; note_cbn).
  apply safe_call; [permit|]. intros [e|[[[net auth] evt] pol]] Hs; cbn [sound_call] in Hs; note_cbn; [stroll|].
  destruct pol; stroll. apply (post_transition_safe _ ctx); try done. unfold event_permission. by rewrite Hs.
Qed.

Lemma service_exit_safe req : safe (route "/api/service/exit" HTTP_POST) no_history
  (service_exit_handler esp_err_to_name req) (fun h _ => finished h).
Proof.
  unfold service_exit_handler. stroll_once; [stroll|]. at_gate safe_gate. intros ctx Hr Hh.
  do 2 (apply safe_call; [by split|]; intros ? _; note_cbn). stroll_once. stroll_once. stroll_once; [stroll|]. stroll_once.
  unfold argus_service_policy_evaluate_exit. repeat (case_match; try (stroll; fail)); simplify_eq/=; try (stroll; fail).
  by apply (post_transition_safe _ ctx).
Qed.

Lemma factory_response_safe r code h : quiet h -> h_outcome h = None ->
  safe r h (send_factory_reset_response code) (fun h _ => finished h).
Proof.
  intros Hq Ho. unfold send_factory_reset_response. destruct (if _ =? _ then _ else _) as [status body].
  eapply safe_use; [apply safe_headers|]. intros h' _ ->. apply safe_respond_end. split; [done|]. by rewrite Ho.
Qed.

Lemma factory_reset_safe req : safe (route "/api/factory-reset" HTTP_POST) no_history
  (factory_reset_post_handler req) (fun h _ => finished h).
Proof.
  unfold factory_reset_post_handler. stroll_once. stroll_once; [by apply factory_response_safe|]. at_gate safe_gate. intros ctx Hr Hh.
  stroll_once. destruct x; cbn [negb]; [|stroll]. unfold json_request. apply safe_bind, safe_call; [by split|]. intros type _. note_cbn.
  apply safe_ret. destruct (match type with inl _ => _ | inr _ => _ end); cbn [negb]; [|by apply factory_response_safe].
  eapply safe_use; [apply safe_reset_body|]. intros h [result body] ->.
  destruct (dp_continue_request _) eqn:Hc; cbn [negb].
  - destruct (argus_factory_reset_decode _ _); try (by apply factory_response_safe).
    apply safe_call; [permit|]. intros err _. note_cbn. by apply factory_response_safe.
  - apply safe_bind. destruct (dp_close_session _); [apply safe_last; [by split|intros ? _]|apply safe_ret];
      note_cbn; (eapply safe_use; [by apply factory_response_safe|]; intros h' err Hf; by apply safe_ret).
Qed.

Lemma command_response_safe r result h : quiet h -> h_outcome h = None ->
  safe r h (send_command_response result) (fun h _ => finished h).
Proof.
  intros Hq Ho. unfold send_command_response. destruct (argus_browser_command_response_for result) as [status body].
  eapply safe_use; [apply safe_headers|]. intros h' _ ->. apply safe_respond_end. split; [done|]. by rewrite Ho.
Qed.

(** A decoded command: its permission is among those the route accepts. *)
Lemma command_capability_accepted type p : holds p (command_capability type) ->
  Z.land (pr_permissions p) BROWSER_COMMAND_CAPABILITIES <> 0.
Proof. intros Hh. eapply holds_any; [exact Hh|by destruct type|by destruct type]. Qed.

Lemma command_post_safe req : safe (route "/api/command" HTTP_POST) no_history (command_post_handler req) (fun h _ => finished h).
Proof.
  unfold command_post_handler. stroll_once. apply safe_gate_open; [intros h Hf; apply safe_ret; exact Hf|]. intros ctx.
  eapply safe_use; [apply safe_browser_body|]. intros h [result body] ->.
  destruct (bd_continue_request _) eqn:Hc; cbn [negb].
  2: { apply safe_bind. destruct (bd_close_session _); [apply safe_last; [by split|intros ? _]|apply safe_ret];
      note_cbn; (eapply safe_use; [by apply command_response_safe|]; intros h' err Hf; by apply safe_ret). }
  destruct (decode_request body) as [decode_result decoded] eqn:Hd.
  match goal with |- context [if negb ?b then send_error _ else _] => destruct b eqn:Hadm end; cbn [negb]; [|stroll].
  eapply safe_use with (mid := fun h _ => h = gated ctx true); [|intros h outcome ->; by apply command_response_safe].
  unfold argus_browser_command_endpoint_process. cbn [negb]. rewrite Hd.
  destruct decode_result; try (by apply safe_ret). destruct (br_is_valid decoded); [|by apply safe_ret].
  destruct (br_command_type decoded) as [type|]; [|by apply safe_ret]. apply bool_decide_eq_true, require_holds in Hadm.
  assert (Hr : route_admits (route "/api/command" HTTP_POST) ctx true).
  { apply route_admits_any; [vm_compute; reflexivity|vm_compute; reflexivity|]. by apply (command_capability_accepted type). }
  cbn [command_ops get_network_snapshot get_authority_snapshot dispatch].
  apply safe_call; [permit|]. intros [err net] _. note_cbn. destruct (negb (is_ok err)); [by apply safe_ret|].
  destruct (negb _); [by apply safe_ret|]. apply safe_call; [permit|]. intros [err' authority] _. note_cbn.
  destruct (negb (is_ok err')); [by apply safe_ret|]. destruct (negb _); [by apply safe_ret|].
  apply safe_call; [permit|]. intros e _. note_cbn. by apply safe_ret.
Qed.
End Safe2.
Section Safe3.
#[local] Arguments route path%_string.

(** Leaves the request unanswered. *)
Lemma note_failure_safe r throttled h : safe r h (note_login_failure throttled) (fun h' _ => h' = h).
Proof.
  unfold note_login_failure. do 2 (apply safe_call; [by split|]; intros ? _; note_cbn). destruct (_ || _); [|done].
  do 2 (apply safe_call; [by split|]; intros ? _; note_cbn). apply safe_last; [by split|]. done.
Qed.

Lemma login_refused_safe r outcome h : quiet h -> h_outcome h = None -> safe r h (login_refused outcome) (fun h _ => finished h).
Proof.
  intros [Hs Ha Hm] Ho. destruct h. cbn in Hs, Ha, Hm, Ho. subst. unfold login_refused.
  eapply safe_use with (mid := fun h' _ => quiet h' /\ h_outcome h' = None).
  2: { intros h' _ [Hq Ho]. apply safe_sends; [done|by rewrite Ho]. }
  assert (Hlast : forall status h, quiet h -> h_outcome h = None ->
    safe r h (call (SetStatus status)) (fun h' _ => quiet h' /\ h_outcome h' = None)).
  { intros status h [] Ho. apply safe_last; [by split|]. intros ? _. by split. }
  destruct (lo_result outcome); try (by apply Hlast). apply safe_call; [by split|]. intros ? _. by apply Hlast.
Qed.

Lemma open_session_safe r p h : quiet h -> h_outcome h = Some true -> h_status h = str "200 OK" ->
  h_logged h = Some p -> safe r h (open_session p) (fun h _ => finished h).
Proof.
  intros [Hs Ha Hm] Ho Hst Hg. destruct h. cbn in Hs, Ha, Hm, Ho, Hst, Hg. subst. unfold open_session.
  apply safe_call; [by split|]. intros [err credentials] _. note_cbn. stroll_once; [stroll|]. cbn zeta. stroll_once.
  - apply safe_call; [by split|]. intros ? _. note_cbn. stroll.
  - apply safe_call; [by split|]. intros ? _. note_cbn. stroll.
Qed.

Lemma local_peer_safe r h : safe r h local_peer (fun h' _ => h' = h).
Proof.
  unfold local_peer. apply safe_call; [by split|]. intros [access key] _. note_cbn. by destruct access.
Qed.

Lemma login_post_safe req : safe (route "/api/auth/login" HTTP_POST) no_history (login_post_handler req) (fun h _ => finished h).
Proof.
  unfold login_post_handler. stroll_once. eapply safe_use; [apply local_peer_safe|]. intros h [access|key] ->; [stroll|].
  apply safe_call; [by split|]. intros json _. note_cbn. stroll_once; [stroll|].
  eapply safe_use; [apply safe_receive_json|]. intros h received ->. destruct received as [err|body].
  { eapply safe_use; [apply safe_respond_end; may_send|]. intros h' e Hf. by apply safe_ret. }
  apply safe_call; [by split|]. intros parsed _. note_cbn. destruct (decode_login _ _) as [[username password]|]; [|stroll].
  apply safe_call; [by split|]. intros outcome _. cbn [note_call].
  assert (Hrefused : forall throttled h, quiet h -> h_outcome h = None ->
    safe (route "/api/auth/login" HTTP_POST) h (note_login_failure throttled ;; login_refused outcome) (fun h _ => finished h)).
  { intros throttled h Hq Ho. eapply safe_use; [apply note_failure_safe|]. intros h' u ->. by apply login_refused_safe. }
  destruct (lo_result outcome); try (by apply Hrefused). destruct (lo_principal outcome) as [p|]; [|by apply Hrefused].
  apply safe_call; [by split|]. intros recorded _. note_cbn. destruct (is_ok recorded) eqn:Hr; cbn [negb]; [|stroll].
  apply open_session_safe; cbn -[is_login_record]; rewrite ?Hr; try done.
  by rewrite login_record_own.
Qed.

Lemma display_name_safe r ctx m p h : h_gate h = Some (ctx, m) -> route_admits r ctx m -> safe r h (display_name_of p) (fun h' _ => h' = h).
Proof.
  intros Hg Hr. unfold display_name_of. destruct (pr_type p); try done. apply safe_call; [|done]. split; try done.
  eapply authorize; [exact Hg|exact Hr|]. split_and!; try done. apply holds_zero.
Qed.

Lemma session_get_safe req : safe (route "/api/auth/session" HTTP_GET) no_history (session_get_handler req) (fun h _ => finished h).
Proof.
  unfold session_get_handler. at_gate safe_gate. intros ctx Hr Hh. apply safe_call; [permit|]. intros csrf _. note_cbn.
  destruct csrf as [csrf|]; [|stroll]. stroll_once. eapply safe_use; [by eapply display_name_safe|]. intros h display ->. stroll.
Qed.

Lemma logout_post_safe req : safe (route "/api/auth/logout" HTTP_POST) no_history (logout_post_handler req) (fun h _ => finished h).
Proof.
  unfold logout_post_handler. at_gate safe_gate. intros ctx Hr Hh. do 3 (apply safe_call; [by split|]; intros ? _; note_cbn). stroll.
Qed.

(** The password given is that of the session's account, or nothing is known. *)
Lemma reauthenticate_safe r ctx m password h : h_gate h = Some (ctx, m) -> route_admits r ctx m -> h_login h = None ->
  safe r h (reauthenticate_principal ctx password) (fun h' valid =>
    exists login, h' = h <| h_login := login |> /\ ((valid : bool) = true -> exists p, login = Some p /\ same_account p (hc_principal ctx))).
Proof.
  intros Hg Hr Hl. unfold reauthenticate_principal.
  eapply safe_use with (mid := fun h' _ => h' = h).
  { unfold current_login. destruct (pr_type _); try done. apply safe_call; [|done]. split; try done.
    eapply authorize; [exact Hg|exact Hr|]. split_and!; try done. apply holds_zero. }
  intros h' [login|] ->; [|apply safe_ret; exists None; split; [by destruct h; cbn in *; subst|done]].
  apply safe_call; [by split|]. intros outcome _. cbn [note_call]. apply safe_ret. eexists. split; [reflexivity|].
  destruct (lo_result outcome); try done. destruct (lo_principal outcome) as [p|]; [|done].
  unfold same_principal. intros [H1%bool_decide_eq_true H2%bool_decide_eq_true]%andb_true_iff. exists p. done.
Qed.

Lemma verified_safe r ctx m received changing h : h_gate h = Some (ctx, m) -> route_admits r ctx m -> h_login h = None ->
  safe r h (verified_passwords ctx received changing) (fun h' verified =>
    exists login, h' = h <| h_login := login |> /\
      (verified <> None -> exists p, login = Some p /\ same_account p (hc_principal ctx))).
Proof.
  intros Hg Hr Hl. assert (Hh : h = h <| h_login := None |>) by (destruct h; cbn in *; by subst). unfold verified_passwords.
  destruct received as [e|body]; [apply safe_ret; by exists None|]. apply safe_call; [by split|]. intros parsed _. cbn [note_call].
  destruct (parse_password_object _ _ _) as [[current replacement]|]; [|apply safe_ret; by exists None].
  eapply safe_use; [by eapply reauthenticate_safe|]. intros h' valid (login & -> & Hv). apply safe_ret. exists login.
  split; [done|]. destruct valid; [auto|done].
Qed.

Lemma reauth_post_safe req : safe (route "/api/auth/reauth" HTTP_POST) no_history (reauth_post_handler req) (fun h _ => finished h).
Proof.
  unfold reauth_post_handler. at_gate safe_gate. intros ctx Hr Hh. stroll_once.
  eapply safe_use; [apply safe_receive_json|]. intros h received ->.
  eapply safe_use; [by eapply verified_safe|]. intros h verified (login & -> & Hv).
  eapply safe_use with (mid := fun h' _ => h' = (gated ctx true) <| h_login := login |>).
  { destruct verified as [v|]; [|by apply safe_ret]. destruct Hv as (p & -> & Hp); [done|]. apply safe_last; [|done].
    permit. exists ctx, true. split_and!; [done..|by exists p]. }
  intros h u ->. destruct received, verified; note_cbn; stroll.
Qed.

Lemma replace_console_safe r ctx m p replacement h : h_gate h = Some (ctx, true) -> route_admits r ctx true ->
  h_login h = Some p -> same_account p (hc_principal ctx) -> h_audit h = Some (m, None) ->
  safe r h (replace_console_password replacement) (fun h' err =>
    exists result, default false result = is_ok err /\ h' = h <| h_audit := Some (m, result) |>).
Proof.
  intros Hg Hr Hl Hp Ha. destruct h. cbn in Hg, Hl, Ha. subst. unfold replace_console_password.
  apply safe_call; [by split|]. intros [err verifier] _. note_cbn. destruct (is_ok err) eqn:He.
  - apply safe_bind, safe_last.
    { permit. exists ctx, true. split; [done|by exists p]. }
    intros e _. note_cbn. destruct (is_ok e) eqn:Hok.
    + apply safe_bind, safe_call; [permit|]. intros ? _. note_cbn. apply safe_call; [permit|]. intros ? _. note_cbn.
      apply safe_ret, safe_ret. exists (Some true). done.
    + apply safe_bind, safe_ret, safe_ret. by exists (Some false).
  - apply safe_bind, safe_ret. rewrite He. apply safe_bind, safe_ret, safe_ret. exists None. done.
Qed.

Lemma change_own_safe r ctx p replacement h : h_gate h = Some (ctx, true) -> route_admits r ctx true -> quiet h ->
  h_login h = Some p -> same_account p (hc_principal ctx) ->
  safe r h (change_own_password ctx replacement) (fun h' err => h' = h <| h_outcome := Some (is_ok err) |>).
Proof.
  intros Hg Hr [Hs Ha Hm] Hl Hp. destruct h. cbn in Hg, Hs, Ha, Hm, Hl. subst. unfold change_own_password.
  apply safe_call; [permit|]. intros [begun mutation] _. note_cbn. destruct (is_ok begun); cbn [negb]; [|by apply safe_ret].
  eapply safe_use with (mid := fun h' err => exists result, default false result = is_ok err /\
    h' = History (Some (ctx, true)) h_reauthenticated (Some p) h_logged (Some (mutation, result)) h_outcome h_config None h_reserved h_status None).
  - assert (Hadmin : safe r (History (Some (ctx, true)) h_reauthenticated (Some p) h_logged (Some (mutation, None)) h_outcome h_config None h_reserved h_status None)
      (call (Admin (hc_principal ctx) (ReplaceOwnPassword (Some replacement)))) (fun h' err => exists result, default false result = is_ok err /\
        h' = History (Some (ctx, true)) h_reauthenticated (Some p) h_logged (Some (mutation, result)) h_outcome h_config None h_reserved h_status None)).
    { apply safe_last.
      - permit. exists ctx, true. split; [done|by exists p].
      - intros err _. note_cbn. by exists (Some (is_ok err)). }
    destruct (pr_type (hc_principal ctx)); try exact Hadmin.
    eapply safe_mono; [|by eapply replace_console_safe]. intros h' err (result & Hd & ->). by exists result.
  - intros h' err (result & Hd & ->). apply safe_call.
    { split; try done. - eapply authorize; [done|exact Hr|]. split_and!; try done. apply holds_zero. - by exists result. }
    intros e _. note_cbn. apply safe_ret. cbn. by destruct err, e.
Qed.

Lemma change_own_post_safe req : safe (route "/api/auth/change-password" HTTP_POST) no_history
  (change_own_password_post_handler req) (fun h _ => finished h).
Proof.
  unfold change_own_password_post_handler. at_gate safe_gate. intros ctx Hr Hh. stroll_once.
  eapply safe_use; [apply safe_receive_json|]. intros h received ->.
  eapply safe_use; [by eapply verified_safe|]. intros h verified (login & -> & Hv).
  destruct verified as [[current replacement]|].
  - destruct Hv as (p & -> & Hp); [done|]. eapply safe_use; [by eapply change_own_safe|]. intros h err ->. note_cbn.
    destruct received as [e|body]; [stroll|]. destruct (is_ok err); cbn [negb]; [|stroll].
    apply safe_call; [by split|]. intros ? _. note_cbn. stroll.
  - apply safe_bind, safe_ret. destruct received; note_cbn; stroll.
Qed.
End Safe3.

(** ** Escaped texts *)

(** What a JSON parser reads as the inside of a string, with only the two escapes used here. *)
Fixpoint json_text (l : bytes) : bool :=
  match l with
  | [] => true
  | c :: l =>
      if c =? 92 then match l with d :: l => ((d =? 34) || (d =? 92)) && json_text l | [] => false end
      else negb (c =? 34) && (32 <=? c) && json_text l
  end.

(** And the characters it stands for. *)
Fixpoint json_unescape (l : bytes) : bytes :=
  match l with
  | [] => []
  | c :: l => if c =? 92 then match l with d :: l => d :: json_unescape l | [] => [] end else c :: json_unescape l
  end.

(** A control character is shown as a space. *)
Definition printable (c : Z) : Z := if c <? 32 then 32 else c.

Lemma escape_loop_sound n src : forall used, (used < n - 1)%nat ->
  let out := json_escape_loop n used src in
  json_text out = true /\ (used + length out < n)%nat /\ json_unescape out `prefix_of` (printable <$> src) /\
  ((used + 2 * length src + 2 <= n)%nat -> json_unescape out = printable <$> src).
Proof.
  induction src as [|c src IH]; intros used Hn; cbn [json_escape_loop]; [split_and!; [done|cbn; lia|done|done]|].
  destruct (Nat.leb_spec (n - 2) used); [split_and!; [done|cbn; lia|apply prefix_nil|cbn; lia]|].
  destruct ((c =? 34) || (c =? 92)) eqn:Hc.
  - destruct (Nat.leb_spec (n - 1) (used + 2)); [split_and!; [done|cbn; lia|apply prefix_nil|cbn; lia]|].
    destruct (IH (S (S used)) ltac:(lia)) as (H1 & H2 & H3 & H4). cbn [json_text json_unescape length fmap list_fmap]. cbn zeta.
    change (92 =? 92) with true. cbn iota. rewrite Hc, H1.
    assert (Hp : printable c = c) by (unfold printable; apply orb_true_iff in Hc as [Hc|Hc]; apply Z.eqb_eq in Hc as ->; done). rewrite Hp.
    split_and!; [done|lia|by apply prefix_cons|]. intros Hl. rewrite H4 by (cbn in Hl; lia). done.
  - apply orb_false_iff in Hc as [Hq Hb].
    assert (Hstep : forall d, d = printable c -> (d =? 34) = false -> (d =? 92) = false -> 32 <= d ->
      let out := d :: json_escape_loop n (S used) src in
      json_text out = true /\ (used + length out < n)%nat /\ json_unescape out `prefix_of` (printable <$> c :: src) /\
      ((used + 2 * length (c :: src) + 2 <= n)%nat -> json_unescape out = printable <$> c :: src)).
    { intros d Hd H34 H92 H32. destruct (IH (S used) ltac:(lia)) as (H1 & H2 & H3 & H4).
      cbn [json_text json_unescape length fmap list_fmap]. cbn zeta. rewrite H92, H34, H1, Hd. cbn [negb andb].
      split_and!; [by rewrite <- Hd, andb_true_r; apply Z.leb_le|lia|by apply prefix_cons|]. intros Hl. by rewrite H4 by (cbn in Hl; lia). }
    unfold printable in Hstep at 1. destruct (Z.ltb_spec c 32); by apply Hstep.
Qed.

(** An escaped text is safe inside a document: whatever the bytes, the result fits the
    buffer with its terminator, is the inside of one JSON string (no bare quote, control
    character or unfinished escape), and reads back as the text with its control characters
    shown as spaces, or as a beginning of it; and as all of it when the buffer has two
    bytes for every character and two to spare. *)
Theorem json_escape_roundtrip src dst_size :
  let out := json_escape src dst_size in
  json_text out = true /\ (length out <= dst_size - 1)%nat /\ json_unescape out `prefix_of` (printable <$> src) /\
  ((2 * length src + 2 <= dst_size)%nat -> json_unescape out = printable <$> src).
Proof.
  unfold json_escape. destruct (Nat.ltb_spec dst_size 2); cbn zeta.
  - split_and!; [done|cbn; lia|apply prefix_nil|lia].
  - destruct (escape_loop_sound dst_size src 0 ltac:(lia)) as (H1 & H2 & H3 & H4). split_and!; [done|lia|done|]. intros Hl. apply H4. lia.
Qed.

(** A name of 64 quotes needs the 129 bytes of its buffer, and loses its last character. *)
Lemma escape_drops_last : json_unescape (json_escape (replicate 64 34) (64 * 2 + 1)) = replicate 63 34.
Proof. by vm_compute. Qed.

(** ** The dispatch of a browser command *)

(** What a command request has met so far: the principal the gate admitted for a mutation,
    the bytes of the body, the snapshots, what the dispatcher answered, and the responses. *)
Record command_story := CommandStory {
  cs_gate : option argus_http_security_context_t;
  cs_body : bytes;
  cs_net : option argus_net_snapshot_t;
  cs_authority : option argus_authority_snapshot_t;
  cs_answer : option esp_err_t;
  cs_status : bytes;
  cs_sent : list (bytes * bytes)
}.
#[export] Instance eta_command_story : Eta command_story := fun s =>
  CommandStory (cs_gate s) (cs_body s) (cs_net s) (cs_authority s) (cs_answer s) (cs_status s) (cs_sent s).

Definition no_story : command_story := CommandStory None [] None None None (str "200 OK") [].

Definition tell_call {X} (e : http_call X) : X -> command_story -> command_story :=
  match e with
  | Require _ mutation => fun x s =>
      match x.1 with ARGUS_HTTP_ACCESS_OK => s <| cs_gate := if mutation then Some x.2 else None |> | _ => s end
  | Recv _ => fun x s => s <| cs_body ::= fun body => body ++ arrived x.1 x.2 |>
  | NetSnapshotOf => fun x s => s <| cs_net := if is_ok x.1 then Some x.2 else None |>
  | AuthoritySnapshotOf => fun x s => s <| cs_authority := if is_ok x.1 then Some x.2 else None |>
  | Dispatch _ => fun x s => s <| cs_answer := Some x |>
  | SetStatus status => fun _ s => s <| cs_status := status |>
  | Send body => fun _ s => s <| cs_sent ::= fun l => l ++ [(cs_status s, body)] |>
  | _ => fun _ s => s
  end.

Definition tell (s : command_story) (v : http_event) : command_story := tell_call (an_call v) (an_answer v) s.

(** What the dispatch of an envelope needs. *)
Definition dispatch_admitted (req : httpd_req_t) (envelope : argus_command_envelope_t) (s : command_story) : Prop :=
  cs_answer s = None /\ exists security net authority request,
  cs_gate s = Some security /\
  argus_authorization_require (Some (hc_principal security))
    match env_command_type envelope with
    | ARGUS_CMD_TYPE_ESTOP => ARGUS_PERMISSION_SOFTWARE_ESTOP
    | ARGUS_CMD_TYPE_RESET_ESTOP => ARGUS_PERMISSION_RESET_SOFTWARE_ESTOP
    | _ => ARGUS_PERMISSION_MOTION
    end = ARGUS_AUTHZ_ALLOW /\
  length (cs_body s) = rq_content_len req /\
  argus_browser_command_decode (cs_body s) = Some (ARGUS_BROWSER_CMD_DECODE_OK, request) /\
  cs_net s = Some net /\ sn_mode net = ARGUS_NET_MODE_SERVICE_AP_ONLY /\
  cs_authority s = Some authority /\ as_mode authority = ARGUS_AUTHORITY_LOCAL_SERVICE /\
  as_owner authority = ARGUS_AUTH_OWNER_BROWSER /\
  br_command_type request = Some (env_command_type envelope) /\
  envelope = Envelope ARGUS_CMD_SRC_LOCAL_SERVICE_PORTAL (env_command_type envelope) (as_generation authority)
               (br_target_rpm_milli request) (br_forward request).

Definition accepted_text : bytes := str "{" ++ quoted (str "ok") ++ str ":true," ++ quoted (str "status") ++ str ":" ++ quoted (str "accepted") ++ str "}".

(** The response of a request that has been answered. *)
Definition response_told (s : command_story) : Prop :=
  exists status body, cs_sent s = [(status, body)] /\
  if decide (cs_answer s = Some ESP_OK) then status = str "200 OK" /\ body = accepted_text
  else success_status status = false /\ body <> accepted_text.

Section Story.
Variable req : httpd_req_t.

Definition call_admitted {X} (e : http_call X) (s : command_story) : Prop :=
  match e with Dispatch envelope => dispatch_admitted req envelope s | _ => True end.

(** Every dispatch of [p] is admitted, and [p] ends as [post]. *)
Fixpoint tells {A} (s : command_story) (p : handler A) (post : command_story -> A -> Prop) : Prop :=
  match p with
  | Ret a => post s a
  | Op e k => call_admitted e s /\ forall x, tells (tell_call e x s) (k x) post
  end.

Lemma tells_trace {A} (p : handler A) s post t a : tells s p post -> trace_of p t a ->
  (forall t1 v t2, t = t1 ++ v :: t2 -> call_admitted (an_call v) (foldl tell s t1)) /\ post (foldl tell s t) a.
Proof.
  intros Hp Ht. revert s Hp. induction Ht as [a|X e k x t a Ht IH]; intros s Hp; [split; [by intros [|]|done]|].
  destruct Hp as [He Hk]. destruct (IH _ (Hk x)) as [H1 H2]. split; [|exact H2].
  intros t1 v t2 E. destruct t1 as [|w t1]; injection E as <- E; [exact He|]. exact (H1 t1 v t2 E).
Qed.

Lemma tells_bind {A B} (p : handler A) (k : A -> handler B) s mid post :
  tells s p mid -> (forall s a, mid s a -> tells s (k a) post) -> tells s (p ≫= k) post.
Proof.
  intros Hp Hk. revert s Hp. induction p as [a|X e k' IH]; intros s Hp; [exact (Hk s a Hp)|].
  destruct Hp as [He Hn]. split; [exact He|]. intros x. exact (IH x _ (Hn x)).
Qed.

Lemma tells_call {X B} (e : http_call X) (k : X -> handler B) s post : call_admitted e s ->
  (forall x, tells (tell_call e x s) (k x) post) -> tells s (call e ≫= k) post.
Proof. done. Qed.

Lemma tells_headers html s : tells s (set_security_headers html) (fun s' _ => s' = s).
Proof.
  unfold set_security_headers. destruct (argus_http_security_headers html) as [type headers].
  apply tells_call; [done|]. intros ?. cbn [tell_call]. induction headers as [|h headers IH]; cbn [each]; [done|].
  apply tells_call; [done|]. intros ?. exact IH.
Qed.

Lemma tells_respond status body s : tells s (respond status body)
  (fun s' _ => s' = s <| cs_status := status |> <| cs_sent ::= fun l => l ++ [(status, body)] |>).
Proof. by destruct s. Qed.

(** The loop leaves the body it returns among the bytes received. *)
Lemma tells_recv content_len missing : forall body s, cs_body s = body ->
  (length body <= content_len)%nat -> (content_len <= length body + missing)%nat ->
  tells s (recv_loop true missing content_len body) (fun s' r =>
    s' = s <| cs_body := cs_body s' |> /\
    match r with inr body' => cs_body s' = body' /\ length body' = content_len | inl _ => True end).
Proof.
  induction missing as [|missing IH]; intros body s Hb Hl Hm; cbn [recv_loop].
  { split; [by destruct s|]. split; [done|lia]. }
  destruct (Nat.leb_spec content_len (length body)); [split; [by destruct s|]; split; [done|lia]|].
  apply tells_call; [done|]. intros [chunk data]. cbn [tell_call fst snd].
  destruct (_ || _) eqn:Hc; [split; [by destruct s|done]|].
  apply orb_false_iff in Hc as [H1 H2]. cbn [andb] in H2. apply Z.leb_gt in H1. apply Z.ltb_ge in H2.
  assert (Hn : length (body ++ arrived chunk data) = (length body + Z.to_nat chunk)%nat)
    by (unfold arrived; by rewrite length_app, chars_length).
  specialize (IH (body ++ arrived chunk data) (s <| cs_body ::= fun body => body ++ arrived chunk data |>)).
  destruct s. cbn in Hb. subst. apply IH; cbn; [done|lia|lia].
Qed.

Lemma tells_mono {A} (p : handler A) s (post post' : command_story -> A -> Prop) :
  (forall s a, post s a -> post' s a) -> tells s p post -> tells s p post'.
Proof.
  intros Hp. revert s. induction p as [a|X e k IH]; intros s Hs; [by apply Hp|]. destruct Hs as [Ha Hk]. split; [exact Ha|].
  intros x. exact (IH x _ (Hk x)).
Qed.

(** The responses that are not of a dispatched command. *)
Lemma tells_error result s : cs_sent s = [] -> cs_answer s = None ->
  tells s (send_error result) (fun s' _ => response_told s').
Proof.
  intros Hs Ha. destruct s. cbn in Hs, Ha. subst. unfold send_error. eapply tells_bind; [apply tells_headers|].
  intros s u ->. do 2 (apply tells_call; [done|]; intros ?; cbn [tell_call]).
  eexists _, _. split; [reflexivity|]. cbn. destruct result; by vm_compute.
Qed.

Lemma tells_response result s : cs_sent s = [] ->
  (cs_answer s = Some ESP_OK <-> result = ARGUS_BROWSER_ENDPOINT_OK) ->
  tells s (send_command_response result) (fun s' _ => response_told s').
Proof.
  intros Hs Ha. destruct s. cbn in Hs, Ha. subst. unfold send_command_response.
  destruct (argus_browser_command_response_for result) as [status body] eqn:Hr.
  eapply tells_bind; [apply tells_headers|]. intros s u ->.
  eapply tells_mono; [|apply tells_respond]. intros s' a ->. exists status, body. split; [done|]. cbn.
  destruct (decide (cs_answer0 = Some ESP_OK)) as [H|H].
  - apply Ha in H as ->. by injection Hr as <- <-.
  - destruct result; [by destruct H; apply Ha|..]; injection Hr as <- <-; by vm_compute.
Qed.

Lemma dispatched_result_ok err : dispatched_result err = ARGUS_BROWSER_ENDPOINT_OK <-> err = ESP_OK.
Proof. by destruct err. Qed.

(** The endpoint, after the gate and the permission of the decoded command. *)
Lemma tells_process security body s : cs_gate s = Some security -> cs_body s = body ->
  length body = rq_content_len req -> cs_answer s = None -> cs_sent s = [] ->
  (forall type, let '(result, request) := decode_request body in
     result = ARGUS_BROWSER_CMD_DECODE_OK -> br_is_valid request = true -> br_command_type request = Some type ->
     argus_authorization_require (Some (hc_principal security)) (command_capability type) = ARGUS_AUTHZ_ALLOW) ->
  tells s (argus_browser_command_endpoint_process true body (Some command_ops)) (fun s' outcome =>
    cs_sent s' = [] /\ (cs_answer s' = Some ESP_OK <-> eo_result outcome = ARGUS_BROWSER_ENDPOINT_OK)).
Proof.
  intros Hg Hb Hl Ha Hs Hauth. unfold argus_browser_command_endpoint_process. cbn [negb].
  destruct (decode_request body) as [decode_result request] eqn:Hd.
  assert (Hdecode : decode_result = ARGUS_BROWSER_CMD_DECODE_OK ->
    argus_browser_command_decode body = Some (ARGUS_BROWSER_CMD_DECODE_OK, request)).
  { intros ->. unfold decode_request in Hd. destruct (argus_browser_command_decode body) as [d|]; cbn in Hd; [by subst|done]. }
  assert (Hquiet : forall s' o, cs_sent s' = [] -> cs_answer s' = None -> eo_result o <> ARGUS_BROWSER_ENDPOINT_OK ->
    tells s' (mret o) (fun s' outcome =>
      cs_sent s' = [] /\ (cs_answer s' = Some ESP_OK <-> eo_result outcome = ARGUS_BROWSER_ENDPOINT_OK))).
  { intros s' o H1 H2 H3. split; [done|]. rewrite H2. by split. }
  destruct decode_result; try (by apply Hquiet). specialize (Hdecode eq_refl).
  destruct (br_is_valid request) eqn:Hv; [|by apply Hquiet].
  destruct (br_command_type request) as [type|] eqn:Htype; [|by apply Hquiet].
  specialize (Hauth type eq_refl eq_refl eq_refl). destruct s. cbn in Hg, Hb, Ha, Hs. subst.
  cbn [command_ops get_network_snapshot get_authority_snapshot dispatch].
  apply tells_call; [done|]. intros [err net]. cbn [tell_call fst snd]. destruct (is_ok err) eqn:He; cbn [negb]; [|by apply Hquiet].
  destruct (bool_decide_reflect (sn_mode net = ARGUS_NET_MODE_SERVICE_AP_ONLY)); cbn [negb]; [|by apply Hquiet].
  apply tells_call; [done|]. intros [err' authority]. cbn [tell_call fst snd]. destruct (is_ok err') eqn:He'; cbn [negb]; [|by apply Hquiet].
  destruct (browser_holds_service authority) eqn:Hown; cbn [negb]; [|by apply Hquiet].
  unfold browser_holds_service in Hown. apply andb_true_iff in Hown as [H1%bool_decide_eq_true H2%bool_decide_eq_true].
  apply tells_call.
  - split; [done|]. exists security, net, authority, request. cbn. split_and!; try done.
  - intros answer. split; [done|]. cbn. rewrite dispatched_result_ok. split; [by intros [= ->]|by intros ->].
Qed.

Lemma tells_command : tells no_story (command_post_handler req) (fun s _ => response_told s).
Proof.
  unfold command_post_handler. eapply tells_bind; [apply tells_headers|]. intros s u ->.
  unfold require_access. apply tells_bind with (mid := fun s access =>
    match access with
    | None => response_told s
    | Some security => s = no_story <| cs_gate := Some security |>
    end).
  { apply tells_call; [done|]. intros [result security]. destruct result; try done;
      (eapply tells_bind; [by apply tells_error|]; intros s u' H; exact H). }
  intros s [security|]; [intros ->|done].
  apply tells_bind with (mid := fun s r => s = no_story <| cs_gate := Some security |> <| cs_body := cs_body s |> /\
    (r.1 = ARGUS_BROWSER_BODY_RECEIVE_OK -> cs_body s = r.2 /\ length r.2 = rq_content_len req)).
  { unfold argus_browser_command_receive_body. repeat (destruct (_ : bool); [done|]).
    eapply tells_bind; [apply tells_recv; cbn; [done|lia|lia]|]. intros s' r [-> Hr]. split; [done|].
    destruct r as [chunk|body]; [|by intros _]. cbn [fst]. unfold chunk_verdict. repeat (destruct (_ : bool); [done|]). done. }
  intros s [receive_result body] [-> Hbody]. set (s1 := no_story <| cs_gate := Some security |> <| cs_body := cs_body s |>).
  destruct (bd_continue_request _) eqn:Hc; cbn [negb].
  2: { eapply tells_bind with (mid := fun s' _ => s' = s1).
    - destruct (bd_close_session _); [by apply tells_call|done].
    - intros s' u' ->. eapply tells_bind; [apply tells_response; [done|]|by intros].
      cbn. split; [done|]. by destruct receive_result. }
  assert (Hok : receive_result = ARGUS_BROWSER_BODY_RECEIVE_OK) by (by destruct receive_result).
  destruct (Hbody Hok) as [Hb Hl]. cbn [snd] in Hb, Hl.
  destruct (decode_request body) as [decode_result decoded] eqn:Hd.
  match goal with |- context [if negb ?b then send_error _ else _] => destruct b eqn:Hadm end; cbn [negb]; [|by apply tells_error].
  eapply tells_bind; [apply (tells_process security)|].
  - done.
  - exact Hb.
  - exact Hl.
  - done.
  - done.
  - intros type. rewrite Hd. intros -> Hv Ht. rewrite Hv, Ht in Hadm. by apply bool_decide_eq_true in Hadm.
  - intros s' outcome [H1 H2]. by apply tells_response.
Qed.
End Story.


(** A stop request in Local Service. *)
Definition stop_body : bytes := request_json ARGUS_CMD_TYPE_STOP_NORMAL 0 false.
Definition service_held : argus_authority_snapshot_t := AuthSnapshot ARGUS_AUTHORITY_LOCAL_SERVICE ARGUS_AUTH_OWNER_BROWSER 7.
Definition stop_envelope : argus_command_envelope_t := Envelope ARGUS_CMD_SRC_LOCAL_SERVICE_PORTAL ARGUS_CMD_TYPE_STOP_NORMAL 7 0 false.

(** The portal of a unit in Local Service that the console commands. *)
Definition commander : argus_http_security_context_t := HttpContext (console_principal 1 1) 2 1 (str "token").

Definition portal {X} (e : http_call X) : option X :=
  match e in http_call X return option X with
  | SetStatus _ => Some tt
  | SetType _ => Some tt
  | SetHeader _ _ => Some tt
  | Send _ => Some ESP_OK
  | Require _ _ => Some (ARGUS_HTTP_ACCESS_OK, commander)
  | Recv max_len => Some (Z.of_nat (length stop_body), stop_body)
  | NetSnapshotOf => Some (ESP_OK, demo_reset_net ARGUS_NET_MODE_SERVICE_AP_ONLY)
  | AuthoritySnapshotOf => Some (ESP_OK, service_held)
  | Dispatch _ => Some ESP_OK
  | _ => None
  end.

Fixpoint play {A} (p : handler A) : option (list http_event * A) :=
  match p with
  | Ret a => Some ([], a)
  | Op e k => x ← portal e; '(t, a) ← play (k x); Some (Answered e x :: t, a)
  end.

Lemma play_trace {A} (p : handler A) : forall t a, play p = Some (t, a) -> trace_of p t a.
Proof.
  induction p as [a|X e k IH]; intros t b; cbn [play]; [intros [= <- <-]; constructor|].
  destruct (portal e) as [x|]; [|done]. cbn [mbind option_bind]. specialize (IH x).
  destruct (play (k x)) as [[t' a]|]; [|done]. intros [= <- <-]. apply trace_op. by apply IH.
Qed.

Definition stop_request : httpd_req_t := HttpdReq HTTP_POST (length stop_body).
Definition stop_trace : list http_event := (default ([], ESP_FAIL) (play (command_post_handler stop_request))).1.

