(* ===== verification/HttpSurface.v ===== *)
(** * The surface of the portal

    What holds of every request, whatever the services answer, for all the handlers
    [argus_http_server_start] registers: those of [argus_http_server.c] and, after them,
    those of [argus_security_http.c]. *)

From S2P Require Import Prelude StateMgr CmdParser Authority Authorization MqttDecode SecurityRecords SecurityStore MachineDirectory Sessions AuthService AuditLog MachineAuth MachineAdmin UserAdmin ConfigStore NetLink ServicePolicy FactoryReset BrowserCommand HttpAccess HttpRoutes JsonBody Storage HttpCalls SecurityHttp BrowserEndpoint HttpServer.

(** ** What the history records *)

(** The cases of a call in the history. *)
Ltac noted :=
  match goal with e : http_call _ |- _ => destruct e end;
  try (match goal with op : machine_call _ |- _ => destruct op end);
  cbn [note_call note_machine]; unfold changed; repeat case_match;
  match goal with h : history |- _ => destruct h; cbn end.

Section History.
Variable r : argus_http_route_inventory_entry_t.

Lemma so_far_app h t1 t2 : foldl note h (t1 ++ t2) = foldl note (foldl note h t1) t2.
Proof. apply foldl_app. Qed.

Lemma all_allowed_app h t1 t2 : all_allowed r h (t1 ++ t2) <-> all_allowed r h t1 /\ all_allowed r (foldl note h t1) t2.
Proof. revert h. induction t1 as [|v t1 IH]; intros h; [by cbn; split; [|intros []]|]. cbn [app all_allowed foldl]. rewrite IH. tauto. Qed.

(** A call changes the gate only by passing it. *)
Lemma gate_noted X (e : http_call X) x h ctx m : h_gate (note_call e x h) = Some (ctx, m) ->
  h_gate h = Some (ctx, m) \/ exists required, Answered e x = Answered (Require required m) (ARGUS_HTTP_ACCESS_OK, ctx).
Proof.
  noted; try (by left). intros Hg. injection Hg as Hc Hm. right. destruct x as [result ctx']. cbn in *. subst. by eexists.
Qed.

Lemma gate_event t : forall h ctx m, h_gate (foldl note h t) = Some (ctx, m) ->
  h_gate h = Some (ctx, m) \/ exists required, Answered (Require required m) (ARGUS_HTTP_ACCESS_OK, ctx) ∈ t.
Proof.
  induction t as [|[X e x] t IH]; intros h ctx m Hg; [by left|]. destruct (IH _ _ _ Hg) as [H|(required & H)].
  - destruct (gate_noted X e x h ctx m H) as [H'|(required & ->)]; [by left|]. right. exists required. apply list_elem_of_here.
  - right. exists required. by apply list_elem_of_further.
Qed.

(** The gate passed stays the one passed. *)
Lemma gate_kept X (e : http_call X) x h g : allowed r e h -> h_gate h = Some g -> h_gate (note_call e x h) = Some g.
Proof. intros [_ _ _ Hp _ _] Hg. noted; cbn in Hg, Hp; congruence. Qed.

Lemma gate_stays t : forall h g, all_allowed r h t -> h_gate h = Some g -> h_gate (foldl note h t) = Some g.
Proof.
  induction t as [|[X e x] t IH]; intros h g Ha Hg; [done|]. destruct Ha as [Ha Ht]. eapply IH; [exact Ht|]. by apply gate_kept.
Qed.

Lemma recent_noted X (e : http_call X) x h : h_reauthenticated (note_call e x h) = true ->
  h_reauthenticated h = true \/ exists index, Answered e x = Answered (RecentlyReauthenticated index) true.
Proof. noted; try (by left). intros ->. right. by eexists. Qed.

(** The session that was asked about is the one the gate admitted. *)
Lemma recent_event t : forall h ctx m, all_allowed r h t -> h_gate (foldl note h t) = Some (ctx, m) ->
  h_reauthenticated (foldl note h t) = true ->
  h_reauthenticated h = true \/ Answered (RecentlyReauthenticated (hc_session_index ctx)) true ∈ t.
Proof.
  induction t as [|[X e x] t IH]; intros h ctx m Ha Hg Hr; [by left|]. destruct Ha as [Ha Ht].
  destruct (IH _ _ _ Ht Hg Hr) as [H|H]; [|right; by apply list_elem_of_further].
  destruct (recent_noted X e x h H) as [H'|(index & He)]; [by left|]. right.
  assert (Hindex : exists ctx' m', h_gate h = Some (ctx', m') /\ index = hc_session_index ctx').
  { assert (Hp : forall v, v = Answered (RecentlyReauthenticated index) true -> proven (an_call v) h ->
        exists ctx' m', h_gate h = Some (ctx', m') /\ index = hc_session_index ctx') by (by intros v ->).
    by apply (Hp _ He), (al_proven _ _ _ Ha). }
  destruct Hindex as (ctx' & m' & Hg' & ->). rewrite He. cbn [foldl] in Hg.
  assert (Hs : h_gate (foldl note (note h (Answered e x)) t) = Some (ctx', m')) by (eapply gate_stays; [exact Ht|]; by apply gate_kept).
  rewrite Hs in Hg. injection Hg as -> ->. apply list_elem_of_here.
Qed.

(** ** Records *)

(** The call that opened the record [m]. *)
Definition opens (m : option argus_security_audit_mutation_t) (v : http_event) : Prop :=
  (match an_call v in http_call X return X -> Prop with
   | AuditBegin _ _ _ _ _ _ _ => fun x => x = (ESP_OK, m)
   | _ => fun _ => False
   end) (an_answer v).

(** A call that is not part of a record, nor the response. *)
Definition plain (v : http_event) : Prop :=
  match an_call v with
  | AuditBegin _ _ _ _ _ _ _ | AuditFinish _ _ | Send _ => False
  | e => audited e = false
  end.

(** Whether the change of an audited call was made. *)
Definition succeeded (v : http_event) : bool :=
  (match an_call v in http_call X return X -> bool with
   | Admin _ _ => is_ok
   | Machine _ op =>
       match op in machine_call X return X -> bool with
       | MachineEnroll _ | MachineRotate _ => fun x => is_ok x.1
       | MachineSetPermissions _ _ => fun x => is_ok x.1
       | MachineSetEnabled _ _ | MachineRevoke _ | MachineDelete _ => is_ok
       end
   | RevokePrincipal _ => fun x => x
   | ReplaceApSecret _ _ | SetRecoveryState _ | SetConsoleVerifier _ _ => is_ok
   | _ => fun _ => false
   end) (an_answer v).

Lemma open_noted X (e : http_call X) x h m : h_audit (note_call e x h) = Some (m, None) -> allowed r e h ->
  (h_audit h = Some (m, None) /\ plain (Answered e x)) \/ opens m (Answered e x).
Proof.
  intros Ho [_ Hrec _ _ _ _]. revert Ho Hrec.
  noted; intros Ho Hrec; cbn in Hrec; try discriminate; try (left; split; [exact Ho|reflexivity]);
    try (destruct h_audit as [[]|]; discriminate); try (destruct Hrec; congruence); try congruence.
  right. destruct x as [err o]. cbn in *. apply is_ok_true in H as ->. by injection Ho as ->.
Qed.

(** The record that is open was opened, and nothing but plain calls came since. *)
Lemma open_event t : forall h m, all_allowed r h t -> h_audit (foldl note h t) = Some (m, None) ->
  (h_audit h = Some (m, None) /\ Forall plain t) \/ exists u1 b u2, t = u1 ++ b :: u2 /\ opens m b /\ Forall plain u2.
Proof.
  induction t as [|[X e x] t IH]; intros h m Ha Ho; [by left|]. destruct Ha as [Ha Ht].
  destruct (IH _ _ Ht Ho) as [[H Hp]|(u1 & b & u2 & -> & Hb & Hp)].
  - destruct (open_noted X e x h m H Ha) as [[H' He]|Hb]; [by left; split; [|constructor]|]. right. by exists [], (Answered e x), t.
  - right. by exists (Answered e x :: u1), b, u2.
Qed.

(** A change that was made stays in its record until the record is closed with it. *)
Lemma close_noted X (e : http_call X) x h m ok : allowed r e h -> h_audit h = Some (m, Some ok) ->
  (h_audit (note_call e x h) = Some (m, Some ok) /\ plain (Answered e x)) \/
  exists fin, Answered e x = Answered (AuditFinish m ok) fin.
Proof.
  intros [_ Hrec _ _ _ _] Ho. revert Ho Hrec.
  noted; intros Ho Hrec; cbn in Hrec, Ho; try (left; split; [exact Ho|reflexivity]); try (destruct Hrec; congruence); try congruence;
    try (destruct (Hrec eq_refl) as (? & ?); congruence).
  destruct Hrec as (result & H1 & H2). rewrite Ho in H1. injection H1 as <- <-. cbn in H2. subst. right. by eexists.
Qed.

Lemma close_event t : forall h m ok, all_allowed r h t -> h_audit h = Some (m, Some ok) -> h_audit (foldl note h t) = None ->
  exists w1 fin w2, t = w1 ++ Answered (AuditFinish m ok) fin :: w2 /\ Forall plain w1.
Proof.
  induction t as [|[X e x] t IH]; intros h m ok Ha Ho Hn; [cbn in Hn; congruence|]. destruct Ha as [Ha Ht].
  destruct (close_noted X e x h m ok Ha Ho) as [[H Hp]|(fin & He)].
  - destruct (IH _ _ _ Ht H Hn) as (w1 & fin & w2 & -> & Hw). exists (Answered e x :: w1), fin, w2. by split; [|constructor].
  - exists [], fin, t. by rewrite He.
Qed.

Lemma change_noted X (e : http_call X) x h m : audited e = true -> h_audit h = Some (m, None) ->
  h_audit (note_call e x h) = Some (m, Some (succeeded (Answered e x))).
Proof. intros Ha Ho. revert Ha Ho. noted; intros Ha Ho; try discriminate Ha; cbn in Ho |- *; subst; try done; by rewrite ?H. Qed.

(** ** The response *)

Definition is_send (v : http_event) : bool := match an_call v with Send _ => true | _ => false end.

Definition has {A} (o : option A) : nat := match o with Some _ => 1 | None => 0 end.

Lemma response_noted X (e : http_call X) x h : allowed r e h ->
  has (h_sent (note_call e x h)) = (Nat.b2n (is_send (Answered e x)) + has (h_sent h))%nat.
Proof. intros [_ _ _ _ Hs _]. noted; cbn in Hs; subst; done. Qed.

Lemma response_count t : forall h, all_allowed r h t ->
  has (h_sent (foldl note h t)) = (length (List.filter is_send t) + has (h_sent h))%nat.
Proof.
  induction t as [|[X e x] t IH]; intros h Ha; [done|]. destruct Ha as [Ha Ht].
  pose proof (response_noted X e x h Ha) as Hr. specialize (IH _ Ht).
  cbn [foldl List.filter]. rewrite IH. change (note h (Answered e x)) with (note_call e x h). rewrite Hr. destruct (is_send _); cbn; lia.
Qed.

(** A handler that answered did so once. *)
Lemma one_response t : all_allowed r no_history t -> h_sent (so_far t) <> None -> length (List.filter is_send t) = 1%nat.
Proof.
  intros Ha Hf. pose proof (response_count t _ Ha) as Hn. unfold so_far in Hf.
  destruct (h_sent (foldl note no_history t)); [|done]. cbn in Hn. lia.
Qed.

Lemma sent_noted X (e : http_call X) x h ok : h_sent (note_call e x h) = Some ok ->
  h_sent h = Some ok \/ exists body err, Answered e x = Answered (Send body) err /\ is_ok err = ok.
Proof. noted; try (by left); intros Hs; injection Hs as <-; right; by eexists _, _. Qed.

Lemma sent_event t : forall h ok, h_sent (foldl note h t) = Some ok ->
  h_sent h = Some ok \/ exists body err, Answered (Send body) err ∈ t /\ is_ok err = ok.
Proof.
  induction t as [|[X e x] t IH]; intros h ok Hs; [by left|]. destruct (IH _ _ Hs) as [H|(body & err & H & Hok)].
  - destruct (sent_noted X e x h ok H) as [H'|(body & err & He & Hok)]; [by left|]. right. exists body, err.
    rewrite He. split; [apply list_elem_of_here|done].
  - right. exists body, err. split; [by apply list_elem_of_further|done].
Qed.

(** ** The secret *)

(** The machine was enrolled or given a new credential, which is [c]. *)
Definition mints (c : argus_machine_credential_once_t) (v : http_event) : Prop :=
  (match an_call v in http_call X return X -> Prop with
   | Machine _ op =>
       match op in machine_call X return X -> Prop with
       | MachineEnroll _ | MachineRotate _ => fun x => x = (ESP_OK, c)
       | _ => fun _ => False
       end
   | _ => fun _ => False
   end) (an_answer v).

Lemma mints_audited c v : mints c v -> audited (an_call v) = true.
Proof. destruct v as [X e x]. unfold mints. cbn. by destruct e. Qed.

Lemma mint_noted X (e : http_call X) x h c : h_minted (note_call e x h) = Some c ->
  h_minted h = Some c \/ mints c (Answered e x).
Proof.
  noted; try (by left); intros Hc; try discriminate; try (by left).
  - right. unfold mints. cbn. destruct x as [err c']. cbn in *. apply is_ok_true in H as ->. by injection Hc as ->.
  - right. unfold mints. cbn. destruct x as [err c']. cbn in *. apply is_ok_true in H as ->. by injection Hc as ->.
  - destruct h_minted; [|done]. cbn in Hc. case_bool_decide; [done|]. by left.
Qed.

Lemma mint_event t : forall h c, h_minted (foldl note h t) = Some c -> h_minted h = Some c \/ exists v, v ∈ t /\ mints c v.
Proof.
  induction t as [|[X e x] t IH]; intros h c Hc; [by left|]. destruct (IH _ _ Hc) as [H|(v & H & Hv)].
  - destruct (mint_noted X e x h c H) as [H'|H']; [by left|]. right. exists (Answered e x). split; [apply list_elem_of_here|done].
  - right. exists v. split; [by apply list_elem_of_further|done].
Qed.

Lemma minted_noted X (e : http_call X) x h c : allowed r e h -> h_minted h = Some c ->
  h_minted (note_call e x h) = Some c \/
  (Answered e x = Answered (Send (credential_text c)) ESP_OK /\ h_outcome h = Some true) \/
  exists err, Answered e x = Answered (Quarantine (co_identifier c)) err.
Proof.
  intros [_ _ Hd _ _ _] Hm. revert Hd Hm. noted; intros Hd Hm; cbn in Hd, Hm; try (by left); try congruence.
  - right. left. destruct (Hd c Hm) as [-> Ho]. apply is_ok_true in H as ->. by split.
  - subst. cbn. case_bool_decide as Hc; [right; right|by left]. subst. by eexists.
Qed.

Lemma minted_event t : forall h c, all_allowed r h t -> h_minted h = Some c -> h_minted (foldl note h t) = None ->
  exists w1 v w2, t = w1 ++ v :: w2 /\ h_minted (foldl note h w1) = Some c /\
    ((v = Answered (Send (credential_text c)) ESP_OK /\ h_outcome (foldl note h w1) = Some true) \/
     exists err, v = Answered (Quarantine (co_identifier c)) err).
Proof.
  induction t as [|[X e x] t IH]; intros h c Ha Hm Hn; [cbn in Hn; congruence|]. destruct Ha as [Ha Ht].
  destruct (minted_noted X e x h c Ha Hm) as [H|H].
  - destruct (IH _ _ Ht H Hn) as (w1 & v & w2 & -> & Hw & Hv). exists (Answered e x :: w1), v, w2. by split_and!.
  - by exists [], (Answered e x), t.
Qed.
End History.

(** ** The registered handlers *)

Section Surface.
Context (esp_err_to_name : esp_err_t -> bytes) (wifi_reason_code : wifi_reason_t -> Z).
Context (argus_login_html argus_controls_html argus_commission_html : bytes).

Definition REGISTERED : list httpd_uri_t :=
  MAIN_ROUTES esp_err_to_name wifi_reason_code argus_login_html argus_controls_html argus_commission_html ++ SECURITY_ROUTES.

(** The entry of the inventory under which a handler is registered. *)
Definition registered_entry (u : httpd_uri_t) : argus_http_route_inventory_entry_t := inventory_entry u.1.1 u.1.2.

Lemma registered_safe : Forall (fun u => forall req, safe (registered_entry u) no_history (u.2 req) (fun h _ => finished h)) REGISTERED.
Proof.
  unfold REGISTERED, MAIN_ROUTES, SECURITY_ROUTES. cbn [app]. repeat apply List.Forall_cons; [..|apply List.Forall_nil]; intros req.
  - apply login_get_safe.
  - apply login_post_safe.
  - apply session_get_safe.
  - apply logout_post_safe.
  - apply reauth_post_safe.
  - apply change_own_post_safe.
  - apply controls_get_safe.
  - apply commission_get_safe.
  - apply status_get_safe.
  - apply identity_get_safe.
  - apply portal_get_safe.
  - apply controls_alias_safe.
  - by apply page_alias_safe.
  - apply config_get_safe.
  - apply config_save_safe.
  - by apply page_alias_safe.
  - by apply page_alias_safe.
  - apply restart_safe.
  - apply service_enter_safe.
  - apply service_exit_safe.
  - apply reconnect_post_safe.
  - apply command_post_safe.
  - apply factory_reset_safe.
  - apply accounts_get_safe.
  - apply accounts_post_safe.
  - apply account_action_post_safe.
  - apply roles_get_safe.
  - apply roles_post_safe.
  - apply audit_get_safe.
  - apply ap_password_post_safe.
  - apply recovery_exit_post_safe.
  - apply machines_get_safe.
  - apply machines_post_safe.
  - apply machine_action_post_safe.
Qed.

(** Every execution of a registered handler keeps to the rules, and ends as it should. *)
Lemma registered_trace path method f req t a : List.In (path, method, f) REGISTERED -> trace_of (f req) t a -> sound no_history t ->
  all_allowed (inventory_entry path method) no_history t /\ finished (so_far t).
Proof.
  intros Hin Ht Hs. pose proof (proj1 (List.Forall_forall _ _) registered_safe _ Hin req) as Hsafe.
  exact (safe_trace _ _ _ _ _ _ Hsafe Ht Hs).
Qed.

(** The inventory entry of a path and method, when there is one. *)
Definition entry_found (p : bytes * httpd_method_t) : bool :=
  let r := inventory_entry p.1 p.2 in
  bool_decide (rt_path r = Some p.1) && bool_decide (rt_method r = p.2) && rt_registered r &&
  existsb (fun r' => bool_decide (rt_path r' = rt_path r) && bool_decide (rt_method r' = rt_method r)) ROUTES.

Lemma find_in {A} (p : A -> bool) l d : existsb p l = true -> List.In (default d (List.find p l)) l.
Proof.
  induction l as [|x l IH]; [done|]. cbn. destruct (p x) eqn:Hp; cbn; [by left|]. right. by apply IH.
Qed.

Lemma entries_found : forallb entry_found (fst <$> REGISTERED) = true.
Proof. vm_compute. reflexivity. Qed.

Lemma registered_entry_found path method f : List.In (path, method, f) REGISTERED ->
  let r := inventory_entry path method in
  List.In r ROUTES /\ rt_path r = Some path /\ rt_method r = method /\ rt_registered r = true.
Proof.
  intros Hin r. pose proof entries_found as He. rewrite forallb_forall in He.
  specialize (He (path, method) (List.in_map fst _ _ Hin)). unfold entry_found in He. cbn [fst snd] in He. fold r in He.
  apply andb_true_iff in He as [He Hex]. apply andb_true_iff in He as [He Hr]. apply andb_true_iff in He as [Hp Hm].
  apply bool_decide_eq_true in Hp, Hm. split_and!; try done. apply find_in. by rewrite Hp, Hm in Hex.
Qed.
End Surface.

(** ** What holds of every request *)

Section Theorems.
Context (esp_err_to_name : esp_err_t -> bytes) (wifi_reason_code : wifi_reason_t -> Z).
Context (argus_login_html argus_controls_html argus_commission_html : bytes).
Abbreviation registered := (REGISTERED esp_err_to_name wifi_reason_code argus_login_html argus_controls_html argus_commission_html).

(** C2: no request gets past the route inventory: whatever the services answer, each call
    of a registered handler that reads or changes what the portal protects comes after the
    gate admitted the request, with the protection and the permissions the inventory
    promises for the handler's own route; the admitted principal holds the call's own
    permission, acts in its own name, and where the call asks for it the session that was
    admitted had just been reauthenticated. *)
Theorem surface_enforces_inventory path method f req t a t1 v t2 :
  List.In (path, method, f) registered -> trace_of (f req) t a -> sound no_history t -> t = t1 ++ v :: t2 ->
  exists r, List.In r ROUTES /\ rt_path r = Some path /\ rt_method r = method /\ rt_registered r = true /\
  match demand_of (an_call v) with
  | None => True
  | Some d => exists ctx mutation required,
      Answered (Require required mutation) (ARGUS_HTTP_ACCESS_OK, ctx) ∈ t1 /\ route_admits r ctx mutation /\
      (de_mutation d = true -> mutation = true) /\ holds (hc_principal ctx) (de_permissions d) /\
      (de_reauthenticated d = true -> Answered (RecentlyReauthenticated (hc_session_index ctx)) true ∈ t1) /\
      match de_actor d with Some actor => actor = hc_principal ctx | None => True end
  end.
Proof.
  intros Hin Ht Hs ->. destruct (registered_entry_found _ _ _ _ _ _ _ _ Hin) as (H1 & H2 & H3 & H4).
  destruct (registered_trace _ _ _ _ _ _ _ _ _ _ _ Hin Ht Hs) as [Ha _]. exists (inventory_entry path method). do 4 (split; [done|]).
  apply all_allowed_app in Ha as [Ha1 [Hv _]]. destruct Hv as [Hauth _ _ _ _ _]. unfold authorized in Hauth.
  destruct (demand_of (an_call v)) as [d|]; [|done]. destruct Hauth as (ctx & mutation & Hg & Hr & Hm & Hh & Hre & Hac).
  destruct (gate_event _ _ _ _ Hg) as [H|(required & Hreq)]; [done|]. exists ctx, mutation, required. split_and!; try done.
  intros Hd. destruct (recent_event _ _ _ _ _ Ha1 Hg (Hre Hd)) as [H|H]; done.
Qed.

(** C9: every change of accounts, roles, machines, a user's own or the console's password,
    the access-point secret and the recovery state that a request asks the administrative
    services for ([audited]) is made between the two halves of one audit record, opened
    before it and closed after it with what became of it, and nothing is answered in
    between; when the last record could not be completed the response does not report
    success; and the other change of a machine, its quarantine, is only asked for a machine
    whose credential the same request has minted before, under such a record.  (Changes of
    the configuration, [ConfigCommit], are not recorded by the code.) *)
Theorem surface_changes_recorded path method f req t a t1 v t2 :
  List.In (path, method, f) registered -> trace_of (f req) t a -> sound no_history t -> t = t1 ++ v :: t2 ->
  (audited (an_call v) = true -> exists m u1 b u2 w1 fin w2,
     t1 = u1 ++ b :: u2 /\ opens m b /\ Forall plain u2 /\
     t2 = w1 ++ Answered (AuditFinish m (succeeded v)) fin :: w2 /\ Forall plain w1) /\
  (is_send v = true -> h_outcome (so_far t1) = Some false -> success_status (h_status (so_far t1)) = false) /\
  (forall identifier answer, v = Answered (Quarantine identifier) answer ->
     exists c w, w ∈ t1 /\ mints c w /\ audited (an_call w) = true /\ co_identifier c = identifier).
Proof.
  intros Hin Ht Hs ->. destruct (registered_trace _ _ _ _ _ _ _ _ _ _ _ Hin Ht Hs) as [Ha [_ Hc _]].
  apply all_allowed_app in Ha as [Ha1 Hav]. destruct Hav as [Hv Ha2]. unfold so_far in *. rewrite so_far_app in Hc. cbn [foldl] in Hc.
  destruct v as [X e x]. cbn [an_call] in *. split.
  - intros Haud. destruct Hv as [_ Hrec _ _ _ _].
    assert (Hopen : exists m, h_audit (foldl note no_history t1) = Some (m, None)) by (destruct e; try discriminate; exact (Hrec eq_refl)).
    destruct Hopen as [m Hm]. destruct (open_event _ _ _ _ Ha1 Hm) as [[H _]|(u1 & b & u2 & -> & Hb & Hu)]; [done|].
    assert (Hafter : h_audit (note (foldl note no_history (u1 ++ b :: u2)) (Answered e x)) = Some (m, Some (succeeded (Answered e x))))
      by (by apply change_noted).
    destruct (close_event _ _ _ _ _ Ha2 Hafter Hc) as (w1 & fin & w2 & -> & Hw). by exists m, u1, b, u2, w1, fin, w2.
  - split; [destruct Hv as [_ Hrec _ _ _ _]; destruct e; try discriminate; intros _; exact (proj2 Hrec)|].
    intros identifier answer He. destruct Hv as [_ _ Hd _ _ _].
    assert (Hq : exists c, h_minted (foldl note no_history t1) = Some c /\ co_identifier c = identifier).
    { change (disclosed (an_call (Answered e x)) (foldl note no_history t1)) in Hd. rewrite He in Hd. exact Hd. }
    destruct Hq as (c & Hc' & Hid). destruct (mint_event _ _ _ Hc') as [H|(w & Hw & Hm)]; [done|].
    exists c, w. split_and!; [done|done|by apply (mints_audited c)|done].
Qed.

(** Every request is answered exactly once, and a transition that cuts the client off
    starts only after that response was sent whole and its change was made and recorded. *)
Theorem surface_answers_once path method f req t a :
  List.In (path, method, f) registered -> trace_of (f req) t a -> sound no_history t ->
  length (List.filter is_send t) = 1%nat /\
  (forall t1 name answer t2, t = t1 ++ Answered (StartTimer name) answer :: t2 ->
     h_outcome (so_far t1) = Some true /\ exists body, Answered (Send body) ESP_OK ∈ t1).
Proof.
  intros Hin Ht Hs. destruct (registered_trace _ _ _ _ _ _ _ _ _ _ _ Hin Ht Hs) as [Ha [Hf _ _]]. split.
  - exact (one_response _ _ Ha Hf).
  - intros t1 name answer t2 ->. apply all_allowed_app in Ha as [_ [Hv _]]. destruct Hv as [_ _ _ _ [Hsent Hout] _]. split; [exact Hout|].
    destruct (sent_event _ _ _ Hsent) as [H|(body & err & H & Hok)]; [done|]. apply is_ok_true in Hok as ->. by exists body.
Qed.

(** C31: the secret of a machine that was enrolled or given a new credential is disclosed to
    the client at most once: the request is answered by exactly one response, and while
    the secret is pending that response can only be the text made for it, after its record
    was completed; and when that response is not sent whole the quarantine of the machine
    is asked for (its own failure is not handled). *)
Theorem surface_secret_disclosed_once path method f req t a t1 v t2 c :
  List.In (path, method, f) registered -> trace_of (f req) t a -> sound no_history t -> t = t1 ++ v :: t2 ->
  h_minted (note (so_far t1) v) = Some c ->
  (exists w1 w w2, t2 = w1 ++ w :: w2 /\
    ((w = Answered (Send (credential_text c)) ESP_OK /\ h_outcome (so_far (t1 ++ v :: w1)) = Some true) \/
     exists err, w = Answered (Quarantine (co_identifier c)) err)) /\
  (forall s1 body err s2, t = s1 ++ Answered (Send body) err :: s2 -> h_minted (so_far s1) = Some c ->
     body = credential_text c /\ h_outcome (so_far s1) = Some true) /\
  length (List.filter is_send t) = 1%nat.
Proof.
  intros Hin Ht Hs -> Hm. destruct (registered_trace _ _ _ _ _ _ _ _ _ _ _ Hin Ht Hs) as [Ha [Hf _ Hd]]. split_and!.
  - apply all_allowed_app in Ha as [_ [_ Ha2]]. unfold so_far in *. rewrite so_far_app in Hd. cbn [foldl] in Hd.
    destruct (minted_event _ _ _ _ Ha2 Hm Hd) as (w1 & w & w2 & -> & _ & Hw). exists w1, w, w2. split; [done|].
    by rewrite so_far_app.
  - intros s1 body err s2 He Hm'. rewrite He in Ha. apply all_allowed_app in Ha as [_ [Hv _]]. destruct Hv as [_ _ Hdis _ _ _].
    exact (Hdis c Hm').
  - exact (one_response _ _ Ha Hf).
Qed.
End Theorems.

(** ** Passwords and sessions *)

(** The password of an account was verified. *)
Definition verifies (p : argus_principal_t) (v : http_event) : Prop :=
  (match an_call v in http_call X return X -> Prop with
   | Login _ _ _ => fun x => lo_result x = ARGUS_LOGIN_SUCCESS /\ lo_principal x = Some p
   | _ => fun _ => False
   end) (an_answer v).

Lemma login_noted X (e : http_call X) x h p : h_login (note_call e x h) = Some p ->
  h_login h = Some p \/ verifies p (Answered e x).
Proof. noted; try (by left); intros Hl; try discriminate. right. by split. Qed.

Lemma login_event t : forall h p, h_login (foldl note h t) = Some p -> h_login h = Some p \/ exists v, v ∈ t /\ verifies p v.
Proof.
  induction t as [|[X e x] t IH]; intros h p Hl; [by left|]. destruct (IH _ _ Hl) as [H|(v & H & Hv)].
  - destruct (login_noted X e x h p H) as [H'|H']; [by left|]. right. exists (Answered e x). split; [apply list_elem_of_here|done].
  - right. exists v. split; [by apply list_elem_of_further|done].
Qed.

(** The durable record of the login of [p] reached the log. *)
Definition logs_in (p : argus_principal_t) (v : http_event) : Prop :=
  (match an_call v in http_call X return X -> Prop with
   | AuditAppend type outcome principal_type actor _ _ _ _ durable => fun x =>
       x = ESP_OK /\ type = ARGUS_AUDIT_LOGIN_SUCCESS /\ outcome = ARGUS_AUDIT_OUTCOME_SUCCESS /\
       principal_type = principal_number (pr_type p) /\ actor = pr_identifier p /\ durable = true
   | _ => fun _ => False
   end) (an_answer v).

Lemma logged_noted X (e : http_call X) x h p : h_logged (note_call e x h) = Some p ->
  h_logged h = Some p \/ (h_login h = Some p /\ logs_in p (Answered e x)).
Proof.
  noted; try (by left). intros Hl. right. subst. unfold logs_in. cbn in Hl |- *.
  destruct h_login as [q|]; [|done]. cbn in Hl. destruct (is_ok x && _) eqn:Hr; [|done]. injection Hl as ->.
  unfold is_login_record in Hr. rewrite !andb_true_iff, is_ok_true, !Z.eqb_eq, bool_decide_eq_true in Hr.
  split; [done|]. tauto.
Qed.

Lemma logged_event t : forall h p, h_logged (foldl note h t) = Some p ->
  h_logged h = Some p \/ exists t1 v t2, t = t1 ++ v :: t2 /\ h_login (foldl note h t1) = Some p /\ logs_in p v.
Proof.
  induction t as [|[X e x] t IH]; intros h p Hl; [by left|]. destruct (IH _ _ Hl) as [H|(t1 & v & t2 & -> & H & Hv)].
  - destruct (logged_noted X e x h p H) as [H'|[H' Hv]]; [by left|]. right. by exists [], (Answered e x), t.
  - right. by exists (Answered e x :: t1), v, t2.
Qed.

(** What needs the password of the session's own account in the same request. *)
Definition needs_password {X} (e : http_call X) : bool :=
  match e with
  | MarkReauthenticated _ | SetConsoleVerifier _ _ | Admin _ (ReplaceOwnPassword _) => true
  | _ => false
  end.

Section Passwords.
Context (esp_err_to_name : esp_err_t -> bytes) (wifi_reason_code : wifi_reason_t -> Z).
Context (argus_login_html argus_controls_html argus_commission_html : bytes).
Abbreviation registered := (REGISTERED esp_err_to_name wifi_reason_code argus_login_html argus_controls_html argus_commission_html).


(** ** Registration *)

(** The server and the inventory agree: a path and method has a registered handler
    exactly when the inventory has a registered entry for it; no two handlers compete for
    one, and they fit the server's table of 40. *)
Theorem registration_complete :
  (forall path method, (exists f, List.In (path, method, f) registered) <->
     exists r, List.In r ROUTES /\ rt_path r = Some path /\ rt_method r = method /\ rt_registered r = true) /\
  NoDup (fst <$> registered) /\ (length registered <= 40)%nat.
Proof.
  assert (Hback : forallb (fun r => negb (rt_registered r) ||
    existsb (fun p => bool_decide (Some p.1 = rt_path r) && bool_decide (p.2 = rt_method r)) (fst <$> registered)) ROUTES = true)
    by (vm_compute; reflexivity).
  split_and!; [|apply (bool_decide_eq_true_1 _); vm_compute; reflexivity|by apply Nat.leb_le]. intros path method. split.
  - intros [f Hin]. apply registered_entry_found in Hin. by exists (inventory_entry path method).
  - intros (r & Hin & Hp & Hm & Hr). rewrite forallb_forall in Hback. specialize (Hback r Hin). rewrite Hr in Hback. cbn [negb orb] in Hback.
    apply existsb_exists in Hback as ([path' method'] & Hin' & He). cbn [fst snd] in He. apply andb_true_iff in He as [H1 H2].
    apply bool_decide_eq_true in H1, H2. rewrite Hp in H1. injection H1 as ->. subst method'. rewrite Hm in Hin'.
    apply list_elem_of_In, list_elem_of_fmap in Hin' as ([[p m] f] & Heq & Hf). cbn in Heq. injection Heq as <- <-.
    exists f. by apply list_elem_of_In.
Qed.
End Passwords.

(** ** The life of the server *)

Lemma register_routes_all register routes : forall i done, register_routes register i routes = (ESP_OK, done) -> done = routes.
Proof.
  induction routes as [|u routes IH]; intros i done H; cbn in H; [by injection H as <-|].
  destruct (register i) eqn:Hr; try (injection H as H _; discriminate).
  destruct (register_routes register (S i) routes) as [err rest] eqn:He. injection H as -> <-. f_equal. by eapply IH.
Qed.

Section Life.
Context (esp_err_to_name : esp_err_t -> bytes) (wifi_reason_code : wifi_reason_t -> Z).
Context (argus_login_html argus_controls_html argus_commission_html : bytes).
Abbreviation registered := (REGISTERED esp_err_to_name wifi_reason_code argus_login_html argus_controls_html argus_commission_html).
Abbreviation start_server :=
  (argus_http_server_start esp_err_to_name wifi_reason_code argus_login_html argus_controls_html argus_commission_html).

(** C37: the server starts with all of its routes or not at all: a start of a stopped server
    that succeeds leaves it running with every handler registered, one that fails leaves it
    stopped unless the rollback itself could not stop it, and before initialisation nothing
    starts. *)
Theorem server_starts_whole start register stop security s :
  let '(err, s') := start_server start register stop security s in
  (err = ESP_OK -> hs_server s = false -> argus_http_server_is_running s' = true /\ hs_routes s' = registered) /\
  (err <> ESP_OK -> hs_server s = false -> stop = ESP_OK -> argus_http_server_is_running s' = false) /\
  (hs_initialized s = false -> err = ESP_ERR_INVALID_STATE /\ s' = s) /\
  (hs_initialized s = true -> hs_server s = true -> err = ESP_OK /\ s' = s).
Proof.
  unfold argus_http_server_start. destruct s as [initialized server routes]. cbn [hs_initialized hs_server].
  destruct initialized; cbn [negb]; [|by split_and!]. destruct server; [by split_and!|].
  destruct start; cbn [is_ok negb]; try (by split_and!).
  destruct (register_routes register 0 _) as [err main] eqn:Hmain.
  destruct (is_ok err) eqn:Herr; cbn [negb].
  2: { rewrite Herr. split_and!; try done. intros _ _ ->. done. }
  apply is_ok_true in Herr as ->. apply register_routes_all in Hmain as ->.
  unfold argus_security_http_register. cbn [negb orb]. destruct (negb (sh_ap_apply_timer security) || _).
  { cbn [is_ok]. split_and!; try done. intros _ _ ->. done. }
  destruct (register_routes _ 0 SECURITY_ROUTES) as [err pages] eqn:Hpages. destruct (is_ok err) eqn:Herr.
  - apply is_ok_true in Herr as ->. apply register_routes_all in Hpages as ->. by split_and!.
  - split_and!; try done. intros _ _ ->. done.
Qed.

(** When the rollback cannot stop the server, the handle is kept; the next start takes it
    for a running server and reports success, with the routes that made it. *)
Lemma failed_rollback_starts :
  let boot := HttpServer true false [] in
  let register i := if (i =? 20)%nat then ESP_FAIL else ESP_OK in
  let '(err, s) := start_server ESP_OK register ESP_FAIL security_http_boot boot in
  err = ESP_FAIL /\ length (hs_routes s) = 20%nat /\
  start_server ESP_OK (fun _ => ESP_OK) ESP_OK security_http_boot s = (ESP_OK, s).
Proof. by split_and!. Qed.
End Life.

(** ** Requests

    Services that answer as in an ordinary session of the console, over a parsed body. *)

Definition console : argus_principal_t := console_principal 1 1.
Definition console_context : argus_http_security_context_t := HttpContext console 2 1 (str "token").
Definition demo_machine : argus_machine_credential_once_t := CredentialOnce (str "m-1") (str "secret") 1 1.
Definition demo_state : argus_state_snapshot_t :=
  StateSnapshot ARGUS_STATE_HOLDING 0 0 0 0 0 true true false false false 0 0 false [].

Definition ordinary_machine {X} (op : machine_call X) : X :=
  match op in machine_call X return X with
  | MachineEnroll _ => (ESP_OK, demo_machine)
  | MachineRotate identifier => (ESP_OK, CredentialOnce identifier (str "secret") 2 2)
  | MachineSetEnabled _ _ => ESP_OK
  | MachineSetPermissions _ _ => (ESP_OK, 0)
  | MachineRevoke _ => ESP_OK
  | MachineDelete _ => ESP_OK
  end.

Definition ordinary (root : json) (X : Type) (e : http_call X) (h : history) : X :=
  match e in http_call X return X with
  | Recv max_len => (Z.of_nat max_len, replicate max_len 32)
  | UrlQueryLen => O
  | UrlQueryStr _ => inr []
  | ContentType _ => inr (str "application/json")
  | SetStatus _ => tt
  | SetType _ => tt
  | SetHeader _ _ => tt
  | Send _ => ESP_OK
  | ParseJson text => Some (root, length text)
  | PrintJson _ => Some (str "[]")
  | PrintJsonInto _ _ => Some (str "[]")
  | Require required _ =>
      if (required =? 0) || bool_decide (argus_authorization_require (Some console) required = ARGUS_AUTHZ_ALLOW)
      then (ARGUS_HTTP_ACCESS_OK, console_context) else (ARGUS_HTTP_ACCESS_FORBIDDEN, zero_context)
  | ApOnly => (ARGUS_HTTP_ACCESS_OK, 1)
  | OriginAllowed => ARGUS_HTTP_ACCESS_OK
  | JsonContentType => true
  | Cookie => None
  | RecentlyReauthenticated _ => true
  | MarkReauthenticated _ => tt
  | SessionAuthenticate _ => ESP_OK
  | SessionCreate p => (ESP_OK, Credentials (str "token") (str "csrf") p 0)
  | GetCsrf _ => Some (str "csrf")
  | RevokeToken _ => true
  | RevokePrincipal _ => true
  | RevokeAll => 1%nat
  | Login _ _ _ => LoginOutcome ARGUS_LOGIN_SUCCESS (Some console) 0 true
  | CreateVerifier _ => (ESP_OK, PasswordVerifier 1 1 16 32 1000 [] [])
  | TimeUs => 0
  | GetLastFailureAudit => 0
  | SetLastFailureAudit _ => tt
  | AuditBegin _ _ _ _ _ _ _ => (ESP_OK, None)
  | AuditFinish _ _ => ESP_OK
  | AuditAppend _ _ _ _ _ _ _ _ _ => ESP_OK
  | AuditStatusOf => inl ESP_FAIL
  | AuditReadPage _ _ => (ESP_FAIL, AuditPage [] 0 false false)
  | Directory => None
  | DirectoryFindId _ => None
  | Admin _ _ => ESP_OK
  | Machines => None
  | Machine _ op => ordinary_machine op
  | Quarantine _ => ESP_OK
  | FenceMachine _ => ESP_OK
  | DisconnectMachine _ => ESP_OK
  | SecurityEpoch => inr 1
  | RecoveryState => inr ARGUS_SECURITY_RECOVERY_REQUESTED
  | SetRecoveryState _ => ESP_OK
  | ReplaceApSecret _ _ => ESP_OK
  | SetConsoleVerifier _ _ => ESP_OK
  | FactoryCredentialRefresh => tt
  | FactoryCredentialInUse => false
  | Prepare _ => ESP_OK
  | Cancel _ => tt
  | MayRespond _ => true
  | MarkArmed _ => tt
  | StartTimer _ => ESP_OK
  | StateSnapshotOf => demo_state
  | AuthoritySnapshotOf => (ESP_OK, service_held)
  | NetSnapshotOf => (ESP_OK, demo_reset_net ARGUS_NET_MODE_SERVICE_AP_ONLY)
  | NetMode => ARGUS_NET_MODE_SERVICE_AP_ONLY
  | EvaluateServiceEntry => inl ESP_FAIL
  | BrokerObs => inl ESP_FAIL
  | IdentityOf => inl ESP_FAIL
  | ConfigEffective => inr zero_config
  | ConfigValidate _ => ESP_OK
  | ConfigCommit _ => ESP_OK
  | ManualReconnect => ESP_OK
  | Restart => ESP_OK
  | FactoryReset => ESP_OK
  | PostEvent _ => ESP_OK
  | Dispatch _ => ESP_OK
  end.

Lemma ordinary_sound root X (e : http_call X) h : sound_call e (ordinary root X e h) h.
Proof.
  destruct e; try exact I; cbn [sound_call ordinary]; try done.
  - destruct (Z.eqb_spec required 0); [done|]. cbn [orb]. case_bool_decide; [done|]. intros H'. discriminate H'.
  - by destruct op.
Qed.

(** The trace of a request under them. *)
Definition request_trace (f : httpd_req_t -> handler esp_err_t) (root : json) : list http_event * esp_err_t :=
  trace_with (ordinary root) (f (HttpdReq HTTP_POST 2)) no_history.

Lemma request_traced f root : let '(t, a) := request_trace f root in
  trace_of (f (HttpdReq HTTP_POST 2)) t a /\ sound no_history t.
Proof.
  unfold request_trace. pose proof (trace_with_trace (ordinary root) (f (HttpdReq HTTP_POST 2)) no_history) as Ht.
  pose proof (trace_with_sound (ordinary root) (f (HttpdReq HTTP_POST 2)) (ordinary_sound root) no_history) as Hs.
  destruct (trace_with _ _ _) as [t a]. by split.
Qed.

(** The console enrols a machine. *)
Definition enrollment_json : json :=
  JObject [(str "display_name", JString (str "Panel")); (str "client_type", JString (str "PUMP_HMI"));
           (str "interfaces", JArray [JString (str "STA")]); (str "scope", JString (str "site"));
           (str "topic_scope", JString (str "argus/#")); (str "api_scope", JString []);
           (str "permissions", JArray [JString (str "view_status")])].
Definition enrollment_trace : list http_event := (request_trace machines_post enrollment_json).1.
Definition enrollment_request : argus_machine_enrollment_request_t :=
  default (EnrollmentRequest [] 0 0 0 [] [] [] 0) (decode_enrollment (Some enrollment_json)).
Definition enrolled : http_event := Answered (Machine console (MachineEnroll enrollment_request)) (ESP_OK, demo_machine).

(** The handlers with empty pages. *)
Definition demo_registered : list httpd_uri_t := REGISTERED (fun _ => []) (fun _ => 0) [] [] [].

Lemma enrollment_ran : List.In (str "/api/security/machines", HTTP_POST, machines_post) demo_registered /\
  trace_of (machines_post (HttpdReq HTTP_POST 2)) enrollment_trace ESP_OK /\ sound no_history enrollment_trace /\
  enrollment_trace = take 5 enrollment_trace ++ enrolled :: drop 6 enrollment_trace.
Proof.
  split; [do 32 right; by left|]. pose proof (request_traced machines_post enrollment_json) as H.
  assert (Ha : (request_trace machines_post enrollment_json).2 = ESP_OK) by (vm_compute; reflexivity).
  unfold enrollment_trace. destruct (request_trace machines_post enrollment_json) as [t a] eqn:Ht. cbn in Ha. subst a.
  destruct H as [H1 H2]. split; [exact H1|]. split; [exact H2|]. cbn [fst].
  change t with ((t, ESP_OK).1). rewrite <- Ht. vm_compute. reflexivity.
Qed.

Lemma surface_enforces_inventory_witness :
  exists r, List.In r ROUTES /\ rt_path r = Some (str "/api/security/machines") /\ rt_csrf r = true /\
  exists ctx mutation required,
    Answered (Require required mutation) (ARGUS_HTTP_ACCESS_OK, ctx) ∈ take 5 enrollment_trace /\ route_admits r ctx mutation /\
    Answered (RecentlyReauthenticated (hc_session_index ctx)) true ∈ take 5 enrollment_trace.
Proof.
  destruct enrollment_ran as (Hin & Ht & Hs & He).
  destruct (surface_enforces_inventory (fun _ => []) (fun _ => 0) [] [] [] (str "/api/security/machines") HTTP_POST machines_post
    (HttpdReq HTTP_POST 2) enrollment_trace ESP_OK (take 5 enrollment_trace) enrolled (drop 6 enrollment_trace) Hin Ht Hs He)
    as (r & H1 & H2 & H3 & H4 & ctx & mutation & required & Hreq & Hadm & _ & _ & Hrecent & _).
  exists r. split; [exact H1|]. split; [exact H2|]. split.
  { assert (Hall : forallb (fun r => negb (bool_decide (rt_path r = Some (str "/api/security/machines")) && bool_decide (rt_method r = HTTP_POST))
                        || rt_csrf r) ROUTES = true) by (vm_compute; reflexivity).
    rewrite forallb_forall in Hall. specialize (Hall r H1). rewrite H2, H3 in Hall. rewrite !bool_decide_eq_true_2 in Hall by done. exact Hall. }
  exists ctx, mutation, required. split; [exact Hreq|]. split; [exact Hadm|]. exact (Hrecent eq_refl).
Defined.

Lemma surface_changes_recorded_witness :
  audited (an_call enrolled) = true /\ exists m u1 b u2 w1 fin w2,
    take 5 enrollment_trace = u1 ++ b :: u2 /\ opens m b /\ Forall plain u2 /\
    drop 6 enrollment_trace = w1 ++ Answered (AuditFinish m true) fin :: w2 /\ Forall plain w1.
Proof.
  split; [reflexivity|]. destruct enrollment_ran as (Hin & Ht & Hs & He).
  exact (proj1 (surface_changes_recorded (fun _ => []) (fun _ => 0) [] [] [] (str "/api/security/machines") HTTP_POST machines_post
    (HttpdReq HTTP_POST 2) enrollment_trace ESP_OK (take 5 enrollment_trace) enrolled (drop 6 enrollment_trace) Hin Ht Hs He) eq_refl).
Defined.

Lemma surface_secret_disclosed_once_witness :
  h_minted (note (so_far (take 5 enrollment_trace)) enrolled) = Some demo_machine /\
  exists w1 w w2, drop 6 enrollment_trace = w1 ++ w :: w2 /\
    ((w = Answered (Send (credential_text demo_machine)) ESP_OK /\
      h_outcome (so_far (take 5 enrollment_trace ++ enrolled :: w1)) = Some true) \/
     exists err, w = Answered (Quarantine (co_identifier demo_machine)) err).
Proof.
  assert (Hm : h_minted (note (so_far (take 5 enrollment_trace)) enrolled) = Some demo_machine) by (vm_compute; reflexivity).
  split; [exact Hm|]. destruct enrollment_ran as (Hin & Ht & Hs & He).
  exact (proj1 (surface_secret_disclosed_once (fun _ => []) (fun _ => 0) [] [] [] (str "/api/security/machines") HTTP_POST machines_post
    (HttpdReq HTTP_POST 2) enrollment_trace ESP_OK (take 5 enrollment_trace) enrolled (drop 6 enrollment_trace) demo_machine Hin Ht Hs He Hm)).
Defined.

(** The console ends the recovery: the transition starts after the response. *)
Definition recovery_trace : list http_event := (request_trace recovery_exit_post JNull).1.

Lemma surface_answers_once_witness :
  length (List.filter is_send recovery_trace) = 1%nat /\
  (forall t1 name answer t2, recovery_trace = t1 ++ Answered (StartTimer name) answer :: t2 ->
     h_outcome (so_far t1) = Some true /\ exists body, Answered (Send body) ESP_OK ∈ t1) /\
  exists t1 t2, recovery_trace = t1 ++ Answered (StartTimer RecoveryTransition) ESP_OK :: t2.
Proof.
  pose proof (request_traced recovery_exit_post JNull) as H.
  assert (Hin : List.In (str "/api/security/recovery/exit", HTTP_POST, recovery_exit_post) demo_registered) by (do 30 right; by left).
  destruct (request_trace recovery_exit_post JNull) as [t a] eqn:Ht. destruct H as [H1 H2].
  assert (Hr : recovery_trace = t) by (unfold recovery_trace; by rewrite Ht). rewrite Hr.
  destruct (surface_answers_once (fun _ => []) (fun _ => 0) [] [] [] (str "/api/security/recovery/exit") HTTP_POST recovery_exit_post
    (HttpdReq HTTP_POST 2) t a Hin H1 H2) as [Ho Hs].
  split; [exact Ho|]. split; [exact Hs|]. rewrite <- Hr. exists (take 18 recovery_trace), (drop 19 recovery_trace). vm_compute. reflexivity.
Defined.

(** The console logs in. *)
Definition login_body_json : json :=
  JObject [(str "username", JString (str "argus")); (str "password", JString (str "correct horse"))].
Definition login_trace : list http_event := (request_trace login_post_handler login_body_json).1.
Definition session_created : http_event :=
  Answered (SessionCreate console) (ESP_OK, Credentials (str "token") (str "csrf") console 0).


(** ** The services keep their promises

    [sound] asks of the answers in a trace what the models of the services guarantee. *)

Lemma promised_gate sha256 a now_us rq required mutation s :
  let '(result, ctx, _) := argus_http_security_require sha256 a now_us rq required mutation s in
  result = ARGUS_HTTP_ACCESS_OK -> required <> 0 ->
  argus_authorization_require (Some (hc_principal ctx)) required = ARGUS_AUTHZ_ALLOW.
Proof.
  unfold argus_http_security_require. destruct rq as [rq|]; [|done].
  destruct (argus_http_security_ap_only _ _ _ _) as [[result peer] s1]. destruct result; try done.
  destruct (authenticate_request _ _ _ _) as [[[[token principal] index]|] m]; [|done]. cbn zeta.
  destruct (Z.eqb_spec required 0) as [->|Hn]; cbn [negb andb].
  { destruct (negb mutation); [done|]. by destruct (mutation_gate _ _ _ _). }
  destruct (bool_decide_reflect (argus_authorization_require (Some principal) required = ARGUS_AUTHZ_ALLOW)); [|done].
  cbn [negb]. destruct (negb mutation); [done|]. by destruct (mutation_gate _ _ _ _).
Qed.

Lemma promised_rotation verifier_create initialized actor identifier secret_random d p c : (length identifier < 37)%nat ->
  argus_machine_service_rotate verifier_create initialized actor identifier secret_random d = inr (p, c) -> co_identifier c = identifier.
Proof.
  intros Hl. unfold argus_machine_service_rotate, mutable_target. destruct (_ || _); [done|].
  destruct (argus_machine_directory_get_snapshot d) as [e|[q g]]; [done|].
  destruct (List.find _ _) as [i|] eqn:Hf; [|done]. apply find_some in Hf as [_ Hi]. apply bool_decide_eq_true in Hi.
  destruct (negb _); [done|]. destruct (generate_credential _ _) as [e|[secret verifier]]; [done|]. intros H. injection H as _ <-. cbn.
  rewrite <- Hi. exact (strlcpy_fits identifier 37 Hl).
Qed.

Lemma promised_entry net auth owner event :
  argus_service_policy_evaluate_entry_for_owner net auth owner = (ARGUS_SVC_POLICY_OK, Some event) ->
  ev_type event = ARGUS_NET_EVT_SERVICE_REQUEST.
Proof. unfold argus_service_policy_evaluate_entry_for_owner. repeat case_match; intros; simplify_eq/=; done. Qed.

Lemma promised_reservation t : (argus_security_transition_prepare t).1 = ESP_OK ->
  may_respond (argus_security_transition_prepare t).2 = true.
Proof.
  destruct t as [ready reserved armed claimed]. unfold argus_security_transition_prepare, may_respond. cbn.
  by destruct ready, reserved, armed.
Qed.
